(* ===== verification/_CoqProject ===== *)
-Q . S2P
Prelude.v
Bytes.v
Utf8.v
F64.v
AdobeData.v
AdobeReader.v
AdobePrint.v
CatalogWriter.v
GateRegistry.v
ByteBudget.v
DecodedCache.v
Scheduler.v
SchedulerReads.v
XmpBase.v
XmpJpeg.v
XmpChunks.v
XmpTiff.v
XmpBmff.v
XmpPackets.v
Recipe.v
AdobeSettings.v
AdobeMapping.v
Requested.v
RdfModel.v
RdfOrder.v
RdfReading.v
RdfTheorems.v
RdfPrint.v
RdfComparison.v
Wal.v
Psd.v
PsdRows.v
PsdTheorems.v
CatalogEdits.v
EditLineage.v
EditTheorems.v
EditHistory.v
EditCopy.v
CopyJobs.v
FsWire.v
FsOps.v
ReadErrors.v
PreviewSelection.v
ManagedReads.v
ReadOwnership.v
ReadLedger.v
ReadRuns.v
ReadCurrent.v
ReadDemo.v
FsProcess.v
FsFrames.v
FsHelper.v
FsSafety.v
FsPromises.v
FsOrigin.v
FsClient.v
FsClientCalls.v
FsClientSafety.v
FsClientShutdown.v
FsClientWakeups.v
FsClientPromises.v
FsCodec.v
FsSystem.v
