(* ===== verification/Prelude.v ===== *)
(** PhotoCatalog (LensWorks): verification of the program's core logic.

    * The program

    A desktop photo catalog in Rust.  A catalog is a SQLite database and the files
    beside it.  Several processes work on it: the application, a filesystem helper
    that alone holds open directories, and workers for imports and renders.  This
    library models the logic that decides what is kept, shown and written, as
    functions and step relations that follow the source, and proves what users of
    that logic rely on.  Comments of the form "@source file:lines symbol" in front
    of a definition name the code it translates.

    * Parts, files and code

    Foundations.
    - Prelude: results and the state-and-error monad [proc] with its notations, the
      hint database and the lemmas shared by all files.
    - Bytes: integers in byte strings.  Utf8: valid texts and their character
      boundaries.  F64: finite doubles, decimal parsing and rounding to singles.

    Access to the catalog.
    - CatalogWriter: catalog_writer.rs.  [State] is the state under the gate's mutex,
      [step] the interleaving of the threads' critical sections.  GateRegistry: the gates
      of all roots and the references that keep them alive, composed with CatalogWriter.

    Previews (preview/memory.rs, preview/codec.rs, preview/scheduler.rs).
    - ByteBudget: pools and reservations as cells of a heap, since handles alias
      them; the class [BytePool] states what clients may use, and its instance
      discharges it.
    - DecodedCache: the LRU of decoded pixels, written against [BytePool].
    - Scheduler: admission of renders and of native reads; cancellation tokens are
      cells shared by a lease and its job; a failed index or an underflow is the
      outcome [Panic].  SchedulerReads: what each operation does to the native reads.

    Cached previews (preview/managed_reads.rs, read_queue.rs, transport_task.rs,
    worker/read_transport.rs, and parts of preview/store.rs and service.rs).
    - ReadErrors: causes of errors and what survives their retention.
    - PreviewSelection: keys, identities of pixels (composed with CatalogEdits), the
      selection of a cached object and the costs of decoding.  [Outside] is everything
      a call may be answered by the database, the store and the threads.
    - ManagedReads: one read, as steps on the service and the read, and the queue.  It
      composes Scheduler, ByteBudget and DecodedCache.
    - ReadOwnership: what a read holds while it is polled.  ReadLedger: which entry of
      the scheduler belongs to which ticket, and where tickets go.  ReadRuns: arbitrary
      sequences of calls, with renders ([submit], [cancel] and [take_completion] of
      service.rs) and other owners in between; theorems.
      ReadCurrent: what is shown.  ReadDemo: concrete runs.

    Reading metadata (xmp_packets.rs).
    - XmpBase: the data, the budgets and the primitive operations, with the judgement
      [sound] every parser is shown to satisfy.  XmpJpeg, XmpChunks, XmpTiff, XmpBmff:
      the parsers of the containers.  XmpPackets: dispatch, verdict and theorems.

    Adobe settings (lightroom/adobe_data.rs, lightroom/adobe.rs).
    - AdobeData: the reader of serialized settings.  AdobeReader, AdobePrint: its
      theorems, by the judgement [okay] and by a printer.
    - AdobeSettings: classification, mapping, [extract] and [apply_to].
      AdobeMapping: its theorems; it composes AdobeData, F64 and Recipe.

    Comparing metadata (xmp_rdf.rs, lightroom_migration_worker/memory/).
    - Requested: checked layouts, the storage of trees and parsed texts, and the scopes
      that account for what is live.  [guarded], [owning] and [consuming] are the three
      ways the code holds a guard.
    - RdfModel: documents, values and the whole comparison.  RdfOrder: the order of
      values and sorted maps.  RdfReading: what each reader accepts.  RdfTheorems:
      normal forms and the rules [same] of equivalent encodings.  RdfPrint: a canonical
      element for each value.  RdfComparison: theorems; it composes RdfModel and
      Requested.

    Reading images and logs.
    - Wal: lightroom/wal.rs, the validation of a write-ahead log.
    - Psd: media/psd.rs, composites in single precision; an index or a slice out of
      range is a panic of the model.  PsdRows: the coding of rows
      and their prediction.  PsdTheorems: the judgement [walks] of readings, theorems.

    Edits (edit/recipe.rs, catalog_edits.rs, catalog_edits/copy.rs).
    - Recipe: settings as [f32] bit patterns, validation and group copy.
    - CatalogEdits: the edit tables as finite maps and the transactions on them.
      EditLineage: their invariant.  EditTheorems and EditHistory: theorems and the
      refinement to a zipper of documents.
    - EditCopy, CopyJobs: copy jobs, composed with Recipe and CatalogEdits, with
      other writers between two targets.

    The filesystem helper (filesystem_worker/wire.rs, process.rs and client.rs).
    - FsWire: frames, messages and their reassembly from pipes that interrupt,
      shorten, tear and end transfers.  FsOps: operations and their failures.
    - FsProcess: the state of the helper and its four threads, a critical section
      per step.  FsFrames: what one frame does.  FsHelper: the invariant of every
      reachable world.  FsSafety, FsPromises: theorems.  FsOrigin: where what is
      executed comes from.
    - FsClient: the state of the client, its callers and its pipe threads, in the same
      way.  FsClientCalls, FsClientSafety, FsClientShutdown, FsClientWakeups: what is
      kept of a call, of all calls, of the shutdown and of sleepers.
      FsClientPromises: theorems.
    - FsCodec: the texts of operations and outcomes, with the binary envelope of
      catalog_session/preview_io.rs around serde's JSON; it implements the codec classes
      of FsOps and FsClient.
    - FsSystem: client and helper joined by two pipes of frames, with FsCodec on both
      ends.  The control replies of the helper are left arbitrary, which allows more than
      the code does.

    * What the theorems show

    - Exclusion and order: one writer for each root however often it is opened, first in
      first out by class, a free gate always admits somebody.
    - Accounting: pools never exceed their limits, the cache charges exactly the live
      pixels, the scheduler never overcommits, loses no consumer, accepts no stale
      lease and cannot panic.  What the scopes of Requested call live is what their
      guards hold, below an admitted high water, and the storage of a map covers every
      B-tree of that size with an insertion under way.
    - Cached previews: every native request has one owner and one lease at most, no call
      panics whatever it is answered, tickets end once, and a view not marked stale has
      the key of the edit that was asked for and that the catalog holds.
    - Evidence: every retained XMP packet and every retained Adobe property is the
      source at its offsets; extended XMP is accepted only with its digest; nothing
      of a failed reading is kept; nothing is mapped into a recipe without an
      unambiguous, qualified property in its domain; and whatever is mapped fits.
      An accepted log is a header, valid frames in a chain, stale frames and a tail.
    - Comparison: two packets compare equal exactly when they denote one model; values
      are normal forms; two elements have one value exactly when the rules of
      equivalent encodings relate them; a value survives its canonical element.
    - Images: a composite is read into a bounded image or refused, coded rows are read
      as the grammar of the code says, and prediction is undone.
    - Edits: validation is exact; the lineage of documents is sound in every reachable
      database; undo and redo are inverse; the tables refine a zipper; a copy job
      settles each target once and makes progress.
    - Helper: an operation runs at most once, a stop lets only cleanup start, results
      are held until acknowledged, retirement is checked, wake-ups are not lost but
      for one case (a stop that arrives inside a failing attempt), and a message crosses any pipe exactly or is refused.
    - Client: calls are answered once and with their own results, a closing client
      sends only cleanup, an affirmed shutdown was checked, sleepers are woken.
    - Both together: the engine executes only what calls submitted, once, and a call
      that succeeds was executed, for the codec of the repository.
    - Termination: inspections and readings end on every input, loops of the cache and
      of the frame reader end, each as a statement that enough fuel gives the result.

    [legacy_hit_keeps_request] of ReadDemo is a run of managed_reads.rs in which a read
    that a decoded legacy page serves leaves its request in the scheduler; by
    [native_reads_owned] of ReadRuns nothing else is left behind, and by
    [idle_reads_hold_nothing] nothing at all in a catalog without legacy previews.
    Three behaviours of process.rs are recorded as lemmas of FsPromises:
    [end_during_drain_sleeps] (a stop that arrives while an earlier attempt is failing
    is not retried), [stop_after_retirement] (a stop after retirement takes the phase
    back) and [rejected_early_cancel_blocks] (an early cancellation outlives the
    rejection of its operation).  One of client.rs is [unanswered_after_end] of
    FsClientPromises (a cleanup that meets the end of the transport waits for ever).
    [type_names_uncounted] of RdfComparison shows that the scan of xmp_rdf.rs counts
    less text than its comment says.

    * Fuel and bounds

    Recursion that is not structural takes fuel, and running out is an error value of
    its own.  The reader of Adobe settings gets two steps for each byte and two
    more: each call consumes a byte or is followed by one that does.  The walks over
    containers are bounded by the entry budget or by the distance to the end of the
    source; [sound] shows that their fuel lasts.  The loops over the blocks and rows of
    a composite get a step for each byte and one more; [walks] shows that each turn
    moves forward.  The height of a tree gets 64 steps, since each multiplies its
    entries by six.  The loops of DecodedCache are
    bounded by the number of entries and of retries the code allows.  Counters of
    width 64 and 32 are integers with the overflow behaviour of the code (checked,
    saturating or wrapping) written out; offsets into a source are below its length.

    * Parameters

    Code outside the repository is a parameter: serde_json (as functions of a class with
    what they read back of their own texts, or as a length test), BLAKE3 and MD5, image decoders and decompressors,
    the native color conversion, the XML reader, the layouts of types, SQLite's row
    numbers, fresh identifiers, the engine behind the helper, the manifest of the
    preview store and the threads that carry its bytes.  Hypotheses about them state
    their documented behaviour only, and each theorem with hypotheses is applied
    to a concrete instance in the lemma of the same name with the suffix _witness.
    Callbacks are parameters too: the one that admits storage may answer anything.

    * Not modelled

    - The start of the helper process, and the evidence about a file's stability during
      an inspection, which is a boolean input.
    - Handlers of the filesystem engine, the functions of the client that only build a
      request and match the kind of its reply, and the catalog session: system calls
      and process handles around the modelled protocol.
    - Of the previews: renders, relocation, the branches without managed files, timings
      and metrics, and what the threads of a transport do.  The loop of a synchronous
      read is a definition ([cached_inner]) but not a step of the runs.
    - The expressions of memory/core.rs other than that of parsed texts, one for each
      kind of worker data.
    - SQL other than the edit tables, the interpretation of a Lightroom catalog,
      migration, backup and export: their logic is mostly SQL text and file orchestration.
    - Pixel kernels, decoders, XMP writing through the vendored toolkit, the user
      interface and the command line. *)
From stdpp Require Import base tactics option list numbers gmap strings fin_maps.
From Stdlib Require Import ZArith Lia.

Open Scope Z_scope.

(** ** Fallible results: Rust's [Result<T, E>]. *)

Inductive result (E A : Type) : Type :=
| Ok (a : A)
| Err (e : E).
Arguments Ok {E A} a.
Arguments Err {E A} e.

Definition is_ok {E A} (r : result E A) : bool :=
  match r with Ok _ => true | Err _ => false end.

(** ** State threading with errors that keep the state.

    A Rust method on [&mut self] returning [Result] leaves in place every
    write made before its [?] returned: the state is part of the outcome on
    the error path too. *)

Definition proc (E S A : Type) : Type := S -> S * result E A.

Definition ret {E S A} (a : A) : proc E S A := fun s => (s, Ok a).
Definition fail {E S A} (e : E) : proc E S A := fun s => (s, Err e).
Definition bind {E S A B} (m : proc E S A) (k : A -> proc E S B) : proc E S B :=
  fun s => match m s with
           | (s', Ok a) => k a s'
           | (s', Err e) => (s', Err e)
           end.
Definition get {E S} : proc E S S := fun s => (s, Ok s).
Definition put {E S} (s : S) : proc E S unit := fun _ => (s, Ok tt).
Definition modify {E S} (f : S -> S) : proc E S unit := fun s => (f s, Ok tt).
Definition gets {E S A} (f : S -> A) : proc E S A := fun s => (s, Ok (f s)).
(** [anyhow::ensure!]. *)
Definition ensure {E S} (b : bool) (e : E) : proc E S unit :=
  if b then ret tt else fail e.
(** A value already computed as a [Result]; [x?]. *)
Definition lift {E S A} (r : result E A) : proc E S A := fun s => (s, r).
(** [option.ok_or(e)?]. *)
Definition of_option {E S A} (o : option A) (e : E) : proc E S A :=
  match o with Some a => ret a | None => fail e end.
(** A call whose error is inspected by its caller instead of propagated. *)
Definition try {E S A} (m : proc E S A) : proc E S (result E A) :=
  fun s => match m s with (s', r) => (s', Ok r) end.

Declare Scope prog_scope.
Delimit Scope prog_scope with prog.
Notation "'let*' x ':=' m 'in' k" := (bind m (fun x => k))
  (at level 10, x name, m at level 200, k at level 200) : prog_scope.
Notation "'let*' ' p ':=' m 'in' k" := (bind m (fun x => match x with p => k end))
  (at level 10, p strict pattern, m at level 200, k at level 200) : prog_scope.
Notation "m ';;;' k" := (bind m (fun _ => k))
  (at level 100, k at level 200, right associativity) : prog_scope.

(** [r?] in a function that keeps no state. *)
Definition rbind {E A B} (r : result E A) (k : A -> result E B) : result E B :=
  match r with Ok a => k a | Err e => Err e end.
Notation "'let?' x ':=' r 'in' k" := (rbind r (fun x => k))
  (at level 10, x name, r at level 200, k at level 200) : prog_scope.
Definition rensure {E} (b : bool) (e : E) : result E unit := if b then Ok tt else Err e.

Lemma rbind_Ok {E A B} (r : result E A) (k : A -> result E B) b :
  rbind r k = Ok b <-> exists a, r = Ok a /\ k a = Ok b.
Proof.
  split.
  - destruct r as [a|e]; simpl; [eauto|done].
  - by intros (a & -> & Hk).
Qed.

(** Running a sequence whose first part is known. *)
Lemma bind_ok {E S A B} (m : proc E S A) (k : A -> proc E S B) s s' a :
  m s = (s', Ok a) -> bind m k s = k a s'.
Proof. unfold bind. by intros ->. Qed.
Lemma bind_err {E S A B} (m : proc E S A) (k : A -> proc E S B) s s' e :
  m s = (s', Err e) -> bind m k s = (s', Err e).
Proof. unfold bind. by intros ->. Qed.

Section Run.
Context {E S A B : Type}.
Implicit Types (k : A -> proc E S B) (s : S).

Lemma bind_ret a k s : bind (ret a) k s = k a s.
Proof. reflexivity. Qed.
Lemma bind_fail (e : E) k s : bind (fail e) k s = (s, Err e).
Proof. reflexivity. Qed.
Lemma bind_get (k : S -> proc E S B) s : bind get k s = k s s.
Proof. reflexivity. Qed.
Lemma bind_put s' (k : unit -> proc E S B) s : bind (put s') k s = k tt s'.
Proof. reflexivity. Qed.
Lemma bind_modify f (k : unit -> proc E S B) s : bind (modify f) k s = k tt (f s).
Proof. reflexivity. Qed.
Lemma bind_ensure b (e : E) (k : unit -> proc E S B) s :
  bind (ensure b e) k s = if b then k tt s else (s, Err e).
Proof. by destruct b. Qed.
Lemma bind_of_option o (e : E) k s :
  bind (of_option o e) k s = match o with Some a => k a s | None => (s, Err e) end.
Proof. by destruct o. Qed.
Lemma bind_lift (r : result E A) k s :
  bind (lift r) k s = match r with Ok a => k a s | Err e => (s, Err e) end.
Proof. by destruct r. Qed.
End Run.

Lemma bind_bind {E S A B C} (m : proc E S A) (k : A -> proc E S B) (k' : B -> proc E S C) s :
  bind (bind m k) k' s = bind m (fun a => bind (k a) k') s.
Proof. unfold bind. by destruct (m s) as [s' [a|e]]. Qed.

Create Rewrite HintDb run.
#[export] Hint Rewrite @bind_ret @bind_fail @bind_get @bind_put @bind_modify @bind_ensure
  @bind_of_option @bind_lift : run.
(** Execute the leading primitive steps of a program. *)
Ltac run := autorewrite with run.

(** What a successful run tells about its parts. *)
Lemma bind_Ok_inv {E S A B} (m : proc E S A) (k : A -> proc E S B) s s' b :
  bind m k s = (s', Ok b) -> exists s1 a, m s = (s1, Ok a) /\ k a s1 = (s', Ok b).
Proof. unfold bind. destruct (m s) as [s1 [a|e]]; [eauto|done]. Qed.
Lemma ensure_Ok_inv {E S} b (e : E) (s s' : S) u : ensure b e s = (s', Ok u) -> b = true /\ s' = s.
Proof. destruct b; [by intros [= <-]|done]. Qed.
Lemma lift_Ok_inv {E S A} (r : result E A) (s s' : S) a : lift r s = (s', Ok a) -> r = Ok a /\ s' = s.
Proof. unfold lift. by intros [= <- ->]. Qed.
Lemma of_option_Ok_inv {E S A} (o : option A) (e : E) (s s' : S) a :
  of_option o e s = (s', Ok a) -> o = Some a /\ s' = s.
Proof. destruct o; [by intros [= <- <-]|done]. Qed.

(** Take the successful run [H] apart, up to the next opaque call or case. *)
Ltac take_apart H :=
  match type of H with
  | bind (ensure _ _) _ _ = (_, Ok _) =>
      let Hb := fresh "Hb" in
      apply bind_Ok_inv in H as (? & ? & [Hb ->]%ensure_Ok_inv & H); take_apart H
  | bind (lift _) _ _ = (_, Ok _) =>
      let Hl := fresh "Hl" in
      apply bind_Ok_inv in H as (? & ? & [Hl ->]%lift_Ok_inv & H); take_apart H
  | bind (of_option _ _) _ _ = (_, Ok _) =>
      let Ho := fresh "Ho" in
      apply bind_Ok_inv in H as (? & ? & [Ho ->]%of_option_Ok_inv & H); take_apart H
  | bind get _ _ = _ => rewrite bind_get in H; take_apart H
  | bind (put _) _ _ = _ => rewrite bind_put in H; take_apart H
  | bind (modify _) _ _ = _ => rewrite bind_modify in H; take_apart H
  | bind (ret _) _ _ = _ => rewrite bind_ret in H; take_apart H
  | bind (bind _ _) _ _ = _ => rewrite bind_bind in H; take_apart H
  | _ => idtac
  end.

(** *** A small program logic: the outcome of a run from states satisfying [P]
    satisfies [Q] when it returns and [R] when it fails. *)

Definition triple {E S A} (P : S -> Prop) (m : proc E S A)
    (Q : A -> S -> Prop) (R : E -> S -> Prop) : Prop :=
  forall s, P s -> match m s with
                   | (s', Ok a) => Q a s'
                   | (s', Err e) => R e s'
                   end.

(** [I] is kept on both outcomes. *)
Definition preserves {E S A} (I : S -> Prop) (m : proc E S A) : Prop :=
  triple I m (fun _ => I) (fun _ => I).

Section ProgramLogic.
Context {E S : Type}.
Implicit Types (P I : S -> Prop).

Lemma triple_ret {A} P (a : A) (Q : A -> S -> Prop) (R : E -> S -> Prop) :
  (forall s, P s -> Q a s) -> triple P (ret a) Q R.
Proof. intros H s Hs. exact (H s Hs). Qed.

Lemma triple_bind {A B} P (m : proc E S A) (k : A -> proc E S B) Q1 Q R :
  triple P m Q1 R -> (forall a, triple (Q1 a) (k a) Q R) ->
  triple P (bind m k) Q R.
Proof.
  intros Hm Hk s Hs. unfold bind. specialize (Hm s Hs).
  destruct (m s) as [s' [a|e]]; [exact (Hk a s' Hm)|exact Hm].
Qed.

Lemma triple_conseq {A} P P' (m : proc E S A) Q Q' R R' :
  triple P' m Q' R' -> (forall s, P s -> P' s) ->
  (forall a s, Q' a s -> Q a s) -> (forall e s, R' e s -> R e s) ->
  triple P m Q R.
Proof.
  intros H HP HQ HR s Hs. specialize (H s (HP s Hs)).
  destruct (m s) as [s' [a|e]]; auto.
Qed.

Lemma triple_try {A} P (m : proc E S A) (Q : result E A -> S -> Prop) R :
  triple P m (fun a => Q (Ok a)) (fun e => Q (Err e)) -> triple P (try m) Q R.
Proof.
  intros H s Hs. specialize (H s Hs). unfold try.
  destruct (m s) as [s' [a|e]]; exact H.
Qed.

Lemma preserves_ret {A} I (a : A) : preserves (E:=E) I (ret a).
Proof. intros s Hs. exact Hs. Qed.
Lemma preserves_fail {A} I (e : E) : preserves I (fail (A:=A) e).
Proof. intros s Hs. exact Hs. Qed.
Lemma preserves_bind {A B} I (m : proc E S A) (k : A -> proc E S B) :
  preserves I m -> (forall a, preserves I (k a)) -> preserves I (bind m k).
Proof. intros Hm Hk. eapply triple_bind; [exact Hm|exact Hk]. Qed.
Lemma preserves_get I : preserves (E:=E) I get.
Proof. intros s Hs. exact Hs. Qed.
Lemma preserves_gets {A} I (f : S -> A) : preserves (E:=E) I (gets f).
Proof. intros s Hs. exact Hs. Qed.
Lemma preserves_ensure I b (e : E) : preserves I (ensure b e).
Proof. destruct b; intros s Hs; exact Hs. Qed.
Lemma preserves_lift {A} I (r : result E A) : preserves I (lift r).
Proof. intros s Hs. destruct r; exact Hs. Qed.
Lemma preserves_of_option {A} I (o : option A) (e : E) : preserves I (of_option o e).
Proof. destruct o; intros s Hs; exact Hs. Qed.
Lemma preserves_try {A} I (m : proc E S A) : preserves I m -> preserves I (try m).
Proof. intros H. apply triple_try. exact H. Qed.
Lemma preserves_modify I (f : S -> S) :
  (forall s, I s -> I (f s)) -> preserves (E:=E) I (modify f).
Proof. intros H s Hs. exact (H s Hs). Qed.
End ProgramLogic.

Create HintDb prog.
#[export] Hint Resolve preserves_ret preserves_fail preserves_get preserves_gets
  preserves_ensure preserves_lift preserves_of_option preserves_try : prog.

(** Walk a straight-line program, splitting binds and case distinctions, and
    close the leaves from the [prog] database. *)
Ltac preserve_step :=
  match goal with
  | |- preserves _ (bind _ _) => apply preserves_bind; [|intros ?]
  | |- preserves _ (if ?b then _ else _) => destruct b eqn:?
  | |- preserves _ (match ?x with _ => _ end) => destruct x eqn:?
  | |- preserves _ (let '_ := ?x in _) => destruct x eqn:?
  end.
Ltac preserve := repeat (first [solve [eauto with prog] | preserve_step]); eauto with prog.

(** ** Machine integers.  Unsigned values are [Z]s; the checked operations carry
    their width, the unchecked ones are plain and the invariants of each
    component show that they stay in range. *)

Definition u64_max : Z := 2 ^ 64 - 1.
Definition u32_max : Z := 2 ^ 32 - 1.
Definition i64_max : Z := 2 ^ 63 - 1.

(** [checked_add] on [u64] (and on the 64-bit [usize]). *)
Definition checked_add (a b : Z) : option Z :=
  if a + b <=? u64_max then Some (a + b) else None.
Definition checked_mul (a b : Z) : option Z :=
  if a * b <=? u64_max then Some (a * b) else None.
Definition checked_sub (a b : Z) : option Z :=
  if b <=? a then Some (a - b) else None.
(** [saturating_add] and [saturating_sub] on [u64]. *)
Definition saturating_add (a b : Z) : Z := Z.min u64_max (a + b).
Definition saturating_sub (a b : Z) : Z := Z.max 0 (a - b).

Lemma checked_add_Some a b c :
  checked_add a b = Some c <-> c = a + b /\ a + b <= u64_max.
Proof.
  unfold checked_add. destruct (Z.leb_spec (a + b) u64_max); split; intros H1.
  - injection H1 as <-. auto.
  - destruct H1 as [-> _]. reflexivity.
  - discriminate.
  - lia.
Qed.
Lemma checked_mul_Some a b c :
  checked_mul a b = Some c <-> c = a * b /\ a * b <= u64_max.
Proof.
  unfold checked_mul. destruct (Z.leb_spec (a * b) u64_max); split; intros H1.
  - injection H1 as <-. auto.
  - destruct H1 as [-> _]. reflexivity.
  - discriminate.
  - lia.
Qed.

(** ** Selection of a least element: Rust's [Iterator::min_by_key].

    The first of several minimal elements is returned; the callers select on
    keys that are unique, so that the unspecified iteration order of a
    [HashMap] does not show. *)

Section MinBy.
Context {A : Type} (R : relation A) `{!RelDecision R, !Transitive R, !Total R}.

Fixpoint min_by (l : list A) : option A :=
  match l with
  | [] => None
  | x :: l' => match min_by l' with
               | None => Some x
               | Some y => Some (if decide (R x y) then x else y)
               end
  end.

Lemma min_by_None l : min_by l = None <-> l = [].
Proof. destruct l; simpl; [done|]. destruct (min_by l); done. Qed.

Lemma min_by_Some l x : min_by l = Some x -> x ∈ l /\ forall y, y ∈ l -> R x y.
Proof.
  revert x. induction l as [|z l IH]; simpl; intros x Hx; [done|].
  destruct (min_by l) as [w|] eqn:Hw.
  - destruct (IH w eq_refl) as [Hin Hle]. injection Hx as <-. case_decide as Hd.
    + split; [left|]. intros y [->|Hy]%elem_of_cons.
      * by destruct (total R z z).
      * etrans; [exact Hd|auto].
    + split; [by right|]. intros y [->|Hy]%elem_of_cons; [|auto].
      by destruct (total R z w).
  - injection Hx as <-. apply min_by_None in Hw as ->.
    split; [by left|]. intros y [->|Hy]%elem_of_cons; [by destruct (total R z z)|set_solver].
Qed.

Lemma min_by_is_Some l x : x ∈ l -> is_Some (min_by l).
Proof.
  intros Hx. destruct (min_by l) eqn:H; [eauto|].
  apply min_by_None in H as ->. set_solver.
Qed.

Lemma min_by_intro `{!AntiSymm (=) R} l x :
  x ∈ l -> (forall y, y ∈ l -> R x y) -> min_by l = Some x.
Proof.
  intros Hx Hle. destruct (min_by_is_Some l x Hx) as [z Hz]. rewrite Hz.
  destruct (min_by_Some l z Hz) as [Hin Hmin]. f_equal.
  apply (anti_symm R); auto.
Qed.
End MinBy.

(** ** Sums over the values of a finite map. *)

Section MapSum.
Context `{Countable K} {V : Type}.
Implicit Types (f : V -> Z) (m : gmap K V).

Definition map_sum f m : Z := map_fold (fun _ v acc => f v + acc) 0 m.

Lemma map_sum_empty f : map_sum f ∅ = 0.
Proof. apply map_fold_empty. Qed.

Lemma map_sum_insert f m k v :
  m !! k = None -> map_sum f (<[k:=v]> m) = f v + map_sum f m.
Proof. intros Hk. unfold map_sum. rewrite map_fold_insert_L; [done|intros; lia|done]. Qed.

Lemma map_sum_delete f m k v :
  m !! k = Some v -> map_sum f m = f v + map_sum f (delete k m).
Proof.
  intros Hk. rewrite <-(insert_delete_id m k v Hk) at 1.
  apply map_sum_insert, lookup_delete_eq.
Qed.

Lemma map_sum_update f m k v w :
  m !! k = Some v -> map_sum f (<[k:=w]> m) = f w - f v + map_sum f m.
Proof.
  intros Hk. rewrite <-insert_delete_eq, map_sum_insert by apply lookup_delete_eq.
  rewrite (map_sum_delete f m k v Hk). lia.
Qed.

Lemma map_sum_nonneg f m :
  (forall k v, m !! k = Some v -> 0 <= f v) -> 0 <= map_sum f m.
Proof.
  induction m as [|k v m Hk IH] using map_ind; intros Hf.
  - by rewrite map_sum_empty.
  - rewrite map_sum_insert by done.
    pose proof (Hf k v (lookup_insert_eq _ _ _)).
    enough (0 <= map_sum f m) by lia. apply IH. intros j w Hj.
    apply (Hf j). by rewrite lookup_insert_ne by congruence.
Qed.

Lemma map_sum_lookup_le f m k v :
  (forall j w, m !! j = Some w -> 0 <= f w) -> m !! k = Some v -> f v <= map_sum f m.
Proof.
  intros Hf Hk. rewrite (map_sum_delete f m k v Hk).
  enough (0 <= map_sum f (delete k m)) by lia.
  apply map_sum_nonneg. intros j w [_ Hj]%lookup_delete_Some. eauto.
Qed.

Lemma map_sum_ext f g m :
  (forall k v, m !! k = Some v -> f v = g v) -> map_sum f m = map_sum g m.
Proof.
  induction m as [|k v m Hk IH] using map_ind; intros Hfg; [done|].
  rewrite !map_sum_insert by done. f_equal.
  - apply (Hfg k), lookup_insert_eq.
  - apply IH. intros j w Hj. apply (Hfg j). by rewrite lookup_insert_ne by congruence.
Qed.

Lemma map_sum_zero f m :
  (forall k v, m !! k = Some v -> f v = 0) -> map_sum f m = 0.
Proof.
  intros Hf. rewrite (map_sum_ext f (fun _ => 0)) by eauto.
  clear Hf. induction m as [|k v m Hk IH] using map_ind; [done|].
  by rewrite map_sum_insert, IH.
Qed.

Lemma map_sum_omap {W} (g : W -> Z) (f : V -> option W) m :
  map_sum (fun v => from_option g 0 (f v)) m = map_fold (fun _ w acc => g w + acc) 0 (omap f m).
Proof.
  induction m as [|k v m Hk IH] using map_ind.
  - by rewrite omap_empty, !map_fold_empty.
  - rewrite map_sum_insert, IH by done. destruct (f v) as [w|] eqn:Hf; simpl.
    + rewrite (omap_insert_Some _ _ _ _ w) by done.
      rewrite (map_fold_insert_L _ _ k w); [done|intros; lia|]. by rewrite lookup_omap, Hk.
    + rewrite omap_insert_None by done. rewrite delete_id; [done|]. by rewrite lookup_omap, Hk.
Qed.
End MapSum.

(** The number of entries that satisfy a test: [values().filter(p).count()]. *)
Definition count_if {V} (p : V -> bool) (v : V) : Z := if p v then 1 else 0.
Definition map_count `{Countable K} {V} (p : V -> bool) (m : gmap K V) : Z :=
  map_sum (count_if p) m.
(** [HashMap::len] as an integer. *)
Definition map_len `{Countable K} {V} (m : gmap K V) : Z := Z.of_nat (size m).

Lemma map_len_empty `{Countable K} {V} : map_len (∅ : gmap K V) = 0.
Proof. unfold map_len. by rewrite map_size_empty. Qed.
Lemma map_len_insert `{Countable K} {V} (m : gmap K V) k v :
  m !! k = None -> map_len (<[k:=v]> m) = map_len m + 1.
Proof. intros Hk. unfold map_len. rewrite map_size_insert_None by done. lia. Qed.
Lemma map_len_update `{Countable K} {V} (m : gmap K V) k v :
  is_Some (m !! k) -> map_len (<[k:=v]> m) = map_len m.
Proof. intros Hk. unfold map_len. by rewrite map_size_insert_Some. Qed.
Lemma map_len_delete `{Countable K} {V} (m : gmap K V) k :
  is_Some (m !! k) -> map_len (delete k m) = map_len m - 1.
Proof.
  intros Hk. unfold map_len. rewrite map_size_delete_Some by done.
  enough (size m ≠ 0%nat) by lia. intros H0%map_size_empty_inv. subst m.
  destruct Hk as [? Hk]. by rewrite lookup_empty in Hk.
Qed.
Lemma map_len_remove `{Countable K} {V} (m : gmap K V) k : map_len (delete k m) <= map_len m.
Proof. unfold map_len. pose proof (map_size_delete k m) as Hd. destruct (m !! k); rewrite Hd; unfold id; lia. Qed.
Lemma map_len_add `{Countable K} {V} (m : gmap K V) k v : map_len (<[k := v]> m) <= map_len m + 1.
Proof. unfold map_len. pose proof (map_size_insert k v m) as Hd. destruct (m !! k); rewrite Hd; unfold id; lia. Qed.
Lemma map_len_nonneg `{Countable K} {V} (m : gmap K V) : 0 <= map_len m.
Proof. unfold map_len. lia. Qed.

Create Rewrite HintDb prog.
#[export] Hint Rewrite @map_sum_empty @map_len_empty : prog.

(** ** Orders on a projected integer, for [min_by]. *)

Definition asc_on {A} (f : A -> Z) : relation A := fun x y => f x <= f y.
Definition desc_on {A} (f : A -> Z) : relation A := fun x y => f y <= f x.

#[export] Instance asc_on_dec {A} (f : A -> Z) : RelDecision (asc_on f) := fun x y => Z_le_dec (f x) (f y).
#[export] Instance asc_on_trans {A} (f : A -> Z) : Transitive (asc_on f).
Proof. intros x y z. unfold asc_on. lia. Qed.
#[export] Instance asc_on_total {A} (f : A -> Z) : Total (asc_on f).
Proof. intros x y. unfold asc_on. lia. Qed.
#[export] Instance desc_on_dec {A} (f : A -> Z) : RelDecision (desc_on f) := fun x y => Z_le_dec (f y) (f x).
#[export] Instance desc_on_trans {A} (f : A -> Z) : Transitive (desc_on f).
Proof. intros x y z. unfold desc_on. lia. Qed.
#[export] Instance desc_on_total {A} (f : A -> Z) : Total (desc_on f).
Proof. intros x y. unfold desc_on. lia. Qed.
