(* ===== verification/Bytes.v ===== *)
(** Byte strings and the fixed-width integers in them, shared by the formats
    that frame their fields: the filesystem helper's transport and the
    write-ahead log of a Lightroom catalog. *)
From stdpp Require Import base tactics list numbers strings.
From Stdlib Require Import ZArith Lia Ascii.
From S2P Require Import Prelude.

Open Scope Z_scope.

(** A byte is a [Z] in [0, 256). *)
Abbreviation byte_list := (list Z) (only parsing).
Definition is_byte (b : Z) : Prop := 0 <= b < 256.
Definition well_formed (l : byte_list) : Prop := Forall is_byte l.

Definition zlen {A} (l : list A) : Z := Z.of_nat (length l).
Lemma zlen_nonneg {A} (l : list A) : 0 <= zlen l.
Proof. apply Zle_0_nat. Qed.
Lemma zlen_app {A} (l k : list A) : zlen (l ++ k) = zlen l + zlen k.
Proof. unfold zlen. rewrite length_app. lia. Qed.
(** A byte string literal. *)
Definition ascii_bytes (s : string) : byte_list :=
  map (fun a => Z.of_nat (nat_of_ascii a)) (String.list_ascii_of_string s).
(** [&bytes[from..to]], when the bounds are in order. *)
Definition slice (from to : Z) (l : byte_list) : byte_list :=
  take (Z.to_nat (to - from)) (drop (Z.to_nat from) l).

(** [uN::to_le_bytes] and [uN::from_le_bytes] for a width in bytes. *)
Fixpoint le_bytes (width : nat) (n : Z) : byte_list :=
  match width with
  | O => []
  | S w => n mod 256 :: le_bytes w (n / 256)
  end.
Fixpoint le_uint (l : byte_list) : Z :=
  match l with
  | [] => 0
  | b :: l' => b + 256 * le_uint l'
  end.
(** The big-endian forms. *)
Definition be_bytes (width : nat) (n : Z) : byte_list := rev (le_bytes width n).
Definition be_uint (l : byte_list) : Z := le_uint (rev l).

Lemma le_bytes_length width : forall n, length (le_bytes width n) = width.
Proof. induction width as [|w IH]; intros n; cbn; [done|]. by rewrite IH. Qed.
Lemma le_bytes_well_formed width : forall n, well_formed (le_bytes width n).
Proof.
  induction width as [|w IH]; intros n; cbn; [constructor|].
  constructor; [unfold is_byte; apply Z.mod_pos_bound; lia|apply IH].
Qed.
Lemma le_uint_bytes width : forall n, 0 <= n < 256 ^ Z.of_nat width -> le_uint (le_bytes width n) = n.
Proof.
  induction width as [|w IH]; intros n Hn; cbn.
  - change (256 ^ Z.of_nat 0) with 1 in Hn. lia.
  - rewrite IH.
    + pose proof (Z.div_mod n 256 ltac:(lia)). lia.
    + rewrite Nat2Z.inj_succ, Z.pow_succ_r in Hn by lia.
      split; [apply Z.div_pos; lia|apply Z.div_lt_upper_bound; lia].
Qed.
Lemma le_uint_range l : well_formed l -> 0 <= le_uint l < 256 ^ zlen l.
Proof.
  unfold zlen. induction 1 as [|b l Hb _ IH]; cbn [le_uint length]; [cbn; lia|].
  rewrite Nat2Z.inj_succ, Z.pow_succ_r by lia. unfold is_byte in Hb. lia.
Qed.
Lemma be_bytes_length width n : length (be_bytes width n) = width.
Proof. unfold be_bytes. by rewrite length_rev, le_bytes_length. Qed.
Lemma be_bytes_well_formed width n : well_formed (be_bytes width n).
Proof. apply Forall_rev, le_bytes_well_formed. Qed.
Lemma be_uint_bytes width n : 0 <= n < 256 ^ Z.of_nat width -> be_uint (be_bytes width n) = n.
Proof. unfold be_uint, be_bytes. rewrite rev_involutive. apply le_uint_bytes. Qed.
Lemma be_uint_range l : well_formed l -> 0 <= be_uint l < 256 ^ zlen l.
Proof.
  intros H. unfold be_uint, zlen. rewrite <-length_rev. apply le_uint_range. by apply Forall_rev.
Qed.

(** Reading a field back out of a concatenation. *)
Lemma slice_app_l from to (a b : byte_list) :
  0 <= from <= to -> to <= zlen a -> slice from to (a ++ b) = slice from to a.
Proof.
  unfold slice, zlen. intros Hf Ht. rewrite drop_app_le by lia. rewrite take_app_le; [done|].
  rewrite length_drop. lia.
Qed.
Lemma slice_app_r from to (a b : byte_list) :
  zlen a <= from <= to -> slice from to (a ++ b) = slice (from - zlen a) (to - zlen a) b.
Proof.
  unfold slice, zlen. intros Hf. rewrite drop_app_ge by lia.
  f_equal; [f_equal; lia|f_equal; lia].
Qed.
Lemma slice_all to (a : byte_list) : to = zlen a -> slice 0 to a = a.
Proof. intros ->. unfold slice, zlen. rewrite Z.sub_0_r, Nat2Z.id, drop_0. apply firstn_all. Qed.
Lemma slice_length from to (l : byte_list) : 0 <= from <= to -> to <= zlen l -> zlen (slice from to l) = to - from.
Proof. unfold slice, zlen. intros. rewrite length_take, length_drop. lia. Qed.
Lemma slice_well_formed from to l : well_formed l -> well_formed (slice from to l).
Proof. intros H. by apply Forall_take, Forall_drop. Qed.
Lemma slice_field from to (pre fld post : byte_list) :
  from = zlen pre -> to = zlen pre + zlen fld -> slice from to (pre ++ fld ++ post) = fld.
Proof.
  intros -> ->. pose proof (zlen_nonneg pre). pose proof (zlen_nonneg fld).
  rewrite slice_app_r, Z.sub_diag by lia. rewrite slice_app_l by lia. apply slice_all. lia.
Qed.
