(* ===== verification/Utf8.v ===== *)
(** UTF-8 as the standard library reads it: the well-formed sequences, the valid
    texts and their character boundaries. *)
From stdpp Require Import base tactics option list numbers.
From Stdlib Require Import ZArith Lia.
From S2P Require Import Prelude Bytes.

Open Scope Z_scope.

Definition in_range (b lo hi : Z) : bool := (lo <=? b) && (b <=? hi).
Definition is_cont (b : Z) : bool := in_range b 128 191.
Definition second_ok (b0 b1 : Z) : bool :=
  if b0 =? 224 then in_range b1 160 191
  else if b0 =? 237 then in_range b1 128 159
  else if b0 =? 240 then in_range b1 144 191
  else if b0 =? 244 then in_range b1 128 143
  else is_cont b1.
(** The length of the first sequence and whether it is valid. *)
Definition utf8_head (b0 : Z) (rest : list Z) : nat * bool :=
  let width := if b0 <? 128 then 1 else if in_range b0 194 223 then 2
               else if in_range b0 224 239 then 3 else if in_range b0 240 244 then 4 else 0 in
  if width =? 1 then (1%nat, true)
  else if width =? 0 then (1%nat, false)
  else match rest with
       | b1 :: rest1 =>
           if negb (second_ok b0 b1) then (1%nat, false)
           else if width =? 2 then (2%nat, true)
           else match rest1 with
                | b2 :: rest2 =>
                    if negb (is_cont b2) then (2%nat, false)
                    else if width =? 3 then (3%nat, true)
                    else match rest2 with
                         | b3 :: _ => if is_cont b3 then (4%nat, true) else (3%nat, false)
                         | [] => (3%nat, false)
                         end
                | [] => (2%nat, false)
                end
       | [] => (1%nat, false)
       end.

(** [std::str::from_utf8] succeeds. *)
Fixpoint utf8_valid_go (fuel : nat) (l : list Z) : bool :=
  match fuel, l with
  | _, [] => true
  | O, _ => false
  | S fuel', b0 :: rest => let '(n, valid) := utf8_head b0 rest in valid && utf8_valid_go fuel' (drop n l)
  end.
Definition utf8_valid (l : list Z) : bool := utf8_valid_go (length l) l.

(** [str::is_char_boundary]. *)
Definition is_boundary (text : list Z) (i : nat) : bool :=
  match text !! i with
  | None => bool_decide (i = length text) || bool_decide (i = O)
  | Some b => negb (is_cont b) || bool_decide (i = O)
  end.

(** A valid sequence is one byte below 128, or starts at 194 with bytes from 128 on. *)
Lemma second_ok_high b0 b1 : second_ok b0 b1 = true -> 128 <= b1.
Proof. unfold second_ok, is_cont, in_range. repeat (destruct (_ =? _)); lia. Qed.
Lemma is_cont_high b : is_cont b = true -> 128 <= b.
Proof. unfold is_cont, in_range. lia. Qed.
Lemma high_prefix (l : list Z) n :
  Forall (fun b => 128 <= b) (take n l) -> forall i b, (i < n)%nat -> l !! i = Some b -> 128 <= b.
Proof. intros H i b Hi Hb. eapply Forall_lookup_1; [exact H|]. by rewrite lookup_take_lt. Qed.
Lemma utf8_head_valid b0 rest n :
  utf8_head b0 rest = (n, true) ->
  (n = 1%nat /\ b0 < 128) \/
  ((1 < n)%nat /\ 194 <= b0 /\ forall i b, (i < n)%nat -> (b0 :: rest) !! i = Some b -> 128 <= b).
Proof.
  unfold utf8_head. destruct (Z.ltb_spec b0 128); [intros [= <-]; by left|].
  intros Hn. right. assert (forall lo hi, in_range b0 lo hi = true -> lo <= b0) as Hr by (unfold in_range; lia).
  destruct (in_range b0 194 223) eqn:R2; [|destruct (in_range b0 224 239) eqn:R3; [|destruct (in_range b0 240 244) eqn:R4; [|done]]].
  - apply Hr in R2. destruct rest as [|b1 rest]; [done|]. cbn in Hn.
    destruct (second_ok b0 b1) eqn:H1; [|done]. apply second_ok_high in H1. injection Hn as <-.
    split_and!; [lia|done|]. apply high_prefix. by repeat constructor.
  - apply Hr in R3. destruct rest as [|b1 rest]; [done|]. cbn in Hn.
    destruct (second_ok b0 b1) eqn:H1; [|done]. apply second_ok_high in H1. destruct rest as [|b2 rest]; [done|]. cbn in Hn.
    destruct (is_cont b2) eqn:H2; [|done]. apply is_cont_high in H2. injection Hn as <-.
    split_and!; [lia|lia|]. apply high_prefix. repeat constructor; lia.
  - apply Hr in R4. destruct rest as [|b1 rest]; [done|]. cbn in Hn.
    destruct (second_ok b0 b1) eqn:H1; [|done]. apply second_ok_high in H1. destruct rest as [|b2 rest]; [done|]. cbn in Hn.
    destruct (is_cont b2) eqn:H2; [|done]. apply is_cont_high in H2. destruct rest as [|b3 rest]; [done|]. cbn in Hn.
    destruct (is_cont b3) eqn:H3; [|done]. apply is_cont_high in H3. injection Hn as <-.
    split_and!; [lia|lia|]. apply high_prefix. repeat constructor; lia.
Qed.
Lemma valid_first fuel b0 rest : utf8_valid_go fuel (b0 :: rest) = true -> is_cont b0 = false.
Proof.
  destruct fuel as [|fuel]; cbn; [done|]. destruct (utf8_head b0 rest) as [n [|]] eqn:Hh; [|done].
  intros _. unfold is_cont, in_range. apply utf8_head_valid in Hh as [[_ ?]|(_ & ? & _)]; lia.
Qed.
Lemma valid_next fuel l i b c :
  utf8_valid_go fuel l = true -> l !! i = Some b -> b < 128 -> l !! S i = Some c -> is_cont c = false.
Proof.
  revert l i. induction fuel as [|fuel IH]; intros l i Hv Hb Hlt Hc; destruct l as [|b0 rest]; try done. cbn in Hv.
  destruct (utf8_head b0 rest) as [n v] eqn:Hh. apply andb_true_iff in Hv as [-> Hv].
  apply utf8_head_valid in Hh as Hn. destruct (decide (i < n)%nat) as [Hi|Hi].
  - destruct Hn as [[-> _]|(_ & _ & Hall)]; [|specialize (Hall i b Hi Hb); lia].
    assert (i = 0%nat) as -> by lia. destruct rest as [|c' rest]; [done|]. injection Hc as ->. by apply valid_first in Hv.
  - assert (1 <= n)%nat by (destruct Hn as [[-> _]|(? & _)]; lia).
    apply (IH (drop n (b0 :: rest)) (i - n)%nat); try done; rewrite lookup_drop.
    + by replace (n + (i - n))%nat with i by lia.
    + by replace (n + S (i - n))%nat with (S i) by lia.
Qed.

(** A byte below 128 stands between two boundaries. *)
Lemma boundary_at text i b : text !! i = Some b -> b < 128 -> is_boundary text i = true.
Proof.
  intros Hb Hlt. unfold is_boundary. rewrite Hb. unfold is_cont, in_range.
  destruct (Z.leb_spec 128 b); [lia|done].
Qed.
Lemma boundary_after text i b : utf8_valid text = true -> text !! i = Some b -> b < 128 -> is_boundary text (S i) = true.
Proof.
  intros Hv Hb Hlt. unfold is_boundary. destruct (text !! S i) as [c|] eqn:Hc.
  - by rewrite (valid_next _ _ _ _ _ Hv Hb Hlt Hc).
  - apply lookup_lt_Some in Hb. apply lookup_ge_None in Hc. rewrite bool_decide_eq_true_2; [done|lia].
Qed.
Lemma boundary_end text : is_boundary text (length text) = true.
Proof. unfold is_boundary. rewrite lookup_ge_None_2 by lia. by rewrite bool_decide_eq_true_2. Qed.
Lemma boundary_start text : is_boundary text 0 = true.
Proof. unfold is_boundary. destruct (text !! 0%nat); [by destruct (is_cont _)|by rewrite orb_true_r]. Qed.
