(* ===== verification/F64.v ===== *)
(** Finite doubles: what [str::parse::<f64>] makes of a decimal, and the conversions
    and comparisons the program applies to the result. *)
From stdpp Require Import base tactics option list numbers.
From Stdlib Require Import ZArith Lia.
From S2P Require Import Prelude.

Open Scope Z_scope.

(** Every finite double is a whole number of units of [2^-1074]; the sign of a
    zero is kept. *)
Record f64 : Type := mkF64 { f64_negative : bool; f64_units : N }.
#[export] Instance f64_eq_dec : EqDecision f64.
Proof. solve_decision. Defined.
Definition f64_unit : Z := 2 ^ 1074.
Definition f64_magnitude (x : f64) : Z := Z.of_N (f64_units x).
Definition f64_ordinal (x : f64) : Z := if f64_negative x then - f64_magnitude x else f64_magnitude x.
(** A whole number that a double holds exactly. *)
Definition f64_of_Z (n : Z) : f64 := mkF64 (n <? 0) (Z.to_N (Z.abs n * f64_unit)).

(** The multiple of [ulp] nearest to [num / den], a tie going to the even one. *)
Definition nearest (num den ulp : Z) : Z :=
  let d := den * ulp in
  let q := num / d in
  let r := num mod d in
  (if (d <? 2 * r) || ((2 * r =? d) && Z.odd q) then q + 1 else q) * ulp.
(** Rounding to [precision] bits, no finer than [finest]. *)
Definition round_to (precision finest num den : Z) : Z :=
  nearest num den (Z.max finest (2 ^ (Z.log2 (num / den) + 1 - precision))).

(** [mantissa * 10^exponent] as a double, [None] beyond the finite ones. *)
Definition f64_of_decimal (negative : bool) (mantissa exponent : Z) : option f64 :=
  let num := mantissa * f64_unit * 10 ^ Z.max 0 exponent in
  let den := 10 ^ Z.max 0 (- exponent) in
  let m := round_to 53 1 num den in
  if m <? 2 ^ 1024 * f64_unit then Some (mkF64 negative (Z.to_N m)) else None.
Definition f64_is_zero (x : f64) : bool := f64_magnitude x =? 0.
Definition f64_le (x y : f64) : bool := f64_ordinal x <=? f64_ordinal y.
(** [x.fract() == 0.0]. *)
Definition f64_whole (x : f64) : bool := f64_magnitude x mod f64_unit =? 0.
(** [x as u32]. *)
Definition f64_as_u32 (x : f64) : Z := Z.max 0 (Z.min u32_max (Z.quot (f64_ordinal x) f64_unit)).

(** [x as f32] as a bit pattern, [None] when it is infinite. *)
Definition f64_to_f32 (x : f64) : option Z :=
  let unit := 2 ^ (1074 - 149) in
  let m := round_to 24 unit (f64_magnitude x) 1 / unit in
  let sign := if f64_negative x then 2 ^ 31 else 0 in
  if 2 ^ (128 + 149) <=? m then None
  else if m <? 2 ^ 24 then Some (sign + m)
  else let e := Z.log2 m - 23 in Some (sign + (Z.shiftl e 23 + Z.shiftr m e)).

Example f64_tenth : f64_of_decimal false 1 (-1) = Some (mkF64 false (7205759403792794 * 2 ^ (1074 - 56))%N).
Proof. vm_compute. reflexivity. Qed.
Example f64_overflow : f64_of_decimal true 18 307 = None /\ is_Some (f64_of_decimal true 17976931348623157 292).
Proof. split; [by vm_compute|]. eexists. vm_compute. reflexivity. Qed.
Example f32_tenth_bits : f64_to_f32 (mkF64 false (7205759403792794 * 2 ^ (1074 - 56))%N) = Some 0x3DCCCCCD.
Proof. vm_compute. reflexivity. Qed.
Example f32_small_bits :
  f64_to_f32 (f64_of_Z 1) = Some 0x3F800000 /\ f64_to_f32 (f64_of_Z (-150)) = Some 0xC3160000.
Proof. split; vm_compute; reflexivity. Qed.
