(* ===== verification/AdobeData.v ===== *)
(** The reader of serialized Adobe settings in a Lightroom catalog:
    src/src/lightroom/adobe_data.rs, with the data it fills from
    src/src/lightroom/adobe.rs.

    The text is a list of bytes; taking a piece of it panics unless both ends
    are character boundaries, as slicing a [str] does. *)
From stdpp Require Import base tactics option list numbers strings pretty.
From Stdlib Require Import ZArith Lia.
From S2P Require Import Prelude Bytes Utf8 F64.

Open Scope Z_scope.
Local Open Scope prog_scope.

(** ** Data *)

(** A [String] is its bytes. *)
(** @source src/src/lightroom/adobe.rs:80-90 Key *)
Inductive Key : Type :=
| Name (s : list Z)
| Index (i : Z)
| Xml (namespace name : list Z) (ordinal : Z).
#[export] Instance Key_eq_dec : EqDecision Key.
Proof. solve_decision. Defined.
(** @source src/src/lightroom/adobe.rs:107-114 Limits *)
Record Limits : Type := mkLimits {
  bytes : Z; max_properties : Z; max_tokens : Z; depth_limit : Z; string_bytes : Z; output_bytes : Z }.
(** @source src/src/lightroom/adobe.rs:115-126 Limits::default *)
Definition default_Limits : Limits :=
  mkLimits (4 * 1024 * 1024) 10000 50000 32 (64 * 1024) (8 * 1024 * 1024).
(** @source src/src/lightroom/adobe.rs:128-146 Limits::validate *)
Definition limits_valid (l : Limits) : bool :=
  let d := default_Limits in
  (0 <? bytes l) && (bytes l <=? bytes d) && (0 <? max_properties l) && (max_properties l <=? max_properties d) &&
  (0 <? max_tokens l) && (max_tokens l <=? max_tokens d) && (0 <? depth_limit l) && (depth_limit l <=? depth_limit d) &&
  (0 <? string_bytes l) && (string_bytes l <=? string_bytes d) && (0 <? output_bytes l) && (output_bytes l <=? output_bytes d).
(** @source src/src/lightroom/adobe.rs:150-156 Value *)
Inductive Value : Type :=
| Number (n : f64)
| Boolean (b : bool)
| Text (s : list Z)
| Null
| Container.
#[export] Instance Value_eq_dec : EqDecision Value.
Proof. solve_decision. Defined.
(** @source src/src/lightroom/adobe.rs:159-164 Disposition *)
Inductive Disposition : Type := MappedParameter | RetainedOnly | Invalid | Conflict.
#[export] Instance Disposition_eq_dec : EqDecision Disposition.
Proof. solve_decision. Defined.
(** @source src/src/lightroom/adobe.rs:166-178 Property *)
Record Property : Type := mkProperty {
  path : list Key; namespace : option (list Z); name : list Z; lexical : list Z; start : Z; stop : Z;
  value : Value; disposition : Disposition; reason : string }.

(** @source src/src/lightroom/adobe.rs:181-185 FailureKind *)
Inductive FailureKind : Type := ResourceLimit | InvalidSyntax | ConflictKind.
(** A failure of the reader; a panic; and a loop that was not given enough fuel. *)
Inductive ReadError : Type :=
| Failure (k : FailureKind) (message : string)
| Panic
| OutOfFuel.
(** @source src/src/lightroom/adobe.rs:198-203 Failure::syntax *)
Definition syntax (m : string) : ReadError := Failure InvalidSyntax m.
(** @source src/src/lightroom/adobe.rs:204-209 Failure::limit *)
Definition limit (m : string) : ReadError := Failure ResourceLimit m.
(** @source src/src/lightroom/adobe.rs:210-215 Failure::conflict *)
Definition conflict (m : string) : ReadError := Failure ConflictKind m.

(** ** Characters and pieces of text *)

Definition is_digit (c : Z) : bool := (48 <=? c) && (c <=? 57).
Definition is_alphabetic (c : Z) : bool := ((65 <=? c) && (c <=? 90)) || ((97 <=? c) && (c <=? 122)).
Definition is_hexdigit (c : Z) : bool := is_digit c || ((65 <=? c) && (c <=? 70)) || ((97 <=? c) && (c <=? 102)).
(** [u8::is_ascii_whitespace]. *)
Definition is_whitespace (c : Z) : bool := (c =? 32) || (c =? 9) || (c =? 10) || (c =? 12) || (c =? 13).
Definition is_sign (c : Z) : bool := (c =? 43) || (c =? 45).
Definition is_exponent (c : Z) : bool := (c =? 101) || (c =? 69).
Definition name_first (c : Z) : bool := is_alphabetic c || (c =? 95).
Definition name_rest (c : Z) : bool := is_alphabetic c || is_digit c || (c =? 95).

(** The longest prefix that satisfies [f]. *)
Fixpoint span (f : Z -> bool) (l : list Z) : list Z :=
  match l with
  | c :: l' => if f c then c :: span f l' else []
  | [] => []
  end.
Definition starts_with (p l : list Z) : bool := bool_decide (take (length p) l = p).
(** [str::find] of a piece. *)
Fixpoint find_sub (p l : list Z) : option nat :=
  if starts_with p l then Some O
  else match l with
       | _ :: l' => S <$> find_sub p l'
       | [] => None
       end.
(** [.replace("\r\n", "\n").replace('\r', "\n")]. *)
Fixpoint newlines (l : list Z) : list Z :=
  match l with
  | [] => []
  | c :: l' =>
      if c =? 13 then if match l' with d :: _ => d =? 10 | [] => false end then newlines l' else 10 :: newlines l'
      else c :: newlines l'
  end.
(** The value of a text of digits in a base. *)
Definition digit_value (c : Z) : Z := if c <=? 57 then c - 48 else if c <=? 70 then c - 55 else c - 87.
Definition digits_value (base : Z) (l : list Z) : Z := fold_left (fun n c => n * base + digit_value c) l 0.
(** [u64::to_string]. *)
Definition decimal (n : Z) : list Z := ascii_bytes (pretty (Z.to_N n)).

(** ** Numbers *)

(** The parts of a decimal: its sign, its digits before and behind the point, its
    exponent, and what is left. *)
Record Decimal : Type := mkDecimal { negative : bool; whole : list Z; fraction : list Z; exponent : Z; rest : list Z }.
(** @source src/src/lightroom/adobe_data.rs:7-39 number *)
Definition scan_decimal (text : list Z) : result ReadError Decimal :=
  let sign := match text with c :: _ => is_sign c | [] => false end in
  let neg := match text with c :: _ => c =? 45 | [] => false end in
  let b := if sign then drop 1 text else text in
  let w := span is_digit b in
  let b := drop (length w) b in
  let point := match b with c :: _ => c =? 46 | [] => false end in
  let b := if point then drop 1 b else b in
  let f := if point then span is_digit b else [] in
  let b := drop (length f) b in
  if bool_decide (w ++ f = []) then Err (syntax "expected decimal number") else
  if match b with c :: _ => is_exponent c | [] => false end then
    let b := drop 1 b in
    let esign := match b with c :: _ => is_sign c | [] => false end in
    let eneg := match b with c :: _ => c =? 45 | [] => false end in
    let b := if esign then drop 1 b else b in
    let e := span is_digit b in
    if bool_decide (e = []) then Err (syntax "incomplete decimal exponent")
    else Ok (mkDecimal neg w f (if eneg then - digits_value 10 e else digits_value 10 e) (drop (length e) b))
  else Ok (mkDecimal neg w f 0 b).
(** [parse::<f64>] of the text just scanned. *)
Definition decimal_f64 (d : Decimal) : option f64 :=
  f64_of_decimal (negative d) (digits_value 10 (whole d ++ fraction d)) (exponent d - zlen (fraction d)).
(** @source src/src/lightroom/adobe_data.rs:6-61 number *)
Definition number (text : list Z) : result ReadError f64 :=
  let? d := scan_decimal text in
  let? _ := rensure (bool_decide (rest d = [])) (syntax "non-decimal numeric expression") in
  match decimal_f64 d with
  | None => Err (syntax "nonfinite or overflowing number")
  | Some n =>
      if f64_is_zero n && existsb (fun c => (49 <=? c) && (c <=? 57)) (whole d ++ fraction d)
      then Err (syntax "numeric underflow") else Ok n
  end.

(** ** The reader *)

(** @source src/src/lightroom/adobe_data.rs:115-121 Parser *)
Record Parser : Type := mkParser { pos : nat; tokens : Z; out : list Property }.
Definition set_pos n (p : Parser) : Parser := mkParser n (tokens p) (out p).
Definition set_tokens n (p : Parser) : Parser := mkParser (pos p) n (out p).
Definition set_out o (p : Parser) : Parser := mkParser (pos p) (tokens p) o.

(** @source src/src/lightroom/adobe_data.rs:62-66 Root *)
Inductive Root : Type := Bare | Return | Assignment (name : list Z).
(** @source src/src/lightroom/adobe_data.rs:67-70 ParsedData *)
Record ParsedData : Type := mkParsedData { properties : list Property; root : Root }.

Section Reader.
Context (text : list Z) (limits : Limits).
Abbreviation RM := (proc ReadError Parser).

(** @source src/src/lightroom/adobe_data.rs:123-125 Parser::peek *)
Definition peek (p : Parser) : option Z := text !! pos p.
Definition peek_is (f : Z -> bool) (p : Parser) : bool := match peek p with Some c => f c | None => false end.
(** @source src/src/lightroom/adobe_data.rs:126-132 Parser::token *)
Definition token : RM unit :=
  modify (fun p => set_tokens (tokens p + 1) p) ;;;
  let* p := get in
  ensure (tokens p <=? max_tokens limits) (limit "catalog token limit").
Definition advance (n : nat) : RM unit := modify (fun p => set_pos (pos p + n)%nat p).
Definition skip_while (f : Z -> bool) : RM unit :=
  modify (fun p => set_pos (pos p + length (span f (drop (pos p) text)))%nat p).
(** [&self.text[from..to]]. *)
Definition piece (from to : nat) : result ReadError (list Z) :=
  if (from <=? to)%nat && is_boundary text from && is_boundary text to && (to <=? length text)%nat
  then Ok (take (to - from) (drop from text)) else Err Panic.

(** @source src/src/lightroom/adobe_data.rs:182-196 Parser::long_level *)
Definition long_level (p : Parser) : option nat :=
  if bool_decide (text !! pos p = Some 91) then
    let n := length (span (Z.eqb 61) (drop (S (pos p)) text)) in
    if bool_decide (text !! (S (pos p) + n)%nat = Some 91) then Some n else None
  else None.
(** @source src/src/lightroom/adobe_data.rs:197-224 Parser::long_string *)
Definition long_string : RM (list Z) :=
  let* p := get in
  let* level := of_option (long_level p) (syntax "invalid long string") in
  ensure (level <=? 8)%nat (limit "long string delimiter limit") ;;;
  advance (level + 2) ;;;
  let* p := get in
  let* t := lift (piece (pos p) (length text)) in
  let from := if starts_with [13; 10] t then (pos p + 2)%nat
              else if starts_with [13] t || starts_with [10] t then (pos p + 1)%nat else pos p in
  let endmark := [93] ++ repeat 61 level ++ [93] in
  let* count := of_option (find_sub endmark t) (syntax "unterminated long string/comment") in
  let end_ := (pos p + count)%nat in
  ensure (Z.of_nat (end_ - from) <=? string_bytes limits) (limit "long string limit") ;;;
  modify (set_pos (end_ + length endmark)%nat) ;;;
  token ;;;
  let* s := lift (piece (Nat.min from end_) end_) in
  ret (newlines s).

(** @source src/src/lightroom/adobe_data.rs:141-159 Parser::space *)
Fixpoint space_loop (fuel : nat) : RM unit :=
  match fuel with
  | O => fail OutOfFuel
  | S fuel' =>
      skip_while is_whitespace ;;;
      let* p := get in
      let* t := lift (piece (pos p) (length text)) in
      if negb (starts_with [45; 45] t) then ret tt else
      advance 2 ;;;
      token ;;;
      let* p := get in
      (match long_level p with
       | Some _ => let* _ := long_string in ret tt
       | None => skip_while (fun c => negb ((c =? 10) || (c =? 13)))
       end) ;;;
      space_loop fuel'
  end.
Definition space : RM unit := space_loop (S (length text)).
(** @source src/src/lightroom/adobe_data.rs:133-140 Parser::take *)
Definition take_ (c : Z) : RM unit :=
  space ;;;
  let* p := get in
  ensure (peek_is (Z.eqb c) p) (syntax "unexpected catalog punctuation") ;;;
  advance 1 ;;;
  token.
(** @source src/src/lightroom/adobe_data.rs:160-181 Parser::identifier *)
Definition identifier : RM (list Z) :=
  space ;;;
  let* p := get in
  let from := pos p in
  ensure (peek_is name_first p) (syntax "expected data name") ;;;
  advance 1 ;;;
  skip_while name_rest ;;;
  let* p := get in
  ensure (Z.of_nat (pos p - from) <=? string_bytes limits) (limit "identifier limit") ;;;
  token ;;;
  lift (piece from (pos p)).

(** The byte that an escape stands for; the backslash has been read. *)
(** @source src/src/lightroom/adobe_data.rs:251-304 Parser::string *)
Definition escape : RM Z :=
  let* p := get in
  let* e := of_option (peek p) (syntax "truncated escape") in
  advance 1 ;;;
  if e =? 97 then ret 7 else if e =? 98 then ret 8 else if e =? 102 then ret 12 else
  if e =? 110 then ret 10 else if e =? 114 then ret 13 else if e =? 116 then ret 9 else if e =? 118 then ret 11 else
  if (e =? 92) || (e =? 39) || (e =? 34) then ret e else
  if e =? 10 then ret 10 else
  if e =? 13 then
    let* p := get in
    (if peek_is (Z.eqb 10) p then advance 1 else ret tt) ;;;
    ret 10
  else if is_digit e then
    let* p := get in
    let more := take (length (span is_digit (take 2 (drop (pos p) text)))) (drop (pos p) text) in
    advance (length more) ;;;
    let n := digits_value 10 (e :: more) in
    ensure (n <=? 255) (syntax "decimal byte escape exceeds255") ;;;
    ret n
  else if e =? 120 then
    let* p := get in
    let* hex := lift (match piece (pos p) (pos p + 2) with Ok h => Ok h | Err _ => Err (syntax "short hex escape") end) in
    ensure (forallb is_hexdigit hex) (syntax "bad hex escape") ;;;
    advance 2 ;;;
    ret (digits_value 16 hex)
  else fail (syntax "unsupported string escape").
(** The loop over a quoted string, up to its quote. *)
(** @source src/src/lightroom/adobe_data.rs:236-309 Parser::string *)
Fixpoint string_loop (fuel : nat) (quote : Z) (acc : list Z) : RM (list Z) :=
  match fuel with
  | O => fail OutOfFuel
  | S fuel' =>
      let* p := get in
      let* c := of_option (peek p) (syntax "unterminated string") in
      advance 1 ;;;
      if c =? quote then ret acc else
      ensure (negb ((c =? 10) || (c =? 13) || (c =? 0))) (syntax "unescaped newline or NUL in short string") ;;;
      let* b := (if c =? 92 then escape else ret c) in
      let acc := acc ++ [b] in
      ensure (zlen acc <=? string_bytes limits) (limit "decoded string limit") ;;;
      string_loop fuel' quote acc
  end.
(** @source src/src/lightroom/adobe_data.rs:225-313 Parser::string *)
Definition string_ : RM (list Z) :=
  space ;;;
  let* p := get in
  match long_level p with
  | Some _ => long_string
  | None =>
      let* quote := of_option (match peek p with
                               | Some c => if (c =? 39) || (c =? 34) then Some c else None
                               | None => None
                               end) (syntax "expected quoted string") in
      advance 1 ;;;
      let* s := string_loop (S (length text)) quote [] in
      token ;;;
      ensure (utf8_valid s) (syntax "escaped non-UTF8 data remains retained") ;;;
      ret s
  end.

(** @source src/src/lightroom/adobe.rs:752-761 push *)
Definition push (v : Property) : RM unit :=
  let* p := get in
  ensure (negb ((max_properties limits <=? zlen (out p)) || (bytes limits <? zlen (lexical v)) ||
                match value v with Text s => string_bytes limits <? zlen s | _ => false end))
    (limit "property or string limit") ;;;
  modify (fun p => set_out (out p ++ [v]) p).

Definition is_number_char (c : Z) : bool := is_sign c || (c =? 46) || is_digit c || is_exponent c.
Definition last_name (path : list Key) : list Z :=
  match last path with Some (Name s) => s | Some (Index i) => decimal i | _ => [] end.

(** The key that introduces an entry of a table, if it has one. *)
(** @source src/src/lightroom/adobe_data.rs:376-416 Parser::table *)
Definition entry_key : RM (option Key) :=
  let* p := get in
  if peek_is (Z.eqb 91) p && bool_decide (long_level p = None) then
    take_ 91 ;;;
    space ;;;
    let* p := get in
    let* k := (if peek_is (fun c => (c =? 39) || (c =? 34)) p
               then let* s := string_ in ret (Name s)
               else
                 let from := pos p in
                 skip_while is_digit ;;;
                 let* p := get in
                 ensure (negb (pos p =? from)%nat) (syntax "table key must be string or positive integer") ;;;
                 let* t := lift (piece from (pos p)) in
                 let n := digits_value 10 t in
                 ensure (n <=? u64_max) (syntax "table index overflow") ;;;
                 ensure (negb (n =? 0)) (syntax "zero table index unsupported") ;;;
                 token ;;;
                 ret (Index n)) in
    take_ 93 ;;;
    take_ 61 ;;;
    ret (Some k)
  else if peek_is name_first p then
    let before := pos p in
    let* s := identifier in
    space ;;;
    let* p := get in
    if peek_is (Z.eqb 61) p then take_ 61 ;;; ret (Some (Name s))
    else modify (set_pos before) ;;; ret None
  else ret None.

(** A value that is not a table. *)
(** @source src/src/lightroom/adobe_data.rs:325-341 Parser::value *)
Definition scalar : RM Value :=
  let* p := get in
  let from := pos p in
  if peek_is (fun c => (c =? 39) || (c =? 34)) p then let* s := string_ in ret (Text s)
  else if peek_is (Z.eqb 91) p && bool_decide (is_Some (long_level p)) then let* s := long_string in ret (Text s)
  else if peek_is (fun c => is_sign c || (c =? 46) || is_digit c) p then
    skip_while is_number_char ;;;
    token ;;;
    let* p := get in
    let* t := lift (piece from (pos p)) in
    let* n := lift (number t) in
    ret (Number n)
  else if peek_is is_alphabetic p then
    let* s := identifier in
    if bool_decide (s = ascii_bytes "true") then ret (Boolean true)
    else if bool_decide (s = ascii_bytes "false") then ret (Boolean false)
    else if bool_decide (s = ascii_bytes "nil") then ret Null
    else fail (syntax "bare identifier/expression is not data")
  else fail (syntax "unsupported data value").
(** What [value] records about the value it has read. *)
(** @source src/src/lightroom/adobe_data.rs:342-364 Parser::value *)
Definition retain (path : list Key) (from : nat) (v : Value) : RM unit :=
  let* p := get in
  let* t := lift (piece from (pos p)) in
  push (mkProperty path None (last_name path) t (Z.of_nat from) (Z.of_nat (pos p)) v RetainedOnly
          "unknown or unqualified catalog data retained").

(** @source src/src/lightroom/adobe_data.rs:314-441 Parser::value, Parser::table *)
Fixpoint value_ (fuel : nat) (path : list Key) (depth : Z) : RM unit :=
  match fuel with
  | O => fail OutOfFuel
  | S fuel' =>
      ensure (depth <=? depth_limit limits) (limit "catalog nesting limit") ;;;
      space ;;;
      let* p := get in
      let from := pos p in
      let* v := (if peek_is (Z.eqb 123) p
                 then take_ 123 ;;; table_loop fuel' path depth [] 1 ;;; ret Container
                 else scalar) in
      retain path from v
  end
with table_loop (fuel : nat) (path : list Key) (depth : Z) (keys : list Key) (next : Z) : RM unit :=
  match fuel with
  | O => fail OutOfFuel
  | S fuel' =>
      space ;;;
      let* p := get in
      if peek_is (Z.eqb 125) p then take_ 125 else
      let* key := entry_key in
      let k := default (Index next) key in
      let next := match key with Some _ => next | None => next + 1 end in
      ensure (bool_decide (k ∉ keys)) (conflict "duplicate catalog table key; no last-value selection") ;;;
      value_ fuel' (path ++ [k]) (depth + 1) ;;;
      space ;;;
      let* p := get in
      (if peek_is (fun c => (c =? 44) || (c =? 59)) p then advance 1 ;;; token
       else ensure (peek_is (Z.eqb 125) p) (syntax "table separator required; expressions are forbidden")) ;;;
      table_loop fuel' path depth (k :: keys) next
  end.

(** The name in front of the table, and the path of the table. *)
(** @source src/src/lightroom/adobe_data.rs:82-95 parse *)
Definition preamble : RM (Root * list Key) :=
  let* p := get in
  if peek_is (Z.eqb 123) p then ret (Bare, []) else
  let* s := identifier in
  space ;;;
  if bool_decide (s = ascii_bytes "return") then ret (Return, [])
  else take_ 61 ;;; ret (Assignment s, [Name s]).
(** @source src/src/lightroom/adobe_data.rs:81-113 parse *)
Definition document (fuel : nat) : RM Root :=
  space ;;;
  let* r := preamble in
  space ;;;
  let* p := get in
  ensure (peek_is (Z.eqb 123) p) (syntax "expected data table, not executable expression") ;;;
  value_ fuel r.2 0 ;;;
  space ;;;
  let* p := get in
  (if peek_is (Z.eqb 59) p then take_ 59 ;;; space else ret tt) ;;;
  let* p := get in
  ensure (pos p =? length text)%nat (syntax "trailing executable or unsupported data") ;;;
  ret r.1.
(** Enough for every text: two for each byte. *)
Definition document_fuel : nat := 2 * length text + 2.
(** @source src/src/lightroom/adobe_data.rs:71-114 parse *)
Definition parse : result ReadError ParsedData :=
  if negb (utf8_valid text) then Err (syntax "catalog data must be UTF-8") else
  match document document_fuel (mkParser 0 0 []) with
  | (p, Ok r) => Ok (mkParsedData (out p) r)
  | (_, Err e) => Err e
  end.
End Reader.
