(* ===== verification/AdobeReader.v ===== *)
(** What the reader of Adobe settings promises: it ends on every text, never slices
    a character apart, stays within its limits, and what it retains are pieces of
    its source at distinct paths that form a tree (AdobeData). *)
From stdpp Require Import base tactics option list numbers strings sets.
From Stdlib Require Import ZArith Lia.
From S2P Require Import Prelude Bytes Utf8 F64 AdobeData.

Open Scope Z_scope.
Local Open Scope prog_scope.

(** ** Runs that end in a value or a failure of the reader *)

Definition okay {A} (m : proc ReadError Parser A) (p : Parser) (Q : A -> Parser -> Prop) : Prop :=
  match m p with
  | (p', Ok a) => Q a p'
  | (_, Err (Failure _ _)) => True
  | (_, Err _) => False
  end.

Lemma okay_mono {A} (m : proc ReadError Parser A) p (Q Q' : A -> Parser -> Prop) :
  okay m p Q -> (forall a p', Q a p' -> Q' a p') -> okay m p Q'.
Proof. unfold okay. destruct (m p) as [p' [a|[]]]; auto. Qed.
Lemma okay_bind {A B} (m : proc ReadError Parser A) (k : A -> proc ReadError Parser B) p Q :
  okay m p (fun a p' => okay (k a) p' Q) -> okay (bind m k) p Q.
Proof. unfold okay, bind. destruct (m p) as [p' [a|[]]]; auto. Qed.
Lemma okay_ret {A} (a : A) p (Q : A -> Parser -> Prop) : Q a p -> okay (ret a) p Q.
Proof. done. Qed.
Lemma okay_get {A} (k : Parser -> proc ReadError Parser A) p Q : okay (k p) p Q -> okay (bind get k) p Q.
Proof. done. Qed.
Lemma okay_modify f p (Q : unit -> Parser -> Prop) : Q tt (f p) -> okay (modify f) p Q.
Proof. done. Qed.
Lemma okay_ensure b k m p (Q : unit -> Parser -> Prop) : (b = true -> Q tt p) -> okay (ensure b (Failure k m)) p Q.
Proof. destruct b; unfold okay; cbn; auto. Qed.
Lemma okay_option {A} (o : option A) k m p (Q : A -> Parser -> Prop) :
  (forall a, o = Some a -> Q a p) -> okay (of_option o (Failure k m)) p Q.
Proof. destruct o; unfold okay; cbn; auto. Qed.
Lemma okay_lift {A} (a : A) p (Q : A -> Parser -> Prop) : Q a p -> okay (lift (Ok a)) p Q.
Proof. done. Qed.
Lemma okay_fail {A} k m p (Q : A -> Parser -> Prop) : okay (fail (Failure k m)) p Q.
Proof. done. Qed.

(** ** Prefixes *)

Lemma span_length f l : (length (span f l) <= length l)%nat.
Proof. induction l as [|c l IH]; cbn; [done|]. destruct (f c); cbn; lia. Qed.
Lemma span_lookup f l i : (i < length (span f l))%nat -> exists c, l !! i = Some c /\ f c = true.
Proof.
  revert i. induction l as [|c l IH]; intros i; cbn; [lia|]. destruct (f c) eqn:Hf; cbn; [|lia].
  destruct i as [|i]; intros Hi; [by exists c|]. apply IH. lia.
Qed.
Lemma span_next f l c : l !! length (span f l) = Some c -> f c = false.
Proof.
  induction l as [|d l IH]; cbn; [done|]. destruct (f d) eqn:Hf; cbn; [exact IH|congruence].
Qed.
Lemma starts_with_lookup pat l i c : starts_with pat l = true -> pat !! i = Some c -> l !! i = Some c.
Proof.
  unfold starts_with. intros H%bool_decide_eq_true Hc. rewrite <- H in Hc. apply lookup_take_Some in Hc. tauto.
Qed.
Lemma starts_with_length pat l : starts_with pat l = true -> (length pat <= length l)%nat.
Proof. unfold starts_with. intros H%bool_decide_eq_true. rewrite <- H, length_take. lia. Qed.
Lemma find_sub_spec pat l n :
  find_sub pat l = Some n ->
  (n + length pat <= length l)%nat /\ forall i c, pat !! i = Some c -> l !! (n + i)%nat = Some c.
Proof.
  revert n. induction l as [|d l IH]; intros n; cbn -[starts_with].
  - destruct (starts_with pat []) eqn:Hs; [|done]. intros [= <-]. split; [by apply starts_with_length in Hs|].
    intros i c. by apply starts_with_lookup.
  - destruct (starts_with pat (d :: l)) eqn:Hs.
    + intros [= <-]. split; [by apply starts_with_length in Hs|]. intros i c. by apply starts_with_lookup.
    + destruct (find_sub pat l) as [k|]; [|done]. intros [= <-]. destruct (IH k eq_refl) as [H1 H2].
      split; [cbn; lia|]. intros i c Hc. cbn. auto.
Qed.

Section Reader.
Context (text : list Z) (limits : Limits) (Hvalid : utf8_valid text = true).

(** ** The primitive steps *)

(** Between two steps the reader stands on a character boundary. *)
Definition fine (p : Parser) : Prop := is_boundary text (pos p) = true /\ (pos p <= length text)%nat.
(** What a step that retains nothing keeps. *)
Definition moved (p p' : Parser) : Prop := fine p' /\ (pos p <= pos p')%nat /\ out p' = out p.

Lemma boundary_behind i b : text !! i = Some b -> b < 128 -> is_boundary text (S i) = true.
Proof. by apply boundary_after. Qed.
Lemma moved_refl p : fine p -> moved p p.
Proof. by unfold moved. Qed.
Lemma moved_trans p1 p2 p3 : moved p1 p2 -> moved p2 p3 -> moved p1 p3.
Proof. intros (_ & ? & ?) (? & ? & ?). unfold moved. split_and!; [done|lia|congruence]. Qed.

Lemma okay_token p (Q : unit -> Parser -> Prop) :
  fine p -> (forall p', moved p p' -> pos p' = pos p -> Q tt p') -> okay (token limits) p Q.
Proof.
  intros Hp HQ. unfold token. apply okay_bind, okay_modify, okay_get, okay_ensure. intros _. apply HQ; [|done]. by unfold moved.
Qed.
Lemma piece_ok from to :
  (from <= to)%nat -> is_boundary text from = true -> is_boundary text to = true -> (to <= length text)%nat ->
  piece text from to = Ok (take (to - from) (drop from text)).
Proof.
  intros H1 H2 H3 H4. unfold piece. rewrite H2, H3. apply Nat.leb_le in H1, H4. by rewrite H1, H4.
Qed.
Lemma piece_between p p' :
  fine p -> fine p' -> (pos p <= pos p')%nat ->
  piece text (pos p) (pos p') = Ok (take (pos p' - pos p) (drop (pos p) text)).
Proof. intros [? _] [? ?] ?. by apply piece_ok. Qed.
Lemma piece_rest p : fine p -> piece text (pos p) (length text) = Ok (drop (pos p) text).
Proof.
  intros [Hb Hl]. rewrite piece_ok; [|done|done|apply boundary_end|done].
  by rewrite take_ge by (rewrite length_drop; lia).
Qed.
Lemma lookup_rest p i c : drop (pos p) text !! i = Some c -> text !! (pos p + i)%nat = Some c.
Proof. by rewrite lookup_drop. Qed.

(** Steps over characters of one byte. *)
Lemma fine_past p n b : text !! (pos p + n)%nat = Some b -> b < 128 -> fine (set_pos (pos p + S n) p).
Proof.
  intros Hb Hlt. split; cbn.
  - rewrite Nat.add_succ_r. by eapply boundary_behind.
  - apply lookup_lt_Some in Hb. lia.
Qed.
Lemma skip_fine f p : fine p ->
  (forall c, f c = true -> c < 128) -> fine (set_pos (pos p + length (span f (drop (pos p) text))) p).
Proof.
  intros Hp Hf. destruct (length (span f (drop (pos p) text))) as [|n] eqn:Hn; [by rewrite Nat.add_0_r; destruct p|].
  destruct (span_lookup f (drop (pos p) text) n) as (c & Hc & Hfc); [lia|].
  eapply fine_past; [by apply lookup_rest|auto].
Qed.
Lemma skip_until_fine f p : fine p ->
  (forall c, f c = false -> c < 128) -> fine (set_pos (pos p + length (span f (drop (pos p) text))) p).
Proof.
  intros [Hb Hl] Hf. pose proof (span_length f (drop (pos p) text)) as Hs. rewrite length_drop in Hs.
  split; cbn; [|lia]. destruct (text !! (pos p + length (span f (drop (pos p) text)))%nat) as [c|] eqn:Hc.
  - eapply boundary_at; [exact Hc|]. apply Hf. eapply span_next. rewrite lookup_drop. exact Hc.
  - apply lookup_ge_None in Hc.
    replace (pos p + length (span f (drop (pos p) text)))%nat with (length text) by lia. apply boundary_end.
Qed.
(** ** The lexer *)

(** A step that reads at least one byte. *)
Definition reads (p p' : Parser) : Prop := moved p p' /\ (pos p < pos p')%nat.
Lemma reads_after p p1 p2 : moved p p1 -> reads p1 p2 -> reads p p2.
Proof. intros H1 [H2 Hlt]. split; [by eapply moved_trans|]. destruct H1 as (_ & ? & _). lia. Qed.
Lemma reads_then p p1 p2 : reads p p1 -> moved p1 p2 -> reads p p2.
Proof. intros [H1 Hlt] H2. split; [by eapply moved_trans|]. destruct H2 as (_ & ? & _). lia. Qed.
Lemma moved_fine p p' : moved p p' -> fine p'.
Proof. by intros [? _]. Qed.

Lemma long_level_spec p n :
  long_level text p = Some n -> text !! pos p = Some 91 /\ text !! (S (pos p) + n)%nat = Some 91.
Proof.
  unfold long_level. destruct (bool_decide_reflect (text !! pos p = Some 91)); [|done].
  destruct (bool_decide_reflect (text !! (S (pos p) + length (span (Z.eqb 61) (drop (S (pos p)) text)))%nat = Some 91)); [|done].
  by intros [= <-].
Qed.
Lemma newlines_length l : (length (newlines l) <= length l)%nat.
Proof.
  induction l as [|c l IH]; cbn; [done|]. destruct (c =? 13); [destruct (match l with d :: _ => _ | [] => _ end)|]; cbn; lia.
Qed.

Lemma long_string_okay p :
  fine p -> okay (long_string text limits) p (fun s p' => reads p p' /\ zlen s <= string_bytes limits).
Proof.
  intros Hp. unfold long_string. apply okay_get, okay_bind, okay_option. intros level Hlevel.
  apply long_level_spec in Hlevel as [H1 H2]. apply okay_bind, okay_ensure. intros _.
  apply okay_bind, okay_modify, okay_get. set (p1 := set_pos _ p).
  assert (fine p1) as Hp1 by (unfold p1; replace (level + 2)%nat with (S (S level)) by lia; eapply fine_past; [|by instantiate (1 := 91)];
    rewrite <- H2; f_equal; lia).
  rewrite (piece_rest p1 Hp1). apply okay_bind, okay_lift.
  set (t := drop (pos p1) text).
  set (from := if starts_with [13; 10] t then _ else _).
  apply okay_bind, okay_option. intros count Hcount. apply find_sub_spec in Hcount as [Hlen Hfound].
  apply okay_bind, okay_ensure. intros Hlimit. apply okay_bind, okay_modify. set (p2 := set_pos _ p1).
  assert (is_boundary text from = true /\ (from <= pos p1 + 2)%nat) as [Hfrom _].
  { assert (forall i c, t !! i = Some c -> text !! (pos p1 + i)%nat = Some c) as Hat by (intros i c; by apply lookup_rest).
    unfold from. destruct (starts_with [13; 10] t) eqn:S1.
    - split; [|lia]. replace (pos p1 + 2)%nat with (S (pos p1 + 1)) by lia. eapply (boundary_behind _ 10); [|done].
      apply Hat. by apply (starts_with_lookup _ _ 1 _ S1).
    - destruct (starts_with [13] t || starts_with [10] t) eqn:S2; [|split; [apply Hp1|lia]]. split; [|lia].
      replace (pos p1 + 1)%nat with (S (pos p1 + 0)) by lia.
      apply orb_true_iff in S2 as [S2|S2]; (eapply boundary_behind; [apply Hat; by apply (starts_with_lookup _ _ 0 _ S2)|done]). }
  set (endmark := [93] ++ repeat 61 level ++ [93]) in *.
  assert (length endmark = S (S level)) as He by (unfold endmark; rewrite !length_app, repeat_length; cbn; lia).
  assert (endmark !! 0%nat = Some 93 /\ endmark !! S level = Some 93) as [He0 He1].
  { split; [done|]. unfold endmark. rewrite lookup_app_r by (cbn; lia). rewrite lookup_app_r by (rewrite repeat_length; cbn; lia).
    rewrite repeat_length. match goal with |- _ !! ?k = _ => replace k with 0%nat by (cbn; lia) end. done. }
  unfold t in Hlen. rewrite length_drop, He in Hlen. pose proof (proj2 Hp1) as Hl1.
  assert (text !! (pos p1 + count)%nat = Some 93) as Hend.
  { apply lookup_rest. specialize (Hfound 0%nat _ He0). by rewrite Nat.add_0_r in Hfound. }
  assert (is_boundary text (pos p1 + count) = true) as Hbend by by eapply boundary_at.
  assert (reads p p2) as Hp2.
  { unfold p2. rewrite He. split; [|cbn; lia]. split; [|split; [cbn; lia|done]].
    replace (pos p1 + count + S (S level))%nat with (pos p1 + S (count + S level))%nat by lia.
    eapply (fine_past p1 _ 93); [|done]. apply lookup_rest. by apply Hfound. }
  apply okay_bind, okay_token; [by apply (moved_fine p), Hp2|]. intros p3 H3 Hpos.
  rewrite piece_ok; [|lia| |done|lia].
  - apply okay_bind, okay_lift, okay_ret. split; [by eapply reads_then|].
    pose proof (newlines_length (take (pos p1 + count - Nat.min from (pos p1 + count)) (drop (Nat.min from (pos p1 + count)) text))).
    rewrite length_take in *. apply Z.leb_le in Hlimit. clearbody from. unfold zlen. lia.
  - destruct (Nat.min_spec from (pos p1 + count)) as [[_ ->]|[_ ->]]; done.
Qed.
Lemma moved_to p n : fine (set_pos (pos p + n) p) -> moved p (set_pos (pos p + n) p).
Proof. intros Hp. split; [done|]. cbn. split; [lia|done]. Qed.
(** [advance] over one byte below 128. *)
Lemma okay_advance p c (Q : unit -> Parser -> Prop) :
  peek text p = Some c -> c < 128 -> (forall p', reads p p' -> Q tt p') -> okay (advance 1) p Q.
Proof.
  intros Hc Hlt HQ. apply okay_modify. apply HQ. split; [|cbn; lia]. apply moved_to.
  eapply (fine_past p 0); [|exact Hlt]. by rewrite Nat.add_0_r.
Qed.
Lemma peek_is_inv f p : peek_is text f p = true -> exists c, peek text p = Some c /\ f c = true.
Proof. unfold peek_is. destruct (peek text p) as [c|]; [by exists c|done]. Qed.
Lemma okay_skip f p (Q : unit -> Parser -> Prop) :
  fine p -> (forall c, f c = true -> c < 128) -> (forall p', moved p p' -> Q tt p') -> okay (skip_while text f) p Q.
Proof. intros Hp Hf HQ. apply okay_modify, HQ, moved_to. by apply skip_fine. Qed.
Lemma okay_skip_some f p (Q : unit -> Parser -> Prop) :
  fine p -> (forall c, f c = true -> c < 128) -> peek_is text f p = true ->
  (forall p', reads p p' -> Q tt p') -> okay (skip_while text f) p Q.
Proof.
  intros Hp Hf (c & Hc & Hfc)%peek_is_inv HQ. apply okay_modify, HQ. split; [by apply moved_to, skip_fine|]. cbn.
  unfold peek in Hc. rewrite (drop_S _ _ _ Hc). cbn. rewrite Hfc. cbn. lia.
Qed.
Lemma okay_skip_until f p (Q : unit -> Parser -> Prop) :
  fine p -> (forall c, f c = false -> c < 128) -> (forall p', moved p p' -> Q tt p') -> okay (skip_while text f) p Q.
Proof. intros Hp Hf HQ. apply okay_modify, HQ, moved_to. by apply skip_until_fine. Qed.

Lemma space_loop_okay fuel p :
  fine p -> (length text - pos p < fuel)%nat -> okay (space_loop text limits fuel) p (fun _ p' => moved p p').
Proof.
  revert p. induction fuel as [|fuel IH]; intros p Hp Hfuel; [lia|]. cbn [space_loop].
  apply okay_bind, okay_skip; [done|unfold is_whitespace; lia|]. intros p1 H1. apply okay_get.
  pose proof (moved_fine _ _ H1) as Hp1. rewrite (piece_rest p1 Hp1). apply okay_bind, okay_lift.
  destruct (starts_with [45; 45] (drop (pos p1) text)) eqn:Hs; cbn [negb]; [|by apply okay_ret].
  apply okay_bind, okay_modify. set (p2 := set_pos _ p1).
  assert (reads p1 p2) as H2.
  { split; [|cbn; lia]. apply moved_to. eapply (fine_past p1 1 45); [|done]. apply lookup_rest.
    by apply (starts_with_lookup _ _ 1 _ Hs). }
  apply okay_bind, okay_token; [by apply (moved_fine p1), H2|]. intros p3 H3 _. apply okay_get.
  assert (reads p p3) as H03 by (eapply reads_after; [exact H1|]; by eapply reads_then).
  assert (forall p4, moved p3 p4 -> okay (space_loop text limits fuel) p4 (fun _ p' => moved p p')) as Hgo.
  { intros p4 H4. pose proof (reads_then _ _ _ H03 H4) as [H04 Hlt].
    eapply okay_mono; [apply IH; [by eapply moved_fine|]|intros ? p5; by apply moved_trans].
    destruct H04 as ([_ Hl] & _). destruct Hp as [_ Hl0]. lia. }
  apply okay_bind. destruct (long_level text p3).
  - apply okay_bind. eapply okay_mono; [apply long_string_okay; by apply (moved_fine p), H03|].
    intros s p4 [[H4 _] _]. by apply Hgo.
  - apply okay_skip_until; [by apply (moved_fine p), H03|intros c; lia|]. exact Hgo.
Qed.
Lemma space_okay p : fine p -> okay (space text limits) p (fun _ p' => moved p p').
Proof. intros Hp. apply space_loop_okay; [done|]. lia. Qed.
Lemma okay_space p (Q : unit -> Parser -> Prop) : fine p -> (forall p', moved p p' -> Q tt p') -> okay (space text limits) p Q.
Proof. intros Hp HQ. eapply okay_mono; [by apply space_okay|]. intros [] p'. apply HQ. Qed.

Lemma okay_take c p (Q : unit -> Parser -> Prop) :
  fine p -> c < 128 -> (forall p', reads p p' -> Q tt p') -> okay (take_ text limits c) p Q.
Proof.
  intros Hp Hc HQ. unfold take_. apply okay_bind, okay_space; [done|]. intros p1 H1. apply okay_get, okay_bind, okay_ensure.
  intros (d & Hd & ->%Z.eqb_eq)%peek_is_inv. apply okay_bind. eapply okay_advance; [exact Hd|done|]. intros p2 H2.
  apply okay_token; [by apply (moved_fine p1), H2|]. intros p3 H3 _. apply HQ.
  eapply reads_after; [exact H1|]. by eapply reads_then.
Qed.
Lemma ascii_name c : name_first c = true \/ name_rest c = true -> c < 128.
Proof. unfold name_first, name_rest, is_alphabetic, is_digit. lia. Qed.
Lemma identifier_okay p :
  fine p -> okay (identifier text limits) p (fun s p' => reads p p' /\ zlen s <= string_bytes limits).
Proof.
  intros Hp. unfold identifier. apply okay_bind, okay_space; [done|]. intros p1 H1. apply okay_get, okay_bind, okay_ensure.
  intros (c & Hc & Hf)%peek_is_inv. apply okay_bind. eapply okay_advance; [exact Hc|by apply ascii_name; left|]. intros p2 H2.
  apply okay_bind, okay_skip; [by apply (moved_fine p1), H2|intros d ?; by apply ascii_name; right|]. intros p3 H3.
  apply okay_get, okay_bind, okay_ensure. intros Hl%Z.leb_le.
  pose proof (reads_then _ _ _ H2 H3) as H13. apply okay_bind, okay_token; [by apply (moved_fine p1), H13|].
  intros p4 H4 Hpos. destruct H13 as [H13 Hlt]. rewrite (piece_between p1 p3) by (first [by eapply moved_fine|lia]).
  apply okay_lift. split; [eapply reads_after; [exact H1|]; by apply (reads_then p1 p3); [split|]|].
  unfold zlen. rewrite length_take. lia.
Qed.
Lemma escape_okay p : fine p -> okay (escape text) p (fun _ p' => moved p p').
Proof.
  intros Hp. unfold escape. apply okay_get, okay_bind, okay_option. intros e He.
  apply okay_bind.
  assert (forall c, In c [97; 98; 102; 110; 114; 116; 118; 92; 39; 34; 10; 13; 120] -> c < 128) as Hsmall.
  { intros c H. repeat (destruct H as [<-|H]; [lia|]). destruct H. }
  destruct (Z.ltb_spec e 128) as [Hlt|Hge].
  - eapply okay_advance; [exact He|done|]. intros p1 [H1 _].
    repeat match goal with |- okay (if ?b then ret _ else _) _ _ => destruct b; [by apply okay_ret|] end.
    destruct (e =? 13).
    { apply okay_get, okay_bind. destruct (peek_is text (Z.eqb 10) p1) eqn:Hn; [|by apply okay_ret, okay_ret].
      apply peek_is_inv in Hn as (d & Hd & <-%Z.eqb_eq). eapply okay_advance; [exact Hd|done|].
      intros p2 [H2 _]. apply okay_ret. by eapply moved_trans. }
    destruct (is_digit e).
    { apply okay_get, okay_bind, okay_modify. set (more := take _ _).
      assert (moved p1 (set_pos (pos p1 + length more) p1)) as H2.
      { apply moved_to. unfold more. set (s := span is_digit (take 2 (drop (pos p1) text))).
        assert (length s <= length (take 2 (drop (pos p1) text)))%nat as Hs by apply span_length.
        rewrite length_take in *. replace (Nat.min (length s) (length (drop (pos p1) text))) with (length s) by lia.
        destruct (length s) as [|n] eqn:Hn; [rewrite Nat.add_0_r; destruct p1; apply (moved_fine _ _ H1)|].
        destruct (span_lookup is_digit (take 2 (drop (pos p1) text)) n) as (c & Hc & Hd); [fold s; lia|].
        apply (fine_past p1 n c); [apply lookup_rest|unfold is_digit in Hd; lia]. apply lookup_take_Some in Hc. apply Hc. }
      apply okay_bind, okay_ensure. intros _. apply okay_ret. by eapply moved_trans. }
    destruct (e =? 120); [|apply okay_fail]. apply okay_get, okay_bind.
    destruct (piece text (pos p1) (pos p1 + 2)) as [hex|] eqn:Hh; [|done]. apply okay_lift, okay_bind, okay_ensure. intros _.
    apply okay_bind, okay_modify, okay_ret. eapply moved_trans; [exact H1|]. apply moved_to.
    unfold piece in Hh. destruct (_ && _) eqn:Hg; [|done]. rewrite !andb_true_iff in Hg. destruct Hg as [[_ ?] ?%Nat.leb_le].
    by split.
  - apply okay_modify. assert (forall c, c < 128 -> (e =? c) = false) as Hno by (intros c ?; lia).
    rewrite !Hno by lia. assert (is_digit e = false) as -> by (unfold is_digit; lia). apply okay_fail.
Qed.
(** A quoted string may be left only behind its closing quote. *)
Lemma string_loop_okay fuel quote acc p :
  (pos p <= length text)%nat -> (length text - pos p < fuel)%nat -> quote < 128 ->
  okay (string_loop text limits fuel quote acc) p
    (fun _ p' => fine p' /\ (pos p <= pos p')%nat /\ out p' = out p).
Proof.
  revert p acc. induction fuel as [|fuel IH]; intros p acc Hp Hfuel Hquote; [lia|]. cbn [string_loop].
  apply okay_get, okay_bind, okay_option. intros c Hc. apply okay_bind, okay_modify. set (p1 := set_pos _ p).
  assert (pos p1 = S (pos p)) as Hp1 by (cbn; lia). pose proof (lookup_lt_Some _ _ _ Hc) as Hlt.
  assert (c < 128 -> fine p1) as Hfine.
  { intros Hs. apply (fine_past p 0 c); [|done]. by rewrite Nat.add_0_r. }
  destruct (Z.eqb_spec c quote) as [->|_]; [apply okay_ret; split_and!; [auto|lia|done]|].
  apply okay_bind, okay_ensure. intros _. apply okay_bind.
  assert (forall b p2, (pos p1 <= pos p2)%nat -> (pos p2 <= length text)%nat -> out p2 = out p ->
    okay (ensure (zlen (acc ++ [b]) <=? string_bytes limits) (limit "decoded string limit") ;;;
          string_loop text limits fuel quote (acc ++ [b])) p2
      (fun _ p' => fine p' /\ (pos p <= pos p')%nat /\ out p' = out p)) as Hgo.
  { intros b p2 H1 H2 Ho. apply okay_bind, okay_ensure. intros _.
    eapply okay_mono; [apply IH; [done|lia|done]|]. intros s p3 (? & ? & ?). split_and!; [done|lia|congruence]. }
  destruct (Z.eqb_spec c 92) as [->|_]; [|apply okay_ret, Hgo; [done|lia|done]].
  eapply okay_mono; [by apply escape_okay, Hfine|]. intros b p2 (H2 & Hle & Ho). apply Hgo; [done|apply H2|done].
Qed.
Lemma string_okay p : fine p -> okay (string_ text limits) p (fun _ p' => reads p p').
Proof.
  intros Hp. unfold string_. apply okay_bind, okay_space; [done|]. intros p1 H1. apply okay_get.
  pose proof (moved_fine _ _ H1) as Hp1. destruct (long_level text p1).
  { eapply okay_mono; [by apply long_string_okay|]. intros s p2 [H2 _]. by eapply reads_after. }
  apply okay_bind, okay_option. intros quote Hq. destruct (peek text p1) as [c|] eqn:Hc; [|done].
  destruct ((c =? 39) || (c =? 34)) eqn:Hcq; [injection Hq as <-|done].
  apply okay_bind. eapply okay_advance; [exact Hc|lia|]. intros p2 H2. pose proof (moved_fine _ _ (proj1 H2)) as [Hb2 Hl2].
  apply okay_bind. eapply okay_mono; [apply string_loop_okay; [done|lia|lia]|]. intros s p3 (H3 & Hle & Ho).
  assert (moved p2 p3) as H23 by by split_and!. apply okay_bind, okay_token; [done|]. intros p4 H4 _.
  apply okay_bind, okay_ensure. intros _. apply okay_ret. eapply reads_after; [exact H1|].
  eapply reads_then; [exact H2|]. by eapply moved_trans.
Qed.

Lemma entry_key_okay p : fine p -> okay (entry_key text limits) p (fun _ p' => moved p p').
Proof.
  intros Hp. unfold entry_key. apply okay_get. destruct (_ && _).
  - apply okay_bind, okay_take; [done|done|]. intros p1 H1. apply okay_bind, okay_space; [by eapply moved_fine, H1|].
    intros p2 H2. apply okay_get, okay_bind.
    apply (okay_mono _ _ (fun _ p3 => moved p2 p3)).
    + destruct (peek_is text _ p2).
      * apply okay_bind. eapply okay_mono; [apply string_okay; by eapply moved_fine|]. intros s p3 [H3 _]. by apply okay_ret.
      * apply okay_bind, okay_skip; [by eapply moved_fine|unfold is_digit; lia|]. intros p3 H3. apply okay_get, okay_bind, okay_ensure.
        intros _. rewrite (piece_between p2 p3); [|by eapply moved_fine|by eapply moved_fine|apply H3].
        apply okay_bind, okay_lift, okay_bind, okay_ensure. intros _. apply okay_bind, okay_ensure. intros _.
        apply okay_bind, okay_token; [by eapply moved_fine|]. intros p4 H4 _. apply okay_ret. by eapply moved_trans.
    + intros k p3 H3. apply okay_bind, okay_take; [by eapply moved_fine|done|]. intros p4 H4.
      apply okay_bind, okay_take; [by eapply moved_fine, H4|done|]. intros p5 H5. apply okay_ret.
      eapply moved_trans; [apply H1|]. eapply moved_trans; [exact H2|]. eapply moved_trans; [exact H3|].
      eapply moved_trans; [apply H4|apply H5].
  - destruct (peek_is text name_first p); [|by apply okay_ret, moved_refl].
    apply okay_bind. eapply okay_mono; [by apply identifier_okay|]. intros s p1 [[H1 _] _].
    apply okay_bind, okay_space; [by eapply moved_fine|]. intros p2 H2. apply okay_get.
    destruct (peek_is text (Z.eqb 61) p2).
    + apply okay_bind, okay_take; [by eapply moved_fine|done|]. intros p3 [H3 _]. apply okay_ret.
      eapply moved_trans; [exact H1|]. by eapply moved_trans.
    + apply okay_bind, okay_modify, okay_ret. destruct Hp. split; [done|]. split; [done|].
      destruct H1 as (_ & _ & Ho1), H2 as (_ & _ & Ho2). cbn. congruence.
Qed.

Lemma scan_decimal_okay t e : scan_decimal t = Err e -> exists m, e = syntax m.
Proof.
  unfold scan_decimal. cbv zeta. destruct (bool_decide _); [intros [= <-]; by eexists|].
  destruct (match drop _ _ with c :: _ => is_exponent c | [] => false end); [|done].
  destruct (bool_decide _); [intros [= <-]; by eexists|done].
Qed.
Lemma number_okay t e : number t = Err e -> exists m, e = syntax m.
Proof.
  unfold number. destruct (scan_decimal t) as [d|e1] eqn:Hs; cbn; [|intros [= <-]; by eapply scan_decimal_okay].
  destruct (bool_decide _); cbn; [|intros [= <-]; by eexists]. destruct (decimal_f64 d); [|intros [= <-]; by eexists].
  destruct (_ && _); [intros [= <-]; by eexists|done].
Qed.
Lemma scalar_okay p : fine p -> okay (scalar text limits) p (fun v p' => reads p p' /\ v <> Container).
Proof.
  intros Hp. unfold scalar. apply okay_get. destruct (peek_is text (fun c => (c =? 39) || (c =? 34)) p).
  { apply okay_bind. eapply okay_mono; [by apply string_okay|]. intros s p1 H1. by apply okay_ret. }
  destruct (_ && _).
  { apply okay_bind. eapply okay_mono; [by apply long_string_okay|]. intros s p1 [H1 _]. by apply okay_ret. }
  destruct (peek_is text (fun c => is_sign c || (c =? 46) || is_digit c) p) eqn:Hn.
  { apply okay_bind, okay_skip_some; [done|unfold is_number_char, is_sign, is_digit, is_exponent; lia| |].
    { apply peek_is_inv in Hn as (c & Hc & Hn). unfold peek_is. rewrite Hc. unfold is_number_char. by rewrite Hn. }
    intros q Hq. apply okay_bind, okay_token; [by eapply moved_fine, Hq|]. intros q1 Hq1 Hpos. apply okay_get.
    pose proof (reads_then _ _ _ Hq Hq1) as [H1 Hlt].
    rewrite (piece_between p q1); [|done|by eapply moved_fine|lia]. apply okay_bind, okay_lift, okay_bind.
    destruct (number _) as [n|e] eqn:Hnum; [apply okay_lift, okay_ret; split; [by split|done]|].
    by apply number_okay in Hnum as [m ->]. }
  destruct (peek_is text is_alphabetic p); [|apply okay_fail].
  apply okay_bind. eapply okay_mono; [by apply identifier_okay|]. intros s p1 [H1 _].
  repeat (destruct (bool_decide _); [by apply okay_ret|]). apply okay_fail.
Qed.
(** ** The grammar *)

(** A retained property is a piece of the source; the paths of a forest are
    distinct and hang together below its roots. *)
Record sourced (base : Z) (v : Property) : Prop := {
  so_span : 0 <= start v <= stop v /\ stop v <= zlen text;
  so_lexical : lexical v = slice (start v) (stop v) text;
  so_retained : disposition v = RetainedOnly /\ namespace v = None /\ name v = last_name (path v);
  so_depth : zlen (path v) <= base + depth_limit limits;
  so_text : forall t, value v = Text t -> zlen t <= string_bytes limits;
}.
Record forest (base lo hi : Z) (roots : list Key -> Prop) (more : list Property) : Prop := {
  fo_sourced : forall v, v ∈ more -> sourced base v /\ lo <= start v /\ stop v <= hi;
  fo_paths : NoDup (path <$> more);
  fo_parents : forall v, v ∈ more -> roots (path v) \/
    exists c k, c ∈ more /\ value c = Container /\ path v = path c ++ [k] /\ start c <= start v /\ stop v <= stop c;
  fo_roots : forall v, v ∈ more -> exists r, roots r /\ r `prefix_of` path v;
}.
(** What a step that retains a forest does. *)
Definition grows (base : Z) (roots : list Key -> Prop) (p p' : Parser) : Prop :=
  fine p' /\ (pos p < pos p')%nat /\
  exists more, out p' = out p ++ more /\ forest base (Z.of_nat (pos p)) (Z.of_nat (pos p')) roots more.

Lemma forest_empty base lo hi roots : forest base lo hi roots [].
Proof. split; [by intros v ?%elem_of_nil|constructor|by intros v ?%elem_of_nil..]. Qed.
Lemma forest_weaken base lo hi lo' hi' roots roots' more :
  forest base lo hi roots more -> lo' <= lo -> hi <= hi' -> (forall r, roots r -> roots' r) ->
  forest base lo' hi' roots' more.
Proof.
  intros [H1 H2 H3 H4] Hlo Hhi Hr. split; [|done| |].
  - intros v Hv. destruct (H1 v Hv) as (? & ? & ?). split_and!; [done|lia|lia].
  - intros v [?|?]%H3; [left; auto|by right].
  - intros v (r & ? & ?)%H4. eauto.
Qed.
Lemma forest_app base lo hi roots xs ys :
  forest base lo hi roots xs -> forest base lo hi roots ys ->
  (forall x y, x ∈ xs -> y ∈ ys -> path x <> path y) -> forest base lo hi roots (xs ++ ys).
Proof.
  intros [A1 A2 A3 A4] [B1 B2 B3 B4] Hd. split.
  - intros v [|]%elem_of_app; auto.
  - rewrite fmap_app. apply NoDup_app. split_and!; [done| |done].
    intros r (x & -> & Hx)%list_elem_of_fmap (y & Hxy & Hy)%list_elem_of_fmap. by apply (Hd x y).
  - intros v [Hv|Hv]%elem_of_app.
    + destruct (A3 v Hv) as [|(c & k & Hc & ?)]; [by left|right]. exists c, k. split; [apply elem_of_app; by left|done].
    + destruct (B3 v Hv) as [|(c & k & Hc & ?)]; [by left|right]. exists c, k. split; [apply elem_of_app; by right|done].
  - intros v [|]%elem_of_app; auto.
Qed.
(** The entries of a table, under the keys that are not taken. *)
Definition entries (pi : list Key) (keys : list Key) (r : list Key) : Prop := exists k, r = pi ++ [k] /\ k ∉ keys.
Lemma forest_entry base lo hi pi k keys xs ys :
  k ∉ keys -> forest base lo hi (eq (pi ++ [k])) xs -> forest base lo hi (entries pi (k :: keys)) ys ->
  forest base lo hi (entries pi keys) (xs ++ ys).
Proof.
  intros Hk Hx Hy. apply forest_app.
  - eapply forest_weaken; [exact Hx|lia|lia|]. intros r <-. by exists k.
  - eapply forest_weaken; [exact Hy|lia|lia|]. intros r (k' & -> & Hk'). exists k'. split; [done|]. set_solver.
  - intros x y Hx' Hy' He. destruct (fo_roots _ _ _ _ _ Hx x Hx') as (r & <- & [s1 Hs1]).
    destruct (fo_roots _ _ _ _ _ Hy y Hy') as (r & (k' & -> & Hk') & [s2 Hs2]).
    rewrite Hs1, Hs2, <- !(assoc_L (++)) in He. apply app_inv_head in He. injection He as -> _. set_solver.
Qed.
(** The property of the table itself. *)
Lemma forest_container base lo hi pi v more :
  forest base lo hi (entries pi []) more -> sourced base v -> path v = pi -> value v = Container ->
  start v = lo -> stop v = hi -> forest base lo hi (eq pi) (more ++ [v]).
Proof.
  intros [A1 A2 A3 A4] Hv Hp Hc Hlo Hhi. split.
  - intros x [Hx| ->%list_elem_of_singleton]%elem_of_app; [auto|]. split_and!; [done|lia|lia].
  - rewrite fmap_app. apply NoDup_app. split_and!; [done| |apply NoDup_singleton].
    intros r (x & -> & Hx)%list_elem_of_fmap He%list_elem_of_singleton. destruct (A4 x Hx) as (r & (k & -> & _) & [s Hs]).
    rewrite Hs, Hp in He. apply (f_equal length) in He. rewrite !length_app in He. cbn in He. lia.
  - intros x [Hx| ->%list_elem_of_singleton]%elem_of_app; [right|by left]. destruct (A3 x Hx) as [(k & Hk & _)|(c & k & Hcm & ?)].
    + exists v, k. split_and!; [apply elem_of_app; right; by apply list_elem_of_singleton|done|congruence| |];
        destruct (A1 x Hx) as (? & ? & ?); lia.
    + exists c, k. split; [apply elem_of_app; by left|done].
  - intros x [Hx| ->%list_elem_of_singleton]%elem_of_app; [|exists pi; rewrite Hp; done].
    destruct (A4 x Hx) as (r & (k & -> & _) & Hs). exists pi. split; [done|]. eapply prefix_app_l. exact Hs.
Qed.
Lemma forest_leaf base lo hi pi v :
  sourced base v -> path v = pi -> start v = lo -> stop v = hi -> forest base lo hi (eq pi) [v].
Proof.
  intros Hv Hp Hlo Hhi. split.
  - intros x ->%list_elem_of_singleton. split_and!; [done|lia|lia].
  - apply NoDup_singleton.
  - intros x ->%list_elem_of_singleton. by left.
  - intros x ->%list_elem_of_singleton. exists pi. by rewrite Hp.
Qed.

Lemma retain_okay base path from v p :
  fine p -> fine from -> (pos from <= pos p)%nat -> zlen path <= base + depth_limit limits ->
  okay (retain text limits path (pos from) v) p (fun _ p' =>
    fine p' /\ pos p' = pos p /\ zlen (out p') <= max_properties limits /\ exists x, out p' = out p ++ [x] /\ sourced base x /\ AdobeData.path x = path /\
      value x = v /\ start x = Z.of_nat (pos from) /\ stop x = Z.of_nat (pos p)).
Proof.
  intros Hp Hf Hle Hd. unfold retain. apply okay_get. rewrite (piece_between from p) by done. apply okay_bind, okay_lift.
  unfold push. apply okay_get, okay_bind, okay_ensure. intros Hb%negb_true_iff. rewrite !orb_false_iff in Hb. cbn in Hb.
  destruct Hb as [[Hcount _] Ht]. apply okay_modify. destruct Hp as [Hp Hl]. split; [by split|]. split; [done|].
  split; [cbn; rewrite zlen_app; apply Z.leb_gt in Hcount; change (zlen [_]) with 1; lia|]. eexists. split; [done|].
  split_and!; try done. split; cbn; try done.
  - unfold zlen. lia.
  - unfold slice. rewrite Nat2Z.id. f_equal. lia.
  - intros t ->. lia.
Qed.
Definition value_spec (base : Z) (fuel : nat) : Prop := forall p pi depth,
  fine p -> (2 * (length text - pos p) + 1 <= fuel)%nat -> zlen pi = depth + base ->
  okay (value_ text limits fuel pi depth) p (fun _ p' =>
    grows base (eq pi) p p' /\ zlen (out p') <= max_properties limits).
Definition table_spec (base : Z) (fuel : nat) : Prop := forall p pi depth keys next,
  fine p -> (2 * (length text - pos p) + 2 <= fuel)%nat -> zlen pi = depth + base ->
  okay (table_loop text limits fuel pi depth keys next) p (fun _ p' => grows base (entries pi keys) p p').

Lemma grows_moved base roots p p1 p2 p3 :
  moved p p1 -> grows base roots p1 p2 -> moved p2 p3 -> grows base roots p p3.
Proof.
  intros (_ & Hle1 & Ho1) (_ & Hlt & more & Ho2 & Hf) (H3 & Hle3 & Ho3). split; [done|]. split; [lia|].
  exists more. split; [congruence|]. eapply forest_weaken; [exact Hf|lia|lia|done].
Qed.
Lemma table_step base fuel : value_spec base fuel -> table_spec base fuel -> table_spec base (S fuel).
Proof.
  intros Hvalue Htable p pi depth keys next Hp Hfuel Hpi. cbn [table_loop].
  apply okay_bind, okay_space; [done|]. intros p1 H1. apply okay_get.
  destruct (peek_is text (Z.eqb 125) p1).
  { apply okay_take; [by eapply moved_fine|done|]. intros p2 H2. destruct (reads_after _ _ _ H1 H2) as [(Hf & _ & Ho) Hlt].
    split; [done|]. split; [done|]. exists []. rewrite app_nil_r. split; [done|apply forest_empty]. }
  apply okay_bind. eapply okay_mono; [apply entry_key_okay; by eapply moved_fine|]. intros key p2 H2.
  set (k := default (Index next) key). set (next' := match key with Some _ => next | None => _ end).
  apply okay_bind, okay_ensure. intros Hk%bool_decide_eq_true.
  assert (moved p p2) as H02 by by eapply moved_trans. destruct Hp as [Hb Hl].
  apply okay_bind. eapply okay_mono.
  { apply Hvalue; [by eapply moved_fine| |unfold zlen in *; rewrite length_app; cbn; lia].
    destruct H02 as (Hf2 & ? & _). pose proof (proj2 Hf2). lia. }
  intros [] p3 [H3 _]. apply okay_bind, okay_space; [by apply H3|]. intros p4 H4. apply okay_get.
  pose proof (grows_moved _ _ _ _ _ _ H02 H3 H4) as (Hf4 & Hlt4 & xs & Ho4 & Hxs).
  assert (forall p5, moved p4 p5 -> okay (table_loop text limits fuel pi depth (k :: keys) next') p5
    (fun _ p' => grows base (entries pi keys) p p')) as Hgo.
  { intros p5 (H5 & Hle5 & Ho5). pose proof (proj2 H5) as Hl5. eapply okay_mono; [apply Htable; [done|lia|done]|].
    intros [] p6 (H6 & Hlt6 & ys & Ho6 & Hys). split; [done|]. split; [lia|]. exists (xs ++ ys).
    split; [rewrite Ho6, Ho5, Ho4; by rewrite (assoc_L (++))|].
    eapply forest_entry; [exact Hk|eapply forest_weaken; [exact Hxs|lia|lia|done]|].
    eapply forest_weaken; [exact Hys|lia|lia|done]. }
  apply okay_bind. destruct (peek_is text (fun c => (c =? 44) || (c =? 59)) p4) eqn:Hsep.
  - apply peek_is_inv in Hsep as (c & Hc & Hcs). apply okay_bind. eapply okay_advance; [exact Hc|lia|]. intros p5 [H5 _].
    apply okay_token; [by eapply moved_fine|]. intros p6 H6 _. apply Hgo. by eapply moved_trans.
  - apply okay_ensure. intros _. apply Hgo. by apply moved_refl.
Qed.
Lemma value_step base fuel : table_spec base fuel -> value_spec base (S fuel).
Proof.
  intros Htable p pi depth Hp Hfuel Hpi. cbn [value_]. apply okay_bind, okay_ensure. intros Hd%Z.leb_le.
  apply okay_bind, okay_space; [done|]. intros p1 H1. apply okay_get, okay_bind. pose proof (moved_fine _ _ H1) as Hp1.
  assert (zlen pi <= base + depth_limit limits) as Hdepth by lia.
  destruct (peek_is text (Z.eqb 123) p1).
  - apply okay_bind, okay_take; [done|done|]. intros p2 [H2 Hlt2]. pose proof (moved_fine _ _ H2) as Hp2.
    destruct H1 as (_ & Hle1 & Ho1), H2 as (_ & _ & Ho2). destruct Hp1 as [Hb1 Hl1]. pose proof (proj2 Hp2) as Hl2.
    apply okay_bind. eapply okay_mono; [apply Htable; [done|lia|done]|]. intros [] p3 (H3 & Hlt3 & more & Ho3 & Hmore).
    apply okay_ret. eapply okay_mono; [apply (retain_okay base pi p1); [done|by split|lia|done]|].
    intros [] p4 (H4 & Hpos & Hcount & x & Ho4 & Hx & Hxp & Hxv & Hxs & Hxe). split; [|done]. split; [done|]. split; [lia|].
    exists (more ++ [x]). split; [rewrite Ho4, Ho3, Ho2, Ho1; by rewrite (assoc_L (++))|].
    eapply (forest_weaken _ (Z.of_nat (pos p1)) (Z.of_nat (pos p3))); [|lia|lia|done].
    apply forest_container; try done. eapply forest_weaken; [exact Hmore|lia|lia|done].
  - eapply okay_mono; [by apply scalar_okay|]. intros v p2 [[(H2 & _ & Ho2) Hlt2] Hv].
    eapply okay_mono; [apply (retain_okay base pi p1); [done|done|lia|done]|].
    intros [] p4 (H4 & Hpos & Hcount & x & Ho4 & Hx & Hxp & Hxv & Hxs & Hxe). destruct H1 as (_ & Hle1 & Ho1).
    split; [|done]. split; [done|]. split; [lia|]. exists [x]. split; [congruence|].
    eapply (forest_weaken _ (Z.of_nat (pos p1)) (Z.of_nat (pos p2))); [|lia|lia|done]. by apply forest_leaf.
Qed.
Lemma grammar_specs base fuel : value_spec base fuel /\ table_spec base fuel.
Proof.
  induction fuel as [|fuel [IHv IHt]].
  - split; intros p pi; intros; lia.
  - split; [by apply value_step|by apply table_step].
Qed.

Lemma preamble_okay p :
  fine p -> okay (preamble text limits) p (fun r p' => moved p p' /\ r.2 = match r.1 with Assignment s => [Name s] | _ => [] end).
Proof.
  intros Hp. unfold preamble. apply okay_get. destruct (peek_is text (Z.eqb 123) p).
  { apply okay_ret. split; [by apply moved_refl|done]. }
  apply okay_bind. eapply okay_mono; [by apply identifier_okay|]. intros s p1 [[H1 _] _].
  apply okay_bind, okay_space; [by eapply moved_fine|]. intros p2 H2. pose proof (moved_trans _ _ _ H1 H2) as H02.
  destruct (bool_decide _); [by apply okay_ret|]. apply okay_bind, okay_take; [by eapply moved_fine|done|].
  intros p3 [H3 _]. apply okay_ret. split; [by eapply moved_trans|done].
Qed.
(** The path of the whole table. *)
Definition root_path (r : Root) : list Key := match r with Assignment s => [Name s] | _ => [] end.
Lemma document_okay p :
  fine p -> out p = [] ->
  okay (document text limits (document_fuel text)) p (fun r p' =>
    zlen (out p') <= max_properties limits /\ forest (zlen (root_path r)) 0 (zlen text) (eq (root_path r)) (out p')).
Proof.
  intros Hp Ho. unfold document. apply okay_bind, okay_space; [done|]. intros p1 H1. apply okay_bind.
  eapply okay_mono; [apply preamble_okay; by eapply moved_fine|]. intros [r pi] p2 [H2 Hr]. cbn in Hr. subst pi. cbn [fst snd].
  fold (root_path r). apply okay_bind, okay_space; [by eapply moved_fine|]. intros p3 H3. apply okay_get, okay_bind, okay_ensure.
  intros _. pose proof (moved_trans _ _ _ (moved_trans _ _ _ H1 H2) H3) as H03.
  apply okay_bind. eapply okay_mono.
  { apply (proj1 (grammar_specs (zlen (root_path r)) (document_fuel text))); [by eapply moved_fine|unfold document_fuel; lia|lia]. }
  intros [] p4 [H4 Hcount]. destruct (grows_moved _ _ _ _ _ _ H03 H4 (moved_refl _ (proj1 H4))) as (Hf & _ & more & Hout & Hmore).
  assert (forall p5, moved p4 p5 -> zlen (out p5) <= max_properties limits /\
    forest (zlen (root_path r)) 0 (zlen text) (eq (root_path r)) (out p5)) as Hend.
  { intros p5 (_ & _ & Ho5). rewrite Ho5. split; [done|]. rewrite Hout, Ho. destruct Hf as [_ Hl].
    eapply forest_weaken; [exact Hmore|lia|unfold zlen; lia|done]. }
  apply okay_bind, okay_space; [done|]. intros p5 H5. apply okay_get, okay_bind.
  assert (forall p6, moved p4 p6 -> okay (let* q := get in
    ensure (pos q =? length text)%nat (syntax "trailing executable or unsupported data") ;;; ret r) p6
    (fun r' p' => zlen (out p') <= max_properties limits /\
      forest (zlen (root_path r')) 0 (zlen text) (eq (root_path r')) (out p'))) as Hgo.
  { intros p6 H6. apply okay_get, okay_bind, okay_ensure. intros _. by apply okay_ret, Hend. }
  destruct (peek_is text (Z.eqb 59) p5); [|by apply okay_ret, Hgo].
  apply okay_bind, okay_take; [by eapply moved_fine|done|]. intros p6 [H6 _].
  apply okay_space; [by eapply moved_fine|]. intros p7 H7. apply Hgo. eapply moved_trans; [exact H5|]. by eapply moved_trans.
Qed.
End Reader.

(** ** Theorems *)

(** Reading ends on every input, valid or not: no loop or recursion runs out
    of the fuel, two steps for each byte, and no character is sliced apart;
    the outcome is a document or a failure with its reason. *)
Theorem adobe_parse_total text limits :
  parse text limits <> Err Panic /\ parse text limits <> Err OutOfFuel.
Proof.
  unfold parse. destruct (utf8_valid text) eqn:Hv; cbn; [|done].
  pose proof (document_okay text limits Hv (mkParser 0 0 [])) as H. unfold okay in H.
  destruct (document _ _ _ _) as [p [r|e]]; [done|].
  destruct e; [done|exfalso; apply H; [split; [apply boundary_start|cbn; lia]|done]..].
Qed.

(** C28. What is read is the source itself: every retained property is the piece of
    the text at its offsets, with nothing interpreted, within the limits of
    count, nesting and text length; the paths are distinct; and except for the
    root each property lies inside a retained table whose path it extends by
    one key. *)
Theorem adobe_parse_faithful text limits d :
  parse text limits = Ok d ->
  zlen (properties d) <= max_properties limits /\ NoDup (path <$> properties d) /\
  (forall v, v ∈ properties d ->
     0 <= start v <= stop v /\ stop v <= zlen text /\ lexical v = slice (start v) (stop v) text /\
     disposition v = RetainedOnly /\ zlen (path v) <= zlen (root_path (root d)) + depth_limit limits /\
     (forall t, value v = Text t -> zlen t <= string_bytes limits) /\
     (path v = root_path (root d) \/
      exists c k, c ∈ properties d /\ value c = Container /\ path v = path c ++ [k] /\
        start c <= start v /\ stop v <= stop c)).
Proof.
  unfold parse. destruct (utf8_valid text) eqn:Hv; cbn; [|done].
  pose proof (document_okay text limits Hv (mkParser 0 0 [])) as H. unfold okay in H.
  destruct (document _ _ _ _) as [p [r|e]]; [|done]. intros [= <-]. cbn.
  destruct H as [Hcount [H1 H2 H3 _]]; [split; [apply boundary_start|cbn; lia]|done|].
  split; [done|]. split; [done|]. intros v Hin. destruct (H1 v Hin) as ([[? ?] ? [? _] ? ?] & _ & _).
  split_and!; try done; try lia. destruct (H3 v Hin) as [|?]; [by left|by right].
Qed.
Lemma adobe_parse_faithful_witness :
  exists d, parse (ascii_bytes "s = { a = 1.5, { true } }") default_Limits = Ok d /\ zlen (properties d) = 4 /\
    NoDup (path <$> properties d).
Proof.
  eexists. split; [vm_compute; reflexivity|]. split; [by vm_compute|].
  apply (adobe_parse_faithful (ascii_bytes "s = { a = 1.5, { true } }") default_Limits). by vm_compute.
Defined.
