(* ===== verification/AdobePrint.v ===== *)
(** A printer of settings tables, and that the reader reads back what it prints
    (AdobeData). *)
From stdpp Require Import base tactics option list numbers strings sets.
From Stdlib Require Import ZArith Lia.
From S2P Require Import Prelude Bytes Utf8 F64 AdobeData AdobeReader.

Open Scope Z_scope.
Local Open Scope prog_scope.

(** ** Printing *)

(** Tables with named entries. *)
Inductive Data : Type :=
| DText (s : list Z)
| DBoolean (b : bool)
| DNull
| DTable (entries : list (list Z * Data)).

Section Induction.
Context (P : Data -> Prop) (Htext : forall s, P (DText s)) (Hbool : forall b, P (DBoolean b)) (Hnull : P DNull)
  (Htable : forall es, Forall (fun e => P e.2) es -> P (DTable es)).
Fixpoint Data_rect' (d : Data) : P d :=
  match d with
  | DText s => Htext s
  | DBoolean b => Hbool b
  | DNull => Hnull
  | DTable es =>
      Htable es ((fix go es : Forall (fun e => P e.2) es :=
        match es with [] => Forall_nil_2 _ | e :: es' => Forall_cons_2 _ _ _ (Data_rect' e.2) (go es') end) es)
  end.
End Induction.

(** Printable characters stand for themselves, other bytes are written in decimal. *)
Definition plain (b : Z) : bool := (32 <=? b) && (b <? 127) && negb ((b =? 34) || (b =? 92)).
Definition escaped (b : Z) : list Z :=
  if plain b then [b] else [92; 48 + b / 100; 48 + b / 10 mod 10; 48 + b mod 10].
Definition quote (s : list Z) : list Z := 34 :: flat_map escaped s ++ [34].
Fixpoint show (d : Data) : list Z :=
  match d with
  | DText s => quote s
  | DBoolean b => ascii_bytes (if b then "true" else "false")
  | DNull => ascii_bytes "nil"
  | DTable es => 123 :: flat_map (fun e => 91 :: quote e.1 ++ 93 :: 61 :: show e.2 ++ [44]) es ++ [125]
  end.
Definition show_entry (e : list Z * Data) : list Z := 91 :: quote e.1 ++ 93 :: 61 :: show e.2 ++ [44].

(** The paths and values of a document, in the order in which the reader retains them. *)
Fixpoint flatten (pi : list Key) (d : Data) : list (list Key * Value) :=
  match d with
  | DText s => [(pi, Text s)]
  | DBoolean b => [(pi, Boolean b)]
  | DNull => [(pi, Null)]
  | DTable es => flat_map (fun e => flatten (pi ++ [Name e.1]) e.2) es ++ [(pi, Container)]
  end.
(** The tokens the reader counts, and the nesting. *)
Fixpoint cost (d : Data) : Z :=
  match d with
  | DTable es => 2 + foldr (fun e n => 5 + cost e.2 + n) 0 es
  | _ => 1
  end.
Fixpoint height (d : Data) : Z :=
  match d with
  | DTable es => foldr (fun e n => Z.max (1 + height e.2) n) 0 es
  | _ => 0
  end.
Definition text_ok (limits : Limits) (s : list Z) : Prop :=
  well_formed s /\ utf8_valid s = true /\ zlen s <= string_bytes limits.
(** What the reader accepts: texts in UTF-8 within the limit, distinct names. *)
Inductive printable (limits : Limits) : Data -> Prop :=
| printable_text s : text_ok limits s -> printable limits (DText s)
| printable_boolean b : printable limits (DBoolean b)
| printable_null : printable limits DNull
| printable_table es :
    NoDup es.*1 -> Forall (fun e => text_ok limits e.1 /\ printable limits e.2) es -> printable limits (DTable es).

(** ** Reading what was printed *)

Section Printed.
Context (text : list Z) (limits : Limits) (Hascii : Forall (fun b => b < 128) text).

Definition at_ (p : Parser) (l : list Z) : Prop := drop (pos p) text = l /\ (pos p <= length text)%nat.
Definition forward (n : nat) (k : Z) (p : Parser) : Parser := mkParser (pos p + n) (tokens p + k) (out p).

Lemma at_forward p n k l1 l2 : at_ p (l1 ++ l2) -> n = length l1 -> at_ (forward n k p) l2.
Proof.
  intros [H Hl] ->. split; cbn.
  - rewrite <- drop_drop, H. by rewrite drop_app_length.
  - apply (f_equal length) in H. rewrite length_drop, length_app in H. lia.
Qed.
Lemma at_peek p c l : at_ p (c :: l) -> peek text p = Some c.
Proof. intros [H _]. unfold peek. rewrite <- (Nat.add_0_r (pos p)), <- lookup_drop, H. done. Qed.
Lemma ascii_boundary i : (i <= length text)%nat -> is_boundary text i = true.
Proof.
  intros Hi. destruct (text !! i) as [b|] eqn:Hb.
  - eapply boundary_at; [exact Hb|]. by eapply (Forall_lookup_1 _ _ _ _ Hascii) in Hb.
  - apply lookup_ge_None in Hb. assert (i = length text) as -> by lia. apply boundary_end.
Qed.
Lemma at_piece p l1 l2 n : at_ p (l1 ++ l2) -> n = length l1 -> piece text (pos p) (pos p + n) = Ok l1.
Proof.
  intros [H Hl] ->. pose proof (f_equal length H) as Hlen. rewrite length_drop, length_app in Hlen.
  rewrite piece_ok; [|lia|apply ascii_boundary; lia|apply ascii_boundary; lia|lia].
  rewrite H. f_equal. replace (pos p + length l1 - pos p)%nat with (length l1) by lia. apply take_app_length.
Qed.
Lemma at_rest p l : at_ p l -> piece text (pos p) (length text) = Ok l.
Proof.
  intros [H Hl]. rewrite piece_ok; [|done|by apply ascii_boundary|apply boundary_end|done].
  rewrite take_ge by (rewrite length_drop; lia). by rewrite H.
Qed.

Lemma token_run p : tokens p < max_tokens limits -> token limits p = (forward 0 1 p, Ok tt).
Proof.
  intros Ht. unfold token. rewrite bind_modify, bind_get. cbn. unfold ensure.
  destruct (Z.leb_spec (tokens p + 1) (max_tokens limits)); [|lia]. unfold forward, ret. by rewrite Nat.add_0_r.
Qed.
(** No space in front of a character that starts something. *)
Definition starts (c : Z) : bool := negb (is_whitespace c) && negb (c =? 45).
Lemma space_run p c l : at_ p (c :: l) -> starts c = true -> space text limits p = (p, Ok tt).
Proof.
  intros Hat Hc. unfold starts in Hc. apply andb_true_iff in Hc as [Hw%negb_true_iff Hm%negb_true_iff].
  unfold space. cbn [space_loop]. unfold skip_while. rewrite bind_modify, bind_get.
  pose proof Hat as [H Hl]. rewrite H. cbn [span]. rewrite Hw. cbn [length].
  assert (set_pos (pos p + 0) p = p) as -> by (rewrite Nat.add_0_r; by destruct p).
  rewrite (at_rest p (c :: l) Hat). rewrite bind_lift.
  assert (starts_with [45; 45] (c :: l) = false) as ->; [|done].
  unfold starts_with. apply bool_decide_eq_false. destruct l; cbn; intros [= -> _]; done.
Qed.
Lemma take_run p c l :
  at_ p (c :: l) -> starts c = true -> tokens p < max_tokens limits -> take_ text limits c p = (forward 1 1 p, Ok tt).
Proof.
  intros Hat Hc Ht. unfold take_. rewrite (bind_ok _ _ _ _ _ (space_run p c l Hat Hc)), bind_get.
  unfold peek_is. rewrite (at_peek p c l Hat), Z.eqb_refl, bind_ensure. unfold advance. rewrite bind_modify.
  rewrite token_run by done. unfold forward. cbn. by rewrite Nat.add_0_r.
Qed.
Lemma forward_zero p : forward 0 0 p = p.
Proof. unfold forward. rewrite Nat.add_0_r, Z.add_0_r. by destruct p. Qed.
Lemma forward_forward n k n' k' p : forward n k (forward n' k' p) = forward (n' + n) (k' + k) p.
Proof. unfold forward. cbn. f_equal; lia. Qed.
Lemma advance_run n p : advance n p = (forward n 0 p, Ok tt).
Proof. unfold advance, modify, forward, set_pos. by rewrite Z.add_0_r. Qed.

Lemma token_forward n k p :
  tokens p + k < max_tokens limits -> token limits (forward n k p) = (forward n (k + 1) p, Ok tt).
Proof. intros H. rewrite token_run by exact H. rewrite forward_forward. by rewrite Nat.add_0_r. Qed.

(** *** Quoted strings *)

Lemma three_digits b : 0 <= b < 256 ->
  digits_value 10 [48 + b / 100; 48 + b / 10 mod 10; 48 + b mod 10] = b /\ 0 <= b / 100 <= 2 /\
  0 <= b / 10 mod 10 <= 9 /\ 0 <= b mod 10 <= 9.
Proof.
  intros Hb. assert (0 <= b / 100 <= 2 /\ 0 <= b / 10 mod 10 <= 9 /\ 0 <= b mod 10 <= 9) as (H1 & H2 & H3).
  { pose proof (Z.mod_pos_bound (b / 10) 10). pose proof (Z.mod_pos_bound b 10).
    split_and!; try lia; [apply Z.div_pos; lia|]. apply Z.lt_succ_r, Z.div_lt_upper_bound; lia. }
  split_and!; try lia. unfold digits_value, digit_value. cbn [fold_left].
  repeat match goal with |- context [if ?x <=? 57 then _ else _] => destruct (Z.leb_spec x 57); [|lia] end.
  pose proof (Z.div_mod b 10 ltac:(lia)). pose proof (Z.div_mod (b / 10) 10 ltac:(lia)).
  rewrite Z.div_div in * by lia. change (10 * 10) with 100 in *. lia.
Qed.
Lemma escape_run p b l :
  0 <= b < 256 -> at_ p (48 + b / 100 :: 48 + b / 10 mod 10 :: 48 + b mod 10 :: l) ->
  escape text p = (forward 3 0 p, Ok b).
Proof.
  intros Hb Hat. destruct (three_digits b Hb) as (Hv & H1 & H2 & H3). unfold escape.
  rewrite bind_get, (at_peek _ _ _ Hat). cbn [of_option]. rewrite bind_ret, (bind_ok _ _ _ _ _ (advance_run 1 p)).
  set (e := 48 + b / 100) in *.
  assert (forall c, (c < 48 \/ 50 < c) -> (e =? c) = false) as Hno by (intros c ?; lia).
  rewrite !Hno by lia. cbn [orb]. assert (is_digit e = true) as -> by (unfold is_digit; lia). rewrite bind_get.
  apply (at_forward p 1 0 [e]) in Hat; [|done]. pose proof Hat as [Hd _]. rewrite Hd.
  assert (is_digit (48 + b / 10 mod 10) = true /\ is_digit (48 + b mod 10) = true) as [D2 D3] by (unfold is_digit; lia).
  cbn [firstn span]. rewrite D2, D3. change (take 0 l) with (@nil Z). cbn [length take span]. rewrite take_0, (bind_ok _ _ _ _ _ (advance_run 2 _)), Hv.
  rewrite bind_ensure. destruct (Z.leb_spec b 255); [|lia]. unfold ret. by rewrite forward_forward.
Qed.
Lemma string_loop_run fuel acc s p l :
  well_formed s -> at_ p (flat_map escaped s ++ 34 :: l) -> (length s < fuel)%nat ->
  zlen acc + zlen s <= string_bytes limits ->
  string_loop text limits fuel 34 acc p = (forward (length (flat_map escaped s) + 1) 0 p, Ok (acc ++ s)).
Proof.
  revert acc p fuel. induction s as [|b s IH]; intros acc p [|fuel] Hwf Hat Hfuel Hlen; try (cbn in Hfuel; lia);
    cbn [string_loop]; rewrite bind_get.
  - rewrite (at_peek _ _ _ Hat). cbn [of_option]. rewrite bind_ret, (bind_ok _ _ _ _ _ (advance_run 1 p)).
    rewrite Z.eqb_refl, app_nil_r. done.
  - apply Forall_cons in Hwf as [Hb Hwf]. unfold is_byte in Hb. cbn [flat_map] in *. rewrite <- (assoc_L (++)) in Hat.
    cbn in Hfuel. change (zlen (b :: s)) with (Z.of_nat (S (length s))) in Hlen.
    assert (forall q, at_ q (flat_map escaped s ++ 34 :: l) ->
      (ensure (zlen (acc ++ [b]) <=? string_bytes limits) (limit "decoded string limit") ;;;
       string_loop text limits fuel 34 (acc ++ [b])) q
      = (forward (length (flat_map escaped s) + 1) 0 q, Ok (acc ++ b :: s))) as Hgo.
    { intros q Hq. rewrite bind_ensure, zlen_app. change (zlen [b]) with 1.
      destruct (Z.leb_spec (zlen acc + 1) (string_bytes limits)); [|unfold zlen in *; lia].
      rewrite IH; [by rewrite <- (assoc_L (++))|done|done|lia|rewrite zlen_app; unfold zlen in *; cbn; lia]. }
    assert (forall k, (k + (length (flat_map escaped s) + 1) = length (escaped b ++ flat_map escaped s) + 1)%nat ->
      forward (length (flat_map escaped s) + 1) 0 (forward k 0 p) =
      forward (length (escaped b ++ flat_map escaped s) + 1) 0 p) as Hfw by (intros k <-; by rewrite forward_forward).
    destruct (plain b) eqn:Hp.
    + pose proof Hp as Hp'. unfold plain in Hp'. assert (escaped b = [b]) as He by (unfold escaped; by rewrite Hp).
      rewrite He in *. cbn [app] in Hat. rewrite (at_peek _ _ _ Hat). cbn [of_option].
      rewrite bind_ret, (bind_ok _ _ _ _ _ (advance_run 1 p)).
      assert ((b =? 34) = false /\ (b =? 10) = false /\ (b =? 13) = false /\ (b =? 0) = false /\ (b =? 92) = false)
        as (-> & -> & -> & -> & ->) by lia.
      cbn [orb negb]. rewrite bind_ensure, bind_ret.
      rewrite Hgo by (by apply (at_forward p 1 0 [b]) in Hat). f_equal. by apply Hfw.
    + assert (escaped b = [92; 48 + b / 100; 48 + b / 10 mod 10; 48 + b mod 10]) as He by (unfold escaped; by rewrite Hp).
      rewrite He in *. cbn [app] in Hat. rewrite (at_peek _ _ _ Hat). cbn [of_option].
      rewrite bind_ret, (bind_ok _ _ _ _ _ (advance_run 1 p)).
      change (92 =? 34) with false. change ((92 =? 10) || (92 =? 13) || (92 =? 0)) with false. cbn [negb]. rewrite bind_ensure.
      change (92 =? 92) with true. pose proof (at_forward p 1 0 [92] _ Hat eq_refl) as Hat1.
      rewrite (bind_ok _ _ _ _ _ (escape_run _ b _ Hb Hat1)).
      pose proof (at_forward _ 3 0 [_; _; _] _ Hat1 eq_refl) as Hat2. rewrite Hgo by exact Hat2.
      f_equal. rewrite (forward_forward 3). by apply Hfw.
Qed.
Lemma escaped_length s : (length s <= length (flat_map escaped s))%nat.
Proof.
  induction s as [|b s IH]; cbn; [done|]. rewrite length_app.
  assert (1 <= length (escaped b))%nat by (unfold escaped; destruct (plain b); cbn; lia). lia.
Qed.
Lemma quote_long p s l : at_ p (quote s ++ l) -> long_level text p = None.
Proof.
  intros [H _]. unfold long_level. assert (text !! pos p = Some 34) as ->; [|done].
  rewrite <- (Nat.add_0_r (pos p)), <- lookup_drop, H. done.
Qed.
Lemma string_run p s l :
  text_ok limits s -> at_ p (quote s ++ l) -> tokens p < max_tokens limits ->
  string_ text limits p = (forward (length (quote s)) 1 p, Ok s).
Proof.
  intros (Hwf & Hutf & Hlen) Hat Ht. unfold string_.
  rewrite (bind_ok _ _ _ _ _ (space_run p 34 _ Hat eq_refl)), bind_get, (quote_long p s l Hat).
  rewrite (at_peek p 34 _ Hat). cbn [of_option Z.eqb orb Pos.eqb]. rewrite bind_ret, (bind_ok _ _ _ _ _ (advance_run 1 p)).
  unfold quote in Hat. cbn [app] in Hat. rewrite <- (assoc_L (++)) in Hat. cbn [app] in Hat.
  pose proof (at_forward p 1 0 [34] _ Hat eq_refl) as Hat1.
  assert (length s < S (length text))%nat as Hfuel.
  { destruct Hat1 as [H _]. apply (f_equal length) in H. rewrite length_drop, length_app in H.
    pose proof (escaped_length s). lia. }
  rewrite (bind_ok _ _ _ _ _ (string_loop_run (S (length text)) [] s _ l Hwf Hat1 Hfuel ltac:(change (zlen []) with 0; lia))).
  rewrite forward_forward. assert (tokens p + (0 + 0) < max_tokens limits) as Ht' by lia.
  rewrite (bind_ok _ _ _ _ _ (token_forward _ _ _ Ht')), bind_ensure, app_nil_l, Hutf. unfold ret. f_equal. f_equal.
  unfold quote. cbn. rewrite length_app. cbn. lia.
Qed.
(** *** Values and tables *)

Lemma at_char p c l : at_ p (c :: l) -> forall f, peek_is text f p = f c.
Proof. intros H f. unfold peek_is. by rewrite (at_peek _ _ _ H). Qed.
(** The whole key of an entry. *)
Lemma entry_key_run p s l :
  text_ok limits s -> at_ p (91 :: quote s ++ 93 :: 61 :: l) -> tokens p + 3 < max_tokens limits ->
  entry_key text limits p = (forward (length (quote s) + 3) 4 p, Ok (Some (Name s))).
Proof.
  intros Hs Hat Ht. unfold entry_key. rewrite bind_get.
  assert (long_level text p = None) as Hll.
  { unfold long_level. pose proof Hat as [H _].
    assert (drop (S (pos p)) text = quote s ++ 93 :: 61 :: l) as Hd.
    { replace (S (pos p)) with (pos p + 1)%nat by lia. rewrite <- drop_drop, H. done. }
    rewrite Hd. cbn [quote app span Z.eqb Pos.eqb length]. rewrite Nat.add_0_r.
    destruct (bool_decide _); [|done]. rewrite bool_decide_eq_false_2; [done|].
    rewrite <- (Nat.add_0_r (S (pos p))), <- lookup_drop, Hd. done. }
  rewrite (at_char _ _ _ Hat), Hll, bool_decide_eq_true_2 by done. cbn [andb Z.eqb Pos.eqb].
  rewrite (bind_ok _ _ _ _ _ (take_run p 91 _ Hat eq_refl ltac:(lia))).
  pose proof (at_forward p 1 1 [91] _ Hat eq_refl) as Hat1.
  rewrite (bind_ok _ _ _ _ _ (space_run _ 34 _ Hat1 eq_refl)), bind_get, (at_char _ 34 _ Hat1).
  cbn [orb Z.eqb Pos.eqb]. rewrite bind_bind.
  assert (tokens (forward 1 1 p) < max_tokens limits) as Ht1 by (cbn; lia).
  rewrite (bind_ok _ _ _ _ _ (string_run _ s _ Hs Hat1 Ht1)), bind_ret.
  pose proof (at_forward _ _ 1 (quote s) _ Hat1 eq_refl) as Hat2.
  assert (tokens (forward (length (quote s)) 1 (forward 1 1 p)) < max_tokens limits) as Ht2 by (cbn; lia).
  rewrite (bind_ok _ _ _ _ _ (take_run _ 93 _ Hat2 eq_refl Ht2)).
  pose proof (at_forward _ 1 1 [93] _ Hat2 eq_refl) as Hat3.
  assert (tokens (forward 1 1 (forward (length (quote s)) 1 (forward 1 1 p))) < max_tokens limits) as Ht3 by (cbn; lia).
  rewrite (bind_ok _ _ _ _ _ (take_run _ 61 _ Hat3 eq_refl Ht3)). rewrite !forward_forward. unfold ret. do 2 f_equal. lia.
Qed.

(** The reader goes over [d], retaining its paths and values. *)
Definition passes (d : Data) (pi : list Key) (p p' : Parser) : Prop :=
  pos p' = (pos p + length (show d))%nat /\ tokens p' = tokens p + cost d /\
  exists more, out p' = out p ++ more /\ map (fun v => (path v, value v)) more = flatten pi d.
Lemma retain_run p l pi v q n :
  at_ q l -> pos p = (pos q + n)%nat -> (n <= length l)%nat -> zlen (out p) < max_properties limits ->
  zlen l <= bytes limits -> (forall t, v = Text t -> zlen t <= string_bytes limits) ->
  exists x, retain text limits pi (pos q) v p = (set_out (out p ++ [x]) p, Ok tt) /\ path x = pi /\ value x = v.
Proof.
  intros Hq Hp Hn Hout Hl Hv. unfold retain. rewrite bind_get, Hp.
  assert (piece text (pos q) (pos q + n) = Ok (take n l)) as ->.
  { rewrite <- (take_drop n l) in Hq. eapply at_piece; [exact Hq|]. rewrite length_take. lia. }
  rewrite bind_lift. unfold push. rewrite bind_get. cbn [lexical value].
  assert (zlen (take n l) <= zlen l) by (unfold zlen; rewrite length_take; lia).
  destruct (Z.leb_spec (max_properties limits) (zlen (out p))); [lia|].
  destruct (Z.ltb_spec (bytes limits) (zlen (take n l))); [lia|].
  assert (match v with Text s => string_bytes limits <? zlen s | _ => false end = false) as ->.
  { destruct v; try done. apply Z.ltb_ge. auto. }
  cbn [orb negb]. rewrite bind_ensure. eexists. split; [reflexivity|]. done.
Qed.
Lemma at_pos p p' l1 l2 : at_ p (l1 ++ l2) -> pos p' = (pos p + length l1)%nat -> at_ p' l2.
Proof. intros H Hp. pose proof (at_forward p (length l1) 0 l1 l2 H eq_refl) as [H1 H2]. unfold at_. rewrite Hp. done. Qed.
(** What may follow a word. *)
Definition ends_word (l : list Z) : Prop := match l with c :: _ => name_rest c = false | [] => True end.
Lemma span_word f w l :
  forallb f w = true -> match l with c :: _ => f c = false | [] => True end -> span f (w ++ l) = w.
Proof.
  intros Hw Hl. induction w as [|c w IH]; cbn in *.
  - destruct l as [|c l]; cbn; [done|]. by rewrite Hl.
  - apply andb_true_iff in Hw as [-> Hw]. by rewrite IH.
Qed.
Lemma identifier_run p c w l :
  at_ p ((c :: w) ++ l) -> name_first c = true -> forallb name_rest w = true -> ends_word l ->
  tokens p < max_tokens limits -> zlen (c :: w) <= string_bytes limits ->
  identifier text limits p = (forward (length (c :: w)) 1 p, Ok (c :: w)).
Proof.
  intros Hat Hc Hw Hl Ht Hlen. unfold identifier. cbn [app] in Hat.
  assert (starts c = true) as Hs by (unfold name_first, is_alphabetic in Hc; unfold starts, is_whitespace; lia).
  rewrite (bind_ok _ _ _ _ _ (space_run p c _ Hat Hs)), bind_get, (at_char _ _ _ Hat), Hc, bind_ensure.
  rewrite (bind_ok _ _ _ _ _ (advance_run 1 p)). pose proof (at_forward p 1 0 [c] _ Hat eq_refl) as [Hd _].
  unfold skip_while. rewrite bind_modify, bind_get, Hd, (span_word name_rest w l Hw Hl).
  set (p1 := set_pos _ _). assert (p1 = forward (length (c :: w)) 0 p) as -> by (unfold p1, set_pos, forward; cbn; f_equal; lia).
  rewrite bind_ensure. cbn [pos forward]. replace (pos p + length (c :: w) - pos p)%nat with (length (c :: w)) by lia.
  destruct (Z.leb_spec (Z.of_nat (length (c :: w))) (string_bytes limits)); [|unfold zlen in Hlen; lia].
  assert (tokens p + 0 < max_tokens limits) as Ht' by lia. rewrite (bind_ok _ _ _ _ _ (token_forward _ _ _ Ht')).
  unfold lift. pose proof (at_piece p (c :: w) l _ Hat eq_refl) as Hp. by rewrite Hp.
Qed.
Lemma word_run p word l v :
  at_ p (ascii_bytes word ++ l) -> ends_word l -> tokens p < max_tokens limits -> 5 <= string_bytes limits ->
  (word, v) ∈ [("true", Boolean true); ("false", Boolean false); ("nil", Null)]%string ->
  scalar text limits p = (forward (length (ascii_bytes word)) 1 p, Ok v).
Proof.
  intros Hat Hl Ht Hlen Hin. unfold scalar. rewrite bind_get.
  assert (exists c w, ascii_bytes word = c :: w /\ name_first c = true /\ is_alphabetic c = true /\
    forallb name_rest w = true /\ zlen (c :: w) <= 5) as (c & w & Hw & Hf & Ha & Hr & Hz).
  { repeat (apply elem_of_cons in Hin as [[= -> ->]|Hin]); [by eexists _, _..|by apply elem_of_nil in Hin]. }
  rewrite Hw in Hat. cbn [app] in Hat. rewrite !(at_char _ _ _ Hat), Ha.
  assert (((c =? 39) || (c =? 34)) = false /\ (91 =? c) = false /\ (is_sign c || (c =? 46) || is_digit c) = false) as (-> & -> & ->)
    by (unfold is_alphabetic in Ha; unfold is_sign, is_digit; lia).
  cbn [andb]. rewrite (bind_ok _ _ _ _ _ (identifier_run p c w l Hat Hf Hr Hl Ht ltac:(lia))). rewrite <- Hw. clear Hw.
  repeat (apply elem_of_cons in Hin as [[= -> ->]|Hin]); [done..|by apply elem_of_nil in Hin].
Qed.
Definition leaf_value (d : Data) : option Value :=
  match d with DText s => Some (Text s) | DBoolean b => Some (Boolean b) | DNull => Some Null | DTable _ => None end.
Lemma scalar_run d v p l :
  leaf_value d = Some v -> printable limits d -> at_ p (show d ++ l) -> ends_word l -> tokens p < max_tokens limits ->
  5 <= string_bytes limits -> scalar text limits p = (forward (length (show d)) 1 p, Ok v).
Proof.
  intros Hv Hp Hat Hl Ht Hlen. destruct d as [s|b| |es]; [|destruct b| |done]; injection Hv as <-.
  - inversion Hp; subst. unfold scalar. rewrite bind_get. cbn [show] in *. rewrite (at_char p 34 _ Hat). cbn [orb Z.eqb Pos.eqb].
    rewrite (bind_ok _ _ _ _ _ (string_run p s l ltac:(done) Hat Ht)). done.
  - eapply word_run; try done. set_solver.
  - eapply word_run; try done. set_solver.
  - eapply word_run; try done. set_solver.
Qed.
Lemma show_starts d : exists c l, show d = c :: l /\ starts c = true /\ (leaf_value d <> None -> (123 =? c) = false).
Proof. destruct d as [s|[]| |es]; by eexists _, _. Qed.

(** The conditions under which [d] is read where the reader stands. *)
Record fits (d : Data) (pi : list Key) (depth : Z) (fuel : nat) (p : Parser) : Prop := {
  fi_fuel : (length (show d) <= fuel)%nat;
  fi_tokens : tokens p + cost d <= max_tokens limits;
  fi_count : zlen (out p) + zlen (flatten pi d) <= max_properties limits;
  fi_depth : depth + height d <= depth_limit limits;
}.
Context (Hbytes : zlen text <= bytes limits) (Hword : 5 <= string_bytes limits).

Definition shows (d : Data) : Prop := forall fuel pi depth p l,
  printable limits d -> at_ p (show d ++ l) -> ends_word l -> fits d pi depth fuel p ->
  exists p', value_ text limits fuel pi depth p = (p', Ok tt) /\ passes d pi p p'.
Lemma at_short p l : at_ p l -> zlen l <= bytes limits.
Proof. intros [H _]. rewrite <- H. unfold zlen in *. rewrite length_drop. lia. Qed.
Lemma leaf_shows d v : leaf_value d = Some v -> shows d.
Proof.
  intros Hv fuel pi depth p l Hp Hat Hl [F1 F2 F3 F4].
  destruct (show_starts d) as (c & w & Hs & Hc & Hb). rewrite Hs in Hat. cbn [app] in Hat.
  destruct fuel as [|fuel]; [rewrite Hs in F1; cbn in F1; lia|]. cbn [value_].
  assert (cost d = 1 /\ flatten pi d = [(pi, v)] /\ height d = 0) as (Hcost & Hflat & Hh) by (destruct d; try done; by injection Hv as <-).
  rewrite Hcost, Hflat, Hh in *. change (zlen [_]) with 1 in F3.
  rewrite bind_ensure. destruct (Z.leb_spec depth (depth_limit limits)); [|lia].
  rewrite (bind_ok _ _ _ _ _ (space_run p c _ Hat Hc)), bind_get, (at_char _ _ _ Hat), (Hb ltac:(by rewrite Hv)).
  assert (at_ p (show d ++ l)) as Hat' by (by rewrite Hs).
  rewrite (bind_ok _ _ _ _ _ (scalar_run d v p l Hv Hp Hat' Hl ltac:(lia) Hword)).
  destruct (retain_run (forward (length (show d)) 1 p) (show d ++ l) pi v p (length (show d))) as (x & Hx & Hxp & Hxv); try done.
  - rewrite length_app. lia.
  - cbn. lia.
  - by eapply at_short.
  - intros t ->. destruct d; try done. injection Hv as <-. inversion Hp; subst. by match goal with H : text_ok _ _ |- _ => apply H end.
  - eexists. split; [exact Hx|]. split; [done|]. split; [by rewrite Hcost|]. exists [x]. rewrite Hflat. cbn. by rewrite Hxp, Hxv.
Qed.
Definition entries_cost (es : list (list Z * Data)) : Z := foldr (fun e n => 5 + cost e.2 + n) 0 es.
Definition entries_height (es : list (list Z * Data)) : Z := foldr (fun e n => Z.max (1 + height e.2) n) 0 es.
Definition entries_flat (pi : list Key) (es : list (list Z * Data)) : list (list Key * Value) :=
  flat_map (fun e => flatten (pi ++ [Name e.1]) e.2) es.
Lemma cost_pos d : 1 <= cost d.
Proof. induction d as [s|b| |es IH] using Data_rect'; cbn; try lia. induction IH as [|e es H1 H2 IH]; cbn; lia. Qed.
Lemma entries_cost_nonneg es : 0 <= entries_cost es.
Proof. induction es as [|e es IH]; cbn; [done|]. pose proof (cost_pos e.2). unfold entries_cost in *. lia. Qed.

Lemma entries_run es : Forall (fun e => shows e.2) es -> forall keys next fuel pi depth p l,
  Forall (fun e => text_ok limits e.1 /\ printable limits e.2) es -> NoDup es.*1 ->
  (forall e, e ∈ es -> Name e.1 ∉ keys) -> at_ p (flat_map show_entry es ++ 125 :: l) ->
  (length (flat_map show_entry es) + 1 <= fuel)%nat -> tokens p + entries_cost es + 1 <= max_tokens limits ->
  zlen (out p) + zlen (entries_flat pi es) <= max_properties limits -> depth + entries_height es <= depth_limit limits ->
  exists p', table_loop text limits fuel pi depth keys next p = (p', Ok tt) /\
    pos p' = (pos p + length (flat_map show_entry es) + 1)%nat /\ tokens p' = tokens p + entries_cost es + 1 /\
    exists more, out p' = out p ++ more /\ map (fun v => (path v, value v)) more = entries_flat pi es.
Proof.
  induction 1 as [|e es Hshow _ IH]; intros keys next fuel pi depth p l Hok Hnd Hkeys Hat Hfuel Ht Hcount Hdepth;
    (destruct fuel as [|fuel]; [lia|]); cbn [table_loop].
  - cbn [flat_map app length] in *. rewrite (bind_ok _ _ _ _ _ (space_run p 125 l Hat eq_refl)), bind_get, (at_char _ _ _ Hat).
    cbn [Z.eqb Pos.eqb]. cbn in Ht. rewrite (take_run p 125 l Hat eq_refl ltac:(lia)). eexists. split; [done|].
    split; [cbn; lia|]. split; [cbn; lia|]. exists []. by rewrite app_nil_r.
  - apply Forall_cons in Hok as [[Hs Hp] Hok]. rewrite fmap_cons in Hnd. apply NoDup_cons in Hnd as [Hnin Hnd].
    cbn [flat_map] in *. unfold show_entry in Hat at 1. rewrite <- (assoc_L (++)) in Hat. cbn [app] in Hat.
    rewrite <- !(assoc_L (++)) in Hat. cbn [app] in Hat. rewrite <- (assoc_L (++)) in Hat. cbn [app] in Hat.
    assert (length (show_entry e) = (length (quote e.1) + 3 + length (show e.2) + 1)%nat) as Hlen.
    { unfold show_entry. cbn [length]. rewrite length_app. cbn [length]. rewrite length_app. cbn [length]. lia. }
    rewrite length_app, Hlen in Hfuel. change (entries_cost (e :: es)) with (5 + cost e.2 + entries_cost es) in *.
    change (entries_height (e :: es)) with (Z.max (1 + height e.2) (entries_height es)) in Hdepth.
    change (entries_flat pi (e :: es)) with (flatten (pi ++ [Name e.1]) e.2 ++ entries_flat pi es) in *.
    pose proof (cost_pos e.2). pose proof (entries_cost_nonneg es). rewrite zlen_app in Hcount.
    pose proof (zlen_nonneg (entries_flat pi es)).
    rewrite (bind_ok _ _ _ _ _ (space_run p 91 _ Hat eq_refl)), bind_get, (at_char _ _ _ Hat). cbn [Z.eqb Pos.eqb].
    rewrite (bind_ok _ _ _ _ _ (entry_key_run p e.1 _ Hs Hat ltac:(lia))). cbv zeta. cbn [default].
    rewrite bind_ensure, bool_decide_eq_true_2 by (apply Hkeys; left).
    assert (at_ (forward (length (quote e.1) + 3) 4 p) (show e.2 ++ 44 :: flat_map show_entry es ++ 125 :: l)) as Hat1.
    { eapply (at_forward p _ 4 (91 :: quote e.1 ++ [93; 61])); [cbn; rewrite <- (assoc_L (++)); exact Hat|].
      cbn [length]. rewrite length_app. cbn [length]. lia. }
    destruct (Hshow fuel (pi ++ [Name e.1]) (depth + 1) _ _ Hp Hat1 eq_refl) as (p1 & Hv & Hpos & Htok & xs & Hout & Hxs).
    { split; cbn; lia. }
    rewrite (bind_ok _ _ _ _ _ Hv). pose proof (at_pos _ p1 _ _ Hat1 Hpos) as Hat2. cbn [forward pos tokens out] in *.
    rewrite (bind_ok _ _ _ _ _ (space_run p1 44 _ Hat2 eq_refl)), bind_get, (at_char _ _ _ Hat2). cbn [orb Z.eqb Pos.eqb].
    rewrite bind_bind, (bind_ok _ _ _ _ _ (advance_run 1 p1)). assert (tokens p1 + 0 < max_tokens limits) as Ht1 by lia.
    rewrite (bind_ok _ _ _ _ _ (token_forward _ _ _ Ht1)).
    pose proof (at_forward p1 1 (0 + 1) [44] _ Hat2 eq_refl) as Hat3.
    assert (zlen (out p1) = zlen (out p) + zlen (flatten (pi ++ [Name e.1]) e.2)) as Hz.
    { rewrite Hout, zlen_app. f_equal. rewrite <- Hxs. unfold zlen. by rewrite length_map. }
    assert (forall e', e' ∈ es -> Name e'.1 ∉ Name e.1 :: keys) as Hfresh.
    { intros e' He'. apply not_elem_of_cons. split; [|apply Hkeys; by right]. intros [= Heq]. apply Hnin. rewrite <- Heq.
      by apply list_elem_of_fmap_2. }
    edestruct (IH (Name e.1 :: keys) next fuel pi depth _ l Hok Hnd Hfresh Hat3) as (p2 & Hl & Hpos2 & Htok2 & ys & Hout2 & Hys);
      [cbn [forward pos tokens out]; lia..|].
    exists p2. split; [exact Hl|]. cbn [forward pos tokens out] in *. rewrite length_app, Hlen.
    split; [lia|]. split; [lia|]. exists (xs ++ ys). split; [rewrite Hout2, Hout; by rewrite (assoc_L (++))|].
    rewrite map_app. by rewrite Hxs, Hys.
Qed.
Lemma table_shows es : Forall (fun e => shows e.2) es -> shows (DTable es).
Proof.
  intros Hes fuel pi depth p l Hp Hat Hl [F1 F2 F3 F4]. inversion Hp as [| | |es' Hnd Hok]; subst.
  change (show (DTable es)) with (123 :: flat_map show_entry es ++ [125]) in *.
  change (cost (DTable es)) with (2 + entries_cost es) in *. change (height (DTable es)) with (entries_height es) in *.
  change (flatten pi (DTable es)) with (entries_flat pi es ++ [(pi, Container)]) in *. rewrite zlen_app in F3.
  change (zlen [(pi, Container)]) with 1 in F3. cbn [length] in F1. rewrite length_app in F1. cbn [length] in F1.
  pose proof (entries_cost_nonneg es). cbn [app] in Hat. rewrite <- (assoc_L (++)) in Hat. cbn [app] in Hat.
  destruct fuel as [|fuel]; [lia|]. cbn [value_].
  assert (0 <= entries_height es) by (clear; induction es; cbn; unfold entries_height in *; lia).
  rewrite bind_ensure. destruct (Z.leb_spec depth (depth_limit limits)); [|lia].
  rewrite (bind_ok _ _ _ _ _ (space_run p 123 _ Hat eq_refl)), bind_get, (at_char _ _ _ Hat). cbn [Z.eqb Pos.eqb].
  rewrite bind_bind, (bind_ok _ _ _ _ _ (take_run p 123 _ Hat eq_refl ltac:(lia))).
  pose proof (at_forward p 1 1 [123] _ Hat eq_refl) as Hat1.
  assert (forall e, e ∈ es -> Name e.1 ∉ []) as Hfresh by (intros e _ ?%elem_of_nil; done).
  edestruct (entries_run es Hes [] 1 fuel pi depth _ l Hok Hnd Hfresh Hat1) as (p1 & Hv & Hpos & Htok & xs & Hout & Hxs);
    [cbn [forward pos tokens out]; lia..|].
  cbn [forward pos tokens out] in *. rewrite bind_bind, (bind_ok _ _ _ _ _ Hv), bind_ret.
  assert (zlen (out p1) = zlen (out p) + zlen (entries_flat pi es)) as Hz.
  { rewrite Hout, zlen_app. f_equal. rewrite <- Hxs. unfold zlen. by rewrite length_map. }
  destruct (retain_run p1 _ pi Container p (length (flat_map show_entry es) + 2) Hat) as (x & Hx & Hxp & Hxv); try done.
  - lia.
  - cbn. rewrite length_app. cbn. lia.
  - lia.
  - by eapply at_short.
  - eexists. split; [exact Hx|]. unfold passes. change (show (DTable es)) with (123 :: flat_map show_entry es ++ [125]).
    change (cost (DTable es)) with (2 + entries_cost es).
    change (flatten pi (DTable es)) with (entries_flat pi es ++ [(pi, Container)]). cbn [set_out pos tokens out length].
    rewrite length_app. cbn [length]. split; [lia|]. split; [lia|]. exists (xs ++ [x]). split; [cbn; rewrite Hout; by rewrite (assoc_L (++))|].
    rewrite map_app. cbn. by rewrite Hxs, Hxp, Hxv.
Qed.
Lemma all_shows d : shows d.
Proof.
  induction d as [s|b| |es IH] using Data_rect'; [by eapply leaf_shows..|]. by apply table_shows.
Qed.
End Printed.

(** ** The whole text *)

Lemma ascii_valid l : Forall (fun b => b < 128) l -> utf8_valid l = true.
Proof.
  unfold utf8_valid. induction 1 as [|b l Hb _ IH]; [done|]. cbn. unfold utf8_head.
  destruct (Z.ltb_spec b 128); [|lia]. exact IH.
Qed.
Lemma quote_ascii s : well_formed s -> Forall (fun b => b < 128) (quote s).
Proof.
  intros Hs. apply Forall_cons. split; [lia|]. apply Forall_app. split; [|repeat constructor; lia].
  induction Hs as [|b s Hb _ IH]; cbn; [constructor|]. apply Forall_app. split; [|done].
  unfold escaped, plain. destruct (_ && _) eqn:Hp; [repeat constructor; lia|].
  destruct (three_digits b Hb) as (_ & ? & ? & ?). repeat constructor; lia.
Qed.
Lemma show_ascii limits d : printable limits d -> Forall (fun b => b < 128) (show d).
Proof.
  induction d as [s|[]| |es IH] using Data_rect'; intros Hp; inversion Hp as [s' Hs| | |es' _ Hok]; subst;
    try (repeat constructor; lia); [by apply quote_ascii, Hs|].
  change (show (DTable es)) with (123 :: flat_map show_entry es ++ [125]).
  apply Forall_cons. split; [lia|]. apply Forall_app. split; [|repeat constructor; lia]. clear Hp.
  induction IH as [|e es He _ IHes]; [constructor|]. apply Forall_cons in Hok as [[Hs Hp] Hok]. cbn [flat_map].
  apply Forall_app. split; [|by apply IHes]. unfold show_entry. apply Forall_cons. split; [lia|].
  apply Forall_app. split; [by apply quote_ascii, Hs|]. do 2 (apply Forall_cons; split; [lia|]).
  apply Forall_app. split; [by apply He|repeat constructor; lia].
Qed.
Lemma space_end text limits p : pos p = length text -> space text limits p = (p, Ok tt).
Proof.
  intros Hp. unfold space. cbn [space_loop]. unfold skip_while. rewrite bind_modify, bind_get.
  rewrite Hp, drop_all. cbn [span length].
  assert (set_pos (length text + 0) p = p) as -> by (rewrite Nat.add_0_r, <- Hp; by destruct p).
  rewrite Hp, piece_ok; [|done|apply boundary_end|apply boundary_end|done].
  rewrite bind_lift, Nat.sub_diag. done.
Qed.

(** C29. Printing and reading are inverse: a table of texts, booleans, nulls and
    tables, whatever bytes its texts are made of, is read back with every name
    at its path and every value exact, in order, when it is within the limits
    that the reader was given. *)
Theorem adobe_print_parse limits es :
  printable limits (DTable es) -> cost (DTable es) <= max_tokens limits ->
  zlen (flatten [] (DTable es)) <= max_properties limits -> height (DTable es) <= depth_limit limits ->
  zlen (show (DTable es)) <= bytes limits -> 5 <= string_bytes limits ->
  exists d, parse (show (DTable es)) limits = Ok d /\ root d = Bare /\
    map (fun v => (path v, value v)) (properties d) = flatten [] (DTable es).
Proof.
  intros Hp Hcost Hcount Hheight Hbytes Hword. pose proof (show_ascii _ _ Hp) as Hascii. set (text := show (DTable es)) in *.
  assert (text = 123 :: flat_map show_entry es ++ [125]) as Htext by done.
  assert (at_ text (mkParser 0 0 []) (text ++ [])) as Hat by (split; cbn [pos]; [by rewrite app_nil_r|lia]).
  assert (at_ text (mkParser 0 0 []) (123 :: flat_map show_entry es ++ [125])) as Hat' by (split; cbn [pos]; [done|lia]).
  destruct (all_shows text limits Hascii Hbytes Hword (DTable es) (document_fuel text) [] 0 _ [] Hp Hat I)
    as (p1 & Hv & Hpos & _ & more & Hout & Hmore).
  { split; cbn [tokens out]; [unfold document_fuel; fold text; lia|lia|change (zlen []) with 0; lia|lia]. }
  unfold parse. rewrite (ascii_valid text Hascii). cbn [negb].
  unfold document. rewrite (bind_ok _ _ _ _ _ (space_run text limits Hascii _ 123 _ Hat' eq_refl)).
  assert (preamble text limits (mkParser 0 0 []) = (mkParser 0 0 [], Ok (Bare, []))) as Hpre.
  { unfold preamble. rewrite bind_get, (at_char _ _ _ _ Hat'). done. }
  rewrite (bind_ok _ _ _ _ _ Hpre). cbn [fst snd].
  rewrite (bind_ok _ _ _ _ _ (space_run text limits Hascii _ 123 _ Hat' eq_refl)), bind_get, (at_char _ _ _ _ Hat').
  rewrite bind_ensure. change (123 =? 123) with true. rewrite (bind_ok _ _ _ _ _ Hv).
  fold text in Hpos. cbn [pos] in Hpos. rewrite Nat.add_0_l in Hpos.
  rewrite (bind_ok _ _ _ _ _ (space_end text limits p1 Hpos)), bind_get.
  assert (peek_is text (Z.eqb 59) p1 = false) as ->.
  { unfold peek_is, peek. by rewrite Hpos, lookup_ge_None_2. }
  rewrite bind_ret, bind_get, Hpos, Nat.eqb_refl, bind_ensure. eexists. split; [reflexivity|]. split; [done|].
  cbn [properties]. rewrite Hout. exact Hmore.
Qed.

Definition demo_data : Data :=
  DTable [(ascii_bytes "ProcessVersion", DText (ascii_bytes "11.0"));
          ([195; 169; 34], DTable [(ascii_bytes "on", DBoolean true); (ascii_bytes "off", DNull)])].
Lemma demo_printable : printable default_Limits demo_data.
Proof.
  assert (forall s, forallb (fun b => (0 <=? b) && (b <? 256)) s = true -> utf8_valid s = true -> zlen s <= 100 ->
    text_ok default_Limits s) as Hs.
  { intros s Hb Hu Hl. split; [|split; [done|cbn; lia]]. apply Forall_forall. intros b Hin.
    rewrite forallb_forall in Hb. apply list_elem_of_In, Hb in Hin. unfold is_byte. lia. }
  repeat constructor; try (apply Hs; [by vm_compute|by vm_compute|by vm_compute]); cbn; set_solver by done.
Qed.
Lemma adobe_print_parse_witness :
  exists d, parse (show demo_data) default_Limits = Ok d /\ root d = Bare /\
    map (fun v => (path v, value v)) (properties d) = flatten [] demo_data.
Proof.
  apply adobe_print_parse; [apply demo_printable|by vm_compute..].
Defined.
