(* ===== verification/CatalogWriter.v ===== *)
(** Admission to the catalog's SQLite writer: src/src/catalog_writer.rs.

    Two FIFO ticket classes share one owner.  Cancelled tickets are kept as
    coalesced inclusive ranges.  Threads interleave at the sections guarded by
    the [State] mutex; [step] is that interleaving. *)
From stdpp Require Import base tactics option list numbers gmap strings fin_maps.
From Stdlib Require Import ZArith Lia.
From S2P Require Import Prelude.

Open Scope Z_scope.
Local Open Scope prog_scope.

(** ** Data *)

(** @source src/src/catalog_writer.rs:17-21 Priority *)
Inductive Priority : Type := Foreground | Background.

#[export] Instance Priority_eq_dec : EqDecision Priority.
Proof. solve_decision. Defined.

(** A [[T; 2]] array indexed by the class of a priority. *)
Record PerClass (A : Type) : Type := mkPerClass { class0 : A; class1 : A }.
Arguments mkPerClass {A} _ _.
Arguments class0 {A} _.
Arguments class1 {A} _.

Definition at_class {A} (p : PerClass A) (c : Priority) : A :=
  match c with Foreground => class0 p | Background => class1 p end.
Definition set_class {A} (p : PerClass A) (c : Priority) (v : A) : PerClass A :=
  match c with
  | Foreground => mkPerClass v (class1 p)
  | Background => mkPerClass (class0 p) v
  end.

Lemma at_set_class {A} (p : PerClass A) c v d :
  at_class (set_class p c v) d = if decide (c = d) then v else at_class p d.
Proof. by destruct c, d. Qed.

(** A thread identity; [std::thread::ThreadId] of the owner. *)
Definition ThreadId : Type := Z.

(** @source src/src/catalog_writer.rs:35-43 State *)
Record State : Type := mkState {
  owner : option ThreadId;
  next : PerClass Z;
  serving : PerClass Z;
  retired : PerClass (gmap Z Z);
}.

(** [State::default()]. *)
(** @source src/src/catalog_writer.rs:35-43 State::default *)
Definition default_State : State :=
  mkState None (mkPerClass 0 0) (mkPerClass 0 0) (mkPerClass ∅ ∅).

Definition set_owner (o : option ThreadId) (st : State) : State :=
  mkState o (next st) (serving st) (retired st).
Definition set_next (c : Priority) (v : Z) (st : State) : State :=
  mkState (owner st) (set_class (next st) c v) (serving st) (retired st).
Definition set_serving (c : Priority) (v : Z) (st : State) : State :=
  mkState (owner st) (next st) (set_class (serving st) c v) (retired st).
Definition set_retired (c : Priority) (v : gmap Z Z) (st : State) : State :=
  mkState (owner st) (next st) (serving st) (set_class (retired st) c v).

(** ** Retired ranges *)

(** One removal of [while let Some(end) = retired.remove(&serving)] per unit of
    fuel; the map has one entry fewer after each. *)
(** @source src/src/catalog_writer.rs:45-49 State::advance_retired *)
Fixpoint advance_loop (fuel : nat) (m : gmap Z Z) (s : Z) : gmap Z Z * Z :=
  match fuel with
  | O => (m, s)
  | S fuel' => match m !! s with
               | Some e => advance_loop fuel' (delete s m) (e + 1)
               | None => (m, s)
               end
  end.

(** @source src/src/catalog_writer.rs:45-49 State::advance_retired *)
Definition advance_retired (c : Priority) (st : State) : State :=
  let m := at_class (retired st) c in
  let '(m', s') := advance_loop (size m) m (at_class (serving st) c) in
  set_serving c s' (set_retired c m' st).

(** [BTreeMap::range(..=ticket).next_back()]: the entry of the greatest key that
    is at most [ticket]. *)
Definition range_last (m : gmap Z Z) (ticket : Z) : option (Z * Z) :=
  min_by (desc_on fst) (filter (fun p => p.1 <= ticket) (map_to_list m)).

(** The range map after [retire], before [advance_retired]; [None] is the early
    return for a ticket that is already covered. *)
(** @source src/src/catalog_writer.rs:50-66 State::retire *)
Definition retire_ranges (m : gmap Z Z) (ticket : Z) : option (gmap Z Z) :=
  let insert_from (m : gmap Z Z) (start : Z) : gmap Z Z :=
    match m !! (ticket + 1) with
    | Some next_end => <[start := next_end]> (delete (ticket + 1) m)
    | None => <[start := ticket]> m
    end in
  match range_last m ticket with
  | Some (a, b) =>
      if ticket <=? b then None
      else if b + 1 =? ticket then Some (insert_from (delete a m) a)
      else Some (insert_from m ticket)
  | None => Some (insert_from m ticket)
  end.

(** @source src/src/catalog_writer.rs:50-68 State::retire *)
Definition retire (c : Priority) (ticket : Z) (st : State) : State :=
  match retire_ranges (at_class (retired st) c) ticket with
  | None => st
  | Some m => advance_retired c (set_retired c m st)
  end.

(** ** The threads at the gate *)

(** Where a thread is in [enter_checked] or with its [Permit].  [Retiring] is a
    [WaitingTicket] being dropped, between the unlock of the failed section and
    the section of its own [drop]. *)
Inductive Phase : Type :=
| Waiting (c : Priority) (ticket : Z)
| Retiring (c : Priority) (ticket : Z)
| Acquiring  (* admitted, in [external.acquire()] *)
| Holding.

Record System : Type := mkSystem { state : State; phases : gmap ThreadId Phase }.

(** [Writers::default()]. *)
(** @source src/src/catalog_writer.rs:70-75 Writers *)
Definition default_System : System := mkSystem default_State ∅.

Inductive Poll : Type := Granted | Blocked.

Definition set_phase (t : ThreadId) (p : Phase) (s : System) : System :=
  mkSystem (state s) (<[t := p]> (phases s)).
Definition set_state (st : State) (s : System) : System := mkSystem st (phases s).

(** The three refusals and the allocation of a ticket. *)
(** @source src/src/catalog_writer.rs:156-175 Writers::enter_checked *)
Definition allocate_ticket (t : ThreadId) (class : Priority) (canceled expired : bool)
    : proc string System unit :=
  let* s := get in
  ensure (negb (bool_decide (owner (state s) = Some t)))
    "recursive catalog writer admission; release the current transaction before calling another catalog writer" ;;;
  ensure (negb canceled) "catalog writer admission canceled" ;;;
  ensure (negb expired) "catalog writer admission deadline" ;;;
  let ticket := at_class (next (state s)) class in
  let* n := of_option (checked_add ticket 1) "catalog writer ticket exhausted" in
  put (set_phase t (Waiting class ticket) (set_state (set_next class n (state s)) s)).

(** The admission test of the wait loop, after both classes advanced. *)
(** @source src/src/catalog_writer.rs:188-191 Writers::enter_checked *)
Definition admissible (st : State) (class : Priority) (ticket : Z) : bool :=
  bool_decide (owner st = None)
  && (at_class (serving st) class =? ticket)
  && (bool_decide (class = Foreground)
      || (at_class (next st) Foreground =? at_class (serving st) Foreground)).

(** One turn of the wait loop of the thread [t], from the mutex to the next wait
    or to admission.  [external] says whether the writers have an external
    admission to consult once the mutex is released. *)
(** @source src/src/catalog_writer.rs:177-216 Writers::enter_checked *)
Definition wait_turn (external : bool) (t : ThreadId) (canceled expired : bool)
    : proc string System Poll :=
  let* s := get in
  match phases s !! t with
  | Some (Waiting class ticket) =>
      if canceled then
        put (set_phase t (Retiring class ticket) s) ;;;
        fail "catalog writer admission canceled"
      else if expired then
        put (set_phase t (Retiring class ticket) s) ;;;
        fail "catalog writer admission deadline"
      else
        let st := advance_retired Background (advance_retired Foreground (state s)) in
        if admissible st class ticket then
          put (set_phase t (if external then Acquiring else Holding)
                 (set_state (set_owner (Some t)
                    (set_serving class (at_class (serving st) class + 1) st)) s)) ;;;
          ret Granted
        else put (set_state st s) ;;; ret Blocked
  | _ => fail "not waiting"
  end.

(** The first critical section of [enter_checked]: refusals, allocation and the
    first turn of the loop.  The two reads of the cancellation flag and of the
    clock are separate observations. *)
(** @source src/src/catalog_writer.rs:146-206 Writers::enter_checked *)
Definition enter_checked (external : bool) (t : ThreadId) (class : Priority)
    (canceled expired canceled' expired' : bool) : proc string System Poll :=
  allocate_ticket t class canceled expired ;;;
  wait_turn external t canceled' expired'.

(** [WaitingTicket::drop] of a ticket that was never admitted. *)
(** @source src/src/catalog_writer.rs:98-109 WaitingTicket::drop *)
Definition drop_waiting (t : ThreadId) (s : System) : System :=
  match phases s !! t with
  | Some (Retiring class ticket) =>
      mkSystem (retire class ticket (state s)) (delete t (phases s))
  | _ => s
  end.

(** The return of [external.acquire()?]: a failure drops the new permit. *)
(** @source src/src/catalog_writer.rs:207-220 Writers::enter_checked *)
Definition external_acquired (t : ThreadId) (ok : bool) (s : System) : System :=
  match phases s !! t with
  | Some Acquiring =>
      if ok then set_phase t Holding s
      else mkSystem (set_owner None (state s)) (delete t (phases s))
  | _ => s
  end.

(** [Permit::drop]. *)
(** @source src/src/catalog_writer.rs:230-242 Permit::drop *)
Definition drop_permit (t : ThreadId) (s : System) : System :=
  match phases s !! t with
  | Some Holding => mkSystem (set_owner None (state s)) (delete t (phases s))
  | _ => s
  end.

(** Interleaving of the threads.  A thread calls [enter] from outside, or again
    while it holds a permit; a waiting thread may be woken at any time. *)
Inductive step (external : bool) : System -> System -> Prop :=
| step_enter s t class c e c' e' :
    phases s !! t = None \/ phases s !! t = Some Holding ->
    step external s (enter_checked external t class c e c' e' s).1
| step_turn s t c e :
    step external s (wait_turn external t c e s).1
| step_drop_waiting s t : step external s (drop_waiting t s)
| step_external s t ok : step external s (external_acquired t ok s)
| step_drop_permit s t : step external s (drop_permit t s).

Definition reachable (external : bool) (s : System) : Prop :=
  rtc (step external) default_System s.

(** ** Range maps as sets of tickets *)

Definition covered (m : gmap Z Z) (u : Z) : Prop :=
  exists a b, m !! a = Some b /\ a <= u <= b.

(** Nonempty ranges with a live ticket between any two of them. *)
Definition separated (m : gmap Z Z) : Prop :=
  forall a b, m !! a = Some b ->
    a <= b /\ forall a' b', m !! a' = Some b' -> a < a' -> b + 1 < a'.

Lemma range_last_Some m t a b :
  range_last m t = Some (a, b) ->
  m !! a = Some b /\ a <= t /\ forall a' b', m !! a' = Some b' -> a' <= t -> a' <= a.
Proof.
  intros Hlast. destruct (min_by_Some _ _ _ Hlast) as [Hin Hmax].
  apply list_elem_of_filter in Hin as [Ha Hin]. apply elem_of_map_to_list in Hin.
  split_and!; [done|done|]. intros a' b' Hm Hle.
  apply (Hmax (a', b')). apply list_elem_of_filter. by rewrite elem_of_map_to_list.
Qed.

Lemma range_last_None m t a b : range_last m t = None -> m !! a = Some b -> t < a.
Proof.
  intros Hn%min_by_None Hm. destruct (Z.lt_ge_cases t a) as [|Hle]; [done|].
  exfalso. assert ((a, b) ∈ filter (fun p : Z * Z => p.1 <= t) (map_to_list m)) as Hin.
  { apply list_elem_of_filter. rewrite elem_of_map_to_list. done. }
  rewrite Hn in Hin. set_solver.
Qed.

(** A map that only has ranges away from [[start, t]], with [t + 1] possibly the
    first ticket of the next one, absorbs [[start, t]]. *)
Lemma absorb_range m start t :
  separated m -> start <= t ->
  (forall a b, m !! a = Some b -> b + 1 < start \/ t < a) ->
  let m' := match m !! (t + 1) with
            | Some e => <[start := e]> (delete (t + 1) m)
            | None => <[start := t]> m
            end in
  separated m' /\ forall u, covered m' u <-> covered m u \/ start <= u <= t.
Proof.
  intros Hsep Hle Haway m'.
  set (e := default t (m !! (t + 1))).
  assert (m' = <[start := e]> (delete (t + 1) m)) as Hm'.
  { subst m' e. destruct (m !! (t + 1)) eqn:He; simpl; [done|].
    by rewrite delete_id. }
  assert (t <= e) as Hte.
  { subst e. destruct (m !! (t + 1)) as [b|] eqn:He; simpl; [|lia].
    destruct (Hsep _ _ He). lia. }
  assert (forall a b, m !! a = Some b -> a <> t + 1 -> b + 1 < start \/ e + 1 < a) as Hout.
  { intros a b Hm Hne. destruct (Haway a b Hm) as [|Hlt]; [lia|]. right.
    subst e. destruct (m !! (t + 1)) as [b'|] eqn:He; simpl; [|lia].
    destruct (Hsep _ _ He) as [_ Hs]. apply (Hs a b Hm). lia. }
  assert (forall a b, m' !! a = Some b <->
            (a = start /\ b = e) \/ (a <> start /\ a <> t + 1 /\ m !! a = Some b)) as Hlk.
  { intros a b. rewrite Hm', lookup_insert_Some, lookup_delete_Some. intuition congruence. }
  split.
  - intros a b [[-> ->]|(Hs & Hn & Hm)]%Hlk.
    + split; [lia|]. intros a' b' [[-> ->]|(Hs' & Hn' & Hx)]%Hlk Hlt; [lia|].
      destruct (Hout _ _ Hx Hn'); [|lia]. destruct (Hsep _ _ Hx). lia.
    + destruct (Hsep _ _ Hm) as [Hab Hnext]. split; [done|].
      intros a' b' [[-> ->]|(Hs' & Hn' & Hx)]%Hlk Hlt; [|by apply (Hnext a' b')].
      destruct (Hout _ _ Hm Hn); lia.
  - intros u. split.
    + intros (a & b & [[-> ->]|(Hs & Hn & Hm)]%Hlk & Hu); [|left; by exists a, b].
      destruct (Z.le_gt_cases u t) as [|Hgt]; [right; lia|left].
      subst e. destruct (m !! (t + 1)) as [b|] eqn:He; simpl in *; [|lia].
      exists (t + 1), b. split; [done|lia].
    + intros [(a & b & Hm & Hu)|Hu].
      * destruct (decide (a = t + 1)) as [->|Hne].
        -- exists start, e. split; [apply Hlk; by left|].
           subst e. rewrite Hm. simpl. lia.
        -- exists a, b. split; [apply Hlk; right|done]. split_and!; [|done|done].
           intros ->. destruct (Haway _ _ Hm); [destruct (Hsep _ _ Hm)|]; lia.
      * exists start, e. split; [apply Hlk; by left|lia].
Qed.

Lemma separated_delete m a : separated m -> separated (delete a m).
Proof.
  intros Hsep x y [_ Hxy]%lookup_delete_Some. destruct (Hsep _ _ Hxy) as [? Hx].
  split; [done|]. intros x' y' [_ ?]%lookup_delete_Some. eauto.
Qed.

(** Two ranges never overlap. *)
Lemma separated_apart m a b a' b' :
  separated m -> m !! a = Some b -> m !! a' = Some b' -> a <> a' ->
  b + 1 < a' \/ b' + 1 < a.
Proof.
  intros Hsep Ha Ha' Hne. destruct (Hsep _ _ Ha) as [_ H1], (Hsep _ _ Ha') as [_ H2].
  destruct (Z.lt_total a a') as [Hlt|[Heq|Hlt]]; [left; eauto|congruence|right; eauto].
Qed.

Lemma retire_ranges_spec m t :
  separated m -> ~ covered m t ->
  exists m', retire_ranges m t = Some m' /\ separated m' /\
             forall u, covered m' u <-> covered m u \/ u = t.
Proof.
  intros Hsep Hnot.
  assert (forall a b, m !! a = Some b -> a <= b /\ (b < t \/ t < a)) as Hout.
  { intros a b Hm. split; [by apply Hsep|].
    destruct (Z.lt_ge_cases b t), (Z.lt_ge_cases t a); auto.
    exfalso. apply Hnot. exists a, b. auto. }
  assert ((forall a b, m !! a = Some b -> b + 1 <> t) ->
    exists m', Some (match m !! (t + 1) with
                     | Some e => <[t := e]> (delete (t + 1) m)
                     | None => <[t := t]> m
                     end) = Some m' /\ separated m' /\
               forall u, covered m' u <-> covered m u \/ u = t) as Hfresh.
  { intros Hadj. destruct (absorb_range m t t Hsep) as [Hs Hc]; [lia| |].
    - intros a b Hm. destruct (Hout _ _ Hm) as [_ [|]]; [|by right].
      specialize (Hadj _ _ Hm). lia.
    - eexists. split_and!; [done|exact Hs|]. intros u. rewrite Hc.
      assert (t <= u <= t <-> u = t) as -> by lia. done. }
  unfold retire_ranges. destruct (range_last m t) as [[a b]|] eqn:Hlast.
  - destruct (range_last_Some _ _ _ _ Hlast) as (Hm & Ha & Hmax).
    destruct (Hout _ _ Hm) as [Hab Hb]. destruct (Z.leb_spec t b) as [|_]; [lia|].
    destruct (Z.eqb_spec (b + 1) t) as [Hbt|Hbt].
    + destruct (absorb_range (delete a m) a t) as [Hs' Hc'];
        [by apply separated_delete|lia| |].
      * intros x y [Hne Hxy]%lookup_delete_Some.
        destruct (Hout _ _ Hxy), (separated_apart _ _ _ _ _ Hsep Hm Hxy Hne); lia.
      * eexists. split_and!; [done|exact Hs'|]. intros u. rewrite Hc'. split.
        -- intros [(x & y & [_ Hxy]%lookup_delete_Some & Hu)|Hu]; [left; by exists x, y|].
           destruct (decide (u = t)) as [->|]; [by right|]. left. exists a, b. split; [done|lia].
        -- intros [(x & y & Hxy & Hu)| ->]; [|right; lia].
           destruct (decide (a = x)) as [->|]; [right; simplify_eq; lia|].
           left. exists x, y. by rewrite lookup_delete_ne.
    + apply Hfresh. intros x y Hxy Hadj. destruct (Hout _ _ Hxy) as [Hxy' _].
      specialize (Hmax _ _ Hxy ltac:(lia)). destruct (decide (a = x)) as [->|Hne]; [simplify_eq|].
      destruct (separated_apart _ _ _ _ _ Hsep Hm Hxy Hne); lia.
  - apply Hfresh. intros x y Hxy Hadj. pose proof (range_last_None _ _ _ _ Hlast Hxy).
    destruct (Hout _ _ Hxy). lia.
Qed.

Lemma advance_loop_spec n m s :
  separated m -> (forall a b, m !! a = Some b -> s <= a) -> (size m <= n)%nat ->
  let '(m', s') := advance_loop n m s in
  separated m' /\ s <= s' /\ (forall a b, m' !! a = Some b -> s' < a) /\
  (forall a b, m' !! a = Some b -> m !! a = Some b) /\
  (forall u, s' <= u -> covered m u <-> covered m' u) /\
  (forall u, s <= u < s' -> covered m u) /\
  (s' = s \/ exists a, m !! a = Some (s' - 1)).
Proof.
  revert m s. induction n as [|n IH]; intros m s Hsep Hkey Hsize; simpl.
  - assert (m = ∅) as -> by (apply map_size_empty_inv; lia).
    split_and!; try done; try (intros a b Hab; by rewrite lookup_empty in Hab); try lia; by left.
  - destruct (m !! s) as [e|] eqn:Hs.
    + destruct (Hsep _ _ Hs) as [Hse Hnext].
      specialize (IH (delete s m) (e + 1)).
      destruct (advance_loop n (delete s m) (e + 1)) as [m' s'].
      destruct IH as (H1 & H2 & H3 & H4 & H5 & H6 & H7).
      * by apply separated_delete.
      * intros a b [Hne Hab]%lookup_delete_Some. specialize (Hkey _ _ Hab).
        specialize (Hnext _ _ Hab). lia.
      * rewrite map_size_delete_Some by eauto. lia.
      * split_and!; try done; try lia.
        -- intros a b [_ Hab]%H4%lookup_delete_Some. done.
        -- intros u Hu. rewrite <-H5 by done. split.
           ++ intros (a & b & Hab & Hu'). exists a, b. split; [|done].
              apply lookup_delete_Some. split; [|done]. intros <-. simplify_eq. lia.
           ++ intros (a & b & [_ Hab]%lookup_delete_Some & Hu'). by exists a, b.
        -- intros u Hu. destruct (Z.le_gt_cases u e); [exists s, e; split; [done|lia]|].
           destruct (H6 u) as (a & b & [_ Hab]%lookup_delete_Some & Hu'); [lia|]. by exists a, b.
        -- right. destruct H7 as [->|(a & [_ Ha]%lookup_delete_Some)]; [|by exists a].
           exists s. by replace (e + 1 - 1) with e by lia.
    + split_and!; [done|lia| |done|done|lia|by left].
      intros a b Hab. specialize (Hkey _ _ Hab).
      destruct (decide (a = s)) as [->|]; [congruence|lia].
Qed.

(** ** The invariant of the gate *)

Definition ticket_of (p : Phase) : option (Priority * Z) :=
  match p with
  | Waiting c t | Retiring c t => Some (c, t)
  | Acquiring | Holding => None
  end.
(** The ticket a thread still has outstanding. *)
Definition ticket_at (s : System) (tid : ThreadId) : option (Priority * Z) :=
  phases s !! tid ≫= ticket_of.
Definition live (s : System) (c : Priority) (u : Z) : Prop :=
  exists tid, ticket_at s tid = Some (c, u).
Definition is_owner (s : System) (tid : ThreadId) : Prop :=
  phases s !! tid = Some Acquiring \/ phases s !! tid = Some Holding.

(** The outstanding tickets of a class are those of [[serving, next)] that are
    not in a retired range. *)
Record class_inv (s : System) (c : Priority) : Prop := {
  ci_bounds : 0 <= at_class (serving (state s)) c <= at_class (next (state s)) c
              /\ at_class (next (state s)) c <= u64_max;
  ci_sep : separated (at_class (retired (state s)) c);
  ci_range : forall a b, at_class (retired (state s)) c !! a = Some b ->
               at_class (serving (state s)) c <= a /\ b < at_class (next (state s)) c;
  ci_cover : forall u,
               at_class (serving (state s)) c <= u < at_class (next (state s)) c ->
               covered (at_class (retired (state s)) c) u \/ live s c u;
  ci_live : forall u, live s c u ->
              at_class (serving (state s)) c <= u < at_class (next (state s)) c
              /\ ~ covered (at_class (retired (state s)) c) u;
}.

Record gate_inv (s : System) : Prop := {
  gi_class : forall c, class_inv s c;
  gi_unique : forall t t' x, ticket_at s t = Some x -> ticket_at s t' = Some x -> t = t';
  gi_owner : forall t, owner (state s) = Some t <-> is_owner s t;
}.

Lemma class_inv_ext s s' c :
  at_class (serving (state s')) c = at_class (serving (state s)) c ->
  at_class (next (state s')) c = at_class (next (state s)) c ->
  at_class (retired (state s')) c = at_class (retired (state s)) c ->
  (forall u, live s' c u <-> live s c u) ->
  class_inv s c -> class_inv s' c.
Proof.
  intros H1 H2 H3 H4 [? ? ? Hc Hl].
  constructor; rewrite ?H1, ?H2, ?H3; try done.
  - intros u Hu. rewrite H4. auto.
  - intros u Hu. apply Hl. by rewrite <-H4.
Qed.

(** Advancing a class past retired tickets. *)
Lemma advance_class s c :
  class_inv s c ->
  let s' := set_state (advance_retired c (state s)) s in
  class_inv s' c /\
  at_class (retired (state s')) c !! at_class (serving (state s')) c = None.
Proof.
  intros [Hb Hsep Hr Hcov Hl]. unfold advance_retired.
  pose proof (advance_loop_spec _ _ _ Hsep (fun a b H => proj1 (Hr a b H)) (le_n _)) as Hs.
  destruct (advance_loop _ _ _) as [m' s'].
  destruct Hs as (H1 & H2 & H3 & H4 & H5 & H6 & H7).
  assert (s' <= at_class (next (state s)) c) as Hle.
  { destruct H7 as [->|[a Ha]]; [lia|]. destruct (Hr _ _ Ha). lia. }
  simpl. split.
  - constructor; simpl; rewrite ?at_set_class, ?decide_True by done; try done; try lia.
    + intros a b Hab. specialize (H3 _ _ Hab). destruct (Hr _ _ (H4 _ _ Hab)). lia.
    + intros u Hu. rewrite <-H5 by lia. apply Hcov. lia.
    + intros u Hu. destruct (Hl u Hu) as [Hu' Hn].
      assert (s' <= u) as Hsu.
      { destruct (Z.le_gt_cases s' u); [done|]. exfalso. apply Hn, H6. lia. }
      rewrite <-H5 by done. split; [lia|done].
  - rewrite !at_set_class, !decide_True by done.
    destruct (m' !! s') eqn:He; [|done]. specialize (H3 _ _ He). lia.
Qed.

Lemma advance_other c d st :
  c <> d ->
  at_class (serving (advance_retired c st)) d = at_class (serving st) d /\
  at_class (retired (advance_retired c st)) d = at_class (retired st) d.
Proof.
  intros Hne. unfold advance_retired. destruct (advance_loop _ _ _). simpl.
  by rewrite !at_set_class, !decide_False.
Qed.
Lemma advance_frame c st :
  next (advance_retired c st) = next st /\ owner (advance_retired c st) = owner st.
Proof. unfold advance_retired. by destruct (advance_loop _ _ _). Qed.

Lemma advance_inv c s : gate_inv s -> gate_inv (set_state (advance_retired c (state s)) s).
Proof.
  intros [Hc Hu Ho]. destruct (advance_frame c (state s)) as [Hnx Hown]. constructor.
  - intros d. destruct (decide (c = d)) as [<-|Hne]; [by apply advance_class|].
    destruct (advance_other c d (state s) Hne) as [Hs Hr].
    apply (class_inv_ext s); try done. simpl. by rewrite Hnx.
  - exact Hu.
  - intros t. simpl. rewrite Hown. apply Ho.
Qed.

(** ** The invariant is kept by every section *)

Lemma ticket_at_set_phase s t p t' :
  ticket_at (set_phase t p s) t' = if decide (t = t') then ticket_of p else ticket_at s t'.
Proof.
  unfold ticket_at, set_phase. simpl. rewrite lookup_insert. by case_decide.
Qed.
Lemma ticket_at_delete s st t t' :
  ticket_at (mkSystem st (delete t (phases s))) t' =
  if decide (t = t') then None else ticket_at s t'.
Proof. unfold ticket_at. simpl. rewrite lookup_delete. by case_decide. Qed.
Lemma ticket_at_Some s t p x :
  phases s !! t = Some p -> ticket_of p = Some x -> ticket_at s t = Some x.
Proof. unfold ticket_at. by intros -> ?. Qed.

Lemma is_owner_set_phase s t p t' :
  is_owner (set_phase t p s) t' <->
  if decide (t = t') then p = Acquiring \/ p = Holding else is_owner s t'.
Proof.
  unfold is_owner, set_phase. simpl. rewrite lookup_insert. case_decide; naive_solver.
Qed.
Lemma is_owner_delete s st t t' :
  is_owner (mkSystem st (delete t (phases s))) t' <-> t <> t' /\ is_owner s t'.
Proof.
  unfold is_owner. simpl. rewrite lookup_delete. case_decide; naive_solver.
Qed.

(** A change of phase that keeps the ticket and does not concern ownership. *)
Lemma rephase_inv s t p q :
  phases s !! t = Some p -> ticket_of p = ticket_of q -> is_Some (ticket_of p) ->
  gate_inv s -> gate_inv (set_phase t q s).
Proof.
  intros Hp Hpq [x Hx] [Hc Hu Ho].
  assert (forall t', ticket_at (set_phase t q s) t' = ticket_at s t') as Ht.
  { intros t'. rewrite ticket_at_set_phase. case_decide; [subst|done].
    unfold ticket_at. rewrite Hp. simpl. congruence. }
  constructor.
  - intros c. apply (class_inv_ext s); try done. intros u. unfold live.
    by setoid_rewrite Ht.
  - intros t1 t2 y. rewrite !Ht. apply Hu.
  - intros t'. change (state (set_phase t q s)) with (state s).
    rewrite (Ho t'), is_owner_set_phase. case_decide; [subst|done].
    unfold is_owner. rewrite Hp. destruct p, q; naive_solver.
Qed.

Lemma allocate_inv s t c cn ex :
  phases s !! t = None \/ phases s !! t = Some Holding ->
  gate_inv s -> gate_inv (allocate_ticket t c cn ex s).1.
Proof.
  intros Hph Hinv. unfold allocate_ticket, bind, get, ensure, of_option, put.
  case_bool_decide as Hown; [done|]. destruct cn, ex; try done. simpl.
  destruct (checked_add _ _) as [n|] eqn:Hn; [|done]. simpl.
  apply checked_add_Some in Hn as [-> Hmax]. destruct Hinv as [Hc Hu Ho].
  assert (ticket_at s t = None) as Hnone.
  { unfold ticket_at. destruct Hph as [Hph|Hph]; by rewrite Hph. }
  set (u := at_class (next (state s)) c) in *.
  set (s' := set_phase t (Waiting c u) (set_state (set_next c (u + 1) (state s)) s)).
  assert (forall t', ticket_at s' t' = if decide (t = t') then Some (c, u) else ticket_at s t')
    as Ht by (intros t'; unfold s'; by rewrite ticket_at_set_phase).
  assert (forall d v, live s' d v <-> live s d v \/ (d = c /\ v = u)) as Hlive.
  { intros d v. split.
    - intros [t' Ht']. rewrite Ht in Ht'. case_decide; [right; by simplify_eq|left; by exists t'].
    - intros [[t' Ht']|[-> ->]].
      + exists t'. rewrite Ht, decide_False; [done|congruence].
      + exists t. by rewrite Ht, decide_True. }
  constructor.
  - intros d. destruct (Hc d) as [Hb Hsep Hr Hcov Hl].
    destruct (decide (c = d)) as [<-|Hne].
    + fold u in Hb, Hr, Hcov, Hl.
      constructor; simpl; rewrite ?at_set_class, ?decide_True by done; try done; try lia.
      * intros a b Hab. destruct (Hr _ _ Hab). lia.
      * intros v Hv. rewrite Hlive. destruct (decide (v = u)) as [->|]; [tauto|].
        destruct (Hcov v); [lia|tauto|tauto].
      * intros v [Hv|[_ ->]]%Hlive; [destruct (Hl _ Hv); split; [lia|done]|].
        split; [lia|]. intros (a & b & Hab & Hin). destruct (Hr _ _ Hab). lia.
    + apply (class_inv_ext s); try done.
      * simpl. by rewrite at_set_class, decide_False.
      * intros v. rewrite Hlive. split; [intros [?|[-> _]]; [done|congruence]|by left].
  - intros t1 t2 x. rewrite !Ht. repeat case_decide; intros H1 H2; subst; [done| | |by eapply Hu].
    + injection H1 as <-. destruct (ci_live _ _ (Hc c) u ltac:(by exists t2)). subst u. lia.
    + injection H2 as <-. destruct (ci_live _ _ (Hc c) u ltac:(by exists t1)). subst u. lia.
  - intros t'. unfold s'. rewrite is_owner_set_phase. simpl. case_decide as Heq.
    + subst t'. split; [done|intros [|]; done].
    + apply Ho.
Qed.

(** Admission of the thread whose ticket is being served. *)
Lemma admit_inv s t c q :
  phases s !! t = Some (Waiting c (at_class (serving (state s)) c)) ->
  owner (state s) = None -> q = Acquiring \/ q = Holding ->
  gate_inv s ->
  gate_inv (set_phase t q (set_state (set_owner (Some t)
     (set_serving c (at_class (serving (state s)) c + 1) (state s))) s)).
Proof.
  intros Hph Hown Hq [Hc Hu Ho]. set (u := at_class (serving (state s)) c) in *.
  set (s' := set_phase t q _).
  assert (ticket_at s t = Some (c, u)) as Htu by (unfold ticket_at; by rewrite Hph).
  assert (forall t', ticket_at s' t' = if decide (t = t') then None else ticket_at s t') as Ht.
  { intros t'. unfold s'. rewrite ticket_at_set_phase. case_decide; [|done].
    destruct Hq as [->| ->]; done. }
  assert (forall d v, live s' d v <-> live s d v /\ ~ (d = c /\ v = u)) as Hlive.
  { intros d v. split.
    - intros [t' Ht']. rewrite Ht in Ht'. case_decide; [done|]. split; [by exists t'|].
      intros [-> ->]. by specialize (Hu _ _ _ Htu Ht').
    - intros [[t' Ht'] Hne]. exists t'. rewrite Ht, decide_False; [done|].
      intros ->. apply Hne. rewrite Htu in Ht'. by simplify_eq. }
  assert (~ covered (at_class (retired (state s)) c) u) as Hncov
    by (apply (ci_live _ _ (Hc c)); by exists t).
  constructor.
  - intros d. destruct (decide (c = d)) as [<-|Hne].
    + destruct (Hc c) as [Hb Hsep Hr Hcov Hl]. destruct (Hl u ltac:(by exists t)) as [Hun _].
      fold u in Hb, Hr, Hcov, Hl, Hun.
      constructor; simpl; rewrite ?at_set_class, ?decide_True by done; try done; try lia.
      * intros a b Hab. destruct (Hr _ _ Hab). destruct (decide (a = u)) as [->|]; [|lia].
        destruct Hncov. exists u, b. split; [done|]. destruct (Hsep _ _ Hab). lia.
      * intros v Hv. rewrite Hlive. destruct (Hcov v); [lia|by left|right; split; [done|lia]].
      * intros v [Hv Hne]%Hlive. destruct (Hl _ Hv). split; [|done].
        assert (v <> u) by (intros ->; tauto). lia.
    + apply (class_inv_ext s); try done.
      * simpl. by rewrite at_set_class, decide_False.
      * intros v. rewrite Hlive. split; [by intros []|].
        intros Hv. split; [done|]. intros [-> _]. congruence.
  - intros t1 t2 x. rewrite !Ht. repeat case_decide; try done. apply Hu.
  - intros t'. unfold s'. rewrite is_owner_set_phase. simpl. case_decide as Heq.
    + subst t'. split; [intros _; done|done].
    + split; [congruence|]. intros Hx. apply (Ho t') in Hx. congruence.
Qed.

Lemma blocked_inv s : gate_inv s ->
  gate_inv (set_state (advance_retired Background (advance_retired Foreground (state s))) s).
Proof. intros H. exact (advance_inv Background _ (advance_inv Foreground s H)). Qed.

Lemma admissible_true st c ticket :
  admissible st c ticket = true <->
  owner st = None /\ at_class (serving st) c = ticket /\
  (c = Foreground \/ at_class (next st) Foreground = at_class (serving st) Foreground).
Proof.
  unfold admissible. rewrite !andb_true_iff, orb_true_iff, !bool_decide_eq_true, !Z.eqb_eq.
  tauto.
Qed.

Lemma wait_turn_inv ext s t cn ex : gate_inv s -> gate_inv (wait_turn ext t cn ex s).1.
Proof.
  intros Hinv. unfold wait_turn, bind, get, put. simpl.
  destruct (phases s !! t) as [[c u|c u| |]|] eqn:Hph; try done.
  destruct cn; [simpl; by eapply rephase_inv|].
  destruct ex; [simpl; by eapply rephase_inv|].
  pose proof (blocked_inv s Hinv) as Hadv. revert Hadv.
  set (st := advance_retired Background (advance_retired Foreground (state s))). intros Hadv.
  destruct (admissible st c u) eqn:Had; [|exact Hadv].
  apply admissible_true in Had as (Hown & <- & _).
  apply (admit_inv (set_state st s)); try done. destruct ext; auto.
Qed.

Lemma retire_inv s t c u :
  phases s !! t = Some (Retiring c u) -> gate_inv s ->
  gate_inv (mkSystem (retire c u (state s)) (delete t (phases s))).
Proof.
  intros Hph [Hc Hu Ho].
  assert (ticket_at s t = Some (c, u)) as Htu by (unfold ticket_at; by rewrite Hph).
  destruct (Hc c) as [Hb Hsep Hr Hcov Hl].
  destruct (Hl u ltac:(by exists t)) as [Hrange Hncov].
  destruct (retire_ranges_spec _ u Hsep Hncov) as (m' & Hm' & Hsep' & Hcov').
  unfold retire. rewrite Hm'.
  set (s1 := mkSystem (set_retired c m' (state s)) (delete t (phases s))).
  change (gate_inv (set_state (advance_retired c (state s1)) s1)). apply advance_inv.
  assert (forall t', ticket_at s1 t' = if decide (t = t') then None else ticket_at s t') as Ht
    by (intros; apply ticket_at_delete).
  assert (forall d v, live s1 d v <-> live s d v /\ ~ (d = c /\ v = u)) as Hlive.
  { intros d v. split.
    - intros [t' Ht']. rewrite Ht in Ht'. case_decide; [done|]. split; [by exists t'|].
      intros [-> ->]. by specialize (Hu _ _ _ Htu Ht').
    - intros [[t' Ht'] Hne]. exists t'. rewrite Ht, decide_False; [done|].
      intros ->. apply Hne. rewrite Htu in Ht'. by simplify_eq. }
  assert (forall v, covered m' v ->
            at_class (serving (state s)) c <= v < at_class (next (state s)) c) as Hin.
  { intros v [(a & b & Hab & Hv)| ->]%Hcov'; [|lia].
    destruct (Hr _ _ Hab), (Hsep _ _ Hab). lia. }
  constructor.
  - intros d. destruct (decide (c = d)) as [<-|Hne].
    + constructor; simpl; rewrite ?at_set_class, ?decide_True by done; try done.
      * intros a b Hab. destruct (Hsep' _ _ Hab).
        destruct (Hin a), (Hin b); try (exists a, b; split; [done|lia]); lia.
      * intros v Hv. rewrite Hcov', Hlive. destruct (Hcov v Hv); [tauto|].
        destruct (decide (v = u)); tauto.
      * intros v [Hv Hne]%Hlive. destruct (Hl _ Hv) as [? Hn]. split; [done|].
        intros [|]%Hcov'; tauto.
    + apply (class_inv_ext s); try done.
      * simpl. by rewrite at_set_class, decide_False.
      * intros v. rewrite Hlive. split; [by intros []|].
        intros Hv. split; [done|]. intros [-> _]. congruence.
  - intros t1 t2 x. rewrite !Ht. repeat case_decide; try done. apply Hu.
  - intros t'. unfold s1. rewrite is_owner_delete. simpl. rewrite (Ho t').
    split; [|by intros []]. intros Hx. split; [|done]. intros <-.
    destruct Hx as [Hx|Hx]; congruence.
Qed.

(** Release of the mutex owner: the thread leaves without an outstanding ticket. *)
Lemma release_inv s t :
  phases s !! t = Some Acquiring \/ phases s !! t = Some Holding -> gate_inv s ->
  gate_inv (mkSystem (set_owner None (state s)) (delete t (phases s))).
Proof.
  intros Hph [Hc Hu Ho]. set (s' := mkSystem _ _).
  assert (ticket_at s t = None) as Hnone.
  { unfold ticket_at. by destruct Hph as [-> | ->]. }
  assert (forall t', ticket_at s' t' = ticket_at s t') as Ht.
  { intros t'. unfold s'. rewrite ticket_at_delete. case_decide; [by subst|done]. }
  constructor.
  - intros c. apply (class_inv_ext s); try done. intros u. unfold live. by setoid_rewrite Ht.
  - intros t1 t2 x. rewrite !Ht. apply Hu.
  - intros t'. unfold s'. rewrite is_owner_delete. simpl. split; [done|].
    intros [Hne Hx%Ho]. apply (Ho t) in Hph. congruence.
Qed.

Lemma acquired_inv s t : phases s !! t = Some Acquiring -> gate_inv s -> gate_inv (set_phase t Holding s).
Proof.
  intros Hph [Hc Hu Ho].
  assert (forall t', ticket_at (set_phase t Holding s) t' = ticket_at s t') as Ht.
  { intros t'. rewrite ticket_at_set_phase. case_decide; [subst|done].
    unfold ticket_at. by rewrite Hph. }
  constructor.
  - intros c. apply (class_inv_ext s); try done. intros u. unfold live. by setoid_rewrite Ht.
  - intros t1 t2 x. rewrite !Ht. apply Hu.
  - intros t'. change (state (set_phase t Holding s)) with (state s).
    rewrite (Ho t'), is_owner_set_phase. case_decide; [subst|done]. unfold is_owner. tauto.
Qed.

Lemma step_inv ext s s' : step ext s s' -> gate_inv s -> gate_inv s'.
Proof.
  intros Hstep Hinv. destruct Hstep as [s t c cn ex cn' ex' Hph|s t cn ex|s t|s t ok|s t].
  - unfold enter_checked, bind. pose proof (allocate_inv s t c cn ex Hph Hinv) as Ha.
    destruct (allocate_ticket t c cn ex s) as [s1 [[]|e]]; simpl in *; [|done].
    by apply wait_turn_inv.
  - by apply wait_turn_inv.
  - unfold drop_waiting. destruct (phases s !! t) as [[]|] eqn:Hph; try done. by apply retire_inv.
  - unfold external_acquired. destruct (phases s !! t) as [[]|] eqn:Hph; try done.
    destruct ok; [by apply acquired_inv|apply release_inv; auto].
  - unfold drop_permit. destruct (phases s !! t) as [[]|] eqn:Hph; try done.
    apply release_inv; auto.
Qed.

Lemma default_inv : gate_inv default_System.
Proof.
  assert (forall t, ticket_at default_System t = None) as Hnone by done.
  constructor.
  - intros c. constructor; destruct c; simpl; try (unfold u64_max; lia);
      try (intros a b Hab; by rewrite lookup_empty in Hab);
      intros u [t Ht]; by rewrite Hnone in Ht.
  - intros t t' x Ht. by rewrite Hnone in Ht.
  - intros t. unfold is_owner. simpl. rewrite lookup_empty. naive_solver.
Qed.

Lemma reachable_inv ext s : reachable ext s -> gate_inv s.
Proof.
  intros Hr. unfold reachable in Hr. pose proof default_inv as H0.
  induction Hr as [|x y z Hxy _ IH]; [done|]. apply IH. by eapply step_inv.
Qed.

(** ** What the gate promises *)

(**  Mutual exclusion: in every reachable interleaving at most one thread
    has been admitted and has not dropped its permit, and it is the recorded
    owner. *)
Theorem mutual_exclusion ext s t t' :
  reachable ext s -> is_owner s t -> is_owner s t' ->
  t = t' /\ owner (state s) = Some t.
Proof.
  intros Hr Ht Ht'. destruct (reachable_inv _ _ Hr) as [_ _ Ho].
  apply Ho in Ht, Ht'. split; [congruence|done].
Qed.

(**  Ticket accounting: in every reachable state the outstanding tickets of
    a class are exactly the tickets of [[serving, next)] outside the retired
    ranges, every one of them is held by one thread only, and the counters never
    leave [u64] (so the unchecked [end + 1], [ticket + 1] and [serving += 1] do
    not overflow). *)
Theorem tickets_accounted ext s c :
  reachable ext s ->
  (forall u, live s c u <->
     at_class (serving (state s)) c <= u < at_class (next (state s)) c
     /\ ~ covered (at_class (retired (state s)) c) u)
  /\ (forall t t' u, ticket_at s t = Some (c, u) -> ticket_at s t' = Some (c, u) -> t = t')
  /\ 0 <= at_class (serving (state s)) c <= at_class (next (state s)) c
  /\ at_class (next (state s)) c <= u64_max.
Proof.
  intros Hr. destruct (reachable_inv _ _ Hr) as [Hc Hu _]. destruct (Hc c) as [Hb _ _ Hcov Hl].
  split_and!; try tauto; [|intros; by eapply Hu].
  intros u. split; [apply Hl|]. intros [Hin Hn]. destruct (Hcov u Hin); tauto.
Qed.

(** C11.  Order of admission: the admitted ticket is the least outstanding one of
    its class, and a background ticket is admitted only when no foreground
    ticket is outstanding. *)
Theorem admission_order ext s t c cn ex u s' :
  reachable ext s -> phases s !! t = Some (Waiting c u) ->
  wait_turn ext t cn ex s = (s', Ok Granted) ->
  owner (state s) = None
  /\ (forall v, live s c v -> u <= v)
  /\ (c = Background -> forall v, ~ live s Foreground v)
  /\ is_owner s' t.
Proof.
  intros Hr Hph Hturn. pose proof (blocked_inv s (reachable_inv _ _ Hr)) as [Hc _ _].
  unfold wait_turn, bind, get, put, ret in Hturn. rewrite Hph in Hturn.
  destruct cn; [done|]. destruct ex; [done|].
  set (st := advance_retired Background (advance_retired Foreground (state s))) in *.
  destruct (admissible st c u) eqn:Had; [|done].
  apply admissible_true in Had as (Hown & <- & Hfg). injection Hturn as <-.
  split_and!.
  - revert Hown. unfold st. by rewrite !(proj2 (advance_frame _ _)).
  - intros v Hv. destruct (ci_live _ _ (Hc c) v Hv) as [? _]. simpl in *. lia.
  - intros -> v Hv. destruct Hfg as [|Hfg]; [done|].
    destruct (ci_live _ _ (Hc Foreground) v Hv) as [? _]. simpl in *. lia.
  - apply is_owner_set_phase. rewrite decide_True by done. destruct ext; auto.
Qed.

(**  Progress: with the writer free, no cancelled ticket still unretired and
    somebody waiting, some waiting thread is admitted by its next undisturbed
    turn. No cancelled ticket can block the queue. *)
Theorem some_waiter_is_admissible ext s t0 c0 u0 :
  reachable ext s -> owner (state s) = None ->
  (forall t c u, phases s !! t <> Some (Retiring c u)) ->
  phases s !! t0 = Some (Waiting c0 u0) ->
  exists t s', wait_turn ext t false false s = (s', Ok Granted).
Proof.
  intros Hr Hown Hnr Hw.
  set (s1 := set_state (advance_retired Foreground (state s)) s).
  set (s2 := set_state (advance_retired Background (state s1)) s1).
  pose proof (reachable_inv _ _ Hr) as Hinv.
  assert (gate_inv s1) as Hinv1 by (by apply advance_inv).
  assert (gate_inv s2) as Hinv2 by (by apply advance_inv).
  assert (forall c, at_class (retired (state s2)) c !! at_class (serving (state s2)) c = None)
    as Hgap.
  { intros []; [|apply (advance_class s1 Background), (gi_class _ Hinv1)].
    destruct (advance_other Background Foreground (state s1) ltac:(done)) as [Hs Hre].
    simpl in *. rewrite Hs, Hre.
    apply (advance_class s Foreground), (gi_class _ Hinv). }
  assert (forall c, at_class (serving (state s2)) c < at_class (next (state s2)) c ->
            exists t, phases s !! t = Some (Waiting c (at_class (serving (state s2)) c))) as Hhead.
  { intros c Hlt. destruct (gi_class _ Hinv2 c) as [_ _ Hrg Hcov _].
    destruct (Hcov (at_class (serving (state s2)) c) ltac:(lia)) as [(a & b & Hab & Hin)|[t Ht]].
    - destruct (Hrg _ _ Hab). assert (a = at_class (serving (state s2)) c) as -> by lia.
      by rewrite Hgap in Hab.
    - exists t. unfold ticket_at in Ht. simpl in Ht.
      destruct (phases s !! t) as [[]|] eqn:Hp; simpl in Ht; simplify_eq; [done|].
      exfalso. by eapply Hnr. }
  assert (forall t c, phases s !! t = Some (Waiting c (at_class (serving (state s2)) c)) ->
            (c = Foreground \/ at_class (next (state s2)) Foreground
                               = at_class (serving (state s2)) Foreground) ->
            exists s', wait_turn ext t false false s = (s', Ok Granted)) as Hadm.
  { intros t c Hp Hcl. unfold wait_turn, bind, get, put, ret. rewrite Hp.
    rewrite (proj2 (admissible_true _ _ _)); [by eexists|]. split_and!; try done.
    by rewrite !(proj2 (advance_frame _ _)). }
  destruct (Z.lt_ge_cases (at_class (serving (state s2)) Foreground)
                          (at_class (next (state s2)) Foreground)) as [Hf|Hf].
  - destruct (Hhead _ Hf) as [t Ht]. exists t. eapply Hadm; [exact Ht|by left].
  - assert (live s2 c0 u0) as Hl by (exists t0; unfold ticket_at; simpl; by rewrite Hw).
    destruct (ci_live _ _ (gi_class _ Hinv2 c0) _ Hl) as [Hin _].
    destruct (ci_bounds _ _ (gi_class _ Hinv2 Foreground)) as [Hbf _].
    destruct c0; [lia|]. destruct (Hhead Background ltac:(lia)) as [t Ht].
    exists t. eapply Hadm; [exact Ht|right; lia].
Qed.

(** The tickets of a class that threads still hold. *)
Definition outstanding (s : System) (c : Priority) : list Z :=
  omap (fun p => match ticket_of p.2 with
                 | Some (c', u) => if decide (c = c') then Some u else None
                 | None => None
                 end) (map_to_list (phases s)).

Lemma elem_of_outstanding s c u : u ∈ outstanding s c <-> live s c u.
Proof.
  unfold outstanding, live, ticket_at. rewrite list_elem_of_omap. split.
  - intros ([t p] & Hin%elem_of_map_to_list & Hu). exists t. rewrite Hin. simpl in *.
    destruct (ticket_of p) as [[c' u']|]; [|done]. case_decide; naive_solver.
  - intros [t Ht]. destruct (phases s !! t) as [p|] eqn:Hp; simpl in Ht; [|done].
    exists (t, p). rewrite elem_of_map_to_list. split; [done|]. simpl.
    by rewrite Ht, decide_True.
Qed.

(**  Cancellation costs no memory: the retired ranges of a class number at
    most one more than its outstanding tickets, however many cancelled requests
    queued behind a live waiter. *)
Theorem retired_ranges_bounded ext s c :
  reachable ext s ->
  (size (at_class (retired (state s)) c) <= length (outstanding s c) + 1)%nat.
Proof.
  intros Hr. destruct (reachable_inv _ _ Hr) as [Hc _ _].
  destruct (Hc c) as [_ Hsep Hrg Hcov _]. set (m := at_class (retired (state s)) c) in *.
  pose (ends := (fun p : Z * Z => p.2 + 1) <$> map_to_list m).
  assert (NoDup ends) as Hnd.
  { apply NoDup_fmap_2_strong; [|apply NoDup_map_to_list].
    intros [a b] [a' b'] Ha%elem_of_map_to_list Ha'%elem_of_map_to_list Heq. simpl in Heq.
    destruct (decide (a = a')) as [<-|Hne]; [congruence|].
    destruct (Hsep _ _ Ha), (Hsep _ _ Ha'), (separated_apart _ _ _ _ _ Hsep Ha Ha' Hne); lia. }
  assert (ends ⊆+ at_class (next (state s)) c :: outstanding s c) as Hsub.
  { apply NoDup_submseteq; [done|].
    intros x ([a b] & -> & Ha%elem_of_map_to_list)%list_elem_of_fmap. simpl.
    destruct (Hrg _ _ Ha) as [Hlo Hhi], (Hsep _ _ Ha) as [Hab _].
    destruct (decide (b + 1 = at_class (next (state s)) c)) as [->|Hne]; [by left|right].
    apply elem_of_outstanding. destruct (Hcov (b + 1) ltac:(lia)) as [(a' & b' & Ha' & Hin)|]; [|done].
    destruct (decide (a = a')) as [<-|Haa]; [simplify_eq; lia|].
    destruct (separated_apart _ _ _ _ _ Hsep Ha Ha' Haa); lia. }
  apply submseteq_length in Hsub. unfold ends in Hsub. rewrite length_fmap in Hsub.
  rewrite length_map_to_list in Hsub. simpl in Hsub. lia.
Qed.

(** ** A concrete schedule

    Thread 1 takes the writer; 2 (background) and 3, 4 (foreground) queue; 3
    cancels and 1 leaves. *)

Definition demo0 : System := default_System.
Definition demo1 : System := (enter_checked false 1 Foreground false false false false demo0).1.
Definition demo2 : System := (enter_checked false 2 Background false false false false demo1).1.
Definition demo3 : System := (enter_checked false 3 Foreground false false false false demo2).1.
Definition demo4 : System := (enter_checked false 4 Foreground false false false false demo3).1.
Definition demo5 : System := (wait_turn false 3 true false demo4).1.
Definition demo6 : System := drop_waiting 3 demo5.
Definition demo7 : System := drop_permit 1 demo6.

Lemma demo4_reachable : reachable false demo4.
Proof.
  unfold reachable. fold demo0.
  apply (rtc_l _ _ demo1); [apply step_enter; left; vm_compute; reflexivity|].
  apply (rtc_l _ _ demo2); [apply step_enter; left; vm_compute; reflexivity|].
  apply (rtc_l _ _ demo3); [apply step_enter; left; vm_compute; reflexivity|].
  apply (rtc_l _ _ demo4); [apply step_enter; left; vm_compute; reflexivity|].
  apply rtc_refl.
Qed.
Lemma demo6_reachable : reachable false demo6.
Proof.
  apply (rtc_r _ demo5 _); [apply (rtc_r _ demo4 _); [exact demo4_reachable|apply step_turn]|].
  apply step_drop_waiting.
Qed.
Lemma demo7_reachable : reachable false demo7.
Proof. apply (rtc_r _ demo6 _); [exact demo6_reachable|apply step_drop_permit]. Qed.

Lemma mutual_exclusion_witness :
  reachable false demo4 /\ is_owner demo4 1 /\ owner (state demo4) = Some 1.
Proof.
  split; [exact demo4_reachable|]. split; [right; vm_compute; reflexivity|].
  apply (mutual_exclusion false demo4 1 1);
    [exact demo4_reachable|right; vm_compute; reflexivity..].
Defined.

Lemma tickets_accounted_witness :
  live demo4 Foreground 2 /\
  ~ covered (at_class (retired (state demo4)) Foreground) 2.
Proof.
  assert (live demo4 Foreground 2) as Hl by (exists 4; vm_compute; reflexivity).
  split; [exact Hl|].
  apply (proj1 (tickets_accounted false demo4 Foreground demo4_reachable) 2).
  exact Hl.
Defined.

Lemma admission_order_witness :
  exists s', wait_turn false 4 false false demo7 = (s', Ok Granted) /\ is_owner s' 4
             /\ forall v, live demo7 Foreground v -> 2 <= v.
Proof.
  eexists. split; [vm_compute; reflexivity|].
  edestruct (admission_order false demo7 4 Foreground false false 2) as (_ & Hle & _ & Ho);
    [exact demo7_reachable|vm_compute; reflexivity|vm_compute; reflexivity|].
  split; [exact Ho|exact Hle].
Defined.

Lemma some_waiter_is_admissible_witness :
  exists t s', wait_turn false t false false demo7 = (s', Ok Granted).
Proof.
  apply (some_waiter_is_admissible false demo7 2 Background 0);
    [exact demo7_reachable|vm_compute; reflexivity| |vm_compute; reflexivity].
  intros t c u Hp. destruct (decide (t = 2)) as [->|H2]; [vm_compute in Hp; congruence|].
  destruct (decide (t = 4)) as [->|H4]; [vm_compute in Hp; congruence|].
  assert (phases demo7 = <[4:=Waiting Foreground 2]> (<[2:=Waiting Background 0]> ∅)) as Heq
    by (vm_compute; reflexivity).
  rewrite Heq in Hp. rewrite !lookup_insert_ne, lookup_empty in Hp by congruence. discriminate Hp.
Defined.

Lemma retired_ranges_bounded_witness :
  (size (at_class (retired (state demo6)) Foreground) <= 2)%nat.
Proof.
  apply (Nat.le_trans _ _ _ (retired_ranges_bounded false demo6 Foreground
           demo6_reachable)).
  vm_compute. lia.
Defined.
