(* ===== verification/GateRegistry.v ===== *)
(** The gates of open catalogs: [for_catalog] of src/src/catalog_writer.rs.

    The registry keeps a weak reference for each canonical root.  A gate lives as
    long as somebody has a strong reference: an open catalog, a queued ticket or a
    permit.  References are dropped without the registry's lock, so they may vanish
    between the sweep and the upgrade of an opening. *)
From stdpp Require Import base tactics option list numbers gmap strings fin_maps relations.
From Stdlib Require Import ZArith Lia.
From S2P Require Import Prelude.
From S2P Require CatalogWriter.

Open Scope Z_scope.

(** ** Data *)

Abbreviation GateId := Z (only parsing).
(** A [Writers] with its threads, and the root it was made for. *)
Record Gate : Type := mkGate { g_root : string; g_system : CatalogWriter.System }.
(** [handles]: the [Arc]s of open catalogs; [opening]: the root of the call that holds
    the registry's lock, after its sweep. *)
(** @source src/src/catalog_writer.rs:78-82 for_catalog *)
Record World : Type := mkWorld {
  registry : gmap string GateId; gates : gmap GateId Gate; handles : gmap Z GateId;
  opening : option string; next_gate : GateId }.
Definition empty_World : World := mkWorld ∅ ∅ ∅ None 0.
Definition set_registry v w := mkWorld v (gates w) (handles w) (opening w) (next_gate w).
Definition set_gates v w := mkWorld (registry w) v (handles w) (opening w) (next_gate w).
Definition set_handles v w := mkWorld (registry w) (gates w) v (opening w) (next_gate w).
Definition set_opening v w := mkWorld (registry w) (gates w) (handles w) v (next_gate w).

(** ** Operations *)

(** [Weak::strong_count]: the handles, and the threads that queue at the gate or hold
    its permit; both keep a clone of the [Arc]. *)
Definition strong_count (w : World) (g : GateId) : nat :=
  (size (filter (fun e => e.2 = g) (handles w)) +
   match gates w !! g with Some x => size (CatalogWriter.phases (g_system x)) | None => 0 end)%nat.
(** @source src/src/catalog_writer.rs:83-83 for_catalog *)
Definition sweep (w : World) : World :=
  set_registry (filter (fun e => strong_count w e.2 <> 0%nat) (registry w)) w.
(** [Weak::upgrade]. *)
Definition upgrade (w : World) (g : GateId) : option GateId :=
  if decide (strong_count w g = 0%nat) then None else Some g.
(** The rest of the call, whose result is the new handle [h]. *)
(** @source src/src/catalog_writer.rs:84-90 for_catalog *)
Definition for_catalog (h : Z) (root : string) (w : World) : World :=
  match registry w !! root ≫= upgrade w with
  | Some g => set_handles (<[h := g]> (handles w)) w
  | None =>
      mkWorld (<[root := next_gate w]> (registry w))
        (<[next_gate w := mkGate root CatalogWriter.default_System]> (gates w))
        (<[h := next_gate w]> (handles w)) (opening w) (next_gate w + 1)
  end.

(** The calls of all threads. *)
Inductive step : World -> World -> Prop :=
| open_begins w root : opening w = None -> step w (set_opening (Some root) (sweep w))
| open_ends w root h : opening w = Some root -> handles w !! h = None -> step w (set_opening None (for_catalog h root w))
| handle_clones w h h' g : handles w !! h = Some g -> handles w !! h' = None ->
    step w (set_handles (<[h' := g]> (handles w)) w)
| handle_drops w h : step w (set_handles (delete h (handles w)) w)
| gate_moves w g x s : gates w !! g = Some x -> strong_count w g <> 0%nat -> CatalogWriter.step false (g_system x) s ->
    step w (set_gates (<[g := mkGate (g_root x) s]> (gates w)) w).
Definition reachable (w : World) : Prop := rtc step empty_World w.

(** ** The registry knows every live gate *)

Definition alive (w : World) (g : GateId) : Prop :=
  (exists h, handles w !! h = Some g) \/ (exists x t, gates w !! g = Some x /\ is_Some (CatalogWriter.phases (g_system x) !! t)).
Lemma strong_alive w g : strong_count w g <> 0%nat <-> alive w g.
Proof.
  unfold strong_count, alive. split.
  - intros Hn. destruct (decide (filter (fun e => e.2 = g) (handles w) = ∅)) as [He|He].
    + rewrite He, map_size_empty in Hn. right. destruct (gates w !! g) as [x|]; [|done]. exists x.
      destruct (map_choose (CatalogWriter.phases (g_system x))) as (t & p & Hp); [intros Hp; by rewrite Hp, map_size_empty in Hn|].
      exists t. split; [done|by eexists].
    + left. destruct (map_choose _ He) as (h & g' & Hg). apply map_lookup_filter_Some in Hg as [Hh Hg]. simpl in Hg. subst. by exists h.
  - intros [[h Hh]|(x & t & Hx & p & Hp)] Hn.
    + assert (size (filter (fun e => e.2 = g) (handles w)) = 0%nat) as H by lia. apply map_size_empty_iff in H.
      assert (filter (fun e => e.2 = g) (handles w) !! h = Some g) as Hf by by apply map_lookup_filter_Some.
      by rewrite H, lookup_empty in Hf.
    + rewrite Hx in Hn. assert (size (CatalogWriter.phases (g_system x)) = 0%nat) as H by lia. apply map_size_empty_iff in H.
      by rewrite H, lookup_empty in Hp.
Qed.

Record known (w : World) : Prop := {
  kn_registry : forall root g, registry w !! root = Some g -> exists x, gates w !! g = Some x /\ g_root x = root;
  kn_alive : forall g x, gates w !! g = Some x -> alive w g -> registry w !! g_root x = Some g;
  kn_handles : forall h g, handles w !! h = Some g -> is_Some (gates w !! g);
  kn_next : forall g x, gates w !! g = Some x -> g < next_gate w;
  kn_gate : forall g x, gates w !! g = Some x -> CatalogWriter.gate_inv (g_system x);
}.
(** A change of the handles that revives no gate. *)
Lemma known_handles w hs : (forall h g, hs !! h = Some g -> exists h', handles w !! h' = Some g) -> known w -> known (set_handles hs w).
Proof.
  intros Hs [Hr Ha Hh Hn Hg]. constructor; simpl; try done.
  - intros g x Hx [[h Hl]|Hl]; apply (Ha g x Hx); [left; by eapply Hs|by right].
  - intros h g Hl. destruct (Hs h g Hl) as [h' Hl']. by eapply Hh.
Qed.
Lemma known_sweep w : known w -> known (sweep w).
Proof.
  intros [Hr Ha Hh Hn Hg]. constructor; simpl; try done.
  - intros root g [Hl _]%map_lookup_filter_Some. by apply Hr.
  - intros g x Hx Hl. apply map_lookup_filter_Some. split; [by apply Ha|]. by apply strong_alive.
Qed.
Lemma known_open h root w : known w -> handles w !! h = None -> known (for_catalog h root w).
Proof.
  intros Hk Hh. pose proof Hk as [Hr Ha Hhs Hn Hg]. unfold for_catalog. destruct (registry w !! root ≫= upgrade w) as [g|] eqn:He.
  - apply bind_Some in He as (g' & Hl & Hu). unfold upgrade in Hu. destruct (decide _) as [|Hs]; [done|]. injection Hu as ->.
    apply strong_alive in Hs. destruct (Hr _ _ Hl) as (x & Hx & <-). constructor; simpl; try done.
    + intros g' y Hy [[k Hk']|Ht]; [|by apply Ha; [|right]]. simpl in Hk'. apply lookup_insert_Some in Hk' as [[_ <-]|[_ Hk']]; [by apply Ha|].
      apply Ha; [done|left; by exists k].
    + intros k g' [[_ <-]|[_ Hk']]%lookup_insert_Some; [by eexists|by eapply Hhs].
  - assert (gates w !! next_gate w = None) as Hfresh by (apply eq_None_not_Some; intros [x Hx]; apply Hn in Hx; lia).
    assert (forall k g, handles w !! k = Some g -> g <> next_gate w) as Hother by (intros k g Hl ->; apply Hhs in Hl; rewrite Hfresh in Hl; by destruct Hl).
    assert (forall g x, gates w !! g = Some x -> alive w g -> g_root x <> root) as Hroot.
    { intros g x Hx Hl Hroot. pose proof (Ha g x Hx Hl) as Hreg. rewrite Hroot in Hreg. rewrite Hreg in He. simpl in He. unfold upgrade in He.
      by apply strong_alive in Hl; destruct (decide _). }
    assert (forall g, g <> next_gate w -> alive (mkWorld (<[root := next_gate w]> (registry w)) (<[next_gate w := mkGate root CatalogWriter.default_System]> (gates w))
        (<[h := next_gate w]> (handles w)) (opening w) (next_gate w + 1)) g -> alive w g) as Halive.
    { intros g Hne [[k Hk']|(x & t & Hx & Ht)]; simpl in *.
      - apply lookup_insert_Some in Hk' as [[_ Hk']|[_ Hk']]; [congruence|left; by exists k].
      - rewrite lookup_insert_ne in Hx by done. right. by exists x, t. }
    constructor; simpl.
    + intros r g [[<- <-]|[Hne Hl]]%lookup_insert_Some; [rewrite lookup_insert_eq; by eexists|]. destruct (Hr _ _ Hl) as (x & Hx & Hxr).
      exists x. split; [|done]. rewrite lookup_insert_ne; [done|]. intros <-. congruence.
    + intros g x [[<- <-]|[Hne Hx]]%lookup_insert_Some Hl; simpl; [by rewrite lookup_insert_eq|]. apply Halive in Hl; [|done].
      rewrite lookup_insert_ne; [by apply Ha|]. intros Heq. by eapply Hroot.
    + intros k g [[<- <-]|[_ Hl]]%lookup_insert_Some; [rewrite lookup_insert_eq; by eexists|]. rewrite lookup_insert_ne; [by eapply Hhs|].
      intros <-. by eapply Hother.
    + intros g x [[<- _]|[_ Hx]]%lookup_insert_Some; [lia|]. apply Hn in Hx. lia.
    + intros g x [[_ <-]|[_ Hx]]%lookup_insert_Some; [apply CatalogWriter.default_inv|by eapply Hg].
Qed.
Lemma known_step w w' : step w w' -> known w -> known w'.
Proof.
  intros [v root _|v root h _ Hh|v h h' g Hh _|v h|v g x s Hx Hs Hstep] Hk.
  - by destruct (known_sweep v Hk).
  - by destruct (known_open h root v Hk Hh).
  - apply known_handles; [|done]. intros k g' [[_ <-]|[_ Hl]]%lookup_insert_Some; eauto.
  - apply known_handles; [|done]. intros k g' [_ Hl]%lookup_delete_Some. eauto.
  - apply strong_alive in Hs. pose proof Hk as [Hr Ha Hhs Hn Hg].
    assert (forall k y, <[g := mkGate (g_root x) s]> (gates v) !! k = Some y -> exists y', gates v !! k = Some y' /\ g_root y' = g_root y) as Hback.
    { intros k y [[<- <-]|[_ Hy]]%lookup_insert_Some; eauto. }
    constructor; simpl.
    + intros root k Hl. destruct (Hr _ _ Hl) as (y & Hy & <-). destruct (decide (k = g)) as [->|Hne].
      * rewrite lookup_insert_eq. eexists. split; [done|]. simpl. congruence.
      * rewrite lookup_insert_ne by done. eauto.
    + intros k y Hy Hl. destruct (decide (k = g)) as [->|Hne].
      * rewrite lookup_insert_eq in Hy. injection Hy as <-. by apply (Ha g x).
      * rewrite lookup_insert_ne in Hy by done. apply Ha; [done|]. destruct Hl as [Hl|(z & t & Hz & Ht)]; [by left|].
        simpl in Hz. rewrite lookup_insert_ne in Hz by done. right. by exists z, t.
    + intros k g' Hl. destruct (Hhs _ _ Hl) as [y Hy]. destruct (decide (g' = g)) as [->|Hne]; [rewrite lookup_insert_eq|rewrite lookup_insert_ne by done]; by eexists.
    + intros k y Hy. destruct (Hback _ _ Hy) as (y' & Hy' & _). by eapply Hn.
    + intros k y [[_ <-]|[_ Hy]]%lookup_insert_Some; [|by eapply Hg]. simpl. eapply CatalogWriter.step_inv; [exact Hstep|by eapply Hg].
Qed.
Lemma known_reachable w : reachable w -> known w.
Proof.
  intros Hr. assert (known empty_World) as H0 by (constructor; simpl; intros *; rewrite ?lookup_empty; done).
  revert H0. unfold reachable in Hr. induction Hr as [|x y z Hxy _ IH]; [done|]. intros Hx. by eapply IH, known_step.
Qed.

(** ** What an opening may rely on *)

(** C1. Whatever openings, clones and drops happen and however they interleave, the open
    handles of one root share one gate, and at most one thread at all gates ever made
    for that root is admitted; that gate is the registered one. *)
Theorem one_writer_per_root w g g' x x' : reachable w ->
  gates w !! g = Some x -> gates w !! g' = Some x' -> g_root x = g_root x' ->
  (forall h h', handles w !! h = Some g -> handles w !! h' = Some g' -> g = g') /\
  (forall t t', CatalogWriter.is_owner (g_system x) t -> CatalogWriter.is_owner (g_system x') t' ->
    g = g' /\ t = t' /\ registry w !! g_root x = Some g).
Proof.
  intros Hr Hx Hx' Hroot. destruct (known_reachable w Hr) as [_ Ha _ _ Hg].
  assert (alive w g -> alive w g' -> g = g') as Hsame.
  { intros Hl Hl'. apply (Ha g x Hx) in Hl. apply (Ha g' x' Hx') in Hl'. congruence. }
  assert (forall k y t, gates w !! k = Some y -> CatalogWriter.is_owner (g_system y) t -> alive w k) as Hlive.
  { intros k y t Hy Ho. right. exists y, t. split; [done|]. destruct Ho as [Ho|Ho]; rewrite Ho; by eexists. }
  split; [intros h h' Hh Hh'; apply Hsame; left; by eexists|]. intros t t' Ht Ht'.
  assert (g = g') as <- by (apply Hsame; by eapply Hlive). split; [done|]. assert (x' = x) as -> by congruence.
  split; [|by apply (Ha g x Hx), (Hlive g x t)].
  apply (CatalogWriter.gi_owner _ (Hg g x Hx)) in Ht, Ht'. congruence.
Qed.

(** ** A concrete run: a catalog is opened twice, and a writer is admitted *)

Definition demo_opened : World := set_opening None (for_catalog 1 "root" (set_opening (Some "root") (sweep empty_World))).
Definition demo_twice : World := set_opening None (for_catalog 2 "root" (set_opening (Some "root") (sweep demo_opened))).
Definition demo_gate : Gate :=
  mkGate "root" (CatalogWriter.enter_checked false 7 CatalogWriter.Foreground false false false false CatalogWriter.default_System).1.
Definition demo_writing : World := set_gates (<[0 := demo_gate]> (gates demo_twice)) demo_twice.
Lemma demo_writing_reachable : reachable demo_writing.
Proof.
  eapply rtc_l; [by apply (open_begins empty_World "root")|]. eapply rtc_l; [by apply (open_ends _ "root" 1)|].
  eapply rtc_l; [by apply (open_begins demo_opened "root")|]. eapply rtc_l; [by apply (open_ends _ "root" 2)|].
  apply rtc_once. apply (gate_moves demo_twice 0 (mkGate "root" CatalogWriter.default_System)); [reflexivity|vm_compute; discriminate|].
  apply CatalogWriter.step_enter. by left.
Qed.
Lemma one_writer_per_root_witness :
  handles demo_writing !! 1 = handles demo_writing !! 2 /\ registry demo_writing !! "root" = Some 0.
Proof.
  assert (gates demo_writing !! 0 = Some demo_gate) as Hg by reflexivity.
  destruct (one_writer_per_root demo_writing 0 0 demo_gate demo_gate demo_writing_reachable Hg Hg eq_refl) as [_ Ho].
  split; [reflexivity|]. apply (Ho 7 7); right; vm_compute; reflexivity.
Defined.
