(* ===== verification/ByteBudget.v ===== *)
(** Byte budgets and their reservations: src/src/preview/memory.rs, lines 1-148.

    A [ByteBudget] is a shared, reference-counted counter; a [ByteReservation] is
    a token charged to it until dropped.  Handles alias the pool, so pools and
    tokens live in a [Heap].  The file ends with [BytePool], the interface the
    pixel cache relies on, and the instance that discharges it. *)
From stdpp Require Import base tactics option list numbers gmap strings fin_maps.
From Stdlib Require Import ZArith Lia.
From S2P Require Import Prelude.

Open Scope Z_scope.
Local Open Scope prog_scope.

(** ** Data *)

Abbreviation PoolId := Z (only parsing).
Abbreviation TokenId := Z (only parsing).

(** @source src/src/preview/memory.rs:12-15 BudgetState *)
Record BudgetState : Type := mkBudgetState { limit : Z; used : Z }.

(** The [budget] handle is an [Arc]: it names the pool. *)
(** @source src/src/preview/memory.rs:22-25 ByteReservation *)
Record ByteReservation : Type := mkReservation { budget : PoolId; bytes : Z }.

(** @source src/src/preview/memory.rs:26-30 ByteLimit *)
Record ByteLimit : Type := mkByteLimit { required : Z; available : Z }.

(** Refusals, [anyhow] messages, and the panic of [expect]. *)
Inductive BudgetError : Type :=
| Limit (l : ByteLimit)
| Message (m : string)
| Panic (m : string)
| Dangling. (* a handle to nothing: excluded by ownership *)

Record Heap : Type := mkHeap {
  pools : gmap PoolId BudgetState;
  tokens : gmap TokenId ByteReservation;
  fresh : Z;
}.
Definition empty_heap : Heap := mkHeap ∅ ∅ 0.

Definition set_pool (p : PoolId) (b : BudgetState) (h : Heap) : Heap :=
  mkHeap (<[p := b]> (pools h)) (tokens h) (fresh h).
Definition set_token (t : TokenId) (r : ByteReservation) (h : Heap) : Heap :=
  mkHeap (pools h) (<[t := r]> (tokens h)) (fresh h).
Definition new_token (r : ByteReservation) (h : Heap) : Heap :=
  mkHeap (pools h) (<[fresh h := r]> (tokens h)) (fresh h + 1).
Definition forget_token (t : TokenId) (h : Heap) : Heap :=
  mkHeap (pools h) (delete t (tokens h)) (fresh h).

Definition the_pool (p : PoolId) : proc BudgetError Heap BudgetState :=
  let* h := get in of_option (pools h !! p) Dangling.
Definition the_token (t : TokenId) : proc BudgetError Heap ByteReservation :=
  let* h := get in of_option (tokens h !! t) Dangling.

Lemma the_pool_ok p b h : pools h !! p = Some b -> the_pool p h = (h, Ok b).
Proof. intros H. unfold the_pool, bind, get, of_option, ret. by rewrite H. Qed.
Lemma the_token_ok t r h : tokens h !! t = Some r -> the_token t h = (h, Ok r).
Proof. intros H. unfold the_token, bind, get, of_option, ret. by rewrite H. Qed.

(** ** Operations *)

(** @source src/src/preview/memory.rs:42-45 ByteBudget::new *)
Definition budget_new (l : Z) : proc BudgetError Heap PoolId :=
  ensure (0 <? l) (Message "zero memory allowance") ;;;
  let* h := get in
  put (mkHeap (<[fresh h := mkBudgetState l 0]> (pools h)) (tokens h) (fresh h + 1)) ;;;
  ret (fresh h).

(** @source src/src/preview/memory.rs:54-71 ByteBudget::reserve_exact *)
Definition reserve_exact (p : PoolId) (n : Z) : proc BudgetError Heap TokenId :=
  let* st := the_pool p in
  let avail := limit st - used st in
  if avail <? n then fail (Limit (mkByteLimit n avail))
  else
    let* h := get in
    put (new_token (mkReservation p n)
           (set_pool p (mkBudgetState (limit st) (used st + n)) h)) ;;;
    ret (fresh h).

(** @source src/src/preview/memory.rs:49-51 ByteBudget::try_reserve *)
Definition try_reserve (p : PoolId) (n : Z) : proc BudgetError Heap (option TokenId) :=
  let* r := try (reserve_exact p n) in
  ret (match r with Ok t => Some t | Err _ => None end).

(** @source src/src/preview/memory.rs:72-75 ByteBudget::snapshot *)
Definition snapshot (p : PoolId) : proc BudgetError Heap (Z * Z) :=
  let* st := the_pool p in ret (limit st, used st).

(** [Drop for ByteReservation]. *)
(** @source src/src/preview/memory.rs:144-148 ByteReservation::drop *)
Definition drop_reservation (t : TokenId) : proc BudgetError Heap unit :=
  let* r := the_token t in
  let* st := the_pool (budget r) in
  modify (fun h => forget_token t
    (set_pool (budget r) (mkBudgetState (limit st) (used st - bytes r)) h)).

(** @source src/src/preview/memory.rs:87-102 ByteReservation::split_exact *)
Definition split_exact (t : TokenId) (n : Z) : proc BudgetError Heap TokenId :=
  let* r := the_token t in
  if bytes r <? n then fail (Limit (mkByteLimit n (bytes r)))
  else
    modify (set_token t (mkReservation (budget r) (bytes r - n))) ;;;
    let* h := get in
    put (new_token (mkReservation (budget r) n) h) ;;;
    ret (fresh h).

(** [other] is taken by value: it is dropped on every path, with its charge
    unless it was zeroed. *)
(** @source src/src/preview/memory.rs:106-119 ByteReservation::merge_transferred *)
Definition merge_transferred (t other : TokenId) : proc BudgetError Heap unit :=
  let* r := the_token t in
  let* o := the_token other in
  if negb (budget r =? budget o) then
    drop_reservation other ;;;
    fail (Message "transferred reservations belong to different pools")
  else match checked_add (bytes r) (bytes o) with
       | None => drop_reservation other ;;; fail (Message "transferred reservation overflow")
       | Some total =>
           modify (set_token t (mkReservation (budget r) total)) ;;;
           modify (set_token other (mkReservation (budget o) 0)) ;;;
           drop_reservation other
       end.

(** @source src/src/preview/memory.rs:120-136 ByteReservation::grow_exact *)
Definition grow_exact (t : TokenId) (n : Z) : proc BudgetError Heap unit :=
  let* r := the_token t in
  let* st := the_pool (budget r) in
  let avail := limit st - used st in
  if avail <? n then fail (Limit (mkByteLimit n avail))
  else
    let* retained := of_option (checked_add (bytes r) n)
                       (Panic "reservation cannot exceed its budget limit") in
    modify (fun h => set_token t (mkReservation (budget r) retained)
      (set_pool (budget r) (mkBudgetState (limit st) (used st + n)) h)).

(** @source src/src/preview/memory.rs:137-142 ByteReservation::shrink *)
Definition shrink (t : TokenId) (n : Z) : proc BudgetError Heap unit :=
  let* r := the_token t in
  ensure (n <=? bytes r) (Message "reservation cannot grow by shrinking") ;;;
  let* st := the_pool (budget r) in
  modify (fun h => set_token t (mkReservation (budget r) n)
    (set_pool (budget r) (mkBudgetState (limit st) (used st - (bytes r - n))) h)).

(** Any operation a program can perform on its live handles, with [u64]
    arguments. *)
Definition is_u64 (n : Z) : Prop := 0 <= n <= u64_max.

Inductive step : Heap -> Heap -> Prop :=
| step_new h l : is_u64 l -> step h (budget_new l h).1
| step_reserve h p n : is_u64 n -> step h (reserve_exact p n h).1
| step_split h t n : is_u64 n -> step h (split_exact t n h).1
| step_merge h t o : t <> o -> step h (merge_transferred t o h).1
| step_grow h t n : is_u64 n -> step h (grow_exact t n h).1
| step_shrink h t n : is_u64 n -> step h (shrink t n h).1
| step_drop h t : step h (drop_reservation t h).1.

Definition reachable (h : Heap) : Prop := rtc step empty_heap h.

(** The outcome of a reservation, evaluated. *)
Lemma reserve_exact_run p n h b :
  pools h !! p = Some b ->
  reserve_exact p n h =
  if limit b - used b <? n then (h, Err (Limit (mkByteLimit n (limit b - used b))))
  else (new_token (mkReservation p n)
          (set_pool p (mkBudgetState (limit b) (used b + n)) h), Ok (fresh h)).
Proof.
  intros Hp. unfold reserve_exact. rewrite (bind_ok _ _ _ _ _ (the_pool_ok _ _ _ Hp)).
  by destruct (limit b - used b <? n).
Qed.

(** ** The accounting invariant *)

(** What a reservation charges to the pool [p]. *)
Definition charge (p : PoolId) (r : ByteReservation) : Z :=
  if decide (budget r = p) then bytes r else 0.

Record accounted (h : Heap) : Prop := {
  ac_token : forall t r, tokens h !! t = Some r ->
               0 <= bytes r /\ is_Some (pools h !! budget r) /\ t < fresh h;
  ac_pool : forall p b, pools h !! p = Some b ->
              p < fresh h /\ limit b <= u64_max /\
              used b = map_sum (charge p) (tokens h) /\ used b <= limit b;
}.

Lemma charge_nonneg h p t r : accounted h -> tokens h !! t = Some r -> 0 <= charge p r.
Proof. intros Ha Ht. unfold charge. case_decide; [by apply (ac_token _ Ha t)|done]. Qed.

Lemma charge_self r : charge (budget r) r = bytes r.
Proof. unfold charge. by rewrite decide_True. Qed.

Lemma token_within h t r b :
  accounted h -> tokens h !! t = Some r -> pools h !! budget r = Some b ->
  bytes r <= used b /\ used b <= limit b.
Proof.
  intros Ha Ht Hp. destruct (ac_pool _ Ha _ _ Hp) as (_ & _ & Hs & Hu). split; [|done].
  rewrite Hs, <-(charge_self r). eapply map_sum_lookup_le; [|done].
  intros. by eapply charge_nonneg.
Qed.

Lemma fresh_token h : accounted h -> tokens h !! fresh h = None.
Proof.
  intros Ha. destruct (tokens h !! fresh h) as [r|] eqn:Ht; [|done].
  destruct (ac_token _ Ha _ _ Ht) as (_ & _ & ?). lia.
Qed.

(** A new token and the matching growth of its pool. *)
Lemma accounted_new h p b n used' :
  accounted h -> pools h !! p = Some b -> 0 <= n ->
  used' = used b + n -> used' <= limit b ->
  accounted (new_token (mkReservation p n) (set_pool p (mkBudgetState (limit b) used') h)).
Proof.
  intros Ha Hp Hn -> Hle. pose proof (fresh_token h Ha) as Hf. constructor; simpl.
  - intros t r [[<- <-]|[Hne Ht]]%lookup_insert_Some; simpl.
    + rewrite lookup_insert_eq. split_and!; [done|eauto|lia].
    + destruct (ac_token _ Ha _ _ Ht) as (H1 & H2 & H3). split_and!; [done| |lia].
      by apply lookup_insert_is_Some'; right.
  - intros q c Hq. rewrite map_sum_insert by done. unfold charge at 1. simpl.
    apply lookup_insert_Some in Hq as [[<- <-]|[Hne Hq]]; simpl.
    + destruct (ac_pool _ Ha _ _ Hp) as (H1 & H2 & H3 & H4).
      rewrite decide_True by done. split_and!; try lia.
    + destruct (ac_pool _ Ha _ _ Hq) as (H1 & H2 & H3 & H4).
      rewrite decide_False by done. split_and!; try lia.
Qed.

(** A token resized together with its pool. *)
Lemma accounted_resize h t r b n used' :
  accounted h -> tokens h !! t = Some r -> pools h !! budget r = Some b -> 0 <= n ->
  used' = used b + (n - bytes r) -> used' <= limit b ->
  accounted (set_token t (mkReservation (budget r) n)
               (set_pool (budget r) (mkBudgetState (limit b) used') h)).
Proof.
  intros Ha Ht Hp Hn -> Hle. constructor; simpl.
  - intros u s [[<- <-]|[Hne Hu]]%lookup_insert_Some; simpl.
    + rewrite lookup_insert_eq. destruct (ac_token _ Ha _ _ Ht) as (? & ? & ?).
      split_and!; [done|eauto|done].
    + destruct (ac_token _ Ha _ _ Hu) as (H1 & H2 & H3). split_and!; [done| |lia].
      by apply lookup_insert_is_Some'; right.
  - intros q c Hq. rewrite (map_sum_update _ _ _ _ _ Ht). unfold charge at 1 2. simpl.
    apply lookup_insert_Some in Hq as [[<- <-]|[Hne Hq]]; simpl.
    + destruct (ac_pool _ Ha _ _ Hp) as (H1 & H2 & H3 & H4).
      rewrite !decide_True by done. split_and!; try lia.
    + destruct (ac_pool _ Ha _ _ Hq) as (H1 & H2 & H3 & H4).
      rewrite !decide_False by done. split_and!; try lia.
Qed.

Lemma accounted_forget h t r b :
  accounted h -> tokens h !! t = Some r -> pools h !! budget r = Some b ->
  accounted (forget_token t
    (set_pool (budget r) (mkBudgetState (limit b) (used b - bytes r)) h)).
Proof.
  intros Ha Ht Hp. constructor; simpl.
  - intros u s [Hne Hu]%lookup_delete_Some. destruct (ac_token _ Ha _ _ Hu) as (? & ? & ?).
    split_and!; [done| |done]. by apply lookup_insert_is_Some'; right.
  - intros q c Hq. pose proof (map_sum_delete (charge q) _ _ _ Ht) as Hs.
    unfold charge at 2 in Hs.
    destruct (ac_token _ Ha _ _ Ht) as (? & ? & ?).
    apply lookup_insert_Some in Hq as [[<- <-]|[Hne Hq]]; simpl.
    + destruct (ac_pool _ Ha _ _ Hp) as (H1' & H2' & H3' & H4').
      rewrite decide_True in Hs by done. split_and!; try lia.
    + destruct (ac_pool _ Ha _ _ Hq) as (H1' & H2' & H3' & H4').
      rewrite decide_False in Hs by done. split_and!; try lia.
Qed.

(** ** Every operation keeps the accounts and none panics *)

Definition keeps_accounts {A} (m : proc BudgetError Heap A) : Prop :=
  triple accounted m (fun _ => accounted)
    (fun e h => accounted h /\ forall msg, e <> Panic msg).

Lemma keeps_bind {A B} (m : proc BudgetError Heap A) (k : A -> proc BudgetError Heap B) Q :
  triple accounted m (fun a h => accounted h /\ Q a h)
    (fun e h => accounted h /\ forall msg, e <> Panic msg) ->
  (forall a, triple (fun h => accounted h /\ Q a h) (k a) (fun _ => accounted)
    (fun e h => accounted h /\ forall msg, e <> Panic msg)) ->
  keeps_accounts (bind m k).
Proof. intros Hm Hk. eapply triple_bind; [exact Hm|exact Hk]. Qed.

Lemma new_keeps l : is_u64 l -> keeps_accounts (budget_new l).
Proof.
  intros Hl h Ha. unfold budget_new, bind, ensure, get, put. destruct (0 <? l) eqn:E; simpl; [|done].
  assert (tokens h !! fresh h = None) by (by apply fresh_token).
  constructor; simpl.
  - intros t r Ht. destruct (ac_token _ Ha _ _ Ht) as (? & ? & ?).
    split_and!; [done| |lia]. by apply lookup_insert_is_Some'; right.
  - intros p b [[<- <-]|[Hne Hp]]%lookup_insert_Some; simpl.
    + destruct Hl. split_and!; [lia|lia| |lia]. symmetry. apply map_sum_zero.
      intros t r Ht. unfold charge. case_decide as Heq; [|done].
      destruct (ac_token _ Ha _ _ Ht) as (_ & [b Hb] & _). rewrite Heq in Hb.
      destruct (ac_pool _ Ha _ _ Hb) as [? _]. lia.
    + destruct (ac_pool _ Ha _ _ Hp) as (? & ? & ? & ?). split_and!; lia.
Qed.

Lemma reserve_keeps p n : is_u64 n -> keeps_accounts (reserve_exact p n).
Proof.
  intros Hn h Ha. unfold reserve_exact, the_pool, bind, get, of_option, put, ret, fail.
  destruct (pools h !! p) as [b|] eqn:Hp; simpl; [|done].
  destruct (Z.ltb_spec (limit b - used b) n); [done|].
  apply accounted_new; try done; destruct Hn; lia.
Qed.

Lemma drop_keeps t : keeps_accounts (drop_reservation t).
Proof.
  intros h Ha. unfold drop_reservation, the_token, the_pool, bind, get, of_option, modify, ret, fail.
  destruct (tokens h !! t) as [r|] eqn:Ht; simpl; [|done].
  destruct (pools h !! budget r) as [b|] eqn:Hp; simpl; [|done].
  by apply accounted_forget.
Qed.

Lemma split_keeps t n : is_u64 n -> keeps_accounts (split_exact t n).
Proof.
  intros [Hn _] h Ha. unfold split_exact, the_token, bind, get, of_option, modify, put, ret, fail.
  destruct (tokens h !! t) as [r|] eqn:Ht; simpl; [|done].
  destruct (Z.ltb_spec (bytes r) n); [done|]. simpl.
  destruct (ac_token _ Ha _ _ Ht) as (Hr & [b Hb] & Hf).
  set (h1 := set_pool (budget r) (mkBudgetState (limit b) (used b - n))
               (set_token t (mkReservation (budget r) (bytes r - n)) h)).
  destruct (token_within _ _ _ _ Ha Ht Hb).
  assert (accounted h1) as Ha1 by (apply (accounted_resize h t r b); try done; lia).
  pose proof (accounted_new h1 (budget r) (mkBudgetState (limit b) (used b - n)) n (used b) Ha1)
    as Hnew. simpl in Hnew.
  specialize (Hnew (lookup_insert_eq _ _ _) ltac:(lia) ltac:(lia) ltac:(lia)).
  unfold new_token, set_pool in Hnew. simpl in Hnew. rewrite insert_insert_eq in Hnew.
  rewrite insert_id in Hnew; [exact Hnew|]. rewrite Hb. by destruct b.
Qed.

Lemma grow_keeps t n : is_u64 n -> keeps_accounts (grow_exact t n).
Proof.
  intros [Hn _] h Ha. unfold grow_exact, the_token, the_pool, bind, get, of_option, modify, ret, fail.
  destruct (tokens h !! t) as [r|] eqn:Ht; simpl; [|done].
  destruct (pools h !! budget r) as [b|] eqn:Hp; simpl; [|done].
  destruct (Z.ltb_spec (limit b - used b) n); [done|].
  destruct (token_within _ _ _ _ Ha Ht Hp). destruct (ac_token _ Ha _ _ Ht) as (? & _ & _).
  destruct (ac_pool _ Ha _ _ Hp) as (_ & ? & _ & _).
  assert (checked_add (bytes r) n = Some (bytes r + n)) as -> by (apply checked_add_Some; lia).
  simpl. apply (accounted_resize h t r b); try done; lia.
Qed.

Lemma shrink_keeps t n : is_u64 n -> keeps_accounts (shrink t n).
Proof.
  intros [Hn _] h Ha.
  unfold shrink, the_token, the_pool, bind, get, of_option, ensure, modify, ret, fail.
  destruct (tokens h !! t) as [r|] eqn:Ht; simpl; [|done].
  destruct (Z.leb_spec n (bytes r)); simpl; [|done].
  destruct (pools h !! budget r) as [b|] eqn:Hp; simpl; [|done].
  destruct (token_within _ _ _ _ Ha Ht Hp).
  apply (accounted_resize h t r b); try done; lia.
Qed.

(** Moving the bytes of [o] into [t]; both are charged to the same pool. *)
Lemma accounted_move h t o r s :
  accounted h -> t <> o -> tokens h !! t = Some r -> tokens h !! o = Some s ->
  budget r = budget s ->
  accounted (set_token o (mkReservation (budget s) 0)
               (set_token t (mkReservation (budget r) (bytes r + bytes s)) h)).
Proof.
  intros Ha Hne Ht Ho Heq. constructor; simpl.
  - intros u x. rewrite !lookup_insert_Some.
    destruct (ac_token _ Ha _ _ Ht) as (? & ? & ?), (ac_token _ Ha _ _ Ho) as (? & ? & ?).
    intros [[<- <-]|[_ [[<- <-]|[_ Hu]]]]; simpl; [split_and!; try done; lia..|].
    by apply (ac_token _ Ha).
  - intros q c Hq. destruct (ac_pool _ Ha _ _ Hq) as (? & ? & ? & ?). split_and!; try done.
    rewrite (map_sum_update (charge q) _ o s) by (by rewrite lookup_insert_ne).
    rewrite (map_sum_update (charge q) _ t r) by done.
    unfold charge at 1 2 3 4. simpl. rewrite Heq. case_decide; lia.
Qed.

Lemma merge_keeps t o : t <> o -> keeps_accounts (merge_transferred t o).
Proof.
  intros Hne h Ha. unfold merge_transferred, the_token, bind at 1 2, get, of_option, ret, fail.
  unfold bind at 1 2.
  destruct (tokens h !! t) as [r|] eqn:Ht; simpl; [|done].
  destruct (tokens h !! o) as [s|] eqn:Ho; simpl; [|done].
  pose proof (drop_keeps o h Ha) as Hdrop.
  destruct (Z.eqb_spec (budget r) (budget s)) as [Heq|]; simpl.
  - destruct (checked_add (bytes r) (bytes s)) as [n|] eqn:Hn.
    + apply checked_add_Some in Hn as [-> _]. unfold bind, modify. simpl.
      apply drop_keeps. by apply accounted_move.
    + unfold bind. destruct (drop_reservation o h) as [h' [[]|e]]; [done|exact Hdrop].
  - unfold bind. destruct (drop_reservation o h) as [h' [[]|e]]; [done|exact Hdrop].
Qed.

Lemma keeps_state {A} (m : proc BudgetError Heap A) h :
  keeps_accounts m -> accounted h -> accounted (m h).1.
Proof. intros Hm Ha. specialize (Hm h Ha). by destruct (m h) as [h' [a|e]]; [|destruct Hm]. Qed.

#[export] Hint Resolve new_keeps reserve_keeps split_keeps merge_keeps grow_keeps
  shrink_keeps drop_keeps : prog.

Lemma step_accounted h h' : step h h' -> accounted h -> accounted h'.
Proof. intros [] Ha; apply keeps_state; eauto with prog. Qed.

Lemma empty_accounted : accounted empty_heap.
Proof. constructor; simpl; intros ? ?; by rewrite lookup_empty. Qed.

Lemma reachable_accounted h : reachable h -> accounted h.
Proof.
  unfold reachable. intros Hr. pose proof empty_accounted as H0.
  induction Hr as [|x y z Hxy _ IH]; [done|]. apply IH. by eapply step_accounted.
Qed.

(** ** Properties *)

(** C12.  Conservation: whatever sequence of reservations, splits, merges, growths,
    shrinks and drops a program performs, the [used] counter of a pool is the sum
    of the live reservations charged to it and stays within its limit. *)
Theorem budget_conserved h p b :
  reachable h -> pools h !! p = Some b ->
  used b = map_sum (charge p) (tokens h) /\ 0 <= used b <= limit b /\ limit b <= u64_max.
Proof.
  intros Hr%reachable_accounted Hp. destruct (ac_pool _ Hr _ _ Hp) as (_ & ? & Hs & ?).
  split_and!; try done. rewrite Hs. apply map_sum_nonneg.
  intros t r Ht. by eapply charge_nonneg.
Qed.

(**  No operation on a live heap reaches its [expect] panic. *)
Theorem budget_never_panics h t n msg :
  reachable h -> is_u64 n -> (grow_exact t n h).2 <> Err (Panic msg).
Proof.
  intros Hr%reachable_accounted Hn. pose proof (grow_keeps t n Hn h Hr) as H.
  destruct (grow_exact t n h) as [h' [a|e]]; simpl; [done|]. destruct H as [_ H].
  intros [= ->]. by apply (H msg).
Qed.

(**  Reservation is exact: it succeeds precisely when the bytes are available,
    then charges the pool and nothing else; a refusal reports the availability it
    observed and changes nothing. *)
Theorem reserve_exact_spec h p n b :
  accounted h -> pools h !! p = Some b ->
  (n <= limit b - used b ->
     exists h', reserve_exact p n h = (h', Ok (fresh h))
       /\ tokens h' = <[fresh h := mkReservation p n]> (tokens h)
       /\ pools h' = <[p := mkBudgetState (limit b) (used b + n)]> (pools h)
       /\ tokens h !! fresh h = None)
  /\ (limit b - used b < n ->
     reserve_exact p n h = (h, Err (Limit (mkByteLimit n (limit b - used b))))).
Proof.
  intros Ha Hp. rewrite (reserve_exact_run _ _ _ _ Hp).
  destruct (Z.ltb_spec (limit b - used b) n) as [Hlt|Hle].
  - split; [lia|done].
  - split; [|lia]. intros _. eexists. split_and!; try done. by apply fresh_token.
Qed.

(**  Splitting a reservation and merging the part back leaves every pool and
    the original reservation as they were: the shared pool is never charged
    twice. *)
Theorem split_merge_roundtrip h t r n :
  accounted h -> tokens h !! t = Some r -> 0 <= n <= bytes r ->
  exists h1 h2, split_exact t n h = (h1, Ok (fresh h))
    /\ pools h1 = pools h
    /\ tokens h1 !! t = Some (mkReservation (budget r) (bytes r - n))
    /\ tokens h1 !! fresh h = Some (mkReservation (budget r) n)
    /\ merge_transferred t (fresh h) h1 = (h2, Ok tt)
    /\ pools h2 = pools h /\ tokens h2 = tokens h.
Proof.
  intros Ha Ht Hn. destruct (ac_token _ Ha _ _ Ht) as (Hr & [b Hb] & Hf).
  destruct (token_within _ _ _ _ Ha Ht Hb). destruct (ac_pool _ Ha _ _ Hb) as (_ & ? & _ & _).
  set (h1 := new_token (mkReservation (budget r) n)
               (set_token t (mkReservation (budget r) (bytes r - n)) h)).
  assert (tokens h1 !! t = Some (mkReservation (budget r) (bytes r - n))) as Ht1.
  { simpl. rewrite lookup_insert_ne by lia. apply lookup_insert_eq. }
  assert (tokens h1 !! fresh h = Some (mkReservation (budget r) n)) as Hf1
    by apply lookup_insert_eq.
  assert (split_exact t n h = (h1, Ok (fresh h))) as Hsplit.
  { unfold split_exact, the_token, bind, get, of_option, modify, put, ret.
    rewrite Ht. simpl. by destruct (Z.ltb_spec (bytes r) n); [lia|]. }
  set (h2 := forget_token (fresh h) (set_pool (budget r) (mkBudgetState (limit b) (used b - 0))
               (set_token (fresh h) (mkReservation (budget r) 0)
                 (set_token t (mkReservation (budget r) (bytes r)) h1)))).
  exists h1, h2. split_and!; try done.
  { unfold merge_transferred. rewrite (bind_ok _ _ _ _ _ (the_token_ok _ _ _ Ht1)).
    rewrite (bind_ok _ _ _ _ _ (the_token_ok _ _ _ Hf1)).
    cbn [budget bytes]. rewrite Z.eqb_refl. cbn [negb].
    assert (checked_add (bytes r - n) n = Some (bytes r)) as -> by (apply checked_add_Some; lia).
    unfold bind at 1 2, modify at 1 2. cbn. unfold drop_reservation.
    rewrite (bind_ok _ _ _ _ _ (the_token_ok _ _ _ (lookup_insert_eq _ _ _))).
    erewrite bind_ok; [|apply the_pool_ok; exact Hb]. done. }
  - simpl. apply insert_id. rewrite Hb. destruct b. simpl. by rewrite Z.sub_0_r.
  - simpl. rewrite delete_insert_eq, delete_insert_ne by lia.
    rewrite delete_insert_eq, delete_insert_ne by lia. rewrite (delete_id _ (fresh h)) by (by apply fresh_token).
    rewrite insert_insert_eq. apply insert_id. rewrite Ht. by destruct r.
Qed.

(** ** The interface of a pool

    What a client that reserves from one pool relies on: the tokens it holds and
    their bytes, the exactness of reservation and release.  [pool_ok] is the
    provider's own invariant. *)

Class BytePool (H : Type) : Type := {
  pool_ok : H -> Prop;
  pool_limit : H -> Z;
  pool_used : H -> Z;
  held : H -> gmap TokenId Z;
  pool_try_reserve : Z -> H -> H * option TokenId;
  pool_release : TokenId -> H -> H;
  pool_within h : pool_ok h ->
    pool_used h = map_sum id (held h) /\ pool_used h <= pool_limit h /\ pool_limit h <= u64_max;
  pool_held_nonneg h t n : pool_ok h -> held h !! t = Some n -> 0 <= n;
  pool_reserve_some h n h' t : pool_ok h -> is_u64 n ->
    pool_try_reserve n h = (h', Some t) ->
    pool_ok h' /\ pool_limit h' = pool_limit h /\ held h !! t = None
    /\ held h' = <[t := n]> (held h);
  pool_reserve_none h n h' : pool_ok h -> is_u64 n ->
    pool_try_reserve n h = (h', None) -> h' = h /\ pool_limit h < pool_used h + n;
  pool_release_ok h t n : pool_ok h -> held h !! t = Some n ->
    pool_ok (pool_release t h) /\ pool_limit (pool_release t h) = pool_limit h
    /\ held (pool_release t h) = delete t (held h);
}.

(** The heap seen through the handle of the pool [p]. *)
Definition PoolView (p : PoolId) : Type := Heap.

Section HeapPool.
Context (p : PoolId).

Definition view_charge (r : ByteReservation) : option Z :=
  if decide (budget r = p) then Some (bytes r) else None.
Definition view_held (h : PoolView p) : gmap TokenId Z := omap view_charge (tokens h).
Definition view_state (h : PoolView p) : BudgetState :=
  default (mkBudgetState 0 0) (pools h !! p).
Definition view_reserve (n : Z) (h : PoolView p) : PoolView p * option TokenId :=
  match try_reserve p n h with
  | (h', Ok o) => (h', o)
  | (h', Err _) => (h', None)
  end.
Definition view_release (t : TokenId) (h : PoolView p) : PoolView p := (drop_reservation t h).1.

Lemma view_held_Some h t n :
  view_held h !! t = Some n <->
  exists r, tokens h !! t = Some r /\ budget r = p /\ bytes r = n.
Proof.
  unfold view_held, view_charge. rewrite lookup_omap.
  destruct (tokens h !! t) as [r|]; simpl; [|naive_solver].
  case_decide; naive_solver.
Qed.

Lemma view_sum h : map_sum id (view_held h) = map_sum (charge p) (tokens h).
Proof.
  unfold map_sum at 1, view_held. rewrite <-(map_sum_omap id).
  apply map_sum_ext. intros t r _. unfold view_charge, charge. by case_decide.
Qed.

Lemma view_reserve_spec h n :
  accounted h -> is_Some (pools h !! p) ->
  (exists t, view_reserve n h = (new_token (mkReservation p n)
      (set_pool p (mkBudgetState (limit (view_state h)) (used (view_state h) + n)) h), Some t)
      /\ t = fresh h /\ n <= limit (view_state h) - used (view_state h))
  \/ (view_reserve n h = (h, None) /\ limit (view_state h) - used (view_state h) < n).
Proof.
  intros Ha [b Hb]. unfold view_reserve, try_reserve, try, view_state, bind.
  rewrite (reserve_exact_run _ _ _ _ Hb), Hb. simpl.
  destruct (Z.ltb_spec (limit b - used b) n); [right; done|left].
  exists (fresh h). split_and!; done.
Qed.

#[export] Program Instance heap_pool : BytePool (PoolView p) := {|
  pool_ok h := accounted h /\ is_Some (pools h !! p);
  pool_limit h := limit (view_state h);
  pool_used h := used (view_state h);
  held := view_held;
  pool_try_reserve := view_reserve;
  pool_release := view_release;
|}.
Next Obligation.
  intros h [Ha [b Hb]]. unfold view_state. rewrite Hb, view_sum. simpl.
  by destruct (ac_pool _ Ha _ _ Hb) as (_ & ? & ? & ?).
Qed.
Next Obligation.
  intros h t n [Ha _] (r & Hr & _ & <-)%view_held_Some. by apply (ac_token _ Ha t).
Qed.
Next Obligation.
  intros h n h' t [Ha Hp] [Hn _] Hres. pose proof (fresh_token h Ha) as Hf.
  destruct (view_reserve_spec h n Ha Hp) as [(t' & Heq & -> & Hle)|[Heq _]];
    rewrite Heq in Hres; [|done]. injection Hres as <- <-.
  destruct Hp as [b Hb]. unfold view_state in *. rewrite Hb in *. simpl in *.
  split_and!; simpl.
  - by apply accounted_new; try lia.
  - rewrite lookup_insert_eq. eauto.
  - by rewrite lookup_insert_eq.
  - unfold view_held. by rewrite lookup_omap, Hf.
  - unfold view_held. simpl. apply omap_insert_Some. unfold view_charge. by rewrite decide_True.
Qed.
Next Obligation.
  intros h n h' [Ha Hp] _ Hres.
  destruct (view_reserve_spec h n Ha Hp) as [(t' & Heq & _)|[Heq Hlt]];
    rewrite Heq in Hres; [done|]. injection Hres as <-. split; [done|lia].
Qed.
Next Obligation.
  intros h t n [Ha [b Hb]] (r & Hr & Hbr & <-)%view_held_Some.
  assert (pools h !! budget r = Some b) as Hb' by (by rewrite Hbr).
  assert (view_release t h = forget_token t
            (set_pool p (mkBudgetState (limit b) (used b - bytes r)) h)) as ->.
  { unfold view_release, drop_reservation. rewrite (bind_ok _ _ _ _ _ (the_token_ok _ _ _ Hr)).
    rewrite (bind_ok _ _ _ _ _ (the_pool_ok _ _ _ Hb')). by rewrite Hbr. }
  unfold view_state. rewrite Hb. split_and!; simpl.
  - rewrite <-Hbr. by apply accounted_forget.
  - rewrite lookup_insert_eq. eauto.
  - by rewrite lookup_insert_eq.
  - unfold view_held. simpl. by rewrite omap_delete.
Qed.
End HeapPool.

(** ** Concrete runs *)

Definition demo1 : Heap := (budget_new 100 empty_heap).1.
Definition demo2 : Heap := (reserve_exact 0 60 demo1).1.
Lemma demo2_reachable : reachable demo2.
Proof.
  assert (is_u64 100 /\ is_u64 60) as [? ?] by (unfold is_u64, u64_max; lia).
  apply (rtc_l _ _ demo1); [by apply step_new|].
  apply (rtc_l _ _ demo2); [by apply step_reserve|]. apply rtc_refl.
Qed.

Lemma budget_conserved_witness :
  60 = map_sum (charge 0) (tokens demo2) /\ 0 <= 60 <= 100.
Proof.
  destruct (budget_conserved demo2 0 (mkBudgetState 100 60) demo2_reachable) as (H & H' & _);
    [vm_compute; reflexivity|]. split; [exact H|exact H'].
Defined.

Lemma budget_never_panics_witness :
  (grow_exact 1 50 demo2).2 <> Err (Panic "reservation cannot exceed its budget limit").
Proof.
  apply (budget_never_panics demo2 1 50); [exact demo2_reachable|unfold is_u64, u64_max; lia].
Defined.

Lemma reserve_exact_spec_witness :
  reserve_exact 0 41 demo2 = (demo2, Err (Limit (mkByteLimit 41 40))).
Proof.
  apply (reserve_exact_spec demo2 0 41 (mkBudgetState 100 60));
    [apply reachable_accounted, demo2_reachable|vm_compute; reflexivity|vm_compute; reflexivity].
Defined.

Lemma split_merge_roundtrip_witness :
  exists h1 h2, split_exact 1 37 demo2 = (h1, Ok 2) /\ merge_transferred 1 2 h1 = (h2, Ok tt)
    /\ pools h2 = pools demo2 /\ tokens h2 = tokens demo2.
Proof.
  destruct (split_merge_roundtrip demo2 1 (mkReservation 0 60) 37)
    as (h1 & h2 & H1 & _ & _ & _ & H2 & H3 & H4);
    [apply reachable_accounted, demo2_reachable|vm_compute; reflexivity|simpl; lia|].
  exists h1, h2. split; [exact H1|]. split; [exact H2|]. split; [exact H3|exact H4].
Defined.
