(* ===== verification/DecodedCache.v ===== *)
(** The LRU of decoded previews: src/src/preview/memory.rs, lines 149-362, with the
    pixel type and the entry points of src/src/preview/codec.rs.

    Decoded pixels are reference counted ([Arc]) and own a reservation of the
    byte pool until the last reference goes.  The cache is written against the
    [BytePool] interface; the image decoders are parameters. *)
From stdpp Require Import base tactics option list numbers gmap strings fin_maps.
From Stdlib Require Import ZArith Lia.
From S2P Require Import Prelude ByteBudget.

Open Scope Z_scope.
Local Open Scope prog_scope.

(** ** Pixels and codecs *)

(** @source src/src/preview/codec.rs:14-20 Codec *)
Inductive Codec : Type := Jpeg | Webp | Avif.

Definition MAX_EDGE : Z := 8192.

(** @source src/src/preview/codec.rs:50-54 PreparedRgb *)
Record PreparedRgb : Type := mkRgb { width : Z; height : Z; rgb : list Z }.

(** @source src/src/preview/codec.rs:80-82 PreparedRgb::byte_len *)
Definition byte_len (p : PreparedRgb) : Z := Z.of_nat (length (rgb p)).

(** @source src/src/preview/codec.rs:56-70 PreparedRgb::new *)
Definition PreparedRgb_new (w h : Z) (px : list Z) : result string PreparedRgb :=
  if (0 <? w) && (0 <? h) && (w <=? MAX_EDGE) && (h <=? MAX_EDGE) then
    if Z.of_nat (length px) =? w * h * 3 then Ok (mkRgb w h px)
    else Err "RGB8 length mismatch"%string
  else Err "preview dimension limit"%string.

(** The decoders of the [image] crate and of the native AVIF library: the
    dimensions of a header, and the dimensions and bytes of a decoded image. *)
Class ImageDecoders : Type := {
  header_dimensions : list Z -> Codec -> result string (Z * Z);
  decode_image : list Z -> Codec -> result string (Z * Z * list Z);
}.

(** @source src/src/preview/codec.rs:329-359 encoded_dimensions *)
Definition encoded_dimensions `{ImageDecoders} (e : list Z) (c : Codec) : result string (Z * Z) :=
  match header_dimensions e c with
  | Ok (w, h) =>
      if (w =? 0) || (h =? 0) || (MAX_EDGE <? w) || (MAX_EDGE <? h)
      then Err "preview dimension limit"%string else Ok (w, h)
  | Err m => Err m
  end.

(** @source src/src/preview/codec.rs:362-390 decode *)
Definition decode_pixels `{ImageDecoders} (e : list Z) (c : Codec) : result string PreparedRgb :=
  match decode_image e c with
  | Ok (w, h, px) => PreparedRgb_new w h px
  | Err m => Err m
  end.

(** @source src/src/catalog_session/native.rs:102-111 rgb_bytes *)
Definition rgb_bytes (w h : Z) : result string Z :=
  if (1 <=? w) && (w <=? 8192) && (1 <=? h) && (h <=? 8192) then
    match checked_mul w h with
    | Some p => match checked_mul p 3 with
                | Some b => Ok b
                | None => Err "RGB byte overflow"%string
                end
    | None => Err "RGB byte overflow"%string
    end
  else Err "native dimensions"%string.

(** ** The cache *)

Abbreviation ObjId := Z (only parsing).

(** The allocation behind an [Arc<RetainedPixels>], with its strong count. *)
(** @source src/src/preview/memory.rs:169-172 RetainedPixels *)
Record RetainedPixels : Type := mkRetained {
  pixels : PreparedRgb;
  reservation : TokenId;
  strong : Z;
}.

Inductive CacheError : Type :=
| DecodedBudgetExceeded
| CacheMessage (m : string)
| OutOfFuel.

(** [entries] maps a key to the object it keeps alive and the tick of its last
    use; [objects] holds every allocation not yet freed. *)
(** @source src/src/preview/memory.rs:178-187 DecodedCache *)
Record DecodedCache (H : Type) : Type := mkCache {
  hits : Z;
  misses : Z;
  heap : H;
  cache_limit : Z;
  max_entries : Z;
  cached_bytes : Z;
  clock : Z;
  entries : gmap string (ObjId * Z);
  objects : gmap ObjId RetainedPixels;
  next_obj : ObjId;
}.
Arguments mkCache {H}.
Arguments hits {H}. Arguments misses {H}. Arguments heap {H}. Arguments cache_limit {H}.
Arguments max_entries {H}. Arguments cached_bytes {H}. Arguments clock {H}.
Arguments entries {H}. Arguments objects {H}. Arguments next_obj {H}.

Section Cache.
Context {H : Type} `{BP : BytePool H} `{ID : ImageDecoders}.

Definition CacheM (A : Type) : Type := proc CacheError (DecodedCache H) A.

Definition set_hits (v : Z) (c : DecodedCache H) : DecodedCache H :=
  mkCache v (misses c) (heap c) (cache_limit c) (max_entries c) (cached_bytes c) (clock c)
    (entries c) (objects c) (next_obj c).
Definition set_misses (v : Z) (c : DecodedCache H) : DecodedCache H :=
  mkCache (hits c) v (heap c) (cache_limit c) (max_entries c) (cached_bytes c) (clock c)
    (entries c) (objects c) (next_obj c).
Definition set_heap (v : H) (c : DecodedCache H) : DecodedCache H :=
  mkCache (hits c) (misses c) v (cache_limit c) (max_entries c) (cached_bytes c) (clock c)
    (entries c) (objects c) (next_obj c).
Definition set_cached_bytes (v : Z) (c : DecodedCache H) : DecodedCache H :=
  mkCache (hits c) (misses c) (heap c) (cache_limit c) (max_entries c) v (clock c)
    (entries c) (objects c) (next_obj c).
Definition set_clock (v : Z) (c : DecodedCache H) : DecodedCache H :=
  mkCache (hits c) (misses c) (heap c) (cache_limit c) (max_entries c) (cached_bytes c) v
    (entries c) (objects c) (next_obj c).
Definition set_entries (v : gmap string (ObjId * Z)) (c : DecodedCache H) : DecodedCache H :=
  mkCache (hits c) (misses c) (heap c) (cache_limit c) (max_entries c) (cached_bytes c) (clock c)
    v (objects c) (next_obj c).
Definition set_objects (v : gmap ObjId RetainedPixels) (c : DecodedCache H) : DecodedCache H :=
  mkCache (hits c) (misses c) (heap c) (cache_limit c) (max_entries c) (cached_bytes c) (clock c)
    (entries c) v (next_obj c).

(** @source src/src/preview/memory.rs:191-210 DecodedCache::new *)
Definition cache_new (h : H) (cache_bytes total_live_bytes max : Z) : result string (DecodedCache H) :=
  if (0 <? max) && (max <=? 100000) then
    if cache_bytes <=? total_live_bytes then
      if 0 <? total_live_bytes then Ok (mkCache 0 0 h cache_bytes max 0 0 ∅ ∅ 0)
      else Err "zero memory allowance"%string
    else Err "LRU exceeds total decoded allowance"%string
  else Err "decoded entry limit"%string.

(** *** Reference counts *)

Definition arc_clone (o : ObjId) (c : DecodedCache H) : DecodedCache H :=
  match objects c !! o with
  | Some r => set_objects (<[o := mkRetained (pixels r) (reservation r) (strong r + 1)]> (objects c)) c
  | None => c
  end.

(** The last reference frees the pixels, then drops [_reservation]. *)
(** @source src/src/preview/memory.rs:169-172 Drop for ByteReservation, through RetainedPixels *)
Definition arc_drop (o : ObjId) (c : DecodedCache H) : DecodedCache H :=
  match objects c !! o with
  | Some r =>
      if strong r =? 1 then
        set_heap (pool_release (reservation r) (heap c)) (set_objects (delete o (objects c)) c)
      else set_objects (<[o := mkRetained (pixels r) (reservation r) (strong r - 1)]> (objects c)) c
  | None => c
  end.

(** [Arc::new(RetainedPixels { pixels, _reservation })]. *)
Definition retain (p : PreparedRgb) (t : TokenId) : CacheM ObjId :=
  let* c := get in
  put (mkCache (hits c) (misses c) (heap c) (cache_limit c) (max_entries c) (cached_bytes c)
         (clock c) (entries c) (<[next_obj c := mkRetained p t 1]> (objects c)) (next_obj c + 1)) ;;;
  ret (next_obj c).

Definition release_token (t : TokenId) : CacheM unit :=
  modify (fun c => set_heap (pool_release t (heap c)) c).

(** *** The methods *)

(** @source src/src/preview/memory.rs:221-227 DecodedCache::tick *)
Definition tick : CacheM Z :=
  let* c := get in
  let* n := of_option (checked_add (clock c) 1) (CacheMessage "LRU clock overflow") in
  put (set_clock n c) ;;;
  ret n.

(** @source src/src/preview/memory.rs:228-234 DecodedCache::get *)
Definition cache_get (key : string) : CacheM (option ObjId) :=
  let* t := tick in
  let* c := get in
  match entries c !! key with
  | Some (o, _) =>
      put (arc_clone o (set_entries (<[key := (o, t)]> (entries c)) c)) ;;; ret (Some o)
  | None => ret None
  end.

Definition lru_entry (m : gmap string (ObjId * Z)) : option (string * (ObjId * Z)) :=
  min_by (asc_on (fun e : string * (ObjId * Z) => e.2.2)) (map_to_list m).

Definition object_len (c : DecodedCache H) (o : ObjId) : Z :=
  match objects c !! o with Some r => byte_len (pixels r) | None => 0 end.

(** [entries.remove(key)] and [cached_bytes -= byte_len]; the entry's reference
    is dropped. *)
Definition detach (key : string) (o : ObjId) (c : DecodedCache H) : DecodedCache H :=
  arc_drop o (set_cached_bytes (cached_bytes c - object_len c o)
    (set_entries (delete key (entries c)) c)).

(** @source src/src/preview/memory.rs:235-248 DecodedCache::evict_one *)
Definition evict_one : CacheM bool :=
  let* c := get in
  match lru_entry (entries c) with
  | Some (key, (o, _)) =>
      put (detach key o c) ;;; ret true
  | None => ret false
  end.

(** @source src/src/preview/memory.rs:249-252 DecodedCache::clear *)
Definition clear : CacheM unit :=
  modify (fun c => set_cached_bytes 0
    (fold_right (fun e c => arc_drop e.2.1 c) (set_entries ∅ c) (map_to_list (entries c)))).

Definition valid_key (key : string) : bool :=
  (0 <? Z.of_nat (String.length key)) && (Z.of_nat (String.length key) <=? 64).

(** @source src/src/preview/memory.rs:253-262 DecodedCache::managed_lookup *)
Definition managed_lookup (key : string) : CacheM (option ObjId) :=
  ensure (valid_key key) (CacheMessage "decoded key length") ;;;
  let* found := cache_get key in
  (match found with
   | Some _ => modify (fun c => set_hits (saturating_add (hits c) 1) c)
   | None => modify (fun c => set_misses (saturating_add (misses c) 1) c)
   end) ;;;
  ret found.

(** [loop { try_reserve; evict_one }]: every failed turn removes an entry. *)
(** @source src/src/preview/memory.rs:265-272 DecodedCache::reserve_rgb *)
Fixpoint reserve_loop (fuel : nat) (n : Z) : CacheM TokenId :=
  match fuel with
  | O => fail OutOfFuel
  | S fuel' =>
      let* c := get in
      match pool_try_reserve n (heap c) with
      | (h', Some t) => put (set_heap h' c) ;;; ret t
      | (h', None) =>
          put (set_heap h' c) ;;;
          let* evicted := evict_one in
          if evicted then reserve_loop fuel' n else fail DecodedBudgetExceeded
      end
  end.

Definition reserve_evicting (n : Z) : CacheM TokenId :=
  let* c := get in reserve_loop (S (size (entries c))) n.

Definition lift_string {A} (r : result string A) : CacheM A :=
  match r with Ok a => ret a | Err m => fail (CacheMessage m) end.

(** @source src/src/preview/memory.rs:263-273 DecodedCache::reserve_rgb *)
Definition reserve_rgb (w h : Z) : CacheM TokenId :=
  let* n := lift_string (rgb_bytes w h) in reserve_evicting n.

(** [while cached > limit - bytes || entries >= max { evict or break }]. *)
(** @source src/src/preview/memory.rs:290-296 DecodedCache::commit_rgb *)
Fixpoint make_room (fuel : nat) (n : Z) : CacheM unit :=
  let* c := get in
  if (cache_limit c - n <? cached_bytes c) || (max_entries c <=? map_len (entries c)) then
    match fuel with
    | O => fail OutOfFuel
    | S fuel' =>
        let* evicted := evict_one in
        if evicted then make_room fuel' n else ret tt
    end
  else ret tt.

(** The insertion of [retained.clone()] at a new tick. *)
Definition insert_entry (key : string) (o : ObjId) (n t : Z) : CacheM unit :=
  modify (fun c => arc_clone o
    (set_entries (<[key := (o, t)]> (entries c)) (set_cached_bytes (cached_bytes c + n) c))).

(** [entries.remove(&key)] before the insertion. *)
Definition remove_old (key : string) : CacheM unit :=
  let* c := get in
  match entries c !! key with
  | Some (o, _) => put (detach key o c)
  | None => ret tt
  end.

(** A failure after [retained] exists drops its only reference. *)
Definition dropping {A} (o : ObjId) (m : CacheM A) : CacheM A :=
  let* r := try m in
  match r with
  | Ok a => ret a
  | Err e => modify (arc_drop o) ;;; fail e
  end.

(** Making room, ticking, replacing the entry of [key]. *)
(** @source src/src/preview/memory.rs:289-303 DecodedCache::commit_rgb *)
Definition place (key : string) (o : ObjId) (n : Z) : CacheM unit :=
  let* c := get in
  make_room (S (size (entries c))) n ;;;
  let* tk := tick in
  remove_old key ;;;
  insert_entry key o n tk.

(** The same in [decode], where the lookup missed. *)
(** @source src/src/preview/memory.rs:348-359 DecodedCache::decode *)
Definition place_missing (key : string) (o : ObjId) (n : Z) : CacheM unit :=
  let* c := get in
  make_room (S (size (entries c))) n ;;;
  let* tk := tick in
  insert_entry key o n tk.

(** [Arc::new], then the insertion if the pixels fit the LRU at all; the caller
    gets its own reference. *)
Definition install (insertion : ObjId -> CacheM unit) (p : PreparedRgb) (t : TokenId) (n : Z)
    : CacheM ObjId :=
  let* o := retain p t in
  let* c := get in
  dropping o (if n <=? cache_limit c then insertion o else ret tt) ;;;
  ret o.

(** @source src/src/preview/memory.rs:274-305 DecodedCache::commit_rgb *)
Definition commit_rgb (key : string) (p : PreparedRgb) (t : TokenId) : CacheM ObjId :=
  let n := byte_len p in
  let* c := get in
  if bool_decide (held (heap c) !! t = Some n) then
    install (fun o => place key o n) p t n
  else
    release_token t ;;;
    fail (CacheMessage "decoded reservation identity/length").

(** @source src/src/preview/memory.rs:308-361 DecodedCache::decode *)
Definition decode (key : string) (encoded : list Z) (codec : Codec) (w h : Z) : CacheM ObjId :=
  ensure (valid_key key) (CacheMessage "decoded key length") ;;;
  let* found := cache_get key in
  match found with
  | Some o => modify (fun c => set_hits (saturating_add (hits c) 1) c) ;;; ret o
  | None =>
      modify (fun c => set_misses (saturating_add (misses c) 1) c) ;;;
      ensure ((0 <? w) && (0 <? h) && (w <=? 8192) && (h <=? 8192))
        (CacheMessage "invalid decoded dimensions") ;;;
      let* dims := lift_string (encoded_dimensions encoded codec) in
      ensure (bool_decide (dims = (w, h)))
        (CacheMessage "cached header dimensions mismatch before pixel allocation") ;;;
      let n := w * h * 3 in
      let* t := reserve_evicting n in
      match decode_pixels encoded codec with
      | Err m => release_token t ;;; fail (CacheMessage m)
      | Ok p =>
          if (width p =? w) && (height p =? h) then
            install (fun o => place_missing key o n) p t n
          else
            release_token t ;;; fail (CacheMessage "cached dimensions mismatch")
      end
  end.

(** A consumer drops a page it holds. *)
Definition consumer_drop (o : ObjId) : CacheM unit := modify (arc_drop o).

(** *** Runs

    The callers: lookups, decodes, reservations committed or abandoned later,
    and consumers that share or drop the pages they hold. *)

Definition refs (c : DecodedCache H) (o : ObjId) : Z :=
  map_count (fun e : ObjId * Z => e.1 =? o) (entries c).

(** A consumer's handle on pixels: a reference no entry accounts for. *)
Definition holds (c : DecodedCache H) (o : ObjId) (p : PreparedRgb) : Prop :=
  exists r, objects c !! o = Some r /\ pixels r = p /\ refs c o < strong r.

Inductive cstep : gmap TokenId Z * DecodedCache H -> gmap TokenId Z * DecodedCache H -> Prop :=
| cs_get out c key : cstep (out, c) (out, (cache_get key c).1)
| cs_lookup out c key : cstep (out, c) (out, (managed_lookup key c).1)
| cs_clear out c : cstep (out, c) (out, (clear c).1)
| cs_decode out c key e codec w h : 0 <= w -> 0 <= h ->
    cstep (out, c) (out, (decode key e codec w h c).1)
| cs_reserve out c w h c' t : reserve_rgb w h c = (c', Ok t) ->
    cstep (out, c) (<[t := w * h * 3]> out, c')
| cs_refused out c w h c' e : reserve_rgb w h c = (c', Err e) -> cstep (out, c) (out, c')
| cs_commit out c key p t n : out !! t = Some n ->
    cstep (out, c) (delete t out, (commit_rgb key p t c).1)
| cs_abandon out c t n : out !! t = Some n ->
    cstep (out, c) (delete t out, (release_token t c).1)
| cs_share out c o p : holds c o p -> cstep (out, c) (out, arc_clone o c)
| cs_drop out c o p : holds c o p -> cstep (out, c) (out, (consumer_drop o c).1).

(** A cache built by [DecodedCache::new] over a new pool, and what it became. *)
Definition cache_reachable (out : gmap TokenId Z) (c : DecodedCache H) : Prop :=
  exists h0 cb total max c0,
    pool_ok h0 /\ held h0 = ∅ /\ 0 <= cb /\ cache_new h0 cb total max = Ok c0
    /\ rtc cstep (∅, c0) (out, c).

(** ** Ownership

    [out] are the reservations handed to callers by [reserve_rgb] and not yet
    committed; [rf o] counts the references to [o] known so far. *)

Definition object_bytes (r : RetainedPixels) : Z := byte_len (pixels r).

Record owned (out : gmap TokenId Z) (rf : ObjId -> Z) (c : DecodedCache H) : Prop := {
  ow_pool : pool_ok (heap c);
  ow_obj : forall o r, objects c !! o = Some r ->
    held (heap c) !! reservation r = Some (object_bytes r) /\ out !! reservation r = None
    /\ o < next_obj c /\ rf o <= strong r /\ 1 <= strong r;
  ow_inj : forall o r o' r', objects c !! o = Some r -> objects c !! o' = Some r' ->
    reservation r = reservation r' -> o = o';
  ow_out : forall t n, out !! t = Some n -> held (heap c) !! t = Some n;
  ow_sum : map_sum id (held (heap c)) = map_sum object_bytes (objects c) + map_sum id out;
  ow_ref : forall o, 0 < rf o -> is_Some (objects c !! o);
}.

Record indexed (c : DecodedCache H) : Prop := {
  ix_cached : cached_bytes c = map_sum (fun e => object_len c e.1) (entries c);
  ix_limit : cached_bytes c <= cache_limit c;
  ix_max : map_len (entries c) <= max_entries c;
  ix_pos : 0 < max_entries c;
  ix_tick : forall k o t, entries c !! k = Some (o, t) -> t <= clock c;
  ix_distinct : forall k k' o o' t, entries c !! k = Some (o, t) -> entries c !! k' = Some (o', t) -> k = k';
}.

Definition wf (out : gmap TokenId Z) (c : DecodedCache H) : Prop :=
  owned out (refs c) c /\ indexed c.

Lemma owned_ext out rf rf' c : (forall o, rf' o = rf o) -> owned out rf c -> owned out rf' c.
Proof. intros He []. constructor; try done; intros *; rewrite ?He; auto. Qed.

Lemma owned_weaken out rf rf' c : (forall o, rf' o <= rf o) -> owned out rf c -> owned out rf' c.
Proof.
  intros He []. constructor; try done.
  - intros o r Ho. specialize (He o). destruct (ow_obj0 o r Ho) as (? & ? & ? & ? & ?). split_and!; try done; lia.
  - intros o Ho. apply ow_ref0. specialize (He o). lia.
Qed.

(** Fields the ownership does not read. *)
Definition same_store (c c' : DecodedCache H) : Prop :=
  heap c' = heap c /\ objects c' = objects c /\ next_obj c' = next_obj c.
Lemma owned_same out rf c c' : same_store c c' -> owned out rf c -> owned out rf c'.
Proof. intros (Hh & Ho & Hn) []. constructor; rewrite ?Hh, ?Ho, ?Hn; done. Qed.

Lemma owned_clone out rf c o :
  owned out rf c -> is_Some (objects c !! o) ->
  owned out (fun x => rf x + (if x =? o then 1 else 0)) (arc_clone o c).
Proof.
  intros Hw [r Hr]. unfold arc_clone. rewrite Hr. destruct Hw. constructor; simpl; try done.
  - intros x y [[<- <-]|[Hne Hx]]%lookup_insert_Some; simpl.
    + destruct (ow_obj0 o r Hr) as (? & ? & ? & ? & ?). rewrite Z.eqb_refl. split_and!; try done; lia.
    + destruct (ow_obj0 x y Hx) as (? & ? & ? & ? & ?).
      destruct (Z.eqb_spec x o); [congruence|]. split_and!; try done; lia.
  - intros x y x' y' Hx Hx' Heq. apply lookup_insert_Some in Hx, Hx'.
    destruct Hx as [[<- <-]|[? Hx]], Hx' as [[<- <-]|[? Hx']]; simpl in *; eauto.
  - rewrite ow_sum0. rewrite (map_sum_update _ _ _ _ _ Hr). unfold object_bytes. simpl. lia.
  - intros x Hx. apply lookup_insert_is_Some'. destruct (Z.eqb_spec x o); [by left|right].
    apply ow_ref0. lia.
Qed.

(** Dropping a reference that [rf] does not count. *)
Lemma owned_drop out rf c o r :
  owned out rf c -> objects c !! o = Some r -> 0 <= rf o < strong r ->
  owned out rf (arc_drop o c).
Proof.
  intros Hw Hr Hrf. unfold arc_drop. rewrite Hr. destruct Hw.
  destruct (ow_obj0 o r Hr) as (Hheld & Hout & Hnext & Hle & Hpos).
  destruct (Z.eqb_spec (strong r) 1) as [H1|H1].
  - destruct (pool_release_ok _ _ _ ow_pool0 Hheld) as (Hok & _ & Hdel). constructor; simpl; try done.
    + intros x y [Hne Hx]%lookup_delete_Some. destruct (ow_obj0 x y Hx) as (? & ? & ? & ? & ?).
      split_and!; try done. rewrite Hdel, lookup_delete_ne; [done|].
      intros Heq. apply Hne. exact (ow_inj0 o r x y Hr Hx Heq).
    + intros x y x' y' [_ Hx]%lookup_delete_Some [_ Hx']%lookup_delete_Some. eauto.
    + intros t n Ht. rewrite Hdel, lookup_delete_ne; [eauto|]. congruence.
    + rewrite Hdel. pose proof (map_sum_delete id _ _ _ Hheld) as E1.
      pose proof (map_sum_delete object_bytes _ _ _ Hr) as E2. unfold id in E1 at 2. lia.
    + intros x Hx. rewrite lookup_delete_ne; [eauto|]. intros <-. lia.
  - constructor; simpl; try done.
    + intros x y [[<- <-]|[Hne Hx]]%lookup_insert_Some; simpl.
      * split_and!; try done; lia.
      * destruct (ow_obj0 x y Hx) as (? & ? & ? & ? & ?). split_and!; try done; lia.
    + intros x y x' y' Hx Hx' Heq. apply lookup_insert_Some in Hx, Hx'.
      destruct Hx as [[<- <-]|[? Hx]], Hx' as [[<- <-]|[? Hx']]; simpl in *; eauto.
    + rewrite ow_sum0. rewrite (map_sum_update _ _ _ _ _ Hr). unfold object_bytes. simpl. lia.
    + intros x Hx. apply lookup_insert_is_Some'. auto.
Qed.

(** What [arc_drop] and [arc_clone] leave alone. *)
Lemma arc_drop_frame o c :
  hits (arc_drop o c) = hits c /\ misses (arc_drop o c) = misses c
  /\ cache_limit (arc_drop o c) = cache_limit c /\ max_entries (arc_drop o c) = max_entries c
  /\ cached_bytes (arc_drop o c) = cached_bytes c /\ clock (arc_drop o c) = clock c
  /\ entries (arc_drop o c) = entries c /\ next_obj (arc_drop o c) = next_obj c.
Proof. unfold arc_drop. destruct (objects c !! o) as [r|]; [destruct (strong r =? 1)|]; done. Qed.
Lemma arc_clone_frame o c :
  hits (arc_clone o c) = hits c /\ misses (arc_clone o c) = misses c
  /\ cache_limit (arc_clone o c) = cache_limit c /\ max_entries (arc_clone o c) = max_entries c
  /\ cached_bytes (arc_clone o c) = cached_bytes c /\ clock (arc_clone o c) = clock c
  /\ entries (arc_clone o c) = entries c /\ next_obj (arc_clone o c) = next_obj c
  /\ heap (arc_clone o c) = heap c.
Proof. unfold arc_clone. by destruct (objects c !! o). Qed.

(** An object keeps its pixels while it exists; only the last drop removes it. *)
Lemma arc_drop_pixels o c x r :
  objects (arc_drop o c) !! x = Some r ->
  exists r0, objects c !! x = Some r0 /\ pixels r = pixels r0.
Proof.
  unfold arc_drop. destruct (objects c !! o) as [s|] eqn:Hs; [|eauto].
  destruct (strong s =? 1); simpl.
  - intros [_ Hx]%lookup_delete_Some. eauto.
  - intros [[<- <-]|[_ Hx]]%lookup_insert_Some; eauto.
Qed.

Lemma arc_drop_keeps o c x r :
  objects c !! x = Some r -> (x = o -> strong r <> 1) ->
  exists r', objects (arc_drop o c) !! x = Some r' /\ pixels r' = pixels r
    /\ strong r' = strong r - (if x =? o then 1 else 0).
Proof.
  intros Hx Hne. unfold arc_drop. destruct (Z.eqb_spec x o) as [->|Hxo].
  - rewrite Hx. destruct (Z.eqb_spec (strong r) 1); [by destruct Hne|]. simpl.
    rewrite lookup_insert_eq. eauto.
  - exists r. rewrite Z.sub_0_r. split_and!; try done.
    destruct (objects c !! o) as [s|]; [|done].
    destruct (strong s =? 1); simpl; [by rewrite lookup_delete_ne|by rewrite lookup_insert_ne].
Qed.

Lemma object_len_clone o c x : object_len (arc_clone o c) x = object_len c x.
Proof.
  unfold object_len, arc_clone. destruct (objects c !! o) as [s|] eqn:Hs; [|done]. simpl.
  destruct (decide (o = x)) as [<-|Hne]; [by rewrite lookup_insert_eq, Hs|by rewrite lookup_insert_ne].
Qed.

(** ** The index *)

Lemma refs_lookup c k o t : entries c !! k = Some (o, t) -> 1 <= refs c o.
Proof.
  intros Hk. unfold refs, map_count.
  transitivity (count_if (fun e : ObjId * Z => e.1 =? o) (o, t)).
  - unfold count_if. simpl. by rewrite Z.eqb_refl.
  - apply (map_sum_lookup_le _ _ k); [|done]. intros j w _. unfold count_if. by case_match.
Qed.

Lemma refs_nonneg c o : 0 <= refs c o.
Proof. apply map_sum_nonneg. intros k v _. unfold count_if. by case_match. Qed.

Lemma refs_delete c c' k o t :
  entries c !! k = Some (o, t) -> entries c' = delete k (entries c) ->
  forall x, refs c' x = refs c x - (if x =? o then 1 else 0).
Proof.
  intros Hk He x. unfold refs, map_count. rewrite He, (map_sum_delete _ _ _ _ Hk).
  unfold count_if at 2. simpl. rewrite (Z.eqb_sym o x). destruct (x =? o); lia.
Qed.

Lemma refs_insert c c' k o t :
  entries c !! k = None -> entries c' = <[k := (o, t)]> (entries c) ->
  forall x, refs c' x = refs c x + (if x =? o then 1 else 0).
Proof.
  intros Hk He x. unfold refs, map_count. rewrite He, (map_sum_insert _ _ _ _ Hk).
  unfold count_if at 1. simpl. rewrite (Z.eqb_sym o x). destruct (x =? o); lia.
Qed.

(** A drop of a reference the entries do not own leaves every entry's pixels. *)
Lemma drop_len c o x rf out :
  owned out rf c -> (forall r, objects c !! o = Some r -> rf o < strong r) -> 0 < rf x ->
  object_len (arc_drop o c) x = object_len c x.
Proof.
  intros Hw Ho Hx. unfold object_len. destruct (ow_ref _ _ _ Hw x Hx) as [r Hr].
  destruct (arc_drop_keeps o c x r Hr) as (r' & -> & Hp & _).
  - intros -> H1. specialize (Ho r Hr). lia.
  - by rewrite Hr, Hp.
Qed.

Lemma indexed_drop out rf c o :
  owned out rf c -> indexed c -> (forall k e, entries c !! k = Some e -> 0 < rf e.1) ->
  (forall r, objects c !! o = Some r -> rf o < strong r) -> indexed (arc_drop o c).
Proof.
  intros Hw Hi Hrf Ho.
  destruct (arc_drop_frame o c) as (_ & _ & E1 & E2 & E3 & E4 & E5 & _).
  destruct Hi. constructor; rewrite ?E1, ?E2, ?E3, ?E4, ?E5; try done.
  rewrite ix_cached0. apply map_sum_ext. intros k e Hk. symmetry. eapply drop_len; eauto.
Qed.

Lemma wf_drop out c o :
  wf out c -> (forall r, objects c !! o = Some r -> refs c o < strong r) -> wf out (arc_drop o c).
Proof.
  intros [Hw Hi] Ho. split.
  - destruct (arc_drop_frame o c) as (_ & _ & _ & _ & _ & _ & E & _).
    apply (owned_ext _ (refs c)); [intros x; unfold refs; by rewrite E|].
    destruct (objects c !! o) as [r|] eqn:Hr.
    + apply (owned_drop _ _ _ _ r); [done..|]. split; [apply refs_nonneg|by apply Ho].
    + unfold arc_drop. by rewrite Hr.
  - apply (indexed_drop out (refs c)); try done. intros k [x t] Hk. simpl.
    pose proof (refs_lookup _ _ _ _ Hk). lia.
Qed.

Lemma wf_detach out c k o t :
  wf out c -> entries c !! k = Some (o, t) -> wf out (detach k o c).
Proof.
  intros [Hw Hi] Hk. unfold detach.
  set (c1 := set_cached_bytes _ _).
  pose proof (refs_delete c c1 k o t Hk eq_refl) as Href.
  pose proof (refs_lookup _ _ _ _ Hk) as Hpos.
  assert (owned out (refs c1) c1) as Hw1.
  { apply (owned_same _ _ c); [done|]. apply (owned_weaken _ (refs c)); [|done].
    intros x. rewrite Href. case_match; lia. }
  apply wf_drop; [split; [done|]|].
  - destruct Hi. constructor; simpl; try done.
    + change (fun e : ObjId * Z => object_len c1 e.1) with (fun e : ObjId * Z => object_len c e.1).
      rewrite ix_cached0, (map_sum_delete _ _ _ _ Hk). simpl. lia.
    + assert (0 <= object_len c o); [|lia]. unfold object_len. case_match; [unfold byte_len|]; lia.
    + rewrite map_len_delete by eauto. lia.
    + intros j x u [_ Hj]%lookup_delete_Some. eauto.
    + intros j j' x x' u [_ Hj]%lookup_delete_Some [_ Hj']%lookup_delete_Some. eauto.
  - intros r Hr. destruct (ow_obj _ _ _ Hw o r Hr) as (_ & _ & _ & Hle & _).
    rewrite Href, Z.eqb_refl. lia.
Qed.

Lemma detach_frame k o c :
  hits (detach k o c) = hits c /\ misses (detach k o c) = misses c
  /\ cache_limit (detach k o c) = cache_limit c /\ max_entries (detach k o c) = max_entries c
  /\ clock (detach k o c) = clock c /\ entries (detach k o c) = delete k (entries c)
  /\ next_obj (detach k o c) = next_obj c.
Proof.
  unfold detach. destruct (arc_drop_frame o (set_cached_bytes (cached_bytes c - object_len c o)
    (set_entries (delete k (entries c)) c))) as (E1 & E2 & E3 & E4 & _ & E6 & E7 & E8).
  by rewrite E1, E2, E3, E4, E6, E7, E8.
Qed.

(** A new entry for a live object, at a tick later than every other. *)
Lemma wf_attach out c k o t n r :
  wf out c -> objects c !! o = Some r -> n = object_bytes r -> entries c !! k = None ->
  clock c = t -> (forall j x u, entries c !! j = Some (x, u) -> u < t) ->
  cached_bytes c + n <= cache_limit c -> map_len (entries c) < max_entries c ->
  wf out (arc_clone o (set_entries (<[k := (o, t)]> (entries c)) (set_cached_bytes (cached_bytes c + n) c))).
Proof.
  intros [Hw Hi] Hr -> Hk Ht Hnew Hlim Hmax. set (c1 := set_entries _ _).
  destruct (arc_clone_frame o c1) as (_ & _ & E1 & E2 & E3 & E4 & E5 & _).
  split.
  - apply (owned_ext _ (fun x => refs c x + (if x =? o then 1 else 0))).
    + intros x. unfold refs at 1. rewrite E5. exact (refs_insert c c1 k o t Hk eq_refl x).
    + change (refs c) with (refs c). apply owned_clone; [|simpl; eauto]. by apply (owned_same _ _ c).
  - destruct Hi. constructor; rewrite ?E1, ?E2, ?E3, ?E4, ?E5; simpl; try done.
    + rewrite (map_sum_ext _ (fun e => object_len c e.1))
        by (intros j e _; exact (object_len_clone o c1 e.1)).
      rewrite map_sum_insert by done. simpl. unfold object_len at 1. rewrite Hr.
      unfold object_bytes. lia.
    + rewrite map_len_insert by done. lia.
    + intros j x u [[<- [= <- <-]]|[_ Hj]]%lookup_insert_Some; [lia|eauto].
    + intros j j' x x' u Hj Hj'. apply lookup_insert_Some in Hj, Hj'.
      destruct Hj as [[<- Hx]|[_ Hj]], Hj' as [[<- Hx']|[_ Hj']]; simplify_eq; eauto.
      * apply Hnew in Hj'. lia.
      * apply Hnew in Hj. lia.
Qed.

(** ** Operations keep the invariant *)

(** Only the access counters and the clock moved. *)
Lemma wf_counters out c c' :
  same_store c c' -> entries c' = entries c -> cached_bytes c' = cached_bytes c ->
  cache_limit c' = cache_limit c -> max_entries c' = max_entries c -> clock c <= clock c' ->
  wf out c -> wf out c'.
Proof.
  intros Hs He Hb Hl Hm Ht [Hw Hi]. split.
  - apply (owned_ext _ (refs c)); [intros x; unfold refs; by rewrite He|]. by apply (owned_same _ _ c).
  - destruct Hi. constructor; rewrite ?He, ?Hb, ?Hl, ?Hm; try done.
    + rewrite ix_cached0. apply map_sum_ext. intros k e _. unfold object_len.
      by destruct Hs as (_ & -> & _).
    + intros k o t Hk. specialize (ix_tick0 k o t Hk). lia.
Qed.

(** Entries went away; what consumers hold stayed. *)
Record shrunk (c c' : DecodedCache H) : Prop := {
  sh_entries : entries c' ⊆ entries c;
  sh_limits : cache_limit c' = cache_limit c /\ max_entries c' = max_entries c;
  sh_clock : clock c' = clock c;
  sh_counts : hits c' = hits c /\ misses c' = misses c;
  sh_consumers : forall o r, objects c !! o = Some r -> refs c o < strong r ->
    exists r', objects c' !! o = Some r' /\ pixels r' = pixels r
      /\ strong r' - refs c' o = strong r - refs c o;
}.

Lemma shrunk_refl c : shrunk c c.
Proof. constructor; [done..|]. intros o r Hr _. by exists r. Qed.
Lemma shrunk_trans c1 c2 c3 : shrunk c1 c2 -> shrunk c2 c3 -> shrunk c1 c3.
Proof.
  intros [] []. constructor; try congruence; try intuition congruence.
  - by etrans.
  - intros o r Hr Hlt. destruct (sh_consumers0 o r Hr Hlt) as (r' & Hr' & Hp & Hs).
    destruct (sh_consumers1 o r' Hr' ltac:(lia)) as (r'' & Hr'' & Hp' & Hs').
    exists r''. split_and!; [done|congruence|lia].
Qed.

Lemma shrunk_heap c h : shrunk c (set_heap h c).
Proof. constructor; [done..|]. intros o r Hr _. by exists r. Qed.

Lemma shrunk_detach c k o t : entries c !! k = Some (o, t) -> shrunk c (detach k o c).
Proof.
  intros Hk. destruct (detach_frame k o c) as (E1 & E2 & E3 & E4 & E5 & E6 & _).
  constructor; [rewrite E6; apply delete_subseteq|done..|].
  intros x r Hr Hlt. pose proof (refs_delete _ _ _ _ _ Hk E6 x) as Hx.
  pose proof (refs_lookup _ _ _ _ Hk) as Hpos. unfold detach in *.
  set (c1 := set_cached_bytes _ _) in *.
  destruct (arc_drop_keeps o c1 x r Hr) as (r' & Hr' & Hp & Hs); [intros ->; lia|].
  exists r'. split_and!; [done..|]. rewrite Hx, Hs. lia.
Qed.

(** The victim is the least recently used entry. *)
Definition is_lru (c : DecodedCache H) (k : string) : Prop :=
  exists o t, entries c !! k = Some (o, t)
    /\ forall j x u, entries c !! j = Some (x, u) -> j <> k -> t < u.

Lemma lru_entry_None m : lru_entry m = None <-> m = ∅.
Proof. unfold lru_entry. by rewrite min_by_None, map_to_list_empty_iff. Qed.

Lemma lru_entry_Some c k o t :
  indexed c -> lru_entry (entries c) = Some (k, (o, t)) -> entries c !! k = Some (o, t) /\ is_lru c k.
Proof.
  intros Hi Hm. destruct (min_by_Some _ _ _ Hm) as [Hin Hmin].
  apply elem_of_map_to_list in Hin. split; [done|]. exists o, t. split; [done|].
  intros j x u Hj Hne. specialize (Hmin (j, (x, u))). rewrite elem_of_map_to_list in Hmin.
  specialize (Hmin Hj). unfold asc_on in Hmin. simpl in Hmin.
  assert (t <> u); [|lia]. intros ->. apply Hne. by eapply (ix_distinct _ Hi).
Qed.

Lemma evict_run out c :
  wf out c ->
  (entries c = ∅ /\ evict_one c = (c, Ok false))
  \/ exists k o t, entries c !! k = Some (o, t) /\ is_lru c k
       /\ evict_one c = (detach k o c, Ok true)
       /\ wf out (detach k o c) /\ shrunk c (detach k o c)
       /\ size (entries c) = S (size (entries (detach k o c))).
Proof.
  intros Hw. unfold evict_one, bind, get, put, ret.
  destruct (lru_entry (entries c)) as [[k [o t]]|] eqn:Hl.
  - right. exists k, o, t. destruct (lru_entry_Some _ _ _ _ (proj2 Hw) Hl) as [Hk Hlru].
    split_and!; try done.
    + by apply (wf_detach _ _ _ _ t).
    + by apply (shrunk_detach _ _ _ t).
    + destruct (detach_frame k o c) as (_ & _ & _ & _ & _ & -> & _).
      pose proof (map_len_delete (entries c) k ltac:(eauto)) as Hs. unfold map_len in Hs. lia.
  - left. apply lru_entry_None in Hl. by rewrite Hl.
Qed.

(** A fresh reservation joins [out]. *)
Lemma wf_reserve out c n h' t :
  wf out c -> is_u64 n -> pool_try_reserve n (heap c) = (h', Some t) ->
  out !! t = None /\ wf (<[t := n]> out) (set_heap h' c).
Proof.
  intros [Hw Hi] Hn Hres. destruct Hw as [Hok Hobj Hinj Hout Hsum Href].
  destruct (pool_reserve_some _ _ _ _ Hok Hn Hres) as (Hok' & _ & Hnew & Hh).
  assert (out !! t = None) as Ht.
  { destruct (out !! t) eqn:E; [|done]. apply Hout in E. congruence. }
  split; [done|]. split; [|by destruct Hi; constructor].
  constructor; simpl; try done.
  - intros o r Ho. destruct (Hobj o r Ho) as (? & ? & ? & ? & ?).
    assert (t <> reservation r) by congruence.
    rewrite Hh, !lookup_insert_ne by done. by split_and!.
  - intros u m [[<- <-]|[Hne Hu]]%lookup_insert_Some; rewrite Hh; [apply lookup_insert_eq|].
    rewrite lookup_insert_ne by done. auto.
  - rewrite Hh, !map_sum_insert by done. lia.
Qed.

(** Dropping a raw reservation. *)
Lemma wf_release out c n t :
  wf out c -> out !! t = Some n -> wf (delete t out) (set_heap (pool_release t (heap c)) c).
Proof.
  intros [Hw Hi] Ht. destruct Hw as [Hok Hobj Hinj Hout Hsum Href].
  destruct (pool_release_ok _ _ _ Hok (Hout _ _ Ht)) as (Hok' & _ & Hh).
  split; [|by destruct Hi; constructor].
  constructor; simpl; try done.
  - intros o r Ho. destruct (Hobj o r Ho) as (? & ? & ? & ? & ?).
    assert (t <> reservation r) by congruence.
    rewrite Hh, !lookup_delete_ne by done. by split_and!.
  - intros u m [Hne Hu]%lookup_delete_Some. rewrite Hh, lookup_delete_ne by done. auto.
  - rewrite Hh. rewrite (map_sum_delete id _ _ _ (Hout _ _ Ht)) in Hsum.
    rewrite (map_sum_delete id out _ _ Ht) in Hsum. lia.
Qed.

(** [Arc::new] turns a raw reservation into an object. *)
Lemma wf_retain out c p t :
  wf out c -> out !! t = Some (byte_len p) ->
  exists c', retain p t c = (c', Ok (next_obj c)) /\ wf (delete t out) c'
    /\ objects c' = <[next_obj c := mkRetained p t 1]> (objects c)
    /\ refs c' (next_obj c) = 0
    /\ entries c' = entries c /\ cached_bytes c' = cached_bytes c
    /\ cache_limit c' = cache_limit c /\ max_entries c' = max_entries c
    /\ clock c' = clock c /\ hits c' = hits c /\ misses c' = misses c.
Proof.
  intros [Hw Hi] Ht. eexists. split; [reflexivity|]. set (c' := mkCache _ _ _ _ _ _ _ _ _ _).
  assert (objects c !! next_obj c = None) as Hfresh.
  { destruct (objects c !! next_obj c) eqn:E; [|done].
    destruct (ow_obj _ _ _ Hw _ _ E) as (_ & _ & ? & _). lia. }
  assert (refs c (next_obj c) = 0) as Hzero.
  { destruct (Z.eq_dec (refs c (next_obj c)) 0); [done|].
    destruct (ow_ref _ _ _ Hw (next_obj c)) as [? ?]; [pose proof (refs_nonneg c (next_obj c)); lia|congruence]. }
  split_and!; try done.
  destruct Hw as [Hok Hobj Hinj Hout Hsum Href]. split.
  - constructor; simpl; try done.
    + intros o r [[<- <-]|[Hne Ho]]%lookup_insert_Some; simpl.
      * change (refs c' (next_obj c)) with (refs c (next_obj c)).
        split_and!; [by apply Hout|apply lookup_delete_eq|lia..].
      * destruct (Hobj o r Ho) as (? & ? & ? & ? & ?). assert (t <> reservation r) by congruence.
        rewrite lookup_delete_ne by done. split_and!; [done..|lia|done|done].
    + intros o r o' r' Ho Ho' Heq. apply lookup_insert_Some in Ho, Ho'.
      destruct Ho as [[<- <-]|[? Ho]], Ho' as [[<- <-]|[? Ho']]; simpl in *; eauto.
      * destruct (Hobj _ _ Ho') as (_ & ? & _). congruence.
      * destruct (Hobj _ _ Ho) as (_ & ? & _). congruence.
    + intros u m [_ Hu]%lookup_delete_Some. auto.
    + rewrite map_sum_insert by done. rewrite (map_sum_delete id out _ _ Ht) in Hsum.
      unfold object_bytes at 1. simpl. unfold id in Hsum at 2. lia.
    + intros o Ho. apply lookup_insert_is_Some'. right. by apply Href.
  - destruct Hi. constructor; simpl; try done. rewrite ix_cached0. apply map_sum_ext.
    intros k [o u] Hk. unfold object_len. simpl. rewrite lookup_insert_ne; [done|].
    intros <-. pose proof (refs_lookup _ _ _ _ Hk). lia.
Qed.

Lemma holds_shrunk c c' o p : shrunk c c' -> holds c o p -> holds c' o p.
Proof.
  intros Hs (r & Hr & Hp & Hlt). destruct (sh_consumers _ _ Hs o r Hr Hlt) as (r' & ? & ? & ?).
  exists r'. split_and!; [done|congruence|lia].
Qed.

Lemma holds_same c c' o p :
  objects c' = objects c -> entries c' = entries c -> holds c o p -> holds c' o p.
Proof. intros Ho He (r & Hr & Hp & Hlt). exists r. unfold refs. rewrite Ho, He. done. Qed.

Lemma reserve_loop_run fuel out c n :
  wf out c -> is_u64 n -> (size (entries c) < fuel)%nat ->
  exists c' r, reserve_loop fuel n c = (c', r) /\ shrunk c c' /\ match r with
  | Ok t => out !! t = None /\ wf (<[t := n]> out) c'
  | Err e => e = DecodedBudgetExceeded /\ wf out c' /\ entries c' = ∅
             /\ pool_limit (heap c') < pool_used (heap c') + n
  end.
Proof.
  revert c. induction fuel as [|fuel IH]; intros c Hw Hn Hf; [lia|].
  cbn [reserve_loop]. unfold bind at 1, get.
  destruct (pool_try_reserve n (heap c)) as [h' [t|]] eqn:Hres.
  - destruct (wf_reserve _ _ _ _ _ Hw Hn Hres) as [Hnone Hw']. do 2 eexists. split; [reflexivity|].
    split; [apply shrunk_heap|done].
  - destruct (pool_reserve_none _ _ _ (ow_pool _ _ _ (proj1 Hw)) Hn Hres) as [-> Hfull].
    assert (set_heap (heap c) c = c) as Hid by (by destruct c).
    unfold bind at 1, put. rewrite Hid.
    destruct (evict_run out c Hw) as [[He Hev]|(k & o & t & Hk & _ & Hev & Hw' & Hs & Hsz)].
    + rewrite (bind_ok _ _ _ _ _ Hev). do 2 eexists. split; [reflexivity|].
      split; [apply shrunk_refl|done].
    + rewrite (bind_ok _ _ _ _ _ Hev).
      destruct (IH _ Hw' Hn ltac:(lia)) as (c' & r & Hrun & Hs' & Hr).
      exists c', r. split; [done|]. split; [exact (shrunk_trans _ _ _ Hs Hs')|done].
Qed.

Lemma make_room_run fuel out c n :
  wf out c -> n <= cache_limit c -> (size (entries c) < fuel)%nat ->
  exists c', make_room fuel n c = (c', Ok tt) /\ shrunk c c' /\ wf out c'
    /\ cached_bytes c' + n <= cache_limit c' /\ map_len (entries c') < max_entries c'.
Proof.
  revert c. induction fuel as [|fuel IH]; intros c Hw Hn Hf; [lia|].
  cbn [make_room]. unfold bind at 1, get.
  destruct ((cache_limit c - n <? cached_bytes c) || (max_entries c <=? map_len (entries c))) eqn:Hb.
  - destruct (evict_run out c Hw) as [[He Hev]|(k & o & t & Hk & _ & Hev & Hw' & Hs & Hsz)].
    + exfalso. destruct Hw as [_ Hi]. pose proof (ix_cached _ Hi) as Hc. pose proof (ix_pos _ Hi).
      rewrite He, map_sum_empty in Hc. rewrite He, map_len_empty in Hb. lia.
    + rewrite (bind_ok _ _ _ _ _ Hev).
      destruct (sh_limits _ _ Hs) as [Hl _].
      destruct (IH _ Hw' ltac:(lia) ltac:(lia)) as (c' & Hrun & Hs' & Hr).
      exists c'. split; [done|]. split; [exact (shrunk_trans _ _ _ Hs Hs')|done].
  - exists c. split; [done|]. split; [apply shrunk_refl|]. split; [done|]. lia.
Qed.

Lemma tick_run out c :
  wf out c ->
  (exists c', tick c = (c', Ok (clock c + 1)) /\ c' = set_clock (clock c + 1) c
     /\ wf out c' /\ forall k o t, entries c' !! k = Some (o, t) -> t < clock c + 1)
  \/ tick c = (c, Err (CacheMessage "LRU clock overflow")).
Proof.
  intros Hw. unfold tick, bind, get, of_option, put, ret.
  destruct (checked_add (clock c) 1) as [n|] eqn:Hn; [|by right]. left.
  apply checked_add_Some in Hn as [-> _]. eexists. split; [reflexivity|]. split; [done|]. split.
  - apply (wf_counters _ c); try done. simpl. lia.
  - simpl. intros k o t Hk. pose proof (ix_tick _ (proj2 Hw) _ _ _ Hk). lia.
Qed.

(** The insertion at the end of [commit_rgb] and [decode]. *)
Lemma insert_run out c key o n p :
  wf out c -> holds c o p -> n = byte_len p -> entries c !! key = None ->
  (forall j x u, entries c !! j = Some (x, u) -> u < clock c) ->
  cached_bytes c + n <= cache_limit c -> map_len (entries c) < max_entries c ->
  exists c', insert_entry key o n (clock c) c = (c', Ok tt) /\ wf out c' /\ holds c' o p
    /\ entries c' !! key = Some (o, clock c).
Proof.
  intros Hw (r & Hr & Hp & Hlt) -> Hk Hnew Hlim Hmax. eexists. split; [reflexivity|].
  set (c1 := set_entries _ _). destruct (arc_clone_frame o c1) as (_ & _ & _ & _ & _ & _ & E & _).
  split_and!.
  - apply (wf_attach _ _ _ _ _ _ r); try done. unfold object_bytes. by rewrite Hp.
  - exists (mkRetained (pixels r) (reservation r) (strong r + 1)). split_and!; [|done|].
    + unfold arc_clone. simpl. rewrite Hr. simpl. apply lookup_insert_eq.
    + simpl. unfold refs. rewrite E. pose proof (refs_insert c c1 key o (clock c) Hk eq_refl o) as Hx.
      rewrite Z.eqb_refl in Hx. unfold refs in *. lia.
  - rewrite E. apply lookup_insert_eq.
Qed.

(** A failure after the object exists gives its reference back. *)
Lemma dropping_err {A} (m : CacheM A) o c c' e :
  m c = (c', Err e) -> dropping o m c = (arc_drop o c', Err e).
Proof. intros Hm. unfold dropping, bind, try. by rewrite Hm. Qed.
Lemma dropping_ok {A} (m : CacheM A) o c c' a :
  m c = (c', Ok a) -> dropping o m c = (c', Ok a).
Proof. intros Hm. unfold dropping, bind, try. by rewrite Hm. Qed.

Lemma wf_drop_held out c o p : wf out c -> holds c o p -> wf out (arc_drop o c).
Proof. intros Hw (r & Hr & _ & Hlt). apply wf_drop; [done|]. intros r'. rewrite Hr. by intros [= <-]. Qed.

Lemma remove_old_run out c key :
  wf out c -> exists c', remove_old key c = (c', Ok tt) /\ wf out c' /\ shrunk c c'
    /\ entries c' = delete key (entries c) /\ cached_bytes c' <= cached_bytes c.
Proof.
  intros Hw. unfold remove_old, bind, get. destruct (entries c !! key) as [[o t]|] eqn:Hk.
  - eexists. split; [reflexivity|]. split_and!.
    + by apply (wf_detach _ _ _ _ t).
    + by apply (shrunk_detach _ _ _ t).
    + apply detach_frame.
    + unfold detach. set (c1 := set_cached_bytes _ _).
      destruct (arc_drop_frame o c1) as (_ & _ & _ & _ & -> & _). simpl.
      assert (0 <= object_len c o); [|lia]. unfold object_len. case_match; [unfold byte_len|]; lia.
  - exists c. split_and!; try done; [apply shrunk_refl|by rewrite delete_id].
Qed.

Lemma place_run out c key o n p :
  wf out c -> holds c o p -> n = byte_len p -> n <= cache_limit c ->
  exists c' r, place key o n c = (c', r) /\ wf out c' /\ holds c' o p /\ match r with
  | Ok _ => exists t, entries c' !! key = Some (o, t)
  | Err e => e = CacheMessage "LRU clock overflow"
  end.
Proof.
  intros Hw Hh Hn Hle. unfold place, bind at 1, get.
  destruct (make_room_run (S (size (entries c))) out c n Hw Hle ltac:(lia))
    as (c1 & Hrun & Hs & Hw1 & Hroom & Hlen).
  rewrite (bind_ok _ _ _ _ _ Hrun). pose proof (holds_shrunk _ _ _ _ Hs Hh) as Hh1.
  destruct (tick_run out c1 Hw1) as [(c2 & Ht & -> & Hw2 & Hlt)|Ht].
  - rewrite (bind_ok _ _ _ _ _ Ht). set (c2 := set_clock _ c1) in *.
    assert (holds c2 o p) as Hh2 by exact (holds_same c1 c2 o p eq_refl eq_refl Hh1).
    destruct (remove_old_run out c2 key Hw2) as (c3 & Hro & Hw3 & Hs3 & He3 & Hb3).
    rewrite (bind_ok _ _ _ _ _ Hro). pose proof (holds_shrunk _ _ _ _ Hs3 Hh2) as Hh3.
    assert (clock c3 = clock c1 + 1) as Hck by (by rewrite (sh_clock _ _ Hs3)).
    destruct (sh_limits _ _ Hs3) as [Hl3 Hm3].
    assert (map_len (entries c3) <= map_len (entries c1)) as Hlen3.
    { rewrite He3. change (entries c2) with (entries c1).
      destruct (entries c1 !! key) eqn:Ek; [rewrite map_len_delete by eauto; lia|by rewrite delete_id]. }
    destruct (insert_run out c3 key o n p Hw3 Hh3 Hn) as (c4 & Hi & Hw4 & Hh4 & He4).
    + rewrite He3. apply lookup_delete_eq.
    + intros j x u Hj. rewrite Hck. apply (Hlt j x u). rewrite He3 in Hj.
      by apply lookup_delete_Some in Hj as [_ Hj].
    + rewrite Hl3. change (cache_limit c2) with (cache_limit c1).
      change (cached_bytes c2) with (cached_bytes c1) in Hb3. lia.
    + rewrite Hm3. change (max_entries c2) with (max_entries c1). lia.
    + rewrite <-Hck, Hi. exists c4, (Ok tt). split_and!; eauto.
  - rewrite (bind_err _ _ _ _ _ Ht). exists c1, (Err (CacheMessage "LRU clock overflow")).
    split_and!; done.
Qed.

(** Without an entry under [key] the replacement step does nothing. *)
Lemma place_missing_eq out c key o n :
  wf out c -> entries c !! key = None -> n <= cache_limit c ->
  place_missing key o n c = place key o n c.
Proof.
  intros Hw Hk Hle. unfold place, place_missing, bind at 1 4, get.
  destruct (make_room_run (S (size (entries c))) out c n Hw Hle ltac:(lia))
    as (c1 & Hrun & Hs & Hw1 & _).
  rewrite !(bind_ok _ _ _ _ _ Hrun).
  destruct (tick_run out c1 Hw1) as [(c2 & Ht & -> & _)|Ht].
  - rewrite !(bind_ok _ _ _ _ _ Ht).
    assert (remove_old key (set_clock (clock c1 + 1) c1) = (set_clock (clock c1 + 1) c1, Ok tt)) as Hr.
    { unfold remove_old, bind, get. simpl.
      destruct (entries c1 !! key) as [[x u]|] eqn:E; [|done].
      pose proof (lookup_weaken _ _ _ _ E (sh_entries _ _ Hs)). congruence. }
    by rewrite (bind_ok _ _ _ _ _ Hr).
  - by rewrite !(bind_err _ _ _ _ _ Ht).
Qed.

(** What a call that installs pixels promises: the reservation is consumed on
    every path, and the object is held by the caller with those pixels. *)
Definition installed (out : gmap TokenId Z) (key : string) (p : PreparedRgb) (n : Z)
    (c c' : DecodedCache H) (r : result CacheError ObjId) : Prop :=
  wf out c' /\
  match r with
  | Ok o => holds c' o p /\ (n <= cache_limit c -> exists u, entries c' !! key = Some (o, u))
  | Err e => e = CacheMessage "LRU clock overflow"
  end.

Lemma install_run insertion out c key p t n :
  wf out c -> out !! t = Some n -> n = byte_len p ->
  (forall o c', wf (delete t out) c' -> entries c' = entries c -> n <= cache_limit c' ->
     insertion o c' = place key o n c') ->
  exists c' r, install insertion p t n c = (c', r) /\ installed (delete t out) key p n c c' r.
Proof.
  intros Hw Ht -> Hins. destruct (wf_retain out c p t Hw Ht)
    as (c1 & Hr & Hw1 & Ho & Hz & He & _ & Hl & _).
  unfold install, installed. rewrite (bind_ok _ _ _ _ _ Hr). unfold bind at 1, get.
  assert (holds c1 (next_obj c) p) as Hh.
  { eexists. rewrite Ho, lookup_insert_eq. split; [done|]. split; [done|]. simpl. lia. }
  rewrite Hl. destruct (Z.leb_spec (byte_len p) (cache_limit c)) as [Hle|Hgt].
  - destruct (place_run _ _ key _ _ p Hw1 Hh eq_refl ltac:(lia)) as (c2 & r & Hp & Hw2 & Hh2 & Hres).
    rewrite <-(Hins _ c1 Hw1 He ltac:(lia)) in Hp. destruct r as [[]|e].
    + rewrite (bind_ok _ _ _ _ _ (dropping_ok _ _ _ _ _ Hp)).
      exists c2, (Ok (next_obj c)). split_and!; eauto.
    + rewrite (bind_err _ _ _ _ _ (dropping_err _ _ _ _ _ Hp)).
      do 2 eexists. split; [reflexivity|]. split; [by eapply wf_drop_held|done].
  - rewrite (bind_ok _ _ _ c1 tt) by done.
    exists c1, (Ok (next_obj c)). split_and!; [done..|lia].
Qed.

(** ** The public operations *)

Lemma commit_run out c key p t m :
  wf out c -> out !! t = Some m ->
  exists c' r, commit_rgb key p t c = (c', r) /\
  ((m = byte_len p /\ installed (delete t out) key p m c c' r)
   \/ (m <> byte_len p /\ wf (delete t out) c' /\ r = Err (CacheMessage "decoded reservation identity/length"))).
Proof.
  intros Hw Ht. unfold commit_rgb, bind at 1, get.
  rewrite (ow_out _ _ _ (proj1 Hw) _ _ Ht).
  case_bool_decide as Heq; [injection Heq as ->|].
  - destruct (install_run (fun o => place key o (byte_len p)) out c key p t (byte_len p) Hw Ht eq_refl)
      as (c' & r & Hrun & Hi); [done|]. exists c', r. split; [done|]. by left.
  - do 2 eexists. split; [reflexivity|]. right. split; [congruence|]. split; [|done].
    by apply (wf_release _ _ m).
Qed.

Lemma reserve_rgb_run out c w h :
  wf out c ->
  exists c' r, reserve_rgb w h c = (c', r) /\ shrunk c c' /\
  match r with
  | Ok t => rgb_bytes w h = Ok (w * h * 3) /\ out !! t = None /\ wf (<[t := w * h * 3]> out) c'
  | Err DecodedBudgetExceeded => rgb_bytes w h = Ok (w * h * 3) /\ wf out c' /\ entries c' = ∅
       /\ pool_limit (heap c') < pool_used (heap c') + w * h * 3
  | Err e => c' = c /\ exists m, rgb_bytes w h = Err m /\ e = CacheMessage m
  end.
Proof.
  intros Hw. unfold reserve_rgb, lift_string. destruct (rgb_bytes w h) as [n|m] eqn:Hb.
  - assert (n = w * h * 3 /\ is_u64 n) as [-> Hn].
    { unfold rgb_bytes in Hb. destruct (_ && _ && _ && _) eqn:Hd; [|discriminate Hb].
      destruct (checked_mul w h) as [q|] eqn:Hq; [|discriminate Hb].
      destruct (checked_mul q 3) as [z|] eqn:Hz; [|discriminate Hb]. injection Hb as <-.
      apply checked_mul_Some in Hq as [-> _], Hz as [-> Hz]. unfold is_u64. nia. }
    unfold bind at 1, ret, reserve_evicting, bind at 1, get.
    destruct (reserve_loop_run (S (size (entries c))) out c _ Hw Hn ltac:(lia)) as (c' & r & Hrun & Hs & Hr).
    exists c', r. split; [done|]. split; [done|]. destruct r as [t|e]; [by split|].
    destruct Hr as (-> & Hr). by split.
  - exists c, (Err (CacheMessage m)). split_and!; [done|apply shrunk_refl|done|eauto].
Qed.

(** Refreshing the tick of an entry. *)
Lemma wf_touch out c key o u t :
  wf out c -> entries c !! key = Some (o, u) -> t = clock c ->
  (forall j x v, entries c !! j = Some (x, v) -> v < t) ->
  wf out (set_entries (<[key := (o, t)]> (entries c)) c).
Proof.
  intros [Hw Hi] Hk -> Hnew. set (c1 := set_entries _ _). split.
  - apply (owned_ext _ (refs c)); [|by apply (owned_same _ _ c)].
    intros x. unfold refs, map_count. simpl. rewrite (map_sum_update _ _ _ _ _ Hk).
    unfold count_if at 1 2. simpl. lia.
  - destruct Hi. constructor; simpl; try done.
    + change (fun e : ObjId * Z => object_len c1 e.1) with (fun e : ObjId * Z => object_len c e.1).
      rewrite (map_sum_update _ _ _ _ _ Hk). simpl. lia.
    + rewrite map_len_update by eauto. done.
    + intros j x v [[<- Hx]|[_ Hj]]%lookup_insert_Some; simplify_eq; [lia|eauto].
    + intros j j' x x' v Hj Hj'. apply lookup_insert_Some in Hj, Hj'.
      destruct Hj as [[<- Hx]|[_ Hj]], Hj' as [[<- Hx']|[_ Hj']]; simplify_eq; eauto.
      * apply Hnew in Hj'. lia.
      * apply Hnew in Hj. lia.
Qed.

(** A consumer takes a reference. *)
Lemma wf_clone out c o r :
  wf out c -> objects c !! o = Some r ->
  wf out (arc_clone o c) /\ holds (arc_clone o c) o (pixels r).
Proof.
  intros [Hw Hi] Hr. destruct (arc_clone_frame o c) as (_ & _ & E1 & E2 & E3 & E4 & E5 & _).
  assert (forall x, refs (arc_clone o c) x = refs c x) as Href by (intros x; unfold refs; by rewrite E5).
  split; [split|].
  - apply (owned_weaken _ (fun x => refs c x + (if x =? o then 1 else 0))).
    + intros x. rewrite Href. case_match; lia.
    + apply owned_clone; [done|eauto].
  - destruct Hi. constructor; rewrite ?E1, ?E2, ?E3, ?E4, ?E5; try done.
    rewrite ix_cached0. apply map_sum_ext. intros k e _. by rewrite object_len_clone.
  - exists (mkRetained (pixels r) (reservation r) (strong r + 1)). rewrite Href.
    destruct (ow_obj _ _ _ Hw o r Hr) as (_ & _ & _ & ? & _). split_and!; [|done|simpl; lia].
    unfold arc_clone. rewrite Hr. simpl. apply lookup_insert_eq.
Qed.

(** The outcome of a lookup: the entry's own object, or nothing changed but the
    clock. *)
Lemma get_run out c key :
  wf out c ->
  exists c' r, cache_get key c = (c', r) /\ wf out c' /\ cache_limit c' = cache_limit c /\
  match r with
  | Ok (Some o) => exists t rt, entries c !! key = Some (o, t) /\ objects c !! o = Some rt
                   /\ holds c' o (pixels rt)
  | Ok None => entries c !! key = None /\ c' = set_clock (clock c + 1) c
  | Err e => e = CacheMessage "LRU clock overflow" /\ c' = c
  end.
Proof.
  intros Hw. unfold cache_get.
  destruct (tick_run out c Hw) as [(c1 & Ht & -> & Hw1 & Hlt)|Ht].
  - rewrite (bind_ok _ _ _ _ _ Ht). unfold bind at 1, get. simpl.
    destruct (entries c !! key) as [[o u]|] eqn:Hk.
    + set (c1 := set_clock _ c) in *.
      assert (wf out (set_entries (<[key := (o, clock c + 1)]> (entries c1)) c1)) as Hw2
        by (by apply (wf_touch _ _ _ _ u)).
      destruct (ow_ref _ _ _ (proj1 Hw) o) as [rt Hrt]; [pose proof (refs_lookup _ _ _ _ Hk); lia|].
      destruct (wf_clone out _ o rt Hw2 Hrt) as [Hw3 Hh].
      do 2 eexists. split; [reflexivity|]. split; [done|]. split.
      * unfold arc_clone. simpl. by rewrite Hrt.
      * exists u, rt. done.
    + do 2 eexists. split; [reflexivity|]. split_and!; done.
  - rewrite (bind_err _ _ _ _ _ Ht). do 2 eexists. split; [reflexivity|]. split_and!; done.
Qed.

Lemma wf_hits out c v : wf out c -> wf out (set_hits v c).
Proof. apply wf_counters; try done. Qed.
Lemma wf_misses out c v : wf out c -> wf out (set_misses v c).
Proof. apply wf_counters; try done. Qed.

Lemma lookup_run out c key :
  wf out c -> exists c' r, managed_lookup key c = (c', r) /\ wf out c' /\
  match r with
  | Ok (Some o) => exists t rt, entries c !! key = Some (o, t) /\ objects c !! o = Some rt
                   /\ holds c' o (pixels rt)
  | Ok None => entries c !! key = None
  | Err e => e <> OutOfFuel
  end.
Proof.
  intros Hw. unfold managed_lookup. destruct (valid_key key); simpl;
    [|do 2 eexists; split; [reflexivity|]; done].
  rewrite (bind_ok _ _ c c tt eq_refl).
  destruct (get_run out c key Hw) as (c1 & r & Hg & Hw1 & _ & Hr).
  destruct r as [[o|]|e].
  - rewrite (bind_ok _ _ _ _ _ Hg). do 2 eexists. split; [reflexivity|]. split; [by apply wf_hits|].
    destruct Hr as (t & rt & Hk & Ho & Hh). exists t, rt. split_and!; try done.
  - rewrite (bind_ok _ _ _ _ _ Hg). do 2 eexists. split; [reflexivity|]. split; [by apply wf_misses|].
    by destruct Hr.
  - rewrite (bind_err _ _ _ _ _ Hg). do 2 eexists. split; [reflexivity|]. split; [done|].
    by destruct Hr as [-> _].
Qed.

(** [entries.clear()]: the reference of every entry is dropped. *)
Lemma clear_owned out (l : list (string * (ObjId * Z))) c (g : ObjId -> Z) :
  (forall o, 0 <= g o) ->
  owned out (fun x => g x + foldr (fun e acc => count_if (fun e : ObjId * Z => e.1 =? x) e.2 + acc) 0 l) c ->
  owned out g (fold_right (fun e c => arc_drop e.2.1 c) c l).
Proof.
  revert g. induction l as [|[k [o t]] l IH]; intros g Hg Hw; simpl.
  - eapply owned_ext; [|exact Hw]. intros x. simpl. lia.
  - assert (owned out (fun x => g x + (if x =? o then 1 else 0))
              (fold_right (fun e c => arc_drop e.2.1 c) c l)) as Hw1.
    { apply IH; [intros x; specialize (Hg x); case_match; lia|].
      eapply owned_ext; [|exact Hw]. intros x. simpl.
      change (count_if (fun e : ObjId * Z => e.1 =? x) (o, t)) with (if o =? x then 1 else 0).
      rewrite (Z.eqb_sym o x). lia. }
    assert (0 < g o + (if o =? o then 1 else 0)) as Hpos by (rewrite Z.eqb_refl; specialize (Hg o); lia).
    destruct (ow_ref _ _ _ Hw1 o Hpos) as [r Hr].
    destruct (ow_obj _ _ _ Hw1 o r Hr) as (_ & _ & _ & Hle & _). rewrite Z.eqb_refl in Hle.
    apply (owned_drop _ _ _ _ r); [|done|specialize (Hg o); lia].
    eapply owned_weaken; [|exact Hw1]. intros x. cbv beta. destruct (x =? o); lia.
Qed.

Lemma refs_list c x :
  refs c x = foldr (fun e acc => count_if (fun e : ObjId * Z => e.1 =? x) e.2 + acc) 0
               (map_to_list (entries c)).
Proof.
  unfold refs, map_count, map_sum. rewrite map_fold_foldr.
  induction (map_to_list (entries c)) as [|[k e] m IH]; simpl; congruence.
Qed.

Lemma fold_drop_frame l c :
  let c' := fold_right (fun (e : string * (ObjId * Z)) c => arc_drop e.2.1 c) c l in
  entries c' = entries c /\ cache_limit c' = cache_limit c /\ max_entries c' = max_entries c.
Proof.
  induction l as [|e l IH]; simpl; [done|]. destruct IH as (E1 & E2 & E3).
  destruct (arc_drop_frame e.2.1 (fold_right (fun e c => arc_drop e.2.1 c) c l))
    as (_ & _ & F1 & F2 & _ & _ & F3 & _). split_and!; congruence.
Qed.

Lemma clear_run out c :
  wf out c -> exists c', clear c = (c', Ok tt) /\ wf out c' /\ entries c' = ∅ /\ cached_bytes c' = 0.
Proof.
  intros [Hw Hi]. eexists. split; [reflexivity|].
  set (l := map_to_list (entries c)). set (c1 := set_entries ∅ c).
  destruct (fold_drop_frame l c1) as (E1 & E2 & E3).
  change (entries c1) with (∅ : gmap string (ObjId * Z)) in E1.
  assert (owned out (fun _ => 0) (fold_right (fun e c => arc_drop e.2.1 c) c1 l)) as Hw1.
  { apply clear_owned; [done|]. apply (owned_same _ _ c); [done|].
    eapply owned_ext; [|exact Hw]. intros x. cbv beta. rewrite refs_list. done. }
  split; [|by simpl; rewrite E1]. split.
  - apply (owned_ext _ (fun _ => 0)).
    + intros x. unfold refs. simpl. rewrite E1. unfold map_count. by rewrite map_sum_empty.
    + by apply (owned_same _ _ (fold_right (fun e c => arc_drop e.2.1 c) c1 l)).
  - destruct Hi. constructor; simpl; rewrite ?E1, ?E2, ?E3; simpl; try done.
    + transitivity (cached_bytes c); [|done]. rewrite ix_cached0. apply map_sum_nonneg.
      intros k e _. unfold object_len. case_match; [unfold byte_len|]; lia.
    + rewrite map_len_empty. lia.
Qed.

Lemma decode_pixels_len e codec p :
  decode_pixels e codec = Ok p -> byte_len p = width p * height p * 3.
Proof.
  unfold decode_pixels, PreparedRgb_new. destruct (decode_image e codec) as [[[w h] px]|m]; [|done].
  destruct (_ && _ && _ && _); [|done].
  destruct (Z.eqb_spec (Z.of_nat (length px)) (w * h * 3)); [|done]. by intros [= <-].
Qed.

(** What [decode] promises. *)
Definition decoded (c c' : DecodedCache H) (key : string) (e : list Z) (codec : Codec) (w h : Z)
    (r : result CacheError ObjId) : Prop :=
  match r with
  | Ok o =>
      (exists t rt, entries c !! key = Some (o, t) /\ objects c !! o = Some rt /\ holds c' o (pixels rt))
      \/ (exists p, entries c !! key = None /\ decode_pixels e codec = Ok p
            /\ width p = w /\ height p = h /\ holds c' o p
            /\ (w * h * 3 <= cache_limit c -> exists u, entries c' !! key = Some (o, u)))
  | Err DecodedBudgetExceeded =>
      entries c' = ∅ /\ pool_limit (heap c') < pool_used (heap c') + w * h * 3
  | Err OutOfFuel => False
  | Err (CacheMessage _) => True
  end.

(** The part of [decode] after the lookup missed. *)
Definition decode_missing (key : string) (encoded : list Z) (codec : Codec) (w h n : Z) : CacheM ObjId :=
  let* t := reserve_evicting n in
  match decode_pixels encoded codec with
  | Err m => release_token t ;;; fail (CacheMessage m)
  | Ok p => if (width p =? w) && (height p =? h) then install (fun o => place_missing key o n) p t n
            else release_token t ;;; fail (CacheMessage "cached dimensions mismatch")
  end.

Lemma delete_reserved (out : gmap TokenId Z) t (n : Z) : out !! t = None -> delete t (<[t := n]> out) = out.
Proof. intros Ht. rewrite delete_insert_eq. by apply delete_id. Qed.

Lemma decode_missing_run out c key e codec w h n :
  wf out c -> entries c !! key = None -> n = w * h * 3 -> is_u64 n ->
  exists c' r, decode_missing key e codec w h n c = (c', r) /\ wf out c' /\ decoded c c' key e codec w h r.
Proof.
  intros Hw Hk Hn Hu. unfold decode_missing, reserve_evicting, bind at 2, get.
  destruct (reserve_loop_run (S (size (entries c))) out c n Hw Hu ltac:(lia))
    as (c1 & r & Hrun & Hs & Hr).
  unfold bind at 1. rewrite Hrun. destruct r as [t|x].
  2:{ destruct Hr as (-> & ? & ? & ?). do 2 eexists. split; [reflexivity|]. simpl. subst n. done. }
  destruct Hr as (Hnone & Hw1).
  assert (wf out (release_token t c1).1) as Hrel.
  { rewrite <-(delete_reserved out t n Hnone). apply (wf_release _ _ n); [done|apply lookup_insert_eq]. }
  destruct (decode_pixels e codec) as [p|m] eqn:Hdec.
  2:{ do 2 eexists. split; [reflexivity|]. done. }
  destruct (Z.eqb_spec (width p) w), (Z.eqb_spec (height p) h); simpl;
    try (do 2 eexists; split; [reflexivity|done]).
  pose proof (decode_pixels_len _ _ _ Hdec) as Hlen.
  destruct (sh_limits _ _ Hs) as [Hl _].
  assert (entries c1 !! key = None) as Hk1.
  { destruct (entries c1 !! key) eqn:E; [|done].
    pose proof (lookup_weaken _ _ _ _ E (sh_entries _ _ Hs)). congruence. }
  destruct (install_run (fun o => place_missing key o n) (<[t := n]> out) c1 key p t n Hw1
              (lookup_insert_eq _ _ _) ltac:(congruence)) as (c' & r & Hi & Hw' & Hres).
  { intros o c2 Hw2 He Hle. apply (place_missing_eq _ _ _ _ _ Hw2); [by rewrite He|done]. }
  rewrite delete_reserved in Hw' by done. exists c', r. split; [done|]. split; [done|].
  destruct r as [o|x]; [|by subst]. destruct Hres as [Hh Hent]. right. exists p.
  split_and!; try done. intros Hfit. apply Hent. lia.
Qed.

Lemma decode_run out c key e codec w h :
  wf out c -> 0 <= w -> 0 <= h ->
  exists c' r, decode key e codec w h c = (c', r) /\ wf out c' /\ decoded c c' key e codec w h r.
Proof.
  intros Hw H0w H0h. unfold decode.
  destruct (valid_key key); simpl; [|do 2 eexists; split; [reflexivity|done]].
  rewrite (bind_ok _ _ c c tt eq_refl).
  destruct (get_run out c key Hw) as (c1 & r & Hg & Hw1 & Hl1 & Hr). unfold bind at 1. rewrite Hg.
  destruct r as [[o|]|x].
  - do 2 eexists. split; [reflexivity|]. split; [by apply wf_hits|].
    destruct Hr as (t & rt & Hk & Ho & Hh). left. exists t, rt. done.
  - destruct Hr as [Hk ->]. set (c2 := set_clock _ c) in *.
    set (c3 := set_misses (saturating_add (misses c2) 1) c2).
    assert (wf out c3) as Hw3 by (by apply wf_misses).
    rewrite (bind_ok _ _ c2 c3 tt eq_refl).
    destruct ((0 <? w) && (0 <? h) && (w <=? 8192) && (h <=? 8192)) eqn:Hd;
      [|do 2 eexists; split; [reflexivity|done]].
    rewrite (bind_ok _ _ c3 c3 tt eq_refl).
    destruct (encoded_dimensions e codec) as [d|m]; [|do 2 eexists; split; [reflexivity|done]].
    rewrite (bind_ok _ _ c3 c3 d eq_refl).
    destruct (bool_decide (d = (w, h))); [|do 2 eexists; split; [reflexivity|done]].
    rewrite (bind_ok _ _ c3 c3 tt eq_refl).
    apply (decode_missing_run out c3 key e codec w h (w * h * 3) Hw3 Hk eq_refl).
    unfold is_u64, u64_max. nia.
  - destruct Hr as [-> ->]. do 2 eexists. split; [reflexivity|done].
Qed.

Lemma initial_wf h cb total max c :
  pool_ok h -> held h = ∅ -> 0 <= cb -> cache_new h cb total max = Ok c -> wf ∅ c.
Proof.
  intros Hok Hh Hcb. unfold cache_new.
  destruct ((0 <? max) && (max <=? 100000)) eqn:Hm; [|discriminate].
  destruct (cb <=? total); [|discriminate]. destruct (0 <? total); [|discriminate].
  intros [= <-]. split.
  - constructor; simpl; try done.
    + rewrite Hh, !map_sum_empty. done.
  - constructor; simpl; try done; try (intros *; by rewrite lookup_empty).
    + rewrite map_len_empty. lia.
    + lia.
Qed.

Lemma cstep_wf s s' : cstep s s' -> wf s.1 s.2 -> wf s'.1 s'.2.
Proof.
  intros [ out c key | out c key | out c | out c key e codec w h H0w H0h
         | out c w h c' t Hr | out c w h c' e Hr | out c key p t n Ht | out c t n Ht
         | out c o p Hh | out c o p Hh ]; simpl; intros Hw.
  - destruct (get_run out c key Hw) as (c' & r & Hg & Hw' & _). by rewrite Hg.
  - destruct (lookup_run out c key Hw) as (c' & r & Hg & Hw' & _). by rewrite Hg.
  - by destruct (clear_run out c Hw) as (c' & [= <-] & Hw' & _).
  - destruct (decode_run out c key e codec w h Hw H0w H0h) as (c' & r & Hg & Hw' & _). by rewrite Hg.
  - destruct (reserve_rgb_run out c w h Hw) as (c1 & r & Hg & _ & Hres).
    rewrite Hr in Hg. injection Hg as <- <-. by destruct Hres as (_ & _ & Hw').
  - destruct (reserve_rgb_run out c w h Hw) as (c1 & r & Hg & _ & Hres).
    rewrite Hr in Hg. injection Hg as <- <-. destruct e; [|by destruct Hres as [-> _]..].
    by destruct Hres as (_ & Hw' & _).
  - destruct (commit_run out c key p t n Hw Ht) as (c1 & r & Hg & Hres). rewrite Hg. simpl.
    by destruct Hres as [(_ & Hw' & _)|(_ & Hw' & _)].
  - by apply (wf_release _ _ n).
  - destruct Hh as (r & Hr & _). by apply (wf_clone _ _ _ r).
  - by eapply wf_drop_held.
Qed.

Lemma reachable_wf out c : cache_reachable out c -> wf out c.
Proof.
  intros (h0 & cb & total & max & c0 & Hok & Hh & Hcb & Hnew & Hrun).
  pose proof (initial_wf _ _ _ _ _ Hok Hh Hcb Hnew) as H0.
  assert (forall s s', rtc cstep s s' -> wf s.1 s.2 -> wf s'.1 s'.2) as Hinv.
  { intros s s' Hss. induction Hss as [x|x y z Hxy _ IH]; [done|].
    intros Hx. apply IH. by eapply cstep_wf. }
  exact (Hinv _ _ Hrun H0).
Qed.

(** ** Properties *)

(** C13.  The accounts of the preview cache: at any point of any run, the bytes
    charged to the allowance are exactly the live pixels (cached or held by
    consumers) and the reservations in flight, within the allowance; the LRU
    counter is the size of the entries, within the LRU limit; and the number of
    entries is bounded. *)
Theorem cache_accounts out c :
  cache_reachable out c ->
  pool_used (heap c) = map_sum object_bytes (objects c) + map_sum id out
  /\ pool_used (heap c) <= pool_limit (heap c)
  /\ cached_bytes c = map_sum (fun e => object_len c e.1) (entries c)
  /\ 0 <= cached_bytes c <= cache_limit c
  /\ map_len (entries c) <= max_entries c.
Proof.
  intros [Hw Hi]%reachable_wf. destruct (pool_within _ (ow_pool _ _ _ Hw)) as (Hu & Hl & _).
  pose proof (ix_cached _ Hi) as Hc. split_and!; try apply Hi; try done.
  - rewrite Hu. apply (ow_sum _ _ _ Hw).
  - rewrite Hc. apply map_sum_nonneg. intros k e _. unfold object_len, byte_len. case_match; lia.
Qed.

(**  [decode] on every branch: a hit returns the entry's own pixels; a miss
    returns the decoded pixels, of the requested dimensions, held by the caller
    and findable under the key when they fit the LRU; admission is refused only
    when nothing is left to evict and the bytes do not fit; its loops terminate;
    and no path leaks a reservation ([wf] with the same [out]). *)
Theorem decode_spec out c key e codec w h :
  cache_reachable out c -> 0 <= w -> 0 <= h ->
  exists c' r, decode key e codec w h c = (c', r) /\ wf out c' /\ decoded c c' key e codec w h r.
Proof. intros Hr%reachable_wf. by apply decode_run. Qed.

(**  [reserve_rgb] terminates; it returns a reservation of exactly the pixel
    bytes, or fails for the dimensions without touching the cache, or fails with
    [DecodedBudgetExceeded] when even an empty LRU leaves too little; whatever it
    evicts, the pixels a consumer holds stay. *)
Theorem reserve_rgb_spec out c w h :
  cache_reachable out c ->
  exists c' r, reserve_rgb w h c = (c', r)
  /\ (forall o p, holds c o p -> holds c' o p)
  /\ match r with
     | Ok t => rgb_bytes w h = Ok (w * h * 3) /\ held (heap c') !! t = Some (w * h * 3)
               /\ out !! t = None
     | Err DecodedBudgetExceeded => rgb_bytes w h = Ok (w * h * 3) /\ entries c' = ∅
         /\ pool_limit (heap c') < pool_used (heap c') + w * h * 3
     | Err e => c' = c /\ exists m, rgb_bytes w h = Err m /\ e = CacheMessage m
     end.
Proof.
  intros Hw%reachable_wf. destruct (reserve_rgb_run out c w h Hw) as (c' & r & Hrun & Hs & Hr).
  exists c', r. split; [done|]. split; [intros o p; by apply holds_shrunk|].
  destruct r as [t|[]]; [|by destruct Hr as (? & ? & ? & ?)|done..].
  destruct Hr as (Hb & Hn & Hw'). split_and!; try done.
  apply (ow_out _ _ _ (proj1 Hw')), lookup_insert_eq.
Qed.

(**  Eviction removes exactly the least recently used entry; the pixels it
    names stay alive, and charged, for the consumers that hold them. *)
Theorem evict_one_lru out c c' b :
  cache_reachable out c -> evict_one c = (c', Ok b) ->
  (b = false /\ entries c = ∅ /\ c' = c)
  \/ (b = true /\ exists k, is_lru c k /\ entries c' = delete k (entries c)
      /\ forall o p, holds c o p -> holds c' o p).
Proof.
  intros Hw%reachable_wf Hev.
  destruct (evict_run out c Hw) as [[He Hrun]|(k & o & t & Hk & Hlru & Hrun & _ & Hs & _)];
    rewrite Hrun in Hev; injection Hev as <- <-; [by left|right].
  split; [done|]. exists k. split; [done|]. split; [apply detach_frame|].
  intros x p. by apply holds_shrunk.
Qed.

(**  Committing reserved pixels that fit the LRU, then looking the key up,
    gives those pixels back, whatever had to be evicted or replaced. *)
Theorem commit_then_lookup out c key p t c' o :
  cache_reachable out c -> out !! t = Some (byte_len p) -> byte_len p <= cache_limit c ->
  valid_key key = true -> commit_rgb key p t c = (c', Ok o) -> clock c' < u64_max ->
  exists c'', managed_lookup key c' = (c'', Ok (Some o)) /\ holds c'' o p
    /\ hits c'' = saturating_add (hits c') 1.
Proof.
  intros Hw%reachable_wf Ht Hfit Hkey Hrun Hclk.
  destruct (commit_run out c key p t _ Hw Ht) as (c1 & r & Hg & Hres). rewrite Hrun in Hg.
  injection Hg as <- <-. destruct Hres as [(_ & Hw' & Hh & Hent)|(? & _)]; [|done].
  destruct (Hent Hfit) as [u Hu]. unfold managed_lookup. rewrite Hkey.
  rewrite (bind_ok _ _ c' c' tt eq_refl).
  assert (exists c2, cache_get key c' = (c2, Ok (Some o)) /\ holds c2 o p /\ hits c2 = hits c')
    as (c2 & Hg & Hh2 & Hhits).
  { destruct (get_run _ c' key Hw') as (c2 & r & Hg & _ & _ & Hr). unfold cache_get, tick in Hg.
    unfold bind, get, of_option, put, ret in Hg.
    assert (checked_add (clock c') 1 = Some (clock c' + 1)) as E by (apply checked_add_Some; lia).
    unfold cache_get, tick, bind, get, of_option, put, ret. rewrite E in *. simpl in *.
    rewrite Hu in *. injection Hg as <- <-. eexists. split; [reflexivity|].
    destruct Hr as (t' & rt & _ & Hrt & Hh2). destruct Hh as (r & Hr & <- & _).
    rewrite Hr in Hrt. injection Hrt as <-. split; [done|]. by rewrite (proj1 (arc_clone_frame _ _)). }
  rewrite (bind_ok _ _ _ _ _ Hg). eexists. split; [reflexivity|]. split; [exact Hh2|].
  simpl. by rewrite Hhits.
Qed.
End Cache.

(** ** Concrete runs: the pool of a heap, decoders that read a header of two
    bytes. *)

#[export] Instance toy_decoders : ImageDecoders := {|
  header_dimensions e _ := match e with w :: h :: _ => Ok (w, h) | _ => Err "short"%string end;
  decode_image e _ := match e with w :: h :: px => Ok (w, h, px) | _ => Err "short"%string end;
|}.

Definition demo_cache : DecodedCache (PoolView 0) :=
  mkCache (H:=PoolView 0) 0 0 demo1 20 2 0 0 ∅ ∅ 0.
Definition page (w h : Z) : list Z := w :: h :: repeat 7 (Z.to_nat (w * h * 3)).
(** One page decoded, and one reservation in flight. *)
Definition demo_decoded : DecodedCache (PoolView 0) := (decode "a" (page 2 2) Jpeg 2 2 demo_cache).1.
Definition demo_reserved : DecodedCache (PoolView 0) := (reserve_rgb 2 3 demo_decoded).1.
Definition demo_pixels : PreparedRgb := mkRgb 2 3 (repeat 5 18).

Lemma demo_pool_ok : pool_ok (H:=PoolView 0) demo1 /\ held (H:=PoolView 0) demo1 = ∅.
Proof.
  split; [split|].
  - apply reachable_accounted, (rtc_l _ _ demo1); [|apply rtc_refl]. apply step_new.
    unfold is_u64, u64_max. lia.
  - vm_compute. eauto.
  - vm_compute. reflexivity.
Qed.

Lemma demo_reachable : cache_reachable (H:=PoolView 0) ∅ demo_decoded.
Proof.
  exists demo1, 20, 100, 2, demo_cache. destruct demo_pool_ok as [Hok Hh].
  split; [exact Hok|]. split; [exact Hh|]. split; [lia|]. split; [reflexivity|].
  apply (rtc_l _ _ (∅, demo_decoded)); [|apply rtc_refl]. apply cs_decode; lia.
Qed.

Lemma demo_reserved_reachable : cache_reachable (H:=PoolView 0) {[2 := 18]} demo_reserved.
Proof.
  destruct demo_reachable as (h0 & cb & total & max & c0 & H1 & H2 & H3 & H4 & H5).
  exists h0, cb, total, max, c0. split_and!; try done. eapply rtc_r; [exact H5|].
  change ({[2 := 18]} : gmap Z Z) with (<[2 := 2 * 3 * 3]> (∅ : gmap Z Z)).
  apply cs_reserve. vm_compute. reflexivity.
Qed.

Lemma cache_accounts_witness :
  pool_used (H:=PoolView 0) (heap demo_decoded) = 12 /\ cached_bytes demo_decoded <= 20.
Proof.
  destruct (cache_accounts (H:=PoolView 0) ∅ demo_decoded demo_reachable) as (H1 & _ & _ & [_ H2] & _).
  split; [rewrite H1; vm_compute; reflexivity|exact H2].
Defined.

Lemma decode_spec_witness :
  exists c' r, decode "b" (page 1 4) Webp 1 4 demo_decoded = (c', r) /\ wf (H:=PoolView 0) ∅ c'.
Proof.
  destruct (decode_spec (H:=PoolView 0) ∅ demo_decoded "b" (page 1 4) Webp 1 4 demo_reachable)
    as (c' & r & H1 & H2 & _); [lia|lia|]. exists c', r. split; [exact H1|exact H2].
Defined.

Lemma reserve_rgb_spec_witness :
  exists c' r, reserve_rgb 6 5 demo_decoded = (c', r)
  /\ forall o p, holds demo_decoded o p -> holds (H:=PoolView 0) c' o p.
Proof.
  destruct (reserve_rgb_spec (H:=PoolView 0) ∅ demo_decoded 6 5 demo_reachable)
    as (c' & r & H1 & H2 & _). exists c', r. split; [exact H1|exact H2].
Defined.

Lemma evict_one_lru_witness :
  exists k, is_lru demo_decoded k /\ entries (evict_one demo_decoded).1 = delete k (entries demo_decoded).
Proof.
  destruct (evict_one_lru (H:=PoolView 0) ∅ demo_decoded (evict_one demo_decoded).1 true demo_reachable)
    as [[H _]|(_ & k & H1 & H2 & _)]; [vm_compute; reflexivity|discriminate H|].
  exists k. split; [exact H1|exact H2].
Defined.

Lemma commit_then_lookup_witness :
  exists c'', managed_lookup "b" (commit_rgb "b" demo_pixels 2 demo_reserved).1
    = (c'', Ok (Some 1)) /\ holds (H:=PoolView 0) c'' 1 demo_pixels.
Proof.
  destruct (commit_then_lookup (H:=PoolView 0) {[2 := 18]} demo_reserved "b" demo_pixels 2
     (commit_rgb "b" demo_pixels 2 demo_reserved).1 1 demo_reserved_reachable)
    as (c'' & H1 & H2 & _); [vm_compute; first [reflexivity|discriminate]..|].
  exists c''. split; [exact H1|exact H2].
Defined.
