(* ===== verification/Scheduler.v ===== *)
(** Admission of preview renders and native cache reads:
    src/src/preview/scheduler.rs.

    One actor owns the scheduler; workers share only the cancellation tokens
    ([Arc<AtomicBool>]), which live in a store of cells so that a lease and its
    job alias the same token and a requeued job gets a fresh one.  Indexing and
    unsigned subtraction can panic: [Panic] is an outcome, and excluded. *)
From stdpp Require Import base tactics option list numbers gmap strings fin_maps.
From Stdlib Require Import ZArith Lia.
From S2P Require Import Prelude.

Open Scope Z_scope.
Local Open Scope prog_scope.

(** ** Data *)

(** @source src/src/preview/scheduler.rs:12-16 Priority *)
Inductive Priority : Type := Background | Foreground.
#[export] Instance Priority_eq_dec : EqDecision Priority.
Proof. solve_decision. Defined.

(** @source src/src/preview/scheduler.rs:17-22 SchedulerLimits *)
Record SchedulerLimits : Type := mkLimits { requests : Z; workers : Z; working_bytes : Z }.

(** @source src/src/preview/scheduler.rs:25-30 WorkerOutcome *)
Inductive WorkerOutcome : Type := Succeeded | Failed | Stopped.

Abbreviation Consumer := Z (only parsing).
Abbreviation FlagId := Z (only parsing).

(** @source src/src/preview/scheduler.rs:31-37 WorkLease *)
Record WorkLease : Type := mkWorkLease {
  l_id : Z; l_key : string; l_working_bytes : Z; l_canceled : FlagId }.

(** @source src/src/preview/scheduler.rs:38-44 SchedulerUsage *)
Record SchedulerUsage : Type := mkUsage {
  u_consumers : Z; u_queued : Z; u_active : Z; u_reserved_bytes : Z }.

(** @source src/src/preview/scheduler.rs:45-53 Completion *)
Record Completion : Type := mkCompletion {
  c_consumers : list Consumer; c_outcome : WorkerOutcome; c_requeued : bool; c_superseded : bool }.

(** @source src/src/preview/scheduler.rs:54-57 NativeReadRequest *)
Record NativeReadRequest : Type := mkReadRequest { q_id : Z; q_preempted : FlagId }.

(** @source src/src/preview/scheduler.rs:58-63 NativeRead *)
Record NativeRead : Type := mkRead {
  r_priority : Priority; r_cost : Z; r_lease : option Z; r_preempted : FlagId }.

(** @source src/src/preview/scheduler.rs:64-72 Job *)
Record Job : Type := mkJob {
  j_key : string; j_cost : Z; j_consumers : gmap Consumer Priority; j_running : bool;
  j_canceled : FlagId; j_preempted : bool; j_lease : option Z }.

Definition is_foreground (p : Priority) : bool :=
  match p with Foreground => true | Background => false end.

(** The greatest priority of the consumers. *)
(** @source src/src/preview/scheduler.rs:73-81 Job::priority *)
Definition priority (j : Job) : Priority :=
  if existsb (fun e => is_foreground e.2) (map_to_list (j_consumers j)) then Foreground else Background.

(** [flags] is the store of the shared tokens. *)
(** @source src/src/preview/scheduler.rs:84-92 PreviewScheduler *)
Record PreviewScheduler : Type := mkScheduler {
  limits : SchedulerLimits;
  next : Z;
  jobs : gmap Z Job;
  keys : gmap string Z;
  consumers : gmap Consumer Z;
  reserved : Z;
  external : gmap Z NativeRead;
  flags : gmap FlagId bool;
  next_flag : Z;
}.

Inductive SchedError : Type :=
| Message (m : string)
| ResourceLimit (m : string)
| Panic (m : string).

Definition SchedM (A : Type) : Type := proc SchedError PreviewScheduler A.

Definition set_next v s := mkScheduler (limits s) v (jobs s) (keys s) (consumers s) (reserved s) (external s) (flags s) (next_flag s).
Definition set_jobs v s := mkScheduler (limits s) (next s) v (keys s) (consumers s) (reserved s) (external s) (flags s) (next_flag s).
Definition set_keys v s := mkScheduler (limits s) (next s) (jobs s) v (consumers s) (reserved s) (external s) (flags s) (next_flag s).
Definition set_consumers v s := mkScheduler (limits s) (next s) (jobs s) (keys s) v (reserved s) (external s) (flags s) (next_flag s).
Definition set_reserved v s := mkScheduler (limits s) (next s) (jobs s) (keys s) (consumers s) v (external s) (flags s) (next_flag s).
Definition set_external v s := mkScheduler (limits s) (next s) (jobs s) (keys s) (consumers s) (reserved s) v (flags s) (next_flag s).
Definition set_flag f b s := mkScheduler (limits s) (next s) (jobs s) (keys s) (consumers s) (reserved s) (external s) (<[f := b]> (flags s)) (next_flag s).
Definition put_job (id : Z) (j : Job) s := set_jobs (<[id := j]> (jobs s)) s.
Definition put_read (id : Z) (r : NativeRead) s := set_external (<[id := r]> (external s)) s.

(** [Arc::new(AtomicBool::new(false))]. *)
Definition new_flag : SchedM FlagId :=
  let* s := get in
  put (mkScheduler (limits s) (next s) (jobs s) (keys s) (consumers s) (reserved s) (external s)
         (<[next_flag s := false]> (flags s)) (next_flag s + 1)) ;;;
  ret (next_flag s).
Definition load (s : PreviewScheduler) (f : FlagId) : bool := default false (flags s !! f).
Definition store (f : FlagId) (b : bool) : SchedM unit := modify (set_flag f b).

(** Indexing a map, [unwrap] of a lookup, and [u64] subtraction. *)
Definition the_job (id : Z) : SchedM Job :=
  let* s := get in of_option (jobs s !! id) (Panic "no such job").
Definition the_read (id : Z) : SchedM NativeRead :=
  let* s := get in of_option (external s !! id) (Panic "no such read").
Definition usub (a b : Z) : SchedM Z := of_option (checked_sub a b) (Panic "subtraction underflow").

(** ** Queries *)

(** @source src/src/preview/scheduler.rs:426-444 PreviewScheduler::usage *)
Definition usage (s : PreviewScheduler) : SchedulerUsage :=
  mkUsage
    (map_len (consumers s) + map_len (external s))
    (map_count (fun j => negb (j_running j)) (jobs s)
     + map_count (fun r => negb (bool_decide (is_Some (r_lease r)))) (external s))
    (map_count j_running (jobs s)
     + map_count (fun r => bool_decide (is_Some (r_lease r))) (external s))
    (reserved s).

(** A candidate: priority, identity, native. *)
Definition Candidate : Type := Priority * Z * bool.
Definition cand_id (c : Candidate) : Z := c.1.2.
Definition cand_fg (c : Candidate) : bool := is_foreground c.1.1.

(** [(Reverse(priority), id)], lexicographically. *)
Definition front_le : relation Candidate := fun x y =>
  if cand_fg x then (if cand_fg y then cand_id x <= cand_id y else True)
  else (if cand_fg y then False else cand_id x <= cand_id y).
#[export] Instance front_le_dec : RelDecision front_le.
Proof. intros x y. unfold front_le. destruct (cand_fg x), (cand_fg y); apply _. Defined.
#[export] Instance front_le_trans : Transitive front_le.
Proof. intros x y z. unfold front_le. destruct (cand_fg x), (cand_fg y), (cand_fg z); tauto || lia. Qed.
#[export] Instance front_le_total : Total front_le.
Proof. intros x y. unfold front_le. destruct (cand_fg x), (cand_fg y); tauto || lia. Qed.

Definition waiting_jobs (s : PreviewScheduler) : list Candidate :=
  omap (fun e : Z * Job => if negb (j_running e.2) && negb (load s (j_canceled e.2))
                           then Some (priority e.2, e.1, false) else None) (map_to_list (jobs s)).
Definition waiting_reads (s : PreviewScheduler) : list Candidate :=
  omap (fun e : Z * NativeRead => match r_lease e.2 with
                                  | None => Some (r_priority e.2, e.1, true)
                                  | Some _ => None
                                  end) (map_to_list (external s)).

(** @source src/src/preview/scheduler.rs:216-228 PreviewScheduler::front *)
Definition front (s : PreviewScheduler) : option Candidate :=
  min_by front_le (waiting_jobs s ++ waiting_reads s).

(** @source src/src/preview/scheduler.rs:178-183 PreviewScheduler::read_request *)
Definition read_request (l : Z) : SchedM Z :=
  let* s := get in
  of_option (head (omap (fun e : Z * NativeRead => if bool_decide (r_lease e.2 = Some l) then Some e.1 else None)
                        (map_to_list (external s))))
            (Message "native read lease missing").

(** @source src/src/preview/scheduler.rs:229-236 PreviewScheduler::serial *)
Definition serial : SchedM Z :=
  let* s := get in
  let* n := of_option (checked_add (next s) 1) (Message "request identity overflow") in
  put (set_next n s) ;;;
  ret (next s).

(** @source src/src/preview/scheduler.rs:134-142 PreviewScheduler::read_cost *)
Definition read_cost (cost : Z) : SchedM unit :=
  let* s := get in
  ensure ((0 <? cost) && (cost <=? working_bytes (limits s)))
    (ResourceLimit "Encoded preview exceeds native working allowance; increase it and retry").

(** [active >= workers || cost > working_bytes - reserved]. *)
Definition lacks_room (cost : Z) : SchedM bool :=
  let* s := get in
  if workers (limits s) <=? u_active (usage s) then ret true
  else
    let* room := usub (working_bytes (limits s)) (reserved s) in
    ret (room <? cost).

(** ** Preemption *)

(** Running background reads, oldest first. *)
Definition background_reads (s : PreviewScheduler) : list Candidate :=
  omap (fun e : Z * NativeRead =>
          match r_lease e.2, r_priority e.2 with
          | Some _, Background => Some (Background, e.1, true)
          | _, _ => None
          end) (map_to_list (external s)).
Definition background_jobs (s : PreviewScheduler) : list Candidate :=
  omap (fun e : Z * Job => if j_running e.2 && negb (is_foreground (priority e.2))
                           then Some (Background, e.1, false) else None) (map_to_list (jobs s)).

Definition oldest (l : list Candidate) : option Candidate := min_by (asc_on cand_id) l.

(** @source src/src/preview/scheduler.rs:328-334 PreviewScheduler::preempt_background *)
Definition preempt_victim (c : Candidate) : SchedM unit :=
  let '(_, id, native) := c in
  if native then
    let* r := the_read id in store (r_preempted r) true
  else
    let* j := the_job id in
    modify (put_job id (mkJob (j_key j) (j_cost j) (j_consumers j) (j_running j) (j_canceled j) true (j_lease j))) ;;;
    store (j_canceled j) true.

(** @source src/src/preview/scheduler.rs:304-335 PreviewScheduler::preempt_background *)
Definition preempt_for (c : Candidate) : SchedM unit :=
  let '(_, id, native) := c in
  let* cost := (if native then let* r := the_read id in ret (r_cost r)
                else let* j := the_job id in ret (j_cost j)) in
  let* lacking := lacks_room cost in
  let* s := get in
  match (if lacking then oldest (background_jobs s ++ background_reads s) else None) with
  | Some victim => preempt_victim victim
  | None => ret tt
  end.

(** @source src/src/preview/scheduler.rs:285-336 PreviewScheduler::preempt_background *)
Definition preempt_background : SchedM unit :=
  let* s := get in
  match front s with
  | Some c =>
      if cand_fg c then
        match (if c.2 then oldest (background_reads s) else None) with
        | Some victim => preempt_victim victim
        | None => preempt_for c
        end
      else ret tt
  | None => ret tt
  end.

(** ** Native reads *)

(** @source src/src/preview/scheduler.rs:94-112 PreviewScheduler::new *)
Definition scheduler_new (l : SchedulerLimits) : result string PreviewScheduler :=
  if (0 <? requests l) && (requests l <=? 100000) && (0 <? workers l) && (workers l <=? 16)
     && (0 <? working_bytes l)
  then Ok (mkScheduler l 1 ∅ ∅ ∅ 0 ∅ ∅ 0)
  else Err "invalid scheduler limits"%string.

Definition queue_has_room : SchedM unit :=
  let* s := get in
  ensure (map_len (consumers s) + map_len (external s) <? requests (limits s))
    (Message "preview request queue full").

(** @source src/src/preview/scheduler.rs:113-133 PreviewScheduler::queue_native_read *)
Definition queue_native_read (p : Priority) : SchedM NativeReadRequest :=
  queue_has_room ;;;
  let* id := serial in
  let* f := new_flag in
  modify (put_read id (mkRead p 0 None f)) ;;;
  preempt_background ;;;
  ret (mkReadRequest id f).

(** @source src/src/preview/scheduler.rs:143-166 PreviewScheduler::admit_native_read *)
Definition admit_native_read (request cost : Z) : SchedM (option Z) :=
  read_cost cost ;;;
  let* s := get in
  let* r := of_option (external s !! request) (Message "native read request missing") in
  ensure (negb (bool_decide (is_Some (r_lease r)))) (Message "native read already admitted") ;;;
  modify (put_read request (mkRead (r_priority r) cost (r_lease r) (r_preempted r))) ;;;
  preempt_background ;;;
  let* lacking := lacks_room cost in
  let* s := get in
  if lacking || negb (match front s with Some (_, id, native) => native && (id =? request) | None => false end)
  then ret None
  else
    let* l := serial in
    let* r := the_read request in
    modify (put_read request (mkRead (r_priority r) (r_cost r) (Some l) (r_preempted r))) ;;;
    modify (fun s => set_reserved (reserved s + cost) s) ;;;
    ret (Some l).

(** @source src/src/preview/scheduler.rs:167-177 PreviewScheduler::upgrade_native_read *)
Definition upgrade_native_read (id cost : Z) : SchedM bool :=
  read_cost cost ;;;
  let* request := read_request id in
  let* r := the_read request in
  let* s := get in
  let* others := usub (reserved s) (r_cost r) in
  let* room := usub (working_bytes (limits s)) others in
  if room <? cost then ret false
  else
    modify (set_reserved (others + cost)) ;;;
    modify (put_read request (mkRead (r_priority r) cost (r_lease r) (r_preempted r))) ;;;
    ret true.

(** @source src/src/preview/scheduler.rs:184-196 PreviewScheduler::requeue_native_read *)
Definition requeue_native_read (l cost : Z) : SchedM unit :=
  read_cost cost ;;;
  let* request := read_request l in
  let* r := the_read request in
  let* s := get in
  let* others := usub (reserved s) (r_cost r) in
  modify (set_reserved others) ;;;
  modify (put_read request (mkRead (r_priority r) cost None (r_preempted r))) ;;;
  store (r_preempted r) false ;;;
  preempt_background.

(** @source src/src/preview/scheduler.rs:197-207 PreviewScheduler::cancel_queued_native_read *)
Definition cancel_queued_native_read (request : Z) : SchedM unit :=
  let* s := get in
  let* r := of_option (external s !! request) (Message "native read request missing") in
  ensure (negb (bool_decide (is_Some (r_lease r)))) (Message "native read owner remains active") ;;;
  modify (fun s => set_external (delete request (external s)) s).

(** @source src/src/preview/scheduler.rs:208-213 PreviewScheduler::release_native_read *)
Definition release_native_read (id : Z) : SchedM unit :=
  let* request := read_request id in
  let* r := the_read request in
  modify (fun s => set_external (delete request (external s)) s) ;;;
  let* s := get in
  let* others := usub (reserved s) (r_cost r) in
  modify (set_reserved others).

(** ** Renders *)

Definition is_hexdigit (a : Ascii.ascii) : bool :=
  let n := Z.of_nat (Ascii.nat_of_ascii a) in
  ((48 <=? n) && (n <=? 57)) || ((65 <=? n) && (n <=? 70)) || ((97 <=? n) && (n <=? 102)).
Definition valid_preview_key (key : string) : bool :=
  (Z.of_nat (String.length key) =? 64) && forallb is_hexdigit (String.list_ascii_of_string key).

(** The job a request joins: the key's owner, unless canceled for good. *)
(** @source src/src/preview/scheduler.rs:251-253 PreviewScheduler::request *)
Definition existing_job (key : string) : SchedM (option Z) :=
  let* s := get in
  match keys s !! key with
  | None => ret None
  | Some id =>
      let* j := the_job id in
      ret (if negb (load s (j_canceled j)) || j_preempted j then Some id else None)
  end.

(** @source src/src/preview/scheduler.rs:237-284 PreviewScheduler::request *)
Definition request (key : string) (cost : Z) (p : Priority) : SchedM Consumer :=
  ensure (valid_preview_key key) (Message "invalid preview key") ;;;
  let* s := get in
  ensure ((0 <? cost) && (cost <=? working_bytes (limits s))) (Message "request exceeds worker allowance") ;;;
  queue_has_room ;;;
  let* consumer := serial in
  let* existing := existing_job key in
  let* id :=
    match existing with
    | Some id =>
        let* j := the_job id in
        ensure (j_cost j =? cost) (Message "same preview key has conflicting resource cost") ;;;
        modify (put_job id (mkJob (j_key j) (j_cost j) (<[consumer := p]> (j_consumers j)) (j_running j)
                              (j_canceled j) (j_preempted j) (j_lease j))) ;;;
        ret id
    | None =>
        let* id := serial in
        modify (fun s => set_keys (<[key := id]> (keys s)) s) ;;;
        let* f := new_flag in
        modify (put_job id (mkJob key cost {[consumer := p]} false f false None)) ;;;
        ret id
    end in
  modify (fun s => set_consumers (<[consumer := id]> (consumers s)) s) ;;;
  (if is_foreground p then preempt_background else ret tt) ;;;
  ret consumer.

(** @source src/src/preview/scheduler.rs:351-360 PreviewScheduler::remove *)
Definition remove (id : Z) : SchedM Job :=
  let* j := the_job id in
  modify (fun s => set_jobs (delete id (jobs s)) s) ;;;
  modify (fun s => if bool_decide (keys s !! j_key j = Some id)
                   then set_keys (delete (j_key j) (keys s)) s else s) ;;;
  modify (fun s => set_consumers (foldr (fun e m => delete e.1 m) (consumers s)
                                        (map_to_list (j_consumers j))) s) ;;;
  ret j.

(** @source src/src/preview/scheduler.rs:337-350 PreviewScheduler::cancel *)
Definition cancel (consumer : Consumer) : SchedM bool :=
  let* s := get in
  match consumers s !! consumer with
  | None => ret false
  | Some id =>
      modify (fun s => set_consumers (delete consumer (consumers s)) s) ;;;
      let* j := the_job id in
      let rest := delete consumer (j_consumers j) in
      modify (put_job id (mkJob (j_key j) (j_cost j) rest (j_running j) (j_canceled j) (j_preempted j) (j_lease j))) ;;;
      (if bool_decide (rest = ∅) then
         store (j_canceled j) true ;;;
         if j_running j then ret tt else let* _ := remove id in ret tt
       else ret tt) ;;;
      ret true
  end.

(** @source src/src/preview/scheduler.rs:361-386 PreviewScheduler::next_ready *)
Definition next_ready : SchedM (option WorkLease) :=
  preempt_background ;;;
  let* s := get in
  if workers (limits s) <=? u_active (usage s) then ret None
  else match front s with
       | Some (_, id, false) =>
           let* j := the_job id in
           let* room := usub (working_bytes (limits s)) (reserved s) in
           if room <? j_cost j then ret None
           else
             let* l := serial in
             modify (fun s => set_reserved (reserved s + j_cost j) s) ;;;
             modify (put_job id (mkJob (j_key j) (j_cost j) (j_consumers j) true (j_canceled j)
                                   (j_preempted j) (Some l))) ;;;
             ret (Some (mkWorkLease l (j_key j) (j_cost j) (j_canceled j)))
       | _ => ret None
       end.

(** The owner of a lease. *)
Definition job_of_lease (s : PreviewScheduler) (l : Z) : option Z :=
  head (omap (fun e : Z * Job => if bool_decide (j_lease e.2 = Some l) then Some e.1 else None)
             (map_to_list (jobs s))).

(** @source src/src/preview/scheduler.rs:387-425 PreviewScheduler::finished *)
Definition finished (l : Z) (outcome : WorkerOutcome) : SchedM Completion :=
  let* s := get in
  let* id := of_option (job_of_lease s l) (Message "unknown or stale worker completion") in
  let* j := of_option (jobs s !! id) (Message "unknown worker completion") in
  ensure (j_running j) (Message "queued work cannot complete") ;;;
  let* others := usub (reserved s) (j_cost j) in
  modify (put_job id (mkJob (j_key j) (j_cost j) (j_consumers j) (j_running j) (j_canceled j) (j_preempted j) None)) ;;;
  modify (set_reserved others) ;;;
  if j_preempted j && negb (bool_decide (j_consumers j = ∅)) then
    let* f := new_flag in
    modify (put_job id (mkJob (j_key j) (j_cost j) (j_consumers j) false f false None)) ;;;
    ret (mkCompletion [] Stopped true false)
  else
    let* s := get in
    let superseded := match keys s !! j_key j with Some owner => negb (owner =? id) | None => false end in
    let* j := remove id in
    let* s := get in
    ret (mkCompletion (map fst (map_to_list (j_consumers j)))
           (if load s (j_canceled j) then Stopped else outcome) false superseded).

(** ** Runs *)

Inductive step : PreviewScheduler -> PreviewScheduler -> Prop :=
| st_queue s p : step s (queue_native_read p s).1
| st_admit s r c : step s (admit_native_read r c s).1
| st_upgrade s r c : step s (upgrade_native_read r c s).1
| st_requeue s r c : step s (requeue_native_read r c s).1
| st_cancel_read s r : step s (cancel_queued_native_read r s).1
| st_release s r : step s (release_native_read r s).1
| st_request s k c p : step s (request k c p s).1
| st_cancel s c : step s (cancel c s).1
| st_next s : step s (next_ready s).1
| st_finished s l o : step s (finished l o s).1.

Definition reachable (s : PreviewScheduler) : Prop :=
  exists l s0, scheduler_new l = Ok s0 /\ working_bytes l <= u64_max /\ rtc step s0 s.

(** ** The scheduler invariant *)

Definition leased (r : NativeRead) : bool := bool_decide (is_Some (r_lease r)).
Definition job_charge (j : Job) : Z := if j_running j then j_cost j else 0.
Definition read_charge (r : NativeRead) : Z := if leased r then r_cost r else 0.

Record job_ok (s : PreviewScheduler) (id : Z) (j : Job) : Prop := {
  jo_id : id < next s;
  jo_cost : 0 < j_cost j <= working_bytes (limits s);
  jo_lease : j_running j = bool_decide (is_Some (j_lease j));
  jo_lease_lt : forall l, j_lease j = Some l -> l < next s;
  jo_consumers : forall c, is_Some (j_consumers j !! c) -> consumers s !! c = Some id;
  jo_flag : j_canceled j < next_flag s;
  jo_waiting : j_running j = false ->
    load s (j_canceled j) = false /\ j_preempted j = false /\ j_consumers j <> ∅;
  jo_canceled : load s (j_canceled j) = true <-> j_preempted j = true \/ j_consumers j = ∅;
  jo_key : keys s !! j_key j = Some id \/ j_consumers j = ∅;
}.

Record read_ok (s : PreviewScheduler) (id : Z) (r : NativeRead) : Prop := {
  ro_id : id < next s;
  ro_cost : 0 <= r_cost r <= working_bytes (limits s);
  ro_lease_lt : forall l, r_lease r = Some l -> l < next s;
  ro_flag : r_preempted r < next_flag s;
}.

Record wf (s : PreviewScheduler) : Prop := {
  w_limits : 0 < workers (limits s) /\ 0 < working_bytes (limits s) <= u64_max;
  w_reserved : reserved s = map_sum job_charge (jobs s) + map_sum read_charge (external s);
  w_fits : reserved s <= working_bytes (limits s);
  w_active : map_count j_running (jobs s) + map_count leased (external s) <= workers (limits s);
  w_queue : map_len (consumers s) + map_len (external s) <= requests (limits s);
  w_job : forall id j, jobs s !! id = Some j -> job_ok s id j;
  w_read : forall id r, external s !! id = Some r -> read_ok s id r;
  w_keys : forall k id, keys s !! k = Some id -> exists j, jobs s !! id = Some j /\ j_key j = k;
  w_consumers : forall c id, consumers s !! c = Some id ->
    c < next s /\ exists j, jobs s !! id = Some j /\ is_Some (j_consumers j !! c);
  w_job_leases : forall id id' j j' l, jobs s !! id = Some j -> jobs s !! id' = Some j' ->
    j_lease j = Some l -> j_lease j' = Some l -> id = id';
  w_read_leases : forall id id' r r' l, external s !! id = Some r -> external s !! id' = Some r' ->
    r_lease r = Some l -> r_lease r' = Some l -> id = id';
  w_leases : forall id id' j r l, jobs s !! id = Some j -> external s !! id' = Some r ->
    j_lease j = Some l -> r_lease r = Some l -> False;
  w_job_flags : forall id id' j j', jobs s !! id = Some j -> jobs s !! id' = Some j' ->
    j_canceled j = j_canceled j' -> id = id';
  w_flags : forall id id' j r, jobs s !! id = Some j -> external s !! id' = Some r ->
    j_canceled j <> r_preempted r;
}.

Lemma job_charge_bounds s id j : wf s -> jobs s !! id = Some j -> 0 <= job_charge j.
Proof.
  intros Hw Hj. destruct (jo_cost _ _ _ (w_job _ Hw _ _ Hj)). unfold job_charge. case_match; lia.
Qed.
Lemma read_charge_bounds s id r : wf s -> external s !! id = Some r -> 0 <= read_charge r.
Proof.
  intros Hw Hr. destruct (ro_cost _ _ _ (w_read _ Hw _ _ Hr)). unfold read_charge. case_match; lia.
Qed.
Lemma job_charge_le s id j : wf s -> jobs s !! id = Some j -> job_charge j <= reserved s.
Proof.
  intros Hw Hj. rewrite (w_reserved _ Hw).
  pose proof (map_sum_lookup_le job_charge (jobs s) id j ltac:(intros; by eapply job_charge_bounds) Hj).
  pose proof (map_sum_nonneg read_charge (external s) ltac:(intros; by eapply read_charge_bounds)). lia.
Qed.
Lemma read_charge_le s id r : wf s -> external s !! id = Some r -> read_charge r <= reserved s.
Proof.
  intros Hw Hr. rewrite (w_reserved _ Hw).
  pose proof (map_sum_lookup_le read_charge (external s) id r ltac:(intros; by eapply read_charge_bounds) Hr).
  pose proof (map_sum_nonneg job_charge (jobs s) ltac:(intros; by eapply job_charge_bounds)). lia.
Qed.

(** *** Replacing one job

    Its key and consumers stay; its token stays or is fresh; its lease stays,
    goes or is fresh; no other job's token is written. *)

Lemma wf_update_job s id j j' n' res' fl' nf' :
  wf s -> jobs s !! id = Some j ->
  let s' := mkScheduler (limits s) n' (<[id := j']> (jobs s)) (keys s) (consumers s) res'
              (external s) fl' nf' in
  next s <= n' -> next_flag s <= nf' ->
  j_key j' = j_key j -> j_consumers j' = j_consumers j ->
  (forall f, f < next_flag s -> f <> j_canceled j -> fl' !! f = flags s !! f) ->
  (j_canceled j' = j_canceled j \/ next_flag s <= j_canceled j') ->
  (forall l, j_lease j' = Some l -> j_lease j = Some l \/ next s <= l) ->
  res' = reserved s - job_charge j + job_charge j' -> res' <= working_bytes (limits s) ->
  map_count j_running (jobs s) + map_count leased (external s)
    - count_if j_running j + count_if j_running j' <= workers (limits s) ->
  job_ok s' id j' -> wf s'.
Proof.
  intros Hw Hj s' Hn Hnf Hkey Hcons Hfl Hflag Hlease Hres Hfit Hact Hok.
  assert (forall i k, jobs s !! i = Some k -> i <> id -> j_canceled k <> j_canceled j) as Hother.
  { intros i k Hk Hne Heq. by apply Hne, (w_job_flags _ Hw i id k j). }
  constructor; simpl; try apply Hw; try done.
  - rewrite (map_sum_update _ _ _ _ _ Hj). rewrite Hres, (w_reserved _ Hw). lia.
  - unfold map_count at 1. rewrite (map_sum_update _ _ _ _ _ Hj). unfold map_count in Hact |- *. lia.
  - intros i k [[<- <-]|[Hne Hk]]%lookup_insert_Some; [done|].
    destruct (w_job _ Hw _ _ Hk). assert (load s' (j_canceled k) = load s (j_canceled k)) as Hload.
    { unfold load. simpl. rewrite Hfl; [done|done|]. by apply (Hother i). }
    constructor; rewrite ?Hload; simpl; try done; try lia. intros l Hl. specialize (jo_lease_lt0 l Hl). lia.
  - intros i r Hr. destruct (w_read _ Hw _ _ Hr). constructor; simpl; try lia.
    intros l Hl. specialize (ro_lease_lt0 l Hl). lia.
  - intros k i Hk. destruct (w_keys _ Hw _ _ Hk) as (x & Hx & Hxk).
    destruct (decide (id = i)) as [<-|Hne].
    + exists j'. rewrite lookup_insert_eq. split; [done|congruence].
    + exists x. by rewrite lookup_insert_ne.
  - intros c i Hc. destruct (w_consumers _ Hw _ _ Hc) as (Hlt & x & Hx & Hxc). split; [lia|].
    destruct (decide (id = i)) as [<-|Hne].
    + exists j'. rewrite lookup_insert_eq, Hcons. split; [done|congruence].
    + exists x. by rewrite lookup_insert_ne.
  - intros i i' x x' l Hx Hx' Hl Hl'. apply lookup_insert_Some in Hx, Hx'.
    destruct Hx as [[<- <-]|[Hne Hx]], Hx' as [[<- <-]|[Hne' Hx']]; try done.
    + destruct (Hlease l Hl) as [Hl0|Hl0]; [by apply (w_job_leases _ Hw id i' j x' l)|].
      pose proof (jo_lease_lt _ _ _ (w_job _ Hw _ _ Hx') l Hl'). lia.
    + destruct (Hlease l Hl') as [Hl0|Hl0]; [by apply (w_job_leases _ Hw i id x j l)|].
      pose proof (jo_lease_lt _ _ _ (w_job _ Hw _ _ Hx) l Hl). lia.
    + by apply (w_job_leases _ Hw i i' x x' l).
  - intros i i' x r l [[<- <-]|[Hne Hx]]%lookup_insert_Some Hr Hl Hl'.
    + destruct (Hlease l Hl) as [Hl0|Hl0]; [by apply (w_leases _ Hw id i' j r l)|].
      pose proof (ro_lease_lt _ _ _ (w_read _ Hw _ _ Hr) l Hl'). lia.
    + by apply (w_leases _ Hw i i' x r l).
  - intros i i' x x' Hx Hx' Hf. apply lookup_insert_Some in Hx, Hx'.
    destruct Hx as [[<- <-]|[Hne Hx]], Hx' as [[<- <-]|[Hne' Hx']]; try done.
    + pose proof (jo_flag _ _ _ (w_job _ Hw _ _ Hx')). destruct Hflag as [Hf'|]; [|lia].
      exfalso. apply (Hother i' x' Hx'); congruence.
    + pose proof (jo_flag _ _ _ (w_job _ Hw _ _ Hx)). destruct Hflag as [Hf'|]; [|lia].
      exfalso. apply (Hother i x Hx); congruence.
    + by apply (w_job_flags _ Hw i i' x x').
  - intros i i' x r [[<- <-]|[Hne Hx]]%lookup_insert_Some Hr.
    + pose proof (ro_flag _ _ _ (w_read _ Hw _ _ Hr)).
      destruct Hflag as [->|]; [by apply (w_flags _ Hw id i' j r)|lia].
    + by apply (w_flags _ Hw i i' x r).
Qed.

(** *** Replacing one native read *)

Lemma wf_update_read s id r r' n' res' fl' nf' :
  wf s -> external s !! id = Some r ->
  let s' := mkScheduler (limits s) n' (jobs s) (keys s) (consumers s) res'
              (<[id := r']> (external s)) fl' nf' in
  next s <= n' -> next_flag s <= nf' ->
  (forall f, f < next_flag s -> f <> r_preempted r -> fl' !! f = flags s !! f) ->
  r_preempted r' = r_preempted r ->
  (forall l, r_lease r' = Some l -> r_lease r = Some l \/ next s <= l) ->
  res' = reserved s - read_charge r + read_charge r' -> res' <= working_bytes (limits s) ->
  map_count j_running (jobs s) + map_count leased (external s)
    - count_if leased r + count_if leased r' <= workers (limits s) ->
  read_ok s' id r' -> wf s'.
Proof.
  intros Hw Hr s' Hn Hnf Hfl Hflag Hlease Hres Hfit Hact Hok.
  constructor; simpl; try apply Hw; try done.
  - rewrite (map_sum_update _ _ _ _ _ Hr). rewrite Hres, (w_reserved _ Hw). lia.
  - unfold map_count at 2. rewrite (map_sum_update _ _ _ _ _ Hr). unfold map_count in Hact |- *. lia.
  - rewrite map_len_update by eauto. apply Hw.
  - intros i k Hk. destruct (w_job _ Hw _ _ Hk).
    assert (load s' (j_canceled k) = load s (j_canceled k)) as Hload.
    { unfold load. simpl. rewrite Hfl; [done|done|]. by apply (w_flags _ Hw i id). }
    constructor; rewrite ?Hload; simpl; try done; try lia. intros l Hl. specialize (jo_lease_lt0 l Hl). lia.
  - intros i x [[<- <-]|[Hne Hx]]%lookup_insert_Some; [done|].
    destruct (w_read _ Hw _ _ Hx). constructor; simpl; try lia.
    intros l Hl. specialize (ro_lease_lt0 l Hl). lia.
  - intros c i Hc. destruct (w_consumers _ Hw _ _ Hc). split; [lia|done].
  - intros i i' x x' l Hx Hx' Hl Hl'. apply lookup_insert_Some in Hx, Hx'.
    destruct Hx as [[<- <-]|[Hne Hx]], Hx' as [[<- <-]|[Hne' Hx']]; try done.
    + destruct (Hlease l Hl) as [Hl0|Hl0]; [by apply (w_read_leases _ Hw id i' r x' l)|].
      pose proof (ro_lease_lt _ _ _ (w_read _ Hw _ _ Hx') l Hl'). lia.
    + destruct (Hlease l Hl') as [Hl0|Hl0]; [by apply (w_read_leases _ Hw i id x r l)|].
      pose proof (ro_lease_lt _ _ _ (w_read _ Hw _ _ Hx) l Hl). lia.
    + by apply (w_read_leases _ Hw i i' x x' l).
  - intros i i' j x l Hj [[<- <-]|[Hne Hx]]%lookup_insert_Some Hl Hl'.
    + destruct (Hlease l Hl') as [Hl0|Hl0]; [by apply (w_leases _ Hw i id j r l)|].
      pose proof (jo_lease_lt _ _ _ (w_job _ Hw _ _ Hj) l Hl). lia.
    + by apply (w_leases _ Hw i i' j x l).
  - intros i i' j x Hj [[<- <-]|[Hne Hx]]%lookup_insert_Some.
    + rewrite Hflag. by apply (w_flags _ Hw i id j r).
    + by apply (w_flags _ Hw i i' j x).
Qed.

(** ** The queue *)

(** The candidates, as a set: what [front] chooses from. *)
Definition waiting (s : PreviewScheduler) (c : Candidate) : Prop :=
  let '(p, id, native) := c in
  if native then exists r, external s !! id = Some r /\ r_lease r = None /\ r_priority r = p
  else exists j, jobs s !! id = Some j /\ j_running j = false
                 /\ load s (j_canceled j) = false /\ priority j = p.

Lemma elem_of_waiting s c : c ∈ waiting_jobs s ++ waiting_reads s <-> waiting s c.
Proof.
  destruct c as [[p id] native]. rewrite elem_of_app. unfold waiting_jobs, waiting_reads.
  rewrite !list_elem_of_omap. split.
  - intros [([i j] & Hin & Hc)|([i r] & Hin & Hc)]; simpl in Hc; apply elem_of_map_to_list in Hin.
    + destruct (j_running j) eqn:E1, (load s (j_canceled j)) eqn:E2; simpl in Hc; try discriminate Hc.
      injection Hc as <- <- <-. simpl. eauto.
    + destruct (r_lease r) eqn:E; [discriminate Hc|]. injection Hc as <- <- <-. simpl. eauto.
  - destruct native; simpl.
    + intros (r & Hr & Hl & <-). right. exists (id, r). rewrite elem_of_map_to_list. simpl. by rewrite Hl.
    + intros (j & Hj & Hrun & Hload & <-). left. exists (id, j). rewrite elem_of_map_to_list.
      simpl. by rewrite Hrun, Hload.
Qed.

Lemma front_Some s c : front s = Some c -> waiting s c /\ forall d, waiting s d -> front_le c d.
Proof.
  intros Hf. destruct (min_by_Some _ _ _ Hf) as [Hin Hmin]. split; [by apply elem_of_waiting|].
  intros d Hd. apply Hmin. by apply elem_of_waiting.
Qed.
Lemma front_None s d : front s = None -> ~ waiting s d.
Proof.
  intros Hf Hd%elem_of_waiting. apply min_by_None in Hf. rewrite Hf in Hd. by apply not_elem_of_nil in Hd.
Qed.

(** Running background work, as a set. *)
Definition preemptible (s : PreviewScheduler) (c : Candidate) : Prop :=
  let '(p, id, native) := c in
  p = Background /\
  if native then exists r, external s !! id = Some r /\ is_Some (r_lease r) /\ r_priority r = Background
  else exists j, jobs s !! id = Some j /\ j_running j = true /\ priority j = Background.

Lemma elem_of_background_reads s c : c ∈ background_reads s <-> preemptible s c /\ c.2 = true.
Proof.
  destruct c as [[p id] native]. unfold background_reads. rewrite list_elem_of_omap. split.
  - intros ([i r] & Hin & Hc). apply elem_of_map_to_list in Hin. simpl in Hc.
    destruct (r_lease r) eqn:El, (r_priority r) eqn:Ep; try discriminate Hc.
    injection Hc as <- <- <-. simpl. split; [|done]. split; [done|]. exists r. eauto.
  - intros [[-> Hc] ?]. simpl in *. subst native. destruct Hc as (r & Hr & [l Hl] & Hp).
    exists (id, r). rewrite elem_of_map_to_list. simpl. by rewrite Hl, Hp.
Qed.
Lemma elem_of_background_jobs s c : c ∈ background_jobs s <-> preemptible s c /\ c.2 = false.
Proof.
  destruct c as [[p id] native]. unfold background_jobs. rewrite list_elem_of_omap. split.
  - intros ([i j] & Hin & Hc). apply elem_of_map_to_list in Hin. simpl in Hc.
    destruct (j_running j) eqn:El, (priority j) eqn:Ep; try discriminate Hc.
    injection Hc as <- <- <-. simpl. split; [|done]. split; [done|]. exists j. eauto.
  - intros [[-> Hc] ?]. simpl in *. subst native. destruct Hc as (j & Hj & Hl & Hp).
    exists (id, j). rewrite elem_of_map_to_list. simpl. by rewrite Hl, Hp.
Qed.

(** *** What preemption does: nothing, or it raises the token of one running
    piece of background work. *)

Definition preempted_job (j : Job) : Job :=
  mkJob (j_key j) (j_cost j) (j_consumers j) (j_running j) (j_canceled j) true (j_lease j).

Inductive preempts (s : PreviewScheduler) : PreviewScheduler -> Prop :=
| pr_none : preempts s s
| pr_read id r : external s !! id = Some r -> is_Some (r_lease r) -> r_priority r = Background ->
    preempts s (set_flag (r_preempted r) true s)
| pr_job id j : jobs s !! id = Some j -> j_running j = true -> priority j = Background ->
    preempts s (set_flag (j_canceled j) true (put_job id (preempted_job j) s)).

Lemma preempt_victim_run s c :
  preemptible s c -> exists s', preempt_victim c s = (s', Ok tt) /\ preempts s s'.
Proof.
  destruct c as [[p id] native]. intros [-> Hc]. unfold preempt_victim, the_read, the_job.
  destruct native.
  - destruct Hc as (r & Hr & Hl & Hp). unfold bind, get, of_option. rewrite Hr.
    eexists. split; [reflexivity|]. by eapply pr_read.
  - destruct Hc as (j & Hj & Hl & Hp). unfold bind, get, of_option. rewrite Hj.
    eexists. split; [reflexivity|]. by eapply (pr_job _ id).
Qed.

Lemma oldest_Some (l : list Candidate) c : oldest l = Some c -> c ∈ l /\ forall d, d ∈ l -> cand_id c <= cand_id d.
Proof. intros H. by destruct (min_by_Some _ _ _ H). Qed.

Lemma lacks_room_run s cost :
  wf s -> exists b, lacks_room cost s = (s, Ok b)
    /\ (b = true <-> workers (limits s) <= u_active (usage s) \/ working_bytes (limits s) - reserved s < cost).
Proof.
  intros Hw. unfold lacks_room, bind, get, usub, of_option, checked_sub, ret.
  destruct (Z.leb_spec (workers (limits s)) (u_active (usage s))); [exists true; split; [done|intuition]|].
  pose proof (w_fits _ Hw). destruct (Z.leb_spec (reserved s) (working_bytes (limits s))); [|lia]. cbv beta iota.
  eexists. split; [reflexivity|].
  destruct (Z.ltb_spec (working_bytes (limits s) - reserved s) cost);
    (split; [intros Hb|intros Hb]; [try discriminate Hb; right; lia|try reflexivity; lia]).
Qed.

(** When a foreground candidate is at the front, the victim. *)
Lemma preempt_run s :
  wf s -> exists s', preempt_background s = (s', Ok tt) /\ preempts s s'.
Proof.
  intros Hw. unfold preempt_background, bind at 1, get.
  destruct (front s) as [c|] eqn:Hf; [|exists s; split; [done|constructor]].
  destruct (front_Some _ _ Hf) as [Hwait _].
  destruct (cand_fg c); [|exists s; split; [done|constructor]].
  destruct (if c.2 then oldest (background_reads s) else None) as [v|] eqn:Hv.
  - destruct c.2; [|discriminate Hv]. destruct (oldest_Some _ _ Hv) as [Hin _].
    apply elem_of_background_reads in Hin as [Hp _]. by apply preempt_victim_run.
  - destruct c as [[p id] native]. unfold preempt_for.
    assert (exists cost, (if native then let* r := the_read id in ret (r_cost r)
              else let* j := the_job id in ret (j_cost j))%prog s = (s, Ok cost)) as [cost Hcost].
    { destruct native; destruct Hwait as (x & Hx & _); exists (ltac:(first [exact (r_cost x)|exact (j_cost x)]));
        unfold the_read, the_job, bind, get, of_option; by rewrite Hx. }
    rewrite (bind_ok _ _ _ _ _ Hcost).
    destruct (lacks_room_run s cost Hw) as (b & Hb & _). rewrite (bind_ok _ _ _ _ _ Hb).
    unfold bind at 1, get. destruct b; [|exists s; split; [done|constructor]].
    destruct (oldest (background_jobs s ++ background_reads s)) as [v|] eqn:Ho;
      [|exists s; split; [done|constructor]].
    destruct (oldest_Some _ _ Ho) as [Hin _]. apply preempt_victim_run.
    apply elem_of_app in Hin as [Hin|Hin]; [by apply elem_of_background_jobs in Hin as [? _]|].
    by apply elem_of_background_reads in Hin as [? _].
Qed.

Lemma load_set_flag s f g b : load (set_flag f b s) g = if f =? g then b else load s g.
Proof.
  unfold load. simpl. destruct (Z.eqb_spec f g) as [->|Hne]; [by rewrite lookup_insert_eq|by rewrite lookup_insert_ne].
Qed.

Lemma preempts_wf s s' : preempts s s' -> wf s -> wf s'.
Proof.
  intros [|id r Hr Hl Hp|id j Hj Hrun Hp] Hw; [done| |].
  - assert (read_charge r <= reserved s) by (by eapply read_charge_le).
    replace (set_flag (r_preempted r) true s)
      with (mkScheduler (limits s) (next s) (jobs s) (keys s) (consumers s) (reserved s)
              (<[id := r]> (external s)) (<[r_preempted r := true]> (flags s)) (next_flag s))
      by (unfold set_flag; f_equal; by apply insert_id).
    pose proof (w_active _ Hw). pose proof (w_fits _ Hw).
    apply (wf_update_read s id r r); try done; try lia; try (intros; by rewrite lookup_insert_ne); eauto.
    destruct (w_read _ Hw _ _ Hr). by constructor.
  - destruct (w_job _ Hw _ _ Hj). pose proof (w_active _ Hw). pose proof (w_fits _ Hw).
    apply (wf_update_job s id j (preempted_job j)); try done; try lia; eauto.
    + intros f Hf Hne. by rewrite lookup_insert_ne.
    + unfold job_charge. simpl. lia.
    + unfold count_if. simpl. lia.
    + constructor; simpl; try done; [intros Hf; congruence|].
      unfold load. simpl. rewrite lookup_insert_eq. simpl. split; [by left|done].
Qed.

(** Preemption does not touch what waits, what runs, or what is charged. *)
Lemma preempts_frame s s' :
  preempts s s' -> wf s ->
  limits s' = limits s /\ next s' = next s /\ keys s' = keys s /\ consumers s' = consumers s
  /\ reserved s' = reserved s /\ external s' = external s
  /\ u_active (usage s') = u_active (usage s)
  /\ (forall c, waiting s' c <-> waiting s c)
  /\ (forall id j', jobs s' !! id = Some j' -> exists j, jobs s !! id = Some j /\ (j' = j \/ (j_running j = true /\ j' = preempted_job j)))
  /\ (forall id, is_Some (jobs s !! id) -> is_Some (jobs s' !! id)).
Proof.
  intros [|id r Hr Hl Hp|id j Hj Hrun Hp] Hw; [split_and!; eauto|split_and!; try done; eauto|].
  - intros [[p i] native]. destruct native; [done|]. simpl.
    setoid_rewrite load_set_flag. split; intros (j & Hj & H1 & H2 & H3); exists j; split_and!; try done.
    + destruct (Z.eqb_spec (r_preempted r) (j_canceled j)) as [E|]; [|done]. by destruct (w_flags _ Hw i id j r).
    + destruct (Z.eqb_spec (r_preempted r) (j_canceled j)) as [E|]; [|done]. by destruct (w_flags _ Hw i id j r).
  - split_and!; try done.
    + simpl. unfold map_count at 1. rewrite (map_sum_update _ _ _ _ _ Hj).
      unfold count_if at 1 2. simpl. unfold map_count. lia.
    + intros [[p i] native]. destruct native; [done|]. simpl. setoid_rewrite load_set_flag. split.
      * intros (k & Hk & H1 & H2 & H3). apply lookup_insert_Some in Hk as [[<- <-]|[Hne Hk]];
          [simpl in H1; congruence|]. exists k. split_and!; try done. case_match; [done|done].
      * intros (k & Hk & H1 & H2 & H3). assert (id <> i) by congruence. exists k.
        rewrite lookup_insert_ne by done. split_and!; try done.
        destruct (Z.eqb_spec (j_canceled j) (j_canceled k)) as [E|]; [|done].
        by destruct (w_job_flags _ Hw id i j k Hj Hk E).
    + simpl. intros i k [[<- <-]|[Hne Hk]]%lookup_insert_Some; eauto.
    + simpl. intros i Hi. apply lookup_insert_is_Some'. by right.
Qed.

(** ** Operations keep the invariant and do not panic *)

Definition not_panic {A} (r : result SchedError A) : Prop := forall m, r <> Err (Panic m).

Lemma sched_wf_counters s n' fl' nf' :
  wf s -> next s <= n' -> next_flag s <= nf' ->
  (forall f, f < next_flag s -> fl' !! f = flags s !! f) ->
  wf (mkScheduler (limits s) n' (jobs s) (keys s) (consumers s) (reserved s) (external s) fl' nf').
Proof.
  intros Hw Hn Hnf Hfl. constructor; simpl; try apply Hw.
  - intros i k Hk. destruct (w_job _ Hw _ _ Hk).
    assert (forall f, f < next_flag s -> default false (fl' !! f) = load s f) as Hload
      by (intros f Hf; unfold load; by rewrite Hfl).
    constructor; simpl; try done; try lia;
      try (intros l Hl; specialize (jo_lease_lt0 l Hl); lia);
      unfold load; simpl; rewrite Hload by done; done.
  - intros i r Hr. destruct (w_read _ Hw _ _ Hr). constructor; simpl; try lia.
    intros l Hl. specialize (ro_lease_lt0 l Hl). lia.
  - intros c i Hc. destruct (w_consumers _ Hw _ _ Hc). split; [lia|done].
Qed.

Lemma serial_run s :
  wf s -> (serial s = (set_next (next s + 1) s, Ok (next s)) /\ wf (set_next (next s + 1) s)
           /\ next s + 1 <= u64_max)
          \/ serial s = (s, Err (Message "request identity overflow")).
Proof.
  intros Hw. unfold serial, bind, get, of_option, put, ret.
  destruct (checked_add (next s) 1) as [n|] eqn:Hn; [|by right]. left.
  apply checked_add_Some in Hn as [-> Hn]. split; [done|]. split; [|done].
  apply sched_wf_counters; try done; lia.
Qed.

Lemma queue_has_room_run s :
  (queue_has_room s = (s, Ok tt) /\ map_len (consumers s) + map_len (external s) < requests (limits s))
  \/ queue_has_room s = (s, Err (Message "preview request queue full")).
Proof.
  unfold queue_has_room, bind, get, ensure.
  destruct (Z.ltb_spec (map_len (consumers s) + map_len (external s)) (requests (limits s))); [left|right]; done.
Qed.

Lemma wf_insert_read s id r :
  wf s -> external s !! id = None -> r_lease r = None -> read_ok s id r ->
  (forall i j, jobs s !! i = Some j -> j_canceled j <> r_preempted r) ->
  map_len (consumers s) + map_len (external s) < requests (limits s) ->
  wf (put_read id r s).
Proof.
  intros Hw Hid Hl Hok Hfl Hroom. constructor; simpl; try apply Hw.
  - rewrite map_sum_insert by done. unfold read_charge at 1, leased. rewrite Hl. simpl. apply Hw.
  - unfold map_count at 2. rewrite map_sum_insert by done. unfold count_if at 1, leased at 1.
    rewrite Hl. simpl. apply Hw.
  - rewrite map_len_insert by done. lia.
  - intros i k Hk. destruct (w_job _ Hw _ _ Hk). by constructor.
  - intros i x [[<- <-]|[_ Hx]]%lookup_insert_Some; [by destruct Hok|]. by destruct (w_read _ Hw _ _ Hx).
  - intros i i' x x' l Hx Hx' E E'. apply lookup_insert_Some in Hx, Hx'.
    destruct Hx as [[<- <-]|[_ Hx]], Hx' as [[<- <-]|[_ Hx']]; try congruence.
    by apply (w_read_leases _ Hw i i' x x' l).
  - intros i i' j x l Hj [[<- <-]|[_ Hx]]%lookup_insert_Some E E'; [congruence|].
    by apply (w_leases _ Hw i i' j x l).
  - intros i i' j x Hj [[<- <-]|[_ Hx]]%lookup_insert_Some; [eauto|]. by apply (w_flags _ Hw i i').
Qed.

Lemma wf_delete_read s id r res' :
  wf s -> external s !! id = Some r -> res' = reserved s - read_charge r ->
  wf (mkScheduler (limits s) (next s) (jobs s) (keys s) (consumers s) res'
        (delete id (external s)) (flags s) (next_flag s)).
Proof.
  intros Hw Hr ->. pose proof (read_charge_bounds _ _ _ Hw Hr). pose proof (w_active _ Hw) as Ha.
  constructor; simpl; try apply Hw.
  - rewrite (w_reserved _ Hw), (map_sum_delete _ _ _ _ Hr). lia.
  - pose proof (w_fits _ Hw). lia.
  - unfold map_count in Ha at 2. rewrite (map_sum_delete _ _ _ _ Hr) in Ha. unfold map_count at 2.
    unfold count_if in Ha at 1. destruct (leased r); lia.
  - pose proof (w_queue _ Hw). rewrite map_len_delete by eauto. lia.
  - intros i k Hk. destruct (w_job _ Hw _ _ Hk). by constructor.
  - intros i x [_ Hx]%lookup_delete_Some. by destruct (w_read _ Hw _ _ Hx).
  - intros i i' x x' l [_ Hx]%lookup_delete_Some [_ Hx']%lookup_delete_Some. by apply (w_read_leases _ Hw).
  - intros i i' j x l Hj [_ Hx]%lookup_delete_Some. by apply (w_leases _ Hw i i').
  - intros i i' j x Hj [_ Hx]%lookup_delete_Some. by apply (w_flags _ Hw i i').
Qed.

Lemma read_request_run s l :
  wf s -> (exists id r, read_request l s = (s, Ok id) /\ external s !! id = Some r /\ r_lease r = Some l)
          \/ (read_request l s = (s, Err (Message "native read lease missing"))
              /\ forall id r, external s !! id = Some r -> r_lease r <> Some l).
Proof.
  intros Hw. unfold read_request, bind, get.
  set (f := fun e : Z * NativeRead => _). set (ids := omap f _).
  assert (forall id, id ∈ ids <-> exists r, external s !! id = Some r /\ r_lease r = Some l) as Hids.
  { intros id. unfold ids. rewrite list_elem_of_omap. split.
    - intros ([i r] & Hin & Hf). unfold f in Hf. simpl in Hf. apply elem_of_map_to_list in Hin.
      case_bool_decide; [|discriminate Hf]. injection Hf as <-. eauto.
    - intros (r & Hr & Hl). exists (id, r). rewrite elem_of_map_to_list. split; [done|].
      unfold f. simpl. by rewrite bool_decide_true. }
  destruct ids as [|id ids'].
  - right. split; [done|]. intros id r Hr Hl. by apply (not_elem_of_nil id), Hids; eauto.
  - left. destruct (proj1 (Hids id) ltac:(left)) as (r & Hr & Hl). exists id, r. done.
Qed.

Lemma usub_ok s a b : b <= a -> usub a b s = (s, Ok (a - b)).
Proof. intros Hle. unfold usub, checked_sub. by destruct (Z.leb_spec b a); [|lia]. Qed.
Lemma the_read_ok s id r : external s !! id = Some r -> the_read id s = (s, Ok r).
Proof. intros Hr. unfold the_read, bind, get, of_option. by rewrite Hr. Qed.
Lemma the_job_ok s id j : jobs s !! id = Some j -> the_job id s = (s, Ok j).
Proof. intros Hr. unfold the_job, bind, get, of_option. by rewrite Hr. Qed.

Lemma fresh_read s : wf s -> external s !! next s = None.
Proof.
  intros Hw. destruct (external s !! next s) as [r|] eqn:E; [|done].
  pose proof (ro_id _ _ _ (w_read _ Hw _ _ E)). lia.
Qed.
Lemma fresh_job s : wf s -> jobs s !! next s = None.
Proof.
  intros Hw. destruct (jobs s !! next s) as [r|] eqn:E; [|done].
  pose proof (jo_id _ _ _ (w_job _ Hw _ _ E)). lia.
Qed.
Lemma fresh_consumer s : wf s -> consumers s !! next s = None.
Proof.
  intros Hw. destruct (consumers s !! next s) as [r|] eqn:E; [|done].
  pose proof (proj1 (w_consumers _ Hw _ _ E)). lia.
Qed.

(** A run's outcome is well formed and not a panic. *)
Definition safe {A} (m : SchedM A) (s : PreviewScheduler) : Prop :=
  wf (m s).1 /\ not_panic (m s).2.

Lemma queue_native_read_safe p s : wf s -> safe (queue_native_read p) s.
Proof.
  intros Hw. unfold safe, queue_native_read.
  destruct (queue_has_room_run s) as [[Hq Hroom]|Hq]; [|by rewrite (bind_err _ _ _ _ _ Hq)].
  rewrite (bind_ok _ _ _ _ _ Hq).
  destruct (serial_run s Hw) as [(Hs & Hw1 & _)|Hs]; [|by rewrite (bind_err _ _ _ _ _ Hs)].
  rewrite (bind_ok _ _ _ _ _ Hs). set (s1 := set_next _ s) in *.
  rewrite (bind_ok new_flag _ s1 _ (next_flag s1) eq_refl).
  set (s2 := mkScheduler _ _ _ _ _ _ _ _ _).
  assert (wf s2) as Hw2.
  { apply (sched_wf_counters s1); try done; try lia. intros f Hf. rewrite lookup_insert_ne; [done|lia]. }
  rewrite (bind_ok (modify _) _ s2 (put_read (next s) (mkRead p 0 None (next_flag s1)) s2) tt eq_refl).
  set (s3 := put_read _ _ s2). assert (wf s3) as Hw3.
  { apply wf_insert_read; try done.
    - exact (fresh_read s Hw).
    - destruct (w_limits _ Hw). constructor; simpl; [lia|lia|done|lia].
    - intros i j Hj. pose proof (jo_flag _ _ _ (w_job _ Hw _ _ Hj)). simpl. lia. }
  destruct (preempt_run s3 Hw3) as (s4 & Hp & Hpr). rewrite (bind_ok _ _ _ _ _ Hp).
  split; [by apply (preempts_wf s3)|done].
Qed.

Lemma cancel_queued_safe r s : wf s -> safe (cancel_queued_native_read r) s.
Proof.
  intros Hw. unfold safe, cancel_queued_native_read. run.
  destruct (external s !! r) as [x|] eqn:Hr; [|done]. run. destruct (r_lease x) as [l|] eqn:Hl; [by rewrite bool_decide_true by eauto|].
  rewrite bool_decide_false by (by intros [? ?]). split; [|done].
  apply (wf_delete_read s r x); [done|done|]. unfold read_charge, leased. rewrite Hl. simpl. lia.
Qed.

Lemma release_safe l s : wf s -> safe (release_native_read l) s.
Proof.
  intros Hw. unfold safe, release_native_read.
  destruct (read_request_run s l Hw) as [(id & r & Hq & Hr & Hl)|[Hq _]];
    [|by rewrite (bind_err _ _ _ _ _ Hq)].
  rewrite (bind_ok _ _ _ _ _ Hq), (bind_ok _ _ _ _ _ (the_read_ok _ _ _ Hr)).
  pose proof (read_charge_le _ _ _ Hw Hr) as Hc.
  assert (read_charge r = r_cost r) as Hcost by (unfold read_charge, leased; by rewrite Hl).
  run. erewrite bind_ok; [|apply usub_ok; simpl; lia]. split; [|done].
  apply (wf_delete_read s id r); [done|done|simpl; lia].
Qed.

Lemma read_cost_run c s :
  (read_cost c s = (s, Ok tt) /\ 0 < c <= working_bytes (limits s)) \/
  read_cost c s = (s, Err (ResourceLimit "Encoded preview exceeds native working allowance; increase it and retry")).
Proof.
  unfold read_cost. run. unfold ensure.
  destruct ((0 <? c) && (c <=? working_bytes (limits s))) eqn:E; [left; split; [done|lia]|right; done].
Qed.

(** Changing the cost or lease of a read together with the charge. *)
Lemma wf_reprice s id r cost lease flag_value res' n' :
  wf s -> external s !! id = Some r -> 0 <= cost <= working_bytes (limits s) -> next s <= n' ->
  (lease = None \/ lease = r_lease r \/ (lease = Some (next s) /\ next s < n')) ->
  let r' := mkRead (r_priority r) cost lease (r_preempted r) in
  res' = reserved s - read_charge r + read_charge r' -> res' <= working_bytes (limits s) ->
  (is_Some lease -> is_Some (r_lease r) \/ map_count j_running (jobs s) + map_count leased (external s) < workers (limits s)) ->
  wf (mkScheduler (limits s) n' (jobs s) (keys s) (consumers s) res' (<[id := r']> (external s))
        (match flag_value with Some b => <[r_preempted r := b]> (flags s) | None => flags s end) (next_flag s)).
Proof.
  intros Hw Hr Hc Hn Hl r' Hres Hfit Hact. destruct (w_read _ Hw _ _ Hr). pose proof (w_active _ Hw).
  apply (wf_update_read s id r r'); try done; try lia.
  - intros f Hf Hne. destruct flag_value; [by rewrite lookup_insert_ne|done].
  - intros l. simpl. destruct Hl as [->|[->|[-> ?]]]; [done|by left|]. intros [= <-]. right. lia.
  - unfold count_if. destruct (leased r) eqn:E, (leased r') eqn:E'; try lia.
    apply bool_decide_eq_true in E'. apply bool_decide_eq_false in E.
    destruct (Hact E'); [done|lia].
  - constructor; simpl; try done; try lia. intros l ->.
    destruct Hl as [|[Hl|[[= ->] ?]]]; [done| |lia]. specialize (ro_lease_lt0 l (eq_sym Hl)). lia.
Qed.

Lemma admit_safe req c s : wf s -> safe (admit_native_read req c) s.
Proof.
  intros Hw. unfold safe, admit_native_read.
  destruct (read_cost_run c s) as [[Hc Hcost]|Hc]; [|by rewrite (bind_err _ _ _ _ _ Hc)].
  rewrite (bind_ok _ _ _ _ _ Hc). run.
  destruct (external s !! req) as [r|] eqn:Hr; [|done]. run.
  destruct (r_lease r) as [l|] eqn:Hl; [by rewrite bool_decide_true by eauto|].
  rewrite bool_decide_false by (by intros [? ?]). simpl negb. cbv iota. run.
  set (r1 := mkRead (r_priority r) c None (r_preempted r)). set (s1 := put_read req r1 s).
  pose proof (w_fits _ Hw) as Hfit.
  assert (read_charge r = 0) as Hz by (unfold read_charge, leased; rewrite Hl; done).
  assert (wf s1) as Hw1.
  { apply (wf_reprice s req r c None None); try done; try lia; try by intros [? ?].
    - by left.
    - unfold read_charge at 2. simpl. lia. }
  destruct (preempt_run s1 Hw1) as (s2 & Hp & Hpr). rewrite (bind_ok _ _ _ _ _ Hp).
  pose proof (preempts_wf _ _ Hpr Hw1) as Hw2.
  destruct (preempts_frame _ _ Hpr Hw1) as (_ & _ & _ & _ & _ & Hext & _).
  destruct (lacks_room_run s2 c Hw2) as (b & Hb & Hbi). rewrite (bind_ok _ _ _ _ _ Hb). run.
  destruct (b || _) eqn:Hcond; [done|]. apply orb_false_iff in Hcond as [-> _].
  assert (u_active (usage s2) < workers (limits s2) /\ c <= working_bytes (limits s2) - reserved s2) as [Hact Hroom].
  { destruct (Z.le_gt_cases (workers (limits s2)) (u_active (usage s2))).
    - discriminate (proj2 Hbi (or_introl H)).
    - split; [lia|]. destruct (Z.le_gt_cases c (working_bytes (limits s2) - reserved s2)); [done|].
      discriminate (proj2 Hbi (or_intror ltac:(lia))). }
  destruct (serial_run s2 Hw2) as [(Hs & Hw3 & _)|Hs]; [|by rewrite (bind_err _ _ _ _ _ Hs)].
  rewrite (bind_ok _ _ _ _ _ Hs).
  assert (external s2 !! req = Some r1) as Hr2 by (rewrite Hext; apply lookup_insert_eq).
  rewrite (bind_ok _ _ _ _ _ (the_read_ok (set_next (next s2 + 1) s2) req r1 Hr2)). run.
  split; [|done]. unfold ret. simpl.
  apply (wf_reprice s2 req r1 c (Some (next s2)) None); try done; try lia.
  - destruct (preempts_frame _ _ Hpr Hw1) as (-> & _). simpl. lia.
  - simpl. lia.
  - right. right. split; [done|simpl; lia].
  - unfold read_charge. simpl. lia.
  - intros _. right. exact Hact.
Qed.

Lemma upgrade_safe l c s : wf s -> safe (upgrade_native_read l c) s.
Proof.
  intros Hw. unfold safe, upgrade_native_read.
  destruct (read_cost_run c s) as [[Hc Hcost]|Hc]; [|by rewrite (bind_err _ _ _ _ _ Hc)].
  rewrite (bind_ok _ _ _ _ _ Hc).
  destruct (read_request_run s l Hw) as [(id & r & Hq & Hr & Hl)|[Hq _]];
    [|by rewrite (bind_err _ _ _ _ _ Hq)].
  rewrite (bind_ok _ _ _ _ _ Hq), (bind_ok _ _ _ _ _ (the_read_ok _ _ _ Hr)). run.
  pose proof (read_charge_le _ _ _ Hw Hr) as Hle. pose proof (w_fits _ Hw) as Hfit.
  assert (read_charge r = r_cost r) as Hcr by (unfold read_charge, leased; by rewrite Hl).
  pose proof (ro_cost _ _ _ (w_read _ Hw _ _ Hr)).
  erewrite bind_ok; [|apply usub_ok; lia]. erewrite bind_ok; [|apply usub_ok; lia].
  destruct (Z.ltb_spec (working_bytes (limits s) - (reserved s - r_cost r)) c); [done|]. run.
  split; [|done]. unfold ret. simpl.
  apply (wf_reprice s id r c (r_lease r) None); try done; try lia; try (by right; left);
    try (intros ?; by left).
  - unfold read_charge at 2, leased. simpl. rewrite Hl. simpl. lia.
  - simpl. lia.
Qed.

Lemma requeue_safe l c s : wf s -> safe (requeue_native_read l c) s.
Proof.
  intros Hw. unfold safe, requeue_native_read.
  destruct (read_cost_run c s) as [[Hc Hcost]|Hc]; [|by rewrite (bind_err _ _ _ _ _ Hc)].
  rewrite (bind_ok _ _ _ _ _ Hc).
  destruct (read_request_run s l Hw) as [(id & r & Hq & Hr & Hl)|[Hq _]];
    [|by rewrite (bind_err _ _ _ _ _ Hq)].
  rewrite (bind_ok _ _ _ _ _ Hq), (bind_ok _ _ _ _ _ (the_read_ok _ _ _ Hr)). run.
  pose proof (read_charge_le _ _ _ Hw Hr) as Hle. pose proof (w_fits _ Hw) as Hfit.
  assert (read_charge r = r_cost r) as Hcr by (unfold read_charge, leased; by rewrite Hl).
  pose proof (ro_cost _ _ _ (w_read _ Hw _ _ Hr)).
  erewrite bind_ok; [|apply usub_ok; lia]. unfold store. run.
  match goal with |- wf (preempt_background ?x).1 /\ _ => set (s1 := x) end.
  assert (wf s1) as Hw1.
  { apply (wf_reprice s id r c None (Some false)); try done; try lia; try by intros [? ?].
    - by left.
    - unfold read_charge at 2. simpl. lia.
    - simpl. lia. }
  destruct (preempt_run s1 Hw1) as (s2 & -> & Hpr). split; [by apply (preempts_wf s1)|done].
Qed.

(** *** Renders: joining, creating, leaving and removing a job *)

Lemma wf_join s id j c p :
  wf s -> jobs s !! id = Some j -> keys s !! j_key j = Some id ->
  consumers s !! c = None -> c < next s ->
  map_len (consumers s) + map_len (external s) < requests (limits s) ->
  load s (j_canceled j) = false \/ j_preempted j = true ->
  let j' := mkJob (j_key j) (j_cost j) (<[c := p]> (j_consumers j)) (j_running j) (j_canceled j)
              (j_preempted j) (j_lease j) in
  wf (set_consumers (<[c := id]> (consumers s)) (put_job id j' s)).
Proof.
  intros Hw Hj Hk Hc Hlt Hroom Hlive j'. set (s' := set_consumers _ _).
  assert (forall i k x, jobs s !! i = Some k -> is_Some (j_consumers k !! x) -> x <> c) as Hnew.
  { intros i k x Hi Hx ->. pose proof (jo_consumers _ _ _ (w_job _ Hw _ _ Hi) c Hx). congruence. }
  constructor; simpl; try apply Hw.
  - rewrite (map_sum_update _ _ _ _ _ Hj). rewrite (w_reserved _ Hw). unfold job_charge at 2 3. simpl. lia.
  - pose proof (w_active _ Hw). unfold map_count at 1. rewrite (map_sum_update _ _ _ _ _ Hj).
    unfold count_if at 1 2. simpl. unfold map_count in *. lia.
  - rewrite map_len_insert by done. lia.
  - intros i k [[<- <-]|[Hne Hi]]%lookup_insert_Some.
    + destruct (w_job _ Hw _ _ Hj). constructor; simpl; try done; try lia.
      * intros x. destruct (decide (x = c)) as [->|Hx]; [by rewrite !lookup_insert_eq|].
        rewrite !lookup_insert_ne by done. auto.
      * intros Hr. destruct (jo_waiting0 Hr) as (? & ? & ?). split_and!; try done. apply insert_non_empty.
      * change (load s' (j_canceled j)) with (load s (j_canceled j)). split.
        -- intros Hl. destruct Hlive; [congruence|by left].
        -- intros [Hp|He]; [apply jo_canceled0; by left|by destruct (insert_non_empty (j_consumers j) c p)].
      * by left.
    + destruct (w_job _ Hw _ _ Hi). constructor; simpl; try done.
      intros x Hx. rewrite lookup_insert_ne; [auto|]. intros <-. by apply (Hnew i k c).
  - intros i x Hx. by destruct (w_read _ Hw _ _ Hx).
  - intros k i Hi. destruct (w_keys _ Hw _ _ Hi) as (x & Hx & Hxk). destruct (decide (id = i)) as [<-|Hne].
    + exists j'. rewrite lookup_insert_eq. split; [done|simpl; congruence].
    + exists x. by rewrite lookup_insert_ne.
  - intros x i [[<- <-]|[Hne Hx]]%lookup_insert_Some.
    + split; [done|]. exists j'. rewrite lookup_insert_eq. split; [done|]. simpl. rewrite lookup_insert_eq. eauto.
    + destruct (w_consumers _ Hw _ _ Hx) as (? & k & Hk' & Hin). split; [done|].
      destruct (decide (id = i)) as [<-|Hni].
      * exists j'. rewrite lookup_insert_eq. split; [done|]. simpl. rewrite lookup_insert_ne by done. congruence.
      * exists k. by rewrite lookup_insert_ne.
  - intros i i' x x' l Hx Hx'. apply lookup_insert_Some in Hx, Hx'.
    destruct Hx as [[<- <-]|[? Hx]], Hx' as [[<- <-]|[? Hx']]; simpl; try done;
      intros E E'; eapply (w_job_leases _ Hw); eassumption.
  - intros i i' x r l [[<- <-]|[? Hx]]%lookup_insert_Some Hr E E'; eapply (w_leases _ Hw _ i'); eassumption.
  - intros i i' x x' Hx Hx'. apply lookup_insert_Some in Hx, Hx'.
    destruct Hx as [[<- <-]|[? Hx]], Hx' as [[<- <-]|[? Hx']]; simpl; try done;
      intros E; eapply (w_job_flags _ Hw); eassumption.
  - intros i i' x r [[<- <-]|[? Hx]]%lookup_insert_Some Hr; [apply (w_flags _ Hw id i' j r Hj Hr)|apply (w_flags _ Hw i i' x r Hx Hr)].
Qed.

Lemma wf_insert_job s id key cost c p f :
  wf s -> jobs s !! id = None -> id < next s -> 0 < cost <= working_bytes (limits s) ->
  consumers s !! c = None -> c < next s ->
  map_len (consumers s) + map_len (external s) < requests (limits s) ->
  f < next_flag s -> load s f = false ->
  (forall i k, jobs s !! i = Some k -> j_canceled k <> f) ->
  (forall i r, external s !! i = Some r -> r_preempted r <> f) ->
  (forall i k, keys s !! key = Some i -> jobs s !! i = Some k -> j_consumers k = ∅) ->
  let j := mkJob key cost {[c := p]} false f false None in
  wf (set_consumers (<[c := id]> (consumers s)) (put_job id j (set_keys (<[key := id]> (keys s)) s))).
Proof.
  intros Hw Hj Hid Hcost Hc Hlt Hroom Hf Hload Hfj Hfr Hold j. set (s' := set_consumers _ _).
  constructor; simpl; try apply Hw.
  - rewrite map_sum_insert by done. rewrite (w_reserved _ Hw). unfold job_charge at 2. simpl. lia.
  - pose proof (w_active _ Hw). unfold map_count at 1. rewrite map_sum_insert by done.
    unfold count_if at 1. simpl. unfold map_count in *. lia.
  - rewrite map_len_insert by done. lia.
  - intros i k [[<- <-]|[Hne Hi]]%lookup_insert_Some.
    + constructor; simpl; try done.
      * intros x [y [<- _]%lookup_singleton_Some]. apply lookup_insert_eq.
      * change (load s' f) with (load s f). rewrite Hload. split; [done|].
        intros [|He]; [done|by destruct (insert_non_empty (∅ : gmap Consumer Priority) c p)].
      * left. apply lookup_insert_eq.
    + destruct (w_job _ Hw _ _ Hi). constructor; simpl; try done.
      * intros x Hx. rewrite lookup_insert_ne; [auto|]. intros <-. specialize (jo_consumers0 c Hx). congruence.
      * destruct jo_key0 as [Hk|Hk]; [|by right]. destruct (decide (key = j_key k)) as [->|Hnk].
        -- right. by apply (Hold i).
        -- left. by rewrite lookup_insert_ne.
  - intros i x Hx. by destruct (w_read _ Hw _ _ Hx).
  - intros k i [[<- <-]|[Hne Hi]]%lookup_insert_Some.
    + exists j. by rewrite lookup_insert_eq.
    + destruct (w_keys _ Hw _ _ Hi) as (x & Hx & Hxk). exists x. split; [|done].
      rewrite lookup_insert_ne; [done|]. congruence.
  - intros x i [[<- <-]|[Hne Hx]]%lookup_insert_Some.
    + split; [done|]. exists j. rewrite lookup_insert_eq. split; [done|]. simpl. rewrite lookup_singleton_eq. eauto.
    + destruct (w_consumers _ Hw _ _ Hx) as (? & k & Hk' & Hin). split; [done|].
      exists k. rewrite lookup_insert_ne; [done|]. congruence.
  - intros i i' x x' l Hx Hx'. apply lookup_insert_Some in Hx, Hx'.
    destruct Hx as [[<- <-]|[? Hx]], Hx' as [[<- <-]|[? Hx']]; simpl; try done;
      intros E E'; eapply (w_job_leases _ Hw); eassumption.
  - intros i i' x r l [[<- <-]|[? Hx]]%lookup_insert_Some Hr; [done|]; by apply (w_leases _ Hw i i').
  - intros i i' x x' Hx Hx'. apply lookup_insert_Some in Hx, Hx'.
    destruct Hx as [[<- <-]|[? Hx]], Hx' as [[<- <-]|[? Hx']]; simpl; try done.
    + intros E. by destruct (Hfj i' x' Hx').
    + intros E. by destruct (Hfj i x Hx).
    + intros E; eapply (w_job_flags _ Hw); eassumption.
  - intros i i' x r [[<- <-]|[? Hx]]%lookup_insert_Some Hr; [|by apply (w_flags _ Hw i i')].
    simpl. intros E. by destruct (Hfr i' r Hr).
Qed.

(** The state without the job [id], its key (if it owns it) and its consumers. *)
Lemma wf_remove s id j cons' fl' :
  wf s -> jobs s !! id = Some j ->
  (forall c, cons' !! c = if decide (is_Some (j_consumers j !! c)) then None else consumers s !! c) ->
  map_len cons' <= map_len (consumers s) ->
  (forall f, f <> j_canceled j -> fl' !! f = flags s !! f) ->
  wf (mkScheduler (limits s) (next s) (delete id (jobs s))
        (if bool_decide (keys s !! j_key j = Some id) then delete (j_key j) (keys s) else keys s)
        cons' (reserved s - job_charge j) (external s) fl' (next_flag s)).
Proof.
  intros Hw Hj Hcons Hlen Hfl. pose proof (w_active _ Hw) as Ha. pose proof (job_charge_bounds _ _ _ Hw Hj).
  constructor; simpl; try apply Hw.
  - rewrite (w_reserved _ Hw), (map_sum_delete _ _ _ _ Hj). lia.
  - pose proof (w_fits _ Hw). lia.
  - unfold map_count in Ha at 1. rewrite (map_sum_delete _ _ _ _ Hj) in Ha. unfold map_count at 1.
    unfold count_if in Ha at 1. destruct (j_running j); lia.
  - pose proof (w_queue _ Hw). lia.
  - intros i k [Hne Hi]%lookup_delete_Some. destruct (w_job _ Hw _ _ Hi).
    assert (default false (fl' !! j_canceled k) = load s (j_canceled k)) as Hload.
    { unfold load. rewrite Hfl; [done|]. intros E. by apply Hne, (w_job_flags _ Hw id i j k). }
    constructor; unfold load; simpl; rewrite ?Hload; try done.
    + intros c Hc. rewrite Hcons. specialize (jo_consumers0 c Hc). rewrite decide_False; [done|].
      intros Hcj. pose proof (jo_consumers _ _ _ (w_job _ Hw _ _ Hj) c Hcj). congruence.
    + destruct jo_key0 as [Hk|]; [left|by right].
      destruct (bool_decide_reflect (keys s !! j_key j = Some id)) as [E|E]; [|done].
      rewrite lookup_delete_ne; [done|]. intros Ek. rewrite Ek in E. congruence.
  - intros i x Hx. by destruct (w_read _ Hw _ _ Hx).
  - intros k i Hi. assert (keys s !! k = Some i /\ id <> i) as [Hk Hne].
    { case_bool_decide as E; [apply lookup_delete_Some in Hi as [Hne Hi]|]; (split; [done|]); intros ->.
      - destruct (w_keys _ Hw _ _ Hi) as (x & Hx & Hxk). congruence.
      - destruct (w_keys _ Hw _ _ Hi) as (x & Hx & Hxk). congruence. }
    destruct (w_keys _ Hw _ _ Hk) as (x & Hx & Hxk). exists x. by rewrite lookup_delete_ne.
  - intros c i Hc. rewrite Hcons in Hc. case_decide as E; [done|].
    destruct (w_consumers _ Hw _ _ Hc) as (? & k & Hk & Hin). split; [done|]. exists k.
    rewrite lookup_delete_ne; [done|]. intros <-. congruence.
  - intros i i' x x' l [_ Hx]%lookup_delete_Some [_ Hx']%lookup_delete_Some. intros E E'; eapply (w_job_leases _ Hw); eassumption.
  - intros i i' x r l [_ Hx]%lookup_delete_Some Hr. by apply (w_leases _ Hw i i').
  - intros i i' x x' [_ Hx]%lookup_delete_Some [_ Hx']%lookup_delete_Some. intros E; eapply (w_job_flags _ Hw); eassumption.
  - intros i i' x r [_ Hx]%lookup_delete_Some Hr. by apply (w_flags _ Hw i i').
Qed.

(** A consumer leaves a job that stays. *)
Lemma wf_leave s id j c fl' :
  wf s -> jobs s !! id = Some j -> is_Some (j_consumers j !! c) ->
  (delete c (j_consumers j) = ∅ /\ j_running j = true /\ fl' = <[j_canceled j := true]> (flags s)
   \/ delete c (j_consumers j) <> ∅ /\ fl' = flags s) ->
  let j' := mkJob (j_key j) (j_cost j) (delete c (j_consumers j)) (j_running j) (j_canceled j)
              (j_preempted j) (j_lease j) in
  wf (mkScheduler (limits s) (next s) (<[id := j']> (jobs s)) (keys s) (delete c (consumers s))
        (reserved s) (external s) fl' (next_flag s)).
Proof.
  intros Hw Hj Hc Hfl j'. set (s' := mkScheduler _ _ _ _ _ _ _ _ _).
  pose proof (jo_consumers _ _ _ (w_job _ Hw _ _ Hj) c Hc) as Hcid.
  assert (forall i k, jobs s !! i = Some k -> id <> i -> load s' (j_canceled k) = load s (j_canceled k)) as Hload.
  { intros i k Hi Hne. unfold load. simpl. destruct Hfl as [(_ & _ & ->)|[_ ->]]; [|done].
    rewrite lookup_insert_ne; [done|]. intros E. by apply Hne, (w_job_flags _ Hw id i j k). }
  constructor; simpl; try apply Hw.
  - rewrite (map_sum_update _ _ _ _ _ Hj). rewrite (w_reserved _ Hw). unfold job_charge at 2 3. simpl. lia.
  - pose proof (w_active _ Hw). unfold map_count at 1. rewrite (map_sum_update _ _ _ _ _ Hj).
    unfold count_if at 1 2. simpl. unfold map_count in *. lia.
  - pose proof (w_queue _ Hw). rewrite map_len_delete by eauto. lia.
  - intros i k [[<- <-]|[Hne Hi]]%lookup_insert_Some.
    + destruct (w_job _ Hw _ _ Hj). constructor; simpl; try done.
      * intros x [y [Hx Hy]%lookup_delete_Some]. rewrite lookup_delete_ne by done. eauto.
      * intros Hr. destruct Hfl as [(_ & ? & _)|[? ->]]; [congruence|].
        destruct (jo_waiting0 Hr) as (? & ? & _). done.
      * destruct Hfl as [(He & ? & ->)|[Hne ->]].
        -- unfold load. simpl. rewrite lookup_insert_eq. simpl. split; [by right|done].
        -- change (load _ (j_canceled j)) with (load s (j_canceled j)). rewrite jo_canceled0. split.
           ++ intros [|E]; [by left|]. rewrite E in Hc. destruct Hc. by rewrite lookup_empty in *.
           ++ intros [|E]; [by left|done].
      * destruct jo_key0 as [|E]; [by left|]. right. by rewrite E, delete_empty.
    + destruct (w_job _ Hw _ _ Hi). constructor; rewrite ?(Hload i k) by done; simpl; try done.
      intros x Hx. rewrite lookup_delete_ne; [auto|]. intros <-. specialize (jo_consumers0 c Hx). congruence.
  - intros i x Hx. by destruct (w_read _ Hw _ _ Hx).
  - intros k i Hi. destruct (w_keys _ Hw _ _ Hi) as (x & Hx & Hxk). destruct (decide (id = i)) as [<-|Hne].
    + exists j'. rewrite lookup_insert_eq. split; [done|simpl; congruence].
    + exists x. by rewrite lookup_insert_ne.
  - intros x i [Hne Hx]%lookup_delete_Some.
    destruct (w_consumers _ Hw _ _ Hx) as (? & k & Hk' & Hin). split; [done|].
    destruct (decide (id = i)) as [<-|Hni].
    + exists j'. rewrite lookup_insert_eq. split; [done|]. simpl. rewrite lookup_delete_ne by done. congruence.
    + exists k. by rewrite lookup_insert_ne.
  - intros i i' x x' l Hx Hx'. apply lookup_insert_Some in Hx, Hx'.
    destruct Hx as [[<- <-]|[? Hx]], Hx' as [[<- <-]|[? Hx']]; simpl; try done;
      intros E E'; eapply (w_job_leases _ Hw); eassumption.
  - intros i i' x r l [[<- <-]|[? Hx]]%lookup_insert_Some Hr E E'; eapply (w_leases _ Hw _ i'); eassumption.
  - intros i i' x x' Hx Hx'. apply lookup_insert_Some in Hx, Hx'.
    destruct Hx as [[<- <-]|[? Hx]], Hx' as [[<- <-]|[? Hx']]; simpl; try done;
      intros E; eapply (w_job_flags _ Hw); eassumption.
  - intros i i' x r [[<- <-]|[? Hx]]%lookup_insert_Some Hr; [apply (w_flags _ Hw id i' j r Hj Hr)|apply (w_flags _ Hw i i' x r Hx Hr)].
Qed.

Definition without (s : gmap Consumer Z) (gone : gmap Consumer Priority) : gmap Consumer Z :=
  foldr (fun e m => delete e.1 m) s (map_to_list gone).

Lemma without_lookup m gone c :
  without m gone !! c = if decide (is_Some (gone !! c)) then None else m !! c.
Proof.
  unfold without.
  assert (forall l, foldr (fun (e : Consumer * Priority) m => delete e.1 m) m l !! c
                    = if decide (c ∈ l.*1) then None else m !! c) as Hl.
  { induction l as [|[x p] l IH]; [by rewrite decide_False by apply not_elem_of_nil|].
    rewrite fmap_cons. cbn [foldr fst]. destruct (decide (x = c)) as [->|Hne].
    - rewrite lookup_delete_eq, decide_True; [done|left].
    - rewrite lookup_delete_ne, IH by done. destruct (decide (c ∈ l.*1)) as [Hin|Hin].
      + rewrite decide_True; [done|by right].
      + rewrite decide_False; [done|]. intros [|]%elem_of_cons; congruence. }
  rewrite Hl. destruct (decide (is_Some (gone !! c))) as [[p Hp]|Hn].
  - rewrite decide_True; [done|]. apply list_elem_of_fmap. exists (c, p).
    by rewrite elem_of_map_to_list.
  - rewrite decide_False; [done|]. intros ([x p] & -> & Hin)%list_elem_of_fmap.
    apply elem_of_map_to_list in Hin. apply Hn. eauto.
Qed.

Lemma without_len m gone : map_len (without m gone) <= map_len m.
Proof.
  unfold without. induction (map_to_list gone) as [|[x p] l IH]; simpl; [lia|].
  set (m' := foldr _ _ _) in *. destruct (m' !! x) eqn:E.
  - rewrite map_len_delete by eauto. lia.
  - by rewrite delete_id.
Qed.

Lemma remove_run s id j :
  jobs s !! id = Some j ->
  remove id s = (mkScheduler (limits s) (next s) (delete id (jobs s))
        (if bool_decide (keys s !! j_key j = Some id) then delete (j_key j) (keys s) else keys s)
        (without (consumers s) (j_consumers j)) (reserved s) (external s) (flags s) (next_flag s), Ok j).
Proof.
  intros Hj. unfold remove. rewrite (bind_ok _ _ _ _ _ (the_job_ok _ _ _ Hj)). run.
  unfold ret. f_equal. simpl. destruct (bool_decide _); done.
Qed.

Lemma cancel_run s c :
  wf s -> exists s', cancel c s = (s', Ok (bool_decide (is_Some (consumers s !! c)))) /\ wf s'
    /\ (forall x, x <> c -> consumers s' !! x = consumers s !! x) /\ consumers s' !! c = None
    /\ next s' = next s.
Proof.
  intros Hw. unfold cancel. run. destruct (consumers s !! c) as [id|] eqn:Hc.
  2:{ exists s. rewrite bool_decide_false by (by intros [? ?]). done. }
  rewrite bool_decide_true by eauto.
  destruct (w_consumers _ Hw _ _ Hc) as (_ & j & Hj & Hin). run.
  rewrite (bind_ok _ _ _ _ _ (the_job_ok (set_consumers _ s) id j Hj)). run. cbv zeta. run.
  destruct (decide (delete c (j_consumers j) = ∅)) as [He|Hne].
  - rewrite bool_decide_true by done. unfold store. unfold bind at 1. run.
    set (j' := mkJob _ _ _ _ _ _ _). destruct (j_running j) eqn:Hrun.
    + eexists. split; [reflexivity|]. split_and!; try done.
      * pose proof (wf_leave s id j c _ Hw Hj Hin (or_introl (conj He (conj Hrun eq_refl)))) as Hwl.
        cbv zeta in Hwl. rewrite Hrun in Hwl. exact Hwl.
      * intros x Hx. simpl. by rewrite lookup_delete_ne.
      * simpl. apply lookup_delete_eq.
    + erewrite (bind_ok (remove id)) by (apply (remove_run _ id j'), lookup_insert_eq). eexists. split; [reflexivity|].
      assert (forall x, is_Some (j_consumers j !! x) -> x = c) as Honly.
      { intros x Hx. destruct (decide (x = c)); [done|]. destruct Hx as [y Hx].
        assert (delete c (j_consumers j) !! x = Some y) as E by (by rewrite lookup_delete_ne).
        rewrite He, lookup_empty in E. done. }
      assert (forall x, without (delete c (consumers s)) (j_consumers j') !! x
              = if decide (is_Some (j_consumers j !! x)) then None else consumers s !! x) as Hcons.
      { intros x. rewrite without_lookup.
        rewrite decide_False by (simpl; rewrite He, lookup_empty; by intros [? ?]). destruct (decide (x = c)) as [->|Hx].
        - by rewrite lookup_delete_eq, decide_True.
        - rewrite lookup_delete_ne by done. rewrite decide_False; [done|]. intros E. by apply Hx, Honly. }
      split_and!; simpl.
      * rewrite delete_insert_eq. replace (reserved s) with (reserved s - job_charge j)
          by (unfold job_charge; rewrite Hrun; lia).
        apply (wf_remove s id j); try done.
        -- transitivity (map_len (delete c (consumers s))); [apply without_len|].
           rewrite map_len_delete by eauto. lia.
        -- intros f Hf. by rewrite lookup_insert_ne.
      * intros x Hx. rewrite Hcons, decide_False; [done|]. intros E. by apply Hx, Honly.
      * rewrite Hcons, decide_True; done.
      * done.
  - rewrite bool_decide_false by done. run. eexists. split; [reflexivity|]. split_and!; try done.
    + apply (wf_leave s id j c); try done. by right.
    + intros x Hx. simpl. by rewrite lookup_delete_ne.
    + simpl. apply lookup_delete_eq.
Qed.

(** What [next_ready] hands out. *)
Definition ready_lease (s s' : PreviewScheduler) (w : WorkLease) : Prop :=
  exists id j, waiting s (priority j, id, false)
    /\ (forall d, waiting s d -> front_le (priority j, id, false) d)
    /\ jobs s !! id = Some j
    /\ w = mkWorkLease (next s) (j_key j) (j_cost j) (j_canceled j)
    /\ load s' (l_canceled w) = false
    /\ reserved s' = reserved s + j_cost j
    /\ consumers s' = consumers s
    /\ exists j', jobs s' !! id = Some j' /\ j_lease j' = Some (l_id w) /\ j_consumers j' = j_consumers j.

Lemma next_ready_run s :
  wf s -> exists s' r, next_ready s = (s', r) /\ wf s' /\ not_panic r /\ consumers s' = consumers s /\
  next s <= next s' /\
  match r with
  | Ok (Some w) => ready_lease s s' w
  | _ => True
  end.
Proof.
  intros Hw. unfold next_ready.
  destruct (preempt_run s Hw) as (s1 & Hp & Hpr). rewrite (bind_ok _ _ _ _ _ Hp). run.
  pose proof (preempts_wf _ _ Hpr Hw) as Hw1.
  destruct (preempts_frame _ _ Hpr Hw) as (El & En & Ek & Ec & Er & Ee & Eu & Ewait & Ejobs & _).
  destruct (Z.leb_spec (workers (limits s1)) (u_active (usage s1))); [exists s1, (Ok None); split_and!; done || lia|].
  destruct (front s1) as [[[p id] []]|] eqn:Hf; [exists s1, (Ok None); split_and!; done || lia| |
    exists s1, (Ok None); split_and!; done || lia].
  destruct (front_Some _ _ Hf) as [(j & Hj & Hrun & Hload & <-) Hmin].
  rewrite (bind_ok _ _ _ _ _ (the_job_ok _ _ _ Hj)).
  pose proof (w_fits _ Hw1). erewrite bind_ok; [|apply usub_ok; done].
  destruct (Z.ltb_spec (working_bytes (limits s1) - reserved s1) (j_cost j));
    [exists s1, (Ok None); split_and!; done || lia|].
  destruct (serial_run s1 Hw1) as [(Hs & Hw2 & _)|Hs].
  2:{ rewrite (bind_err _ _ _ _ _ Hs). do 2 eexists. split; [reflexivity|]. split_and!; try done; lia. }
  rewrite (bind_ok _ _ _ _ _ Hs). run. do 2 eexists. split; [reflexivity|].
  destruct (w_job _ Hw1 _ _ Hj).
  assert (jobs s !! id = Some j) as Hj0.
  { destruct (Ejobs _ _ Hj) as (j0 & Hj0 & [->|[? ->]]); [done|]. simpl in Hrun. congruence. }
  split; [|split; [done|]; split; [done|]; split; [simpl; lia|]].
  - eapply (wf_update_job s1 id j); try done; simpl; try lia.
    + intros l [= <-]. right. lia.
    + unfold job_charge. rewrite Hrun. simpl. lia.
    + unfold count_if. simpl. rewrite Hrun. unfold usage in *. simpl in *. unfold leased. lia.
    + constructor; simpl; try done; try lia. intros l [= <-]. lia.
  - exists id, j. split_and!; try done.
    + by apply Ewait; exists j.
    + intros d Hd. apply Hmin. by apply Ewait.
    + by rewrite <-En.
    + simpl. by rewrite Er.
    + eexists. simpl. rewrite lookup_insert_eq. done.
Qed.

Lemma job_of_lease_spec s l :
  match job_of_lease s l with
  | Some id => exists j, jobs s !! id = Some j /\ j_lease j = Some l
  | None => forall id j, jobs s !! id = Some j -> j_lease j <> Some l
  end.
Proof.
  unfold job_of_lease. set (f := fun e : Z * Job => _). set (ids := omap f _).
  assert (forall id, id ∈ ids <-> exists j, jobs s !! id = Some j /\ j_lease j = Some l) as Hids.
  { intros id. unfold ids. rewrite list_elem_of_omap. split.
    - intros ([i j] & Hin & Hf). unfold f in Hf. simpl in Hf. apply elem_of_map_to_list in Hin.
      case_bool_decide; [|discriminate Hf]. injection Hf as <-. eauto.
    - intros (j & Hj & Hl). exists (id, j). rewrite elem_of_map_to_list. split; [done|].
      unfold f. simpl. by rewrite bool_decide_true. }
  destruct ids as [|id ids']; simpl.
  - intros id j Hj Hl. by apply (not_elem_of_nil id), Hids; eauto.
  - apply Hids. left.
Qed.

(** A worker's exit, reported with its lease. *)
Definition completed (s s' : PreviewScheduler) (l : Z) (o : WorkerOutcome) (c : Completion) : Prop :=
  exists id j, jobs s !! id = Some j /\ j_lease j = Some l /\ reserved s' = reserved s - j_cost j /\
  ((c_requeued c = true /\ c_consumers c = [] /\ j_preempted j = true /\ j_consumers j <> ∅
    /\ consumers s' = consumers s
    /\ exists j', jobs s' !! id = Some j' /\ j_key j' = j_key j /\ j_consumers j' = j_consumers j
                  /\ waiting s' (priority j', id, false))
   \/ (c_requeued c = false /\ (j_preempted j = false \/ j_consumers j = ∅)
       /\ (forall x, x ∈ c_consumers c <-> consumers s !! x = Some id)
       /\ jobs s' !! id = None
       /\ (forall x, consumers s' !! x = if decide (consumers s !! x = Some id) then None else consumers s !! x)
       /\ c_outcome c = (if load s (j_canceled j) then Stopped else o)
       /\ (c_superseded c = true <-> exists id', keys s !! j_key j = Some id' /\ id' <> id))).

Lemma job_consumers_iff s id j x :
  wf s -> jobs s !! id = Some j -> (is_Some (j_consumers j !! x) <-> consumers s !! x = Some id).
Proof.
  intros Hw Hj. split.
  - by apply (jo_consumers _ _ _ (w_job _ Hw _ _ Hj)).
  - intros Hx. destruct (w_consumers _ Hw _ _ Hx) as (_ & k & Hk & Hin). congruence.
Qed.

Lemma finished_run s l o :
  wf s -> exists s' r, finished l o s = (s', r) /\ wf s' /\ next s' = next s /\
  match r with
  | Ok c => completed s s' l o c
  | Err e => s' = s /\ e = Message "unknown or stale worker completion"
             /\ forall id j, jobs s !! id = Some j -> j_lease j <> Some l
  end.
Proof.
  intros Hw. unfold finished. run. pose proof (job_of_lease_spec s l) as Hspec.
  destruct (job_of_lease s l) as [id|]; run.
  2:{ exists s. eexists. split; [reflexivity|]. done. }
  destruct Hspec as (j & Hj & Hl). rewrite Hj. run. destruct (w_job _ Hw _ _ Hj).
  assert (j_running j = true) as Hrun by (rewrite jo_lease0, Hl; by apply bool_decide_true).
  rewrite Hrun. pose proof (job_charge_le _ _ _ Hw Hj) as Hle.
  assert (job_charge j = j_cost j) as Hcharge by (unfold job_charge; by rewrite Hrun).
  erewrite bind_ok; [|apply usub_ok; lia]. run. pose proof (w_fits _ Hw). pose proof (w_active _ Hw).
  set (j1 := mkJob _ _ _ _ _ _ None). set (s1 := set_reserved _ _).
  destruct (j_preempted j && negb (bool_decide (j_consumers j = ∅))) eqn:Hre.
  - apply andb_true_iff in Hre as [Hpre Hne]. apply negb_true_iff, bool_decide_eq_false in Hne.
    unfold new_flag. do 2 eexists. split; [reflexivity|].
    split; [|split; [done|]].
    + unfold put_job. simpl. rewrite insert_insert_eq.
      eapply (wf_update_job s id j); try done; simpl; try lia.
      * intros f Hf _. rewrite lookup_insert_ne; [done|lia].
      * unfold job_charge at 2. simpl. lia.
      * unfold count_if. simpl. destruct (j_running j); lia.
      * constructor; simpl; try done; try lia.
        -- intros _. split_and!; try done. unfold load. simpl. by rewrite lookup_insert_eq.
        -- unfold load. simpl. rewrite lookup_insert_eq. simpl. split; [done|]. by intros [|].
    + exists id, j. split_and!; try done. left. split_and!; try done.
      eexists. simpl. rewrite lookup_insert_eq. split_and!; try done.
      eexists. split_and!; try done. unfold load. simpl. by rewrite lookup_insert_eq.
  - run. cbv zeta. rewrite (bind_ok _ _ _ _ _ (remove_run s1 id j1 (lookup_insert_eq _ _ _))). run.
    do 2 eexists. split; [reflexivity|].
    assert (forall x, without (consumers s) (j_consumers j) !! x
             = if decide (consumers s !! x = Some id) then None else consumers s !! x) as Hcons.
    { intros x. rewrite without_lookup. pose proof (job_consumers_iff s id j x Hw Hj).
      destruct (decide (is_Some _)), (decide (consumers s !! x = Some id)); try done; tauto. }
    split; [|split; [done|]].
    + simpl. rewrite delete_insert_eq. rewrite <-Hcharge. apply (wf_remove s id j); try done.
      * intros x. apply without_lookup.
      * apply without_len.
    + exists id, j. split_and!; try done. right. split_and!; try done.
      * apply andb_false_iff in Hre as [|Hre]; [by left|right].
        by apply negb_false_iff, bool_decide_eq_true in Hre.
      * intros x. rewrite <-(job_consumers_iff s id j x Hw Hj). simpl. rewrite list_elem_of_fmap. split.
        -- intros ([y p] & -> & Hin). apply elem_of_map_to_list in Hin. eauto.
        -- intros [p Hp]. exists (x, p). by rewrite elem_of_map_to_list.
      * simpl. apply lookup_delete_eq.
      * simpl. destruct (keys s !! j_key j) as [owner|] eqn:Ek.
        -- destruct (Z.eqb_spec owner id) as [->|Hne]; simpl.
           ++ split; [done|]. by intros (? & [= <-] & ?).
           ++ split; [|done]. eauto.
        -- split; [done|]. by intros (? & ? & _).
Qed.

(** A registered request. *)
Definition registered (s s' : PreviewScheduler) (key : string) (p : Priority) (c : Consumer) : Prop :=
  c = next s /\ exists id j, consumers s' = <[c := id]> (consumers s)
    /\ jobs s' !! id = Some j /\ j_key j = key /\ j_consumers j !! c = Some p.

Lemma existing_job_run s key :
  wf s -> exists o, existing_job key s = (s, Ok o) /\
  match o with
  | Some id => exists j, jobs s !! id = Some j /\ keys s !! key = Some id /\ j_key j = key
               /\ (load s (j_canceled j) = false \/ j_preempted j = true)
  | None => forall id j, keys s !! key = Some id -> jobs s !! id = Some j -> j_consumers j = ∅
  end.
Proof.
  intros Hw. unfold existing_job. run. destruct (keys s !! key) as [id|] eqn:Hk; [|by exists None].
  destruct (w_keys _ Hw _ _ Hk) as (j & Hj & Hjk). rewrite (bind_ok _ _ _ _ _ (the_job_ok _ _ _ Hj)).
  eexists. split; [reflexivity|]. destruct (load s (j_canceled j)) eqn:Hl, (j_preempted j) eqn:Hp; simpl; eauto 6.
  intros id' j' [= <-] Hj'. assert (j' = j) as -> by congruence.
  destruct (proj1 (jo_canceled _ _ _ (w_job _ Hw _ _ Hj)) Hl); congruence.
Qed.

Lemma wf_serial_room s : wf s -> map_len (consumers s) + map_len (external s) < requests (limits s) ->
  let s1 := set_next (next s + 1) s in
  map_len (consumers s1) + map_len (external s1) < requests (limits s1).
Proof. done. Qed.

(** The last steps of [request], once the consumer is in its job. *)
Lemma request_tail s0 s id j key p c :
  wf s -> consumers s = <[c := id]> (consumers s0) -> jobs s !! id = Some j -> j_key j = key ->
  j_consumers j !! c = Some p -> c = next s0 ->
  exists s', ((if is_foreground p then preempt_background else ret tt) ;;; ret c)%prog s = (s', Ok c)
    /\ wf s' /\ registered s0 s' key p c.
Proof.
  intros Hw Hc Hj Hk Hin Hn. destruct (is_foreground p).
  - destruct (preempt_run s Hw) as (s1 & Hp & Hpr). rewrite (bind_ok _ _ _ _ _ Hp).
    destruct (preempts_frame _ _ Hpr Hw) as (_ & _ & _ & Ec & _ & _ & _ & _ & Ejobs & Hex).
    exists s1. split; [done|]. split; [by apply (preempts_wf s)|]. split; [done|].
    destruct (Hex id ltac:(eauto)) as [j1 Hj1]. destruct (Ejobs _ _ Hj1) as (j0 & Hj0 & Hor).
    assert (j0 = j) as -> by congruence. exists id, j1. split_and!; [congruence|done|..];
      by destruct Hor as [->|[_ ->]].
  - exists s. split; [done|]. split; [done|]. split; [done|]. by exists id, j.
Qed.

Lemma request_run s key cost p :
  wf s -> exists s' r, request key cost p s = (s', r) /\ wf s' /\ not_panic r /\
  match r with
  | Ok c => registered s s' key p c
  | Err e => consumers s' = consumers s /\ jobs s' = jobs s
  end.
Proof.
  intros Hw. unfold request. run.
  destruct (valid_preview_key key); [|do 2 eexists; split; [reflexivity|done]].
  destruct ((0 <? cost) && (cost <=? working_bytes (limits s))) eqn:Hcost; [|do 2 eexists; split; [reflexivity|done]].
  destruct (queue_has_room_run s) as [[Hq Hroom]|Hq];
    [|rewrite (bind_err _ _ _ _ _ Hq); do 2 eexists; split; [reflexivity|done]].
  rewrite (bind_ok _ _ _ _ _ Hq).
  destruct (serial_run s Hw) as [(Hs & Hw1 & _)|Hs];
    [|rewrite (bind_err _ _ _ _ _ Hs); do 2 eexists; split; [reflexivity|done]].
  rewrite (bind_ok _ _ _ _ _ Hs). set (s1 := set_next _ s) in *.
  assert (consumers s1 !! next s = None) as Hfresh by exact (fresh_consumer s Hw).
  destruct (existing_job_run s1 key Hw1) as (o & He & Ho). rewrite (bind_ok _ _ _ _ _ He).
  destruct o as [id|].
  - destruct Ho as (j & Hj & Hk & Hjk & Hlive). unfold bind at 1.
    rewrite (bind_ok _ _ _ _ _ (the_job_ok _ _ _ Hj)). run.
    destruct (j_cost j =? cost); [|do 2 eexists; split; [reflexivity|done]]. unfold ret at 1. run.
    pose proof (wf_join s1 id j (next s) p Hw1 Hj ltac:(congruence) Hfresh ltac:(simpl; lia) Hroom Hlive) as Hw2.
    cbv zeta in Hw2. set (s2 := set_consumers _ _) in Hw2.
    edestruct (request_tail s s2 id) as (s3 & Ht & Hw3 & Hreg); [exact Hw2|done|apply lookup_insert_eq|exact Hjk|apply lookup_insert_eq|done|].
    exists s3, (Ok (next s)). split; [exact Ht|]. done.
  - destruct (serial_run s1 Hw1) as [(Hs1 & Hw2 & _)|Hs1].
    2:{ unfold bind at 1. rewrite (bind_err _ _ _ _ _ Hs1). do 2 eexists; split; [reflexivity|done]. }
    unfold bind at 1. rewrite (bind_ok _ _ _ _ _ Hs1). run. unfold new_flag. run.
    set (s2 := set_next _ s1) in *.
    set (s3 := mkScheduler (limits s2) (next s2) (jobs s2) (keys s2) (consumers s2) (reserved s2) (external s2)
                 (<[next_flag s2 := false]> (flags s2)) (next_flag s2 + 1)).
    assert (wf s3) as Hw3.
    { apply (sched_wf_counters s2); try done; try lia. intros f Hf. rewrite lookup_insert_ne; [done|lia]. }
    pose proof (wf_insert_job s3 (next s1) key cost (next s) p (next_flag s2) Hw3) as Hins.
    cbv zeta in Hins. set (s4 := set_consumers _ _) in Hins.
    assert (wf s4) as Hw4.
    { apply Hins; try done; simpl; try lia.
      - exact (fresh_job s1 Hw1).
      - unfold load. simpl. by rewrite lookup_insert_eq.
      - intros i k Hi E. pose proof (jo_flag _ _ _ (w_job _ Hw1 _ _ Hi)). simpl in *. lia.
      - intros i r Hi E. pose proof (ro_flag _ _ _ (w_read _ Hw1 _ _ Hi)). simpl in *. lia. }
    edestruct (request_tail s s4 (next s1)) as (s5 & Ht & Hw5 & Hreg);
      [exact Hw4|done|apply lookup_insert_eq|done|apply lookup_insert_eq|done|].
    exists s5, (Ok (next s)). split; [|done]. unfold ret at 1. run. exact Ht.
Qed.

(** ** Reachable states *)

Lemma sched_initial_wf l s : scheduler_new l = Ok s -> working_bytes l <= u64_max -> wf s.
Proof.
  unfold scheduler_new. destruct (_ && _ && _ && _ && _) eqn:E; [|discriminate].
  intros [= <-] Hu.
  constructor; simpl; try done; try (intros *; by rewrite lookup_empty); try lia.
  - change (0 + 0 <= workers l). lia.
  - change (0 + 0 <= requests l). lia.
Qed.

Lemma step_wf s s' : step s s' -> wf s -> wf s'.
Proof.
  intros [] Hw.
  - by apply queue_native_read_safe.
  - by apply admit_safe.
  - by apply upgrade_safe.
  - by apply requeue_safe.
  - by apply cancel_queued_safe.
  - by apply release_safe.
  - destruct (request_run s0 k c p Hw) as (s1 & r & -> & Hw' & _). done.
  - destruct (cancel_run s0 c Hw) as (s1 & -> & Hw' & _). done.
  - destruct (next_ready_run s0 Hw) as (s1 & r & -> & Hw' & _). done.
  - destruct (finished_run s0 l o Hw) as (s1 & r & -> & Hw' & _). done.
Qed.

Lemma steps_wf s s' : rtc step s s' -> wf s -> wf s'.
Proof. induction 1 as [|x y z Hxy _ IH]; [done|]. intros Hw. apply IH. by eapply step_wf. Qed.

Lemma sched_reachable_wf s : reachable s -> wf s.
Proof. intros (l & s0 & Hnew & Hu & Hrun). eapply steps_wf; [done|]. by eapply sched_initial_wf. Qed.

(** *** Frames, by the program logic *)

Lemma preserves_get_bind {B} (I : PreviewScheduler -> Prop) (k : PreviewScheduler -> SchedM B) :
  (forall s, I s -> preserves I (k s)) -> preserves I (bind get k).
Proof. intros Hk s Hs. exact (Hk s Hs s Hs). Qed.

Section SameConsumers.
Context (K : gmap Consumer Z).
Let same (s : PreviewScheduler) : Prop := consumers s = K.

Lemma same_modify f : (forall s, consumers (f s) = consumers s) -> preserves (E:=SchedError) same (modify f).
Proof. intros Hf. apply preserves_modify. intros s. unfold same. by rewrite Hf. Qed.
Lemma same_store f b : preserves same (store f b).
Proof. by apply same_modify. Qed.
Lemma same_new_flag : preserves same new_flag.
Proof. intros s Hs. exact Hs. Qed.
Lemma same_serial : preserves same serial.
Proof. intros s Hs. unfold serial. run. by destruct (checked_add (next s) 1). Qed.
Lemma same_the_job id : preserves same (the_job id).
Proof. unfold the_job. preserve. Qed.
Lemma same_the_read id : preserves same (the_read id).
Proof. unfold the_read. preserve. Qed.
Lemma same_usub a b : preserves same (usub a b).
Proof. unfold usub. preserve. Qed.
Lemma same_read_request l : preserves same (read_request l).
Proof. unfold read_request. preserve. Qed.
Hint Resolve same_store same_new_flag same_serial same_the_job same_the_read same_usub
  same_read_request : prog.
Hint Extern 1 (preserves _ (modify _)) => apply same_modify; intros; reflexivity : prog.

Lemma same_lacks_room c : preserves same (lacks_room c).
Proof. unfold lacks_room. preserve. Qed.
Lemma same_read_cost c : preserves same (read_cost c).
Proof. unfold read_cost. preserve. Qed.
Lemma same_queue_has_room : preserves same queue_has_room.
Proof. unfold queue_has_room. preserve. Qed.
Lemma same_preempt_victim c : preserves same (preempt_victim c).
Proof. unfold preempt_victim. preserve. Qed.
Hint Resolve same_lacks_room same_read_cost same_queue_has_room same_preempt_victim : prog.
Lemma same_preempt_for c : preserves same (preempt_for c).
Proof. unfold preempt_for. preserve. Qed.
Hint Resolve same_preempt_for : prog.
Lemma same_preempt : preserves same preempt_background.
Proof. unfold preempt_background. preserve. Qed.
Hint Resolve same_preempt : prog.

Lemma same_queue p : preserves same (queue_native_read p).
Proof. unfold queue_native_read. preserve. Qed.
Lemma same_admit r c : preserves same (admit_native_read r c).
Proof. unfold admit_native_read. preserve. Qed.
Lemma same_upgrade r c : preserves same (upgrade_native_read r c).
Proof. unfold upgrade_native_read. preserve. Qed.
Lemma same_requeue r c : preserves same (requeue_native_read r c).
Proof. unfold requeue_native_read. preserve. Qed.
Lemma same_cancel_queued r : preserves same (cancel_queued_native_read r).
Proof. unfold cancel_queued_native_read. preserve. Qed.
Lemma same_release r : preserves same (release_native_read r).
Proof. unfold release_native_read. preserve. Qed.
End SameConsumers.

Lemma preserved_state {E S A} (I : S -> Prop) (m : proc E S A) s : preserves I m -> I s -> I (m s).1.
Proof. intros Hm Hs. specialize (Hm s Hs). by destruct (m s) as [s' []]. Qed.

(** *** Lease identities are never reused

    [retired l s]: [l] was issued and nothing owns it. *)

Definition retired (l : Z) (s : PreviewScheduler) : Prop :=
  l < next s /\ (forall id j, jobs s !! id = Some j -> j_lease j <> Some l)
  /\ (forall id r, external s !! id = Some r -> r_lease r <> Some l).

Section Retired.
Context (l : Z).

Lemma retired_modify (f : PreviewScheduler -> PreviewScheduler) :
  (forall s, retired l s -> retired l (f s)) -> preserves (E:=SchedError) (retired l) (modify f).
Proof. apply preserves_modify. Qed.
Lemma retired_put_job id j s : j_lease j <> Some l -> retired l s -> retired l (put_job id j s).
Proof.
  intros Hj (Hn & Hjs & Hrs). split_and!; try done. simpl.
  intros i k [[<- <-]|[_ Hk]]%lookup_insert_Some; eauto.
Qed.
Lemma retired_put_read id r s : r_lease r <> Some l -> retired l s -> retired l (put_read id r s).
Proof.
  intros Hj (Hn & Hjs & Hrs). split_and!; try done. simpl.
  intros i k [[<- <-]|[_ Hk]]%lookup_insert_Some; eauto.
Qed.
Lemma retired_delete_read id s : retired l s -> retired l (set_external (delete id (external s)) s).
Proof. intros (Hn & Hjs & Hrs). split_and!; try done. simpl. intros i k [_ Hk]%lookup_delete_Some. eauto. Qed.
Lemma retired_delete_job id s : retired l s -> retired l (set_jobs (delete id (jobs s)) s).
Proof. intros (Hn & Hjs & Hrs). split_and!; try done. simpl. intros i k [_ Hk]%lookup_delete_Some. eauto. Qed.

Lemma retired_serial_bind {B} (k : Z -> SchedM B) :
  (forall v, v <> l -> preserves (retired l) (k v)) -> preserves (retired l) (bind serial k).
Proof.
  intros Hk s Hs. unfold serial. unfold bind at 1. run.
  destruct (checked_add (next s) 1) as [n|] eqn:Hn; [|exact Hs]. run.
  apply checked_add_Some in Hn as [-> _]. destruct Hs as (H1 & H2 & H3).
  apply (Hk (next s)); [lia|]. split; [simpl; lia|done].
Qed.
Lemma retired_job_bind {B} id (k : Job -> SchedM B) :
  (forall j, j_lease j <> Some l -> preserves (retired l) (k j)) -> preserves (retired l) (bind (the_job id) k).
Proof.
  intros Hk s Hs. unfold the_job. unfold bind at 1. run. unfold of_option.
  destruct (jobs s !! id) as [j|] eqn:Hj; [|exact Hs]. apply (Hk j); [|done]. destruct Hs as (_ & Hs & _). eauto.
Qed.
Lemma retired_read_bind {B} id (k : NativeRead -> SchedM B) :
  (forall r, r_lease r <> Some l -> preserves (retired l) (k r)) -> preserves (retired l) (bind (the_read id) k).
Proof.
  intros Hk s Hs. unfold the_read. unfold bind at 1. run. unfold of_option.
  destruct (external s !! id) as [r|] eqn:Hr; [|exact Hs]. apply (Hk r); [|done]. destruct Hs as (_ & _ & Hs). eauto.
Qed.
Lemma retired_store f b : preserves (retired l) (store f b).
Proof. apply retired_modify. by intros s Hs. Qed.
Lemma retired_new_flag : preserves (retired l) new_flag.
Proof. intros s Hs. exact Hs. Qed.
Lemma retired_usub a b : preserves (retired l) (usub a b).
Proof. unfold usub. preserve. Qed.
Lemma retired_the_job id : preserves (retired l) (the_job id).
Proof. unfold the_job. preserve. Qed.
Lemma retired_the_read id : preserves (retired l) (the_read id).
Proof. unfold the_read. preserve. Qed.
Lemma retired_read_request x : preserves (retired l) (read_request x).
Proof. unfold read_request. preserve. Qed.
Lemma retired_of_read_bind {B} s id e (k : NativeRead -> SchedM B) :
  retired l s -> (forall r, r_lease r <> Some l -> preserves (retired l) (k r)) ->
  preserves (retired l) (bind (of_option (external s !! id) e) k).
Proof.
  intros (_ & _ & Hs) Hk. destruct (external s !! id) as [r|] eqn:Hr; [|intros s1 Hs1; exact Hs1].
  intros s1 Hs1. apply (Hk r); eauto.
Qed.
Lemma retired_of_job_bind {B} s id e (k : Job -> SchedM B) :
  retired l s -> (forall j, j_lease j <> Some l -> preserves (retired l) (k j)) ->
  preserves (retired l) (bind (of_option (jobs s !! id) e) k).
Proof.
  intros (_ & Hs & _) Hk. destruct (jobs s !! id) as [r|] eqn:Hr; [|intros s1 Hs1; exact Hs1].
  intros s1 Hs1. apply (Hk r); eauto.
Qed.

Ltac retired_leaf :=
  first [ apply retired_put_job; [simpl; congruence|assumption]
        | apply retired_put_read; [simpl; congruence|assumption]
        | apply retired_delete_job; assumption | apply retired_delete_read; assumption
        | case_match; assumption | assumption ].
Ltac retire_step :=
  lazymatch goal with
  | |- preserves _ (bind serial _) => apply retired_serial_bind; intros ? ?
  | |- preserves _ (bind (the_job _) _) => apply retired_job_bind; intros ? ?
  | |- preserves _ (bind (the_read _) _) => apply retired_read_bind; intros ? ?
  | |- preserves _ (bind (of_option (external _ !! _) _) _) =>
      apply retired_of_read_bind; [assumption|intros ? ?]
  | |- preserves _ (bind (of_option (jobs _ !! _) _) _) =>
      apply retired_of_job_bind; [assumption|intros ? ?]
  | |- preserves _ (bind get _) => apply preserves_get_bind; intros ? ?
  | |- preserves _ (modify _) => apply retired_modify; intros ? ?; retired_leaf
  | |- _ => first [solve [eauto with prog] | preserve_step]
  end.
Ltac retire := repeat retire_step.
Hint Resolve retired_store retired_new_flag retired_usub retired_the_job retired_the_read
  retired_read_request : prog.

Lemma retired_lacks_room c : preserves (retired l) (lacks_room c).
Proof. unfold lacks_room. retire. Qed.
Lemma retired_read_cost c : preserves (retired l) (read_cost c).
Proof. unfold read_cost. retire. Qed.
Lemma retired_queue_has_room : preserves (retired l) queue_has_room.
Proof. unfold queue_has_room. retire. Qed.
Lemma retired_existing_job k : preserves (retired l) (existing_job k).
Proof. unfold existing_job. retire. Qed.
Lemma retired_preempt_victim c : preserves (retired l) (preempt_victim c).
Proof. unfold preempt_victim. retire. Qed.
Lemma retired_remove id : preserves (retired l) (remove id).
Proof. unfold remove. retire. Qed.
Hint Resolve retired_lacks_room retired_read_cost retired_queue_has_room retired_preempt_victim
  retired_existing_job retired_remove : prog.
Lemma retired_preempt_for c : preserves (retired l) (preempt_for c).
Proof. unfold preempt_for. retire. Qed.
Hint Resolve retired_preempt_for : prog.
Lemma retired_preempt : preserves (retired l) preempt_background.
Proof. unfold preempt_background. retire. Qed.
Hint Resolve retired_preempt : prog.

Lemma retired_step s s' : step s s' -> retired l s -> retired l s'.
Proof.
  intros [] Hr; (eapply preserved_state; [|exact Hr]);
    [ unfold queue_native_read | unfold admit_native_read | unfold upgrade_native_read
    | unfold requeue_native_read | unfold cancel_queued_native_read | unfold release_native_read
    | unfold request | unfold cancel | unfold next_ready | unfold finished ]; retire.
Qed.
End Retired.

Lemma retired_steps l s s' : rtc step s s' -> retired l s -> retired l s'.
Proof. induction 1 as [|x y z Hxy _ IH]; [done|]. intros Hr. apply IH. by eapply retired_step. Qed.

(** *** The victim of a preemption *)

Definition token_of (s : PreviewScheduler) (c : Candidate) : option FlagId :=
  if c.2 then r_preempted <$> external s !! cand_id c else j_canceled <$> jobs s !! cand_id c.
Definition cost_of (s : PreviewScheduler) (c : Candidate) : option Z :=
  if c.2 then r_cost <$> external s !! cand_id c else j_cost <$> jobs s !! cand_id c.

Lemma preempt_victim_token s v f :
  token_of s v = Some f -> exists s', preempt_victim v s = (s', Ok tt) /\ load s' f = true.
Proof.
  destruct v as [[p id] []]; unfold token_of, cand_id; simpl; intros (x & Hx & ->)%fmap_Some.
  - rewrite (bind_ok _ _ _ _ _ (the_read_ok _ _ _ Hx)). eexists. split; [reflexivity|].
    by rewrite load_set_flag, Z.eqb_refl.
  - rewrite (bind_ok _ _ _ _ _ (the_job_ok _ _ _ Hx)). eexists. split; [reflexivity|].
    by rewrite load_set_flag, Z.eqb_refl.
Qed.

Lemma preemptible_token s v : preemptible s v -> is_Some (token_of s v).
Proof.
  destruct v as [[p id] []]; intros [_ (x & Hx & _)]; unfold token_of, cand_id; simpl; rewrite Hx; eauto.
Qed.

Lemma oldest_exists (l : list Candidate) c : c ∈ l -> exists v, oldest l = Some v.
Proof. intros Hc. destruct (min_by_is_Some (asc_on cand_id) l c Hc) as [v Hv]. eauto. Qed.

Lemma preempt_for_run s p id native cost :
  wf s -> cost_of s (p, id, native) = Some cost ->
  workers (limits s) <= u_active (usage s) \/ working_bytes (limits s) - reserved s < cost ->
  preempt_for (p, id, native) s =
  match oldest (background_jobs s ++ background_reads s) with
  | Some v => preempt_victim v s
  | None => (s, Ok tt)
  end.
Proof.
  intros Hw Hc Hlack. unfold preempt_for.
  assert ((if native then let* r := the_read id in ret (r_cost r)
           else let* j := the_job id in ret (j_cost j))%prog s = (s, Ok cost)) as E.
  { unfold cost_of, cand_id in Hc. simpl in Hc.
    destruct native; apply fmap_Some in Hc as (x & Hx & ->);
      [rewrite (bind_ok _ _ _ _ _ (the_read_ok _ _ _ Hx))|rewrite (bind_ok _ _ _ _ _ (the_job_ok _ _ _ Hx))]; done. }
  rewrite (bind_ok _ _ _ _ _ E). destruct (lacks_room_run s cost Hw) as (b & Hb & Hbi).
  rewrite (bind_ok _ _ _ _ _ Hb), (proj2 Hbi Hlack). run. by destruct (oldest _).
Qed.

(** ** Properties *)

(** C14.  Admission never overcommits: in every reachable state the reserved
    bytes are exactly the costs of the running jobs and leased reads and within
    the working allowance; no more workers run than allowed; registered
    consumers and reads fit the request queue; every consumer belongs to a live
    job that lists it; and a lease has a single owner: no two jobs, no two native
    reads, and no job and read hold the same one. *)
Theorem no_overcommit s :
  reachable s ->
  reserved s = map_sum job_charge (jobs s) + map_sum read_charge (external s)
  /\ 0 <= reserved s <= working_bytes (limits s)
  /\ u_active (usage s) <= workers (limits s)
  /\ u_consumers (usage s) <= requests (limits s)
  /\ (forall c id, consumers s !! c = Some id -> exists j, jobs s !! id = Some j /\ is_Some (j_consumers j !! c))
  /\ (forall id id' j j' l, jobs s !! id = Some j -> jobs s !! id' = Some j' ->
        j_lease j = Some l -> j_lease j' = Some l -> id = id')
  /\ (forall id id' r r' l, external s !! id = Some r -> external s !! id' = Some r' ->
        r_lease r = Some l -> r_lease r' = Some l -> id = id')
  /\ (forall id id' j r l, jobs s !! id = Some j -> external s !! id' = Some r ->
        j_lease j = Some l -> r_lease r <> Some l).
Proof.
  intros Hw%sched_reachable_wf. split_and!; try apply Hw.
  - rewrite (w_reserved _ Hw).
    pose proof (map_sum_nonneg job_charge (jobs s) ltac:(intros; by eapply job_charge_bounds)).
    pose proof (map_sum_nonneg read_charge (external s) ltac:(intros; by eapply read_charge_bounds)). lia.
  - intros id id' j r l Hj Hr Hl Hl'. by apply (w_leases _ Hw id id' j r l).
Qed.

(**  No operation on a reachable scheduler panics: no index misses and no
    subtraction of reserved bytes underflows. *)
Theorem scheduler_never_panics s l c n k p o m :
  reachable s ->
  (queue_native_read p s).2 <> Err (Panic m) /\ (admit_native_read l c s).2 <> Err (Panic m)
  /\ (upgrade_native_read l c s).2 <> Err (Panic m) /\ (requeue_native_read l c s).2 <> Err (Panic m)
  /\ (cancel_queued_native_read l s).2 <> Err (Panic m) /\ (release_native_read l s).2 <> Err (Panic m)
  /\ (request k c p s).2 <> Err (Panic m) /\ (cancel n s).2 <> Err (Panic m)
  /\ (next_ready s).2 <> Err (Panic m) /\ (finished l o s).2 <> Err (Panic m).
Proof.
  intros Hw%sched_reachable_wf. split_and!.
  - by apply queue_native_read_safe.
  - by apply admit_safe.
  - by apply upgrade_safe.
  - by apply requeue_safe.
  - by apply cancel_queued_safe.
  - by apply release_safe.
  - destruct (request_run s k c p Hw) as (s1 & r & -> & _ & Hp & _). apply Hp.
  - by destruct (cancel_run s n Hw) as (s1 & -> & _).
  - destruct (next_ready_run s Hw) as (s1 & r & -> & _ & Hp & _). apply Hp.
  - destruct (finished_run s l o Hw) as (s1 & r & -> & _ & _ & Hr). destruct r; [done|].
    by destruct Hr as (_ & -> & _).
Qed.

(**  Order: a lease goes to the waiting work that comes first among renders
    and native reads together, foreground before background and then oldest
    first; the leased job charges its cost, gets a new lease identity and a
    token that is not canceled. *)
Theorem next_ready_order s s' w :
  reachable s -> next_ready s = (s', Ok (Some w)) -> ready_lease s s' w.
Proof.
  intros Hw%sched_reachable_wf Hrun. destruct (next_ready_run s Hw) as (s1 & r & Hr & _ & _ & _ & _ & Hres).
  rewrite Hrun in Hr. by injection Hr as <- <-.
Qed.

(**  Completion: an exit report either is refused, changing nothing, when no
    job owns that lease, or releases exactly that job's reservation; then a
    preempted job with consumers goes back to the queue with a fresh token,
    and any other is removed and its report lists exactly its consumers. *)
Theorem finished_spec s l o :
  reachable s ->
  exists s' r, finished l o s = (s', r) /\
  match r with
  | Ok c => completed s s' l o c
  | Err e => s' = s /\ e = Message "unknown or stale worker completion"
             /\ forall id j, jobs s !! id = Some j -> j_lease j <> Some l
  end.
Proof.
  intros Hw%sched_reachable_wf. destruct (finished_run s l o Hw) as (s' & r & Hr & _ & _ & Hres).
  by exists s', r.
Qed.

(** C15.  No request is lost: whatever operation runs, a registered consumer
    stays registered to its job, unless it is the one being canceled or the
    completion being reported delivers it. *)
Theorem no_consumer_lost s s' c id :
  reachable s -> step s s' -> consumers s !! c = Some id ->
  consumers s' !! c = Some id \/ s' = (cancel c s).1
  \/ exists l o comp, finished l o s = (s', Ok comp) /\ c ∈ c_consumers comp.
Proof.
  intros Hw%sched_reachable_wf Hst Hc. destruct Hst.
  1-6: left; rewrite <-Hc; f_equal.
  - by apply (preserved_state _ _ s (same_queue (consumers s) p)).
  - by apply (preserved_state _ _ s (same_admit (consumers s) r c0)).
  - by apply (preserved_state _ _ s (same_upgrade (consumers s) r c0)).
  - by apply (preserved_state _ _ s (same_requeue (consumers s) r c0)).
  - by apply (preserved_state _ _ s (same_cancel_queued (consumers s) r)).
  - by apply (preserved_state _ _ s (same_release (consumers s) r)).
  - left. destruct (request_run s k c0 p Hw) as (s1 & r & Hr & _ & _ & Hres). rewrite Hr. simpl.
    destruct r as [x|e]; [|destruct Hres as [-> _]; done].
    destruct Hres as [-> (i & j & -> & _)]. rewrite lookup_insert_ne; [done|].
    intros E. pose proof (proj1 (w_consumers _ Hw _ _ Hc)). lia.
  - destruct (decide (c0 = c)) as [->|Hne]; [by right; left|left].
    destruct (cancel_run s c0 Hw) as (s1 & Hr & _ & Hsame & _). rewrite Hr. simpl. by rewrite Hsame.
  - left. destruct (next_ready_run s Hw) as (s1 & r & Hr & _ & _ & E & _). rewrite Hr. simpl. by rewrite E.
  - destruct (finished_run s l o Hw) as (s1 & r & Hr & _ & _ & Hres). rewrite Hr. simpl.
    destruct r as [comp|e]; [|by destruct Hres as [-> _]; left].
    destruct Hres as (i & j & _ & _ & _ & [(_ & _ & _ & _ & E & _)|(_ & _ & Hin & _ & E & _)]); [left; by rewrite E|].
    destruct (decide (consumers s !! c = Some i)) as [Hi|Hi].
    + right. right. exists l, o, comp. split; [done|]. by apply Hin.
    + left. by rewrite E, decide_False.
Qed.

(**  A lease identity is never reused: once the work it was issued for was
    reaped or requeued, no later state has an owner for it, and a delayed exit
    report under it is refused and releases nothing. *)
Theorem stale_lease_refused s s' l o :
  reachable s -> retired l s -> rtc step s s' ->
  finished l o s' = (s', Err (Message "unknown or stale worker completion"))
  /\ release_native_read l s' = (s', Err (Message "native read lease missing")).
Proof.
  intros Hw%sched_reachable_wf Hr Hrun. destruct (retired_steps l s s' Hrun Hr) as (_ & Hj & Hx).
  pose proof (steps_wf s s' Hrun Hw) as Hw'. split.
  - destruct (finished_run s' l o Hw') as (s1 & r & Hf & _ & _ & Hres). rewrite Hf.
    destruct r as [comp|e]; [|by destruct Hres as (-> & -> & _)].
    destruct Hres as (i & j & Hji & Hl & _). by destruct (Hj i j Hji).
  - unfold release_native_read. destruct (read_request_run s' l Hw') as [(i & r & _ & Hr' & Hl)|[Hq _]].
    + by destruct (Hx i r Hr').
    + by rewrite (bind_err _ _ _ _ _ Hq).
Qed.

(**  Foreground work preempts: when the foreground candidate at the front of
    the queue is a native read and a background read is leased, or when the
    candidate lacks a worker or bytes and background work runs, the
    cancellation token of the oldest such background work is raised. *)
Theorem foreground_preempts s c cost :
  reachable s -> front s = Some c -> cand_fg c = true -> cost_of s c = Some cost ->
  (forall d, c.2 = true -> preemptible s d -> d.2 = true ->
     exists v f s', preemptible s v /\ v.2 = true
       /\ (forall x, preemptible s x -> x.2 = true -> cand_id v <= cand_id x)
       /\ preempt_background s = (s', Ok tt) /\ token_of s v = Some f /\ load s' f = true)
  /\ (forall d, preemptible s d ->
     (forall x, preemptible s x -> x.2 = true -> c.2 = false) ->
     workers (limits s) <= u_active (usage s) \/ working_bytes (limits s) - reserved s < cost ->
     exists v f s', preemptible s v /\ (forall x, preemptible s x -> cand_id v <= cand_id x)
       /\ preempt_background s = (s', Ok tt) /\ token_of s v = Some f /\ load s' f = true).
Proof.
  intros Hw%sched_reachable_wf Hf Hfg Hcost. unfold preempt_background. rewrite bind_get, Hf, Hfg. split.
  - intros d Hn Hd Hdn. rewrite Hn.
    destruct (oldest_exists (background_reads s) d) as [v Hv]; [by apply elem_of_background_reads|].
    rewrite Hv. destruct (oldest_Some _ _ Hv) as [Hin Hmin]. apply elem_of_background_reads in Hin as [Hp Hv2].
    destruct (preemptible_token s v Hp) as [f Hf']. destruct (preempt_victim_token s v f Hf') as (s' & Hs' & Hl).
    exists v, f, s'. split_and!; try done. intros x Hx Hx2. apply Hmin. by apply elem_of_background_reads.
  - intros d Hd Hnone Hlack.
    assert ((if c.2 then oldest (background_reads s) else None) = None) as ->.
    { destruct c.2 eqn:Hc2; [|done]. destruct (oldest (background_reads s)) as [v|] eqn:Hv; [|done].
      destruct (oldest_Some _ _ Hv) as [Hin _]. apply elem_of_background_reads in Hin as [Hp Hv2].
      discriminate (Hnone v Hp Hv2). }
    destruct c as [[p id] native]. rewrite (preempt_for_run s p id native cost Hw Hcost Hlack).
    assert (forall x, x ∈ background_jobs s ++ background_reads s <-> preemptible s x) as Hall.
    { intros x. rewrite elem_of_app, elem_of_background_jobs, elem_of_background_reads.
      destruct x.2; intuition. }
    destruct (oldest_exists (background_jobs s ++ background_reads s) d) as [v Hv]; [by apply Hall|].
    rewrite Hv. destruct (oldest_Some _ _ Hv) as [Hin Hmin]. apply Hall in Hin.
    destruct (preemptible_token s v Hin) as [f Hf']. destruct (preempt_victim_token s v f Hf') as (s' & Hs' & Hl).
    exists v, f, s'. split_and!; try done. intros x Hx. apply Hmin. by apply Hall.
Qed.

(** ** Concrete runs *)

Definition demo_key (c : string) : string := String.concat "" (repeat c 64).
Definition demo_limits : SchedulerLimits := mkLimits 4 1 100.
Definition demo0 : PreviewScheduler := mkScheduler demo_limits 1 ∅ ∅ ∅ 0 ∅ ∅ 0.
(** A background render runs, then a foreground one arrives. *)
Definition demo1 : PreviewScheduler := (request (demo_key "a") 60 Background demo0).1.
Definition demo2 : PreviewScheduler := (next_ready demo1).1.
Definition demo3 : PreviewScheduler := (request (demo_key "b") 70 Foreground demo2).1.
Definition demo4 : PreviewScheduler := (finished 3 Stopped demo3).1.

Lemma sched_demo_reachable : reachable demo1 /\ reachable demo2 /\ reachable demo3 /\ reachable demo4.
Proof.
  assert (forall s s', step s s' -> reachable s -> reachable s') as Hstep.
  { intros s s' Hs (l & s0 & H1 & H2 & H3). exists l, s0. split_and!; try done. by eapply rtc_r. }
  assert (reachable demo0) as H0.
  { exists demo_limits, demo0. split_and!; [reflexivity|simpl; unfold u64_max; lia|apply rtc_refl]. }
  pose proof (Hstep _ _ (st_request demo0 (demo_key "a") 60 Background) H0) as H1.
  pose proof (Hstep _ _ (st_next demo1) H1) as H2.
  pose proof (Hstep _ _ (st_request demo2 (demo_key "b") 70 Foreground) H2) as H3.
  pose proof (Hstep _ _ (st_finished demo3 3 Stopped) H3) as H4.
  exact (conj H1 (conj H2 (conj H3 H4))).
Qed.

Lemma no_overcommit_witness : reserved demo3 = 60 /\ reserved demo3 <= 100.
Proof.
  destruct (no_overcommit demo3) as (_ & [_ H] & _); [apply sched_demo_reachable|].
  split; [vm_compute; reflexivity|exact H].
Defined.

Lemma scheduler_never_panics_witness : (finished 3 Stopped demo3).2 <> Err (Panic "subtraction underflow").
Proof.
  apply (scheduler_never_panics demo3 3 1 1 "" Background Stopped "subtraction underflow").
  apply sched_demo_reachable.
Defined.

Lemma next_ready_order_witness :
  ready_lease demo1 demo2 (mkWorkLease 3 (demo_key "a") 60 0).
Proof.
  apply (next_ready_order demo1); [apply sched_demo_reachable|vm_compute; reflexivity].
Defined.

Lemma finished_spec_witness :
  exists c, completed demo3 demo4 3 Stopped c /\ c_requeued c = true.
Proof.
  destruct (finished_spec demo3 3 Stopped) as (s' & r & H & Hr); [apply sched_demo_reachable|].
  assert (demo4 = s') as <- by exact (f_equal fst H).
  assert (Ok (mkCompletion [] Stopped true false) = r) as <-.
  { transitivity (finished 3 Stopped demo3).2; [vm_compute; reflexivity|exact (f_equal snd H)]. }
  exists (mkCompletion [] Stopped true false). split; [exact Hr|reflexivity].
Defined.

Lemma no_consumer_lost_witness :
  consumers demo4 !! 1 = Some 2 \/ demo4 = (cancel 1 demo3).1
  \/ exists l o comp, finished l o demo3 = (demo4, Ok comp) /\ 1 ∈ c_consumers comp.
Proof.
  apply (no_consumer_lost demo3 demo4 1 2);
    [apply sched_demo_reachable|apply st_finished|vm_compute; reflexivity].
Defined.

Lemma stale_lease_refused_witness :
  finished 3 Succeeded demo4 = (demo4, Err (Message "unknown or stale worker completion")).
Proof.
  apply (stale_lease_refused demo4 demo4 3 Succeeded); [apply sched_demo_reachable| |apply rtc_refl].
  split; [vm_compute; reflexivity|]. split.
  - intros id j Hj. assert (map_Forall (fun _ j => j_lease j <> Some 3) (jobs demo4)) as HF.
    { apply (bool_decide_unpack _). vm_compute. exact I. }
    exact (HF id j Hj).
  - intros id r Hr. vm_compute in Hr. discriminate Hr.
Defined.

Lemma foreground_preempts_witness :
  exists v f s', preemptible demo3 v /\ preempt_background demo3 = (s', Ok tt)
    /\ token_of demo3 v = Some f /\ load s' f = true.
Proof.
  destruct (foreground_preempts demo3 (Foreground, 5, false) 70) as [_ H];
    [apply sched_demo_reachable|vm_compute; reflexivity|reflexivity|vm_compute; reflexivity|].
  destruct (H (Background, 2, false)) as (v & f & s' & H1 & _ & H2 & H3 & H4).
  - split; [reflexivity|]. eexists. split; [vm_compute; reflexivity|]. split; vm_compute; reflexivity.
  - intros x _ _. reflexivity.
  - left. vm_compute. discriminate.
  - exists v, f, s'. split; [exact H1|]. split; [exact H2|]. split; [exact H3|exact H4].
Defined.
