(* ===== verification/SchedulerReads.v ===== *)
(** What each operation of the preview scheduler does to the native reads it keeps
    ([external]): the effects the reading of cached previews relies on. *)
From stdpp Require Import base tactics option list numbers gmap strings fin_maps.
From Stdlib Require Import ZArith Lia.
From S2P Require Import Prelude Scheduler.

Open Scope Z_scope.
Local Open Scope prog_scope.

(** ** Predicates that do not look at jobs, leases, tokens and counters *)

Section Unaffected.
Context (I : PreviewScheduler -> Prop).
Hypothesis (Hnext : forall v s, I s -> I (set_next v s)) (Hjobs : forall v s, I s -> I (set_jobs v s))
  (Hkeys : forall v s, I s -> I (set_keys v s)) (Hconsumers : forall v s, I s -> I (set_consumers v s))
  (Hreserved : forall v s, I s -> I (set_reserved v s)) (Hflag : forall f b s, I s -> I (set_flag f b s))
  (Hfresh : forall s, I s -> I (new_flag s).1).

Lemma kept_store f b : preserves I (store f b).
Proof. apply preserves_modify. auto. Qed.
Lemma kept_new_flag : preserves I new_flag.
Proof. intros s Hs. exact (Hfresh s Hs). Qed.
Lemma kept_serial : preserves I serial.
Proof. intros s Hs. unfold serial. run. destruct (checked_add (next s) 1); [by apply Hnext|done]. Qed.
Lemma kept_the_job id : preserves I (the_job id).
Proof. unfold the_job. preserve. Qed.
Lemma kept_the_read id : preserves I (the_read id).
Proof. unfold the_read. preserve. Qed.
Lemma kept_usub a b : preserves I (usub a b).
Proof. unfold usub. preserve. Qed.
Lemma kept_put_job id j : preserves (E:=SchedError) I (modify (put_job id j)).
Proof. apply preserves_modify. intros s Hs. by apply Hjobs. Qed.
Lemma kept_key id key : preserves (E:=SchedError) I
  (modify (fun s => if bool_decide (keys s !! key = Some id) then set_keys (delete key (keys s)) s else s)).
Proof. apply preserves_modify. intros s Hs. case_bool_decide; auto. Qed.
Hint Resolve kept_store kept_new_flag kept_serial kept_the_job kept_the_read kept_usub kept_put_job kept_key : prog.
Hint Extern 1 (preserves _ (modify _)) => apply preserves_modify; intros ? ?; auto : prog.

Lemma kept_lacks_room c : preserves I (lacks_room c).
Proof. unfold lacks_room. preserve. Qed.
Lemma kept_queue_has_room : preserves I queue_has_room.
Proof. unfold queue_has_room. preserve. Qed.
Lemma kept_preempt_victim c : preserves I (preempt_victim c).
Proof. unfold preempt_victim. preserve. Qed.
Hint Resolve kept_lacks_room kept_queue_has_room kept_preempt_victim : prog.
Lemma kept_preempt_for c : preserves I (preempt_for c).
Proof. unfold preempt_for. preserve. Qed.
Hint Resolve kept_preempt_for : prog.
Lemma kept_preempt : preserves I preempt_background.
Proof. unfold preempt_background. preserve. Qed.
Lemma kept_existing_job key : preserves I (existing_job key).
Proof. unfold existing_job. preserve. Qed.
Lemma kept_remove id : preserves I (remove id).
Proof. unfold remove. preserve. Qed.
Hint Resolve kept_preempt kept_existing_job kept_remove : prog.

(** The renders. *)
Lemma kept_request key cost p : preserves I (request key cost p).
Proof. unfold request. preserve. Qed.
Lemma kept_cancel c : preserves I (cancel c).
Proof. unfold cancel. preserve. Qed.
Lemma kept_next_ready : preserves I next_ready.
Proof. unfold next_ready. preserve. Qed.
Lemma kept_finished l o : preserves I (finished l o).
Proof. unfold finished. preserve. Qed.

(** The reads, for a predicate that does not look at them either. *)
Section Reads.
Hypothesis (Hreads : forall v s, I s -> I (set_external v s)).
Lemma kept_put_read id r : preserves (E:=SchedError) I (modify (put_read id r)).
Proof. apply preserves_modify. intros s Hs. by apply Hreads. Qed.
Lemma kept_read_request l : preserves I (read_request l).
Proof. unfold read_request. preserve. Qed.
Lemma kept_read_cost c : preserves I (read_cost c).
Proof. unfold read_cost. preserve. Qed.
Hint Resolve kept_put_read kept_read_request kept_read_cost : prog.
Lemma kept_queue p : preserves I (queue_native_read p).
Proof. unfold queue_native_read. preserve. Qed.
Lemma kept_admit r c : preserves I (admit_native_read r c).
Proof. unfold admit_native_read. preserve. Qed.
Lemma kept_upgrade r c : preserves I (upgrade_native_read r c).
Proof. unfold upgrade_native_read. preserve. Qed.
Lemma kept_requeue r c : preserves I (requeue_native_read r c).
Proof. unfold requeue_native_read. preserve. Qed.
Lemma kept_cancel_queued r : preserves I (cancel_queued_native_read r).
Proof. unfold cancel_queued_native_read. preserve. Qed.
Lemma kept_release r : preserves I (release_native_read r).
Proof. unfold release_native_read. preserve. Qed.
End Reads.
End Unaffected.

(** The reads themselves are such a predicate, and so are the limits. *)
Definition reads_are (K : gmap Z NativeRead) (s : PreviewScheduler) : Prop := external s = K.
Definition limits_are (l : SchedulerLimits) (s : PreviewScheduler) : Prop := limits s = l.
Ltac unaffected := unfold reads_are, limits_are; intros; done.
Lemma reads_preempt K : preserves (reads_are K) preempt_background.
Proof. apply kept_preempt; unaffected. Qed.
Lemma reads_queue_has_room K : preserves (reads_are K) queue_has_room.
Proof. by apply kept_queue_has_room. Qed.
Lemma reads_serial K : preserves (reads_are K) serial.
Proof. apply kept_serial; unaffected. Qed.
Inductive render : PreviewScheduler -> PreviewScheduler -> Prop :=
| rn_request s k c p : render s (request k c p s).1
| rn_cancel s c : render s (cancel c s).1
| rn_next s : render s (next_ready s).1
| rn_finished s l o : render s (finished l o s).1.
Lemma render_reads s s' : render s s' -> external s' = external s /\ limits s' = limits s.
Proof.
  intros [s0 k c p|s0 c|s0|s0 l o]; split;
    (apply (preserved_state (reads_are _)) || apply (preserved_state (limits_are _)));
    try done; (apply kept_request || apply kept_cancel || apply kept_next_ready || apply kept_finished); unaffected.
Qed.
Lemma render_step s s' : render s s' -> step s s'.
Proof. intros []; constructor. Qed.

(** ** The operations on reads *)

Lemma bind_Err_inv {E S A B} (m : proc E S A) (k : A -> proc E S B) s s' e :
  bind m k s = (s', Err e) -> m s = (s', Err e) \/ exists s1 a, m s = (s1, Ok a) /\ k a s1 = (s', Err e).
Proof. unfold bind. destruct (m s) as [s1 [a|e1]]; [eauto|intros [= -> ->]; by left]. Qed.
Lemma of_triple {E S A} (I : S -> Prop) (m : proc E S A) s s' r : preserves I m -> I s -> m s = (s', r) -> I s'.
Proof. intros Hm Hs H. specialize (Hm s Hs). rewrite H in Hm. by destruct r. Qed.

(** Preemption never fails in the ordinary way. *)
Definition only_panics {A} (m : SchedM A) : Prop := forall s s' e, m s = (s', Err e) -> exists msg, e = Panic msg.
Lemma panics_bind {A B} (m : SchedM A) (k : A -> SchedM B) :
  only_panics m -> (forall a, only_panics (k a)) -> only_panics (bind m k).
Proof. intros Hm Hk s s' e [H|(s1 & a & _ & H)]%bind_Err_inv; [by eapply Hm|by eapply Hk]. Qed.
Lemma panics_get : only_panics get. Proof. done. Qed.
Lemma panics_ret {A} (a : A) : only_panics (ret a). Proof. done. Qed.
Lemma panics_modify f : only_panics (modify f). Proof. done. Qed.
Lemma panics_option {A} (o : option A) m : only_panics (of_option o (Panic m)).
Proof. destruct o; intros s s' e; [done|]. intros [= <- <-]. eauto. Qed.
Lemma panics_the_read id : only_panics (the_read id).
Proof. apply panics_bind; [apply panics_get|intros s; apply panics_option]. Qed.
Lemma panics_the_job id : only_panics (the_job id).
Proof. apply panics_bind; [apply panics_get|intros s; apply panics_option]. Qed.
Lemma panics_usub a b : only_panics (usub a b).
Proof. apply panics_option. Qed.
Lemma panics_preempt : only_panics preempt_background.
Proof.
  assert (forall c, only_panics (lacks_room c)) as Hlacks.
  { intros c. apply panics_bind; [apply panics_get|]. intros s. destruct (_ <=? _); [apply panics_ret|].
    apply panics_bind; [apply panics_usub|]. intros room. apply panics_ret. }
  assert (forall c, only_panics (preempt_victim c)) as Hvictim.
  { intros [[p id] [|]]; simpl; (apply panics_bind; [apply panics_the_read || apply panics_the_job|]); intros x;
      [apply panics_modify|]. apply panics_bind; intros; apply panics_modify. }
  apply panics_bind; [apply panics_get|]. intros s. destruct (front s) as [c|]; [|apply panics_ret].
  destruct (cand_fg c); [|apply panics_ret]. destruct (if c.2 then _ else _); [apply Hvictim|].
  destruct c as [[p id] native]. simpl. apply panics_bind.
  { destruct native; (apply panics_bind; [apply panics_the_read || apply panics_the_job|]); intros x; apply panics_ret. }
  intros cost. apply panics_bind; [apply Hlacks|]. intros lacking. apply panics_bind; [apply panics_get|]. intros s1.
  destruct (if lacking then _ else _); [apply Hvictim|apply panics_ret].
Qed.
Lemma preempt_ok s s' u : preempt_background s = (s', Ok u) -> external s' = external s.
Proof. intros H. exact (of_triple _ _ _ _ _ (reads_preempt _) eq_refl H). Qed.

(** An error that is not a panic. *)
Definition ordinary (e : SchedError) : Prop := match e with Panic _ => False | _ => True end.
Lemma safe_ordinary {A} (m : SchedM A) s s' e : safe m s -> m s = (s', Err e) -> ordinary e.
Proof. intros [_ H] E. rewrite E in H. destruct e; simpl; [done..|]. by destruct (H m0). Qed.
Lemma safe_wf {A} (m : SchedM A) s s' r : safe m s -> m s = (s', r) -> wf s'.
Proof. intros [H _] E. by rewrite E in H. Qed.

Lemma queue_read_ok p s s' q : queue_native_read p s = (s', Ok q) ->
  q_id q = next s /\ external s' = <[q_id q := mkRead p 0 None (q_preempted q)]> (external s).
Proof.
  unfold queue_native_read. intros H. apply bind_Ok_inv in H as (s1 & [] & H1 & H).
  destruct (queue_has_room_run s) as [[Hq _]|Hq]; rewrite Hq in H1; [injection H1 as <-|done].
  apply bind_Ok_inv in H as (s2 & id & H2 & H). unfold serial in H2. revert H2. run.
  destruct (checked_add (next s) 1) as [n|]; [|done]. run. intros [= <- <-].
  apply bind_Ok_inv in H as (s3 & f & H3 & H). unfold new_flag in H3. revert H3. run. intros [= <- <-].
  revert H. run. intros H. apply bind_Ok_inv in H as (s4 & [] & H4%preempt_ok & [= <- <-]). simpl. by rewrite H4.
Qed.
Lemma queue_read_err p s s' e : wf s -> queue_native_read p s = (s', Err e) -> ordinary e /\ wf s' /\ external s' = external s.
Proof.
  intros Hw H. pose proof (safe_ordinary _ _ _ _ (queue_native_read_safe p s Hw) H) as He.
  split; [done|]. split; [by eapply safe_wf; [apply queue_native_read_safe|exact H]|].
  unfold queue_native_read in H. apply bind_Err_inv in H as [H|(s1 & [] & H1 & H)].
  { exact (of_triple _ _ _ _ _ (reads_queue_has_room _) eq_refl H). }
  assert (external s1 = external s) as E1 by (exact (of_triple _ _ _ _ _ (reads_queue_has_room _) eq_refl H1)).
  apply bind_Err_inv in H as [H|(s2 & id & H2 & H)].
  { rewrite <- E1. exact (of_triple _ _ _ _ _ (reads_serial _) eq_refl H). }
  exfalso. apply bind_Err_inv in H as [H|(s3 & f & H3 & H)]; [done|].
  apply bind_Err_inv in H as [H|(s4 & [] & H4 & H)]; [done|]. apply bind_Err_inv in H as [H|(s5 & [] & H5 & H)]; [|done].
  apply panics_preempt in H as [m ->]. done.
Qed.

Lemma cancel_read_run s id r : external s !! id = Some r -> r_lease r = None ->
  exists s', cancel_queued_native_read id s = (s', Ok tt) /\ external s' = delete id (external s) /\ next s' = next s /\
    limits s' = limits s.
Proof.
  intros Hr Hl. unfold cancel_queued_native_read. run. rewrite Hr. run. rewrite Hl, bool_decide_false by (by intros [? ?]).
  eexists. split; [done|]. done.
Qed.
Lemma read_request_at s l id r : wf s -> external s !! id = Some r -> r_lease r = Some l -> read_request l s = (s, Ok id).
Proof.
  intros Hw Hr Hl. destruct (read_request_run s l Hw) as [(id' & r' & -> & Hr' & Hl')|[_ H]]; [|by destruct (H _ _ Hr)].
  by rewrite (w_read_leases _ Hw _ _ _ _ _ Hr Hr' Hl Hl').
Qed.
Lemma release_read_run s id r l : wf s -> external s !! id = Some r -> r_lease r = Some l ->
  exists s', release_native_read l s = (s', Ok tt) /\ external s' = delete id (external s).
Proof.
  intros Hw Hr Hl. unfold release_native_read. erewrite bind_ok by (by eapply read_request_at).
  erewrite bind_ok by (by apply the_read_ok). run. pose proof (read_charge_le _ _ _ Hw Hr) as Hle.
  unfold read_charge, leased in Hle. rewrite Hl in Hle. simpl in Hle. erewrite bind_ok; [|apply usub_ok; simpl; lia].
  eexists. split; [done|]. done.
Qed.
Lemma read_cost_ok c s : 0 < c <= working_bytes (limits s) -> read_cost c s = (s, Ok tt).
Proof. intros Hc. unfold read_cost. run. by destruct (Z.ltb_spec 0 c), (Z.leb_spec c (working_bytes (limits s))); try lia. Qed.
Lemma requeue_read_run s id r l c : wf s -> external s !! id = Some r -> r_lease r = Some l -> 0 < c <= working_bytes (limits s) ->
  exists s', requeue_native_read l c s = (s', Ok tt) /\ external s' = <[id := mkRead (r_priority r) c None (r_preempted r)]> (external s).
Proof.
  intros Hw Hr Hl Hc. destruct (requeue_native_read l c s) as [s' [[]|e]] eqn:H.
  - exists s'. split; [done|]. unfold requeue_native_read in H. rewrite (bind_ok _ _ _ _ _ (read_cost_ok c s Hc)) in H. erewrite bind_ok in H by (by eapply read_request_at). erewrite bind_ok in H by (by apply the_read_ok).
    revert H. run. intros H. apply bind_Ok_inv in H as (s1 & o & H1 & H). apply of_option_Ok_inv in H1 as [_ ->].
    revert H. unfold store. run. intros H%preempt_ok. by rewrite H.
  - exfalso. pose proof (safe_ordinary _ _ _ _ (requeue_safe l c s Hw) H) as He. unfold requeue_native_read in H.
    rewrite (bind_ok _ _ _ _ _ (read_cost_ok c s Hc)) in H. erewrite bind_ok in H by (by eapply read_request_at). erewrite bind_ok in H by (by apply the_read_ok).
    revert H. run. intros H. apply bind_Err_inv in H as [[m ->]%panics_usub|(s1 & o & _ & H)]; [done|].
    revert H. unfold store. run. intros [m ->]%panics_preempt. done.
Qed.

Lemma limits_kept {A} (m : SchedM A) s s' r : (forall L, preserves (limits_are L) m) -> m s = (s', r) -> limits s' = limits s.
Proof. intros Hm H. exact (of_triple _ _ _ _ _ (Hm (limits s)) eq_refl H). Qed.
Lemma queue_limits p s s' r : queue_native_read p s = (s', r) -> limits s' = limits s.
Proof. apply limits_kept. intros L. apply kept_queue; unaffected. Qed.
Lemma admit_limits q c s s' r : admit_native_read q c s = (s', r) -> limits s' = limits s.
Proof. apply limits_kept. intros L. apply kept_admit; unaffected. Qed.
Lemma upgrade_limits l c s s' r : upgrade_native_read l c s = (s', r) -> limits s' = limits s.
Proof. apply limits_kept. intros L. apply kept_upgrade; unaffected. Qed.
Lemma requeue_limits l c s s' r : requeue_native_read l c s = (s', r) -> limits s' = limits s.
Proof. apply limits_kept. intros L. apply kept_requeue; unaffected. Qed.
Lemma release_limits l s s' r : release_native_read l s = (s', r) -> limits s' = limits s.
Proof. apply limits_kept. intros L. apply kept_release; unaffected. Qed.

(** An admission gives the read its cost, and a lease when it succeeds. *)
Lemma admit_read_run s id r c : wf s -> external s !! id = Some r -> r_lease r = None ->
  exists s' x c' o, admit_native_read id c s = (s', x) /\ wf s' /\ limits s' = limits s /\
    external s' = <[id := mkRead (r_priority r) c' o (r_preempted r)]> (external s) /\
    match x with
    | Ok (Some l) => o = Some l /\ c' = c /\ 0 < c
    | Ok None => o = None
    | Err e => o = None /\ ordinary e
    end.
Proof.
  intros Hw Hr Hl. destruct (admit_native_read id c s) as [s' x] eqn:H.
  pose proof (safe_wf _ _ _ _ (admit_safe id c s Hw) H) as Hw'. pose proof (admit_limits _ _ _ _ _ H) as Hlim.
  assert (match x with Err e => ordinary e | Ok _ => True end) as Hord.
  { destruct x; [done|]. exact (safe_ordinary _ _ _ _ (admit_safe id c s Hw) H). }
  assert (<[id := mkRead (r_priority r) (r_cost r) None (r_preempted r)]> (external s) = external s) as Hsame.
  { apply insert_id. rewrite Hr. f_equal. destruct r; simpl in *. by subst. }
  unfold admit_native_read in H. destruct (read_cost_run c s) as [[Hq Hc]|Hq].
  2: { rewrite (bind_err _ _ _ _ _ Hq) in H. injection H as <- <-. exists s. eexists _, (r_cost r), None. by rewrite Hsame. }
  rewrite (bind_ok _ _ _ _ _ Hq) in H. revert H. run. rewrite Hr. run. rewrite Hl, bool_decide_false by (by intros [? ?]).
  cbn [negb]. run. intros H. set (s1 := put_read _ _ s) in *. exists s', x.
  assert (external s1 = <[id := mkRead (r_priority r) c None (r_preempted r)]> (external s)) as E1 by done. clearbody s1.
  unfold bind at 1 in H. destruct (preempt_background s1) as [s2 [[]|e]] eqn:Hp.
  2: { injection H as <- <-. apply panics_preempt in Hp as [m ->]. done. }
  apply preempt_ok in Hp. rewrite <- Hp in E1. clear Hp s1.
  unfold bind at 1 in H. destruct (lacks_room c s2) as [s3 [lacking|e]] eqn:Hlr.
  2: { injection H as <- <-. pose proof (of_triple _ _ _ _ _ (kept_lacks_room (reads_are (external s2)) c) eq_refl Hlr) as Hk.
       exists c, None. rewrite Hk, E1. by destruct e. }
  pose proof (of_triple _ _ _ _ _ (kept_lacks_room (reads_are (external s2)) c) eq_refl Hlr) as Hk. rewrite <- Hk in E1. clear Hk Hlr s2.
  revert H. run. destruct (lacking || _); [intros [= <- <-]; by exists c, None|].
  intros H. unfold bind at 1 in H. destruct (serial s3) as [s4 [l|e]] eqn:Hs; pose proof (of_triple _ _ _ _ _ (reads_serial (external s3)) eq_refl Hs) as Hk;
    rewrite <- Hk in E1; [|injection H as <- <-; by exists c, None].
  erewrite bind_ok in H by (apply the_read_ok; rewrite E1; apply lookup_insert_eq). revert H. run. intros [= <- <-].
  exists c, (Some l). simpl. rewrite E1, insert_insert_eq. split_and!; try done. lia.
Qed.
(** An upgrade changes at most the cost. *)
Lemma upgrade_read_run s id r l c : wf s -> external s !! id = Some r -> r_lease r = Some l -> 0 < r_cost r ->
  exists s' x c', upgrade_native_read l c s = (s', x) /\ wf s' /\ limits s' = limits s /\
    external s' = <[id := mkRead (r_priority r) c' (Some l) (r_preempted r)]> (external s) /\ 0 < c' /\
    match x with
    | Ok true => c' = c
    | Ok false => c' = r_cost r /\ 0 < c <= working_bytes (limits s)
    | Err e => c' = r_cost r /\ ordinary e
    end.
Proof.
  intros Hw Hr Hl Hpos. destruct (upgrade_native_read l c s) as [s' x] eqn:H.
  pose proof (safe_wf _ _ _ _ (upgrade_safe l c s Hw) H) as Hw'. pose proof (upgrade_limits _ _ _ _ _ H) as Hlim.
  assert (<[id := mkRead (r_priority r) (r_cost r) (Some l) (r_preempted r)]> (external s) = external s) as Hsame.
  { apply insert_id. rewrite Hr. f_equal. destruct r; simpl in *. by subst. }
  unfold upgrade_native_read in H. destruct (read_cost_run c s) as [[Hq Hc]|Hq].
  2: { rewrite (bind_err _ _ _ _ _ Hq) in H. injection H as <- <-. exists s. eexists _, (r_cost r). by rewrite Hsame. }
  rewrite (bind_ok _ _ _ _ _ Hq) in H. erewrite bind_ok in H by (by eapply read_request_at). erewrite bind_ok in H by (by apply the_read_ok).
  revert H. run. pose proof (read_charge_le _ _ _ Hw Hr) as Hle. unfold read_charge, leased in Hle. rewrite Hl in Hle. simpl in Hle.
  pose proof (w_fits _ Hw). pose proof (ro_cost _ _ _ (w_read _ Hw _ _ Hr)).
  intros H'. erewrite bind_ok in H'; [|apply usub_ok; lia]. erewrite bind_ok in H'; [|apply usub_ok; lia].
  destruct (Z.ltb_spec (working_bytes (limits s) - (reserved s - r_cost r)) c).
  - injection H' as <- <-. exists s. eexists _, (r_cost r). rewrite Hsame. split_and!; try done; lia.
  - revert H'. run. intros [= <- <-]. eexists _, _, c. rewrite Hl in *. split_and!; try done. lia.
Qed.
