(* ===== verification/XmpBase.v ===== *)
(** XMP carrier extraction, the common part: src/src/xmp_packets.rs, lines 14-116
    and 582-869, with the cursor [Slice] (1266-1311).

    The data of an inspection, the parser state with its budgets, and the
    primitive operations every container parser is made of.  The reader is a
    fixed byte sequence [src]; the digests and decompressors are third-party
    crates and parameters.  The file proves what the primitives promise: the
    judgement [sound] says that a program keeps the evidence invariant, keeps
    packets already recovered, and does not run out of fuel. *)
From stdpp Require Import base tactics option list numbers gmap strings fin_maps pretty.
From Stdlib Require Import ZArith Lia.
From S2P Require Import Prelude Utf8.

Open Scope Z_scope.
Local Open Scope prog_scope.

(** ** Bytes and strings *)

Abbreviation bytes := (list Z) (only parsing).

Definition len {A} (l : list A) : Z := Z.of_nat (length l).
(** [&l[offset..offset + n]] of a range within [l]. *)
Definition slice {A} (l : list A) (offset n : Z) : list A :=
  take (Z.to_nat n) (drop (Z.to_nat offset) l).
Definition byte_at (l : bytes) (i : Z) : Z := default 0 (l !! Z.to_nat i).

Definition ascii_of_byte (b : Z) : Ascii.ascii := Ascii.ascii_of_N (Z.to_N b).
Definition byte_of_ascii (a : Ascii.ascii) : Z := Z.of_N (Ascii.N_of_ascii a).
(** A byte string literal [b"..."], and a [String] from its bytes. *)
Definition lit (s : string) : bytes := map byte_of_ascii (String.list_ascii_of_string s).
Definition text (l : bytes) : string := String.string_of_list_ascii (map ascii_of_byte l).

(** [{}] of an unsigned integer. *)
Definition dec (n : Z) : string := pretty (Z.to_N n).

Fixpoint starts_with (l p : bytes) : bool :=
  match p, l with
  | [], _ => true
  | x :: p', y :: l' => (x =? y) && starts_with l' p'
  | _ :: _, [] => false
  end.
Definition bytes_eqb (a b : bytes) : bool := bool_decide (a = b).

(** [iter().position(|b| b == 0)]. *)
Fixpoint find_nul (l : bytes) : option Z :=
  match l with
  | [] => None
  | b :: l' => if b =? 0 then Some 0 else (fun i => i + 1) <$> find_nul l'
  end.

(** Big- and little-endian folds: [fold(0, |n, b| (n << 8) | b)]. *)
Definition be_uint (l : bytes) : Z := fold_left (fun n b => Z.lor (Z.shiftl n 8) b) l 0.
(** @source src/src/xmp_packets.rs:854-856 be16 *)
Definition be16 (l : bytes) : Z := be_uint (take 2 l).
(** @source src/src/xmp_packets.rs:857-859 be32 *)
Definition be32 (l : bytes) : Z := be_uint (take 4 l).
(** @source src/src/xmp_packets.rs:860-862 le32 *)
Definition le32 (l : bytes) : Z := be_uint (rev (take 4 l)).

Definition hexdigit (upper : bool) (n : Z) : Z :=
  if n <? 10 then 48 + n else (if upper then 55 else 87) + n.
(** [{:X}] of a digest and [{:02x}] of each byte. *)
Definition hex (upper : bool) (l : bytes) : bytes :=
  flat_map (fun b => [hexdigit upper (Z.shiftr b 4); hexdigit upper (Z.land b 15)]) l.
Definition is_ascii_hexdigit (b : Z) : bool :=
  ((48 <=? b) && (b <=? 57)) || ((65 <=? b) && (b <=? 70)) || ((97 <=? b) && (b <=? 102)).
Definition ascii_upper (b : Z) : Z := if (97 <=? b) && (b <=? 122) then b - 32 else b.

(** [String::from_utf8_lossy]: each maximal invalid prefix becomes U+FFFD. *)
Fixpoint utf8_lossy_go (fuel : nat) (l : bytes) : bytes :=
  match fuel, l with
  | S fuel', b0 :: rest =>
      let '(n, valid) := utf8_head b0 rest in
      (if valid then take n l else [239; 191; 189]) ++ utf8_lossy_go fuel' (drop n l)
  | _, _ => []
  end.
Definition utf8_lossy (l : bytes) : bytes := utf8_lossy_go (length l) l.

(** ** The data of an inspection *)

(** @source src/src/xmp_packets.rs:15-24 Limits *)
Record Limits : Type := mkLimits {
  max_source_bytes : Z;
  max_packet_bytes : Z;
  max_retained_bytes : Z;
  max_parse_bytes : Z;
  max_metadata_read_bytes : Z;
  max_entries : Z;
  max_packets : Z;
  max_depth : Z;
}.

(** @source src/src/xmp_packets.rs:25-38 Limits::default *)
Definition default_limits : Limits :=
  mkLimits (16 * 1024 * 1024 * 1024) (16 * 1024 * 1024) (64 * 1024 * 1024) (64 * 1024 * 1024)
    (128 * 1024 * 1024) 100000 1024 32.

(** @source src/src/xmp_packets.rs:40-47 Status *)
Inductive Status : Type :=
| Absent | Complete | Unsupported | Malformed | ResourceLimit | SourceChanged.
#[export] Instance Status_eq_dec : EqDecision Status.
Proof. solve_decision. Defined.

(** @source src/src/xmp_packets.rs:49-53 Issue *)
Record Issue : Type := mkIssue { i_status : Status; i_offset : option Z; i_message : string }.

(** @source src/src/xmp_packets.rs:55-58 ByteRange *)
Record ByteRange : Type := mkRange { offset : Z; range_length : Z }.

(** @source src/src/xmp_packets.rs:60-72 Container *)
Inductive Container : Type :=
| CatalogXmp | Sidecar | JpegMain | JpegExtended | TiffTag700 | PngItxt | PsdResource1060
| WebpXmp | BmffMime | BmffUuid.
#[export] Instance Container_eq_dec : EqDecision Container.
Proof. solve_decision. Defined.

(** @source src/src/xmp_packets.rs:74-83 Packet *)
Record Packet : Type := mkPacket {
  p_container : Container;
  p_bytes : bytes;
  p_blake3 : string;
  p_ranges : list ByteRange;
  p_group : string;
  p_attributes : gmap string string;
}.

(** @source src/src/xmp_packets.rs:85-94 Transformation *)
Inductive Transformation : Type :=
| CatalogLengthPrefixedZlib | Identity | CarrierHeaderRemoved | ZlibDecompressed
| GzipDecompressed | ExtentsConcatenated | JpegExtendedReassembled.

(** @source src/src/xmp_packets.rs:96-102 ParseInput *)
Record ParseInput : Type := mkInput {
  in_bytes : bytes;
  in_blake3 : string;
  packet_indices : list Z;
  transformation : Transformation;
  in_group : string;
}.

(** @source src/src/xmp_packets.rs:583-588 Failure *)
Record Failure : Type := mkFailure {
  f_status : Status; f_offset : Z; f_message : string; f_io : option string }.

(** Fuel is no part of the code: its exhaustion is kept apart and excluded. *)
Inductive PError : Type := Fail (f : Failure) | OutOfFuel.

(** @source src/src/xmp_packets.rs:590-597 malformed *)
Definition malformed (o : Z) (m : string) : PError := Fail (mkFailure Malformed o m None).
(** @source src/src/xmp_packets.rs:598-603 limited *)
Definition limited (o : Z) (m : string) : PError := Fail (mkFailure ResourceLimit o m None).
(** @source src/src/xmp_packets.rs:604-609 unsupported *)
Definition unsupported (o : Z) (m : string) : PError := Fail (mkFailure Unsupported o m None).

(** The third-party functions: BLAKE3 (hexadecimal), MD5, and the zlib and gzip
    readers limited to a number of output bytes (zlib with the input consumed);
    [None] is an error of the decoder. *)
Class Codecs : Type := {
  digest : bytes -> string;
  md5_compute : bytes -> bytes;
  zlib_read : bytes -> Z -> option (bytes * Z);
  gzip_read : bytes -> Z -> option bytes;
}.

(** [attrs(&[("k", v)])]; the keys of a call are distinct. *)
(** @source src/src/xmp_packets.rs:863-868 attrs *)
Definition attrs (pairs : list (string * string)) : gmap string string := list_to_map pairs.

(** ** The parser *)

(** @source src/src/xmp_packets.rs:610-621 Parser *)
Record Parser : Type := mkParser {
  read_bytes : Z;
  entries : Z;
  retained : Z;
  parsed : Z;
  packets : list Packet;
  inputs : list ParseInput;
  issues : list Issue;
}.

Definition PM (A : Type) : Type := proc PError Parser A.

Definition set_read_bytes v s := mkParser v (entries s) (retained s) (parsed s) (packets s) (inputs s) (issues s).
Definition set_entries v s := mkParser (read_bytes s) v (retained s) (parsed s) (packets s) (inputs s) (issues s).
Definition push_packet p s := mkParser (read_bytes s) (entries s) (retained s + len (p_bytes p)) (parsed s) (packets s ++ [p]) (inputs s) (issues s).
Definition push_input i s := mkParser (read_bytes s) (entries s) (retained s) (parsed s + len (in_bytes i)) (packets s) (inputs s ++ [i]) (issues s).
Definition push_issue i s := mkParser (read_bytes s) (entries s) (retained s) (parsed s) (packets s) (inputs s) (issues s ++ [i]).
Definition set_packets v s := mkParser (read_bytes s) (entries s) (retained s) (parsed s) v (inputs s) (issues s).

Section Parser.
Context `{Codecs} (src : bytes) (length : Z) (limits : Limits).

(** @source src/src/xmp_packets.rs:623-636 Parser::new *)
Definition parser_new : Parser := mkParser 0 0 0 0 [] [] [].

(** @source src/src/xmp_packets.rs:637-648 Parser::record *)
Definition record (e : PError) : PM unit :=
  match e with
  | Fail f =>
      let message := match f_io f with
                     | Some error => (f_message f +:+ ": " +:+ error)%string
                     | None => f_message f
                     end in
      modify (push_issue (mkIssue (f_status f) (Some (f_offset f)) message))
  | OutOfFuel => fail OutOfFuel
  end.

(** @source src/src/xmp_packets.rs:649-655 Parser::tick *)
Definition tick (o : Z) : PM unit :=
  modify (fun s => set_entries (entries s + 1) s) ;;;
  let* s := get in
  ensure (entries s <=? max_entries limits) (limited o "container entry limit exceeded").

(** @source src/src/xmp_packets.rs:656-661 Parser::bounds *)
Definition bounds (o n e : Z) : result PError Z :=
  match checked_add o n with
  | Some v => if (v <=? e) && (v <=? length) then Ok v
              else Err (malformed o "container offset/length exceeds source or parent")
  | None => Err (malformed o "container offset/length exceeds source or parent")
  end.

(** [seek] and [read_exact]. *)
Definition read_at (o n : Z) (what : string) : PM bytes :=
  if (n =? 0) || (o + n <=? len src) then ret (slice src o n)
  else fail (Fail (mkFailure Malformed o what (Some "failed to fill whole buffer"%string))).

(** @source src/src/xmp_packets.rs:662-683 Parser::read *)
Definition read (o n : Z) : PM bytes :=
  let* _ := lift (bounds o n length) in
  ensure (n <=? max_packet_bytes limits) (limited o "individual metadata read limit exceeded") ;;;
  let* s := get in
  let* total := of_option (checked_add (read_bytes s) n) (limited o "read byte overflow") in
  put (set_read_bytes total s) ;;;
  ensure (total <=? max_metadata_read_bytes limits) (limited o "metadata read budget exceeded") ;;;
  read_at o n "source read failed".

(** @source src/src/xmp_packets.rs:684-710 Parser::packet *)
Definition packet (c : Container) (b : bytes) (ranges : list ByteRange) (group : string)
    (attributes : gmap string string) : PM Z :=
  let o := match ranges with r :: _ => offset r | [] => 0 end in
  let* s := get in
  if (max_packets limits <=? len (packets s)) || (max_packet_bytes limits <? len b)
     || (saturating_sub (max_retained_bytes limits) (retained s) <? len b)
  then fail (limited o "retained packet budget exceeded")
  else
    put (push_packet (mkPacket c b (digest b) ranges group attributes) s) ;;;
    ret (len (packets s)).

(** [self.packets[i].attributes = attributes]. *)
Definition set_attributes (i : Z) (attributes : gmap string string) : PM unit :=
  modify (fun s => set_packets
    (alter (fun p => mkPacket (p_container p) (p_bytes p) (p_blake3 p) (p_ranges p) (p_group p) attributes)
       (Z.to_nat i) (packets s)) s).

(** @source src/src/xmp_packets.rs:711-732 Parser::input *)
Definition input (b : bytes) (indices : list Z) (t : Transformation) (group : string) : PM unit :=
  let* s := get in
  if (max_packet_bytes limits <? len b)
     || (saturating_sub (max_parse_bytes limits) (parsed s) <? len b)
  then fail (limited 0 "parse input budget exceeded")
  else put (push_input (mkInput b (digest b) indices t group) s).

(** @source src/src/xmp_packets.rs:742-780 Parser::simple_within *)
Definition simple_within (c : Container) (o n : Z) (group : string) (e : Z) : PM unit :=
  let* _ := lift (bounds o 0 e) in
  let available := Z.min (saturating_sub (Z.min e length) o) n in
  let* b := read o available in
  if negb (available =? n) then
    let* _ := packet c b [mkRange o available] group
                (attrs [("declared_length", dec n); ("incomplete", "true")])%string in
    fail (malformed o "truncated XMP payload; available source bytes retained")
  else
    let* i := packet c b [mkRange o n] group ∅ in
    input b [i] Identity group.

(** @source src/src/xmp_packets.rs:733-741 Parser::simple *)
Definition simple (c : Container) (o n : Z) (group : string) : PM unit :=
  simple_within c o n group length.

(** @source src/src/xmp_packets.rs:781-783 Parser::sidecar *)
Definition sidecar : PM unit := simple Sidecar 0 length "sidecar".

(** A call whose failure is recorded as an issue; [OutOfFuel] is not one. *)
Definition recorded (m : PM unit) : PM unit :=
  let* r := try m in
  match r with Ok _ => ret tt | Err e => record e end.
End Parser.

(** ** The cursor over a metadata field *)

(** @source src/src/xmp_packets.rs:1266-1270 Slice *)
Record Slice : Type := mkSlice { s_bytes : bytes; s_pos : Z; s_offset : Z }.

Definition SliceM (A : Type) : Type := proc PError Slice A.

(** @source src/src/xmp_packets.rs:1272-1278 Slice::new *)
Definition slice_new (b : bytes) (o : Z) : Slice := mkSlice b 0 o.

(** @source src/src/xmp_packets.rs:1308-1310 Slice::remaining *)
Definition remaining (s : Slice) : bytes := drop (Z.to_nat (s_pos s)) (s_bytes s).

(** @source src/src/xmp_packets.rs:1279-1288 Slice::take *)
Definition s_take (n : Z) : SliceM bytes :=
  let* s := get in
  match checked_add (s_pos s) n with
  | Some e =>
      if e <=? len (s_bytes s) then
        put (mkSlice (s_bytes s) e (s_offset s)) ;;;
        ret (slice (s_bytes s) (s_pos s) n)
      else fail (malformed (s_offset s) "truncated metadata field")
  | None => fail (malformed (s_offset s) "truncated metadata field")
  end.

(** @source src/src/xmp_packets.rs:1289-1297 Slice::uint *)
Definition s_uint (size : Z) : SliceM Z :=
  let* s := get in
  if 8 <? size then fail (malformed (s_offset s) "integer field exceeds 64 bits")
  else let* b := s_take size in ret (be_uint b).

(** @source src/src/xmp_packets.rs:1298-1307 Slice::nul *)
Definition s_nul : SliceM bytes :=
  let* s := get in
  let* n := of_option (find_nul (remaining s)) (malformed (s_offset s) "unterminated metadata string") in
  let* value := s_take n in
  let* _ := s_take 1 in
  ret value.

(** ** A parser with a local variable

    Code that mutates a local ([visited], [groups], a cursor) along with the
    parser: the local survives a failure when its owner looks at it afterwards. *)

Definition LM (L A : Type) : Type := proc PError (Parser * L) A.

Definition on_parser {L A} (m : PM A) : LM L A :=
  fun '(s, l) => match m s with (s', r) => ((s', l), r) end.
Definition on_local {L A} (m : proc PError L A) : LM L A :=
  fun '(s, l) => match m l with (l', r) => ((s, l'), r) end.
(** Run with an initial local; its final value and the outcome are returned. *)
Definition run_local {L A} (l : L) (m : LM L A) : PM (L * result PError A) :=
  fun s => match m (s, l) with ((s', l'), r) => (s', Ok (l', r)) end.
(** The same when the local is dropped. *)
Definition with_local {L A} (l : L) (m : LM L A) : PM A :=
  let* x := run_local l m in lift x.2.

(** ** The evidence invariant *)

Section Evidence.
Context `{Codecs} (src : bytes) (length : Z) (limits : Limits).

(** Some bytes of the source, as [read] returns them. *)
Definition source_bytes (o n : Z) (b : bytes) : Prop :=
  b = slice src o n /\ 0 <= n /\ o + n <= length /\ (n = 0 \/ o + n <= len src).

Definition range_ok (r : ByteRange) : Prop :=
  0 <= range_length r /\ offset r + range_length r <= length
  /\ (range_length r = 0 \/ offset r + range_length r <= len src).

(** A retained packet is exactly the source at its ranges, with its digest. *)
Record packet_ok (p : Packet) : Prop := {
  pk_digest : p_blake3 p = digest (p_bytes p);
  pk_bytes : p_bytes p = concat (map (fun r => slice src (offset r) (range_length r)) (p_ranges p));
  pk_ranges : Forall range_ok (p_ranges p);
  pk_size : len (p_bytes p) <= max_packet_bytes limits;
}.

(** A parse input names packets of the inspection. *)
Record input_ok (count : Z) (i : ParseInput) : Prop := {
  io_digest : in_blake3 i = digest (in_bytes i);
  io_indices : Forall (fun k => 0 <= k < count) (packet_indices i);
  io_size : len (in_bytes i) <= max_packet_bytes limits;
}.

Definition total_len (l : list bytes) : Z := fold_right (fun b acc => len b + acc) 0 l.

Record evidence (s : Parser) : Prop := {
  ev_packets : Forall packet_ok (packets s);
  ev_retained : retained s = total_len (map p_bytes (packets s));
  ev_retained_max : retained s <= max_retained_bytes limits;
  ev_count : len (packets s) <= max_packets limits;
  ev_inputs : Forall (input_ok (len (packets s))) (inputs s);
  ev_parsed : parsed s = total_len (map in_bytes (inputs s));
  ev_parsed_max : parsed s <= max_parse_bytes limits;
}.

(** With at least [n] packets and [e] entries counted. *)
Definition holds (n e : Z) (s : Parser) : Prop :=
  evidence s /\ n <= len (packets s) /\ e <= entries s.

Definition sound {A} (n e : Z) (m : PM A) : Prop :=
  triple (holds n e) m (fun _ => holds n e) (fun er s => holds n e s /\ er <> OutOfFuel).

(** The same for code with a local; [J c] is its invariant when [c] packets
    are retained, kept as packets are added. *)
Class Growing {L} (J : Z -> L -> Prop) : Prop :=
  growing : forall a b l, a <= b -> J a l -> J b l.
Definition lholds {L} (J : Z -> L -> Prop) (n e : Z) (x : Parser * L) : Prop :=
  holds n e x.1 /\ J (len (packets x.1)) x.2.
Definition lsound {L A} (J : Z -> L -> Prop) (n e : Z) (m : LM L A) : Prop :=
  triple (lholds J n e) m (fun _ => lholds J n e) (fun er x => lholds J n e x /\ er <> OutOfFuel).

Lemma len_nonneg {A} (l : list A) : 0 <= len l.
Proof. unfold len. lia. Qed.
Lemma len_app {A} (a b : list A) : len (a ++ b) = len a + len b.
Proof. unfold len. rewrite length_app. lia. Qed.
Lemma len_snoc {A} (a : list A) x : len (a ++ [x]) = len a + 1.
Proof. by rewrite len_app. Qed.
Lemma total_len_app a b : total_len (a ++ b) = total_len a + total_len b.
Proof. unfold total_len. induction a as [|x a IH]; cbn [app fold_right]; lia. Qed.

Lemma holds_weaken n e n' e' s : holds n e s -> n' <= n -> e' <= e -> holds n' e' s.
Proof. intros (? & ? & ?) ? ?. split_and!; [done|lia..]. Qed.

(** *** Rules *)

Lemma sound_ret {A} n e (a : A) : sound n e (ret a).
Proof. intros s Hs. exact Hs. Qed.
Lemma sound_fail {A} n e er : er <> OutOfFuel -> sound n e (fail (A:=A) er).
Proof. intros Her s Hs. done. Qed.
Lemma sound_bind {A B} n e (m : PM A) (k : A -> PM B) :
  sound n e m -> (forall a, sound n e (k a)) -> sound n e (bind m k).
Proof. intros Hm Hk. eapply triple_bind; [exact Hm|exact Hk]. Qed.
Lemma sound_get_bind {B} n e (k : Parser -> PM B) :
  (forall s, sound n e (k s)) -> sound n e (bind get k).
Proof. intros Hk s Hs. exact (Hk s s Hs). Qed.
Lemma sound_ensure n e b er : er <> OutOfFuel -> sound n e (ensure b er).
Proof. intros Her. destruct b; [apply sound_ret|by apply sound_fail]. Qed.
Lemma sound_of_option {A} n e (o : option A) er : er <> OutOfFuel -> sound n e (of_option o er).
Proof. intros Her. destruct o; [apply sound_ret|by apply sound_fail]. Qed.
Lemma sound_lift {A} n e (r : result PError A) : r <> Err OutOfFuel -> sound n e (lift r).
Proof. intros Hr. destruct r; [apply sound_ret|]. apply sound_fail. congruence. Qed.
Lemma sound_if {A} n e (b : bool) (m1 m2 : PM A) :
  (b = true -> sound n e m1) -> (b = false -> sound n e m2) -> sound n e (if b then m1 else m2).
Proof. destruct b; auto. Qed.

Lemma sound_of_option_bind {A B} n e (o : option A) er (k : A -> PM B) :
  er <> OutOfFuel -> (forall a, o = Some a -> sound n e (k a)) -> sound n e (bind (of_option o er) k).
Proof. intros Her Hk s Hs. run. destruct o; [by apply Hk|done]. Qed.

(** Using what a pure computation returned. *)
Lemma sound_lift_bind {A B} n e (r : result PError A) (k : A -> PM B) :
  r <> Err OutOfFuel -> (forall a, r = Ok a -> sound n e (k a)) -> sound n e (bind (lift r) k).
Proof. intros Hr Hk s Hs. run. destruct r; [by apply Hk|]. split; [done|congruence]. Qed.

Lemma malformed_fuel o m : malformed o m <> OutOfFuel.
Proof. done. Qed.
Lemma limited_fuel o m : limited o m <> OutOfFuel.
Proof. done. Qed.
Lemma unsupported_fuel o m : unsupported o m <> OutOfFuel.
Proof. done. Qed.

Lemma bounds_spec o n e :
  match bounds length o n e with
  | Ok v => v = o + n /\ v <= e /\ v <= length /\ v <= u64_max
  | Err er => er <> OutOfFuel
  end.
Proof.
  unfold bounds. destruct (checked_add o n) as [v|] eqn:Hv; [|done].
  apply checked_add_Some in Hv as [-> Hv].
  destruct (Z.leb_spec (o + n) e), (Z.leb_spec (o + n) length); simpl; done.
Qed.
Lemma bounds_fuel o n e : bounds length o n e <> Err OutOfFuel.
Proof. pose proof (bounds_spec o n e). destruct (bounds length o n e); congruence. Qed.

Lemma sound_bounds_bind {B} n e o k e' (m : Z -> PM B) :
  (o + k <= e' -> o + k <= length -> sound n e (m (o + k))) ->
  sound n e (bind (lift (bounds length o k e')) m).
Proof.
  intros Hm. apply sound_lift_bind; [apply bounds_fuel|]. intros v Hv.
  pose proof (bounds_spec o k e') as Hs. rewrite Hv in Hs. destruct Hs as (-> & ? & ? & _). by apply Hm.
Qed.

(** Writing the counters. *)
Lemma holds_counters n e s r en :
  holds n e s -> e <= en -> holds n e (mkParser r en (retained s) (parsed s) (packets s) (inputs s) (issues s)).
Proof. intros (Hev & Hn & He) Hen. split_and!; try done. destruct Hev. by constructor. Qed.

Lemma sound_record n e er : er <> OutOfFuel -> sound n e (record er).
Proof.
  intros Her s (Hev & Hn & He). unfold record. destruct er as [f|]; [|done].
  split_and!; try done. destruct Hev. by constructor.
Qed.

Lemma parser_tick_run n e o s :
  holds n e s -> exists s1, holds n (e + 1) s1 /\
  ((tick limits o s = (s1, Ok tt) /\ e + 1 <= max_entries limits)
   \/ tick limits o s = (s1, Err (limited o "container entry limit exceeded"))).
Proof.
  intros Hs. unfold tick. run.
  set (s1 := set_entries _ s). assert (holds n (e + 1) s1) as Hs1.
  { destruct Hs as (Hev & Hn & He). split_and!; simpl; try done; [|lia]. destruct Hev. by constructor. }
  exists s1. split; [done|]. unfold ensure.
  destruct (Z.leb_spec (entries s1) (max_entries limits)) as [Hle|]; [left|right]; [|done].
  split; [done|]. destruct Hs1 as (_ & _ & He). lia.
Qed.

Lemma sound_tick_bind {B} n e o (k : unit -> PM B) :
  (e + 1 <= max_entries limits -> sound n (e + 1) (k tt)) -> sound n e (bind (tick limits o) k).
Proof.
  intros Hk s Hs. destruct (parser_tick_run n e o s Hs) as (s1 & Hs1 & [[Ht Hle]|Ht]).
  - rewrite (bind_ok _ _ _ _ _ Ht). specialize (Hk Hle s1 Hs1).
    destruct (k tt s1) as [s2 [b|er]]; [|split; [|apply Hk]]; (eapply holds_weaken; [apply Hk|lia|lia]).
  - rewrite (bind_err _ _ _ _ _ Ht). split; [|done]. eapply holds_weaken; [exact Hs1|lia|lia].
Qed.
Lemma sound_tick n e o : sound n e (tick limits o).
Proof.
  intros s Hs. pose proof (sound_tick_bind n e o ret ltac:(intros; apply sound_ret) s Hs) as Ht.
  unfold bind in Ht at 1. by destruct (tick limits o s) as [s' [[]|er]].
Qed.

Lemma read_spec n e o k :
  triple (holds n e) (read src length limits o k)
    (fun b s => holds n e s /\ (0 <= k -> source_bytes o k b))
    (fun er s => holds n e s /\ er <> OutOfFuel).
Proof.
  intros s Hs. unfold read. run. pose proof (bounds_spec o k length) as Hb.
  destruct (bounds length o k length) as [v|er]; [|done]. destruct Hb as (-> & _ & Hle & _). run.
  destruct (k <=? max_packet_bytes limits); [|done].
  destruct (checked_add (read_bytes s) k) as [t|]; [|done].
  set (s1 := set_read_bytes t s). assert (holds n e s1) as Hs1 by (by apply holds_counters; [|apply Hs]).
  destruct (t <=? max_metadata_read_bytes limits); [|done].
  unfold read_at. destruct ((k =? 0) || (o + k <=? len src)) eqn:E; simpl; [|done].
  split; [done|]. intros Hk. split_and!; try done.
  apply orb_true_iff in E as [E|E]; [left|right]; lia.
Qed.

Lemma sound_read_bind {B} n e o k (m : bytes -> PM B) :
  (forall b, (0 <= k -> source_bytes o k b) -> sound n e (m b)) ->
  sound n e (bind (read src length limits o k) m).
Proof.
  intros Hm. eapply triple_bind; [apply read_spec|]. intros b s [Hs Hb]. by apply (Hm b Hb).
Qed.
Lemma sound_read n e o k : sound n e (read src length limits o k).
Proof. eapply triple_conseq; [apply read_spec|done|by intros a s [? _]|done]. Qed.

Lemma packet_spec n e c b rs g a :
  b = concat (map (fun r => slice src (offset r) (range_length r)) rs) -> Forall range_ok rs ->
  triple (holds n e) (packet limits c b rs g a)
    (fun i s => 0 <= i /\ n <= i /\ holds (i + 1) e s)
    (fun er s => holds n e s /\ er <> OutOfFuel).
Proof.
  intros Hb Hr s (Hev & Hn & He). unfold packet. run.
  destruct ((max_packets limits <=? len (packets s)) || _ || _) eqn:E; [done|].
  apply orb_false_iff in E as [E E3]. apply orb_false_iff in E as [E1 E2].
  unfold saturating_sub in E3. run. split; [apply len_nonneg|]. split; [done|].
  pose proof (len_nonneg b) as Hl. pose proof (ev_retained_max s Hev).
  split_and!; simpl; [|rewrite len_snoc; lia|done].
  destruct Hev. constructor; simpl.
  - apply Forall_app. split; [done|]. apply Forall_singleton. constructor; simpl; try done. lia.
  - rewrite map_app, total_len_app, ev_retained0. simpl. lia.
  - lia.
  - rewrite len_snoc. lia.
  - eapply Forall_impl; [done|]. intros i [Hd Hi Hz]. constructor; try done.
    eapply Forall_impl; [done|]. intros k Hk. cbv beta in *. rewrite len_snoc. lia.
  - done.
  - done.
Qed.

Lemma sound_packet_bind {B} n e c b rs g a (m : Z -> PM B) :
  b = concat (map (fun r => slice src (offset r) (range_length r)) rs) -> Forall range_ok rs ->
  (forall i, 0 <= i -> n <= i -> sound (i + 1) e (m i)) ->
  sound n e (bind (packet limits c b rs g a) m).
Proof.
  intros Hb Hr Hm. eapply triple_bind; [by apply packet_spec|].
  intros i s (Hi & Hn & Hs). specialize (Hm i Hi Hn s Hs).
  destruct (m i s) as [s' [x|er]]; [|split; [|apply Hm]]; (eapply holds_weaken; [apply Hm|lia|lia]).
Qed.

Lemma source_range o k b :
  source_bytes o k b ->
  b = concat (map (fun r => slice src (offset r) (range_length r)) [mkRange o k])
  /\ Forall range_ok [mkRange o k].
Proof.
  intros (-> & ? & ? & ?). split; [simpl; by rewrite app_nil_r|]. apply Forall_singleton. done.
Qed.

Lemma sound_set_attributes n e i a : sound n e (set_attributes i a).
Proof.
  intros s (Hev & Hn & He). unfold set_attributes, modify. simpl.
  set (f := fun p => mkPacket _ _ _ _ _ _).
  assert (forall j (l : list Packet), map p_bytes (alter f j l) = map p_bytes l) as Hmap.
  { induction j as [|j IH]; intros [|p l]; simpl; try done. f_equal. apply IH. }
  assert (forall j (l : list Packet), len (alter f j l) = len l) as Hlen
    by (intros; unfold len; by rewrite length_alter).
  split_and!; simpl; [|by rewrite Hlen|done].
  destruct Hev. constructor; simpl; rewrite ?Hmap, ?Hlen; try done.
  apply Forall_alter; [done|]. intros p _ [H1 H2 H3 H4]. by constructor.
Qed.

Lemma sound_input n e b ixs t g :
  Forall (fun k => 0 <= k < n) ixs -> sound n e (input limits b ixs t g).
Proof.
  intros Hi s (Hev & Hn & He). unfold input. run.
  destruct ((max_packet_bytes limits <? len b) || _) eqn:E; [done|].
  apply orb_false_iff in E as [E1 E2]. unfold saturating_sub in E2.
  pose proof (len_nonneg b). pose proof (ev_parsed_max s Hev).
  split_and!; simpl; try done. destruct Hev. constructor; simpl; try done.
  - apply Forall_app. split; [done|]. apply Forall_singleton. constructor; simpl; [done| |lia].
    eapply Forall_impl; [done|]. intros k Hk. simpl in Hk |- *. lia.
  - rewrite map_app, total_len_app, ev_parsed0. simpl. lia.
  - lia.
Qed.

Lemma sound_recorded n e m : sound n e m -> sound n e (recorded m).
Proof.
  intros Hm s Hs. specialize (Hm s Hs). unfold recorded, bind at 1, try.
  destruct (m s) as [s' [[]|er]]; [exact Hm|]. destruct Hm as [Hs' Her]. by apply sound_record.
Qed.

Lemma sound_simple_within n e c o k g e' :
  0 <= k -> sound n e (simple_within src length limits c o k g e').
Proof.
  intros Hk. unfold simple_within. apply sound_bounds_bind. intros He' Hl.
  set (available := Z.min _ k).
  assert (0 <= available) as Ha by (unfold available, saturating_sub; lia).
  apply sound_read_bind. intros b Hb. apply source_range in Hb as [Hb Hr]; [|done].
  apply sound_if; intros Hav.
  - apply sound_packet_bind; [done|done|]. intros i _ _. by apply sound_fail.
  - apply negb_false_iff, Z.eqb_eq in Hav. rewrite Hav in *.
    apply sound_packet_bind; [done|done|]. intros i Hi _. apply sound_input.
    apply Forall_singleton. lia.
Qed.

Lemma sound_simple n e c o k g : 0 <= k -> sound n e (simple src length limits c o k g).
Proof. apply sound_simple_within. Qed.

(** *** Rules for code with a local *)

Section Locals.
Context {L : Type} (J : Z -> L -> Prop) `{!Growing J}.

Lemma lsound_ret {A} n e (a : A) : lsound J n e (ret a).
Proof. intros s Hs. exact Hs. Qed.
Lemma lsound_fail {A} n e er : er <> OutOfFuel -> lsound J n e (fail (A:=A) er).
Proof. intros Her s Hs. done. Qed.
Lemma lsound_bind {A B} n e (m : LM L A) (k : A -> LM L B) :
  lsound J n e m -> (forall a, lsound J n e (k a)) -> lsound J n e (bind m k).
Proof. intros Hm Hk. eapply triple_bind; [exact Hm|exact Hk]. Qed.
Lemma lsound_if {A} n e (b : bool) (m1 m2 : LM L A) :
  (b = true -> lsound J n e m1) -> (b = false -> lsound J n e m2) -> lsound J n e (if b then m1 else m2).
Proof. destruct b; auto. Qed.
Lemma lsound_lift_bind {A B} n e (r : result PError A) (k : A -> LM L B) :
  r <> Err OutOfFuel -> (forall a, r = Ok a -> lsound J n e (k a)) -> lsound J n e (bind (lift r) k).
Proof. intros Hr Hk s Hs. run. destruct r; [by apply Hk|]. split; [done|congruence]. Qed.

Lemma lholds_weaken n e n' e' x : lholds J n e x -> n' <= n -> e' <= e -> lholds J n' e' x.
Proof. intros [Hs Hj] ? ?. split; [by eapply holds_weaken|done]. Qed.
Lemma lsound_weaken {A} n e n' e' (m : LM L A) x :
  lsound J n e m -> lholds J n e x -> n' <= n -> e' <= e ->
  match m x with
  | (x', Ok _) => lholds J n' e' x'
  | (x', Err er) => lholds J n' e' x' /\ er <> OutOfFuel
  end.
Proof.
  intros Hm Hx Hn He. specialize (Hm x Hx). destruct (m x) as [x' [a|er]].
  - by eapply lholds_weaken.
  - destruct Hm. split; [by eapply lholds_weaken|done].
Qed.

(** A parser step, whose result satisfies [Q]. *)
Lemma lsound_on_parser_bind {A B} n e (m : PM A) (Q : A -> Prop) (k : A -> LM L B) :
  (forall n', n <= n' -> triple (holds n' e) m (fun a s => holds n' e s /\ Q a)
                           (fun er s => holds n' e s /\ er <> OutOfFuel)) ->
  (forall a, Q a -> lsound J n e (k a)) -> lsound J n e (bind (on_parser m) k).
Proof.
  intros Hm Hk [s l] [Hs Hl]. simpl in *.
  assert (holds (len (packets s)) e s) as Hs0 by (destruct Hs as (? & ? & ?); by split_and!).
  assert (n <= len (packets s)) as Hn by apply Hs.
  specialize (Hm _ Hn s Hs0). unfold bind, on_parser.
  destruct (m s) as [s' [a|er]].
  - destruct Hm as [Hs' HQ]. apply (Hk a HQ). split; [by eapply holds_weaken|].
    simpl. eapply growing; [|exact Hl]. apply Hs'.
  - destruct Hm as [Hs' Her]. split; [|done]. split; [by eapply holds_weaken|].
    simpl. eapply growing; [|exact Hl]. apply Hs'.
Qed.
Lemma lsound_on_parser {A} n e (m : PM A) :
  (forall n', n <= n' -> sound n' e m) -> lsound J n e (on_parser m).
Proof.
  intros Hm x Hx. pose proof (lsound_on_parser_bind n e m (fun _ => True) ret) as H1.
  specialize (H1 ltac:(intros n' Hn'; eapply triple_conseq; [exact (Hm n' Hn')|done|done|done])
                 ltac:(intros; apply lsound_ret) x Hx).
  unfold bind in H1. by destruct (on_parser m x) as [x' []].
Qed.
Lemma lsound_read_bind {B} n e o k (m : bytes -> LM L B) :
  (forall b, (0 <= k -> source_bytes o k b) -> lsound J n e (m b)) ->
  lsound J n e (bind (on_parser (read src length limits o k)) m).
Proof. apply lsound_on_parser_bind. intros n' _. apply read_spec. Qed.
Lemma lsound_bounds_bind {B} n e o k e' (m : Z -> LM L B) :
  (o + k <= e' -> o + k <= length -> lsound J n e (m (o + k))) ->
  lsound J n e (bind (lift (bounds length o k e')) m).
Proof.
  intros Hm. apply lsound_lift_bind; [apply bounds_fuel|]. intros v Hv.
  pose proof (bounds_spec o k e') as Hs. rewrite Hv in Hs. destruct Hs as (-> & ? & ? & _). by apply Hm.
Qed.
Lemma lsound_packet_bind {B} n e c b rs g a (m : Z -> LM L B) :
  b = concat (map (fun r => slice src (offset r) (range_length r)) rs) -> Forall range_ok rs ->
  (forall i, 0 <= i -> n <= i -> lsound J (i + 1) e (m i)) ->
  lsound J n e (bind (on_parser (packet limits c b rs g a)) m).
Proof.
  intros Hb Hr Hm [s l] [Hs Hl]. simpl in *.
  assert (holds (len (packets s)) e s) as Hs0 by (destruct Hs as (? & ? & ?); by split_and!).
  pose proof (packet_spec _ e c b rs g a Hb Hr s Hs0) as Hp. unfold bind, on_parser.
  destruct (packet limits c b rs g a s) as [s' [i|er]].
  - destruct Hp as (Hi & Hni & Hs'). assert (n <= len (packets s)) by apply Hs.
    eapply (lsound_weaken (i + 1) e); [by apply Hm; lia| |lia|lia].
    split; [exact Hs'|]. simpl. eapply growing; [|exact Hl]. destruct Hs' as (_ & ? & _). lia.
  - destruct Hp as [Hs' Her]. split; [|done]. split; [eapply holds_weaken; [exact Hs'|apply Hs|lia]|].
    simpl. eapply growing; [|exact Hl]. apply Hs'.
Qed.
Lemma lsound_tick_bind {B} n e o (k : unit -> LM L B) :
  (e + 1 <= max_entries limits -> lsound J n (e + 1) (k tt)) ->
  lsound J n e (bind (on_parser (tick limits o)) k).
Proof.
  intros Hk [s l] [Hs Hl]. simpl in *. unfold bind, on_parser.
  assert (holds (len (packets s)) e s) as Hs0 by (destruct Hs as (? & ? & ?); by split_and!).
  destruct (parser_tick_run _ e o s Hs0) as (s1 & Hs1 & Ht).
  assert (lholds J n (e + 1) (s1, l)) as Hx.
  { split; [eapply holds_weaken; [exact Hs1|apply Hs|lia]|]. simpl.
    eapply growing; [|exact Hl]. apply Hs1. }
  destruct Ht as [[Ht Hle]|Ht]; rewrite Ht.
  - eapply lsound_weaken; [exact (Hk Hle)|exact Hx|lia|lia].
  - split; [|done]. eapply lholds_weaken; [exact Hx|lia|lia].
Qed.
Lemma lsound_on_local {A} n e (m : proc PError L A) :
  (forall c, n <= c -> triple (J c) m (fun _ => J c) (fun er l => J c l /\ er <> OutOfFuel)) ->
  lsound J n e (on_local m).
Proof.
  intros Hm [s l] [Hs Hl]. simpl in *. assert (n <= len (packets s)) as Hn by apply Hs.
  specialize (Hm _ Hn l Hl). unfold on_local.
  destruct (m l) as [l' [a|er]]; [done|]. destruct Hm. done.
Qed.
Lemma sound_run_local {A B} n e l (m : LM L A) (k : L * result PError A -> PM B) :
  (forall c, n <= c -> J c l) -> lsound J n e m ->
  (forall l' r c, n <= c -> J c l' -> r <> Err OutOfFuel -> sound c e (k (l', r))) ->
  sound n e (bind (run_local l m) k).
Proof.
  intros Hl Hm Hk s Hs. assert (n <= len (packets s)) as Hn by apply Hs.
  specialize (Hm (s, l) (conj Hs (Hl _ Hn))). unfold bind, run_local.
  destruct (m (s, l)) as [[s' l'] r] eqn:E.
  assert (holds n e s' /\ J (len (packets s')) l' /\ r <> Err OutOfFuel) as (Hs' & HJ & Hr).
  { destruct r as [a|er]; [by destruct Hm|]. destruct Hm as [[? ?] ?]. split_and!; [done..|congruence]. }
  assert (n <= len (packets s')) as Hn' by apply Hs'.
  specialize (Hk l' r _ Hn' HJ Hr s'). destruct Hs' as (Hev & _ & He).
  specialize (Hk (conj Hev (conj (Z.le_refl _) He))).
  destruct (k (l', r) s') as [s2 [b|er]]; [|split; [|apply Hk]]; (eapply holds_weaken; [apply Hk|lia|lia]).
Qed.
Lemma sound_with_local {A} n e l (m : LM L A) :
  (forall c, n <= c -> J c l) -> lsound J n e m -> sound n e (with_local l m).
Proof.
  intros Hl Hm. unfold with_local. apply sound_run_local; [done|done|].
  intros l' r c _ _ Hr. by apply sound_lift.
Qed.

(** With a property of the result. *)
Definition lreturns {A} (n e : Z) (m : LM L A) (Q : A -> Prop) : Prop :=
  triple (lholds J n e) m (fun a x => lholds J n e x /\ Q a) (fun er x => lholds J n e x /\ er <> OutOfFuel).

Lemma lreturns_ret {A} n e (a : A) (Q : A -> Prop) : Q a -> lreturns n e (ret a) Q.
Proof. intros Ha x Hx. done. Qed.
Lemma lreturns_fail {A} n e er (Q : A -> Prop) : er <> OutOfFuel -> lreturns n e (fail er) Q.
Proof. intros Her x Hx. done. Qed.
Lemma lreturns_bind {A B} n e (m : LM L A) (k : A -> LM L B) (Q1 : A -> Prop) (Q : B -> Prop) :
  lreturns n e m Q1 -> (forall a, Q1 a -> lreturns n e (k a) Q) -> lreturns n e (bind m k) Q.
Proof. intros Hm Hk. eapply triple_bind; [exact Hm|]. intros a x [Hx Ha]. by apply Hk. Qed.
Lemma lreturns_sound {A} n e (m : LM L A) : lsound J n e m -> lreturns n e m (fun _ => True).
Proof. intros Hm. eapply triple_conseq; [exact Hm|done|done|done]. Qed.
Lemma lreturns_if {A} n e (b : bool) (m1 m2 : LM L A) Q :
  lreturns n e m1 Q -> lreturns n e m2 Q -> lreturns n e (if b then m1 else m2) Q.
Proof. by destruct b. Qed.
Lemma lreturns_on_local {A} n e (m : proc PError L A) (Q : A -> Prop) :
  (forall c, n <= c -> triple (J c) m (fun a l => J c l /\ Q a) (fun er l => J c l /\ er <> OutOfFuel)) ->
  lreturns n e (on_local m) Q.
Proof.
  intros Hm [s l] [Hs Hl]. simpl in *. assert (n <= len (packets s)) as Hn by apply Hs.
  specialize (Hm _ Hn l Hl). unfold on_local. destruct (m l) as [l' [a|er]]; destruct Hm; done.
Qed.
End Locals.

(** The same without a local. *)
Definition returns {A} (n e : Z) (m : PM A) (Q : A -> Prop) : Prop :=
  triple (holds n e) m (fun a s => holds n e s /\ Q a) (fun er s => holds n e s /\ er <> OutOfFuel).

Lemma returns_bind {A B} n e (m : PM A) (k : A -> PM B) (Q : A -> Prop) :
  returns n e m Q -> (forall a, Q a -> sound n e (k a)) -> sound n e (bind m k).
Proof. intros Hm Hk. eapply triple_bind; [exact Hm|]. intros a x [Hx Ha]. by apply Hk. Qed.
Lemma returns_bind_returns {A B} n e (m : PM A) (k : A -> PM B) (Q : A -> Prop) (Q' : B -> Prop) :
  returns n e m Q -> (forall a, Q a -> returns n e (k a) Q') -> returns n e (bind m k) Q'.
Proof. intros Hm Hk. eapply triple_bind; [exact Hm|]. intros a x [Hx Ha]. by apply Hk. Qed.
Lemma returns_ret {A} n e (a : A) (Q : A -> Prop) : Q a -> returns n e (ret a) Q.
Proof. intros Ha x Hx. done. Qed.
Lemma returns_fail {A} n e er (Q : A -> Prop) : er <> OutOfFuel -> returns n e (fail er) Q.
Proof. intros Her x Hx. done. Qed.
Lemma returns_sound {A} n e (m : PM A) : sound n e m -> returns n e m (fun _ => True).
Proof. intros Hm. eapply triple_conseq; [exact Hm|done|done|done]. Qed.
Lemma sound_returns {A} n e (m : PM A) (Q : A -> Prop) : returns n e m Q -> sound n e m.
Proof. intros Hm. eapply triple_conseq; [exact Hm|done|by intros a s [? _]|done]. Qed.

(** What is sound with all the packets there are is sound. *)
Lemma sound_raise {A} n e (m : PM A) s :
  holds n e s -> sound (len (packets s)) e m ->
  match m s with
  | (s', Ok _) => holds n e s'
  | (s', Err er) => holds n e s' /\ er <> OutOfFuel
  end.
Proof.
  intros (Hev & Hn & He) Hm. specialize (Hm s (conj Hev (conj (Z.le_refl _) He))).
  destruct (m s) as [s' [a|er]]; [|split; [|apply Hm]]; (eapply holds_weaken; [apply Hm|lia|lia]).
Qed.

(** A step that ticks, whose failure the caller inspects. *)
Lemma returns_try_tick_bind {A B} n e o (m : unit -> PM A) (k : result PError A -> PM B)
    (Q1 : A -> Prop) (Q : B -> Prop) :
  returns n (e + 1) (m tt) Q1 ->
  (forall a, Q1 a -> e + 1 <= max_entries limits -> returns n (e + 1) (k (Ok a)) Q) ->
  (forall er, er <> OutOfFuel -> returns n (e + 1) (k (Err er)) Q) ->
  returns n e (bind (try (bind (tick limits o) m)) k) Q.
Proof.
  intros Hm Hok Herr s Hs. unfold bind at 1, try, bind.
  assert (forall s1 r, holds n (e + 1) s1 -> returns n (e + 1) (k r) Q ->
    match k r s1 with
    | (s', Ok a) => holds n e s' /\ Q a
    | (s', Err er) => holds n e s' /\ er <> OutOfFuel
    end) as Hk.
  { intros s1 r Hs1 Hr. specialize (Hr s1 Hs1). destruct (k r s1) as [s2 [b|er]];
      (split; [eapply holds_weaken; [apply Hr|lia|lia]|apply Hr]). }
  destruct (parser_tick_run n e o s Hs) as (s1 & Hs1 & [[Ht Hle]|Ht]); rewrite Ht.
  - specialize (Hm s1 Hs1). destruct (m tt s1) as [s2 [a|er]].
    + destruct Hm as [Hs2 Ha]. apply Hk; [exact Hs2|by apply Hok].
    + destruct Hm as [Hs2 Her]. apply Hk; [exact Hs2|by apply Herr].
  - apply Hk; [exact Hs1|by apply Herr].
Qed.
Lemma returns_with_local {L A} (J : Z -> L -> Prop) n e l (m : LM L A) (Q : A -> Prop) :
  (forall c, n <= c -> J c l) -> lreturns J n e m Q -> returns n e (with_local l m) Q.
Proof.
  intros Hl Hm s Hs. assert (n <= len (packets s)) as Hn by apply Hs.
  specialize (Hm (s, l) (conj Hs (Hl _ Hn))). unfold with_local, bind, run_local, lift.
  destruct (m (s, l)) as [[s' l'] [a|er]]; simpl.
  - by destruct Hm as [[? ?] ?].
  - by destruct Hm as [[? ?] ?].
Qed.
End Evidence.

(** ** Byte values *)

Definition byte_values (l : bytes) : Prop := Forall (fun b => 0 <= b < 256) l.

Lemma byte_values_take n l : byte_values l -> byte_values (take n l).
Proof. apply Forall_take. Qed.
Lemma byte_values_drop n l : byte_values l -> byte_values (drop n l).
Proof. apply Forall_drop. Qed.
Lemma byte_values_slice l o n : byte_values l -> byte_values (slice l o n).
Proof. intros Hl. by apply byte_values_take, byte_values_drop. Qed.
Lemma byte_values_rev l : byte_values l -> byte_values (rev l).
Proof. intros Hl. rewrite rev_alt, rev_append_rev, app_nil_r. by apply Forall_rev. Qed.
Lemma byte_at_nonneg l i : byte_values l -> 0 <= byte_at l i < 256.
Proof.
  intros Hl. unfold byte_at. destruct (l !! Z.to_nat i) as [b|] eqn:E; simpl; [|lia].
  by apply (Forall_lookup_1 _ _ _ _ Hl E).
Qed.
Lemma be_uint_nonneg l : byte_values l -> 0 <= be_uint l.
Proof.
  unfold be_uint. assert (forall a, 0 <= a -> byte_values l ->
    0 <= fold_left (fun n b => Z.lor (Z.shiftl n 8) b) l a) as Hl.
  { induction l as [|b l IH]; intros a Ha Hf; [done|]. inversion Hf; subst. simpl. apply IH; [|done].
    apply Z.lor_nonneg. split; [|lia]. by apply Z.shiftl_nonneg. }
  by apply Hl.
Qed.
Lemma be32_nonneg l : byte_values l -> 0 <= be32 l.
Proof. intros Hl. by apply be_uint_nonneg, byte_values_take. Qed.
Lemma le32_nonneg l : byte_values l -> 0 <= le32 l.
Proof. intros Hl. by apply be_uint_nonneg, byte_values_rev, byte_values_take. Qed.
Lemma source_byte_values src length o n b :
  byte_values src -> 0 <= n -> (0 <= n -> source_bytes src length o n b) -> byte_values b.
Proof. intros Hs Hn Hb. destruct (Hb Hn) as (-> & _). by apply byte_values_slice. Qed.
#[export] Hint Resolve byte_values_take byte_values_drop byte_values_slice be32_nonneg le32_nonneg : prog.

(** Cursor operations never run out of fuel. *)
Definition slice_safe {A} (m : SliceM A) : Prop :=
  triple (fun _ => True) m (fun _ _ => True) (fun er _ => True /\ er <> OutOfFuel).

Lemma s_take_safe n : slice_safe (s_take n).
Proof.
  intros s _. unfold s_take. run. destruct (checked_add (s_pos s) n); [|done].
  by destruct (z <=? len (s_bytes s)).
Qed.
Lemma s_bind_safe {A B} (m : SliceM A) (k : A -> SliceM B) :
  slice_safe m -> (forall a, slice_safe (k a)) -> slice_safe (bind m k).
Proof. intros Hm Hk. eapply triple_bind; [exact Hm|exact Hk]. Qed.
Lemma s_uint_safe n : slice_safe (s_uint n).
Proof.
  intros s _. unfold s_uint. run. destruct (8 <? n); [done|].
  by apply (s_bind_safe (s_take n) (fun b => ret (be_uint b)) (s_take_safe n)).
Qed.
Lemma s_nul_safe : slice_safe s_nul.
Proof.
  intros s _. unfold s_nul. run. destruct (find_nul (remaining s)) as [n|]; [|done].
  apply (s_bind_safe (s_take n) (fun value => bind (s_take 1) (fun _ => ret value)) (s_take_safe n)); [|done].
  intros v. apply s_bind_safe; [apply s_take_safe|]. by intros a x _.
Qed.

(** Over byte values, fields are not negative and the cursor keeps its bytes. *)
Definition cursor_values (_ : Z) (s : Slice) : Prop := byte_values (s_bytes s).
#[export] Instance cursor_growing : Growing cursor_values.
Proof. intros a b l _ Hl. exact Hl. Qed.

Lemma s_take_values c n :
  triple (cursor_values c) (s_take n) (fun b s => cursor_values c s /\ byte_values b)
    (fun er s => cursor_values c s /\ er <> OutOfFuel).
Proof.
  intros s Hs. unfold s_take. run. destruct (checked_add (s_pos s) n) as [v|]; [|done].
  destruct (v <=? len (s_bytes s)); [|done]. split; [done|]. by apply byte_values_slice.
Qed.
Lemma s_uint_values c n :
  triple (cursor_values c) (s_uint n) (fun v s => cursor_values c s /\ 0 <= v)
    (fun er s => cursor_values c s /\ er <> OutOfFuel).
Proof.
  intros s Hs. unfold s_uint. run. destruct (8 <? n); [done|]. revert s Hs.
  eapply triple_bind; [apply s_take_values|]. intros b s [Hs Hb]. split; [done|]. by apply be_uint_nonneg.
Qed.
#[export] Hint Resolve s_take_safe s_uint_safe s_nul_safe : prog.
#[export] Hint Resolve sound_ret sound_fail sound_record sound_tick sound_read sound_simple sound_input
  sound_set_attributes lsound_ret lsound_fail malformed_fuel limited_fuel unsupported_fuel bounds_fuel : prog.

(** Walk a parser program; goals about the data, and calls without a rule in the
    [prog] database, are left. *)
Ltac sound_step :=
  lazymatch goal with
  | |- sound _ _ _ _ _ (bind (tick _ _) _) => apply sound_tick_bind; intros ?
  | |- sound _ _ _ _ _ (bind (read _ _ _ _ _) _) => apply sound_read_bind; intros ? ?
  | |- sound _ _ _ _ _ (bind (lift (bounds _ _ _ _)) _) => apply sound_bounds_bind; intros ? ?
  | |- sound _ _ _ _ _ (bind (lift _) _) => apply sound_lift_bind; [|intros ? ?]
  | |- sound _ _ _ _ _ (bind get _) => apply sound_get_bind; intros ?
  | |- sound _ _ _ _ _ (bind (ensure _ _) _) => apply sound_bind; [by apply sound_ensure|intros ?]
  | |- sound _ _ _ _ _ (bind (of_option _ _) _) => apply sound_of_option_bind; [done|intros ? ?]
  | |- sound _ _ _ _ _ (bind (packet _ _ _ _ _ _) _) => apply sound_packet_bind; [| |intros ? ? ?]
  | |- sound _ _ _ _ _ (bind _ _) => apply sound_bind; [|intros ?]
  | |- sound _ _ _ _ _ (if ?b then _ else _) => first [apply sound_if; intros ?|destruct b eqn:?]
  | |- sound _ _ _ _ _ (match ?x with _ => _ end) => destruct x eqn:?
  | |- sound _ _ _ _ _ (lift (bounds _ _ _ _)) => apply sound_lift, bounds_fuel
  | |- sound _ _ _ _ _ _ => solve [eauto with prog]
  | |- lsound _ _ _ _ _ _ (bind (on_parser (tick _ _)) _) => apply lsound_tick_bind; [exact _|intros ?]
  | |- lsound _ _ _ _ _ _ (bind (on_parser (read _ _ _ _ _)) _) => apply lsound_read_bind; [exact _|intros ? ?]
  | |- lsound _ _ _ _ _ _ (bind (on_parser (packet _ _ _ _ _ _)) _) =>
      apply lsound_packet_bind; [exact _| | |intros ? ? ?]
  | |- lsound _ _ _ _ _ _ (bind (lift (bounds _ _ _ _)) _) => apply lsound_bounds_bind; intros ? ?
  | |- lsound _ _ _ _ _ _ (bind (lift _) _) => apply lsound_lift_bind; [|intros ? ?]
  | |- lsound _ _ _ _ _ _ (bind _ _) => apply lsound_bind; [|intros ?]
  | |- lsound _ _ _ _ _ _ (if ?b then _ else _) => first [apply lsound_if; intros ?|destruct b eqn:?]
  | |- lsound _ _ _ _ _ _ (match ?x with _ => _ end) => destruct x eqn:?
  | |- lsound _ _ _ _ _ _ (on_parser _) => apply lsound_on_parser; [exact _|intros ? ?]
  | |- lsound _ _ _ _ _ _ _ => solve [eauto with prog]
  end.
Ltac sound := repeat sound_step.

(** The bytes just read are byte values. *)
Ltac read_values Hsrc :=
  match goal with H : 0 <= ?k -> source_bytes _ _ _ ?k ?b |- _ =>
    let Hk := fresh in assert (0 <= k) as Hk by lia;
    pose proof (source_byte_values _ _ _ _ _ Hsrc Hk H); clear Hk
  end.
