(* ===== verification/XmpJpeg.v ===== *)
(** XMP in JPEG streams: src/src/xmp_packets.rs, lines 870-1085.

    The marker walk with its entropy-coded scans, the APP1 segments, and the
    reassembly of extended XMP from fragments that may come in any order.  The
    map of fragment groups is a local of the walk, still inspected when the walk
    failed. *)
From stdpp Require Import base tactics option list numbers gmap strings fin_maps.
From Stdlib Require Import ZArith Lia.
From S2P Require Import Prelude XmpBase.

Open Scope Z_scope.
Local Open Scope prog_scope.

(** @source src/src/xmp_packets.rs:870-870 JPEG_MAIN *)
Definition JPEG_MAIN : bytes := lit "http://ns.adobe.com/xap/1.0/" ++ [0].
(** @source src/src/xmp_packets.rs:871-871 JPEG_EXT *)
Definition JPEG_EXT : bytes := lit "http://ns.adobe.com/xmp/extension/" ++ [0].

(** @source src/src/xmp_packets.rs:872-877 Extended *)
Record Extended : Type := mkExtended { x_index : Z; x_total : Z; x_start : Z; x_bytes : bytes }.

(** [BTreeMap<String, Vec<Extended>>], ascending by key. *)
Definition Groups : Type := list (bytes * list Extended).

Fixpoint bytes_compare (a b : bytes) : comparison :=
  match a, b with
  | [], [] => Eq
  | [], _ :: _ => Lt
  | _ :: _, [] => Gt
  | x :: a', y :: b' => match x ?= y with Eq => bytes_compare a' b' | c => c end
  end.

(** [groups.entry(k).or_default().push(f)]. *)
Fixpoint push_fragment (k : bytes) (f : Extended) (g : Groups) : Groups :=
  match g with
  | [] => [(k, [f])]
  | (k', fs) :: g' =>
      match bytes_compare k k' with
      | Lt => (k, [f]) :: g
      | Eq => (k', fs ++ [f]) :: g'
      | Gt => (k', fs) :: push_fragment k f g'
      end
  end.

(** [sort_by_key(|f| f.start)], stable. *)
Fixpoint insert_by_start (f : Extended) (l : list Extended) : list Extended :=
  match l with
  | [] => [f]
  | g :: l' => if x_start f <=? x_start g then f :: l else g :: insert_by_start f l'
  end.
Definition sort_by_start (l : list Extended) : list Extended := fold_right insert_by_start [] l.

Section Jpeg.
Context `{Codecs} (src : bytes) (length : Z) (limits : Limits).

(** ** Entropy-coded scans *)

(** One block from position [pos]; [ff] is the position of a pending FF.
    [inl]: the marker that ends the scan. *)
(** @source src/src/xmp_packets.rs:893-904 Parser::entropy_end *)
Fixpoint scan_block (pos : Z) (ff : option Z) (b : bytes) : Z + option Z :=
  match b with
  | [] => inr ff
  | byte :: b' =>
      match ff with
      | Some marker =>
          if (byte =? 0) || (byte =? 1) || ((208 <=? byte) && (byte <=? 215)) then scan_block (pos + 1) None b'
          else if byte =? 255 then scan_block (pos + 1) ff b'
          else inl marker
      | None => if byte =? 255 then scan_block (pos + 1) (Some pos) b' else scan_block (pos + 1) None b'
      end
  end.

(** @source src/src/xmp_packets.rs:881-908 Parser::entropy_end *)
Fixpoint entropy_scan (fuel : nat) (ff : option Z) (o e : Z) : PM Z :=
  match fuel with
  | O => fail OutOfFuel
  | S fuel' =>
      if o <? e then
        let n := Z.min (e - o) 65536 in
        let* b := read_at src o n "JPEG scan read failed" in
        match scan_block o ff b with
        | inl marker => ret marker
        | inr ff' => entropy_scan fuel' ff' (o + n) e
        end
      else fail (malformed o "JPEG scan has no terminating marker")
  end.
Definition entropy_end (o e : Z) : PM Z := entropy_scan (S (Z.to_nat (e - o))) None o e.

(** ** The marker walk *)

(** Fill bytes up to the marker code; the offset after it. *)
(** @source src/src/xmp_packets.rs:923-930 Parser::jpeg *)
Fixpoint marker_loop (fuel : nat) (o e : Z) : PM (Z * Z) :=
  match fuel with
  | O => fail OutOfFuel
  | S fuel' =>
      let* _ := lift (bounds length o 1 e) in
      let* b := read src length limits o 1 in
      let value := byte_at b 0 in
      if negb (value =? 255) then ret (value, o + 1) else marker_loop fuel' (o + 1) e
  end.

(** The end of the segment, or the retention of a truncated XMP segment. *)
(** @source src/src/xmp_packets.rs:946-976 Parser::jpeg *)
Definition segment_end (base marker o n e : Z) : PM Z :=
  let payload := o + 2 in
  match bounds length o n e with
  | Ok next => ret next
  | Err error =>
      (if (marker =? 225) && (payload <=? e) then
         let* b := read src length limits payload (e - payload) in
         let container := if starts_with b JPEG_MAIN then Some JpegMain
                          else if starts_with b JPEG_EXT then Some JpegExtended else None in
         match container with
         | Some c =>
             let* _ := packet limits c b [mkRange payload (e - payload)]
                         ("jpeg:" +:+ dec base +:+ ":truncated:" +:+ dec payload)%string
                         (attrs [("declared_length", dec (n - 2)); ("incomplete", "true")])%string in
             ret tt
         | None => ret tt
         end
       else ret tt) ;;;
      fail error
  end.

(** An APP1 segment: a main packet, or a fragment added to its group. *)
(** @source src/src/xmp_packets.rs:977-1033 Parser::jpeg *)
Definition app1 (base payload n : Z) : LM Groups unit :=
  let* b := on_parser (read src length limits payload (n - 2)) in
  if starts_with b JPEG_MAIN then
    let group := ("jpeg:" +:+ dec base +:+ ":main:" +:+ dec payload)%string in
    let xml := slice b (len JPEG_MAIN) (len b) in
    let* i := on_parser (packet limits JpegMain b [mkRange payload (n - 2)] group ∅) in
    on_parser (input limits xml [i] CarrierHeaderRemoved group)
  else if starts_with b JPEG_EXT then
    let header := len JPEG_EXT in
    let group := if header + 32 <=? len b then utf8_lossy (slice b header 32) else lit "invalid-guid" in
    let* i := on_parser (packet limits JpegExtended b [mkRange payload (n - 2)]
                ("jpeg:" +:+ dec base +:+ ":extended:" +:+ text group)%string ∅) in
    if (len b <? header + 40) || negb (forallb is_ascii_hexdigit group) then
      on_parser (record (malformed payload "invalid extended JPEG GUID/header"))
    else
      let total := be32 (slice b (header + 32) 4) in
      let start := be32 (slice b (header + 36) 4) in
      on_parser (set_attributes i
        (attrs [("guid", text group); ("full_length", dec total); ("fragment_offset", dec start)]))%string ;;;
      on_local (modify (push_fragment (map ascii_upper group)
                  (mkExtended i total start (slice b (header + 40) (len b)))))
  else ret tt.

(** @source src/src/xmp_packets.rs:915-1041 Parser::jpeg *)
Fixpoint jpeg_walk (fuel : nat) (base o e : Z) : LM Groups unit :=
  match fuel with
  | O => fail OutOfFuel
  | S fuel' =>
      if o <? e then
        on_parser (tick limits o) ;;;
        let* b := on_parser (read src length limits o 1) in
        if negb (bytes_eqb b [255]) then fail (malformed o "invalid JPEG marker boundary") else
        let* ' (marker, o1) := on_parser (marker_loop (S (Z.to_nat (e - o))) (o + 1) e) in
        if marker =? 217 then ret tt
        else if (marker =? 1) || ((208 <=? marker) && (marker <=? 215)) then jpeg_walk fuel' base o1 e
        else if (marker =? 0) || (marker =? 216) then fail (malformed o "invalid JPEG marker")
        else
          let* _ := lift (bounds length o1 2 e) in
          let* field := on_parser (read src length limits o1 2) in
          let n := be16 field in
          if n <? 2 then fail (malformed o1 "invalid JPEG segment length") else
          let* next := on_parser (segment_end base marker o1 n e) in
          (if marker =? 225 then app1 base (o1 + 2) n else ret tt) ;;;
          let* o2 := (if (marker =? 218) || (marker =? 220) then on_parser (entropy_end next e) else ret next) in
          jpeg_walk fuel' base o2 e
      else fail (malformed o "JPEG missing EOI")
  end.

(** ** Reassembly of extended XMP *)

(** Non-empty fragments of one declared length that continue each other from
    [pos] to exactly that length. *)
(** @source src/src/xmp_packets.rs:1043-1051 Parser::jpeg *)
Fixpoint contiguous (total pos : Z) (fs : list Extended) : bool :=
  match fs with
  | [] => pos =? total
  | f :: fs' =>
      negb (bytes_eqb (x_bytes f) []) && (x_total f =? total) && (x_start f =? pos)
      && (pos + len (x_bytes f) <=? total) && contiguous total (pos + len (x_bytes f)) fs'
  end.

(** No group is empty: [push_fragment] creates it with its first fragment. *)
(** @source src/src/xmp_packets.rs:1042-1082 Parser::jpeg *)
Definition reassemble (base : Z) (guid : bytes) (fragments : list Extended) : PM unit :=
  let fs := sort_by_start fragments in
  let total := match fs with f :: _ => x_total f | [] => 0 end in
  if negb (contiguous total 0 fs) then
    record (malformed base ("extended JPEG " +:+ text guid +:+
                            ": gap, overlap, duplicate, or inconsistent length")%string)
  else if max_packet_bytes limits <? total then
    record (limited base "extended JPEG reconstruction limit exceeded")
  else
    let b := flat_map x_bytes fs in
    if negb (bytes_eqb (hex true (md5_compute b)) guid) then
      record (malformed base ("extended JPEG " +:+ text guid +:+ ": MD5 mismatch")%string)
    else
      input limits b (map x_index fs) JpegExtendedReassembled
        ("jpeg:" +:+ dec base +:+ ":extended:" +:+ text guid)%string.

Fixpoint reassemble_all (base : Z) (groups : Groups) : PM unit :=
  match groups with
  | [] => ret tt
  | (guid, fs) :: rest => reassemble base guid fs ;;; reassemble_all base rest
  end.

(** Valid groups are reassembled even when a later segment is broken. *)
(** @source src/src/xmp_packets.rs:909-1085 Parser::jpeg *)
Definition jpeg (base e : Z) : PM unit :=
  let* soi := read src length limits base 2 in
  if negb (bytes_eqb soi [255; 216]) then fail (malformed base "invalid JPEG SOI") else
  let* ' (groups, result) := run_local [] (jpeg_walk (S (Z.to_nat (max_entries limits))) base (base + 2) e) in
  reassemble_all base groups ;;;
  lift result.

(** ** Soundness *)

Definition indices_below (n : Z) (g : Groups) : Prop :=
  Forall (fun x => Forall (fun f => 0 <= x_index f < n) x.2) g.
#[local] Instance indices_growing : Growing indices_below.
Proof.
  intros a b g Hab Hg. eapply Forall_impl; [exact Hg|]. intros x Hx.
  eapply Forall_impl; [exact Hx|]. intros f Hf. simpl in *. lia.
Qed.

Lemma push_fragment_below n k f g :
  0 <= x_index f < n -> indices_below n g -> indices_below n (push_fragment k f g).
Proof.
  intros Hf Hg. induction Hg as [|[k' fs] g Hfs Hg IH]; simpl.
  - repeat constructor; lia.
  - destruct (bytes_compare k k'); constructor; simpl in *; try done.
    + apply Forall_app. split; [done|]. by apply Forall_singleton.
    + by apply Forall_singleton.
    + by constructor.
Qed.

Lemma sound_read_at n e o k what : sound src length limits n e (read_at src o k what).
Proof. unfold read_at. apply sound_if; intros _; [apply sound_ret|by apply sound_fail]. Qed.
#[local] Hint Resolve sound_read_at : prog.

(** A scan ends at a marker not before its beginning. *)
Lemma scan_block_pos pos ff b m lo :
  scan_block pos ff b = inl m -> lo <= pos -> (forall f, ff = Some f -> lo <= f) -> lo <= m.
Proof.
  revert pos ff. induction b as [|x b IH]; simpl; intros pos ff Hs Hpos Hff; [done|].
  destruct ff as [f|].
  - destruct (_ || _); [eapply IH; [exact Hs|lia|done]|].
    destruct (x =? 255); [eapply IH; [exact Hs|lia|done]|]. injection Hs as <-. by apply Hff.
  - destruct (x =? 255); (eapply IH; [exact Hs|lia|]); [|done]. intros f [= <-]. done.
Qed.

Lemma sound_entropy_scan n e fuel ff o e' :
  (Z.to_nat (e' - o) < fuel)%nat -> sound src length limits n e (entropy_scan fuel ff o e').
Proof.
  revert ff o. induction fuel as [|fuel IH]; intros ff o Hf; [lia|]. cbn [entropy_scan].
  apply sound_if; intros Ho; [|by apply sound_fail]. apply Z.ltb_lt in Ho.
  apply sound_bind; [apply sound_read_at|]. intros b. destruct (scan_block o ff b); [apply sound_ret|].
  apply IH. lia.
Qed.
Lemma sound_entropy_end n e o e' : sound src length limits n e (entropy_end o e').
Proof. apply sound_entropy_scan. lia. Qed.

Lemma sound_marker_loop n e fuel o e' :
  (Z.to_nat (e' - o) < fuel)%nat -> sound src length limits n e (marker_loop fuel o e').
Proof.
  revert o. induction fuel as [|fuel IH]; intros o Hf; [lia|]. cbn [marker_loop]. sound.
  apply IH. lia.
Qed.

Lemma sound_segment_end n e base marker o k e' :
  sound src length limits n e (segment_end base marker o k e').
Proof.
  unfold segment_end. pose proof (bounds_fuel length o k e') as Hb.
  destruct (bounds length o k e') as [v|er]; [apply sound_ret|].
  apply sound_bind; [|intros _; apply sound_fail; congruence].
  apply sound_if; intros Hc; [|apply sound_ret]. apply andb_true_iff in Hc as [_ Hle].
  apply sound_read_bind. intros b Hs. specialize (Hs ltac:(lia)). apply source_range in Hs as [H1 H2].
  destruct (if starts_with b JPEG_MAIN then _ else _); sound; done.
Qed.

Lemma lsound_app1 n e base payload k :
  2 <= k -> lsound src length limits indices_below n e (app1 base payload k).
Proof.
  intros Hk. unfold app1. sound_step. specialize (H0 ltac:(lia)). apply source_range in H0 as [H1 H2].
  sound_step; [|sound_step].
  - sound; try done. apply sound_input, Forall_singleton. lia.
  - sound; try done.
    apply lsound_on_local. intros c Hc g Hg. apply push_fragment_below; [simpl; lia|done].
  - sound.
Qed.

Lemma lsound_jpeg_walk n e fuel base o e' :
  (1 <= fuel)%nat -> max_entries limits + 1 <= e + Z.of_nat fuel ->
  lsound src length limits indices_below n e (jpeg_walk fuel base o e').
Proof.
  revert n e o. induction fuel as [|fuel IH]; intros n e o H1 Hf; [lia|]. cbn [jpeg_walk].
  sound_step; [|sound]. sound_step.
  assert (forall n' o', lsound src length limits indices_below n' (e + 1) (jpeg_walk fuel base o' e')) as Hrec
    by (intros; apply IH; lia).
  sound_step. sound_step; [sound|].
  apply (lsound_on_parser_bind _ _ _ _ _ _ _ (fun _ => True)).
  { intros n' _. eapply triple_conseq; [apply (sound_marker_loop n' (e + 1)); lia|done|done|done]. }
  intros [marker o1] _. sound; try apply Hrec; try apply lsound_app1; try apply sound_segment_end;
    try apply sound_entropy_end.
  lia.
Qed.

Lemma insert_by_start_perm f l : insert_by_start f l ≡ₚ f :: l.
Proof.
  induction l as [|g l IH]; simpl; [done|]. destruct (_ <=? _); [done|]. rewrite IH. apply perm_swap.
Qed.
Lemma sort_by_start_perm l : sort_by_start l ≡ₚ l.
Proof. induction l as [|f l IH]; simpl; [done|]. by rewrite insert_by_start_perm, IH. Qed.

Lemma sound_reassemble n e base guid fs :
  Forall (fun f => 0 <= x_index f < n) fs -> sound src length limits n e (reassemble base guid fs).
Proof.
  intros Hfs. unfold reassemble. sound. apply sound_input.
  apply Forall_map. rewrite sort_by_start_perm. exact Hfs.
Qed.

Lemma sound_reassemble_all n e base groups :
  indices_below n groups -> sound src length limits n e (reassemble_all base groups).
Proof.
  intros Hg. induction Hg as [|[guid fs] groups Hfs Hg IH]; [apply sound_ret|]. cbn [reassemble_all].
  apply sound_bind; [by apply sound_reassemble|]. by intros _.
Qed.

Lemma sound_jpeg n e base e' : 0 <= e -> 0 <= max_entries limits -> sound src length limits n e (jpeg base e').
Proof.
  intros He Hm. unfold jpeg. sound_step. sound_step; [sound|].
  eapply (sound_run_local _ _ _ indices_below); [by constructor|apply lsound_jpeg_walk; lia|].
  intros groups r c Hc Hg Hr. apply sound_bind; [by apply sound_reassemble_all|]. intros _. by apply sound_lift.
Qed.
End Jpeg.
