(* ===== verification/XmpChunks.v ===== *)
(** XMP in chunked containers, PNG, WebP and PSD: src/src/xmp_packets.rs, lines
    1086-1265.  Arithmetic on [u32] is written with its wrap-around; offsets are
    bounded by the source length, which is far below [u64]. *)
From stdpp Require Import base tactics option list numbers gmap strings fin_maps.
From Stdlib Require Import ZArith Lia.
From S2P Require Import Prelude XmpBase.

Open Scope Z_scope.
Local Open Scope prog_scope.

(** ** CRC-32 *)

(** One bit: [(crc >> 1) ^ (0xedb88320 & 0u32.wrapping_sub(crc & 1))]. *)
Definition crc_bit (crc : Z) : Z :=
  Z.lxor (Z.shiftr crc 1) (Z.land 3988292384 ((0 - Z.land crc 1) mod 2 ^ 32)).
Definition crc_byte (crc b : Z) : Z := Nat.iter 8 crc_bit (Z.lxor crc b).
(** @source src/src/xmp_packets.rs:1256-1265 crc32 *)
Definition crc32 (l : bytes) : Z := Z.lxor (fold_left crc_byte l u32_max) u32_max.

Section Chunks.
Context `{Codecs} (src : bytes) (length : Z) (limits : Limits).

(** ** PNG *)

(** The fields before the text, and the text. *)
Definition itxt_fields (o : Z) : SliceM (Z * bytes) :=
  let* flag := s_uint 1 in
  let* method := s_uint 1 in
  if (1 <? flag) || negb (method =? 0) then
    fail (malformed o "invalid XMP iTXt compression fields")
  else
    let* _ := s_nul in
    let* _ := s_nul in
    let* s := get in
    ret (flag, remaining s).

(** @source src/src/xmp_packets.rs:1152-1184 Parser::png_text *)
Definition png_text (b : bytes) (start o : Z) : result PError (bytes * Transformation) :=
  match itxt_fields o (slice_new (drop (Z.to_nat start) b) o) with
  | (_, Err e) => Err e
  | (_, Ok (flag, text)) =>
      if flag =? 0 then Ok (text, CarrierHeaderRemoved)
      else match zlib_read text (max_packet_bytes limits + 1) with
           | None => Err (malformed o "invalid compressed XMP iTXt")
           | Some (xml, total_in) =>
               if max_packet_bytes limits <? len xml then Err (limited o "decompressed XMP limit exceeded")
               else if negb (total_in =? len text) then Err (malformed o "trailing compressed XMP bytes")
               else Ok (xml, ZlibDecompressed)
           end
  end.

(** The iTXt chunk at [o]; [true] when the rest of the iteration is skipped. *)
(** @source src/src/xmp_packets.rs:1094-1138 Parser::png *)
Definition png_itxt (o n : Z) (complete : result PError Z) : PM bool :=
  let available := Z.min n (saturating_sub length (o + 8)) in
  let* b := read src length limits (o + 8) available in
  let keyword_end := find_nul b in
  if match keyword_end with
     | Some i => bytes_eqb (take (Z.to_nat i) b) (lit "XML:com.adobe.xmp")
     | None => false
     end || bytes_eqb b (lit "XML:com.adobe.xmp")
  then
    let group := ("png:itxt:" +:+ dec o)%string in
    let* i := packet limits PngItxt b [mkRange (o + 8) available] group ∅ in
    match complete, keyword_end with
    | Ok _, Some k =>
        let* crc := read src length limits (o + 8 + n) 4 in
        if negb (crc32 (lit "iTXt" ++ b) =? be32 crc) then
          record (malformed o "XMP iTXt CRC mismatch") ;;; ret true
        else
          (match png_text b (k + 1) o with
           | Ok (xml, transform) => input limits xml [i] transform group
           | Err e => record e
           end) ;;;
          ret false
    | _, _ =>
        set_attributes i (attrs [("declared_length", dec n); ("incomplete", "true")])%string ;;;
        fail (malformed o "truncated XMP iTXt carrier or missing keyword terminator")
    end
  else ret false.

(** The final offset and whether IEND was met. *)
(** @source src/src/xmp_packets.rs:1089-1147 Parser::png *)
Fixpoint png_chunks (fuel : nat) (o : Z) : PM (Z * bool) :=
  match fuel with
  | O => fail OutOfFuel
  | S fuel' =>
      if o <? length then
        tick limits o ;;;
        let* header := read src length limits o 8 in
        let n := be32 (take 4 header) in
        let complete := bounds length o (n + 12) length in
        let* skip := (if bytes_eqb (slice header 4 4) (lit "iTXt") then png_itxt o n complete else ret false) in
        let* next := lift complete in
        if skip then png_chunks fuel' next
        else if bytes_eqb (slice header 4 4) (lit "IEND") then
          if negb (n =? 0) then fail (malformed next "PNG IEND has payload") else ret (next, true)
        else png_chunks fuel' next
      else ret (o, false)
  end.

(** @source src/src/xmp_packets.rs:1086-1151 Parser::png *)
Definition png : PM unit :=
  let* ' (o, ended) := png_chunks (S (Z.to_nat (max_entries limits))) 8 in
  if negb ended || negb (o =? length) then fail (malformed o "PNG missing IEND or trailing bytes")
  else ret tt.

(** ** WebP *)

(** @source src/src/xmp_packets.rs:1193-1208 Parser::webp *)
Fixpoint webp_chunks (fuel : nat) (o e : Z) : PM unit :=
  match fuel with
  | O => fail OutOfFuel
  | S fuel' =>
      if o <? e then
        tick limits o ;;;
        let* _ := lift (bounds length o 8 e) in
        let* header := read src length limits o 8 in
        let n := le32 (slice header 4 4) in
        (if bytes_eqb (take 4 header) (lit "XMP ") then
           simple_within src length limits WebpXmp (o + 8) n ("webp:" +:+ dec o)%string e
         else ret tt) ;;;
        let* next := lift (bounds length (o + 8) (n + n mod 2) e) in
        webp_chunks fuel' next e
      else ret tt
  end.

(** @source src/src/xmp_packets.rs:1185-1210 Parser::webp *)
Definition webp : PM unit :=
  let* header := read src length limits 0 12 in
  let declared := le32 (slice header 4 4) + 8 in
  (if negb (declared =? length) then record (malformed 4 "RIFF declared size differs from source") else ret tt) ;;;
  webp_chunks (S (Z.to_nat (max_entries limits))) 12 (Z.min declared length).

(** ** PSD *)

(** @source src/src/xmp_packets.rs:1226-1252 Parser::psd *)
Fixpoint psd_resources (fuel : nat) (o e : Z) : PM unit :=
  match fuel with
  | O => fail OutOfFuel
  | S fuel' =>
      if o <? e then
        tick limits o ;;;
        let* _ := lift (bounds length o 7 e) in
        let* header := read src length limits o 7 in
        let standard := bytes_eqb (take 4 header) (lit "8BIM") in
        if negb standard && negb (bytes_eqb (take 4 header) (lit "AgHg")) then
          fail (malformed o "invalid PSD resource signature")
        else
          let name_length := byte_at header 6 + 1 in
          let* size_offset := lift (bounds length (o + 6) (name_length + name_length mod 2) e) in
          let* _ := lift (bounds length size_offset 4 e) in
          let* field := read src length limits size_offset 4 in
          let n := be32 field in
          let payload := size_offset + 4 in
          (if standard && (be16 (slice header 4 2) =? 1060) then
             simple_within src length limits PsdResource1060 payload n ("psd:" +:+ dec o)%string e
           else ret tt) ;;;
          let* next := lift (bounds length payload (n + n mod 2) e) in
          psd_resources fuel' next e
      else ret tt
  end.

(** @source src/src/xmp_packets.rs:1211-1254 Parser::psd *)
Definition psd : PM unit :=
  let* header := read src length limits 0 26 in
  if negb (be16 (slice header 4 2) =? 1) then fail (unsupported 4 "only PSD version 1 is supported") else
  let* color := read src length limits 26 4 in
  let* resource_start := lift (bounds length 30 (be32 color) length) in
  let* field := read src length limits resource_start 4 in
  let* e := (match bounds length (resource_start + 4) (be32 field) length with
             | Ok e => ret e
             | Err error => record error ;;; ret length
             end) in
  psd_resources (S (Z.to_nat (max_entries limits))) (resource_start + 4) e.

(** ** Soundness *)

Context (Hsrc : byte_values src).

Lemma itxt_fields_safe o : slice_safe (itxt_fields o).
Proof.
  unfold itxt_fields. apply s_bind_safe; [auto with prog|]. intros flag.
  apply s_bind_safe; [auto with prog|]. intros method.
  destruct (_ || _); [by intros s _|].
  apply s_bind_safe; [auto with prog|]. intros _. apply s_bind_safe; [auto with prog|]. intros _.
  apply s_bind_safe; [by intros s _|]. intros s. by intros x _.
Qed.

Lemma png_text_fuel b start o : png_text b start o <> Err OutOfFuel.
Proof.
  unfold png_text. pose proof (itxt_fields_safe o (slice_new (drop (Z.to_nat start) b) o) I) as Hs.
  destruct (itxt_fields o _) as [cur [[flag t]|er]]; [|destruct Hs; congruence].
  destruct (flag =? 0); [done|]. destruct (zlib_read _ _) as [[xml total]|]; [|done].
  destruct (_ <? _); [done|]. by destruct (negb _).
Qed.

Lemma sound_png_itxt n e o k complete : 0 <= k -> sound src length limits n e (png_itxt o k complete).
Proof.
  intros Hk. unfold png_itxt. set (available := Z.min k _).
  assert (0 <= available) as Ha by (unfold available, saturating_sub; lia).
  sound_step. specialize (H0 Ha). apply source_range in H0 as [H1 H2].
  sound; try done.
  - apply sound_input, Forall_singleton. lia.
  - apply sound_record. pose proof (png_text_fuel b (z + 1) o). congruence.
Qed.

Lemma sound_png_chunks n e fuel o :
  (1 <= fuel)%nat -> max_entries limits + 1 <= e + Z.of_nat fuel ->
  sound src length limits n e (png_chunks fuel o).
Proof.
  revert n e o. induction fuel as [|fuel IH]; intros n e o H1 Hf; [lia|]. cbn [png_chunks].
  sound_step; [|sound]. sound_step. sound_step.
  read_values Hsrc.
  sound_step; [|sound_step].
  - sound. apply sound_png_itxt. auto with prog.
  - sound; apply IH; lia.
Qed.

Lemma sound_png n e : 0 <= e -> 0 <= max_entries limits -> sound src length limits n e png.
Proof. intros He Hm. unfold png. sound_step; [apply sound_png_chunks; lia|]. sound. Qed.

Lemma sound_webp_chunks n e fuel o e' :
  (1 <= fuel)%nat -> max_entries limits + 1 <= e + Z.of_nat fuel ->
  sound src length limits n e (webp_chunks fuel o e').
Proof.
  revert n e o. induction fuel as [|fuel IH]; intros n e o H1 Hf; [lia|]. cbn [webp_chunks].
  sound_step; [|sound]. sound_step. sound_step. sound_step.
  read_values Hsrc.
  sound; try (apply IH; lia). apply sound_simple_within. auto with prog.
Qed.

Lemma sound_webp n e : 0 <= e -> 0 <= max_entries limits -> sound src length limits n e webp.
Proof. intros He Hm. unfold webp. sound. apply sound_webp_chunks; lia. Qed.

Lemma sound_psd_resources n e fuel o e' :
  (1 <= fuel)%nat -> max_entries limits + 1 <= e + Z.of_nat fuel ->
  sound src length limits n e (psd_resources fuel o e').
Proof.
  revert n e o. induction fuel as [|fuel IH]; intros n e o H1 Hf; [lia|]. cbn [psd_resources].
  sound_step; [|sound]. sound_step. sound_step. sound_step. sound_step; [sound|].
  sound_step. sound_step. sound_step.
  read_values Hsrc.
  sound; try (apply IH; lia). apply sound_simple_within. auto with prog.
Qed.

Lemma sound_psd n e : 0 <= e -> 0 <= max_entries limits -> sound src length limits n e psd.
Proof.
  intros He Hm. unfold psd. sound; [|apply sound_psd_resources; lia].
  apply sound_record. intros ->. by eapply bounds_fuel.
Qed.
End Chunks.
