(* ===== verification/XmpTiff.v ===== *)
(** XMP in TIFF-family files: src/src/xmp_packets.rs, lines 1313-1484.

    A depth-bounded walk of the directory graph.  [visited] is a local that grows
    over the whole walk; [active] holds the ancestors of a directory, so it is an
    argument (the code inserts and removes around the recursion). *)
From stdpp Require Import base tactics option list numbers gmap strings fin_maps.
From Stdlib Require Import ZArith Lia.
From S2P Require Import Prelude XmpBase.

Open Scope Z_scope.
Local Open Scope prog_scope.

(** @source src/src/xmp_packets.rs:1313-1319 Tiff *)
Record Tiff : Type := mkTiff { t_base : Z; t_end : Z; little : bool; big : bool }.

(** @source src/src/xmp_packets.rs:1321-1327 Tiff::uint *)
Definition tiff_uint (t : Tiff) (b : bytes) : Z := be_uint (if little t then rev b else b).

(** @source src/src/xmp_packets.rs:1328-1333 Tiff::absolute *)
Definition absolute (t : Tiff) (o : Z) : result PError Z :=
  match checked_add (t_base t) o with
  | Some v => if v <=? t_end t then Ok v else Err (malformed (t_base t) "TIFF relative offset overflow")
  | None => Err (malformed (t_base t) "TIFF relative offset overflow")
  end.

Definition one_of (v : Z) (l : list Z) : bool := existsb (Z.eqb v) l.

(** Bytes per value of a field type. *)
(** @source src/src/xmp_packets.rs:1417-1429 Parser::tiff_ifd *)
Definition type_size (kind : Z) : option Z :=
  if one_of kind [1; 2; 6; 7] then Some 1
  else if one_of kind [3; 8] then Some 2
  else if one_of kind [4; 9; 11; 13] then Some 4
  else if one_of kind [5; 10; 12; 16; 17; 18] then Some 8
  else None.

(** [chunks_exact(size)]. *)
Fixpoint chunks_exact (fuel : nat) (size : nat) (l : bytes) : list bytes :=
  match fuel with
  | O => []
  | S fuel' => if (size <=? length l)%nat then take size l :: chunks_exact fuel' size (drop size l) else []
  end.

Definition entry_size (t : Tiff) : Z := if big t then 20 else 12.
Definition slot_size (t : Tiff) : Z := if big t then 8 else 4.
Definition count_size (t : Tiff) : Z := if big t then 8 else 2.

Section Tiff.
Context `{Codecs} (src : bytes) (length : Z) (limits : Limits).

(** The directory entry [index]: an XMP packet, or pointers to children. *)
(** @source src/src/xmp_packets.rs:1407-1467 Parser::tiff_ifd *)
Definition tiff_entry (t : Tiff) (o start index : Z) : PM (list Z) :=
  let entry_offset := start + index * entry_size t in
  tick limits entry_offset ;;;
  let* entry := read src length limits entry_offset (entry_size t) in
  let tag := tiff_uint t (take 2 entry) in
  if negb (one_of tag [700; 330; 34665; 34853; 40965]) then ret [] else
  let kind := tiff_uint t (slice entry 2 2) in
  let n := tiff_uint t (slice entry 4 (entry_size t - slot_size t - 4)) in
  match type_size kind with
  | None => record (malformed entry_offset "unsupported XMP/pointer TIFF field type") ;;; ret []
  | Some size =>
      let* bytes := of_option (checked_mul n size) (malformed entry_offset "TIFF value size overflow") in
      let* value_offset :=
        (if bytes <=? slot_size t then ret (entry_offset + entry_size t - slot_size t)
         else lift (absolute t (tiff_uint t (slice entry (entry_size t - slot_size t) (slot_size t))))) in
      if tag =? 700 then
        simple src length limits TiffTag700 value_offset bytes
          ("tiff:" +:+ dec (t_base t) +:+ ":ifd:" +:+ dec o +:+ ":entry:" +:+ dec index)%string ;;;
        let* s := get in
        set_attributes (len (packets s) - 1)
          (attrs [("ifd_offset", dec o); ("type", dec kind); ("count", dec n)])%string ;;;
        (if negb (one_of kind [1; 2; 7]) then
           record (malformed entry_offset "XMP TIFF tag is not a byte/string type; raw bytes retained")
         else ret tt) ;;;
        ret []
      else
        let* _ := lift (bounds length value_offset bytes (t_end t)) in
        if negb (one_of kind [4; 13; 16; 18]) then
          record (malformed entry_offset "invalid TIFF directory pointer type") ;;; ret []
        else
          let* values := read src length limits value_offset bytes in
          ret (map (tiff_uint t) (chunks_exact (List.length values) (Z.to_nat size) values))
  end.

(** [for index in 0..count]. *)
Fixpoint tiff_entries (t : Tiff) (o start index : Z) (count : nat) : PM (list Z) :=
  match count with
  | O => ret []
  | S count' =>
      let* children := tiff_entry t o start index in
      let* rest := tiff_entries t o start (index + 1) count' in
      ret (children ++ rest)
  end.

(** The failure of a child is recorded; a resource limit stops the siblings. *)
(** @source src/src/xmp_packets.rs:1470-1478 Parser::tiff_ifd *)
Fixpoint visit_children (visit : Z -> LM (gset Z) unit) (children : list Z) : LM (gset Z) unit :=
  match children with
  | [] => ret tt
  | child :: rest =>
      let* r := try (visit child) in
      match r with
      | Ok _ => visit_children visit rest
      | Err (Fail f) =>
          on_parser (record (Fail f)) ;;;
          if bool_decide (f_status f = ResourceLimit) then ret tt else visit_children visit rest
      | Err OutOfFuel => fail OutOfFuel
      end
  end.

(** The entries of the directory at [o] and the pointer to the next one. *)
(** @source src/src/xmp_packets.rs:1387-1469 Parser::tiff_ifd *)
Definition tiff_directory (t : Tiff) (o : Z) : PM (list Z) :=
  tick limits o ;;;
  let* _ := lift (bounds length o (count_size t) (t_end t)) in
  let* field := read src length limits o (count_size t) in
  let count := tiff_uint t field in
  if max_entries limits <? count then fail (limited o "TIFF directory entry count exceeded") else
  let start := o + count_size t in
  let* table := of_option (checked_mul count (entry_size t)) (malformed o "TIFF directory size overflow") in
  let* next_offset := lift (bounds length start table (t_end t)) in
  let* _ := lift (bounds length next_offset (slot_size t) (t_end t)) in
  let* children := tiff_entries t o start 0 (Z.to_nat count) in
  let* next := read src length limits next_offset (slot_size t) in
  ret (children ++ [tiff_uint t next]).

(** @source src/src/xmp_packets.rs:1365-1484 Parser::tiff_ifd *)
Fixpoint tiff_ifd (fuel : nat) (t : Tiff) (relative depth : Z) (active : gset Z) : LM (gset Z) unit :=
  match fuel with
  | O => fail OutOfFuel
  | S fuel' =>
      if relative =? 0 then ret tt
      else if max_depth limits <? depth then fail (limited (t_base t) "TIFF directory depth exceeded")
      else
        let* o := lift (absolute t relative) in
        if bool_decide (o ∈ active) then fail (malformed o "TIFF directory cycle") else
        let* visited := on_local get in
        if bool_decide (o ∈ visited) then ret tt else
        on_local (put ({[o]} ∪ visited)) ;;;
        let* children := on_parser (tiff_directory t o) in
        visit_children (fun child => tiff_ifd fuel' t child (depth + 1) ({[o]} ∪ active)) children
  end.

(** @source src/src/xmp_packets.rs:1336-1364 Parser::tiff *)
Definition tiff (base e : Z) : PM unit :=
  let* header := read src length limits base 8 in
  let is_little := bytes_eqb (take 2 header) (lit "II") in
  if negb is_little && negb (bytes_eqb (take 2 header) (lit "MM")) then
    fail (malformed base "invalid TIFF byte order") else
  let magic := tiff_uint (mkTiff base e is_little false) (slice header 2 2) in
  let t := mkTiff base e is_little (magic =? 43) in
  if negb (one_of magic [42; 43; 85; 20306; 21330]) then
    fail (unsupported (base + 2) "unsupported TIFF-family magic") else
  let* first :=
    (if big t then
       if negb (tiff_uint t (slice header 4 2) =? 8) || negb (tiff_uint t (slice header 6 2) =? 0) then
         fail (malformed (base + 4) "invalid BigTIFF header")
       else let* field := read src length limits (base + 8) 8 in ret (tiff_uint t field)
     else ret (tiff_uint t (slice header 4 4))) in
  with_local ∅ (tiff_ifd (S (S (Z.to_nat (max_depth limits)))) t first 0 ∅).

(** ** Soundness *)

Context (Hsrc : byte_values src).

Lemma absolute_fuel t o : absolute t o <> Err OutOfFuel.
Proof. unfold absolute. destruct (checked_add _ _) as [v|]; [|done]. by destruct (v <=? t_end t). Qed.

Lemma tiff_uint_nonneg t b : byte_values b -> 0 <= tiff_uint t b.
Proof. intros Hb. unfold tiff_uint. apply be_uint_nonneg. destruct (little t); [by apply byte_values_rev|done]. Qed.

Lemma type_size_pos k s : type_size k = Some s -> 0 < s.
Proof. unfold type_size. repeat (destruct (one_of _ _); [intros [= <-]; lia|]). done. Qed.

Lemma sound_tiff_entry n e t o start index :
  sound src length limits n e (tiff_entry t o start index).
Proof.
  unfold tiff_entry. sound_step. assert (0 < entry_size t) by (unfold entry_size; destruct (big t); lia).
  sound_step. read_values Hsrc.
  match goal with |- context [checked_mul ?k _] => assert (0 <= k) as Hk end.
  { by apply tiff_uint_nonneg, byte_values_slice. }
  sound_step; [sound|]. sound_step; [|sound].
  pose proof (type_size_pos _ _ Heqo0) as Hz.
  sound_step. match goal with E : checked_mul _ _ = Some _ |- _ => apply checked_mul_Some in E as [-> _] end.
  sound; try (apply sound_lift, absolute_fuel). apply sound_simple. nia.
Qed.

Lemma sound_tiff_entries n e t o start index count :
  sound src length limits n e (tiff_entries t o start index count).
Proof.
  revert index. induction count as [|count IH]; intros index; cbn [tiff_entries]; [apply sound_ret|].
  apply sound_bind; [apply sound_tiff_entry|]. intros children.
  apply sound_bind; [apply IH|]. intros rest. apply sound_ret.
Qed.

Lemma sound_tiff_directory n e t o : sound src length limits n e (tiff_directory t o).
Proof. unfold tiff_directory. sound. apply sound_tiff_entries. Qed.

Definition any_local (_ : Z) (_ : gset Z) : Prop := True.
#[local] Instance any_growing : Growing any_local.
Proof. done. Qed.

Lemma lsound_visit_children n e visit children :
  (forall child, lsound src length limits any_local n e (visit child)) ->
  lsound src length limits any_local n e (visit_children visit children).
Proof.
  intros Hv. induction children as [|child rest IH]; cbn [visit_children]; [apply lsound_ret|].
  intros x Hx. specialize (Hv child x Hx). unfold bind, try.
  destruct (visit child x) as [x' [a|er]]; [by apply IH|]. destruct Hv as [Hx' Her].
  destruct er as [f|]; [|done]. revert x' Hx'.
  change (lsound src length limits any_local n e
    (bind (on_parser (record (Fail f))) (fun _ =>
       if bool_decide (f_status f = ResourceLimit) then ret tt else visit_children visit rest))).
  sound.
Qed.

Lemma lsound_tiff_ifd n e fuel t relative depth active :
  max_depth limits + 2 <= depth + Z.of_nat fuel -> (1 <= fuel)%nat ->
  lsound src length limits any_local n e (tiff_ifd fuel t relative depth active).
Proof.
  revert relative depth active. induction fuel as [|fuel IH]; intros relative depth active Hf H1; [lia|].
  cbn [tiff_ifd]. sound_step; [sound|]. sound_step; [sound|].
  apply lsound_lift_bind; [apply absolute_fuel|]. intros o _. sound_step; [sound|].
  apply lsound_bind; [by apply lsound_on_local|]. intros visited. sound_step; [sound|].
  apply lsound_bind; [by apply lsound_on_local|]. intros _.
  apply lsound_bind; [apply lsound_on_parser; [exact _|]; intros; apply sound_tiff_directory|].
  intros children. apply lsound_visit_children. intros child. apply IH; lia.
Qed.

Lemma sound_tiff n e base e' : 0 <= max_depth limits -> sound src length limits n e (tiff base e').
Proof.
  intros Hd. unfold tiff. sound.
  apply (sound_with_local _ _ _ any_local); [done|]. apply lsound_tiff_ifd; lia.
Qed.
End Tiff.
