(* ===== verification/XmpBmff.v ===== *)
(** XMP in ISO base media files (AVIF, CR3): src/src/xmp_packets.rs, lines
    1486-1889.

    Boxes, the item tables [iinf], [iloc] and [iref], and the reconstruction of
    MIME items from their extents.  [bmff] and [bmff_meta] call each other with a
    growing depth; [bmff_meta] takes the recursive call as an argument. *)
From stdpp Require Import base tactics option list numbers gmap strings fin_maps.
From Stdlib Require Import ZArith Lia.
From S2P Require Import Prelude XmpBase.

Open Scope Z_scope.
Local Open Scope prog_scope.

(** @source src/src/xmp_packets.rs:1486-1492 BmffBox *)
Record BmffBox : Type := mkBox { kind : bytes; b_start : Z; payload : Z; b_end : Z }.
(** @source src/src/xmp_packets.rs:1493-1499 Item *)
Record Item : Type := mkItem { content_type : bytes; encoding : bytes; protection : Z; name : bytes }.
(** @source src/src/xmp_packets.rs:1500-1505 Location *)
Record Location : Type := mkLocation { method : Z; reference : Z; l_base : Z; extents : list (Z * Z) }.

(** @source src/src/xmp_packets.rs:1506-1508 XMP_UUID *)
Definition XMP_UUID : bytes :=
  [190; 122; 207; 203; 151; 169; 66; 232; 156; 113; 153; 148; 145; 227; 175; 172].

(** [BTreeMap<u64, V>], ascending. *)
Fixpoint bt_insert {V} (k : Z) (v : V) (m : list (Z * V)) : list (Z * V) :=
  match m with
  | [] => [(k, v)]
  | (k', w) :: m' => if k <? k' then (k, v) :: m else if k =? k' then (k, v) :: m' else (k', w) :: bt_insert k v m'
  end.
Fixpoint bt_lookup {V} (k : Z) (m : list (Z * V)) : option V :=
  match m with
  | [] => None
  | (k', w) :: m' => if k =? k' then Some w else bt_lookup k m'
  end.

(** A cursor program over the bytes of a field. *)
Definition run_slice {A} (m : SliceM A) (b : bytes) (o : Z) : result PError A := (m (slice_new b o)).2.

Inductive infe : Type := Legacy | Entry (id : Z) (item : Item).

(** @source src/src/xmp_packets.rs:1755-1785 Parser::bmff_iinf *)
Definition infe_fields (start : Z) : SliceM infe :=
  let* version := s_uint 1 in
  let* _ := s_take 3 in
  if (version =? 0) || (version =? 1) then ret Legacy
  else if negb ((version =? 2) || (version =? 3)) then fail (unsupported start "unsupported infe version")
  else
    let* id := s_uint (if version =? 2 then 2 else 4) in
    let* protection := s_uint 2 in
    let* kind := s_take 4 in
    let* name := s_nul in
    if bytes_eqb kind (lit "mime") then
      let* content_type := s_nul in
      let* s := get in
      let* encoding := (if bytes_eqb (remaining s) [] then ret [] else s_nul) in
      ret (Entry id (mkItem content_type encoding protection name))
    else ret (Entry id (mkItem [] [] protection name)).

(** What [bmff_meta] collects from its boxes. *)
Record MetaTables : Type := mkTables {
  items : list (Z * Item);
  locations : list (Z * Location);
  associations : gmap Z (list Z);
  idat : option BmffBox;
}.

Section Bmff.
Context `{Codecs} (src : bytes) (length : Z) (limits : Limits).

(** ** Boxes *)

(** @source src/src/xmp_packets.rs:1510-1537 Parser::box_at *)
Definition box_at (o e : Z) : PM BmffBox :=
  tick limits o ;;;
  let* _ := lift (bounds length o 8 e) in
  let* header := read src length limits o 8 in
  let declared := be32 (take 4 header) in
  let* ' (size, header_length) :=
    (if declared =? 1 then
       let* _ := lift (bounds length o 16 e) in
       let* b := read src length limits (o + 8) 8 in
       ret (be_uint b, 16)
     else if declared =? 0 then ret (e - o, 8)
     else ret (declared, 8)) in
  if size <? header_length then fail (malformed o "BMFF box smaller than its header") else
  let* next := lift (bounds length o size e) in
  ret (mkBox (slice header 4 4) o (o + header_length) next).

(** The boxes up to the first damaged one, whose failure is recorded. *)
(** @source src/src/xmp_packets.rs:1538-1555 Parser::boxes *)
Fixpoint boxes_from (fuel : nat) (o e : Z) : PM (list BmffBox) :=
  match fuel with
  | O => fail OutOfFuel
  | S fuel' =>
      if o <? e then
        let* r := try (box_at o e) in
        match r with
        | Ok entry => let* rest := boxes_from fuel' (b_end entry) e in ret (entry :: rest)
        | Err er => record er ;;; ret []
        end
      else ret []
  end.
Definition boxes (o e : Z) : PM (list BmffBox) := boxes_from (S (Z.to_nat (max_entries limits))) o e.

(** ** The item tables *)

Definition iinf_child (child : BmffBox) (its : list (Z * Item)) : PM (list (Z * Item)) :=
  if negb (bytes_eqb (kind child) (lit "infe")) then fail (malformed (b_start child) "unexpected iinf child") else
  let* b := read src length limits (payload child) (b_end child - payload child) in
  let* f := lift (run_slice (infe_fields (b_start child)) b (payload child)) in
  match f with
  | Legacy =>
      record (unsupported (b_start child) "legacy infe version cannot establish MIME item coverage") ;;; ret its
  | Entry id item =>
      match bt_lookup id its with
      | Some _ => fail (malformed (b_start child) "duplicate BMFF item ID")
      | None => ret (bt_insert id item its)
      end
  end.

Fixpoint iinf_children (children : list BmffBox) (its : list (Z * Item)) : PM (list (Z * Item)) :=
  match children with
  | [] => ret its
  | child :: rest => let* its' := iinf_child child its in iinf_children rest its'
  end.

(** Field width by version. *)
Definition version_width (b : bytes) : option Z :=
  if byte_at b 0 =? 0 then Some 2 else if byte_at b 0 =? 1 then Some 4 else None.

(** @source src/src/xmp_packets.rs:1735-1791 Parser::bmff_iinf *)
Definition bmff_iinf (entry : BmffBox) (its : list (Z * Item)) : PM (list (Z * Item)) :=
  let* _ := lift (bounds length (payload entry) 4 (b_end entry)) in
  let* prefix := read src length limits (payload entry) 4 in
  let* width := of_option (version_width prefix) (unsupported (b_start entry) "unsupported iinf version") in
  let* _ := lift (bounds length (payload entry + 4) width (b_end entry)) in
  let* count_bytes := read src length limits (payload entry + 4) width in
  let* count := lift (run_slice (s_uint width) count_bytes (b_start entry)) in
  let* children := boxes (payload entry + 4 + width) (b_end entry) in
  if negb (len children =? count) then fail (malformed (b_start entry) "iinf entry count mismatch")
  else iinf_children children its.

(** The extents of one item. *)
(** @source src/src/xmp_packets.rs:1833-1838 Parser::bmff_iloc *)
Fixpoint iloc_extents (start index_size offset_size length_size : Z) (count : nat) : LM Slice (list (Z * Z)) :=
  match count with
  | O => ret []
  | S count' =>
      on_parser (tick limits start) ;;;
      let* _ := on_local (s_uint index_size) in
      let* o := on_local (s_uint offset_size) in
      let* n := on_local (s_uint length_size) in
      let* rest := iloc_extents start index_size offset_size length_size count' in
      ret ((o, n) :: rest)
  end.

(** @source src/src/xmp_packets.rs:1820-1850 Parser::bmff_iloc *)
Fixpoint iloc_items (start version base_size index_size offset_size length_size : Z) (count : nat)
    (locs : list (Z * Location)) : LM Slice (list (Z * Location)) :=
  match count with
  | O => ret locs
  | S count' =>
      on_parser (tick limits start) ;;;
      let* id := on_local (s_uint (if version <? 2 then 2 else 4)) in
      let* method := (if 0 <? version then let* m := on_local (s_uint 2) in ret (Z.land m 15) else ret 0) in
      let* reference := on_local (s_uint 2) in
      let* base := on_local (s_uint base_size) in
      let* extent_count := on_local (s_uint 2) in
      if max_entries limits <? extent_count then fail (limited start "iloc extent count limit exceeded") else
      let* exts := iloc_extents start index_size offset_size length_size (Z.to_nat extent_count) in
      match bt_lookup id locs with
      | Some _ => fail (malformed start "duplicate iloc item ID")
      | None =>
          iloc_items start version base_size index_size offset_size length_size count'
            (bt_insert id (mkLocation method reference base exts) locs)
      end
  end.

Definition iloc_fields (start : Z) (locs : list (Z * Location)) : LM Slice (list (Z * Location)) :=
  let* version := on_local (s_uint 1) in
  let* _ := on_local (s_take 3) in
  if 2 <? version then fail (unsupported start "unsupported iloc version") else
  let* a := on_local (s_uint 1) in
  let* b := on_local (s_uint 1) in
  let offset_size := Z.shiftr a 4 in
  let length_size := Z.land a 15 in
  let base_size := Z.shiftr b 4 in
  let index_size := if 0 <? version then Z.land b 15 else 0 in
  if existsb (fun s => negb ((s =? 0) || (s =? 4) || (s =? 8))) [offset_size; length_size; base_size; index_size]
  then fail (malformed start "invalid iloc integer width") else
  let* count := on_local (s_uint (if version <? 2 then 2 else 4)) in
  if max_entries limits <? count then fail (limited start "iloc item count limit exceeded") else
  let* locs' := iloc_items start version base_size index_size offset_size length_size (Z.to_nat count) locs in
  let* cursor := on_local get in
  if negb (bytes_eqb (remaining cursor) []) then fail (malformed start "trailing iloc fields") else ret locs'.

(** @source src/src/xmp_packets.rs:1792-1855 Parser::bmff_iloc *)
Definition bmff_iloc (entry : BmffBox) (locs : list (Z * Location)) : PM (list (Z * Location)) :=
  let* b := read src length limits (payload entry) (b_end entry - payload entry) in
  with_local (slice_new b (payload entry)) (iloc_fields (b_start entry) locs).

(** [entry(from).or_default().push(to)], [count] times. *)
Fixpoint iref_ids (start width from : Z) (count : nat) (assoc : gmap Z (list Z)) : LM Slice (gmap Z (list Z)) :=
  match count with
  | O => ret assoc
  | S count' =>
      on_parser (tick limits start) ;;;
      let* to := on_local (s_uint width) in
      iref_ids start width from count' (<[from := default [] (assoc !! from) ++ [to]]> assoc)
  end.

Definition cdsc_fields (start width : Z) (assoc : gmap Z (list Z)) : LM Slice (gmap Z (list Z)) :=
  let* from := on_local (s_uint width) in
  let* count := on_local (s_uint 2) in
  let* assoc' := iref_ids start width from (Z.to_nat count) assoc in
  let* cursor := on_local get in
  if negb (bytes_eqb (remaining cursor) []) then fail (malformed start "trailing cdsc fields") else ret assoc'.

Fixpoint iref_children (width : Z) (children : list BmffBox) (assoc : gmap Z (list Z)) : PM (gmap Z (list Z)) :=
  match children with
  | [] => ret assoc
  | child :: rest =>
      if negb (bytes_eqb (kind child) (lit "cdsc")) then iref_children width rest assoc else
      let* b := read src length limits (payload child) (b_end child - payload child) in
      let* assoc' := with_local (slice_new b (payload child)) (cdsc_fields (b_start child) width assoc) in
      iref_children width rest assoc'
  end.

(** @source src/src/xmp_packets.rs:1856-1889 Parser::bmff_iref *)
Definition bmff_iref (entry : BmffBox) (assoc : gmap Z (list Z)) : PM (gmap Z (list Z)) :=
  let* _ := lift (bounds length (payload entry) 4 (b_end entry)) in
  let* prefix := read src length limits (payload entry) 4 in
  let* width := of_option (version_width prefix) (unsupported (b_start entry) "unsupported iref version") in
  let* children := boxes (payload entry + 4) (b_end entry) in
  iref_children width children assoc.

(** ** XMP items *)

(** [ids.iter().map(u64::to_string).join(",")]. *)
Definition join_ids (ids : list Z) : string := String.concat "," (map dec ids).

Definition extent_attributes (id ordinal : Z) (location : Location) (item : Item)
    (assoc : gmap Z (list Z)) : gmap string string :=
  attrs [("item_id", dec id); ("extent", dec ordinal); ("construction_method", dec (method location));
         ("cdsc_to_item_ids", match assoc !! id with Some ids => join_ids ids | None => "" end);
         ("content_type", text (utf8_lossy (content_type item)));
         ("content_encoding", text (utf8_lossy (encoding item)));
         ("item_name_hex", text (hex false (name item)))]%string.

(** Every extent is retained as a packet; the indices and the concatenation. *)
(** @source src/src/xmp_packets.rs:1643-1703 Parser::bmff_meta *)
Fixpoint item_extents (meta_start id origin limit : Z) (group : string) (location : Location) (item : Item)
    (assoc : gmap Z (list Z)) (ordinal : Z) (exts : list (Z * Z)) (indices : list Z) (xml : bytes)
    : PM (list Z * bytes) :=
  match exts with
  | [] => ret (indices, xml)
  | (o, n) :: rest =>
      if n =? 0 then fail (unsupported meta_start "zero-length XMP item extent is not supported") else
      let* o' := of_option (match checked_add origin (l_base location) with
                            | Some v => checked_add v o
                            | None => None
                            end) (malformed meta_start "XMP item extent offset overflow") in
      let* _ := lift (bounds length o' n limit) in
      let* b := read src length limits o' n in
      if saturating_sub (max_packet_bytes limits) (len xml) <? len b then
        fail (limited o' "XMP item reconstruction limit exceeded") else
      let* i := packet limits BmffMime b [mkRange o' n] group
                  (extent_attributes id ordinal location item assoc) in
      item_extents meta_start id origin limit group location item assoc (ordinal + 1) rest
        (indices ++ [i]) (xml ++ b)
  end.

(** @source src/src/xmp_packets.rs:1640-1728 Parser::bmff_meta *)
Definition item_input (meta_start id origin limit : Z) (group : string) (location : Location) (item : Item)
    (assoc : gmap Z (list Z)) : PM unit :=
  let* ' (indices, xml) := item_extents meta_start id origin limit group location item assoc 0 (extents location) [] [] in
  if bool_decide (indices = []) then fail (malformed meta_start "XMP item has no extents")
  else if bytes_eqb (encoding item) [] then input limits xml indices ExtentsConcatenated group
  else if bytes_eqb (encoding item) (lit "gzip") then
    match gzip_read xml (max_packet_bytes limits + 1) with
    | None => fail (malformed meta_start "invalid gzip XMP item")
    | Some output =>
        if max_packet_bytes limits <? len output then fail (limited meta_start "decompressed XMP item limit exceeded")
        else input limits output indices GzipDecompressed group
    end
  else fail (unsupported meta_start "unsupported XMP item content encoding; source extents retained").

(** @source src/src/xmp_packets.rs:1618-1732 Parser::bmff_meta *)
Definition meta_item (meta : BmffBox) (tables : MetaTables) (id : Z) (item : Item) : PM unit :=
  if negb (bytes_eqb (content_type item) (lit "application/rdf+xml")) then ret tt else
  let group := ("bmff:meta:" +:+ dec (b_start meta) +:+ ":item:" +:+ dec id)%string in
  match bt_lookup id (locations tables) with
  | None => record (malformed (b_start meta) ("XMP item " +:+ dec id +:+ " has no iloc")%string)
  | Some location =>
      if negb (protection item =? 0) || negb (reference location =? 0) || (1 <? method location) then
        record (unsupported (b_start meta)
          ("XMP item " +:+ dec id +:+ " uses protection, external data reference, or unsupported construction method "
           +:+ dec (method location))%string)
      else if method location =? 1 then
        match idat tables with
        | None => record (malformed (b_start meta) "XMP item references missing idat")
        | Some d => recorded (item_input (b_start meta) id (payload d) (b_end d) group location item (associations tables))
        end
      else recorded (item_input (b_start meta) id 0 length group location item (associations tables))
  end.

Fixpoint meta_items (meta : BmffBox) (tables : MetaTables) (its : list (Z * Item)) : PM unit :=
  match its with
  | [] => ret tt
  | (id, item) :: rest => meta_item meta tables id item ;;; meta_items meta tables rest
  end.

(** One box inside [meta]. *)
(** @source src/src/xmp_packets.rs:1602-1615 Parser::bmff_meta *)
Definition meta_box (bmff_rec : Z -> Z -> Z -> PM unit) (depth : Z) (t : MetaTables) (entry : BmffBox) : PM MetaTables :=
  if bytes_eqb (kind entry) (lit "iinf") then
    let* its := bmff_iinf entry (items t) in ret (mkTables its (locations t) (associations t) (idat t))
  else if bytes_eqb (kind entry) (lit "iloc") then
    let* locs := bmff_iloc entry (locations t) in ret (mkTables (items t) locs (associations t) (idat t))
  else if bytes_eqb (kind entry) (lit "iref") then
    let* assoc := bmff_iref entry (associations t) in ret (mkTables (items t) (locations t) assoc (idat t))
  else if bytes_eqb (kind entry) (lit "idat") then
    match idat t with
    | Some _ => fail (malformed (b_start entry) "duplicate BMFF idat")
    | None => ret (mkTables (items t) (locations t) (associations t) (Some entry))
    end
  else if bytes_eqb (kind entry) (lit "uuid") then
    bmff_rec (b_start entry) (b_end entry) (depth + 1) ;;; ret t
  else ret t.

Fixpoint meta_boxes (bmff_rec : Z -> Z -> Z -> PM unit) (depth : Z) (entries : list BmffBox) (t : MetaTables) : PM MetaTables :=
  match entries with
  | [] => ret t
  | entry :: rest => let* t' := meta_box bmff_rec depth t entry in meta_boxes bmff_rec depth rest t'
  end.

(** @source src/src/xmp_packets.rs:1586-1734 Parser::bmff_meta *)
Definition bmff_meta (bmff_rec : Z -> Z -> Z -> PM unit) (meta : BmffBox) (depth : Z) : PM unit :=
  if max_depth limits <? depth then fail (limited (b_start meta) "BMFF nesting limit exceeded") else
  let* _ := lift (bounds length (payload meta) 4 (b_end meta)) in
  let* prefix := read src length limits (payload meta) 4 in
  if negb (bytes_eqb prefix [0; 0; 0; 0]) then fail (unsupported (payload meta) "unsupported BMFF meta version/flags") else
  let* entries := boxes (payload meta + 4) (b_end meta) in
  let* t := meta_boxes bmff_rec depth entries (mkTables [] [] ∅ None) in
  meta_items meta t (items t).

(** ** The box tree *)

Definition is_container (k : bytes) : bool :=
  existsb (fun s => bytes_eqb k (lit s)) ["moov"; "trak"; "mdia"; "minf"; "stbl"; "udta"]%string.

Definition bmff_box (bmff_rec : Z -> Z -> Z -> PM unit) (depth : Z) (entry : BmffBox) : PM unit :=
  if bytes_eqb (kind entry) (lit "uuid") then
    let* _ := lift (bounds length (payload entry) 16 (b_end entry)) in
    let* uuid := read src length limits (payload entry) 16 in
    if bytes_eqb uuid XMP_UUID then
      simple src length limits BmffUuid (payload entry + 16) (b_end entry - payload entry - 16)
        ("bmff:uuid:" +:+ dec (b_start entry))%string
    else ret tt
  else if bytes_eqb (kind entry) (lit "meta") then
    recorded (bmff_meta bmff_rec entry (depth + 1))
  else if is_container (kind entry) then bmff_rec (payload entry) (b_end entry) (depth + 1)
  else ret tt.

Fixpoint bmff_boxes (bmff_rec : Z -> Z -> Z -> PM unit) (depth : Z) (entries : list BmffBox) : PM unit :=
  match entries with
  | [] => ret tt
  | entry :: rest => bmff_box bmff_rec depth entry ;;; bmff_boxes bmff_rec depth rest
  end.

(** @source src/src/xmp_packets.rs:1556-1585 Parser::bmff *)
Fixpoint bmff_at (fuel : nat) (start e depth : Z) : PM unit :=
  match fuel with
  | O => fail OutOfFuel
  | S fuel' =>
      if max_depth limits <? depth then fail (limited start "BMFF nesting limit exceeded") else
      let* entries := boxes start e in
      bmff_boxes (bmff_at fuel') depth entries
  end.
Definition bmff (start e depth : Z) : PM unit := bmff_at (S (S (Z.to_nat (max_depth limits)))) start e depth.

(** ** Soundness *)

Context (Hsrc : byte_values src).
Local Abbreviation sound := (sound src length limits).
Local Abbreviation returns := (returns src length limits).
Local Abbreviation lreturns := (lreturns src length limits cursor_values).

(** A box has its payload before its end. *)
Definition box_ok (b : BmffBox) : Prop := payload b <= b_end b.

Lemma box_body_ok n e o e' :
  returns n e (let* _ := lift (bounds length o 8 e') in
  let* header := read src length limits o 8 in
  let declared := be32 (take 4 header) in
  let* ' (size, header_length) :=
    (if declared =? 1 then
       let* _ := lift (bounds length o 16 e') in
       let* b := read src length limits (o + 8) 8 in
       ret (be_uint b, 16)
     else if declared =? 0 then ret (e' - o, 8)
     else ret (declared, 8)) in
  if size <? header_length then fail (malformed o "BMFF box smaller than its header") else
  let* next := lift (bounds length o size e') in
  ret (mkBox (slice header 4 4) o (o + header_length) next))%prog box_ok.
Proof.
  eapply returns_bind_returns; [apply returns_sound, sound_lift, bounds_fuel|]. intros _ _.
  eapply returns_bind_returns; [apply returns_sound, sound_read|]. intros header _.
  eapply returns_bind_returns; [apply returns_sound; sound|]. intros [size hl] _.
  destruct (Z.ltb_spec size hl); [by apply returns_fail|].
  intros s Hs. run. pose proof (bounds_spec length o size e') as Hb.
  destruct (bounds length o size e') as [v|er]; [|done]. destruct Hb as (-> & _). split; [done|].
  unfold box_ok. simpl. lia.
Qed.

Lemma sound_box_at n e o e' : sound n e (box_at o e').
Proof.
  unfold box_at. apply sound_tick_bind. intros _. eapply sound_returns, box_body_ok.
Qed.

Lemma boxes_from_ok n e fuel o e' :
  (1 <= fuel)%nat -> max_entries limits + 1 <= e + Z.of_nat fuel ->
  returns n e (boxes_from fuel o e') (Forall box_ok).
Proof.
  revert n e o. induction fuel as [|fuel IH]; intros n e o H1 Hf; [lia|]. cbn [boxes_from].
  destruct (o <? e'); [|by apply returns_ret].
  (* the tick of [box_at] pays for the recursive call *)
  unfold box_at at 1. eapply returns_try_tick_bind; [apply box_body_ok| |].
  - intros entry Hentry Hle. eapply returns_bind_returns; [apply IH; lia|].
    intros rest Hrest. apply returns_ret. by constructor.
  - intros er Her. eapply returns_bind_returns; [by apply returns_sound, sound_record|].
    intros _ _. by apply returns_ret.
Qed.
Lemma boxes_ok n e o e' : 0 <= e -> 0 <= max_entries limits -> returns n e (boxes o e') (Forall box_ok).
Proof. intros He Hm. apply boxes_from_ok; lia. Qed.

Lemma run_slice_fuel {A} (m : SliceM A) b o : slice_safe m -> run_slice m b o <> Err OutOfFuel.
Proof.
  intros Hm. unfold run_slice. specialize (Hm (slice_new b o) I).
  destruct (m (slice_new b o)) as [c [a|er]]; simpl; [done|]. destruct Hm. congruence.
Qed.

Lemma infe_fields_safe start : slice_safe (infe_fields start).
Proof.
  unfold infe_fields. apply s_bind_safe; [auto with prog|]. intros version.
  apply s_bind_safe; [auto with prog|]. intros _.
  destruct (_ || _); [by intros s _|]. destruct (negb _); [by intros s _|].
  apply s_bind_safe; [auto with prog|]. intros id. apply s_bind_safe; [auto with prog|]. intros prot.
  apply s_bind_safe; [auto with prog|]. intros k. apply s_bind_safe; [auto with prog|]. intros nm.
  destruct (bytes_eqb k _); [|by intros s _].
  apply s_bind_safe; [auto with prog|]. intros ct. apply s_bind_safe; [by intros s _|]. intros s0.
  apply s_bind_safe; [destruct (bytes_eqb _ _); [by intros s _|auto with prog]|]. intros enc. by intros s _.
Qed.

Lemma sound_iinf_children n e children its : sound n e (iinf_children children its).
Proof.
  revert its. induction children as [|child rest IH]; intros its; cbn [iinf_children]; [sound|].
  apply sound_bind; [|intros; apply IH]. unfold iinf_child. sound. apply run_slice_fuel, infe_fields_safe.
Qed.

Lemma sound_bmff_iinf n e entry its :
  0 <= e -> 0 <= max_entries limits -> sound n e (bmff_iinf entry its).
Proof.
  intros He Hm. unfold bmff_iinf. sound; try apply sound_iinf_children;
    try (by eapply sound_returns, boxes_ok).
  apply run_slice_fuel. auto with prog.
Qed.

Definition locations_ok (locs : list (Z * Location)) : Prop :=
  Forall (fun x => Forall (fun r => 0 <= r.2) (extents x.2)) locs.

Lemma bt_insert_ok k v locs :
  Forall (fun r => 0 <= r.2) (extents v) -> locations_ok locs -> locations_ok (bt_insert k v locs).
Proof.
  intros Hv Hl. induction Hl as [|[k' w] locs Hw Hl IH]; simpl.
  - by repeat constructor.
  - destruct (k <? k'); [by repeat constructor|]. destruct (k =? k'); by constructor.
Qed.
Lemma bt_lookup_ok k locs l : locations_ok locs -> bt_lookup k locs = Some l -> Forall (fun r => 0 <= r.2) (extents l).
Proof.
  intros Hl. induction Hl as [|[k' w] locs Hw Hl IH]; simpl; [done|].
  destruct (k =? k'); [|done]. by intros [= <-].
Qed.

Lemma lreturns_s_uint n e k : lreturns n e (on_local (s_uint k)) (fun v => 0 <= v).
Proof. apply lreturns_on_local. intros c _. apply s_uint_values. Qed.
Lemma lreturns_s_take n e k : lreturns n e (on_local (s_take k)) byte_values.
Proof. apply lreturns_on_local. intros c _. apply s_take_values. Qed.
Lemma lreturns_tick n e o : lreturns n e (on_parser (tick limits o)) (fun _ => True).
Proof. apply lreturns_sound, lsound_on_parser; [exact _|]. intros. apply sound_tick. Qed.
Lemma lreturns_get n e : lreturns n e (on_local get) (fun _ => True).
Proof. apply lreturns_on_local. by intros c _ s Hs. Qed.

Ltac lret := repeat lazymatch goal with
  | |- XmpBase.lreturns _ _ _ _ _ _ (bind (on_local (s_uint _)) _) _ =>
      eapply lreturns_bind; [apply lreturns_s_uint|intros ? ?]
  | |- XmpBase.lreturns _ _ _ _ _ _ (bind (on_local (s_take _)) _) _ =>
      eapply lreturns_bind; [apply lreturns_s_take|intros ? ?]
  | |- XmpBase.lreturns _ _ _ _ _ _ (bind (on_parser (tick _ _)) _) _ =>
      eapply lreturns_bind; [apply lreturns_tick|intros ? ?]
  | |- XmpBase.lreturns _ _ _ _ _ _ (bind (on_local get) _) _ =>
      eapply lreturns_bind; [apply lreturns_get|intros ? ?]
  | |- XmpBase.lreturns _ _ _ _ _ _ (if _ then fail _ else _) _ => apply lreturns_if; [by apply lreturns_fail|]
  end.

Lemma iloc_extents_ok n e start a b c count :
  lreturns n e (iloc_extents start a b c count) (Forall (fun r => 0 <= r.2)).
Proof.
  induction count as [|count IH]; cbn [iloc_extents]; [by apply lreturns_ret|]. lret.
  eapply lreturns_bind; [exact IH|]. intros rest Hrest. apply lreturns_ret. by constructor.
Qed.

Lemma iloc_items_ok n e start v bs is_ os ls count locs :
  locations_ok locs -> lreturns n e (iloc_items start v bs is_ os ls count locs) locations_ok.
Proof.
  revert locs. induction count as [|count IH]; intros locs Hl; cbn [iloc_items]; [by apply lreturns_ret|]. lret.
  eapply (lreturns_bind _ _ _ _ _ _ _ _ (fun _ => True)).
  { apply lreturns_if; [|by apply lreturns_ret]. lret. by apply lreturns_ret. }
  intros m _. lret. eapply lreturns_bind; [apply iloc_extents_ok|]. intros exts Hexts.
  destruct (bt_lookup _ locs); [by apply lreturns_fail|]. apply IH. by apply bt_insert_ok.
Qed.

Lemma bmff_iloc_ok n e entry locs :
  box_ok entry -> locations_ok locs -> returns n e (bmff_iloc entry locs) locations_ok.
Proof.
  intros Hp Hl. unfold bmff_iloc. eapply returns_bind_returns; [apply read_spec|]. intros b Hb.
  apply (returns_with_local _ _ _ cursor_values).
  { intros c _. eapply (source_byte_values src length); [done| |exact Hb]. unfold box_ok in *. lia. }
  unfold iloc_fields. lret. eapply lreturns_bind; [by apply iloc_items_ok|]. intros locs' Hl'.
  lret. by apply lreturns_ret.
Qed.

Lemma lreturns_iref_ids n e start w from count assoc :
  lreturns n e (iref_ids start w from count assoc) (fun _ => True).
Proof.
  revert assoc. induction count as [|count IH]; intros assoc; cbn [iref_ids]; [by apply lreturns_ret|]. lret. apply IH.
Qed.

Lemma sound_iref_children n e w children assoc :
  Forall box_ok children -> sound n e (iref_children w children assoc).
Proof.
  intros Hc. revert assoc. induction Hc as [|child rest Hp Hc IH]; intros assoc; cbn [iref_children]; [sound|].
  sound_step; [apply IH|]. sound_step.
  eapply (returns_bind _ _ _ _ _ _ _ (fun _ => True)); [|intros; apply IH].
  apply (returns_with_local _ _ _ cursor_values).
  { intros c _. eapply (source_byte_values src length); [done| |exact H1]. unfold box_ok in *. lia. }
  unfold cdsc_fields. lret. eapply lreturns_bind; [apply lreturns_iref_ids|]. intros assoc' _.
  lret. by apply lreturns_ret.
Qed.

Lemma sound_bmff_iref n e entry assoc :
  0 <= e -> 0 <= max_entries limits -> sound n e (bmff_iref entry assoc).
Proof.
  intros He Hm. unfold bmff_iref. sound_step. sound_step. sound_step.
  eapply returns_bind; [by apply boxes_ok|]. intros children Hc. by apply sound_iref_children.
Qed.

(** *** Items *)

Lemma item_extents_ok n e ms id origin limit g loc item assoc ordinal exts indices xml :
  Forall (fun r => 0 <= r.2) exts -> Forall (fun k => 0 <= k < n) indices ->
  triple (holds src length limits n e)
    (item_extents ms id origin limit g loc item assoc ordinal exts indices xml)
    (fun r s => holds src length limits n e s /\ Forall (fun k => 0 <= k < len (packets s)) r.1)
    (fun er s => holds src length limits n e s /\ er <> OutOfFuel).
Proof.
  revert n ordinal indices xml. induction exts as [|[o k] exts IH]; intros n ordinal indices xml Hexts Hi;
    cbn [item_extents].
  - intros s Hs. split; [done|]. eapply Forall_impl; [exact Hi|]. intros x Hx. cbv beta in *.
    destruct Hs as (_ & Hlen & _). simpl. lia.
  - inversion Hexts as [|? ? Hk Hrest]; subst. simpl in Hk.
    destruct (k =? 0); [by intros s Hs|].
    intros s Hs. run. destruct (match checked_add origin _ with Some v => _ | None => _ end) as [o'|]; [|done].
    run. pose proof (bounds_fuel length o' k limit) as Hbf.
    destruct (bounds length o' k limit) as [v|er]; [|split; [done|congruence]]. revert s Hs.
    eapply triple_bind; [apply read_spec|]. intros b s [Hs Hb]. specialize (Hb Hk).
    apply source_range in Hb as [Hb Hr].
    destruct (saturating_sub _ _ <? len b); [done|]. revert s Hs.
    eapply triple_bind; [by apply packet_spec|]. intros i s (H0i & Hni & Hs).
    specialize (IH (i + 1) (ordinal + 1) (indices ++ [i]) (xml ++ b) Hrest).
    specialize (IH ltac:(apply Forall_app; split; [eapply Forall_impl; [exact Hi|]; intros x Hx; cbv beta in *; lia|
                         apply Forall_singleton; lia]) s Hs).
    destruct (item_extents _ _ _ _ _ _ _ _ _ exts _ _ s) as [s' [r|er]].
    + destruct IH as [Hs' Hr']. split; [|done]. eapply holds_weaken; [exact Hs'|lia|lia].
    + destruct IH as [Hs' Her]. split; [|done]. eapply holds_weaken; [exact Hs'|lia|lia].
Qed.

Lemma sound_item_input n e ms id origin limit g loc item assoc :
  Forall (fun r => 0 <= r.2) (extents loc) -> sound n e (item_input ms id origin limit g loc item assoc).
Proof.
  intros Hexts. unfold item_input.
  eapply triple_bind; [apply item_extents_ok; [done|by constructor]|].
  intros [indices xml] s [Hs Hi]. simpl in Hi. apply (sound_raise _ _ _ _ _ _ _ Hs).
  sound; by apply sound_input.
Qed.

Lemma sound_meta_items n e meta t its :
  locations_ok (locations t) -> sound n e (meta_items meta t its).
Proof.
  intros Hl. induction its as [|[id item] its IH]; cbn [meta_items]; [sound|].
  apply sound_bind; [|done]. unfold meta_item. sound_step; [sound|].
  destruct (bt_lookup id (locations t)) as [loc|] eqn:El; [|sound].
  pose proof (bt_lookup_ok _ _ _ Hl El) as Hexts.
  sound; apply sound_recorded; by apply sound_item_input.
Qed.

Lemma meta_boxes_ok n e rec depth entries t :
  0 <= e -> 0 <= max_entries limits -> Forall box_ok entries -> locations_ok (locations t) ->
  (forall n o e', sound n e (rec o e' (depth + 1))) ->
  returns n e (meta_boxes rec depth entries t) (fun t' => locations_ok (locations t')).
Proof.
  intros He Hm Hb Hl Hrec. revert t Hl. induction Hb as [|entry rest Hentry Hb IH]; intros t Hl; cbn [meta_boxes].
  { by apply returns_ret. }
  eapply returns_bind_returns; [|exact IH]. unfold meta_box.
  destruct (bytes_eqb (kind entry) (lit "iinf")).
  { eapply returns_bind_returns; [by apply returns_sound, sound_bmff_iinf|]. intros its _. by apply returns_ret. }
  destruct (bytes_eqb (kind entry) (lit "iloc")).
  { eapply returns_bind_returns; [by apply bmff_iloc_ok|]. intros locs Hlocs. by apply returns_ret. }
  destruct (bytes_eqb (kind entry) (lit "iref")).
  { eapply returns_bind_returns; [by apply returns_sound, sound_bmff_iref|]. intros assoc _. by apply returns_ret. }
  destruct (bytes_eqb (kind entry) (lit "idat")).
  { destruct (idat t); [by apply returns_fail|by apply returns_ret]. }
  destruct (bytes_eqb (kind entry) (lit "uuid")); [|by apply returns_ret].
  eapply returns_bind_returns; [apply returns_sound, Hrec|]. intros _ _. by apply returns_ret.
Qed.

Lemma sound_bmff_meta n e rec meta depth :
  0 <= e -> 0 <= max_entries limits ->
  (depth <= max_depth limits -> forall n o e', sound n e (rec o e' (depth + 1))) ->
  sound n e (bmff_meta rec meta depth).
Proof.
  intros He Hm Hrec. unfold bmff_meta. sound_step; [sound|]. specialize (Hrec ltac:(lia)).
  sound_step. sound_step. sound_step; [sound|].
  eapply returns_bind; [by apply boxes_ok|]. intros entries Hb.
  eapply returns_bind; [apply meta_boxes_ok; try done; constructor|]. intros t Ht. by apply sound_meta_items.
Qed.

Lemma sound_bmff_at n e fuel start e' depth :
  0 <= e -> 0 <= max_entries limits ->
  max_depth limits + 2 <= depth + Z.of_nat fuel -> (1 <= fuel)%nat ->
  sound n e (bmff_at fuel start e' depth).
Proof.
  intros He Hm. revert n start e' depth. induction fuel as [|fuel IH]; intros n start e' depth Hf H1; [lia|].
  cbn [bmff_at]. sound_step; [sound|].
  eapply returns_bind; [by apply boxes_ok|]. intros entries Hb.
  induction Hb as [|entry rest Hentry Hb IHb]; cbn [bmff_boxes]; [sound|].
  apply sound_bind; [|done]. unfold bmff_box. sound_step.
  { sound. apply sound_simple. lia. }
  sound_step. { apply sound_recorded, sound_bmff_meta; [done..|]. intros Hd n' o e2. apply IH; lia. }
  sound_step; [apply IH; lia|sound].
Qed.

Lemma sound_bmff n e start e' depth :
  0 <= e -> 0 <= max_entries limits -> 0 <= max_depth limits -> 0 <= depth -> sound n e (bmff start e' depth).
Proof. intros. apply sound_bmff_at; try done; lia. Qed.
End Bmff.
