(* ===== verification/XmpPackets.v ===== *)
(** XMP inspection as a whole: src/src/xmp_packets.rs, lines 103-116, 784-853 and
    the result of [inspect_controlled] (438-446 and 549-580).

    Dispatch on the file's signature, the RAF wrapper, and the verdict.  The file
    system's part (whether the source stayed the same during the inspection) is a
    boolean input.  The theorems at the end are about complete inspections. *)
From stdpp Require Import base tactics option list numbers gmap strings fin_maps sorting.
From Stdlib Require Import ZArith Lia.
From S2P Require Import Prelude XmpBase XmpJpeg XmpChunks XmpTiff XmpBmff.

Open Scope Z_scope.
Local Open Scope prog_scope.

(** @source src/src/xmp_packets.rs:103-108 SourceRevision *)
Record SourceRevision : Type := mkRevision {
  r_length : Z; r_blake3 : string; modified_unix_ns : option Z }.

(** @source src/src/xmp_packets.rs:109-116 Inspection *)
Record Inspection : Type := mkInspection {
  revision : SourceRevision;
  status : Status;
  n_packets : list Packet;
  parse_inputs : list ParseInput;
  n_issues : list Issue;
}.

Section Inspect.
Context `{Codecs} (src : bytes) (length : Z) (limits : Limits).

Local Abbreviation jpeg := (jpeg src length limits).
Local Abbreviation read := (read src length limits).

(** @source src/src/xmp_packets.rs:838-853 Parser::raf *)
Definition raf : PM unit :=
  let* header := read 0 108 in
  let o := be32 (slice header 84 4) in
  let n := be32 (slice header 88 4) in
  let* _ := lift (bounds length o n length) in
  (if negb (n =? 0) then jpeg o (o + n) else ret tt) ;;;
  record (unsupported 0 "RAF embedded JPEG inspected; proprietary RAF metadata is not a documented XMP carrier").

Definition supported_brand (b : bytes) : bool :=
  bytes_eqb b (lit "avif") || bytes_eqb b (lit "avis") || bytes_eqb b (lit "crx ").

(** The file type box, then the box tree. *)
(** @source src/src/xmp_packets.rs:804-829 Parser::photo *)
Definition bmff_file : PM unit :=
  let* ftyp := box_at src length limits 0 length in
  let* brands := read (payload ftyp) (b_end ftyp - payload ftyp) in
  if (len brands <? 8) || negb ((len brands - 8) mod 4 =? 0) then
    fail (malformed (b_start ftyp) "invalid BMFF file type box") else
  (if negb (existsb supported_brand
              (take 4 brands :: chunks_exact (List.length brands) 4 (drop 8 brands))) then
     record (unsupported 0 "BMFF brands outside AVIF/CR3; only declared XMP carriers inspected")
   else ret tt) ;;;
  bmff src length limits 0 length 0.

(** @source src/src/xmp_packets.rs:784-837 Parser::photo *)
Definition photo : PM unit :=
  let* header := read 0 (Z.min length 16) in
  if starts_with header [255; 216] then jpeg 0 length
  else if starts_with header ([137] ++ lit "PNG" ++ [13; 10; 26; 10]) then png src length limits
  else if starts_with header (lit "RIFF") && bytes_eqb (slice header 8 4) (lit "WEBP") then webp src length limits
  else if starts_with header (lit "8BPS") then psd src length limits
  else if starts_with header (lit "II") || starts_with header (lit "MM") then tiff src length limits 0 length
  else if starts_with header (lit "FUJIFILMCCD-RAW ") then raf
  else if bytes_eqb (slice header 4 4) (lit "ftyp") then bmff_file
  else if starts_with header (lit "BM") then
    fail (unsupported 0 "BMP has no supported standardized embedded XMP carrier; inspect an explicitly selected sidecar separately")
  else fail (unsupported 0 "unrecognized metadata container").

(** ** The verdict *)

(** The first status that some issue has, in order of gravity. *)
(** @source src/src/xmp_packets.rs:557-569 inspect_controlled *)
Definition verdict (ps : list Packet) (is_ : list Issue) : Status :=
  match find (fun s => existsb (fun i => bool_decide (i_status i = s)) is_)
             [SourceChanged; ResourceLimit; Malformed; Unsupported] with
  | Some s => s
  | None => match ps with [] => Absent | _ => Complete end
  end.

(** A failure of the parser becomes its last issue. *)
(** @source src/src/xmp_packets.rs:438-446 inspect_controlled *)
Definition parsed_state (sidecar_mode : bool) : Parser :=
  (recorded (if sidecar_mode then sidecar src length limits else photo) parser_new).1.

(** [same]: the file system saw no change from before the hash to after the parse. *)
(** @source src/src/xmp_packets.rs:549-580 inspect_controlled *)
Definition inspect (sidecar_mode same : bool) (modified : option Z) : Inspection :=
  if max_source_bytes limits <? length then
    mkInspection (mkRevision length "" modified) ResourceLimit [] []
      [mkIssue ResourceLimit None "source byte limit exceeded; digest not computed"]
  else
    let s := parsed_state sidecar_mode in
    let is_ := issues s ++
      (if same then []
       else [mkIssue SourceChanged None "source changed during inspection; packets are not a committed revision"]) in
    mkInspection (mkRevision length (digest (take (Z.to_nat length) src)) modified)
      (verdict (packets s) is_) (packets s) (inputs s) is_.

(** ** Soundness *)

Context (Hsrc : byte_values src).

Definition limits_ok : Prop :=
  0 <= max_packet_bytes limits /\ 0 <= max_retained_bytes limits /\ 0 <= max_parse_bytes limits
  /\ 0 <= max_entries limits /\ 0 <= max_packets limits /\ 0 <= max_depth limits.

Lemma sound_raf n e : 0 <= e -> limits_ok -> sound src length limits n e raf.
Proof. intros He (_ & _ & _ & Hm & _). unfold raf. sound. by apply sound_jpeg. Qed.

Lemma sound_bmff_file n e : 0 <= e -> limits_ok -> sound src length limits n e bmff_file.
Proof.
  intros He (_ & _ & _ & Hm & _ & Hd). unfold bmff_file.
  sound; [apply sound_box_at|by apply sound_bmff].
Qed.

Lemma sound_photo n e : 0 <= e -> limits_ok -> sound src length limits n e photo.
Proof.
  intros He Hl. pose proof Hl as (_ & _ & _ & Hm & _ & Hd). unfold photo.
  sound; [by apply sound_jpeg|by apply sound_png|by apply sound_webp|by apply sound_psd
         |by apply sound_tiff|by apply sound_raf|by apply sound_bmff_file].
Qed.

Lemma sound_sidecar n e : 0 <= length -> sound src length limits n e (sidecar src length limits).
Proof. intros Hl. by apply sound_simple. Qed.

Lemma new_holds : limits_ok -> holds src length limits 0 0 parser_new.
Proof. intros (H1 & H2 & H3 & H4 & H5 & H6). split_and!; [|done|done]. constructor; simpl; try done; constructor. Qed.

Lemma parsed_holds mode : 0 <= length -> limits_ok -> holds src length limits 0 0 (parsed_state mode).
Proof.
  intros Hn Hl. unfold parsed_state.
  pose proof (sound_recorded src length limits 0 0
    (if mode then sidecar src length limits else photo)) as Hs.
  specialize (Hs ltac:(destruct mode; [by apply sound_sidecar|by apply sound_photo])).
  specialize (Hs _ (new_holds Hl)).
  destruct (recorded _ parser_new) as [s [[]|er]]; [done|]. by destruct Hs.
Qed.

(** ** Properties *)

(** C16.  Evidence: whatever the bytes of a source, every packet an inspection
    retains is exactly the source at the packet's ranges, inside the source, with
    its digest; every parse input names retained packets; and the packet,
    retention and parse budgets hold.  This covers damaged and hostile files. *)
Theorem inspection_evidence mode same modified :
  0 <= length -> limits_ok ->
  let i := inspect mode same modified in
  Forall (packet_ok src length limits) (n_packets i)
  /\ Forall (input_ok limits (len (n_packets i))) (parse_inputs i)
  /\ len (n_packets i) <= max_packets limits
  /\ total_len (map p_bytes (n_packets i)) <= max_retained_bytes limits
  /\ total_len (map in_bytes (parse_inputs i)) <= max_parse_bytes limits.
Proof.
  intros Hn Hl i. unfold i, inspect. destruct (max_source_bytes limits <? length).
  - simpl. pose proof Hl as (? & ? & ? & ? & ? & ?). split_and!; try done; by constructor.
  - simpl. destruct (parsed_holds mode Hn Hl) as ([] & _ & _). split_and!; try done; congruence.
Qed.

(** C17.  Termination: no file makes the inspection run for ever.  Every loop is
    paid for by the entry budget or by the distance to the end, and every
    recursion by the depth limit: the fuel never runs out. *)
Theorem inspection_terminates (mode : bool) :
  0 <= length -> limits_ok ->
  exists s r, recorded (if mode then sidecar src length limits else photo) parser_new = (s, r)
  /\ r = Ok tt.
Proof.
  intros Hn Hl.
  pose proof (sound_recorded src length limits 0 0
    (if mode then sidecar src length limits else photo)) as Hs.
  specialize (Hs ltac:(destruct mode; [by apply sound_sidecar|by apply sound_photo]) _ (new_holds Hl)).
  assert (forall m s0, match recorded m s0 with (_, Err (Fail _)) => False | _ => True end) as Hrec.
  { intros m s0. unfold recorded, bind, try. destruct (m s0) as [s1 [[]|[f|]]]; done. }
  specialize (Hrec (if mode then sidecar src length limits else photo) parser_new).
  destruct (recorded _ parser_new) as [s [[]|[f|]]]; [by exists s, (Ok tt)|done|by destruct Hs].
Qed.

(**  The verdict: a source that changed is never reported as anything else,
    and an inspection is called complete only if packets were found, the source
    stayed the same, and no issue was met. *)
Theorem inspect_status mode same modified :
  let i := inspect mode same modified in
  (same = false -> length <= max_source_bytes limits -> status i = SourceChanged)
  /\ (status i = Complete -> same = true /\ n_packets i <> []
      /\ forall x, x ∈ n_issues i -> i_status x = Absent \/ i_status x = Complete).
Proof.
  intros i. unfold i, inspect. split.
  - intros -> Hle. destruct (Z.ltb_spec (max_source_bytes limits) length); [lia|]. simpl.
    unfold verdict. simpl. rewrite existsb_app. simpl. by rewrite orb_true_r.
  - destruct (max_source_bytes limits <? length); simpl; [done|].
    set (is_ := issues _ ++ _). unfold verdict.
    destruct (find _ _) as [st|] eqn:Hf.
    { intros ->. apply find_some in Hf as [Hin _]. simpl in Hin. intuition discriminate. }
    intros Hc. assert (forall st, In st [SourceChanged; ResourceLimit; Malformed; Unsupported] ->
      forall x, x ∈ is_ -> i_status x <> st) as Hno.
    { intros st Hst x Hx Heq. pose proof (find_none _ _ Hf st Hst) as Hn. cbv beta in Hn.
      assert (existsb (fun i => bool_decide (i_status i = st)) is_ = true); [|congruence].
      apply existsb_exists. exists x. split; [by apply list_elem_of_In|]. by apply bool_decide_true. }
    split_and!.
    + destruct same; [done|]. exfalso. refine (Hno SourceChanged (or_introl eq_refl)
        (mkIssue SourceChanged None "source changed during inspection; packets are not a committed revision") _ eq_refl).
      unfold is_. apply elem_of_app. right. apply list_elem_of_singleton. reflexivity.
    + intros E. by rewrite E in Hc.
    + intros x Hx. pose proof (Hno (i_status x)) as Hx'. destruct (i_status x) eqn:E; [by left|by right|..];
        exfalso; (eapply Hx'; [|exact Hx|exact E]); simpl; tauto.
Qed.

(**  A sidecar within the limits is retained byte for byte and offered to the
    parser unchanged. *)
Theorem sidecar_roundtrip modified :
  length = len src -> length <= max_source_bytes limits -> length <= max_packet_bytes limits ->
  length <= max_metadata_read_bytes limits -> length <= max_retained_bytes limits ->
  length <= max_parse_bytes limits -> 1 <= max_packets limits -> length <= u64_max ->
  inspect true true modified =
  mkInspection (mkRevision length (digest src) modified) Complete
    [mkPacket Sidecar src (digest src) [mkRange 0 length] "sidecar" ∅]
    [mkInput src (digest src) [0] Identity "sidecar"] [].
Proof.
  intros Hlen H1 H2 H3 H4 H5 H6 H7. pose proof (len_nonneg src) as Hnn.
  assert (take (Z.to_nat length) src = src) as Htake by (apply take_ge; unfold len in *; lia).
  assert (slice src 0 length = src) as Hslice by (unfold slice; simpl; by rewrite drop_0, Htake).
  assert (forall e, 0 <= e <= length -> bounds length 0 e length = Ok e) as Hb.
  { intros e He. unfold bounds. assert (checked_add 0 e = Some e) as -> by (apply checked_add_Some; lia).
    destruct (Z.leb_spec e length); [done|lia]. }
  assert (parsed_state true = mkParser length 0 length length
      [mkPacket Sidecar src (digest src) [mkRange 0 length] "sidecar" ∅]
      [mkInput src (digest src) [0] Identity "sidecar"] []) as Hs.
  { unfold parsed_state, sidecar, simple, simple_within. unfold recorded. unfold bind at 1, try.
    rewrite Hb by lia. run. rewrite Z.min_id. unfold saturating_sub. rewrite Z.sub_0_r, Z.max_r, Z.min_id by lia.
    unfold XmpBase.read. unfold bind at 1. rewrite Hb by lia. run.
    destruct (Z.leb_spec length (max_packet_bytes limits)); [|lia]. simpl.
    assert (checked_add 0 length = Some length) as -> by (apply checked_add_Some; lia). run.
    destruct (Z.leb_spec length (max_metadata_read_bytes limits)); [|lia].
    unfold read_at. rewrite Hslice. destruct (Z.leb_spec (0 + length) (len src)); [|lia].
    rewrite orb_true_r, Z.eqb_refl. simpl. unfold packet. unfold bind at 1. run. simpl.
    unfold saturating_sub. destruct (Z.leb_spec (max_packets limits) (len (@nil Packet))); [unfold len in *; simpl in *; lia|].
    destruct (Z.ltb_spec (max_packet_bytes limits) (len src)); [lia|].
    destruct (Z.ltb_spec (Z.max 0 (max_retained_bytes limits - 0)) (len src)); [lia|]. simpl.
    unfold input. run. simpl. unfold saturating_sub.
    destruct (Z.ltb_spec (max_packet_bytes limits) (len src)); [lia|].
    destruct (Z.ltb_spec (Z.max 0 (max_parse_bytes limits - 0)) (len src)); [lia|]. simpl.
    unfold push_input, push_packet. simpl. by rewrite <-Hlen. }
  unfold inspect. rewrite Hs. destruct (Z.ltb_spec (max_source_bytes limits) length); [lia|]. simpl.
  by rewrite Htake.
Qed.

(** *** Extended JPEG *)

(** The fragments of a message cut into chunks, each with its packet. *)
Fixpoint cut (total pos : Z) (cs : list (Z * bytes)) : list Extended :=
  match cs with
  | [] => []
  | (i, c) :: cs' => mkExtended i total pos c :: cut total (pos + len c) cs'
  end.

Definition by_start (f g : Extended) : Prop := x_start f <= x_start g.

Lemma insert_sorted f l : StronglySorted by_start l -> StronglySorted by_start (insert_by_start f l).
Proof.
  induction 1 as [|g l Hl IH Hg]; simpl; [by repeat constructor|].
  destruct (Z.leb_spec (x_start f) (x_start g)).
  - constructor; [by constructor|]. constructor; [done|]. eapply Forall_impl; [exact Hg|].
    unfold by_start. intros h Hh. simpl in *. lia.
  - constructor; [done|]. rewrite insert_by_start_perm. constructor; [unfold by_start; lia|done].
Qed.
Lemma sort_sorted l : StronglySorted by_start (sort_by_start l).
Proof. induction l as [|f l IH]; simpl; [constructor|]. by apply insert_sorted. Qed.

Lemma cut_starts total pos cs : Forall (fun c => c.2 <> []) cs ->
  Forall (fun f => pos <= x_start f) (cut total pos cs) /\ StronglySorted (fun f g => x_start f < x_start g) (cut total pos cs).
Proof.
  revert pos. induction cs as [|[i c] cs IH]; intros pos Hcs; simpl; [split; constructor|].
  inversion Hcs as [|? ? Hc Hrest]; subst. simpl in Hc.
  destruct (IH (pos + len c) Hrest) as [Hge Hs].
  assert (0 < len c) by (unfold len; destruct c; [done|simpl; lia]). split.
  - constructor; [simpl; lia|]. eapply Forall_impl; [exact Hge|]. intros f Hf. simpl in *. lia.
  - constructor; [done|]. eapply Forall_impl; [exact Hge|]. intros f Hf. simpl in *. lia.
Qed.

Lemma strict_by_start l : StronglySorted (fun f g => x_start f < x_start g) l -> StronglySorted by_start l.
Proof.
  induction 1 as [|f l Hl IH Hf]; constructor; [done|]. eapply Forall_impl; [exact Hf|].
  unfold by_start. intros g Hg. simpl in *. lia.
Qed.

Lemma strict_unique (l : list Extended) f g :
  StronglySorted (fun f g => x_start f < x_start g) l -> f ∈ l -> g ∈ l -> x_start f = x_start g -> f = g.
Proof.
  induction 1 as [|h l Hl IH Hh]; intros Hf Hg Heq; [by apply not_elem_of_nil in Hf|].
  rewrite Forall_forall in Hh. apply elem_of_cons in Hf, Hg. destruct Hf as [->|Hf], Hg as [->|Hg]; try done.
  - specialize (Hh g Hg). simpl in Hh. lia.
  - specialize (Hh f Hf). simpl in Hh. lia.
  - by apply IH.
Qed.

Lemma sort_cut total cs fs :
  Forall (fun c => c.2 <> []) cs -> fs ≡ₚ cut total 0 cs -> sort_by_start fs = cut total 0 cs.
Proof.
  intros Hcs Hp. destruct (cut_starts total 0 cs Hcs) as [_ Hs].
  apply (StronglySorted_unique_strong by_start).
  - intros f g Hf Hg H1 H2. rewrite sort_by_start_perm, Hp in Hf.
    eapply strict_unique; [exact Hs|done|done|]. unfold by_start in *. lia.
  - apply sort_sorted.
  - by apply strict_by_start.
  - by rewrite sort_by_start_perm.
Qed.

Lemma cut_contiguous total pos cs :
  Forall (fun c => c.2 <> []) cs -> pos + len (concat (map snd cs)) = total -> contiguous total pos (cut total pos cs) = true.
Proof.
  revert pos. induction cs as [|[i c] cs IH]; intros pos Hcs Ht; simpl in *; [unfold len in Ht; simpl in Ht; lia|].
  inversion Hcs as [|? ? Hc Hrest]; subst. simpl in Hc. rewrite len_app in *.
  pose proof (len_nonneg (concat (map snd cs))).
  unfold bytes_eqb. rewrite bool_decide_false by done. rewrite !Z.eqb_refl. simpl.
  destruct (Z.leb_spec (pos + len c) (pos + (len c + len (concat (map snd cs))))); [|lia]. simpl.
  apply IH; [done|lia].
Qed.

Lemma cut_bytes total pos cs : flat_map x_bytes (cut total pos cs) = concat (map snd cs).
Proof. revert pos. induction cs as [|[i c] cs IH]; intros pos; simpl; [done|]. by rewrite IH. Qed.
Lemma cut_indices total pos cs : map x_index (cut total pos cs) = map fst cs.
Proof. revert pos. induction cs as [|[i c] cs IH]; intros pos; simpl; [done|]. by rewrite IH. Qed.

(**  Extended XMP is independent of the order of its segments: fragments of a
    message, in any order, are put together into exactly that message, when the
    digest in the group's name is the message's and the budgets allow it. *)
Theorem extended_roundtrip base guid cs fs s :
  cs <> [] -> Forall (fun c => c.2 <> []) cs ->
  let m := concat (map snd cs) in
  fs ≡ₚ cut (len m) 0 cs -> hex true (md5_compute m) = guid ->
  len m <= max_packet_bytes limits -> 0 <= parsed s -> parsed s + len m <= max_parse_bytes limits ->
  reassemble limits base guid fs s =
  (push_input (mkInput m (digest m) (map fst cs) JpegExtendedReassembled
     ("jpeg:" +:+ dec base +:+ ":extended:" +:+ text guid)%string) s, Ok tt).
Proof.
  intros Hne Hcs m Hp Hmd Hmax Hpos Hparse. unfold reassemble. rewrite (sort_cut _ _ _ Hcs Hp).
  assert (match cut (len m) 0 cs with f :: _ => x_total f | [] => 0 end = len m) as ->
    by (destruct cs as [|[i c] cs]; done).
  rewrite cut_contiguous by (try done; lia). simpl.
  destruct (Z.ltb_spec (max_packet_bytes limits) (len m)); [lia|].
  rewrite cut_bytes, cut_indices. fold m. rewrite Hmd. unfold bytes_eqb. rewrite bool_decide_true by done. simpl.
  unfold input. run. unfold saturating_sub.
  destruct (Z.ltb_spec (max_packet_bytes limits) (len m)); [lia|].
  destruct (Z.ltb_spec (Z.max 0 (max_parse_bytes limits - parsed s)) (len m)); [lia|]. done.
Qed.

Lemma contiguous_inv total pos fs :
  contiguous total pos fs = true ->
  (forall i f, fs !! i = Some f ->
     x_bytes f <> [] /\ x_total f = total /\ x_start f = pos + len (flat_map x_bytes (take i fs))) /\
  pos + len (flat_map x_bytes fs) = total.
Proof.
  revert pos. induction fs as [|f fs IH]; intros pos Hc; cbn [contiguous] in Hc.
  - apply Z.eqb_eq in Hc. split; [by intros i f|]. cbn. unfold len. cbn. lia.
  - rewrite !andb_true_iff, !Z.eqb_eq in Hc. destruct Hc as [[[[Hb Ht] Hs] _] [Hf Hl]%IH].
    split; [|cbn; rewrite len_app; lia]. intros [|i] g Hg.
    + injection Hg as <-. split; [|cbn; unfold len; cbn; lia].
      intros He. rewrite He in Hb. done.
    + destruct (Hf i g Hg) as (H1 & H2 & H3). split_and!; [done|done|]. cbn. rewrite len_app. lia.
Qed.

(**  Nothing else is put together: when reassembly adds an input, the
    fragments, sorted, cover the declared length without gap or overlap, the
    input is their concatenation, and its MD5 is the one the group is named
    after. *)
Theorem extended_only_verified base guid fs s s' :
  (reassemble limits base guid fs s).1 = s' -> inputs s' <> inputs s ->
  exists sorted total, sorted ≡ₚ fs
    /\ (forall i f, sorted !! i = Some f ->
          x_bytes f <> [] /\ x_total f = total /\ x_start f = len (flat_map x_bytes (take i sorted)))
    /\ len (flat_map x_bytes sorted) = total
    /\ let m := flat_map x_bytes sorted in
       hex true (md5_compute m) = guid
       /\ exists group, inputs s' = inputs s ++ [mkInput m (digest m) (map x_index sorted) JpegExtendedReassembled group].
Proof.
  intros <- Hne. unfold reassemble in *. set (sorted := sort_by_start fs) in *.
  set (total := match sorted with f :: _ => x_total f | [] => 0 end) in *.
  exists sorted, total. destruct (contiguous total 0 sorted) eqn:Hc; simpl in *; [|done].
  destruct (max_packet_bytes limits <? total); [done|].
  destruct (bytes_eqb _ guid) eqn:Hmd; simpl in *; [|done].
  apply bool_decide_eq_true in Hmd. apply contiguous_inv in Hc as [Hf Ht].
  split; [apply sort_by_start_perm|]. split; [exact Hf|]. split; [exact Ht|]. split; [done|].
  unfold input in *. revert Hne. run. destruct (_ || _); [done|]. intros _. eexists. reflexivity.
Qed.
End Inspect.

(** ** Concrete inspections *)

#[export] Instance toy_codecs : Codecs := {|
  digest b := text (hex false (take 4 b));
  md5_compute b := take 16 (b ++ repeat 0 16);
  zlib_read t max := Some (take (Z.to_nat max) t, len t);
  gzip_read x max := Some (take (Z.to_nat max) x);
|}.
Definition demo_limits : Limits := mkLimits 1000 500 1000 1000 5000 50 8 4.

(** A JPEG with one extended XMP message in two segments, the second half first. *)
Definition message : bytes := lit "<x:xmpmeta>extended</x:xmpmeta>".
Definition guid_of (m : bytes) : bytes := hex true (md5_compute m).
Definition be_bytes2 (n : Z) : bytes := [Z.shiftr n 8; Z.land n 255].
Definition segment (start : Z) (chunk : bytes) : bytes :=
  let body := JPEG_EXT ++ guid_of message ++ [0; 0] ++ be_bytes2 (len message) ++ [0; 0] ++ be_bytes2 start ++ chunk in
  [255; 225] ++ be_bytes2 (len body + 2) ++ body.
Definition demo_jpeg : bytes :=
  [255; 216] ++ segment 11 (drop 11 message) ++ segment 0 (take 11 message) ++ [255; 217].

Example demo_jpeg_extended :
  let i := inspect demo_jpeg (len demo_jpeg) demo_limits false true None in
  status i = Complete /\ map p_container (n_packets i) = [JpegExtended; JpegExtended]
  /\ map in_bytes (parse_inputs i) = [message] /\ map packet_indices (parse_inputs i) = [[1; 0]].
Proof. vm_compute. done. Qed.

Lemma demo_jpeg_values : byte_values demo_jpeg /\ limits_ok demo_limits.
Proof.
  split; [|unfold limits_ok; simpl; lia].
  apply (Forall_impl (fun b => is_true ((0 <=? b) && (b <? 256)))); [|intros b Hb; unfold is_true in Hb; lia].
  apply (bool_decide_unpack _). vm_compute. exact I.
Qed.

Lemma inspection_evidence_witness :
  Forall (packet_ok demo_jpeg (len demo_jpeg) demo_limits)
    (n_packets (inspect demo_jpeg (len demo_jpeg) demo_limits false true None)).
Proof.
  destruct demo_jpeg_values as [H1 H2].
  exact (proj1 (inspection_evidence demo_jpeg (len demo_jpeg) demo_limits H1 false true None (len_nonneg _) H2)).
Defined.

Lemma inspection_terminates_witness :
  exists s r, recorded (photo demo_jpeg (len demo_jpeg) demo_limits) parser_new = (s, r) /\ r = Ok tt.
Proof.
  destruct demo_jpeg_values as [H1 H2].
  exact (inspection_terminates demo_jpeg (len demo_jpeg) demo_limits H1 false (len_nonneg _) H2).
Defined.

Lemma sidecar_roundtrip_witness :
  n_packets (inspect message (len message) demo_limits true true None)
  = [mkPacket Sidecar message (digest message) [mkRange 0 (len message)] "sidecar" ∅].
Proof.
  rewrite (sidecar_roundtrip message (len message) demo_limits None); vm_compute; first [reflexivity|discriminate].
Defined.

Lemma extended_roundtrip_witness :
  inputs (reassemble demo_limits 0 (guid_of message)
            [mkExtended 0 (len message) 11 (drop 11 message); mkExtended 1 (len message) 0 (take 11 message)]
            parser_new).1
  = [mkInput message (digest message) [1; 0] JpegExtendedReassembled
       ("jpeg:0:extended:" +:+ text (guid_of message))%string].
Proof.
  rewrite (extended_roundtrip demo_limits 0 (guid_of message) [(1, take 11 message); (0, drop 11 message)]).
  - vm_compute. reflexivity.
  - discriminate.
  - repeat constructor; discriminate.
  - apply (Permutation_swap (mkExtended 1 (len message) 0 (take 11 message))
             (mkExtended 0 (len message) 11 (drop 11 message)) []).
  - vm_compute. reflexivity.
  - vm_compute. discriminate.
  - vm_compute. discriminate.
  - vm_compute. discriminate.
Defined.

Lemma extended_only_verified_witness :
  exists sorted total,
    sorted ≡ₚ [mkExtended 0 (len message) 0 message] /\ len (flat_map x_bytes sorted) = total.
Proof.
  destruct (extended_only_verified demo_limits 0 (guid_of message) [mkExtended 0 (len message) 0 message]
              parser_new _ eq_refl) as (sorted & total & H1 & _ & H2 & _); [vm_compute; discriminate|].
  exists sorted, total. split; [exact H1|exact H2].
Defined.
