(* ===== verification/Recipe.v ===== *)
(** Edit recipes: src/src/edit/recipe.rs.

    A recipe's [f32] settings are kept as their 32-bit patterns, so that
    infinities, NaNs, signed zeros and the exact comparison and rounding of the
    code are all visible.  [validate] is the gate every durable recipe passes;
    [copy_groups_from] transfers selected adjustment groups;
    [validate_dimensions] turns a normalized crop into pixels.

    [serde_json] and [blake3] are the parameters of [RecipeCodec]. *)
From stdpp Require Import base tactics option list numbers strings.
From Stdlib Require Import ZArith Lia.
From S2P Require Import Prelude.

Open Scope Z_scope.
Local Open Scope prog_scope.

(** ** Single-precision values *)

(** An [f32] is its bit pattern: sign, 8 exponent bits, 23 fraction bits. *)
Definition f32 : Type := Z.

Definition f32_negative (x : f32) : bool := Z.testbit x 31.
Definition f32_exponent (x : f32) : Z := Z.land (Z.shiftr x 23) 255.
Definition f32_fraction (x : f32) : Z := Z.land x (2 ^ 23 - 1).
Definition is_finite (x : f32) : bool := negb (f32_exponent x =? 255).
Definition is_nan (x : f32) : bool := (f32_exponent x =? 255) && negb (f32_fraction x =? 0).

(** Every finite [f32] is a whole number of units of [2^-149]; on an infinity
    the same formula exceeds every finite magnitude. *)
Definition f32_unit : Z := 2 ^ 149.
Definition magnitude (x : f32) : Z :=
  if f32_exponent x =? 0 then f32_fraction x
  else (2 ^ 23 + f32_fraction x) * 2 ^ (f32_exponent x - 1).
Definition ordinal (x : f32) : Z := if f32_negative x then - magnitude x else magnitude x.

(** The comparisons of [PartialOrd] and [PartialEq]: false on a NaN, and equal
    on the two zeros. *)
Definition f32_lt (x y : f32) : bool := negb (is_nan x) && negb (is_nan y) && (ordinal x <? ordinal y).
Definition f32_ge (x y : f32) : bool := negb (is_nan x) && negb (is_nan y) && (ordinal y <=? ordinal x).
Definition f32_eq (x y : f32) : bool := negb (is_nan x) && negb (is_nan y) && (ordinal x =? ordinal y).

Definition f32_0 : f32 := 0.
Definition f32_1 : f32 := 0x3F800000.
Definition f32_m1 : f32 := 0xBF800000.
Definition f32_2 : f32 := 0x40000000.
Definition f32_10 : f32 := 0x41200000.
Definition f32_m10 : f32 := 0xC1200000.
Definition f32_45 : f32 := 0x42340000.
Definition f32_m45 : f32 := 0xC2340000.
Definition f32_150 : f32 := 0x43160000.
Definition f32_m150 : f32 := 0xC3160000.
(** The single nearest to 0.1. *)
Definition f32_tenth : f32 := 0x3DCCCCCD.

(** The literals denote what they say. *)
Lemma f32_literals :
  ordinal f32_0 = 0 /\ ordinal f32_1 = f32_unit /\ ordinal f32_m1 = - f32_unit /\
  ordinal f32_2 = 2 * f32_unit /\ ordinal f32_10 = 10 * f32_unit /\
  ordinal f32_m10 = - 10 * f32_unit /\ ordinal f32_45 = 45 * f32_unit /\
  ordinal f32_m45 = - 45 * f32_unit /\ ordinal f32_150 = 150 * f32_unit /\
  ordinal f32_m150 = - 150 * f32_unit /\
  2 * Z.abs (10 * ordinal f32_tenth - f32_unit) <= 10 * 2 ^ (149 - 27).
Proof. repeat split; vm_compute; congruence. Qed.

(** [f64::from(x) * f64::from(n)] rounded to a [u32] by [.round() as u32]: the
    24-bit significand times a 32-bit integer has at most 56 bits, and at most
    40 for the edges of at most 40000 that reach it, so the product is exact in
    an [f64]; [round] takes halves away from zero and the cast saturates. *)
Definition round_pixels (x : f32) (n : Z) : Z :=
  if is_nan x then 0
  else Z.max 0 (Z.min u32_max ((2 * ordinal x * n + f32_unit) `div` (2 * f32_unit))).

(** ** Data *)

(** @source src/src/edit/recipe.rs:27-37 NormalizedRect *)
Record NormalizedRect : Type := mkNormalizedRect {
  left : f32; top : f32; right : f32; bottom : f32 }.

(** @source src/src/edit/recipe.rs:38-43 WhiteBalance *)
Inductive WhiteBalance : Type :=
| AsShot
| TemperatureTint (kelvin : Z) (tint : f32).

(** @source src/src/edit/recipe.rs:44-49 Sharpening *)
Record Sharpening : Type := mkSharpening { amount : f32; radius_px : f32 }.

(** @source src/src/edit/recipe.rs:50-55 NoiseReduction *)
Record NoiseReduction : Type := mkNoiseReduction { luminance : f32; chroma : f32 }.

(** @source src/src/edit/recipe.rs:12-26 RecipeV1 *)
Record RecipeV1 : Type := mkRecipeV1 {
  crop : option NormalizedRect;
  straighten_degrees : f32;
  exposure_ev : f32;
  white_balance : WhiteBalance;
  contrast : f32;
  highlights : f32;
  shadows : f32;
  saturation : f32;
  vibrance : f32;
  sharpening : Sharpening;
  noise_reduction : NoiseReduction;
}.

(** @source src/src/edit/recipe.rs:4-11 Recipe *)
Inductive Recipe : Type := V1 (settings : RecipeV1).

(** @source src/src/edit/recipe.rs:56-66 AdjustmentGroup *)
Inductive AdjustmentGroup : Type :=
| Geometry | Exposure | GWhiteBalance | Tone | Color | GSharpening | GNoiseReduction.

#[export] Instance NormalizedRect_eq_dec : EqDecision NormalizedRect.
Proof. solve_decision. Defined.
#[export] Instance WhiteBalance_eq_dec : EqDecision WhiteBalance.
Proof. solve_decision. Defined.
#[export] Instance Sharpening_eq_dec : EqDecision Sharpening.
Proof. solve_decision. Defined.
#[export] Instance NoiseReduction_eq_dec : EqDecision NoiseReduction.
Proof. solve_decision. Defined.
#[export] Instance RecipeV1_eq_dec : EqDecision RecipeV1.
Proof. solve_decision. Defined.
#[export] Instance Recipe_eq_dec : EqDecision Recipe.
Proof. solve_decision. Defined.
#[export] Instance AdjustmentGroup_eq_dec : EqDecision AdjustmentGroup.
Proof. solve_decision. Defined.

(** A byte of a document. *)
Definition bytes : Type := list Z.

(** @source src/src/edit/recipe.rs:68-75 ValidatedRecipe *)
Record ValidatedRecipe : Type := mkValidatedRecipe {
  recipe : Recipe;
  canonical_bytes : bytes;
  digest : string;
}.

(** @source src/src/edit/recipe.rs:80-83 ValidatedRecipe::settings *)
Definition settings (v : ValidatedRecipe) : RecipeV1 :=
  match recipe v with V1 value => value end.

(** @source src/src/edit/recipe.rs:124-146 RecipeV1::default *)
Definition default_RecipeV1 : RecipeV1 :=
  mkRecipeV1 None f32_0 f32_0 AsShot f32_0 f32_0 f32_0 f32_0 f32_0
    (mkSharpening f32_0 f32_1) (mkNoiseReduction f32_0 f32_0).

(** @source src/src/edit/recipe.rs:119-123 Recipe::default *)
Definition default_Recipe : Recipe := V1 default_RecipeV1.

(** The refusals; [OutOfRange] carries what [checked] formats into its text. *)
Inductive RecipeError : Type :=
| OutOfRange (name : string) (min max : f32)
| Refused (message : string).

(** [serde_json::to_vec], [serde_json::from_slice] and the hexadecimal
    [blake3::hash], on recipes. *)
Class RecipeCodec : Type := {
  to_vec : Recipe -> result string bytes;
  from_slice : bytes -> result string Recipe;
  blake3_hex : bytes -> string;
}.

(** ** Operations *)

(** The value is updated in place in the code, and returned here. *)
(** @source src/src/edit/recipe.rs:147-157 checked *)
Definition checked (name : string) (value min max : f32) : result RecipeError f32 :=
  if negb (is_finite value) || f32_lt value min || f32_lt max value
  then Err (OutOfRange name min max)
  else Ok (if f32_eq value f32_0 then f32_0 else value).

(** @source src/src/edit/recipe.rs:192-199 Recipe::validate *)
Definition checked_white_balance (w : WhiteBalance) : result RecipeError WhiteBalance :=
  match w with
  | AsShot => Ok AsShot
  | TemperatureTint kelvin tint =>
      if negb ((2000 <=? kelvin) && (kelvin <=? 50000))
      then Err (Refused "white balance kelvin must be 2000..=50000")
      else let? tint' := checked "white_balance.tint" tint f32_m150 f32_150 in
           Ok (TemperatureTint kelvin tint')
  end.

(** @source src/src/edit/recipe.rs:200-214 Recipe::validate *)
Definition checked_crop (c : option NormalizedRect) : result RecipeError (option NormalizedRect) :=
  match c with
  | None => Ok None
  | Some c =>
      let? l := checked "crop.left" (left c) f32_0 f32_1 in
      let? t := checked "crop.top" (top c) f32_0 f32_1 in
      let? r := checked "crop.right" (right c) f32_0 f32_1 in
      let? b := checked "crop.bottom" (bottom c) f32_0 f32_1 in
      if f32_ge l r || f32_ge t b
      then Err (Refused "crop must have positive width and height")
      else Ok (Some (mkNormalizedRect l t r b))
  end.

(** The checks of [validate], in its order, on the clone it works on. *)
(** @source src/src/edit/recipe.rs:159-214 Recipe::validate *)
Definition checked_settings (r : RecipeV1) : result RecipeError RecipeV1 :=
  let? straighten := checked "straighten_degrees" (straighten_degrees r) f32_m45 f32_45 in
  let? exposure := checked "exposure_ev" (exposure_ev r) f32_m10 f32_10 in
  let? contrast' := checked "contrast" (contrast r) f32_m1 f32_1 in
  let? highlights' := checked "highlights" (highlights r) f32_m1 f32_1 in
  let? shadows' := checked "shadows" (shadows r) f32_m1 f32_1 in
  let? saturation' := checked "saturation" (saturation r) f32_m1 f32_1 in
  let? vibrance' := checked "vibrance" (vibrance r) f32_m1 f32_1 in
  let? amount' := checked "sharpening.amount" (amount (sharpening r)) f32_0 f32_2 in
  let? radius' := checked "sharpening.radius_px" (radius_px (sharpening r)) f32_tenth f32_10 in
  let? luminance' := checked "noise_reduction.luminance" (luminance (noise_reduction r)) f32_0 f32_1 in
  let? chroma' := checked "noise_reduction.chroma" (chroma (noise_reduction r)) f32_0 f32_1 in
  let? white' := checked_white_balance (white_balance r) in
  let? crop' := checked_crop (crop r) in
  Ok (mkRecipeV1 crop' straighten exposure white' contrast' highlights' shadows' saturation'
        vibrance' (mkSharpening amount' radius') (mkNoiseReduction luminance' chroma')).

(** One selected group, from the validated source into the target. *)
(** @source src/src/edit/recipe.rs:236-254 Recipe::copy_groups_from *)
Definition copy_group (s : RecipeV1) (t : RecipeV1) (group : AdjustmentGroup) : RecipeV1 :=
  match group with
  | Geometry => mkRecipeV1 (crop s) (straighten_degrees s) (exposure_ev t) (white_balance t)
      (contrast t) (highlights t) (shadows t) (saturation t) (vibrance t)
      (sharpening t) (noise_reduction t)
  | Exposure => mkRecipeV1 (crop t) (straighten_degrees t) (exposure_ev s) (white_balance t)
      (contrast t) (highlights t) (shadows t) (saturation t) (vibrance t)
      (sharpening t) (noise_reduction t)
  | GWhiteBalance => mkRecipeV1 (crop t) (straighten_degrees t) (exposure_ev t) (white_balance s)
      (contrast t) (highlights t) (shadows t) (saturation t) (vibrance t)
      (sharpening t) (noise_reduction t)
  | Tone => mkRecipeV1 (crop t) (straighten_degrees t) (exposure_ev t) (white_balance t)
      (contrast s) (highlights s) (shadows s) (saturation t) (vibrance t)
      (sharpening t) (noise_reduction t)
  | Color => mkRecipeV1 (crop t) (straighten_degrees t) (exposure_ev t) (white_balance t)
      (contrast t) (highlights t) (shadows t) (saturation s) (vibrance s)
      (sharpening t) (noise_reduction t)
  | GSharpening => mkRecipeV1 (crop t) (straighten_degrees t) (exposure_ev t) (white_balance t)
      (contrast t) (highlights t) (shadows t) (saturation t) (vibrance t)
      (sharpening s) (noise_reduction t)
  | GNoiseReduction => mkRecipeV1 (crop t) (straighten_degrees t) (exposure_ev t) (white_balance t)
      (contrast t) (highlights t) (shadows t) (saturation t) (vibrance t)
      (sharpening t) (noise_reduction s)
  end.

Section Codec.
Context {CODEC : RecipeCodec}.

(** @source src/src/edit/recipe.rs:159-222 Recipe::validate *)
Definition validate (self : Recipe) : result RecipeError ValidatedRecipe :=
  match self with
  | V1 r =>
      let? r' := checked_settings r in
      match to_vec (V1 r') with
      | Err e => Err (Refused e)
      | Ok canonical => Ok (mkValidatedRecipe (V1 r') canonical (blake3_hex canonical))
      end
  end.

(** @source src/src/edit/recipe.rs:223-257 Recipe::copy_groups_from *)
Definition copy_groups_from (self source : Recipe) (groups : list AdjustmentGroup)
    : result RecipeError ValidatedRecipe :=
  let? target := validate self in
  let? source := validate source in
  validate (V1 (foldl (copy_group (settings source)) (settings target) groups)).
End Codec.

(** [u32] subtraction: [None] is the overflow that panics in a checked build. *)
Definition u32_sub (a b : Z) : option Z := if b <=? a then Some (a - b) else None.

(** @source src/src/edit/recipe.rs:90-117 ValidatedRecipe::validate_dimensions *)
Definition validate_dimensions (v : ValidatedRecipe) (width height : Z)
    : option (result RecipeError (Z * Z)) :=
  if (width =? 0) || (height =? 0) || (40000 <? width) || (40000 <? height)
     || (100000000 <? width * height)
  then Some (Err (Refused "source dimensions must be nonzero and within 100 MP/40000 per edge"))
  else match crop (settings v) with
  | Some c =>
      match u32_sub (round_pixels (right c) width) (round_pixels (left c) width),
            u32_sub (round_pixels (bottom c) height) (round_pixels (top c) height) with
      | Some w, Some h =>
          if (w =? 0) || (h =? 0)
          then Some (Err (Refused "crop collapses at this source resolution"))
          else Some (Ok (w, h))
      | _, _ => None
      end
  | None => Some (Ok (width, height))
  end.

(** ** Specification

    The ranges in real units, and the one canonical form of a zero. *)

Definition within (lo hi : Z) (x : f32) : Prop := is_finite x = true /\ lo <= ordinal x <= hi.
Definition canonical_zero (x : f32) : f32 := if ordinal x =? 0 then f32_0 else x.

Definition white_balance_in_bounds (w : WhiteBalance) : Prop :=
  match w with
  | AsShot => True
  | TemperatureTint kelvin tint =>
      2000 <= kelvin <= 50000 /\ within (-150 * f32_unit) (150 * f32_unit) tint
  end.
Definition crop_in_bounds (c : option NormalizedRect) : Prop :=
  match c with
  | None => True
  | Some c =>
      within 0 f32_unit (left c) /\ within 0 f32_unit (top c) /\
      within 0 f32_unit (right c) /\ within 0 f32_unit (bottom c) /\
      ordinal (left c) < ordinal (right c) /\ ordinal (top c) < ordinal (bottom c)
  end.
Definition in_bounds (r : RecipeV1) : Prop :=
  within (-45 * f32_unit) (45 * f32_unit) (straighten_degrees r) /\
  within (-10 * f32_unit) (10 * f32_unit) (exposure_ev r) /\
  within (- f32_unit) f32_unit (contrast r) /\
  within (- f32_unit) f32_unit (highlights r) /\
  within (- f32_unit) f32_unit (shadows r) /\
  within (- f32_unit) f32_unit (saturation r) /\
  within (- f32_unit) f32_unit (vibrance r) /\
  within 0 (2 * f32_unit) (amount (sharpening r)) /\
  within (ordinal f32_tenth) (10 * f32_unit) (radius_px (sharpening r)) /\
  within 0 f32_unit (luminance (noise_reduction r)) /\
  within 0 f32_unit (chroma (noise_reduction r)) /\
  white_balance_in_bounds (white_balance r) /\
  crop_in_bounds (crop r).

Definition normalize_white_balance (w : WhiteBalance) : WhiteBalance :=
  match w with
  | AsShot => AsShot
  | TemperatureTint kelvin tint => TemperatureTint kelvin (canonical_zero tint)
  end.
Definition normalize_crop (c : NormalizedRect) : NormalizedRect :=
  mkNormalizedRect (canonical_zero (left c)) (canonical_zero (top c))
    (canonical_zero (right c)) (canonical_zero (bottom c)).
Definition normalize (r : RecipeV1) : RecipeV1 :=
  mkRecipeV1 (normalize_crop <$> crop r) (canonical_zero (straighten_degrees r))
    (canonical_zero (exposure_ev r)) (normalize_white_balance (white_balance r))
    (canonical_zero (contrast r)) (canonical_zero (highlights r)) (canonical_zero (shadows r))
    (canonical_zero (saturation r)) (canonical_zero (vibrance r))
    (mkSharpening (canonical_zero (amount (sharpening r)))
       (canonical_zero (radius_px (sharpening r))))
    (mkNoiseReduction (canonical_zero (luminance (noise_reduction r)))
       (canonical_zero (chroma (noise_reduction r)))).

(** The settings one group governs. *)
Definition group_settings (g : AdjustmentGroup) (r : RecipeV1)
    : option NormalizedRect * list f32 * WhiteBalance :=
  match g with
  | Geometry => (crop r, [straighten_degrees r], AsShot)
  | Exposure => (None, [exposure_ev r], AsShot)
  | GWhiteBalance => (None, [], white_balance r)
  | Tone => (None, [contrast r; highlights r; shadows r], AsShot)
  | Color => (None, [saturation r; vibrance r], AsShot)
  | GSharpening => (None, [amount (sharpening r); radius_px (sharpening r)], AsShot)
  | GNoiseReduction => (None, [luminance (noise_reduction r); chroma (noise_reduction r)], AsShot)
  end.

(** ** Lemmas *)

Lemma is_finite_not_nan x : is_finite x = true -> is_nan x = false.
Proof. unfold is_finite, is_nan. by intros ->%negb_true_iff. Qed.

Lemma canonical_zero_ordinal x : ordinal (canonical_zero x) = ordinal x.
Proof. unfold canonical_zero. destruct (Z.eqb_spec (ordinal x) 0) as [->|]; reflexivity. Qed.
Lemma canonical_zero_finite x : is_finite x = true -> is_finite (canonical_zero x) = true.
Proof. unfold canonical_zero. by destruct (ordinal x =? 0). Qed.
Lemma canonical_zero_idem x : canonical_zero (canonical_zero x) = canonical_zero x.
Proof.
  unfold canonical_zero at 1. rewrite canonical_zero_ordinal. unfold canonical_zero.
  by destruct (ordinal x =? 0).
Qed.
Lemma within_canonical_zero lo hi x : within lo hi x -> within lo hi (canonical_zero x).
Proof. intros [Hf Hr]. split; [by apply canonical_zero_finite|by rewrite canonical_zero_ordinal]. Qed.

Lemma checked_Ok name v min max lo hi y :
  is_finite min = true -> is_finite max = true -> ordinal min = lo -> ordinal max = hi ->
  checked name v min max = Ok y <-> within lo hi v /\ y = canonical_zero v.
Proof.
  intros Hmin Hmax <- <-. unfold checked, within, f32_lt, f32_eq, canonical_zero.
  rewrite (is_finite_not_nan min), (is_finite_not_nan max) by done.
  destruct (is_finite v) eqn:Hv; [|simpl; intuition congruence].
  rewrite (is_finite_not_nan v Hv). simpl.
  change (is_nan f32_0) with false. change (ordinal f32_0) with 0. simpl.
  destruct (Z.ltb_spec (ordinal v) (ordinal min)), (Z.ltb_spec (ordinal max) (ordinal v)); simpl;
    (split; [|intros [[? ?] ?]]; try lia; try congruence);
    intros [= <-]; repeat split; auto.
Qed.

Create HintDb recipe.
#[export] Hint Resolve within_canonical_zero canonical_zero_finite : recipe.
Create Rewrite HintDb recipe.
#[export] Hint Rewrite canonical_zero_idem canonical_zero_ordinal : recipe.

(** A fact about literals. *)
Ltac literal := vm_compute; reflexivity.
#[global] Opaque f32_unit ordinal is_finite.

Lemma checked_white_balance_Ok w w' :
  checked_white_balance w = Ok w' <->
  white_balance_in_bounds w /\ w' = normalize_white_balance w.
Proof.
  destruct w as [|kelvin tint]; [split; [by intros [= <-]|by intros [_ ->]]|].
  cbn [checked_white_balance white_balance_in_bounds normalize_white_balance].
  destruct (Z.leb_spec 2000 kelvin), (Z.leb_spec kelvin 50000); cbn [negb andb];
    try (split; [discriminate|intros [[? ?] ?]; lia]).
  rewrite rbind_Ok. split.
  - intros (t & Ht & [= <-]). apply (checked_Ok _ _ _ _ (-150 * f32_unit) (150 * f32_unit)) in Ht
      as [Ht ->]; [auto|literal..].
  - intros [[_ Ht] ->]. exists (canonical_zero tint). split; [|done].
    apply (checked_Ok _ _ _ _ (-150 * f32_unit) (150 * f32_unit)); [literal..|done].
Qed.

Lemma f32_ge_finite x y : is_finite x = true -> is_finite y = true -> f32_ge x y = (ordinal y <=? ordinal x).
Proof. intros Hx Hy. unfold f32_ge. by rewrite !is_finite_not_nan by done. Qed.

Lemma checked_unit_Ok name v y :
  checked name v f32_0 f32_1 = Ok y <-> within 0 f32_unit v /\ y = canonical_zero v.
Proof. apply checked_Ok; literal. Qed.
Lemma checked_signed_Ok name v y :
  checked name v f32_m1 f32_1 = Ok y <-> within (- f32_unit) f32_unit v /\ y = canonical_zero v.
Proof. apply checked_Ok; literal. Qed.

Lemma checked_unit name v :
  within 0 f32_unit v -> checked name v f32_0 f32_1 = Ok (canonical_zero v).
Proof. intros H. by apply checked_unit_Ok. Qed.

Lemma checked_crop_Ok c c' :
  checked_crop c = Ok c' <-> crop_in_bounds c /\ c' = normalize_crop <$> c.
Proof.
  destruct c as [[l t r b]|]; [|split; [by intros [= <-]|by intros [_ ->]]].
  cbn [checked_crop crop_in_bounds left top right bottom].
  assert (forall x y, within 0 f32_unit x -> within 0 f32_unit y ->
    f32_ge (canonical_zero x) (canonical_zero y) = (ordinal y <=? ordinal x)) as Hge.
  { intros x y [Hx _] [Hy _]. rewrite f32_ge_finite by eauto with recipe. by autorewrite with recipe. }
  split.
  - intros H. apply rbind_Ok in H as (? & [Hl ->]%checked_unit_Ok & H).
    apply rbind_Ok in H as (? & [Ht ->]%checked_unit_Ok & H).
    apply rbind_Ok in H as (? & [Hr ->]%checked_unit_Ok & H).
    apply rbind_Ok in H as (? & [Hb ->]%checked_unit_Ok & H).
    rewrite !Hge in H by done.
    destruct (Z.leb_spec (ordinal r) (ordinal l)), (Z.leb_spec (ordinal b) (ordinal t)); cbn [orb] in H;
      try discriminate. injection H as <-. auto 8.
  - intros [(Hl & Ht & Hr & Hb & Hlr & Htb) ->].
    rewrite !checked_unit by done. cbn [rbind].
    rewrite !Hge by done.
    apply Z.leb_gt in Hlr as ->, Htb as ->. reflexivity.
Qed.

Lemma checked_settings_Ok r r' : checked_settings r = Ok r' <-> in_bounds r /\ r' = normalize r.
Proof.
  assert (forall n v y, checked n v f32_m45 f32_45 = Ok y <->
    within (-45 * f32_unit) (45 * f32_unit) v /\ y = canonical_zero v) as H45
    by (intros; apply checked_Ok; literal).
  assert (forall n v y, checked n v f32_m10 f32_10 = Ok y <->
    within (-10 * f32_unit) (10 * f32_unit) v /\ y = canonical_zero v) as H10
    by (intros; apply checked_Ok; literal).
  assert (forall n v y, checked n v f32_0 f32_2 = Ok y <->
    within 0 (2 * f32_unit) v /\ y = canonical_zero v) as H2
    by (intros; apply checked_Ok; literal).
  assert (forall n v y, checked n v f32_tenth f32_10 = Ok y <->
    within (ordinal f32_tenth) (10 * f32_unit) v /\ y = canonical_zero v) as Ht
    by (intros; apply checked_Ok; literal).
  unfold checked_settings, in_bounds. split.
  - intros H.
    repeat (apply rbind_Ok in H as (? & Hc & H);
      first [apply H45 in Hc as [? ->] | apply H10 in Hc as [? ->] | apply checked_signed_Ok in Hc as [? ->]
        | apply H2 in Hc as [? ->] | apply Ht in Hc as [? ->] | apply checked_unit_Ok in Hc as [? ->]
        | apply checked_white_balance_Ok in Hc as [? ->] | apply checked_crop_Ok in Hc as [? ->]]).
    injection H as <-. split; [repeat first [assumption|split]|reflexivity].
  - intros [(? & ? & ? & ? & ? & ? & ? & ? & ? & ? & ? & ? & ?) ->].
    erewrite (proj2 (H45 _ _ _)) by (split; [eassumption|done]). cbn [rbind].
    erewrite (proj2 (H10 _ _ _)) by (split; [eassumption|done]). cbn [rbind].
    do 5 (erewrite (proj2 (checked_signed_Ok _ _ _)) by (split; [eassumption|done]); cbn [rbind]).
    erewrite (proj2 (H2 _ _ _)) by (split; [eassumption|done]). cbn [rbind].
    erewrite (proj2 (Ht _ _ _)) by (split; [eassumption|done]). cbn [rbind].
    rewrite !checked_unit by done. cbn [rbind].
    erewrite (proj2 (checked_white_balance_Ok _ _)) by (split; [eassumption|done]). cbn [rbind].
    erewrite (proj2 (checked_crop_Ok _ _)) by (split; [eassumption|done]). reflexivity.
Qed.

Lemma normalize_idem r : normalize (normalize r) = normalize r.
Proof.
  destruct r as [[[? ? ? ?]|] ? ? [] ? ? ? ? ? [? ?] [? ?]]; unfold normalize, normalize_crop;
    cbn -[canonical_zero]; by rewrite !canonical_zero_idem.
Qed.
Lemma normalize_in_bounds r : in_bounds r -> in_bounds (normalize r).
Proof.
  intros (? & ? & ? & ? & ? & ? & ? & ? & ? & ? & ? & Hw & Hc).
  unfold in_bounds, normalize. cbn -[canonical_zero Z.mul f32_unit Z.opp].
  do 11 (split; [by apply within_canonical_zero|]). split.
  - destruct (white_balance r); [done|]. destruct Hw as [? ?]. split; auto with recipe.
  - destruct (crop r) as [[? ? ? ?]|]; [|done]. cbn -[canonical_zero f32_unit] in *.
    rewrite !canonical_zero_ordinal. destruct Hc as (? & ? & ? & ? & ?). auto 10 with recipe.
Qed.

(** The group whose settings include a field determines it. *)
Lemma group_settings_ext r r' : (forall g, group_settings g r = group_settings g r') -> r = r'.
Proof.
  intros H.
  pose proof (H Geometry) as H1. pose proof (H Exposure) as H2. pose proof (H GWhiteBalance) as H3.
  pose proof (H Tone) as H4. pose proof (H Color) as H5. pose proof (H GSharpening) as H6.
  pose proof (H GNoiseReduction) as H7. clear H.
  destruct r as [? ? ? ? ? ? ? ? ? [? ?] [? ?]], r' as [? ? ? ? ? ? ? ? ? [? ?] [? ?]].
  cbn in *. congruence.
Qed.

Lemma copy_group_settings s t g h :
  group_settings h (copy_group s t g) = group_settings h (if decide (h = g) then s else t).
Proof. destruct g, h; reflexivity. Qed.

Lemma copy_groups_settings s gs : forall t h,
  group_settings h (foldl (copy_group s) t gs) = group_settings h (if decide (h ∈ gs) then s else t).
Proof.
  induction gs as [|g gs IH]; intros t h; [done|]. cbn [foldl]. rewrite IH.
  destruct (decide (h ∈ gs)) as [Hin|Hin].
  - rewrite decide_True by (by right). done.
  - rewrite copy_group_settings. destruct (decide (h = g)) as [->|Hne].
    + rewrite decide_True by left. done.
    + rewrite decide_False; [done|]. by intros [->|?]%elem_of_cons.
Qed.

Lemma group_settings_normalize h r r' :
  group_settings h r = group_settings h r' ->
  group_settings h (normalize r) = group_settings h (normalize r').
Proof. destruct h; cbn -[canonical_zero]; congruence. Qed.

(** The bounds of a recipe are the bounds of its groups. *)
Lemma in_bounds_groups r :
  in_bounds r <-> forall g, exists r', in_bounds r' /\ group_settings g r = group_settings g r'.
Proof.
  split; [eauto|]. intros H.
  destruct (H Geometry) as (r1 & B1 & [=]), (H Exposure) as (r2 & B2 & [=]),
    (H GWhiteBalance) as (r3 & B3 & [=]), (H Tone) as (r4 & B4 & [=]), (H Color) as (r5 & B5 & [=]),
    (H GSharpening) as (r6 & B6 & [=]), (H GNoiseReduction) as (r7 & B7 & [=]). clear H.
  unfold in_bounds in *.
  repeat match goal with E : _ _ = _ _ |- _ => rewrite E; clear E end.
  repeat match goal with E : _ (_ r) = _ (_ _) |- _ => rewrite E; clear E end.
  intuition auto.
Qed.

Lemma in_bounds_copy s t gs :
  in_bounds s -> in_bounds t -> in_bounds (foldl (copy_group s) t gs).
Proof.
  intros Hs Ht. apply in_bounds_groups. intros g. rewrite copy_groups_settings.
  destruct (decide (g ∈ gs)); eauto.
Qed.

Section Codec.
Context {CODEC : RecipeCodec}.

Lemma validate_Ok r v :
  validate (V1 r) = Ok v <->
  in_bounds r /\ recipe v = V1 (normalize r) /\
  to_vec (V1 (normalize r)) = Ok (canonical_bytes v) /\ digest v = blake3_hex (canonical_bytes v).
Proof.
  unfold validate. rewrite rbind_Ok. split.
  - intros (r' & [Hb ->]%checked_settings_Ok & H).
    destruct (to_vec (V1 (normalize r))) as [c|] eqn:Hc; [|done]. injection H as <-. auto.
  - intros (Hb & Hr & Hc & Hd). exists (normalize r).
    split; [by apply checked_settings_Ok|]. rewrite Hc. destruct v; cbn in *. congruence.
Qed.

Lemma validate_again r v : validate r = Ok v -> validate (recipe v) = Ok v.
Proof.
  destruct r as [r]. intros (Hb & Hr & Hc & Hd)%validate_Ok. rewrite Hr. apply validate_Ok.
  rewrite normalize_idem. auto using normalize_in_bounds.
Qed.

Lemma validate_ok_iff :
  (forall r, is_ok (to_vec r) = true) -> forall r, is_ok (validate (V1 r)) = true <-> in_bounds r.
Proof.
  intros Hser r. split.
  - destruct (validate (V1 r)) as [v|] eqn:Hv; [|done]. by apply validate_Ok in Hv as [? _].
  - intros Hb. specialize (Hser (V1 (normalize r))).
    destruct (to_vec (V1 (normalize r))) as [c|] eqn:Hc; [|done].
    by rewrite (proj2 (validate_Ok r (mkValidatedRecipe (V1 (normalize r)) c (blake3_hex c)))).
Qed.

Lemma validate_settings r v : validate (V1 r) = Ok v -> settings v = normalize r.
Proof. intros (_ & Hr & _)%validate_Ok. unfold settings. by rewrite Hr. Qed.
End Codec.

(** Rounding a normalized edge is monotone, keeps it inside the image, and moves
    it by at most half a pixel. *)
Lemma f32_unit_pos : 0 < f32_unit.
Proof. vm_compute. reflexivity. Qed.

Lemma round_pixels_bounds x n :
  within 0 f32_unit x -> 0 <= n <= 40000 ->
  0 <= round_pixels x n <= n /\
  2 * ordinal x * n - f32_unit < 2 * f32_unit * round_pixels x n <= 2 * ordinal x * n + f32_unit.
Proof.
  intros [Hf Hx] Hn. unfold round_pixels. rewrite is_finite_not_nan by done.
  pose proof f32_unit_pos as HU. set (U := f32_unit) in *. set (a := 2 * ordinal x * n + U).
  assert (0 <= a) by (unfold a; nia).
  pose proof (Z.div_mod a (2 * U) ltac:(lia)) as Hdm. pose proof (Z.mod_pos_bound a (2 * U) ltac:(lia)) as Hm.
  set (q := a `div` (2 * U)) in *.
  assert (0 <= q) by (unfold q; apply Z.div_pos; lia).
  assert (a < 2 * U * (n + 1)) by (unfold a; nia).
  assert (q < n + 1) by (unfold q; apply Z.div_lt_upper_bound; lia).
  unfold u32_max. rewrite Z.min_r by lia. rewrite Z.max_r by lia.
  split; [lia|]. set (m := a mod (2 * U)) in *. clearbody m q. unfold a in Hdm. lia.
Qed.

Lemma round_pixels_mono x y n :
  within 0 f32_unit x -> within 0 f32_unit y -> ordinal x <= ordinal y -> 0 <= n <= 40000 ->
  round_pixels x n <= round_pixels y n.
Proof.
  intros [Hx _] [Hy _] Hxy Hn. unfold round_pixels. rewrite !is_finite_not_nan by done.
  apply Z.max_le_compat_l, Z.min_le_compat_l, Z.div_le_mono; [pose proof f32_unit_pos; lia|nia].
Qed.

Lemma crop_extent x y n :
  within 0 f32_unit x -> within 0 f32_unit y -> ordinal x < ordinal y -> 0 <= n <= 40000 ->
  exists d, u32_sub (round_pixels y n) (round_pixels x n) = Some d /\
    (d = round_pixels y n - round_pixels x n /\ 0 <= d <= n) /\
    Z.abs (f32_unit * d - (ordinal y - ordinal x) * n) <= f32_unit.
Proof.
  intros Hx Hy Hxy Hn. exists (round_pixels y n - round_pixels x n).
  pose proof (round_pixels_mono x y n Hx Hy ltac:(lia) Hn).
  pose proof (round_pixels_bounds x n Hx Hn) as [? ?].
  pose proof (round_pixels_bounds y n Hy Hn) as [? ?].
  unfold u32_sub. rewrite (proj2 (Z.leb_le _ _)) by done. split; [done|]. split; lia.
Qed.

(** ** A concrete codec, for the witnesses *)

Definition le32 (x : Z) : bytes :=
  [Z.land x 255; Z.land (Z.shiftr x 8) 255; Z.land (Z.shiftr x 16) 255; Z.land (Z.shiftr x 24) 255].
Definition de32 (b : bytes) : option (Z * bytes) :=
  match b with
  | b0 :: b1 :: b2 :: b3 :: rest => Some (b0 + 256 * b1 + 65536 * b2 + 16777216 * b3, rest)
  | _ => None
  end.
Definition demo_fields (r : RecipeV1) : list Z :=
  [straighten_degrees r; exposure_ev r; contrast r; highlights r; shadows r; saturation r; vibrance r;
   amount (sharpening r); radius_px (sharpening r); luminance (noise_reduction r);
   chroma (noise_reduction r)]
  ++ match white_balance r with AsShot => [0; 0; 0] | TemperatureTint k t => [1; k; t] end
  ++ match crop r with None => [0; 0; 0; 0; 0] | Some c => [1; left c; top c; right c; bottom c] end.
Fixpoint de32s (n : nat) (b : bytes) : option (list Z) :=
  match n with
  | O => match b with [] => Some [] | _ => None end
  | S n => match de32 b with
           | Some (x, rest) => cons x <$> de32s n rest
           | None => None
           end
  end.
Definition demo_from_slice (b : bytes) : result string Recipe :=
  match de32s 19 b with
  | Some [a0; a1; a2; a3; a4; a5; a6; a7; a8; a9; a10; w; k; t; c; l; u; r; d] =>
      Ok (V1 (mkRecipeV1 (if c =? 1 then Some (mkNormalizedRect l u r d) else None) a0 a1
        (if w =? 1 then TemperatureTint k t else AsShot) a2 a3 a4 a5 a6
        (mkSharpening a7 a8) (mkNoiseReduction a9 a10)))
  | _ => Err "expected a recipe"
  end.
Definition demo_hash (b : bytes) : string :=
  let c := Ascii.ascii_of_N (Z.to_N (65 + foldr (fun x acc => (31 * acc + x) mod 26) 0 b)) in
  String.string_of_list_ascii (repeat c 64).
Definition demo_codec : RecipeCodec := {|
  to_vec r := match r with V1 r => Ok (flat_map le32 (demo_fields r)) end;
  from_slice := demo_from_slice;
  blake3_hex := demo_hash;
|}.

(** -0.0 exposure, 5500 K with a tint of 2.0, the right half of the frame. *)
Definition demo_settings : RecipeV1 :=
  mkRecipeV1 (Some (mkNormalizedRect 0x3F000000 f32_0 f32_1 f32_1)) f32_0 0x80000000
    (TemperatureTint 5500 f32_2) f32_1 f32_m1 f32_0 f32_0 f32_0
    (mkSharpening f32_1 f32_2) (mkNoiseReduction f32_0 f32_1).
Definition demo_validated : ValidatedRecipe :=
  mkValidatedRecipe (V1 (normalize demo_settings))
    (flat_map le32 (demo_fields (normalize demo_settings)))
    (demo_hash (flat_map le32 (demo_fields (normalize demo_settings)))).
#[local] Existing Instance demo_codec.

Example demo_validate : validate (V1 demo_settings) = Ok demo_validated.
Proof. vm_compute. reflexivity. Qed.
Example demo_nan_refused :
  validate (V1 (mkRecipeV1 None 0x7FC00000 f32_0 AsShot f32_0 f32_0 f32_0 f32_0 f32_0
    (mkSharpening f32_0 f32_1) (mkNoiseReduction f32_0 f32_0)))
  = Err (OutOfRange "straighten_degrees" f32_m45 f32_45).
Proof. vm_compute. reflexivity. Qed.
Example demo_crop_pixels : validate_dimensions demo_validated 4001 3001 = Some (Ok (2000, 3001)).
Proof. vm_compute. reflexivity. Qed.
Example default_in_bounds : is_ok (validate default_Recipe) = true.
Proof. vm_compute. reflexivity. Qed.

Lemma demo_in_bounds : in_bounds demo_settings.
Proof. exact (proj1 (proj1 (validate_Ok demo_settings demo_validated) demo_validate)). Qed.
Lemma default_settings_in_bounds : in_bounds default_RecipeV1.
Proof.
  assert (exists v, validate default_Recipe = Ok v) as [v Hv] by (vm_compute; eauto).
  exact (proj1 (proj1 (validate_Ok default_RecipeV1 v) Hv)).
Qed.

(** ** Theorems *)

Section Theorems.
Context {CODEC : RecipeCodec}.

(** C18. Validation accepts exactly the recipes whose settings are all finite
    and within the documented real ranges, with a crop of positive extent; what
    it returns is the same recipe with every zero in its one canonical form,
    its serialized document, and the digest of that document. *)
Theorem validate_spec r v :
  validate (V1 r) = Ok v <->
  in_bounds r /\ recipe v = V1 (normalize r) /\
  to_vec (V1 (normalize r)) = Ok (canonical_bytes v) /\ digest v = blake3_hex (canonical_bytes v).
Proof. apply validate_Ok. Qed.

(** Copying adjustment groups succeeds exactly when both recipes are
    valid, whatever the groups, and each group of the result is the source's
    when it was selected and the target's otherwise; so neither the order nor
    the repetition of the selected groups matters. *)
Theorem copy_groups_spec (Hser : forall r, is_ok (to_vec r) = true) t s gs :
  (is_ok (copy_groups_from (V1 t) (V1 s) gs) = true <-> in_bounds t /\ in_bounds s) /\
  forall v, copy_groups_from (V1 t) (V1 s) gs = Ok v ->
    validate (recipe v) = Ok v /\
    (forall g, group_settings g (settings v)
               = group_settings g (normalize (if decide (g ∈ gs) then s else t))) /\
    (forall gs', (forall g, g ∈ gs' <-> g ∈ gs) -> copy_groups_from (V1 t) (V1 s) gs' = Ok v).
Proof.
  unfold copy_groups_from.
  destruct (validate (V1 t)) as [vt|] eqn:Ht; cbn [rbind].
  2:{ split; [|done]. split; [done|]. intros [Hb _].
      apply (validate_ok_iff Hser) in Hb. by rewrite Ht in Hb. }
  destruct (validate (V1 s)) as [vs|] eqn:Hs; cbn [rbind].
  2:{ split; [|done]. split; [done|]. intros [_ Hb].
      apply (validate_ok_iff Hser) in Hb. by rewrite Hs in Hb. }
  rewrite (validate_settings _ _ Hs), (validate_settings _ _ Ht).
  assert (in_bounds t /\ in_bounds s) as [Hbt Hbs].
  { apply validate_Ok in Ht as [? _], Hs as [? _]. auto. }
  split.
  { rewrite (validate_ok_iff Hser). split; [auto|]. intros _. apply in_bounds_copy; by apply normalize_in_bounds. }
  intros v Hv. split; [by eapply validate_again|]. split.
  - intros g. rewrite (validate_settings _ _ Hv).
    rewrite (group_settings_normalize g _ _ (copy_groups_settings _ _ _ _)).
    destruct (decide (g ∈ gs)); by rewrite normalize_idem.
  - intros gs' Hgs. rewrite <-Hv. do 2 f_equal. apply group_settings_ext. intros g.
    rewrite !copy_groups_settings. by rewrite (decide_ext (g ∈ gs') (g ∈ gs)) by apply Hgs.
Qed.

(** On a validated recipe the pixel extent of the crop never underflows.
    When the source dimensions are accepted the extent is at least one pixel,
    at most the source, and within one pixel of the exact real extent; without
    a crop it is the source.  It is refused only for inadmissible dimensions or
    a crop whose opposite edges round to the same pixel. *)
Theorem dimensions_spec r v width height :
  validate r = Ok v -> 0 <= width -> 0 <= height ->
  match validate_dimensions v width height with
  | None => False
  | Some (Err _) =>
      width = 0 \/ height = 0 \/ 40000 < width \/ 40000 < height \/ 100000000 < width * height \/
      exists c, crop (settings v) = Some c /\
        (round_pixels (right c) width = round_pixels (left c) width \/
         round_pixels (bottom c) height = round_pixels (top c) height)
  | Some (Ok (w, h)) =>
      1 <= w <= width /\ 1 <= h <= height /\
      match crop (settings v) with
      | None => w = width /\ h = height
      | Some c =>
          Z.abs (f32_unit * w - (ordinal (right c) - ordinal (left c)) * width) <= f32_unit /\
          Z.abs (f32_unit * h - (ordinal (bottom c) - ordinal (top c)) * height) <= f32_unit
      end
  end.
Proof.
  intros Hv Hw Hh. destruct r as [r].
  assert (in_bounds (settings v)) as Hb.
  { rewrite (validate_settings _ _ Hv). apply normalize_in_bounds. by apply validate_Ok in Hv as [? _]. }
  unfold validate_dimensions.
  destruct (_ || _) eqn:Hd; [rewrite !orb_true_iff, !Z.eqb_eq, !Z.ltb_lt in Hd; tauto|].
  rewrite !orb_false_iff, !Z.eqb_neq, !Z.ltb_ge in Hd. destruct Hd as [[[[? ?] ?] ?] ?].
  destruct (crop (settings v)) as [c|] eqn:Hc; [|lia].
  do 12 (destruct Hb as [_ Hb]). rewrite Hc in Hb. destruct Hb as (Hl & Ht & Hr & Hbt & Hlr & Htb).
  destruct (crop_extent (left c) (right c) width) as (x & -> & Hx & Hxe); [done|done|lia|lia|].
  destruct (crop_extent (top c) (bottom c) height) as (y & -> & Hy & Hye); [done|done|lia|lia|].
  destruct (Z.eqb_spec x 0), (Z.eqb_spec y 0); cbn [orb].
  - do 5 right. exists c. split; [done|]. left. lia.
  - do 5 right. exists c. split; [done|]. left. lia.
  - do 5 right. exists c. split; [done|]. right. lia.
  - lia.
Qed.

End Theorems.

Lemma copy_groups_spec_witness :
  exists v, copy_groups_from (V1 default_RecipeV1) (V1 demo_settings) [Geometry; Tone] = Ok v /\
    group_settings Tone (settings v) = group_settings Tone (normalize demo_settings) /\
    group_settings Exposure (settings v) = group_settings Exposure (normalize default_RecipeV1).
Proof.
  assert (forall r, is_ok (to_vec r) = true) as Hser by (intros [?]; reflexivity).
  destruct (copy_groups_spec Hser default_RecipeV1 demo_settings [Geometry; Tone]) as [[_ H] Hv].
  specialize (H (conj default_settings_in_bounds demo_in_bounds)).
  destruct (copy_groups_from _ _ _) as [v|]; [|discriminate H].
  exists v. split; [reflexivity|]. destruct (Hv v eq_refl) as (_ & Hg & _).
  split; [apply (Hg Tone)|apply (Hg Exposure)].
Defined.

Lemma dimensions_spec_witness :
  match validate_dimensions demo_validated 4001 3001 with Some (Ok _) => True | _ => False end /\
  match validate_dimensions demo_validated 4001 3001 with
  | Some (Ok (w, h)) => 1 <= w <= 4001
  | _ => False
  end.
Proof.
  pose proof (dimensions_spec (V1 demo_settings) demo_validated 4001 3001 demo_validate
    ltac:(lia) ltac:(lia)) as H.
  split; [vm_compute; exact I|]. rewrite demo_crop_pixels in H |- *. destruct H as [H _]. exact H.
Defined.
