(* ===== verification/AdobeSettings.v ===== *)
(** The interpretation of retained Adobe settings: src/src/lightroom/adobe.rs
    without its XML reader.

    [blake3], the native [pc_temperature_xy], the length limit of the serialized
    result and the XML reader are parameters. *)
From stdpp Require Import base tactics option list numbers strings sets.
From Stdlib Require Import ZArith Lia.
From S2P Require Import Prelude Bytes Utf8 F64 Recipe AdobeData AdobeReader.

Open Scope Z_scope.
Local Open Scope prog_scope.

(** ** Data *)

(** @source src/src/lightroom/adobe.rs:62-65 Format *)
Inductive Format : Type := CrsXml | CatalogData.
(** @source src/src/lightroom/adobe.rs:68-72 SourceKind *)
Inductive SourceKind : Type := Raw | Raster | UnknownSource.
(** @source src/src/lightroom/adobe.rs:75-79 Association *)
Inductive Association : Type := Current | Historical | Unresolved.
#[export] Instance Format_eq_dec : EqDecision Format.
Proof. solve_decision. Defined.
#[export] Instance SourceKind_eq_dec : EqDecision SourceKind.
Proof. solve_decision. Defined.
#[export] Instance Association_eq_dec : EqDecision Association.
Proof. solve_decision. Defined.
(** @source src/src/lightroom/adobe.rs:93-105 Input *)
Record Input : Type := mkInput {
  source_id : list Z; input_revision : list Z; locator : list Z; payload_blake3 : list Z; payload_bytes : Z;
  format : Format; source_kind : SourceKind; association : Association; settings_path : list Key;
  as_shot_available : bool }.
(** The white point is a pair of [f64] bit patterns. *)
(** @source src/src/lightroom/adobe.rs:218-223 RecipeContribution *)
Record RecipeContribution : Type := mkContribution {
  c_exposure_ev : option f32; c_white_balance : option WhiteBalance; c_white_point_xy : option (Z * Z) }.
#[export] Instance RecipeContribution_eq_dec : EqDecision RecipeContribution.
Proof. solve_decision. Defined.
Definition no_contribution : RecipeContribution := mkContribution None None None.
(** @source src/src/lightroom/adobe.rs:240-249 Extraction *)
Record Extraction : Type := mkExtraction {
  x_input : Input; coordinate_space : string; x_properties : list Property; missing : list string;
  failure : option (FailureKind * string); contribution : RecipeContribution; adobe_rendering_equivalent : bool }.

(** @source src/src/lightroom/adobe.rs:13-59 BASIC_PROPERTIES *)
Definition BASIC_PROPERTIES : list string :=
  ["ProcessVersion"; "Version"; "HasSettings"; "HasCrop"; "CropLeft"; "CropTop"; "CropRight"; "CropBottom"; "CropAngle";
   "CropWidth"; "CropHeight"; "CropUnits"; "Exposure"; "Exposure2012"; "AutoExposure"; "WhiteBalance"; "Temperature";
   "Tint"; "IncrementalTemperature"; "IncrementalTint"; "Contrast"; "Contrast2012"; "AutoContrast"; "Highlights2012";
   "Shadows"; "Shadows2012"; "FillLight"; "HighlightRecovery"; "Brightness"; "AutoBrightness"; "AutoShadows";
   "Whites2012"; "Blacks2012"; "Saturation"; "Vibrance"; "Sharpness"; "SharpenRadius"; "SharpenDetail";
   "SharpenEdgeMasking"; "LuminanceSmoothing"; "ColorNoiseReduction"; "LuminanceNoiseReductionDetail";
   "LuminanceNoiseReductionContrast"; "ColorNoiseReductionDetail"; "ColorNoiseReductionSmoothness"]%string.
Definition CRS : list Z := ascii_bytes "http://ns.adobe.com/camera-raw-settings/1.0/".

(** ** Classification of one property *)

Definition is_name (n : list Z) (s : string) : bool := bool_decide (n = ascii_bytes s).
Definition one_of (n : list Z) (l : list string) : bool := existsb (is_name n) l.
(** @source src/src/lightroom/adobe.rs:368-377 eligible *)
Definition eligible (i : Input) (p : Property) : bool :=
  match format i with
  | CrsXml => bool_decide (namespace p = Some CRS) && (length (path p) =? 1)%nat
  | CatalogData =>
      bool_decide (namespace p = None) && (length (path p) =? length (settings_path i) + 1)%nat &&
      bool_decide (take (length (settings_path i)) (path p) = settings_path i)
  end.
(** The largest double, [f64::MAX]. *)
Definition f64_max : f64 := mkF64 false (Z.to_N ((2 ^ 53 - 1) * 2 ^ 971 * f64_unit)).
Definition f64_min : f64 := mkF64 true (Z.to_N ((2 ^ 53 - 1) * 2 ^ 971 * f64_unit)).
Definition f64_half : f64 := mkF64 false (Z.to_N (f64_unit / 2)).
(** @source src/src/lightroom/adobe.rs:378-416 numeric_spec *)
Definition numeric_spec (n : list Z) : option (f64 * f64 * bool) :=
  let z := f64_of_Z in
  if one_of n ["CropLeft"; "CropTop"; "CropRight"; "CropBottom"; "CropAngle"]%string then Some (f64_min, f64_max, false)
  else if one_of n ["CropWidth"; "CropHeight"]%string then Some (z 0, f64_max, false)
  else if is_name n "CropUnits" then Some (z 0, z 2, true)
  else if is_name n "Exposure" then Some (z (-4), z 4, false)
  else if is_name n "Exposure2012" then Some (z (-5), z 5, false)
  else if is_name n "Temperature" then Some (z 2000, z 50000, true)
  else if is_name n "Tint" then Some (z (-150), z 150, false)
  else if is_name n "Contrast" then Some (z (-50), z 100, false)
  else if is_name n "Brightness" then Some (z 0, z 150, false)
  else if one_of n ["Contrast2012"; "Highlights2012"; "Shadows2012"; "Whites2012"; "Blacks2012"; "Saturation"; "Vibrance";
                    "IncrementalTemperature"; "IncrementalTint"]%string then Some (z (-100), z 100, false)
  else if is_name n "Sharpness" then Some (z 0, z 150, false)
  else if is_name n "SharpenRadius" then Some (f64_half, z 3, false)
  else if one_of n ["Shadows"; "FillLight"; "HighlightRecovery"; "SharpenDetail"; "SharpenEdgeMasking"; "LuminanceSmoothing";
                    "ColorNoiseReduction"; "LuminanceNoiseReductionDetail"; "LuminanceNoiseReductionContrast";
                    "ColorNoiseReductionDetail"; "ColorNoiseReductionSmoothness"]%string then Some (z 0, z 100, false)
  else None.
Definition enables (n : list Z) : bool := starts_with (ascii_bytes "Enable") n.
(** @source src/src/lightroom/adobe.rs:417-428 boolean_spec *)
Definition boolean_spec (n : list Z) : bool :=
  enables n ||
  one_of n ["HasCrop"; "HasSettings"; "AutoExposure"; "AutoContrast"; "AutoBrightness"; "AutoShadows"]%string.
(** @source src/src/lightroom/adobe.rs:429-432 recipe_number *)
Definition recipe_number (v : f64) : option f32 :=
  match f64_to_f32 v with
  | Some t => if f64_is_zero v || negb (f32_eq t f32_0) then Some t else None
  | None => None
  end.

Definition set_value (v : Value) (p : Property) : Property :=
  mkProperty (path p) (namespace p) (name p) (lexical p) (start p) (stop p) v (disposition p) (reason p).
Definition mark (d : Disposition) (why : string) (p : Property) : Property :=
  mkProperty (path p) (namespace p) (name p) (lexical p) (start p) (stop p) (value p) d why.
Definition explain (why : string) (p : Property) : Property := mark (disposition p) why p.

(** A number in the unit domain of its property. *)
(** @source src/src/lightroom/adobe.rs:441-454 translate *)
Definition in_domain (i : Input) (p : Property) (spec : f64 * f64 * bool) (n : f64) : bool :=
  let '(min, max, integer) :=
    if is_name (name p) "Temperature" && negb (bool_decide (source_kind i = Raw)) then (f64_min, f64_max, false) else spec in
  f64_le min n && f64_le n max && (negb integer || f64_whole n).
(** @source src/src/lightroom/adobe.rs:447-451 translate *)
Definition number_of (i : Input) (v : Value) : option f64 :=
  match v with
  | Number n => Some n
  | Text s => if bool_decide (format i = CrsXml) then match number s with Ok n => Some n | Err _ => None end else None
  | _ => None
  end.
(** @source src/src/lightroom/adobe.rs:463-471 translate *)
Definition boolean_of (i : Input) (v : Value) : option bool :=
  match v with
  | Boolean b => Some b
  | Text s =>
      if bool_decide (format i = CrsXml) then
        if one_of s ["True"; "true"]%string then Some true
        else if one_of s ["False"; "false"]%string then Some false else None
      else None
  | _ => None
  end.
Definition is_text (v : Value) : bool := match v with Text _ => true | _ => false end.
(** @source src/src/lightroom/adobe.rs:435-486 translate *)
Definition classify (i : Input) (p : Property) : Property :=
  if negb (eligible i p) then p else
  match numeric_spec (name p) with
  | Some spec =>
      match number_of i (value p) with
      | Some n =>
          if in_domain i p spec n then set_value (Number n) p
          else mark Invalid "invalid numeric type, unit domain or finite range; exact source retained" p
      | None => mark Invalid "invalid numeric type, unit domain or finite range; exact source retained" p
      end
  | None =>
      if boolean_spec (name p) then
        match boolean_of i (value p) with
        | Some b => set_value (Boolean b) p
        | None => mark Invalid "expected an explicit boolean" p
        end
      else if one_of (name p) ["ProcessVersion"; "Version"; "WhiteBalance"]%string && negb (is_text (value p))
      then mark Invalid "expected text" p else p
  end.

(** ** The whole extraction *)

(** The entries of [by_name] under a name. *)
Definition named (i : Input) (ps : list Property) (n : list Z) : list Property :=
  List.filter (fun p => eligible i p && bool_decide (name p = n)) ps.
Definition contains (i : Input) (ps : list Property) (n : string) : bool :=
  negb (bool_decide (named i ps (ascii_bytes n) = [])).
(** @source src/src/lightroom/adobe.rs:487-492 translate *)
Definition mark_conflict (i : Input) (ps : list Property) (p : Property) : Property :=
  if eligible i p && (1 <? length (named i ps (name p)))%nat
  then mark Conflict "duplicate source property; no value selected" p else p.
(** @source src/src/lightroom/adobe.rs:498-508 translate *)
Definition value_named (i : Input) (ps : list Property) (n : list Z) : option Value :=
  match named i ps n with
  | [p] => if bool_decide (disposition p = RetainedOnly) then Some (value p) else None
  | _ => None
  end.
Definition value_of (i : Input) (ps : list Property) (n : string) : option Value := value_named i ps (ascii_bytes n).
(** @source src/src/lightroom/adobe.rs:522-525 translate *)
Definition numeric (i : Input) (ps : list Property) (n : string) : option f64 :=
  match value_of i ps n with Some (Number x) => Some x | _ => None end.
(** @source src/src/lightroom/adobe.rs:511-521 translate *)
Definition qualified (i : Input) (ps : list Property) : bool :=
  bool_decide (value_of i ps "ProcessVersion" = Some (Text (ascii_bytes "11.0"))) &&
  bool_decide (association i = Current) && negb (bool_decide (source_kind i = UnknownSource)) &&
  (forallb (fun p => negb (eligible i p && enables (name p)) ||
                     bool_decide (value_named i ps (name p) = Some (Boolean true))) ps &&
   (negb (contains i ps "HasSettings") || bool_decide (value_of i ps "HasSettings" = Some (Boolean true)))).

Section Extract.
Context (pc_temperature_xy : Z -> f32 -> option (Z * Z)) (blake3_hex : list Z -> list Z)
  (json_fits : Extraction -> Z -> bool) (xml : list Z -> Limits -> result ReadError (list Property)).

(** The native routine's nonzero status is [None] here. *)
(** @source src/src/edit/color.rs:11-24 white_point *)
Definition white_point (w : WhiteBalance) : result string (option (Z * Z)) :=
  match w with
  | AsShot => Ok None
  | TemperatureTint kelvin tint =>
      match pc_temperature_xy kelvin tint with
      | Some xy => Ok (Some xy)
      | None => Err "invalid temperature/tint white point"%string
      end
  end.
(** @source src/src/lightroom/adobe.rs:529-538 translate *)
Definition exposure_mapping (i : Input) (ps : list Property) : option f32 :=
  if match value_of i ps "AutoExposure" with None | Some (Boolean false) => true | _ => false end &&
     negb (contains i ps "Exposure") &&
     negb (contains i ps "AutoExposure" && bool_decide (value_of i ps "AutoExposure" = None))
  then match numeric i ps "Exposure2012" with Some n => recipe_number n | None => None end
  else None.
(** @source src/src/lightroom/adobe.rs:539-571 translate *)
Definition balance_mapping (i : Input) (ps : list Property) : option (WhiteBalance * option (Z * Z)) :=
  if bool_decide (source_kind i = Raw) && negb (contains i ps "IncrementalTemperature") &&
     negb (contains i ps "IncrementalTint")
  then match value_of i ps "WhiteBalance" with
       | Some (Text mode) =>
           if is_name mode "Custom" then
             match numeric i ps "Temperature", match numeric i ps "Tint" with Some n => recipe_number n | None => None end with
             | Some k, Some tint =>
                 let wb := TemperatureTint (f64_as_u32 k) tint in
                 match white_point wb with Ok (Some xy) => Some (wb, Some xy) | _ => None end
             | _, _ => None
             end
           else if is_name mode "As Shot" && as_shot_available i && negb (contains i ps "Temperature") &&
                   negb (contains i ps "Tint")
           then Some (AsShot, None)
           else None
       | _ => None
       end
  else None.
(** The contribution, and the names of the properties it is made of. *)
(** @source src/src/lightroom/adobe.rs:526-572 translate *)
Definition contribute (i : Input) (ps : list Property) : RecipeContribution * list string :=
  if negb (qualified i ps) then (no_contribution, []) else
  let ev := exposure_mapping i ps in
  let wb := balance_mapping i ps in
  (mkContribution ev (fst <$> wb) (match wb with Some (_, xy) => xy | None => None end),
   (if bool_decide (is_Some ev) then ["Exposure2012"%string] else []) ++
   match wb with
   | Some (AsShot, _) => ["WhiteBalance"%string]
   | Some (TemperatureTint _ _, _) => ["WhiteBalance"; "Temperature"; "Tint"]%string
   | None => []
   end).
(** @source src/src/lightroom/adobe.rs:573-587 translate *)
Definition conclude (i : Input) (mapped : list string) (known : bool) (p : Property) : Property :=
  if negb (eligible i p) || negb (bool_decide (disposition p = RetainedOnly)) then p else
  if one_of (name p) mapped then
    mark MappedParameter
      "validated numeric parameter mapping; native rendering is not Adobe rendering equivalence" p
  else if negb known then
    explain "source version, kind, current-state association or enable switches not qualified; retained without applying" p
  else if starts_with (ascii_bytes "Crop") (name p) || is_name (name p) "HasCrop" then
    explain "crop orientation, center, angle and canvas convention require coordinate reference proof" p
  else if one_of (name p) BASIC_PROPERTIES then
    explain "retained: control dependencies, units or processing semantics are not qualified for application" p
  else p.
(** @source src/src/lightroom/adobe.rs:433-588 translate *)
Definition translate (r : Extraction) : Extraction :=
  let i := x_input r in
  let ps := map (classify i) (x_properties r) in
  let ps := map (mark_conflict i ps) ps in
  let absent := List.filter (fun n => negb (contains i ps n)) BASIC_PROPERTIES in
  let c := contribute i ps in
  mkExtraction i (coordinate_space r) (map (conclude i c.2 (qualified i ps)) ps) absent (failure r) c.1
    (adobe_rendering_equivalent r).

(** @source src/src/lightroom/adobe.rs:252-262 retained_failure *)
Definition retained_failure (i : Input) (f : FailureKind * string) : Extraction :=
  mkExtraction i "not_parsed" [] [] (Some f) no_contribution false.
(** @source src/src/lightroom/adobe.rs:263-292 validate_input *)
Definition validate_input (i : Input) : result string unit :=
  let? _ := rensure (forallb (fun s => negb (bool_decide (s = [])) && (zlen s <=? 4096) && negb (existsb (Z.eqb 0) s))
                       [source_id i; input_revision i; locator i])
              "missing or oversized retained Adobe source identity"%string in
  let? _ := rensure ((zlen (payload_blake3 i) =? 64) &&
                     forallb (fun b => is_hexdigit b && negb ((65 <=? b) && (b <=? 90))) (payload_blake3 i))
              "invalid payload BLAKE3"%string in
  let? _ := rensure ((zlen (settings_path i) <=? 32) &&
                     forallb (fun k => match k with
                                       | Index _ => true
                                       | Name s => negb (bool_decide (s = [])) && (zlen s <=? 1024)
                                       | Xml _ _ _ => false
                                       end) (settings_path i))
              "invalid catalog settings path"%string in
  rensure (negb (bool_decide (format i = CrsXml)) || bool_decide (settings_path i = []))
    "XML has no catalog settings path"%string.

(** A panic or missing fuel of the reader is an outcome of its own. *)
Inductive ExtractError : Type := Refusal (message : string) | ReaderPanic.
Definition refuse {A} (r : result string A) : result ExtractError A :=
  match r with Ok a => Ok a | Err m => Err (Refusal m) end.
(** @source src/src/lightroom/adobe.rs:335-338 extract *)
Definition read_properties (b : list Z) (i : Input) (limits : Limits) : result ReadError (list Property) :=
  match format i with
  | CatalogData => let? d := parse b limits in Ok (properties d)
  | CrsXml => xml b limits
  end.
(** @source src/src/lightroom/adobe.rs:316-367 extract *)
Definition extract (b : list Z) (i : Input) (limits : Limits) : result ExtractError Extraction :=
  let? _ := refuse (rensure (limits_valid limits) "Adobe limits must be positive and within hard ceilings"%string) in
  let? _ := refuse (validate_input i) in
  let? _ := refuse (rensure (zlen b =? payload_bytes i) "Adobe payload length mismatch"%string) in
  if bytes limits <? zlen b then
    Ok (retained_failure i (ResourceLimit,
      "payload exceeds extraction byte limit; external reference retained, digest not rechecked"%string))
  else
    let? _ := refuse (rensure (bool_decide (blake3_hex b = payload_blake3 i)) "Adobe payload digest mismatch"%string) in
    match read_properties b i limits with
    | Err (Failure k m) => Ok (retained_failure i (k, m))
    | Err _ => Err ReaderPanic
    | Ok ps =>
        let r := translate (mkExtraction i
          (if bool_decide (format i = CrsXml) then "decoded_xml_utf8" else "original_utf8") ps [] None no_contribution false) in
        if json_fits r (output_bytes limits) then Ok r
        else Ok (retained_failure i (ResourceLimit,
          "extraction output exceeds limit; all original data remains externally retained"%string))
    end.
End Extract.

(** @source src/src/lightroom/adobe.rs:296-313 catalog_settings_path *)
Definition catalog_settings_path (b : list Z) (limits : Limits) : result string (result ReadError (list Key)) :=
  let? _ := rensure (limits_valid limits) "Adobe limits must be positive and within hard ceilings"%string in
  if bytes limits <? zlen b then Ok (Err (limit "catalog container byte limit")) else
  Ok (match parse b limits with
      | Err e => Err e
      | Ok d =>
          match root d with
          | Bare | Return => Ok []
          | Assignment n =>
              if is_name n "s" then Ok [Name n]
              else Err (conflict "unqualified catalog outer assignment; original data retained")
          end
      end).

(** @source src/src/lightroom/adobe.rs:226-237 RecipeContribution::apply_to *)
Definition apply_to {CODEC : RecipeCodec} (c : RecipeContribution) (target : Recipe) : result RecipeError ValidatedRecipe :=
  let? _ := validate target in
  match target with
  | V1 v =>
      let v := match c_exposure_ev c with
               | Some ev => mkRecipeV1 (crop v) (straighten_degrees v) ev (white_balance v) (contrast v) (highlights v)
                   (shadows v) (saturation v) (vibrance v) (sharpening v) (noise_reduction v)
               | None => v
               end in
      let v := match c_white_balance c with
               | Some wb => mkRecipeV1 (crop v) (straighten_degrees v) (exposure_ev v) wb (contrast v) (highlights v)
                   (shadows v) (saturation v) (vibrance v) (sharpening v) (noise_reduction v)
               | None => v
               end in
      validate (V1 v)
  end.
