(* ===== verification/AdobeMapping.v ===== *)
(** What the interpretation of retained Adobe settings promises: the rounding of a
    double to a recipe's single, the evidence behind each mapped value, and the
    fit of the mapped values into a recipe. *)
From stdpp Require Import base tactics option list numbers strings sets.
From Stdlib Require Import ZArith Lia.
From S2P Require Import Prelude Bytes Utf8 F64 Recipe AdobeData AdobeReader AdobeSettings.

Open Scope Z_scope.
Local Open Scope prog_scope.

(** ** Singles from doubles *)

Lemma f32_fields (neg : bool) e fr :
  0 <= e < 256 -> 0 <= fr < 2 ^ 23 ->
  let x := (if neg then 2 ^ 31 else 0) + (e * 2 ^ 23 + fr) in
  f32_negative x = neg /\ f32_exponent x = e /\ f32_fraction x = fr.
Proof.
  intros He Hf x. unfold f32_negative, f32_exponent, f32_fraction.
  change 255 with (Z.ones 8). change (2 ^ 23 - 1) with (Z.ones 23).
  rewrite !Z.land_ones, Z.shiftr_div_pow2, Z.testbit_eqb by lia. subst x.
  change (2 ^ 31) with 2147483648. change (2 ^ 23) with 8388608 in *. change (2 ^ 8) with 256.
  destruct neg; split_and!; try (apply Z.eqb_eq || apply Z.eqb_neq); Z.to_euclidean_division_equations; lia.
Qed.
Lemma nearest_le num ulp c : 0 < ulp -> (ulp | c) -> num <= c -> nearest num 1 ulp <= c.
Proof.
  intros Hu [k ->] Hn. unfold nearest. rewrite Z.mul_1_l. pose proof (Z.div_mod num ulp ltac:(lia)) as Hdm.
  pose proof (Z.mod_pos_bound num ulp Hu) as Hm. apply Z.mul_le_mono_nonneg_r; [lia|].
  destruct ((_ <? _) || _) eqn:Hup; [|nia].
  assert (0 < num mod ulp) by (apply orb_true_iff in Hup as [?%Z.ltb_lt|[?%Z.eqb_eq ?]%andb_true_iff]; lia). nia.
Qed.
Lemma nearest_ge num ulp : 0 < ulp -> num / ulp * ulp <= nearest num 1 ulp.
Proof. intros Hu. unfold nearest. rewrite Z.mul_1_l. destruct (_ || _); nia. Qed.
Lemma nearest_divide num ulp : (ulp | nearest num 1 ulp).
Proof. eexists. reflexivity. Qed.

#[local] Transparent is_finite.
(** The bit pattern made of a magnitude that a single holds exactly. *)
Lemma f32_pattern (neg : bool) m :
  0 <= m < 2 ^ 277 -> (2 ^ 24 <= m -> (2 ^ (Z.log2 m - 23) | m)) ->
  let x := (if neg then 2 ^ 31 else 0) +
    (if m <? 2 ^ 24 then m else Z.shiftl (Z.log2 m - 23) 23 + Z.shiftr m (Z.log2 m - 23)) in
  is_finite x = true /\ f32_negative x = neg /\ magnitude x = m.
Proof.
  intros Hm Hd. destruct (Z.ltb_spec m (2 ^ 24)) as [Hlt|Hge]; intros x.
  - pose proof (f32_fields neg (m / 2 ^ 23) (m mod 2 ^ 23)) as H.
    rewrite (Z.mul_comm (m / _)), <- (Z.div_mod m (2 ^ 23)) in H by done.
    assert (0 <= m / 2 ^ 23 < 2) as Hq.
    { split; [apply Z.div_pos; lia|]. apply Z.div_lt_upper_bound; [done|]. exact Hlt. }
    destruct H as (Hn & He & Hf); [lia|by apply Z.mod_pos_bound|]. fold x in Hn, He, Hf.
    unfold is_finite, magnitude. rewrite Hn, He, Hf.
    pose proof (Z.div_mod m (2 ^ 23) ltac:(done)) as Hdm.
    destruct (Z.eqb_spec (m / 2 ^ 23) 255); [lia|]. split_and!; [done..|].
    destruct (Z.eqb_spec (m / 2 ^ 23) 0) as [Hz|]; [lia|]. replace (m / 2 ^ 23) with 1 in * by lia. cbn -[Z.pow]. lia.
  - set (e := Z.log2 m - 23) in *. assert (24 <= Z.log2 m) as Hl by (apply Z.log2_le_pow2; lia).
    assert (Z.log2 m < 277) as Hh by (apply Z.log2_lt_pow2; lia).
    destruct (Hd Hge) as [k Hk]. assert (0 < 2 ^ e) as Hpos by (apply Z.pow_pos_nonneg; lia).
    pose proof (Z.log2_spec m ltac:(lia)) as [H1 H2].
    rewrite <- Z.add_1_r in H2. replace (Z.log2 m) with (23 + e) in H1 by lia.
    replace (Z.log2 m + 1) with (24 + e) in H2 by lia. rewrite Z.pow_add_r in H1, H2 by lia.
    assert (2 ^ 23 <= k < 2 ^ 24) as Hkb by nia.
    assert (x = (if neg then 2 ^ 31 else 0) + ((e + 1) * 2 ^ 23 + (k - 2 ^ 23))) as Hx.
    { subst x. f_equal. rewrite Z.shiftl_mul_pow2, Z.shiftr_div_pow2 by lia.
      rewrite Hk at 1. rewrite Z.div_mul by lia. lia. }
    destruct (f32_fields neg (e + 1) (k - 2 ^ 23)) as (Hn & He & Hf); [lia|change (2 ^ 24) with (2 * 2 ^ 23) in Hkb; lia|].
    rewrite <- Hx in Hn, He, Hf. unfold is_finite, magnitude. rewrite Hn, He, Hf.
    destruct (Z.eqb_spec (e + 1) 255); [lia|]. split_and!; [done..|].
    destruct (Z.eqb_spec (e + 1) 0); [lia|]. replace (e + 1 - 1) with e by lia. lia.
Qed.
#[local] Opaque is_finite.
#[local] Transparent ordinal f32_unit.

(** Rounding to 24 bits keeps what lies within a bound that a single holds. *)
Lemma round_to_single m c :
  0 <= m <= c * 2 ^ 1074 -> 1 <= c < 2 ^ 20 ->
  let u := 2 ^ (1074 - 149) in
  exists r, round_to 24 u m 1 = r * u /\ 0 <= r <= c * 2 ^ 149 /\ (2 ^ 24 <= r -> (2 ^ (Z.log2 r - 23) | r)).
Proof.
  intros Hm Hc u. unfold round_to. rewrite Z.div_1_r.
  set (ulp := Z.max u (2 ^ (Z.log2 m + 1 - 24))).
  assert (exists a, 925 <= a <= 1074 /\ ulp = 2 ^ a /\ (925 < a -> a = Z.log2 m - 23) /\ m < 2 ^ (a + 24)) as (a & Ha & Hu & Hlog & Hlt).
  { assert (Z.log2 m <= 1094) as Hl1.
    { destruct (Z.eq_dec m 0) as [->|]; [done|]. apply Z.lt_succ_r. apply Z.log2_lt_pow2; [lia|].
      apply Z.le_lt_trans with (c * 2 ^ 1074); [lia|]. change (2 ^ (Z.succ 1094)) with (2 ^ 21 * 2 ^ 1074).
      apply Z.mul_lt_mono_pos_r; [done|]. change (2 ^ 20) with 1048576 in Hc. change (2 ^ 21) with 2097152. lia. }
    assert (m < 2 ^ (Z.log2 m + 1)) as Hs.
    { destruct (Z.eq_dec m 0) as [->|]; [done|]. apply Z.log2_lt_pow2; lia. }
    destruct (Z.le_gt_cases (Z.log2 m - 23) 925).
    - exists 925. split_and!; [lia..| |lia|].
      + subst ulp u. apply Z.max_l. apply Z.pow_le_mono_r; lia.
      + eapply Z.lt_le_trans; [exact Hs|]. apply Z.pow_le_mono_r; lia.
    - exists (Z.log2 m - 23). split_and!; [lia..| |done|].
      + subst ulp u. replace (Z.log2 m + 1 - 24) with (Z.log2 m - 23) by lia. apply Z.max_r. apply Z.pow_le_mono_r; lia.
      + replace (Z.log2 m - 23 + 24) with (Z.log2 m + 1) by lia. done. }
  clearbody ulp. subst ulp. assert (0 < 2 ^ a) as Hpos by (apply Z.pow_pos_nonneg; lia).
  assert (u = 2 ^ 925) as -> by done.
  assert (2 ^ a = 2 ^ (a - 925) * 2 ^ 925) as Hsplit by (rewrite <- Z.pow_add_r by lia; f_equal; lia).
  destruct (nearest_divide m (2 ^ a)) as [k Hk].
  pose proof (nearest_ge m (2 ^ a) Hpos) as Hge.
  pose proof (nearest_le m (2 ^ a) (2 ^ (a + 24)) Hpos) as Hle24. rewrite Z.pow_add_r in Hle24, Hlt by lia.
  specialize (Hle24 ltac:(by exists (2 ^ 24); rewrite Z.mul_comm) ltac:(lia)).
  assert (nearest m 1 (2 ^ a) <= c * 2 ^ 1074) as Hle.
  { apply nearest_le; [done| |lia]. exists (c * 2 ^ (1074 - a)). rewrite <- Z.mul_assoc, <- Z.pow_add_r by lia.
    do 2 f_equal. lia. }
  assert (0 <= m / 2 ^ a) as Hq by (apply Z.div_pos; lia).
  assert (0 <= k <= 2 ^ 24) as Hkb by nia.
  exists (k * 2 ^ (a - 925)). split_and!.
  - rewrite Hk, Hsplit. lia.
  - assert (0 < 2 ^ (a - 925)) by (apply Z.pow_pos_nonneg; lia). nia.
  - rewrite Hk, Hsplit in Hle. change (2 ^ 1074) with (2 ^ 149 * 2 ^ 925) in Hle.
    rewrite !Z.mul_assoc in Hle. apply Z.mul_le_mono_pos_r in Hle; [done|done].
  - intros Hr. set (b := a - 925) in *. assert (2 ^ 23 <= k) as Hk23.
    { destruct (Z.eq_dec a 925) as [->|].
      - subst b. change (2 ^ (925 - 925)) with 1 in Hr. rewrite Z.mul_1_r in Hr. etrans; [|exact Hr]. done.
      - assert (2 ^ 23 <= m / 2 ^ a); [|nia]. apply Z.div_le_lower_bound; [done|].
        rewrite <- Z.pow_add_r by lia. replace (a + 23) with (Z.log2 m) by lia. apply Z.log2_spec.
        destruct (Z.eq_dec m 0) as [->|]; [|lia]. change (Z.log2 0) with 0 in *. lia. }
    assert (0 < k) as Hk0 by (eapply Z.lt_le_trans; [|exact Hk23]; done).
    rewrite Z.log2_mul_pow2 by lia. destruct (Z.eq_dec k (2 ^ 24)) as [->|Hne].
    + change (Z.log2 (2 ^ 24)) with 24. replace (b + 24 - 23) with (b + 1) by lia.
      exists (2 ^ 23). rewrite <- !Z.pow_add_r by lia. f_equal. lia.
    + replace (Z.log2 k) with 23; [replace (b + 23 - 23) with b by lia; by exists k|].
      symmetry. apply Z.log2_unique; [lia|]. change (2 ^ Z.succ 23) with (2 ^ 24). lia.
Qed.
(** The single made of a double between [-c] and [c] lies there, too. *)
Lemma f64_to_f32_within x y c :
  f64_to_f32 x = Some y -> 1 <= c < 2 ^ 20 -> - c * f64_unit <= f64_ordinal x <= c * f64_unit ->
  within (- c * f32_unit) (c * f32_unit) y.
Proof.
  intros Hx Hc Hb. assert (0 <= f64_magnitude x <= c * 2 ^ 1074) as Hm.
  { unfold f64_ordinal, f64_unit in Hb. assert (0 <= f64_magnitude x) by (unfold f64_magnitude; lia).
    destruct (f64_negative x); lia. }
  destruct (round_to_single _ _ Hm Hc) as (r & Hr & Hrb & Hd). unfold f64_to_f32 in Hx. rewrite Hr in Hx.
  rewrite Z.div_mul in Hx by done. destruct (Z.leb_spec (2 ^ (128 + 149)) r) as [|Hlt]; [done|].
  destruct (f32_pattern (f64_negative x) r) as (Hf & Hn & Hmag); [change (128 + 149) with 277 in Hlt; lia|done|].
  assert (y = (if f64_negative x then 2 ^ 31 else 0) +
    (if r <? 2 ^ 24 then r else Z.shiftl (Z.log2 r - 23) 23 + Z.shiftr r (Z.log2 r - 23))) as ->.
  { destruct (r <? 2 ^ 24); by injection Hx as <-. }
  split; [done|]. unfold ordinal, f32_unit. rewrite Hn, Hmag. destruct (f64_negative x); lia.
Qed.
#[local] Opaque ordinal f32_unit f64_unit.

(** ** The passes over the properties *)

(** What identifies a property and where it comes from. *)
Definition origin (p : Property) : list Key * option (list Z) * list Z * list Z * Z * Z :=
  (path p, namespace p, name p, lexical p, start p, stop p).
(** A pass that only judges. *)
Definition judges (f : Property -> Property) : Prop := forall p, origin (f p) = origin p.

Lemma classify_judges i : judges (classify i).
Proof. intros p. unfold classify. by repeat case_match. Qed.
Lemma mark_conflict_judges i ps : judges (mark_conflict i ps).
Proof. intros p. unfold mark_conflict. by repeat case_match. Qed.
Lemma conclude_judges i mapped known : judges (conclude i mapped known).
Proof. intros p. unfold conclude. by repeat case_match. Qed.
#[local] Hint Resolve classify_judges mark_conflict_judges conclude_judges : core.

(** What a value may become: it stays what was read, but for the text of an XML
    attribute of the settings, which is read as the number or the boolean it spells
    where its name calls for one. *)
Definition value_kept (i : Input) (p : Property) (v : Value) : Prop :=
  v = value p \/
  (format i = CrsXml /\ eligible i p = true /\ exists s, value p = Text s /\
    match v with
    | Number n => numeric_spec (name p) <> None /\ number s = Ok n
    | Boolean b => numeric_spec (name p) = None /\ boolean_spec (name p) = true /\
        s ∈ map ascii_bytes (if b then ["True"; "true"] else ["False"; "false"])%string
    | _ => False
    end).
Lemma one_of_elem s l : one_of s l = true -> s ∈ map ascii_bytes l.
Proof.
  intros (n & Hn & H%bool_decide_eq_true)%existsb_exists. subst s. by apply list_elem_of_In, in_map.
Qed.
Lemma number_of_kept i p n :
  eligible i p = true -> numeric_spec (name p) <> None -> number_of i (value p) = Some n -> value_kept i p (Number n).
Proof.
  intros He Hs Hn. unfold number_of in Hn. destruct (value p) as [m| |s| |] eqn:Hv; try done.
  - left. by injection Hn as ->.
  - case_bool_decide; [|done]. right. split_and!; [done..|]. exists s. split_and!; [done..|].
    destruct (number s); [|done]. by injection Hn as ->.
Qed.
Lemma boolean_of_kept i p b :
  eligible i p = true -> numeric_spec (name p) = None -> boolean_spec (name p) = true ->
  boolean_of i (value p) = Some b -> value_kept i p (Boolean b).
Proof.
  intros He Hs Hb Hn. unfold boolean_of in Hn. destruct (value p) as [|c|s| |] eqn:Hv; try done.
  - left. by injection Hn as ->.
  - case_bool_decide; [|done]. right. split_and!; [done..|]. exists s. split_and!; [done..|].
    destruct (one_of s ["True"; "true"]%string) eqn:Ht; [injection Hn as <-; by apply one_of_elem|].
    destruct (one_of s ["False"; "false"]%string) eqn:Hf; [injection Hn as <-; by apply one_of_elem|done].
Qed.
Lemma classify_kept i p : value_kept i p (value (classify i p)).
Proof.
  unfold classify. destruct (eligible i p) eqn:He; [|by left]. cbn [negb].
  destruct (numeric_spec (name p)) as [spec|] eqn:Hs.
  - destruct (number_of i (value p)) as [n|] eqn:Hn; [|by left]. destruct (in_domain _ _ _ _); [|by left].
    apply number_of_kept; [done|congruence|done].
  - destruct (boolean_spec (name p)) eqn:Hb; [|destruct (_ && _); by left].
    destruct (boolean_of i (value p)) as [b|] eqn:Hn; [|by left]. by apply boolean_of_kept.
Qed.
Lemma mark_conflict_value i ps p : value (mark_conflict i ps p) = value p.
Proof. unfold mark_conflict. by destruct (_ && _). Qed.
Lemma conclude_value i mapped known p : value (conclude i mapped known p) = value p.
Proof. unfold conclude. by repeat case_match. Qed.

Lemma origin_eligible i p q : origin p = origin q -> eligible i p = eligible i q /\ name p = name q.
Proof. intros [= Hp Hn Hm _ _ _]. unfold eligible. by rewrite Hp, Hn, Hm. Qed.
Lemma named_map i f ps n : judges f -> named i (map f ps) n = map f (named i ps n).
Proof.
  intros Hf. unfold named. induction ps as [|p ps IH]; [done|]. cbn [map List.filter].
  destruct (origin_eligible i (f p) p (Hf p)) as [-> ->]. destruct (_ && _); cbn [map]; by rewrite IH.
Qed.
Lemma named_inv i ps n p : named i ps n = [p] -> p ∈ ps /\ eligible i p = true /\ name p = n.
Proof.
  intros H. assert (In p (named i ps n)) as Hp by (rewrite H; by left). unfold named in Hp.
  apply filter_In in Hp as [Hp [He Hn%bool_decide_eq_true]%andb_true_iff]. by rewrite list_elem_of_In.
Qed.
Lemma named_elem i ps p : p ∈ ps -> eligible i p = true -> p ∈ named i ps (name p).
Proof. rewrite !list_elem_of_In. intros Hp He. apply filter_In. rewrite He, bool_decide_eq_true_2; done. Qed.

(** The only eligible property of a name, with its value and judgement. *)
Definition sole (i : Input) (ps : list Property) (n : string) (v : Value) (d : Disposition) : Prop :=
  exists p, named i ps (ascii_bytes n) = [p] /\ value p = v /\ disposition p = d.
Definition absent (i : Input) (ps : list Property) (n : string) : Prop := named i ps (ascii_bytes n) = [].

Lemma value_of_sole i ps n v : value_of i ps n = Some v <-> sole i ps n v RetainedOnly.
Proof.
  unfold value_of, value_named, sole. split.
  - intros H. destruct (named _ _ _) as [|p [|]]; try done. case_bool_decide; [|done]. injection H as <-. by exists p.
  - intros (p & -> & <- & ->). done.
Qed.
Lemma contains_absent i ps n : contains i ps n = false <-> absent i ps n.
Proof. unfold contains, absent. rewrite negb_false_iff. apply bool_decide_eq_true. Qed.
Lemma conclude_sole i mapped known ps n v :
  sole i ps n v RetainedOnly ->
  sole i (map (conclude i mapped known) ps) n v (if one_of (ascii_bytes n) mapped then MappedParameter else RetainedOnly).
Proof.
  intros (p & Hp & Hv & Hd). exists (conclude i mapped known p). rewrite named_map, Hp by done. split; [done|].
  destruct (named_inv _ _ _ _ Hp) as (_ & He & Hn). unfold conclude. rewrite He, Hd, Hn, bool_decide_eq_true_2 by done.
  cbn [negb orb]. destruct (one_of _ mapped); [done|]. by repeat case_match.
Qed.
Lemma conclude_absent i mapped known ps n : absent i (map (conclude i mapped known) ps) n <-> absent i ps n.
Proof. unfold absent. rewrite named_map by done. by destruct (named _ _ _). Qed.

(** The properties as the two judging passes leave them. *)
Definition judged (i : Input) (ps : list Property) : list Property :=
  let ps := map (classify i) ps in map (mark_conflict i ps) ps.
Lemma judged_kept i ps mapped known :
  Forall2 (fun p q => origin q = origin p /\ value_kept i p (value q)) ps (map (conclude i mapped known) (judged i ps)).
Proof.
  unfold judged. cbn zeta. rewrite !map_map. apply Forall2_fmap_r, Forall_Forall2_diag, Forall_true. intros p. unfold compose.
  rewrite conclude_judges, mark_conflict_judges, classify_judges, conclude_value, mark_conflict_value.
  split; [done|apply classify_kept].
Qed.
Lemma judged_number i ps n x spec :
  numeric_spec (ascii_bytes n) = Some spec -> sole i (judged i ps) n (Number x) RetainedOnly ->
  exists p, name p = ascii_bytes n /\ in_domain i p spec x = true.
Proof.
  intros Hspec (p & Hp & Hv & Hd). destruct (named_inv _ _ _ _ Hp) as (Hin & He & Hn).
  unfold judged in Hin. cbn zeta in Hin. apply list_elem_of_In, in_map_iff in Hin as (q & Hq & (r & Hr & _)%in_map_iff).
  assert (name r = ascii_bytes n /\ eligible i r = true) as [Hrn Hre].
  { destruct (origin_eligible i r p) as [-> ->]; [|done]. rewrite <- Hq, <- Hr, mark_conflict_judges, classify_judges. done. }
  assert (q = p) as ->. { unfold mark_conflict in Hq. destruct (_ && _); [|done]. by subst p. }
  exists r. split; [done|]. unfold classify in Hr. rewrite Hre, Hrn, Hspec in Hr. cbn [negb] in Hr.
  destruct (number_of i (value r)) as [m|]; [|by subst p]. destruct (in_domain i r spec m) eqn:Hm; [|by subst p].
  subst p. cbn in Hv. by injection Hv as <-.
Qed.
Section Extract.
Context (pc_temperature_xy : Z -> f32 -> option (Z * Z)) (blake3_hex : list Z -> list Z)
  (json_fits : Extraction -> Z -> bool) (xml : list Z -> Limits -> result ReadError (list Property)).
Abbreviation extract := (extract pc_temperature_xy blake3_hex json_fits xml).
Abbreviation translate := (translate pc_temperature_xy).
Abbreviation contribute := (contribute pc_temperature_xy).

(** The result of a complete reading, before it is interpreted. *)
Definition complete (i : Input) (ps : list Property) : Extraction :=
  mkExtraction i (if bool_decide (format i = CrsXml) then "decoded_xml_utf8" else "original_utf8") ps [] None
    no_contribution false.
Lemma extract_inv b i limits x :
  extract b i limits = Ok x ->
  zlen b = payload_bytes i /\
  ((exists f, x = retained_failure i f) \/
   exists ps, zlen b <= AdobeData.bytes limits /\ blake3_hex b = payload_blake3 i /\
     read_properties xml b i limits = Ok ps /\ x = translate (complete i ps)).
Proof.
  unfold AdobeSettings.extract. destruct (limits_valid limits); [|done]. cbn [rensure refuse rbind].
  destruct (validate_input i) as [[]|]; [|done]. cbn [refuse rbind].
  destruct (Z.eqb_spec (zlen b) (payload_bytes i)) as [Hlen|]; [|done]. cbn [rensure refuse rbind].
  destruct (Z.ltb_spec (AdobeData.bytes limits) (zlen b)); [intros [= <-]; eauto|].
  case_bool_decide as Hd; [|done]. cbn [rensure refuse rbind].
  destruct (read_properties xml b i limits) as [ps|[]] eqn:Hr; [|intros [= <-]; eauto|done|done].
  fold (complete i ps). destruct (json_fits _ _); intros [= <-]; [|eauto]. split; [done|]. right. by exists ps.
Qed.
Lemma translate_properties i ps :
  let ps' := judged i ps in let c := contribute i ps' in
  x_properties (translate (complete i ps)) = map (conclude i c.2 (qualified i ps')) ps' /\
  AdobeSettings.contribution (translate (complete i ps)) = c.1.
Proof. done. Qed.
Lemma numeric_sole i ps n x : numeric i ps n = Some x -> sole i ps n (Number x) RetainedOnly.
Proof.
  unfold numeric. destruct (value_of i ps n) as [[]|] eqn:H; intros [= ->]. by apply value_of_sole in H.
Qed.

(** What a mapped exposure and a mapped white balance rest on. *)
Lemma exposure_evidence i ps ev :
  exposure_mapping i ps = Some ev ->
  absent i ps "Exposure" /\
  (absent i ps "AutoExposure" \/ sole i ps "AutoExposure" (Boolean false) RetainedOnly) /\
  exists n, sole i ps "Exposure2012" (Number n) RetainedOnly /\ recipe_number n = Some ev.
Proof.
  unfold exposure_mapping. destruct (_ && _ && _) eqn:Hc; [|done].
  apply andb_true_iff in Hc as [[Hauto He%negb_true_iff]%andb_true_iff Hun%negb_true_iff].
  destruct (numeric i ps "Exposure2012") as [n|] eqn:Hn; [|done]. intros Hr. split; [by apply contains_absent|].
  split; [|exists n; split; [by apply numeric_sole|done]].
  destruct (value_of i ps "AutoExposure") as [[| [] | | |]|] eqn:Ha; try done.
  - right. by apply value_of_sole.
  - left. apply contains_absent. rewrite bool_decide_eq_true_2 in Hun by done. by rewrite andb_true_r in Hun.
Qed.
Definition balance_evidence (i : Input) (ps : list Property) (d : Disposition) (wb : WhiteBalance)
    (xy : option (Z * Z)) : Prop :=
  source_kind i = Raw /\ absent i ps "IncrementalTemperature" /\ absent i ps "IncrementalTint" /\
  match wb with
  | AsShot =>
      sole i ps "WhiteBalance" (Text (ascii_bytes "As Shot")) d /\ as_shot_available i = true /\
      absent i ps "Temperature" /\ absent i ps "Tint" /\ xy = None
  | TemperatureTint kelvin tint =>
      sole i ps "WhiteBalance" (Text (ascii_bytes "Custom")) d /\
      exists k t, sole i ps "Temperature" (Number k) d /\ f64_as_u32 k = kelvin /\
        sole i ps "Tint" (Number t) d /\ recipe_number t = Some tint /\
        is_Some xy /\ xy = pc_temperature_xy kelvin tint
  end.
Lemma balance_mapping_evidence i ps wb xy :
  balance_mapping pc_temperature_xy i ps = Some (wb, xy) -> balance_evidence i ps RetainedOnly wb xy.
Proof.
  unfold balance_mapping, balance_evidence. destruct (_ && _ && _) eqn:Hc; [|done].
  apply andb_true_iff in Hc as [[Hraw%bool_decide_eq_true Ht%negb_true_iff]%andb_true_iff Hi%negb_true_iff].
  apply contains_absent in Ht, Hi. destruct (value_of i ps "WhiteBalance") as [[| |t| |]|] eqn:Hwb; try done.
  apply value_of_sole in Hwb. destruct (is_name t "Custom") eqn:Hm.
  - apply bool_decide_eq_true in Hm as ->. destruct (numeric i ps "Temperature") as [k|] eqn:Hk; [|done].
    destruct (numeric i ps "Tint") as [n|] eqn:Hn; [|done]. destruct (recipe_number n) as [tint|] eqn:Htint; [|done].
    unfold white_point. destruct (pc_temperature_xy _ _) as [p|] eqn:Hp; [|done]. intros [= <- <-].
    split_and!; try done. exists k, n. split_and!; try done; by apply numeric_sole.
  - destruct (is_name t "As Shot" && _ && _ && _) eqn:Ha; [|done]. intros [= <- <-].
    rewrite !andb_true_iff, !negb_true_iff, !contains_absent in Ha. destruct Ha as [[[Hs Hav] Hat] Hti].
    apply bool_decide_eq_true in Hs as ->. by split_and!.
Qed.

(** *** Numbers *)

Lemma f64_of_Z_ordinal n : f64_ordinal (f64_of_Z n) = n * f64_unit.
Proof.
  unfold f64_ordinal, f64_of_Z, f64_magnitude. cbn [f64_negative f64_units]. rewrite Z2N.id.
  - destruct (Z.ltb_spec n 0); [rewrite Z.abs_neq by lia|rewrite Z.abs_eq by lia]; ring.
  - apply Z.mul_nonneg_nonneg; [lia|]. by apply Z.lt_le_incl.
Qed.
Lemma in_domain_spec i p lo hi integer n :
  in_domain i p (f64_of_Z lo, f64_of_Z hi, integer) n = true ->
  (name p = ascii_bytes "Temperature" -> source_kind i = Raw) ->
  lo * f64_unit <= f64_ordinal n <= hi * f64_unit /\ (integer = true -> f64_whole n = true).
Proof.
  intros H Hraw. unfold in_domain in H.
  assert (is_name (name p) "Temperature" && negb (bool_decide (source_kind i = Raw)) = false) as Hk.
  { destruct (is_name _ _) eqn:Hn; [|done]. apply bool_decide_eq_true in Hn. by rewrite bool_decide_eq_true_2 by auto. }
  rewrite Hk in H. unfold f64_le in H. rewrite !f64_of_Z_ordinal in H.
  apply andb_true_iff in H as [[?%Z.leb_le ?%Z.leb_le]%andb_true_iff Hi]. split; [done|]. by intros ->.
Qed.
(** The number of a judged property lies in its domain. *)
Lemma judged_within i ps n x lo hi integer :
  numeric_spec (ascii_bytes n) = Some (f64_of_Z lo, f64_of_Z hi, integer) ->
  (ascii_bytes n = ascii_bytes "Temperature" -> source_kind i = Raw) ->
  sole i (judged i ps) n (Number x) RetainedOnly ->
  lo * f64_unit <= f64_ordinal x <= hi * f64_unit /\ (integer = true -> f64_whole x = true).
Proof.
  intros Hs Hraw H. destruct (judged_number _ _ _ _ _ Hs H) as (p & Hn & Hd).
  eapply in_domain_spec; [exact Hd|]. by rewrite Hn.
Qed.
Lemma recipe_number_within x y c :
  recipe_number x = Some y -> 1 <= c < 2 ^ 20 -> - c * f64_unit <= f64_ordinal x <= c * f64_unit ->
  within (- c * f32_unit) (c * f32_unit) y.
Proof.
  intros Hr Hc Hb. unfold recipe_number in Hr. destruct (f64_to_f32 x) as [t|] eqn:Hx; [|done].
  destruct (_ || _); [injection Hr as <-|done]. by eapply f64_to_f32_within.
Qed.
(** A whole temperature keeps its value in the cast. *)
Lemma as_u32_whole x lo hi :
  lo * f64_unit <= f64_ordinal x <= hi * f64_unit -> f64_whole x = true -> 0 <= lo -> hi <= u32_max ->
  f64_ordinal x = f64_as_u32 x * f64_unit /\ lo <= f64_as_u32 x <= hi.
Proof.
  intros Hb Hw%Z.eqb_eq Hlo Hhi. assert (0 < f64_unit) as Hu by done.
  assert (exists q, f64_ordinal x = q * f64_unit) as [q Hq].
  { apply Z.mod_divide in Hw as [q Hq]; [|lia]. unfold f64_ordinal.
    destruct (f64_negative x); [exists (- q)|exists q]; lia. }
  assert (f64_as_u32 x = q) as ->; [|split; [done|nia]].
  unfold f64_as_u32. rewrite Hq, Z.quot_mul by lia. assert (lo <= q <= hi) by nia. lia.
Qed.

(** *** The evidence after the last pass *)

Definition exposure_evidence_in (i : Input) (ps : list Property) (d : Disposition) (ev : f32) : Prop :=
  absent i ps "Exposure" /\
  (absent i ps "AutoExposure" \/ sole i ps "AutoExposure" (Boolean false) RetainedOnly) /\
  exists n, sole i ps "Exposure2012" (Number n) d /\ -5 * f64_unit <= f64_ordinal n <= 5 * f64_unit /\
    recipe_number n = Some ev.
Lemma qualified_evidence i ps mapped known :
  one_of (ascii_bytes "ProcessVersion") mapped = false -> one_of (ascii_bytes "HasSettings") mapped = false ->
  qualified i ps = true ->
  let ps' := map (conclude i mapped known) ps in
  association i = Current /\ source_kind i <> UnknownSource /\
  sole i ps' "ProcessVersion" (Text (ascii_bytes "11.0")) RetainedOnly /\
  (forall p, p ∈ ps' -> eligible i p = true -> enables (name p) = true -> value p = Boolean true) /\
  (absent i ps' "HasSettings" \/ sole i ps' "HasSettings" (Boolean true) RetainedOnly).
Proof.
  intros Hm Hh Hq. unfold qualified in Hq.
  apply andb_true_iff in Hq as [[[Hv%bool_decide_eq_true Ha%bool_decide_eq_true]%andb_true_iff Hk]%andb_true_iff [He Hs]%andb_true_iff].
  apply negb_true_iff, bool_decide_eq_false in Hk. split; [done|]. split; [done|]. split.
  { apply value_of_sole in Hv. apply (conclude_sole i mapped known) in Hv. by rewrite Hm in Hv. }
  split; [|apply orb_true_iff in Hs as [Hs%negb_true_iff%contains_absent|Hs%bool_decide_eq_true%value_of_sole];
    [left; by apply conclude_absent|right; apply (conclude_sole i mapped known) in Hs; by rewrite Hh in Hs]].
  intros p Hp Hel Hen. apply list_elem_of_In, in_map_iff in Hp as (q & <- & Hq).
  destruct (origin_eligible i _ q (conclude_judges i mapped known q)) as [Hel' Hname]. rewrite Hel' in Hel. rewrite Hname in Hen.
  rewrite forallb_forall in He. specialize (He q Hq). rewrite Hel, Hen in He. cbn [andb negb orb] in He.
  apply bool_decide_eq_true in He. unfold value_named in He. apply list_elem_of_In in Hq.
  pose proof (named_elem _ _ _ Hq Hel) as Hin. destruct (named i ps (name q)) as [|r [|]]; try done.
  apply list_elem_of_singleton in Hin as ->. destruct (bool_decide (disposition r = _)); [|done]. injection He as He.
  rewrite <- He. unfold conclude. by repeat case_match.
Qed.
Lemma contribute_evidence i ps0 :
  let ps := judged i ps0 in let c := contribute i ps in
  c.1 <> no_contribution ->
  let ps' := map (conclude i c.2 (qualified i ps)) ps in
  qualified i ps = true /\ one_of (ascii_bytes "ProcessVersion") c.2 = false /\ one_of (ascii_bytes "HasSettings") c.2 = false /\
  (forall ev, c_exposure_ev c.1 = Some ev -> exposure_evidence_in i ps' MappedParameter ev) /\
  (forall wb, c_white_balance c.1 = Some wb ->
     balance_evidence i ps' MappedParameter wb (c_white_point_xy c.1) /\
     match wb with AsShot => True | TemperatureTint kelvin tint => 2000 <= kelvin <= 50000 /\
       within (-150 * f32_unit) (150 * f32_unit) tint end).
Proof.
  intros ps c. subst c. unfold AdobeSettings.contribute. destruct (qualified i ps) eqn:Hq; [|done]. cbn [negb fst snd].
  intros Hc. split; [done|].
  set (ev := exposure_mapping i ps) in *. set (wb := balance_mapping pc_temperature_xy i ps) in *.
  set (mapped := _ ++ _ : list string) in *. set (ps' := map (conclude i mapped true) ps).
  assert (forall n, one_of (ascii_bytes n) mapped = true -> forall v, sole i ps n v RetainedOnly -> sole i ps' n v MappedParameter) as Hyes.
  { intros n Hn v Hv. apply (conclude_sole i mapped true) in Hv. by rewrite Hn in Hv. }
  assert (forall n, one_of (ascii_bytes n) mapped = false -> forall v, sole i ps n v RetainedOnly -> sole i ps' n v RetainedOnly) as Hno.
  { intros n Hn v Hv. apply (conclude_sole i mapped true) in Hv. by rewrite Hn in Hv. }
  assert (forall n, absent i ps n -> absent i ps' n) as Hab by (intros n; apply conclude_absent).
  split; [by destruct ev, wb as [[[]]|]|]. split; [by destruct ev, wb as [[[]]|]|]. split.
  - cbn [c_exposure_ev]. intros e He. destruct (exposure_evidence _ _ _ He) as (H1 & H2 & n & Hn & Hr).
    split; [by apply Hab|]. split.
    + destruct H2 as [H2|H2]; [left; by apply Hab|right]. apply Hno; [by destruct ev, wb as [[[]]|]|done].
    + exists n. split_and!; [apply Hyes; [by destruct ev, wb as [[[]]|]|done]| | |done];
        by apply (judged_within i ps0 "Exposure2012" n (-5) 5 false).
  - cbn [c_white_balance c_white_point_xy]. destruct wb as [[w xy]|] eqn:Hwb; [|done]. intros w' [= <-].
    apply balance_mapping_evidence in Hwb as (Hraw & Ht & Hi & Hw). unfold balance_evidence.
    destruct w as [|kelvin tint].
    + destruct Hw as (Hs & Ha & Hat & Hti & ->). split_and!; auto. apply Hyes; [by destruct ev|done].
    + destruct Hw as (Hs & k & t & Hk & Hkk & Htt & Hr & Hxy & Hpc). split.
      * split_and!; auto. { apply Hyes; [by destruct ev|done]. }
        exists k, t. split_and!; try done; (apply Hyes; [by destruct ev|done]).
      * destruct (judged_within i ps0 "Temperature" k 2000 50000 true) as [Hb Hwh]; [done..|].
        destruct (as_u32_whole k 2000 50000) as [_ Hkb]; [done|auto|done|done|]. rewrite Hkk in Hkb. split; [done|].
        apply (recipe_number_within t tint 150); [done|done|].
        apply (judged_within i ps0 "Tint" t (-150) 150 false); done.
Qed.

Lemma contribution_bounds b i limits x :
  extract b i limits = Ok x ->
  (forall ev, c_exposure_ev (contribution x) = Some ev -> within (-10 * f32_unit) (10 * f32_unit) ev) /\
  (forall wb, c_white_balance (contribution x) = Some wb -> white_balance_in_bounds wb).
Proof.
  intros (_ & [[f ->]|(ps & _ & _ & _ & ->)])%extract_inv; [done|].
  destruct (translate_properties i ps) as [_ ->].
  destruct (decide ((contribute i (judged i ps)).1 = no_contribution)) as [->|Hc]; [done|].
  destruct (contribute_evidence i ps Hc) as (_ & _ & _ & He & Hw). split.
  - intros ev (_ & _ & n & _ & Hn & Hr)%He. destruct (recipe_number_within n ev 5 Hr) as [Hf Hb]; [done|done|].
    pose proof f32_unit_pos. split; [done|lia].
  - intros wb Hwb. destruct (Hw wb Hwb) as [_ ?]. by destruct wb.
Qed.

(** ** Theorems *)

(** C30. What an extraction returns is the payload's own properties or a recorded
    failure, never both: for a payload of the announced length and digest, every
    property that was read is there, in order, with its path, name, text and
    offsets as read, and with its value: as read in catalog data, and in XML as read
    or as the number or boolean that its text spells; the interpretation only
    judged it.  After a failure nothing of the payload is kept and nothing is
    contributed. *)
Theorem adobe_extract_retains b i limits x :
  extract b i limits = Ok x ->
  x_input x = i /\ zlen b = payload_bytes i /\ adobe_rendering_equivalent x = false /\
  match failure x with
  | Some _ => x_properties x = [] /\ missing x = [] /\ contribution x = no_contribution
  | None => zlen b <= AdobeData.bytes limits /\ blake3_hex b = payload_blake3 i /\
      (exists ps, read_properties xml b i limits = Ok ps /\
        Forall2 (fun p q => origin q = origin p /\ value_kept i p (value q)) ps (x_properties x)) /\
      (forall n, n ∈ missing x <-> n ∈ BASIC_PROPERTIES /\ absent i (x_properties x) n)
  end.
Proof.
  intros (Hlen & [[f ->]|(ps & Hb & Hd & Hr & ->)])%extract_inv; [done|]. do 3 (split; [done|]). cbn [failure translate].
  destruct (translate_properties i ps) as [-> _]. split_and!; [done|done| |].
  - exists ps. split; [done|]. apply judged_kept.
  - intros n. rewrite conclude_absent, <- contains_absent.
    change (missing (translate _)) with (List.filter (fun n => negb (contains i (judged i ps) n)) BASIC_PROPERTIES).
    rewrite !list_elem_of_In, filter_In, negb_true_iff. done.
Qed.

(** C31. No setting is mapped without its evidence: the payload is the current one of
    a known kind of source, states process version 11.0 exactly once and switches
    nothing off, neither by an [Enable] switch nor by [HasSettings], which is absent or
    stated once as true; a mapped exposure is the only [Exposure2012], a number between
    -5 and 5, with no older exposure and no automatic one beside it; a mapped
    white balance is that of a raw source, with no incremental adjustment beside
    it, and the temperature and tint its one explicit mode calls for. *)
Theorem adobe_mapping_justified b i limits x :
  extract b i limits = Ok x -> contribution x <> no_contribution ->
  let ps := x_properties x in
  failure x = None /\ association i = Current /\ source_kind i <> UnknownSource /\
  sole i ps "ProcessVersion" (Text (ascii_bytes "11.0")) RetainedOnly /\
  (forall p, p ∈ ps -> eligible i p = true -> enables (name p) = true -> value p = Boolean true) /\
  (absent i ps "HasSettings" \/ sole i ps "HasSettings" (Boolean true) RetainedOnly) /\
  (forall ev, c_exposure_ev (contribution x) = Some ev -> exposure_evidence_in i ps MappedParameter ev) /\
  (forall wb, c_white_balance (contribution x) = Some wb ->
     balance_evidence i ps MappedParameter wb (c_white_point_xy (contribution x))).
Proof.
  intros (_ & [[f ->]|(ps & _ & _ & _ & ->)])%extract_inv Hne; [done|]. split; [done|].
  destruct (translate_properties i ps) as [Hps Hc]. rewrite Hc in Hne |- *. cbn zeta. rewrite Hps.
  destruct (contribute_evidence i ps Hne) as (Hq & Hm & Hh & He & Hw).
  destruct (qualified_evidence i (judged i ps) _ (qualified i (judged i ps)) Hm Hh Hq) as (? & ? & ? & ? & ?).
  split_and!; try done. intros wb Hwb. by apply Hw.
Qed.

(** Mapped settings fit every valid recipe: applying the contribution of any
    extraction to a recipe within its bounds succeeds, whatever was in the
    payload; the exposure and white balance become the mapped ones, rounded to
    singles inside the recipe's ranges, and no other adjustment changes. *)
Theorem adobe_contribution_applies {CODEC : RecipeCodec} b i limits x r
    (Hser : forall r, is_ok (to_vec r) = true) :
  extract b i limits = Ok x -> in_bounds r ->
  exists v, apply_to (contribution x) (V1 r) = Ok v /\ in_bounds (settings v) /\
    exposure_ev (settings v) = canonical_zero (default (exposure_ev r) (c_exposure_ev (contribution x))) /\
    white_balance (settings v) =
      normalize_white_balance (default (white_balance r) (c_white_balance (contribution x))) /\
    forall g, g <> Exposure -> g <> GWhiteBalance -> group_settings g (settings v) = group_settings g (normalize r).
Proof.
  intros Hx Hb. destruct (contribution_bounds _ _ _ _ Hx) as [He Hw]. unfold apply_to.
  pose proof (proj2 (validate_ok_iff Hser r) Hb) as Hok. destruct (validate (V1 r)) as [v0|] eqn:Hv0; [|done].
  cbn [rbind]. set (c := contribution x) in *.
  match goal with |- context [validate (V1 ?t)] => set (t' := t) end.
  assert (in_bounds t') as Hb'.
  { subst t'. unfold in_bounds in *. destruct (c_exposure_ev c) as [ev|], (c_white_balance c) as [wb|];
      cbn -[within white_balance_in_bounds crop_in_bounds Z.mul] in *; intuition auto. }
  pose proof (proj2 (validate_ok_iff Hser t') Hb') as Hok'. destruct (validate (V1 t')) as [v|] eqn:Hv; [|done].
  exists v. rewrite (validate_settings _ _ Hv). split; [done|]. split; [by apply normalize_in_bounds|].
  subst t'. destruct (c_exposure_ev c), (c_white_balance c); split_and!; try done; by intros [].
Qed.
End Extract.

(** ** An extraction *)

Definition demo_payload : list Z := ascii_bytes
  "s = { ProcessVersion = '11.0', Exposure2012 = 1.25, WhiteBalance = 'Custom', Temperature = 5200, Tint = -7.5, Contrast2012 = 'steep' }".
Definition demo_hex : list Z := ascii_bytes "00000000000000000000000000000000000000000000000000000000000000aa".
Definition demo_input : Input :=
  mkInput [99] [49] [112] demo_hex (zlen demo_payload) CatalogData Raw Current [Name [115]] true.
Definition demo_xy (kelvin : Z) (tint : f32) : option (Z * Z) := Some (kelvin, tint).
Definition demo_extract : result ExtractError Extraction :=
  extract demo_xy (fun _ => demo_hex) (fun _ _ => true) (fun _ _ => Ok []) demo_payload demo_input default_Limits.
Definition demo_extraction : Extraction :=
  match demo_extract with Ok x => x | Err _ => retained_failure demo_input (InvalidSyntax, ""%string) end.
Lemma demo_extract_runs :
  extract demo_xy (fun _ => demo_hex) (fun _ _ => true) (fun _ _ => Ok []) demo_payload demo_input default_Limits =
  Ok demo_extraction.
Proof. vm_compute. reflexivity. Qed.
Lemma demo_extract_ok :
  contribution demo_extraction =
    mkContribution (Some 0x3FA00000) (Some (TemperatureTint 5200 0xC0F00000)) (Some (5200, 0xC0F00000)) /\
  disposition <$> x_properties demo_extraction =
    [RetainedOnly; MappedParameter; MappedParameter; MappedParameter; MappedParameter; Invalid; RetainedOnly].
Proof. split_and!; vm_compute; reflexivity. Qed.

Lemma adobe_extract_retains_witness :
  failure demo_extraction = None /\
  exists ps, read_properties (fun _ _ => Ok []) demo_payload demo_input default_Limits = Ok ps /\
    Forall2 (fun p q => origin q = origin p /\ value_kept demo_input p (value q)) ps (x_properties demo_extraction).
Proof.
  assert (failure demo_extraction = None) as Hf by (vm_compute; reflexivity). split; [exact Hf|].
  pose proof (adobe_extract_retains _ _ _ _ _ _ _ _ demo_extract_runs) as (_ & _ & _ & H).
  rewrite Hf in H. apply H.
Defined.
Lemma adobe_mapping_justified_witness :
  contribution demo_extraction <> no_contribution /\
  sole demo_input (x_properties demo_extraction) "ProcessVersion" (Text (ascii_bytes "11.0")) RetainedOnly.
Proof.
  assert (contribution demo_extraction <> no_contribution) as Hne.
  { rewrite (proj1 demo_extract_ok). discriminate. }
  split; [exact Hne|]. apply (adobe_mapping_justified _ _ _ _ _ _ _ _ demo_extract_runs Hne).
Defined.
Lemma adobe_contribution_applies_witness :
  exists v, apply_to (CODEC := demo_codec) (contribution demo_extraction) (V1 default_RecipeV1) = Ok v /\
    in_bounds (settings v).
Proof.
  destruct (adobe_contribution_applies _ _ _ _ (CODEC := demo_codec) _ _ _ _ default_RecipeV1
    (fun r => match r with V1 _ => eq_refl end) demo_extract_runs default_settings_in_bounds) as (v & Hv & Hb & _).
  exists v. split; [exact Hv|exact Hb].
Defined.
