(* ===== verification/Requested.v ===== *)
(** Requested storage: src/src/lightroom_migration_worker/memory/layout.rs, the
    arithmetic its callers share, requested.rs, and [xml_document] of core.rs.

    Before storage is constructed its size is bounded by checked expressions and
    admitted; the scopes of what is live at the same time are added up, and only a
    new high water is passed on. *)
From stdpp Require Import base tactics option list numbers gmap strings.
From Stdlib Require Import ZArith Lia.
From S2P Require Import Prelude.

Open Scope Z_scope.
Local Open Scope prog_scope.

(** An [anyhow] error, its contexts outermost first, and a panic. *)
Inductive Error : Type :=
| Chain (messages : list string)
| Panic (message : string).
Definition says (m : string) : Error := Chain [m].
(** [.context(m)?]. *)
Definition in_context {A} (m : string) (r : result Error A) : result Error A :=
  match r with Err (Chain ms) => Err (Chain (m :: ms)) | _ => r end.
Definition checked (r : option Z) (m : string) : result Error Z :=
  match r with Some n => Ok n | None => Err (says m) end.

(** ** Layout arithmetic *)

(** @source src/src/lightroom_migration_worker/memory/layout.rs:6-9 add *)
Definition add (a b : Z) : result Error Z := checked (checked_add a b) "migration allocation sum overflow".
(** @source src/src/lightroom_migration_worker/memory/layout.rs:10-13 mul *)
Definition mul (a b : Z) : result Error Z := checked (checked_mul a b) "migration allocation product overflow".
Definition div_ceil (a b : Z) : Z := (a + b - 1) / b.
(** @source src/src/lightroom_migration_worker/memory/layout.rs:14-21 ceiling_product *)
Definition ceiling_product (bytes numerator denominator : Z) : result Error Z :=
  let? whole := mul (bytes / denominator) numerator in
  let? rest := mul (bytes mod denominator) numerator in
  add whole (div_ceil rest denominator).
(** @source src/src/lightroom_migration_worker/memory/layout.rs:22-28 maximum_ratio *)
Fixpoint maximum_from (maximum bytes : Z) (ratios : list (Z * Z)) : result Error Z :=
  match ratios with
  | [] => Ok maximum
  | (numerator, denominator) :: ratios =>
      let? n := ceiling_product bytes numerator denominator in maximum_from (maximum `max` n) bytes ratios
  end.
Definition maximum_ratio (bytes : Z) (ratios : list (Z * Z)) : result Error Z := maximum_from 0 bytes ratios.

(** [std::alloc::Layout]; [size_of::<usize>()] is that of a 64-bit target. *)
Record Layout : Type := mkLayout { l_size : Z; l_align : Z }.
Definition word : Z := 8.
(** @source src/src/lightroom_migration_worker/memory/layout.rs:38-55 tree_node_layout *)
Definition tree_node_layout (key value : Layout) : result Error Z :=
  let pointer := word in
  let alignment := word `max` 2 `max` l_align key `max` l_align value in
  let? head := add pointer 4 in
  let? pair := add (l_size key) (l_size value) in
  let? pairs := mul 11 pair in
  let? padding := mul 5 (alignment - 1) in
  let? fields := add pairs padding in
  let? leaf := add head fields in
  let? edges := mul 12 pointer in
  let? final := mul 2 (alignment - 1) in
  let? internal := add edges final in
  add leaf internal.
(** The greatest height a tree of so many entries can have. *)
Fixpoint tree_height (fuel : nat) (entries minimum height : Z) : result Error Z :=
  match fuel with
  | O => Err (Panic "fuel")
  | S fuel =>
      match (match checked_mul minimum 6 with Some n => checked_add n 5 | None => None end) with
      | Some next => if entries <? next then Ok height else
                       let? height := add height 1 in tree_height fuel entries next height
      | None => Ok height
      end
  end.
(** @source src/src/lightroom_migration_worker/memory/layout.rs:65-87 tree_layout *)
Definition tree_layout (entries : Z) (key value : Layout) : result Error Z :=
  if entries =? 0 then Ok 0 else
  let? settled := add 1 ((entries - 1) / 5) in
  let? height := tree_height 64 entries 1 0 in
  let? cascade := add height 2 in
  let? nodes := add settled cascade in
  let? node := tree_node_layout key value in
  mul nodes node.
(** @source src/src/lightroom_migration_worker/memory/layout.rs:91-96 vector_layout *)
Definition vector_layout (entries : Z) (item : Layout) : result Error Z :=
  if entries =? 0 then Ok 0 else
  let? doubled := mul 2 entries in
  let? capacity := add doubled 8 in
  mul capacity (l_size item).

(** ** The storage of a parsed text *)

Definition zlength (s : string) : Z := Z.of_nat (String.length s).
Fixpoint count_byte (c : Ascii.ascii) (s : string) : Z :=
  match s with
  | EmptyString => 0
  | String a s' => (if Ascii.eqb a c then 1 else 0) + count_byte c s'
  end.
(** [match_indices(p).count()]: matches do not overlap. *)
Fixpoint count_matches (fuel : nat) (p s : string) : Z :=
  match fuel, s with
  | S fuel, String _ s' =>
      if String.prefix p s then 1 + count_matches fuel p (String.substring (String.length p) (String.length s) s)
      else count_matches fuel p s'
  | _, _ => 0
  end.
Definition overlapping_vector (entries minimum item : Z) : result Error Z :=
  let? grown := mul 3 (entries `max` minimum) in
  let? capacity := add grown 8 in
  mul capacity item.
(** @source src/src/lightroom_migration_worker/memory/core.rs:247-293 xml_document *)
Definition xml_document (text : string) : result Error Z :=
  let tag_spellings := count_byte (Ascii.ascii_of_N 60) text in
  let attribute_spellings := count_byte (Ascii.ascii_of_N 61) text in
  let namespace_declarations := count_matches (String.length text) "xmlns" text in
  let? namespace_values := add namespace_declarations 1 in
  let? doubled := mul 2 tag_spellings in
  let? syntactic_nodes := add doubled 2 in
  let words := word in
  let? node := mul 16 words in
  let? node_backing := overlapping_vector syntactic_nodes tag_spellings node in
  let? attribute := mul 8 words in
  let? attribute_backing := overlapping_vector attribute_spellings attribute_spellings attribute in
  let? namespace := mul 4 words in
  let? namespace_backing := overlapping_vector namespace_values 0 namespace in
  let? orders := add namespace_values 1 in
  let? tree_order := mul namespace_values orders in
  let? ordered := overlapping_vector tree_order 0 2 in
  let? valued := overlapping_vector namespace_values 0 2 in
  let? namespace_indices := add ordered valued in
  let? temporary := mul 10 words in
  let? temporary_attributes := overlapping_vector attribute_spellings 16 temporary in
  let? awaiting := overlapping_vector tag_spellings 0 words in
  let? tags := add tag_spellings 1 in
  let? prefix := mul 2 words in
  let? prefixes := overlapping_vector tags 1 prefix in
  let? after := mul 3 words in
  let? texts := overlapping_vector syntactic_nodes 1 after in
  let? prefixes_texts := add prefixes texts in
  let? parser_vectors := add awaiting prefixes_texts in
  let? normalized := mul 4 (zlength text) in
  let? owned := add attribute_spellings syntactic_nodes in
  let? header := mul 2 words in
  let? headers := mul owned header in
  let? normalized_owners := add normalized headers in
  let? backing := add node_backing attribute_backing in
  let? namespaces := add namespace_backing namespace_indices in
  let? parsed := add parser_vectors normalized_owners in
  let? temporaries := add temporary_attributes parsed in
  let? others := add namespaces temporaries in
  add backing others.

(** ** Scopes *)

Section Requested.
(** The callback that admits a high water; it may answer by what it was asked before. *)
Context (admission : list Z -> Z -> result Error unit).

(** What is live, the high water, and the calls of the callback, the last one first. *)
(** @source src/src/lightroom_migration_worker/memory/requested.rs:10-14 Requested *)
Record Requested : Type := mkRequested { live : Z; high : Z; calls : list Z }.
(** @source src/src/lightroom_migration_worker/memory/requested.rs:44-50 Requested::new *)
Definition new : Requested := mkRequested 0 0 [].
(** A guard is the number of its bytes. *)
(** @source src/src/lightroom_migration_worker/memory/requested.rs:16-19 Scope *)
Record Scope : Type := mkScope { bytes : Z }.

(** @source src/src/lightroom_migration_worker/memory/requested.rs:54-69 Requested::scope *)
Definition scope (n : Z) : proc Error Requested Scope :=
  let* r := get in
  let* live' := lift (checked (checked_add (live r) n) "requested core storage overflow") in
  (if high r <? live' then
     put (mkRequested (live r) (high r) (live' :: calls r)) ;;;
     lift (admission (calls r) live') ;;;
     modify (fun r => mkRequested (live r) live' (calls r))
   else ret tt) ;;;
  modify (fun r => mkRequested live' (high r) (calls r)) ;;;
  ret (mkScope n).
(** @source src/src/lightroom_migration_worker/memory/requested.rs:25-40 Scope::shrink_to *)
Definition shrink_to (s : Scope) (n : Z) : proc Error Requested Scope :=
  ensure (n <=? bytes s) (says "requested scope cannot grow while shrinking") ;;;
  let released := bytes s - n in
  let* r := get in
  let* live' := lift (checked (checked_sub (live r) released) "requested core storage shrink imbalance") in
  put (mkRequested live' (high r) (calls r)) ;;;
  ret (mkScope n).
(** @source src/src/lightroom_migration_worker/memory/requested.rs:76-86 Scope::drop *)
Definition drop_scope (s : Scope) : proc Error Requested unit :=
  let* r := get in
  match checked_sub (live r) (bytes s) with
  | Some live' => put (mkRequested live' (high r) (calls r))
  | None => fail (Panic "requested-storage scope imbalance")
  end.

(** The guard of [n] bytes is a local of [m]: it drops however [m] ends. *)
Definition guarded {A} (n : Z) (m : proc Error Requested A) : proc Error Requested A :=
  let* s := scope n in
  let* r := try m in
  drop_scope s ;;;
  lift r.
(** The guard is returned with the value [m] constructs, and drops when [m] fails. *)
Definition owning {A} (n : Z) (m : proc Error Requested A) : proc Error Requested (A * Scope) :=
  let* s := scope n in
  let* r := try m in
  match r with
  | Ok a => ret (a, s)
  | Err e => drop_scope s ;;; fail e
  end.
(** A value returned with its guard is used, then both drop. *)
Definition consuming {B} (s : Scope) (m : proc Error Requested B) : proc Error Requested B :=
  let* r := try m in
  drop_scope s ;;;
  lift r.

(** *** Every program on scopes *)

(** What the open guards account for. *)
Definition total (open : list Scope) : Z := foldr (fun s n => bytes s + n) 0 open.
Record accounted (r : Requested) (open : list Scope) : Prop := {
  ac_live : live r = total open;
  ac_open : Forall (fun s => 0 <= bytes s) open;
  ac_high : live r <= high r <= u64_max;
  ac_admitted : high r = 0 \/ exists before, suffix (high r :: before) (calls r) /\ admission before (high r) = Ok tt;
}.
(** One use of the accounting by whoever holds the guards [open]. *)
Inductive uses : Requested -> list Scope -> Requested -> list Scope -> Prop :=
| uses_scope r open n r' s : 0 <= n -> scope n r = (r', Ok s) -> uses r open r' (s :: open)
| uses_refused r open n r' e : 0 <= n -> scope n r = (r', Err e) -> uses r open r' open
| uses_shrink r open i s n r' s' :
    open !! i = Some s -> 0 <= n -> shrink_to s n r = (r', Ok s') -> uses r open r' (<[i := s']> open)
| uses_drop r open i s r' u :
    open !! i = Some s -> drop_scope s r = (r', Ok u) -> uses r open r' (delete i open).
Inductive used : Requested -> list Scope -> Prop :=
| used_new : used new []
| used_step r open r' open' : used r open -> uses r open r' open' -> used r' open'.

Lemma total_nonneg open : Forall (fun s => 0 <= bytes s) open -> 0 <= total open.
Proof. induction 1; simpl; lia. Qed.
Lemma total_delete open i s : open !! i = Some s -> total open = bytes s + total (delete i open).
Proof.
  revert i. induction open as [|x l IH]; intros [|i] H; simpl in *; simplify_eq; [done|].
  rewrite (IH _ H). lia.
Qed.
Lemma total_insert open i s s' :
  open !! i = Some s -> total (<[i := s']> open) = total open - bytes s + bytes s'.
Proof.
  revert i. induction open as [|x l IH]; intros [|i] H; simpl in *; simplify_eq; [lia|].
  rewrite (IH _ H). lia.
Qed.

(** What [scope] does, on each of its ends. *)
Definition kept (r r' : Requested) : Prop :=
  live r' = live r /\ high r' = high r /\ suffix (calls r) (calls r').
Definition grown (n : Z) (r r' : Requested) : Prop :=
  live r + n <= u64_max /\ live r' = live r + n /\
  ((live r' <= high r /\ high r' = high r /\ calls r' = calls r) \/
   (high r < live r' /\ high r' = live r' /\ calls r' = live r' :: calls r /\ admission (calls r) (live r') = Ok tt)).
Lemma scope_inv n r r' x : scope n r = (r', x) ->
  match x with
  | Ok s => s = mkScope n /\ grown n r r'
  | Err e => kept r r' /\ (e = says "requested core storage overflow" \/ admission (calls r) (live r + n) = Err e)
  end.
Proof.
  unfold scope, kept, grown. rewrite bind_get, bind_lift. unfold checked.
  destruct (checked_add (live r) n) as [l|] eqn:Ha.
  2:{ intros [= <- <-]. split; [done|by left]. }
  apply checked_add_Some in Ha as [-> Hmax].
  destruct (Z.ltb_spec (high r) (live r + n)) as [Hh|Hh].
  - rewrite bind_bind, bind_put, bind_bind, bind_lift. destruct (admission (calls r) (live r + n)) as [[]|e] eqn:He.
    + rewrite !bind_modify. intros [= <- <-]. simpl. split_and!; try done. right. by split_and!.
    + intros [= <- <-]. simpl. split; [|by right]. split_and!; try done. by exists [live r + n].
  - rewrite bind_ret, bind_modify. intros [= <- <-]. simpl. split_and!; try done. by left.
Qed.
Lemma shrink_inv s n r r' s' : shrink_to s n r = (r', Ok s') ->
  s' = mkScope n /\ n <= bytes s /\ live r' = live r - (bytes s - n) /\ high r' = high r /\ calls r' = calls r.
Proof.
  unfold shrink_to. intros H. take_apart H. unfold checked, checked_sub in *.
  destruct (bytes s - n <=? live r); simplify_eq/=. injection H as <- <-. apply Z.leb_le in Hb. by split_and!.
Qed.
Lemma drop_inv s r r' u : drop_scope s r = (r', Ok u) ->
  live r' = live r - bytes s /\ high r' = high r /\ calls r' = calls r.
Proof.
  unfold drop_scope, checked_sub. rewrite bind_get. destruct (bytes s <=? live r); [|done]. by intros [= <- _].
Qed.
Lemma drop_ok s r : bytes s <= live r -> drop_scope s r = (mkRequested (live r - bytes s) (high r) (calls r), Ok tt).
Proof. intros H. unfold drop_scope, checked_sub. rewrite bind_get. by destruct (Z.leb_spec (bytes s) (live r)); [|lia]. Qed.

Lemma uses_accounted r open r' open' : accounted r open -> uses r open r' open' -> accounted r' open'.
Proof.
  intros Ha Hu. destruct Hu as [r0 o n r1 s Hn H|r0 o n r1 e Hn H|r0 o i s n r1 s' Hi Hn H|r0 o i s r1 u Hi H];
    destruct Ha as [Hl Ho Hh Had].
  - apply scope_inv in H as (-> & Hmax & Hl' & [(H1 & H2 & H3)|(H1 & H2 & H3 & H4)]).
    + split; simpl; [lia|by constructor|lia|by rewrite H2, H3].
    + split; simpl; [lia|by constructor|lia|]. right. exists (calls r0). rewrite H2, H3. by split.
  - apply scope_inv in H as [(H1 & H2 & H3) _]. split; [congruence|done|lia|]. rewrite H2.
    destruct Had as [Had|(b & Hb & Hok)]; [by left|right]. exists b. split; [by etrans|done].
  - apply shrink_inv in H as (-> & Hle & Hl' & Hh' & Hc). split.
    + rewrite (total_insert _ _ _ _ Hi). simpl. lia.
    + by apply Forall_insert.
    + lia.
    + by rewrite Hh', Hc.
  - apply drop_inv in H as (Hl' & Hh' & Hc). pose proof (total_delete _ _ _ Hi) as Ht.
    pose proof (Forall_lookup_1 _ _ _ _ Ho Hi) as Hs. cbn beta in Hs.
    split; [lia|by apply Forall_delete|lia|by rewrite Hh', Hc].
Qed.
Lemma used_accounted r open : used r open -> accounted r open.
Proof. induction 1; [|by eapply uses_accounted]. split; simpl; [done|done|unfold u64_max; lia|by left]. Qed.

(** C37. What is live is what the open guards were opened for; it never exceeds a high
    water that the callback has admitted; and an open guard drops and shrinks
    without an imbalance. *)
Theorem live_storage_admitted r open :
  used r open ->
  live r = total open /\ live r <= high r <= u64_max /\
  (high r = 0 \/ exists before, suffix (high r :: before) (calls r) /\ admission before (high r) = Ok tt) /\
  forall s, s ∈ open ->
    (drop_scope s r).2 = Ok tt /\
    forall n, 0 <= n -> (shrink_to s n r).2 =
      if n <=? bytes s then Ok (mkScope n) else Err (says "requested scope cannot grow while shrinking").
Proof.
  intros [Hl Ho Hh Had]%used_accounted. split_and!; [done|lia|lia|done|].
  intros s Hs. assert (0 <= bytes s <= live r) as Hb.
  { apply list_elem_of_lookup in Hs as [i Hi]. pose proof (total_delete _ _ _ Hi).
    pose proof (Forall_lookup_1 _ _ _ _ Ho Hi) as H0. cbn beta in H0.
    pose proof (total_nonneg (delete i open) (Forall_delete _ _ _ Ho)). lia. }
  split; [by rewrite drop_ok by lia|]. intros n Hn. unfold shrink_to. rewrite bind_ensure.
  destruct (Z.leb_spec n (bytes s)); [|done]. rewrite bind_get, bind_lift. unfold checked, checked_sub.
  by destruct (Z.leb_spec (bytes s - n) (live r)); [|lia].
Qed.
End Requested.

(** ** The layout expressions are exact, or large enough *)

Lemma add_Ok a b c : add a b = Ok c <-> c = a + b /\ a + b <= u64_max.
Proof.
  unfold add, checked. rewrite <- checked_add_Some. destruct (checked_add a b); split; intros H; simplify_eq; done.
Qed.
Lemma mul_Ok a b c : mul a b = Ok c <-> c = a * b /\ a * b <= u64_max.
Proof.
  unfold mul, checked. rewrite <- checked_mul_Some. destruct (checked_mul a b); split; intros H; simplify_eq; done.
Qed.
Lemma div_ceil_bound a b n : 0 < b -> (div_ceil a b <= n <-> a <= n * b).
Proof.
  intros Hb. unfold div_ceil. split; intros H.
  - pose proof (Z.div_mod (a + b - 1) b ltac:(lia)). pose proof (Z.mod_pos_bound (a + b - 1) b Hb). nia.
  - apply Z.lt_succ_r, Z.div_lt_upper_bound; [lia|nia].
Qed.
Lemma div_ceil_split b q r : 0 < b -> div_ceil (q * b + r) b = q + div_ceil r b.
Proof. intros Hb. unfold div_ceil. replace (q * b + r + b - 1) with (r + b - 1 + q * b) by lia. rewrite Z.div_add by lia. lia. Qed.

(** The product that divides first is the exact ceiling of [bytes * numerator /
    denominator], and it is computed whenever it can be represented and the
    product of the coefficients can. *)
Theorem ceiling_product_exact bytes numerator denominator r :
  0 <= bytes -> 0 <= numerator -> 0 < denominator -> numerator * denominator <= u64_max ->
  ceiling_product bytes numerator denominator = Ok r <->
  r = div_ceil (bytes * numerator) denominator /\ r <= u64_max.
Proof.
  intros Hb Hn Hd Hfit. unfold ceiling_product.
  pose proof (Z.div_mod bytes denominator ltac:(lia)) as Hdm. pose proof (Z.mod_pos_bound bytes denominator Hd) as Hm.
  pose proof (Z.div_pos bytes denominator Hb Hd) as Hq.
  assert (div_ceil (bytes * numerator) denominator =
    bytes / denominator * numerator + div_ceil (bytes mod denominator * numerator) denominator) as Heq.
  { rewrite <- div_ceil_split by done. f_equal. rewrite Hdm at 1. ring. }
  assert (0 <= div_ceil (bytes mod denominator * numerator) denominator) as H0.
  { unfold div_ceil. apply Z.div_pos; nia. }
  rewrite rbind_Ok. setoid_rewrite rbind_Ok. setoid_rewrite mul_Ok. setoid_rewrite add_Ok. split.
  - intros (w & [-> Hw] & x & [-> Hx] & -> & Hr). split; [|lia]. by rewrite Heq.
  - intros [-> Hr]. rewrite Heq in *. eexists. split; [split; [done|lia]|]. eexists. split; [split; [done|nia]|]. done.
Qed.

(** *** Trees

    The shapes of a B-tree with nodes of five to eleven entries, of which the root
    may have fewer: its height, its entries and its nodes. *)
Inductive subtree : nat -> Z -> Z -> Prop :=
| sub_leaf k : 5 <= k <= 11 -> subtree 0 k 1
| sub_node h k e n : 5 <= k <= 11 -> forest h (k + 1) e n -> subtree (S h) (k + e) (1 + n)
with forest : nat -> Z -> Z -> Z -> Prop :=
| for_nil h : forest h 0 0 0
| for_cons h m e n e' n' : 0 <= m -> subtree h e n -> forest h m e' n' -> forest h (m + 1) (e + e') (n + n').
Inductive rooted : nat -> Z -> Z -> Prop :=
| root_leaf k : 1 <= k <= 11 -> rooted 0 k 1
| root_node h k e n : 1 <= k <= 11 -> forest h (k + 1) e n -> rooted (S h) (k + e) (1 + n).
Scheme subtree_mind := Induction for subtree Sort Prop with forest_mind := Induction for forest Sort Prop.
Combined Scheme shapes_ind from subtree_mind, forest_mind.

Lemma shapes_bounds :
  (forall h e n, subtree h e n -> 5 * n <= e /\ 6 ^ (Z.of_nat h + 1) - 1 <= e) /\
  (forall h m e n, forest h m e n -> 5 * n <= e /\ m * (6 ^ (Z.of_nat h + 1) - 1) <= e).
Proof.
  apply shapes_ind; intros; try (simpl; lia).
  destruct H as [H1 H2]. replace (Z.of_nat (S h) + 1) with (Z.succ (Z.of_nat h + 1)) by lia.
  rewrite Z.pow_succ_r by lia. pose proof (Z.pow_pos_nonneg 6 (Z.of_nat h + 1)). nia.
Qed.
Lemma rooted_bounds h e n :
  rooted h e n -> 1 <= e /\ n <= 1 + (e - 1) / 5 /\ 2 * 6 ^ Z.of_nat h - 1 <= e.
Proof.
  destruct 1 as [k Hk|h k e n Hk [H1 H2]%(proj2 shapes_bounds)].
  - pose proof (Z.div_pos (k - 1) 5). simpl. lia.
  - assert (n <= (k + e - 1) / 5) by (apply Z.div_le_lower_bound; lia).
    replace (Z.of_nat (S h)) with (Z.of_nat h + 1) by lia. pose proof (Z.pow_pos_nonneg 6 (Z.of_nat h + 1)). nia.
Qed.

(** The loop ends with the greatest height of a tree of so many entries. *)
Lemma tree_height_spec fuel entries minimum height :
  0 <= height -> minimum = 2 * 6 ^ height - 1 -> minimum <= entries <= u64_max -> u64_max < 2 * 6 ^ (height + Z.of_nat fuel) - 1 ->
  exists result, tree_height fuel entries minimum height = Ok result /\ height <= result /\
    2 * 6 ^ result - 1 <= entries < 2 * 6 ^ (result + 1) - 1.
Proof.
  revert minimum height. induction fuel as [|fuel IH]; intros minimum height H0 Hm Hr Hf; simpl.
  - exfalso. rewrite Z.add_0_r in Hf. lia.
  - assert (6 ^ (height + 1) = 6 * 6 ^ height) as Hp by (rewrite Z.add_1_r, Z.pow_succ_r; lia).
    destruct (checked_mul minimum 6) as [x|] eqn:Hx; [apply checked_mul_Some in Hx as [-> Hx]; destruct (checked_add _ 5) as [y|] eqn:Hy|].
    + apply checked_add_Some in Hy as [-> Hy]. destruct (Z.ltb_spec entries (minimum * 6 + 5)).
      * exists height. split; [done|]. lia.
      * assert (add height 1 = Ok (height + 1)) as ->.
        { apply add_Ok. split; [done|]. pose proof (Z.pow_gt_lin_r 6 height). lia. }
        simpl. destruct (IH (minimum * 6 + 5) (height + 1)) as (r & Hr' & Hle & Hb); [lia|lia|lia| |].
        -- replace (height + 1 + Z.of_nat fuel) with (height + Z.of_nat (S fuel)) by lia. done.
        -- exists r. split; [done|]. lia.
    + exists height. split; [done|]. unfold checked_add in Hy. destruct (Z.leb_spec (minimum * 6 + 5) u64_max); [done|]. lia.
    + exists height. split; [done|]. unfold checked_mul in Hx. destruct (Z.leb_spec (minimum * 6) u64_max); [done|]. lia.
Qed.
Lemma u64_height : u64_max < 2 * 6 ^ (0 + Z.of_nat 64) - 1.
Proof. by vm_compute. Qed.

(** C38. The storage of a tree covers every B-tree of that many entries together with
    the nodes an insertion adds when it splits each level and the root. *)
Theorem tree_storage_covers h entries nodes key value node b :
  rooted h entries nodes -> entries <= u64_max -> 0 <= node ->
  tree_node_layout key value = Ok node -> tree_layout entries key value = Ok b ->
  (nodes + (Z.of_nat h + 2)) * node <= b.
Proof.
  intros (He & Hn & Hh)%rooted_bounds Hmax Hnode Hl. unfold tree_layout. destruct (Z.eqb_spec entries 0); [lia|].
  destruct (tree_height_spec 64 entries 1 0) as (r & -> & H0 & Hr); [done|done|lia|apply u64_height|]. rewrite Hl.
  intros (w & [-> _]%add_Ok & H)%rbind_Ok. cbn [rbind] in H. apply rbind_Ok in H as (c & [-> _]%add_Ok & H).
  apply rbind_Ok in H as (t & [-> _]%add_Ok & [-> _]%mul_Ok).
  assert (Z.of_nat h <= r).
  { destruct (Z.le_gt_cases (Z.of_nat h) r) as [|Hgt]; [done|exfalso].
    assert (6 ^ (r + 1) <= 6 ^ Z.of_nat h) by (apply Z.pow_le_mono_r; lia). lia. }
  apply Z.mul_le_mono_nonneg_r; lia.
Qed.

(** ** Witnesses *)

Module Demo.
Definition admission (before : list Z) (n : Z) : result Error unit := if n <=? 100 then Ok tt else Err (says "denied").
Definition three : Requested * result Error (Scope * Scope) :=
  (let* a := scope admission 30 in let* b := scope admission 20 in let* c := try (scope admission 60) in
   let* a := shrink_to a 10 in ret (a, b)) new.
(** Thirty and twenty live at once are admitted, a hundred and ten are not. *)
Example three_runs : three = (mkRequested 30 50 [110; 50; 30], Ok (mkScope 10, mkScope 20)).
Proof. by vm_compute. Qed.
Lemma three_used : used admission three.1 [mkScope 20; mkScope 10].
Proof.
  apply (used_step _ (mkRequested 50 50 [110; 50; 30]) [mkScope 20; mkScope 30]).
  - apply (used_step _ (mkRequested 50 50 [50; 30]) [mkScope 20; mkScope 30]);
      [|by apply (uses_refused _ _ _ 60 _ (says "denied"))].
    apply (used_step _ (mkRequested 30 30 [30]) [mkScope 30]); [|by apply (uses_scope _ _ _ 20)].
    apply (used_step _ new []); [constructor|by apply (uses_scope _ _ _ 30)].
  - by apply (uses_shrink _ _ [mkScope 20; mkScope 30] 1 (mkScope 30) 10).
Qed.
End Demo.
Lemma live_storage_admitted_witness : live Demo.three.1 = 30 /\ high Demo.three.1 = 50.
Proof.
  destruct (live_storage_admitted Demo.admission Demo.three.1 [mkScope 20; mkScope 10] Demo.three_used) as (H & _).
  split; [exact H|by vm_compute].
Defined.
Lemma ceiling_product_exact_witness : ceiling_product 57 5 11 = Ok 26.
Proof. apply (ceiling_product_exact 57 5 11); [lia|lia|lia|by vm_compute|by vm_compute]. Defined.
(** A root of one entry above two leaves: the tree of twelve entries. *)
Lemma twelve : rooted 1 12 3.
Proof.
  apply (root_node 0 1 11 2); [lia|]. apply (for_cons 0 1 5 1 6 1); [lia|constructor; lia|].
  apply (for_cons 0 0 6 1 0 0); [lia|constructor; lia|constructor].
Qed.
Lemma tree_storage_covers_witness :
  exists b, tree_layout 12 (mkLayout 48 8) (mkLayout 56 8) = Ok b /\ (3 + (Z.of_nat 1 + 2)) * 1301 <= b.
Proof.
  eexists. split; [vm_compute; reflexivity|].
  apply (tree_storage_covers 1 12 3 (mkLayout 48 8) (mkLayout 56 8) 1301 _ twelve);
    [by vm_compute|lia|by vm_compute|by vm_compute].
Defined.
