(* ===== verification/RdfModel.v ===== *)
(** The semantic comparison of XMP packets: src/src/xmp_rdf.rs.

    Two packets are compared by the values their RDF denotes: prefixes, compact
    attributes and the different encodings of structures and qualifiers do not
    count.  The XML reader is a third-party crate: its documents are the trees of
    type [Node], with resolved namespaces, and the function from texts to documents
    is a parameter. *)
From stdpp Require Import base tactics option list numbers strings sorting.
From Stdlib Require Import ZArith Lia.
From S2P Require Import Prelude Requested.

Open Scope Z_scope.
Local Open Scope prog_scope.

(** ** Documents, as the XML reader presents them *)

Record Attribute : Type := mkAttribute { a_namespace : option string; a_name : string; a_value : string }.
(** Comments and processing instructions are [Other]. *)
Inductive Node : Type :=
| Element (namespace : option string) (local : string) (attributes : list Attribute) (children : list Node)
| Text (text : string)
| Other.
(** The children of the root of the document. *)
Abbreviation Document := (list Node) (only parsing).

Definition is_element (n : Node) : bool := match n with Element _ _ _ _ => true | _ => false end.
Definition children (n : Node) : list Node := match n with Element _ _ _ cs => cs | _ => [] end.
Definition attributes (n : Node) : list Attribute := match n with Element _ _ xs _ => xs | _ => [] end.
Definition tag (n : Node) : option string * string := match n with Element ns l _ _ => (ns, l) | _ => (None, "") end.
Definition has_tag_name (ns local : string) (n : Node) : bool :=
  is_element n && bool_decide (tag n = (Some ns, local)).
Definition is_attribute (ns local : string) (a : Attribute) : bool :=
  bool_decide (a_namespace a = Some ns) && String.eqb (a_name a) local.
Definition attribute (ns local : string) (n : Node) : option string :=
  a_value <$> List.find (is_attribute ns local) (attributes n).
(** [unwrap_or_default()]. *)
Definition opt (s : option string) : string := default ""%string s.
(** The texts among the children. *)
Definition texts (cs : list Node) : list string := omap (fun n => match n with Text t => Some t | _ => None end) cs.
(** The node and its descendants in document order, each with its proper ancestors
    below the root, the nearest first. *)
Fixpoint descend (above : list Node) (n : Node) : list (Node * list Node) :=
  (n, above) :: match n with Element _ _ _ cs => flat_map (descend (n :: above)) cs | _ => [] end.
Definition descendants (d : Document) : list (Node * list Node) := flat_map (descend []) d.
Definition element_descendants (d : Document) : list (Node * list Node) :=
  filter (fun p => is_element p.1 = true) (descendants d).

(** ** Values *)

(** @source src/src/xmp_rdf.rs:18-20 RDF *)
Definition RDF : string := "http://www.w3.org/1999/02/22-rdf-syntax-ns#".
Definition XML : string := "http://www.w3.org/XML/1998/namespace".
Definition MAX_BYTES : Z := 16 * 1024 * 1024.
(** A [BTreeMap] is the list of its entries by increasing keys. *)
(** @source src/src/xmp_rdf.rs:21-22 Name *)
Definition Name : Type := string * string.
(** @source src/src/xmp_rdf.rs:24-31 Value *)
Inductive Value : Type :=
| Literal (s : string)
| Uri (s : string)
| Struct (fields : list (Name * Value))
| Array (form : string) (items : list Value)
| Qualified (value : Value) (qualifiers : list (Name * Value)).
Definition Properties : Type := list (Name * Value).
(** @source src/src/xmp_rdf.rs:33-37 Model *)
Record Model : Type := mkModel { subject : string; properties : Properties }.

(** *** The derived order: by variant, then by the fields in turn; sequences and the
    entries of maps compare lexicographically. *)

Definition then_compare (c d : comparison) : comparison := match c with Eq => d | _ => c end.
Definition list_compare {A} (compare : A -> A -> comparison) : list A -> list A -> comparison :=
  fix go l1 l2 :=
    match l1, l2 with
    | [], [] => Eq
    | [], _ :: _ => Lt
    | _ :: _, [] => Gt
    | x :: l1, y :: l2 => then_compare (compare x y) (go l1 l2)
    end.
Definition pair_compare {A B} (c : A -> A -> comparison) (d : B -> B -> comparison) (x y : A * B) : comparison :=
  then_compare (c x.1 y.1) (d x.2 y.2).
Definition name_compare : Name -> Name -> comparison := pair_compare String.compare String.compare.
Definition variant (v : Value) : Z :=
  match v with Literal _ => 0 | Uri _ => 1 | Struct _ => 2 | Array _ _ => 3 | Qualified _ _ => 4 end.
Fixpoint value_compare (a b : Value) : comparison :=
  match a, b with
  | Literal s, Literal t => String.compare s t
  | Uri s, Uri t => String.compare s t
  | Struct p, Struct q => list_compare (pair_compare name_compare value_compare) p q
  | Array f l, Array g k => then_compare (String.compare f g) (list_compare value_compare l k)
  | Qualified v p, Qualified w q =>
      then_compare (value_compare v w)
        (list_compare (pair_compare name_compare value_compare) p q)
  | _, _ => variant a ?= variant b
  end.
Definition value_le (a b : Value) : Prop := value_compare a b <> Gt.
#[export] Instance value_le_dec a b : Decision (value_le a b).
Proof. unfold value_le. solve_decision. Defined.

(** *** Maps *)

Fixpoint get_property (p : Properties) (k : Name) : option Value :=
  match p with
  | [] => None
  | (k', v) :: p => if bool_decide (k' = k) then Some v else get_property p k
  end.
Fixpoint insert_sorted (p : Properties) (k : Name) (v : Value) : Properties :=
  match p with
  | [] => [(k, v)]
  | (k', v') :: p' => match name_compare k k' with Gt => (k', v') :: insert_sorted p' k v | _ => (k, v) :: p end
  end.
Fixpoint remove_property (p : Properties) (k : Name) : Properties :=
  match p with
  | [] => []
  | (k', v') :: p => if bool_decide (k' = k) then p else (k', v') :: remove_property p k
  end.
(** @source src/src/xmp_rdf.rs:85-94 insert *)
Definition insert (p : Properties) (k : Name) (v : Value) : result Error Properties :=
  match get_property p k with
  | Some _ => Err (says ("duplicate RDF property or qualifier {" +:+ k.1 +:+ "}" +:+ k.2))
  | None => Ok (insert_sorted p k v)
  end.
(** [for (key, value) in entries { insert(&mut properties, key, value)?; }] *)
Fixpoint insert_all (p entries : Properties) : result Error Properties :=
  match entries with
  | [] => Ok p
  | (k, v) :: entries => let? p := insert p k v in insert_all p entries
  end.
(** @source src/src/xmp_rdf.rs:80-83 name *)
Definition name (namespace : option string) (local : string) : result Error Name :=
  match namespace with Some ns => Ok (ns, local) | None => Err (says "RDF names require a namespace") end.

(** ** Interpretation of nodes *)

Definition is_blank (c : Ascii.ascii) : bool :=
  match Ascii.N_of_ascii c with 32%N | 9%N | 13%N | 10%N => true | _ => false end.
Fixpoint all_chars (p : Ascii.ascii -> bool) (s : string) : bool :=
  match s with EmptyString => true | String c s => p c && all_chars p s end.
(** The check of [elements]; its nodes are the element children. *)
(** @source src/src/xmp_rdf.rs:222-232 elements *)
Definition blank_texts (cs : list Node) : result Error unit :=
  rensure (forallb (all_chars is_blank) (texts cs)) (says "mixed RDF text and element content").
(** A loop over the element children. *)
Definition for_elements {A} (f : Node -> A -> result Error A) : list Node -> A -> result Error A :=
  fix go cs acc :=
    match cs with
    | [] => Ok acc
    | c :: cs => if is_element c then let? acc := f c acc in go cs acc else go cs acc
    end.
(** The first element child. *)
Definition first_element {A} (f : Node -> result Error A) : list Node -> result Error A :=
  fix go cs :=
    match cs with
    | [] => Err (Panic "index out of bounds")
    | c :: cs => if is_element c then f c else go cs
    end.
Definition count_elements (cs : list Node) : nat := length (filter (fun c => is_element c = true) cs).

(** @source src/src/xmp_rdf.rs:269-283 qualified *)
Definition qualified (v : Value) (qualifiers : Properties) : result Error Value :=
  let? r := (match v with
             | Qualified inner prior => let? q := insert_all qualifiers prior in Ok (inner, q)
             | _ => Ok (v, qualifiers)
             end) in
  Ok (if bool_decide (length r.2 = 0%nat) then r.1 else Qualified r.1 r.2).

Definition in_set (ns : option string) (spaces : list string) : bool :=
  match ns with Some ns => existsb (String.eqb ns) spaces | None => false end.
(** The compact fields of a description. *)
(** @source src/src/xmp_rdf.rs:238-252 fields *)
Fixpoint attribute_fields (top : bool) (xs : list Attribute) (p : Properties) : result Error Properties :=
  match xs with
  | [] => Ok p
  | a :: xs =>
      if is_attribute RDF "about" a && top then attribute_fields top xs p else
      let? _ := rensure (negb (in_set (a_namespace a) [RDF; XML]))
        (says ("unsupported RDF structure attribute " +:+ a_name a)) in
      let? k := name (a_namespace a) (a_name a) in
      let? p := insert p k (Literal (a_value a)) in
      attribute_fields top xs p
  end.
Definition is_field (n : Node) : bool :=
  match tag n with
  | (Some ns, local) => negb (String.eqb ns RDF) || existsb (String.eqb local) ["value"%string; "type"%string]
  | (None, _) => true
  end.
(** A child read as an entry of a map, its value by [property]. *)
Definition entry (property : Node -> result Error Value) (c : Node) (p : Properties) : result Error Properties :=
  let? k := name (tag c).1 (tag c).2 in
  let? v := property c in
  insert p k v.
(** @source src/src/xmp_rdf.rs:236-267 fields *)
Definition fields_by (property : Node -> result Error Value) (top : bool) (n : Node) : result Error Properties :=
  match n with
  | Element _ _ xs cs =>
      let? p := attribute_fields top xs [] in
      let? _ := blank_texts cs in
      for_elements (fun c p =>
        let? _ := rensure (is_field c) (says ("unsupported RDF property " +:+ (tag c).2)) in
        entry property c p) cs p
  | _ => Ok []
  end.

Definition lower (c : Ascii.ascii) : Ascii.ascii :=
  let n := Ascii.N_of_ascii c in
  if (65 <=? n)%N && (n <=? 90)%N then Ascii.ascii_of_N (n + 32) else c.
Fixpoint to_ascii_lowercase (s : string) : string :=
  match s with EmptyString => EmptyString | String c s => String (lower c) (to_ascii_lowercase s) end.

(** What the attributes of a property say. *)
Record Attributes : Type := mkAttributes {
  at_attributes : Properties; at_language : Properties; at_resource : option string;
  at_scalar : option string; at_structure : bool }.
(** @source src/src/xmp_rdf.rs:293-315 property *)
Definition property_attribute (a : Attribute) (s : Attributes) : result Error Attributes :=
  let '(mkAttributes attributes language resource scalar structure) := s in
  if is_attribute RDF "parseType" a then
    let? _ := rensure (String.eqb (a_value a) "Resource") (says "unsupported RDF parseType") in
    Ok (mkAttributes attributes language resource scalar true)
  else if is_attribute RDF "resource" a then
    Ok (mkAttributes attributes language (Some (a_value a)) scalar structure)
  else if is_attribute RDF "value" a then
    Ok (mkAttributes attributes language resource (Some (a_value a)) structure)
  else if is_attribute XML "lang" a then
    let? language := insert language (XML, "lang"%string) (Literal (to_ascii_lowercase (a_value a))) in
    Ok (mkAttributes attributes language resource scalar structure)
  else if in_set (a_namespace a) [RDF; XML] then
    Err (says ("unsupported RDF property attribute " +:+ a_name a))
  else
    let? k := name (a_namespace a) (a_name a) in
    let? attributes := insert attributes k (Literal (a_value a)) in
    Ok (mkAttributes attributes language resource scalar structure).
(** @source src/src/xmp_rdf.rs:287-316 property *)
Fixpoint property_attributes (xs : list Attribute) (s : Attributes) : result Error Attributes :=
  match xs with
  | [] => Ok s
  | a :: xs => let? s := property_attribute a s in property_attributes xs s
  end.

Definition language_of (v : Value) : option string :=
  match v with
  | Qualified _ q => match get_property q (XML, "lang"%string) with Some (Literal l) => Some l | _ => None end
  | _ => None
  end.
Definition is_alternative (v : Value) : bool :=
  match v with
  | Qualified (Literal _) _ => match language_of v with Some l => negb (String.eqb l "") | None => false end
  | _ => false
  end.
(** @source src/src/xmp_rdf.rs:433-448 language_alternatives *)
Fixpoint alternatives_from (languages : list string) (all : bool) (items : list Value) : result Error bool :=
  match items with
  | [] => Ok all
  | v :: items =>
      match language_of v with
      | Some l =>
          let? _ := rensure (negb (existsb (String.eqb l) languages))
            (says "ambiguous duplicate normalized RDF language alternative") in
          alternatives_from (l :: languages) (all && is_alternative v) items
      | None => alternatives_from languages false items
      end
  end.
(** @source src/src/xmp_rdf.rs:432-449 language_alternatives *)
Definition language_alternatives (items : list Value) : result Error bool :=
  alternatives_from [] (negb (bool_decide (length items = 0%nat))) items.

Definition is_array (n : Node) : bool :=
  match tag n with
  | (Some ns, local) => String.eqb ns RDF && existsb (String.eqb local) ["Bag"%string; "Seq"%string; "Alt"%string]
  | (None, _) => false
  end.
(** The order of items that has no meaning is normalized. *)
(** @source src/src/xmp_rdf.rs:383-386 property *)
Definition array (form : string) (items : list Value) : result Error Value :=
  let? unordered := (if String.eqb form "Bag" then Ok true
                     else if String.eqb form "Alt" then language_alternatives items else Ok false) in
  Ok (Array form (if unordered then merge_sort value_le items else items)).
(** The fields of a structure, or a value with its qualifiers. *)
(** @source src/src/xmp_rdf.rs:355-359 property *)
Definition value_of_fields (p : Properties) : result Error Value :=
  match get_property p (RDF, "value"%string) with
  | Some v => qualified v (remove_property p (RDF, "value"%string))
  | None => Ok (Struct p)
  end.
(** A description is its value; any other node is qualified by its type. *)
(** @source src/src/xmp_rdf.rs:394-409 property *)
Definition typed (n : Node) (v : Value) : result Error Value :=
  if has_tag_name RDF "Description" n then Ok v else
  let? _ := rensure (negb (bool_decide ((tag n).1 = Some RDF))) (says "unsupported typed RDF node") in
  match (tag n).1 with
  | None => Err (says "typed RDF node lacks namespace")
  | Some ns => qualified v [((RDF, "type"%string), Uri (ns +:+ (tag n).2))]
  end.
(** The members of an array. *)
(** @source src/src/xmp_rdf.rs:376-382 property *)
Definition member (property : Node -> result Error Value) (item : Node) (items : list Value) : result Error (list Value) :=
  let? _ := rensure (has_tag_name RDF "li" item) (says "unsupported numbered or named RDF array member") in
  let? v := property item in
  Ok (items ++ [v]).
(** The node that is the content of a property. *)
(** @source src/src/xmp_rdf.rs:368-410 property *)
Definition node_value (property : Node -> result Error Value) (c : Node) : result Error Value :=
  match c with
  | Element _ _ ys ds =>
      if is_array c then
        let? _ := rensure (bool_decide (length ys = 0%nat)) (says "unsupported RDF array attributes") in
        let? _ := blank_texts ds in
        let? items := for_elements (member property) ds [] in
        array (tag c).2 items
      else
        let? p := fields_by property false c in
        let? v := value_of_fields p in
        typed c v
  | _ => Err (Panic "not an element")
  end.
Definition empty_texts (cs : list Node) : bool := forallb (fun t => String.eqb t "") (texts cs).

(** The value of a property, by what its attributes say and by its children. *)
(** @source src/src/xmp_rdf.rs:317-429 property *)
Definition property_value (property : Node -> result Error Value) (s : Attributes) (cs : list Node) : result Error Value :=
  let '(mkAttributes attributes language resource scalar structure) := s in
  let? _ := rensure (bool_decide (resource = None) || bool_decide (scalar = None))
    (says "conflicting RDF resource/value attributes") in
  if negb (bool_decide (resource = None)) || negb (bool_decide (scalar = None)) then
    let? _ := rensure (bool_decide (count_elements cs = 0%nat) && negb structure && empty_texts cs)
      (says "content on RDF resource/value property") in
    let value := match resource with Some uri => Uri uri | None => Literal (opt scalar) end in
    let? attributes := insert_all attributes language in
    qualified value attributes
  else if structure then
    let? _ := rensure (bool_decide (length attributes = 0%nat)) (says "unexpected fields as parseType attributes") in
    let? _ := blank_texts cs in
    let? p := for_elements (entry property) cs [] in
    let? v := value_of_fields p in
    qualified v language
  else if negb (bool_decide (count_elements cs = 0%nat)) then
    let? _ := blank_texts cs in
    let? _ := rensure (bool_decide (length attributes = 0%nat) && bool_decide (count_elements cs = 1%nat))
      (says "unsupported RDF resource property content") in
    let? v := first_element (node_value property) cs in
    qualified v language
  else if negb (bool_decide (length attributes = 0%nat)) then
    let? _ := rensure (empty_texts cs) (says "text on compact RDF structure") in
    qualified (Struct attributes) language
  else qualified (Literal (String.concat "" (texts cs))) language.
(** @source src/src/xmp_rdf.rs:285-430 property *)
Fixpoint property (n : Node) : result Error Value :=
  match n with
  | Element _ _ xs cs =>
      let? s := property_attributes xs (mkAttributes [] [] None None false) in
      property_value property s cs
  | _ => Ok (Literal "")
  end.
(** @source src/src/xmp_rdf.rs:236-267 fields *)
Definition fields (n : Node) (top : bool) : result Error Properties := fields_by property top n.

(** ** A packet and the comparison of two *)

Definition fold_ok {A B} (f : A -> B -> result Error B) : list A -> B -> result Error B :=
  fix go l b :=
    match l with
    | [] => Ok b
    | x :: l => let? b := f x b in go l b
    end.
Definition sum_lengths (ns : list string) (n : Z) : result Error Z := fold_ok (fun s n => add n (zlength s)) ns n.

(** The counters of the scan. *)
Record Counts : Type := mkCounts {
  strings : Z; entries : Z; elements : Z; arrays : Z; boxes : Z; maximum_depth : Z }.
(** [node.ancestors().take(66).count()]: the node, what is above it, and the root. *)
Definition depth (above : list Node) : Z := 66 `min` (Z.of_nat (length above) + 2).
Definition counted_twice (a : Attribute) : bool :=
  is_attribute XML "lang" a || is_attribute RDF "resource" a || is_attribute RDF "value" a.
(** @source src/src/xmp_rdf.rs:185-196 rdf_model_storage *)
Definition count_attribute (a : Attribute) (c : Counts) : result Error Counts :=
  let? entries' := add (entries c) 1 in
  let? strings' := sum_lengths ([opt (a_namespace a); a_name a; a_value a] ++
    (if counted_twice a then [a_value a] else [])) (strings c) in
  Ok (mkCounts strings' entries' (elements c) (arrays c) (boxes c) (maximum_depth c)).
(** @source src/src/xmp_rdf.rs:176-206 rdf_model_storage *)
Definition count_node (p : Node * list Node) (c : Counts) : result Error Counts :=
  let '(n, above) := p in
  let? elements' := add (elements c) 1 in
  let? strings' := sum_lengths [opt (tag n).1; (tag n).2] (strings c) in
  let? arrays' := (if is_array n then add (arrays c) 1 else Ok (arrays c)) in
  let? c := fold_ok count_attribute (attributes n)
    (mkCounts strings' (entries c) elements' arrays' (boxes c) (maximum_depth c `max` depth above)) in
  let? strings' := sum_lengths (texts (children n)) (strings c) in
  let? entries' := (if bool_decide (length above = 0%nat) then Ok (entries c) else add (entries c) 1) in
  let? boxes' := (if bool_decide (length (attributes n) = 0%nat) then Ok (boxes c) else add (boxes c) 1) in
  Ok (mkCounts strings' entries' (elements c) (arrays c) boxes' (maximum_depth c)).

Section Compare.
(** The XML reader, with the limits the code gives it, and the layouts of [Name] and
    [Value] the compiler chooses. *)
Context (parse : string -> result Error Document) (name_layout value_layout : Layout).
Context (admission : list Z -> Z -> result Error unit).

(** @source src/src/xmp_rdf.rs:169-220 rdf_model_storage *)
Definition rdf_model_storage (d : Document) : result Error Z :=
  let? c := fold_ok count_node (element_descendants d) (mkCounts 0 0 0 0 0 0) in
  let? nodes := add (entries c) (elements c) in
  let? tree_nodes := add nodes (maximum_depth c) in
  let? node := tree_node_layout name_layout value_layout in
  let? trees := mul tree_nodes node in
  let? doubled := mul 2 (elements c) in
  let? minimum := mul 8 (arrays c) in
  let? vector_entries := add doubled minimum in
  let? vectors := mul vector_entries (l_size value_layout) in
  let? boxed := mul (boxes c) (l_size value_layout) in
  let? vectors_boxed := add vectors boxed in
  let? owned := add trees vectors_boxed in
  add (strings c) owned.

(** What is refused anywhere in a packet. *)
Definition unsupported (a : Attribute) : bool :=
  is_attribute RDF "ID" a || is_attribute RDF "nodeID" a || is_attribute RDF "datatype" a.
(** @source src/src/xmp_rdf.rs:108-119 model_admitted *)
Definition check_node (p : Node * list Node) (_ : unit) : result Error unit :=
  let? _ := rensure (depth p.2 <=? 65) (says "RDF comparison exceeds nesting limit") in
  fold_ok (fun a _ =>
    rensure (negb (unsupported a)) (says ("unsupported RDF identity/datatype attribute: " +:+ a_name a)))
    (attributes p.1) tt.
(** @source src/src/xmp_rdf.rs:108-120 model_admitted *)
Definition check_nodes (d : Document) : result Error unit := fold_ok check_node (element_descendants d) tt.

(** The description nodes below the one [rdf:RDF]. *)
(** @source src/src/xmp_rdf.rs:139-154 model_admitted *)
Definition description (n : Node) (s : option string * Properties) : result Error (option string * Properties) :=
  let? _ := rensure (has_tag_name RDF "Description" n) (says "unsupported top-level RDF node") in
  let current := opt (attribute RDF "about" n) in
  let? subject := (match s.1 with
                   | Some previous =>
                       let? _ := rensure (String.eqb previous current) (says "multiple RDF subjects") in Ok previous
                   | None => Ok current
                   end) in
  let? p := fields n true in
  let? properties := insert_all s.2 p in
  Ok (Some subject, properties).
(** @source src/src/xmp_rdf.rs:123-125 model_admitted *)
Definition find_root (d : Document) : result Error (Node * list Node) :=
  match filter (fun p => has_tag_name RDF "RDF" p.1 = true) (descendants d) with
  | [] => Err (says "missing RDF model")
  | [root] => Ok root
  | _ => Err (says "multiple RDF models")
  end.
Definition inherits (n : Node) : bool :=
  negb (bool_decide (attribute XML "base" n = None)) || negb (bool_decide (attribute XML "lang" n = None)).
(** @source src/src/xmp_rdf.rs:123-158 model_admitted *)
Definition model_of (d : Document) : result Error Model :=
  let? root := find_root d in
  let? _ := rensure (negb (existsb inherits root.2)) (says "unsupported inherited XML base/language on RDF model") in
  let? _ := rensure (bool_decide (length (attributes root.1) = 0%nat)) (says "unsupported attributes on rdf:RDF") in
  let? _ := blank_texts (children root.1) in
  let? s := for_elements description (children root.1) (None, []) in
  Ok (mkModel (opt s.1) s.2).
(** @source src/src/xmp_rdf.rs:96-162 model_admitted *)
Definition model_admitted (text : string) : proc Error Requested (Model * Scope) :=
  ensure (zlength text <=? MAX_BYTES) (says "RDF comparison exceeds byte limit") ;;;
  let* storage := lift (xml_document text) in
  guarded admission storage (
    let* d := lift (parse text) in
    lift (check_nodes d) ;;;
    let* model_bytes := lift (rdf_model_storage d) in
    owning admission model_bytes (lift (model_of d))).

(** The loop over the properties of the source. *)
(** @source src/src/xmp_rdf.rs:69-76 assert_equivalent_admitted *)
Fixpoint compare_properties (source serialized : Properties) : result Error unit :=
  match source with
  | [] => Ok tt
  | (k, v) :: source =>
      let? _ := rensure (match get_property serialized k with
                         | Some w => match value_compare v w with Eq => true | _ => false end
                         | None => false
                         end)
        (says ("XMP serialization changed property {" +:+ k.1 +:+ "}" +:+ k.2)) in
      compare_properties source serialized
  end.
(** @source src/src/xmp_rdf.rs:61-78 assert_equivalent_admitted *)
Definition compare_models (source serialized : Model) : result Error unit :=
  let? _ := rensure (String.eqb (subject source) (subject serialized)) (says "XMP serialization changed RDF subject") in
  let? _ := rensure (bool_decide (length (properties source) = length (properties serialized)))
    (says "XMP serialization changed property count") in
  compare_properties (properties source) (properties serialized).
Definition under {A} (m : string) (p : proc Error Requested A) : proc Error Requested A :=
  fun s => match p s with (s', r) => (s', in_context m r) end.
(** @source src/src/xmp_rdf.rs:52-78 assert_equivalent_admitted *)
Definition assert_equivalent_admitted (source_xml serialized_xml : string) : proc Error Requested unit :=
  let* source := under "original RDF semantics" (model_admitted source_xml) in
  consuming source.2 (
    let* serialized := under "serialized RDF semantics" (model_admitted serialized_xml) in
    consuming serialized.2 (lift (compare_models source.1 serialized.1))).
End Compare.
