(* ===== verification/RdfOrder.v ===== *)
(** The order of RDF values: it is total and agrees with equality, so that sorting
    makes a list of items canonical; and the maps ordered by it. *)
From stdpp Require Import base tactics option list numbers strings sorting sets.
From Stdlib Require Import ZArith Lia.
From S2P Require Import Prelude Requested RdfModel.

(** ** Induction on values and on nodes *)

Section Induction.
Context (P : Value -> Prop)
  (Hliteral : forall s, P (Literal s)) (Huri : forall s, P (Uri s))
  (Hstruct : forall p, Forall (fun x => P x.2) p -> P (Struct p))
  (Harray : forall f l, Forall P l -> P (Array f l))
  (Hqualified : forall v q, P v -> Forall (fun x => P x.2) q -> P (Qualified v q)).
Fixpoint value_induction (v : Value) : P v :=
  let entries := fix entries (p : Properties) : Forall (fun x => P x.2) p :=
    match p with
    | [] => Forall_nil_2 _
    | x :: p => Forall_cons_2 _ x p (value_induction x.2) (entries p)
    end in
  match v with
  | Literal s => Hliteral s
  | Uri s => Huri s
  | Struct p => Hstruct p (entries p)
  | Array f l => Harray f l ((fix items (l : list Value) : Forall P l :=
      match l with
      | [] => Forall_nil_2 _
      | x :: l => Forall_cons_2 _ x l (value_induction x) (items l)
      end) l)
  | Qualified v q => Hqualified v q (value_induction v) (entries q)
  end.
End Induction.

Section NodeInduction.
Context (P : Node -> Prop)
  (Helement : forall ns l xs cs, Forall P cs -> P (Element ns l xs cs))
  (Htext : forall t, P (Text t)) (Hother : P Other).
Fixpoint node_induction (n : Node) : P n :=
  match n with
  | Element ns l xs cs => Helement ns l xs cs ((fix nodes (cs : list Node) : Forall P cs :=
      match cs with
      | [] => Forall_nil_2 _
      | c :: cs => Forall_cons_2 _ c cs (node_induction c) (nodes cs)
      end) cs)
  | Text t => Htext t
  | Other => Hother
  end.
End NodeInduction.

(** ** Laws of comparisons *)

Definition agrees {A} (c : A -> A -> comparison) (x : A) : Prop := forall y, c x y = Eq <-> x = y.
Definition opposes {A} (c : A -> A -> comparison) (x : A) : Prop := forall y, c y x = CompOpp (c x y).
Definition chains {A} (c : A -> A -> comparison) (x : A) : Prop :=
  forall y z, c x y = Lt -> c y z = Lt -> c x z = Lt.

Lemma then_Eq c d : then_compare c d = Eq <-> c = Eq /\ d = Eq.
Proof. destruct c; simpl; naive_solver. Qed.
Lemma then_opp c d : CompOpp (then_compare c d) = then_compare (CompOpp c) (CompOpp d).
Proof. by destruct c. Qed.
Lemma then_Lt c d : then_compare c d = Lt <-> c = Lt \/ (c = Eq /\ d = Lt).
Proof. destruct c; simpl; naive_solver. Qed.

Section Laws.
Context {A B : Type} (c : A -> A -> comparison) (d : B -> B -> comparison).

Lemma pair_agrees x : agrees c x.1 -> agrees d x.2 -> agrees (pair_compare c d) x.
Proof. intros Hc Hd y. unfold pair_compare. rewrite then_Eq, (Hc _), (Hd _). destruct x, y; simpl. naive_solver. Qed.
Lemma pair_opposes x : opposes c x.1 -> opposes d x.2 -> opposes (pair_compare c d) x.
Proof. intros Hc Hd y. unfold pair_compare. by rewrite then_opp, (Hc _), (Hd _). Qed.
Lemma pair_chains x :
  (forall a, agrees c a) -> chains c x.1 -> chains d x.2 -> chains (pair_compare c d) x.
Proof.
  intros He Hc Hd y z. unfold pair_compare. rewrite !then_Lt. intros [H1|[H1 H1']] [H2|[H2 H2']].
  - left. eauto.
  - apply He in H2 as <-. by left.
  - apply He in H1 as ->. by left.
  - right. apply He in H1 as ->. split; [done|eauto].
Qed.
Lemma list_agrees l : Forall (agrees c) l -> agrees (list_compare c) l.
Proof.
  induction 1 as [|x l Hx _ IH]; intros [|y k]; simpl; [done..|]. rewrite then_Eq, (Hx y), (IH k). naive_solver.
Qed.
Lemma list_opposes l : Forall (opposes c) l -> opposes (list_compare c) l.
Proof.
  induction 1 as [|x l Hx _ IH]; intros [|y k]; simpl; [done..|]. by rewrite then_opp, (Hx y), (IH k).
Qed.
Lemma list_chains l : (forall a, agrees c a) -> Forall (chains c) l -> chains (list_compare c) l.
Proof.
  intros He. induction 1 as [|x l Hx _ IH]; intros [|y k] [|z m]; simpl; try done.
  rewrite !then_Lt. intros [H1|[H1 H1']] [H2|[H2 H2']].
  - left. eauto.
  - apply He in H2 as <-. by left.
  - apply He in H1 as ->. by left.
  - right. apply He in H1 as ->. split; [done|eauto].
Qed.
End Laws.

Lemma ascii_agrees a : agrees Ascii.compare a.
Proof.
  intros b. split; [apply Ascii.compare_eq_iff|]. intros <-. apply N.compare_refl.
Qed.
Lemma ascii_chains a : chains Ascii.compare a.
Proof. intros b d. unfold Ascii.compare. rewrite !N.compare_lt_iff. lia. Qed.
Lemma string_compare_eq s t :
  String.compare s t = list_compare Ascii.compare (String.list_ascii_of_string s) (String.list_ascii_of_string t).
Proof.
  revert t. induction s as [|a s IH]; intros [|b t]; simpl; try done. rewrite IH. by destruct (Ascii.compare a b).
Qed.
Lemma list_ascii_inj s t : String.list_ascii_of_string s = String.list_ascii_of_string t -> s = t.
Proof. intros H. by rewrite <- (String.string_of_list_ascii_of_string s), H, String.string_of_list_ascii_of_string. Qed.
Lemma string_agrees s : agrees String.compare s.
Proof.
  intros t. rewrite string_compare_eq, (list_agrees _ _ (Forall_true _ _ ascii_agrees) _).
  split; [apply list_ascii_inj|by intros ->].
Qed.
Lemma string_opposes s : opposes String.compare s.
Proof. intros t. apply String.compare_antisym. Qed.
Lemma string_chains s : chains String.compare s.
Proof.
  intros t u. rewrite !string_compare_eq. apply list_chains; [apply ascii_agrees|].
  apply Forall_true. apply ascii_chains.
Qed.
Lemma name_agrees k : agrees name_compare k.
Proof. apply pair_agrees; apply string_agrees. Qed.
Lemma name_opposes k : opposes name_compare k.
Proof. apply pair_opposes; apply string_opposes. Qed.
Lemma name_chains k : chains name_compare k.
Proof. apply pair_chains; [apply string_agrees|apply string_chains..]. Qed.

(** Values. *)
Lemma entries_forall (Q : Name * Value -> Prop) (P : Value -> Prop) (p : Properties) :
  (forall x, P x.2 -> Q x) -> Forall (fun x => P x.2) p -> Forall Q p.
Proof. intros H Hp. eapply Forall_impl; [exact Hp|exact H]. Qed.
Abbreviation entries_compare := (list_compare (pair_compare name_compare value_compare)).
Lemma entries_agree p : Forall (fun x => agrees value_compare x.2) p -> agrees entries_compare p.
Proof. intros Hp. apply list_agrees. eapply entries_forall, Hp. intros x. apply pair_agrees, name_agrees. Qed.
Lemma entries_oppose p : Forall (fun x => opposes value_compare x.2) p -> opposes entries_compare p.
Proof. intros Hp. apply list_opposes. eapply entries_forall, Hp. intros x. apply pair_opposes, name_opposes. Qed.
Lemma value_agrees a : agrees value_compare a.
Proof.
  induction a as [s|s|p Hp|f l Hl|v q IH Hq] using value_induction; intros b; destruct b; simpl; try done.
  - rewrite (string_agrees _ _). naive_solver.
  - rewrite (string_agrees _ _). naive_solver.
  - rewrite (entries_agree p Hp _). naive_solver.
  - rewrite then_Eq, (string_agrees _ _), (list_agrees _ l Hl _). naive_solver.
  - rewrite then_Eq, (IH _), (entries_agree q Hq _). naive_solver.
Qed.
Lemma value_opposes a : opposes value_compare a.
Proof.
  induction a as [s|s|p Hp|f l Hl|v q IH Hq] using value_induction; intros b; destruct b; simpl; try done.
  - apply string_opposes.
  - apply string_opposes.
  - by apply entries_oppose.
  - by rewrite then_opp, (string_opposes _ _), (list_opposes _ _ Hl).
  - by rewrite then_opp, (IH _), (entries_oppose q Hq _).
Qed.
Lemma entries_chain p : Forall (fun x => chains value_compare x.2) p -> chains entries_compare p.
Proof.
  intros Hp. apply list_chains; [intros; apply pair_agrees; [apply name_agrees|apply value_agrees]|].
  eapply entries_forall, Hp. intros x. apply pair_chains; [apply name_agrees|apply name_chains].
Qed.
Lemma value_chains a : chains value_compare a.
Proof.
  induction a as [s|s|p Hp|f l Hl|v q IH Hq] using value_induction; intros b c; destruct b, c; simpl; try done.
  - apply string_chains.
  - apply string_chains.
  - by apply entries_chain.
  - refine (pair_chains String.compare (list_compare value_compare) (f, l) _ _ _ (_, _) (_, _));
      [apply string_agrees|apply string_chains|]. by apply list_chains; [apply value_agrees|].
  - refine (pair_chains value_compare entries_compare (v, q) _ _ _ (_, _) (_, _)); [apply value_agrees|done|by apply entries_chain].
Qed.

#[export] Instance value_eq_dec : EqDecision Value.
Proof.
  intros a b. destruct (value_compare a b) eqn:H; [left; by apply value_agrees|right..];
    intros ->; rewrite (proj2 (value_agrees b b) eq_refl) in H; done.
Defined.
#[export] Instance value_le_total : Total value_le.
Proof. intros a b. unfold value_le. rewrite (value_opposes a b). destruct (value_compare a b); simpl; naive_solver. Qed.
#[export] Instance value_le_antisymm : AntiSymm (=) value_le.
Proof.
  intros a b. unfold value_le. rewrite (value_opposes a b). destruct (value_compare a b) eqn:H; simpl; try done.
  intros _ _. by apply value_agrees.
Qed.
#[export] Instance value_le_trans : Transitive value_le.
Proof.
  intros a b c. unfold value_le. destruct (value_compare a b) eqn:H1; [apply value_agrees in H1 as ->; done| |done].
  destruct (value_compare b c) eqn:H2; [apply value_agrees in H2 as <-; congruence| |done].
  by rewrite (value_chains a b c H1 H2).
Qed.
(** Sorting forgets exactly the order. *)
Lemma sort_permutation (l k : list Value) : merge_sort value_le l = merge_sort value_le k <-> l ≡ₚ k.
Proof.
  split; intros H.
  - rewrite <- (merge_sort_Permutation value_le l), H. apply merge_sort_Permutation.
  - apply (Sorted_unique value_le); [apply Sorted_merge_sort, _..|]. by rewrite !merge_sort_Permutation.
Qed.
Lemma sort_of_sorted l : Sorted value_le l -> merge_sort value_le l = l.
Proof. intros H. apply (Sorted_unique value_le); [apply Sorted_merge_sort, _|done|apply merge_sort_Permutation]. Qed.

(** ** Maps as increasing lists *)

Definition name_lt (a b : Name) : Prop := name_compare a b = Lt.
Definition entry_lt (x y : Name * Value) : Prop := name_lt x.1 y.1.
#[export] Instance name_lt_trans : Transitive name_lt.
Proof. intros a b c. apply name_chains. Qed.
#[export] Instance name_lt_irrefl : Irreflexive name_lt.
Proof. intros a H. unfold name_lt in H. by rewrite (proj2 (name_agrees a a) eq_refl) in H. Qed.
#[export] Instance entry_lt_trans : Transitive entry_lt.
Proof. intros x y z. apply name_lt_trans. Qed.
Definition increasing (p : Properties) : Prop := StronglySorted entry_lt p.

Lemma get_not_in (p : Properties) k : get_property p k = None <-> k ∉ p.*1.
Proof.
  induction p as [|[k' v] p IH]; simpl; [by split; [intros _ ?%not_elem_of_nil|]|]. rewrite not_elem_of_cons, <- IH.
  case_bool_decide; naive_solver.
Qed.
Lemma get_in p k v : increasing p -> get_property p k = Some v <-> (k, v) ∈ p.
Proof.
  intros Hp. induction Hp as [|[k' w] p Hp IH Hall]; simpl; [by rewrite elem_of_nil|]. rewrite elem_of_cons, <- IH.
  rewrite Forall_forall in Hall. case_bool_decide as Hk; [subst|].
  - split; [intros [= ->]; by left|]. intros [[= ->]|H]; [done|]. apply IH in H.
    specialize (Hall _ H). by apply (irreflexivity name_lt) in Hall.
  - naive_solver.
Qed.
Lemma get_gt p k : increasing p -> Forall (fun x => name_lt k x.1) p -> get_property p k = None.
Proof.
  intros _ H. apply get_not_in. intros (x & -> & Hx)%list_elem_of_fmap. rewrite Forall_forall in H.
  apply H in Hx. by apply (irreflexivity name_lt) in Hx.
Qed.
(** Maps are equal when they have the same entries. *)
Lemma increasing_ext p q : increasing p -> increasing q -> (forall k, get_property p k = get_property q k) -> p = q.
Proof.
  intros Hp. revert q. induction Hp as [|[k v] p Hp IH Hall]; intros q Hq H.
  - destruct q as [|[k' w] q]; [done|]. specialize (H k'). simpl in H. by rewrite bool_decide_eq_true_2 in H.
  - destruct Hq as [|[k' w] q Hq Hall'].
    { specialize (H k). simpl in H. by rewrite bool_decide_eq_true_2 in H. }
    destruct (name_compare k k') eqn:Hc.
    + apply name_agrees in Hc as <-. pose proof (H k) as Hk. simpl in Hk. rewrite !bool_decide_eq_true_2 in Hk by done.
      injection Hk as <-. f_equal. apply IH; [done|]. intros k'. specialize (H k'). simpl in H.
      case_bool_decide; [|done]. subst. by rewrite !get_gt.
    + exfalso. specialize (H k). simpl in H. rewrite bool_decide_eq_true_2 in H by done.
      rewrite bool_decide_eq_false_2 in H by (intros <-; by apply (irreflexivity name_lt) in Hc).
      rewrite get_gt in H; [done|done|]. eapply Forall_impl; [exact Hall'|]. intros x Hx. simpl in Hx. by etrans.
    + exfalso. assert (name_lt k' k) as Hlt by (unfold name_lt; rewrite (name_opposes k k'), Hc; done).
      specialize (H k'). simpl in H. rewrite (bool_decide_eq_true_2 (k' = k')) in H by done.
      rewrite bool_decide_eq_false_2 in H by (intros <-; by apply (irreflexivity name_lt) in Hlt).
      rewrite get_gt in H; [done|done|]. eapply Forall_impl; [exact Hall|]. intros x Hx. simpl in Hx. by etrans.
Qed.

Lemma insert_sorted_permutation p k v : insert_sorted p k v ≡ₚ (k, v) :: p.
Proof.
  induction p as [|[k' w] p IH]; simpl; [done|]. destruct (name_compare k k'); [done..|]. rewrite IH. constructor.
Qed.
Lemma insert_sorted_increasing p k v : increasing p -> get_property p k = None -> increasing (insert_sorted p k v).
Proof.
  intros Hp. induction Hp as [|[k' w] p Hp IH Hall]; simpl; [by repeat constructor|]. case_bool_decide; [done|].
  intros Hk. specialize (IH Hk). destruct (name_compare k k') eqn:Hc.
  - apply name_agrees in Hc as ->. done.
  - constructor; [by constructor|]. constructor; [done|]. eapply Forall_impl; [exact Hall|].
    intros x Hx. by etrans; [|exact Hx].
  - constructor; [done|]. rewrite Forall_forall. intros x. rewrite insert_sorted_permutation. rewrite elem_of_cons.
    rewrite Forall_forall in Hall. intros [->|Hx]; [|auto]. unfold entry_lt, name_lt. simpl. by rewrite (name_opposes k k'), Hc.
Qed.
Lemma increasing_keys p : increasing p -> NoDup p.*1.
Proof.
  induction 1 as [|[k v] p Hp IH Hall]; simpl; [constructor|]. constructor; [|done].
  intros (x & -> & Hx)%list_elem_of_fmap. rewrite Forall_forall in Hall. specialize (Hall x Hx).
  by apply (irreflexivity name_lt) in Hall.
Qed.
Lemma increasing_unique p q : increasing p -> increasing q -> p ≡ₚ q -> p = q.
Proof.
  intros Hp Hq Heq. apply increasing_ext; [done..|]. intros k. destruct (get_property p k) as [v|] eqn:Hk.
  - apply get_in in Hk; [|done]. rewrite Heq in Hk. symmetry. by apply get_in.
  - symmetry. apply get_not_in in Hk. apply get_not_in. by rewrite <- Heq.
Qed.
(** A successful insertion is the only map of the entries. *)
Lemma insert_Ok p k v q : increasing p -> insert p k v = Ok q <-> increasing q /\ q ≡ₚ (k, v) :: p.
Proof.
  intros Hp. unfold insert. split.
  - destruct (get_property p k) eqn:Hk; [done|]. intros [= <-].
    split; [by apply insert_sorted_increasing|apply insert_sorted_permutation].
  - intros [Hq Heq]. assert (get_property p k = None) as Hk.
    { apply get_not_in. apply increasing_keys in Hq. rewrite Heq in Hq. by inversion Hq. }
    rewrite Hk. f_equal. apply increasing_unique; [by apply insert_sorted_increasing|done|].
    by rewrite insert_sorted_permutation, Heq.
Qed.
Lemma insert_all_Ok p es q : increasing p -> insert_all p es = Ok q <-> increasing q /\ q ≡ₚ es ++ p.
Proof.
  revert p. induction es as [|[k v] es IH]; intros p Hp; simpl.
  - split; [by intros [= ->]|]. intros [Hq Heq]. f_equal. by apply increasing_unique.
  - rewrite rbind_Ok. split.
    + intros (p' & [Hp' Heq']%insert_Ok & [Hq Heq]%IH); [|done..]. split; [done|]. by rewrite Heq, Heq', Permutation_middle.
    + intros [Hq Heq].
      assert (get_property p k = None) as Hk.
      { apply get_not_in. apply increasing_keys in Hq. rewrite Heq in Hq. simpl in Hq. rewrite fmap_app in Hq.
        apply NoDup_cons in Hq as [H _]. set_solver. }
      exists (insert_sorted p k v). pose proof (insert_sorted_increasing p k v Hp Hk). unfold insert. rewrite Hk. split; [done|].
      apply IH; [done|]. split; [done|]. by rewrite insert_sorted_permutation, Heq, Permutation_middle.
Qed.
(** The map of a list of entries, when no two have the same key. *)
Definition map_of (es m : Properties) : Prop := increasing m /\ m ≡ₚ es.
Lemma map_of_nil : map_of [] [].
Proof. split; [constructor|done]. Qed.
Lemma map_of_self m : increasing m -> map_of m m.
Proof. by split. Qed.
Lemma map_of_perm es es' m : es ≡ₚ es' -> map_of es m <-> map_of es' m.
Proof. intros H. unfold map_of. by rewrite H. Qed.
Lemma map_of_unique es m m' : map_of es m -> map_of es m' -> m = m'.
Proof. intros [H1 H2] [H3 H4]. apply increasing_unique; [done..|]. by rewrite H2, H4. Qed.
Lemma map_of_app es es' m m' : map_of es m -> map_of (es' ++ es) m' <-> map_of (es' ++ m) m'.
Proof. intros [_ H]. unfold map_of. by rewrite H. Qed.

Lemma remove_spec p k v : increasing p -> get_property p k = Some v ->
  increasing (remove_property p k) /\ p ≡ₚ (k, v) :: remove_property p k /\ get_property (remove_property p k) k = None.
Proof.
  intros Hp. induction Hp as [|[k' w] p Hp IH Hall]; simpl; [done|]. case_bool_decide.
  - subst. intros [= ->]. split_and!; [done|done|]. by apply get_gt.
  - intros H'. destruct (IH H') as (H1 & H2 & H3). split_and!.
    + constructor; [done|]. rewrite Forall_forall in Hall |- *. intros x Hx. apply Hall. rewrite H2. by right.
    + rewrite H2 at 1. constructor.
    + simpl. by rewrite bool_decide_eq_false_2.
Qed.
Lemma get_map_of es m k v : map_of es m -> get_property m k = Some v <-> (k, v) ∈ es.
Proof. intros [H1 H2]. rewrite get_in by done. by rewrite H2. Qed.
Lemma get_map_of_None es m k : map_of es m -> get_property m k = None <-> k ∉ es.*1.
Proof. intros [H1 H2]. rewrite get_not_in. by rewrite H2. Qed.
Lemma map_of_exists es : (exists m, map_of es m) <-> NoDup es.*1.
Proof.
  split.
  - intros [m [Hm Heq]]. apply increasing_keys in Hm. by rewrite Heq in Hm.
  - induction es as [|[k v] es IH]; simpl; [eexists; apply map_of_nil|]. intros [Hk Hn]%NoDup_cons.
    destruct (IH Hn) as [m Hm]. exists (insert_sorted m k v). split.
    + apply insert_sorted_increasing; [apply Hm|]. by apply (get_map_of_None _ _ _ Hm).
    + rewrite insert_sorted_permutation. by rewrite (proj2 Hm).
Qed.
