(* ===== verification/RdfReading.v ===== *)
(** What the interpretation of RDF nodes accepts: each loop and each check of
    RdfModel as a statement about the set of the entries, without an order. *)
From stdpp Require Import base tactics option list numbers strings sorting sets.
From Stdlib Require Import ZArith Lia.
From S2P Require Import Prelude Requested RdfModel RdfOrder.

Open Scope Z_scope.
Local Open Scope prog_scope.

(** ** Loops *)

Definition elems (cs : list Node) : list Node := filter (fun c => is_element c = true) cs.
Lemma for_elements_fold {A} (f : Node -> A -> result Error A) cs acc : for_elements f cs acc = fold_ok f (elems cs) acc.
Proof.
  revert acc. induction cs as [|c cs IH]; intros acc; [done|]. unfold elems. rewrite filter_cons. simpl.
  destruct (is_element c) eqn:Hc; simpl; [|apply IH]. destruct (f c acc); simpl; [apply IH|done].
Qed.
Lemma first_element_elems {A} (f : Node -> result Error A) cs c l : elems cs = c :: l -> first_element f cs = f c.
Proof.
  unfold elems. induction cs as [|d cs IH]; [done|]. rewrite filter_cons. simpl.
  destruct (is_element d) eqn:Hd; simpl; [by intros [= -> _]|apply IH].
Qed.
Lemma fold_ok_cons {A B} (f : A -> B -> result Error B) x l b c :
  fold_ok f (x :: l) b = Ok c <-> exists b', f x b = Ok b' /\ fold_ok f l b' = Ok c.
Proof. simpl. apply rbind_Ok. Qed.
Lemma rensure_Ok {E} b (e : E) (P : Prop) : (exists u, rensure b e = Ok u /\ P) <-> b = true /\ P.
Proof. destruct b; simpl; naive_solver. Qed.
Lemma rensure_bind {E A} b (e : E) (k : unit -> result E A) x :
  rbind (rensure b e) k = Ok x <-> b = true /\ k tt = Ok x.
Proof. destruct b; simpl; naive_solver. Qed.

(** An element child that is read as an entry, and one that is read as a member. *)
Definition is_entry (R : Node -> result Error Value) (c : Node) (kv : Name * Value) : Prop :=
  tag c = (Some kv.1.1, kv.1.2) /\ R c = Ok kv.2.
Definition is_member (R : Node -> result Error Value) (c : Node) (v : Value) : Prop :=
  has_tag_name RDF "li" c = true /\ R c = Ok v.

Lemma entry_Ok R c p q : increasing p -> entry R c p = Ok q <-> exists kv, is_entry R c kv /\ map_of (kv :: p) q.
Proof.
  intros Hp. unfold entry, is_entry, name. destruct (tag c) as [[ns|] local]; simpl.
  - rewrite rbind_Ok. split.
    + intros (v & Hv & H). exists ((ns, local), v). split; [done|]. by apply insert_Ok in H.
    + intros ([[ns' l'] v] & [Heq Hv] & Hm). simpl in *. injection Heq as <- <-. exists v.
      split; [done|]. by apply insert_Ok.
  - split; [done|]. by intros (kv & [? _] & _).
Qed.
Lemma map_of_step kv kvs p p' q : map_of (kv :: p) p' -> map_of (kvs ++ p') q <-> map_of (kv :: kvs ++ p) q.
Proof. intros H. unfold map_of in *. destruct H as [_ ->]. by rewrite <- Permutation_middle. Qed.
Lemma map_of_first kv kvs p q :
  increasing p -> map_of (kv :: kvs ++ p) q -> map_of (kv :: p) (insert_sorted p kv.1 kv.2).
Proof.
  intros Hp [Hi Heq]. split; [|rewrite insert_sorted_permutation; by destruct kv].
  apply insert_sorted_increasing; [done|]. apply get_not_in. apply increasing_keys in Hi. rewrite Heq in Hi. simpl in Hi.
  rewrite fmap_app in Hi. apply NoDup_cons in Hi as [Hi _]. set_solver.
Qed.
Lemma entries_Ok R cs p q : increasing p ->
  fold_ok (entry R) cs p = Ok q <-> exists kvs, Forall2 (is_entry R) cs kvs /\ map_of (kvs ++ p) q.
Proof.
  revert p. induction cs as [|c cs IH]; intros p Hp.
  - simpl. split.
    + intros [= ->]. exists []. split; [constructor|by apply map_of_self].
    + intros (kvs & ->%Forall2_nil_inv_l & H). f_equal. symmetry. eapply increasing_unique; [apply H|done|apply H].
  - rewrite fold_ok_cons. split.
    + intros (p' & (kv & Hkv & H)%entry_Ok & (kvs & Hall & Hq)%IH); [|apply H|done]. exists (kv :: kvs).
      split; [by constructor|]. by apply (map_of_step _ _ _ _ _ H).
    + intros (l & (kv & kvs & Hkv & Hall & ->)%Forall2_cons_inv_l & Hq).
      pose proof (map_of_first _ _ _ _ Hp Hq) as Hm.
      exists (insert_sorted p kv.1 kv.2). split; [apply entry_Ok; eauto|]. apply IH; [apply Hm|]. exists kvs.
      split; [done|]. by apply (map_of_step _ _ _ _ _ Hm).
Qed.
Lemma members_Ok R cs items items' :
  fold_ok (member R) cs items = Ok items' <-> exists vs, Forall2 (is_member R) cs vs /\ items' = items ++ vs.
Proof.
  revert items. induction cs as [|c cs IH]; intros items.
  - simpl. split.
    + intros [= ->]. exists []. by rewrite app_nil_r.
    + intros (vs & ->%Forall2_nil_inv_l & ->). by rewrite app_nil_r.
  - rewrite fold_ok_cons. unfold member at 1. split.
    + intros (i & [Hc (v & Hv & [= <-])%rbind_Ok]%rensure_bind & (vs & Hall & ->)%IH). exists (v :: vs).
      split; [by constructor|]. by rewrite <- app_assoc.
    + intros (l & (v & vs & [Hc Hv] & Hall & ->)%Forall2_cons_inv_l & ->). exists (items ++ [v]). split.
      * rewrite Hc. simpl. by rewrite Hv.
      * apply IH. exists vs. split; [done|]. by rewrite <- app_assoc.
Qed.

(** ** Attributes *)

Definition spaces (a : Attribute) : bool := in_set (a_namespace a) [RDF; XML].
Definition compact_entry (a : Attribute) (kv : Name * Value) : Prop :=
  a_namespace a = Some kv.1.1 /\ a_name a = kv.1.2 /\ kv.2 = Literal (a_value a).
Definition described (top : bool) (xs : list Attribute) : list Attribute :=
  filter (fun a => is_attribute RDF "about" a && top = false) xs.
Lemma compact_insert a p q : increasing p ->
  (exists k, name (a_namespace a) (a_name a) = Ok k /\ insert p k (Literal (a_value a)) = Ok q) <->
  exists kv, compact_entry a kv /\ map_of (kv :: p) q.
Proof.
  intros Hp. unfold compact_entry, name. split.
  - intros (k & Hk & H). apply insert_Ok in H; [|done]. destruct (a_namespace a) as [ns|]; [|done]. injection Hk as <-.
    by exists ((ns, a_name a), Literal (a_value a)).
  - intros ([[ns l] v] & (H1 & H2 & H3) & H). simpl in *. subst. rewrite H1. eexists. split; [done|]. by apply insert_Ok.
Qed.
Lemma attribute_fields_Ok top xs p q : increasing p ->
  attribute_fields top xs p = Ok q <->
  Forall (fun a => spaces a = false) (described top xs) /\
  exists kvs, Forall2 compact_entry (described top xs) kvs /\ map_of (kvs ++ p) q.
Proof.
  revert p. induction xs as [|a xs IH]; intros p Hp; simpl.
  - split.
    + intros [= ->]. split; [constructor|]. exists []. split; [constructor|by apply map_of_self].
    + intros (_ & kvs & ->%Forall2_nil_inv_l & H). f_equal. symmetry. eapply increasing_unique; [apply H|done|apply H].
  - unfold described. rewrite filter_cons. destruct (is_attribute RDF "about" a && top); simpl; [by apply IH|].
    fold (described top xs). rewrite rensure_bind, negb_true_iff. rewrite rbind_Ok. setoid_rewrite rbind_Ok. split.
    + intros (Hs & k & Hk & p' & Hp' & H). destruct (proj1 (compact_insert a p p' Hp)) as (kv & Hkv & Hm); [eauto|].
      apply IH in H as (Hall & kvs & Hkvs & Hq); [|apply Hm]. split; [by constructor|]. exists (kv :: kvs).
      split; [by constructor|]. by apply (map_of_step _ _ _ _ _ Hm).
    + intros ([Hs Hall]%Forall_cons & l & (kv & kvs & Hkv & Hkvs & ->)%Forall2_cons_inv_l & Hq).
      pose proof (map_of_first _ _ _ _ Hp Hq) as Hm.
      destruct (proj2 (compact_insert a p (insert_sorted p kv.1 kv.2) Hp)) as (k & Hk' & Hi); [by exists kv|].
      split; [done|]. exists k. split; [done|]. eexists. split; [done|]. apply IH; [apply Hm|]. split; [done|].
      exists kvs. split; [done|]. by apply (map_of_step _ _ _ _ _ Hm).
Qed.

(** The attributes of a property, by what they mean. *)
Inductive Kind : Type := ParseType | Resource | Scalar | Language | Refused | Plain (k : Name).
#[export] Instance Kind_eq_dec : EqDecision Kind.
Proof. solve_decision. Defined.
Definition kind_of (a : Attribute) : Kind :=
  if is_attribute RDF "parseType" a then ParseType
  else if is_attribute RDF "resource" a then Resource
  else if is_attribute RDF "value" a then Scalar
  else if is_attribute XML "lang" a then Language
  else if spaces a then Refused
  else match a_namespace a with Some ns => Plain (ns, a_name a) | None => Refused end.
Definition accepted (a : Attribute) : Prop :=
  match kind_of a with ParseType => a_value a = "Resource"%string | Refused => False | _ => True end.
Definition plain (xs : list Attribute) : Properties :=
  omap (fun a => match kind_of a with Plain k => Some (k, Literal (a_value a)) | _ => None end) xs.
Definition languages (xs : list Attribute) : Properties :=
  omap (fun a => match kind_of a with
                 | Language => Some ((XML, "lang"%string), Literal (to_ascii_lowercase (a_value a)))
                 | _ => None
                 end) xs.
Definition resources (xs : list Attribute) : list string :=
  omap (fun a => match kind_of a with Resource => Some (a_value a) | _ => None end) xs.
Definition scalars (xs : list Attribute) : list string :=
  omap (fun a => match kind_of a with Scalar => Some (a_value a) | _ => None end) xs.
Definition structured (xs : list Attribute) : bool :=
  existsb (fun a => match kind_of a with ParseType => true | _ => false end) xs.
Definition latest (r : option string) (l : list string) : option string :=
  match last l with Some u => Some u | None => r end.
Lemma latest_cons r u l : latest r (u :: l) = latest (Some u) l.
Proof. unfold latest. rewrite last_cons. by destruct (last l). Qed.

Definition attributes_say (xs : list Attribute) (s s' : Attributes) : Prop :=
  Forall accepted xs /\
  map_of (plain xs ++ at_attributes s) (at_attributes s') /\
  map_of (languages xs ++ at_language s) (at_language s') /\
  at_resource s' = latest (at_resource s) (resources xs) /\
  at_scalar s' = latest (at_scalar s) (scalars xs) /\
  at_structure s' = at_structure s || structured xs.
Lemma map_of_snoc es p p' q : map_of (es ++ p) p' -> forall kvs, map_of (kvs ++ p') q <-> map_of (kvs ++ es ++ p) q.
Proof. intros [_ H] kvs. unfold map_of. by rewrite H. Qed.
Lemma map_of_same p p' : increasing p -> map_of p p' <-> p' = p.
Proof.
  intros Hp. split; [|intros ->; by apply map_of_self]. intros [H1 H2]. by apply increasing_unique.
Qed.
Lemma insert_map p k v q : increasing p -> insert p k v = Ok q <-> map_of ([(k, v)] ++ p) q.
Proof. apply insert_Ok. Qed.

Lemma property_attribute_kind a A L r sc st e :
  kind_of a <> Refused ->
  property_attribute a (mkAttributes A L r sc st) =
  match kind_of a with
  | ParseType => let? _ := rensure (String.eqb (a_value a) "Resource") (says "unsupported RDF parseType") in
                 Ok (mkAttributes A L r sc true)
  | Resource => Ok (mkAttributes A L (Some (a_value a)) sc st)
  | Scalar => Ok (mkAttributes A L r (Some (a_value a)) st)
  | Language => let? L := insert L (XML, "lang"%string) (Literal (to_ascii_lowercase (a_value a))) in
                Ok (mkAttributes A L r sc st)
  | Plain k => let? A := insert A k (Literal (a_value a)) in Ok (mkAttributes A L r sc st)
  | Refused => Err e
  end.
Proof.
  unfold property_attribute, kind_of, spaces, name. destruct (is_attribute RDF "parseType" a); [done|].
  destruct (is_attribute RDF "resource" a); [done|]. destruct (is_attribute RDF "value" a); [done|].
  destruct (is_attribute XML "lang" a); [done|]. destruct (in_set _ _); [done|].
  by destruct (a_namespace a).
Qed.
Lemma property_attribute_refused a s s' : kind_of a = Refused -> property_attribute a s <> Ok s'.
Proof.
  unfold property_attribute, kind_of, spaces, name. destruct s. destruct (is_attribute RDF "parseType" a); [done|].
  destruct (is_attribute RDF "resource" a); [done|]. destruct (is_attribute RDF "value" a); [done|].
  destruct (is_attribute XML "lang" a); [done|]. destruct (in_set _ _); [done|].
  by destruct (a_namespace a).
Qed.
Lemma property_attribute_Ok a s s' :
  increasing (at_attributes s) -> increasing (at_language s) ->
  property_attribute a s = Ok s' <-> attributes_say [a] s s'.
Proof.
  destruct s as [A L r sc st]. cbn [at_attributes at_language]. intros HA HL.
  unfold attributes_say. rewrite Forall_singleton.
  unfold accepted, plain, languages, resources, scalars, structured, latest.
  cbn [omap list_omap existsb at_attributes at_language at_resource at_scalar at_structure].
  destruct (kind_of a) eqn:Hk; try (rewrite (property_attribute_kind _ _ _ _ _ _ (says "")), Hk by congruence).
  - cbn [app last]. rewrite (map_of_same A) by done. rewrite (map_of_same L) by done. rewrite rensure_bind, String.eqb_eq.
    rewrite orb_true_r. destruct s'; simpl. naive_solver.
  - cbn [app last]. rewrite (map_of_same A) by done. rewrite (map_of_same L) by done.
    rewrite orb_false_r. destruct s'; simpl. naive_solver.
  - cbn [app last]. rewrite (map_of_same A) by done. rewrite (map_of_same L) by done.
    rewrite orb_false_r. destruct s'; simpl. naive_solver.
  - rewrite app_nil_l, (map_of_same A) by done. rewrite rbind_Ok, orb_false_r. setoid_rewrite insert_map; [|done].
    destruct s'; simpl. naive_solver.
  - split; [by intros H%property_attribute_refused|naive_solver].
  - rewrite app_nil_l, (map_of_same L) by done. rewrite rbind_Ok, orb_false_r. setoid_rewrite insert_map; [|done].
    destruct s'; simpl. naive_solver.
Qed.
Lemma attributes_say_step a xs s s1 s' :
  attributes_say [a] s s1 -> attributes_say xs s1 s' <-> attributes_say (a :: xs) s s'.
Proof.
  unfold attributes_say. rewrite Forall_singleton, Forall_cons.
  intros (Ha & H1 & H2 & H3 & H4 & H5).
  assert (forall {B} (f : Attribute -> option B), omap f (a :: xs) = omap f [a] ++ omap f xs) as Ho.
  { intros B f. simpl. by destruct (f a). }
  unfold plain, languages, resources, scalars, structured in *. rewrite !Ho.
  rewrite (map_of_snoc _ _ _ _ H1), (map_of_snoc _ _ _ _ H2), H3, H4, H5, <- !app_assoc.
  rewrite (map_of_perm (omap _ xs ++ _) _ _ (Permutation_app_swap_app _ _ _)).
  rewrite (map_of_perm (omap _ xs ++ _) _ (at_language s') (Permutation_app_swap_app _ _ _)).
  assert (forall r (l k : list string), latest (latest r l) k = latest r (l ++ k)) as Hl.
  { intros r l k. unfold latest. rewrite last_app. by destruct (last k). }
  rewrite !Hl. simpl. rewrite !orb_false_r, !orb_assoc. naive_solver.
Qed.
Lemma attributes_say_first a xs s s' :
  increasing (at_attributes s) -> increasing (at_language s) -> attributes_say (a :: xs) s s' ->
  exists s1, attributes_say [a] s s1.
Proof.
  destruct s as [A L r sc st]. cbn [at_attributes at_language]. intros HA HL (Ha & H1 & H2 & _).
  assert (exists A1, map_of (plain [a] ++ A) A1) as [A1 HA1].
  { unfold plain in *. simpl in *. destruct (kind_of a); [eexists; by apply map_of_self..|].
    eexists. by eapply (map_of_first (_, _)). }
  assert (exists L1, map_of (languages [a] ++ L) L1) as [L1 HL1].
  { unfold languages in *. simpl in *. destruct (kind_of a); try (eexists; by apply map_of_self).
    eexists. by eapply (map_of_first (_, _)). }
  apply Forall_cons in Ha as [Ha _].
  exists (mkAttributes A1 L1 (latest r (resources [a])) (latest sc (scalars [a])) (st || structured [a])).
  by split_and!; [by apply Forall_singleton|..].
Qed.
Lemma property_attributes_Ok xs s s' :
  increasing (at_attributes s) -> increasing (at_language s) ->
  property_attributes xs s = Ok s' <-> attributes_say xs s s'.
Proof.
  revert s. induction xs as [|a xs IH]; intros s HA HL.
  - unfold attributes_say. simpl. destruct s, s'; simpl in *. rewrite orb_false_r, !map_of_same by done.
    unfold latest. simpl. split; [intros [= -> -> -> -> ->]; by split_and!|]. by intros (_ & -> & -> & -> & -> & ->).
  - simpl. rewrite rbind_Ok. split.
    + intros (s1 & H1%property_attribute_Ok & H2); [|done..]. apply (attributes_say_step _ _ _ _ _ H1).
      apply IH; [apply H1..|done].
    + intros H. destruct (attributes_say_first a xs s s' HA HL H) as [s1 H1]. exists s1.
      split; [by apply property_attribute_Ok|]. apply IH; [apply H1..|]. by apply (attributes_say_step _ _ _ _ _ H1).
Qed.

(** ** Values *)

(** A value without its qualifiers, its qualifiers, and both together. *)
Definition base (v : Value) : Value := match v with Qualified w _ => w | _ => v end.
Definition quals (v : Value) : Properties := match v with Qualified _ q => q | _ => [] end.
Definition wrap (v : Value) (q : Properties) : Value := match q with [] => v | _ => Qualified v q end.
Lemma qualified_Ok v q w :
  increasing q -> qualified v q = Ok w <-> exists m, map_of (quals v ++ q) m /\ w = wrap (base v) m.
Proof.
  intros Hq. unfold qualified.
  assert (forall b (m : Properties), (if bool_decide (length m = 0%nat) then b else Qualified b m) = wrap b m) as Hw.
  { intros b m. by destruct m. }
  destruct v; simpl; try (rewrite Hw; split; [intros [= <-]; eexists; split; [by apply map_of_self|done]|];
    intros (m & Hm & ->); apply map_of_same in Hm as ->; done).
  rewrite rbind_Ok. split.
  - intros (r & (m & Hm & [= <-])%rbind_Ok & [= <-]). simpl. rewrite Hw. apply insert_all_Ok in Hm; [|done]. eauto.
  - intros (m & Hm & ->). exists (v, m). split; [|by simpl; rewrite Hw]. apply rbind_Ok. exists m.
    split; [by apply insert_all_Ok|done].
Qed.
Definition VALUE : Name := (RDF, "value"%string).
Definition value_read (p : Properties) (w : Value) : Prop :=
  (get_property p VALUE = None /\ w = Struct p) \/
  (exists v m, get_property p VALUE = Some v /\ map_of (quals v ++ remove_property p VALUE) m /\ w = wrap (base v) m).
Lemma value_of_fields_Ok p w : increasing p -> value_of_fields p = Ok w <-> value_read p w.
Proof.
  intros Hp. unfold value_of_fields, value_read. fold VALUE. destruct (get_property p VALUE) as [v|] eqn:Hv.
  - rewrite qualified_Ok; [naive_solver|]. by eapply remove_spec.
  - naive_solver.
Qed.

Definition blank (cs : list Node) : bool := forallb (all_chars is_blank) (texts cs).
Lemma blank_texts_Ok cs u : blank_texts cs = Ok u <-> blank cs = true.
Proof. unfold blank_texts, blank. destruct u. by destruct (forallb _ _). Qed.

(** The content node of a property: an array or a description. *)
Definition array_read (form : string) (items : list Value) (w : Value) : Prop :=
  (form = "Bag"%string /\ w = Array form (merge_sort value_le items)) \/
  (form <> "Bag"%string /\ form = "Alt"%string /\
     exists b, language_alternatives items = Ok b /\ w = Array form (if b then merge_sort value_le items else items)) \/
  (form <> "Bag"%string /\ form <> "Alt"%string /\ w = Array form items).
Definition type_read (c : Node) (v w : Value) : Prop :=
  (has_tag_name RDF "Description" c = true /\ w = v) \/
  (has_tag_name RDF "Description" c = false /\ exists ns m, (tag c).1 = Some ns /\ ns <> RDF /\
     map_of (quals v ++ [((RDF, "type"%string), Uri (ns +:+ (tag c).2))]) m /\ w = wrap (base v) m).
Definition node_read (R : Node -> result Error Value) (c : Node) (w : Value) : Prop :=
  match c with
  | Element _ _ ys ds =>
      blank ds = true /\
      ((is_array c = true /\ ys = [] /\ exists items, Forall2 (is_member R) (elems ds) items /\ array_read (tag c).2 items w) \/
       (is_array c = false /\ Forall (fun a => spaces a = false) ys /\ Forall (fun d => is_field d = true) (elems ds) /\
        exists kvs kvs' p v, Forall2 compact_entry ys kvs /\ Forall2 (is_entry R) (elems ds) kvs' /\
          map_of (kvs' ++ kvs) p /\ value_read p v /\ type_read c v w))
  | _ => False
  end.
Lemma array_Ok form items w : array form items = Ok w <-> array_read form items w.
Proof.
  unfold array, array_read. rewrite rbind_Ok.
  destruct (String.eqb_spec form "Bag"); [naive_solver|]. destruct (String.eqb_spec form "Alt"); naive_solver.
Qed.
Lemma typed_Ok c v w : typed c v = Ok w <-> type_read c v w.
Proof.
  unfold typed, type_read. destruct (has_tag_name RDF "Description" c); [naive_solver|].
  rewrite rensure_bind, negb_true_iff, bool_decide_eq_false. destruct (tag c).1 as [ns|]; [|naive_solver].
  rewrite qualified_Ok by repeat constructor. naive_solver.
Qed.
Lemma fields_loop_Ok R cs p q : increasing p ->
  fold_ok (fun c p => let? _ := rensure (is_field c) (says ("unsupported RDF property " +:+ (tag c).2)) in entry R c p) cs p = Ok q <->
  Forall (fun d => is_field d = true) cs /\ exists kvs, Forall2 (is_entry R) cs kvs /\ map_of (kvs ++ p) q.
Proof.
  intros Hp. rewrite <- (entries_Ok R cs p q Hp). clear Hp. revert p. induction cs as [|c cs IH]; intros p.
  - simpl. naive_solver.
  - rewrite !fold_ok_cons, Forall_cons. setoid_rewrite rensure_bind. split.
    + intros (p' & [Hc Hp'] & [Hall H]%IH). by split; [|exists p'].
    + intros [[Hc Hall] (p' & Hp' & H)]. exists p'. split; [done|]. by apply IH.
Qed.
Lemma described_false xs : described false xs = xs.
Proof.
  unfold described. induction xs as [|a xs IH]; [done|]. rewrite filter_cons, andb_false_r. simpl. by f_equal.
Qed.
Lemma fields_by_Ok R top ns l ys ds p :
  fields_by R top (Element ns l ys ds) = Ok p <->
  blank ds = true /\ Forall (fun a => spaces a = false) (described top ys) /\
  Forall (fun d => is_field d = true) (elems ds) /\
  exists kvs kvs', Forall2 compact_entry (described top ys) kvs /\ Forall2 (is_entry R) (elems ds) kvs' /\
    map_of (kvs' ++ kvs) p.
Proof.
  unfold fields_by. rewrite rbind_Ok. setoid_rewrite rbind_Ok. setoid_rewrite blank_texts_Ok.
  setoid_rewrite for_elements_fold. split.
  - intros (q & [Hy (kvs & Hk & Hq)]%attribute_fields_Ok & u & Hb & H); [|constructor].
    apply fields_loop_Ok in H as [Hf (kvs' & Hk' & Hp)]; [|apply Hq]. rewrite app_nil_r in Hq.
    split_and!; try done. exists kvs, kvs'. split_and!; try done. by apply (map_of_app _ _ _ _ Hq).
  - intros (Hb & Hy & Hf & kvs & kvs' & Hk & Hk' & Hp).
    assert (exists q, map_of kvs q) as [q Hq].
    { apply map_of_exists. assert (NoDup (kvs' ++ kvs).*1) as H by (apply map_of_exists; eauto).
      rewrite fmap_app in H. by apply NoDup_app in H as (_ & _ & H). }
    exists q. split; [apply attribute_fields_Ok; [constructor|]; split; [done|]; exists kvs; by rewrite app_nil_r|].
    exists tt. split; [done|]. apply fields_loop_Ok; [apply Hq|]. split; [done|]. exists kvs'. split; [done|].
    by apply (map_of_app _ _ _ _ Hq).
Qed.
Lemma node_value_Ok R c w : node_value R c = Ok w <-> node_read R c w.
Proof.
  destruct c as [ns l ys ds| |]; [|done..]. unfold node_value, node_read. destruct (is_array _) eqn:Ha.
  - rewrite rensure_bind, bool_decide_eq_true, length_zero_iff_nil. setoid_rewrite rbind_Ok.
    setoid_rewrite blank_texts_Ok. setoid_rewrite rbind_Ok. setoid_rewrite for_elements_fold.
    setoid_rewrite members_Ok. setoid_rewrite array_Ok. split.
    + intros (Hy & _ & Hb & items & (vs & Hvs & ->) & Hw). split; [done|]. left. split_and!; try done. by exists vs.
    + intros (Hb & [(_ & Hy & items & Hi & Hw)|(? & _)]); [|done]. split; [done|]. exists tt. split; [done|].
      exists items. split; [by exists items|done].
  - split.
    + intros (p & (Hb & Hy & Hf & kvs & kvs' & Hk & Hk' & Hp)%fields_by_Ok & H)%rbind_Ok.
      apply rbind_Ok in H as (v & Hv%value_of_fields_Ok & Hw%typed_Ok); [|apply Hp].
      rewrite described_false in *. split; [done|]. right. split_and!; try done. by exists kvs, kvs', p, v.
    + intros (Hb & [(? & _)|(_ & Hy & Hf & kvs & kvs' & p & v & Hk & Hk' & Hp & Hv & Hw)]); [done|].
      apply rbind_Ok. exists p. split.
      { apply fields_by_Ok. rewrite described_false. split_and!; try done. by exists kvs, kvs'. }
      apply rbind_Ok. exists v. split; [|by apply typed_Ok]. apply value_of_fields_Ok; [apply Hp|done].
Qed.

(** A property. *)
Definition with_qualifiers (v : Value) (q : Properties) (w : Value) : Prop :=
  exists m, map_of (quals v ++ q) m /\ w = wrap (base v) m.
Definition body_read (R : Node -> result Error Value) (resource scalar : option string) (structure : bool)
    (A L : Properties) (cs : list Node) (v : Value) : Prop :=
  match resource, scalar with
  | None, None =>
      if structure then
        A = [] /\ blank cs = true /\ exists kvs p w, Forall2 (is_entry R) (elems cs) kvs /\ map_of kvs p /\
          value_read p w /\ with_qualifiers w L v
      else
        match elems cs with
        | [] => if bool_decide (A = []) then with_qualifiers (Literal (String.concat "" (texts cs))) L v
                else empty_texts cs = true /\ with_qualifiers (Struct A) L v
        | [c] => A = [] /\ blank cs = true /\ exists w, node_read R c w /\ with_qualifiers w L v
        | _ => False
        end
  | Some _, Some _ => False
  | Some u, None | None, Some u =>
      elems cs = [] /\ structure = false /\ empty_texts cs = true /\ exists m, map_of (L ++ A) m /\
        v = wrap (match resource with Some _ => Uri u | None => Literal u end) m
  end.
Definition reads (R : Node -> result Error Value) (n : Node) (v : Value) : Prop :=
  match n with
  | Element _ _ xs cs =>
      Forall accepted xs /\ exists A L, map_of (plain xs) A /\ map_of (languages xs) L /\
      body_read R (last (resources xs)) (last (scalars xs)) (structured xs) A L cs v
  | _ => v = Literal ""
  end.
Lemma qualified_with v q w : increasing q -> qualified v q = Ok w <-> with_qualifiers v q w.
Proof. apply qualified_Ok. Qed.
Lemma length_nil {A} (l : list A) : length l = 0%nat <-> l = [].
Proof. apply length_zero_iff_nil. Qed.
Lemma leaf_Ok A L (v w : Value) (cs : list Node) st e : increasing A -> quals v = [] -> base v = v ->
  (let? _ := rensure (bool_decide (length (elems cs) = 0%nat) && negb st && empty_texts cs) e in
   let? m := insert_all A L in qualified v m) = Ok w <->
  elems cs = [] /\ st = false /\ empty_texts cs = true /\ exists m, map_of (L ++ A) m /\ w = wrap v m.
Proof.
  intros HA Hq Hb. rewrite rensure_bind, !andb_true_iff, bool_decide_eq_true, length_nil, negb_true_iff, rbind_Ok.
  split.
  - intros ([[He Hs] Ht] & m & [Hm Heq]%insert_all_Ok & H); [|done]. split_and!; try done. exists m. split; [by split|].
    apply qualified_Ok in H as (m' & Hm' & ->); [|done]. rewrite Hq in Hm'. simpl in Hm'.
    apply map_of_same in Hm' as ->; [|done]. by rewrite Hb.
  - intros (He & Hs & Ht & m & Hm & ->). split; [done|]. exists m. split; [by apply insert_all_Ok|].
    apply qualified_Ok; [apply Hm|]. exists m. rewrite Hq, Hb. split; [apply map_of_self, Hm|done].
Qed.
Lemma property_value_Ok R A L r sc st cs v : increasing A -> increasing L ->
  property_value R (mkAttributes A L r sc st) cs = Ok v <-> body_read R r sc st A L cs v.
Proof.
  intros HA HL. unfold property_value, body_read. change (count_elements cs) with (length (elems cs)).
  rewrite rensure_bind.
  destruct r as [u|], sc as [u'|]; cbn [bool_decide orb negb decide]; rewrite ?orb_true_l, ?orb_true_r.
  - naive_solver.
  - rewrite leaf_Ok by done. naive_solver.
  - rewrite leaf_Ok by done. naive_solver.
  - rewrite !bool_decide_eq_true_2 by done. cbn [negb orb]. destruct st.
    + rewrite rensure_bind, bool_decide_eq_true, length_nil. split.
      * intros (_ & -> & (_ & Hb%blank_texts_Ok & (p & H & (w & Hw & Hv)%rbind_Ok)%rbind_Ok)%rbind_Ok).
        rewrite for_elements_fold in H. apply entries_Ok in H as (kvs & Hkvs & Hp); [|constructor]. rewrite app_nil_r in Hp.
        apply value_of_fields_Ok in Hw; [|apply Hp]. apply qualified_with in Hv; [|done]. split_and!; try done. by exists kvs, p, w.
      * intros (-> & Hb & kvs & p & w & Hkvs & Hp & Hw & Hv). split_and!; [done..|].
        apply rbind_Ok. exists tt. split; [by apply blank_texts_Ok|]. apply rbind_Ok. exists p. split.
        { rewrite for_elements_fold. apply entries_Ok; [constructor|]. exists kvs. by rewrite app_nil_r. }
        apply rbind_Ok. exists w. split; [apply value_of_fields_Ok; [apply Hp|done]|by apply qualified_with].
    + destruct (elems cs) as [|c [|c' es]] eqn:He.
      * cbn [length bool_decide]. rewrite bool_decide_eq_true_2 by done. cbn [negb]. case_bool_decide as HA0.
        -- rewrite length_nil in HA0. rewrite bool_decide_eq_true_2 by done. cbn [negb].
           rewrite qualified_with by done. naive_solver.
        -- rewrite length_nil in HA0. rewrite bool_decide_eq_false_2 by done. cbn [negb].
           rewrite rensure_bind, qualified_with by done. naive_solver.
      * rewrite bool_decide_eq_false_2 by done. cbn [negb]. rewrite rbind_Ok. setoid_rewrite blank_texts_Ok.
        rewrite (first_element_elems _ _ _ _ He).
        split.
        -- intros (_ & _ & Hb & [Ha%andb_true_iff (w & Hw%node_value_Ok & Hv%qualified_with)%rbind_Ok]%rensure_bind); [|done].
           destruct Ha as [Ha%bool_decide_eq_true _]. apply length_nil in Ha. split_and!; [done..|]. by exists w.
        -- intros (-> & Hb & w & Hw & Hv). split; [done|]. exists tt. split; [done|]. apply rensure_bind. split; [done|].
           apply rbind_Ok. exists w. split; [by apply node_value_Ok|by apply qualified_with].
      * rewrite bool_decide_eq_false_2 by done. cbn [negb]. rewrite rbind_Ok. split; [|done].
        intros (_ & _ & _ & [[_ Ha%bool_decide_eq_true]%andb_true_iff _]%rensure_bind). done.
Qed.
Lemma property_Ok n v : property n = Ok v <-> reads property n v.
Proof.
  destruct n as [ns l xs cs| |]; [|simpl; naive_solver..].
  cbn [property reads]. rewrite rbind_Ok. setoid_rewrite property_attributes_Ok; [|constructor..].
  unfold attributes_say. cbn [at_attributes at_language at_resource at_scalar at_structure].
  rewrite !app_nil_r. unfold latest. assert (forall o : option string, match o with Some u => Some u | None => None end = o) as Ho by by intros [].
  setoid_rewrite Ho. rewrite orb_false_l. split.
  - intros ([A L r sc st] & (Hx & HA & HL & Hr & Hsc & Hst) & H). cbn in *. subst. split; [done|]. exists A, L.
    split_and!; try done. by apply property_value_Ok in H; [|apply HA|apply HL].
  - intros (Hx & A & L & HA & HL & H). exists (mkAttributes A L (last (resources xs)) (last (scalars xs)) (structured xs)).
    split; [by split_and!|]. apply property_value_Ok; [apply HA|apply HL|done].
Qed.
