(* ===== verification/RdfTheorems.v ===== *)
(** RDF values are normal forms, the encodings that count as equal are exactly those
    related by a set of rules, and every model is written back.

    [same] generates the equivalence of property elements: its rules are the
    orders, the blanks and the alternative encodings that have no meaning. *)
From stdpp Require Import base tactics option list numbers strings sorting sets.
From Stdlib Require Import ZArith Lia.
From S2P Require Import Prelude Requested RdfModel RdfOrder RdfReading.

Open Scope Z_scope.
Local Open Scope prog_scope.

(** ** Normal forms *)

Definition is_qualified (v : Value) : bool := match v with Qualified _ _ => true | _ => false end.
Definition canonical (form : string) (items : list Value) : Prop :=
  (form = "Bag"%string -> Sorted value_le items) /\
  (form = "Alt"%string -> exists b, language_alternatives items = Ok b /\ (b = true -> Sorted value_le items)).
Inductive normal : Value -> Prop :=
| normal_literal s : normal (Literal s)
| normal_uri s : normal (Uri s)
| normal_struct p :
    increasing p -> get_property p VALUE = None -> Forall (fun kv => normal kv.2) p -> normal (Struct p)
| normal_array form items :
    form ∈ ["Bag"%string; "Seq"%string; "Alt"%string] -> canonical form items -> Forall normal items -> normal (Array form items)
| normal_qualified v q :
    is_qualified v = false -> q <> [] -> increasing q -> get_property q VALUE = None ->
    normal v -> Forall (fun kv => normal kv.2) q -> normal (Qualified v q).

(** Induction with the children and the grandchildren. *)
Lemma node_deep (P : Node -> Prop) :
  (forall n, (forall c, c ∈ children n -> P c) -> (forall c d, c ∈ children n -> d ∈ children c -> P d) -> P n) ->
  forall n, P n.
Proof.
  intros H n. enough (P n /\ forall c, c ∈ children n -> P c) by naive_solver.
  induction n as [ns l xs cs IH| |] using node_induction; simpl.
  - rewrite Forall_forall in IH. split; [apply H; simpl; naive_solver|naive_solver].
  - split; [apply H; simpl; set_solver|set_solver].
  - split; [apply H; simpl; set_solver|set_solver].
Qed.

(** What [language_alternatives] decides does not depend on the order. *)
Lemma existsb_in (l : string) ls : existsb (String.eqb l) ls = true <-> l ∈ ls.
Proof.
  rewrite existsb_exists. setoid_rewrite String.eqb_eq. setoid_rewrite <- list_elem_of_In. naive_solver.
Qed.
Lemma existsb_not_in (l : string) ls : negb (existsb (String.eqb l) ls) = true <-> l ∉ ls.
Proof. rewrite <- existsb_in. destruct (existsb _ _); simpl; naive_solver. Qed.
Lemma alternatives_from_Ok ls all items b :
  alternatives_from ls all items = Ok b <->
  NoDup (omap language_of items) /\ (forall l, l ∈ omap language_of items -> l ∉ ls) /\
  b = all && forallb is_alternative items.
Proof.
  revert ls all. induction items as [|v items IH]; intros ls all; simpl.
  - rewrite andb_true_r. split; [intros [= ->]; split_and!; [constructor|set_solver|done]|naive_solver].
  - destruct (language_of v) as [l|] eqn:Hl; simpl.
    + rewrite rensure_bind, existsb_not_in, IH, NoDup_cons, andb_assoc. set_solver.
    + rewrite IH. replace (is_alternative v) with false; [by rewrite andb_false_r|].
      unfold is_alternative. destruct v as [| | | |[] q]; try done. by rewrite Hl.
Qed.
Lemma language_alternatives_Ok items b :
  language_alternatives items = Ok b <->
  NoDup (omap language_of items) /\ b = negb (bool_decide (items = [])) && forallb is_alternative items.
Proof.
  unfold language_alternatives. rewrite alternatives_from_Ok.
  assert (bool_decide (length items = 0%nat) = bool_decide (items = [])) as -> by (by destruct items). set_solver.
Qed.
Lemma forallb_perm {A} (f : A -> bool) l k : l ≡ₚ k -> forallb f l = forallb f k.
Proof. induction 1; simpl; [done|congruence| |congruence]. by rewrite !andb_assoc, (andb_comm (f _)). Qed.
Lemma language_alternatives_perm l k b :
  l ≡ₚ k -> language_alternatives l = Ok b -> language_alternatives k = Ok b.
Proof.
  intros Hp. rewrite !language_alternatives_Ok, (forallb_perm _ _ _ Hp).
  assert (omap language_of l ≡ₚ omap language_of k) as Ho by (by rewrite Hp). rewrite <- Ho. intros [Hn ->]. split; [done|].
  do 2 f_equal. apply bool_decide_ext. split; intros ->; [by apply Permutation_nil in Hp|by apply Permutation_nil_r in Hp].
Qed.

(** *** The interpretation produces normal forms *)

Lemma normal_base v : normal v -> normal (base v) /\ is_qualified (base v) = false /\
  Forall (fun kv => normal kv.2) (quals v) /\ get_property (quals v) VALUE = None /\ increasing (quals v).
Proof. destruct 1; simpl; split_and!; try done; constructor; done. Qed.
Lemma with_qualifiers_normal v q w :
  normal v -> increasing q -> get_property q VALUE = None -> Forall (fun kv => normal kv.2) q ->
  with_qualifiers v q w -> normal w.
Proof.
  intros (Hb & Hu & Hq & Hv & Hi)%normal_base Hiq Hvq Hnq (m & Hm & ->).
  destruct (decide (m = [])) as [->|Hne]; [done|]. assert (wrap (base v) m = Qualified (base v) m) as -> by by destruct m.
  constructor; [done|done|apply Hm| |done|].
  - apply (get_map_of_None _ _ _ Hm). rewrite fmap_app. apply get_not_in in Hv, Hvq. set_solver.
  - rewrite (proj2 Hm). by apply Forall_app.
Qed.
Lemma value_read_normal p w :
  increasing p -> Forall (fun kv => normal kv.2) p -> value_read p w -> normal w.
Proof.
  intros Hi Hp [[Hv ->]|(v & m & Hv & Hm & ->)]; [by constructor|].
  destruct (remove_spec _ _ _ Hi Hv) as (H1 & H2 & H3). rewrite H2 in Hp. apply Forall_cons in Hp as [Hnv Hp].
  apply (with_qualifiers_normal v (remove_property p VALUE)); [done..|]. by exists m.
Qed.
Lemma is_entry_normal R cs kvs :
  (forall c v, c ∈ cs -> R c = Ok v -> normal v) -> Forall2 (is_entry R) cs kvs -> Forall (fun kv => normal kv.2) kvs.
Proof.
  intros H Hall. induction Hall as [|c kv cs kvs [_ Hc] _ IH]; constructor; [|apply IH; set_solver].
  apply (H c); [set_solver|done].
Qed.
Lemma is_member_normal R cs vs :
  (forall c v, c ∈ cs -> R c = Ok v -> normal v) -> Forall2 (is_member R) cs vs -> Forall normal vs.
Proof.
  intros H Hall. induction Hall as [|c v cs vs [_ Hc] _ IH]; constructor; [|apply IH; set_solver].
  apply (H c); [set_solver|done].
Qed.
Lemma map_of_forall (P : Name * Value -> Prop) es m : map_of es m -> Forall P es -> Forall P m.
Proof. intros [_ H]. by rewrite H. Qed.
Lemma compact_normal ys kvs : Forall2 compact_entry ys kvs -> Forall (fun kv => normal kv.2) kvs.
Proof. induction 1 as [|a kv ys kvs (_ & _ & Hl) _ IH]; constructor; [|done]. rewrite Hl. constructor. Qed.
Lemma plain_normal xs : Forall (fun kv => normal kv.2) (plain xs).
Proof. unfold plain. induction xs as [|a xs IH]; simpl; [constructor|]. destruct (kind_of a); [done..|]. by repeat constructor. Qed.
Lemma languages_normal xs : Forall (fun kv => normal kv.2) (languages xs).
Proof. unfold languages. induction xs as [|a xs IH]; simpl; [constructor|]. destruct (kind_of a); try done. by repeat constructor. Qed.
(** The entries of attributes are never [rdf:value]. *)
Lemma kind_plain a k : kind_of a = Plain k ->
  a_namespace a = Some k.1 /\ a_name a = k.2 /\ spaces a = false.
Proof.
  unfold kind_of. repeat (destruct (is_attribute _ _ a); [done|]). destruct (spaces a); [done|].
  destruct (a_namespace a); [|done]. by intros [= <-].
Qed.
Lemma spaces_not_rdf a ns : spaces a = false -> a_namespace a = Some ns -> ns <> RDF /\ ns <> XML.
Proof.
  unfold spaces, in_set. intros H Hn. rewrite Hn in H. cbn [existsb] in H. rewrite !orb_false_iff, !String.eqb_neq in H. naive_solver.
Qed.
Lemma plain_not_value xs : VALUE ∉ (plain xs).*1.
Proof.
  unfold plain. induction xs as [|a xs IH]; simpl; [set_solver|]. destruct (kind_of a) eqn:Hk; try done. simpl.
  apply kind_plain in Hk as (Hn & _ & Hs). apply (spaces_not_rdf _ _ Hs) in Hn as [Hn _].
  rewrite not_elem_of_cons. split; [|done]. intros <-. done.
Qed.
Lemma languages_not_value xs : VALUE ∉ (languages xs).*1.
Proof.
  unfold languages. induction xs as [|a xs IH]; simpl; [set_solver|]. destruct (kind_of a); try done. simpl.
  rewrite not_elem_of_cons. split; [|done]. done.
Qed.
Lemma elems_in c cs : c ∈ elems cs -> c ∈ cs.
Proof. unfold elems. rewrite list_elem_of_filter. naive_solver. Qed.
Lemma is_array_form ns l ys ds : is_array (Element ns l ys ds) = true -> ns = Some RDF /\ l ∈ ["Bag"%string; "Seq"%string; "Alt"%string].
Proof.
  unfold is_array. simpl. destruct ns as [ns|]; [|done]. rewrite andb_true_iff, String.eqb_eq, <- existsb_in. naive_solver.
Qed.
Lemma array_read_normal form items w :
  form ∈ ["Bag"%string; "Seq"%string; "Alt"%string] -> Forall normal items -> array_read form items w -> normal w.
Proof.
  intros Hf Hn Hw. pose proof (merge_sort_Permutation value_le items) as Hp.
  pose proof (Sorted_merge_sort value_le items) as Hs.
  destruct Hw as [(-> & ->)|[(Hb & -> & b & Hl & ->)|(Hb & Ha & ->)]]; (apply normal_array; [done| |]).
  - split; [done|by intros [=]].
  - by rewrite Hp.
  - split; [by intros [=]|]. intros _. exists b. destruct b; [|done]. split; [|done].
    by apply (language_alternatives_perm items).
  - destruct b; [by rewrite Hp|done].
  - by split; intros ->.
  - done.
Qed.
Lemma node_read_normal R c w :
  (forall d v, d ∈ children c -> R d = Ok v -> normal v) -> node_read R c w -> normal w.
Proof.
  destruct c as [ns l ys ds| |]; [|done..]. intros HR (_ & [(Ha & _ & items & Hi & Hw)|(_ & Hy & _ & kvs & kvs' & p & v & Hk & Hk' & Hp & Hv & Hw)]).
  - apply is_array_form in Ha as [_ Ha]. apply (array_read_normal _ _ _ Ha) in Hw; [done|].
    eapply is_member_normal, Hi. intros d v Hd%elems_in. by apply HR.
  - assert (normal v) as Hnv.
    { apply (value_read_normal p); [apply Hp| |done]. apply (map_of_forall _ _ _ Hp), Forall_app.
      split; [|by eapply compact_normal]. eapply is_entry_normal, Hk'. intros d u Hd%elems_in. by apply HR. }
    destruct Hw as [[_ ->]|(_ & ns' & m & _ & Hn & Hm & ->)]; [done|].
    eapply with_qualifiers_normal; [exact Hnv| | | |by exists m]; repeat constructor.
Qed.
Lemma body_normal xs A L cs v :
  map_of (plain xs) A -> map_of (languages xs) L ->
  (forall c u, c ∈ cs -> property c = Ok u -> normal u) ->
  (forall c d u, c ∈ cs -> d ∈ children c -> property d = Ok u -> normal u) ->
  body_read property (last (resources xs)) (last (scalars xs)) (structured xs) A L cs v -> normal v.
Proof.
  intros HA HL Hc Hd.
  pose proof (map_of_forall _ _ _ HA (plain_normal xs)) as NA. pose proof (map_of_forall _ _ _ HL (languages_normal xs)) as NL.
  pose proof (proj2 (get_map_of_None _ _ _ HA) (plain_not_value xs)) as VA.
  pose proof (proj2 (get_map_of_None _ _ _ HL) (languages_not_value xs)) as VL.
  assert (forall w m, normal w -> is_qualified w = false -> map_of (L ++ A) m -> normal (wrap w m)) as Hleaf.
  { intros w m Hw Hu Hm. apply (with_qualifiers_normal w m); [done|apply Hm| | |].
    - apply (get_map_of_None _ _ _ Hm). rewrite fmap_app. apply get_not_in in VA, VL. set_solver.
    - apply (map_of_forall _ _ _ Hm). by apply Forall_app.
    - exists m. destruct w; try done; (split; [apply map_of_self, Hm|done]). }
  assert (forall w, normal w -> with_qualifiers w L v -> normal v) as Hq.
  { intros w Hw. apply with_qualifiers_normal; [done|apply HL|done..]. }
  unfold body_read. destruct (last (resources xs)) as [u|], (last (scalars xs)) as [u'|].
  - done.
  - intros (_ & _ & _ & m & Hm & ->). apply Hleaf; [constructor|done..].
  - intros (_ & _ & _ & m & Hm & ->). apply Hleaf; [constructor|done..].
  - destruct (structured xs).
    + intros (_ & _ & kvs & p & w & Hkvs & Hp & Hw & Hv). apply (Hq w); [|done].
      apply (value_read_normal p); [apply Hp| |done]. apply (map_of_forall _ _ _ Hp).
      eapply is_entry_normal, Hkvs. intros c u Hin%elems_in. by apply Hc.
    + destruct (elems cs) as [|c [|c' es]] eqn:He; [| |done].
      * case_bool_decide; [apply Hq; constructor|]. intros [_ H']. apply (Hq (Struct A)); [|done]. constructor; [apply HA|done..].
      * intros (_ & _ & w & Hw & Hv). apply (Hq w); [|done]. eapply node_read_normal, Hw.
        intros d u. apply Hd, elems_in. rewrite He. by left.
Qed.
Lemma property_normal n v : property n = Ok v -> normal v.
Proof.
  revert v. induction n as [n IH1 IH2] using node_deep. intros v Hv%property_Ok.
  destruct n as [ns l xs cs| |]; simpl in *; [|subst; constructor..].
  destruct Hv as (_ & A & L & HA & HL & Hv). eapply body_normal; [exact HA|exact HL|eauto..|exact Hv].
Qed.

(** ** The rules *)

Definition parse_type : Attribute := mkAttribute (Some RDF) "parseType" "Resource".
Definition language (l : string) : Attribute := mkAttribute (Some XML) "lang" l.
Definition is_plain (a : Attribute) : Prop := exists k, kind_of a = Plain k.
Definition element (k : Name) (xs : list Attribute) (cs : list Node) : Node := Element (Some k.1) k.2 xs cs.
(** A compact field as an element, and a type as one. *)
Definition attribute_node (a : Attribute) : Node := Element (a_namespace a) (a_name a) [] [Text (a_value a)].
Definition type_node (ns l : string) : Node :=
  element (RDF, "type"%string) [mkAttribute (Some RDF) "resource" (ns +:+ l)] [].
Definition key (a : Attribute) : option string * string := (a_namespace a, a_name a).

Inductive same : Node -> Node -> Prop :=
| same_refl n : same n n
| same_sym n m : same n m -> same m n
| same_trans n m o : same n m -> same m o -> same n o
  (* the order of attributes *)
| same_attributes ns l xs ys cs :
    NoDup (key <$> xs) -> xs ≡ₚ ys -> same (Element ns l xs cs) (Element ns l ys cs)
  (* blanks and comments around elements; a literal in pieces *)
| same_blanks ns l xs cs ds :
    elems cs = elems ds -> blank cs = true -> blank ds = true -> elems cs <> [] \/ structured xs = true ->
    same (Element ns l xs cs) (Element ns l xs ds)
| same_literal ns l xs cs ds :
    elems cs = [] -> elems ds = [] -> structured xs = false -> String.concat "" (texts cs) = String.concat "" (texts ds) ->
    same (Element ns l xs cs) (Element ns l xs ds)
| same_content_blanks ns l ns' l' ys ds es :
    elems ds = elems es -> blank ds = true -> blank es = true ->
    same (Element ns l [] [Element ns' l' ys ds]) (Element ns l [] [Element ns' l' ys es])
  (* the fields of a structure *)
| same_field ns l k ys zs cs ds before after :
    same (element k ys cs) (element k zs ds) ->
    same (Element ns l [parse_type] (before ++ element k ys cs :: after)) (Element ns l [parse_type] (before ++ element k zs ds :: after))
| same_fields ns l cs ds : cs ≡ₚ ds -> same (Element ns l [parse_type] cs) (Element ns l [parse_type] ds)
  (* the members of an array *)
| same_member ns l form ys zs cs ds before after :
    same (element (RDF, "li"%string) ys cs) (element (RDF, "li"%string) zs ds) ->
    is_array (element (RDF, form) [] []) = true ->
    same (Element ns l [] [element (RDF, form) [] (before ++ element (RDF, "li"%string) ys cs :: after)])
         (Element ns l [] [element (RDF, form) [] (before ++ element (RDF, "li"%string) zs ds :: after)])
| same_bag ns l cs ds :
    cs ≡ₚ ds -> same (Element ns l [] [element (RDF, "Bag"%string) [] cs]) (Element ns l [] [element (RDF, "Bag"%string) [] ds])
| same_alternatives ns l cs ds :
    cs ≡ₚ ds -> Forall (fun c => forall v, property c = Ok v -> is_alternative v = true) (elems cs) ->
    same (Element ns l [] [element (RDF, "Alt"%string) [] cs]) (Element ns l [] [element (RDF, "Alt"%string) [] ds])
  (* the encodings of structures *)
| same_structure ns l cs :
    Forall (fun c => is_field c = true) (elems cs) ->
    same (Element ns l [] [element (RDF, "Description"%string) [] cs]) (Element ns l [parse_type] cs)
| same_compact ns l ns' l' ys cs :
    is_array (Element ns' l' [] []) = false -> Forall is_plain ys ->
    same (Element ns l [] [Element ns' l' ys cs]) (Element ns l [] [Element ns' l' [] (map attribute_node ys ++ cs)])
| same_typed ns l ns' l' ys cs :
    ns' <> RDF ->
    same (Element ns l [] [element (ns', l') ys cs])
         (Element ns l [parse_type] [element VALUE [] [element (RDF, "Description"%string) ys cs]; type_node ns' l'])
| same_attribute_fields ns l xs :
    Forall is_plain xs -> xs <> [] -> same (Element ns l xs []) (Element ns l [parse_type] (map attribute_node xs))
  (* the encodings of qualifiers *)
| same_resource ns l a xs :
    kind_of a = Resource -> Forall is_plain xs ->
    same (Element ns l (a :: xs) []) (Element ns l [parse_type] (element VALUE [a] [] :: map attribute_node xs))
| same_scalar ns l a xs :
    kind_of a = Scalar -> Forall is_plain xs ->
    same (Element ns l (a :: xs) []) (Element ns l [parse_type] (element VALUE [] [Text (a_value a)] :: map attribute_node xs))
| same_language ns l a xs cs :
    kind_of a = Language ->
    same (Element ns l (a :: xs) cs)
         (Element ns l [parse_type] [element VALUE xs cs; element (XML, "lang"%string) [] [Text (to_ascii_lowercase (a_value a))]])
| same_nested ns l k ys cs qs rest :
    k = VALUE ->
    same (Element ns l [parse_type] (element VALUE [parse_type] (element k ys cs :: qs) :: rest))
         (Element ns l [parse_type] (element k ys cs :: qs ++ rest))
| same_value ns l xs cs : same (Element ns l [parse_type] [element VALUE xs cs]) (Element ns l xs cs).

(** *** The rules keep the value *)

Definition agree (n m : Node) : Prop := forall v, property n = Ok v <-> property m = Ok v.
Lemma with_nil w v : normal w -> with_qualifiers w [] v <-> v = w.
Proof.
  intros Hw. unfold with_qualifiers. rewrite app_nil_r. split.
  - intros (m & Hm & ->). apply map_of_same in Hm as ->; [|by destruct (normal_base w Hw) as (_ & _ & _ & _ & ?)].
    inversion Hw; try done. simpl. by destruct q.
  - intros ->. exists (quals w). split; [apply map_of_self; by destruct (normal_base w Hw) as (_ & _ & _ & _ & ?)|].
    inversion Hw; try done. simpl. by destruct q.
Qed.
Lemma entries_normal cs kvs : Forall2 (is_entry property) cs kvs -> Forall (fun kv => normal kv.2) kvs.
Proof. apply is_entry_normal. intros c v _. apply property_normal. Qed.
Lemma value_of_entries kvs p w cs :
  Forall2 (is_entry property) cs kvs -> map_of kvs p -> value_read p w -> normal w.
Proof.
  intros Hk Hp. apply value_read_normal; [apply Hp|]. by apply (map_of_forall _ _ _ Hp), (entries_normal cs).
Qed.
Lemma structure_Ok ns l cs v :
  property (Element ns l [parse_type] cs) = Ok v <->
  blank cs = true /\ exists kvs p, Forall2 (is_entry property) (elems cs) kvs /\ map_of kvs p /\ value_read p v.
Proof.
  rewrite property_Ok. cbn [reads]. change (plain [parse_type]) with ([] : Properties).
  change (languages [parse_type]) with ([] : Properties). cbn -[property]. split.
  - intros (_ & A & L & HA & HL & -> & Hb & kvs & p & w & Hk & Hp & Hw & Hv). split; [done|]. exists kvs, p.
    split_and!; try done. apply map_of_same in HL as ->; [|constructor]. apply with_nil in Hv as ->; [done|].
    by eapply value_of_entries.
  - intros (Hb & kvs & p & Hk & Hp & Hw). split; [by repeat constructor|]. exists [], []. split_and!; try apply map_of_nil.
    split_and!; try done. exists kvs, p, v. split_and!; try done. apply with_nil; [|done]. by eapply value_of_entries.
Qed.
Lemma content_Ok ns l c v : is_element c = true ->
  property (Element ns l [] [c]) = Ok v <-> node_read property c v.
Proof.
  intros Hc. rewrite property_Ok. cbn [reads].
  assert (elems [c] = [c]) as He. { unfold elems. by rewrite filter_cons_True. }
  assert (blank [c] = true) as Hb by (by destruct c).
  assert (forall w, node_read property c w -> normal w) as Hn.
  { intros w. apply node_read_normal. intros d u _. apply property_normal. }
  cbn -[property elems blank node_read]. rewrite He. split.
  - intros (_ & A & L & HA & HL & -> & _ & w & Hw & Hv). apply map_of_same in HL as ->; [|constructor].
    apply with_nil in Hv as ->; [done|by apply Hn].
  - intros Hw. split; [constructor|]. exists [], []. split_and!; try apply map_of_nil; try done.
    exists v. split; [done|]. apply with_nil; [by apply Hn|done].
Qed.
Lemma literal_Ok ns l t v : property (Element ns l [] [Text t]) = Ok v <-> v = Literal t.
Proof.
  rewrite property_Ok. cbn [reads]. cbn -[property].
  split.
  - intros (_ & A & L & HA & HL & H). apply map_of_same in HA as ->; [|constructor].
    apply map_of_same in HL as ->; [|constructor]. rewrite bool_decide_eq_true_2 in H by done.
    apply with_nil in H; [done|constructor].
  - intros ->. split; [constructor|]. exists [], []. split_and!; try apply map_of_nil. rewrite bool_decide_eq_true_2 by done.
    apply with_nil; [constructor|done].
Qed.

(** Compact fields. *)
Lemma plain_cons a xs k : kind_of a = Plain k -> plain (a :: xs) = (k, Literal (a_value a)) :: plain xs.
Proof. unfold plain. simpl. by intros ->. Qed.
Lemma plain_kinds xs : Forall is_plain xs ->
  Forall accepted xs /\ languages xs = [] /\ resources xs = [] /\ scalars xs = [] /\ structured xs = false.
Proof.
  induction 1 as [|a xs [k Hk] Hxs (H1 & H2 & H3 & H4 & H5)]; [by split_and!|].
  unfold languages, resources, scalars, structured in *. simpl. rewrite Hk. split_and!; try done.
  constructor; [|done]. unfold accepted. by rewrite Hk.
Qed.
Lemma compact_plain ys kvs : Forall is_plain ys -> Forall2 compact_entry ys kvs <-> kvs = plain ys.
Proof.
  intros Hys. revert kvs. induction Hys as [|a ys [k Hk] Hys IH]; intros kvs.
  - split; [by intros ->%Forall2_nil_inv_l|intros ->; constructor].
  - rewrite (plain_cons _ _ _ Hk). pose proof (kind_plain _ _ Hk) as (Hn & Hl & _). split.
    + intros (kv & kvs' & (H1 & H2 & H3) & H & ->)%Forall2_cons_inv_l. f_equal; [|by apply IH].
      destruct kv as [[n1 n2] w], k as [k1 k2]; simpl in *. congruence.
    + intros ->. constructor; [by split_and!|by apply IH].
Qed.
Lemma plain_spaces ys : Forall is_plain ys -> Forall (fun a => spaces a = false) ys.
Proof. intros H. eapply Forall_impl; [exact H|]. by intros a [k (_ & _ & Ha)%kind_plain]. Qed.
Lemma attribute_node_entry a k kv :
  kind_of a = Plain k -> is_entry property (attribute_node a) kv <-> kv = (k, Literal (a_value a)).
Proof.
  intros (Hn & Hl & _)%kind_plain. unfold is_entry, attribute_node. rewrite literal_Ok. cbn [tag]. rewrite Hn, Hl.
  destruct kv as [[n1 n2] w], k as [k1 k2]; simpl. naive_solver.
Qed.
Lemma attribute_nodes_entries ys kvs :
  Forall is_plain ys -> Forall2 (is_entry property) (map attribute_node ys) kvs <-> kvs = plain ys.
Proof.
  intros Hys. revert kvs. induction Hys as [|a ys [k Hk] Hys IH]; intros kvs; cbn [map].
  - split; [by intros ->%Forall2_nil_inv_l|intros ->; constructor].
  - rewrite (plain_cons _ _ _ Hk). split.
    + intros (kv & kvs' & H1%(attribute_node_entry _ _ _ Hk) & H & ->)%Forall2_cons_inv_l. f_equal; [done|by apply IH].
    + intros ->. constructor; [by apply (attribute_node_entry _ _ _ Hk)|by apply IH].
Qed.
Lemma elems_attribute_nodes ys : elems (map attribute_node ys) = map attribute_node ys.
Proof. unfold elems. induction ys as [|a ys IH]; [done|]. simpl. rewrite filter_cons_True by done. by f_equal. Qed.
Lemma elems_app cs ds : elems (cs ++ ds) = elems cs ++ elems ds.
Proof. apply filter_app. Qed.
Lemma elems_cons c cs : elems (c :: cs) = if is_element c then c :: elems cs else elems cs.
Proof. unfold elems. rewrite filter_cons. simpl. by destruct (is_element c). Qed.
Lemma texts_attribute_nodes ys : texts (map attribute_node ys) = [].
Proof. unfold texts. by induction ys. Qed.
Lemma blank_app cs ds : blank (cs ++ ds) = blank cs && blank ds.
Proof. unfold blank, texts. by rewrite omap_app, forallb_app. Qed.
Lemma blank_attribute_nodes ys cs : blank (map attribute_node ys ++ cs) = blank cs.
Proof. rewrite blank_app. unfold blank at 1. by rewrite texts_attribute_nodes. Qed.
Lemma blank_perm cs ds : cs ≡ₚ ds -> blank cs = blank ds.
Proof. intros H. unfold blank, texts. apply forallb_perm. by rewrite H. Qed.
Lemma elems_perm cs ds : cs ≡ₚ ds -> elems cs ≡ₚ elems ds.
Proof. unfold elems. by intros ->. Qed.

(** Qualifiers are added one after the other or at once. *)
Lemma with_qualifiers_perm v q q' w : q ≡ₚ q' -> with_qualifiers v q w <-> with_qualifiers v q' w.
Proof. intros H. unfold with_qualifiers, map_of. by setoid_rewrite H. Qed.
Lemma wrap_base v m : is_qualified v = false -> base (wrap v m) = v /\ quals (wrap v m) = m.
Proof. intros H. destruct m; [|done]. by destruct v. Qed.
Lemma with_qualifiers_app v q r w :
  normal v -> (exists u, with_qualifiers v q u /\ with_qualifiers u r w) <-> with_qualifiers v (q ++ r) w.
Proof.
  intros (_ & Hb & _)%normal_base. unfold with_qualifiers. split.
  - intros (u & (m & Hm & ->) & m' & Hm' & ->). destruct (wrap_base (base v) m Hb) as [H1 H2]. rewrite H1, H2 in *.
    exists m'. split; [|done]. rewrite app_assoc. unfold map_of in *. destruct Hm as [_ Hm]. by rewrite <- Hm.
  - intros (m' & Hm' & ->). rewrite app_assoc in Hm'.
    assert (exists m, map_of (quals v ++ q) m) as [m Hm].
    { apply map_of_exists. assert (NoDup ((quals v ++ q) ++ r).*1) as H by (apply map_of_exists; eauto).
      rewrite fmap_app in H. by apply NoDup_app in H as (H & _ & _). }
    exists (wrap (base v) m). split; [by exists m|]. destruct (wrap_base (base v) m Hb) as [-> ->]. exists m'.
    split; [|done]. unfold map_of in *. destruct Hm as [_ ->]. done.
Qed.

(** A structure by its value and its qualifiers. *)
Lemma value_read_value v0 kvs p w : map_of ((VALUE, v0) :: kvs) p -> value_read p w <-> with_qualifiers v0 kvs w.
Proof.
  intros Hp. assert (get_property p VALUE = Some v0) as Hv by (apply (get_map_of _ _ _ _ Hp); by left).
  destruct (remove_spec p VALUE v0 (proj1 Hp) Hv) as (H1 & H2 & H3). destruct Hp as [Hi Heq].
  rewrite H2 in Heq. apply Permutation.Permutation_cons_inv in Heq. unfold value_read. rewrite Hv.
  rewrite <- (with_qualifiers_perm _ _ _ _ Heq). unfold with_qualifiers. naive_solver.
Qed.
Lemma value_read_struct kvs p w : map_of kvs p -> VALUE ∉ kvs.*1 -> value_read p w <-> w = Struct p.
Proof.
  intros Hp Hv. assert (get_property p VALUE = None) as Hn by by apply (get_map_of_None _ _ _ Hp).
  unfold value_read. rewrite Hn. naive_solver.
Qed.
Lemma element_entry k xs cs kv : is_entry property (element k xs cs) kv <-> kv.1 = k /\ property (element k xs cs) = Ok kv.2.
Proof. unfold is_entry, element. cbn [tag]. destruct kv as [[n1 n2] w], k; simpl. naive_solver. Qed.
Lemma structure_value_Ok ns l xs cs rest v :
  property (Element ns l [parse_type] (element VALUE xs cs :: rest)) = Ok v <->
  blank rest = true /\ exists v0 kvs, property (element VALUE xs cs) = Ok v0 /\
    Forall2 (is_entry property) (elems rest) kvs /\ NoDup (VALUE :: kvs.*1) /\ with_qualifiers v0 kvs v.
Proof.
  rewrite structure_Ok, elems_cons. cbn [is_element element].
  change (blank (Element (Some VALUE.1) VALUE.2 xs cs :: rest)) with (blank rest). split.
  - intros (Hb & l' & p & ([k v0] & kvs & [Hkey Hv0]%element_entry & Hk & ->)%Forall2_cons_inv_l & Hp & Hw).
    simpl in Hkey, Hv0. subst k. split; [done|].
    exists v0, kvs. split_and!; try done; [|by apply (value_read_value _ _ _ _ Hp)].
    apply (map_of_exists ((VALUE, v0) :: kvs)). by exists p.
  - intros (Hb & v0 & kvs & Hv0 & Hk & Hn & Hw). split; [done|].
    destruct (proj2 (map_of_exists ((VALUE, v0) :: kvs)) Hn) as [p Hp]. exists ((VALUE, v0) :: kvs), p. split_and!; try done.
    + constructor; [by apply element_entry|done].
    + by apply (value_read_value _ _ _ _ Hp).
Qed.

Lemma Forall2_replace {A B} (P : A -> B -> Prop) x x' before after ys :
  (forall y, P x y <-> P x' y) -> Forall2 P (before ++ x :: after) ys <-> Forall2 P (before ++ x' :: after) ys.
Proof.
  intros H. split; intros (k1 & k2 & H1 & (y & k & Hy & H2 & ->)%Forall2_cons_inv_l & ->)%Forall2_app_inv_l;
    (apply Forall2_app; [done|]; constructor; [by apply H|done]).
Qed.
Lemma Forall2_perm {A B} (P : A -> B -> Prop) l l' k : l ≡ₚ l' -> Forall2 P l k -> exists k', k ≡ₚ k' /\ Forall2 P l' k'.
Proof. intros H. apply Permutation_Forall2. done. Qed.

Lemma existsb_perm {A} (f : A -> bool) l k : l ≡ₚ k -> existsb f l = existsb f k.
Proof. induction 1; simpl; [done|congruence| |congruence]. by rewrite !orb_assoc, (orb_comm (f _)). Qed.
Lemma is_attribute_key ns l a : is_attribute ns l a = true <-> key a = (Some ns, l).
Proof. unfold is_attribute, key. rewrite andb_true_iff, bool_decide_eq_true, String.eqb_eq. split; [by intros [-> ->]|by intros [= -> ->]]. Qed.
Lemma resource_key a : kind_of a = Resource -> key a = (Some RDF, "resource"%string).
Proof.
  intros H. apply is_attribute_key. unfold kind_of in H. destruct (is_attribute RDF "parseType" a); [done|].
  destruct (is_attribute RDF "resource" a); [done|]. destruct (is_attribute RDF "value" a); [done|].
  destruct (is_attribute XML "lang" a); [done|]. destruct (spaces a); [done|]. by destruct (a_namespace a).
Qed.
Lemma scalar_key a : kind_of a = Scalar -> key a = (Some RDF, "value"%string).
Proof.
  intros H. apply is_attribute_key. unfold kind_of in H. destruct (is_attribute RDF "parseType" a); [done|].
  destruct (is_attribute RDF "resource" a); [done|]. destruct (is_attribute RDF "value" a); [done|].
  destruct (is_attribute XML "lang" a); [done|]. destruct (spaces a); [done|]. by destruct (a_namespace a).
Qed.
(** At most one attribute of a name. *)
Lemma omap_unique {B} (f : Attribute -> option B) k xs :
  (forall a b, f a = Some b -> key a = k) -> NoDup (key <$> xs) -> (length (omap f xs) <= 1)%nat.
Proof.
  intros Hf. induction xs as [|a xs IH]; simpl; [lia|]. intros [Ha Hn]%NoDup_cons. destruct (f a) as [b|] eqn:Hb; [|auto].
  change (length (b :: omap f xs) <= 1)%nat. assert (omap f xs = []) as ->; [|done]. apply Hf in Hb. clear IH Hn. induction xs as [|c xs IH]; [done|]. simpl in *.
  apply not_elem_of_cons in Ha as [Hc Ha]. destruct (f c) eqn:Hfc; [|auto]. apply Hf in Hfc. congruence.
Qed.
Lemma perm_short {A} (l k : list A) : l ≡ₚ k -> (length l <= 1)%nat -> l = k.
Proof.
  intros H Hl. destruct l as [|x [|y l]]; simpl in Hl; [by apply Permutation_nil in H|by apply Permutation_singleton_l in H|lia].
Qed.
Lemma agree_attributes ns l xs ys cs :
  NoDup (key <$> xs) -> xs ≡ₚ ys -> agree (Element ns l xs cs) (Element ns l ys cs).
Proof.
  intros Hn Hp v. rewrite !property_Ok. cbn [reads].
  assert (resources xs = resources ys) as ->.
  { apply perm_short; [unfold resources; by rewrite Hp|]. apply (omap_unique _ (Some RDF, "resource"%string)); [|done].
    intros a b. destruct (kind_of a) eqn:Hk; try done. by intros _; apply resource_key. }
  assert (scalars xs = scalars ys) as ->.
  { apply perm_short; [unfold scalars; by rewrite Hp|]. apply (omap_unique _ (Some RDF, "value"%string)); [|done].
    intros a b. destruct (kind_of a) eqn:Hk; try done. by intros _; apply scalar_key. }
  assert (structured xs = structured ys) as -> by by apply existsb_perm.
  assert (plain xs ≡ₚ plain ys) as Hpl by (unfold plain; by rewrite Hp).
  assert (languages xs ≡ₚ languages ys) as Hla by (unfold languages; by rewrite Hp).
  rewrite Hp. setoid_rewrite (map_of_perm _ _ _ Hpl). setoid_rewrite (map_of_perm _ _ _ Hla). done.
Qed.

(** Blanks, fields and members. *)
Lemma is_entry_agree k ys zs cs ds kv :
  agree (element k ys cs) (element k zs ds) ->
  is_entry property (element k ys cs) kv <-> is_entry property (element k zs ds) kv.
Proof. intros H. by rewrite !element_entry, (H _). Qed.
Lemma elems_replace before k ys cs after :
  elems (before ++ element k ys cs :: after) = elems before ++ element k ys cs :: elems after.
Proof. by rewrite elems_app, elems_cons. Qed.
Lemma blank_element before k ys cs after : blank (before ++ element k ys cs :: after) = blank (before ++ after).
Proof. by rewrite !blank_app. Qed.
Lemma agree_field ns l k ys zs cs ds before after :
  agree (element k ys cs) (element k zs ds) ->
  agree (Element ns l [parse_type] (before ++ element k ys cs :: after)) (Element ns l [parse_type] (before ++ element k zs ds :: after)).
Proof.
  intros H v. rewrite !structure_Ok, !elems_replace, !blank_element.
  assert (forall kvs, Forall2 (is_entry property) (elems before ++ element k ys cs :: elems after) kvs <->
    Forall2 (is_entry property) (elems before ++ element k zs ds :: elems after) kvs) as He.
  { intros kvs. apply Forall2_replace. intros kv. by apply is_entry_agree. }
  by setoid_rewrite He.
Qed.
Lemma agree_fields ns l cs ds : cs ≡ₚ ds -> agree (Element ns l [parse_type] cs) (Element ns l [parse_type] ds).
Proof.
  assert (forall cs ds v, cs ≡ₚ ds -> property (Element ns l [parse_type] cs) = Ok v -> property (Element ns l [parse_type] ds) = Ok v) as H.
  { clear cs ds. intros cs ds v Hp. rewrite !structure_Ok, (blank_perm _ _ Hp). intros (Hb & kvs & p & Hk & Hm & Hv).
    destruct (Forall2_perm _ _ _ _ (elems_perm _ _ Hp) Hk) as (kvs' & Hp' & Hk'). split; [done|]. exists kvs', p.
    split_and!; try done. by apply (map_of_perm _ _ _ Hp'). }
  intros Hp v. by split; apply H.
Qed.
Lemma is_array_tag n m : tag n = tag m -> is_array n = is_array m.
Proof. unfold is_array. by intros ->. Qed.
Lemma array_content_Ok ns l form cs v : is_array (element (RDF, form) [] []) = true ->
  property (Element ns l [] [element (RDF, form) [] cs]) = Ok v <->
  blank cs = true /\ exists items, Forall2 (is_member property) (elems cs) items /\ array_read form items v.
Proof.
  intros Ha. rewrite content_Ok by done. unfold node_read, element.
  rewrite (is_array_tag _ (element (RDF, form) [] [])), Ha by done. cbn [tag fst snd]. naive_solver.
Qed.
Lemma agree_member ns l form ys zs cs ds before after :
  agree (element (RDF, "li"%string) ys cs) (element (RDF, "li"%string) zs ds) ->
  is_array (element (RDF, form) [] []) = true ->
  agree (Element ns l [] [element (RDF, form) [] (before ++ element (RDF, "li"%string) ys cs :: after)])
        (Element ns l [] [element (RDF, form) [] (before ++ element (RDF, "li"%string) zs ds :: after)]).
Proof.
  intros H Ha v. rewrite !array_content_Ok by done. rewrite !elems_replace, !blank_element.
  assert (forall vs, Forall2 (is_member property) (elems before ++ element (RDF, "li"%string) ys cs :: elems after) vs <->
    Forall2 (is_member property) (elems before ++ element (RDF, "li"%string) zs ds :: elems after) vs) as He.
  { intros vs. apply Forall2_replace. intros u. unfold is_member. by rewrite (H _). }
  by setoid_rewrite He.
Qed.
Lemma agree_bag ns l cs ds :
  cs ≡ₚ ds -> agree (Element ns l [] [element (RDF, "Bag"%string) [] cs]) (Element ns l [] [element (RDF, "Bag"%string) [] ds]).
Proof.
  revert cs ds. enough (forall cs ds v, cs ≡ₚ ds ->
    property (Element ns l [] [element (RDF, "Bag"%string) [] cs]) = Ok v ->
    property (Element ns l [] [element (RDF, "Bag"%string) [] ds]) = Ok v) as H by (intros cs ds Hp v; by split; apply H).
  intros cs ds v Hp. rewrite !array_content_Ok by done. rewrite (blank_perm _ _ Hp). intros (Hb & items & Hi & Hv). split; [done|].
  destruct (Forall2_perm _ _ _ _ (elems_perm _ _ Hp) Hi) as (items' & Hp' & Hi'). exists items'. split; [done|].
  unfold array_read in *. left. destruct Hv as [[_ ->]|[(? & _)|(? & _)]]; [|done..]. split; [done|]. f_equal. by apply sort_permutation.
Qed.
Lemma agree_alternatives ns l cs ds :
  cs ≡ₚ ds -> Forall (fun c => forall v, property c = Ok v -> is_alternative v = true) (elems cs) ->
  agree (Element ns l [] [element (RDF, "Alt"%string) [] cs]) (Element ns l [] [element (RDF, "Alt"%string) [] ds]).
Proof.
  revert cs ds. enough (forall cs ds v, cs ≡ₚ ds ->
    Forall (fun c => forall v, property c = Ok v -> is_alternative v = true) (elems cs) ->
    property (Element ns l [] [element (RDF, "Alt"%string) [] cs]) = Ok v ->
    property (Element ns l [] [element (RDF, "Alt"%string) [] ds]) = Ok v) as H.
  { intros cs ds Hp Hc v. split; [by apply H|]. apply H; [done|]. by rewrite <- (elems_perm _ _ Hp). }
  intros cs ds v Hp Hc. rewrite !array_content_Ok by done. rewrite (blank_perm _ _ Hp). intros (Hb & items & Hi & Hv). split; [done|].
  destruct (Forall2_perm _ _ _ _ (elems_perm _ _ Hp) Hi) as (items' & Hp' & Hi'). exists items'. split; [done|].
  unfold array_read in *. destruct Hv as [(? & _)|[(_ & _ & b & Hl & ->)|(_ & ? & _)]]; [done| |done]. right. left. split_and!; try done.
  exists b. split; [by apply (language_alternatives_perm items)|]. f_equal.
  assert (Forall (fun v => is_alternative v = true) items) as Hall.
  { clear -Hc Hi. induction Hi as [|c u es us [_ Hu] _ IH]; [constructor|]. apply Forall_cons in Hc as [Hc Hcs]. constructor; auto. }
  apply language_alternatives_Ok in Hl as [_ Hl]. destruct b; [by apply sort_permutation|].
  destruct items as [|x items]; [by apply Permutation_nil in Hp'|]. exfalso. simpl in Hl.
  symmetry in Hl. apply not_true_iff_false in Hl. apply Hl. change (forallb is_alternative (x :: items) = true).
  apply forallb_forall. rewrite Forall_forall in Hall. intros y Hy. apply Hall. by apply list_elem_of_In.
Qed.

(** Encodings. *)
Lemma agree_blanks ns l xs cs ds :
  elems cs = elems ds -> blank cs = true -> blank ds = true -> elems cs <> [] \/ structured xs = true ->
  agree (Element ns l xs cs) (Element ns l xs ds).
Proof.
  intros He Hc Hd Hor v. rewrite !property_Ok. cbn [reads].
  enough (forall A L, body_read property (last (resources xs)) (last (scalars xs)) (structured xs) A L cs v <->
    body_read property (last (resources xs)) (last (scalars xs)) (structured xs) A L ds v) as H by by setoid_rewrite H.
  intros A L. unfold body_read. rewrite <- He, Hc, Hd. destruct (last (resources xs)), (last (scalars xs)).
  - done.
  - split; intros (H1 & H2 & _); destruct Hor; congruence.
  - split; intros (H1 & H2 & _); destruct Hor; congruence.
  - destruct (structured xs); [done|]. destruct (elems cs) as [|c [|c' es]]; [|done..]. by destruct Hor.
Qed.
Lemma concat_empty ts : forallb (fun t => String.eqb t "") ts = String.eqb (String.concat "" ts) "".
Proof.
  induction ts as [|t ts IH]; [done|]. cbn [forallb]. rewrite IH. destruct ts as [|t' ts]; simpl.
  - by rewrite andb_true_r.
  - destruct t as [|a t]; [|done]. simpl. done.
Qed.
Lemma agree_literal ns l xs cs ds :
  elems cs = [] -> elems ds = [] -> structured xs = false -> String.concat "" (texts cs) = String.concat "" (texts ds) ->
  agree (Element ns l xs cs) (Element ns l xs ds).
Proof.
  intros Hc Hd Hs Ht v. rewrite !property_Ok. cbn [reads]. rewrite Hs.
  assert (empty_texts cs = empty_texts ds) as He by (unfold empty_texts; by rewrite !concat_empty, Ht).
  enough (forall A L, body_read property (last (resources xs)) (last (scalars xs)) false A L cs v <->
    body_read property (last (resources xs)) (last (scalars xs)) false A L ds v) as H by by setoid_rewrite H.
  intros A L. unfold body_read. by rewrite Hc, Hd, Ht, He.
Qed.
Lemma agree_content_blanks ns l ns' l' ys ds es :
  elems ds = elems es -> blank ds = true -> blank es = true ->
  agree (Element ns l [] [Element ns' l' ys ds]) (Element ns l [] [Element ns' l' ys es]).
Proof.
  intros He Hd Hb v. rewrite !content_Ok by done. cbn [node_read]. rewrite He, Hd, Hb.
  rewrite (is_array_tag (Element ns' l' ys ds) (Element ns' l' ys es)) by done. done.
Qed.
Definition DESCRIPTION : Name := (RDF, "Description"%string).
Lemma description_Ok ns l ys cs v :
  property (Element ns l [] [element DESCRIPTION ys cs]) = Ok v <->
  blank cs = true /\ Forall (fun a => spaces a = false) ys /\ Forall (fun d => is_field d = true) (elems cs) /\
  exists kvs kvs' p, Forall2 compact_entry ys kvs /\ Forall2 (is_entry property) (elems cs) kvs' /\
    map_of (kvs' ++ kvs) p /\ value_read p v.
Proof.
  rewrite content_Ok by done. unfold element, node_read.
  rewrite (is_array_tag _ (element DESCRIPTION [] [])) by done. change (is_array (element DESCRIPTION [] [])) with false.
  assert (has_tag_name RDF "Description" (Element (Some DESCRIPTION.1) DESCRIPTION.2 ys cs) = true) as Ht by done.
  unfold type_read. rewrite Ht. naive_solver.
Qed.
Lemma agree_structure ns l cs :
  Forall (fun c => is_field c = true) (elems cs) ->
  agree (Element ns l [] [element DESCRIPTION [] cs]) (Element ns l [parse_type] cs).
Proof.
  intros Hf v. rewrite description_Ok, structure_Ok. split.
  - intros (Hb & _ & _ & kvs & kvs' & p & ->%Forall2_nil_inv_l & Hk & Hp & Hv). rewrite app_nil_r in Hp.
    split; [done|]. by exists kvs', p.
  - intros (Hb & kvs & p & Hk & Hp & Hv). split_and!; [done|constructor|done|]. exists [], kvs, p. by rewrite app_nil_r.
Qed.
Lemma is_field_attribute_nodes ys : Forall is_plain ys -> Forall (fun d => is_field d = true) (map attribute_node ys).
Proof.
  induction 1 as [|a ys [k Hk] _ IH]; simpl; constructor; [|done]. apply kind_plain in Hk as (Hn & _ & Hs).
  destruct (spaces_not_rdf _ _ Hs Hn) as [Hr _]. unfold is_field, attribute_node. cbn [tag]. rewrite Hn.
  apply orb_true_intro. left. by apply negb_true_iff, String.eqb_neq.
Qed.
Lemma entries_with_attributes ys cs l :
  Forall is_plain ys -> Forall2 (is_entry property) (elems (map attribute_node ys ++ cs)) l <->
  exists kvs, Forall2 (is_entry property) (elems cs) kvs /\ l = plain ys ++ kvs.
Proof.
  intros Hy. rewrite elems_app, elems_attribute_nodes. split.
  - intros (k1 & k2 & H1%attribute_nodes_entries & H2 & ->)%Forall2_app_inv_l; [|done]. exists k2. by subst.
  - intros (kvs & Hk & ->). apply Forall2_app; [by apply attribute_nodes_entries|done].
Qed.
Lemma agree_compact ns l ns' l' ys cs :
  is_array (Element ns' l' [] []) = false -> Forall is_plain ys ->
  agree (Element ns l [] [Element ns' l' ys cs]) (Element ns l [] [Element ns' l' [] (map attribute_node ys ++ cs)]).
Proof.
  intros Ha Hy v. rewrite !content_Ok by done. unfold node_read.
  assert (forall xs ds, is_array (Element ns' l' xs ds) = false) as Hf by (intros; by rewrite <- Ha; apply is_array_tag).
  rewrite !Hf.
  assert (forall w w', type_read (Element ns' l' ys cs) w w' <-> type_read (Element ns' l' [] (map attribute_node ys ++ cs)) w w') as Ht by done.
  rewrite blank_attribute_nodes, elems_app, elems_attribute_nodes, Forall_app.
  clear Hf. split; (intros (Hb & [(? & _)|(_ & Hs & Hf & kvs & kvs' & p & w & Hk & Hk' & Hp & Hw & Hv)]); [done|]); split; try done; right.
  - apply compact_plain in Hk as ->; [|done]. split_and!; [done|constructor|by apply is_field_attribute_nodes|done|].
    exists [], (plain ys ++ kvs'), p, w. split_and!; try done.
    + apply Forall2_app; [by apply attribute_nodes_entries|done].
    + rewrite app_nil_r. apply (map_of_perm _ _ _ (Permutation_app_comm _ _)). done.
  - apply Forall2_nil_inv_l in Hk as ->. apply Forall2_app_inv_l in Hk' as (k1 & k2 & H1%attribute_nodes_entries & H2 & ->); [|done].
    subst k1. split_and!; [done|by apply plain_spaces|apply Hf|]. exists (plain ys), k2, p, w. split_and!; try done.
    + by apply compact_plain.
    + rewrite app_nil_r in Hp. by apply (map_of_perm _ _ _ (Permutation_app_comm _ _)).
Qed.
Lemma agree_attribute_fields ns l xs :
  Forall is_plain xs -> xs <> [] -> agree (Element ns l xs []) (Element ns l [parse_type] (map attribute_node xs)).
Proof.
  intros Hx Hne v. rewrite property_Ok, structure_Ok. cbn [reads].
  destruct (plain_kinds xs Hx) as (Ha & Hl & Hr & Hs & Hst). rewrite Hl, Hr, Hs, Hst. cbn [last body_read elems filter list_filter].
  replace (map attribute_node xs) with (map attribute_node xs ++ []) by apply app_nil_r.
  setoid_rewrite entries_with_attributes; [|done]. rewrite blank_attribute_nodes.
  assert (forall A, map_of (plain xs) A -> A <> []) as HA.
  { intros A [_ HA] ->. apply Permutation_nil in HA. destruct xs as [|a xs]; [done|]. apply Forall_cons in Hx as [[k Hk] _].
    by rewrite (plain_cons _ _ _ Hk) in HA. }
  split.
  - intros (_ & A & L & Hp & HL & H). apply map_of_same in HL as ->; [|constructor].
    rewrite bool_decide_eq_false_2 in H by by apply HA. destruct H as [_ H]. split; [done|]. exists (plain xs), A.
    split_and!; [by exists []; rewrite app_nil_r|done|]. apply (value_read_struct _ _ _ Hp (plain_not_value xs)).
    apply with_nil in H; [done|]. constructor; [apply Hp| |by apply (map_of_forall _ _ _ Hp), plain_normal].
    apply (get_map_of_None _ _ _ Hp), plain_not_value.
  - intros (_ & l' & p & (kvs & ->%Forall2_nil_inv_l & ->) & Hp & Hv). rewrite app_nil_r in Hp.
    apply (value_read_struct _ _ _ Hp (plain_not_value xs)) in Hv as ->. split; [done|]. exists p, []. split_and!; [done|apply map_of_nil|].
    rewrite bool_decide_eq_false_2 by by apply HA. split; [done|]. apply with_nil; [|done].
    constructor; [apply Hp| |by apply (map_of_forall _ _ _ Hp), plain_normal].
    apply (get_map_of_None _ _ _ Hp), plain_not_value.
Qed.

(** Qualifiers. *)
Lemma element_property k xs cs ns l : property (element k xs cs) = property (Element ns l xs cs).
Proof. done. Qed.
Lemma agree_value ns l xs cs : agree (Element ns l [parse_type] [element VALUE xs cs]) (Element ns l xs cs).
Proof.
  intros v. rewrite structure_value_Ok. rewrite <- (element_property VALUE xs cs ns l). split.
  - intros (_ & v0 & kvs & Hv & ->%Forall2_nil_inv_l & _ & Hw). by apply with_nil in Hw as ->; [|by eapply property_normal].
  - intros Hv. split; [done|]. exists v, []. split_and!; [done|constructor|apply NoDup_singleton|].
    apply with_nil; [by eapply property_normal|done].
Qed.
Lemma omap_first {A B} (f : A -> option B) a xs :
  omap f (a :: xs) = match f a with Some b => b :: omap f xs | None => omap f xs end.
Proof. done. Qed.
Lemma resource_attributes a xs :
  kind_of a = Resource -> Forall is_plain xs -> Forall accepted (a :: xs) /\ plain (a :: xs) = plain xs /\
  languages (a :: xs) = [] /\ resources (a :: xs) = [a_value a] /\ scalars (a :: xs) = [] /\ structured (a :: xs) = false.
Proof.
  intros Ha Hx. destruct (plain_kinds xs Hx) as (H1 & H2 & H3 & H4 & H5).
  unfold plain, languages, resources, scalars, structured in *. rewrite !omap_first, Ha, H3. cbn [existsb]. rewrite Ha.
  split_and!; try done. constructor; [unfold accepted; by rewrite Ha|done].
Qed.
Lemma scalar_attributes a xs :
  kind_of a = Scalar -> Forall is_plain xs -> Forall accepted (a :: xs) /\ plain (a :: xs) = plain xs /\
  languages (a :: xs) = [] /\ resources (a :: xs) = [] /\ scalars (a :: xs) = [a_value a] /\ structured (a :: xs) = false.
Proof.
  intros Ha Hx. destruct (plain_kinds xs Hx) as (H1 & H2 & H3 & H4 & H5).
  unfold plain, languages, resources, scalars, structured in *. rewrite !omap_first, Ha, H4. cbn [existsb]. rewrite Ha.
  split_and!; try done. constructor; [unfold accepted; by rewrite Ha|done].
Qed.
(** The compact form of a value with qualifiers. *)
Lemma compact_value_Ok ns l a xs u v :
  (kind_of a = Resource /\ u = Uri (a_value a)) \/ (kind_of a = Scalar /\ u = Literal (a_value a)) ->
  Forall is_plain xs -> property (Element ns l (a :: xs) []) = Ok v <-> with_qualifiers u (plain xs) v.
Proof.
  intros Hu Hx. rewrite property_Ok. cbn [reads].
  assert (Forall accepted (a :: xs) /\ plain (a :: xs) = plain xs /\ languages (a :: xs) = [] /\
    forall A, body_read property (last (resources (a :: xs))) (last (scalars (a :: xs))) (structured (a :: xs)) A [] [] v <->
      exists m, map_of A m /\ v = wrap u m) as (Ha & -> & -> & Hb).
  { destruct Hu as [[Hk ->]|[Hk ->]].
    - destruct (resource_attributes a xs Hk Hx) as (H1 & H2 & H3 & H4 & H5 & H6). rewrite H4, H5, H6. simpl. naive_solver.
    - destruct (scalar_attributes a xs Hk Hx) as (H1 & H2 & H3 & H4 & H5 & H6). rewrite H4, H5, H6. simpl. naive_solver. }
  unfold with_qualifiers. assert (quals u = [] /\ base u = u) as [-> ->] by (destruct Hu as [[_ ->]|[_ ->]]; done). split.
  - intros (_ & A & L & HA & HL & H). apply map_of_same in HL as ->; [|constructor]. apply Hb in H as (m & Hm & ->).
    exists A. split; [done|]. f_equal. by apply map_of_same in Hm; [|apply HA].
  - intros (m & Hm & ->). split; [done|]. exists m, []. split_and!; [done|apply map_of_nil|]. apply Hb. exists m.
    split; [apply map_of_self, Hm|done].
Qed.
Lemma agree_qualified ns l a xs u ys cs :
  (kind_of a = Resource /\ u = Uri (a_value a)) \/ (kind_of a = Scalar /\ u = Literal (a_value a)) ->
  Forall is_plain xs -> (forall v, property (element VALUE ys cs) = Ok v <-> v = u) ->
  agree (Element ns l (a :: xs) []) (Element ns l [parse_type] (element VALUE ys cs :: map attribute_node xs)).
Proof.
  intros Hu Hx Hv v. rewrite (compact_value_Ok ns l a xs u v Hu Hx), structure_value_Ok.
  assert (blank (map attribute_node xs) = true) as -> by (by rewrite <- (app_nil_r (map _ _)), blank_attribute_nodes).
  rewrite elems_attribute_nodes. split.
  - intros Hw. split; [done|]. exists u, (plain xs). split_and!; [by apply Hv|by apply attribute_nodes_entries| |done].
    destruct Hw as (m & Hm & _). apply NoDup_cons. split; [apply plain_not_value|].
    apply map_of_exists. exists m. by destruct Hu as [[_ ->]|[_ ->]].
  - intros (_ & v0 & kvs & ->%Hv & ->%attribute_nodes_entries & _ & Hw); done.
Qed.
Lemma property_resource k a v : kind_of a = Resource -> property (element k [a] []) = Ok v <-> v = Uri (a_value a).
Proof.
  intros Ha. unfold element. rewrite (compact_value_Ok _ _ a [] (Uri (a_value a))); [|by left|constructor].
  apply with_nil. constructor.
Qed.
Lemma property_text k t v : property (element k [] [Text t]) = Ok v <-> v = Literal t.
Proof. apply literal_Ok. Qed.
Lemma type_node_entry ns l kv : is_entry property (type_node ns l) kv <-> kv = ((RDF, "type"%string), Uri (ns +:+ l)).
Proof. unfold type_node. rewrite element_entry, property_resource by done. destruct kv; simpl. naive_solver. Qed.
Lemma typed_content_Ok ns l ns' l' ys cs v :
  ns' <> RDF -> property (Element ns l [] [element (ns', l') ys cs]) = Ok v <->
  exists w, property (element VALUE [] [element DESCRIPTION ys cs]) = Ok w /\
    with_qualifiers w [((RDF, "type"%string), Uri (ns' +:+ l'))] v.
Proof.
  intros Hne. unfold element at 2. setoid_rewrite description_Ok. rewrite content_Ok by done. unfold element, node_read.
  assert (is_array (Element (Some (ns', l').1) (ns', l').2 ys cs) = false) as ->.
  { unfold is_array. simpl. apply andb_false_iff. left. by apply String.eqb_neq. }
  assert (has_tag_name RDF "Description" (Element (Some (ns', l').1) (ns', l').2 ys cs) = false) as Ht.
  { unfold has_tag_name. simpl. apply bool_decide_eq_false. congruence. }
  unfold type_read. rewrite Ht. split.
  - intros (Hb & [(? & _)|(_ & Hy & Hf & kvs & kvs' & p & w & Hk & Hk' & Hp & Hw & Hv)]); [done|].
    destruct Hv as [[? _]|(_ & ns0 & m & [= <-] & _ & Hm & ->)]; [done|]. exists w. split; [|by exists m].
    split_and!; try done. by exists kvs, kvs', p.
  - intros (w & (Hb & Hy & Hf & kvs & kvs' & p & Hk & Hk' & Hp & Hw) & m & Hm & ->). split; [done|]. right.
    split_and!; try done. exists kvs, kvs', p, w. split_and!; try done. right. split; [done|]. exists ns', m. by split_and!.
Qed.
Lemma agree_typed ns l ns' l' ys cs :
  ns' <> RDF ->
  agree (Element ns l [] [element (ns', l') ys cs])
        (Element ns l [parse_type] [element VALUE [] [element DESCRIPTION ys cs]; type_node ns' l']).
Proof.
  intros Hne v. rewrite structure_value_Ok, typed_content_Ok by done.
  change (elems [type_node ns' l']) with [type_node ns' l']. split.
  - intros (w & Hw & Hv). split; [done|]. eexists w, _. split_and!; [done| | |exact Hv].
    + constructor; [by apply type_node_entry|constructor].
    + by apply (bool_decide_unpack _).
  - intros (_ & w & kvs & Hw & (kv & kr & Hkv%type_node_entry & ->%Forall2_nil_inv_l & ->)%Forall2_cons_inv_l & _ & Hv).
    subst kv. by exists w.
Qed.
Lemma agree_nested ns l ys cs qs rest :
  agree (Element ns l [parse_type] (element VALUE [parse_type] (element VALUE ys cs :: qs) :: rest))
        (Element ns l [parse_type] (element VALUE ys cs :: qs ++ rest)).
Proof.
  intros v. rewrite !structure_value_Ok, blank_app, andb_true_iff, elems_app.
  assert (forall u, property (element VALUE [parse_type] (element VALUE ys cs :: qs)) = Ok u <->
    blank qs = true /\ exists v0 kvs, property (element VALUE ys cs) = Ok v0 /\
      Forall2 (is_entry property) (elems qs) kvs /\ NoDup (VALUE :: kvs.*1) /\ with_qualifiers v0 kvs u) as Hin
    by (intros; apply structure_value_Ok). setoid_rewrite Hin. split.
  - intros (Hr & u & kr & (Hq & v0 & kq & Hv0 & Hkq & Hnq & Hu) & Hkr & Hnr & Hv). split; [done|]. exists v0, (kq ++ kr).
    pose proof (property_normal _ _ Hv0) as Hn. assert (with_qualifiers v0 (kq ++ kr) v) as Hw by (apply with_qualifiers_app; eauto).
    split_and!; [done|by apply Forall2_app| |done]. apply NoDup_cons in Hnq as [Hnq _]. apply NoDup_cons in Hnr as [Hnr _].
    apply NoDup_cons. rewrite fmap_app. split; [set_solver|]. destruct Hw as (m & Hm & _).
    assert (NoDup (quals v0 ++ kq ++ kr).*1) as H by (apply map_of_exists; eauto). rewrite !fmap_app in H.
    by apply NoDup_app in H as (_ & _ & H).
  - intros ([Hq Hr] & v0 & kvs & Hv0 & (kq & kr & Hkq & Hkr & ->)%Forall2_app_inv_l & Hnd & Hv). split; [done|].
    pose proof (property_normal _ _ Hv0) as Hn. apply with_qualifiers_app in Hv as (u & Hu & Hv); [|done].
    rewrite fmap_app in Hnd. apply NoDup_cons in Hnd as [Hnv Hnd]. apply NoDup_app in Hnd as (Hd1 & _ & Hd2).
    exists u, kr. split_and!; try done; [|apply NoDup_cons; set_solver]. exists v0, kq. split_and!; try done.
    apply NoDup_cons. set_solver.
Qed.

Lemma body_language R r sc st A L0 L lang cs v :
  increasing A -> increasing L0 -> map_of ([lang] ++ L0) L ->
  (forall c w, node_read R c w -> normal w) -> (forall cs kvs p w, Forall2 (is_entry R) cs kvs -> map_of kvs p -> value_read p w -> normal w) ->
  (A = [] \/ normal (Struct A)) ->
  body_read R r sc st A L cs v <-> exists w, body_read R r sc st A L0 cs w /\ with_qualifiers w [lang] v.
Proof.
  intros HA HL0 HL Hnode Hval Hst.
  assert (forall u, normal u -> with_qualifiers u L v <-> exists w, with_qualifiers u L0 w /\ with_qualifiers w [lang] v) as Hq.
  { intros u Hu. rewrite with_qualifiers_app by done. apply with_qualifiers_perm. destruct HL as [_ ->].
    by rewrite Permutation_app_comm. }
  assert (forall u, is_qualified u = false -> normal u -> (exists m, map_of (L ++ A) m /\ v = wrap u m) <->
    exists w, (exists m, map_of (L0 ++ A) m /\ w = wrap u m) /\ with_qualifiers w [lang] v) as Hl.
  { intros u Hu Hn. assert (forall q w, with_qualifiers u q w <-> exists m, map_of q m /\ w = wrap u m) as Hw.
    { intros q w. unfold with_qualifiers. by destruct u. }
    setoid_rewrite <- Hw. rewrite with_qualifiers_app by done. apply with_qualifiers_perm. destruct HL as [_ ->].
    rewrite <- app_assoc. apply (Permutation_app_comm [lang]). }
  unfold body_read. destruct r as [u|], sc as [u'|].
  - naive_solver.
  - rewrite Hl by (done || constructor). naive_solver.
  - rewrite Hl by (done || constructor). naive_solver.
  - destruct st; [|destruct (elems cs) as [|c [|c' es]]; [case_bool_decide|..]].
    + split.
      * intros (HA0 & Hb & kvs & p & w & Hk & Hp & Hw & Hv). apply Hq in Hv as (w' & Hw' & Hv); [|by eapply Hval].
        exists w'. split; [|done]. split_and!; try done. by exists kvs, p, w.
      * intros (w' & (HA0 & Hb & kvs & p & w & Hk & Hp & Hw & Hw') & Hv). split_and!; try done. exists kvs, p, w.
        split_and!; try done. apply Hq; [by eapply Hval|]. by exists w'.
    + apply Hq. constructor.
    + rewrite Hq by naive_solver. naive_solver.
    + split.
      * intros (HA0 & Hb & w & Hw & Hv). apply Hq in Hv as (w' & Hw' & Hv); [|by eapply Hnode].
        exists w'. split; [|done]. split_and!; try done. by exists w.
      * intros (w' & (HA0 & Hb & w & Hw & Hw') & Hv). split_and!; try done. exists w. split; [done|].
        apply Hq; [by eapply Hnode|]. by exists w'.
    + naive_solver.
Qed.
Lemma with_qualifiers_in u q w kv : normal u -> with_qualifiers u q w -> kv ∈ q -> kv ∈ quals w.
Proof.
  intros (_ & Hb & _)%normal_base (m & [_ Hm] & ->) Hin. destruct (wrap_base (base u) m Hb) as [_ ->].
  rewrite Hm. set_solver.
Qed.
Lemma body_quals R r sc st A L cs w kv :
  (forall c w, node_read R c w -> normal w) -> (forall cs kvs p w, Forall2 (is_entry R) cs kvs -> map_of kvs p -> value_read p w -> normal w) ->
  (A = [] \/ normal (Struct A)) -> body_read R r sc st A L cs w -> kv ∈ L -> kv ∈ quals w.
Proof.
  intros Hnode Hval Hst Hb Hin. unfold body_read in Hb.
  assert (forall u m, is_qualified u = false -> map_of (L ++ A) m -> kv ∈ quals (wrap u m)) as Hl.
  { intros u m Hu [_ Hm]. destruct (wrap_base u m Hu) as [_ ->]. rewrite Hm. set_solver. }
  destruct r as [u|], sc as [u'|]; [done|destruct Hb as (_ & _ & _ & m & Hm & ->); by apply Hl..|].
  destruct st; [|destruct (elems cs) as [|c [|c' es]]; [case_bool_decide|..]].
  - destruct Hb as (_ & _ & kvs & p & x & Hk & Hp & Hx & Hw). eapply with_qualifiers_in; [|done|done]. by eapply Hval.
  - eapply with_qualifiers_in; [|done|done]. constructor.
  - destruct Hb as [_ Hw]. eapply with_qualifiers_in; [|done|done]. by destruct Hst.
  - destruct Hb as (_ & _ & x & Hx & Hw). eapply with_qualifiers_in; [|done|done]. by eapply Hnode.
  - done.
Qed.
Definition language_entry (a : Attribute) : Name * Value := ((XML, "lang"%string), Literal (to_ascii_lowercase (a_value a))).
Lemma language_attributes a xs :
  kind_of a = Language -> (Forall accepted (a :: xs) <-> Forall accepted xs) /\ plain (a :: xs) = plain xs /\
  languages (a :: xs) = [language_entry a] ++ languages xs /\ resources (a :: xs) = resources xs /\
  scalars (a :: xs) = scalars xs /\ structured (a :: xs) = structured xs.
Proof.
  intros Ha. unfold plain, languages, resources, scalars, structured. rewrite !omap_first, Ha. cbn [existsb]. rewrite Ha.
  split_and!; try done. rewrite Forall_cons. unfold accepted at 1. rewrite Ha. naive_solver.
Qed.
Lemma languages_key xs k : k ∈ (languages xs).*1 -> k = (XML, "lang"%string).
Proof.
  unfold languages. induction xs as [|a xs IH]; simpl; [set_solver|]. destruct (kind_of a); try done. simpl. set_solver.
Qed.
Lemma agree_language ns l a xs cs :
  kind_of a = Language ->
  agree (Element ns l (a :: xs) cs)
        (Element ns l [parse_type] [element VALUE xs cs; element (XML, "lang"%string) [] [Text (to_ascii_lowercase (a_value a))]]).
Proof.
  intros Ha v. rewrite structure_value_Ok. unfold element at 1. rewrite !property_Ok. setoid_rewrite property_Ok. cbn [reads].
  destruct (language_attributes a xs Ha) as (-> & -> & -> & -> & -> & ->).
  assert (forall c w, node_read property c w -> normal w) as Hnode.
  { intros c w. apply node_read_normal. intros d u _. apply property_normal. }
  assert (forall cs kvs p w, Forall2 (is_entry property) cs kvs -> map_of kvs p -> value_read p w -> normal w) as Hval.
  { intros cs0 kvs p w. apply value_of_entries. }
  assert (forall A, map_of (plain xs) A -> A = [] \/ normal (Struct A)) as Hst.
  { intros A HA. right. constructor; [apply HA| |by apply (map_of_forall _ _ _ HA), plain_normal].
    apply (get_map_of_None _ _ _ HA), plain_not_value. }
  set (x := element (XML, "lang"%string) [] [Text (to_ascii_lowercase (a_value a))]).
  change (elems [x]) with [x].
  assert (forall kvs, Forall2 (is_entry property) [x] kvs <-> kvs = [language_entry a]) as Hx.
  { assert (forall kv, is_entry property x kv <-> kv = language_entry a) as Hkv.
    { intros [k w]. unfold x. rewrite element_entry, property_text. unfold language_entry. simpl. naive_solver. }
    intros kvs. split; [intros (kv & kr & ->%Hkv & ->%Forall2_nil_inv_l & ->)%Forall2_cons_inv_l; done|].
    intros ->. constructor; [by apply Hkv|constructor]. }
  split.
  - intros (Hacc & A & L & HA & HL & Hbody).
    assert (exists L0, map_of (languages xs) L0) as [L0 HL0].
    { apply map_of_exists. assert (NoDup ([language_entry a] ++ languages xs).*1) as Hn by (apply map_of_exists; eauto).
      rewrite fmap_app in Hn. by apply NoDup_app in Hn as (_ & _ & Hn). }
    assert (map_of ([language_entry a] ++ L0) L) as HL' by (by apply (map_of_app _ _ _ _ HL0)).
    destruct (proj1 (body_language _ _ _ _ _ L0 _ _ _ v (proj1 HA) (proj1 HL0) HL' Hnode Hval (Hst _ HA)) Hbody) as (w & Hw & Hv).
    split; [done|]. exists w, [language_entry a]. split_and!; [split; [done|by exists A, L0]|by apply Hx| |done].
    by apply (bool_decide_unpack _).
  - intros (_ & w & kvs & (Hacc & A & L0 & HA & HL0 & Hbody) & ->%Hx & _ & Hv). split; [done|].
    assert (exists L, map_of ([language_entry a] ++ languages xs) L) as [L HL].
    { apply map_of_exists. rewrite fmap_app. apply NoDup_app. split_and!; [apply NoDup_singleton| |by apply map_of_exists; exists L0].
      intros k [= ->]%list_elem_of_singleton (kv & Hkv & Hin)%list_elem_of_fmap. destruct Hv as (m & Hm & _).
      assert (NoDup (quals w ++ [language_entry a]).*1) as Hn by (apply map_of_exists; eauto). rewrite fmap_app in Hn.
      apply NoDup_app in Hn as (_ & Hn & _). apply (Hn (XML, "lang"%string)); [|by left].
      apply list_elem_of_fmap. exists kv. split; [done|]. eapply body_quals; [done|done|by apply Hst|exact Hbody|].
      by rewrite (proj2 HL0). }
    assert (map_of ([language_entry a] ++ L0) L) as HL' by (by apply (map_of_app _ _ _ _ HL0)).
    exists A, L. split_and!; [done|done|].
    apply (body_language _ _ _ _ _ L0 _ _ _ v (proj1 HA) (proj1 HL0) HL' Hnode Hval (Hst _ HA)). by exists w.
Qed.
Lemma same_agree n m : same n m -> agree n m.
Proof.
  induction 1.
  - done.
  - intros v. by rewrite (IHsame v).
  - intros v. by rewrite (IHsame1 v).
  - by apply agree_attributes.
  - by apply agree_blanks.
  - by apply agree_literal.
  - by apply agree_content_blanks.
  - by apply agree_field.
  - by apply agree_fields.
  - by apply agree_member.
  - by apply agree_bag.
  - by apply agree_alternatives.
  - by apply agree_structure.
  - by apply agree_compact.
  - by apply agree_typed.
  - by apply agree_attribute_fields.
  - apply (agree_qualified _ _ _ _ (Uri (a_value a))); [by left|done|]. intros v. by apply property_resource.
  - apply (agree_qualified _ _ _ _ (Literal (a_value a))); [by right|done|]. intros v. apply property_text.
  - by apply agree_language.
  - subst. apply agree_nested.
  - apply agree_value.
Qed.
