(* ===== verification/RdfPrint.v ===== *)
(** RDF values written back: every normal value has a canonical property element, it
    is read back, and every element is related to that of its value by the rules. *)
From stdpp Require Import base tactics option list numbers strings sorting sets.
From Stdlib Require Import ZArith Lia.
From S2P Require Import Prelude Requested RdfModel RdfOrder RdfReading RdfTheorems.

Open Scope Z_scope.
Local Open Scope prog_scope.

(** ** The canonical element of a value *)

Definition LI : Name := (RDF, "li"%string).
Definition resource_attribute (u : string) : Attribute := mkAttribute (Some RDF) "resource" u.
Fixpoint parts (v : Value) : list Attribute * list Node :=
  let entries := map (fun kv : Name * Value => element kv.1 (parts kv.2).1 (parts kv.2).2) in
  match v with
  | Literal s => ([], [Text s])
  | Uri u => ([resource_attribute u], [])
  | Struct p => ([parse_type], entries p)
  | Array form items => ([], [element (RDF, form) [] (map (fun v => element LI (parts v).1 (parts v).2) items)])
  | Qualified w q => ([parse_type], element VALUE (parts w).1 (parts w).2 :: entries q)
  end.
Definition print (k : Name) (v : Value) : Node := element k (parts v).1 (parts v).2.
Definition print_entry (kv : Name * Value) : Node := print kv.1 kv.2.

Lemma elems_map {A} (f : A -> Node) l : (forall x, is_element (f x) = true) -> elems (map f l) = map f l.
Proof. intros H. induction l as [|x l IH]; [done|]. simpl. rewrite elems_cons, H. by f_equal. Qed.
Lemma blank_map {A} (f : A -> Node) l : (forall x, is_element (f x) = true) -> blank (map f l) = true.
Proof.
  intros H. unfold blank. assert (texts (map f l) = []) as ->; [|done].
  induction l as [|x l IH]; [done|]. unfold texts in *. simpl. specialize (H x). by destruct (f x).
Qed.
Lemma print_entries q : Forall (fun kv => forall k, property (print k kv.2) = Ok kv.2) q ->
  Forall2 (is_entry property) (map print_entry q) q.
Proof.
  induction 1 as [|[k v] q Hv _ IH]; simpl; constructor; [|done]. apply element_entry. split; [done|apply Hv].
Qed.
Lemma print_members items : Forall (fun v => forall k, property (print k v) = Ok v) items ->
  Forall2 (is_member property) (map (print LI) items) items.
Proof. induction 1 as [|v items Hv _ IH]; simpl; constructor; [|done]. split; [done|apply Hv]. Qed.
Lemma normal_array_read form items :
  form ∈ ["Bag"%string; "Seq"%string; "Alt"%string] -> canonical form items -> array_read form items (Array form items).
Proof.
  unfold canonical, array_read. intros Hf [Hbag Halt].
  destruct (decide (form = "Bag"%string)) as [->|Hb]; [left; by rewrite sort_of_sorted by auto|].
  destruct (decide (form = "Alt"%string)) as [->|Ha]; [|by right; right]. right. left. split_and!; try done.
  destruct (Halt eq_refl) as (b & Hl & Hs). exists b. split; [done|]. destruct b; [by rewrite sort_of_sorted by auto|done].
Qed.
Lemma form_is_array form : form ∈ ["Bag"%string; "Seq"%string; "Alt"%string] -> is_array (element (RDF, form) [] []) = true.
Proof. intros H. unfold is_array, element. cbn [tag fst snd]. apply andb_true_iff. split; [done|by apply existsb_in]. Qed.
Lemma Forall_apply {A} (P Q : A -> Prop) l : Forall (fun x => P x -> Q x) l -> Forall P l -> Forall Q l.
Proof. induction 1; [done|]. intros [? ?]%Forall_cons. constructor; auto. Qed.
Lemma print_property v : normal v -> forall k, property (print k v) = Ok v.
Proof.
  intros Hv. induction v as [s|s|p IH|form items IH|w q IH1 IH2] using value_induction; intros k; inversion Hv; subst.
  - by apply property_text.
  - by apply property_resource.
  - apply structure_Ok. cbn [parts fst snd]. rewrite blank_map, elems_map by done. split; [done|]. exists p, p. split_and!.
    + apply print_entries. by eapply Forall_apply; [exact IH|].
    + by apply map_of_self.
    + by left.
  - apply array_content_Ok; [by apply form_is_array|]. rewrite blank_map, elems_map by done. split; [done|].
    exists items. split; [|by apply normal_array_read]. apply print_members.
    by eapply Forall_apply; [exact IH|].
  - apply structure_value_Ok. rewrite blank_map, elems_map by done. split; [done|]. exists w, q. split_and!.
    + by apply IH1.
    + apply print_entries. by eapply Forall_apply; [exact IH2|].
    + apply NoDup_cons. split; [by apply get_not_in|by apply increasing_keys].
    + exists q. destruct w; try done; (split; [by apply map_of_self|by destruct q]).
Qed.

(** ** Every element is related to the canonical one *)

(** A description or typed node, an array, and the attributes of a well-formed document. *)
Inductive well_formed : Node -> Prop :=
| wf_element ns l xs cs : NoDup (key <$> xs) -> Forall well_formed cs -> well_formed (Element ns l xs cs)
| wf_text t : well_formed (Text t)
| wf_other : well_formed Other.
Lemma well_formed_child c n : well_formed n -> c ∈ children n -> well_formed c.
Proof. intros [ns l xs cs _ H| |]; simpl; [|set_solver..]. rewrite Forall_forall in H. apply H. Qed.

(** Reduced to the canonical form of its value. *)
Definition reduced (c : Node) (v : Value) : Prop :=
  exists ns l xs cs, c = Element ns l xs cs /\ same c (Element ns l (parts v).1 (parts v).2).
Lemma reduced_element k xs cs v : reduced (element k xs cs) v -> same (element k xs cs) (print k v).
Proof. intros (ns & l & xs' & cs' & [= <- <- <- <-] & H). exact H. Qed.

Lemma same_all_fields ns l before cs kvs :
  Forall2 (fun c kv => tag c = (Some kv.1.1, kv.1.2) /\ reduced c kv.2) cs kvs ->
  same (Element ns l [parse_type] (before ++ cs)) (Element ns l [parse_type] (before ++ map print_entry kvs)).
Proof.
  intros H. revert before. induction H as [|c [k v] cs kvs [Ht (ns' & l' & xs & ds & -> & Hs)] _ IH]; intros before; [apply same_refl|].
  simpl in Ht. injection Ht as -> ->. simpl. eapply same_trans.
  - apply (same_field ns l k xs (parts v).1 ds (parts v).2 before cs). exact Hs.
  - rewrite !(cons_middle (element _ _ _)), !(cons_middle (print_entry _)), !app_assoc. apply IH.
Qed.
Lemma same_all_members ns l form before cs vs :
  is_array (element (RDF, form) [] []) = true ->
  Forall2 (fun c v => tag c = (Some RDF, "li"%string) /\ reduced c v) cs vs ->
  same (Element ns l [] [element (RDF, form) [] (before ++ cs)]) (Element ns l [] [element (RDF, form) [] (before ++ map (print LI) vs)]).
Proof.
  intros Ha H. revert before. induction H as [|c v cs vs [Ht (ns' & l' & xs & ds & -> & Hs)] _ IH]; intros before; [apply same_refl|].
  simpl in Ht. injection Ht as -> ->. simpl. eapply same_trans.
  - apply (same_member ns l form xs (parts v).1 ds (parts v).2 before cs); [exact Hs|done].
  - rewrite !(cons_middle (element LI _ _)), !(cons_middle (print LI _)), !app_assoc. apply IH.
Qed.
Lemma parts_wrap b m : m <> [] -> parts (wrap b m) = ([parse_type], print VALUE b :: map print_entry m).
Proof. intros H. by destruct m. Qed.
(** A value and qualifiers, as a structure. *)
Lemma same_qualifiers ns l u q w :
  normal u -> with_qualifiers u q w ->
  same (Element ns l [parse_type] (print VALUE u :: map print_entry q)) (Element ns l (parts w).1 (parts w).2).
Proof.
  intros Hu (m & Hm & ->). destruct (is_qualified u) eqn:Hq.
  - destruct u as [| | | |b m0]; try done. cbn [base quals] in *. inversion Hu; subst.
    rewrite parts_wrap. 2:{ intros ->. destruct Hm as [_ Hm]. apply Permutation_nil, app_eq_nil in Hm as [? _]. done. }
    unfold print at 1. cbn [parts fst snd]. eapply same_trans; [apply same_nested; done|]. apply same_fields.
    constructor. change (map (fun kv => element kv.1 (parts kv.2).1 (parts kv.2).2) m0) with (map print_entry m0).
    rewrite <- map_app. apply (fmap_Permutation print_entry). symmetry. apply Hm.
  - assert (quals u = [] /\ base u = u) as [H1 H2] by by destruct u. rewrite H1, H2 in *. simpl in Hm.
    destruct (decide (m = [])) as [->|Hne].
    + destruct Hm as [_ Hm]. apply Permutation_nil in Hm as ->. apply same_value.
    + rewrite parts_wrap by done. apply same_fields. constructor. apply (fmap_Permutation print_entry). symmetry. apply Hm.
Qed.
Lemma elems_idem cs : elems (elems cs) = elems cs.
Proof. unfold elems. apply list_filter_filter_l. done. Qed.
Lemma blank_elems cs : blank (elems cs) = true.
Proof.
  unfold blank. assert (texts (elems cs) = []) as ->; [|done]. induction cs as [|c cs IH]; [done|]. rewrite elems_cons.
  destruct c; simpl; [|done..]. exact IH.
Qed.
Lemma reduced_print k v : reduced (print k v) v.
Proof. by eexists _, _, _, _; split; [done|apply same_refl]. Qed.

(** *** Structures *)
Lemma structure_complete ns l cs kvs p w :
  blank cs = true -> Forall2 (fun c kv => tag c = (Some kv.1.1, kv.1.2) /\ reduced c kv.2) (elems cs) kvs ->
  Forall (fun kv => normal kv.2) kvs -> map_of kvs p -> value_read p w ->
  same (Element ns l [parse_type] cs) (Element ns l (parts w).1 (parts w).2).
Proof.
  intros Hb Hk Hn Hp Hw. eapply same_trans.
  { apply (same_blanks ns l [parse_type] cs (elems cs)); [by rewrite elems_idem|done|apply blank_elems|by right]. }
  eapply same_trans; [apply (same_all_fields ns l [] _ _ Hk)|]. cbn [app].
  destruct Hw as [[Hv ->]|(v & m & Hv & Hm & ->)].
  - apply same_fields. apply (fmap_Permutation print_entry). symmetry. apply Hp.
  - destruct (remove_spec p VALUE v (proj1 Hp) Hv) as (H1 & H2 & H3). eapply same_trans.
    { apply (same_fields ns l _ (map print_entry ((VALUE, v) :: remove_property p VALUE))).
      apply (fmap_Permutation print_entry). by rewrite <- H2, (proj2 Hp). }
    apply (same_qualifiers ns l v (remove_property p VALUE)); [|by exists m].
    assert (Forall (fun kv => normal kv.2) p) as Hnp by by apply (map_of_forall _ _ _ Hp).
    rewrite H2 in Hnp. by apply Forall_cons in Hnp as [? _].
Qed.
Lemma compact_is_plain ys kvs :
  Forall (fun a => spaces a = false) ys -> Forall2 compact_entry ys kvs -> Forall is_plain ys /\ kvs = plain ys.
Proof.
  intros Hs Hk. assert (Forall is_plain ys) as Hp.
  { induction Hk as [|a kv ys kvs (H1 & _) _ IH]; [constructor|]. apply Forall_cons in Hs as [Hs Hss]. constructor; [|auto].
    destruct (spaces_not_rdf _ _ Hs H1) as [Hr Hx]. exists (kv.1.1, a_name a). unfold kind_of, is_attribute. rewrite Hs, H1.
    rewrite !bool_decide_eq_false_2 by congruence. done. }
  split; [done|]. by apply compact_plain.
Qed.
Lemma attribute_nodes_reduced ys : Forall is_plain ys ->
  Forall2 (fun c kv => tag c = (Some kv.1.1, kv.1.2) /\ reduced c kv.2) (map attribute_node ys) (plain ys).
Proof.
  induction 1 as [|a ys [k Hk] _ IH]; [constructor|]. rewrite (plain_cons _ _ _ Hk). cbn [map]. constructor; [|done].
  apply kind_plain in Hk as (Hn & Hl & _). unfold attribute_node. rewrite Hn, Hl. split; [done|]. apply (reduced_print k (Literal (a_value a))).
Qed.

(** What is known of the children, when their values are. *)
Definition complete (c : Node) : Prop := forall v, property c = Ok v -> is_element c = true -> reduced c v.
Lemma entries_reduced cs kvs : Forall complete cs ->
  Forall2 (is_entry property) (elems cs) kvs ->
  Forall2 (fun c kv => tag c = (Some kv.1.1, kv.1.2) /\ reduced c kv.2) (elems cs) kvs.
Proof.
  intros Hc. revert kvs. induction Hc as [|c cs Hc _ IH]; intros kvs; [intros ->%Forall2_nil_inv_l; constructor|].
  rewrite elems_cons. destruct (is_element c) eqn:He; [|apply IH].
  intros (kv & kr & [Ht Hv] & Hk & ->)%Forall2_cons_inv_l. constructor; [|by apply IH]. split; [done|]. by apply Hc.
Qed.
Lemma members_reduced cs vs : Forall complete cs ->
  Forall2 (is_member property) (elems cs) vs ->
  Forall2 (fun c v => tag c = (Some RDF, "li"%string) /\ reduced c v) (elems cs) vs.
Proof.
  intros Hc. revert vs. induction Hc as [|c cs Hc _ IH]; intros vs; [intros ->%Forall2_nil_inv_l; constructor|].
  rewrite elems_cons. destruct (is_element c) eqn:He; [|apply IH].
  intros (v & vr & [Ht Hv] & Hk & ->)%Forall2_cons_inv_l. constructor; [|by apply IH].
  unfold has_tag_name in Ht. apply andb_true_iff in Ht as [_ Ht%bool_decide_eq_true]. split; [done|]. by apply Hc.
Qed.

(** *** Contents *)
Lemma description_complete ns l ys cs w : Forall complete cs ->
  property (Element ns l [] [element DESCRIPTION ys cs]) = Ok w ->
  same (Element ns l [] [element DESCRIPTION ys cs]) (Element ns l (parts w).1 (parts w).2).
Proof.
  intros Hc (Hb & Hs & Hf & kvs & kvs' & p & Hk & Hk' & Hp & Hw)%description_Ok.
  destruct (compact_is_plain _ _ Hs Hk) as [Hpl ->]. eapply same_trans; [apply same_compact; [done|exact Hpl]|].
  eapply same_trans.
  { apply same_structure. rewrite elems_app, elems_attribute_nodes. apply Forall_app. split; [by apply is_field_attribute_nodes|done]. }
  apply (structure_complete _ _ _ (plain ys ++ kvs') p).
  - by rewrite blank_attribute_nodes.
  - rewrite elems_app, elems_attribute_nodes. apply Forall2_app; [by apply attribute_nodes_reduced|by apply entries_reduced].
  - apply Forall_app. split; [apply plain_normal|by eapply entries_normal].
  - by apply (map_of_perm _ _ _ (Permutation_app_comm _ _)).
  - done.
Qed.
Lemma array_complete ns l ns' form ds w : Forall complete ds ->
  is_array (Element ns' form [] ds) = true -> property (Element ns l [] [Element ns' form [] ds]) = Ok w ->
  same (Element ns l [] [Element ns' form [] ds]) (Element ns l (parts w).1 (parts w).2).
Proof.
  intros Hc Ha. pose proof Ha as Hform. apply is_array_form in Ha as [-> Hf].
  change (Element (Some RDF) form [] ds) with (element (RDF, form) [] ds).
  rewrite array_content_Ok by by apply form_is_array.
  intros (Hb & items & Hi & Hw). pose proof (members_reduced ds items Hc Hi) as Hm.
  assert (Forall normal items) as Hn.
  { clear -Hi. induction Hi as [|c v cs vs [_ Hv] _ IH]; constructor; [by eapply property_normal|done]. }
  eapply same_trans; [apply (same_content_blanks ns l _ _ [] ds (elems ds)); [by rewrite elems_idem|done|apply blank_elems]|].
  eapply same_trans; [apply (same_all_members ns l form [] _ items); [by apply form_is_array|exact Hm]|]. cbn [app].
  pose proof (merge_sort_Permutation value_le items) as Hp.
  destruct Hw as [(-> & ->)|[(_ & -> & b & Hl & ->)|(_ & _ & ->)]]; cbn [parts fst snd].
  - apply same_bag. apply (fmap_Permutation (print LI)). by symmetry.
  - destruct b; [|apply same_refl]. apply same_alternatives; [apply (fmap_Permutation (print LI)); by symmetry|].
    rewrite elems_map by done. apply language_alternatives_Ok in Hl as [_ Hl]. symmetry in Hl. apply andb_true_iff in Hl as [_ Hl].
    clear -Hn Hl. induction Hn as [|v items Hv _ IH]; [constructor|]. simpl in Hl. apply andb_true_iff in Hl as [Hv' Hl].
    simpl. constructor; [|auto]. intros u. rewrite (print_property v Hv). by intros [= <-].
  - apply same_refl.
Qed.
Lemma content_complete ns l c w : is_element c = true -> Forall complete (children c) ->
  property (Element ns l [] [c]) = Ok w -> same (Element ns l [] [c]) (Element ns l (parts w).1 (parts w).2).
Proof.
  destruct c as [ns' l' ys ds| |]; [|done..]. intros _ Hc Hw. cbn [children] in Hc.
  pose proof Hw as Hr. rewrite content_Ok in Hr by done. unfold node_read in Hr.
  destruct Hr as (Hb & [(Ha & -> & _)|(Ha & Hs & Hf & kvs & kvs' & p & u & Hk & Hk' & Hp & Hu & Ht)]).
  - by apply array_complete.
  - destruct Ht as [[Hd _]|(Hd & ns0 & m & [= ->] & Hne & Hm & ->)].
    + unfold has_tag_name in Hd. apply andb_true_iff in Hd as [_ Hd%bool_decide_eq_true]. injection Hd as -> ->.
      by apply description_complete.
    + change (Element (Some ns0) l' ys ds) with (element (ns0, l') ys ds) in *. cbn [tag snd fst element] in Hm.
      eapply same_trans; [by apply same_typed|].
      assert (property (element VALUE [] [element DESCRIPTION ys ds]) = Ok u) as Hv.
      { apply description_Ok. split_and!; try done. by exists kvs, kvs', p. }
      eapply same_trans.
      { apply (same_field ns l VALUE [] (parts u).1 _ (parts u).2 []). apply description_complete; [done|exact Hv]. }
      apply (same_qualifiers ns l u [((RDF, "type"%string), Uri (ns0 +:+ l'))]); [by eapply property_normal|by exists m].
Qed.

(** *** Properties *)
Lemma kind_in {B} (f : Attribute -> option B) a xs b : a ∈ xs -> f a = Some b -> omap f xs <> [].
Proof. intros Ha Hf He. assert (b ∈ omap f xs) as H by (apply list_elem_of_omap; eauto). by rewrite He in H; apply not_elem_of_nil in H. Qed.
Lemma last_some {A} (l : list A) : l <> [] -> last l <> None.
Proof. intros H. by rewrite last_None. Qed.
Lemma last_in {A} (l : list A) x : last l = Some x -> x ∈ l.
Proof. intros (k & ->)%last_Some. apply elem_of_app. right. by left. Qed.
Lemma structured_in a xs : a ∈ xs -> kind_of a = ParseType -> structured xs = true.
Proof. intros Ha Hk. apply existsb_exists. exists a. split; [by apply list_elem_of_In|by rewrite Hk]. Qed.
Lemma kind_key a ns l K :
  (K = ParseType /\ ns = RDF /\ l = "parseType"%string) \/ (K = Language /\ ns = XML /\ l = "lang"%string) ->
  kind_of a = K -> key a = (Some ns, l).
Proof.
  intros HK H. apply is_attribute_key. unfold kind_of in H.
  destruct (is_attribute RDF "parseType" a) eqn:E1; [naive_solver|].
  destruct (is_attribute RDF "resource" a); [naive_solver|]. destruct (is_attribute RDF "value" a); [naive_solver|].
  destruct (is_attribute XML "lang" a) eqn:E2; [naive_solver|]. destruct (spaces a); [naive_solver|].
  destruct (a_namespace a); naive_solver.
Qed.
Lemma all_plain xs :
  Forall accepted xs -> (forall a, a ∈ xs -> kind_of a <> ParseType /\ kind_of a <> Resource /\ kind_of a <> Scalar /\ kind_of a <> Language) ->
  Forall is_plain xs.
Proof.
  rewrite !Forall_forall. intros Ha Hk a Hin. specialize (Ha a Hin). destruct (Hk a Hin) as (H1 & H2 & H3 & H4).
  unfold accepted in Ha. unfold is_plain. destruct (kind_of a); try done. eauto.
Qed.
(** The attribute of a name that occurs once, in front. *)
Lemma take_out a xs : a ∈ xs -> NoDup (key <$> xs) -> exists ys, xs ≡ₚ a :: ys /\ forall b, b ∈ ys -> b ∈ xs /\ key b <> key a.
Proof.
  intros [ys Hp]%elem_of_Permutation Hn. exists ys. split; [done|]. intros b Hb. split; [rewrite Hp; by right|].
  rewrite Hp in Hn. apply NoDup_cons in Hn as [Hn _]. intros He. apply Hn. rewrite <- He. by apply list_elem_of_fmap_2.
Qed.
Lemma attribute_nodes_print ys : Forall is_plain ys -> map attribute_node ys = map print_entry (plain ys).
Proof.
  induction 1 as [|a ys [k Hk] _ IH]; [done|]. rewrite (plain_cons _ _ _ Hk). cbn [map]. rewrite <- IH. f_equal.
  apply kind_plain in Hk as (Hn & Hl & _). unfold attribute_node. by rewrite Hn, Hl.
Qed.
Lemma compact_complete ns l a xs cs u v :
  (kind_of a = Resource /\ u = Uri (a_value a)) \/ (kind_of a = Scalar /\ u = Literal (a_value a)) ->
  Forall is_plain xs -> elems cs = [] -> empty_texts cs = true -> property (Element ns l (a :: xs) cs) = Ok v ->
  same (Element ns l (a :: xs) cs) (Element ns l (parts v).1 (parts v).2).
Proof.
  intros Hu Hx He Ht Hv. assert (structured (a :: xs) = false) as Hst.
  { destruct Hu as [[Hk _]|[Hk _]]; [by destruct (resource_attributes a xs Hk Hx) as (_ & _ & _ & _ & _ & ?)|].
    by destruct (scalar_attributes a xs Hk Hx) as (_ & _ & _ & _ & _ & ?). }
  assert (same (Element ns l (a :: xs) cs) (Element ns l (a :: xs) [])) as H1.
  { apply same_literal; [done..|]. unfold empty_texts in Ht. rewrite concat_empty in Ht. by apply String.eqb_eq in Ht. }
  eapply same_trans; [exact H1|]. apply (same_agree _ _ H1) in Hv.
  apply (compact_value_Ok ns l a xs u v Hu Hx) in Hv. eapply same_trans; [|apply (same_qualifiers ns l u (plain xs) v)]; [|by destruct Hu as [[_ ->]|[_ ->]]; constructor|done].
  rewrite <- (attribute_nodes_print xs Hx). destruct Hu as [[Hk ->]|[Hk ->]].
  - replace (print VALUE (Uri (a_value a))) with (element VALUE [a] []); [by apply same_resource|].
    unfold print. cbn [parts fst snd]. do 2 f_equal. unfold resource_attribute. pose proof (resource_key a Hk) as Hkey. unfold key in Hkey. by destruct a; simplify_eq/=.
  - by apply same_scalar.
Qed.
Lemma value_attribute_complete ns l a xs cs u v :
  (kind_of a = Resource /\ u = Uri (a_value a)) \/ (kind_of a = Scalar /\ u = Literal (a_value a)) ->
  a ∈ xs -> NoDup (key <$> xs) -> Forall accepted xs ->
  (forall b, b ∈ xs -> kind_of b <> ParseType /\ kind_of b <> Language /\
    (kind_of b = Resource \/ kind_of b = Scalar -> key b = key a)) ->
  elems cs = [] -> empty_texts cs = true -> property (Element ns l xs cs) = Ok v ->
  same (Element ns l xs cs) (Element ns l (parts v).1 (parts v).2).
Proof.
  intros Hu Ha Hn Hacc Hxs He Ht Hv. destruct (take_out a xs Ha Hn) as (ys & Hp & Hys).
  assert (Forall is_plain ys) as Hpl.
  { apply all_plain; [rewrite Hp in Hacc; by apply Forall_cons in Hacc as [_ ?]|]. intros b Hb. destruct (Hys b Hb) as [Hbx Hbk].
    destruct (Hxs b Hbx) as (H1 & H2 & H3). split_and!; [done|by intros Hk; apply Hbk, H3; left|by intros Hk; apply Hbk, H3; right|done]. }
  assert (same (Element ns l xs cs) (Element ns l (a :: ys) cs)) as H1 by by apply same_attributes.
  eapply same_trans; [exact H1|]. apply (same_agree _ _ H1) in Hv. by apply (compact_complete ns l a ys cs u).
Qed.
Lemma resource_last xs b : b ∈ xs -> kind_of b = Resource -> last (resources xs) <> None.
Proof. intros Hb Hk. apply last_some. eapply kind_in; [exact Hb|]. simpl. by rewrite Hk. Qed.
Lemma scalar_last xs b : b ∈ xs -> kind_of b = Scalar -> last (scalars xs) <> None.
Proof. intros Hb Hk. apply last_some. eapply kind_in; [exact Hb|]. simpl. by rewrite Hk. Qed.
Lemma plain_empty xs A b : map_of (plain xs) A -> A = [] -> b ∈ xs -> forall k, kind_of b <> Plain k.
Proof.
  intros [_ HA] -> Hb k Hk. apply Permutation_nil in HA. revert HA. unfold plain. eapply kind_in; [exact Hb|]. simpl. by rewrite Hk.
Qed.
Lemma parse_type_unique b : kind_of b = ParseType -> accepted b -> b = parse_type.
Proof.
  intros Hk Ha. assert (key b = (Some RDF, "parseType"%string)) as Hkey by (apply (kind_key b _ _ ParseType); naive_solver).
  unfold accepted in Ha. rewrite Hk in Ha. unfold key in Hkey. destruct b. simpl in *. by simplify_eq.
Qed.
Lemma only_parse_type xs : Forall (fun b => b = parse_type) xs -> NoDup (key <$> xs) -> structured xs = true -> xs = [parse_type].
Proof.
  intros H Hn Hs. destruct H as [|a xs -> H]; [done|]. destruct H as [|b xs -> H]; [done|].
  apply NoDup_cons in Hn as [Hn _]. by rewrite elem_of_cons in Hn; destruct Hn; left.
Qed.
(** A literal, or the compact form of a structure. *)
Lemma leaf_complete ns l xs cs v :
  Forall is_plain xs -> elems cs = [] -> property (Element ns l xs cs) = Ok v ->
  same (Element ns l xs cs) (Element ns l (parts v).1 (parts v).2).
Proof.
  intros Hx He Hv. destruct (plain_kinds xs Hx) as (Hacc & Hl & Hr & Hsc & Hst). destruct (decide (xs = [])) as [->|Hne].
  - assert (same (Element ns l [] cs) (Element ns l [] [Text (String.concat "" (texts cs))])) as H1 by by apply same_literal.
    eapply same_trans; [exact H1|]. apply (same_agree _ _ H1), literal_Ok in Hv as ->. apply same_refl.
  - assert (empty_texts cs = true /\ exists A, map_of (plain xs) A) as [Ht [A HA]].
    { apply property_Ok in Hv as (_ & A & L & HA & HL & Hb). rewrite Hr, Hsc, Hst in Hb. cbn [last body_read] in Hb.
      rewrite He in Hb. case_bool_decide as HA0; [|by destruct Hb as [Ht _]; split; [|exists A]]. exfalso.
      destruct xs as [|b xs]; [done|]. apply Forall_cons in Hx as [[k Hk] _]. by apply (plain_empty _ _ b HA HA0 ltac:(by left) k). }
    assert (same (Element ns l xs cs) (Element ns l xs [])) as H1.
    { apply same_literal; [done..|]. unfold empty_texts in Ht. rewrite concat_empty in Ht. by apply String.eqb_eq in Ht. }
    assert (same (Element ns l xs cs) (Element ns l [parse_type] (map attribute_node xs))) as H2.
    { eapply same_trans; [exact H1|]. by apply same_attribute_fields. }
    eapply same_trans; [exact H2|]. apply (same_agree _ _ H2) in Hv. apply structure_Ok in Hv as (Hb & kvs & p & Hk & Hp & Hw).
    rewrite elems_attribute_nodes in Hk. apply attribute_nodes_entries in Hk as ->; [|done].
    apply (structure_complete _ _ _ (plain xs) p); try done; [|apply plain_normal].
    rewrite elems_attribute_nodes. by apply attribute_nodes_reduced.
Qed.
Lemma core_complete ns l xs cs v :
  NoDup (key <$> xs) -> Forall complete cs -> (forall c, c ∈ cs -> Forall complete (children c)) ->
  (forall a, a ∈ xs -> kind_of a <> Language) ->
  property (Element ns l xs cs) = Ok v -> same (Element ns l xs cs) (Element ns l (parts v).1 (parts v).2).
Proof.
  intros Hn Hc Hcc Hlang Hv. pose proof Hv as Hr. apply property_Ok in Hr as (Hacc & A & L & HA & _ & Hb).
  assert (structured xs = false -> forall b, b ∈ xs -> kind_of b <> ParseType) as Hpt.
  { intros Hst b Hbx Hk. by rewrite (structured_in b xs) in Hst. }
  unfold body_read in Hb. destruct (last (resources xs)) as [u|] eqn:Er, (last (scalars xs)) as [u'|] eqn:Es; [done|..].
  - destruct Hb as (He & Hst & Ht & _). apply last_in, list_elem_of_omap in Er as (a & Ha & Hu).
    destruct (kind_of a) eqn:Hk; try done. apply (value_attribute_complete ns l a xs cs (Uri (a_value a))); try done; [by left|].
    intros b Hbx. split_and!; [by apply Hpt|by apply Hlang|]. intros [Hkb|Hkb]; [by rewrite (resource_key a), (resource_key b)|].
    by apply (scalar_last _ _ Hbx) in Hkb.
  - destruct Hb as (He & Hst & Ht & _). apply last_in, list_elem_of_omap in Es as (a & Ha & Hu).
    destruct (kind_of a) eqn:Hk; try done. apply (value_attribute_complete ns l a xs cs (Literal (a_value a))); try done; [by right|].
    intros b Hbx. split_and!; [by apply Hpt|by apply Hlang|]. intros [Hkb|Hkb]; [|by rewrite (scalar_key a), (scalar_key b)].
    by apply (resource_last _ _ Hbx) in Hkb.
  - assert (forall b, b ∈ xs -> kind_of b <> Resource /\ kind_of b <> Scalar /\ kind_of b <> Language) as Hk.
    { intros b Hbx. split_and!; [by intros H%(resource_last _ _ Hbx)|by intros H%(scalar_last _ _ Hbx)|by apply Hlang]. }
    destruct (structured xs) eqn:Hst.
    + destruct Hb as (HA0 & _). assert (xs = [parse_type]) as ->.
      { apply only_parse_type; [|done..]. rewrite Forall_forall in Hacc |- *. intros b Hbx. apply parse_type_unique; [|by apply Hacc].
        specialize (Hacc b Hbx). unfold accepted in Hacc. destruct (Hk b Hbx) as (H1 & H2 & H3).
        pose proof (plain_empty xs A b HA HA0 Hbx) as H4. destruct (kind_of b); try done. by destruct (H4 k). }
      apply structure_Ok in Hv as (Hbl & kvs & p & Hkv & Hp & Hw).
      apply (structure_complete _ _ _ kvs p); try done; [by apply entries_reduced|by eapply entries_normal].
    + assert (Forall is_plain xs) as Hpl.
      { apply all_plain; [done|]. intros b Hbx. destruct (Hk b Hbx) as (H1 & H2 & H3). split_and!; try done. by apply Hpt. }
      destruct (elems cs) as [|c [|c' es]] eqn:He; [by apply leaf_complete| |done].
      destruct Hb as (HA0 & Hbl & _). assert (xs = []) as ->.
      { destruct xs as [|b xs]; [done|]. apply Forall_cons in Hpl as [[k Hkb] _].
        by destruct (plain_empty _ _ b HA HA0 ltac:(by left) k). }
      assert (c ∈ elems cs) as Hce by (rewrite He; by left). assert (is_element c = true) as Hcel by (apply list_elem_of_filter in Hce; naive_solver).
      assert (same (Element ns l [] cs) (Element ns l [] [c])) as H1.
      { apply same_blanks; [|done|by destruct c|by left; rewrite He]. rewrite He, elems_cons, Hcel. done. }
      eapply same_trans; [exact H1|]. apply (same_agree _ _ H1) in Hv. apply content_complete; [done| |done].
      by apply Hcc, elems_in.
Qed.
Lemma element_complete ns l xs cs v :
  NoDup (key <$> xs) -> Forall complete cs -> (forall c, c ∈ cs -> Forall complete (children c)) ->
  property (Element ns l xs cs) = Ok v -> same (Element ns l xs cs) (Element ns l (parts v).1 (parts v).2).
Proof.
  intros Hn Hc Hcc Hv. destruct (decide (Exists (fun a => kind_of a = Language) xs)) as [(a & Ha & Hk)%Exists_exists|Hno].
  - destruct (take_out a xs Ha Hn) as (ys & Hp & Hys).
    assert (same (Element ns l xs cs) (Element ns l (a :: ys) cs)) as H1 by by apply same_attributes.
    assert (same (Element ns l xs cs) (Element ns l [parse_type]
      [element VALUE ys cs; print (XML, "lang"%string) (Literal (to_ascii_lowercase (a_value a)))])) as H2.
    { eapply same_trans; [exact H1|]. by apply same_language. }
    eapply same_trans; [exact H2|]. apply (same_agree _ _ H2) in Hv.
    apply structure_value_Ok in Hv as (_ & v0 & kvs & Hv0 & Hkv & _ & Hw).
    assert (kvs = [language_entry a]) as ->.
    { rewrite elems_cons in Hkv. cbn [is_element print element] in Hkv.
      apply Forall2_cons_inv_l in Hkv as ([k w] & kr & Hkw & ->%Forall2_nil_inv_l & ->).
      change (is_entry property (print (XML, "lang"%string) (Literal (to_ascii_lowercase (a_value a)))) (k, w)) in Hkw.
      apply element_entry in Hkw as [Hkey Hw']. cbn [fst snd] in Hkey. apply (property_text (XML, "lang"%string)) in Hw'.
      cbn [snd] in Hw'. by rewrite Hw', Hkey. }
    eapply same_trans; [|apply (same_qualifiers ns l v0 [language_entry a] v); [by eapply property_normal|done]].
    apply (same_field ns l VALUE ys (parts v0).1 cs (parts v0).2 []). apply core_complete; try done.
    + rewrite Hp in Hn. by apply NoDup_cons in Hn as [_ ?].
    + intros b Hb Hkb. destruct (Hys b Hb) as [_ Hne]. apply Hne.
      rewrite (kind_key a XML "lang" Language), (kind_key b XML "lang" Language); naive_solver.
  - apply core_complete; try done. intros a Ha Hk. apply Hno, Exists_exists. eauto.
Qed.
Lemma complete_nodes n : well_formed n -> complete n.
Proof.
  induction n as [n IH1 IH2] using node_deep. intros Hwf v Hv He.
  destruct n as [ns l xs cs| |]; [|done..]. exists ns, l, xs, cs. split; [done|]. simpl in IH1, IH2.
  inversion Hwf as [? ? ? ? Hn Hcs| |]; subst. rewrite Forall_forall in Hcs. apply element_complete; try done.
  - apply Forall_forall. intros c Hc. by apply IH1, Hcs.
  - intros c Hc. apply Forall_forall. intros d Hd. apply (IH2 c d Hc Hd). by eapply well_formed_child; [apply Hcs|].
Qed.
