(* ===== verification/RdfComparison.v ===== *)
(** The comparison of two packets decides equality of their models and gives all
    requested storage back; with the theorems on RDF values and their witnesses. *)
From stdpp Require Import base tactics option list numbers strings sorting sets.
From Stdlib Require Import ZArith Lia.
From S2P Require Import Prelude Requested RdfModel RdfOrder RdfReading RdfTheorems RdfPrint.

Open Scope Z_scope.
Local Open Scope prog_scope.

(** ** Models *)

Definition model_normal (m : Model) : Prop :=
  increasing (properties m) /\ Forall (fun kv => normal kv.2) (properties m).
Lemma fields_normal n p : fields n true = Ok p -> increasing p /\ Forall (fun kv => normal kv.2) p.
Proof.
  destruct n as [ns l xs cs| |]; [|unfold fields, fields_by; intros [= <-]; split; constructor..].
  intros H. apply (fields_by_Ok property true ns l) in H as (_ & _ & _ & kvs & kvs' & Hk & Hk' & Hp). split; [apply Hp|].
  apply (map_of_forall _ _ _ Hp), Forall_app. split; [exact (entries_normal _ _ Hk')|exact (compact_normal _ _ Hk)].
Qed.
Lemma descriptions_normal cs s s' :
  increasing s.2 -> Forall (fun kv => normal kv.2) s.2 -> fold_ok description cs s = Ok s' ->
  increasing s'.2 /\ Forall (fun kv => normal kv.2) s'.2.
Proof.
  revert s. induction cs as [|c cs IH]; intros s Hi Hn; [by intros [= <-]|]. rewrite fold_ok_cons.
  intros (s1 & H1 & H2). unfold description in H1. apply rensure_bind in H1 as [_ H1].
  apply rbind_Ok in H1 as (sub & _ & H1). apply rbind_Ok in H1 as (p & Hp & H1). apply rbind_Ok in H1 as (q & Hq & [= <-]).
  apply fields_normal in Hp as [Hpi Hpn]. apply insert_all_Ok in Hq as [Hqi Hq]; [|done].
  apply (IH (Some sub, q)); [done| |done]. simpl. rewrite Hq. by apply Forall_app.
Qed.
(** Every model has the values of its properties in normal form, in the order of a map. *)
Lemma model_of_normal d m : model_of d = Ok m -> model_normal m.
Proof.
  unfold model_of. intros (root & _ & H)%rbind_Ok. apply rensure_bind in H as [_ H]. apply rensure_bind in H as [_ H].
  apply rbind_Ok in H as (_ & _ & H). apply rbind_Ok in H as (s & Hs & [= <-]). rewrite for_elements_fold in Hs.
  by apply descriptions_normal in Hs; [|constructor..].
Qed.

Lemma compare_properties_Ok p q :
  compare_properties p q = Ok tt <-> forall kv, kv ∈ p -> get_property q kv.1 = Some kv.2.
Proof.
  induction p as [|[k v] p IH]; simpl; [set_solver|]. rewrite rensure_bind, IH. split.
  - intros [Hk H] kv [->|Hkv]%elem_of_cons; [|auto]. simpl. destruct (get_property q k) as [w|]; [|done].
    destruct (value_compare v w) eqn:Hc; try done. by apply value_agrees in Hc as ->.
  - intros H. split; [|set_solver]. pose proof (H (k, v) ltac:(by left)) as Hk. simpl in Hk. rewrite Hk.
    by rewrite (proj2 (value_agrees v v) eq_refl).
Qed.
Lemma compare_models_Ok m n : model_normal m -> model_normal n -> compare_models m n = Ok tt <-> m = n.
Proof.
  intros [Hm _] [Hn _]. unfold compare_models. rewrite !rensure_bind, String.eqb_eq, bool_decide_eq_true, compare_properties_Ok.
  destruct m as [s p], n as [s' q]; simpl in *. split.
  - intros (-> & Hl & Hin). f_equal. apply increasing_unique; [done..|]. apply submseteq_length_Permutation; [|lia].
    apply NoDup_submseteq; [by apply (NoDup_fmap_1 fst), increasing_keys|]. intros kv Hkv. apply Hin in Hkv.
    apply get_in in Hkv; [|done]. by destruct kv.
  - intros [= -> ->]. split_and!; try done. intros [k v] Hkv. by apply get_in.
Qed.

(** ** Storage *)

Section Storage.
Context (admission : list Z -> Z -> result Error unit).

(** A program that leaves as much live as it found. *)
Definition balanced {A} (m : proc Error Requested A) : Prop :=
  forall r r' x, 0 <= live r -> m r = (r', x) -> live r' = live r.
(** One that returns a guard for what it leaves live. *)
Definition charging {A} (m : proc Error Requested (A * Scope)) : Prop :=
  forall r r' x, 0 <= live r -> m r = (r', x) ->
    match x with Ok (_, s) => 0 <= bytes s /\ live r' = live r + bytes s | Err _ => live r' = live r end.

Lemma balanced_lift {A} (x : result Error A) : balanced (lift x).
Proof. by intros r r' y _ [= <- _]. Qed.
Lemma balanced_ensure b e : balanced (ensure b e).
Proof. intros r r' x _. destruct b; by intros [= <- _]. Qed.
Lemma balanced_bind {A B} (m : proc Error Requested A) (k : A -> proc Error Requested B) :
  balanced m -> (forall a, balanced (k a)) -> balanced (bind m k).
Proof.
  intros Hm Hk r r' x H0. unfold bind. destruct (m r) as [r1 [a|e]] eqn:E; apply Hm in E as Hl; try done.
  - intros H. rewrite <- Hl. apply (Hk a) in H; [done|lia].
  - by intros [= <- _].
Qed.
Lemma charging_bind {A B} (m : proc Error Requested A) (k : A -> proc Error Requested (B * Scope)) :
  balanced m -> (forall a, charging (k a)) -> charging (bind m k).
Proof.
  intros Hm Hk r r' x H0. unfold bind. destruct (m r) as [r1 [a|e]] eqn:E; apply Hm in E as Hl; try done.
  - intros H. rewrite <- Hl. apply (Hk a) in H; [done|lia].
  - by intros [= <- <-].
Qed.
Lemma scope_live n r r' x : 0 <= n -> scope admission n r = (r', x) ->
  match x with Ok s => bytes s = n /\ live r' = live r + n | Err _ => live r' = live r end.
Proof.
  intros Hn H. apply scope_inv in H. destruct x; [destruct H as [-> (_ & H & _)]; done|by destruct H as [(H & _) _]].
Qed.
Lemma drop_live {A} n (y : result Error A) r r' x : 0 <= n -> n <= live r ->
  bind (drop_scope (mkScope n)) (fun _ => lift y) r = (r', x) -> live r' = live r - n /\ x = y.
Proof. intros Hn Hl. unfold bind. rewrite drop_ok by done. by intros [= <- <-]. Qed.
Lemma charging_guarded {A} n (m : proc Error Requested (A * Scope)) : 0 <= n -> charging m -> charging (guarded admission n m).
Proof.
  intros Hn Hm r r' x H0. unfold guarded, bind, try. destruct (scope admission n r) as [r1 [[b]|e]] eqn:Es; apply scope_live in Es; try done.
  - destruct Es as [Hb Hs]. simpl in Hb. subst b. destruct (m r1) as [r2 y] eqn:E. apply Hm in E as Hl; [|lia]. intros H.
    apply (drop_live n y) in H as [H ->]; [|done|destruct y as [[? ?]|]; lia]. destruct y as [[a s]|]; lia.
  - by intros [= <- <-].
Qed.
Lemma charging_owning {A} n (m : proc Error Requested A) : 0 <= n -> balanced m -> charging (owning admission n m).
Proof.
  intros Hn Hm r r' x H0. unfold owning, bind, try. destruct (scope admission n r) as [r1 [[b]|e]] eqn:Es; apply scope_live in Es; try done.
  - destruct Es as [Hb Hs]. simpl in Hb. subst b. destruct (m r1) as [r2 [a|e]] eqn:E; apply Hm in E as Hl; try lia.
    + intros [= <- <-]. simpl. lia.
    + intros H. unfold drop_scope in H. fold (drop_scope (mkScope n)) in H. rewrite drop_ok in H by (simpl; lia).
      injection H as <- <-. simpl. lia.
  - by intros [= <- <-].
Qed.
Lemma balanced_consuming {A B} (m : proc Error Requested (A * Scope)) (k : A * Scope -> proc Error Requested B) :
  charging m -> (forall a, balanced (k a)) -> balanced (bind m (fun a => consuming a.2 (k a))).
Proof.
  intros Hm Hk r r' x H0. unfold bind at 1. destruct (m r) as [r1 [[a [n]]|e]] eqn:E; apply Hm in E; try done.
  - destruct E as [Hn Hl]. simpl in Hn. unfold consuming, try. unfold bind at 1. destruct (k (a, mkScope n) r1) as [r2 y] eqn:E2.
    simpl in Hl. apply Hk in E2; [|lia]. intros H.
    apply (drop_live n y) in H as [H _]; lia.
  - by intros [= <- _].
Qed.
End Storage.

(** The storage expressions are not negative, and fail only by overflow. *)
Definition overflows (e : Error) : Prop :=
  e = says "migration allocation sum overflow" \/ e = says "migration allocation product overflow" \/
  e = says "requested core storage overflow".
Definition measures (r : result Error Z) : Prop := match r with Ok n => 0 <= n | Err e => overflows e end.
Lemma measures_add a b (k : Z -> result Error Z) :
  0 <= a -> 0 <= b -> (forall c, 0 <= c -> measures (k c)) -> measures (rbind (add a b) k).
Proof.
  intros Ha Hb Hk. destruct (add a b) as [c|e] eqn:E; simpl.
  - apply add_Ok in E as [-> _]. apply Hk. lia.
  - unfold add, checked in E. destruct (checked_add a b); simplify_eq. by left.
Qed.
Lemma measures_mul a b (k : Z -> result Error Z) :
  0 <= a -> 0 <= b -> (forall c, 0 <= c -> measures (k c)) -> measures (rbind (mul a b) k).
Proof.
  intros Ha Hb Hk. destruct (mul a b) as [c|e] eqn:E; simpl.
  - apply mul_Ok in E as [-> _]. apply Hk. lia.
  - unfold mul, checked in E. destruct (checked_mul a b); simplify_eq. right. by left.
Qed.
Lemma measures_id r : measures (rbind r (fun n => Ok n)) <-> measures r.
Proof. by destruct r. Qed.
Lemma measures_bind r (k : Z -> result Error Z) : measures r -> (forall c, 0 <= c -> measures (k c)) -> measures (rbind r k).
Proof. intros Hr Hk. destruct r; simpl in *; auto. Qed.
Ltac measure :=
  repeat match goal with
    | |- measures (Ok _) => simpl; lia
    | |- measures (rbind (add _ _) _) => apply measures_add; [try lia..|intros ? ?]
    | |- measures (rbind (mul _ _) _) => apply measures_mul; [try lia..|intros ? ?]
    | |- measures (rbind _ _) => apply measures_bind; [|intros ? ?]
    | |- measures (add _ _) => apply measures_id
    | |- measures (mul _ _) => apply measures_id
    end.
Lemma measures_overlapping e m i : 0 <= e -> 0 <= i -> measures (overlapping_vector e m i).
Proof. intros He Hi. unfold overlapping_vector. measure. Qed.
Lemma count_byte_nonneg c s : 0 <= count_byte c s.
Proof. induction s as [|a s IH]; simpl; [lia|]. destruct (Ascii.eqb a c); lia. Qed.
Lemma count_matches_nonneg fuel p s : 0 <= count_matches fuel p s.
Proof.
  revert s. induction fuel as [|fuel IH]; intros [|a s]; cbn [count_matches]; try lia.
  destruct (String.prefix p (String a s)); [|apply IH]. match goal with |- context [count_matches fuel p ?t] => specialize (IH t) end. lia.
Qed.
Lemma measures_xml text : measures (xml_document text).
Proof.
  unfold xml_document, word. pose proof (count_byte_nonneg (Ascii.ascii_of_N 60) text). pose proof (count_byte_nonneg (Ascii.ascii_of_N 61) text).
  pose proof (count_matches_nonneg (String.length text) "xmlns" text). assert (0 <= zlength text) by (unfold zlength; lia).
  measure; try (apply measures_overlapping; lia).
Qed.
Definition nonneg (c : Counts) : Prop :=
  0 <= strings c /\ 0 <= entries c /\ 0 <= elements c /\ 0 <= arrays c /\ 0 <= boxes c /\ 0 <= maximum_depth c.
Definition counts (r : result Error Counts) : Prop := match r with Ok c => nonneg c | Err e => overflows e end.
Lemma counts_bind {A} (r : result Error A) (P : A -> Prop) (k : A -> result Error Counts) :
  (match r with Ok a => P a | Err e => overflows e end) -> (forall a, P a -> counts (k a)) -> counts (rbind r k).
Proof. intros Hr Hk. destruct r; simpl in *; auto. Qed.
Lemma measures_one a b : 0 <= a -> 0 <= b -> measures (add a b).
Proof. intros. measure. Qed.
Lemma measures_sum ns n : 0 <= n -> measures (sum_lengths ns n).
Proof.
  unfold sum_lengths. revert n. induction ns as [|s ns IH]; intros n Hn; simpl; [done|].
  assert (0 <= zlength s) by (unfold zlength; lia). measure. by apply IH.
Qed.
Lemma counts_attribute a c : nonneg c -> counts (count_attribute a c).
Proof.
  intros (H1 & H2 & H3 & H4 & H5 & H6). unfold count_attribute.
  eapply (counts_bind _ (Z.le 0)); [by apply measures_one|intros x Hx].
  eapply (counts_bind _ (Z.le 0)); [by apply measures_sum|intros y Hy]. simpl. unfold nonneg. simpl. lia.
Qed.
Lemma counts_fold {A} (f : A -> Counts -> result Error Counts) l c :
  (forall x c, nonneg c -> counts (f x c)) -> nonneg c -> counts (fold_ok f l c).
Proof.
  intros Hf. revert c. induction l as [|x l IH]; intros c Hc; [done|]. simpl.
  eapply counts_bind; [exact (Hf x c Hc)|]. intros c' Hc'. by apply IH.
Qed.
Lemma counts_node p c : nonneg c -> counts (count_node p c).
Proof.
  intros (H1 & H2 & H3 & H4 & H5 & H6). destruct p as [n above]. unfold count_node.
  eapply (counts_bind _ (Z.le 0)); [by apply measures_one|intros x1 ?].
  eapply (counts_bind _ (Z.le 0)); [by apply measures_sum|intros x2 ?].
  eapply (counts_bind _ (Z.le 0)); [by destruct (is_array n); [apply measures_one|]|intros x3 ?].
  eapply (counts_bind _ nonneg).
  { apply counts_fold; [apply counts_attribute|]. unfold nonneg, depth. simpl. lia. }
  intros c' (? & ? & ? & ? & ? & ?). eapply (counts_bind _ (Z.le 0)); [by apply measures_sum|intros x4 ?].
  eapply (counts_bind _ (Z.le 0)); [by case_bool_decide; [|apply measures_one]|intros x5 ?].
  eapply (counts_bind _ (Z.le 0)); [by case_bool_decide; [|apply measures_one]|intros x6 ?]. simpl. unfold nonneg. simpl. lia.
Qed.

Section Comparison.
Context (parse : string -> result Error (list Node)) (name_layout value_layout : Layout).
Context (admission : list Z -> Z -> result Error unit).
Context (Hname : 0 <= l_size name_layout) (Hvalue : 0 <= l_size value_layout).

Lemma measures_node : measures (tree_node_layout name_layout value_layout).
Proof. unfold tree_node_layout, word. measure. Qed.
Lemma measures_storage d : measures (rdf_model_storage name_layout value_layout d).
Proof.
  unfold rdf_model_storage.
  assert (counts (fold_ok count_node (element_descendants d) (mkCounts 0 0 0 0 0 0))) as Hc.
  { apply counts_fold; [apply counts_node|]. unfold nonneg. simpl. lia. }
  destruct (fold_ok count_node _ _) as [c|e]; [|done]. destruct Hc as (? & ? & ? & ? & ? & ?). cbn [rbind].
  measure. apply measures_node.
Qed.

(** The text is a packet with this model. *)
Definition denotes (text : string) (m : Model) : Prop :=
  zlength text <= MAX_BYTES /\ exists d, parse text = Ok d /\ check_nodes d = Ok tt /\ model_of d = Ok m.
Lemma model_admitted_charging text : charging (model_admitted parse name_layout value_layout admission text).
Proof.
  unfold model_admitted. apply charging_bind; [apply balanced_ensure|intros _].
  intros r r' x H0. unfold bind at 1, lift. pose proof (measures_xml text) as Hx. destruct (xml_document text) as [n|e]; [|by intros [= <- <-]].
  revert r r' x H0. apply charging_guarded; [done|]. apply charging_bind; [apply balanced_lift|intros d].
  apply charging_bind; [apply balanced_lift|intros _].
  intros r r' x H0. unfold bind, lift. pose proof (measures_storage d) as Hs.
  destruct (rdf_model_storage name_layout value_layout d) as [k|e]; [|by intros [= <- <-]].
  revert r r' x H0. apply charging_owning; [done|apply balanced_lift].
Qed.
Lemma under_charging {A} m (p : proc Error Requested (A * Scope)) : charging p -> charging (under m p).
Proof.
  intros Hp r r' x H0. unfold under. destruct (p r) as [r1 y] eqn:E. intros [= <- <-]. apply Hp in E; [|done].
  by destruct y as [[a s]|[ms|msg]].
Qed.
Lemma comparison_balanced a b : balanced (assert_equivalent_admitted parse name_layout value_layout admission a b).
Proof.
  unfold assert_equivalent_admitted. apply balanced_consuming; [apply under_charging, model_admitted_charging|intros s].
  apply balanced_consuming; [apply under_charging, model_admitted_charging|intros t]. apply balanced_lift.
Qed.

Definition refused (e : Error) : Prop := overflows e \/ exists before n, admission before n = Err e.
Lemma scope_result n r r' x : scope admission n r = (r', x) -> x = Ok (mkScope n) \/ exists e, x = Err e /\ refused e.
Proof.
  intros H%scope_inv. destruct x as [s|e]; [left; by destruct H as [-> _]|right]. exists e. split; [done|].
  destruct H as [_ [->|H]]; [left; by right; right|right; eauto].
Qed.
Lemma guarded_result {A} n (m : proc Error Requested (A * Scope)) r r' x : 0 <= n -> 0 <= live r -> charging m ->
  guarded admission n m r = (r', x) -> (exists e, x = Err e /\ refused e) \/ exists r1 r2, 0 <= live r1 /\ m r1 = (r2, x).
Proof.
  intros Hn H0 Hm. unfold guarded, bind, try. destruct (scope admission n r) as [r1 y] eqn:Es.
  pose proof (scope_live admission n r r1 y Hn Es) as Hl. destruct (scope_result n r r1 y Es) as [->|(e & -> & He)].
  - destruct Hl as [_ Hl]. destruct (m r1) as [r2 y] eqn:E. intros H. right. exists r1, r2. split; [lia|].
    pose proof (Hm r1 r2 y ltac:(lia) E) as Hl2. apply (drop_live n y) in H as [_ ->]; [done|done|]. destruct y as [[? ?]|]; lia.
  - intros [= <- <-]. left. eauto.
Qed.
Lemma owning_result {A} n (y : result Error A) r r' x : 0 <= n -> 0 <= live r ->
  owning admission n (lift y) r = (r', x) ->
  (exists e, x = Err e /\ refused e) \/ x = match y with Ok a => Ok (a, mkScope n) | Err e => Err e end.
Proof.
  intros Hn H0. unfold owning, bind, try, lift. destruct (scope admission n r) as [r1 z] eqn:Es.
  pose proof (scope_live admission n r r1 z Hn Es) as Hl. destruct (scope_result n r r1 z Es) as [->|(e & -> & He)].
  - destruct Hl as [_ Hl]. intros H. right. destruct y as [a|e]; [by injection H as <- <-|].
    rewrite drop_ok in H by (simpl; lia). by injection H as <- <-.
  - intros [= <- <-]. left. eauto.
Qed.
Lemma model_admitted_result text r r' x : 0 <= live r ->
  model_admitted parse name_layout value_layout admission text r = (r', x) ->
  match x with Ok (m, _) => denotes text m | Err e => forall m, denotes text m -> refused e end.
Proof.
  intros H0. unfold model_admitted. rewrite bind_ensure. destruct (Z.leb_spec (zlength text) MAX_BYTES) as [Hlen|Hlen].
  2:{ intros [= <- <-] m [? _]. lia. }
  pose proof (measures_xml text) as Hx. rewrite bind_lift. destruct (xml_document text) as [n|e]; [|intros [= <- <-] m _; by left].
  intros H. apply guarded_result in H as [(e & -> & He)|(r1 & r2 & H1 & H)]; [done| |done|done|].
  - rewrite bind_lift in H. destruct (parse text) as [d|e] eqn:Hp; [|injection H as <- <-; intros m (_ & d & ? & _); congruence].
    rewrite bind_lift in H. destruct (check_nodes d) as [[]|e] eqn:Hc; [|injection H as <- <-; intros m (_ & d' & ? & ? & _); congruence].
    pose proof (measures_storage d) as Hs. rewrite bind_lift in H.
    destruct (rdf_model_storage name_layout value_layout d) as [k|e]; [|injection H as <- <-; intros m _; by left].
    apply owning_result in H as [(e & -> & He)| -> ]; [done| |done|lia].
    destruct (model_of d) as [m|e] eqn:Hm; [split; [lia|eauto]|]. intros m (_ & d' & ? & _ & ?). congruence.
  - apply charging_bind; [apply balanced_lift|intros d]. apply charging_bind; [apply balanced_lift|intros _].
    intros s s' y Hs0. unfold bind, lift. pose proof (measures_storage d) as Hs.
    destruct (rdf_model_storage name_layout value_layout d) as [k|e]; [|by intros [= <- <-]].
    revert s s' y Hs0. apply charging_owning; [done|apply balanced_lift].
Qed.

Lemma consuming_result {A B} (m : proc Error Requested (A * Scope)) (k : A * Scope -> proc Error Requested B) r r' x :
  0 <= live r -> charging m -> (forall a, balanced (k a)) -> bind m (fun a => consuming a.2 (k a)) r = (r', x) ->
  exists r1 y, m r = (r1, y) /\ 0 <= live r1 /\
    match y with Ok a => exists r2, k a r1 = (r2, x) | Err e => x = Err e end.
Proof.
  intros H0 Hm Hk. unfold bind at 1. destruct (m r) as [r1 y] eqn:E. pose proof (Hm r r1 y H0 E) as C.
  destruct y as [[a [n]]|e]; [|intros [= <- <-]; exists r1, (Err e); split_and!; [done|lia|done]].
  destruct C as [Hn C]. simpl in Hn, C. unfold consuming, try, bind at 1. destruct (k (a, mkScope n) r1) as [r2 z] eqn:Ek.
  intros H. exists r1, (Ok (a, mkScope n)). split_and!; [done|lia|]. exists r2. rewrite Ek. f_equal.
  assert (live r2 = live r1) as Hl by (eapply Hk; [|exact Ek]; lia). apply (drop_live n z) in H as [_ ->]; [done|done|lia].
Qed.
(** What is refused, below the context of the text it was refused for. *)
Definition refused_in (e : Error) : Prop :=
  exists e', refused e' /\ (e = e' \/ exists why ms, e' = Chain ms /\ e = Chain (why :: ms)).
Lemma under_result text why r r' x : 0 <= live r ->
  under why (model_admitted parse name_layout value_layout admission text) r = (r', x) ->
  match x with Ok (m, _) => denotes text m | Err e => forall m, denotes text m -> refused_in e end.
Proof.
  intros H0. unfold under. destruct (model_admitted _ _ _ _ text r) as [r1 y] eqn:E. apply model_admitted_result in E; [|done].
  intros [= <- <-]. destruct y as [[m s]|[ms|msg]]; simpl; [done|..]; intros m Hm; exists (Chain ms) || exists (Panic msg);
    (split; [by apply (E m)|]); [right; eauto|by left].
Qed.
Lemma denotes_unique text m n : denotes text m -> denotes text n -> m = n.
Proof. intros (_ & d & H1 & _ & H2) (_ & d' & H3 & _ & H4). congruence. Qed.
Lemma denotes_normal text m : denotes text m -> model_normal m.
Proof. intros (_ & d & _ & _ & H). by eapply model_of_normal. Qed.

(** C35. The comparison decides equality of the models, up to storage: it accepts two
    texts exactly when both are packets and have one model, unless their storage is
    refused or overflows; and as much storage is live afterwards as before. *)
Theorem comparison_decides a b r r' x :
  0 <= live r -> assert_equivalent_admitted parse name_layout value_layout admission a b r = (r', x) ->
  live r' = live r /\
  match x with
  | Ok _ => exists m, denotes a m /\ denotes b m
  | Err e => forall m, denotes a m -> denotes b m -> refused_in e
  end.
Proof.
  intros H0 H. split; [by eapply comparison_balanced|]. unfold assert_equivalent_admitted in H.
  apply consuming_result in H as (r1 & y & Ha & H1 & H); [|done|apply under_charging, model_admitted_charging|].
  2:{ intros s. apply balanced_consuming; [apply under_charging, model_admitted_charging|intros t; apply balanced_lift]. }
  apply under_result in Ha; [|done]. destruct y as [[m s]|e]; [|subst x; intros m Hm _; by apply (Ha m)].
  destruct H as [r2 H]. apply consuming_result in H as (r3 & y & Hb & H3 & H); [|done|apply under_charging, model_admitted_charging|intros t; apply balanced_lift].
  apply under_result in Hb; [|done]. destruct y as [[n t]|e]; [|subst x; intros m' _ Hm; by apply (Hb m')].
  destruct H as [r4 [= <- <-]]. cbn [fst snd]. pose proof (denotes_normal _ _ Ha) as Na. pose proof (denotes_normal _ _ Hb) as Nb.
  destruct (compare_models m n) as [[]|e] eqn:Hc.
  - apply compare_models_Ok in Hc as ->; [|done..]. by exists n.
  - intros m' Hm Hn. exfalso. rewrite <- (denotes_unique _ _ _ Hm Ha), <- (denotes_unique _ _ _ Hn Hb) in Hc.
    by rewrite (proj2 (compare_models_Ok m' m' (denotes_normal _ _ Hm) (denotes_normal _ _ Hm)) eq_refl) in Hc.
Qed.
End Comparison.

(** ** Values, their encodings and their canonical elements *)

(** C36. The values of every model are normal forms: maps in order, items whose order
    has no meaning sorted, qualifiers in one layer, not empty, and without a value. *)
Theorem rdf_values_normal d m :
  model_of d = Ok m -> increasing (properties m) /\ Forall (fun kv => normal kv.2) (properties m).
Proof. apply model_of_normal. Qed.

(** C6. Two well-formed property elements have the same value exactly when the rules of
    equivalent encodings relate them. *)
Theorem same_value_same_rules ns l xs cs ys ds v :
  well_formed (Element ns l xs cs) -> well_formed (Element ns l ys ds) -> property (Element ns l xs cs) = Ok v ->
  property (Element ns l ys ds) = Ok v <-> same (Element ns l xs cs) (Element ns l ys ds).
Proof.
  intros H1 H2 Hv. split; [|intros H; by apply (same_agree _ _ H)]. intros Hw.
  destruct (complete_nodes _ H1 v Hv) as (ns1 & l1 & xs1 & cs1 & [= <- <- <- <-] & S1); [done|].
  destruct (complete_nodes _ H2 v Hw) as (ns2 & l2 & xs2 & cs2 & [= <- <- <- <-] & S2); [done|].
  eapply same_trans; [exact S1|]. by apply same_sym.
Qed.

(** Whatever value is read from an element is read again from its canonical one. *)
Theorem rdf_print_roundtrip n k v : property n = Ok v -> property (print k v) = Ok v.
Proof. intros Hv. by apply print_property, (property_normal n). Qed.

(** ** Witnesses *)

Module Packets.
Definition U : string := "urn:unknown:".
Definition leaf (local text : string) : Node := Element (Some U) local [] [Text text].
(** One packet in compact form, and one with a bag in another order, blanks and a
    structure written out. *)
Definition compact_record : Node :=
  Element (Some U) "Record" [mkAttribute (Some U) "One" "snow"; mkAttribute (Some U) "Two" "ice"] [].
Definition expanded_record : Node :=
  Element (Some U) "Record" [parse_type] [Text " "; leaf "Two" "ice"; Other; leaf "One" "snow"].
Definition bag (items : list string) : Node :=
  Element (Some U) "Tags" [] [Element (Some RDF) "Bag" [] (map (fun t => Element (Some RDF) "li" [] [Text t]) items)].
Definition packet (fields : list Node) : list Node :=
  [Element (Some "adobe:ns:meta/") "xmpmeta" [] [Element (Some RDF) "RDF" []
    [Element (Some RDF) "Description" [mkAttribute (Some RDF) "about" ""] fields]]].
Definition parse (text : string) : result Error (list Node) :=
  if String.eqb text "compact" then Ok (packet [compact_record; bag ["a"; "b"; "a"]])
  else if String.eqb text "expanded" then Ok (packet [bag ["b"; "a"; "a"]; expanded_record])
  else if String.eqb text "other" then Ok (packet [bag ["b"; "a"]; expanded_record])
  else Err (says "not XML").
Definition admission (before : list Z) (n : Z) : result Error unit := if n <=? 1000000 then Ok tt else Err (says "denied").
Definition layout : Layout := mkLayout 48 8.
Definition compare (a b : string) : Requested * result Error unit := assert_equivalent_admitted parse layout layout admission a b new.
Example compare_equal : (compare "compact" "expanded").2 = Ok tt.
Proof. by vm_compute. Qed.
Example compare_different : is_ok (compare "compact" "other").2 = false.
Proof. by vm_compute. Qed.
End Packets.

Lemma comparison_decides_witness :
  exists m, denotes Packets.parse "compact" m /\ denotes Packets.parse "expanded" m.
Proof.
  destruct (comparison_decides Packets.parse Packets.layout Packets.layout Packets.admission ltac:(simpl; lia) ltac:(simpl; lia)
    "compact" "expanded" new (Packets.compare "compact" "expanded").1 (Ok tt)) as [_ H]; [simpl; lia|by vm_compute|exact H].
Defined.
Lemma rdf_values_normal_witness :
  exists m, model_of (Packets.packet [Packets.bag ["a"; "b"; "a"]]) = Ok m /\ increasing (properties m).
Proof.
  eexists. split; [by vm_compute|].
  exact (proj1 (rdf_values_normal (Packets.packet [Packets.bag ["a"; "b"; "a"]]) _ ltac:(by vm_compute))).
Defined.
Lemma same_value_same_rules_witness : same Packets.compact_record Packets.expanded_record.
Proof.
  destruct (property Packets.compact_record) as [v|] eqn:Hv; [|by vm_compute in Hv].
  apply (same_value_same_rules (Some Packets.U) "Record" (attributes Packets.compact_record) (children Packets.compact_record)
    (attributes Packets.expanded_record) (children Packets.expanded_record) v).
  - constructor; [by apply (bool_decide_unpack _)|constructor].
  - constructor; [by apply (bool_decide_unpack _)|]. repeat constructor; by apply (bool_decide_unpack _).
  - exact Hv.
  - rewrite <- Hv. by vm_compute.
Defined.
Lemma rdf_print_roundtrip_witness : property (print (Packets.U, "R"%string) (Struct [])) = Ok (Struct []).
Proof. apply (rdf_print_roundtrip (Element (Some Packets.U) "R" [parse_type] [])). by vm_compute. Defined.

(** ** What the scan of a document counts *)

Fixpoint string_bytes (v : Value) : Z :=
  let entry (kv : Name * Value) := zlength kv.1.1 + zlength kv.1.2 + string_bytes kv.2 in
  match v with
  | Literal s | Uri s => zlength s
  | Struct p => foldr (fun kv n => entry kv + n) 0 p
  | Array form items => zlength form + foldr (fun v n => string_bytes v + n) 0 items
  | Qualified w q => string_bytes w + foldr (fun kv n => entry kv + n) 0 q
  end.
Definition model_bytes (m : Model) : Z :=
  zlength (subject m) + foldr (fun kv n => zlength kv.1.1 + zlength kv.1.2 + string_bytes kv.2 + n) 0 (properties m).
(** The names of the type qualifiers of typed nodes are copied but not counted: there is a
    packet whose model has more bytes of text than the scan has counted. *)
Lemma type_names_uncounted :
  exists d m c, model_of d = Ok m /\ fold_ok count_node (element_descendants d) (mkCounts 0 0 0 0 0 0) = Ok c /\
    strings c < model_bytes m.
Proof.
  exists (Packets.packet (map (fun l => Element (Some Packets.U) l [] [Element (Some Packets.U) "K" [] []])
    ["a"; "b"; "c"; "d"; "e"; "f"])).
  eexists _, _. split; [vm_compute; reflexivity|]. split; [vm_compute; reflexivity|]. by vm_compute.
Qed.
