(* ===== verification/Wal.v ===== *)
(** The retained write-ahead log of a Lightroom catalog: src/src/lightroom/wal.rs.

    A log is read before SQLite may recover a private copy of the catalog: its
    frames are chained by checksums up to the first one of an older generation.
    The file is a fixed byte string. *)
From stdpp Require Import base tactics option list numbers strings.
From Stdlib Require Import ZArith Lia.
From S2P Require Import Prelude Bytes.

Open Scope Z_scope.
Local Open Scope prog_scope.

(** @source src/src/lightroom/wal.rs:7-15 WalReport *)
Record WalReport : Type := mkWalReport {
  bytes : Z; page_size : Z; valid_frames : Z; last_commit_frame : Z; uncommitted_frames : Z;
  trailing_bytes : Z; stale_frames : Z }.
(** [bytes[from..to]] as a big-endian number. *)
(** @source src/src/lightroom/wal.rs:16-18 be *)
Definition be (b : list Z) (from to : Z) : Z := be_uint (slice from to b).
(** @source src/src/lightroom/wal.rs:21-27 checksum *)
Definition word (little : bool) (b : list Z) : Z := if little then le_uint b else be_uint b.
(** [as_chunks::<8>().0]: what is left behind the last whole chunk is dropped. *)
Fixpoint chunks8 (l : list Z) : list (list Z * list Z) :=
  match l with
  | a :: b :: c :: d :: e :: f :: g :: h :: l' => ([a; b; c; d], [e; f; g; h]) :: chunks8 l'
  | _ => []
  end.
Definition wrapping_add (a b : Z) : Z := (a + b) mod 2 ^ 32.
Definition checksum_pair (little : bool) (sum : Z * Z) (pair : list Z * list Z) : Z * Z :=
  let s0 := wrapping_add (wrapping_add sum.1 (word little pair.1)) sum.2 in
  let s1 := wrapping_add (wrapping_add sum.2 (word little pair.2)) s0 in
  (s0, s1).
(** @source src/src/lightroom/wal.rs:19-32 checksum *)
Definition checksum (b : list Z) (little : bool) (sum : Z * Z) : Z * Z :=
  fold_left (checksum_pair little) (chunks8 b) sum.

Definition magic_little : Z := 0x377f0682.
Definition magic_big : Z := 0x377f0683.
(** [page.is_power_of_two()]. *)
Definition is_power_of_two (n : Z) : bool := (0 <? n) && (Z.land n (n - 1) =? 0).
(** The header, and the checksum the first frame goes on from. *)
(** @source src/src/lightroom/wal.rs:49-68 validate *)
Definition check_header (header : list Z) : result string (Z * bool * (Z * Z)) :=
  let magic := be header 0 4 in
  let? _ := rensure ((magic =? magic_little) || (magic =? magic_big)) "unknown WAL magic"%string in
  let? _ := rensure (be header 4 8 =? 3007000) "unsupported WAL format"%string in
  let page := be header 8 12 in
  let? _ := rensure ((512 <=? page) && (page <=? 65536) && is_power_of_two page) "invalid WAL page size"%string in
  let little := magic =? magic_little in
  let sum := checksum (slice 0 24 header) little (0, 0) in
  let? _ := rensure (bool_decide (sum = (be header 24 28, be header 28 32))) "WAL header checksum mismatch"%string in
  Ok (page, little, sum).

(** The variables of the loop. *)
Record Scan : Type := mkScan { sum : Z * Z; stale : bool; n_valid : Z; n_last : Z; n_stale : Z }.
(** @source src/src/lightroom/wal.rs:74-94 validate *)
Definition scan_frame (header : list Z) (little : bool) (frame : list Z) (s : Scan) : result string Scan :=
  let stale' := stale s || negb (bool_decide (slice 8 16 frame = slice 16 24 header)) in
  if stale' then Ok (mkScan (sum s) true (n_valid s) (n_last s) (n_stale s + 1)) else
  let? _ := rensure (0 <? be frame 0 4) "invalid WAL page number"%string in
  let sum' := checksum (slice 24 (zlen frame) frame) little (checksum (slice 0 8 frame) little (sum s)) in
  let? _ := rensure (bool_decide (sum' = (be frame 16 20, be frame 20 24))) "WAL frame checksum mismatch"%string in
  let valid := n_valid s + 1 in
  Ok (mkScan sum' false valid (if 0 <? be frame 4 8 then valid else n_last s) (n_stale s)).
Fixpoint scan_frames (header : list Z) (little : bool) (frame_bytes : nat) (frames : nat) (rest : list Z) (s : Scan)
    : result string Scan :=
  match frames with
  | O => Ok s
  | S n =>
      let? s' := scan_frame header little (take frame_bytes rest) s in
      scan_frames header little frame_bytes n (drop frame_bytes rest) s'
  end.
(** @source src/src/lightroom/wal.rs:33-99 validate *)
Definition validate (file : list Z) : result string WalReport :=
  let length := zlen file in
  if length =? 0 then Ok (mkWalReport length 0 0 0 0 0 0) else
  let? _ := rensure (32 <=? length) "truncated WAL header"%string in
  let header := slice 0 32 file in
  let? checked := check_header header in
  let '(page, little, start) := checked in
  let frame_bytes := page + 24 in
  let frames := (length - 32) / frame_bytes in
  let trailing := (length - 32) mod frame_bytes in
  let? s := scan_frames header little (Z.to_nat frame_bytes) (Z.to_nat frames) (drop 32 file) (mkScan start false 0 0 0) in
  Ok (mkWalReport length page (n_valid s) (n_last s) (n_valid s - n_last s) trailing (n_stale s)).

(** ** Specification *)

(** How a frame continues the checksum, and a list of frames. *)
Definition link (little : bool) (sum : Z * Z) (frame : list Z) : Z * Z :=
  checksum (slice 24 (zlen frame) frame) little (checksum (slice 0 8 frame) little sum).
Definition chain (little : bool) (start : Z * Z) (fs : list (list Z)) : Z * Z := fold_left (link little) fs start.
(** The number of frames up to the last that commits. *)
Fixpoint committed {A} (commits : A -> bool) (fs : list A) : Z :=
  match fs with
  | [] => 0
  | f :: fs' => let c := committed commits fs' in if 0 <? c then c + 1 else if commits f then 1 else 0
  end.
Definition commits (frame : list Z) : bool := 0 <? be frame 4 8.
(** A frame of this generation that continues the chain. *)
Definition linked (header : list Z) (little : bool) (sum : Z * Z) (f : list Z) : Prop :=
  slice 8 16 f = slice 16 24 header /\ 0 < be f 0 4 /\ link little sum f = (be f 16 20, be f 20 24).

(** ** Lemmas *)

Lemma committed_bounds {A} (c : A -> bool) fs : 0 <= committed c fs <= zlen fs.
Proof.
  unfold zlen. induction fs as [|f fs IH]; [done|]. cbn [committed length]. destruct (0 <? _); [lia|]. destruct (c f); lia.
Qed.
Lemma committed_last {A} (c : A -> bool) fs :
  (forall i f, fs !! i = Some f -> c f = true -> Z.of_nat i < committed c fs) /\
  (0 < committed c fs -> exists f, fs !! Z.to_nat (committed c fs - 1) = Some f /\ c f = true).
Proof.
  induction fs as [|f fs [IH1 IH2]]; [done|]. cbn [committed]. pose proof (committed_bounds c fs) as Hb.
  destruct (Z.ltb_spec 0 (committed c fs)) as [Hc|Hc]; (split; [intros [|i] g; cbn|]).
  - intros _ _. lia.
  - intros H1 H2. specialize (IH1 i g H1 H2). lia.
  - intros _. destruct (IH2 Hc) as (g & Hg & Hcg). exists g. split; [|done].
    replace (Z.to_nat (committed c fs + 1 - 1)) with (S (Z.to_nat (committed c fs - 1))) by lia. done.
  - intros [= ->] ->. lia.
  - intros H1 H2. specialize (IH1 i g H1 H2). lia.
  - intros H. destruct (c f) eqn:Hf; [|lia]. exists f. done.
Qed.
Lemma committed_app {A} (c : A -> bool) fs f :
  committed c (fs ++ [f]) = if c f then zlen fs + 1 else committed c fs.
Proof.
  unfold zlen. induction fs as [|g fs IH]; [cbn; by destruct (c f)|]. cbn [app committed length]. rewrite IH.
  destruct (c f); [|done]. destruct (Z.ltb_spec 0 (Z.of_nat (length fs) + 1)); lia.
Qed.
Lemma committed_map {A B} (c : B -> bool) (f : A -> B) xs : committed c (map f xs) = committed (fun x => c (f x)) xs.
Proof. induction xs as [|x xs IH]; [done|]. cbn. by rewrite IH. Qed.

(** The frames of what follows the header. *)
Fixpoint cut (n frames : nat) (rest : list Z) : list (list Z) :=
  match frames with O => [] | S k => take n rest :: cut n k (drop n rest) end.
Fixpoint scan_list (header : list Z) (little : bool) (fs : list (list Z)) (s : Scan) : result string Scan :=
  match fs with
  | [] => Ok s
  | f :: fs' => let? s' := scan_frame header little f s in scan_list header little fs' s'
  end.
Lemma scan_frames_list header little n frames : forall rest s,
  scan_frames header little n frames rest s = scan_list header little (cut n frames rest) s.
Proof.
  induction frames as [|k IH]; intros rest s; [done|]. cbn [scan_frames cut scan_list].
  destruct (scan_frame _ _ _ _); [apply IH|done].
Qed.
Lemma cut_spec n frames : forall rest, (n * frames <= length rest)%nat ->
  rest = concat (cut n frames rest) ++ drop (n * frames) rest /\ Forall (fun f => length f = n) (cut n frames rest) /\
  length (cut n frames rest) = frames.
Proof.
  induction frames as [|k IH]; intros rest Hl.
  - rewrite Nat.mul_0_r, drop_0. by split_and!.
  - destruct (IH (drop n rest)) as (H1 & H2 & H3); [rewrite length_drop; lia|]. cbn [cut concat]. split_and!.
    + rewrite <- (assoc_L (++)), Nat.mul_succ_r, (Nat.add_comm _ n), <- drop_drop, <- H1. by rewrite take_drop.
    + constructor; [rewrite length_take; lia|done].
    + cbn. by rewrite H3.
Qed.
Lemma cut_concat n fs tail : Forall (fun f => length f = n) fs -> cut n (length fs) (concat fs ++ tail) = fs.
Proof.
  induction 1 as [|f fs Hf _ IH]; [done|]. cbn [length cut concat]. rewrite <- (assoc_L (++)), <- Hf, take_app_length, drop_app_length.
  rewrite <- Hf in IH. by rewrite IH.
Qed.

(** Once a frame is stale, all the following are. *)
Lemma scan_stale header little fs : forall s, stale s = true ->
  scan_list header little fs s = Ok (mkScan (sum s) true (n_valid s) (n_last s) (n_stale s + zlen fs)).
Proof.
  induction fs as [|f fs IH]; intros s Hs.
  - destruct s. cbn in Hs |- *. subst. by rewrite Z.add_0_r.
  - cbn [scan_list]. unfold scan_frame. rewrite Hs. cbn [orb rbind]. rewrite IH by done. cbn. do 2 f_equal. unfold zlen. cbn [length]. lia.
Qed.
(** A frame of this generation is counted. *)
Lemma scan_linked header little f s s' :
  stale s = false ->
  (scan_frame header little f s = Ok s' /\ stale s' = false <->
   linked header little (sum s) f /\
   s' = mkScan (link little (sum s) f) false (n_valid s + 1) (if commits f then n_valid s + 1 else n_last s) (n_stale s)).
Proof.
  intros Hs. unfold scan_frame, linked, commits. rewrite Hs. cbn [orb]. fold (link little (sum s) f).
  destruct (bool_decide (slice 8 16 f = slice 16 24 header)) eqn:Hsalt; cbn [negb].
  - apply bool_decide_eq_true in Hsalt. destruct (Z.ltb_spec 0 (be f 0 4)); cbn [rensure rbind]; [|split; [by intros []|lia]].
    case_bool_decide as Hsum; cbn [rensure rbind]; [|split; [by intros []|by intros [(_ & _ & ?) _]]].
    split; [by intros [[= <-] _]|by intros [_ ->]].
  - apply bool_decide_eq_false in Hsalt. split; [by intros [[= <-] ?]|by intros [[? _] _]].
Qed.
(** The outcome of the loop: a chain of this generation, then stale frames. *)
Lemma scan_list_spec header little fs : forall s s',
  stale s = false -> scan_list header little fs s = Ok s' ->
  exists valid old, fs = valid ++ old /\
    (forall i f, valid !! i = Some f -> linked header little (chain little (sum s) (take i valid)) f) /\
    (forall f, head old = Some f -> slice 8 16 f <> slice 16 24 header) /\
    n_valid s' = n_valid s + zlen valid /\ n_stale s' = n_stale s + zlen old /\
    n_last s' = (if 0 <? committed commits valid then n_valid s + committed commits valid else n_last s).
Proof.
  induction fs as [|f fs IH]; intros s s' Hs H.
  { injection H as <-. exists [], []. change (zlen []) with 0. split_and!; [done|by intros [] ?|done|lia|lia|done]. }
  cbn [scan_list] in H. apply rbind_Ok in H as (s1 & H1 & H). destruct (stale s1) eqn:Hs1.
  - rewrite scan_stale in H by done. injection H as <-. exists [], (f :: fs). cbn [app committed n_valid n_stale n_last].
    unfold scan_frame in H1. rewrite Hs in H1. cbn [orb] in H1.
    destruct (bool_decide (slice 8 16 f = slice 16 24 header)) eqn:Hsalt; cbn [negb] in H1.
    { apply rbind_Ok in H1 as (_ & _ & H1). apply rbind_Ok in H1 as (_ & _ & H1). by injection H1 as <-. }
    injection H1 as <-. apply bool_decide_eq_false in Hsalt. cbn. unfold zlen. cbn [length].
    split_and!; [done..|by intros g [= <-]|lia|lia|done].
  - destruct (proj1 (scan_linked header little f s s1 Hs) (conj H1 Hs1)) as [Hf ->].
    destruct (IH _ _ Hs1 H) as (valid & old & -> & Hv & Ho & Hn & Hst & Hl). cbn [sum n_valid n_stale n_last] in *.
    exists (f :: valid), old. split_and!; [done| |done| | |].
    + intros [|i] g; cbn; [by intros [= <-]|apply Hv].
    + rewrite Hn. unfold zlen. cbn [length]. lia.
    + done.
    + rewrite Hl. cbn [committed]. pose proof (committed_bounds commits valid).
      destruct (Z.ltb_spec 0 (committed commits valid)); [destruct (Z.ltb_spec 0 (committed commits valid + 1)); lia|].
      by destruct (commits f).
Qed.

(** A log as SQLite writes it. *)
Record Frame : Type := mkFrame { page_number : Z; commit_size : Z; data : list Z }.
Definition magic (little : bool) : Z := if little then magic_little else magic_big.
Definition frame_sum (little : bool) (s : Z * Z) (f : Frame) : Z * Z :=
  checksum (data f) little (checksum (be_bytes 4 (page_number f) ++ be_bytes 4 (commit_size f)) little s).
Definition frame_bytes (little : bool) (salt : list Z) (s : Z * Z) (f : Frame) : list Z :=
  let t := frame_sum little s f in
  be_bytes 4 (page_number f) ++ be_bytes 4 (commit_size f) ++ salt ++ be_bytes 4 t.1 ++ be_bytes 4 t.2 ++ data f.
Fixpoint frames_bytes (little : bool) (salt : list Z) (s : Z * Z) (fs : list Frame) : list (list Z) :=
  match fs with
  | [] => []
  | f :: fs' => frame_bytes little salt s f :: frames_bytes little salt (frame_sum little s f) fs'
  end.
Definition header_fields (little : bool) (page sequence : Z) (salt : list Z) : list Z :=
  be_bytes 4 (magic little) ++ be_bytes 4 3007000 ++ be_bytes 4 page ++ be_bytes 4 sequence ++ salt.
Definition header_sum (little : bool) (page sequence : Z) (salt : list Z) : Z * Z :=
  checksum (header_fields little page sequence salt) little (0, 0).
Definition header_bytes (little : bool) (page sequence : Z) (salt : list Z) : list Z :=
  let t := header_sum little page sequence salt in
  header_fields little page sequence salt ++ be_bytes 4 t.1 ++ be_bytes 4 t.2.
Definition wal_bytes (little : bool) (page sequence : Z) (salt : list Z) (fs : list Frame) : list Z :=
  header_bytes little page sequence salt ++ concat (frames_bytes little salt (header_sum little page sequence salt) fs).
Definition frame_ok (page : Z) (f : Frame) : Prop :=
  0 < page_number f < 2 ^ 32 /\ 0 <= commit_size f < 2 ^ 32 /\ zlen (data f) = page.
Definition page_ok (page : Z) : Prop := 512 <= page <= 65536 /\ is_power_of_two page = true.

Lemma checksum_range b little s :
  0 <= s.1 < 2 ^ 32 -> 0 <= s.2 < 2 ^ 32 ->
  0 <= (checksum b little s).1 < 2 ^ 32 /\ 0 <= (checksum b little s).2 < 2 ^ 32.
Proof.
  unfold checksum. revert s. induction (chunks8 b) as [|c l IH]; intros s H1 H2; [done|]. cbn [fold_left].
  apply IH; unfold checksum_pair, wrapping_add; cbn [fst snd]; by apply Z.mod_pos_bound.
Qed.
Lemma be_zlen n w : zlen (be_bytes w n) = Z.of_nat w.
Proof. unfold zlen. by rewrite be_bytes_length. Qed.

(** Reads the field [fld] of [b], which is [pre ++ fld ++ post]. *)
Ltac at_field b pre fld post :=
  match goal with
  | |- context [slice ?from ?to b] =>
      replace (slice from to b) with fld
        by (symmetry; transitivity (slice from to (pre ++ fld ++ post));
            [f_equal; unfold b; by rewrite ?app_nil_r, <- ?(assoc_L (++))
            |apply slice_field; rewrite ?zlen_app; change (zlen []) with 0; lia])
  end.
Lemma frame_bytes_linked little salt s f header page :
  frame_ok page f -> zlen salt = 8 -> slice 16 24 header = salt -> 0 <= s.1 < 2 ^ 32 -> 0 <= s.2 < 2 ^ 32 ->
  let b := frame_bytes little salt s f in
  linked header little s b /\ link little s b = frame_sum little s f /\ zlen b = page + 24 /\
  commits b = (0 <? commit_size f).
Proof.
  intros (Hp & Hc & Hd) Hs Hh H1 H2 b.
  destruct (checksum_range (data f) little (checksum (be_bytes 4 (page_number f) ++ be_bytes 4 (commit_size f)) little s)) as [Hr1 Hr2];
    [by apply checksum_range..|]. fold (frame_sum little s f) in Hr1, Hr2.
  assert (zlen b = page + 24) as Hl. { unfold b, frame_bytes. rewrite !zlen_app, !be_zlen. lia. }
  set (t := frame_sum little s f) in *.
  set (P := be_bytes 4 (page_number f)). set (C := be_bytes 4 (commit_size f)).
  assert (zlen P = 4 /\ zlen C = 4 /\ zlen (be_bytes 4 t.1) = 4 /\ zlen (be_bytes 4 t.2) = 4) as (HP & HC & HT1 & HT2)
    by (by rewrite !be_zlen).
  assert (link little s b = t) as Hk.
  { unfold link. rewrite Hl. at_field b (P ++ C ++ salt ++ be_bytes 4 t.1 ++ be_bytes 4 t.2) (data f) ([] : list Z).
    by at_field b ([] : list Z) (P ++ C) (salt ++ be_bytes 4 t.1 ++ be_bytes 4 t.2 ++ data f). }
  split_and!; [|done|done|].
  - unfold linked. rewrite Hk, Hh, (surjective_pairing t). split_and!; [|unfold be|unfold be; f_equal].
    + by at_field b (P ++ C) salt (be_bytes 4 t.1 ++ be_bytes 4 t.2 ++ data f).
    + at_field b ([] : list Z) P (C ++ salt ++ be_bytes 4 t.1 ++ be_bytes 4 t.2 ++ data f). unfold P. rewrite be_uint_bytes; lia.
    + at_field b (P ++ C ++ salt) (be_bytes 4 t.1) (be_bytes 4 t.2 ++ data f). by rewrite be_uint_bytes.
    + at_field b (P ++ C ++ salt ++ be_bytes 4 t.1) (be_bytes 4 t.2) (data f). by rewrite be_uint_bytes.
  - unfold commits, be. at_field b P C (salt ++ be_bytes 4 t.1 ++ be_bytes 4 t.2 ++ data f). unfold C. by rewrite be_uint_bytes.
Qed.
Lemma header_ok little page sequence salt :
  page_ok page -> zlen salt = 8 ->
  let b := header_bytes little page sequence salt in
  check_header b = Ok (page, little, header_sum little page sequence salt) /\ zlen b = 32 /\ slice 16 24 b = salt.
Proof.
  intros [Hp Hpow] Hs b.
  destruct (checksum_range (header_fields little page sequence salt) little (0, 0)) as [Hr1 Hr2]; [done..|].
  fold (header_sum little page sequence salt) in Hr1, Hr2. set (t := header_sum little page sequence salt) in *.
  set (M := be_bytes 4 (magic little)). set (F := be_bytes 4 3007000). set (G := be_bytes 4 page). set (Q := be_bytes 4 sequence).
  assert (zlen M = 4 /\ zlen F = 4 /\ zlen G = 4 /\ zlen Q = 4 /\ zlen (be_bytes 4 t.1) = 4 /\ zlen (be_bytes 4 t.2) = 4)
    as (HM & HF & HG & HQ & HT1 & HT2) by (by rewrite !be_zlen).
  set (T := be_bytes 4 t.1 ++ be_bytes 4 t.2).
  assert (zlen T = 8) as HT by (unfold T; rewrite zlen_app; lia).
  assert (be_uint M = magic little /\ be_uint F = 3007000 /\ be_uint G = page) as (HM' & HF' & HG').
  { unfold M, F, G. rewrite !be_uint_bytes; [done|lia|done|by destruct little]. }
  split_and!.
  - unfold check_header, be.
    at_field b ([] : list Z) M (F ++ G ++ Q ++ salt ++ T). at_field b M F (G ++ Q ++ salt ++ T).
    at_field b (M ++ F) G (Q ++ salt ++ T). at_field b ([] : list Z) (M ++ F ++ G ++ Q ++ salt) T.
    at_field b (M ++ F ++ G ++ Q ++ salt) (be_bytes 4 t.1) (be_bytes 4 t.2).
    at_field b (M ++ F ++ G ++ Q ++ salt ++ be_bytes 4 t.1) (be_bytes 4 t.2) ([] : list Z).
    rewrite HM', HF', HG', !be_uint_bytes by done.
    replace ((magic little =? magic_little) || (magic little =? magic_big)) with true by by destruct little.
    replace (magic little =? magic_little) with little by by destruct little.
    rewrite (proj2 (Z.leb_le 512 page)), (proj2 (Z.leb_le page 65536)), Hpow, bool_decide_eq_true_2 by (lia || apply surjective_pairing).
    done.
  - unfold b, header_bytes, header_fields. rewrite !zlen_app, !be_zlen. lia.
  - by at_field b (M ++ F ++ G ++ Q) salt T.
Qed.
Lemma scan_written little salt header page fs : forall s v l,
  Forall (frame_ok page) fs -> zlen salt = 8 -> slice 16 24 header = salt -> 0 <= s.1 < 2 ^ 32 -> 0 <= s.2 < 2 ^ 32 ->
  let c := committed (fun f => 0 <? commit_size f) fs in
  exists s', scan_list header little (frames_bytes little salt s fs) (mkScan s false v l 0) =
    Ok (mkScan s' false (v + zlen fs) (if 0 <? c then v + c else l) 0).
Proof.
  induction fs as [|f fs IH]; intros s v l Hfs Hs Hh H1 H2 c.
  { exists s. subst c. change (zlen []) with 0. cbn. by rewrite Z.add_0_r. }
  apply Forall_cons in Hfs as [Hf Hfs]. destruct (frame_bytes_linked little salt s f header page Hf Hs Hh H1 H2) as (Hlk & Hs' & _ & Hc).
  cbn [frames_bytes scan_list].
  destruct (proj2 (scan_linked header little (frame_bytes little salt s f) (mkScan s false v l 0) _ eq_refl) (conj Hlk eq_refl)) as [-> _].
  cbn [rbind sum n_valid n_last n_stale]. rewrite Hs', Hc.
  destruct (IH (frame_sum little s f) (v + 1) (if 0 <? commit_size f then v + 1 else l)) as [s' ->]; try done;
    [apply checksum_range; by apply checksum_range..|].
  exists s'. do 2 f_equal.
  - unfold zlen. cbn [length]. lia.
  - subst c. cbn [committed]. pose proof (committed_bounds (fun f => 0 <? commit_size f) fs).
    set (n := committed _ fs) in *. destruct (Z.ltb_spec 0 n); [destruct (Z.ltb_spec 0 (n + 1)); lia|].
    by destruct (0 <? commit_size f).
Qed.
Lemma frames_bytes_take little salt fs : forall k s,
  take k (frames_bytes little salt s fs) = frames_bytes little salt s (take k fs).
Proof. induction fs as [|f fs IH]; intros [|k] s; cbn; [done..|]. by rewrite IH. Qed.
Lemma frames_bytes_length little salt page fs : forall s,
  Forall (frame_ok page) fs -> zlen salt = 8 ->
  Forall (fun b => length b = Z.to_nat (page + 24)) (frames_bytes little salt s fs) /\
  length (frames_bytes little salt s fs) = length fs.
Proof.
  induction fs as [|f fs IH]; intros s Hfs Hs; [by split|]. apply Forall_cons in Hfs as [(Hp & Hc & Hd) Hfs].
  destruct (IH (frame_sum little s f) Hfs Hs) as [H1 H2]. cbn [frames_bytes length]. rewrite H2. split; [|done]. constructor; [|done].
  assert (zlen (frame_bytes little salt s f) = page + 24); [|unfold zlen in *; lia].
  unfold frame_bytes. rewrite !zlen_app, !be_zlen. lia.
Qed.
Lemma cut_take n fs : Forall (fun f => length f = n) fs -> forall k m,
  (n * k <= m)%nat -> (k <= length fs)%nat -> cut n k (take m (concat fs)) = take k fs.
Proof.
  induction 1 as [|f fs Hf _ IH]; intros [|k] m Hm Hk; cbn in *; [done|lia|done|].
  rewrite take_take, Nat.min_l by nia. rewrite take_app_le, take_ge by lia. f_equal.
  rewrite skipn_firstn_comm, drop_app_length' by done. apply IH; nia.
Qed.

(** ** Theorems *)

(** C34. A report is evidence: when a log that is not empty is accepted, it is its
    header, whole frames and a tail shorter than a frame; the frames counted as
    valid are of the header's generation, name a page and continue its checksum
    one by one; the first stale frame is of another generation; and the last
    commit is the last frame among the valid ones that commits. *)
Theorem wal_report_justified file r :
  validate file = Ok r -> file <> [] ->
  exists little start valid old tail, let header := slice 0 32 file in
    check_header header = Ok (page_size r, little, start) /\
    file = header ++ concat valid ++ concat old ++ tail /\
    Forall (fun f => zlen f = page_size r + 24) (valid ++ old) /\
    bytes r = zlen file /\ zlen valid = valid_frames r /\ zlen old = stale_frames r /\
    zlen tail = trailing_bytes r /\ trailing_bytes r < page_size r + 24 /\
    (forall i f, valid !! i = Some f -> linked header little (chain little start (take i valid)) f) /\
    (forall f, head old = Some f -> slice 8 16 f <> slice 16 24 header) /\
    last_commit_frame r = committed commits valid /\
    uncommitted_frames r = valid_frames r - last_commit_frame r.
Proof.
  unfold validate. intros H Hne. destruct (Z.eqb_spec (zlen file) 0) as [Hz|Hz]; [by destruct file|].
  apply rbind_Ok in H as ([] & Hlen & H). unfold rensure in Hlen. destruct (Z.leb_spec 32 (zlen file)) as [Hge|]; [|done].
  apply rbind_Ok in H as ([[page little] start] & Hhead & H). apply rbind_Ok in H as (s & Hscan & [= <-]).
  assert (512 <= page) as Hp.
  { unfold check_header in Hhead. do 2 apply rbind_Ok in Hhead as (_ & _ & Hhead). apply rbind_Ok in Hhead as ([] & Hp & Hhead).
    apply rbind_Ok in Hhead as (_ & _ & [= <- _ _]). unfold rensure in Hp. destruct (_ && _ && _) eqn:Hb; [lia|done]. }
  set (n := Z.to_nat (page + 24)) in *. set (k := Z.to_nat ((zlen file - 32) / (page + 24))) in *.
  pose proof (Z.div_mod (zlen file - 32) (page + 24) ltac:(lia)) as Hdm.
  pose proof (Z.mod_pos_bound (zlen file - 32) (page + 24) ltac:(lia)) as Hmod.
  assert (0 <= (zlen file - 32) / (page + 24)) as Hq by (apply Z.div_pos; lia).
  assert (Z.of_nat (n * k) = (page + 24) * ((zlen file - 32) / (page + 24))) as Hnk by (unfold n, k; lia).
  assert (length (drop 32 file) = Z.to_nat (zlen file - 32)) as Hdl by (rewrite length_drop; unfold zlen; lia).
  destruct (cut_spec n k (drop 32 file)) as (Hrest & Hall & Hcount); [lia|].
  rewrite scan_frames_list in Hscan. apply scan_list_spec in Hscan as (valid & old & Hcut & Hv & Ho & Hn & Hst & Hl); [|done].
  cbn [sum n_valid n_last n_stale] in *. exists little, start, valid, old, (drop (n * k) (drop 32 file)). split_and!; try done.
  - change (slice 0 32 file) with (take 32 file). rewrite <- (take_drop 32 file) at 1. f_equal.
    rewrite Hrest at 1. by rewrite Hcut, concat_app, <- (assoc_L (++)).
  - rewrite <- Hcut. eapply Forall_impl; [exact Hall|]. intros f Hf. unfold zlen. cbn beta in Hf. rewrite Hf. cbn [page_size]. lia.
  - cbn [trailing_bytes]. unfold zlen at 1. rewrite length_drop, Hdl. lia.
  - cbn [trailing_bytes page_size]. lia.
  - cbn [last_commit_frame]. rewrite Hl. pose proof (committed_bounds commits valid).
    destruct (Z.ltb_spec 0 (committed commits valid)); lia.
Qed.

(** A log that a crash cut off anywhere behind its header is accepted with
    exactly the frames that are complete: the report counts them, finds the last
    commit among them, and puts down the rest as a torn tail. *)
Theorem wal_torn_anywhere little page sequence salt fs n :
  page_ok page -> zlen salt = 8 -> Forall (frame_ok page) fs ->
  let log := wal_bytes little page sequence salt fs in
  32 <= n <= zlen log ->
  let whole := (n - 32) / (page + 24) in
  let last := committed (fun f => 0 <? commit_size f) (take (Z.to_nat whole) fs) in
  validate (take (Z.to_nat n) log) =
  Ok (mkWalReport n page whole last (whole - last) ((n - 32) mod (page + 24)) 0).
Proof.
  intros Hp Hs Hfs log Hn whole last. destruct (header_ok little page sequence salt Hp Hs) as (Hh & Hhl & Hsalt).
  set (header := header_bytes little page sequence salt) in *. set (start := header_sum little page sequence salt) in *.
  assert (log = header ++ concat (frames_bytes little salt start fs)) as Hlog by done. clearbody log.
  destruct (frames_bytes_length little salt page fs start Hfs Hs) as [Hall Hcount].
  set (body := frames_bytes little salt start fs) in *.
  assert (length header = 32%nat) as Hhl' by (unfold zlen in Hhl; lia).
  assert (zlen (take (Z.to_nat n) log) = n) as Hlen by (unfold zlen in *; rewrite length_take; lia).
  assert (take (Z.to_nat n) log = header ++ take (Z.to_nat n - 32) (concat body)) as Htake.
  { rewrite Hlog, take_app, take_ge by lia. by rewrite Hhl'. }
  unfold validate. rewrite Hlen. destruct (Z.eqb_spec n 0); [lia|]. rewrite (proj2 (Z.leb_le 32 n)) by lia. cbn [rensure rbind].
  assert (slice 0 32 (take (Z.to_nat n) log) = header) as ->.
  { rewrite Htake. apply (slice_field 0 32 [] header); [done|]. rewrite Hhl. done. }
  rewrite Hh. cbn [rbind]. fold whole. rewrite scan_frames_list, Htake, drop_app_length' by done.
  assert (0 <= whole) as Hw by (apply Z.div_pos; destruct Hp; lia).
  pose proof (Z.div_mod (n - 32) (page + 24) ltac:(destruct Hp; lia)) as Hdm. fold whole in Hdm.
  pose proof (Z.mod_pos_bound (n - 32) (page + 24) ltac:(destruct Hp; lia)) as Hmod.
  assert (length (concat body) = (Z.to_nat (page + 24) * length fs)%nat) as Hbl.
  { rewrite <- Hcount. clear -Hall. induction Hall as [|b l Hb _ IH]; cbn; [lia|]. rewrite length_app, IH, Hb. lia. }
  rewrite cut_take; [|done| |].
  - unfold body. rewrite frames_bytes_take.
    destruct (scan_written little salt header page (take (Z.to_nat whole) fs) start 0 0) as [s' ->];
      [by apply Forall_take|done|done|apply checksum_range; done..|].
    cbn [rbind n_valid n_last n_stale]. fold last. pose proof (committed_bounds (fun f => 0 <? commit_size f) (take (Z.to_nat whole) fs)) as Hcb.
    fold last in Hcb. assert (zlen (take (Z.to_nat whole) fs) = whole) as ->.
    { unfold zlen. rewrite length_take. rewrite Hlog in Hn. unfold zlen in Hn. rewrite length_app, Hbl in Hn. nia. }
    destruct (Z.ltb_spec 0 last); do 2 f_equal; lia.
  - nia.
  - rewrite Hcount. rewrite Hlog in Hn. unfold zlen in Hn. rewrite length_app, Hbl in Hn. nia.
Qed.

(** ** A log of three frames, of which the second commits *)

Definition demo_salt : list Z := [1; 2; 3; 4; 5; 6; 7; 8].
Definition demo_frames : list Frame :=
  [mkFrame 1 0 (replicate 512 7); mkFrame 2 2 (replicate 512 255); mkFrame 1 0 (replicate 512 9)].
Definition demo_log : list Z := wal_bytes true 512 0 demo_salt demo_frames.
Definition demo_report : WalReport := mkWalReport 1650 512 3 2 1 10 0.
Lemma demo_log_report : validate (demo_log ++ replicate 10 0) = Ok demo_report.
Proof. vm_compute. reflexivity. Qed.
Example demo_stale_frame :
  validate (demo_log ++ be_bytes 4 9 ++ be_bytes 4 9 ++ replicate 528 0) = Ok (mkWalReport 2176 512 3 2 1 0 1).
Proof. vm_compute. reflexivity. Qed.
Example demo_torn_page : is_ok (validate (take 1000 demo_log ++ [1] ++ drop 1001 demo_log)) = false.
Proof. vm_compute. reflexivity. Qed.
Lemma demo_frames_ok : Forall (frame_ok 512) demo_frames.
Proof. repeat apply Forall_cons_2; try apply Forall_nil_2; split_and!; first [reflexivity | vm_compute; congruence]. Qed.

Lemma wal_report_justified_witness :
  exists valid : list (list Z), zlen valid = 3 /\ committed commits valid = 2.
Proof.
  assert (demo_log ++ replicate 10 0 <> []) as Hne by (intros H%(f_equal (@length Z)); vm_compute in H; discriminate H).
  destruct (wal_report_justified _ _ demo_log_report Hne) as (_ & _ & valid & _ & _ & _ & _ & _ & _ & Hv & _ & _ & _ & _ & _ & Hc & _).
  exists valid. split; [exact Hv|symmetry; exact Hc].
Defined.
Lemma wal_torn_anywhere_witness :
  validate (take 1600 demo_log) = Ok (mkWalReport 1600 512 2 2 0 496 0).
Proof.
  pose proof (wal_torn_anywhere true 512 0 demo_salt demo_frames 1600) as H. cbn zeta in H.
  assert (page_ok 512) as Hp by (split; [lia|reflexivity]).
  assert (zlen (wal_bytes true 512 0 demo_salt demo_frames) = 1640) as Hl by (vm_compute; reflexivity).
  specialize (H Hp eq_refl demo_frames_ok ltac:(rewrite Hl; lia)). exact H.
Defined.
