(* ===== verification/Psd.v ===== *)
(** The reader of merged PSD composites: src/src/media/psd.rs.

    The header, the resources and the layer section are walked, the planes are read
    raw, run-length coded or deflated, and become straight RGBA samples in single
    precision.  The inflater is a third-party crate and a parameter. *)
From stdpp Require Import base tactics option list numbers strings pretty.
From Stdlib Require Import ZArith Lia.
From Stdlib Require Import SpecFloat.
From S2P Require Import Prelude Bytes.

Open Scope Z_scope.
Local Open Scope prog_scope.

(** The outcomes besides a value: an error, or a panic. *)
Inductive Error : Type :=
| Failure (message : string)
| Panic (message : string).
Definition says (m : string) : Error := Failure m.

(** ** The cursor *)

(** @source src/src/media/psd.rs:11-14 Reader *)
Record Reader : Type := mkReader { bytes : list Z; offset : Z }.
Abbreviation reading A := (proc Error Reader A) (only parsing).

(** @source src/src/media/psd.rs:16-27 Reader::take *)
Definition take (n : Z) : reading (list Z) :=
  let* r := get in
  let* stop := of_option (checked_add (offset r) n) (says "PSD offset overflow") in
  ensure ((offset r <=? stop) && (stop <=? zlen (bytes r))) (says "truncated PSD") ;;;
  put (mkReader (bytes r) stop) ;;;
  ret (slice (offset r) stop (bytes r)).
(** @source src/src/media/psd.rs:28-30 Reader::u16 *)
Definition u16 : reading Z := let* b := take 2 in ret (be_uint b).
(** @source src/src/media/psd.rs:31-33 Reader::u32 *)
Definition u32 : reading Z := let* b := take 4 in ret (be_uint b).
(** @source src/src/media/psd.rs:34-37 Reader::block *)
Definition block : reading (list Z) := let* n := u32 in take n.
(** Indexing and slicing, which panic out of bounds: [l[i]], [l[..n]] and [l[i..]]. *)
Definition at_byte (l : list Z) (i : Z) : result Error Z :=
  match l !! Z.to_nat i with
  | Some b => if 0 <=? i then Ok b else Err (Panic "index out of bounds")
  | None => Err (Panic "index out of bounds")
  end.
Definition prefix (n : Z) (l : list Z) : result Error (list Z) :=
  if (0 <=? n) && (n <=? zlen l) then Ok (slice 0 n l) else Err (Panic "range end index out of range").
Definition suffix (i : Z) (l : list Z) : result Error (list Z) :=
  if (0 <=? i) && (i <=? zlen l) then Ok (slice i (zlen l) l) else Err (Panic "range start index out of range").
(** [take(1)?[0]] *)
Definition byte : reading Z := let* b := take 1 in lift (at_byte b 0).

(** A loop over [while r.offset < r.bytes.len()] that threads a value and may stop with
    a result. *)
Fixpoint while_bytes {A B} (fuel : nat) (body : A -> reading (A + B)) (a : A) : reading (A + B) :=
  match fuel with
  | O => fail (Panic "fuel")
  | S fuel =>
      let* r := get in
      if offset r <? zlen (bytes r) then
        let* s := body a in
        match s with
        | inl a => while_bytes fuel body a
        | inr b => ret (inr b)
        end
      else ret (inl a)
  end.
(** A reader of its own over a block. *)
Definition over {A} (b : list Z) (p : reading A) : result Error A := (p (mkReader b 0)).2.

(** One image resource: its number and its data. *)
(** @source src/src/media/psd.rs:113-120 decode *)
Definition resource (signature : string) : reading (Z * list Z) :=
  let* s := take 4 in
  ensure (bool_decide (s = ascii_bytes "8BIM")) (says signature) ;;;
  let* id := u16 in
  let* n := byte in
  take n ;;;
  (if (n + 1) mod 2 =? 0 then ret [] else take 1) ;;;
  let* data := block in
  ret (id, data).
Definition padded (data : list Z) : reading (list Z) := if zlen data mod 2 =? 0 then ret [] else take 1.

(** @source src/src/media/psd.rs:49-63 source_exif *)
Definition exif_resource (_ : unit) : reading (unit + list Z) :=
  let* '(id, data) := resource "invalid PSD resource signature" in
  if (id =? 1058) || (id =? 1059) then ret (inr data) else
  padded data ;;; ret (inl tt).
(** @source src/src/media/psd.rs:40-65 source_exif *)
Definition source_exif (b : list Z) : result Error (option (list Z)) :=
  ((let* _ := block in
    let* resources := block in
    let* found := lift (over resources (while_bytes (S (length resources)) exif_resource tt)) in
    ret (match found with inr data => Some data | inl _ => None end)) (mkReader b 26)).2.

(** ** The sections before the planes *)

(** The fields of the header and what they admit. *)
Record Header : Type := mkHeader {
  channels : Z; height : Z; width : Z; depth : Z; mode : Z; colors : Z; pixels : Z; plane : Z; total : Z }.
(** @source src/src/media/psd.rs:67-104 decode *)
Definition header (max_pixels max_allocation : Z) : reading Header :=
  let* s := take 4 in
  ensure (bool_decide (s = ascii_bytes "8BPS")) (says "invalid PSD signature") ;;;
  let* version := u16 in
  ensure (version =? 1) (says "unsupported PSB version") ;;;
  take 6 ;;;
  let* channels := u16 in
  let* height := u32 in
  let* width := u32 in
  let* depth := u16 in
  let* mode := u16 in
  ensure (bool_decide (depth ∈ [8; 16; 32])) (says "unsupported PSD bit depth") ;;;
  ensure (bool_decide (mode ∈ [1; 3])) (says ("unsupported PSD color mode " +:+ pretty (Z.to_N mode))) ;;;
  let colors := if mode =? 1 then 1 else 3 in
  ensure ((colors <=? channels) && (channels <=? 56)) (says "invalid PSD channel count") ;;;
  let* pixels := of_option (checked_mul width height) (says "PSD dimension overflow") in
  ensure ((0 <? width) && (0 <? height) && (width <=? 40000) && (height <=? 40000) && (pixels <=? 100000000))
    (says "PSD resource limit") ;;;
  ensure ((pixels <=? max_pixels) && (Z.min u64_max (pixels * 16) <=? max_allocation))
    (says "PSD configured resource limit") ;;;
  let bps := depth / 8 in
  let* plane := of_option (checked_mul pixels bps) (says "PSD plane overflow") in
  let* total := of_option (checked_mul plane channels) (says "PSD channel overflow") in
  ensure ((total <=? 1600 * 1024 * 1024) && (total <=? max_allocation)) (says "PSD resource limit") ;;;
  ret (mkHeader channels height width depth mode colors pixels plane total).

(** The resources: a real composite, and the profile. *)
(** @source src/src/media/psd.rs:112-135 decode *)
Definition profile_resource (icc : option (list Z)) : reading (option (list Z) + unit) :=
  let* '(id, data) := resource "unsupported PSD resource signature" in
  (if id =? 1057 then
     ensure (5 <=? zlen data) (says "truncated PSD VersionInfo") ;;;
     let* real := lift (at_byte data 4) in
     ensure (negb (real =? 0)) (says "unsupported PSD without real merged composite")
   else ret tt) ;;;
  let* icc := (if id =? 1039 then
                 ensure (zlen data <=? 16 * 1024 * 1024) (says "ICC resource limit") ;;; ret (Some data)
               else ret icc) in
  padded data ;;;
  ret (inl icc).
(** [i16::from_be_bytes(data[..2]) < 0]. *)
Definition negative_count (data : list Z) : result Error bool :=
  let? count := prefix 2 data in Ok (32768 <=? be_uint count).
Definition is_key (key : list Z) (names : list string) : bool := existsb (fun n => bool_decide (key = ascii_bytes n)) names.
(** One additional layer block; the section may end in padding. *)
(** @source src/src/media/psd.rs:152-176 decode *)
Definition layer_block (merged_alpha : bool) : reading (bool + bool) :=
  let* r := get in
  let* remaining := lift (suffix (offset r) (bytes r)) in
  if (zlen remaining <=? 3) && forallb (Z.eqb 0) remaining then ret (inr merged_alpha) else
  let* signature := take 4 in
  ensure (is_key signature ["8BIM"%string; "8B64"%string]) (says "invalid PSD layer tag signature") ;;;
  let* key := take 4 in
  let* data := block in
  let* merged_alpha := (if is_key key ["Mtrn"%string; "Mt16"%string; "Mt32"%string] then
    ensure (bool_decide (length data = 0%nat)) (says "invalid PSD merged transparency tag") ;;; ret true
    else ret merged_alpha) in
  let* merged_alpha := (if is_key key ["Layr"%string; "Lr16"%string; "Lr32"%string] then
    ensure (2 <=? zlen data) (says "truncated PSD additional layer count") ;;;
    let* negative := lift (negative_count data) in
    ret (merged_alpha || negative) else ret merged_alpha) in
  padded data ;;;
  ret (inl merged_alpha).
(** @source src/src/media/psd.rs:143-151 decode *)
Definition layer_section (layers : list Z) : reading bool :=
  let* layer_info := block in
  let* merged_alpha := (if bool_decide (length layer_info = 0%nat) then ret false else
    ensure (2 <=? zlen layer_info) (says "truncated PSD layer count") ;;;
    lift (negative_count layer_info)) in
  let* r := get in
  (if offset r <? zlen layers then block else ret []) ;;;
  let* s := while_bytes (S (length layers)) layer_block merged_alpha in
  ret (match s with inl a | inr a => a end).

(** ** The planes *)

(** One run-length coded row, read from [i] on, after the bytes [out]. *)
(** @source src/src/media/psd.rs:201-233 decode *)
Fixpoint unpack (fuel : nat) (row : list Z) (row_bytes i : Z) (out : list Z) : result Error (list Z) :=
  match fuel with
  | O => Err (Panic "fuel")
  | S fuel =>
      if i <? zlen row then
        let? b := at_byte row i in
        let count := if b <? 128 then b else b - 256 in
        let i := i + 1 in
        if 0 <=? count then
          let n := count + 1 in
          let? _ := rensure (zlen out + n <=? row_bytes) (says "PSD RLE row overflow") in
          let? _ := rensure (i + n <=? zlen row) (says "truncated PSD RLE literal") in
          unpack fuel row row_bytes (i + n) (out ++ slice i (i + n) row)
        else if -127 <=? count then
          let n := 1 - count in
          let? _ := rensure (zlen out + n <=? row_bytes) (says "PSD RLE row overflow") in
          match row !! Z.to_nat i with
          | Some value => unpack fuel row row_bytes (i + 1) (out ++ replicate (Z.to_nat n) value)
          | None => Err (says "truncated PSD RLE repeat")
          end
        else unpack fuel row row_bytes i out
      else Ok out
  end.
Definition unpack_row (row : list Z) (row_bytes : Z) : result Error (list Z) :=
  let? out := unpack (S (length row)) row row_bytes 0 [] in
  let? _ := rensure (zlen out =? row_bytes) (says "truncated PSD RLE row") in
  Ok out.
(** [as_chunks::<2>()] of the table of row sizes. *)
Fixpoint sizes (table : list Z) : list Z :=
  match table with
  | a :: b :: table => be_uint [a; b] :: sizes table
  | _ => []
  end.
(** @source src/src/media/psd.rs:196-234 decode *)
Fixpoint unpack_rows (sizes : list Z) (row_bytes : Z) : reading (list Z) :=
  match sizes with
  | [] => ret []
  | size :: sizes =>
      let* row := take size in
      let* out := lift (unpack_row row row_bytes) in
      let* rest := unpack_rows sizes row_bytes in
      ret (out ++ rest)
  end.

(** What the inflater delivers of a stream: bytes, and whether it ends there cleanly. *)
Definition Inflate : Type := list Z -> list Z * bool.
(** @source src/src/media/psd.rs:237-246 decode *)
Definition inflated (inflate : Inflate) (total : Z) : reading (list Z) :=
  let* r := get in
  let* stream := lift (suffix (offset r) (bytes r)) in
  let '(out, clean) := inflate stream in
  ensure (total <=? zlen out) (says "failed to fill whole buffer") ;;;
  ensure (bool_decide (zlen out <> total) || clean) (says "corrupt deflate stream") ;;;
  ensure (zlen out =? total) (says "PSD ZIP size mismatch") ;;;
  ret out.

(** [for i in from..to] over an updated row. *)
Fixpoint for_range (n : nat) (from : Z) (f : Z -> list Z -> result Error (list Z)) (row : list Z) : result Error (list Z) :=
  match n with
  | O => Ok row
  | S n => let? row := f from row in for_range n (from + 1) f row
  end.
Definition update (l : list Z) (i b : Z) : result Error (list Z) :=
  let? _ := at_byte l i in Ok (<[Z.to_nat i := b]> l).
(** @source src/src/media/psd.rs:252-257 decode *)
Definition undo_word (x : Z) (row : list Z) : result Error (list Z) :=
  let? p1 := at_byte row ((x - 1) * 2) in
  let? p0 := at_byte row ((x - 1) * 2 + 1) in
  let? v1 := at_byte row (x * 2) in
  let? v0 := at_byte row (x * 2 + 1) in
  let value := (be_uint [v1; v0] + be_uint [p1; p0]) mod 65536 in
  let? row := update row (x * 2) (value / 256) in
  update row (x * 2 + 1) (value mod 256).
(** @source src/src/media/psd.rs:259-261 decode *)
Definition undo_byte (x : Z) (row : list Z) : result Error (list Z) :=
  let? b := at_byte row x in
  let? p := at_byte row (x - 1) in
  update row x ((b + p) mod 256).
(** The four planes of bytes of a 32-bit row, merged. *)
Definition merge_byte (source : list Z) (width x b : Z) (row : list Z) : result Error (list Z) :=
  let? v := at_byte source (b * width + x) in
  update row (x * 4 + b) v.
(** @source src/src/media/psd.rs:262-269 decode *)
Definition merge_words (width : Z) (row : list Z) : result Error (list Z) :=
  let source := row in
  for_range (Z.to_nat width) 0 (fun x row => for_range 4 0 (fun b row => merge_byte source width x b row) row) row.
Definition undo_row (depth width : Z) (row : list Z) : result Error (list Z) :=
  if depth =? 16 then for_range (Z.to_nat (width - 1)) 1 undo_word row else
  let? row := for_range (Z.to_nat (zlen row - 1)) 1 undo_byte row in
  if depth =? 32 then merge_words width row else Ok row.
(** [chunks_exact_mut]: what is left behind the last whole row is not touched. *)
(** @source src/src/media/psd.rs:250-272 decode *)
Fixpoint undo_rows (fuel : nat) (depth width row_bytes : Z) (data : list Z) : result Error (list Z) :=
  match fuel with
  | O => Err (Panic "fuel")
  | S fuel =>
      if zlen data <? row_bytes then Ok data else
      let? row := undo_row depth width (slice 0 row_bytes data) in
      let? rest := undo_rows fuel depth width row_bytes (slice row_bytes (zlen data) data) in
      Ok (row ++ rest)
  end.

(** The bytes of the planes, by compression. *)
(** @source src/src/media/psd.rs:183-272 decode *)
Definition planes (inflate : Inflate) (h : Header) (compression : Z) : reading (list Z) :=
  let bps := depth h / 8 in
  let row_bytes := width h * bps in
  let* data := (match compression with
    | 0 => take (total h)
    | 1 =>
        let* rows := of_option (checked_mul (height h) (channels h)) (says "PSD row overflow") in
        let* table_bytes := of_option (checked_mul rows 2) (says "PSD row table overflow") in
        let* table := take table_bytes in
        unpack_rows (sizes table) row_bytes
    | 2 | 3 => inflated inflate (total h)
    | _ => fail (says ("unsupported PSD compression " +:+ pretty (Z.to_N compression)))
    end) in
  if compression =? 3 then lift (undo_rows (S (length data)) (depth h) (width h) row_bytes data) else ret data.

(** ** Samples *)

(** Single precision. *)
Definition f32 : Type := spec_float.
Definition of_Z (n : Z) : f32 := binary_normalize 24 128 n 0 false.
Definition add32 : f32 -> f32 -> f32 := SFadd 24 128.
Definition sub32 : f32 -> f32 -> f32 := SFsub 24 128.
Definition div32 : f32 -> f32 -> f32 := SFdiv 24 128.
(** [f32::from_bits]; the payload of a NaN is not kept. *)
Definition from_bits (n : Z) : f32 :=
  let sign := 2 ^ 31 <=? n in
  let exponent := n / 2 ^ 23 mod 256 in
  let mantissa := n mod 2 ^ 23 in
  if exponent =? 255 then (if mantissa =? 0 then S754_infinity sign else S754_nan)
  else if exponent =? 0 then
    match mantissa with Zpos m => S754_finite sign m (-149) | _ => S754_zero sign end
  else match mantissa + 2 ^ 23 with Zpos m => S754_finite sign m (exponent - 150) | _ => S754_nan end.
Definition is_finite (x : f32) : bool := match x with S754_zero _ | S754_finite _ _ _ => true | _ => false end.
Definition zero : f32 := of_Z 0.
Definition one : f32 := of_Z 1.

(** @source src/src/media/psd.rs:273-280 decode *)
Definition sample (h : Header) (data : list Z) (channel index : Z) : result Error f32 :=
  let start := channel * plane h + index * (depth h / 8) in
  match depth h with
  | 8 => let? b := at_byte data start in Ok (div32 (of_Z b) (of_Z 255))
  | 16 =>
      let? b1 := at_byte data start in
      let? b0 := at_byte data (start + 1) in
      Ok (div32 (of_Z (be_uint [b1; b0])) (of_Z 65535))
  | _ =>
      let? b3 := at_byte data start in
      let? b2 := at_byte data (start + 1) in
      let? b1 := at_byte data (start + 2) in
      let? b0 := at_byte data (start + 3) in
      Ok (from_bits (be_uint [b3; b2; b1; b0]))
  end.
Record Pixel : Type := mkPixel { red : f32; green : f32; blue : f32; alpha : f32 }.
(** Undo the matte against white. *)
Definition unmatte (c a : f32) : f32 := div32 (sub32 (add32 c a) one) a.
(** @source src/src/media/psd.rs:283-302 decode *)
Definition pixel (h : Header) (data : list Z) (merged_alpha : bool) (i : Z) : result Error Pixel :=
  let channel c := if colors h =? 1 then 0 else c in
  let? r := sample h data (channel 0) i in
  let? g := sample h data (channel 1) i in
  let? b := sample h data (channel 2) i in
  let? a := (if merged_alpha && (colors h <? channels h) then sample h data (colors h) i else Ok one) in
  let? _ := rensure (is_finite a && SFleb zero a && SFleb a one) (says "invalid PSD alpha") in
  Ok (if merged_alpha && (mode h =? 3) && SFltb zero a
      then mkPixel (unmatte r a) (unmatte g a) (unmatte b a) a else mkPixel r g b a).
Fixpoint pixels_from (n : nat) (i : Z) (f : Z -> result Error Pixel) : result Error (list Pixel) :=
  match n with
  | O => Ok []
  | S n => let? p := f i in let? ps := pixels_from n (i + 1) f in Ok (p :: ps)
  end.

(** The image by rows: its width, height and pixels. *)
(** @source src/src/media/psd.rs:6-10 Composite *)
Record Composite : Type := mkComposite {
  image_width : Z; image_height : Z; image : list Pixel; bits : Z; icc : option (list Z) }.

Section Decode.
Context (inflate : Inflate).
(** The bytes of the planes and what precedes them. *)
(** @source src/src/media/psd.rs:105-182 decode *)
Definition sections (max_pixels max_allocation : Z) : reading (Header * option (list Z) * bool * list Z) :=
  let* h := header max_pixels max_allocation in
  let* _ := block in
  let* resources := block in
  let* found := lift (over resources (while_bytes (S (length resources)) profile_resource None)) in
  let icc := match found with inl icc => icc | inr _ => None end in
  let* layers := block in
  let* merged_alpha := (if bool_decide (length layers = 0%nat) then ret false else lift (over layers (layer_section layers))) in
  ensure (negb merged_alpha || (colors h <? channels h)) (says "PSD merged transparency channel missing") ;;;
  let* compression := u16 in
  let* data := planes inflate h compression in
  ret (h, icc, merged_alpha, data).
(** @source src/src/media/psd.rs:66-309 decode *)
Definition decode (b : list Z) (max_pixels max_allocation : Z) : result Error Composite :=
  let? s := (sections max_pixels max_allocation (mkReader b 0)).2 in
  let '(h, icc, merged_alpha, data) := s in
  let? image := pixels_from (Z.to_nat (width h * height h)) 0 (pixel h data merged_alpha) in
  Ok (mkComposite (width h) (height h) image (depth h) icc).
End Decode.
