(* ===== verification/PsdRows.v ===== *)
(** The rows of PSD planes: run-length coding is the code of a grammar, and undoing a
    prediction is the inverse of predicting. *)
From stdpp Require Import base tactics option list numbers strings.
From Stdlib Require Import ZArith Lia.
From S2P Require Import Prelude Bytes Psd.

Open Scope Z_scope.
Local Open Scope prog_scope.

(** ** Run-length coding *)

(** The code of a row: literal runs of one to 128 bytes, a byte repeated two to 128
    times, and bytes without meaning. *)
Inductive packed : list Z -> list Z -> Prop :=
| packed_nil : packed [] []
| packed_literal run code out :
    1 <= zlen run <= 128 -> packed code out -> packed ((zlen run - 1) :: run ++ code) (run ++ out)
| packed_repeat n b code out :
    2 <= n <= 128 -> packed code out -> packed ((257 - n) :: b :: code) (replicate (Z.to_nat n) b ++ out)
| packed_nothing code out : packed code out -> packed (128 :: code) out.

Lemma zlen_cons {A} (x : A) l : zlen (x :: l) = 1 + zlen l.
Proof. unfold zlen. simpl. lia. Qed.
Lemma zlen_replicate {A} n (x : A) : 0 <= n -> zlen (replicate (Z.to_nat n) x) = n.
Proof. intros H. unfold zlen. rewrite length_replicate. lia. Qed.
Lemma drop_at (row : list Z) i b rest : drop (Z.to_nat i) row = b :: rest -> 0 <= i ->
  row !! Z.to_nat i = Some b /\ i < zlen row /\ drop (Z.to_nat (i + 1)) row = rest.
Proof.
  intros H Hi. assert (row !! Z.to_nat i = Some b) as Hb by by rewrite <- (Nat.add_0_r (Z.to_nat i)), <- lookup_drop, H.
  split; [done|]. pose proof (lookup_lt_Some _ _ _ Hb). unfold zlen. split; [lia|].
  replace (Z.to_nat (i + 1)) with (Z.to_nat i + 1)%nat by lia. rewrite <- drop_drop, H. done.
Qed.
Lemma at_byte_Ok l i b : at_byte l i = Ok b <-> 0 <= i /\ l !! Z.to_nat i = Some b.
Proof.
  unfold at_byte. destruct (l !! Z.to_nat i); [|naive_solver]. destruct (Z.leb_spec 0 i); naive_solver lia.
Qed.
Lemma slice_drop (row : list Z) i n : 0 <= i -> 0 <= n -> slice i (i + n) row = firstn (Z.to_nat n) (drop (Z.to_nat i) row).
Proof. intros. unfold slice. by replace (i + n - i) with n by lia. Qed.
Lemma drop_plus (row : list Z) i n : 0 <= i -> 0 <= n -> drop (Z.to_nat (i + n)) row = drop (Z.to_nat n) (drop (Z.to_nat i) row).
Proof. intros. rewrite drop_drop. f_equal. lia. Qed.

Lemma rensure_Ok' {E A} b (e : E) (k : unit -> result E A) x : rbind (rensure b e) k = Ok x <-> b = true /\ k tt = Ok x.
Proof. destruct b; simpl; naive_solver. Qed.
(** One step of [unpack] by what is left of the row. *)
Definition continues (fuel : nat) (row : list Z) (row_bytes i : Z) (out piece : list Z) : result Error (list Z) :=
  let? _ := rensure (zlen out + zlen piece <=? row_bytes) (says "PSD RLE row overflow") in
  unpack fuel row row_bytes i (out ++ piece).
Lemma unpack_literal fuel row row_bytes i out run code :
  0 <= i -> 1 <= zlen run <= 128 -> drop (Z.to_nat i) row = (zlen run - 1) :: run ++ code ->
  unpack (S fuel) row row_bytes i out = continues fuel row row_bytes (i + 1 + zlen run) out run /\
  drop (Z.to_nat (i + 1 + zlen run)) row = code.
Proof.
  intros Hi Hr Hd. destruct (drop_at _ _ _ _ Hd Hi) as (Hb & Hlt & Hd'). assert (0 <= zlen run) as H0 by lia.
  split; [|rewrite drop_plus, Hd' by lia; unfold zlen; rewrite Nat2Z.id; apply drop_app_length].
  cbn [unpack]. apply Z.ltb_lt in Hlt as ->. rewrite (proj2 (at_byte_Ok _ _ _) (conj Hi Hb)). cbn [rbind].
  destruct (Z.ltb_spec (zlen run - 1) 128); [|lia]. destruct (Z.leb_spec 0 (zlen run - 1)); [|lia].
  replace (zlen run - 1 + 1) with (zlen run) by lia. unfold continues.
  destruct (rensure _ _) as [[]|]; [|done]. cbn [rbind].
  assert (i + 1 + zlen run <= zlen row) as Hfit.
  { assert (zlen (drop (Z.to_nat (i + 1)) row) = zlen run + zlen code) as Hl by (by rewrite Hd', zlen_app).
    unfold zlen in *. rewrite length_drop in Hl. lia. }
  destruct (Z.leb_spec (i + 1 + zlen run) (zlen row)); [|lia]. cbn [rbind rensure]. do 2 f_equal.
  rewrite slice_drop, Hd' by lia. unfold zlen. rewrite Nat2Z.id. by rewrite take_app_length.
Qed.
Lemma unpack_repeat fuel row row_bytes i out n b code :
  0 <= i -> 2 <= n <= 128 -> drop (Z.to_nat i) row = (257 - n) :: b :: code ->
  unpack (S fuel) row row_bytes i out = continues fuel row row_bytes (i + 2) out (replicate (Z.to_nat n) b) /\
  drop (Z.to_nat (i + 2)) row = code.
Proof.
  intros Hi Hn Hd. destruct (drop_at _ _ _ _ Hd Hi) as (Hb & Hlt & Hd').
  destruct (drop_at _ _ _ _ Hd' ltac:(lia)) as (Hb' & Hlt' & Hd''). replace (i + 1 + 1) with (i + 2) in * by lia.
  split; [|done]. cbn [unpack]. apply Z.ltb_lt in Hlt as ->. rewrite (proj2 (at_byte_Ok _ _ _) (conj Hi Hb)). cbn [rbind].
  destruct (Z.ltb_spec (257 - n) 128); [lia|]. destruct (Z.leb_spec 0 (257 - n - 256)); [lia|].
  destruct (Z.leb_spec (-127) (257 - n - 256)); [|lia]. replace (1 - (257 - n - 256)) with n by lia.
  unfold continues. rewrite zlen_replicate by lia. destruct (rensure _ _) as [[]|]; [|done]. cbn [rbind].
  rewrite Hb'. by replace (i + 1 + 1) with (i + 2) by lia.
Qed.
Lemma unpack_nothing fuel row row_bytes i out code :
  0 <= i -> drop (Z.to_nat i) row = 128 :: code ->
  unpack (S fuel) row row_bytes i out = unpack fuel row row_bytes (i + 1) out /\ drop (Z.to_nat (i + 1)) row = code.
Proof.
  intros Hi Hd. destruct (drop_at _ _ _ _ Hd Hi) as (Hb & Hlt & Hd'). split; [|done]. cbn [unpack].
  apply Z.ltb_lt in Hlt as ->. by rewrite (proj2 (at_byte_Ok _ _ _) (conj Hi Hb)).
Qed.
Lemma unpack_end fuel row row_bytes i out : 0 <= i -> drop (Z.to_nat i) row = [] -> unpack (S fuel) row row_bytes i out = Ok out.
Proof.
  intros Hi Hd. cbn [unpack]. destruct (Z.ltb_spec i (zlen row)) as [Hlt|]; [|done]. exfalso.
  assert (length (drop (Z.to_nat i) row) = 0%nat) as Hl by by rewrite Hd. rewrite length_drop in Hl. unfold zlen in Hlt. lia.
Qed.

(** What is coded is unpacked, when it fits. *)
Lemma unpack_packed fuel row row_bytes i out code rest :
  packed code rest -> 0 <= i -> drop (Z.to_nat i) row = code -> (length code < fuel)%nat ->
  zlen out + zlen rest <= row_bytes -> unpack fuel row row_bytes i out = Ok (out ++ rest).
Proof.
  intros Hp. revert fuel i out. induction Hp as [|run code rest Hr Hp IH|n b code rest Hn Hp IH|code rest Hp IH];
    intros [|fuel] i out Hi Hd Hf Hfit; simpl in Hf; try lia.
  - rewrite unpack_end by done. by rewrite app_nil_r.
  - destruct (unpack_literal fuel row row_bytes i out run code Hi Hr Hd) as [-> Hd']. rewrite zlen_app in Hfit.
    unfold continues. destruct (Z.leb_spec (zlen out + zlen run) row_bytes); [|pose proof (zlen_nonneg rest); lia]. cbn [rensure rbind].
    rewrite IH; [by rewrite <- app_assoc|lia|done|rewrite length_app in Hf; lia|rewrite zlen_app; lia].
  - destruct (unpack_repeat fuel row row_bytes i out n b code Hi Hn Hd) as [-> Hd']. rewrite zlen_app, zlen_replicate in Hfit by lia.
    unfold continues. rewrite zlen_replicate by lia.
    destruct (Z.leb_spec (zlen out + n) row_bytes); [|pose proof (zlen_nonneg rest); lia]. cbn [rensure rbind].
    rewrite IH; [by rewrite <- app_assoc|lia|done|lia|rewrite zlen_app, zlen_replicate; lia].
  - destruct (unpack_nothing fuel row row_bytes i out code Hi Hd) as [-> Hd']. apply IH; [lia|done|lia|lia].
Qed.

Definition clean (e : Error) : Prop := match e with Panic _ => False | Failure _ => True end.
Lemma unpack_inv fuel row row_bytes i out : well_formed row -> 0 <= i -> (length (drop (Z.to_nat i) row) < fuel)%nat ->
  match unpack fuel row row_bytes i out with
  | Ok r => exists rest, packed (drop (Z.to_nat i) row) rest /\ r = out ++ rest
  | Err e => clean e
  end.
Proof.
  intros Hw. revert i out. induction fuel as [|fuel IH]; intros i out Hi Hf; [lia|].
  destruct (drop (Z.to_nat i) row) as [|b code] eqn:Hd.
  { rewrite unpack_end by done. exists []. split; [constructor|by rewrite app_nil_r]. }
  destruct (drop_at _ _ _ _ Hd Hi) as (Hb & Hlt & Hd'). simpl in Hf.
  pose proof (Forall_lookup_1 _ _ _ _ Hw Hb) as Hbyte. unfold is_byte in Hbyte.
  destruct (Z.lt_trichotomy b 128) as [Hc|[->|Hc]].
  - destruct (Z.le_gt_cases (b + 1) (zlen code)) as [Hfit|Hshort].
    + set (run := firstn (Z.to_nat (b + 1)) code). assert (zlen run = b + 1) as Hrun.
      { unfold run, zlen in *. rewrite length_take. lia. }
      assert (code = run ++ drop (Z.to_nat (b + 1)) code) as Hcode by (unfold run; by rewrite take_drop).
      destruct (unpack_literal fuel row row_bytes i out run (drop (Z.to_nat (b + 1)) code) Hi ltac:(lia)) as [-> Hd2].
      { rewrite <- Hcode, Hd. f_equal. lia. }
      unfold continues. destruct (Z.leb_spec (zlen out + zlen run) row_bytes); [|done]. cbn [rensure rbind].
      specialize (IH (i + 1 + zlen run) (out ++ run) ltac:(lia)). rewrite Hd2, length_drop in IH. specialize (IH ltac:(lia)).
      destruct (unpack fuel row row_bytes _ _) as [r|e]; [|done]. destruct IH as (rest & Hp & ->).
      exists (run ++ rest). split; [|by rewrite app_assoc]. 
      assert (b :: code = (zlen run - 1) :: run ++ drop (Z.to_nat (b + 1)) code) as -> by (rewrite <- Hcode; f_equal; lia).
      apply packed_literal; [lia|done].
    + cbn [unpack]. apply Z.ltb_lt in Hlt as ->. rewrite (proj2 (at_byte_Ok _ _ _) (conj Hi Hb)). cbn [rbind].
      destruct (Z.ltb_spec b 128); [|lia]. destruct (Z.leb_spec 0 b); [|lia].
      destruct (rensure (zlen out + (b + 1) <=? row_bytes) _) as [[]|e] eqn:Hr; [|by unfold rensure in Hr; destruct (_ <=? _); simplify_eq].
      cbn [rbind]. destruct (Z.leb_spec (i + 1 + (b + 1)) (zlen row)) as [Hle|]; [|done]. exfalso.
      assert (length code = length (drop (Z.to_nat (i + 1)) row)) as Hl by by rewrite Hd'. rewrite length_drop in Hl.
      unfold zlen in *. lia.
  - destruct (unpack_nothing fuel row row_bytes i out code Hi Hd) as [-> Hd2]. specialize (IH (i + 1) out ltac:(lia)).
    rewrite Hd2 in IH. specialize (IH ltac:(lia)). destruct (unpack fuel row row_bytes _ _) as [r|e]; [|done].
    destruct IH as (rest & Hp & ->). exists rest. by split; [constructor|].
  - destruct code as [|v code].
    + cbn [unpack]. apply Z.ltb_lt in Hlt as ->. rewrite (proj2 (at_byte_Ok _ _ _) (conj Hi Hb)). cbn [rbind].
      destruct (Z.ltb_spec b 128); [lia|]. destruct (Z.leb_spec 0 (b - 256)); [lia|]. destruct (Z.leb_spec (-127) (b - 256)); [|lia].
      destruct (rensure _ _) as [[]|e] eqn:Hr; [|by unfold rensure in Hr; destruct (_ <=? _); simplify_eq]. cbn [rbind].
      destruct (row !! Z.to_nat (i + 1)) as [v|] eqn:Hv; [|done]. exfalso.
      apply lookup_lt_Some in Hv. assert (length (drop (Z.to_nat (i + 1)) row) = 0%nat) as Hl by by rewrite Hd'.
      rewrite length_drop in Hl. lia.
    + destruct (unpack_repeat fuel row row_bytes i out (257 - b) v code Hi ltac:(lia)) as [-> Hd2]; [by rewrite Hd; f_equal; lia|].
      unfold continues. destruct (Z.leb_spec (zlen out + zlen (replicate (Z.to_nat (257 - b)) v)) row_bytes); [|done]. cbn [rensure rbind].
      specialize (IH (i + 2) (out ++ replicate (Z.to_nat (257 - b)) v) ltac:(lia)). rewrite Hd2 in IH. simpl in Hf. specialize (IH ltac:(lia)).
      destruct (unpack fuel row row_bytes _ _) as [r|e]; [|done]. destruct IH as (rest & Hp & ->).
      exists (replicate (Z.to_nat (257 - b)) v ++ rest). split; [|by rewrite app_assoc].
      assert (b :: v :: code = (257 - (257 - b)) :: v :: code) as -> by (f_equal; lia). apply packed_repeat; [lia|done].
Qed.
Lemma unpack_row_Ok row row_bytes out : well_formed row ->
  unpack_row row row_bytes = Ok out <-> packed row out /\ zlen out = row_bytes.
Proof.
  intros Hw. unfold unpack_row. split.
  - intros (o & Ho & [Hl [= <-]]%rensure_Ok')%rbind_Ok. apply Z.eqb_eq in Hl. split; [|done].
    pose proof (unpack_inv (S (length row)) row row_bytes 0 [] Hw ltac:(lia) (Nat.lt_succ_diag_r _)) as H. rewrite Ho in H.
    destruct H as (rest & Hp & ->). done.
  - intros [Hp Hl]. rewrite (unpack_packed (S (length row)) row row_bytes 0 [] row out Hp); [|lia|done|lia|rewrite Hl; unfold zlen; simpl; lia].
    simpl. by rewrite (proj2 (Z.eqb_eq _ _) Hl).
Qed.
Lemma unpack_row_clean row row_bytes e : well_formed row -> unpack_row row row_bytes = Err e -> clean e.
Proof.
  intros Hw. unfold unpack_row. pose proof (unpack_inv (S (length row)) row row_bytes 0 [] Hw ltac:(lia) (Nat.lt_succ_diag_r _)) as H.
  destruct (unpack _ _ _ _ _) as [r|e']; simpl; [|by intros [= <-]]. destruct (zlen r =? row_bytes); simpl; [done|by intros [= <-]].
Qed.

(** ** Prediction *)

(** Running sums and differences modulo [m]. *)
Fixpoint sums (m p : Z) (l : list Z) : list Z :=
  match l with
  | [] => []
  | b :: l => let s := (b + p) mod m in s :: sums m s l
  end.
Fixpoint differences (m p : Z) (l : list Z) : list Z :=
  match l with
  | [] => []
  | b :: l => (b - p) mod m :: differences m b l
  end.
Definition total_sums (m : Z) (l : list Z) : list Z := match l with [] => [] | b :: l => b :: sums m b l end.
Definition total_differences (m : Z) (l : list Z) : list Z := match l with [] => [] | b :: l => b :: differences m b l end.
Lemma sums_differences m p l : 0 < m -> Forall (fun b => 0 <= b < m) l -> sums m p (differences m p l) = l.
Proof.
  intros Hm Hl. revert p. induction Hl as [|b l Hb _ IH]; intros p; simpl; [done|].
  assert (((b - p) mod m + p) mod m = b) as ->.
  { rewrite Zplus_mod_idemp_l. replace (b - p + p) with b by lia. by apply Z.mod_small. }
  by rewrite IH.
Qed.
Lemma total_sums_differences m l : 0 < m -> Forall (fun b => 0 <= b < m) l -> total_sums m (total_differences m l) = l.
Proof. intros Hm Hl. destruct l as [|b l]; [done|]. simpl. f_equal. apply sums_differences; [done|]. by apply Forall_cons in Hl as [_ ?]. Qed.
Lemma sums_length m p l : length (sums m p l) = length l.
Proof. revert p. induction l as [|b l IH]; intros p; simpl; [done|]. by rewrite IH. Qed.
Lemma differences_length m p l : length (differences m p l) = length l.
Proof. revert p. induction l as [|b l IH]; intros p; simpl; [done|]. by rewrite IH. Qed.

Lemma at_byte_app pre b rest i : i = zlen pre -> at_byte (pre ++ b :: rest) i = Ok b.
Proof. intros ->. apply at_byte_Ok. split; [apply zlen_nonneg|]. unfold zlen. rewrite Nat2Z.id. by apply list_lookup_middle. Qed.
Lemma update_app pre b rest i c : i = zlen pre -> update (pre ++ b :: rest) i c = Ok (pre ++ c :: rest).
Proof.
  intros ->. unfold update. rewrite at_byte_app by done. simpl. f_equal. unfold zlen. rewrite Nat2Z.id.
  by rewrite insert_app_r_alt, Nat.sub_diag by lia.
Qed.
(** The loop over the bytes of a row computes their running sums. *)
Lemma undo_bytes pre p rest :
  for_range (length rest) (zlen pre + 1) undo_byte (pre ++ p :: rest) = Ok (pre ++ p :: sums 256 p rest).
Proof.
  revert pre p. induction rest as [|b rest IH]; intros pre p; [done|]. cbn [length for_range sums].
  unfold undo_byte at 1. replace (zlen pre + 1 - 1) with (zlen pre) by lia.
  rewrite (at_byte_app pre p _ (zlen pre)) by done.
  replace (pre ++ p :: b :: rest) with ((pre ++ [p]) ++ b :: rest) by by rewrite <- app_assoc.
  rewrite (at_byte_app (pre ++ [p]) b) by (rewrite zlen_app; unfold zlen; simpl; lia). cbn [rbind].
  rewrite (update_app (pre ++ [p]) b) by (rewrite zlen_app; unfold zlen; simpl; lia). cbn [rbind].
  replace (zlen pre + 1 + 1) with (zlen (pre ++ [p]) + 1) by (rewrite zlen_app; unfold zlen; simpl; lia).
  rewrite IH. by rewrite <- app_assoc.
Qed.
Lemma undo_bytes_row row : for_range (Z.to_nat (zlen row - 1)) 1 undo_byte row = Ok (total_sums 256 row).
Proof.
  destruct row as [|p rest]; [done|]. replace (Z.to_nat (zlen (p :: rest) - 1)) with (length rest) by (unfold zlen; simpl; lia).
  apply (undo_bytes [] p rest).
Qed.

Lemma for_range_S n i f row : for_range (S n) i f row = (let? row := f i row in for_range n (i + 1) f row).
Proof. done. Qed.

(** Words of two bytes. *)
Definition word (w : Z) : list Z := [w / 256; w mod 256].
Definition word_bytes (ws : list Z) : list Z := flat_map word ws.
Lemma be_uint_word a b : be_uint [a; b] = a * 256 + b.
Proof. unfold be_uint. simpl. lia. Qed.
Lemma be_uint_of_word w : 0 <= w -> be_uint (word w) = w.
Proof. intros H. unfold word. rewrite be_uint_word. pose proof (Z.div_mod w 256). lia. Qed.
Lemma sizes_word_bytes ws : Forall (fun w => 0 <= w) ws -> sizes (word_bytes ws) = ws.
Proof. induction 1 as [|w ws Hw _ IH]; [done|]. cbn [word_bytes flat_map word app sizes]. f_equal; [by apply be_uint_of_word|done]. Qed.
Lemma zlen_word_bytes ws : zlen (word_bytes ws) = 2 * zlen ws.
Proof. induction ws as [|w ws IH]; [done|]. cbn [word_bytes flat_map word app]. rewrite !zlen_cons. fold (word_bytes ws). lia. Qed.
Lemma word_bytes_app ws vs : word_bytes (ws ++ vs) = word_bytes ws ++ word_bytes vs.
Proof. apply flat_map_app. Qed.
Lemma undo_words pre p rest : Forall (fun w => 0 <= w < 65536) (p :: rest) ->
  for_range (length rest) (zlen pre + 1) undo_word (word_bytes (pre ++ p :: rest)) = Ok (word_bytes (pre ++ p :: sums 65536 p rest)).
Proof.
  revert pre p. induction rest as [|b rest IH]; intros pre p Hall; [done|]. cbn [length for_range sums].
  apply Forall_cons in Hall as [Hp Hall]. apply Forall_cons in Hall as [Hb Hall].
  set (s := (b + p) mod 65536). assert (0 <= s < 65536) as Hs by (apply Z.mod_pos_bound; lia).
  assert (undo_word (zlen pre + 1) (word_bytes (pre ++ p :: b :: rest)) = Ok (word_bytes (pre ++ p :: s :: rest))) as ->.
  { rewrite !word_bytes_app. cbn [word_bytes flat_map word app]. fold (word_bytes rest).
    pose proof (zlen_word_bytes pre) as Hl. unfold undo_word. replace (zlen pre + 1 - 1) with (zlen pre) by lia.
    rewrite (at_byte_app (word_bytes pre) _ _ (zlen pre * 2)) by lia.
    assert (forall x y z t, word_bytes pre ++ x :: y :: z :: t = (word_bytes pre ++ [x]) ++ y :: z :: t) as H1 by (intros; by rewrite <- app_assoc).
    assert (forall x y z t, word_bytes pre ++ x :: y :: z :: t = (word_bytes pre ++ [x; y]) ++ z :: t) as H2 by (intros; by rewrite <- app_assoc).
    assert (forall x y z u t, word_bytes pre ++ x :: y :: z :: u :: t = (word_bytes pre ++ [x; y; z]) ++ u :: t) as H3 by (intros; by rewrite <- app_assoc).
    rewrite H1, at_byte_app by (rewrite zlen_app; unfold zlen in *; simpl; lia). rewrite <- H1.
    rewrite H2, at_byte_app by (rewrite zlen_app; unfold zlen in *; simpl; lia). rewrite <- H2.
    rewrite H3, at_byte_app by (rewrite zlen_app; unfold zlen in *; simpl; lia). rewrite <- H3. cbn [rbind].
    change [b / 256; b mod 256] with (word b). change [p / 256; p mod 256] with (word p). rewrite !be_uint_of_word by lia. fold s.
    rewrite H2, update_app by (rewrite zlen_app; unfold zlen in *; simpl; lia). cbn [rbind]. rewrite <- H2.
    rewrite H3, update_app by (rewrite zlen_app; unfold zlen in *; simpl; lia). by rewrite <- H3. }
  cbn [rbind]. replace (pre ++ p :: s :: rest) with ((pre ++ [p]) ++ s :: rest) by by rewrite <- app_assoc.
  replace (zlen pre + 1 + 1) with (zlen (pre ++ [p]) + 1) by (rewrite zlen_app; unfold zlen; simpl; lia).
  rewrite IH by by constructor. by rewrite <- app_assoc.
Qed.
Lemma undo_words_row ws width : Forall (fun w => 0 <= w < 65536) ws -> zlen ws = width ->
  for_range (Z.to_nat (width - 1)) 1 undo_word (word_bytes ws) = Ok (word_bytes (total_sums 65536 ws)).
Proof.
  intros Hw <-. destruct ws as [|p rest]; [done|]. replace (Z.to_nat (zlen (p :: rest) - 1)) with (length rest) by (unfold zlen; simpl; lia).
  by apply (undo_words [] p rest).
Qed.

(** Four planes of bytes. *)
Lemma merge_byte_run source width x b row v :
  0 <= b * width + x -> source !! Z.to_nat (b * width + x) = Some v -> 0 <= x * 4 + b < zlen row ->
  merge_byte source width x b row = Ok (<[Z.to_nat (x * 4 + b) := v]> row).
Proof.
  intros H0 Hv Hi. unfold merge_byte. rewrite (proj2 (at_byte_Ok _ _ _) (conj H0 Hv)). cbn [rbind]. unfold update.
  assert (exists c, row !! Z.to_nat (x * 4 + b) = Some c) as [c Hc] by (apply lookup_lt_is_Some; unfold zlen in Hi; lia).
  rewrite (proj2 (at_byte_Ok _ _ c)) by (split; [lia|done]). done.
Qed.
(** The index a byte of the merged row comes from. *)
Definition plane_index (width i : Z) : nat := Z.to_nat (i mod 4 * width + i / 4).
Definition merged_until (source : list Z) (width k : Z) (row : list Z) : Prop :=
  length row = length source /\ forall i, 0 <= i < k -> row !! Z.to_nat i = source !! plane_index width i.
Lemma merge_byte_step source width x b row :
  zlen source = 4 * width -> 0 <= x < width -> 0 <= b < 4 -> merged_until source width (x * 4 + b) row ->
  exists row', merge_byte source width x b row = Ok row' /\ merged_until source width (x * 4 + b + 1) row'.
Proof.
  intros Hs Hx Hb [Hl Hm]. unfold zlen in Hs.
  assert (exists v, source !! Z.to_nat (b * width + x) = Some v) as [v Hv] by (apply lookup_lt_is_Some; nia).
  exists (<[Z.to_nat (x * 4 + b) := v]> row). split; [apply merge_byte_run; [nia|done|unfold zlen; lia]|].
  split; [by rewrite length_insert|]. intros i Hi. destruct (decide (i = x * 4 + b)) as [->|Hne].
  - rewrite list_lookup_insert_eq by lia. unfold plane_index.
    replace ((x * 4 + b) mod 4) with b by (symmetry; rewrite Z.add_comm, Z.mod_add by lia; apply Z.mod_small; lia).
    replace ((x * 4 + b) / 4) with x by (symmetry; rewrite Z.add_comm, Z.div_add by lia; rewrite Z.div_small by lia; lia). done.
  - rewrite list_lookup_insert_ne by lia. apply Hm. lia.
Qed.
Lemma merge_word_step source width x n row :
  zlen source = 4 * width -> 0 <= x < width -> (n <= 4)%nat -> merged_until source width (x * 4 + (4 - Z.of_nat n)) row ->
  exists row', for_range n (4 - Z.of_nat n) (fun b row => merge_byte source width x b row) row = Ok row' /\
    merged_until source width (x * 4 + 4) row'.
Proof.
  intros Hs Hx. revert row. induction n as [|n IH]; intros row Hn Hm.
  - exists row. split; [done|]. by replace (x * 4 + 4) with (x * 4 + (4 - Z.of_nat 0)) by lia.
  - cbn [for_range]. destruct (merge_byte_step source width x (4 - Z.of_nat (S n)) row Hs Hx ltac:(lia) Hm) as (row' & -> & Hm').
    cbn [rbind]. replace (4 - Z.of_nat (S n) + 1) with (4 - Z.of_nat n) by lia. apply IH; [lia|].
    by replace (x * 4 + (4 - Z.of_nat n)) with (x * 4 + (4 - Z.of_nat (S n)) + 1) by lia.
Qed.
Lemma merge_words_run source width : zlen source = 4 * width -> 0 <= width ->
  exists row, merge_words width source = Ok row /\ merged_until source width (4 * width) row.
Proof.
  intros Hs Hw. unfold merge_words.
  enough (forall n x row, x + Z.of_nat n = width -> 0 <= x -> merged_until source width (x * 4) row ->
    exists row', for_range n x (fun x row => for_range 4 0 (fun b row => merge_byte source width x b row) row) row = Ok row' /\
      merged_until source width (4 * width) row') as H.
  { apply (H (Z.to_nat width) 0); [lia|done|]. split; [done|]. intros i Hi. lia. }
  induction n as [|n IH]; intros x row Hx H0 Hm.
  - exists row. split; [done|]. by replace (4 * width) with (x * 4) by lia.
  - rewrite for_range_S. destruct (merge_word_step source width x 4 row Hs ltac:(lia) ltac:(lia)) as (row' & Hr & Hm').
    { by replace (x * 4 + (4 - Z.of_nat 4)) with (x * 4) by lia. }
    change (4 - Z.of_nat 4) with 0 in Hr. cbv beta. rewrite Hr. cbn [rbind]. apply IH; [lia|lia|]. by replace ((x + 1) * 4) with (x * 4 + 4) by lia.
Qed.
(** A row of 32-bit samples by its planes. *)
Definition split_words (width : Z) (row : list Z) : list Z :=
  flat_map (fun b => map (fun x => nth (4 * x + b) row 0) (seq 0 (Z.to_nat width))) [0; 1; 2; 3]%nat.
Lemma split_words_length width row : 0 <= width -> zlen (split_words width row) = 4 * width.
Proof. intros H. unfold split_words, zlen. simpl. rewrite !length_app, !length_map, !length_seq. simpl. lia. Qed.
Lemma split_words_lookup width row x b : 0 <= x < width -> 0 <= b < 4 -> zlen row = 4 * width ->
  split_words width row !! Z.to_nat (b * width + x) = row !! Z.to_nat (4 * x + b).
Proof.
  intros Hx Hb Hl. unfold zlen in Hl. set (w := Z.to_nat width).
  assert (forall k, map (fun x => nth (4 * x + k) row 0) (seq 0 w) !! Z.to_nat x = Some (nth (4 * Z.to_nat x + k) row 0)) as Hp.
  { intros k. rewrite list_lookup_fmap, lookup_seq_lt by lia. done. }
  assert (forall k, (k < 4)%nat -> row !! (4 * Z.to_nat x + k)%nat = Some (nth (4 * Z.to_nat x + k) row 0)) as Hn.
  { intros k Hk. destruct (lookup_lt_is_Some_2 row (4 * Z.to_nat x + k)) as [v Hv]; [lia|]. by rewrite nth_lookup, Hv. }
  assert (forall k, length (map (fun x => nth (4 * x + k) row 0) (seq 0 w)) = w) as Hlen by (intros; by rewrite length_map, length_seq).
  replace (Z.to_nat (4 * x + b)) with (4 * Z.to_nat x + Z.to_nat b)%nat by lia.
  replace (Z.to_nat (b * width + x)) with (Z.to_nat b * w + Z.to_nat x)%nat by nia.
  rewrite Hn by lia. rewrite <- Hp. unfold split_words. fold w. cbn [flat_map].
  assert (b = 0 \/ b = 1 \/ b = 2 \/ b = 3) as [->|[->|[->| ->]]] by lia; cbn [Z.to_nat Pos.to_nat Pos.iter_op Nat.add].
  - rewrite lookup_app_l by (rewrite Hlen; lia). f_equal.
  - rewrite lookup_app_r by (rewrite Hlen; lia). rewrite lookup_app_l by (rewrite !Hlen; lia). f_equal. rewrite Hlen. lia.
  - do 2 rewrite lookup_app_r by (rewrite !Hlen; lia). rewrite lookup_app_l by (rewrite !Hlen; lia). f_equal. rewrite !Hlen. lia.
  - do 3 rewrite lookup_app_r by (rewrite !Hlen; lia). rewrite lookup_app_l by (rewrite !Hlen; lia). f_equal. rewrite !Hlen. lia.
Qed.
Lemma merge_split_words width row : 0 <= width -> zlen row = 4 * width -> merge_words width (split_words width row) = Ok row.
Proof.
  intros Hw Hl. pose proof (split_words_length width row Hw) as Hs.
  destruct (merge_words_run (split_words width row) width Hs Hw) as (r & -> & Hr & Hm). f_equal. apply list_eq. intros i.
  unfold zlen in *. destruct (decide (Z.of_nat i < 4 * width)) as [Hi|Hi].
  - specialize (Hm (Z.of_nat i) ltac:(lia)). rewrite Nat2Z.id in Hm. rewrite Hm. unfold plane_index.
    pose proof (Z.div_mod (Z.of_nat i) 4 ltac:(lia)) as Hd. pose proof (Z.mod_pos_bound (Z.of_nat i) 4 ltac:(lia)) as Hb.
    rewrite split_words_lookup by (unfold zlen; lia). f_equal. lia.
  - rewrite !lookup_ge_None_2; [done|lia..].
Qed.

(** What is predicted, as a writer does it. *)
Definition predict (depth width : Z) (row : list Z) : list Z :=
  if depth =? 16 then word_bytes (total_differences 65536 (sizes row))
  else total_differences 256 (if depth =? 32 then split_words width row else row).
