(* ===== verification/PsdTheorems.v ===== *)
(** What the reader of PSD composites guarantees: rows are what their code says,
    prediction is undone, and every input ends in a bounded image or an error. *)
From stdpp Require Import base tactics option list numbers strings.
From Stdlib Require Import ZArith Lia SpecFloat.
From S2P Require Import Prelude Bytes Psd PsdRows.

Open Scope Z_scope.
Local Open Scope prog_scope.

(** ** Readings

    [walks n k m Q]: over at most [n] bytes, [m] leaves the bytes alone, moves forward
    by [k] or more and returns a [Q], or fails without a panic. *)
Definition walks {A} (n : nat) (k : Z) (m : reading A) (Q : A -> Prop) : Prop :=
  forall r, well_formed (bytes r) -> 0 <= offset r <= zlen (bytes r) -> (length (bytes r) <= n)%nat ->
    match m r with
    | (r', Ok a) => bytes r' = bytes r /\ offset r + k <= offset r' <= zlen (bytes r) /\ Q a
    | (_, Err e) => clean e
    end.
(** The same for a computation without a cursor. *)
Definition settles {A} (r : result Error A) (Q : A -> Prop) : Prop :=
  match r with Ok a => Q a | Err e => clean e end.

Section Walks.
Context {n : nat}.
Lemma walks_ret {A} (a : A) (Q : A -> Prop) : Q a -> walks n 0 (ret a) Q.
Proof. intros H r _ Ho _. simpl. repeat split; (done || lia). Qed.
Lemma walks_fail {A} k m (Q : A -> Prop) : walks n k (fail (says m)) Q.
Proof. by intros r _ _ _. Qed.
Lemma walks_bind {A B} j k (m : reading A) (f : A -> reading B) Q R :
  0 <= j -> walks n j m Q -> (forall a, Q a -> walks n k (f a) R) -> walks n (j + k) (bind m f) R.
Proof.
  intros Hj Hm Hf r Hr Ho Hn. unfold bind. specialize (Hm r Hr Ho Hn). destruct (m r) as [r' [a|e]]; [|done].
  destruct Hm as (Hb & Hk & Ha). specialize (Hf a Ha r'). rewrite Hb in Hf. specialize (Hf Hr ltac:(lia) Hn).
  destruct (f a r') as [r'' [b|e]]; [|done]. destruct Hf as (-> & Hk' & Hb'). repeat split; (done || lia).
Qed.
Lemma walks_weaken {A} j k (m : reading A) (Q R : A -> Prop) :
  walks n j m Q -> k <= j -> (forall a, Q a -> R a) -> walks n k m R.
Proof.
  intros Hm Hk HQ r Hr Ho Hn. specialize (Hm r Hr Ho Hn). destruct (m r) as [r' [a|e]]; [|done].
  destruct Hm as (-> & ? & ?). repeat split; auto; lia.
Qed.
Lemma walks_ensure b m : walks n 0 (ensure b (says m)) (fun _ => b = true).
Proof. destruct b; [by apply walks_ret|apply walks_fail]. Qed.
Lemma walks_of_option {A} (o : option A) m : walks n 0 (of_option o (says m)) (fun a => o = Some a).
Proof. destruct o; [by apply walks_ret|apply walks_fail]. Qed.
Lemma walks_lift {A} (x : result Error A) Q : settles x Q -> walks n 0 (lift x) Q.
Proof. intros H r _ Ho _. destruct x; simpl; [repeat split; (done || lia)|done]. Qed.
Lemma walks_get : walks n 0 get (fun r => well_formed (bytes r) /\ 0 <= offset r <= zlen (bytes r)).
Proof. intros r Hr Ho _. simpl. repeat split; (done || lia). Qed.
Lemma walks_take k : 0 <= k -> walks n k (take k) (fun b => zlen b = k /\ well_formed b).
Proof.
  intros Hk r Hr Ho _. unfold take. run. destruct (checked_add (offset r) k) as [stop|] eqn:Hs; [|done].
  apply checked_add_Some in Hs as [-> _]. destruct ((_ <=? _) && _) eqn:Hb; [|done]. simpl.
  repeat split; [lia|lia|unfold slice, zlen in *; rewrite length_take, length_drop; lia|].
  apply Forall_take, Forall_drop, Hr.
Qed.
(** A turn of a loop moves forward when the loop goes on. *)
Definition strides {A B} (m : reading (A + B)) (Q : A + B -> Prop) : Prop :=
  forall r, well_formed (bytes r) -> 0 <= offset r <= zlen (bytes r) -> (length (bytes r) <= n)%nat ->
    match m r with
    | (r', Ok s) => bytes r' = bytes r /\ offset r + (if s then 1 else 0) <= offset r' <= zlen (bytes r) /\ Q s
    | (_, Err e) => clean e
    end.
Lemma strides_walks {A B} (m : reading (A + B)) Q : walks n 1 m Q -> strides m Q.
Proof.
  intros Hm r Hr Ho Hn. specialize (Hm r Hr Ho Hn). destruct (m r) as [r' [s|e]]; [|done].
  destruct Hm as (? & ? & ?). repeat split; (done || destruct s; lia).
Qed.
Lemma strides_weaken {A B} (m : reading (A + B)) (Q R : A + B -> Prop) : strides m Q -> (forall s, Q s -> R s) -> strides m R.
Proof. intros Hm HQ r Hr Ho Hn. specialize (Hm r Hr Ho Hn). destruct (m r) as [r' [s|e]]; naive_solver. Qed.
Lemma walks_while {A B} fuel (body : A -> reading (A + B)) a I J :
  (n < fuel)%nat -> I a ->
  (forall a, I a -> strides (body a) (fun s => match s with inl a => I a | inr b => J b end)) ->
  walks n 0 (while_bytes fuel body a) (fun s => match s with inl a => I a | inr b => J b end).
Proof.
  intros Hf Ha Hbody r Hr Ho Hn. assert (length (bytes r) - Z.to_nat (offset r) < fuel)%nat as Hm by lia. clear Hf.
  revert a r Ha Hr Ho Hn Hm. induction fuel as [|fuel IH]; intros a r Ha Hr Ho Hn Hm; [lia|].
  cbn [while_bytes]. run. destruct (Z.ltb_spec (offset r) (zlen (bytes r))) as [Hlt|_]; [|simpl; repeat split; (done || lia)].
  unfold bind. specialize (Hbody a Ha r Hr Ho Hn) as Hb. destruct (body a r) as [r' [[a'|b]|e]]; [| |done].
  - destruct Hb as (Hbytes & Hk & Ha'). specialize (IH a' r' Ha'). rewrite Hbytes in IH. unfold zlen in Hlt.
    specialize (IH Hr ltac:(lia) Hn ltac:(lia)). destruct (while_bytes fuel body a' r') as [r'' [s|e]]; [|done].
    destruct IH as (-> & ? & ?). repeat split; (done || lia).
  - destruct Hb as (Hbytes & Hk & Hj). simpl. repeat split; (done || lia).
Qed.
End Walks.
Arguments strides n {A B} m Q.
Lemma walks_over {A} b k (m : reading A) Q : well_formed b -> walks (length b) k m Q -> settles (over b m) Q.
Proof.
  intros Hb Hm. unfold over, settles. specialize (Hm (mkReader b 0) Hb ltac:(pose proof (zlen_nonneg b); simpl; lia) ltac:(done)).
  destruct (m (mkReader b 0)) as [r' [a|e]]; simpl; [|done]. by destruct Hm as (_ & _ & ?).
Qed.

Definition is_u16 (x : Z) : Prop := 0 <= x < 65536.
Definition is_u32 (x : Z) : Prop := 0 <= x < 2 ^ 32.

Lemma at_byte_in l i : 0 <= i < zlen l -> exists b, at_byte l i = Ok b.
Proof.
  intros Hi. destruct (lookup_lt_is_Some_2 l (Z.to_nat i)) as [b Hb]; [unfold zlen in Hi; lia|].
  exists b. apply at_byte_Ok. split; [lia|done].
Qed.
Lemma prefix_in k l : 0 <= k <= zlen l -> prefix k l = Ok (slice 0 k l).
Proof. intros [H1 H2]. unfold prefix. by rewrite (proj2 (Z.leb_le _ _) H1), (proj2 (Z.leb_le _ _) H2). Qed.
Lemma suffix_in i l : 0 <= i <= zlen l -> suffix i l = Ok (slice i (zlen l) l).
Proof. intros [H1 H2]. unfold suffix. by rewrite (proj2 (Z.leb_le _ _) H1), (proj2 (Z.leb_le _ _) H2). Qed.
(** The guards before an index or a slice keep it in bounds. *)
Lemma at_byte_settles l i Q : 0 <= i < zlen l -> (forall b, l !! Z.to_nat i = Some b -> Q b) -> settles (at_byte l i) Q.
Proof. intros Hi HQ. destruct (at_byte_in l i Hi) as [b Hb]. rewrite Hb. apply at_byte_Ok in Hb as [_ Hb]. by apply HQ. Qed.
Lemma negative_count_settles data : 2 <= zlen data -> settles (negative_count data) (fun _ => True).
Proof. intros H. unfold negative_count. by rewrite prefix_in by lia. Qed.

Section Sections.
Context {n : nat}.
Lemma walks_u16 : walks n 2 u16 is_u16.
Proof.
  apply (walks_bind 2 0 _ _ _ _ ltac:(lia) (walks_take 2 ltac:(lia))). intros b [Hl Hb]. apply walks_ret.
  pose proof (be_uint_range b Hb) as H. rewrite Hl in H. exact H.
Qed.
Lemma walks_u32 : walks n 4 u32 is_u32.
Proof.
  apply (walks_bind 4 0 _ _ _ _ ltac:(lia) (walks_take 4 ltac:(lia))). intros b [Hl Hb]. apply walks_ret.
  pose proof (be_uint_range b Hb) as H. rewrite Hl in H. exact H.
Qed.
Lemma walks_block : walks n 4 block well_formed.
Proof.
  apply (walks_bind 4 0 _ _ _ _ ltac:(lia) walks_u32). intros k Hk.
  eapply walks_weaken; [apply walks_take; unfold is_u32 in Hk; lia|unfold is_u32 in Hk; lia|by intros b [_ Hb]].
Qed.
Lemma walks_byte : walks n 1 byte is_byte.
Proof.
  apply (walks_bind 1 0 _ _ _ _ ltac:(lia) (walks_take 1 ltac:(lia))). intros b [Hl Hb]. apply walks_lift.
  apply at_byte_settles; [lia|]. intros c Hc. by apply (Forall_lookup_1 _ _ _ _ Hb Hc).
Qed.
Lemma walks_skip k : 0 <= k -> walks n 0 (take k) (fun _ => True).
Proof. intros Hk. eapply walks_weaken; [by apply walks_take|lia|done]. Qed.
Lemma walks_seq {A B} k (m : reading A) (f : reading B) Q R :
  walks n 0 m Q -> walks n k f R -> walks n k (m ;;; f) R.
Proof. intros Hm Hf. replace k with (0 + k) by lia. eapply walks_bind; [lia|exact Hm|done]. Qed.
Lemma walks_then {A B} k (m : reading A) (f : A -> reading B) Q R :
  walks n 0 m Q -> (forall a, Q a -> walks n k (f a) R) -> walks n k (bind m f) R.
Proof. intros Hm Hf. replace k with (0 + k) by lia. eapply walks_bind; [lia|exact Hm|done]. Qed.
Lemma walks_first {A B} k (m : reading A) (f : A -> reading B) Q R :
  walks n k m Q -> 0 <= k -> (forall a, Q a -> walks n 0 (f a) R) -> walks n k (bind m f) R.
Proof. intros Hm Hk Hf. replace k with (k + 0) by lia. eapply walks_bind; [lia|exact Hm|done]. Qed.
Lemma walks_padded data : walks n 0 (padded data) (fun _ => True).
Proof. unfold padded. destruct (_ =? 0); [by apply walks_ret|apply walks_skip; lia]. Qed.
Lemma walks_loose {A} j (m : reading A) Q : walks n j m Q -> 0 <= j -> walks n 0 m Q.
Proof. intros H Hj. eapply walks_weaken; [exact H|lia|done]. Qed.
Lemma walks_resource m : walks n 1 (resource m) (fun p => well_formed p.2).
Proof.
  unfold resource. eapply walks_first; [eapply walks_weaken; [by apply (walks_take 4)|lia|done]|lia|]. intros s _.
  eapply walks_seq; [apply walks_ensure|]. eapply walks_then; [eapply walks_loose; [apply walks_u16|lia]|]. intros id _.
  eapply walks_then; [eapply walks_loose; [apply walks_byte|lia]|]. intros k Hk. unfold is_byte in Hk.
  eapply walks_seq; [apply (walks_skip k); lia|]. eapply walks_seq with (Q := fun _ => True).
  { destruct (_ =? 0); [by apply walks_ret|apply walks_skip; lia]. }
  eapply walks_then; [eapply walks_loose; [apply walks_block|lia]|]. intros data Hd. by apply walks_ret.
Qed.

(** The profile kept is a bounded one. *)
Definition profile_limit (icc : option (list Z)) : Prop :=
  match icc with Some data => zlen data <= 16 * 1024 * 1024 | None => True end.
Lemma walks_profile_resource icc : profile_limit icc ->
  walks n 1 (profile_resource icc) (fun s => match s with inl icc => profile_limit icc | inr _ => False end).
Proof.
  intros Hicc. unfold profile_resource. eapply walks_first; [apply walks_resource|lia|]. intros [id data] Hd.
  eapply walks_seq with (Q := fun _ => True).
  { destruct (id =? 1057); [|by apply walks_ret]. eapply walks_then; [apply walks_ensure|]. intros u Hl%Z.leb_le.
    eapply walks_then; [apply walks_lift, (at_byte_settles _ _ (fun _ => True)); [lia|done]|]. intros real _.
    eapply walks_weaken; [apply walks_ensure|lia|done]. }
  eapply walks_then with (Q := profile_limit).
  { destruct (id =? 1039); [|by apply walks_ret]. eapply walks_then; [apply walks_ensure|]. intros u Hl.
    apply walks_ret. simpl in *. by apply Z.leb_le in Hl. }
  intros icc' Hicc'. eapply walks_seq; [apply walks_padded|]. by apply walks_ret.
Qed.
Lemma walks_exif_resource : walks n 1 (exif_resource tt) (fun _ => True).
Proof.
  unfold exif_resource. eapply walks_first; [apply walks_resource|lia|]. intros [id data] Hd.
  destruct (_ || _); [by apply walks_ret|]. eapply walks_seq; [apply walks_padded|]. by apply walks_ret.
Qed.
Lemma strides_layer_block a : strides n (layer_block a) (fun _ => True).
Proof.
  intros r Hr Ho Hn. unfold layer_block. run. rewrite suffix_in by done. run.
  destruct ((_ <=? 3) && _); [simpl; repeat split; lia|].
  refine (strides_walks (n:=n) _ (fun _ => True) _ r Hr Ho Hn). clear r Hr Ho Hn.
  eapply walks_first; [eapply walks_weaken; [by apply (walks_take 4)|lia|done]|lia|]. intros s _.
  eapply walks_seq; [apply walks_ensure|]. eapply walks_then; [by apply (walks_skip 4)|]. intros key _.
  eapply walks_then; [eapply walks_loose; [apply walks_block|lia]|]. intros data _.
  eapply walks_then with (Q := fun _ => True).
  { destruct (is_key _ _); [|by apply walks_ret]. eapply walks_seq; [apply walks_ensure|]. by apply walks_ret. }
  intros b _. eapply walks_then with (Q := fun _ => True).
  { destruct (is_key _ _); [|by apply walks_ret]. eapply walks_then; [apply walks_ensure|]. intros u Hl%Z.leb_le.
    eapply walks_then; [by apply walks_lift, negative_count_settles|]. intros negative _. by apply walks_ret. }
  intros c _. eapply walks_seq; [apply walks_padded|]. by apply walks_ret.
Qed.
Lemma walks_layer_section layers : length layers = n -> walks n 0 (layer_section layers) (fun _ => True).
Proof.
  intros Hn. unfold layer_section. eapply walks_then; [eapply walks_loose; [apply walks_block|lia]|]. intros info _.
  eapply walks_then with (Q := fun _ => True).
  { destruct (bool_decide _); [by apply walks_ret|]. eapply walks_then; [apply walks_ensure|]. intros u Hl%Z.leb_le.
    by apply walks_lift, negative_count_settles. }
  intros a _. eapply walks_then; [apply walks_get|]. intros r _. eapply walks_seq with (Q := fun _ => True).
  { destruct (_ <? _); [|by apply walks_ret]. eapply walks_weaken; [apply walks_block|lia|done]. }
  eapply walks_then; [apply (walks_while _ _ _ (fun _ => True) (fun _ => True)); [lia|done|]|].
  - intros b _. eapply strides_weaken; [apply strides_layer_block|]. by intros [].
  - intros s _. by apply walks_ret.
Qed.
End Sections.

(** ** The header *)

(** What an admitted header says. *)
Record admitted (max_pixels max_allocation : Z) (h : Header) : Prop := {
  admitted_depth : depth h ∈ [8; 16; 32];
  admitted_mode : (mode h = 1 /\ colors h = 1) \/ (mode h = 3 /\ colors h = 3);
  admitted_channels : colors h <= channels h <= 56;
  admitted_sides : 0 < width h <= 40000 /\ 0 < height h <= 40000;
  admitted_plane : plane h = width h * height h * (depth h / 8);
  admitted_total : total h = plane h * channels h;
  admitted_pixels : width h * height h <= Z.min max_pixels 100000000;
  admitted_allocation : width h * height h * 16 <= max_allocation /\ total h <= max_allocation }.
Lemma walks_header n max_pixels max_allocation :
  walks n 0 (header max_pixels max_allocation) (admitted max_pixels max_allocation).
Proof.
  unfold header. eapply walks_then; [by apply (walks_skip 4)|]. intros s _.
  eapply walks_seq; [apply walks_ensure|]. eapply walks_then; [eapply walks_loose; [apply walks_u16|lia]|]. intros version _.
  eapply walks_seq; [apply walks_ensure|]. eapply walks_seq; [by apply (walks_skip 6)|].
  eapply walks_then; [eapply walks_loose; [apply walks_u16|lia]|]. intros channels Hch.
  eapply walks_then; [eapply walks_loose; [apply walks_u32|lia]|]. intros height Hh.
  eapply walks_then; [eapply walks_loose; [apply walks_u32|lia]|]. intros width Hw.
  eapply walks_then; [eapply walks_loose; [apply walks_u16|lia]|]. intros depth Hd.
  eapply walks_then; [eapply walks_loose; [apply walks_u16|lia]|]. intros mode Hm.
  eapply walks_then; [apply walks_ensure|]. intros [] H1. eapply walks_then; [apply walks_ensure|]. intros [] H2.
  eapply walks_then; [apply walks_ensure|]. intros [] H3. eapply walks_then; [apply walks_of_option|]. intros pixels H4.
  eapply walks_then; [apply walks_ensure|]. intros [] H5. eapply walks_then; [apply walks_ensure|]. intros [] H6.
  eapply walks_then; [apply walks_of_option|]. intros plane H7. eapply walks_then; [apply walks_of_option|]. intros total H8.
  eapply walks_then; [apply walks_ensure|]. intros [] H9. apply walks_ret.
  apply bool_decide_eq_true in H1, H2. apply checked_mul_Some in H4 as [-> _], H7 as [-> _], H8 as [-> _].
  unfold u64_max in *. split; simpl; [done| |lia|lia|done|done|lia|lia].
  apply elem_of_cons in H2 as [->|[->|[]%elem_of_nil]%elem_of_cons]; [left|right]; done.
Qed.
Lemma admitted_bps mp ma h : admitted mp ma h -> 1 <= depth h / 8 /\ plane h = height h * (width h * (depth h / 8)).
Proof.
  intros [Hd _ _ [Hw Hh] -> _ _ _]. assert (depth h / 8 = 1 \/ depth h / 8 = 2 \/ depth h / 8 = 4) as Hb.
  { apply elem_of_cons in Hd as [->|[->|[->|[]%elem_of_nil]%elem_of_cons]%elem_of_cons]; auto. }
  split; [lia|ring].
Qed.

(** ** The planes have the size announced *)

Lemma update_in l i b : 0 <= i < zlen l -> exists l', update l i b = Ok l' /\ zlen l' = zlen l.
Proof.
  intros Hi. unfold update. destruct (at_byte_in l i Hi) as [c ->]. simpl. eexists; split; [done|].
  unfold zlen. by rewrite length_insert.
Qed.
(** A loop whose turns succeed and keep the length succeeds. *)
Lemma for_range_keeps f k n i row :
  (forall j row, i <= j < i + Z.of_nat n -> zlen row = k -> exists row', f j row = Ok row' /\ zlen row' = k) ->
  zlen row = k -> exists row', for_range n i f row = Ok row' /\ zlen row' = k.
Proof.
  revert i row. induction n as [|n IH]; intros i row Hf Hk; [by exists row|]. rewrite for_range_S.
  destruct (Hf i row ltac:(lia) Hk) as (row' & -> & Hk'). cbn [rbind]. apply IH; [|done]. intros j r Hj. apply Hf. lia.
Qed.
Ltac at_index := match goal with |- context [at_byte ?l ?i] => destruct (at_byte_in l i ltac:(lia)) as [? ->]; cbn [rbind] end.
Lemma undo_word_keeps x width row : 1 <= x < width -> zlen row = 2 * width ->
  exists row', undo_word x row = Ok row' /\ zlen row' = 2 * width.
Proof.
  intros Hx Hl. unfold undo_word. do 4 at_index.
  match goal with |- context [update row (x * 2) ?v] => destruct (update_in row (x * 2) v ltac:(lia)) as (r1 & -> & H1) end. cbn [rbind].
  match goal with |- context [update r1 (x * 2 + 1) ?v] => destruct (update_in r1 (x * 2 + 1) v ltac:(lia)) as (r2 & -> & H2) end.
  exists r2. split; [done|lia].
Qed.
Lemma undo_byte_keeps x k row : 1 <= x < k -> zlen row = k -> exists row', undo_byte x row = Ok row' /\ zlen row' = k.
Proof.
  intros Hx Hl. unfold undo_byte. do 2 at_index.
  match goal with |- context [update row x ?v] => destruct (update_in row x v ltac:(lia)) as (r1 & -> & H1) end.
  exists r1. split; [done|lia].
Qed.
Lemma undo_row_keeps depth width row : depth ∈ [8; 16; 32] -> 0 < width -> zlen row = width * (depth / 8) ->
  exists row', undo_row depth width row = Ok row' /\ zlen row' = zlen row.
Proof.
  intros Hd Hw Hl. unfold undo_row. destruct (Z.eqb_spec depth 16) as [->|Hne].
  - change (16 / 8) with 2 in Hl. rewrite Hl. replace (width * 2) with (2 * width) by lia. apply for_range_keeps; [|lia].
    intros j r Hj Hr. apply undo_word_keeps; [lia|done].
  - destruct (for_range_keeps undo_byte (zlen row) (Z.to_nat (zlen row - 1)) 1 row) as (r & -> & Hr); [|done|].
    { intros j r Hj Hr. apply undo_byte_keeps; [lia|done]. }
    cbn [rbind]. destruct (Z.eqb_spec depth 32) as [->|_]; [|by exists r]. change (32 / 8) with 4 in Hl.
    destruct (merge_words_run r width ltac:(lia) ltac:(lia)) as (m & -> & Hm & _). exists m. split; [done|].
    unfold zlen in *. lia.
Qed.
Lemma undo_rows_keeps fuel depth width data :
  depth ∈ [8; 16; 32] -> 0 < width -> 0 < width * (depth / 8) -> (length data < fuel)%nat ->
  exists data', undo_rows fuel depth width (width * (depth / 8)) data = Ok data' /\ zlen data' = zlen data.
Proof.
  intros Hd Hw Hb. revert data. induction fuel as [|fuel IH]; intros data Hf; [lia|]. cbn [undo_rows].
  destruct (Z.ltb_spec (zlen data) (width * (depth / 8))) as [_|Hge]; [by exists data|]. set (rb := width * (depth / 8)) in *.
  assert (zlen (slice 0 rb data) = rb) as Hs by (rewrite slice_length; lia).
  destruct (undo_row_keeps depth width (slice 0 rb data) Hd Hw Hs) as (row & -> & Hr). cbn [rbind].
  assert (zlen (slice rb (zlen data) data) = zlen data - rb) as Hs' by (rewrite slice_length; lia).
  destruct (IH (slice rb (zlen data) data)) as (rest & -> & Hrest); [unfold zlen in *; lia|]. cbn [rbind].
  exists (row ++ rest). split; [done|]. rewrite zlen_app. lia.
Qed.
Lemma sizes_length table k : length table = (2 * k)%nat -> length (sizes table) = k.
Proof.
  revert table. induction k as [|k IH]; intros [|a [|b table]] Hl; simpl in *; try lia. by rewrite IH by lia.
Qed.
Lemma sizes_range table : well_formed table -> Forall (fun s => 0 <= s) (sizes table).
Proof.
  intros Hw. remember (length table) as k eqn:Hk. revert table Hw Hk.
  induction k as [k IH] using lt_wf_ind. intros [|a [|b table]] Hw Hk; [constructor..|].
  cbn [sizes]. apply Forall_cons in Hw as [Ha Hw]. apply Forall_cons in Hw as [Hb Hw]. constructor.
  - rewrite be_uint_word. unfold is_byte in *. lia.
  - apply (IH (length table)); [subst k; simpl; lia|done..].
Qed.
Section Planes.
Context {n : nat} (mp ma : Z).
Lemma walks_unpack_rows sizes row_bytes : Forall (fun s => 0 <= s) sizes ->
  walks n 0 (unpack_rows sizes row_bytes) (fun out => zlen out = zlen sizes * row_bytes).
Proof.
  induction 1 as [|size sizes Hs _ IH]; cbn [unpack_rows]; [by apply walks_ret|].
  eapply walks_then; [eapply walks_loose; [by apply walks_take|lia]|]. intros row [_ Hrow].
  eapply walks_then with (Q := fun out => zlen out = row_bytes).
  { apply walks_lift. destruct (unpack_row row row_bytes) as [out|e] eqn:Hu; simpl.
    - by apply unpack_row_Ok in Hu as [_ ?].
    - by eapply unpack_row_clean. }
  intros out Ho. eapply walks_then; [exact IH|]. intros rest Hr. apply walks_ret.
  rewrite zlen_app, zlen_cons, Ho, Hr. lia.
Qed.
Lemma walks_planes inflate h compression : admitted mp ma h ->
  walks n 0 (planes inflate h compression) (fun data => zlen data = total h).
Proof.
  intros Hh. destruct (admitted_bps _ _ _ Hh) as [Hbps Hplane].
  destruct Hh as [Hd Hm Hch [Hw Hhe] _ Htotal _ _]. assert (0 <= channels h) as Hc by lia.
  assert (0 <= plane h) as Hp0 by (rewrite Hplane; nia).
  assert (walks n 0 (inflated inflate (total h)) (fun data => zlen data = total h)) as Hinflated.
  { unfold inflated. eapply walks_then; [apply walks_get|]. intros r [Hr Ho].
    rewrite suffix_in by done. eapply walks_then; [by apply (walks_lift (Ok _) (fun _ => True))|]. intros stream _. destruct (inflate _) as [out ok].
    eapply walks_seq; [apply walks_ensure|]. eapply walks_seq; [apply walks_ensure|].
    eapply walks_then; [apply walks_ensure|]. intros [] Hl. apply walks_ret. lia. }
  unfold planes. eapply walks_then with (Q := fun data => zlen data = total h).
  - destruct compression as [|[[?|?|]|[?|?|]|]|?]; try apply walks_fail; try exact Hinflated.
    + eapply walks_weaken; [apply walks_take|..]; [rewrite Htotal; nia|rewrite Htotal; nia|by intros d [? _]].
    + eapply walks_then; [apply walks_of_option|]. intros rows [-> Hrows]%checked_mul_Some.
      eapply walks_then; [apply walks_of_option|]. intros bytes [-> Hbytes]%checked_mul_Some.
      eapply walks_then; [eapply walks_loose; [apply walks_take; nia|nia]|]. intros table [Hl Hwf].
      eapply walks_weaken; [apply walks_unpack_rows; by apply sizes_range|lia|]. intros out ->.
      rewrite Htotal, Hplane. unfold zlen in *. rewrite (sizes_length table (Z.to_nat (height h * channels h))) by lia.
      rewrite Z2Nat.id by nia. ring.
  - intros data Hl. destruct (compression =? 3); [|by apply walks_ret]. apply walks_lift.
    destruct (undo_rows_keeps (S (length data)) (depth h) (width h) data) as (d & -> & Hd'); [done|lia|nia|lia|]. simpl. lia.
Qed.
End Planes.

(** ** The image *)

Definition valid_alpha (p : Pixel) : Prop := is_finite (alpha p) = true /\ SFleb zero (alpha p) = true /\ SFleb (alpha p) one = true.
Lemma valid_alpha_test r g b a : is_finite a && SFleb zero a && SFleb a one = true -> valid_alpha (mkPixel r g b a).
Proof. rewrite !andb_true_iff. by intros [[? ?] ?]. Qed.
Lemma sample_settles mp ma h data c i : admitted mp ma h -> zlen data = total h ->
  0 <= c < channels h -> 0 <= i < width h * height h -> exists v, sample h data c i = Ok v.
Proof.
  intros [Hd _ _ _ Hp Ht _ _] Hl Hc Hi. unfold sample. rewrite Ht in Hl.
  assert (forall k, 0 <= k < depth h / 8 -> 0 <= c * plane h + i * (depth h / 8) + k < zlen data) as Hin.
  { intros k Hk. rewrite Hl. assert ((i + 1) * (depth h / 8) <= plane h) as H1 by (rewrite Hp; apply Z.mul_le_mono_nonneg_r; lia).
    assert (0 <= plane h) by (apply (Z.le_trans _ ((i + 1) * (depth h / 8))); [apply Z.mul_nonneg_nonneg|]; lia).
    assert ((c + 1) * plane h <= channels h * plane h) as H2 by (apply Z.mul_le_mono_nonneg_r; lia).
    assert (0 <= i * (depth h / 8)) by (apply Z.mul_nonneg_nonneg; lia). assert (0 <= c * plane h) by (apply Z.mul_nonneg_nonneg; lia). lia. }
  apply elem_of_cons in Hd as [Hd|[Hd|[Hd|[]%elem_of_nil]%elem_of_cons]%elem_of_cons]; rewrite Hd in Hin; rewrite Hd;
    change (8 / 8) with 1 in *; change (16 / 8) with 2 in *; change (32 / 8) with 4 in *.
  - destruct (at_byte_in data _ (Hin 0 ltac:(lia))) as [b Hb]. rewrite Z.add_0_r in Hb. rewrite Hb. by eexists.
  - destruct (at_byte_in data _ (Hin 0 ltac:(lia))) as [b Hb]. rewrite Z.add_0_r in Hb. rewrite Hb.
    destruct (at_byte_in data _ (Hin 1 ltac:(lia))) as [b1 ->]. by eexists.
  - destruct (at_byte_in data _ (Hin 0 ltac:(lia))) as [b Hb]. rewrite Z.add_0_r in Hb. rewrite Hb.
    destruct (at_byte_in data _ (Hin 1 ltac:(lia))) as [b1 ->]. destruct (at_byte_in data _ (Hin 2 ltac:(lia))) as [b2 ->].
    destruct (at_byte_in data _ (Hin 3 ltac:(lia))) as [b3 ->]. by eexists.
Qed.
Lemma pixel_settles mp ma h data a i : admitted mp ma h -> zlen data = total h -> 0 <= i < width h * height h ->
  settles (pixel h data a i) valid_alpha.
Proof.
  intros Hh Hl Hi. destruct (admitted_mode _ _ _ Hh) as [[Hm Hc]|[Hm Hc]], (admitted_channels _ _ _ Hh) as [Hch _];
    unfold pixel; rewrite Hc, Hm; cbn [Z.eqb Pos.eqb].
  all: edestruct (sample_settles mp ma h data 0 i) as [r Hr]; [done..|lia|done|].
  - rewrite !Hr. cbn [rbind]. rewrite andb_false_r.
    destruct (a && (1 <? channels h)) eqn:Ha; [edestruct (sample_settles mp ma h data 1 i) as [v ->]; [done..|lia|done|]|];
      cbn [rbind]; (destruct (_ && _ && _) eqn:Hv; [|done]); by apply valid_alpha_test.
  - edestruct (sample_settles mp ma h data 1 i) as [g Hg]; [done..|lia|done|].
    edestruct (sample_settles mp ma h data 2 i) as [b Hb]; [done..|lia|done|]. rewrite Hr, Hg, Hb. cbn [rbind].
    destruct (a && (3 <? channels h)) eqn:Ha; [edestruct (sample_settles mp ma h data 3 i) as [v ->]; [done..|lia|done|]|];
      cbn [rbind]; (destruct (is_finite _ && _ && _) eqn:Hv; [|done]); (destruct (_ && SFltb zero _); by apply valid_alpha_test).
Qed.
Lemma pixels_settle n i f (Q : Pixel -> Prop) : (forall j, i <= j < i + Z.of_nat n -> settles (f j) Q) ->
  settles (pixels_from n i f) (fun ps => length ps = n /\ Forall Q ps).
Proof.
  revert i. induction n as [|n IH]; intros i Hf; [by split|]. cbn [pixels_from].
  specialize (Hf i ltac:(lia)) as Hp. destruct (f i) as [p|e]; [|done]. cbn [rbind].
  assert (settles (pixels_from n (i + 1) f) (fun ps => length ps = n /\ Forall Q ps)) as Hps by (apply IH; intros j Hj; apply Hf; lia).
  destruct (pixels_from n (i + 1) f) as [ps|e]; [|done]. destruct Hps as [Hl Hall]. simpl. split; [lia|by constructor].
Qed.

(** ** The whole reader *)

Lemma walks_sections n inflate mp ma : walks n 0 (sections inflate mp ma)
  (fun '(h, icc, _, data) => admitted mp ma h /\ profile_limit icc /\ zlen data = total h).
Proof.
  unfold sections. eapply walks_then; [apply walks_header|]. intros h Hh.
  eapply walks_then; [eapply walks_loose; [apply walks_block|lia]|]. intros colors _.
  eapply walks_then; [eapply walks_loose; [apply walks_block|lia]|]. intros resources Hr.
  eapply walks_then with (Q := fun s => match s with inl icc => profile_limit icc | inr _ => False end).
  { apply walks_lift, (walks_over resources 0); [done|]. apply walks_while; [lia|done|].
    intros icc Hicc. apply strides_walks. by apply walks_profile_resource. }
  intros found Hfound. eapply walks_then; [eapply walks_loose; [apply walks_block|lia]|]. intros layers Hlayers.
  eapply walks_then with (Q := fun _ => True).
  { destruct (bool_decide _); [by apply walks_ret|]. apply walks_lift, (walks_over layers 0); [done|]. by apply walks_layer_section. }
  intros a _. eapply walks_seq; [apply walks_ensure|]. eapply walks_then; [eapply walks_loose; [apply walks_u16|lia]|]. intros c _.
  eapply walks_then; [by apply (walks_planes mp ma)|]. intros data Hl. apply walks_ret. split; [done|]. split; [|done].
  by destruct found.
Qed.
Section Decode.
Context (inflate : Inflate) (b : list Z) (max_pixels max_allocation : Z).

(** C39. Reading a composite always ends, in an image or in an error, never in a panic:
    no index or slice leaves the planes, a resource, a layer block or the file, no loop
    runs on, no sum of lengths overflows, whatever the input is and whatever the inflater
    delivers.  An image has as many pixels as its
    sides say and no more than the limits given, 16 bytes of each of which fit the
    allocation limit; its depth is one of three, its profile at most 16 MiB, and every
    alpha is a number between zero and one. *)
Theorem decode_settles : well_formed b ->
  match decode inflate b max_pixels max_allocation with
  | Ok c => 0 < image_width c <= 40000 /\ 0 < image_height c <= 40000 /\
      zlen (image c) = image_width c * image_height c /\ zlen (image c) <= Z.min max_pixels 100000000 /\
      zlen (image c) * 16 <= max_allocation /\ bits c ∈ [8; 16; 32] /\ profile_limit (icc c) /\ Forall valid_alpha (image c)
  | Err (Failure _) => True
  | Err (Panic _) => False
  end.
Proof.
  intros Hb. unfold decode. pose proof (walks_over b 0 _ _ Hb (walks_sections (length b) inflate max_pixels max_allocation)) as Hs.
  unfold over in Hs. destruct ((sections _ _ _ _).2) as [[[[h icc] a] data]|e]; cbn [rbind]; [|by destruct e].
  destruct Hs as (Hh & Hicc & Hl).
  assert (settles (pixels_from (Z.to_nat (width h * height h)) 0 (pixel h data a))
    (fun ps => length ps = Z.to_nat (width h * height h) /\ Forall valid_alpha ps)) as Hp.
  { apply pixels_settle. intros j Hj. eapply pixel_settles; [done..|]. destruct (admitted_sides _ _ _ Hh). nia. }
  destruct (pixels_from _ _ _) as [ps|e]; cbn [rbind]; [|by destruct e]. destruct Hp as [Hn Hall].
  destruct Hh as [Hd _ _ [Hw Hhe] _ _ Hpx [Hal _]]. simpl. unfold zlen. rewrite Hn, Z2Nat.id by nia. repeat split; done || lia.
Qed.
End Decode.

(** ** Rows *)

Lemma take_front b o size : 0 <= o <= zlen b -> zlen b <= u64_max -> 0 <= size ->
  match take size (mkReader b o) with
  | (r, Ok row) => zlen row = size /\ row = firstn (Z.to_nat size) (drop (Z.to_nat o) b) /\
      r = mkReader b (o + size) /\ o + size <= zlen b /\ drop (Z.to_nat o) b = row ++ drop (Z.to_nat (o + size)) b
  | (_, Err _) => zlen b < o + size
  end.
Proof.
  intros Ho Hb Hs. unfold take. run. unfold checked_add. simpl.
  destruct (Z.leb_spec (o + size) u64_max); [|simpl; lia]. destruct (Z.leb_spec o (o + size)); [|lia].
  destruct (Z.leb_spec (o + size) (zlen b)); simpl; [|lia]. rewrite slice_drop by lia.
  repeat split; [|lia|].
  - unfold zlen in *. rewrite length_take, length_drop. lia.
  - rewrite drop_plus by lia. by rewrite take_drop.
Qed.
Section Rows.
Context (b : list Z) (row_bytes : Z).
Hypothesis (Hb : well_formed b) (Hmax : zlen b <= u64_max).

Lemma rows_read_iff sizes o out : Forall (fun s => 0 <= s) sizes -> 0 <= o <= zlen b ->
  (unpack_rows sizes row_bytes (mkReader b o)).2 = Ok out <->
  exists codes rows rest, drop (Z.to_nat o) b = concat codes ++ rest /\ sizes = map zlen codes /\
    Forall2 (fun code row => packed code row /\ zlen row = row_bytes) codes rows /\ out = concat rows.
Proof.
  intros Hs. revert o out. induction Hs as [|size sizes Hsize _ IH]; intros o out Ho.
  - simpl. split; [intros [= <-]; by exists [], [], (drop (Z.to_nat o) b)|].
    intros (codes & rows & rest & _ & Hc & Hf & ->). destruct codes; [|done]. by apply Forall2_nil_inv_l in Hf as ->.
  - cbn [unpack_rows]. pose proof (take_front b o size Ho Hmax Hsize) as Ht. unfold bind at 1.
    destruct (take size (mkReader b o)) as [r [row|e]].
    + destruct Ht as (Hl & Hrow & -> & Hfit & Hd). assert (well_formed row) as Hwf by (subst row; by apply Forall_take, Forall_drop).
      run. specialize (IH (o + size)). split.
      * destruct (unpack_row row row_bytes) as [u|e] eqn:Hu; [|done]. apply unpack_row_Ok in Hu as [Hp Hpl]; [|done].
        unfold bind. destruct (unpack_rows sizes row_bytes (mkReader b (o + size))) as [r [v|e]]; [|done].
        intros [= <-]. destruct (proj1 (IH v ltac:(lia)) eq_refl) as (codes & rows & rest & Hd' & Hc & Hf & ->).
        exists (row :: codes), (u :: rows), rest. rewrite Hd, Hd', Hc, <- Hl. simpl. repeat split; [by rewrite <- app_assoc|by constructor].
      * intros (codes & rows & rest & Hd' & Hc & Hf & ->). destruct codes as [|code codes]; [done|]. injection Hc as Hc1 Hc2.
        apply Forall2_cons_inv_l in Hf as (u & rows' & [Hp Hpl] & Hf & ->). simpl in Hd'. rewrite <- app_assoc, Hd in Hd'.
        assert (length row = length code) as Hlen by (unfold zlen in *; lia).
        apply app_inj_1 in Hd' as [-> Hd']; [|done]. rewrite (proj2 (unpack_row_Ok _ _ u Hwf) (conj Hp Hpl)).
        unfold bind. pose proof (proj2 (IH (concat rows') ltac:(lia))) as Hok.
        destruct (unpack_rows sizes row_bytes (mkReader b (o + size))) as [r [v|e]]; simpl in *.
        -- specialize (Hok (ex_intro _ codes (ex_intro _ rows' (ex_intro _ rest (conj Hd' (conj Hc2 (conj Hf eq_refl))))))). by simplify_eq.
        -- by specialize (Hok (ex_intro _ codes (ex_intro _ rows' (ex_intro _ rest (conj Hd' (conj Hc2 (conj Hf eq_refl))))))).
    + split; [done|]. intros (codes & rows & rest & Hd' & Hc & _). destruct codes as [|code codes]; [done|]. injection Hc as Hc1 Hc2.
      assert (zlen (drop (Z.to_nat o) b) = zlen b - o) as Hl by (unfold zlen in *; rewrite length_drop; lia).
      rewrite Hd' in Hl. simpl in Hl. rewrite !zlen_app in Hl. pose proof (zlen_nonneg (concat codes)). pose proof (zlen_nonneg rest). lia.
Qed.
End Rows.

(** C40. A plane coded by runs is read as the grammar of the code says: reading rows of
    the given sizes at an offset succeeds exactly when what lies there is the codes of
    rows of the full length one after the other, and delivers those rows. *)
Theorem rows_read b row_bytes sizes o out : well_formed b -> zlen b <= u64_max -> Forall (fun s => 0 <= s) sizes -> 0 <= o <= zlen b ->
  (unpack_rows sizes row_bytes (mkReader b o)).2 = Ok out <->
  exists codes rows rest, drop (Z.to_nat o) b = concat codes ++ rest /\ sizes = map zlen codes /\
    Forall2 (fun code row => packed code row /\ zlen row = row_bytes) codes rows /\ out = concat rows.
Proof. intros Hb Hm Hs Ho. by apply rows_read_iff. Qed.
Lemma rows_read_witness :
  (unpack_rows [4; 5] 4 (mkReader [7; 254; 9; 0; 5; 1; 1; 2; 255; 8] 1)).2 = Ok [9; 9; 9; 5; 1; 2; 8; 8] <->
  exists codes rows rest, drop 1 [7; 254; 9; 0; 5; 1; 1; 2; 255; 8] = concat codes ++ rest /\ [4; 5] = map zlen codes /\
    Forall2 (fun code row => packed code row /\ zlen row = 4) codes rows /\ [9; 9; 9; 5; 1; 2; 8; 8] = concat rows.
Proof.
  apply (rows_read [7; 254; 9; 0; 5; 1; 1; 2; 255; 8] 4 [4; 5] 1).
  - repeat constructor; done.
  - done.
  - repeat constructor; done.
  - done.
Defined.
Example rows_read_run : (unpack_rows [4; 5] 4 (mkReader [7; 254; 9; 0; 5; 1; 1; 2; 255; 8] 1)).2 = Ok [9; 9; 9; 5; 1; 2; 8; 8].
Proof. reflexivity. Qed.

Lemma word_bytes_sizes row k : well_formed row -> length row = (2 * k)%nat -> word_bytes (sizes row) = row.
Proof.
  revert row. induction k as [|k IH]; intros [|a [|b row]] Hw Hl; simpl in Hl; try lia; [done|].
  apply Forall_cons in Hw as [Ha Hw]. apply Forall_cons in Hw as [Hb Hw]. unfold is_byte in Ha, Hb.
  cbn [sizes word_bytes flat_map word app]. fold (word_bytes (sizes row)). rewrite be_uint_word.
  rewrite IH by (done || lia). rewrite Z.div_add_l, Z.div_small, Z.add_0_r by lia.
  by rewrite (Z.add_comm (a * 256)), Z.mod_add, Z.mod_small by lia.
Qed.
Lemma differences_range m p l : 0 < m -> Forall (fun b => 0 <= b < m) (differences m p l).
Proof. intros Hm. revert p. induction l as [|b l IH]; intros p; constructor; [by apply Z.mod_pos_bound|apply IH]. Qed.
Lemma total_differences_range m l : 0 < m -> Forall (fun b => 0 <= b < m) l -> Forall (fun b => 0 <= b < m) (total_differences m l).
Proof. intros Hm [|b l' Hb _]; constructor; [done|by apply differences_range]. Qed.
Lemma total_differences_zlen m l : zlen (total_differences m l) = zlen l.
Proof. destruct l as [|b l]; [done|]. unfold zlen. simpl. by rewrite differences_length. Qed.
Lemma sizes_words row k : well_formed row -> length row = (2 * k)%nat -> Forall (fun w => 0 <= w < 65536) (sizes row).
Proof.
  revert row. induction k as [|k IH]; intros [|a [|b row]] Hw Hl; simpl in Hl; try lia; [constructor|].
  apply Forall_cons in Hw as [Ha Hw]. apply Forall_cons in Hw as [Hb Hw]. unfold is_byte in Ha, Hb.
  constructor; [rewrite be_uint_word; lia|apply IH; [done|lia]].
Qed.
Lemma split_words_well_formed width row : well_formed row -> well_formed (split_words width row).
Proof.
  intros Hw. unfold split_words. apply Forall_flat_map, Forall_true. intros b. apply Forall_map, Forall_true. intros x.
  destruct (nth_in_or_default (4 * x + b) row 0) as [Hin| ->]; [|done].
  apply list_elem_of_In in Hin. by apply (proj1 (Forall_forall _ _) Hw).
Qed.
Lemma bytes_undone row : well_formed row -> for_range (Z.to_nat (zlen row - 1)) 1 undo_byte (total_differences 256 row) = Ok row.
Proof.
  intros Hw. rewrite <- (total_differences_zlen 256 row), undo_bytes_row. by rewrite total_sums_differences.
Qed.

(** Prediction is undone: for each depth, undoing a row of the right length that was
    predicted by differences (of the bytes, of the 16-bit words, or of the bytes of the
    four planes of a row of 32-bit samples) gives the row back. *)
Theorem prediction_undone depth width row : depth ∈ [8; 16; 32] -> 0 < width -> well_formed row ->
  zlen row = width * (depth / 8) -> undo_row depth width (predict depth width row) = Ok row.
Proof.
  intros Hd Hw Hwf Hl. unfold undo_row, predict.
  apply elem_of_cons in Hd as [->|[->|[->|[]%elem_of_nil]%elem_of_cons]%elem_of_cons]; cbn [Z.eqb Pos.eqb].
  - rewrite total_differences_zlen. by rewrite bytes_undone.
  - change (16 / 8) with 2 in Hl. unfold zlen in Hl. assert (length row = 2 * Z.to_nat width)%nat as Hl2 by lia.
    pose proof (sizes_words row _ Hwf Hl2) as Hr.
    rewrite undo_words_row; [|by apply total_differences_range|rewrite total_differences_zlen; unfold zlen; rewrite (sizes_length row _ Hl2); lia].
    rewrite total_sums_differences by done. by rewrite (word_bytes_sizes row _ Hwf Hl2).
  - change (32 / 8) with 4 in Hl. rewrite total_differences_zlen, bytes_undone by by apply split_words_well_formed.
    cbn [rbind]. apply merge_split_words; lia.
Qed.
Lemma prediction_undone_witness :
  zlen [1; 2; 3; 4; 5; 6; 7; 255] = 2 * (32 / 8) /\
  undo_row 32 2 (predict 32 2 [1; 2; 3; 4; 5; 6; 7; 255]) = Ok [1; 2; 3; 4; 5; 6; 7; 255].
Proof.
  split; [done|]. apply (prediction_undone 32 2 [1; 2; 3; 4; 5; 6; 7; 255]); [by right; right; left|lia|repeat constructor; done|done].
Defined.
Example predicted : predict 32 2 [1; 2; 3; 4; 5; 6; 7; 255] = [1; 4; 253; 4; 253; 4; 253; 251].
Proof. reflexivity. Qed.

(** A composite of two gray pixels of one byte each, stored raw. *)
Definition gray_file : list Z :=
  ascii_bytes "8BPS" ++ [0; 1; 0; 0; 0; 0; 0; 0; 0; 1; 0; 0; 0; 1; 0; 0; 0; 2; 0; 8; 0; 1] ++
  [0; 0; 0; 0] ++ [0; 0; 0; 0] ++ [0; 0; 0; 0] ++ [0; 0] ++ [0; 255].
Definition no_inflate : Inflate := fun _ => ([], true).
Lemma decode_settles_witness :
  match decode no_inflate gray_file 100 1000 with
  | Ok c => 0 < image_width c <= 40000 /\ 0 < image_height c <= 40000 /\
      zlen (image c) = image_width c * image_height c /\ zlen (image c) <= Z.min 100 100000000 /\
      zlen (image c) * 16 <= 1000 /\ bits c ∈ [8; 16; 32] /\ profile_limit (icc c) /\ Forall valid_alpha (image c)
  | Err (Failure _) => True
  | Err (Panic _) => False
  end.
Proof. apply (decode_settles no_inflate gray_file 100 1000). unfold gray_file. simpl. repeat constructor; done. Defined.
Example gray_read : decode no_inflate gray_file 100 1000 =
  Ok (mkComposite 2 1 [mkPixel zero zero zero one; mkPixel one one one one] 8 None).
Proof. vm_compute. reflexivity. Qed.
Example gray_limit : decode no_inflate gray_file 100 31 = Err (Failure "PSD configured resource limit").
Proof. vm_compute. reflexivity. Qed.
