(* ===== verification/CatalogEdits.v ===== *)
(** Durable edit variants: src/src/catalog_edits.rs, with the parts of
    src/src/catalog_images.rs it calls.

    The tables of the [SCHEMA] are finite maps; a statement is the update or
    lookup its text describes, with its constraints and triggers as refusals.
    Recipe nodes and redo nodes are immutable once inserted: undo and redo move
    the cursor of a variant while its revision always advances.  A call that
    fails inside its transaction leaves the database as it found it. *)
From stdpp Require Import base tactics option list numbers gmap strings fin_maps sorting.
From Stdlib Require Import ZArith Lia.
From S2P Require Import Prelude Recipe.

Open Scope Z_scope.
Local Open Scope prog_scope.

(** ** Data *)

(** @source src/src/catalog_edits.rs:57-62 VariantKey *)
Record VariantKey : Type := mkKey { asset_id : string; variant_id : string }.

#[export] Instance VariantKey_eq_dec : EqDecision VariantKey.
Proof. solve_decision. Defined.
#[export] Instance VariantKey_countable : Countable VariantKey.
Proof.
  refine (inj_countable' (fun k => (asset_id k, variant_id k)) (fun p => mkKey p.1 p.2) _).
  by intros [].
Defined.

(** @source src/src/catalog_edits.rs:14-14 MASTER *)
Definition MASTER : string := "master".
(** @source src/src/catalog_edits.rs:15-15 MAX_RECIPE_BYTES *)
Definition MAX_RECIPE_BYTES : Z := 64 * 1024.

(** [serde_json::Value]. *)
Inductive Value : Type :=
| VNull
| VNumber (n : Z)
| VString (s : string)
| VArray (l : list Value)
| VObject (fields : list (string * Value)).

(** @source src/src/media.rs:18-30 Metadata *)
Record Metadata : Type := mkMetadata {
  format : string; width : Z; height : Z; orientation : Z; camera_make : option string;
  camera_model : option string; captured_at : option string; lens : option string;
  preview_source : string }.

(** The errors: an [anyhow] message, a recipe's own error, or the overflow panic
    of [validate_dimensions], which no validated recipe reaches. *)
Inductive EditError : Type :=
| Message (m : string)
| InvalidRecipe (e : RecipeError)
| Panicked.

(** The rest of [serde_json] the module uses. *)
Class EditCodec : Type := {
  edit_recipes :: RecipeCodec;
  parse_metadata : string -> result string Metadata;
  value_to_string : Value -> result string string;
  value_from_str : string -> result string Value;
}.

(** SQLite picks an unused rowid for an [INTEGER PRIMARY KEY] left out of an
    [INSERT]. *)
Class RowIds : Type := {
  fresh_rowid : gset Z -> Z;
  fresh_rowid_unused X : fresh_rowid X ∉ X;
}.

(** *** Rows *)

(** The columns of [assets] that the module reads. *)
Record AssetRow : Type := mkAsset {
  a_metadata : option string; a_render_generation : Z; a_physical_generation : Z;
  a_fingerprint : option string; a_state : string }.

(** @source src/src/catalog_images.rs:11-26 ImageRole *)
Inductive ImageRole : Type := Master | Virtual | NativeCopy.
(** @source src/src/catalog_images.rs:27-44 TranslationState *)
Inductive TranslationState : Type := Native | Translated | RetainedOnly | Untranslated.
Inductive Origin : Type := OriginNative | OriginImport.

#[export] Instance TranslationState_eq_dec : EqDecision TranslationState.
Proof. solve_decision. Defined.
#[export] Instance Origin_eq_dec : EqDecision Origin.
Proof. solve_decision. Defined.

(** A row of [catalog_images]; the table is keyed by its asset and variant. *)
(** @source src/src/catalog_images.rs:94-105 catalog_images *)
Record ImageRow : Type := mkImage {
  image_id : string; image_sequence : Z; role : ImageRole; origin : Origin;
  master_sequence : option Z; copied_from_sequence : option Z;
  translation_state : TranslationState; pixel_generation : Z; applied_shared_epoch : Z }.

(** @source src/src/catalog_images.rs:56-66 ImageMetadataIdentity *)
Record ImageMetadataIdentity : Type := mkImageIdentity {
  i_image : string; i_key : VariantKey; i_metadata_revision : Z; i_pixel_generation : Z;
  i_shared_epoch : Z; i_physical_generation : Z }.

#[export] Instance ImageMetadataIdentity_eq_dec : EqDecision ImageMetadataIdentity.
Proof. solve_decision. Defined.

(** @source src/src/catalog_edits.rs:18-23 edit_variants *)
Record VariantRow : Type := mkVariant {
  v_sequence : Z; v_label : string; v_revision : Z; v_cursor : option Z; v_redo : option Z }.
(** @source src/src/catalog_edits.rs:24-27 edit_recipe_nodes *)
Record RecipeNode : Type := mkNode {
  n_key : VariantKey; n_parent : option Z; n_recipe : bytes; n_digest : string }.
(** @source src/src/catalog_edits.rs:30-34 edit_redo_nodes *)
Record RedoNode : Type := mkRedo { d_key : VariantKey; d_recipe_node : Z; d_next : option Z }.
(** @source src/src/catalog_edits.rs:35-42 edit_changes *)
Record Change : Type := mkChange {
  c_kind : string; c_previous : option Z; c_current : Z; c_provenance : string }.

(** The tables.  [edit_changes] is keyed by its UNIQUE variant and revision. *)
(** @source src/src/catalog_edits.rs:17-42 SCHEMA *)
Record Db : Type := mkDb {
  assets : gmap string AssetRow;
  images : gmap VariantKey ImageRow;
  shared_epochs : gmap string Z;
  metadata_revisions : gmap string Z;
  variants : gmap VariantKey VariantRow;
  variant_sequence : Z;
  recipe_nodes : gmap Z RecipeNode;
  redo_nodes : gmap Z RedoNode;
  changes : gmap (VariantKey * Z) Change;
}.

Definition set_images f (s : Db) : Db :=
  mkDb (assets s) (f (images s)) (shared_epochs s) (metadata_revisions s) (variants s)
    (variant_sequence s) (recipe_nodes s) (redo_nodes s) (changes s).
Definition set_metadata_revisions f (s : Db) : Db :=
  mkDb (assets s) (images s) (shared_epochs s) (f (metadata_revisions s)) (variants s)
    (variant_sequence s) (recipe_nodes s) (redo_nodes s) (changes s).
Definition set_variants f (s : Db) : Db :=
  mkDb (assets s) (images s) (shared_epochs s) (metadata_revisions s) (f (variants s))
    (variant_sequence s) (recipe_nodes s) (redo_nodes s) (changes s).
Definition set_variant_sequence n (s : Db) : Db :=
  mkDb (assets s) (images s) (shared_epochs s) (metadata_revisions s) (variants s)
    n (recipe_nodes s) (redo_nodes s) (changes s).
Definition set_recipe_nodes f (s : Db) : Db :=
  mkDb (assets s) (images s) (shared_epochs s) (metadata_revisions s) (variants s)
    (variant_sequence s) (f (recipe_nodes s)) (redo_nodes s) (changes s).
Definition set_redo_nodes f (s : Db) : Db :=
  mkDb (assets s) (images s) (shared_epochs s) (metadata_revisions s) (variants s)
    (variant_sequence s) (recipe_nodes s) (f (redo_nodes s)) (changes s).
Definition set_changes f (s : Db) : Db :=
  mkDb (assets s) (images s) (shared_epochs s) (metadata_revisions s) (variants s)
    (variant_sequence s) (recipe_nodes s) (redo_nodes s) (f (changes s)).

(** *** Results *)

(** @source src/src/catalog_edits.rs:83-92 VariantView *)
Record VariantView : Type := mkView {
  key : VariantKey; label : string; revision : Z; view_recipe : Recipe; recipe_digest : string;
  can_undo : bool; can_redo : bool }.
(** [RenderIdentity] of src/src/catalog_metadata.rs. *)
Record RenderIdentity : Type := mkRender {
  r_asset : string; r_generation : Z; r_fingerprint : option string; r_state : string;
  r_metadata_revision : Z }.
(** @source src/src/catalog_edits.rs:94-102 EditRenderIdentity *)
Record EditRenderIdentity : Type := mkEditRender {
  e_image : option ImageMetadataIdentity; e_source : RenderIdentity; e_key : VariantKey;
  e_revision : Z; e_digest : string }.
(** @source src/src/catalog_edits.rs:104-111 EditHistoryEntry *)
Record EditHistoryEntry : Type := mkEntry {
  h_revision : Z; h_kind : string; h_recipe : Recipe; h_digest : string; h_provenance : Value }.
(** @source src/src/catalog_edits.rs:113-118 StoredVariant *)
Record StoredVariant : Type := mkStored {
  s_label : string; s_revision : Z; s_cursor : Z; s_redo : option Z }.

Abbreviation M := (proc EditError Db).

Definition length_of (s : string) : Z := Z.of_nat (String.length s).
Definition says (m : string) : EditError := Message m.
Definition no_rows : EditError := Message "Query returned no rows".
Definition message {A} (r : result string A) : result EditError A :=
  match r with Ok a => Ok a | Err e => Err (Message e) end.
Definition recipe_error {A} (r : result RecipeError A) : result EditError A :=
  match r with Ok a => Ok a | Err e => Err (InvalidRecipe e) end.

(** [catalog_row::owned_text]. *)
(** @source src/src/catalog_row.rs:16-33 text *)
Definition owned_text (maximum : Z) (s : string) : result EditError string :=
  if length_of s <=? maximum then Ok s
  else Err (says "stored preview field exceeds its byte bound or has invalid storage type").

(** [i64::checked_add]. *)
Definition i64_checked_add (a b : Z) : option Z :=
  if (- 2 ^ 63 <=? a + b) && (a + b <=? i64_max) then Some (a + b) else None.

(** [str::trim] is empty: only [White_Space] characters, in UTF-8. *)
Fixpoint blank (l : list Z) : bool :=
  match l with
  | [] => true
  | 194 :: b :: l' => ((b =? 133) || (b =? 160)) && blank l'
  | 225 :: 154 :: 128 :: l' => blank l'
  | 226 :: 128 :: b :: l' =>
      (((128 <=? b) && (b <=? 138)) || (b =? 168) || (b =? 169) || (b =? 175)) && blank l'
  | 226 :: 129 :: 159 :: l' => blank l'
  | 227 :: 128 :: 128 :: l' => blank l'
  | b :: l' => (((9 <=? b) && (b <=? 13)) || (b =? 32)) && blank l'
  end.
Definition utf8 (s : string) : list Z :=
  map (fun c => Z.of_N (Ascii.N_of_ascii c)) (String.list_ascii_of_string s).

(** @source src/src/catalog_edits.rs:70-80 VariantKey::validate *)
Definition validate_key (k : VariantKey) : result EditError unit :=
  let? _ := rensure (negb (length_of (asset_id k) =? 0) && (length_of (asset_id k) <=? 256))
              (says "asset identity length") in
  rensure (negb (length_of (variant_id k) =? 0) && (length_of (variant_id k) <=? 256))
    (says "variant identity length").

(** The [json!] documents recorded as provenance. *)
Definition key_json (k : VariantKey) : Value :=
  VObject [("asset_id", VString (asset_id k)); ("variant_id", VString (variant_id k))].
Definition json_empty : Value := VObject [].

(** ** Operations inside a transaction *)

Section Edits.
Context {CODEC : EditCodec} {IDS : RowIds}.

(** @source src/src/catalog_edits.rs:120-128 canonical *)
Definition canonical (recipe : Recipe) : result EditError (bytes * string) :=
  let? validated := recipe_error (validate recipe) in
  let? _ := rensure (Z.of_nat (length (canonical_bytes validated)) <=? MAX_RECIPE_BYTES)
              (says "recipe exceeds durable document limit") in
  Ok (canonical_bytes validated, digest validated).

(** @source src/src/catalog_edits.rs:130-142 read_recipe *)
Definition read_recipe (b : bytes) (digest : string) : result EditError Recipe :=
  let? _ := rensure (Z.of_nat (length b) <=? MAX_RECIPE_BYTES)
              (says "stored recipe exceeds document limit") in
  let? recipe := message (from_slice b) in
  let? actual := canonical recipe in
  let? _ := rensure (bool_decide (actual.1 = b) && bool_decide (actual.2 = digest))
              (says "stored recipe identity mismatch") in
  Ok recipe.

(** @source src/src/catalog_images.rs:198-206 id *)
Definition id (k : VariantKey) : M string :=
  lift (validate_key k) ;;;
  let* s := get in
  match images s !! k with
  | Some r => if length_of (image_id r) <=? 256 then ret (image_id r)
              else fail (says "logical image not found")
  | None => fail (says "logical image not found")
  end.

(** [WHERE id=?] on [catalog_images]. *)
Definition image_by_id (image : string) (s : Db) : option (VariantKey * ImageRow) :=
  head (filter (fun p => image_id p.2 = image) (map_to_list (images s))).

(** @source src/src/catalog_images.rs:215-218 require_current *)
Definition require_current (image : string) : M unit :=
  let* s := get in
  match image_by_id image s with
  | Some (k, r) =>
      match shared_epochs s !! asset_id k with
      | Some epoch => ensure (applied_shared_epoch r =? epoch)
                        (says "image metadata pending shared-source refresh")
      | None => fail no_rows
      end
  | None => fail no_rows
  end.

(** @source src/src/catalog_images.rs:219-222 identity *)
Definition identity (image : string) : M ImageMetadataIdentity :=
  require_current image ;;;
  let* s := get in
  match image_by_id image s with
  | Some (k, r) =>
      match assets s !! asset_id k, shared_epochs s !! asset_id k with
      | Some a, Some epoch =>
          let* i := lift (owned_text 256 (image_id r)) in
          let* asset := lift (owned_text 256 (asset_id k)) in
          let* variant := lift (owned_text 256 (variant_id k)) in
          ret (mkImageIdentity i (mkKey asset variant)
                 (default 0 (metadata_revisions s !! image_id r)) (pixel_generation r) epoch
                 (a_physical_generation a))
      | _, _ => fail no_rows
      end
  | None => fail no_rows
  end.

(** @source src/src/catalog_images.rs:224-233 require_image_metadata_identity *)
Definition require_image_metadata_identity (expected : ImageMetadataIdentity) : M unit :=
  let* i := identity (i_image expected) in
  ensure (bool_decide (i = expected)) (says "image metadata/source identity changed").

(** @source src/src/catalog_edits.rs:144-160 stored *)
Definition stored (k : VariantKey) : M (option StoredVariant) :=
  lift (validate_key k) ;;;
  let* s := get in
  match variants s !! k with
  | None => ret None
  | Some row =>
      let* label := lift (owned_text 1024 (v_label row)) in
      match v_cursor row with
      | Some cursor => ret (Some (mkStored label (v_revision row) cursor (v_redo row)))
      | None => fail (says "Invalid column type Null at index: 2, name: cursor")
      end
  end.

(** @source src/src/catalog_edits.rs:162-172 asset_exists *)
Definition asset_exists (asset : string) : M unit :=
  let* s := get in
  ensure (bool_decide (is_Some (assets s !! asset))) (says "asset does not exist").

(** @source src/src/catalog_edits.rs:174-191 known_dimensions *)
Definition known_dimensions (asset : string) : M (option (Z * Z)) :=
  let* s := get in
  match assets s !! asset with
  | None => fail no_rows
  | Some a =>
      match a_metadata a with
      | None => ret None
      | Some raw =>
          ensure (length_of raw <=? 1024 * 1024) (says "asset metadata document limit") ;;;
          let* metadata := lift (message (parse_metadata raw)) in
          ensure ((1 <=? orientation metadata) && (orientation metadata <=? 8))
            (says "invalid source orientation") ;;;
          ret (Some (if (5 <=? orientation metadata) && (orientation metadata <=? 8)
                     then (height metadata, width metadata)
                     else (width metadata, height metadata)))
      end
  end.

(** @source src/src/catalog_edits.rs:193-228 view *)
Definition view (k : VariantKey) : M VariantView :=
  let* _ := id k in
  let* value := stored k in
  match value with
  | None =>
      ensure (bool_decide (variant_id k = MASTER)) (says "variant does not exist") ;;;
      asset_exists (asset_id k) ;;;
      let* c := lift (canonical default_Recipe) in
      ret (mkView k "Original" 0 default_Recipe c.2 false false)
  | Some value =>
      let* s := get in
      match recipe_nodes s !! s_cursor value with
      | Some n =>
          if bool_decide (n_key n = k) then
            let* _ := lift (rensure (Z.of_nat (length (n_recipe n)) <=? MAX_RECIPE_BYTES)
              (says "stored preview field exceeds its byte bound or has invalid storage type")) in
            let* digest := lift (owned_text 64 (n_digest n)) in
            let* recipe := lift (read_recipe (n_recipe n) digest) in
            ret (mkView k (s_label value) (s_revision value) recipe digest
                   (bool_decide (is_Some (n_parent n))) (bool_decide (is_Some (s_redo value))))
          else fail no_rows
      | None => fail no_rows
      end
  end.

(** [INSERT INTO edit_recipe_nodes] and [last_insert_rowid]. *)
Definition insert_node (n : RecipeNode) : M Z :=
  let* s := get in
  let rowid := fresh_rowid (dom (recipe_nodes s)) in
  put (set_recipe_nodes (<[rowid := n]>) s) ;;;
  ret rowid.

(** @source src/src/catalog_edits.rs:230-253 insert_variant *)
Definition insert_variant (k : VariantKey) (label : string) (recipe : Recipe) : M unit :=
  lift (validate_key k) ;;;
  ensure (negb (blank (utf8 label)) && (length_of label <=? 1024)) (says "variant label length") ;;;
  let* c := lift (canonical recipe) in
  let* s := get in
  (* the trigger image_edit_insert, the unique constraint and the foreign key *)
  ensure (bool_decide (is_Some (images s !! k))) (says "edit variant needs registered image") ;;;
  ensure (bool_decide (variants s !! k = None))
    (says "UNIQUE constraint failed: edit_variants.asset_id, edit_variants.id") ;;;
  ensure (bool_decide (is_Some (assets s !! asset_id k))) (says "FOREIGN KEY constraint failed") ;;;
  modify (set_variant_sequence (variant_sequence s + 1)) ;;;
  modify (set_variants (<[k := mkVariant (variant_sequence s + 1) label 0 None None]>)) ;;;
  let* node := insert_node (mkNode k None c.1 c.2) in
  modify (set_variants (alter (fun v => mkVariant (v_sequence v) (v_label v) (v_revision v) (Some node) (v_redo v)) k)).

(** @source src/src/catalog_edits.rs:255-264 materialize *)
Definition materialize (k : VariantKey) : M StoredVariant :=
  let* image := id k in
  require_current image ;;;
  let* value := stored k in
  match value with
  | Some value => ret value
  | None =>
      ensure (bool_decide (variant_id k = MASTER)) (says "variant does not exist") ;;;
      asset_exists (asset_id k) ;;;
      insert_variant k "Original" default_Recipe ;;;
      let* value := stored k in
      of_option value (says "new variant unavailable")
  end.

(** @source src/src/catalog_edits.rs:266-282 record_change *)
Definition record_change (k : VariantKey) (revision : Z) (kind : string) (previous current : Z)
    (provenance : Value) : M unit :=
  let* text := lift (message (value_to_string provenance)) in
  ensure (length_of text <=? MAX_RECIPE_BYTES) (says "edit provenance document limit") ;;;
  let* s := get in
  ensure (bool_decide (changes s !! (k, revision) = None))
    (says "UNIQUE constraint failed: edit_changes.asset_id, edit_changes.variant_id, edit_changes.revision") ;;;
  put (set_changes (<[(k, revision) := mkChange kind (Some previous) current text]>) s).

(** [UPDATE edit_variants SET revision,cursor,redo]. *)
Definition update_variant (k : VariantKey) (revision cursor : Z) (redo : option Z) : M unit :=
  modify (set_variants
    (alter (fun v => mkVariant (v_sequence v) (v_label v) revision (Some cursor) redo) k)).

(** @source src/src/catalog_edits.rs:284-312 save *)
Definition save (k : VariantKey) (expected : Z) (b : bytes) (digest : string) (kind : string)
    (provenance : Value) : M VariantView :=
  let* current := materialize k in
  ensure ((0 <=? expected) && (s_revision current =? expected)) (says "edit revision changed") ;;;
  let* revision := of_option (i64_checked_add (s_revision current) 1)
                     (says "edit revision exhausted") in
  let* node := insert_node (mkNode k (Some (s_cursor current)) b digest) in
  update_variant k revision node None ;;;
  record_change k revision kind (s_cursor current) node provenance ;;;
  view k.

(** [recipe.validate_dimensions(width, height)?]. *)
Definition check_dimensions (v : ValidatedRecipe) (size : Z * Z) : M unit :=
  match validate_dimensions v size.1 size.2 with
  | None => fail Panicked
  | Some (Err e) => fail (InvalidRecipe e)
  | Some (Ok _) => ret tt
  end.

(** [autocommit] is whether the connection is outside a transaction. *)
(** @source src/src/catalog_edits.rs:314-365 install_import_recipe *)
Definition install_import_recipe (autocommit : bool) (k : VariantKey) (expected_revision : Z)
    (recipe : ValidatedRecipe) (provenance : Value) (state : TranslationState) : M VariantView :=
  ensure (negb autocommit) (says "import recipe requires a transaction") ;;;
  ensure (negb (bool_decide (state = Native))) (says "import cannot claim native origin") ;;;
  ensure (Z.of_nat (length (canonical_bytes recipe)) <=? MAX_RECIPE_BYTES)
    (says "import recipe document bound") ;;;
  let* image := id k in
  let* s := get in
  match image_by_id image s with
  | None => fail no_rows
  | Some (_, r) =>
      ensure (bool_decide (origin r = OriginImport)) (says "import recipe requires imported image") ;;;
      ensure (negb (bool_decide (state = Untranslated))
              || bool_decide (Recipe.recipe recipe = default_Recipe))
        (says "untranslated appearance must remain native original") ;;;
      let* dimensions := known_dimensions (asset_id k) in
      match dimensions with Some size => check_dimensions recipe size | None => ret tt end ;;;
      let* result := save k expected_revision (canonical_bytes recipe) (digest recipe)
                       "import" provenance in
      modify (set_images (fmap (fun i =>
        if bool_decide (image_id i = image)
        then mkImage (image_id i) (image_sequence i) (role i) (origin i) (master_sequence i)
               (copied_from_sequence i) state (pixel_generation i) (applied_shared_epoch i)
        else i))) ;;;
      ret result
  end.

(** ** Operations of the catalog *)

(** A transaction commits what its body did, or undoes all of it. *)
Definition transaction {A} (body : M A) : M A := fun s =>
  match body s with
  | (s', Ok a) => (s', Ok a)
  | (_, Err e) => (s, Err e)
  end.

(** [self.writers.enter(priority)?], whose outcome the caller receives. *)
Definition enter (grant : result string unit) : M unit := lift (message grant).

(** @source src/src/catalog_edits.rs:368-373 Catalog::edit_variant *)
Definition edit_variant (k : VariantKey) : M VariantView := transaction (view k).

(** Rows in ascending order of an integer column. *)
Definition order_by {A} (f : A -> Z) (l : list A) : list A := merge_sort (asc_on f) l.

Fixpoint traverse {A B} (f : A -> M B) (l : list A) : M (list B) :=
  match l with
  | [] => ret []
  | x :: l' => let* y := f x in let* ys := traverse f l' in ret (y :: ys)
  end.

(** @source src/src/catalog_edits.rs:377-407 Catalog::edit_variants *)
Definition edit_variants (asset : string) (after limit : Z) : M (list (Z * VariantView)) :=
  ensure ((1 <=? limit) && (limit <=? 200) && (0 <=? after)) (says "variant page bounds") ;;;
  transaction (
    asset_exists asset ;;;
    let* s := get in
    let rows := filter (fun p => asset_id p.1 = asset /\ after < v_sequence p.2) (map_to_list (variants s)) in
    let keys := take (Z.to_nat limit) (order_by (fun p => v_sequence p.2) rows) in
    traverse (fun p => let* v := view p.1 in ret (v_sequence p.2, v)) keys).

(** The rows of [register_copy] in [catalog_images] and [metadata_assets]; [clone] is
    the outcome of its copies of the observation, source, field and organization rows,
    whose tables are not modelled here. *)
(** @source src/src/catalog_images.rs:254-274 register_copy *)
Definition register_copy (image_uuid : string) (clone : result string unit)
    (k source : VariantKey) : M unit :=
  let* from := id source in
  require_current from ;;;
  let* s := get in
  match image_by_id from s with
  | None => fail no_rows
  | Some (k0, r) =>
      ensure (bool_decide (image_by_id image_uuid s = None)) (says "UNIQUE constraint failed: catalog_images.id") ;;;
      let k' := mkKey (asset_id k0) (variant_id k) in
      ensure (bool_decide (images s !! k' = None))
        (says "UNIQUE constraint failed: catalog_images.asset_id, catalog_images.variant_id") ;;;
      let sequence := fresh_rowid (list_to_set (map (fun p => image_sequence p.2) (map_to_list (images s)))) in
      modify (set_images (<[k' := mkImage image_uuid sequence NativeCopy OriginNative None
        (Some (image_sequence r)) Native 0 (applied_shared_epoch r)]>)) ;;;
      let* target := id k in
      let* s := get in
      ensure (bool_decide (metadata_revisions s !! target = None))
        (says "UNIQUE constraint failed: metadata_assets.asset_id") ;;;
      put (set_metadata_revisions (<[target := default 0 (metadata_revisions s !! from)]>) s) ;;;
      lift (message clone)
  end.

(** @source src/src/catalog_edits.rs:409-451 Catalog::create_edit_variant *)
Definition create_edit_variant (grant : result string unit) (variant_uuid image_uuid : string)
    (clone : result string unit) (source : VariantKey) (expected_revision : Z) (new_label : string)
    : M VariantView :=
  let* input := edit_variant source in
  ensure (revision input =? expected_revision) (says "source edit revision changed") ;;;
  let* _ := lift (canonical (view_recipe input)) in
  let k := mkKey (asset_id source) variant_uuid in
  enter grant ;;;
  transaction (
    let* current := view source in
    ensure ((revision current =? expected_revision)
            && bool_decide (recipe_digest current = recipe_digest input))
      (says "source edit revision changed") ;;;
    register_copy image_uuid clone k source ;;;
    insert_variant k new_label (view_recipe input) ;;;
    let* value := stored k in
    let* value := of_option value (says "new variant unavailable") in
    record_change k 0 "create" (s_cursor value) (s_cursor value)
      (VObject [("source", key_json source); ("source_revision", VNumber expected_revision);
                ("recipe_digest", VString (recipe_digest input))]) ;;;
    view k).

(** @source src/src/catalog_edits.rs:453-479 Catalog::save_edit_recipe *)
Definition save_edit_recipe (grant : result string unit) (k : VariantKey) (expected_revision : Z)
    (recipe : Recipe) : M VariantView :=
  lift (validate_key k) ;;;
  let* c := lift (canonical recipe) in
  enter grant ;;;
  transaction (
    let* dimensions := known_dimensions (asset_id k) in
    match dimensions with
    | Some size => let* v := lift (recipe_error (validate recipe)) in check_dimensions v size
    | None => ret tt
    end ;;;
    save k expected_revision c.1 c.2 "save" json_empty).

(** [SELECT ... WHERE id=? AND asset_id=? AND variant_id=?] on the two immutable
    node tables. *)
Definition redo_node (k : VariantKey) (d : Z) : M RedoNode :=
  let* s := get in
  match redo_nodes s !! d with
  | Some n => if bool_decide (d_key n = k) then ret n else fail no_rows
  | None => fail no_rows
  end.
Definition parent_of (k : VariantKey) (c : Z) : M (option Z) :=
  let* s := get in
  match recipe_nodes s !! c with
  | Some n => if bool_decide (n_key n = k) then ret (n_parent n) else fail no_rows
  | None => fail no_rows
  end.

(** The cursor and redo chain a move leads to; an undo pushes a redo node. *)
(** @source src/src/catalog_edits.rs:509-523 Catalog::move_edit_cursor *)
Definition moved_cursor (k : VariantKey) (current : StoredVariant) (redo : bool) : M (Z * option Z) :=
  if redo then
    let* top := of_option (s_redo current) (says "no edit to redo") in
    let* d := redo_node k top in
    let* parent := parent_of k (d_recipe_node d) in
    ensure (bool_decide (parent = Some (s_cursor current)))
      (says "redo lineage does not match current recipe") ;;;
    ret (d_recipe_node d, d_next d)
  else
    let* parent := parent_of k (s_cursor current) in
    let* parent := of_option parent (says "no edit to undo") in
    let* s := get in
    let rowid := fresh_rowid (dom (redo_nodes s)) in
    put (set_redo_nodes (<[rowid := mkRedo k (s_cursor current) (s_redo current)]>) s) ;;;
    ret (parent, Some rowid).

(** @source src/src/catalog_edits.rs:489-540 Catalog::move_edit_cursor *)
Definition move_edit_cursor (grant : result string unit) (k : VariantKey) (expected : Z)
    (redo : bool) : M VariantView :=
  lift (validate_key k) ;;;
  enter grant ;;;
  transaction (
    let* current := materialize k in
    ensure ((0 <=? expected) && (s_revision current =? expected)) (says "edit revision changed") ;;;
    let* revision := of_option (i64_checked_add (s_revision current) 1)
                       (says "edit revision exhausted") in
    let* ' (node, next_redo) := moved_cursor k current redo in
    update_variant k revision node next_redo ;;;
    record_change k revision (if redo then "redo" else "undo")%string (s_cursor current) node json_empty ;;;
    view k).

(** @source src/src/catalog_edits.rs:481-483 Catalog::undo_edit *)
Definition undo_edit (grant : result string unit) (k : VariantKey) (expected : Z) : M VariantView :=
  move_edit_cursor grant k expected false.
(** @source src/src/catalog_edits.rs:485-487 Catalog::redo_edit *)
Definition redo_edit (grant : result string unit) (k : VariantKey) (expected : Z) : M VariantView :=
  move_edit_cursor grant k expected true.

(** One row of the history page, its joined recipe node and provenance. *)
(** @source src/src/catalog_edits.rs:553-556 Catalog::edit_history *)
Definition history_entry (row : Z * Change) : M EditHistoryEntry :=
  let* s := get in
  match recipe_nodes s !! c_current row.2 with
  | None => fail no_rows
  | Some n =>
      let* recipe := lift (read_recipe (n_recipe n) (n_digest n)) in
      let* provenance := lift (message (value_from_str (c_provenance row.2))) in
      ret (mkEntry row.1 (c_kind row.2) recipe (n_digest n) provenance)
  end.

(** The changes of one variant after a revision, joined with their node. *)
Definition change_rows (k : VariantKey) (after : Z) (s : Db) : list (Z * Change) :=
  order_by fst (omap (fun p =>
    if bool_decide (p.1.1 = k /\ after < p.1.2 /\ is_Some (recipe_nodes s !! c_current p.2))
    then Some (p.1.2, p.2) else None) (map_to_list (changes s))).

(** @source src/src/catalog_edits.rs:542-557 Catalog::edit_history *)
Definition edit_history (k : VariantKey) (after_revision limit : Z) : M (list EditHistoryEntry) :=
  lift (validate_key k) ;;;
  ensure ((1 <=? limit) && (limit <=? 200) && (-1 <=? after_revision))
    (says "edit history page bounds") ;;;
  let* s := get in
  traverse history_entry (take (Z.to_nat limit) (change_rows k after_revision s)).

(** [optional_text(r, 1, 64)]. *)
Definition optional_text (maximum : Z) (s : option string) : result EditError (option string) :=
  match s with
  | None => Ok None
  | Some s => let? s := owned_text maximum s in Ok (Some s)
  end.

(** @source src/src/catalog_edits.rs:559-584 Catalog::edit_render_identity *)
Definition edit_render_identity (k : VariantKey) : M EditRenderIdentity :=
  transaction (
    let* variant := view k in
    let* i := id k in
    let* image := identity i in
    let* s := get in
    match assets s !! asset_id k with
    | None => fail no_rows
    | Some a =>
        let* fingerprint := lift (optional_text 64 (a_fingerprint a)) in
        let* state := lift (owned_text 7 (a_state a)) in
        ret (mkEditRender (Some image)
               (mkRender (asset_id k) (a_physical_generation a) fingerprint state (i_metadata_revision image))
               k (revision variant) (recipe_digest variant))
    end).

(** The branch for an identity with its image: whether it still holds. *)
(** @source src/src/catalog_edits.rs:611-635 Catalog::with_edit_transaction *)
Definition image_identity_current (expected : EditRenderIdentity) (image : ImageMetadataIdentity) : M bool :=
  let* current_image := try (require_image_metadata_identity image) in
  if negb (is_ok current_image) then ret false else
  let* s := get in
  match assets s !! asset_id (e_key expected) with
  | None => fail no_rows
  | Some a =>
      let* fingerprint := lift (optional_text 64 (a_fingerprint a)) in
      let* state := lift (owned_text 7 (a_state a)) in
      let* current := view (e_key expected) in
      let source := e_source expected in
      ret ((a_physical_generation a =? r_generation source)
           && bool_decide (fingerprint = r_fingerprint source)
           && bool_decide (state = r_state source)
           && (i_metadata_revision image =? r_metadata_revision source)
           && (revision current =? e_revision expected)
           && bool_decide (recipe_digest current = e_digest expected))
  end.

(** The branch without: [with_render_transaction] and the edit check inside it. *)
(** @source src/src/catalog_metadata.rs:1314-1332 Catalog::with_render_transaction *)
Definition render_identity_current (expected : EditRenderIdentity) : M bool :=
  let* s := get in
  let source := e_source expected in
  match assets s !! r_asset source with
  | None => ret false
  | Some a =>
      let* fingerprint := lift (optional_text 64 (a_fingerprint a)) in
      let* state := lift (owned_text 7 (a_state a)) in
      if (a_render_generation a =? r_generation source)
         && bool_decide (fingerprint = r_fingerprint source) && bool_decide (state = r_state source)
      then let* current := view (e_key expected) in
           ret ((revision current =? e_revision expected)
                && bool_decide (recipe_digest current = e_digest expected))
      else ret false
  end.

(** [attach] runs only in a transaction in which the identity still holds. *)
(** @source src/src/catalog_edits.rs:594-651 Catalog::with_edit_transaction *)
Definition with_edit_transaction {T} (grant : result string unit) (expected : EditRenderIdentity)
    (attach : M T) : M (option T) :=
  lift (validate_key (e_key expected)) ;;;
  ensure (bool_decide (asset_id (e_key expected) = r_asset (e_source expected)))
    (says "mixed edit/source identities") ;;;
  match e_image expected with
  | Some image =>
      ensure (bool_decide (i_key image = e_key expected)) (says "mixed logical image identity") ;;;
      enter grant ;;;
      transaction (
        let* current := image_identity_current expected image in
        if current then let* result := attach in ret (Some result) else ret None)
  | None =>
      enter grant ;;;
      transaction (
        let* current := render_identity_current expected in
        if current then let* result := attach in ret (Some result) else ret None)
  end.
End Edits.
