(* ===== verification/EditLineage.v ===== *)
(** The lineage invariant of edit variants, and what it gives undo, redo,
    revisions and history: theorems about src/src/catalog_edits.rs. *)
From stdpp Require Import base tactics option list numbers gmap strings fin_maps sorting.
From Stdlib Require Import ZArith Lia.
From S2P Require Import Prelude Recipe CatalogEdits.

Open Scope Z_scope.
Local Open Scope prog_scope.

(** ** The invariant *)

(** The redo nodes reachable from a variant replay, in order, children of the
    recipe under the cursor. *)
Inductive redo_chain (nodes : gmap Z RecipeNode) (redos : gmap Z RedoNode) (k : VariantKey)
    : Z -> option Z -> Prop :=
| chain_end c : redo_chain nodes redos k c None
| chain_step c d rn n :
    redos !! d = Some rn -> d_key rn = k ->
    nodes !! d_recipe_node rn = Some n -> n_key n = k -> n_parent n = Some c ->
    redo_chain nodes redos k (d_recipe_node rn) (d_next rn) ->
    redo_chain nodes redos k c (Some d).

(** A recipe node is a finite number of edits away from a root of its variant. *)
Inductive lineage (nodes : gmap Z RecipeNode) (k : VariantKey) : Z -> nat -> Prop :=
| lineage_root c n : nodes !! c = Some n -> n_key n = k -> n_parent n = None -> lineage nodes k c 0
| lineage_edit c n p depth :
    nodes !! c = Some n -> n_key n = k -> n_parent n = Some p ->
    lineage nodes k p depth -> lineage nodes k c (S depth).

Section Lineage.
Context {CODEC : EditCodec} {IDS : RowIds}.

(** A node whose document [view] accepts. *)
Definition readable (n : RecipeNode) : Prop :=
  Z.of_nat (length (n_recipe n)) <= MAX_RECIPE_BYTES /\ length_of (n_digest n) <= 64 /\
  is_ok (read_recipe (n_recipe n) (n_digest n)) = true.

(** One variant: its image, its cursor, its redo chain and its revision. *)
Record variant_ok (s : Db) (k : VariantKey) (v : VariantRow) : Prop := {
  vo_image : is_Some (images s !! k);
  vo_label : length_of (v_label v) <= 1024;
  vo_revision : 0 <= v_revision v <= i64_max;
  vo_cursor : exists c depth, v_cursor v = Some c /\ lineage (recipe_nodes s) k c depth /\
    redo_chain (recipe_nodes s) (redo_nodes s) k c (v_redo v);
}.

(** Its changes: one for each revision from 1 to the present, each starting
    where the one before it ended, the last at the cursor. *)
Record history_ok (s : Db) (k : VariantKey) (v : VariantRow) : Prop := {
  ho_complete : forall r, 1 <= r <= v_revision v -> is_Some (changes s !! (k, r));
  ho_latest : forall c, changes s !! (k, v_revision v) = Some c -> v_cursor v = Some (c_current c);
  ho_linked : forall r c c', changes s !! (k, r) = Some c -> changes s !! (k, r + 1) = Some c' ->
    c_previous c' = Some (c_current c);
}.

Record change_ok (s : Db) (k : VariantKey) (r : Z) (c : Change) : Prop := {
  co_variant : exists v, variants s !! k = Some v /\ 0 <= r <= v_revision v;
  co_node : exists n, recipe_nodes s !! c_current c = Some n /\ n_key n = k;
  co_provenance : exists value, value_to_string value = Ok (c_provenance c);
}.

Record edits_ok (s : Db) : Prop := {
  eo_variants : map_Forall (variant_ok s) (variants s);
  eo_history : map_Forall (history_ok s) (variants s);
  eo_changes : forall k r c, changes s !! (k, r) = Some c -> change_ok s k r c;
  eo_readable : map_Forall (fun _ n => readable n) (recipe_nodes s);
}.

(** ** Growth: node tables only ever gain rows *)

Lemma lineage_mono nodes nodes' k c depth :
  nodes ⊆ nodes' -> lineage nodes k c depth -> lineage nodes' k c depth.
Proof.
  intros Hsub. induction 1; [eapply lineage_root|eapply lineage_edit]; eauto using lookup_weaken.
Qed.
Lemma redo_chain_mono nodes nodes' redos redos' k c d :
  nodes ⊆ nodes' -> redos ⊆ redos' -> redo_chain nodes redos k c d -> redo_chain nodes' redos' k c d.
Proof.
  intros Hn Hr. induction 1; [apply chain_end|eapply chain_step]; eauto using lookup_weaken.
Qed.
Lemma lineage_node nodes k c depth :
  lineage nodes k c depth -> exists n, nodes !! c = Some n /\ n_key n = k.
Proof. destruct 1; eauto. Qed.

Lemma variant_ok_mono s s' k v :
  images s' = images s -> recipe_nodes s ⊆ recipe_nodes s' -> redo_nodes s ⊆ redo_nodes s' ->
  variant_ok s k v -> variant_ok s' k v.
Proof.
  intros Hi Hn Hr [H1 H2 H3 (c & depth & H4 & H5 & H6)].
  split; [by rewrite Hi|done|done|]. exists c, depth.
  split; [done|]. eauto using lineage_mono, redo_chain_mono.
Qed.

Lemma fresh_node (nodes : gmap Z RecipeNode) (n : RecipeNode) :
  nodes ⊆ <[fresh_rowid (dom nodes) := n]> nodes /\ nodes !! fresh_rowid (dom nodes) = None.
Proof.
  assert (nodes !! fresh_rowid (dom nodes) = None) by apply not_elem_of_dom, fresh_rowid_unused.
  split; [by apply insert_subseteq|done].
Qed.
Lemma fresh_redo (redos : gmap Z RedoNode) n :
  redos ⊆ <[fresh_rowid (dom redos) := n]> redos.
Proof. by apply insert_subseteq, not_elem_of_dom, fresh_rowid_unused. Qed.

Lemma readable_insert (nodes : gmap Z RecipeNode) i n :
  readable n -> map_Forall (fun _ n => readable n) nodes ->
  map_Forall (fun _ n => readable n) (<[i := n]> nodes).
Proof. intros Hn Hall. by apply map_Forall_insert_2. Qed.

(** ** Advancing one variant: the shared tail of [save] and of a cursor move *)

Definition advanced (k : VariantKey) (revision cursor : Z) (redo : option Z) (kind : string)
    (previous : Z) (text : string) (s : Db) : Db :=
  set_changes (<[(k, revision) := mkChange kind (Some previous) cursor text]>)
    (set_variants (alter (fun v => mkVariant (v_sequence v) (v_label v) revision (Some cursor) redo) k) s).

Lemma advanced_inv k revision cursor redo kind previous provenance s s' :
  (update_variant k revision cursor redo ;;;
   record_change k revision kind previous cursor provenance) s = (s', Ok tt) ->
  exists text, value_to_string provenance = Ok text /\ length_of text <= MAX_RECIPE_BYTES /\
    s' = advanced k revision cursor redo kind previous text s.
Proof.
  unfold update_variant, record_change. intros H. take_apart H.
  destruct (value_to_string provenance) as [text|]; [|done]. injection Hl as <-.
  exists text. apply Z.leb_le in Hb. injection H as <-. auto.
Qed.

(** Nodes and redo nodes have grown to [s1] from a good state [s]; advancing a
    variant to a node of its own whose redo chain is good keeps the invariant. *)
Lemma advance_ok k v cursor previous redo kind text s nodes redos :
  edits_ok s -> recipe_nodes s ⊆ nodes -> redo_nodes s ⊆ redos ->
  map_Forall (fun _ n => readable n) nodes ->
  variants s !! k = Some v -> v_cursor v = Some previous -> v_revision v + 1 <= i64_max ->
  (exists depth, lineage nodes k cursor depth) -> redo_chain nodes redos k cursor redo ->
  (exists value, value_to_string value = Ok text) ->
  edits_ok (advanced k (v_revision v + 1) cursor redo kind previous text
              (set_redo_nodes (fun _ => redos) (set_recipe_nodes (fun _ => nodes) s))).
Proof.
  intros Hs Hn Hr Hread Hv Hc Hmax [depth Hlin] Hchain Htext.
  pose proof (eo_variants s Hs k v Hv) as Hvo. pose proof (eo_history s Hs k v Hv) as Hho.
  assert (forall r c, changes s !! (k, r) = Some c -> 0 <= r <= v_revision v) as Hrange.
  { intros r c Hch. destruct (co_variant _ _ _ _ (eo_changes s Hs _ _ _ Hch)) as (v' & Hv' & ?).
    congruence. }
  assert (forall r, 1 <= r <= v_revision v -> (k, r) <> (k, v_revision v + 1)) as Hne
    by (intros; intros [=]; lia).
  split; cbn.
  - intros k' v' [(<- & v0 & Hv0 & ->)|[Hk Hv']]%lookup_alter_Some.
    + assert (v0 = v) as -> by congruence. split; cbn.
      * apply Hvo.
      * apply Hvo.
      * pose proof (vo_revision _ _ _ Hvo). lia.
      * eauto.
    + apply (variant_ok_mono s); auto. by apply (eo_variants s Hs).
  - intros k' v' [(<- & v0 & Hv0 & ->)|[Hk Hv']]%lookup_alter_Some.
    + assert (v0 = v) as -> by congruence. split; cbn.
      * intros r Hr1. destruct (decide (r = v_revision v + 1)) as [->|].
        { by rewrite lookup_insert_eq. }
        rewrite lookup_insert_ne by congruence. apply Hho. lia.
      * intros c. rewrite lookup_insert_eq. by intros [= <-].
      * intros r c c' H1 H2.
        apply lookup_insert_Some in H2 as [[[= Hr1] <-]|[Hne2 H2]].
        { assert (r = v_revision v) as -> by lia. rewrite lookup_insert_ne in H1 by (intros [=]; lia).
          apply Hho in H1. cbn. congruence. }
        apply lookup_insert_Some in H1 as [[[= <-] <-]|[_ H1]]; [apply Hrange in H2; lia|].
        by eapply (ho_linked _ _ _ Hho).
    + pose proof (eo_history s Hs k' v' Hv') as H'. split; cbn.
      * intros r Hr1. rewrite lookup_insert_ne by congruence. by apply H'.
      * intros c. rewrite lookup_insert_ne by congruence. apply H'.
      * intros r c c'. rewrite !lookup_insert_ne by congruence. apply H'.
  - intros k' r c [[[= <- <-] <-]|[Hk Hch]]%lookup_insert_Some.
    + split; cbn.
      * eexists. split; [by rewrite lookup_alter_eq, Hv|]. cbn. pose proof (vo_revision _ _ _ Hvo). lia.
      * by eapply lineage_node.
      * done.
    + destruct (eo_changes s Hs _ _ _ Hch) as [(v' & Hv' & Hr') (n & Hn' & Hk') Hp]. split; cbn.
      * destruct (decide (k' = k)) as [->|].
        { eexists. split; [by rewrite lookup_alter_eq, Hv|]. cbn. assert (v' = v) as -> by congruence. lia. }
        exists v'. by rewrite lookup_alter_ne by congruence.
      * exists n. eauto using lookup_weaken.
      * done.
  - done.
Qed.

(** ** Calls that only read *)

Definition reads {A} (m : M A) : Prop := forall s, preserves (eq s) m.

Lemma reads_run {A} (m : M A) s s' r : reads m -> m s = (s', r) -> s' = s.
Proof. intros Hm H. specialize (Hm s s eq_refl). rewrite H in Hm. by destruct r. Qed.

Lemma id_reads k : reads (id k).
Proof. intros s. unfold id. preserve. Qed.
Lemma require_current_reads i : reads (require_current i).
Proof. intros s. unfold require_current. preserve. Qed.
Lemma stored_reads k : reads (stored k).
Proof. intros s. unfold stored. preserve. Qed.
Lemma asset_exists_reads a : reads (asset_exists a).
Proof. intros s. unfold asset_exists. preserve. Qed.
Lemma known_dimensions_reads a : reads (known_dimensions a).
Proof. intros s. unfold known_dimensions. preserve. Qed.
Lemma identity_reads i : reads (identity i).
Proof. intros s. unfold identity. preserve; apply require_current_reads. Qed.
Lemma view_reads k : reads (view k).
Proof. intros s. unfold view. preserve; first [apply id_reads|apply stored_reads|apply asset_exists_reads]. Qed.
Lemma check_dimensions_reads v sz : reads (check_dimensions v sz).
Proof. intros s. unfold check_dimensions. preserve. Qed.
Lemma history_entry_reads r : reads (history_entry r).
Proof. intros s. unfold history_entry. preserve. Qed.
Lemma traverse_reads {A B} (f : A -> M B) l : (forall a, reads (f a)) -> reads (traverse f l).
Proof. intros Hf s. induction l; cbn; preserve. by apply Hf. Qed.

(** ** [materialize] *)

(** The variant's row as [stored] returns it. *)
Definition row_of (cur : StoredVariant) (v : VariantRow) : Prop :=
  v_label v = s_label cur /\ v_revision v = s_revision cur /\
  v_cursor v = Some (s_cursor cur) /\ v_redo v = s_redo cur.

Lemma stored_inv k s s' o :
  stored k s = (s', Ok o) ->
  s' = s /\ validate_key k = Ok tt /\
  match o with
  | None => variants s !! k = None
  | Some cur => exists v, variants s !! k = Some v /\ row_of cur v /\ length_of (s_label cur) <= 1024
  end.
Proof.
  intros H. pose proof (reads_run _ _ _ _ (stored_reads k) H) as ->. split; [done|].
  unfold stored in H. take_apart H. destruct x0. split; [done|].
  destruct (variants s !! k) as [v|] eqn:Hv; [|injection H as <-; done].
  take_apart H. unfold owned_text in Hl0. destruct (Z.leb_spec (length_of (v_label v)) 1024); [|done].
  injection Hl0 as <-. destruct (v_cursor v) as [c|] eqn:Hc; [|done]. injection H as <-.
  exists v. unfold row_of. cbn. split_and!; done.
Qed.

Lemma stored_ok k s v c :
  validate_key k = Ok tt -> variants s !! k = Some v -> v_cursor v = Some c ->
  length_of (v_label v) <= 1024 ->
  stored k s = (s, Ok (Some (mkStored (v_label v) (v_revision v) c (v_redo v)))).
Proof.
  intros Hk Hv Hc Hl. unfold stored. rewrite Hk. run. rewrite Hv. unfold owned_text.
  rewrite (proj2 (Z.leb_le _ _) Hl). run. by rewrite Hc.
Qed.

Lemma canonical_inv r c : canonical r = Ok c -> exists v, validate r = Ok v /\
  Z.of_nat (length (canonical_bytes v)) <= MAX_RECIPE_BYTES /\ c = (canonical_bytes v, digest v).
Proof.
  intros (v & Hv & H)%rbind_Ok. apply rbind_Ok in H as (? & Hb & [= <-]).
  unfold recipe_error in Hv. destruct (validate r) as [v'|]; [|done]. injection Hv as ->.
  unfold rensure in Hb. destruct (Z.leb_spec (Z.of_nat (length (canonical_bytes v))) MAX_RECIPE_BYTES); [|done].
  eauto.
Qed.

(** The default recipe's document can be stored and read back: the one document
    that no [view] checks in the transaction that inserts it. *)
Definition default_readable : Prop :=
  forall c, canonical default_Recipe = Ok c -> readable (mkNode (mkKey "" "") None c.1 c.2).

Lemma readable_key n k p : readable n -> readable (mkNode k p (n_recipe n) (n_digest n)).
Proof. done. Qed.

(** The state of a new variant with its root node. *)
Definition with_variant (k : VariantKey) (label : string) (b : bytes) (digest : string) (s : Db) : Db :=
  let node := fresh_rowid (dom (recipe_nodes s)) in
  set_variants (<[k := mkVariant (variant_sequence s + 1) label 0 (Some node) None]>)
    (set_variant_sequence (variant_sequence s + 1)
      (set_recipe_nodes (<[node := mkNode k None b digest]>) s)).

Lemma insert_variant_inv k label recipe s s' :
  insert_variant k label recipe s = (s', Ok tt) ->
  exists c, canonical recipe = Ok c /\ is_Some (images s !! k) /\ is_Some (assets s !! asset_id k) /\
    variants s !! k = None /\ length_of label <= 1024 /\ s' = with_variant k label c.1 c.2 s.
Proof.
  intros H. unfold insert_variant, insert_node in H. take_apart H.
  apply andb_true_iff in Hb as [_ Hb]. apply Z.leb_le in Hb.
  apply bool_decide_eq_true in Hb0, Hb1, Hb2. injection H as <-.
  eexists. split_and!; [exact Hl0|done..|]. unfold with_variant, set_variants, set_recipe_nodes, set_variant_sequence. cbn.
  f_equal. by rewrite alter_insert_eq.
Qed.

Lemma with_variant_ok k label b digest s :
  edits_ok s -> variants s !! k = None -> is_Some (images s !! k) -> length_of label <= 1024 ->
  readable (mkNode k None b digest) -> edits_ok (with_variant k label b digest s).
Proof.
  intros Hs Hv Hi Hl Hr. unfold with_variant.
  destruct (fresh_node (recipe_nodes s) (mkNode k None b digest)) as [Hsub Hnew].
  set (node := fresh_rowid _) in *.
  assert (forall r, changes s !! (k, r) = None) as Hnone.
  { intros r. destruct (changes s !! (k, r)) as [c|] eqn:Hc; [|done].
    destruct (co_variant _ _ _ _ (eo_changes s Hs _ _ _ Hc)) as (v & ? & _). congruence. }
  split; cbn.
  - intros k' v' [[<- <-]|[Hk Hv']]%lookup_insert_Some.
    + split; cbn; [done|done|unfold i64_max; lia|]. exists node, 0%nat. split; [done|].
      split; [|apply chain_end]. eapply lineage_root; [by rewrite lookup_insert_eq|done|done].
    + apply (variant_ok_mono s); auto. by apply (eo_variants s Hs).
  - intros k' v' [[<- <-]|[Hk Hv']]%lookup_insert_Some.
    + split; cbn; [intros; lia|intros c; by rewrite Hnone|intros r c c'; by rewrite Hnone].
    + destruct (eo_history s Hs k' v' Hv'). split; cbn; eauto.
  - intros k' r c Hc. destruct (eo_changes s Hs _ _ _ Hc) as [(v & Hv' & ?) (n & Hn & ?) ?].
    split; cbn; [|exists n; eauto using lookup_weaken|done].
    exists v. rewrite lookup_insert_ne by congruence. auto.
  - by apply readable_insert, Hs.
Qed.

(** What [materialize] leaves: the row it returned, in a good state that differs
    at most by the new master of [k]. *)
Record materialized (k : VariantKey) (cur : StoredVariant) (s s' : Db) : Prop := {
  mt_ok : edits_ok s';
  mt_row : exists v, variants s' !! k = Some v /\ row_of cur v;
  mt_same : variants s !! k <> None -> s' = s;
  mt_new : variants s !! k = None -> s_revision cur = 0 /\ s_redo cur = None /\ variant_id k = MASTER /\
    exists n, recipe_nodes s' !! s_cursor cur = Some n /\ n_parent n = None /\
      canonical default_Recipe = Ok (n_recipe n, n_digest n) /\ n_key n = k;
  mt_nodes : recipe_nodes s ⊆ recipe_nodes s';
  mt_redos : redo_nodes s' = redo_nodes s;
  mt_images : images s' = images s;
  mt_others : forall k', k' <> k -> variants s' !! k' = variants s !! k';
  mt_changes : changes s' = changes s;
  mt_frame : assets s' = assets s /\ shared_epochs s' = shared_epochs s /\
    metadata_revisions s' = metadata_revisions s;
  mt_created : variants s !! k = None -> exists d, canonical default_Recipe = Ok d /\
    recipe_nodes s !! s_cursor cur = None /\ recipe_nodes s' = <[s_cursor cur := mkNode k None d.1 d.2]> (recipe_nodes s) /\
    variants s' !! k = Some (mkVariant (variant_sequence s + 1) "Original" 0 (Some (s_cursor cur)) None) /\
    variant_sequence s' = variant_sequence s + 1;
}.

Lemma materialize_inv (Hdef : default_readable) k s s' cur :
  edits_ok s -> materialize k s = (s', Ok cur) -> materialized k cur s s'.
Proof.
  intros Hs H. unfold materialize in H.
  apply bind_Ok_inv in H as (? & image & Hid & H). pose proof (reads_run _ _ _ _ (id_reads k) Hid) as ->.
  apply bind_Ok_inv in H as (? & ? & Hcur & H).
  pose proof (reads_run _ _ _ _ (require_current_reads image) Hcur) as ->.
  apply bind_Ok_inv in H as (? & o & Hst & H).
  apply stored_inv in Hst as (-> & Hk & Hst). destruct o as [cur'|].
  - injection H as <- <-. destruct Hst as (v & Hv & Hrow & _).
    split; [done|eauto|done|congruence|done|done|done|done|done|done|congruence].
  - take_apart H. apply bool_decide_eq_true in Hb.
    apply bind_Ok_inv in H as (? & ? & Ha & H). pose proof (reads_run _ _ _ _ (asset_exists_reads _) Ha) as ->.
    apply bind_Ok_inv in H as (s1 & [] & Hins & H).
    apply insert_variant_inv in Hins as (c & Hc & Hi & _ & _ & Hl & ->).
    apply bind_Ok_inv in H as (? & o & Hst2 & H). apply stored_inv in Hst2 as (-> & _ & Hst2).
    unfold of_option in H. destruct o as [cur'|]; [|done]. injection H as <- <-.
    destruct Hst2 as (v & Hv & Hrow & _).
    assert (edits_ok (with_variant k "Original" c.1 c.2 s)) as Hok
      by (apply with_variant_ok; [done..|by apply (Hdef c)]).
    split; [done|eauto|congruence| |by apply fresh_node|done|done| |done|done|].
    + intros _. cbn in Hv. rewrite lookup_insert_eq in Hv. injection Hv as <-.
      destruct Hrow as (_ & H1 & H3 & H2). cbn in *. injection H3 as <-. split_and!; [done..|].
      eexists. rewrite lookup_insert_eq. split_and!; [done|done|cbn; by destruct c|done].
    + intros k' Hk'. cbn. by rewrite lookup_insert_ne by congruence.
    + intros _. exists c. cbn in Hv. rewrite lookup_insert_eq in Hv. injection Hv as <-.
      destruct Hrow as (_ & _ & H3 & _). cbn in *. injection H3 as <-.
      split_and!; [done|by apply (fresh_node _ (mkNode k None c.1 c.2))|done|by rewrite lookup_insert_eq|done].
Qed.

(** ** [view] *)

Lemma id_inv k s s' i : id k s = (s', Ok i) ->
  s' = s /\ validate_key k = Ok tt /\ length_of i <= 256 /\ exists r, images s !! k = Some r /\ image_id r = i.
Proof.
  intros H. pose proof (reads_run _ _ _ _ (id_reads k) H) as ->. unfold id in H. take_apart H.
  destruct x0. destruct (images s !! k) as [r|] eqn:Hr; [|done].
  destruct (Z.leb_spec (length_of (image_id r)) 256); [|done]. injection H as <-. split_and!; eauto.
Qed.

Lemma owned_text_inv n t u : owned_text n t = Ok u -> u = t /\ length_of t <= n.
Proof. unfold owned_text. destruct (Z.leb_spec (length_of t) n); [by intros [= <-]|done]. Qed.
Lemma owned_text_ok n t : length_of t <= n -> owned_text n t = Ok t.
Proof. intros H. unfold owned_text. by rewrite (proj2 (Z.leb_le _ _) H). Qed.

(** The view of a stored variant is its row and the node under its cursor. *)
Definition view_of (k : VariantKey) (v : VariantRow) (n : RecipeNode) (w : VariantView) : Prop :=
  key w = k /\ label w = v_label v /\ revision w = v_revision v /\
  read_recipe (n_recipe n) (n_digest n) = Ok (view_recipe w) /\ recipe_digest w = n_digest n /\
  can_undo w = bool_decide (is_Some (n_parent n)) /\ can_redo w = bool_decide (is_Some (v_redo v)).

Lemma view_inv k s s' w :
  view k s = (s', Ok w) ->
  s' = s /\
  match variants s !! k with
  | Some v => exists c n, v_cursor v = Some c /\ recipe_nodes s !! c = Some n /\ n_key n = k /\
      readable n /\ view_of k v n w
  | None => variant_id k = MASTER /\ is_Some (assets s !! asset_id k) /\
      view_recipe w = default_Recipe /\ revision w = 0 /\ can_undo w = false /\ can_redo w = false
  end.
Proof.
  intros H. pose proof (reads_run _ _ _ _ (view_reads k) H) as ->. split; [done|].
  unfold view in H. apply bind_Ok_inv in H as (? & i & (-> & _ & _)%id_inv & H).
  apply bind_Ok_inv in H as (? & o & (-> & _ & Hst)%stored_inv & H). destruct o as [cur|].
  - destruct Hst as (v & -> & (Hl1 & Hr & Hc & Hd) & _). take_apart H.
    destruct (recipe_nodes s !! s_cursor cur) as [n|] eqn:Hn; [|done].
    destruct (bool_decide_reflect (n_key n = k)) as [Hk|]; [|done]. take_apart H.
    apply owned_text_inv in Hl0 as [-> Hdl]. unfold rensure in Hl.
    destruct (Z.leb_spec (Z.of_nat (length (n_recipe n))) MAX_RECIPE_BYTES); [|done].
    injection H as <-. exists (s_cursor cur), n. unfold readable, view_of. rewrite Hl2. cbn.
    rewrite Hl1, Hr, Hd. split_and!; done.
  - rewrite Hst. take_apart H. apply bool_decide_eq_true in Hb.
    apply bind_Ok_inv in H as (? & ? & Ha & H). unfold asset_exists in Ha. take_apart Ha.
    apply ensure_Ok_inv in Ha as [Ha ->]. apply bool_decide_eq_true in Ha. take_apart H.
    injection H as <-. cbn. split_and!; done.
Qed.

(** A stored variant in a good state always has a view. *)
Lemma view_ok k s v i :
  edits_ok s -> variants s !! k = Some v -> id k s = (s, Ok i) -> exists w, view k s = (s, Ok w).
Proof.
  intros Hs Hv Hi. destruct (id_inv _ _ _ _ Hi) as (_ & Hk & _).
  destruct (eo_variants s Hs k v Hv) as [_ Hl _ (c & depth & Hc & Hlin & _)].
  destruct (lineage_node _ _ _ _ Hlin) as (n & Hn & Hkey).
  destruct (eo_readable s Hs c n Hn) as (Hlen & Hdig & Hread).
  unfold view. rewrite (bind_ok _ _ _ _ _ Hi), (bind_ok _ _ _ _ _ (stored_ok k s v c Hk Hv Hc Hl)).
  run. cbn [s_cursor]. rewrite Hn, bool_decide_true by done. unfold rensure.
  rewrite (proj2 (Z.leb_le _ _) Hlen). run. rewrite owned_text_ok by done. run.
  destruct (read_recipe _ _) as [r|]; [|done]. run. eauto.
Qed.

(** ** [save] *)

Record saved (k : VariantKey) (expected : Z) (b : bytes) (digest kind : string) (s s' : Db)
    (cur : StoredVariant) (s0 : Db) (text : string) (w : VariantView) : Prop := {
  sv_materialized : materialized k cur s s0;
  sv_expected : 0 <= expected /\ s_revision cur = expected /\ expected + 1 <= i64_max;
  sv_state : s' = advanced k (expected + 1) (fresh_rowid (dom (recipe_nodes s0))) None kind (s_cursor cur) text
    (set_recipe_nodes (<[fresh_rowid (dom (recipe_nodes s0)) := mkNode k (Some (s_cursor cur)) b digest]>) s0);
  sv_text : exists value, value_to_string value = Ok text;
  sv_view : view k s' = (s', Ok w);
}.

Lemma i64_checked_add_inv a c : i64_checked_add a 1 = Some c -> c = a + 1 /\ a + 1 <= i64_max.
Proof.
  unfold i64_checked_add. destruct (_ && _) eqn:H; [|done]. intros [= <-].
  apply andb_true_iff in H as [_ H%Z.leb_le]. auto.
Qed.

Lemma i64_checked_add_ok a : 0 <= a -> a + 1 <= i64_max -> i64_checked_add a 1 = Some (a + 1).
Proof.
  intros Ha Hm. pose proof (Z.pow_nonneg 2 63 ltac:(lia)). unfold i64_checked_add.
  destruct (Z.leb_spec (- 2 ^ 63) (a + 1)), (Z.leb_spec (a + 1) i64_max); [done|lia|lia|lia].
Qed.

Lemma save_inv (Hdef : default_readable) k expected b digest kind provenance s s' w :
  edits_ok s -> save k expected b digest kind provenance s = (s', Ok w) ->
  exists cur s0 text, saved k expected b digest kind s s' cur s0 text w.
Proof.
  intros Hs H. unfold save in H. apply bind_Ok_inv in H as (s0 & cur & Hm & H).
  apply (materialize_inv Hdef) in Hm; [|done]. unfold insert_node in H. take_apart H.
  apply i64_checked_add_inv in Ho as [-> Hmax]. apply andb_true_iff in Hb as [He%Z.leb_le Hc%Z.eqb_eq].
  apply bind_Ok_inv in H as (s1 & [] & Hu & H). apply bind_Ok_inv in H as (s2 & [] & Hr & H).
  destruct (advanced_inv k (s_revision cur + 1) (fresh_rowid (dom (recipe_nodes s0))) None kind
    (s_cursor cur) provenance (set_recipe_nodes (<[fresh_rowid (dom (recipe_nodes s0)) :=
      mkNode k (Some (s_cursor cur)) b digest]>) s0) s2) as (text & Ht & Htl & ->).
  { by rewrite (bind_ok _ _ _ _ _ Hu). }
  pose proof (reads_run _ _ _ _ (view_reads k) H) as ->.
  exists cur, s0, text. rewrite Hc in *. split; eauto.
Qed.

Lemma saved_ok k expected b digest kind s s' cur s0 text w :
  saved k expected b digest kind s s' cur s0 text w -> edits_ok s'.
Proof.
  intros [Hm (He & Hrev & Hmax) -> Htext Hview].
  destruct (mt_row _ _ _ _ Hm) as (v & Hv & _ & Hvr & Hvc & _). pose proof (mt_ok _ _ _ _ Hm) as H0.
  set (n := mkNode k (Some (s_cursor cur)) b digest) in *.
  destruct (fresh_node (recipe_nodes s0) n) as [Hsub Hnew]. set (node := fresh_rowid _) in *.
  destruct (vo_cursor _ _ _ (eo_variants s0 H0 k v Hv)) as (c & depth & Hc & Hlin & _).
  assert (c = s_cursor cur) as -> by congruence. rewrite <-Hrev, <-Hvr.
  refine (advance_ok k v node (s_cursor cur) None kind text s0
    (<[node := n]> (recipe_nodes s0)) (redo_nodes s0) H0 Hsub _ _ Hv Hvc _ _ _ Htext).
  - done.
  - apply readable_insert; [|apply H0]. apply view_inv in Hview as [_ Hview]. cbn in Hview.
    rewrite lookup_alter_eq, Hv in Hview. destruct Hview as (c' & n' & Hc' & Hn' & _ & Hread & _).
    cbn in Hc'. injection Hc' as <-. cbn in Hn'. rewrite lookup_insert_eq in Hn'. by injection Hn' as <-.
  - lia.
  - exists (S depth). eapply lineage_edit; [by rewrite lookup_insert_eq|done|done|].
    by apply (lineage_mono (recipe_nodes s0)).
  - apply chain_end.
Qed.

(** ** Undo and redo *)

Lemma transaction_Ok {A} (m : M A) s s' a : transaction m s = (s', Ok a) <-> m s = (s', Ok a).
Proof. unfold transaction. destruct (m s) as [t [b|e]]; naive_solver. Qed.
Lemma transaction_Err {A} (m : M A) s s' e : transaction m s = (s', Err e) -> s' = s.
Proof. unfold transaction. destruct (m s) as [t [b|e']]; naive_solver. Qed.

(** Where a move leads from the good state [s0], and the redo nodes it leaves. *)
Inductive moves (k : VariantKey) (cur : StoredVariant) (s0 : Db)
    : bool -> Z -> option Z -> gmap Z RedoNode -> Prop :=
| moves_undo n p :
    recipe_nodes s0 !! s_cursor cur = Some n -> n_key n = k -> n_parent n = Some p ->
    moves k cur s0 false p (Some (fresh_rowid (dom (redo_nodes s0))))
      (<[fresh_rowid (dom (redo_nodes s0)) := mkRedo k (s_cursor cur) (s_redo cur)]> (redo_nodes s0))
| moves_redo top d n :
    s_redo cur = Some top -> redo_nodes s0 !! top = Some d -> d_key d = k ->
    recipe_nodes s0 !! d_recipe_node d = Some n -> n_key n = k -> n_parent n = Some (s_cursor cur) ->
    moves k cur s0 true (d_recipe_node d) (d_next d) (redo_nodes s0).

Definition move_kind (redo : bool) : string := if redo then "redo" else "undo".

Record moved (redo : bool) (k : VariantKey) (expected : Z) (s s' : Db) (cur : StoredVariant) (s0 : Db)
    (cursor : Z) (next : option Z) (redos : gmap Z RedoNode) (text : string) (w : VariantView) : Prop := {
  mv_materialized : materialized k cur s s0;
  mv_expected : 0 <= expected /\ s_revision cur = expected /\ expected + 1 <= i64_max;
  mv_moves : moves k cur s0 redo cursor next redos;
  mv_state : s' = advanced k (expected + 1) cursor next (move_kind redo) (s_cursor cur) text
                    (set_redo_nodes (fun _ => redos) s0);
  mv_text : value_to_string json_empty = Ok text /\ length_of text <= MAX_RECIPE_BYTES;
  mv_view : view k s' = (s', Ok w);
}.

Lemma parent_of_inv k c s s' p : parent_of k c s = (s', Ok p) ->
  s' = s /\ exists n, recipe_nodes s !! c = Some n /\ n_key n = k /\ n_parent n = p.
Proof.
  unfold parent_of. rewrite bind_get. destruct (recipe_nodes s !! c) as [n|]; [|done].
  case_bool_decide; [|done]. intros [= <- <-]. eauto 6.
Qed.
Lemma redo_node_inv k d s s' n : redo_node k d s = (s', Ok n) ->
  s' = s /\ redo_nodes s !! d = Some n /\ d_key n = k.
Proof.
  unfold redo_node. rewrite bind_get. destruct (redo_nodes s !! d) as [n'|]; [|done].
  case_bool_decide; [|done]. intros [= <- <-]. auto.
Qed.

Lemma parent_of_ok k c s n : recipe_nodes s !! c = Some n -> n_key n = k ->
  parent_of k c s = (s, Ok (n_parent n)).
Proof. intros Hn Hk. unfold parent_of. run. by rewrite Hn, bool_decide_true. Qed.
Lemma redo_node_ok k d s n : redo_nodes s !! d = Some n -> d_key n = k ->
  redo_node k d s = (s, Ok n).
Proof. intros Hn Hk. unfold redo_node. run. by rewrite Hn, bool_decide_true. Qed.

Lemma moved_cursor_inv k cur redo s s' cursor next :
  moved_cursor k cur redo s = (s', Ok (cursor, next)) ->
  exists redos, moves k cur s redo cursor next redos /\ s' = set_redo_nodes (fun _ => redos) s.
Proof.
  unfold moved_cursor. destruct redo; intros H; take_apart H.
  - apply bind_Ok_inv in H as (? & d & (-> & Hd & Hkd)%redo_node_inv & H).
    apply bind_Ok_inv in H as (? & p & (-> & n & Hn & Hkn & Hp)%parent_of_inv & H). take_apart H.
    apply bool_decide_eq_true in Hb as ->. injection H as <- <- <-.
    eexists. split; [by eapply moves_redo|]. by destruct s.
  - apply bind_Ok_inv in H as (? & p & (-> & n & Hn & Hkn & Hp)%parent_of_inv & H). take_apart H.
    subst p. injection H as <- <- <-. eexists. split; [by eapply moves_undo|done].
Qed.

Lemma move_inv (Hdef : default_readable) grant k expected redo s s' w :
  edits_ok s -> move_edit_cursor grant k expected redo s = (s', Ok w) ->
  exists cur s0 cursor next redos text, moved redo k expected s s' cur s0 cursor next redos text w.
Proof.
  intros Hs H. unfold move_edit_cursor, enter in H. take_apart H. rewrite transaction_Ok in H.
  apply bind_Ok_inv in H as (s0 & cur & Hm & H). apply (materialize_inv Hdef) in Hm; [|done].
  take_apart H. apply i64_checked_add_inv in Ho as [-> Hmax].
  apply andb_true_iff in Hb as [He%Z.leb_le Hc%Z.eqb_eq].
  apply bind_Ok_inv in H as (s1 & [cursor next] & (redos & Hmoves & ->)%moved_cursor_inv & H).
  apply bind_Ok_inv in H as (s2 & [] & Hu & H). apply bind_Ok_inv in H as (s3 & [] & Hr & H).
  destruct (advanced_inv k (s_revision cur + 1) cursor next (move_kind redo) (s_cursor cur) json_empty
    (set_redo_nodes (fun _ => redos) s0) s3) as (text & Ht & Htl & ->).
  { rewrite (bind_ok _ _ _ _ _ Hu). by destruct redo. }
  pose proof (reads_run _ _ _ _ (view_reads k) H) as ->.
  exists cur, s0, cursor, next, redos, text. rewrite Hc in *. split; eauto.
Qed.

Lemma moves_ok redo k s s0 cur cursor next redos text :
  materialized k cur s s0 -> moves k cur s0 redo cursor next redos ->
  0 <= s_revision cur /\ s_revision cur + 1 <= i64_max -> value_to_string json_empty = Ok text ->
  edits_ok (advanced k (s_revision cur + 1) cursor next (move_kind redo) (s_cursor cur) text
              (set_redo_nodes (fun _ => redos) s0)).
Proof.
  intros Hm Hmv [He Hmax] Htext.
  destruct (mt_row _ _ _ _ Hm) as (v & Hv & _ & Hvr & Hvc & Hvd). pose proof (mt_ok _ _ _ _ Hm) as H0.
  destruct (vo_cursor _ _ _ (eo_variants s0 H0 k v Hv)) as (c & depth & Hc & Hlin & Hchain).
  assert (c = s_cursor cur) as -> by congruence. rewrite <-Hvr.
  assert (redo_nodes s0 ⊆ redos) as Hsub by (destruct Hmv; [apply fresh_redo|done]).
  refine (advance_ok k v cursor (s_cursor cur) next _ text s0 (recipe_nodes s0) redos H0 _ Hsub _ Hv Hvc
    _ _ _ (ex_intro _ _ Htext)); [done|apply H0|lia| |].
  - destruct Hmv as [n p Hn Hkn Hp|top d n Ht Hd Hkd Hn Hkn Hp].
    + inversion Hlin as [? ? Hn2|? ? ? depth' Hn2 ? Hp2 Hlin']; [congruence|]. exists depth'.
      assert (p0 = p) as -> by congruence. done.
    + exists (S depth). by eapply lineage_edit.
  - destruct Hmv as [n p Hn Hkn Hp|top d n Ht Hd Hkd Hn Hkn Hp].
    + eapply chain_step; [by rewrite lookup_insert_eq|done|exact Hn|done|done|]. cbn.
      rewrite Hvd in Hchain. by eapply redo_chain_mono.
    + rewrite Hvd, Ht in Hchain. inversion Hchain as [|? ? ? ? Hd2 ? ? ? ? Hnext]; subst.
      assert (rn = d) as -> by congruence. done.
Qed.

Lemma moved_ok redo k expected s s' cur s0 cursor next redos text w :
  moved redo k expected s s' cur s0 cursor next redos text w -> edits_ok s'.
Proof. intros [Hm (He & <- & Hmax) Hmv -> [Htext _] _]. by eapply moves_ok. Qed.

(** ** Copies and imports *)

Lemma register_copy_inv uuid clone k source s s' :
  register_copy uuid clone k source s = (s', Ok tt) ->
  exists f g, s' = set_metadata_revisions g (set_images f s) /\ images s ⊆ f (images s).
Proof.
  unfold register_copy. intros H. apply bind_Ok_inv in H as (? & i & (-> & _)%id_inv & H).
  apply bind_Ok_inv in H as (? & ? & Hc & H). pose proof (reads_run _ _ _ _ (require_current_reads i) Hc) as ->.
  take_apart H. destruct (image_by_id i s) as [[k0 r]|]; [|done]. take_apart H.
  apply bool_decide_eq_true in Hb0. apply bind_Ok_inv in H as (? & ? & (-> & _)%id_inv & H).
  take_apart H. apply lift_Ok_inv in H as [_ ->]. eexists _, _. split; [done|]. by apply insert_subseteq.
Qed.

Lemma set_images_ok f s : edits_ok s -> (forall k, is_Some (images s !! k) -> is_Some (f (images s) !! k)) ->
  edits_ok (set_images f s).
Proof.
  intros Hs Hf. destruct Hs as [H1 H2 H3 H4]. split; [| | |done].
  - intros k v Hv. destruct (H1 k v Hv). split; cbn; eauto.
  - intros k v Hv. destruct (H2 k v Hv). by split.
  - intros k r c Hc. destruct (H3 k r c Hc). by split.
Qed.

Lemma set_metadata_revisions_ok g s : edits_ok s -> edits_ok (set_metadata_revisions g s).
Proof.
  intros [H1 H2 H3 H4]. split; [| | |done].
  - intros k v Hv. by destruct (H1 k v Hv).
  - intros k v Hv. by destruct (H2 k v Hv).
  - intros k r c Hc. by destruct (H3 k r c Hc).
Qed.

(** Recording the creation of a variant at revision 0. *)
Lemma created_ok k v c kind previous text s :
  edits_ok s -> variants s !! k = Some v -> v_cursor v = Some c -> v_revision v = 0 ->
  (forall r, changes s !! (k, r) = None) -> (exists value, value_to_string value = Ok text) ->
  edits_ok (set_changes (<[(k, 0) := mkChange kind (Some previous) c text]>) s).
Proof.
  intros Hs Hv Hc Hr Hnone Ht. pose proof Hs as [H1 H2 H3 H4]. split; cbn; [| | |done].
  - intros k' v' Hv'. destruct (H1 k' v' Hv'). by split.
  - intros k' v' Hv'. destruct (decide (k' = k)) as [->|Hk].
    + assert (v' = v) as -> by congruence. split; cbn.
      * intros; lia.
      * intros ch. rewrite Hr, lookup_insert_eq. intros [= <-]. done.
      * intros r ch ch' [[[= <-] _]|[_ Hch]]%lookup_insert_Some; [|by rewrite Hnone in Hch].
        intros [[[=] _]|[_ Hch]]%lookup_insert_Some. by rewrite Hnone in Hch.
    + destruct (H2 k' v' Hv') as [Ha Hb Hd]. split; cbn.
      * intros. rewrite lookup_insert_ne by congruence. auto.
      * intros ch. rewrite lookup_insert_ne by congruence. auto.
      * intros r ch ch'. rewrite !lookup_insert_ne by congruence. eauto.
  - intros k' r ch [[[= <- <-] <-]|[_ Hch]]%lookup_insert_Some.
    + destruct (vo_cursor _ _ _ (H1 k v Hv)) as (c' & depth & Hc' & Hlin & _).
      assert (c' = c) as -> by congruence. split; cbn; [exists v; split; [done|lia]| |done].
      by eapply lineage_node.
    + destruct (H3 _ _ _ Hch). by split.
Qed.

Lemma no_changes s k : edits_ok s -> variants s !! k = None -> forall r, changes s !! (k, r) = None.
Proof.
  intros Hs Hv r. destruct (changes s !! (k, r)) as [c|] eqn:Hc; [|done].
  destruct (co_variant _ _ _ _ (eo_changes s Hs _ _ _ Hc)) as (v & ? & _). congruence.
Qed.

(** A node installed by the transaction is readable, since [view] read it. *)
Lemma viewed_readable k s w v c n :
  view k s = (s, Ok w) -> variants s !! k = Some v -> v_cursor v = Some c ->
  recipe_nodes s !! c = Some n -> readable n.
Proof.
  intros [_ H]%view_inv Hv Hc Hn. rewrite Hv in H. destruct H as (c' & n' & Hc' & Hn' & _ & Hr & _).
  assert (c' = c) as -> by congruence. congruence.
Qed.

Lemma create_ok grant vid iid clone source e l s s' w :
  edits_ok s -> create_edit_variant grant vid iid clone source e l s = (s', Ok w) -> edits_ok s'.
Proof.
  intros Hs H. unfold create_edit_variant, edit_variant, enter in H.
  apply bind_Ok_inv in H as (? & input & Hin & H). rewrite transaction_Ok in Hin.
  pose proof (reads_run _ _ _ _ (view_reads _) Hin) as ->. take_apart H. rewrite transaction_Ok in H.
  set (k := mkKey (asset_id source) vid) in *.
  apply bind_Ok_inv in H as (? & cur & Hcur & H). pose proof (reads_run _ _ _ _ (view_reads _) Hcur) as ->.
  take_apart H. apply bind_Ok_inv in H as (s1 & [] & (f & g & -> & Hf)%register_copy_inv & H).
  assert (edits_ok (set_metadata_revisions g (set_images f s))) as H1.
  { apply set_metadata_revisions_ok.
    apply set_images_ok; [done|]. intros k' [r Hr]. eauto using lookup_weaken. }
  apply bind_Ok_inv in H as (s2 & [] & (c & Hc & Hi & _ & Hnew & Hlab & ->)%insert_variant_inv & H).
  apply bind_Ok_inv in H as (? & o & (-> & _ & Hst)%stored_inv & H). take_apart H. subst o.
  destruct Hst as (v & Hv & (_ & _ & Hvc & _) & _). cbn in Hv. rewrite lookup_insert_eq in Hv.
  injection Hv as <-. cbn in Hvc. injection Hvc as Hvc.
  apply bind_Ok_inv in H as (s3 & [] & Hrec & H). unfold record_change in Hrec. take_apart Hrec.
  injection Hrec as <-. pose proof (reads_run _ _ _ _ (view_reads _) H) as ->. rewrite <-Hvc in *.
  match type of Hl1 with message ?m = Ok ?t => destruct m as [text|] eqn:Htext; [|done]; injection Hl1 as -> end.
  refine (created_ok k _ _ _ _ _ (with_variant k l c.1 c.2 (set_metadata_revisions g (set_images f s))) _ (lookup_insert_eq _ _ _)
    eq_refl eq_refl (no_changes s k Hs Hnew) (ex_intro _ _ Htext)).
  apply with_variant_ok; [done..|].
  refine (viewed_readable k _ w _ _ _ H (lookup_insert_eq _ _ _) eq_refl _). cbn. by rewrite lookup_insert_eq.
Qed.

Lemma save_edit_recipe_inv (Hdef : default_readable) grant k e r s s' w :
  edits_ok s -> save_edit_recipe grant k e r s = (s', Ok w) ->
  exists v cur s0 text, validate_key k = Ok tt /\ validate r = Ok v /\
    (forall size, known_dimensions (asset_id k) s = (s, Ok (Some size)) ->
      exists extent, validate_dimensions v size.1 size.2 = Some (Ok extent)) /\
    saved k e (canonical_bytes v) (digest v) "save" s s' cur s0 text w.
Proof.
  intros Hs H. unfold save_edit_recipe, enter in H. take_apart H. rewrite transaction_Ok in H.
  destruct (canonical_inv _ _ Hl0) as (v & Hv & _ & ->). cbn [fst snd] in H.
  apply bind_Ok_inv in H as (? & dims & Hdims & H). pose proof (reads_run _ _ _ _ (known_dimensions_reads _) Hdims) as ->.
  apply bind_Ok_inv in H as (s1 & [] & Hsz & H).
  assert (s1 = s /\ forall size, dims = Some size ->
    exists extent, validate_dimensions v size.1 size.2 = Some (Ok extent)) as [-> Hext].
  { destruct dims as [size|]; [|by injection Hsz as <-]. take_apart Hsz. rewrite Hv in Hl2. injection Hl2 as <-.
    pose proof (reads_run _ _ _ _ (check_dimensions_reads _ _) Hsz) as ->. split; [done|].
    intros ? [= <-]. unfold check_dimensions in Hsz.
    destruct (validate_dimensions v size.1 size.2) as [[extent|]|]; eauto; done. }
  apply (save_inv Hdef) in H as (cur & s0 & text & Hsaved); [|done].
  exists v, cur, s0, text. split_and!; [|done| |done].
  { destruct (validate_key k) as [[]|]; done. }
  intros size Hk. rewrite Hdims in Hk. injection Hk as ->. by apply Hext.
Qed.

Lemma import_inv (Hdef : default_readable) auto k e r prov st s s' w :
  edits_ok s -> install_import_recipe auto k e r prov st s = (s', Ok w) ->
  exists s1 w1 cur s0 text b dg, saved k e b dg "import" s s1 cur s0 text w1 /\
    exists f, s' = set_images (fmap (f : ImageRow -> ImageRow)) s1.
Proof.
  intros Hs H. unfold install_import_recipe in H. take_apart H.
  apply bind_Ok_inv in H as (? & i & (-> & _)%id_inv & H). take_apart H.
  destruct (image_by_id i s) as [[? row]|]; [|done]. take_apart H.
  apply bind_Ok_inv in H as (? & dims & Hdims & H). pose proof (reads_run _ _ _ _ (known_dimensions_reads _) Hdims) as ->.
  apply bind_Ok_inv in H as (s1 & [] & Hsz & H).
  assert (s1 = s) as ->.
  { destruct dims as [size|]; [|by injection Hsz as <-].
    by apply (reads_run _ _ _ _ (check_dimensions_reads _ _) Hsz). }
  apply bind_Ok_inv in H as (s2 & w2 & Hsave & H). take_apart H. injection H as <- <-.
  apply (save_inv Hdef) in Hsave as (cur & s0 & text & Hsaved); [|done].
  do 7 eexists. split; [exact Hsaved|]. by eexists.
Qed.

Lemma import_ok (Hdef : default_readable) auto k e r prov st s s' w :
  edits_ok s -> install_import_recipe auto k e r prov st s = (s', Ok w) -> edits_ok s'.
Proof.
  intros Hs (s1 & w1 & cur & s0 & text & b & dg & Hsv & f & ->)%(import_inv Hdef); [|done].
  apply set_images_ok; [by eapply saved_ok|]. intros k' Hk'. rewrite lookup_fmap. by apply fmap_is_Some.
Qed.

(** ** Reachable databases *)

(** What the rest of the catalog does to the tables read here: assets, epochs
    and images change freely, but an image is never removed from under a
    variant, and the edit tables are left alone. *)
Record elsewhere (s s' : Db) : Prop := {
  el_images : forall k, is_Some (images s !! k) -> is_Some (images s' !! k);
  el_variants : variants s' = variants s;
  el_nodes : recipe_nodes s' = recipe_nodes s;
  el_redos : redo_nodes s' = redo_nodes s;
  el_changes : changes s' = changes s;
}.

Inductive edit_step (s s' : Db) : Prop :=
| step_save grant k e r res : save_edit_recipe grant k e r s = (s', res) -> edit_step s s'
| step_undo grant k e res : undo_edit grant k e s = (s', res) -> edit_step s s'
| step_redo grant k e res : redo_edit grant k e s = (s', res) -> edit_step s s'
| step_create grant vid iid clone source e l res :
    create_edit_variant grant vid iid clone source e l s = (s', res) -> edit_step s s'
| step_import k e r prov st res :
    transaction (install_import_recipe false k e r prov st) s = (s', res) -> edit_step s s'
| step_elsewhere : elsewhere s s' -> edit_step s s'.

Inductive reachable : Db -> Prop :=
| reachable_new s : variants s = ∅ -> recipe_nodes s = ∅ -> redo_nodes s = ∅ -> changes s = ∅ -> reachable s
| reachable_step s s' : reachable s -> edit_step s s' -> reachable s'.

(** A call that fails changed nothing: its writes are in one transaction. *)
Definition atomic {A} (m : M A) : Prop := forall s s' e, m s = (s', Err e) -> s' = s.

Lemma atomic_transaction {A} (m : M A) : atomic (transaction m).
Proof. intros s s' e. apply transaction_Err. Qed.
Lemma atomic_bind {A B} (m : M A) (k : A -> M B) : reads m -> (forall a, atomic (k a)) -> atomic (bind m k).
Proof.
  intros Hm Hk s s' e. unfold bind. destruct (m s) as [t r] eqn:Hr.
  pose proof (reads_run _ _ _ _ Hm Hr) as ->. destruct r; [apply Hk|by intros [= <- _]].
Qed.
Lemma lift_reads {A} (r : result EditError A) : reads (lift r).
Proof. intros s. preserve. Qed.
Lemma ensure_reads b e : reads (ensure b e).
Proof. intros s. preserve. Qed.
Lemma enter_reads g : reads (enter g).
Proof. intros s. unfold enter. preserve. Qed.
Lemma edit_variant_reads k : reads (edit_variant k).
Proof.
  intros s s0 <-. unfold edit_variant, transaction. destruct (view k s) as [t r] eqn:Hv.
  pose proof (reads_run _ _ _ _ (view_reads k) Hv) as ->. by destruct r.
Qed.

Create HintDb atomic.
Hint Resolve atomic_transaction lift_reads ensure_reads enter_reads edit_variant_reads : atomic.
Ltac atomic := repeat (first [apply atomic_transaction | apply atomic_bind; [by auto with atomic|intros ?]]).

Lemma save_edit_recipe_atomic grant k e r : atomic (save_edit_recipe grant k e r).
Proof. unfold save_edit_recipe. atomic. Qed.
Lemma move_edit_cursor_atomic grant k e redo : atomic (move_edit_cursor grant k e redo).
Proof. unfold move_edit_cursor. atomic. Qed.
Lemma create_edit_variant_atomic grant vid iid clone source e l :
  atomic (create_edit_variant grant vid iid clone source e l).
Proof. unfold create_edit_variant. atomic. Qed.

Lemma elsewhere_ok s s' : elsewhere s s' -> edits_ok s -> edits_ok s'.
Proof.
  intros [Hi Hv Hn Hr Hc] [H1 H2 H3 H4]. split.
  - intros k v. rewrite Hv. intros Hk. destruct (H1 k v Hk). split; rewrite ?Hn, ?Hr; auto.
  - intros k v. rewrite Hv. intros Hk. destruct (H2 k v Hk). split; rewrite ?Hc; auto.
  - intros k r c. rewrite Hc. intros Hk. destruct (H3 k r c Hk). split; rewrite ?Hv, ?Hn; auto.
  - by rewrite Hn.
Qed.

Lemma edit_step_ok (Hdef : default_readable) s s' : edits_ok s -> edit_step s s' -> edits_ok s'.
Proof.
  intros Hs [grant k e r res H|grant k e res H|grant k e res H|grant vid iid clone source e l res H
    |k e r prov st res H|H].
  - destruct res as [w|]; [|by apply save_edit_recipe_atomic in H as ->].
    apply (save_edit_recipe_inv Hdef) in H as (? & ? & ? & ? & _ & _ & _ & H); [|done]. by eapply saved_ok.
  - destruct res as [w|]; [|by apply move_edit_cursor_atomic in H as ->].
    apply (move_inv Hdef) in H as (? & ? & ? & ? & ? & ? & H); [|done]. by eapply moved_ok.
  - destruct res as [w|]; [|by apply move_edit_cursor_atomic in H as ->].
    apply (move_inv Hdef) in H as (? & ? & ? & ? & ? & ? & H); [|done]. by eapply moved_ok.
  - destruct res as [w|]; [|by apply create_edit_variant_atomic in H as ->]. by eapply create_ok.
  - destruct res as [w|]; [|by apply transaction_Err in H as ->]. rewrite transaction_Ok in H.
    by eapply (import_ok Hdef).
  - by eapply elsewhere_ok.
Qed.

Lemma reachable_ok (Hdef : default_readable) s : reachable s -> edits_ok s.
Proof.
  induction 1 as [s Hv Hn Hr Hc|s s' _ IH Hstep]; [|by eapply edit_step_ok].
  split; rewrite ?Hv, ?Hn; [apply map_Forall_empty..| |apply map_Forall_empty].
  intros k r c. by rewrite Hc.
Qed.

(** ** Undo, then redo *)

(** The gate every change of a variant passes: its image is registered and its
    metadata current. *)
Definition gate (k : VariantKey) (s : Db) : Prop :=
  exists i, id k s = (s, Ok i) /\ require_current i s = (s, Ok tt).

Lemma gate_same k s s' :
  images s' = images s -> shared_epochs s' = shared_epochs s -> gate k s -> gate k s'.
Proof.
  intros Hi He (i & Hid & Hcur). exists i. split.
  - destruct (id_inv _ _ _ _ Hid) as (_ & Hk & Hl & r & Hr & <-). unfold id. rewrite Hk. run.
    by rewrite Hi, Hr, (proj2 (Z.leb_le _ _) Hl).
  - unfold require_current, image_by_id in *. rewrite bind_get in *. rewrite Hi, He.
    destruct (head _) as [[k' r]|]; [|done]. destruct (shared_epochs s !! asset_id k'); [|done].
    by apply ensure_Ok_inv in Hcur as [-> _].
Qed.

Lemma materialize_gate k s s' cur : materialize k s = (s', Ok cur) -> gate k s.
Proof.
  intros H. unfold materialize in H. apply bind_Ok_inv in H as (? & i & Hid & H).
  pose proof (reads_run _ _ _ _ (id_reads k) Hid) as ->. apply bind_Ok_inv in H as (? & [] & Hcur & _).
  pose proof (reads_run _ _ _ _ (require_current_reads i) Hcur) as ->. by exists i.
Qed.
Lemma materialize_stored k s v c :
  gate k s -> variants s !! k = Some v -> v_cursor v = Some c -> length_of (v_label v) <= 1024 ->
  materialize k s = (s, Ok (mkStored (v_label v) (v_revision v) c (v_redo v))).
Proof.
  intros (i & Hid & Hcur) Hv Hc Hl. destruct (id_inv _ _ _ _ Hid) as (_ & Hk & _).
  unfold materialize. by rewrite (bind_ok _ _ _ _ _ Hid), (bind_ok _ _ _ _ _ Hcur),
    (bind_ok _ _ _ _ _ (stored_ok k s v c Hk Hv Hc Hl)).
Qed.
Lemma move_gate grant k e redo s s' w : move_edit_cursor grant k e redo s = (s', Ok w) -> gate k s.
Proof.
  intros H. unfold move_edit_cursor, enter in H. take_apart H. rewrite transaction_Ok in H.
  apply bind_Ok_inv in H as (? & ? & H & _). by eapply materialize_gate.
Qed.

Lemma record_change_ok k r kind previous current provenance text s :
  value_to_string provenance = Ok text -> length_of text <= MAX_RECIPE_BYTES ->
  changes s !! (k, r) = None ->
  record_change k r kind previous current provenance s
    = (set_changes (<[(k, r) := mkChange kind (Some previous) current text]>) s, Ok tt).
Proof.
  intros Ht Hl Hn. unfold record_change. rewrite Ht. cbn [message]. run.
  by rewrite (proj2 (Z.leb_le _ _) Hl), bool_decide_true.
Qed.

(** The next revision of a variant has no change yet. *)
Lemma no_change_yet k v s :
  edits_ok s -> variants s !! k = Some v -> changes s !! (k, v_revision v + 1) = None.
Proof.
  intros Hs Hv. destruct (changes s !! (k, v_revision v + 1)) as [ch|] eqn:Hch; [|done].
  destruct (co_variant _ _ _ _ (eo_changes s Hs _ _ _ Hch)) as (v' & Hv' & ?).
  assert (v' = v) as -> by congruence. lia.
Qed.

(** A redo that has somewhere to go succeeds. *)
Lemma redo_runs k s v c top d n text :
  edits_ok s -> gate k s -> variants s !! k = Some v -> v_cursor v = Some c -> v_redo v = Some top ->
  redo_nodes s !! top = Some d -> d_key d = k ->
  recipe_nodes s !! d_recipe_node d = Some n -> n_key n = k -> n_parent n = Some c ->
  v_revision v + 1 <= i64_max -> value_to_string json_empty = Ok text -> length_of text <= MAX_RECIPE_BYTES ->
  let s' := advanced k (v_revision v + 1) (d_recipe_node d) (d_next d) "redo" c text s in
  exists w, redo_edit (Ok tt) k (v_revision v) s = (s', Ok w) /\ view k s' = (s', Ok w).
Proof.
  intros Hs Hgate Hv Hc Htop Hd Hkd Hn Hkn Hp Hmax Htext Htl s'.
  pose proof (eo_variants s Hs k v Hv) as Hvo. pose proof (vo_revision _ _ _ Hvo) as Hrev.
  set (cur := mkStored (v_label v) (v_revision v) c (Some top)).
  assert (materialize k s = (s, Ok cur)) as Hmat.
  { rewrite (materialize_stored k s v c) by first [done|exact (vo_label _ _ _ Hvo)]. by rewrite Htop. }
  assert (materialized k cur s s) as Hm.
  { split; try done; try (by rewrite Hv). exists v. split; [done|]. by split_and!. }
  assert (edits_ok s') as Hs'.
  { replace s' with (advanced k (v_revision v + 1) (d_recipe_node d) (d_next d) (move_kind true) c text
      (set_redo_nodes (fun _ => redo_nodes s) s)) by (unfold s'; by destruct s).
    apply (moves_ok true k s s cur); [done| |cbn; lia|done]. by eapply moves_redo. }
  destruct (gate_same k s s' eq_refl eq_refl Hgate) as (i & Hid & _).
  destruct (view_ok k s' _ i Hs' ltac:(cbn; by rewrite lookup_alter_eq, Hv) Hid) as [w Hw].
  exists w. split; [|done]. destruct (id_inv _ _ _ _ Hid) as (_ & Hk & _).
  unfold redo_edit, move_edit_cursor, enter. rewrite Hk. run. apply transaction_Ok.
  rewrite (bind_ok _ _ _ _ _ Hmat). run. change (s_revision cur) with (v_revision v).
  rewrite (proj2 (Z.leb_le 0 _)), Z.eqb_refl by lia. cbn [andb]. run.
  rewrite i64_checked_add_ok by lia. run.
  assert (moved_cursor k cur true s = (s, Ok (d_recipe_node d, d_next d))) as Hmv.
  { unfold moved_cursor. change (s_redo cur) with (Some top). run.
    rewrite (bind_ok _ _ _ _ _ (redo_node_ok k top s d Hd Hkd)),
      (bind_ok _ _ _ _ _ (parent_of_ok k _ s n Hn Hkn)). run. by rewrite bool_decide_true by done. }
  rewrite (bind_ok _ _ _ _ _ Hmv). unfold update_variant. run.
  match goal with |- bind (record_change _ _ _ _ _ _) _ ?t = _ =>
    rewrite (bind_ok _ _ _ _ _ (record_change_ok k _ "redo" c (d_recipe_node d) json_empty text t Htext Htl
      (no_change_yet k v s Hs Hv))) end.
  exact Hw.
Qed.

Lemma undo_redo_run (Hdef : default_readable) grant k e s s1 w1 :
  edits_ok s -> undo_edit grant k e s = (s1, Ok w1) -> e + 2 <= i64_max ->
  exists v w0 s2,
    variants s !! k = Some v /\ v_revision v = e /\ view k s = (s, Ok w0) /\
    redo_edit (Ok tt) k (e + 1) s1 =
      (s2, Ok (mkView (key w0) (label w0) (e + 2) (view_recipe w0) (recipe_digest w0) (can_undo w0) (can_redo w0))) /\
    variants s2 !! k = Some (mkVariant (v_sequence v) (v_label v) (e + 2) (v_cursor v) (v_redo v)).
Proof.
  intros Hs H Hmax. pose proof (move_gate _ _ _ _ _ _ _ H) as Hgate.
  apply (move_inv Hdef) in H as (cur & s0 & cursor & next & redos & text & H); [|done].
  pose proof (moved_ok _ _ _ _ _ _ _ _ _ _ _ _ H) as Hs1.
  destruct H as [Hm (He & Hrev & Hmax1) Hmv -> [Htext Htl] _].
  inversion Hmv as [n p Hn Hkn Hp|]; subst cursor next redos.
  destruct (variants s !! k) as [v|] eqn:Hv.
  2:{ destruct (mt_new _ _ _ _ Hm Hv) as (_ & _ & _ & n' & Hn' & Hp' & _). congruence. }
  pose proof (mt_same _ _ _ _ Hm ltac:(congruence)) as ->.
  destruct (mt_row _ _ _ _ Hm) as (v' & Hv' & Hl & Hvr & Hvc & Hvd). assert (v' = v) as -> by congruence.
  destruct (gate_same k s s eq_refl eq_refl Hgate) as (i & Hid & _).
  destruct (view_ok k s v i Hs Hv Hid) as [w0 Hw0].
  set (s1 := advanced _ _ _ _ _ _ _ _) in *.
  assert (variants s1 !! k = Some (mkVariant (v_sequence v) (v_label v) (e + 1) (Some p)
    (Some (fresh_rowid (dom (redo_nodes s)))))) as Hv1 by (cbn; by rewrite lookup_alter_eq, Hv).
  destruct (redo_runs k s1 _ p _ (mkRedo k (s_cursor cur) (s_redo cur)) n text Hs1
    (gate_same k s s1 eq_refl eq_refl Hgate) Hv1 eq_refl eq_refl) as (w2 & Hrun & Hw2);
    [cbn; by rewrite lookup_insert_eq|done|done|done|done|cbn; lia|done|done|].
  cbn [v_revision d_recipe_node d_next] in Hrun, Hw2. exists v, w0. eexists. split_and!; [done|congruence|done| |].
  - rewrite Hrun. clear Hrun Hv1. do 2 f_equal.
    apply view_inv in Hw0 as [_ Hw0], Hw2 as [_ Hw2]. rewrite Hv in Hw0. cbn in Hw2.
    rewrite lookup_alter_eq, lookup_alter_eq, Hv in Hw2. cbn in Hw2.
    destruct Hw0 as (c & n0 & Hc & Hn0 & _ & _ & Hk0 & Hl0 & Hr0 & Hrr0 & Hd0 & Hu0 & Hre0).
    destruct Hw2 as (c2 & n2 & Hc2 & Hn2 & _ & _ & Hk2 & Hl2 & Hr2 & Hrr2 & Hd2 & Hu2 & Hre2).
    injection Hc2 as <-. assert (c = s_cursor cur) as -> by congruence.
    assert (n0 = n) as -> by congruence. assert (n2 = n) as -> by congruence.
    rewrite Hvd in Hre0. destruct w2, w0; cbn in *. f_equal; try congruence. lia.
  - cbn. rewrite lookup_alter_eq, lookup_alter_eq, Hv. cbn. do 2 f_equal; [lia|congruence..].
Qed.
End Lineage.
