(* ===== verification/EditTheorems.v ===== *)
(** What edit variants promise: the properties of src/src/catalog_edits.rs,
    proved from the lineage invariant of EditLineage. *)
From stdpp Require Import base tactics option list numbers gmap strings fin_maps sorting.
From Stdlib Require Import ZArith Lia.
From S2P Require Import Prelude Recipe CatalogEdits EditLineage.

Open Scope Z_scope.
Local Open Scope prog_scope.

(** ** Calls on one variant, by expected revision *)

Inductive EditCall : Type := CallSave (recipe : Recipe) | CallUndo | CallRedo.

Section Calls.
Context {CODEC : EditCodec} {IDS : RowIds}.

Definition run_call (grant : result string unit) (k : VariantKey) (expected : Z) (c : EditCall)
    : proc EditError Db VariantView :=
  match c with
  | CallSave r => save_edit_recipe grant k expected r
  | CallUndo => undo_edit grant k expected
  | CallRedo => redo_edit grant k expected
  end.

(** The current revision of a variant; a master not yet stored is at 0. *)
Definition current_revision (k : VariantKey) (s : Db) : Z :=
  match variants s !! k with Some v => v_revision v | None => 0 end.

Lemma materialized_revision k cur s s0 : materialized k cur s s0 -> current_revision k s = s_revision cur.
Proof.
  intros Hm. unfold current_revision. destruct (variants s !! k) as [v|] eqn:Hv.
  - pose proof (mt_same _ _ _ _ Hm ltac:(congruence)) as ->.
    destruct (mt_row _ _ _ _ Hm) as (v' & Hv' & _ & Hr & _). congruence.
  - by destruct (mt_new _ _ _ _ Hm Hv) as (-> & _).
Qed.

Lemma advanced_revision k r c d kind p t s :
  is_Some (variants s !! k) -> current_revision k (advanced k r c d kind p t s) = r.
Proof. intros [v Hv]. unfold current_revision. cbn. by rewrite lookup_alter_eq, Hv. Qed.

Lemma advanced_view_revision k r c d kind p t s s' w :
  is_Some (variants s !! k) -> view k (advanced k r c d kind p t s) = (s', Ok w) -> revision w = r.
Proof.
  intros [v Hv] [_ H]%view_inv. cbn in H. rewrite lookup_alter_eq, Hv in H.
  destruct H as (c' & n & _ & _ & _ & _ & _ & _ & Hr & _). done.
Qed.

(** A call that succeeds found its expected revision, and left the next one. *)
Record succeeds (k : VariantKey) (e : Z) (s s' : Db) (w : VariantView) : Prop := {
  su_ok : edits_ok s';
  su_before : current_revision k s = e;
  su_after : current_revision k s' = e + 1;
  su_view : view k s' = (s', Ok w);
  su_revision : revision w = e + 1;
  su_others : forall k', k' <> k -> variants s' !! k' = variants s !! k';
}.

Lemma saved_succeeds k e b d kind s s' cur s0 text w :
  saved k e b d kind s s' cur s0 text w -> succeeds k e s s' w.
Proof.
  intros H. pose proof (saved_ok _ _ _ _ _ _ _ _ _ _ _ H) as Hok.
  destruct H as [Hm (He & Hrev & Hmax) -> Htext Hview].
  destruct (mt_row _ _ _ _ Hm) as (v & Hv & _).
  split; [done|by rewrite (materialized_revision _ _ _ _ Hm)|by apply advanced_revision; eexists|done| |].
  - eapply advanced_view_revision; [|exact Hview]. by eexists.
  - intros k' Hk. cbn. rewrite lookup_alter_ne by congruence. by apply Hm.
Qed.

(** The row under a variant after a save, and its view: the document saved. *)
Lemma saved_variants k s s0 cur row e c :
  materialized k cur s s0 -> variants s0 !! k = Some row ->
  alter (fun v => mkVariant (v_sequence v) (v_label v) e (Some c) None) k (variants s0) =
  <[k := mkVariant (v_sequence row) (v_label row) e (Some c) None]> (variants s).
Proof.
  intros Hm Hrow. apply map_eq. intros k'. destruct (decide (k' = k)) as [->|Hk].
  - by rewrite lookup_alter_eq, Hrow, lookup_insert_eq.
  - rewrite lookup_alter_ne, lookup_insert_ne by congruence. by apply Hm.
Qed.
Lemma saved_view k e c kind p t s s' w v :
  is_Some (variants s !! k) ->
  view k (advanced k e c None kind p t
    (set_recipe_nodes (<[c := mkNode k (Some p) (canonical_bytes v) (digest v)]>) s)) = (s', Ok w) ->
  (recipe_digest w = digest v /\ canonical (view_recipe w) = Ok (canonical_bytes v, digest v)) /\
  can_undo w = true /\ can_redo w = false.
Proof.
  intros [row Hrow] Hview. pose proof (view_inv _ _ _ _ Hview) as [_ Hw]. cbn in Hw. rewrite lookup_alter_eq, Hrow in Hw.
  destruct Hw as (c' & n & [= <-] & Hn & _ & _ & _ & _ & _ & Hread & Hdig & Hundo & Hredo). cbn in *.
  rewrite lookup_insert_eq in Hn. injection Hn as <-. cbn in *. split_and!; [done| |done|done].
  apply rbind_Ok in Hread as (_ & _ & Hread). apply rbind_Ok in Hread as (rec & _ & Hread).
  apply rbind_Ok in Hread as (a & Ha & Hread). apply rbind_Ok in Hread as (u & Hb & [= <-]).
  unfold rensure in Hb. destruct (bool_decide_reflect (a.1 = canonical_bytes v)) as [H1|]; [|done].
  destruct (bool_decide_reflect (a.2 = digest v)) as [H2|]; [|done]. rewrite Ha, <-H1, <-H2. by destruct a.
Qed.

Lemma moved_succeeds redo k e s s' cur s0 cursor next redos text w :
  moved redo k e s s' cur s0 cursor next redos text w -> succeeds k e s s' w.
Proof.
  intros H. pose proof (moved_ok _ _ _ _ _ _ _ _ _ _ _ _ H) as Hok.
  destruct H as [Hm (He & Hrev & Hmax) Hmv -> Htext Hview].
  destruct (mt_row _ _ _ _ Hm) as (v & Hv & _).
  split; [done|by rewrite (materialized_revision _ _ _ _ Hm)|by apply advanced_revision; eexists|done| |].
  - eapply advanced_view_revision; [|exact Hview]. by eexists.
  - intros k' Hk. cbn. rewrite lookup_alter_ne by congruence. by apply Hm.
Qed.

Lemma run_call_succeeds (Hdef : default_readable) grant k e c s s' w :
  edits_ok s -> run_call grant k e c s = (s', Ok w) -> succeeds k e s s' w.
Proof.
  intros Hs H. destruct c as [r| |]; cbn [run_call] in H; unfold undo_edit, redo_edit in H.
  - apply (save_edit_recipe_inv Hdef) in H as (? & ? & ? & ? & _ & _ & _ & H); [|done]. by eapply saved_succeeds.
  - apply (move_inv Hdef) in H as (? & ? & ? & ? & ? & ? & H); [|done]. by eapply moved_succeeds.
  - apply (move_inv Hdef) in H as (? & ? & ? & ? & ? & ? & H); [|done]. by eapply moved_succeeds.
Qed.

Lemma run_call_atomic grant k e c : atomic (run_call grant k e c).
Proof. destruct c; [apply save_edit_recipe_atomic|apply move_edit_cursor_atomic..]. Qed.

(** ** The history page *)

Lemma NoDup_omap {A B} (f : A -> option B) (l : list A) :
  (forall x y z, x ∈ l -> y ∈ l -> f x = Some z -> f y = Some z -> x = y) ->
  NoDup l -> NoDup (omap f l).
Proof.
  induction l as [|x l IH]; intros Hinj Hnd; [apply NoDup_nil_2|].
  apply NoDup_cons in Hnd as [Hx Hnd]. cbn.
  assert (NoDup (omap f l)) by (apply IH; [|done]; intros ? ? ? ? ?; apply Hinj; by right).
  destruct (f x) as [z|] eqn:Hf; [|done]. apply NoDup_cons. split; [|done].
  intros (y & Hy & Hfy)%list_elem_of_omap. apply Hx.
  rewrite (Hinj x y z); [done|left|by right|done|done].
Qed.

Lemma elem_of_change_rows k after s r c :
  edits_ok s -> (r, c) ∈ change_rows k after s <-> changes s !! (k, r) = Some c /\ after < r.
Proof.
  intros Hs. unfold change_rows, order_by. rewrite merge_sort_Permutation, list_elem_of_omap. split.
  - intros ([[k' r'] c'] & Hin & Hf). apply elem_of_map_to_list in Hin. cbn in Hf.
    case_bool_decide as Hb; [|done]. injection Hf as <- <-. by destruct Hb as (-> & ? & _).
  - intros [Hc Hr]. exists ((k, r), c). split; [by apply elem_of_map_to_list|]. cbn.
    rewrite bool_decide_true; [done|]. split_and!; [done..|].
    destruct (co_node _ _ _ _ (eo_changes s Hs _ _ _ Hc)) as (n & -> & _). eauto.
Qed.

Lemma change_rows_NoDup k after s : NoDup ((change_rows k after s).*1).
Proof.
  unfold change_rows, order_by. rewrite merge_sort_Permutation. apply NoDup_fmap_fst.
  - intros r c c' (x & Hx & Hfx)%list_elem_of_omap (y & Hy & Hfy)%list_elem_of_omap.
    destruct x as [[k1 r1] c1], y as [[k2 r2] c2]. cbn in *.
    case_bool_decide as H1; [|done]. case_bool_decide as H2; [|done].
    injection Hfx as <- <-. injection Hfy as <- <-. destruct H1 as [-> _], H2 as [-> _].
    apply elem_of_map_to_list in Hx, Hy. congruence.
  - apply NoDup_omap; [|apply NoDup_map_to_list].
    intros x y z _ _ Hfx Hfy. destruct x as [[k1 r1] c1], y as [[k2 r2] c2]. cbn in *.
    case_bool_decide as H1; [|done]. case_bool_decide as H2; [|done].
    destruct H1 as [-> _], H2 as [-> _]. congruence.
Qed.

Lemma seqZ_sorted m n : StronglySorted Z.le (seqZ m n).
Proof.
  destruct (Z.le_gt_cases n 0) as [Hn|Hn]; [rewrite seqZ_nil by done; constructor|].
  replace n with (Z.of_nat (Z.to_nat n)) by lia. generalize (Z.to_nat n) as i. clear. intros i. revert m.
  induction i as [|i IH]; intros m; [constructor|].
  rewrite seqZ_cons by lia. replace (Z.pred (Z.of_nat (S i))) with (Z.of_nat i) by lia.
  constructor; [apply IH|]. apply Forall_forall. intros x Hx%elem_of_seqZ. lia.
Qed.

(** The page order of the changes after [after]: every revision, once, in order. *)
Lemma change_rows_fst k after s v :
  edits_ok s -> variants s !! k = Some v -> 0 <= after ->
  (change_rows k after s).*1 = seqZ (after + 1) (v_revision v - after).
Proof.
  intros Hs Hv Ha. apply (StronglySorted_unique Z.le).
  - apply (StronglySorted_fmap fst (asc_on fst) Z.le); [by intros x y|].
    apply (StronglySorted_merge_sort (asc_on fst)).
  - apply seqZ_sorted.
  - apply NoDup_Permutation; [apply change_rows_NoDup|apply NoDup_seqZ|]. intros r.
    rewrite elem_of_seqZ, list_elem_of_fmap. split.
    + intros ([r' c] & -> & [Hc Hr]%elem_of_change_rows); [|done]. cbn.
      destruct (co_variant _ _ _ _ (eo_changes s Hs _ _ _ Hc)) as (v' & Hv' & ?).
      assert (v' = v) as -> by congruence. lia.
    + intros Hr. destruct (ho_complete _ _ _ (eo_history s Hs k v Hv) r ltac:(lia)) as [c Hc].
      exists (r, c). split; [done|]. apply elem_of_change_rows; [done|]. split; [done|lia].
Qed.

(** A history entry is the change of its revision, with its recipe read back. *)
Definition entry_of (k : VariantKey) (s : Db) (e : EditHistoryEntry) : Prop :=
  exists c n, changes s !! (k, h_revision e) = Some c /\ h_kind e = c_kind c /\
    recipe_nodes s !! c_current c = Some n /\ h_digest e = n_digest n /\
    read_recipe (n_recipe n) (n_digest n) = Ok (h_recipe e).

Lemma traverse_ok {A B} (f : A -> M B) (P : A -> B -> Prop) s l :
  (forall a, a ∈ l -> exists b, f a s = (s, Ok b) /\ P a b) ->
  exists bs, traverse f l s = (s, Ok bs) /\ Forall2 P l bs.
Proof.
  induction l as [|a l IH]; intros H; [exists []; by split|].
  destruct (H a ltac:(left)) as (b & Hb & HP). destruct IH as (bs & Hbs & Hall); [intros; apply H; by right|].
  exists (b :: bs). cbn [traverse]. rewrite (bind_ok _ _ _ _ _ Hb), (bind_ok _ _ _ _ _ Hbs). eauto.
Qed.

Definition provenance_readable : Prop :=
  forall v t, value_to_string v = Ok t -> is_ok (value_from_str t) = true.

Lemma history_entry_ok (Hjson : provenance_readable) k s r c :
  edits_ok s -> changes s !! (k, r) = Some c ->
  exists e, history_entry (r, c) s = (s, Ok e) /\ h_revision e = r /\ entry_of k s e.
Proof.
  intros Hs Hc. destruct (eo_changes s Hs _ _ _ Hc) as [_ (n & Hn & _) (value & Hval)].
  destruct (eo_readable s Hs _ _ Hn) as (_ & _ & Hread). apply Hjson in Hval.
  unfold history_entry. run. cbn [fst snd]. rewrite Hn.
  destruct (read_recipe (n_recipe n) (n_digest n)) as [rec|] eqn:Hrec; [|done].
  destruct (value_from_str (c_provenance c)) as [prov|]; [|done]. cbn [message]. run.
  eexists. split_and!; [reflexivity|done|]. exists c, n. cbn. split_and!; done.
Qed.

Lemma history_run (Hjson : provenance_readable) k s v after limit :
  edits_ok s -> variants s !! k = Some v -> validate_key k = Ok tt ->
  1 <= limit <= 200 -> 0 <= after ->
  exists es, edit_history k after limit s = (s, Ok es) /\
    map h_revision es = seqZ (after + 1) (Z.min limit (v_revision v - after)) /\
    Forall (entry_of k s) es.
Proof.
  intros Hs Hv Hk Hlim Ha.
  destruct (traverse_ok history_entry (fun p e => h_revision e = p.1 /\ entry_of k s e) s
    (take (Z.to_nat limit) (change_rows k after s))) as (es & Hes & Hall).
  { intros [r c] Hin%elem_of_take. destruct Hin as (i & Hin%list_elem_of_lookup_2 & _).
    apply elem_of_change_rows in Hin as [Hc _]; [|done]. cbn. by apply history_entry_ok. }
  exists es. split_and!.
  - unfold edit_history. rewrite Hk. run. rewrite !(proj2 (Z.leb_le _ _)) by lia. run. exact Hes.
  - assert (map h_revision es = (take (Z.to_nat limit) (change_rows k after s)).*1) as ->.
    { clear Hes. induction Hall as [|? ? ? ? [H1 _] _ IH]; [done|]. cbn. by rewrite H1, IH. }
    rewrite fmap_take, (change_rows_fst k after s v) by done. apply list_eq. intros i.
    destruct (decide (i < Z.to_nat limit)%nat) as [Hi|Hi].
    + rewrite lookup_take_lt by done. apply option_eq. intros x. rewrite !lookup_seqZ. lia.
    + rewrite lookup_take_ge by lia. symmetry. apply lookup_seqZ_ge. lia.
  - clear Hes. induction Hall as [|? ? ? ? [_ H1] _ IH]; by constructor.
Qed.

(** ** Attaching work to an identity *)

(** The identity's asset, image and edit are still what they were. *)
Definition identity_holds (x : EditRenderIdentity) (s : Db) : Prop :=
  (exists w, view (e_key x) s = (s, Ok w) /\ revision w = e_revision x /\ recipe_digest w = e_digest x) /\
  exists a, assets s !! asset_id (e_key x) = Some a /\
    a_fingerprint a = r_fingerprint (e_source x) /\ a_state a = r_state (e_source x) /\
    match e_image x with
    | Some i => identity (i_image i) s = (s, Ok i) /\ i_key i = e_key x /\
        a_physical_generation a = r_generation (e_source x) /\
        i_metadata_revision i = r_metadata_revision (e_source x)
    | None => a_render_generation a = r_generation (e_source x)
    end.

Lemma optional_text_inv n t u : optional_text n t = Ok u -> u = t.
Proof.
  destruct t as [t|]; [|by intros [= <-]]. cbn. intros (t' & Ht & [= <-])%rbind_Ok.
  by apply owned_text_inv in Ht as [-> _].
Qed.
Lemma require_image_reads i : reads (require_image_metadata_identity i).
Proof. intros s. unfold require_image_metadata_identity. preserve. by apply identity_reads. Qed.
Lemma image_identity_reads x i : reads (image_identity_current x i).
Proof.
  intros s. unfold image_identity_current. preserve; first [apply preserves_try, require_image_reads|apply view_reads].
Qed.
Lemma render_identity_reads x : reads (render_identity_current x).
Proof. intros s. unfold render_identity_current. preserve; apply view_reads. Qed.

Lemma image_identity_inv x i s s' :
  e_image x = Some i -> i_key i = e_key x ->
  image_identity_current x i s = (s', Ok true) -> identity_holds x s.
Proof.
  intros Hi Hik H. unfold image_identity_current in H. apply bind_Ok_inv in H as (t & ok & Htry & H).
  unfold try in Htry. destruct (require_image_metadata_identity i s) as [t' r] eqn:Hr. injection Htry as <- <-.
  pose proof (reads_run _ _ _ _ (require_image_reads i) Hr) as ->.
  destruct r as [[]|]; cbn [is_ok negb] in H; [|done].
  unfold require_image_metadata_identity in Hr. apply bind_Ok_inv in Hr as (? & j & Hid & Hr).
  pose proof (reads_run _ _ _ _ (identity_reads _) Hid) as ->.
  apply ensure_Ok_inv in Hr as [->%bool_decide_eq_true _]. rewrite bind_get in H.
  destruct (assets s !! asset_id (e_key x)) as [a|] eqn:Ha; [|done]. take_apart H.
  apply optional_text_inv in Hl as ->. apply owned_text_inv in Hl0 as [-> _].
  apply bind_Ok_inv in H as (? & w & Hw & H). pose proof (reads_run _ _ _ _ (view_reads _) Hw) as ->.
  injection H as _ Hc. rewrite !andb_true_iff, !Z.eqb_eq, !bool_decide_eq_true in Hc.
  destruct Hc as [[[[[? ?] ?] ?] ?] ?]. split; [eauto|]. exists a. rewrite Hi. auto 10.
Qed.

Lemma render_identity_inv x s s' :
  e_image x = None -> asset_id (e_key x) = r_asset (e_source x) ->
  render_identity_current x s = (s', Ok true) -> identity_holds x s.
Proof.
  intros Hi Hk H. unfold render_identity_current in H. rewrite bind_get, <-Hk in H.
  destruct (assets s !! asset_id (e_key x)) as [a|] eqn:Ha; [|done]. take_apart H.
  apply optional_text_inv in Hl as ->. apply owned_text_inv in Hl0 as [-> _].
  destruct (_ && _) eqn:Hc; [|done]. rewrite !andb_true_iff, Z.eqb_eq, !bool_decide_eq_true in Hc.
  destruct Hc as [[? ?] ?]. apply bind_Ok_inv in H as (? & w & Hw & H).
  pose proof (reads_run _ _ _ _ (view_reads _) Hw) as ->.
  injection H as _ Hc. rewrite andb_true_iff, Z.eqb_eq, bool_decide_eq_true in Hc. destruct Hc.
  split; [eauto|]. exists a. rewrite Hi. auto.
Qed.

(** A transaction that runs [attach] when a read-only check says so. *)
Lemma guarded_transaction {T} (check : proc EditError Db bool) (attach : proc EditError Db T) s s' r (P : Prop) :
  reads check -> (forall s1, check s = (s1, Ok true) -> P) ->
  transaction (let* current := check in
    if current : bool then let* result := attach in ret (Some result) else ret None) s = (s', r) ->
  match r with Ok (Some t) => attach s = (s', Ok t) /\ P | _ => s' = s end.
Proof.
  intros Hreads HP H. destruct r as [o|e]; [|by eapply transaction_Err]. rewrite transaction_Ok in H.
  apply bind_Ok_inv in H as (s1 & b & Hb & H). pose proof (reads_run _ _ _ _ Hreads Hb) as ->.
  destruct b; [|by injection H as <- <-]. apply bind_Ok_inv in H as (s2 & t & Ht & H).
  injection H as <- <-. split; [done|by eapply HP].
Qed.

Lemma attach_run {T} grant x (attach : proc EditError Db T) s s' r :
  with_edit_transaction grant x attach s = (s', r) ->
  match r with Ok (Some t) => attach s = (s', Ok t) /\ identity_holds x s | _ => s' = s end.
Proof.
  unfold with_edit_transaction, enter. run.
  destruct (validate_key (e_key x)); [|by intros [= <- <-]].
  destruct (bool_decide_reflect (asset_id (e_key x) = r_asset (e_source x))) as [Hk|]; [|by intros [= <- <-]].
  destruct (e_image x) as [i|] eqn:Hi; run.
  - destruct (bool_decide_reflect (i_key i = e_key x)) as [Hik|]; [|by intros [= <- <-]].
    destruct (message grant); [|by intros [= <- <-]].
    apply guarded_transaction; [apply image_identity_reads|intros s1; by apply image_identity_inv].
  - destruct (message grant); [|by intros [= <- <-]].
    apply guarded_transaction; [apply render_identity_reads|intros s1; by apply render_identity_inv].
Qed.
End Calls.

(** ** A concrete database, for the witnesses *)

Definition max_rowid (X : gset Z) : Z := set_fold Z.max 0 X + 1.
Lemma max_rowid_unused X : max_rowid X ∉ X.
Proof.
  assert (forall x, x ∈ X -> x <= set_fold Z.max 0 X) as H.
  { apply (set_fold_ind_L (fun acc (Y : gset Z) => forall x, x ∈ Y -> x <= acc)).
    - intros x Hx. by apply elem_of_empty in Hx.
    - intros x Y acc _ IH y [->%elem_of_singleton|Hy]%elem_of_union; [lia|]. specialize (IH y Hy). lia. }
  intros Hin. apply H in Hin. unfold max_rowid in Hin. lia.
Qed.
Definition demo_rowids : RowIds := {| fresh_rowid := max_rowid; fresh_rowid_unused := max_rowid_unused |}.
Definition demo_edit_codec : EditCodec := {|
  edit_recipes := demo_codec;
  parse_metadata raw := Ok (mkMetadata raw 4001 3001 1 None None None None "raw");
  value_to_string v := Ok (match v with VObject [] => "{}" | _ => "{..}" end)%string;
  value_from_str s := Ok (VString s);
|}.
#[local] Existing Instance demo_rowids.
#[local] Existing Instance demo_edit_codec.

Definition demo_key : VariantKey := mkKey "a" MASTER.
Definition demo_image : ImageRow :=
  mkImage "a" 1 Master OriginNative None None Native 0 0.
Definition demo_other : VariantKey := mkKey "b" MASTER.
(** Two assets with their master images, and no edits. *)
Definition demo_db : Db :=
  mkDb (<["b" := mkAsset None 1 1 None "online"]> {["a" := mkAsset (Some "photo") 1 1 None "online"]})
    (<[demo_other := mkImage "b" 2 Master OriginNative None None Native 0 0]> {[demo_key := demo_image]})
    (<["b" := 0]> {["a" := 0]}) ∅ ∅ 0 ∅ ∅ ∅.
Definition demo_saved : Db := (save_edit_recipe (Ok tt) demo_key 0 (V1 demo_settings) demo_db).1.
Definition demo_resaved : Db := (save_edit_recipe (Ok tt) demo_key 1 default_Recipe demo_saved).1.
Definition demo_undone : Db := (undo_edit (Ok tt) demo_key 2 demo_resaved).1.

Lemma demo_default_readable : default_readable.
Proof.
  intros c Hc. vm_compute in Hc. injection Hc as <-. unfold readable. cbn [n_recipe n_digest fst snd].
  split_and!; vm_compute; congruence.
Qed.
Lemma demo_db_reachable : reachable demo_db.
Proof. by apply reachable_new. Qed.
Lemma demo_saved_reachable : reachable demo_saved.
Proof. eapply reachable_step; [apply demo_db_reachable|]. eapply step_save, surjective_pairing. Qed.
Lemma demo_resaved_reachable : reachable demo_resaved.
Proof. eapply reachable_step; [apply demo_saved_reachable|]. eapply step_save, surjective_pairing. Qed.
Lemma demo_saved_ok : edits_ok demo_saved.
Proof. apply (reachable_ok demo_default_readable), demo_saved_reachable. Qed.
Lemma demo_resaved_ok : edits_ok demo_resaved.
Proof. apply (reachable_ok demo_default_readable), demo_resaved_reachable. Qed.

(** A call that succeeded, as an equation on its results. *)
Lemma ok_run {A} (m : proc EditError Db A) s : is_ok (m s).2 = true -> exists w, m s = ((m s).1, Ok w).
Proof. destruct (m s) as [t [w|e]]; cbn; [eauto|done]. Qed.

Example demo_undo_restores :
  match view demo_key demo_undone with
  | (_, Ok w) => (revision w, can_undo w, can_redo w, bool_decide (view_recipe w = V1 (normalize demo_settings)))
                 = (3, true, true, true)
  | _ => False
  end.
Proof. vm_compute. reflexivity. Qed.
Example demo_history :
  match edit_history demo_key 0 10 demo_undone with
  | (_, Ok es) => map (fun e => (h_revision e, h_kind e)) es = [(1, "save"); (2, "save"); (3, "undo")]%string
  | _ => False
  end.
Proof. vm_compute. reflexivity. Qed.

(** ** Theorems *)

Section Theorems.
Context {CODEC : EditCodec} {IDS : RowIds}.

(** C2. In every database the catalog can reach by saves, undos, redos, copies,
    imports and failures of them, each variant has a registered image, a cursor
    a finite number of edits from its root, redo nodes that replay children of
    the cursor in order, a revision in range, and exactly one change for every
    revision, each starting where the one before ended; every stored recipe
    document still reads back to its digest. *)
Theorem edits_invariant (Hdef : default_readable) s : reachable s -> edits_ok s.
Proof. apply (reachable_ok Hdef). Qed.

(** C19. A save that succeeds found the expected revision and stores exactly the
    validated document at the next one, as a child of the previous recipe: it
    can be undone and no longer redone, the change is in the history and the crop
    fits the known dimensions.  Nothing else happens: one node is new, besides the
    root of a variant that had no row; the only variant that differs keeps its place
    and its label; one change is added; the redo nodes, images, assets and epochs
    are those of before. *)
Theorem save_spec (Hdef : default_readable) grant k e r s s' w :
  edits_ok s -> save_edit_recipe grant k e r s = (s', Ok w) ->
  exists v sequence label c before previous text,
    validate r = Ok v /\ current_revision k s = e /\ revision w = e + 1 /\
    (recipe_digest w = digest v /\ canonical (view_recipe w) = Ok (canonical_bytes v, digest v)) /\
    can_undo w = true /\ can_redo w = false /\
    variants s' = <[k := mkVariant sequence label (e + 1) (Some c) None]> (variants s) /\
    (before !! c = None /\ recipe_nodes s' = <[c := mkNode k (Some previous) (canonical_bytes v) (digest v)]> before) /\
    match variants s !! k with
    | Some old => old = mkVariant sequence label e (Some previous) (v_redo old) /\
        before = recipe_nodes s /\ variant_sequence s' = variant_sequence s
    | None => e = 0 /\ label = "Original"%string /\ sequence = variant_sequence s + 1 /\ variant_sequence s' = sequence /\
        recipe_nodes s !! previous = None /\
        exists d, canonical default_Recipe = Ok d /\ before = <[previous := mkNode k None d.1 d.2]> (recipe_nodes s)
    end /\
    changes s' = <[(k, e + 1) := mkChange "save" (Some previous) c text]> (changes s) /\
    (redo_nodes s' = redo_nodes s /\ images s' = images s /\ assets s' = assets s /\
      shared_epochs s' = shared_epochs s /\ metadata_revisions s' = metadata_revisions s) /\
    (forall size, known_dimensions (asset_id k) s = (s, Ok (Some size)) ->
      exists extent, validate_dimensions v size.1 size.2 = Some (Ok extent)).
Proof.
  intros Hs H. destruct (save_edit_recipe_inv Hdef _ _ _ _ _ _ _ Hs H) as (v & cur & s0 & text & _ & Hv & Hext & Hsv).
  pose proof (saved_succeeds _ _ _ _ _ _ _ _ _ _ _ Hsv) as [_ Hbefore _ Hview Hrev _].
  destruct Hsv as [Hm (He & Hcr & Hmax) -> Htext _].
  destruct (mt_row _ _ _ _ Hm) as (row & Hrow & Hlab & Hrr & Hrc & Hrd).
  destruct (mt_frame _ _ _ _ Hm) as (Ha & Hse & Hmr).
  pose proof (saved_view _ _ _ _ _ _ _ _ _ _ (ex_intro _ row Hrow) Hview) as (Hcan & Hundo & Hredo).
  exists v, (v_sequence row), (v_label row), (fresh_rowid (dom (recipe_nodes s0))), (recipe_nodes s0), (s_cursor cur), text.
  split_and!; [done|done|done|by destruct Hcan|by destruct Hcan|done|done| |by apply (fresh_node _ (mkNode k None [] ""))|done| |by rewrite <- (mt_changes _ _ _ _ Hm)
    |by rewrite <- (mt_redos _ _ _ _ Hm)|by rewrite <- (mt_images _ _ _ _ Hm)|done|done|done|done].
  - cbn. apply (saved_variants _ _ _ _ _ _ _ Hm Hrow).
  - cbn. destruct (variants s !! k) as [old|] eqn:Hold.
    + pose proof (mt_same _ _ _ _ Hm ltac:(congruence)) as ->. assert (row = old) as -> by congruence.
      destruct old. cbn in *. by subst.
    + destruct (mt_created _ _ _ _ Hm Hold) as (d & Hd & Hfree & Hnodes & Hnew & Hseq).
      destruct (mt_new _ _ _ _ Hm Hold) as (He0 & _). assert (Some row = Some _) as [= ->] by (by rewrite <- Hrow, Hnew). cbn.
      split_and!; [lia|done..|by exists d].
Qed.

(** Undoing an edit and redoing it brings back the recipe, its digest, the
    label and the undo and redo choices exactly as they were, two revisions
    later; the redo always succeeds, short of the end of the revision range. *)
Theorem undo_redo_roundtrip (Hdef : default_readable) grant k e s s1 w1 :
  edits_ok s -> undo_edit grant k e s = (s1, Ok w1) -> e + 2 <= i64_max ->
  exists v w0 s2,
    variants s !! k = Some v /\ v_revision v = e /\ view k s = (s, Ok w0) /\
    redo_edit (Ok tt) k (e + 1) s1 =
      (s2, Ok (mkView (key w0) (label w0) (e + 2) (view_recipe w0) (recipe_digest w0) (can_undo w0) (can_redo w0))) /\
    variants s2 !! k = Some (mkVariant (v_sequence v) (v_label v) (e + 2) (v_cursor v) (v_redo v)).
Proof. apply (undo_redo_run Hdef). Qed.

(** Of the calls that expect one revision of a variant at most one takes
    effect: once a save, undo or redo at revision [e] has succeeded, every call
    that still expects [e] is refused and changes nothing. *)
Theorem revision_guard (Hdef : default_readable) k e s s1 w g1 g2 c1 c2 s2 r :
  edits_ok s -> run_call g1 k e c1 s = (s1, Ok w) -> run_call g2 k e c2 s1 = (s2, r) ->
  s2 = s1 /\ is_ok r = false.
Proof.
  intros Hs H1 H2. apply (run_call_succeeds Hdef) in H1 as [Hok _ Hafter _ _ _]; [|done].
  destruct r as [w2|err].
  - apply (run_call_succeeds Hdef) in H2 as [_ Hbefore _ _ _ _]; [|done]. lia.
  - split; [by apply run_call_atomic in H2|done].
Qed.

(** The history page after revision [after] always loads, and is exactly the
    next [limit] revisions up to the present, in order and without gaps, each
    with the recipe and digest its change led to. *)
Theorem history_page (Hjson : provenance_readable) k s v after limit :
  edits_ok s -> variants s !! k = Some v -> validate_key k = Ok tt ->
  1 <= limit <= 200 -> 0 <= after ->
  exists es, edit_history k after limit s = (s, Ok es) /\
    map h_revision es = seqZ (after + 1) (Z.min limit (v_revision v - after)) /\
    Forall (entry_of k s) es.
Proof. apply (history_run Hjson). Qed.

(** Work attached to an edit identity runs only in a state in which the
    identity's asset generation, fingerprint and state, its image metadata, its
    edit revision and its recipe digest all still hold, and its writes are the
    only ones; when any of them has changed, or any part fails, nothing is
    written. *)
Theorem attach_guarded {T} grant x (attach : proc EditError Db T) s s' r :
  with_edit_transaction grant x attach s = (s', r) ->
  match r with Ok (Some t) => attach s = (s', Ok t) /\ identity_holds x s | _ => s' = s end.
Proof. apply attach_run. Qed.
End Theorems.

Lemma edits_invariant_witness : reachable demo_undone /\ edits_ok demo_undone.
Proof.
  assert (reachable demo_undone) as H.
  { eapply reachable_step; [apply demo_resaved_reachable|]. eapply step_undo, surjective_pairing. }
  split; [exact H|apply (edits_invariant demo_default_readable), H].
Defined.

Lemma save_spec_witness :
  exists w, save_edit_recipe (Ok tt) demo_key 1 default_Recipe demo_saved = (demo_resaved, Ok w) /\
    revision w = 2 /\ can_undo w = true.
Proof.
  destruct (ok_run (save_edit_recipe (Ok tt) demo_key 1 default_Recipe) demo_saved) as [w Hw]; [vm_compute; reflexivity|].
  exists w. split; [exact Hw|].
  destruct (save_spec demo_default_readable _ _ _ _ _ _ _ demo_saved_ok Hw)
    as (v & q & l & c & b & p & t & _ & _ & Hr & _ & Hu & _).
  split; [exact Hr|exact Hu].
Defined.

Lemma undo_redo_roundtrip_witness :
  exists w0 s2 w2, view demo_key demo_resaved = (demo_resaved, Ok w0) /\
    redo_edit (Ok tt) demo_key 3 demo_undone = (s2, Ok w2) /\ view_recipe w2 = view_recipe w0.
Proof.
  destruct (ok_run (undo_edit (Ok tt) demo_key 2) demo_resaved) as [w Hw]; [vm_compute; reflexivity|].
  destruct (undo_redo_roundtrip demo_default_readable _ _ _ _ _ _ demo_resaved_ok Hw)
    as (v & w0 & s2 & _ & _ & H0 & H2 & _); [vm_compute; congruence|].
  exists w0, s2. eexists. split; [exact H0|]. split; [exact H2|reflexivity].
Defined.

Lemma revision_guard_witness :
  let '(s, r) := run_call (Ok tt) demo_key 1 CallUndo demo_resaved in
  s = demo_resaved /\ is_ok r = false.
Proof.
  destruct (ok_run (run_call (Ok tt) demo_key 1 (CallSave default_Recipe)) demo_saved) as [w Hw];
    [vm_compute; reflexivity|].
  destruct (run_call (Ok tt) demo_key 1 CallUndo demo_resaved) as [s r] eqn:Hu.
  exact (revision_guard demo_default_readable _ _ _ _ _ _ _ _ _ _ _ demo_saved_ok Hw Hu).
Defined.

Lemma history_page_witness :
  exists es, edit_history demo_key 1 5 demo_resaved = (demo_resaved, Ok es) /\ map h_revision es = [2].
Proof.
  assert (provenance_readable) as Hjson by (intros v t _; reflexivity).
  assert (exists v, variants demo_resaved !! demo_key = Some v /\ v_revision v = 2) as (v & Hv & Hr)
    by (eexists; split; vm_compute; reflexivity).
  destruct (history_page Hjson demo_key demo_resaved v 1 5 demo_resaved_ok Hv) as (es & H & Hm & _);
    [vm_compute; reflexivity|lia|lia|].
  exists es. split; [exact H|]. rewrite Hm, Hr. reflexivity.
Defined.

(** The identity at revision 2: current before the undo, stale after it. *)
Definition demo_identity : EditRenderIdentity :=
  mkEditRender (Some (mkImageIdentity "a" demo_key 0 0 0 1)) (mkRender "a" 1 None "online" 0) demo_key 2
    (match view demo_key demo_resaved with (_, Ok w) => recipe_digest w | _ => "" end).
Definition demo_attach : proc EditError Db unit := modify (set_images (fun _ => ∅)).

Example demo_identity_captured : (edit_render_identity demo_key demo_resaved).2 = Ok demo_identity.
Proof. vm_compute. reflexivity. Qed.

Lemma attach_guarded_witness :
  identity_holds demo_identity demo_resaved /\
  (with_edit_transaction (Ok tt) demo_identity demo_attach demo_undone).1 = demo_undone.
Proof.
  pose proof (attach_guarded (Ok tt) demo_identity demo_attach demo_resaved _ _ (surjective_pairing _)) as Ha.
  pose proof (attach_guarded (Ok tt) demo_identity demo_attach demo_undone _ _ (surjective_pairing _)) as Hb.
  assert ((with_edit_transaction (Ok tt) demo_identity demo_attach demo_resaved).2 = Ok (Some tt)) as Hr
    by (vm_compute; reflexivity).
  assert ((with_edit_transaction (Ok tt) demo_identity demo_attach demo_undone).2 = Ok None) as Hs
    by (vm_compute; reflexivity).
  rewrite Hr in Ha. rewrite Hs in Hb. split; [exact (proj2 Ha)|exact Hb].
Defined.
