(* ===== verification/EditHistory.v ===== *)
(** The history of an edit variant as a user sees it, and the proof that
    src/src/catalog_edits.rs implements it: behind the node, redo and variant
    tables there is a zipper of documents that saving, undoing and redoing move
    as expected. *)
From stdpp Require Import base tactics option list numbers gmap strings.
From Stdlib Require Import ZArith Lia.
From S2P Require Import Prelude Recipe CatalogEdits EditLineage EditTheorems.

Open Scope Z_scope.
Local Open Scope prog_scope.

(** ** The abstract history *)

(** A document: canonical bytes and their digest. *)
Definition Doc : Type := bytes * string.

Record History : Type := mkHistory { past : list Doc; present : Doc; future : list Doc; at_revision : Z }.

Section History.
Context {CODEC : EditCodec} {IDS : RowIds}.

Definition history_save (d : Doc) (h : History) : History :=
  mkHistory (present h :: past h) d [] (at_revision h + 1).
Definition history_undo (h : History) : option History :=
  match past h with
  | [] => None
  | d :: ds => Some (mkHistory ds d (present h :: future h) (at_revision h + 1))
  end.
Definition history_redo (h : History) : option History :=
  match future h with
  | [] => None
  | d :: ds => Some (mkHistory (present h :: past h) d ds (at_revision h + 1))
  end.
Definition history_call (c : EditCall) (h : History) : option History :=
  match c with
  | CallSave r => match canonical r with Ok d => Some (history_save d h) | Err _ => None end
  | CallUndo => history_undo h
  | CallRedo => history_redo h
  end.

(** What the history shows of itself. *)
Record shows (h : History) (w : VariantView) : Prop := {
  sh_revision : revision w = at_revision h;
  sh_recipe : read_recipe (present h).1 (present h).2 = Ok (view_recipe w);
  sh_digest : recipe_digest w = (present h).2;
  sh_undo : can_undo w = true <-> history_undo h <> None;
  sh_redo : can_redo w = true <-> history_redo h <> None;
}.

(** ** The abstraction *)

Definition doc_of (n : RecipeNode) : Doc := (n_recipe n, n_digest n).

(** The documents from a cursor back to its root. *)
Inductive past_docs (nodes : gmap Z RecipeNode) (k : VariantKey) : Z -> list Doc -> Prop :=
| past_root c n : nodes !! c = Some n -> n_key n = k -> n_parent n = None -> past_docs nodes k c [doc_of n]
| past_edit c n p ds :
    nodes !! c = Some n -> n_key n = k -> n_parent n = Some p ->
    past_docs nodes k p ds -> past_docs nodes k c (doc_of n :: ds).

(** The documents a chain of redo nodes replays on a cursor. *)
Inductive future_docs (nodes : gmap Z RecipeNode) (redos : gmap Z RedoNode) (k : VariantKey)
    : Z -> option Z -> list Doc -> Prop :=
| future_end c : future_docs nodes redos k c None []
| future_step c d rn n ds :
    redos !! d = Some rn -> d_key rn = k ->
    nodes !! d_recipe_node rn = Some n -> n_key n = k -> n_parent n = Some c ->
    future_docs nodes redos k (d_recipe_node rn) (d_next rn) ds ->
    future_docs nodes redos k c (Some d) (doc_of n :: ds).

(** A stored variant, and a master that no edit has stored yet. *)
Inductive represents (s : Db) (k : VariantKey) : History -> Prop :=
| represents_stored v c d ds fs :
    variants s !! k = Some v -> v_cursor v = Some c ->
    past_docs (recipe_nodes s) k c (d :: ds) ->
    future_docs (recipe_nodes s) (redo_nodes s) k c (v_redo v) fs ->
    represents s k (mkHistory ds d fs (v_revision v))
| represents_master d :
    variants s !! k = None -> variant_id k = MASTER -> canonical default_Recipe = Ok d ->
    represents s k (mkHistory [] d [] 0).

(** ** The abstraction is total and functional on good states *)

Lemma past_docs_total nodes k c depth : lineage nodes k c depth -> exists d ds, past_docs nodes k c (d :: ds).
Proof.
  induction 1 as [c n Hn Hk Hp|c n p depth Hn Hk Hp _ (d & ds & IH)].
  - exists (doc_of n), []. by apply past_root.
  - exists (doc_of n), (d :: ds). by eapply past_edit.
Qed.
Lemma future_docs_total nodes redos k c r :
  redo_chain nodes redos k c r -> exists ds, future_docs nodes redos k c r ds.
Proof.
  induction 1 as [c|c d rn n Hd Hkd Hn Hk Hp _ (ds & IH)]; eexists; [by apply future_end|by eapply future_step].
Qed.
Lemma past_docs_unique nodes k c ds ds' : past_docs nodes k c ds -> past_docs nodes k c ds' -> ds = ds'.
Proof.
  intros H. revert ds'. induction H as [c n Hn Hk Hp|c n p ds Hn Hk Hp _ IH];
    inversion 1 as [? n' Hn'|? n' p' ds2 Hn' ? Hp' H2]; subst; assert (n' = n) as -> by congruence;
    [done|congruence|congruence|]. assert (p' = p) as -> by congruence. f_equal. by apply IH.
Qed.
Lemma future_docs_unique nodes redos k c r ds ds' :
  future_docs nodes redos k c r ds -> future_docs nodes redos k c r ds' -> ds = ds'.
Proof.
  intros H. revert ds'. induction H as [c|c d rn n ds Hd Hkd Hn Hk Hp _ IH];
    inversion 1 as [|? ? rn' n' ds2 Hd' ? Hn' ? ? H2]; subst; [done|].
  assert (rn' = rn) as -> by congruence. assert (n' = n) as -> by congruence. f_equal. by apply IH.
Qed.
Lemma past_docs_head nodes k c d ds n : past_docs nodes k c (d :: ds) -> nodes !! c = Some n -> d = doc_of n.
Proof. inversion 1; intros; congruence. Qed.

Lemma represents_total s k v : edits_ok s -> variants s !! k = Some v -> exists h, represents s k h.
Proof.
  intros Hs Hv. destruct (eo_variants s Hs k v Hv) as [_ _ _ (c & depth & Hc & Hlin & Hchain)].
  destruct (past_docs_total _ _ _ _ Hlin) as (d & ds & Hp). destruct (future_docs_total _ _ _ _ _ Hchain) as (fs & Hf).
  eexists. by eapply represents_stored.
Qed.
Lemma represents_unique s k h h' : represents s k h -> represents s k h' -> h = h'.
Proof.
  destruct 1 as [v c d ds fs Hv Hc Hp Hf|d Hv _ Hd]; inversion 1 as [v' c' d' ds' fs' Hv' Hc' Hp' Hf'|d' Hv' _ Hd']; subst;
    [|congruence|congruence|congruence].
  assert (v' = v) as -> by congruence. assert (c' = c) as -> by congruence.
  pose proof (past_docs_unique _ _ _ _ _ Hp Hp') as [= <- <-].
  by pose proof (future_docs_unique _ _ _ _ _ _ _ Hf Hf') as <-.
Qed.

(** ** Growth *)

Lemma past_docs_mono nodes nodes' k c ds : nodes ⊆ nodes' -> past_docs nodes k c ds -> past_docs nodes' k c ds.
Proof. intros Hsub. induction 1; [eapply past_root|eapply past_edit]; eauto using lookup_weaken. Qed.
Lemma future_docs_mono nodes nodes' redos redos' k c r ds :
  nodes ⊆ nodes' -> redos ⊆ redos' -> future_docs nodes redos k c r ds -> future_docs nodes' redos' k c r ds.
Proof. intros Hn Hr. induction 1; [apply future_end|eapply future_step]; eauto using lookup_weaken. Qed.

Lemma represents_mono s s' k h :
  variants s' !! k = variants s !! k -> recipe_nodes s ⊆ recipe_nodes s' -> redo_nodes s ⊆ redo_nodes s' ->
  represents s k h -> represents s' k h.
Proof.
  intros Hv Hn Hr [v c d ds fs Hk Hc Hp Hf|d Hk Hm Hd]; [|apply represents_master; congruence].
  eapply represents_stored; [by rewrite Hv|done|by eapply past_docs_mono|by eapply future_docs_mono].
Qed.

(** Storing a master does not change its history. *)
Lemma represents_materialized k cur s s0 h :
  materialized k cur s s0 -> represents s k h -> represents s0 k h.
Proof.
  intros Hm Hh. destruct (mt_row _ _ _ _ Hm) as (v & Hv & _ & Hr & Hc & Hd).
  inversion Hh as [v0 c d ds fs Hv0 Hc0 Hp Hf|d Hnone Hmaster Hdef]; subst h.
  - by rewrite (mt_same _ _ _ _ Hm ltac:(congruence)).
  - destruct (mt_new _ _ _ _ Hm Hnone) as (Hr0 & Hd0 & _ & n & Hn & Hpn & Hdoc & Hkn).
    rewrite Hdef in Hdoc. injection Hdoc as ->. rewrite <-Hr0, <-Hr.
    eapply represents_stored; [exact Hv|exact Hc|by apply past_root|]. rewrite Hd, Hd0. apply future_end.
Qed.

(** The parts of the history that a row and its cursor determine. *)
Lemma represents_inv s k v c n h :
  represents s k h -> variants s !! k = Some v -> v_cursor v = Some c -> recipe_nodes s !! c = Some n ->
  present h = doc_of n /\ at_revision h = v_revision v /\
  past_docs (recipe_nodes s) k c (present h :: past h) /\
  future_docs (recipe_nodes s) (redo_nodes s) k c (v_redo v) (future h).
Proof.
  intros [v' c' d ds fs Hv Hc Hp Hf|] Hv' Hc' Hn; [|congruence]. cbn.
  assert (v' = v) as -> by congruence. assert (c' = c) as -> by congruence.
  split_and!; [by eapply past_docs_head|done..].
Qed.

(** ** Simulation *)

Lemma advanced_represents k r c rd kind p t s d ds fs :
  is_Some (variants s !! k) -> past_docs (recipe_nodes s) k c (d :: ds) ->
  future_docs (recipe_nodes s) (redo_nodes s) k c rd fs ->
  represents (advanced k r c rd kind p t s) k (mkHistory ds d fs r).
Proof.
  intros [v Hv] Hp Hf.
  refine (represents_stored (advanced k r c rd kind p t s) k (mkVariant (v_sequence v) (v_label v) r (Some c) rd) c d ds fs _ eq_refl Hp Hf).
  cbn. by rewrite lookup_alter_eq, Hv.
Qed.

Lemma saved_simulates k e b dg kind s s' cur s0 text w h :
  saved k e b dg kind s s' cur s0 text w -> represents s k h ->
  e = at_revision h /\ represents s' k (history_save (b, dg) h).
Proof.
  intros [Hm (He & Hrev & Hmax) -> _ _] Hh. apply (represents_materialized k cur s s0) in Hh; [|done].
  destruct (mt_row _ _ _ _ Hm) as (v & Hv & _ & Hr & Hc & Hd).
  destruct (vo_cursor _ _ _ (eo_variants s0 (mt_ok _ _ _ _ Hm) k v Hv)) as (c & depth & Hc' & Hlin & _).
  assert (c = s_cursor cur) as -> by congruence. destruct (lineage_node _ _ _ _ Hlin) as (n & Hn & Hkn).
  destruct (represents_inv _ _ _ _ _ _ Hh Hv Hc Hn) as (_ & Hat & Hp & _).
  split; [congruence|]. unfold history_save. rewrite Hat, Hr, Hrev.
  set (fresh := fresh_rowid _) in *.
  pose proof (fresh_node (recipe_nodes s0) (mkNode k (Some (s_cursor cur)) b dg)) as [Hsub Hnew]. fold fresh in Hsub.
  eapply advanced_represents; [by eexists| |by apply future_end].
  refine (past_edit _ k fresh (mkNode k (Some (s_cursor cur)) b dg) (s_cursor cur) _ _ eq_refl eq_refl _).
  - cbn. by rewrite lookup_insert_eq.
  - by eapply past_docs_mono.
Qed.

Lemma moved_simulates redo k e s s' cur s0 cursor next redos text w h :
  moved redo k e s s' cur s0 cursor next redos text w -> represents s k h ->
  e = at_revision h /\
  exists h', (if redo then history_redo h else history_undo h) = Some h' /\ represents s' k h'.
Proof.
  intros [Hm (He & Hrev & Hmax) Hmv -> _ _] Hh. apply (represents_materialized k cur s s0) in Hh; [|done].
  destruct (mt_row _ _ _ _ Hm) as (v & Hv & _ & Hr & Hc & Hd).
  destruct (vo_cursor _ _ _ (eo_variants s0 (mt_ok _ _ _ _ Hm) k v Hv)) as (c & depth & Hc' & Hlin & _).
  assert (c = s_cursor cur) as -> by congruence. destruct (lineage_node _ _ _ _ Hlin) as (n & Hn & Hkn).
  destruct (represents_inv _ _ _ _ _ _ Hh Hv Hc Hn) as (Hpr & Hat & Hp & Hf).
  split; [congruence|]. destruct h as [ds d fs r]; cbn in *. subst d r. rewrite <-Hrev, <-Hr.
  destruct Hmv as [n' p Hn' Hkn' Hpn|top rd n' Htop Hrd Hkrd Hn' Hkn' Hpn].
  - assert (n' = n) as -> by congruence.
    inversion Hp as [|? n2 p2 ds2 Hn2 _ Hp2 Hpast Heq]; subst; [congruence|].
    assert (p2 = p) as -> by congruence.
    destruct ds as [|d ds]; [inversion Hpast|]. eexists. split; [reflexivity|].
    eapply advanced_represents; [by eexists|exact Hpast|].
    cbn. eapply future_step; [by rewrite lookup_insert_eq|done|exact Hn|done|done|]. cbn.
    rewrite Hd in Hf. eapply future_docs_mono; [done|apply fresh_redo|exact Hf].
  - rewrite Hd, Htop in Hf. inversion Hf as [|? ? rd' n2 fs2 Hrd' _ Hn2 _ _ Hrest]; subst.
    assert (rd' = rd) as -> by congruence. assert (n2 = n') as -> by congruence.
    eexists. split; [reflexivity|].
    eapply advanced_represents; [by eexists| |exact Hrest].
    by eapply past_edit.
Qed.

(** A view shows the history behind it. *)
Lemma view_shows k s w h : view k s = (s, Ok w) -> is_Some (variants s !! k) -> represents s k h -> shows h w.
Proof.
  intros [_ H]%view_inv [v Hv] Hh. rewrite Hv in H.
  destruct H as (c & n & Hc & Hn & Hkn & _ & Hview).
  destruct (represents_inv _ _ _ _ _ _ Hh Hv Hc Hn) as (Hpr & Hat & Hp & Hf).
  destruct Hview as (_ & _ & Hrv & Hrec & Hdg & Hu & Hre). split; [congruence|by rewrite Hpr|by rewrite Hpr| |].
  - rewrite Hu, bool_decide_eq_true. unfold history_undo.
    inversion Hp as [? n' Hn' ? Hpar Heq|? n' p ds Hn' ? Hpar Hpast Heq]; subst; assert (n' = n) as -> by congruence;
      rewrite Hpar.
    + by split; [intros []|].
    + destruct (past h) as [|d ds2]; [inversion Hpast|]. split; [done|eauto].
  - rewrite Hre, bool_decide_eq_true. unfold history_redo.
    inversion Hf as [? Hr1 Hr2 Heq|? ? ? ? ? ? ? ? ? ? ? Hr1 Hr2 Heq]; [by split; [intros []|]|].
    split; [done|eauto].
Qed.

(** What a call leaves of the node tables and of the other variants. *)
Lemma saved_others k e b dg kind s s' cur s0 text w k' h :
  saved k e b dg kind s s' cur s0 text w -> k' <> k -> represents s k' h -> represents s' k' h.
Proof.
  intros [Hm _ -> _ _] Hk. apply represents_mono; cbn.
  - rewrite lookup_alter_ne by congruence. by apply Hm.
  - etrans; [apply Hm|]. by apply fresh_node.
  - by rewrite (mt_redos _ _ _ _ Hm).
Qed.
Lemma moved_others redo k e s s' cur s0 cursor next redos text w k' h :
  moved redo k e s s' cur s0 cursor next redos text w -> k' <> k -> represents s k' h -> represents s' k' h.
Proof.
  intros [Hm _ Hmv -> _ _] Hk. apply represents_mono; cbn.
  - rewrite lookup_alter_ne by congruence. by apply Hm.
  - apply Hm.
  - rewrite <-(mt_redos _ _ _ _ Hm). destruct Hmv; [apply fresh_redo|done].
Qed.

Lemma save_edit_recipe_canonical grant k e r s s' w :
  save_edit_recipe grant k e r s = (s', Ok w) -> exists d, canonical r = Ok d.
Proof. intros H. unfold save_edit_recipe, enter in H. take_apart H. eauto. Qed.

(** What a successful call at [e] does to the histories. *)
Definition history_step (k : VariantKey) (e : Z) (c : EditCall) (s s' : Db) (w : VariantView) : Prop :=
  (forall h, represents s k h ->
    e = at_revision h /\ exists h', history_call c h = Some h' /\ represents s' k h' /\ shows h' w) /\
  (forall k' h, k' <> k -> represents s k' h -> represents s' k' h).

Lemma run_call_simulates (Hdef : default_readable) grant k e c s s' w :
  edits_ok s -> run_call grant k e c s = (s', Ok w) -> history_step k e c s s' w.
Proof.
  intros Hs H. pose proof (run_call_succeeds Hdef _ _ _ _ _ _ _ Hs H) as [_ _ Hafter Hview Hrv _].
  assert (forall h, represents s' k h -> shows h w) as Hshow.
  { intros h Hh. eapply view_shows; [exact Hview| |exact Hh]. apply view_inv in Hview as [_ Hw].
    destruct (variants s' !! k) eqn:Hv; [by eexists|]. exfalso. unfold current_revision in Hafter. rewrite Hv in Hafter.
    destruct Hw as (_ & _ & _ & Hw & _).
    assert (e = -1) by lia. clear -H Hs Hdef H0. destruct c as [r| |]; cbn [run_call] in H; unfold undo_edit, redo_edit in H.
    - apply (save_edit_recipe_inv Hdef) in H as (? & ? & ? & ? & _ & _ & _ & [_ (? & _) _ _ _]); [lia|done].
    - apply (move_inv Hdef) in H as (? & ? & ? & ? & ? & ? & [_ (? & _) _ _ _ _]); [lia|done].
    - apply (move_inv Hdef) in H as (? & ? & ? & ? & ? & ? & [_ (? & _) _ _ _ _]); [lia|done]. }
  clear Hafter Hview Hrv. destruct c as [r| |]; cbn [run_call] in H; unfold undo_edit, redo_edit in H.
  - pose proof H as H0. apply (save_edit_recipe_inv Hdef) in H as (v & cur & s0 & t & _ & Hv & _ & Hsv); [|done].
    split; [|by intros; eapply saved_others]. intros h Hh.
    destruct (saved_simulates _ _ _ _ _ _ _ _ _ _ _ _ Hsv Hh) as [He Hh']. split; [done|].
    eexists. split; [|split; [exact Hh'|by apply Hshow]]. cbn [history_call].
    destruct (save_edit_recipe_canonical _ _ _ _ _ _ _ H0) as (d & Hd).
    destruct (canonical_inv _ _ Hd) as (v' & Hv' & _ & ->). rewrite Hd. congruence.
  - apply (move_inv Hdef) in H as (? & ? & ? & ? & ? & ? & Hmv); [|done].
    split; [|by intros; eapply moved_others]. intros h Hh.
    destruct (moved_simulates _ _ _ _ _ _ _ _ _ _ _ _ _ Hmv Hh) as (He & h' & Hc & Hh'). split; [done|]. exists h'. auto.
  - apply (move_inv Hdef) in H as (? & ? & ? & ? & ? & ? & Hmv); [|done].
    split; [|by intros; eapply moved_others]. intros h Hh.
    destruct (moved_simulates _ _ _ _ _ _ _ _ _ _ _ _ _ Hmv Hh) as (He & h' & Hc & Hh'). split; [done|]. exists h'. auto.
Qed.
End History.

(** ** The refinement *)

Section Theorems.
Context {CODEC : EditCodec} {IDS : RowIds}.

(** C3. The tables of edit variants implement a history of documents: each
    variant has exactly one past, present and future; a save, undo or redo that
    succeeds at the expected revision moves that history as the abstract
    operation does and shows the result, an operation the history cannot do
    fails, a failure changes nothing, and no other variant's history moves. *)
Theorem history_refinement (Hdef : default_readable) grant k e c s s' r :
  edits_ok s -> run_call grant k e c s = (s', r) ->
  (forall k' v, variants s !! k' = Some v -> exists h, represents s k' h) /\
  (forall k' h h', represents s k' h -> represents s k' h' -> h = h') /\
  match r with
  | Ok w =>
      (forall h, represents s k h ->
        e = at_revision h /\ exists h', history_call c h = Some h' /\ represents s' k h' /\ shows h' w) /\
      (forall k' h, k' <> k -> represents s k' h -> represents s' k' h)
  | Err _ => s' = s
  end.
Proof.
  intros Hs H. split_and!; [by intros; eapply represents_total|by intros; eapply represents_unique|].
  destruct r as [w|err]; [by apply (run_call_simulates Hdef) in H|by apply run_call_atomic in H].
Qed.
End Theorems.

#[local] Existing Instance demo_rowids.
#[local] Existing Instance demo_edit_codec.

Lemma history_refinement_witness :
  exists h w, represents demo_resaved demo_key h /\ at_revision h = 2 /\
    undo_edit (Ok tt) demo_key 2 demo_resaved = (demo_undone, Ok w) /\
    exists h', history_undo h = Some h' /\ represents demo_undone demo_key h' /\ shows h' w.
Proof.
  destruct (ok_run (undo_edit (Ok tt) demo_key 2) demo_resaved) as [w Hw]; [vm_compute; reflexivity|].
  destruct (history_refinement demo_default_readable (Ok tt) demo_key 2 CallUndo demo_resaved _ _ demo_resaved_ok Hw)
    as (Htot & _ & Hsim & _).
  assert (is_Some (variants demo_resaved !! demo_key)) as [v Hv] by (vm_compute; eauto).
  destruct (Htot _ _ Hv) as (h & Hh). destruct (Hsim h Hh) as (He & h' & Hc & Hh' & Hshow).
  exists h, w. split; [exact Hh|]. split; [symmetry; exact He|]. split; [exact Hw|].
  exists h'. split; [exact Hc|]. split; [exact Hh'|exact Hshow].
Defined.
