(* ===== verification/EditCopy.v ===== *)
(** Copying adjustments to many variants: src/src/catalog_edits/copy.rs.

    A job freezes a source recipe and groups, collects target pages while it is
    building, and is then applied target by target, each in a transaction of its
    own; other writers run between the targets. *)
From stdpp Require Import base tactics option list numbers gmap strings fin_maps sorting.
From Stdlib Require Import ZArith Lia.
From S2P Require Import Prelude Recipe CatalogEdits.

Open Scope Z_scope.
Local Open Scope prog_scope.

(** ** Data *)

(** @source src/src/catalog_edits/copy.rs:4-9 EditTarget *)
Record EditTarget : Type := mkTarget { t_key : VariantKey; t_expected_revision : Z }.
(** @source src/src/catalog_edits/copy.rs:10-16 CopyDescription *)
Record CopyDescription : Type := mkDescription {
  source : EditTarget; d_digest : string; d_recipe : Recipe; d_groups : list AdjustmentGroup }.
(** @source src/src/catalog_edits/copy.rs:18-24 FrozenSource *)
Record FrozenSource : Type := mkFrozen { f_key : VariantKey; f_revision : Z; f_digest : string }.

(** The checked texts of the [state] columns. *)
Inductive JobState : Type := Building | Queued | Complete | Canceled.
Inductive ItemState : Type := Pending | Applied | Conflict | Incompatible.

#[export] Instance JobState_eq_dec : EqDecision JobState.
Proof. solve_decision. Defined.
#[export] Instance ItemState_eq_dec : EqDecision ItemState.
Proof. solve_decision. Defined.

(** A row of [edit_copy_jobs] and of [edit_copy_items]. *)
(** @source src/src/catalog_edits.rs:43-47 edit_copy_jobs *)
Record JobRow : Type := mkJobRow {
  j_sequence : Z; j_source : string; j_recipe : bytes; j_digest : string; j_groups : string;
  j_state : JobState; j_total : Z; j_completed : Z }.
(** @source src/src/catalog_edits.rs:48-53 edit_copy_items *)
Record ItemRow : Type := mkItemRow {
  i_target : EditTarget; i_state : ItemState; i_applied : option Z; i_error : option string }.

(** @source src/src/catalog_edits/copy.rs:60-67 CopyJob *)
Record CopyJob : Type := mkCopyJob {
  sequence : Z; job_id : string; state : JobState; total : Z; completed : Z }.
(** @source src/src/catalog_edits/copy.rs:68-75 CopyItem *)
Record CopyItem : Type := mkCopyItem { item_sequence : Z; item : ItemRow }.

(** The edit tables, and the two tables of copy jobs. *)
Record CopyDb : Type := mkCopyDb {
  edits : Db; jobs : gmap string JobRow; job_sequence : Z; items : gmap (string * Z) ItemRow }.

Definition set_edits d (s : CopyDb) : CopyDb := mkCopyDb d (jobs s) (job_sequence s) (items s).
Definition set_jobs f (s : CopyDb) : CopyDb := mkCopyDb (edits s) (f (jobs s)) (job_sequence s) (items s).
Definition set_job_sequence n (s : CopyDb) : CopyDb := mkCopyDb (edits s) (jobs s) n (items s).
Definition set_items f (s : CopyDb) : CopyDb := mkCopyDb (edits s) (jobs s) (job_sequence s) (f (items s)).

(** The serialized forms of the frozen source and of the groups. *)
Class CopyCodec : Type := {
  copy_edits :: EditCodec;
  parse_source : string -> result string FrozenSource;
  groups_to_string : list AdjustmentGroup -> result string string;
  groups_from_str : string -> result string (list AdjustmentGroup);
}.

Abbreviation CM := (proc EditError CopyDb).

(** A call on the edit tables. *)
Definition on_edits {A} (m : proc EditError Db A) : CM A := fun s =>
  match m (edits s) with (d, r) => (set_edits d s, r) end.

Definition copy_transaction {A} (body : CM A) : CM A := fun s =>
  match body s with
  | (s', Ok a) => (s', Ok a)
  | (_, Err e) => (s, Err e)
  end.

(** [Display] of a [RecipeError]; the only bounds are the literals of [validate]. *)
Definition show_bound (x : f32) : string :=
  if x =? f32_0 then "0" else if x =? f32_1 then "1" else if x =? f32_m1 then "-1"
  else if x =? f32_2 then "2" else if x =? f32_10 then "10" else if x =? f32_m10 then "-10"
  else if x =? f32_45 then "45" else if x =? f32_m45 then "-45" else if x =? f32_150 then "150"
  else if x =? f32_m150 then "-150" else "0.1".
(** @source src/src/edit/recipe.rs:149-151 checked *)
Definition show_error (e : RecipeError) : string :=
  match e with
  | OutOfRange name lo hi =>
      name +:+ " must be finite in [" +:+ show_bound lo +:+ ", " +:+ show_bound hi +:+ "]"
  | Refused m => m
  end.

(** ** Operations *)

Section Copy.
Context {CODEC : CopyCodec} {IDS : RowIds}.

(** [CASE WHEN length(...) <= n THEN ... END]. *)
Definition bounded {A} (b : bool) (a : A) : option A := if b then Some a else None.

(** @source src/src/catalog_edits/copy.rs:26-59 description *)
Definition description (id : string) : CM CopyDescription :=
  let* s := get in
  match jobs s !! id with
  | None => fail no_rows
  | Some j =>
      let* text := of_option (bounded (length_of (j_source j) <=? 2048) (j_source j))
                     (says "copy source exceeds bounded description") in
      let* f := lift (message (parse_source text)) in
      lift (validate_key (f_key f)) ;;;
      ensure (0 <=? f_revision f) (says "invalid frozen source revision") ;;;
      let* digest := of_option (bounded (length_of (j_digest j) =? 64) (j_digest j))
                       (says "invalid frozen recipe digest length") in
      ensure (bool_decide (f_digest f = digest)) (says "copy source digest differs from frozen recipe") ;;;
      let* b := of_option (bounded (Z.of_nat (length (j_recipe j)) <=? 65536) (j_recipe j))
                  (says "copy recipe exceeds bounded description") in
      let* recipe := lift (read_recipe b digest) in
      let* text := of_option (bounded (length_of (j_groups j) <=? 1024) (j_groups j))
                     (says "copy groups exceed bounded description") in
      let* groups := lift (message (groups_from_str text)) in
      ensure ((1 <=? Z.of_nat (length groups)) && (Z.of_nat (length groups) <=? 7))
        (says "copy adjustment group count") ;;;
      ret (mkDescription (mkTarget (f_key f) (f_revision f)) digest recipe groups)
  end.

(** @source src/src/catalog_edits/copy.rs:77-91 job *)
Definition job (id : string) : CM CopyJob :=
  let* s := get in
  match jobs s !! id with
  | None => fail no_rows
  | Some j => ret (mkCopyJob (j_sequence j) id (j_state j) (j_total j) (j_completed j))
  end.

Definition enter_copy (grant : result string unit) : CM unit := lift (message grant).

(** [uuid] is the identity the code draws for the job. *)
(** @source src/src/catalog_edits/copy.rs:100-134 Catalog::begin_edit_copy *)
Definition begin_edit_copy (grant : result string unit) (uuid : string) (k : VariantKey)
    (expected_revision : Z) (groups : list AdjustmentGroup) : CM CopyJob :=
  ensure ((1 <=? Z.of_nat (length groups)) && (Z.of_nat (length groups) <=? 7))
    (says "select one to seven adjustment groups") ;;;
  let* source_view := on_edits (edit_variant k) in
  ensure (revision source_view =? expected_revision) (says "source edit revision changed") ;;;
  let* c := lift (canonical (view_recipe source_view)) in
  let* source_json := lift (message (value_to_string (VObject
    [("key", key_json k); ("revision", VNumber expected_revision); ("digest", VString c.2)]))) in
  let* groups_json := lift (message (groups_to_string groups)) in
  enter_copy grant ;;;
  copy_transaction (
    let* current := on_edits (view k) in
    ensure ((revision current =? expected_revision) && bool_decide (recipe_digest current = c.2))
      (says "source edit revision changed") ;;;
    let* s := get in
    ensure (bool_decide (jobs s !! uuid = None)) (says "UNIQUE constraint failed: edit_copy_jobs.id") ;;;
    put (set_job_sequence (job_sequence s + 1)
      (set_jobs (<[uuid := mkJobRow (job_sequence s + 1) source_json c.1 c.2 groups_json Building 0 0]>) s)) ;;;
    job uuid).

(** [INSERT INTO edit_copy_items] of one target, with its two uniqueness
    constraints and its foreign key. *)
(** @source src/src/catalog_edits/copy.rs:166-168 Catalog::append_edit_copy *)
Definition insert_item (id : string) (q : Z) (target : EditTarget) : CM unit :=
  let* s := get in
  ensure (bool_decide (items s !! (id, q) = None))
    (says "UNIQUE constraint failed: edit_copy_items.job, edit_copy_items.sequence") ;;;
  ensure (negb (existsb (fun p => bool_decide (p.1.1 = id /\ t_key (i_target p.2) = t_key target))
                  (map_to_list (items s))))
    (says "UNIQUE constraint failed: edit_copy_items.job, edit_copy_items.asset_id, edit_copy_items.variant_id") ;;;
  ensure (bool_decide (is_Some (jobs s !! id))) (says "FOREIGN KEY constraint failed") ;;;
  put (set_items (<[(id, q) := mkItemRow target Pending None None]>) s).

Fixpoint insert_items (id : string) (q : Z) (targets : list EditTarget) : CM unit :=
  match targets with
  | [] => ret tt
  | target :: rest => insert_item id q target ;;; insert_items id (q + 1) rest
  end.

Definition set_job_total (n : Z) (j : JobRow) : JobRow :=
  mkJobRow (j_sequence j) (j_source j) (j_recipe j) (j_digest j) (j_groups j) (j_state j) n (j_completed j).
Definition set_job_state (st : JobState) (j : JobRow) : JobRow :=
  mkJobRow (j_sequence j) (j_source j) (j_recipe j) (j_digest j) (j_groups j) st (j_total j) (j_completed j).

Fixpoint validate_targets (targets : list EditTarget) : result EditError unit :=
  match targets with
  | [] => Ok tt
  | t :: rest =>
      let? _ := validate_key (t_key t) in
      let? _ := rensure (0 <=? t_expected_revision t) (says "negative edit revision") in
      validate_targets rest
  end.

(** @source src/src/catalog_edits/copy.rs:136-176 Catalog::append_edit_copy *)
Definition append_edit_copy (grant : result string unit) (id : string) (expected_total : Z)
    (targets : list EditTarget) : CM CopyJob :=
  ensure ((1 <=? Z.of_nat (length targets)) && (Z.of_nat (length targets) <=? 200))
    (says "copy target page bounds") ;;;
  lift (validate_targets targets) ;;;
  enter_copy grant ;;;
  copy_transaction (
    let* current := job id in
    ensure (bool_decide (state current = Building) && (total current =? expected_total))
      (says "copy target list changed or sealed") ;;;
    let* total' := of_option (i64_checked_add (total current) (Z.of_nat (length targets)))
                     (says "copy target count exhausted") in
    insert_items id (total current + 1) targets ;;;
    modify (set_jobs (alter (set_job_total total') id)) ;;;
    job id).

(** @source src/src/catalog_edits/copy.rs:178-202 Catalog::seal_edit_copy *)
Definition seal_edit_copy (grant : result string unit) (id : string) (expected_total : Z) : CM CopyJob :=
  enter_copy grant ;;;
  copy_transaction (
    let* current := job id in
    ensure (bool_decide (state current = Building) && (total current =? expected_total))
      (says "copy target list changed or already sealed") ;;;
    modify (set_jobs (alter (set_job_state (if total current =? 0 then Complete else Queued)) id)) ;;;
    job id).

(** @source src/src/catalog_edits/copy.rs:204-213 Catalog::cancel_edit_copy *)
Definition cancel_edit_copy (grant : result string unit) (id : string) : CM CopyJob :=
  enter_copy grant ;;;
  copy_transaction (
    modify (set_jobs (alter (fun j => match j_state j with
                                      | Building | Queued => set_job_state Canceled j
                                      | _ => j
                                      end) id)) ;;;
    job id).

(** @source src/src/catalog_edits/copy.rs:219-225 Catalog::edit_copy_jobs *)
Definition edit_copy_jobs (after limit : Z) : CM (list CopyJob) :=
  ensure ((0 <=? after) && (1 <=? limit) && (limit <=? 200)) (says "copy job page bounds") ;;;
  let* s := get in
  ret (map (fun p => mkCopyJob (j_sequence p.2) p.1 (j_state p.2) (j_total p.2) (j_completed p.2))
         (take (Z.to_nat limit) (order_by (fun p => j_sequence p.2)
           (filter (fun p => after < j_sequence p.2) (map_to_list (jobs s)))))).

(** The items of one job in sequence order. *)
Definition job_items (id : string) (keep : Z -> ItemRow -> bool) (s : CopyDb) : list (Z * ItemRow) :=
  order_by fst (omap (fun p => if bool_decide (p.1.1 = id) && keep p.1.2 p.2 then Some (p.1.2, p.2) else None)
    (map_to_list (items s))).

(** @source src/src/catalog_edits/copy.rs:227-233 Catalog::edit_copy_items *)
Definition edit_copy_items (id : string) (after limit : Z) : CM (list CopyItem) :=
  ensure ((0 <=? after) && (1 <=? limit) && (limit <=? 200)) (says "copy item page bounds") ;;;
  let* s := get in
  ret (map (fun p => mkCopyItem p.1 p.2)
         (take (Z.to_nat limit) (job_items id (fun q _ => after <? q) s))).

(** What became of a target that is not applied. *)
Inductive Refusal : Type := mkRefusal (st : ItemState) (error : string).

(** @source src/src/catalog_edits/copy.rs:273-285 Catalog::apply_edit_copy_step *)
Definition target_exists (k : VariantKey) (d : Db) : bool :=
  if bool_decide (variant_id k = MASTER) then bool_decide (is_Some (assets d !! asset_id k))
  else bool_decide (is_Some (variants d !! k)).

(** The merged document of a target, or why there is none. *)
(** @source src/src/catalog_edits/copy.rs:286-310 Catalog::apply_edit_copy_step *)
Definition prepare_target (target : EditTarget) (recipe : Recipe) (groups : list AdjustmentGroup)
    : CM (Refusal + bytes * string) :=
  let* s := get in
  if negb (target_exists (t_key target) (edits s))
  then ret (inl (mkRefusal Incompatible "asset or variant unavailable"))
  else
    let* v := on_edits (view (t_key target)) in
    if negb (revision v =? t_expected_revision target)
    then ret (inl (mkRefusal Conflict "edit revision changed"))
    else match copy_groups_from (view_recipe v) recipe groups with
    | Err e => ret (inl (mkRefusal Incompatible (show_error e)))
    | Ok merged =>
        let* dimensions := on_edits (known_dimensions (asset_id (t_key target))) in
        match (match dimensions with
               | Some (w, h) => validate_dimensions merged w h
               | None => Some (Ok (0, 0))
               end) with
        | None => fail Panicked
        | Some (Err e) => ret (inl (mkRefusal Incompatible (show_error e)))
        | Some (Ok _) => ret (inr (canonical_bytes merged, digest merged))
        end
    end.

(** Saving it, unless the revision moved. *)
(** @source src/src/catalog_edits/copy.rs:311-332 Catalog::apply_edit_copy_step *)
Definition save_target (id : string) (target : EditTarget) (source_json : Value)
    (prepared : Refusal + bytes * string) : CM (Refusal + Z) :=
  match prepared with
  | inl r => ret (inl r)
  | inr (b, dg) =>
      let* current := on_edits (view (t_key target)) in
      if negb (revision current =? t_expected_revision target)
      then ret (inl (mkRefusal Conflict "edit revision changed"))
      else
        let* value := on_edits (save (t_key target) (t_expected_revision target) b dg "copy"
          (VObject [("copy_job", VString id); ("source", source_json)])) in
        ret (inr (revision value))
  end.

(** The two updates that settle an item and count it. *)
(** @source src/src/catalog_edits/copy.rs:333-342 Catalog::apply_edit_copy_step *)
Definition settle (id : string) (q : Z) (outcome : Refusal + Z) : CM unit :=
  let '(st, applied, error) :=
    match outcome with
    | inr rev => (Applied, Some rev, None)
    | inl (mkRefusal st e) => (st, None, Some (String.substring 0 2048 e))
    end in
  modify (set_items (alter (fun i => mkItemRow (i_target i) st applied error) (id, q))) ;;;
  modify (set_jobs (alter (fun j =>
    mkJobRow (j_sequence j) (j_source j) (j_recipe j) (j_digest j) (j_groups j)
      (if j_completed j + 1 =? j_total j then Complete else j_state j) (j_total j) (j_completed j + 1)) id)).

(** One target; [false] is the [break] that stops the step. *)
(** @source src/src/catalog_edits/copy.rs:251-343 Catalog::apply_edit_copy_step *)
Definition apply_target (grant : result string unit) (id : string) (frozen : CopyDescription)
    (source_json : Value) (q : Z) : CM bool :=
  let* page := edit_copy_items id (q - 1) 1 in
  let* it := of_option (head page) (says "copy item missing") in
  let target := i_target (item it) in
  enter_copy grant ;;;
  copy_transaction (
    let* j := job id in
    if negb (bool_decide (state j = Queued)) then ret false else
    let* s := get in
    match items s !! (id, q) with
    | None => fail no_rows
    | Some row =>
        if negb (bool_decide (i_state row = Pending)) then ret true else
        let* prepared := prepare_target target (d_recipe frozen) (d_groups frozen) in
        let* outcome := save_target id target source_json prepared in
        settle id q outcome ;;;
        ret true
    end).

(** The loop over the pending sequences.  [others q] is what other writers
    committed since the previous target, and [grants q] the writer's answer. *)
(** @source src/src/catalog_edits/copy.rs:250-344 Catalog::apply_edit_copy_step *)
Fixpoint apply_targets (others : Z -> CopyDb -> CopyDb) (grants : Z -> result string unit) (id : string)
    (frozen : CopyDescription) (source_json : Value) (sequences : list Z) : CM unit :=
  match sequences with
  | [] => ret tt
  | q :: rest =>
      modify (others q) ;;;
      let* continue := apply_target (grants q) id frozen source_json q in
      if continue : bool then apply_targets others grants id frozen source_json rest else ret tt
  end.

(** @source src/src/catalog_edits/copy.rs:235-346 Catalog::apply_edit_copy_step *)
Definition apply_edit_copy_step (others : Z -> CopyDb -> CopyDb) (grants : Z -> result string unit)
    (id : string) (limit : Z) : CM CopyJob :=
  ensure ((1 <=? limit) && (limit <=? 100)) (says "copy work bounds") ;;;
  let* current := job id in
  if bool_decide (state current = Complete) || bool_decide (state current = Canceled) then ret current else
  ensure (bool_decide (state current = Queued)) (says "copy job is not sealed") ;;;
  let* frozen := description id in
  let source_json := VObject [("key", key_json (t_key (source frozen)));
    ("revision", VNumber (t_expected_revision (source frozen))); ("digest", VString (d_digest frozen))] in
  let* s := get in
  let sequences := take (Z.to_nat limit)
    (map fst (job_items id (fun _ i => bool_decide (i_state i = Pending)) s)) in
  apply_targets others grants id frozen source_json sequences ;;;
  job id.
End Copy.
