(* ===== verification/CopyJobs.v ===== *)
(** Copy jobs: the invariant of their tables and the properties of
    src/src/catalog_edits/copy.rs, with other writers interleaved. *)
From stdpp Require Import base tactics option list numbers gmap strings fin_maps sorting.
From Stdlib Require Import ZArith Lia.
From S2P Require Import Prelude Recipe CatalogEdits EditLineage EditTheorems EditCopy.

Open Scope Z_scope.
Local Open Scope prog_scope.

(** ** Counting settled items *)

Section Settled.
Implicit Types (its : gmap (string * Z) ItemRow).

Definition settled_at its (id : string) (q : Z) : bool :=
  match its !! (id, q) with Some i => negb (bool_decide (i_state i = Pending)) | None => false end.
Definition settled its (id : string) (n : Z) : Z :=
  Z.of_nat (length (filter (fun q => settled_at its id q = true) (seqZ 1 n))).

Lemma filter_count_ext {A} (P Q : A -> bool) (l : list A) :
  (forall x, x ∈ l -> P x = Q x) ->
  length (filter (fun x => P x = true) l) = length (filter (fun x => Q x = true) l).
Proof.
  induction l as [|x l IH]; intros H; [done|]. rewrite !filter_cons, (H x) by left.
  case_decide; cbn; [f_equal|]; apply IH; intros; apply H; by right.
Qed.

Lemma filter_count_one {A} `{!EqDecision A} (P Q : A -> bool) (l : list A) x0 :
  NoDup l -> x0 ∈ l -> P x0 = false -> Q x0 = true -> (forall x, x ∈ l -> x <> x0 -> P x = Q x) ->
  length (filter (fun x => Q x = true) l) = S (length (filter (fun x => P x = true) l)).
Proof.
  induction l as [|x l IH]; intros Hnd Hin HP HQ Hext; [by apply elem_of_nil in Hin|].
  apply NoDup_cons in Hnd as [Hx Hnd]. rewrite !filter_cons. destruct (decide (x = x0)) as [->|Hne].
  - rewrite HP, HQ. rewrite decide_True, decide_False by done. cbn. f_equal. symmetry. apply filter_count_ext.
    intros y Hy. apply Hext; [by right|]. by intros ->.
  - apply elem_of_cons in Hin as [->|Hin]; [done|]. rewrite (Hext x) by (try left; done).
    assert (IHl := IH Hnd Hin HP HQ ltac:(intros y Hy; apply Hext; by right)).
    case_decide; cbn; by rewrite IHl.
Qed.

Lemma settled_ext its its' id n :
  (forall q, 1 <= q <= n -> settled_at its' id q = settled_at its id q) ->
  settled its' id n = settled its id n.
Proof.
  intros H. unfold settled. f_equal. apply filter_count_ext. intros q Hq%elem_of_seqZ. apply H. lia.
Qed.
Lemma settled_one its its' id n q0 :
  1 <= q0 <= n -> settled_at its id q0 = false -> settled_at its' id q0 = true ->
  (forall q, q <> q0 -> settled_at its' id q = settled_at its id q) ->
  settled its' id n = settled its id n + 1.
Proof.
  intros Hq H0 H1 Hext. unfold settled.
  rewrite (filter_count_one (settled_at its id) (settled_at its' id) _ q0); [lia|apply NoDup_seqZ| |done|done|].
  - apply elem_of_seqZ. lia.
  - intros q _ Hne. symmetry. by apply Hext.
Qed.
Lemma settled_none its id n : (forall q, settled_at its id q = false) -> settled its id n = 0.
Proof.
  intros H. unfold settled. rewrite (filter_count_ext _ (fun _ => false)) by (intros; apply H).
  induction (seqZ 1 n); [done|]. by rewrite filter_cons, decide_False by done.
Qed.
Lemma settled_bounds its id n : 0 <= n -> 0 <= settled its id n <= n.
Proof.
  intros Hn. unfold settled. split; [lia|].
  pose proof (length_filter (fun q => settled_at its id q = true) (seqZ 1 n)). rewrite length_seqZ in *. lia.
Qed.
(** Fewer settled than items leaves one pending. *)
Lemma settled_pending its id n q :
  1 <= q <= n -> settled_at its id q = false -> settled its id n < n.
Proof.
  intros Hq H. pose proof (settled_one its (<[(id, q) := mkItemRow (mkTarget (mkKey "" "") 0) Applied None None]> its)
    id n q Hq H) as H1. rewrite <-(Z.add_0_r (settled _ _ _)).
  pose proof (settled_bounds (<[(id, q) := mkItemRow (mkTarget (mkKey "" "") 0) Applied None None]> its) id n ltac:(lia)).
  rewrite H1 in *; [lia|unfold settled_at; by rewrite lookup_insert_eq|].
  intros q' Hq'. unfold settled_at. by rewrite lookup_insert_ne by congruence.
Qed.
End Settled.

(** ** The invariant *)

Section Jobs.
Context {CODEC : CopyCodec} {IDS : RowIds}.

(** One job: its items are numbered from 1 to its total, one per variant; its
    counter is the number of settled ones, and it is complete exactly when its
    list is sealed and nothing is pending. *)
Record job_ok (s : CopyDb) (id : string) (j : JobRow) : Prop := {
  jo_total : 0 <= j_total j;
  jo_items : forall q, is_Some (items s !! (id, q)) <-> 1 <= q <= j_total j;
  jo_completed : j_completed j = settled (items s) id (j_total j);
  jo_building : j_state j = Building -> forall q, settled_at (items s) id q = false;
  jo_queued : j_state j = Queued -> j_completed j < j_total j;
  jo_complete : j_state j = Complete -> j_completed j = j_total j;
  jo_distinct : forall q q' i i', items s !! (id, q) = Some i -> items s !! (id, q') = Some i' ->
    t_key (i_target i) = t_key (i_target i') -> q = q';
}.

(** An applied item names the revision its target reached, and that revision of
    the target's history is a copy. *)
Record item_ok (s : CopyDb) (id : string) (i : ItemRow) : Prop := {
  io_job : is_Some (jobs s !! id);
  io_applied : i_state i = Applied ->
    i_applied i = Some (t_expected_revision (i_target i) + 1) /\
    exists c, changes (edits s) !! (t_key (i_target i), t_expected_revision (i_target i) + 1) = Some c /\
      c_kind c = "copy";
  io_refused : i_state i <> Applied -> i_applied i = None;
}.

Record copy_ok (s : CopyDb) : Prop := {
  cp_edits : edits_ok (edits s);
  cp_jobs : map_Forall (job_ok s) (jobs s);
  cp_items : forall id q i, items s !! (id, q) = Some i -> item_ok s id i;
}.

(** ** Taking copy programs apart *)

Lemma on_edits_inv {A} (m : proc EditError Db A) s s' a :
  on_edits m s = (s', Ok a) -> exists d, m (edits s) = (d, Ok a) /\ s' = set_edits d s.
Proof. unfold on_edits. destruct (m (edits s)) as [d r]. intros [= <- ->]. eauto. Qed.
Lemma on_edits_reads {A} (m : proc EditError Db A) s s' a :
  reads m -> on_edits m s = (s', Ok a) -> m (edits s) = (edits s, Ok a) /\ s' = s.
Proof.
  intros Hm (d & Hd & ->)%on_edits_inv. pose proof (reads_run _ _ _ _ Hm Hd) as ->. split; [done|by destruct s].
Qed.
Lemma copy_transaction_Ok {A} (m : proc EditError CopyDb A) s s' a :
  copy_transaction m s = (s', Ok a) <-> m s = (s', Ok a).
Proof. unfold copy_transaction. destruct (m s) as [t [b|e]]; naive_solver. Qed.
Lemma copy_transaction_Err {A} (m : proc EditError CopyDb A) s s' e :
  copy_transaction m s = (s', Err e) -> s' = s.
Proof. unfold copy_transaction. destruct (m s) as [t [b|e']]; naive_solver. Qed.

Lemma job_inv id s s' c : job id s = (s', Ok c) ->
  s' = s /\ exists j, jobs s !! id = Some j /\
    c = mkCopyJob (j_sequence j) id (j_state j) (j_total j) (j_completed j).
Proof.
  unfold job. rewrite bind_get. destruct (jobs s !! id) as [j|] eqn:Hj; [|done]. intros [= <- <-]. eauto.
Qed.

(** *** The item a step picks up by its sequence *)

Lemma elem_of_job_items id keep s q i :
  (q, i) ∈ job_items id keep s <-> items s !! (id, q) = Some i /\ keep q i = true.
Proof.
  unfold job_items, order_by. rewrite merge_sort_Permutation, list_elem_of_omap. split.
  - intros ([[id' q'] i'] & Hin%elem_of_map_to_list & Hf). cbn in Hf.
    destruct (bool_decide_reflect (id' = id)) as [->|]; [|done]. cbn in Hf.
    destruct (keep q' i') eqn:Hk; [|done]. injection Hf as <- <-. done.
  - intros [Hi Hk]. exists ((id, q), i). split; [by apply elem_of_map_to_list|]. cbn.
    by rewrite bool_decide_true, Hk.
Qed.

Lemma job_items_head id s q i :
  items s !! (id, q) = Some i ->
  head (job_items id (fun q' _ => q - 1 <? q') s) = Some (q, i).
Proof.
  intros Hi. assert ((q, i) ∈ job_items id (fun q' _ => q - 1 <? q') s) as Hin.
  { apply elem_of_job_items. split; [done|]. apply Z.ltb_lt. lia. }
  pose proof (StronglySorted_merge_sort (asc_on fst) (omap (fun p : string * Z * ItemRow =>
    if bool_decide (p.1.1 = id) && (q - 1 <? p.1.2) then Some (p.1.2, p.2) else None)
    (map_to_list (items s)))) as Hs. fold (order_by (A := Z * ItemRow) fst) in Hs.
  change (StronglySorted (asc_on fst) (job_items id (fun q' _ => q - 1 <? q') s)) in Hs.
  destruct (job_items id _ s) as [|[q1 i1] l] eqn:Hl; [by apply elem_of_nil in Hin|]. cbn.
  assert ((q1, i1) ∈ job_items id (fun q' _ => q - 1 <? q') s) as [Hi1 Hq1]%elem_of_job_items
    by (rewrite Hl; left).
  apply Z.ltb_lt in Hq1. assert (q1 <= q) as Hle.
  { apply elem_of_cons in Hin as [[= -> _]|Hin]; [lia|].
    apply StronglySorted_inv in Hs as [_ Hs]. rewrite Forall_forall in Hs. exact (Hs _ Hin). }
  assert (q1 = q) as -> by lia. congruence.
Qed.

(** ** The edit tables under the jobs: histories only grow *)

Lemma saved_changes k e b dg kind s s' cur s0 text w :
  saved k e b dg kind s s' cur s0 text w ->
  changes s !! (k, e + 1) = None /\
  exists c, changes s' !! (k, e + 1) = Some c /\ c_kind c = kind /\ changes s ⊆ changes s'.
Proof.
  intros [Hm (He & Hrev & _) -> _ _]. destruct (mt_row _ _ _ _ Hm) as (v & Hv & _ & Hvr & _).
  pose proof (no_change_yet k v s0 (mt_ok _ _ _ _ Hm) Hv) as Hnone.
  rewrite Hvr, Hrev, (mt_changes _ _ _ _ Hm) in Hnone. split; [done|]. eexists. cbn.
  rewrite lookup_insert_eq, (mt_changes _ _ _ _ Hm). split_and!; [done|done|]. by apply insert_subseteq.
Qed.

Lemma moved_changes redo k e s s' cur s0 cursor next redos text w :
  moved redo k e s s' cur s0 cursor next redos text w -> changes s ⊆ changes s'.
Proof.
  intros [Hm (He & Hrev & _) _ -> _ _]. destruct (mt_row _ _ _ _ Hm) as (v & Hv & _ & Hvr & _).
  pose proof (no_change_yet k v s0 (mt_ok _ _ _ _ Hm) Hv) as Hnone.
  rewrite Hvr, Hrev, (mt_changes _ _ _ _ Hm) in Hnone. cbn. rewrite (mt_changes _ _ _ _ Hm).
  by apply insert_subseteq.
Qed.

Lemma record_change_grows k r kind p c prov s s' :
  record_change k r kind p c prov s = (s', Ok tt) -> changes s ⊆ changes s'.
Proof.
  intros H. unfold record_change in H. take_apart H. apply bool_decide_eq_true in Hb0.
  injection H as <-. by apply insert_subseteq.
Qed.

Lemma create_changes grant vid iid clone source e l s s' w :
  create_edit_variant grant vid iid clone source e l s = (s', Ok w) -> changes s ⊆ changes s'.
Proof.
  intros H. unfold create_edit_variant, edit_variant, enter in H.
  apply bind_Ok_inv in H as (? & input & Hin & H). rewrite transaction_Ok in Hin.
  pose proof (reads_run _ _ _ _ (view_reads _) Hin) as ->. take_apart H. rewrite transaction_Ok in H.
  apply bind_Ok_inv in H as (? & cur & Hcur & H). pose proof (reads_run _ _ _ _ (view_reads _) Hcur) as ->.
  take_apart H. apply bind_Ok_inv in H as (s1 & [] & (f & g & -> & Hf)%register_copy_inv & H).
  apply bind_Ok_inv in H as (s2 & [] & (c & _ & _ & _ & _ & _ & ->)%insert_variant_inv & H).
  apply bind_Ok_inv in H as (? & o & (-> & _)%stored_inv & H). take_apart H.
  apply bind_Ok_inv in H as (s3 & [] & Hrec%record_change_grows & H).
  pose proof (reads_run _ _ _ _ (view_reads _) H) as ->. exact Hrec.
Qed.

Lemma edit_step_changes (Hdef : default_readable) s s' :
  edits_ok s -> edit_step s s' -> changes s ⊆ changes s'.
Proof.
  intros Hs [grant k e r res H|grant k e res H|grant k e res H|grant vid iid clone source e l res H
    |k e r prov st res H|H].
  - destruct res as [w|]; [|by apply save_edit_recipe_atomic in H as ->].
    apply (save_edit_recipe_inv Hdef) in H as (? & ? & ? & ? & _ & _ & _ & H); [|done].
    by apply saved_changes in H as (_ & c & _ & _ & ?).
  - destruct res as [w|]; [|by apply move_edit_cursor_atomic in H as ->].
    apply (move_inv Hdef) in H as (? & ? & ? & ? & ? & ? & H); [|done]. by eapply moved_changes.
  - destruct res as [w|]; [|by apply move_edit_cursor_atomic in H as ->].
    apply (move_inv Hdef) in H as (? & ? & ? & ? & ? & ? & H); [|done]. by eapply moved_changes.
  - destruct res as [w|]; [|by apply create_edit_variant_atomic in H as ->]. by eapply create_changes.
  - destruct res as [w|]; [|by apply transaction_Err in H as ->]. rewrite transaction_Ok in H.
    apply (import_inv Hdef) in H as (s1 & w1 & cur & s0 & text & b & dg & Hsv & f & ->); [|done].
    by apply saved_changes in Hsv as (_ & c & _ & _ & ?).
  - by rewrite (el_changes _ _ H).
Qed.

(** ** Each step keeps the invariant *)

Lemma copy_ok_edits s d :
  copy_ok s -> edits_ok d -> changes (edits s) ⊆ changes d -> copy_ok (set_edits d s).
Proof.
  intros [H1 H2 H3] Hd Hsub. split; [done| |].
  - intros id j Hj. by destruct (H2 id j Hj).
  - intros id q i Hi. destruct (H3 id q i Hi) as [Ha Hb Hc]. split; [done| |done].
    intros Hap. destruct (Hb Hap) as (? & c & Hch & ?). split; [done|]. exists c. eauto using lookup_weaken.
Qed.

(** A change of one job's row that keeps its counts and its rules. *)
Lemma copy_ok_job s id f j :
  copy_ok s -> jobs s !! id = Some j ->
  j_total (f j) = j_total j -> j_completed (f j) = j_completed j ->
  (j_state (f j) = Building -> j_state j = Building) ->
  (j_state (f j) = Queued -> j_completed j < j_total j) ->
  (j_state (f j) = Complete -> j_completed j = j_total j) ->
  copy_ok (set_jobs (alter f id) s).
Proof.
  intros [H1 H2 H3] Hj Ht Hc Hb Hq Hco. split; [done| |]; cbn.
  - intros id' j' [(<- & j0 & Hj0 & ->)|[Hne Hj']]%lookup_alter_Some.
    + assert (j0 = j) as -> by congruence. destruct (H2 id j Hj) as [A1 A2 A3 A4 A5 A6 A7].
      split; rewrite ?Ht, ?Hc; auto.
    + by destruct (H2 id' j' Hj').
  - intros id' q i Hi. destruct (H3 id' q i Hi) as [Ha Hap Hr]. split; [|done|done].
    cbn. destruct (decide (id' = id)) as [->|]; [rewrite lookup_alter_eq, Hj; eauto|by rewrite lookup_alter_ne by congruence].
Qed.

Definition settle_item (st : ItemState) (applied : option Z) (error : option string) (i : ItemRow) : ItemRow :=
  mkItemRow (i_target i) st applied error.
Definition count_item (j : JobRow) : JobRow :=
  mkJobRow (j_sequence j) (j_source j) (j_recipe j) (j_digest j) (j_groups j)
    (if j_completed j + 1 =? j_total j then Complete else j_state j) (j_total j) (j_completed j + 1).
Definition settled_db (id : string) (q : Z) st applied error (s : CopyDb) : CopyDb :=
  set_jobs (alter count_item id) (set_items (alter (settle_item st applied error) (id, q)) s).

Lemma settled_at_alter its id q st ap er id' q' :
  st <> Pending -> is_Some (its !! (id, q)) ->
  settled_at (alter (settle_item st ap er) (id, q) its) id' q'
    = if decide ((id', q') = (id, q)) then true else settled_at its id' q'.
Proof.
  intros Hst [i Hi]. unfold settled_at. destruct (decide ((id', q') = (id, q))) as [[= -> ->]|Hne].
  - rewrite lookup_alter_eq, Hi. cbn. by rewrite bool_decide_false.
  - by rewrite lookup_alter_ne by congruence.
Qed.

Lemma copy_ok_settle s id q i j st applied error :
  copy_ok s -> items s !! (id, q) = Some i -> i_state i = Pending -> jobs s !! id = Some j ->
  j_state j = Queued -> st <> Pending ->
  (st = Applied -> applied = Some (t_expected_revision (i_target i) + 1) /\
    exists c, changes (edits s) !! (t_key (i_target i), t_expected_revision (i_target i) + 1) = Some c /\
      c_kind c = "copy") ->
  (st <> Applied -> applied = None) ->
  copy_ok (settled_db id q st applied error s).
Proof.
  intros [H1 H2 H3] Hi Hp Hj Hq Hst Happ Hnot. split; [done| |]; cbn.
  - intros id' j' [(<- & j0 & Hj0 & ->)|[Hne Hj']]%lookup_alter_Some.
    + assert (j0 = j) as -> by congruence. destruct (H2 id j Hj) as [A1 A2 A3 A4 A5 A6 A7]. specialize (A5 Hq).
      assert (1 <= q <= j_total j) as Hrange by (apply A2; eauto).
      assert (settled (alter (settle_item st applied error) (id, q) (items s)) id (j_total j)
              = settled (items s) id (j_total j) + 1) as Hcount.
      { apply (settled_one _ _ _ _ q); [done|unfold settled_at; by rewrite Hi, bool_decide_true| |].
        - by rewrite settled_at_alter, decide_True by eauto.
        - intros q' Hq'. by rewrite settled_at_alter, decide_False by (eauto; congruence). }
      split; cbn; [done| |by rewrite Hcount, A3| | | |].
      * intros q'. rewrite <-A2. destruct (decide (q' = q)) as [->|].
        { rewrite lookup_alter_eq, Hi. cbn. split; eauto. }
        by rewrite lookup_alter_ne by congruence.
      * rewrite Hq. destruct (_ =? _); done.
      * rewrite Hq. destruct (Z.eqb_spec (j_completed j + 1) (j_total j)); [done|lia].
      * rewrite Hq. destruct (Z.eqb_spec (j_completed j + 1) (j_total j)); [done|done].
      * intros q1 q2 i1 i2 Hq1 Hq2. apply lookup_alter_Some in Hq1, Hq2.
        destruct Hq1 as [([= <-] & x1 & Hx1 & ->)|[_ Hx1]], Hq2 as [([= <-] & x2 & Hx2 & ->)|[_ Hx2]];
          cbn; eauto.
    + destruct (H2 id' j' Hj') as [A1 A2 A3 A4 A5 A6 A7].
      assert (forall q', items s !! (id', q') = alter (settle_item st applied error) (id, q) (items s) !! (id', q'))
        as Hsame by (intros q'; by rewrite lookup_alter_ne by congruence).
      split; cbn; [done| | | |done|done|].
      * intros q'. by rewrite <-Hsame.
      * rewrite A3. symmetry. apply settled_ext. intros q' _. unfold settled_at. by rewrite <-Hsame.
      * intros Hb q'. unfold settled_at. rewrite <-Hsame. by apply A4.
      * intros q1 q2 i1 i2. rewrite <-!Hsame. apply A7.
  - intros id' q' i' [([= <- <-] & i0 & Hi0 & ->)|[Hne Hi']]%lookup_alter_Some.
    + assert (i0 = i) as -> by congruence. split; cbn; [|exact Happ|exact Hnot].
      rewrite lookup_alter_eq, Hj. eauto.
    + destruct (H3 id' q' i' Hi') as [Ha Hb Hc]. split; cbn; [|done|done].
      destruct (decide (id' = id)) as [->|]; [rewrite lookup_alter_eq, Hj; eauto|by rewrite lookup_alter_ne by congruence].
Qed.

(** *** Appending a page of targets *)

Record appended (s0 s : CopyDb) (id : string) (n : Z) : Prop := {
  ap_edits : edits s = edits s0;
  ap_jobs : jobs s = jobs s0;
  ap_others : forall id' q, id' <> id -> items s !! (id', q) = items s0 !! (id', q);
  ap_items : forall q, is_Some (items s !! (id, q)) <-> 1 <= q <= n;
  ap_pending : forall q i, items s !! (id, q) = Some i -> i_state i = Pending /\ i_applied i = None;
  ap_distinct : forall q q' i i', items s !! (id, q) = Some i -> items s !! (id, q') = Some i' ->
    t_key (i_target i) = t_key (i_target i') -> q = q';
}.

Lemma insert_item_appended s0 s s' id n t :
  0 <= n -> appended s0 s id n -> insert_item id (n + 1) t s = (s', Ok tt) -> appended s0 s' id (n + 1).
Proof.
  intros Hn [A1 A2 A3 A4 A5 A6] H. unfold insert_item in H. take_apart H.
  apply bool_decide_eq_true in Hb. apply negb_true_iff in Hb0. injection H as <-.
  assert (forall q i, items s !! (id, q) = Some i -> t_key (i_target i) <> t_key t) as Hnew.
  { intros q i Hi Heq. apply (Bool.eq_true_false_abs _ (proj2 (existsb_exists _ _)
      (ex_intro _ ((id, q), i) (conj (proj1 (list_elem_of_In _ _) (proj2 (elem_of_map_to_list _ _ _) Hi))
        (bool_decide_eq_true_2 _ (conj eq_refl Heq))))) Hb0). }
  split; cbn; [done|done| | | |].
  - intros id' q Hne. rewrite lookup_insert_ne by congruence. by apply A3.
  - intros q. destruct (decide (q = n + 1)) as [->|Hne].
    + rewrite lookup_insert_eq. split; [lia|eauto].
    + rewrite lookup_insert_ne by congruence. rewrite A4. lia.
  - intros q i [[_ <-]|[_ Hi]]%lookup_insert_Some; [done|by eapply A5].
  - intros q q' i i' Hq Hq' Hk. apply lookup_insert_Some in Hq, Hq'.
    destruct Hq as [[[= <-] <-]|[_ Hq]], Hq' as [[[= <-] <-]|[_ Hq']]; cbn in *; [done| | |by eapply A6].
    + by destruct (Hnew _ _ Hq').
    + by destruct (Hnew _ _ Hq).
Qed.

Lemma insert_items_appended s0 id targets : forall n s s',
  0 <= n -> appended s0 s id n -> insert_items id (n + 1) targets s = (s', Ok tt) ->
  appended s0 s' id (n + Z.of_nat (length targets)).
Proof.
  induction targets as [|t rest IH]; intros n s s' Hn Ha H; cbn [insert_items length] in *.
  - injection H as <-. by rewrite Z.add_0_r.
  - apply bind_Ok_inv in H as (s1 & [] & H1 & H).
    apply (insert_item_appended s0) in H1; [|done|done]. apply IH in H; [|lia|done].
    by replace (n + Z.of_nat (S (length rest))) with (n + 1 + Z.of_nat (length rest)) by lia.
Qed.

Lemma copy_ok_appended s s' id j n :
  copy_ok s -> jobs s !! id = Some j -> j_state j = Building -> 0 <= n -> appended s s' id n ->
  copy_ok (set_jobs (alter (set_job_total n) id) s').
Proof.
  intros [H1 H2 H3] Hj Hb Hn [A1 A2 A3 A4 A5 A6].
  assert (forall q, settled_at (items s') id q = false) as Hnone.
  { intros q. unfold settled_at. destruct (items s' !! (id, q)) as [i|] eqn:Hi; [|done].
    destruct (A5 q i Hi) as [-> _]. by rewrite bool_decide_true. }
  split; cbn; [by rewrite A1| |].
  - rewrite A2. intros id' j' [(<- & j0 & Hj0 & ->)|[Hne Hj']]%lookup_alter_Some.
    + assert (j0 = j) as -> by congruence. destruct (H2 id j Hj) as [B1 B2 B3 B4 B5 B6 B7].
      split; cbn; [done|done| |done|congruence|congruence|done].
      rewrite B3. rewrite !settled_none; auto.
    + destruct (H2 id' j' Hj') as [B1 B2 B3 B4 B5 B6 B7]. split; cbn; [done| | | |done|done|].
      * intros q. by rewrite A3.
      * rewrite B3. symmetry. apply settled_ext. intros q _. unfold settled_at. by rewrite A3.
      * intros Hbd q. unfold settled_at. rewrite A3 by done. by apply B4.
      * intros q q' i i'. rewrite !A3 by done. apply B7.
  - intros id' q i Hi. destruct (decide (id' = id)) as [->|Hne].
    + destruct (A5 q i Hi) as [Hp Ha]. split; cbn; [|congruence|done].
      rewrite A2, lookup_alter_eq, Hj. eauto.
    + rewrite A3 in Hi by done. destruct (H3 id' q i Hi) as [B1 B2 B3].
      split; cbn; [|by rewrite A1|done]. by rewrite A2, lookup_alter_ne by congruence.
Qed.

Lemma append_ok grant id n ts s s' c :
  copy_ok s -> append_edit_copy grant id n ts s = (s', Ok c) -> copy_ok s'.
Proof.
  intros Hs H. unfold append_edit_copy, enter_copy in H. take_apart H. rewrite copy_transaction_Ok in H.
  apply bind_Ok_inv in H as (? & cur & (-> & j & Hj & ->)%job_inv & H). cbn [state total] in H. take_apart H.
  apply andb_true_iff in Hb0 as [Hst%bool_decide_eq_true _]. unfold i64_checked_add in Ho.
  destruct (_ && _) in Ho; [|done]. injection Ho as <-.
  destruct (cp_jobs _ Hs id j Hj) as [B1 B2 B3 B4 B5 B6 B7].
  apply bind_Ok_inv in H as (s1 & [] & Hins & H). take_apart H. apply job_inv in H as [-> _].
  eapply (copy_ok_appended s); [done|exact Hj|done|lia|].
  apply (insert_items_appended s) in Hins; [done|lia|]. split; try done.
  intros q i Hi. specialize (B4 Hst q). unfold settled_at in B4. rewrite Hi in B4.
  apply negb_false_iff, bool_decide_eq_true in B4. split; [done|].
  apply (io_refused _ _ _ (cp_items _ Hs _ _ _ Hi)). by rewrite B4.
Qed.

Lemma begin_ok grant uuid k e gs s s' c :
  copy_ok s -> begin_edit_copy grant uuid k e gs s = (s', Ok c) -> copy_ok s'.
Proof.
  intros Hs H. unfold begin_edit_copy, enter_copy in H. take_apart H.
  apply bind_Ok_inv in H as (? & v & Hv & H).
  apply (on_edits_reads _ _ _ _ (edit_variant_reads k)) in Hv as [_ ->]. take_apart H.
  rewrite copy_transaction_Ok in H. apply bind_Ok_inv in H as (? & w & Hw & H).
  apply (on_edits_reads _ _ _ _ (view_reads k)) in Hw as [_ ->]. take_apart H.
  apply bool_decide_eq_true in Hb2. apply job_inv in H as [-> _].
  destruct Hs as [H1 H2 H3].
  assert (forall q, items s !! (uuid, q) = None) as Hnone.
  { intros q. destruct (items s !! (uuid, q)) as [i|] eqn:Hi; [|done].
    destruct (io_job _ _ _ (H3 _ _ _ Hi)). congruence. }
  assert (forall q, settled_at (items s) uuid q = false) as Hset
    by (intros q; unfold settled_at; by rewrite Hnone).
  split; cbn; [done| |].
  - intros id' j' [[<- <-]|[Hne Hj']]%lookup_insert_Some.
    + split; cbn; [done| | |done|done|done|].
      * intros q. rewrite Hnone. split; [by intros []|lia].
      * by rewrite settled_none.
      * intros q q' i i' Hi. by rewrite Hnone in Hi.
    + by destruct (H2 id' j' Hj').
  - intros id' q i Hi. destruct (H3 id' q i Hi) as [B1 B2 B3]. split; cbn; [|done|done].
    rewrite lookup_insert_ne; [done|]. intros ->. by rewrite Hnone in Hi.
Qed.

Lemma alter_none_job (f : JobRow -> JobRow) id s : jobs s !! id = None -> set_jobs (alter f id) s = s.
Proof. intros H. destruct s. unfold set_jobs. cbn in *. by rewrite alter_id by (intros; congruence). Qed.

Lemma seal_ok grant id n s s' c : copy_ok s -> seal_edit_copy grant id n s = (s', Ok c) -> copy_ok s'.
Proof.
  intros Hs H. unfold seal_edit_copy, enter_copy in H. take_apart H. rewrite copy_transaction_Ok in H.
  apply bind_Ok_inv in H as (? & cur & (-> & j & Hj & ->)%job_inv & H). cbn [state total] in H. take_apart H.
  apply andb_true_iff in Hb as [Hst%bool_decide_eq_true _]. apply job_inv in H as [-> _].
  destruct (cp_jobs _ Hs id j Hj) as [B1 B2 B3 B4 B5 B6 B7].
  specialize (B4 Hst). rewrite settled_none in B3 by done.
  apply (copy_ok_job s id _ j); [done|done|done|done| | |]; cbn; destruct (Z.eqb_spec (j_total j) 0); try done; lia.
Qed.

Lemma cancel_ok grant id s s' c : copy_ok s -> cancel_edit_copy grant id s = (s', Ok c) -> copy_ok s'.
Proof.
  intros Hs H. unfold cancel_edit_copy, enter_copy in H. take_apart H. rewrite copy_transaction_Ok in H.
  take_apart H. apply job_inv in H as [-> (j' & Hj' & _)].
  destruct (jobs s !! id) as [j|] eqn:Hj; [|by rewrite alter_none_job].
  destruct (cp_jobs _ Hs id j Hj) as [B1 B2 B3 B4 B5 B6 B7].
  apply (copy_ok_job s id _ j); [done|done| | | | |]; destruct (j_state j) eqn:Hst; cbn; try done; auto; congruence.
Qed.

(** ** One target *)

(** What the frozen adjustments make of a target in the database [d]. *)
Inductive decides (d : Db) (target : EditTarget) (recipe : Recipe) (groups : list AdjustmentGroup)
    : Refusal + ValidatedRecipe -> Prop :=
| target_missing :
    target_exists (t_key target) d = false ->
    decides d target recipe groups (inl (mkRefusal Incompatible "asset or variant unavailable"))
| target_moved w :
    view (t_key target) d = (d, Ok w) -> revision w <> t_expected_revision target ->
    decides d target recipe groups (inl (mkRefusal Conflict "edit revision changed"))
| target_unmergeable w e :
    view (t_key target) d = (d, Ok w) -> revision w = t_expected_revision target ->
    copy_groups_from (view_recipe w) recipe groups = Err e ->
    decides d target recipe groups (inl (mkRefusal Incompatible (show_error e)))
| target_misfit w merged size e :
    view (t_key target) d = (d, Ok w) -> revision w = t_expected_revision target ->
    copy_groups_from (view_recipe w) recipe groups = Ok merged ->
    known_dimensions (asset_id (t_key target)) d = (d, Ok (Some size)) ->
    validate_dimensions merged size.1 size.2 = Some (Err e) ->
    decides d target recipe groups (inl (mkRefusal Incompatible (show_error e)))
| target_fits w merged :
    view (t_key target) d = (d, Ok w) -> revision w = t_expected_revision target ->
    copy_groups_from (view_recipe w) recipe groups = Ok merged ->
    (forall size, known_dimensions (asset_id (t_key target)) d = (d, Ok (Some size)) ->
      exists extent, validate_dimensions merged size.1 size.2 = Some (Ok extent)) ->
    decides d target recipe groups (inr merged).

Definition document (v : ValidatedRecipe) : bytes * string := (canonical_bytes v, digest v).

Lemma prepare_inv target recipe groups s s' p :
  prepare_target target recipe groups s = (s', Ok p) ->
  s' = s /\ exists d, decides (edits s) target recipe groups d /\
    p = match d with inl r => inl r | inr v => inr (document v) end.
Proof.
  unfold prepare_target. rewrite bind_get. intros H.
  destruct (target_exists (t_key target) (edits s)) eqn:Hex; cbn [negb] in H;
    [|injection H as <- <-; split; [done|]; eexists; split; [by apply target_missing|done]].
  apply bind_Ok_inv in H as (? & w & Hw & H). apply (on_edits_reads _ _ _ _ (view_reads _)) in Hw as [Hw ->].
  destruct (Z.eqb_spec (revision w) (t_expected_revision target)) as [Hr|Hr]; cbn [negb] in H;
    [|injection H as <- <-; split; [done|]; eexists; split; [by eapply target_moved|done]].
  destruct (copy_groups_from (view_recipe w) recipe groups) as [merged|e] eqn:Hm;
    [|injection H as <- <-; split; [done|]; eexists; split; [by eapply target_unmergeable|done]].
  apply bind_Ok_inv in H as (? & dims & Hd & H).
  apply (on_edits_reads _ _ _ _ (known_dimensions_reads _)) in Hd as [Hd ->].
  destruct dims as [[wd ht]|].
  - destruct (validate_dimensions merged wd ht) as [[ext|e]|] eqn:Hv; [| |done]; injection H as <- <-; (split; [done|]).
    + eexists. split; [eapply (target_fits _ _ _ _ w); [done..|]|done].
      intros size Hsz. rewrite Hd in Hsz. injection Hsz as <-. eauto.
    + eexists. split; [by eapply (target_misfit _ _ _ _ w merged (wd, ht))|done].
  - injection H as <- <-. split; [done|]. eexists. split; [eapply (target_fits _ _ _ _ w); [done..|]|done].
    intros size Hsz. rewrite Hd in Hsz. done.
Qed.

(** What one target's transaction did. *)
Inductive target_result (id : string) (frozen : CopyDescription) (q : Z) (i : ItemRow) (s s' : CopyDb)
    : bool -> Prop :=
| result_stopped j :
    jobs s !! id = Some j -> j_state j <> Queued -> s' = s -> target_result id frozen q i s s' false
| result_done j :
    jobs s !! id = Some j -> j_state j = Queued -> i_state i <> Pending -> s' = s ->
    target_result id frozen q i s s' true
| result_refused j st e :
    jobs s !! id = Some j -> j_state j = Queued -> i_state i = Pending -> st <> Applied -> st <> Pending ->
    decides (edits s) (i_target i) (d_recipe frozen) (d_groups frozen) (inl (mkRefusal st e)) ->
    s' = settled_db id q st None (Some (String.substring 0 2048 e)) s ->
    target_result id frozen q i s s' true
| result_applied j merged d w kind :
    jobs s !! id = Some j -> j_state j = Queued -> i_state i = Pending ->
    decides (edits s) (i_target i) (d_recipe frozen) (d_groups frozen) (inr merged) ->
    succeeds (t_key (i_target i)) (t_expected_revision (i_target i)) (edits s) d w ->
    recipe_digest w = digest merged ->
    (exists c, changes d !! (t_key (i_target i), t_expected_revision (i_target i) + 1) = Some c /\ c_kind c = kind) ->
    kind = "copy"%string -> changes (edits s) ⊆ changes d ->
    s' = settled_db id q Applied (Some (t_expected_revision (i_target i) + 1)) None (set_edits d s) ->
    target_result id frozen q i s s' true.

Lemma settle_run id q o s :
  settle id q o s =
    (match o with
     | inr rev => settled_db id q Applied (Some rev) None s
     | inl (mkRefusal st e) => settled_db id q st None (Some (String.substring 0 2048 e)) s
     end, Ok tt).
Proof. by destruct o as [[st e]|rev]. Qed.

Lemma saved_digest k e b dg kind s s' cur s0 text w :
  saved k e b dg kind s s' cur s0 text w -> recipe_digest w = dg.
Proof.
  intros [Hm _ -> _ Hview]. destruct (mt_row _ _ _ _ Hm) as (v & Hv & _).
  apply view_inv in Hview as [_ H]. cbn in H. rewrite lookup_alter_eq, Hv in H.
  destruct H as (c & n & [= <-] & Hn & _ & _ & _ & _ & _ & _ & -> & _). cbn in Hn.
  rewrite lookup_insert_eq in Hn. by injection Hn as <-.
Qed.

Lemma apply_target_run (Hdef : default_readable) grant id frozen sj q i s s' b :
  copy_ok s -> items s !! (id, q) = Some i ->
  apply_target grant id frozen sj q s = (s', Ok b) -> target_result id frozen q i s s' b.
Proof.
  intros Hs Hi H. unfold apply_target, enter_copy, edit_copy_items in H. take_apart H.
  match type of Ho with _ = Some ?x => assert (x = mkCopyItem q i) as -> end.
  { pose proof (job_items_head id s q i Hi) as Hhead.
    destruct (job_items id _ s) as [|p l]; [done|]. injection Hhead as ->. cbn in Ho. by injection Ho as <-. }
  cbn [item] in H. rewrite copy_transaction_Ok in H.
  apply bind_Ok_inv in H as (? & cur & (-> & j & Hj & ->)%job_inv & H). cbn [state] in H.
  destruct (bool_decide_reflect (j_state j = Queued)) as [Hq|Hq]; cbn [negb] in H;
    [|injection H as <- <-; by eapply result_stopped].
  rewrite bind_get, Hi in H.
  destruct (bool_decide_reflect (i_state i = Pending)) as [Hp|Hp]; cbn [negb] in H;
    [|injection H as <- <-; by eapply result_done].
  apply bind_Ok_inv in H as (? & p & Hprep & H). apply prepare_inv in Hprep as (-> & d & Hd & ->).
  apply bind_Ok_inv in H as (s1 & o & Hsave & H).
  apply bind_Ok_inv in H as (s2 & [] & Hset & H). rewrite settle_run in Hset. injection Hset as <-.
  injection H as <- <-. destruct d as [[st e]|merged]; cbn [save_target] in Hsave.
  - injection Hsave as <- <-. eapply result_refused; [done..| | |exact Hd|done]; inversion Hd; done.
  - unfold save_target, document in Hsave. apply bind_Ok_inv in Hsave as (? & w0 & Hw0 & Hsave).
    apply (on_edits_reads _ _ _ _ (view_reads _)) in Hw0 as [Hw0 ->].
    destruct (Z.eqb_spec (revision w0) (t_expected_revision (i_target i))) as [Hr|Hr]; cbn [negb] in Hsave.
    + apply bind_Ok_inv in Hsave as (? & w & (d & Hsv & ->)%on_edits_inv & Hret). injection Hret as <- <-.
      apply (save_inv Hdef) in Hsv as (cur & s0 & text & Hsv); [|apply Hs].
      pose proof (saved_succeeds _ _ _ _ _ _ _ _ _ _ _ Hsv) as Hsu.
      destruct (saved_changes _ _ _ _ _ _ _ _ _ _ _ Hsv) as (_ & c & Hc & Hk & Hgrow).
      rewrite (su_revision _ _ _ _ _ Hsu).
      eapply result_applied; [done..|exact Hd|exact Hsu|by eapply saved_digest|eauto|done|done|done].
    + inversion Hd as [| | | |w1 ? Hw1 Hr1]; subst. congruence.
Qed.

Lemma target_result_ok id frozen q i s s' b :
  copy_ok s -> items s !! (id, q) = Some i -> target_result id frozen q i s s' b -> copy_ok s'.
Proof.
  intros Hs Hi [j Hj Hst ->|j Hj Hst Hp ->|j st e Hj Hst Hp Hna Hnp _ ->
    |j merged d w kind Hj Hst Hp _ Hsu _ (c & Hc & Hk) -> Hgrow ->]; [done|done| |].
  - eapply copy_ok_settle; eauto; done.
  - eapply (copy_ok_settle _ _ _ i); [|done|done|done|done|done| |done].
    + apply copy_ok_edits; [done|apply Hsu|done].
    + intros _. split; [done|]. eauto.
Qed.

Lemma apply_target_atomic grant id frozen sj q s s' e :
  apply_target grant id frozen sj q s = (s', Err e) -> s' = s.
Proof.
  unfold apply_target, enter_copy, edit_copy_items. rewrite bind_bind, bind_ensure.
  destruct (_ && _); [|by intros [= <- _]]. rewrite bind_bind, bind_get, bind_ret.
  rewrite bind_of_option. destruct (head _); [|by intros [= <- _]]. rewrite bind_lift.
  destruct (message grant); [|by intros [= <- _]]. apply copy_transaction_Err.
Qed.

(** ** Reachable databases *)

Inductive copy_step (s s' : CopyDb) : Prop :=
| step_begin grant uuid k e gs res : begin_edit_copy grant uuid k e gs s = (s', res) -> copy_step s s'
| step_append grant id n ts res : append_edit_copy grant id n ts s = (s', res) -> copy_step s s'
| step_seal grant id n res : seal_edit_copy grant id n s = (s', res) -> copy_step s s'
| step_cancel grant id res : cancel_edit_copy grant id s = (s', res) -> copy_step s s'
| step_target grant id frozen sj q res : apply_target grant id frozen sj q s = (s', res) -> copy_step s s'
| step_edit d : edit_step (edits s) d -> s' = set_edits d s -> copy_step s s'.

Inductive copy_reachable : CopyDb -> Prop :=
| copy_new s : reachable (edits s) -> jobs s = ∅ -> items s = ∅ -> copy_reachable s
| copy_next s s' : copy_reachable s -> copy_step s s' -> copy_reachable s'.

(** A call that fails changed nothing. *)
Definition undone {A} (m : proc EditError CopyDb A) : Prop := forall s s' e, m s = (s', Err e) -> s' = s.
Definition quiet {A} (m : proc EditError CopyDb A) : Prop := forall s, (m s).1 = s.

Lemma undone_transaction {A} (m : proc EditError CopyDb A) : undone (copy_transaction m).
Proof. intros s s' e. apply copy_transaction_Err. Qed.
Lemma undone_bind {A B} (m : proc EditError CopyDb A) (k : A -> proc EditError CopyDb B) :
  quiet m -> (forall a, undone (k a)) -> undone (bind m k).
Proof.
  intros Hm Hk s s' e. specialize (Hm s). unfold bind. destruct (m s) as [t [a|e']]; cbn in Hm; subst t.
  - apply Hk.
  - by intros [= <- _].
Qed.
Lemma quiet_lift {A} (r : result EditError A) : quiet (lift r).
Proof. done. Qed.
Lemma quiet_ensure b e : quiet (ensure b e).
Proof. by destruct b. Qed.
Lemma quiet_enter g : quiet (enter_copy g).
Proof. done. Qed.
Lemma quiet_edits {A} (m : proc EditError Db A) : reads m -> quiet (on_edits m).
Proof.
  intros Hm s. unfold on_edits. destruct (m (edits s)) as [d r] eqn:H.
  pose proof (reads_run _ _ _ _ Hm H) as ->. by destruct s.
Qed.
Create HintDb quiet.
Hint Resolve quiet_lift quiet_ensure quiet_enter quiet_edits edit_variant_reads : quiet.
Ltac undone := repeat (first [apply undone_transaction | apply undone_bind; [by auto with quiet|intros ?]]).

Lemma begin_undone grant uuid k e gs : undone (begin_edit_copy grant uuid k e gs).
Proof. unfold begin_edit_copy. undone. Qed.
Lemma append_undone grant id n ts : undone (append_edit_copy grant id n ts).
Proof. unfold append_edit_copy. undone. Qed.
Lemma seal_undone grant id n : undone (seal_edit_copy grant id n).
Proof. unfold seal_edit_copy. undone. Qed.
Lemma cancel_undone grant id : undone (cancel_edit_copy grant id).
Proof. unfold cancel_edit_copy. undone. Qed.

(** A step that finds no item with the sequence fails. *)
Lemma apply_target_item grant id frozen sj q s s' b :
  apply_target grant id frozen sj q s = (s', Ok b) -> s' = s \/ exists i, items s !! (id, q) = Some i.
Proof.
  intros H. unfold apply_target, enter_copy, edit_copy_items in H. take_apart H.
  rewrite copy_transaction_Ok in H.
  apply bind_Ok_inv in H as (? & cur & (-> & j & Hj & ->)%job_inv & H). cbn [state] in H.
  destruct (negb _) in H; [left; by injection H as <- _|]. rewrite bind_get in H.
  destruct (items s !! (id, q)) as [i|]; [eauto|done].
Qed.

Lemma copy_step_ok (Hdef : default_readable) s s' : copy_ok s -> copy_step s s' -> copy_ok s'.
Proof.
  intros Hs [grant uuid k e gs res H|grant id n ts res H|grant id n res H|grant id res H
    |grant id frozen sj q res H|d H ->].
  - destruct res; [by eapply begin_ok|by apply begin_undone in H as ->].
  - destruct res; [by eapply append_ok|by apply append_undone in H as ->].
  - destruct res; [by eapply seal_ok|by apply seal_undone in H as ->].
  - destruct res; [by eapply cancel_ok|by apply cancel_undone in H as ->].
  - destruct res; [|by apply apply_target_atomic in H as ->].
    destruct (apply_target_item _ _ _ _ _ _ _ _ H) as [->|[i Hi]]; [done|].
    by eapply target_result_ok, (apply_target_run Hdef).
  - apply copy_ok_edits; [done|by eapply (edit_step_ok Hdef); [apply Hs|]|].
    by eapply (edit_step_changes Hdef); [apply Hs|].
Qed.

Lemma copy_reachable_ok (Hdef : default_readable) s : copy_reachable s -> copy_ok s.
Proof.
  induction 1 as [s He Hj Hi|s s' _ IH Hstep]; [|by eapply copy_step_ok].
  split; [by apply (reachable_ok Hdef)|rewrite Hj; apply map_Forall_empty|]. intros id q i. by rewrite Hi.
Qed.

(** The loop is a sequence of target steps, whatever runs in between. *)
Lemma apply_targets_reachable others grants id frozen sj qs :
  (forall q t, copy_reachable t -> copy_reachable (others q t)) ->
  forall s s' r, copy_reachable s -> apply_targets others grants id frozen sj qs s = (s', r) -> copy_reachable s'.
Proof.
  intros Ho. induction qs as [|q qs IH]; intros s s' r Hs H; cbn [apply_targets] in H.
  - by injection H as <- _.
  - rewrite bind_modify in H. apply (Ho q) in Hs. unfold bind in H.
    destruct (apply_target (grants q) id frozen sj q (others q s)) as [t [b|e]] eqn:Ht.
    + assert (copy_reachable t) by (eapply copy_next; [exact Hs|by eapply step_target]).
      destruct b; [by eapply IH|by injection H as <- _].
    + injection H as <- _. eapply copy_next; [exact Hs|by eapply step_target].
Qed.

Lemma description_quiet id : quiet (description id).
Proof.
  assert (forall s, preserves (eq s) (description id)) as H by (intros s; unfold description; preserve).
  intros s. specialize (H s s eq_refl). destruct (description id s) as [t [a|e]]; cbn; congruence.
Qed.
Lemma job_quiet id : quiet (job id).
Proof. intros s. unfold job. rewrite bind_get. by destruct (jobs s !! id). Qed.

Lemma apply_step_reachable others grants id limit s s' r :
  (forall q t, copy_reachable t -> copy_reachable (others q t)) -> copy_reachable s ->
  apply_edit_copy_step others grants id limit s = (s', r) -> copy_reachable s'.
Proof.
  intros Ho Hs H. unfold apply_edit_copy_step in H. rewrite bind_ensure in H.
  destruct (_ && _) in H; [|by injection H as <- _]. unfold bind at 1 in H.
  pose proof (job_quiet id s) as Hjq. destruct (job id s) as [t [cur|e]]; cbn in Hjq; subst t; [|by injection H as <- _].
  destruct (_ || _) in H; [by injection H as <- _|]. rewrite bind_ensure in H.
  destruct (bool_decide _) in H; [|by injection H as <- _]. unfold bind at 1 in H.
  pose proof (description_quiet id s) as Hdq.
  destruct (description id s) as [t [frozen|e]]; cbn in Hdq; subst t; [|by injection H as <- _].
  rewrite bind_get in H. unfold bind at 1 in H.
  match type of H with match ?m with _ => _ end = _ => destruct m as [t [u|e]] eqn:Ht end.
  - apply (apply_targets_reachable others) in Ht; [|done|done].
    pose proof (job_quiet id t) as Hjq. rewrite H in Hjq. cbn in Hjq. by subst.
  - injection H as <- _. by apply (apply_targets_reachable others) in Ht.
Qed.

(** ** Progress of one step *)

Definition pending_at (s : CopyDb) (id : string) (q : Z) : Prop :=
  exists i, items s !! (id, q) = Some i /\ i_state i = Pending.

(** A pending item of a queued job is settled and counted, and nothing else in
    the job tables moves. *)
Lemma settles_pending id frozen q i s s' b j :
  target_result id frozen q i s s' b -> jobs s !! id = Some j -> j_state j = Queued -> i_state i = Pending ->
  b = true /\ jobs s' !! id = Some (count_item j) /\
  forall q', q' <> q -> items s' !! (id, q') = items s !! (id, q').
Proof.
  intros [j0 Hj0 Hst ->|j0 Hj0 Hst Hp ->|j0 st e Hj0 Hst Hp Hna Hnp _ ->
    |j0 merged d w kind Hj0 Hst Hp _ Hsu _ _ _ _ ->] Hj Hq Hpend; try congruence;
    (split_and!; [done|cbn; by rewrite lookup_alter_eq, Hj|
      intros q' Hne; cbn; by rewrite lookup_alter_ne by congruence]).
Qed.

Lemma apply_targets_progress (Hdef : default_readable) grants id frozen sj qs : forall s s' j,
  copy_ok s -> jobs s !! id = Some j -> (qs <> [] -> j_state j = Queued) -> NoDup qs ->
  (forall q, q ∈ qs -> pending_at s id q) ->
  apply_targets (fun _ t => t) grants id frozen sj qs s = (s', Ok tt) ->
  copy_ok s' /\ exists j', jobs s' !! id = Some j' /\ j_total j' = j_total j /\
    j_completed j' = j_completed j + Z.of_nat (length qs) /\
    (j_state j' = j_state j \/ j_state j' = Complete).
Proof.
  induction qs as [|q qs IH]; intros s s' j Hs Hj Hq Hnd Hp H; cbn [apply_targets] in H.
  - injection H as <-. split; [done|]. exists j. cbn. split_and!; [done|done|lia|by left].
  - rewrite bind_modify in H. apply bind_Ok_inv in H as (t & b & Ht & H).
    destruct (Hp q ltac:(left)) as (i & Hi & Hpend). specialize (Hq ltac:(done)).
    apply (apply_target_run Hdef _ _ _ _ _ i) in Ht; [|done|done].
    pose proof (target_result_ok _ _ _ _ _ _ _ Hs Hi Ht) as Hok.
    destruct (settles_pending _ _ _ _ _ _ _ j Ht Hj Hq Hpend) as (-> & Hjt & Hrest).
    apply NoDup_cons in Hnd as [Hnotin Hnd].
    assert (forall q', q' ∈ qs -> pending_at t id q') as Hpt.
    { intros q' Hq'. destruct (Hp q' ltac:(by right)) as (i' & Hi' & ?). exists i'.
      rewrite Hrest; [done|]. by intros ->. }
    apply (IH t s' (count_item j)) in H as (Hok' & j' & Hj' & Htot & Hcomp & Hst); [|done|done| |done|done].
    + split; [done|]. exists j'. cbn [length]. rewrite Hcomp, Htot. cbn [count_item j_completed j_total].
      split_and!; [done|done|lia|]. destruct Hst as [->|]; [|by right]. cbn. destruct (_ =? _); auto.
    + intros Hne. destruct qs as [|q2 qs]; [done|]. destruct (Hpt q2 ltac:(left)) as (i2 & Hi2 & Hp2).
      destruct (cp_jobs _ Hok id _ Hjt) as [_ B2 B3 _ _ _ _].
      pose proof (settled_pending (items t) id (j_total j) q2 (proj1 (B2 q2) (ex_intro _ _ Hi2))) as Hlt.
      unfold settled_at in Hlt. rewrite Hi2, Hp2 in Hlt. specialize (Hlt eq_refl). cbn in *.
      destruct (Z.eqb_spec (j_completed j + 1) (j_total j)); [lia|done].
Qed.

Definition pending_of (id : string) (s : CopyDb) : list Z :=
  map fst (job_items id (fun _ i => bool_decide (i_state i = Pending)) s).

Lemma elem_of_pending_of id s q : q ∈ pending_of id s <-> pending_at s id q.
Proof.
  unfold pending_of, pending_at. rewrite list_elem_of_fmap. split.
  - intros ([q' i] & -> & [Hi Hp%bool_decide_eq_true]%elem_of_job_items). eauto.
  - intros (i & Hi & Hp). exists (q, i). split; [done|]. apply elem_of_job_items. by rewrite bool_decide_true.
Qed.
Lemma pending_of_NoDup id s : NoDup (pending_of id s).
Proof.
  unfold pending_of, job_items, order_by. rewrite merge_sort_Permutation. apply NoDup_fmap_fst.
  - intros q i i' (x & Hx & Hfx)%list_elem_of_omap (y & Hy & Hfy)%list_elem_of_omap.
    destruct x as [[id1 q1] i1], y as [[id2 q2] i2]. cbn in *.
    destruct (bool_decide_reflect (id1 = id)) as [->|]; [|done]. destruct (bool_decide_reflect (id2 = id)) as [->|]; [|done].
    cbn in *. destruct (bool_decide (i_state i1 = _)); [|done]. destruct (bool_decide (i_state i2 = _)); [|done].
    injection Hfx as <- <-. injection Hfy as <- <-. apply elem_of_map_to_list in Hx, Hy. congruence.
  - apply NoDup_omap; [|apply NoDup_map_to_list].
    intros x y z _ _ Hfx Hfy. destruct x as [[id1 q1] i1], y as [[id2 q2] i2]. cbn in *.
    destruct (bool_decide_reflect (id1 = id)) as [->|]; [|done]. destruct (bool_decide_reflect (id2 = id)) as [->|]; [|done].
    cbn in *. destruct (bool_decide (i_state i1 = _)); [|done]. destruct (bool_decide (i_state i2 = _)); [|done]. congruence.
Qed.

(** The pending items and the completed count make up the total. *)
Lemma pending_count id s j :
  copy_ok s -> jobs s !! id = Some j ->
  Z.of_nat (length (pending_of id s)) + j_completed j = j_total j.
Proof.
  intros Hs Hj. destruct (cp_jobs _ Hs id j Hj) as [B1 B2 B3 _ _ _ _]. rewrite B3.
  assert (pending_of id s ≡ₚ filter (fun q => settled_at (items s) id q = false) (seqZ 1 (j_total j))) as ->.
  { apply NoDup_Permutation; [apply pending_of_NoDup|apply NoDup_filter, NoDup_seqZ|]. intros q.
    rewrite elem_of_pending_of, list_elem_of_filter, elem_of_seqZ. unfold pending_at, settled_at. split.
    - intros (i & Hi & Hp). rewrite Hi, bool_decide_true by done. split; [done|].
      pose proof (proj1 (B2 q) (ex_intro _ _ Hi)). lia.
    - intros [Hset Hr]. destruct (proj2 (B2 q) ltac:(lia)) as [i Hi]. rewrite Hi in Hset.
      apply negb_false_iff, bool_decide_eq_true in Hset. eauto. }
  unfold settled. rewrite <-(Z2Nat.id (j_total j)) at 3 by done. rewrite <-(length_seqZ 1 (j_total j)).
  induction (seqZ 1 (j_total j)) as [|q l IH]; [done|]. rewrite !filter_cons. cbn [length].
  destruct (settled_at (items s) id q); [rewrite decide_False, decide_True by done|rewrite decide_True, decide_False by done];
    cbn [length]; lia.
Qed.

Lemma apply_step_progress (Hdef : default_readable) grants id limit s s' c j :
  copy_ok s -> jobs s !! id = Some j -> j_state j = Queued ->
  apply_edit_copy_step (fun _ t => t) grants id limit s = (s', Ok c) ->
  total c = j_total j /\ completed c = Z.min (j_total j) (j_completed j + limit) /\
  (state c = Complete <-> completed c = total c).
Proof.
  intros Hs Hj Hq H. unfold apply_edit_copy_step in H. take_apart H.
  apply bind_Ok_inv in H as (? & cur & (-> & j0 & Hj0 & ->)%job_inv & H). cbn [state] in H.
  assert (j0 = j) as -> by congruence. rewrite Hq in H.
  change (bool_decide (Queued = Complete) || bool_decide (Queued = Canceled)) with false in H.
  change (bool_decide (Queued = Queued)) with true in H. cbv iota in H. rewrite bind_ensure in H.
  apply bind_Ok_inv in H as (t & frozen & Hd & H). pose proof (description_quiet id s) as Hdq.
  rewrite Hd in Hdq. cbn in Hdq. subst t. rewrite bind_get in H.
  apply bind_Ok_inv in H as (t & [] & Ht & H). apply job_inv in H as (-> & j' & Hj' & ->). cbn [total completed state].
  fold (pending_of id s) in Ht. apply andb_true_iff in Hb as [Hl1%Z.leb_le Hl2%Z.leb_le].
  apply (apply_targets_progress Hdef _ _ _ _ _ s t j) in Ht as (Hok & j2 & Hj2 & Htot & Hcomp & Hst);
    [|done|done|done|eapply sublist_NoDup; [apply pending_of_NoDup|apply sublist_take]|].
  - assert (j2 = j') as -> by congruence. pose proof (pending_count id s j Hs Hj) as Hpc.
    rewrite length_take in Hcomp. split_and!; [done|lia|].
    destruct (cp_jobs _ Hok id _ Hj') as [_ _ _ _ B5 B6 _]. split; [by intros ->%B6|]. intros Heq.
    destruct Hst as [Hst|Hst]; [|done]. rewrite Hq in Hst. apply B5 in Hst. lia.
  - intros q Hin%elem_of_take. destruct Hin as (n & Hin%list_elem_of_lookup_2 & _). by apply elem_of_pending_of.
Qed.
End Jobs.

(** ** A concrete job, for the witnesses *)

Definition demo_copy_codec : CopyCodec := {|
  copy_edits := demo_edit_codec;
  parse_source _ := Ok (mkFrozen demo_key 1 (digest demo_validated));
  groups_to_string gs := Ok (if bool_decide (gs = [Tone]) then "tone" else "other")%string;
  groups_from_str s := if bool_decide (s = "tone"%string) then Ok [Tone] else Err "expected groups"%string;
|}.
#[local] Existing Instance demo_copy_codec.
#[local] Existing Instance demo_rowids.

Definition demo_begun : CopyDb :=
  (begin_edit_copy (Ok tt) "job" demo_key 1 [Tone] (mkCopyDb demo_saved ∅ 0 ∅)).1.
Definition demo_appended : CopyDb :=
  (append_edit_copy (Ok tt) "job" 0 [mkTarget demo_other 0; mkTarget demo_key 0] demo_begun).1.
Definition demo_sealed : CopyDb := (seal_edit_copy (Ok tt) "job" 2 demo_appended).1.
Definition demo_frozen : CopyDescription :=
  mkDescription (mkTarget demo_key 1) (digest demo_validated) (V1 (normalize demo_settings)) [Tone].
Definition demo_half : CopyDb := (apply_target (Ok tt) "job" demo_frozen VNull 1 demo_sealed).1.

Lemma demo_sealed_reachable : copy_reachable demo_sealed.
Proof.
  eapply copy_next; [|eapply step_seal, surjective_pairing].
  eapply copy_next; [|eapply step_append, surjective_pairing].
  eapply copy_next; [|eapply step_begin, surjective_pairing].
  apply copy_new; [exact demo_saved_reachable|reflexivity|reflexivity].
Qed.
Lemma demo_sealed_ok : copy_ok demo_sealed.
Proof. apply (copy_reachable_ok (CODEC := demo_copy_codec) demo_default_readable), demo_sealed_reachable. Qed.

Example demo_copy_outcome :
  match apply_edit_copy_step (fun _ s => s) (fun _ => Ok tt) "job" 5 demo_sealed with
  | (s, Ok c) => (state c, completed c, i_state <$> items s !! ("job"%string, 1), i_state <$> items s !! ("job"%string, 2))
                 = (Complete, 2, Some Applied, Some Conflict)
  | _ => False
  end.
Proof. vm_compute. reflexivity. Qed.

(** ** Theorems *)

Section Theorems.
Context {CODEC : CopyCodec} {IDS : RowIds}.

(** C20. However copy jobs are begun, filled, sealed, canceled and applied, and
    whatever edits other writers commit between two targets of a step: every
    job's items are numbered from 1 to its total, one per variant; its completed
    count is the number of its settled items; a complete job has none pending
    and a queued one has some; and every applied item names the revision its
    target reached, which the target's history records as a copy. *)
Theorem copy_invariant (Hdef : default_readable) others grants id limit s s' r :
  (forall q t, copy_reachable t -> copy_reachable (others q t)) -> copy_reachable s ->
  apply_edit_copy_step others grants id limit s = (s', r) ->
  copy_ok s /\ copy_reachable s' /\ copy_ok s'.
Proof.
  intros Ho Hs H. pose proof (apply_step_reachable _ _ _ _ _ _ _ Ho Hs H) as Hs'.
  split_and!; [by apply copy_reachable_ok|done|by apply copy_reachable_ok].
Qed.

(** C21. One target's transaction settles it once, by what the frozen adjustments
    make of the target in the state of that transaction: a stopped job and a
    settled item are left alone; a missing or moved target, an invalid merge and
    a crop that does not fit are refused and saved as such; otherwise the merged
    document becomes the target's next revision.  A failure changes nothing. *)
Theorem apply_target_spec (Hdef : default_readable) grant id frozen source_json q i s s' r :
  copy_ok s -> items s !! (id, q) = Some i ->
  apply_target grant id frozen source_json q s = (s', r) ->
  match r with Ok b => target_result id frozen q i s s' b | Err _ => s' = s end.
Proof.
  intros Hs Hi H. destruct r as [b|e]; [by eapply (apply_target_run Hdef)|by eapply apply_target_atomic].
Qed.

(** C22. Undisturbed, a step that returns has settled as many targets as it was
    asked to, or all that were left, and the job is complete exactly when none
    is left: repeated steps finish the job. *)
Theorem step_progress (Hdef : default_readable) grants id limit s s' c j :
  copy_ok s -> jobs s !! id = Some j -> j_state j = Queued ->
  apply_edit_copy_step (fun _ t => t) grants id limit s = (s', Ok c) ->
  total c = j_total j /\ completed c = Z.min (j_total j) (j_completed j + limit) /\
  (state c = Complete <-> completed c = total c).
Proof. apply (apply_step_progress Hdef). Qed.
End Theorems.

(** Two targets are appended; the second's variant is edited before its turn. *)
Definition demo_others (q : Z) (s : CopyDb) : CopyDb :=
  if q =? 2 then set_edits (save_edit_recipe (Ok tt) demo_key 1 default_Recipe (edits s)).1 s else s.

Lemma copy_invariant_witness :
  let '(s, _) := apply_edit_copy_step demo_others (fun _ => Ok tt) "job" 5 demo_sealed in copy_ok s.
Proof.
  destruct (apply_edit_copy_step demo_others (fun _ => Ok tt) "job" 5 demo_sealed) as [s r] eqn:H.
  apply (copy_invariant (CODEC := demo_copy_codec) demo_default_readable demo_others (fun _ => Ok tt) "job" 5 demo_sealed s r);
    [|exact demo_sealed_reachable|exact H].
  intros q t Ht. unfold demo_others. destruct (q =? 2); [|exact Ht].
  eapply copy_next; [exact Ht|]. eapply step_edit; [|reflexivity]. eapply step_save, surjective_pairing.
Defined.

Lemma apply_target_spec_witness :
  exists i, items demo_sealed !! ("job"%string, 1) = Some i /\ i_target i = mkTarget demo_other 0 /\
    target_result "job" demo_frozen 1 i demo_sealed demo_half true.
Proof.
  assert (i_target <$> items demo_sealed !! ("job"%string, 1) = Some (mkTarget demo_other 0)) as Hrow
    by (vm_compute; reflexivity).
  destruct (items demo_sealed !! ("job"%string, 1)) as [i|] eqn:Hi; [|discriminate Hrow].
  exists i. split; [reflexivity|]. split; [by injection Hrow|].
  assert ((apply_target (Ok tt) "job" demo_frozen VNull 1 demo_sealed).2 = Ok true) as Hr by (vm_compute; reflexivity).
  pose proof (apply_target_spec (CODEC := demo_copy_codec) demo_default_readable _ _ _ _ _ i _ _ _ demo_sealed_ok Hi
    (surjective_pairing (apply_target (Ok tt) "job" demo_frozen VNull 1 demo_sealed))) as H.
  rewrite Hr in H. exact H.
Defined.

Lemma step_progress_witness :
  exists s c, apply_edit_copy_step (fun _ t => t) (fun _ => Ok tt) "job" 1 demo_sealed = (s, Ok c) /\
    completed c = 1 /\ total c = 2.
Proof.
  destruct (apply_edit_copy_step (fun _ t => t) (fun _ => Ok tt) "job" 1 demo_sealed) as [s r] eqn:H.
  assert (is_ok r = true) as Hr
    by (change r with (s, r).2; rewrite <-H; vm_compute; reflexivity).
  destruct r as [c|]; [|done]. exists s, c. split; [reflexivity|].
  assert ((fun j => (j_state j, j_total j, j_completed j)) <$> jobs demo_sealed !! "job"%string = Some (Queued, 2, 0))
    as Hrow by (vm_compute; reflexivity).
  destruct (jobs demo_sealed !! "job"%string) as [j|] eqn:Hj; [|discriminate Hrow].
  injection Hrow as Hq Ht Hc.
  pose proof (step_progress (CODEC := demo_copy_codec) demo_default_readable _ _ _ _ _ c j demo_sealed_ok Hj Hq H) as (H1 & H2 & _).
  rewrite H1, H2, Ht, Hc. split; reflexivity.
Defined.
