(* ===== verification/FsWire.v ===== *)
(** The framed transport of the filesystem helper: src/src/filesystem_worker/wire.rs.

    Messages travel as frames of a 48-byte header and at most 16 KiB of payload,
    are cut by [Message::write_bytes], read by [Frame::read] and put together by
    [Assembly]. *)
From stdpp Require Import base tactics option list numbers strings.
From Stdlib Require Import ZArith Lia.
From S2P Require Import Prelude Bytes.

Open Scope Z_scope.
Local Open Scope prog_scope.

(** ** Streams *)

(** What a reader meets: a byte, an interrupted system call, or an I/O error. *)
Inductive Item : Type := Data (b : Z) | Interrupted | Broken (reason : string).
Inductive IoError : Type := UnexpectedEof | InvalidData (m : string) | Fault (reason : string) | OutOfFuel.

Abbreviation RM := (proc IoError (list Item)).

(** [Read::read] of one byte, retried when interrupted; [None] at the end. *)
(** @source src/src/filesystem_worker/wire.rs:1983-1990 Frame::read *)
Fixpoint read_byte (s : list Item) : list Item * result IoError (option Z) :=
  match s with
  | [] => ([], Ok None)
  | Data b :: s' => (s', Ok (Some b))
  | Interrupted :: s' => read_byte s'
  | Broken e :: s' => (s', Err (Fault e))
  end.

(** [Read::read_exact] into a buffer of [n] bytes. *)
Fixpoint read_exact (n : nat) : RM (list Z) :=
  match n with
  | O => ret []
  | S n' =>
      let* o := (read_byte : RM (option Z)) in
      let* b := of_option o UnexpectedEof in
      let* bs := read_exact n' in
      ret (b :: bs)
  end.

(** A pipe: what was written, and how much it still takes before it breaks. *)
Record Pipe : Type := mkPipe { sent : list Z; room : option nat }.
Abbreviation WM := (proc IoError Pipe).

(** [Write::write_all]: a broken pipe keeps the bytes it took. *)
Definition write_all (b : list Z) : WM unit := fun p =>
  match room p with
  | None => (mkPipe (sent p ++ b) None, Ok tt)
  | Some n =>
      if (length b <=? n)%nat then (mkPipe (sent p ++ b) (Some (n - length b)%nat), Ok tt)
      else (mkPipe (sent p ++ take n b) (Some O), Err (Fault "broken pipe"))
  end.

(** ** Frames *)

(** @source src/src/filesystem_worker/wire.rs:20-25 constants *)
Definition CONFIG_BYTES : Z := 4 * 1024 * 1024.
Definition MESSAGE_BYTES : Z := 1024 * 1024.
Definition ERROR_BYTES : Z := 4096.
Definition CHUNK_BYTES : Z := 16 * 1024.
Definition HEADER_BYTES : Z := 48.

(** @source src/src/filesystem_worker/wire.rs:1928-1942 Kind *)
Inductive Kind : Type :=
| Startup | Ready | Execute | Status | AdmissionStatus | Cancel | Ack | Stop | Control | Result | StoreStatus.

#[export] Instance Kind_eq_dec : EqDecision Kind.
Proof. solve_decision. Defined.

(** [kind as u8]. *)
Definition kind_code (k : Kind) : Z :=
  match k with
  | Startup => 1 | Ready => 2 | Execute => 3 | Status => 4 | AdmissionStatus => 5 | Cancel => 6
  | Ack => 7 | Stop => 8 | Control => 9 | Result => 10 | StoreStatus => 11
  end.
(** @source src/src/filesystem_worker/wire.rs:1944-1959 Kind::decode *)
Definition kind_decode (value : Z) : result IoError Kind :=
  if value =? 1 then Ok Startup else if value =? 2 then Ok Ready else if value =? 3 then Ok Execute
  else if value =? 4 then Ok Status else if value =? 5 then Ok AdmissionStatus else if value =? 6 then Ok Cancel
  else if value =? 7 then Ok Ack else if value =? 8 then Ok Stop else if value =? 9 then Ok Control
  else if value =? 10 then Ok Result else if value =? 11 then Ok StoreStatus
  else Err (InvalidData "unknown filesystem frame kind").
(** @source src/src/filesystem_worker/wire.rs:1960-1966 Kind::cap *)
Definition cap (k : Kind) : Z := if decide (k = Startup) then CONFIG_BYTES else MESSAGE_BYTES.

(** @source src/src/filesystem_worker/wire.rs:1972-1979 Frame *)
Record Frame : Type := mkFrame {
  kind : Kind; epoch : list Z; sequence : Z; offset : Z; total : Z; payload : list Z }.

(** The admission both ends apply to a frame of [size] payload bytes. *)
(** @source src/src/filesystem_worker/wire.rs:2000-2006 Frame::read *)
Definition frame_refused (k : Kind) (offset total size : Z) : bool :=
  (cap k <? total) || (CHUNK_BYTES <? size) ||
  match checked_add offset size with None => true | Some e => total <? e end ||
  ((size =? 0) && negb (total =? 0)).

(** @source src/src/filesystem_worker/wire.rs:1981-2017 Frame::read *)
Definition frame_read : RM (option Frame) :=
  let* first := (read_byte : RM (option Z)) in
  match first with
  | None => ret None
  | Some b =>
      let* rest := read_exact 47 in
      let header := b :: rest in
      ensure (bool_decide (slice 0 4 header = ascii_bytes "PCFS") && bool_decide (slice 4 5 header = [1]) &&
              bool_decide (slice 6 8 header = [0; 0]))
        (InvalidData "filesystem protocol header mismatch") ;;;
      let* k := lift (kind_decode (le_uint (slice 5 6 header))) in
      let off := le_uint (slice 32 40 header) in
      let tot := le_uint (slice 40 44 header) in
      let size := le_uint (slice 44 48 header) in
      ensure (negb (frame_refused k off tot size)) (InvalidData "filesystem frame byte admission") ;;;
      let* p := read_exact (Z.to_nat size) in
      ret (Some (mkFrame k (slice 8 24 header) (le_uint (slice 24 32 header)) off tot p))
  end.

(** @source src/src/filesystem_worker/wire.rs:2029-2037 Frame::write *)
Definition frame_header (f : Frame) : list Z :=
  ascii_bytes "PCFS" ++ [1] ++ [kind_code (kind f)] ++ [0; 0] ++ epoch f ++ le_bytes 8 (sequence f) ++
  le_bytes 8 (offset f) ++ le_bytes 4 (total f) ++ le_bytes 4 (zlen (payload f)).
(** @source src/src/filesystem_worker/wire.rs:2018-2041 Frame::write *)
Definition frame_write (f : Frame) : WM unit :=
  ensure (negb (frame_refused (kind f) (offset f) (total f) (zlen (payload f))))
    (InvalidData "filesystem outgoing frame byte admission") ;;;
  write_all (frame_header f) ;;;
  write_all (payload f).

(** ** Messages *)

(** @source src/src/filesystem_worker/wire.rs:2044-2048 Message *)
Record Message : Type := mkMessage { m_kind : Kind; m_sequence : Z; m_bytes : list Z }.

(** @source src/src/filesystem_worker/wire.rs:2063-2079 Message::write_bytes *)
Fixpoint write_chunks (fuel : nat) (m : Message) (ep : list Z) (off : Z) : WM unit :=
  match fuel with
  | O => fail OutOfFuel
  | S fuel' =>
      let e := Z.min (zlen (m_bytes m)) (off + CHUNK_BYTES) in
      frame_write (mkFrame (m_kind m) ep (m_sequence m) off (zlen (m_bytes m)) (slice off e (m_bytes m))) ;;;
      if e =? zlen (m_bytes m) then ret tt else write_chunks fuel' m ep e
  end.
Definition chunk_fuel (m : Message) : nat := S (Z.to_nat (zlen (m_bytes m) / CHUNK_BYTES)).
(** @source src/src/filesystem_worker/wire.rs:2050-2080 Message::write *)
Definition message_write (m : Message) (ep : list Z) : WM unit :=
  ensure (zlen (m_bytes m) <=? cap (m_kind m)) (InvalidData "filesystem message byte admission") ;;;
  write_chunks (chunk_fuel m) m ep 0.

(** @source src/src/filesystem_worker/wire.rs:2083-2089 Assembly *)
Record Assembly : Type := mkAssembly {
  a_kind : Kind; a_sequence : Z; a_epoch : list Z; a_bytes : list Z; received : Z }.

(** @source src/src/filesystem_worker/wire.rs:2091-2102 Assembly::start *)
Definition assembly_start (f : Frame) : result IoError Assembly :=
  if negb (offset f =? 0) || (cap (kind f) <? total f)
  then Err (InvalidData "filesystem message initial frame")
  else Ok (mkAssembly (kind f) (sequence f) (epoch f) (replicate (Z.to_nat (total f)) 0) 0).

(** The bytes written at [received]; [copy_from_slice] panics on a mismatch of
    lengths, which the checked end excludes. *)
(** @source src/src/filesystem_worker/wire.rs:2103-2120 Assembly::push *)
Definition assembly_push (a : Assembly) (f : Frame) : result IoError (Assembly * bool) :=
  if negb (bool_decide (kind f = a_kind a)) || negb (sequence f =? a_sequence a) ||
     negb (bool_decide (epoch f = a_epoch a)) || negb (total f =? zlen (a_bytes a)) ||
     negb (offset f =? received a)
  then Err (InvalidData "filesystem message continuity")
  else match checked_add (received a) (zlen (payload f)) with
       | None => Err (InvalidData "filesystem fragment length")
       | Some e =>
           if e <=? zlen (a_bytes a) then
             Ok (mkAssembly (a_kind a) (a_sequence a) (a_epoch a)
                   (slice 0 (received a) (a_bytes a) ++ payload f ++ slice e (zlen (a_bytes a)) (a_bytes a)) e,
                 e =? zlen (a_bytes a))
           else Err (InvalidData "filesystem fragment length")
       end.
(** @source src/src/filesystem_worker/wire.rs:2121-2130 Assembly::finish *)
Definition assembly_finish (a : Assembly) : result IoError Message :=
  if negb (received a =? zlen (a_bytes a)) then Err (InvalidData "incomplete filesystem message")
  else Ok (mkMessage (a_kind a) (a_sequence a) (a_bytes a)).

(** Frames until the message is complete, as the helper reads its startup. *)
(** @source src/src/filesystem_worker/process.rs:307-312 serve *)
Fixpoint assemble (fuel : nat) (a : Assembly) (complete : bool) : RM Assembly :=
  if complete then ret a else
  match fuel with
  | O => fail OutOfFuel
  | S fuel' =>
      let* o := frame_read in
      let* f := of_option o (InvalidData "incomplete startup") in
      let* r := lift (assembly_push a f) in
      assemble fuel' r.1 r.2
  end.
(** One message.  [accept] is the check of the first frame: a startup with
    sequence 0 for the helper, a reply of the expected kind and epoch for its
    client; [assembly_push] holds every later frame to the first one. *)
(** @source src/src/filesystem_worker/process.rs:299-312 serve *)
Definition receive_message (accept : Frame -> bool) : RM (list Z * Message) := fun s =>
  (let* o := frame_read in
   let* first := of_option o (InvalidData "missing filesystem startup") in
   ensure (accept first) (InvalidData "expected filesystem startup") ;;;
   let* a := lift (assembly_start first) in
   let* r := lift (assembly_push a first) in
   let* a' := assemble (length s) r.1 r.2 in
   let* m := lift (assembly_finish a') in
   ret (epoch first, m)) s.

(** ** Reading what was written *)

(** [m] reads exactly [bs] and returns [a], however the stream interrupts it. *)
Inductive carries : list Item -> list Z -> list Item -> Prop :=
| carries_nil s : carries s [] s
| carries_data b s bs r : carries s bs r -> carries (Data b :: s) (b :: bs) r
| carries_interrupted s bs r : carries s bs r -> bs <> [] -> carries (Interrupted :: s) bs r.

Definition consumes {A} (m : RM A) (bs : list Z) (a : A) : Prop :=
  forall s r, carries s bs r -> m s = (r, Ok a).

Lemma carries_app s bs bs' r : carries s (bs ++ bs') r -> exists t, carries s bs t /\ carries t bs' r.
Proof.
  destruct bs as [|b bs]; [intros H; exists s; split; [constructor|done]|].
  intros H. remember ((b :: bs) ++ bs') as l eqn:Hl. revert b bs Hl.
  induction H as [|b0 s bs0 r H IH|s bs0 r H IH Hne]; intros b bs Hl.
  - done.
  - injection Hl as <- Hl. destruct bs as [|b1 bs].
    + cbn in Hl. subst. exists s. split; [constructor; constructor|done].
    + destruct (IH b1 bs Hl) as (t & H1 & H2). exists t. split; [by constructor|done].
  - destruct (IH b bs Hl) as (t & H1 & H2). exists t. split; [by constructor|done].
Qed.

Lemma carries_map bs r : carries (map Data bs ++ r) bs r.
Proof. induction bs; cbn; by constructor. Qed.

Lemma consumes_bind {A B} (m : RM A) (k : A -> RM B) bs bs' a b :
  consumes m bs a -> consumes (k a) bs' b -> consumes (bind m k) (bs ++ bs') b.
Proof.
  intros Hm Hk s r (t & H1 & H2)%carries_app. unfold bind. by rewrite (Hm s t H1), (Hk t r H2).
Qed.
Lemma consumes_eq {A} (m : RM A) bs bs' a : bs = bs' -> consumes m bs a -> consumes m bs' a.
Proof. by intros <-. Qed.
Lemma consumes_ret {A} (a : A) : consumes (ret a) [] a.
Proof. intros s r H. inversion H; subst; done. Qed.
Lemma consumes_step {A B} (m : RM A) (k : A -> RM B) bs a b :
  (forall s, m s = (s, Ok a)) -> consumes (k a) bs b -> consumes (bind m k) bs b.
Proof. intros Hm Hk s r H. unfold bind. rewrite Hm. by apply Hk. Qed.

Lemma read_byte_consumes b : consumes read_byte [b] (Some b).
Proof.
  intros s r H. remember [b] as l eqn:Hl. induction H as [|b0 s bs r H IH|s bs r H IH Hne]; [done| |by apply IH].
  injection Hl as -> ->. cbn. by inversion H; subst.
Qed.
Lemma read_exact_consumes bs : consumes (read_exact (length bs)) bs bs.
Proof.
  induction bs as [|b bs IH]; cbn [read_exact length]; [apply consumes_ret|].
  apply (consumes_bind _ _ [b] bs (Some b)); [apply read_byte_consumes|].
  apply (consumes_step _ _ _ b); [done|].
  apply (consumes_eq _ (bs ++ [])); [apply app_nil_r|]. eapply consumes_bind; [exact IH|apply consumes_ret].
Qed.

Lemma kind_decode_code k : kind_decode (kind_code k) = Ok k.
Proof. by destruct k. Qed.

(** *** Frames *)

Record frame_ok (f : Frame) : Prop := {
  fo_epoch : length (epoch f) = 16%nat;
  fo_sequence : 0 <= sequence f <= u64_max;
  fo_offset : 0 <= offset f <= u64_max;
  fo_total : 0 <= total f;
  fo_admitted : frame_refused (kind f) (offset f) (total f) (zlen (payload f)) = false;
}.

Lemma frame_refused_inv k o t n :
  0 <= o -> 0 <= n -> frame_refused k o t n = false ->
  t <= cap k /\ n <= CHUNK_BYTES /\ o + n <= t /\ (n = 0 -> t = 0).
Proof.
  intros Ho Hn. unfold frame_refused, checked_add. rewrite !orb_false_iff, !Z.ltb_ge.
  intros [[[Hc Hs] He] Hz].
  destruct (Z.leb_spec (o + n) u64_max); [|done]. apply Z.ltb_ge in He. split_and!; [done..|].
  intros ->. destruct (Z.eqb_spec t 0); [done|]. done.
Qed.
Lemma frame_refused_intro k o t n :
  0 <= o -> 0 <= n -> t <= cap k -> n <= CHUNK_BYTES -> o + n <= t -> (n = 0 -> t = 0) -> t <= u64_max ->
  frame_refused k o t n = false.
Proof.
  intros Ho Hn Hc Hs He Hz Hm. unfold frame_refused, checked_add.
  rewrite (proj2 (Z.ltb_ge _ _) Hc), (proj2 (Z.ltb_ge _ _) Hs), (proj2 (Z.leb_le _ _)) by lia.
  rewrite (proj2 (Z.ltb_ge _ _) He). cbn. destruct (Z.eqb_spec n 0); [|done].
  rewrite (Hz e). done.
Qed.
Lemma cap_u32 k : cap k < 2 ^ 32.
Proof. unfold cap, CONFIG_BYTES, MESSAGE_BYTES. destruct (decide _); lia. Qed.

(** The fields of a header, by position. *)
Lemma header_fields f :
  frame_ok f ->
  let h := frame_header f in
  length h = 48%nat /\ slice 0 4 h = ascii_bytes "PCFS" /\ slice 4 5 h = [1] /\ slice 6 8 h = [0; 0] /\
  slice 5 6 h = [kind_code (kind f)] /\ slice 8 24 h = epoch f /\
  slice 24 32 h = le_bytes 8 (sequence f) /\ slice 32 40 h = le_bytes 8 (offset f) /\
  slice 40 44 h = le_bytes 4 (total f) /\ slice 44 48 h = le_bytes 4 (zlen (payload f)).
Proof.
  intros [He _ _ _ _]. unfold frame_header. cbv zeta.
  set (a := le_bytes 8 (sequence f)). set (b := le_bytes 8 (offset f)).
  set (c := le_bytes 4 (total f)). set (d := le_bytes 4 (zlen (payload f))).
  assert (length a = 8%nat) as Ha by apply le_bytes_length. assert (length b = 8%nat) as Hb by apply le_bytes_length.
  assert (length c = 4%nat) as Hc by apply le_bytes_length. assert (length d = 4%nat) as Hd by apply le_bytes_length.
  clearbody a b c d. destruct f as [k e s o t p]; cbn in *.
  do 16 (destruct e as [|? e]; [done|]). destruct e; [|done].
  do 8 (destruct a as [|? a]; [done|]). destruct a; [|done]. do 8 (destruct b as [|? b]; [done|]). destruct b; [|done].
  do 4 (destruct c as [|? c]; [done|]). destruct c; [|done]. do 4 (destruct d as [|? d]; [done|]). destruct d; [|done].
  split_and!; reflexivity.
Qed.

Definition frame_bytes (f : Frame) : list Z := frame_header f ++ payload f.

Lemma frame_read_consumes f : frame_ok f -> consumes frame_read (frame_bytes f) (Some f).
Proof.
  intros Hf. pose proof (header_fields f Hf) as (Hlen & H1 & H2 & H3 & H4 & H5 & H6 & H7 & H8 & H9).
  destruct Hf as [He Hs Ho Ht Hadm].
  pose proof (frame_refused_inv _ _ _ _ (proj1 Ho) (zlen_nonneg _) Hadm) as (Hcap & Hsz & Hend & Hz).
  pose proof (cap_u32 (kind f)) as Hcap32. unfold CHUNK_BYTES in Hsz.
  unfold frame_bytes. destruct (frame_header f) as [|b rest] eqn:Hh; [done|].
  injection Hlen as Hlen. unfold frame_read.
  apply (consumes_bind _ _ [b] (rest ++ payload f) (Some b)); [apply read_byte_consumes|].
  apply (consumes_bind _ _ rest (payload f) rest); [rewrite <-Hlen; apply read_exact_consumes|].
  apply (consumes_step _ _ _ tt).
  { intros s. rewrite H1, H2, H3. by rewrite !bool_decide_true. }
  apply (consumes_step _ _ _ (kind f)).
  { intros s. rewrite H4. cbn [le_uint]. rewrite Z.mul_0_r, Z.add_0_r, kind_decode_code. done. }
  cbv zeta. rewrite H5, H6, H7, H8, H9.
  rewrite !le_uint_bytes by first [change (256 ^ Z.of_nat 8) with (2 ^ 64); unfold u64_max in *; lia
    |change (256 ^ Z.of_nat 4) with (2 ^ 32); unfold zlen in *; lia].
  apply (consumes_step _ _ _ tt); [intros s; by rewrite Hadm|].
  apply (consumes_eq _ (payload f ++ [])); [apply app_nil_r|].
  eapply consumes_bind; [unfold zlen; rewrite Nat2Z.id; apply read_exact_consumes|].
  destruct f; apply consumes_ret.
Qed.

(** *** Chunks *)

(** The frames of a message from [off] on. *)
Definition chunk (m : Message) (ep : list Z) (off : Z) : Frame :=
  mkFrame (m_kind m) ep (m_sequence m) off (zlen (m_bytes m))
    (slice off (Z.min (zlen (m_bytes m)) (off + CHUNK_BYTES)) (m_bytes m)).
Fixpoint chunks (fuel : nat) (m : Message) (ep : list Z) (off : Z) : list Frame :=
  match fuel with
  | O => []
  | S fuel' =>
      let e := Z.min (zlen (m_bytes m)) (off + CHUNK_BYTES) in
      chunk m ep off :: if e =? zlen (m_bytes m) then [] else chunks fuel' m ep e
  end.
Definition message_frames (m : Message) (ep : list Z) : list Frame := chunks (chunk_fuel m) m ep 0.
(** The bytes of a message on the wire. *)
Definition message_bytes (m : Message) (ep : list Z) : list Z := concat (map frame_bytes (message_frames m ep)).

Record message_ok (m : Message) (ep : list Z) : Prop := {
  mo_epoch : length ep = 16%nat;
  mo_sequence : 0 <= m_sequence m <= u64_max;
  mo_cap : zlen (m_bytes m) <= cap (m_kind m);
}.

(** Offsets from which the fuel reaches the end of the message. *)
Definition reaches (fuel : nat) (m : Message) (off : Z) : Prop :=
  0 <= off <= zlen (m_bytes m) /\ (off = zlen (m_bytes m) -> off = 0) /\
  zlen (m_bytes m) - off < Z.of_nat fuel * CHUNK_BYTES /\ (0 < fuel)%nat.

Lemma reaches_start m : reaches (chunk_fuel m) m 0.
Proof.
  pose proof (zlen_nonneg (m_bytes m)) as Hn.
  unfold reaches, chunk_fuel. split; [lia|]. split; [lia|]. split; [|lia].
  rewrite Nat2Z.inj_succ. pose proof (Z.div_mod (zlen (m_bytes m)) CHUNK_BYTES ltac:(unfold CHUNK_BYTES; lia)).
  pose proof (Z.mod_pos_bound (zlen (m_bytes m)) CHUNK_BYTES ltac:(unfold CHUNK_BYTES; lia)).
  rewrite Z2Nat.id by (apply Z.div_pos; unfold CHUNK_BYTES; lia). lia.
Qed.
Lemma reaches_next fuel m off :
  reaches (S fuel) m off -> Z.min (zlen (m_bytes m)) (off + CHUNK_BYTES) <> zlen (m_bytes m) ->
  reaches fuel m (Z.min (zlen (m_bytes m)) (off + CHUNK_BYTES)).
Proof.
  unfold reaches, CHUNK_BYTES. intros (H1 & H2 & H3 & H4) Hne. rewrite Nat2Z.inj_succ in H3.
  split; [lia|]. split; [lia|]. split; [lia|]. destruct fuel; lia.
Qed.

Lemma chunk_length fuel m ep off :
  reaches fuel m off ->
  zlen (payload (chunk m ep off)) = Z.min (zlen (m_bytes m)) (off + CHUNK_BYTES) - off.
Proof. intros (H1 & _). cbn. apply slice_length; unfold CHUNK_BYTES; lia. Qed.

Lemma chunk_ok fuel m ep off : message_ok m ep -> reaches fuel m off -> frame_ok (chunk m ep off).
Proof.
  intros [He Hs Hc] Hr. pose proof (chunk_length fuel m ep off Hr) as Hlen. pose proof (cap_u32 (m_kind m)).
  destruct Hr as (H1 & H2 & H3 & H4). unfold CHUNK_BYTES in *.
  split; cbn [chunk epoch sequence offset total kind]; [done|done|unfold u64_max; lia|lia|].
  apply frame_refused_intro; unfold u64_max, CHUNK_BYTES; lia.
Qed.

(** *** Writing *)

(** Two writes are one write, on a pipe that breaks as on one that does not. *)
Lemma write_all_app a b p : bind (write_all a) (fun _ => write_all b) p = write_all (a ++ b) p.
Proof.
  unfold bind, write_all. destruct p as [out [n|]]; cbn [sent room]; [|by rewrite app_assoc].
  rewrite length_app. destruct (Nat.leb_spec (length a) n) as [Ha|Ha]; cbn [sent room].
  - destruct (Nat.leb_spec (length b) (n - length a)), (Nat.leb_spec (length a + length b) n); try lia.
    + rewrite app_assoc. do 3 f_equal. lia.
    + rewrite <-app_assoc. rewrite (take_app_ge a b n) by lia. done.
  - destruct (Nat.leb_spec (length a + length b) n); [lia|]. by rewrite take_app_le by lia.
Qed.

Lemma frame_write_eq f p : frame_ok f -> frame_write f p = write_all (frame_bytes f) p.
Proof. intros Hf. unfold frame_write. rewrite (fo_admitted _ Hf). run. apply write_all_app. Qed.

Lemma write_chunks_eq m ep : message_ok m ep -> forall fuel off p,
  reaches fuel m off ->
  write_chunks fuel m ep off p = write_all (concat (map frame_bytes (chunks fuel m ep off))) p.
Proof.
  intros Hm. induction fuel as [|fuel IH]; intros off p Hr; [destruct Hr; lia|].
  cbn [write_chunks chunks]. fold (chunk m ep off). pose proof (chunk_ok _ m ep off Hm Hr) as Hf.
  destruct (Z.eqb_spec (Z.min (zlen (m_bytes m)) (off + CHUNK_BYTES)) (zlen (m_bytes m))) as [Hend|Hend].
  - cbn [map concat]. rewrite app_nil_r, <-(frame_write_eq _ p Hf).
    unfold bind. destruct (frame_write _ p) as [q [[]|e]]; done.
  - cbn [map concat]. rewrite <-write_all_app. unfold bind. rewrite frame_write_eq by done.
    destruct (write_all _ p) as [q [[]|e]]; [|done]. apply IH. by apply reaches_next.
Qed.

Lemma message_write_eq m ep p : message_ok m ep -> message_write m ep p = write_all (message_bytes m ep) p.
Proof.
  intros Hm. unfold message_write. rewrite (proj2 (Z.leb_le _ _) (mo_cap _ _ Hm)). run.
  apply write_chunks_eq; [done|apply reaches_start].
Qed.

(** *** Assembling *)

(** The assembly after the first [off] bytes of a message. *)
Definition partial (m : Message) (ep : list Z) (off : Z) : Assembly :=
  mkAssembly (m_kind m) (m_sequence m) ep
    (slice 0 off (m_bytes m) ++ replicate (Z.to_nat (zlen (m_bytes m) - off)) 0) off.

Lemma partial_length m ep off : 0 <= off <= zlen (m_bytes m) -> zlen (a_bytes (partial m ep off)) = zlen (m_bytes m).
Proof.
  intros H. cbn. rewrite zlen_app, slice_length by lia. unfold zlen at 1. rewrite length_replicate. lia.
Qed.

Lemma assembly_start_chunk m ep : message_ok m ep ->
  assembly_start (chunk m ep 0) = Ok (partial m ep 0).
Proof.
  intros [_ _ Hc]. unfold assembly_start, partial. cbn [chunk offset kind total sequence epoch].
  rewrite (proj2 (Z.ltb_ge _ _) Hc). cbn. by rewrite Z.sub_0_r.
Qed.

Lemma slice_split from mid to (l : list Z) :
  0 <= from <= mid -> mid <= to -> slice from mid l ++ slice mid to l = slice from to l.
Proof.
  intros H1 H2. unfold slice. replace (Z.to_nat (to - from)) with (Z.to_nat (mid - from) + Z.to_nat (to - mid))%nat by lia.
  rewrite <-take_take_drop. rewrite drop_drop. do 3 f_equal. lia.
Qed.

Lemma assembly_push_chunk m ep off fuel : message_ok m ep -> reaches fuel m off ->
  let e := Z.min (zlen (m_bytes m)) (off + CHUNK_BYTES) in
  assembly_push (partial m ep off) (chunk m ep off) = Ok (partial m ep e, e =? zlen (m_bytes m)).
Proof.
  intros Hm Hr e. pose proof (chunk_length fuel m ep off Hr) as Hlen.
  destruct Hr as (H1 & H2 & H3 & H4). pose proof (cap_u32 (m_kind m)). pose proof (mo_cap _ _ Hm).
  unfold assembly_push. rewrite Hlen, (partial_length m ep off) by lia.
  cbn [chunk kind sequence epoch total offset payload partial a_kind a_sequence a_epoch a_bytes received].
  rewrite !bool_decide_true, !Z.eqb_refl by done. cbn [negb orb]. unfold checked_add.
  fold e. replace (off + (e - off)) with e by lia. assert (off <= e <= zlen (m_bytes m)) as He by (unfold e, CHUNK_BYTES; lia).
  rewrite (proj2 (Z.leb_le e u64_max)) by (unfold u64_max; lia). rewrite (proj2 (Z.leb_le _ _) (proj2 He)).
  do 2 f_equal. unfold partial. f_equal. fold e.
  assert (zlen (slice 0 off (m_bytes m)) = off) as Hpre by (rewrite slice_length; lia).
  rewrite slice_app_l by lia. rewrite (slice_all off) by done. rewrite app_assoc, slice_split by lia. f_equal.
  rewrite slice_app_r by lia. rewrite Hpre. unfold slice. rewrite drop_replicate, take_replicate. f_equal. lia.
Qed.

Lemma assembly_finish_partial m ep : assembly_finish (partial m ep (zlen (m_bytes m))) = Ok m.
Proof.
  pose proof (zlen_nonneg (m_bytes m)). unfold assembly_finish. rewrite partial_length by lia. cbn [received partial].
  rewrite Z.eqb_refl. cbn. rewrite Z.sub_diag. cbn. rewrite app_nil_r, slice_all by done. by destruct m.
Qed.

Lemma assemble_true n a : assemble n a true = ret a.
Proof. by destruct n. Qed.

(** The end of the chunk at [off]. *)
Definition chunk_end (m : Message) (off : Z) : Z := Z.min (zlen (m_bytes m)) (off + CHUNK_BYTES).

Lemma assemble_consumes m ep : message_ok m ep -> forall fuel off n,
  reaches fuel m off -> (fuel <= n)%nat ->
  consumes (assemble n (partial m ep off) false) (concat (map frame_bytes (chunks fuel m ep off)))
    (partial m ep (zlen (m_bytes m))).
Proof.
  intros Hm. induction fuel as [|fuel IH]; intros off n Hr Hn; [destruct Hr; lia|].
  destruct n as [|n]; [lia|]. cbn [assemble chunks map concat]. fold (chunk_end m off).
  eapply consumes_bind; [apply frame_read_consumes; by eapply chunk_ok|].
  apply (consumes_step _ _ _ (chunk m ep off)); [done|].
  apply (consumes_step _ _ _ (partial m ep (chunk_end m off), chunk_end m off =? zlen (m_bytes m))).
  { intros s. unfold lift. by rewrite (assembly_push_chunk m ep off (S fuel)). }
  cbn [fst snd]. destruct (Z.eqb_spec (chunk_end m off) (zlen (m_bytes m))) as [Hend|Hend].
  - rewrite assemble_true, Hend. apply consumes_ret.
  - apply IH; [by apply reaches_next|lia].
Qed.

Lemma carries_length s bs r : carries s bs r -> (length bs <= length s)%nat.
Proof. induction 1; cbn; lia. Qed.

Lemma frame_bytes_length f : frame_ok f -> (length (frame_bytes f) = 48 + length (payload f))%nat.
Proof.
  intros Hf. unfold frame_bytes. rewrite length_app. by destruct (header_fields f Hf) as [-> _].
Qed.

Lemma chunks_length m ep : message_ok m ep -> forall fuel off,
  reaches fuel m off ->
  zlen (m_bytes m) - off <= zlen (concat (map frame_bytes (chunks fuel m ep off))) /\
  (chunks fuel m ep off <> []).
Proof.
  intros Hm. induction fuel as [|fuel IH]; intros off Hr; [destruct Hr; lia|]. split; [|done].
  cbn [chunks map concat]. pose proof (chunk_length _ m ep off Hr) as Hlen. fold (chunk_end m off) in *.
  pose proof (frame_bytes_length _ (chunk_ok _ m ep off Hm Hr)) as Hfb.
  rewrite zlen_app. unfold zlen at 2. rewrite Hfb, Nat2Z.inj_add. fold (zlen (payload (chunk m ep off))). rewrite Hlen.
  destruct (Z.eqb_spec (chunk_end m off) (zlen (m_bytes m))) as [Hend|Hend]; [change (zlen (concat (map frame_bytes []))) with 0; lia|].
  destruct (IH _ (reaches_next _ _ _ Hr Hend)). unfold chunk_end in *. lia.
Qed.

Lemma receive_consumes m ep accept : message_ok m ep -> accept (chunk m ep 0) = true ->
  consumes (receive_message accept) (message_bytes m ep) (ep, m).
Proof.
  intros Hm Hadm s r Hs. unfold receive_message.
  assert (chunk_fuel m <= length s)%nat as Hfuel.
  { apply carries_length in Hs. destruct (chunks_length m ep Hm _ 0 (reaches_start m)) as [Hlen _].
    fold (message_frames m ep) in Hlen. fold (message_bytes m ep) in Hlen.
    assert (48 <= length (message_bytes m ep))%nat as H48.
    { unfold message_bytes, message_frames, chunk_fuel. cbn [chunks map concat]. rewrite length_app, frame_bytes_length; [lia|].
      eapply chunk_ok; [done|apply reaches_start]. }
    unfold zlen in Hlen. unfold chunk_fuel, zlen, CHUNK_BYTES.
    pose proof (Z.div_le_upper_bound (Z.of_nat (length (m_bytes m))) (16 * 1024) (Z.of_nat (length (m_bytes m))) ltac:(lia) ltac:(lia)).
    pose proof (Z.mul_div_le (Z.of_nat (length (m_bytes m))) (16 * 1024) ltac:(lia)). lia. }
  generalize dependent (length s). intros n Hn. revert s r Hs.
  change (consumes (let* o := frame_read in
    let* first := of_option o (InvalidData "missing filesystem startup") in
    ensure (accept first) (InvalidData "expected filesystem startup") ;;;
    let* a := lift (assembly_start first) in
    let* r := lift (assembly_push a first) in
    let* a' := assemble n r.1 r.2 in
    let* m := lift (assembly_finish a') in
    ret (epoch first, m)) (message_bytes m ep) (ep, m)).
  unfold message_bytes, message_frames. unfold chunk_fuel in *. pose proof (reaches_start m) as Hr. unfold chunk_fuel in Hr.
  set (fuel := Z.to_nat (zlen (m_bytes m) / CHUNK_BYTES)) in *. cbn [chunks map concat].
  eapply consumes_bind; [apply frame_read_consumes; by eapply chunk_ok|]. fold (chunk_end m 0).
  apply (consumes_step _ _ _ (chunk m ep 0)); [done|].
  apply (consumes_step _ _ _ tt); [intros s; by rewrite Hadm|].
  apply (consumes_step _ _ _ (partial m ep 0)); [intros s; unfold lift; by rewrite assembly_start_chunk|].
  apply (consumes_step _ _ _ (partial m ep (chunk_end m 0), chunk_end m 0 =? zlen (m_bytes m))).
  { intros s. unfold lift. by rewrite (assembly_push_chunk m ep 0 (S fuel)). }
  cbn [fst snd]. apply (consumes_eq _ (concat (map frame_bytes (if chunk_end m 0 =? zlen (m_bytes m) then [] else chunks fuel m ep (chunk_end m 0))) ++ []));
    [apply app_nil_r|].
  apply (consumes_bind _ _ _ _ (partial m ep (zlen (m_bytes m)))).
  - destruct (Z.eqb_spec (chunk_end m 0) (zlen (m_bytes m))) as [Hend|Hend].
    + rewrite assemble_true, Hend. apply consumes_ret.
    + apply assemble_consumes; [done|by apply reaches_next|lia].
  - apply (consumes_step _ _ _ m); [intros s; unfold lift; by rewrite assembly_finish_partial|]. apply consumes_ret.
Qed.

(** ** What a reader makes of a stream that stops early *)

(** More input changes nothing for a program that did not meet the end. *)
Definition stable {A} (m : RM A) : Prop :=
  forall s t r a, m s = (r, Ok a) -> m (s ++ t) = (r ++ t, Ok a).

Lemma stable_bind {A B} (m : RM A) (k : A -> RM B) : stable m -> (forall a, stable (k a)) -> stable (bind m k).
Proof.
  intros Hm Hk s t r b (s1 & a & H1 & H2)%bind_Ok_inv. unfold bind. rewrite (Hm _ t _ _ H1). by apply Hk.
Qed.
Lemma stable_ret {A} (a : A) : stable (ret a).
Proof. intros s t r b. by intros [= <- <-]. Qed.
Lemma stable_pure {A} (m : RM A) : (forall s, exists r, m s = (s, r)) -> (forall s t, (m s).2 = (m t).2) -> stable m.
Proof.
  intros Hs Hr s t r a H. destruct (Hs s) as [x Hx]. rewrite H in Hx. injection Hx as -> <-.
  destruct (Hs (s ++ t)) as [y Hy]. specialize (Hr s (s ++ t)). rewrite H, Hy in Hr. cbn in Hr. by rewrite Hy, <-Hr.
Qed.
Lemma stable_lift {A} (x : result IoError A) : stable (lift x).
Proof. apply stable_pure; [intros s; by eexists|done]. Qed.
Lemma stable_ensure b e : stable (ensure b e).
Proof. destruct b; apply stable_pure; try done; intros s; by eexists. Qed.

Lemma read_byte_stable s t r b : read_byte s = (r, Ok (Some b)) -> read_byte (s ++ t) = (r ++ t, Ok (Some b)).
Proof. revert r. induction s as [|[c| |e] s IH]; intros r; cbn; try done; [by intros [= <- <-]|apply IH]. Qed.

(** A step that fails at the end of input. *)
Lemma stable_some {A B} (m : RM (option A)) (e : IoError) (k : A -> RM B) :
  (forall s t r a, m s = (r, Ok (Some a)) -> m (s ++ t) = (r ++ t, Ok (Some a))) ->
  (forall a, stable (k a)) -> stable (let* o := m in let* a := of_option o e in k a).
Proof.
  intros Hm Hk s t r b (s1 & o & H1 & H2)%bind_Ok_inv. destruct o as [a|]; [|done].
  unfold bind at 1. rewrite (Hm _ t _ _ H1). cbn in *. by apply Hk.
Qed.

Lemma read_exact_stable n : stable (read_exact n).
Proof.
  induction n as [|n IH]; cbn [read_exact]; [apply stable_ret|].
  apply stable_some; [apply read_byte_stable|]. intros b. apply stable_bind; [done|intros; apply stable_ret].
Qed.

Lemma frame_read_stable s t r f : frame_read s = (r, Ok (Some f)) -> frame_read (s ++ t) = (r ++ t, Ok (Some f)).
Proof.
  unfold frame_read. intros (s1 & o & H1 & H2)%bind_Ok_inv. destruct o as [b|]; [|done].
  unfold bind at 1. rewrite (read_byte_stable _ t _ _ H1). revert s1 t r f H1 H2.
  match goal with |- forall s1 t r f, _ -> ?k s1 = _ -> _ => assert (stable k) as Hk end.
  { apply stable_bind; [apply read_exact_stable|intros rest]. cbv zeta.
    apply stable_bind; [apply stable_ensure|intros _]. apply stable_bind; [apply stable_lift|intros k].
    apply stable_bind; [apply stable_ensure|intros _]. apply stable_bind; [apply read_exact_stable|intros p]. apply stable_ret. }
  intros s1 t r f _. apply Hk.
Qed.

Lemma assemble_more n : forall n' a c s r x,
  (n <= n')%nat -> assemble n a c s = (r, Ok x) -> assemble n' a c s = (r, Ok x).
Proof.
  induction n as [|n IH]; intros n' a c s r x Hn H; (destruct c; [by rewrite assemble_true in *|]); [done|].
  destruct n' as [|n']; [lia|]. cbn [assemble] in *.
  apply bind_Ok_inv in H as (s1 & o & H1 & H). rewrite (bind_ok _ _ _ _ _ H1).
  apply bind_Ok_inv in H as (s2 & f & H2 & H). rewrite (bind_ok _ _ _ _ _ H2).
  apply bind_Ok_inv in H as (s3 & p & H3 & H). rewrite (bind_ok _ _ _ _ _ H3). apply IH; [lia|done].
Qed.
Lemma assemble_stable n : forall a c, stable (assemble n a c).
Proof.
  induction n as [|n IH]; intros a c; (destruct c; [rewrite assemble_true; apply stable_ret|]).
  - intros s t r x H. done.
  - cbn [assemble]. apply stable_some; [apply frame_read_stable|]. intros f.
    apply stable_bind; [apply stable_lift|intros p; apply IH].
Qed.

Lemma receive_stable accept : stable (receive_message accept).
Proof.
  intros s t r x H. unfold receive_message in H |- *. rewrite length_app. revert s t r x H.
  assert (forall n n', (n <= n')%nat -> forall s t r x, (let* o := frame_read in
    let* first := of_option o (InvalidData "missing filesystem startup") in
    ensure (accept first) (InvalidData "expected filesystem startup") ;;;
    let* a := lift (assembly_start first) in
    let* r := lift (assembly_push a first) in
    let* a' := assemble n r.1 r.2 in
    let* m := lift (assembly_finish a') in
    ret (epoch first, m)) s = (r, Ok x) -> (let* o := frame_read in
    let* first := of_option o (InvalidData "missing filesystem startup") in
    ensure (accept first) (InvalidData "expected filesystem startup") ;;;
    let* a := lift (assembly_start first) in
    let* r := lift (assembly_push a first) in
    let* a' := assemble n' r.1 r.2 in
    let* m := lift (assembly_finish a') in
    ret (epoch first, m)) (s ++ t) = (r ++ t, Ok x)) as Hgen; [|intros s t r x; apply Hgen; lia].
  intros n n' Hn s t r x (s1 & o & H1 & H)%bind_Ok_inv. destruct o as [f|]; [|done].
  rewrite (bind_ok _ _ _ _ _ (frame_read_stable _ t _ _ H1)). cbn [of_option] in *. rewrite bind_ret in H |- *.
  apply bind_Ok_inv in H as (s2 & [] & [Hb ->]%ensure_Ok_inv & H). rewrite Hb. run.
  apply bind_Ok_inv in H as (s2 & a & [Ha ->]%lift_Ok_inv & H). rewrite Ha. run.
  apply bind_Ok_inv in H as (s2 & p & [Hp ->]%lift_Ok_inv & H). rewrite Hp. run.
  apply bind_Ok_inv in H as (s2 & a' & H2 & H). apply (assemble_more n n') in H2; [|done].
  rewrite (bind_ok _ _ _ _ _ (assemble_stable _ _ _ _ t _ _ H2)).
  apply bind_Ok_inv in H as (s3 & m & [Hm ->]%lift_Ok_inv & H). rewrite Hm. run. by injection H as <- <-.
Qed.

(** ** What any stream gives *)

Lemma read_byte_shrinks s r o : read_byte s = (r, Ok (Some o)) -> (length r < length s)%nat.
Proof. revert r. induction s as [|[c| |e] s IH]; intros r; cbn; try done; [intros [= <- _]; lia|intros H%IH; lia]. Qed.
Lemma read_exact_shrinks n : forall s r b, read_exact n s = (r, Ok b) -> (length r + n <= length s)%nat /\ length b = n.
Proof.
  induction n as [|n IH]; intros s r b; cbn [read_exact]; [intros [= <- <-]; cbn; lia|].
  intros (s1 & o & H1 & H)%bind_Ok_inv. destruct o as [c|]; [|done]. apply read_byte_shrinks in H1.
  cbn in H. apply bind_Ok_inv in H as (s2 & bs & [H2 H3]%IH & [= <- <-]). cbn. lia.
Qed.

Lemma frame_read_inv s r f :
  frame_read s = (r, Ok (Some f)) ->
  (length r + 48 + length (payload f) <= length s)%nat /\ length (epoch f) = 16%nat /\
  exists n, frame_refused (kind f) (offset f) (total f) n = false /\ length (payload f) = Z.to_nat n.
Proof.
  unfold frame_read. intros (s1 & o & H1 & H)%bind_Ok_inv. destruct o as [b|]; [|done].
  apply read_byte_shrinks in H1. apply bind_Ok_inv in H as (s2 & rest & [H2 Hl]%read_exact_shrinks & H).
  apply bind_Ok_inv in H as (? & [] & [_ ->]%ensure_Ok_inv & H).
  apply bind_Ok_inv in H as (? & k & [_ ->]%lift_Ok_inv & H). cbv zeta in H.
  apply bind_Ok_inv in H as (? & [] & [Hadm ->]%ensure_Ok_inv & H). apply negb_true_iff in Hadm.
  apply bind_Ok_inv in H as (s3 & p & [H3 Hp]%read_exact_shrinks & [= <- <-]). cbn [payload epoch kind offset total].
  split; [lia|]. split; [unfold slice; rewrite length_take, length_drop; cbn [length]; lia|].
  eexists. split; [exact Hadm|done].
Qed.

(** Reading runs out of input, never out of fuel. *)
Definition fuelled {A} (m : RM A) : Prop := forall s r, m s <> (r, Err OutOfFuel).
Lemma fuelled_bind {A B} (m : RM A) (k : A -> RM B) : fuelled m -> (forall a, fuelled (k a)) -> fuelled (bind m k).
Proof.
  intros Hm Hk s r. unfold bind. destruct (m s) as [t [a|e]] eqn:H; [apply Hk|].
  intros [= -> ->]. by apply (Hm s r).
Qed.
Lemma read_byte_fuelled : fuelled read_byte.
Proof. intros s. induction s as [|[c| |e] s IH]; intros r; cbn; try done. Qed.
Lemma read_exact_fuelled n : fuelled (read_exact n).
Proof.
  induction n as [|n IH]; cbn [read_exact]; [done|]. apply fuelled_bind; [apply read_byte_fuelled|intros [b|]; [|done]].
  apply fuelled_bind; [done|intros c]. by apply fuelled_bind.
Qed.
Lemma frame_read_fuel s r : frame_read s <> (r, Err OutOfFuel).
Proof.
  revert s r. change (fuelled frame_read). unfold frame_read. apply fuelled_bind; [apply read_byte_fuelled|intros [b|]; [|done]].
  apply fuelled_bind; [apply read_exact_fuelled|intros rest]. cbv zeta.
  apply fuelled_bind; [by destruct (_ && _)|intros []].
  apply fuelled_bind; [|intros k; apply fuelled_bind; [by destruct (negb _)|intros []; apply fuelled_bind;
    [apply read_exact_fuelled|done]]].
  intros s r. unfold lift, kind_decode. repeat (destruct (_ =? _); [done|]). done.
Qed.

Lemma assembly_push_inv a f p :
  assembly_push a f = Ok p -> 0 <= received a ->
  a_kind p.1 = a_kind a /\ a_sequence p.1 = a_sequence a /\ a_epoch p.1 = a_epoch a /\
  (received a <= zlen (a_bytes a) -> zlen (a_bytes p.1) = zlen (a_bytes a)) /\
  received p.1 = received a + zlen (payload f) /\ received p.1 <= zlen (a_bytes a) /\
  (p.2 = true <-> received p.1 = zlen (a_bytes a)).
Proof.
  unfold assembly_push. intros H Hr. destruct (_ || _ || _ || _ || _) in H; [done|].
  destruct (checked_add _ _) as [e|] eqn:He; [|done]. apply checked_add_Some in He as [-> _].
  destruct (Z.leb_spec (received a + zlen (payload f)) (zlen (a_bytes a))) as [Hle|]; [|done].
  pose proof (zlen_nonneg (payload f)). injection H as <-. cbn. split_and!; try done; [|by rewrite Z.eqb_eq].
  intros Hra. rewrite !zlen_app, !slice_length by lia. lia.
Qed.

Lemma assemble_sound n : forall a c s r x,
  (length s < n)%nat -> 0 <= received a <= zlen (a_bytes a) -> (c = true -> received a = zlen (a_bytes a)) ->
  assemble n a c s = (r, x) ->
  match x with
  | Ok a' => a_kind a' = a_kind a /\ a_epoch a' = a_epoch a /\ a_sequence a' = a_sequence a /\
      zlen (a_bytes a') = zlen (a_bytes a) /\ received a' = zlen (a_bytes a')
  | Err e => e <> OutOfFuel
  end.
Proof.
  induction n as [|n IH]; intros a c s r x Hn Ha Hc H; [lia|].
  destruct c; [rewrite assemble_true in H; injection H as <- <-; split_and!; auto|]. cbn [assemble] in H.
  unfold bind at 1 in H. destruct (frame_read s) as [s1 [o|e]] eqn:H1; [|injection H as <- <-].
  2:{ intros ->. by apply frame_read_fuel in H1. }
  destruct o as [f|]; [|by injection H as <- <-]. apply frame_read_inv in H1 as (Hs & _ & _).
  unfold bind, of_option, lift, ret in H. destruct (assembly_push a f) as [p|e] eqn:Hp.
  - destruct (assembly_push_inv _ _ _ Hp ltac:(lia)) as (Hk & Hq & He & Hl & Hr & Hle & Hdone).
    specialize (Hl ltac:(lia)). pose proof (zlen_nonneg (payload f)).
    apply IH in H; [|lia|lia|intros H2; apply Hdone in H2; lia].
    destruct x as [a'|]; [|done]. destruct H as (? & ? & ? & ? & ?). split_and!; congruence.
  - injection H as <- <-. unfold assembly_push in Hp. intros ->.
    destruct (_ || _) in Hp; [done|]. destruct (checked_add _ _) in Hp; [|done]. by destruct (_ <=? _) in Hp.
Qed.

Lemma receive_sound accept s r x :
  receive_message accept s = (r, x) ->
  match x with
  | Ok (ep, m) => length ep = 16%nat /\ zlen (m_bytes m) <= cap (m_kind m) /\
      exists f rest, frame_read s = (rest, Ok (Some f)) /\ accept f = true /\
        m_kind m = kind f /\ m_sequence m = sequence f /\ ep = epoch f /\ zlen (m_bytes m) = Z.max 0 (total f)
  | Err e => e <> OutOfFuel
  end.
Proof.
  unfold receive_message. intros H. unfold bind at 1 in H. destruct (frame_read s) as [s1 [o|e]] eqn:H1.
  2:{ injection H as <- <-. intros ->. by apply frame_read_fuel in H1. }
  destruct o as [f|]; [|by injection H as <- <-]. pose proof (frame_read_inv _ _ _ H1) as (Hs & Hep & _).
  cbn [of_option] in H. rewrite bind_ret, bind_ensure in H. destruct (accept f) eqn:Hadm; [|by injection H as <- <-].
  rewrite bind_lift in H. unfold assembly_start in H. destruct (Z.eqb_spec (offset f) 0) as [Ho|]; cbn [negb orb] in H;
    [|by injection H as <- <-]. destruct (Z.ltb_spec (cap (kind f)) (total f)) as [|Hcap]; [by injection H as <- <-|].
  rewrite bind_lift in H. destruct (assembly_push _ f) as [p|e] eqn:Hp.
  2:{ injection H as <- <-. unfold assembly_push in Hp. intros ->. destruct (_ || _) in Hp; [done|].
      destruct (checked_add _ _) in Hp; [|done]. by destruct (_ <=? _) in Hp. }
  destruct (assembly_push_inv _ _ _ Hp ltac:(cbn; lia)) as (Hk & Hq & He & Hl & Hr & Hle & Hdone).
  cbn [a_kind a_sequence a_epoch a_bytes received] in *. specialize (Hl ltac:(apply zlen_nonneg)).
  pose proof (zlen_nonneg (payload f)). unfold bind at 1 in H.
  destruct (assemble (length s) p.1 p.2 s1) as [s2 y] eqn:Hasm.
  apply assemble_sound in Hasm; [|lia|lia|intros H2; apply Hdone in H2; lia].
  destruct y as [a'|e]; [|by injection H as <- <-]. destruct Hasm as (Hk' & He' & Hq' & Hl' & Hfin).
  unfold bind, assembly_finish, lift, ret in H. rewrite Hfin, Z.eqb_refl in H. injection H as <- <-.
  cbn [m_bytes m_kind m_sequence]. rewrite Hl', Hl, Hk', Hk.
  assert (forall n, zlen (replicate (Z.to_nat n) 0) = Z.max 0 n) as -> by (intros n; unfold zlen; rewrite length_replicate; lia).
  split_and!; [done| |].
  - unfold cap, CONFIG_BYTES, MESSAGE_BYTES in *. destruct (decide _); lia.
  - exists f, s1. split_and!; [done|done|done|congruence|done|lia].
Qed.

(** ** Theorems *)

(** C27. A message written to a pipe is read back, with its epoch, from any stream
    that carries the bytes written, however reads are cut short and
    interrupted, and nothing behind it is consumed. *)
Theorem transport_roundtrip m ep accept p s r :
  message_ok m ep -> accept (chunk m ep 0) = true -> room p = None -> sent p = [] ->
  carries s (sent (message_write m ep p).1) r ->
  (message_write m ep p).2 = Ok tt /\ receive_message accept s = (r, Ok (ep, m)).
Proof.
  intros Hm Hadm Hroom Hsent. rewrite (message_write_eq m ep p Hm). unfold write_all. rewrite Hroom, Hsent. cbn.
  intros Hs. split; [done|]. by apply (receive_consumes m ep accept Hm Hadm).
Qed.

(** A pipe that breaks before the last byte of a message fails the write, and
    what arrived before it broke is never taken for a message. *)
Theorem torn_message_refused m ep accept n :
  message_ok m ep -> accept (chunk m ep 0) = true -> (n < length (message_bytes m ep))%nat ->
  let '(p, written) := message_write m ep (mkPipe [] (Some n)) in
  is_ok written = false /\ length (sent p) = n /\ is_ok (receive_message accept (map Data (sent p))).2 = false.
Proof.
  intros Hm Hadm Hn. rewrite (message_write_eq m ep _ Hm). unfold write_all. cbn [room sent].
  destruct (Nat.leb_spec (length (message_bytes m ep)) n); [lia|]. cbn [app sent].
  split_and!; [done|rewrite length_take; lia|].
  destruct (receive_message accept (map Data (take n (message_bytes m ep)))) as [r [x|e]] eqn:Hr; [|done]. exfalso.
  apply (receive_stable accept _ (map Data (drop n (message_bytes m ep)))) in Hr.
  rewrite <-map_app, take_drop in Hr.
  rewrite (receive_consumes m ep accept Hm Hadm _ []) in Hr.
  - injection Hr as Hr _. destruct r; [|done]. symmetry in Hr. apply map_eq_nil in Hr.
    apply (f_equal length) in Hr. rewrite length_drop in Hr. change (length []) with 0%nat in Hr. lia.
  - rewrite <-(app_nil_r (map Data _)). apply carries_map.
Qed.

(** Whatever a peer sends, reading one message ends, and a message it yields
    is within the limit of its kind, was opened by an admitted frame, and has
    the kind, sequence, epoch and length which that frame announced. *)
Theorem received_bounded accept s :
  match receive_message accept s with
  | (_, Ok (ep, m)) => length ep = 16%nat /\ zlen (m_bytes m) <= cap (m_kind m) /\
      exists f rest, frame_read s = (rest, Ok (Some f)) /\ accept f = true /\
        m_kind m = kind f /\ m_sequence m = sequence f /\ ep = epoch f /\ zlen (m_bytes m) = Z.max 0 (total f)
  | (_, Err e) => e <> OutOfFuel
  end.
Proof.
  destruct (receive_message accept s) as [r x] eqn:H. by apply receive_sound in H.
Qed.

(** A message behind an interruption and before another byte. *)
Definition demo_message : Message := mkMessage Execute 7 [5; 6; 7].
Definition demo_epoch : list Z := replicate 16 9.
Definition demo_stream : list Item :=
  Interrupted :: map Data (message_bytes demo_message demo_epoch) ++ [Data 1].
Lemma demo_message_ok : message_ok demo_message demo_epoch.
Proof. split; [reflexivity|cbn; unfold u64_max; lia|vm_compute; congruence]. Qed.

Lemma transport_roundtrip_witness :
  receive_message (fun f => bool_decide (kind f = Execute)) demo_stream = ([Data 1], Ok (demo_epoch, demo_message)).
Proof.
  refine (proj2 (transport_roundtrip demo_message demo_epoch _ (mkPipe [] None) demo_stream [Data 1]
    demo_message_ok _ eq_refl eq_refl _)); [reflexivity|].
  rewrite (message_write_eq demo_message demo_epoch _ demo_message_ok). unfold demo_stream. cbn [sent write_all room fst app].
  apply carries_interrupted; [apply carries_map|vm_compute; congruence].
Defined.

Lemma torn_message_refused_witness :
  is_ok (receive_message (fun _ => true) (map Data (take 50 (message_bytes demo_message demo_epoch)))).2 = false.
Proof.
  pose proof (torn_message_refused demo_message demo_epoch (fun _ => true) 50 demo_message_ok eq_refl
    ltac:(apply Nat.ltb_lt; vm_compute; reflexivity)) as H.
  rewrite (message_write_eq demo_message demo_epoch _ demo_message_ok) in H.
  unfold write_all in H. cbn [room sent] in H.
  replace (length (message_bytes demo_message demo_epoch) <=? 50)%nat with false in H by (vm_compute; reflexivity).
  cbn [app sent] in H. exact (proj2 (proj2 H)).
Defined.
