(* ===== verification/FsOps.v ===== *)
(** The requests of the filesystem helper: failures, capabilities, operations and
    the facts of a catalog admission, from src/src/filesystem_worker/wire.rs,
    src/src/catalog_session.rs and src/src/catalog_session/store.rs. *)
From stdpp Require Import base tactics option list numbers strings.
From Stdlib Require Import ZArith Lia.
From S2P Require Import Prelude Bytes FsWire.

Open Scope Z_scope.
Local Open Scope prog_scope.

(** ** Failures *)

(** @source src/src/filesystem_worker/wire.rs:1814-1821 FailureKind *)
Inductive FailureKind : Type := ResourceLimit | Rejected | Canceled | Unknown.
(** The receipt of a failed cache step is not inspected by the process. *)
(** @source src/src/filesystem_worker/wire.rs:1822-1829 Failure *)
Record Failure : Type := mkFailure { failure_kind : FailureKind; message : list Z }.

(** [str::is_char_boundary] on UTF-8 bytes. *)
Definition char_boundary (text : list Z) (i : nat) : bool :=
  match text !! i with
  | None => true
  | Some b => negb ((128 <=? b) && (b <? 192))
  end.
Fixpoint boundary_below (text : list Z) (e : nat) : nat :=
  match e with
  | O => O
  | S e' => if char_boundary text e then e else boundary_below text e'
  end.
(** @source src/src/filesystem_worker/wire.rs:1832-1842 Bounded::write_str *)
Definition bounded_write (out text : list Z) : list Z :=
  out ++ take (boundary_below text (Nat.min (length text) (Z.to_nat ERROR_BYTES - length out))) text.
(** [fragments] are the pieces [Display] hands to the formatter. *)
(** @source src/src/filesystem_worker/wire.rs:1831-1850 Failure::new *)
Definition failure_new (k : FailureKind) (fragments : list (list Z)) : Failure :=
  mkFailure k (fold_left bounded_write fragments []).
Definition failure_says (k : FailureKind) (text : string) : Failure := failure_new k [ascii_bytes text].
(** @source src/src/filesystem_worker/wire.rs:1851-1860 Failure::validate *)
Definition failure_valid (f : Failure) : bool := zlen (message f) <=? ERROR_BYTES.

(** ** Identities *)

(** A [LeaseId] is its canonical UUID text. *)
Abbreviation LeaseId := string (only parsing).

(** @source src/src/catalog_session.rs:29-35 PhysicalObjectId *)
Inductive PhysicalObjectId : Type :=
| Unix (device inode : Z)
| Windows (volume_serial file_index : Z).
#[export] Instance PhysicalObjectId_eq_dec : EqDecision PhysicalObjectId.
Proof. solve_decision. Defined.
(** On a unix host. *)
(** @source src/src/catalog_session.rs:36-50 PhysicalObjectId::validate *)
Definition physical_valid (p : PhysicalObjectId) : result string unit :=
  match p with
  | Unix _ _ => Ok tt
  | Windows _ _ => Err "foreign physical object identity"%string
  end.

(** Native paths, and what the standard library says of them. *)
Class Paths : Type := {
  NativePath : Type;
  path_eq_dec :: EqDecision NativePath;
  validate_path : NativePath -> result string unit;
  is_catalog_of : NativePath -> NativePath -> bool;
  is_manifest : NativePath -> bool;
}.

Section Identities.
Context {PATHS : Paths}.

(** @source src/src/catalog_session.rs:191-200 RootCapability *)
Record RootCapability : Type := mkRoot {
  root_epoch : LeaseId; root_token : LeaseId; root_session : LeaseId; canonical_root : NativePath;
  root_physical : PhysicalObjectId; catalog_physical : PhysicalObjectId }.
#[export] Instance RootCapability_eq_dec : EqDecision RootCapability.
Proof. solve_decision. Defined.

(** @source src/src/catalog_session.rs:129-136 PinnedDatabase *)
Record PinnedDatabase : Type := mkPinned {
  db_path : NativePath; db_physical : PhysicalObjectId; db_created : bool }.
(** @source src/src/catalog_session.rs:138-150 CatalogBootstrap *)
Record CatalogBootstrap : Type := mkBootstrap {
  b_version : Z; b_operation : Z; b_epoch : LeaseId; b_token : LeaseId; b_session : LeaseId;
  b_root : NativePath; b_root_physical : PhysicalObjectId; b_catalog : PinnedDatabase; b_manifest : PinnedDatabase }.

Definition database_valid (db : PinnedDatabase) : result string unit :=
  let? _ := validate_path (db_path db) in physical_valid (db_physical db).
(** @source src/src/catalog_session.rs:152-178 CatalogBootstrap::validate *)
Definition bootstrap_valid (b : CatalogBootstrap) : result string unit :=
  let? _ := rensure (b_version b =? 1) "unsupported catalog admission version"%string in
  let? _ := rensure (0 <? b_operation b) "invalid admission operation"%string in
  let? _ := validate_path (b_root b) in
  let? _ := physical_valid (b_root_physical b) in
  let? _ := database_valid (b_catalog b) in
  let? _ := database_valid (b_manifest b) in
  let? _ := rensure (negb (bool_decide (db_physical (b_catalog b) = db_physical (b_manifest b))))
              "catalog and preview manifest are the same object"%string in
  let? _ := rensure (is_catalog_of (b_root b) (db_path (b_catalog b)))
              "catalog admission path does not match root"%string in
  rensure (is_manifest (db_path (b_manifest b))) "invalid preview manifest admission path"%string.
(** @source src/src/catalog_session.rs:179-188 CatalogBootstrap::root_capability *)
Definition bootstrap_capability (b : CatalogBootstrap) : RootCapability :=
  mkRoot (b_epoch b) (b_token b) (b_session b) (b_root b) (b_root_physical b) (db_physical (b_catalog b)).

(** @source src/src/catalog_session/store.rs:202-208 StatusKind *)
Inductive StatusKind : Type := Locks | Objects.
#[export] Instance StatusKind_eq_dec : EqDecision StatusKind.
Proof. solve_decision. Defined.
(** @source src/src/catalog_session/store.rs:190-201 StatusQuery *)
Record StatusQuery : Type := mkQuery {
  q_kind : StatusKind; q_epoch : LeaseId; q_token : LeaseId; q_session : LeaseId;
  q_root_physical : PhysicalObjectId; q_catalog_physical : PhysicalObjectId;
  q_operation : Z; q_selected : option LeaseId }.
(** @source src/src/catalog_session/store.rs:209-222 StatusQuery::from *)
Definition query_of (k : StatusKind) (root : RootCapability) (operation : Z) : StatusQuery :=
  mkQuery k (root_epoch root) (root_token root) (root_session root) (root_physical root)
    (catalog_physical root) operation None.
(** @source src/src/catalog_session/store.rs:223-235 StatusQuery::validate *)
Definition query_valid (q : StatusQuery) : result string unit :=
  let? _ := rensure (negb (bool_decide (q_kind q = Objects)) || bool_decide (q_selected q = None))
              "object status cannot select a root"%string in
  let? _ := rensure (0 <? q_operation q) "preview status operation sequence is zero"%string in
  let? _ := physical_valid (q_root_physical q) in
  physical_valid (q_catalog_physical q).
End Identities.

(** ** Operations *)

(** The components of the engine that the helper only passes requests to. *)
Inductive Component : Type :=
| CBackup | CExportExecutor | CImport | CRestoreOriginalRoot | CPreviewStore | CPreviewIo | CPreviewStage
| CExportStage | CReadPreviewConfiguration | CLightroomSealedRead | CLightroomArtifactPreparation
| CLightroomWorkbenchIo | CPrepareExportDirectory | CExportDestinationSnapshot | CMigrationIdentity
| CExportAliasFact | CStorage | CInspectExportOriginal | CExportOriginal | CExportPublication
| CMetadataFiles | CExportProfile.

(** Their requests, with the class of the requests that only release ownership,
    and the snapshots with which two of them answer status queries. *)
Class Engine : Type := {
  engine_paths :: Paths;
  Request : Component -> Type;
  cleanup : forall c, Request c -> bool;
  request_root : forall c, Request c -> RootCapability;
  request_operation : forall c, Request c -> Z;
  PrepareRest : Type;
  RoleObservations : Type;
  StoreStatus : Type;
  StoreSnapshot : Type;
  ObjectSnapshot : Type;
  store_status : StoreSnapshot -> StatusQuery -> result string StoreStatus;
  object_status : ObjectSnapshot -> StatusQuery -> result string StoreStatus;
  status_valid : StoreStatus -> StatusQuery -> result string unit;
  Response : Type;
  hash_hex : list Z -> string;
}.

Section Operations.
Context {ENGINE : Engine}.

(** @source src/src/filesystem_worker/wire.rs:133-194 Operation *)
Inductive Operation : Type :=
| Backup (r : Request CBackup)
| ExportExecutor (r : Request CExportExecutor)
| Import (r : Request CImport)
| RestoreOriginalRoot (r : Request CRestoreOriginalRoot)
| PreviewStore (r : Request CPreviewStore)
| PreviewIo (r : Request CPreviewIo)
| PreviewStage (r : Request CPreviewStage)
| ExportStage (r : Request CExportStage)
| ReadPreviewConfiguration (r : Request CReadPreviewConfiguration)
| LightroomSealedRead (r : Request CLightroomSealedRead)
| LightroomArtifactPreparation (r : Request CLightroomArtifactPreparation)
| LightroomWorkbenchIo (r : Request CLightroomWorkbenchIo)
| PrepareExportDirectory (r : Request CPrepareExportDirectory)
| ExportDestinationSnapshot (r : Request CExportDestinationSnapshot)
| MigrationIdentity (r : Request CMigrationIdentity)
| ExportAliasFact (r : Request CExportAliasFact)
| Storage (r : Request CStorage)
| InspectExportOriginal (r : Request CInspectExportOriginal)
| ExportOriginal (r : Request CExportOriginal)
| ExportPublication (r : Request CExportPublication)
| MetadataFiles (r : Request CMetadataFiles)
| ExportProfile (r : Request CExportProfile)
| PrepareCatalog (operation : Z) (session : LeaseId) (rest : PrepareRest)
| ConfirmSqlAdmission (operation : Z) (root : RootCapability) (roles : RoleObservations)
| AbandonPrepare (operation : Z) (session : LeaseId)
| RestoreStatus (root : RootCapability)
| ResumeRestoredJobs (root : RootCapability) (restore_id : string) (acknowledge_pending_jobs : bool)
| RequireJobsReleased (root : RootCapability)
| ReleaseRoot (root : RootCapability)
| GlobalRestoreStatus (root : NativePath)
| GlobalResumeRestoredJobs (root : NativePath) (restore_id : string) (acknowledge_pending_jobs : bool).

(** [cleanup] of the Lightroom requests is their [Discard] actions. *)
(** @source src/src/filesystem_worker/wire.rs:196-221 Operation::is_cleanup *)
Definition is_cleanup (o : Operation) : bool :=
  match o with
  | AbandonPrepare _ _ | ReleaseRoot _ => true
  | LightroomSealedRead r => cleanup _ r
  | LightroomArtifactPreparation r => cleanup _ r
  | Backup r => cleanup _ r
  | LightroomWorkbenchIo r => cleanup _ r
  | ExportExecutor r => cleanup _ r
  | ExportProfile r => cleanup _ r
  | ExportOriginal r => cleanup _ r
  | ExportPublication r => cleanup _ r
  | MetadataFiles r => cleanup _ r
  | PreviewStore r => cleanup _ r
  | PreviewIo r => cleanup _ r
  | PreviewStage r => cleanup _ r
  | ExportStage r => cleanup _ r
  | Import r => cleanup _ r
  | _ => false
  end.

Definition Outcome : Type := result Failure Response.

(** @source src/src/filesystem_worker/wire.rs:1718-1726 AdmissionState *)
Inductive AdmissionState : Type := Preparing | Prepared | Confirmed | Abandoned | AdmissionFailed.
#[export] Instance AdmissionState_eq_dec : EqDecision AdmissionState.
Proof. solve_decision. Defined.
(** @source src/src/filesystem_worker/wire.rs:1727-1738 AdmissionSnapshot *)
Record AdmissionSnapshot : Type := mkAdmission {
  ad_operation : Z; ad_session : LeaseId;
  directory_created : bool; catalog_created : bool; manifest_created : bool;
  ad_bootstrap : option CatalogBootstrap; ad_state : AdmissionState; ad_failure : option Failure }.

(** @source src/src/filesystem_worker/wire.rs:1870-1879 Phase *)
Inductive Phase : Type := Starting | ReadyPhase | Stopping | DrainFailed | Stopped | UnknownPhase.
#[export] Instance Phase_eq_dec : EqDecision Phase.
Proof. solve_decision. Defined.
(** @source src/src/filesystem_worker/wire.rs:1880-1886 ResultInfo *)
Record ResultInfo : Type := mkInfo { r_sequence : Z; r_bytes : Z; r_blake3 : string }.
(** @source src/src/filesystem_worker/wire.rs:1887-1898 Status *)
Record StatusReport : Type := mkReport {
  report_phase : Phase; shutdown_attempt : Z; report_active : option Z; report_queued : option Z;
  report_retained : option ResultInfo; report_canceled : option Z; report_error : option Failure }.
(** @source src/src/filesystem_worker/wire.rs:1899-1914 Control *)
Inductive ControlMessage : Type :=
| CStatus (s : StatusReport)
| CAdmission (a : option AdmissionSnapshot)
| CStore (s : result Failure StoreStatus)
| CRejected (f : Failure).

(** The texts of messages; JSON is written and read by serde. *)
Class HelperCodec : Type := {
  decode_operation : list Z -> result string Operation;
  validate_operation : Operation -> result string unit;
  decode_ack : list Z -> result string (Z * string);
  decode_query : list Z -> result string StatusQuery;
  decode_admission_query : list Z -> result string (Z * LeaseId);
  encode_outcome : Outcome -> result string (list Z);
  encode_control : ControlMessage -> result string (list Z);
}.
Context {CODEC : HelperCodec}.

(** @source src/src/filesystem_worker/wire.rs:1740-1767 AdmissionSnapshot::validate *)
Definition admission_valid (a : AdmissionSnapshot) : result string unit :=
  let? _ := rensure (0 <? ad_operation a) "invalid admission snapshot operation"%string in
  let? _ := match ad_bootstrap a with
            | None => Ok tt
            | Some b =>
                let? _ := bootstrap_valid b in
                let? _ := rensure ((b_operation b =? ad_operation a) && bool_decide (b_session b = ad_session a))
                            "admission snapshot identity mismatch"%string in
                rensure (eqb (db_created (b_catalog b)) (catalog_created a) &&
                         eqb (db_created (b_manifest b)) (manifest_created a))
                  "admission creation facts disagree with bootstrap"%string
            end in
  let? _ := rensure (negb (match ad_state a with Prepared | Confirmed => true | _ => false end) ||
                     bool_decide (is_Some (ad_bootstrap a)))
              "prepared admission has no bootstrap authority"%string in
  let? _ := match ad_failure a with
            | Some e => rensure (failure_valid e) "filesystem error byte limit"%string
            | None => Ok tt
            end in
  let? b := encode_control (CAdmission (Some a)) in
  rensure (zlen b <=? MESSAGE_BYTES) "filesystem encoded byte limit"%string.
End Operations.
