(* ===== verification/ReadErrors.v ===== *)
(** The errors of cache reads and how a transport retains them:
    src/src/preview/transport_task.rs.

    An error is a chain of causes; its owner only asks which causes are in it
    ([downcast_ref]) and for its text. *)
From stdpp Require Import base tactics option list numbers strings.
From Stdlib Require Import ZArith Lia.
From S2P Require Import Prelude Bytes FsOps.

Open Scope Z_scope.

(** @source src/src/media/full.rs:68-74 DecodeStatus *)
Inductive DecodeStatus : Type := Unsupported | Corrupt | DecodeLimit | DecodeIo.
(** @source src/src/catalog_session/preview_io.rs:212-218 FailureReceipt *)
Record FailureReceipt : Type := mkReceipt { fr_operation : Z; fr_step : Z; fr_digest : list Z }.

(** The causes an error has, and its text; [e_io] is the kind of the first I/O error. *)
Record Error : Type := mkError {
  e_failure : option (FailureKind * option FailureReceipt);
  e_worker : option (option DecodeStatus);
  e_decode : option DecodeStatus;
  e_quota : bool; e_encoded : bool; e_decoded : bool; e_resource : bool;
  e_io : option Z; e_busy : bool; e_text : list Z }.
Definition plain (text : list Z) : Error := mkError None None None false false false false None false text.
Definition says (m : string) : Error := plain (ascii_bytes m).
(** [error.context(c)]: another cause, shown in front. *)
Definition shown_in_front (c text : list Z) : list Z := c ++ ascii_bytes ": " ++ text.

(** @source src/src/preview/transport_task.rs:12-26 RetainedErrorKind *)
Inductive RetainedErrorKind : Type :=
| KFailure (k : FailureKind) (receipt : option FailureReceipt)
| KWorker (status : option DecodeStatus)
| KDecode (status : DecodeStatus)
| KCacheQuota | KEncodedBudget | KDecodedBudget | KStoreResource
| KIo (kind : Z)
| KBusy | KOther.
Definition is_encoded (k : RetainedErrorKind) : bool := match k with KEncodedBudget => true | _ => false end.
Definition is_busy (k : RetainedErrorKind) : bool := match k with KBusy => true | _ => false end.
(** @source src/src/preview/transport_task.rs:28-33 RetainedError *)
Record RetainedError : Type := mkRetainedError {
  kind : RetainedErrorKind; encoded_budget : bool; busy : bool; retained_text : list Z }.
(** @source src/src/preview/transport_task.rs:40-73 RetainedError::new *)
Definition kind_of (e : Error) : RetainedErrorKind :=
  match e_failure e with
  | Some (k, receipt) => KFailure k receipt
  | None =>
  match e_worker e with
  | Some status => KWorker status
  | None =>
  match e_decode e with
  | Some status => KDecode status
  | None =>
  if e_quota e then KCacheQuota
  else if e_encoded e then KEncodedBudget
  else if e_decoded e then KDecodedBudget
  else if e_resource e then KStoreResource
  else match e_io e with
       | Some k => KIo k
       | None => if e_busy e then KBusy else KOther
       end end end end.
(** @source src/src/preview/transport_task.rs:35-85 RetainedError::new *)
Definition retained_error (e : Error) : RetainedError :=
  mkRetainedError (kind_of e) (e_encoded e) (e_busy e) (message (failure_new Unknown [e_text e])).

Definition quota_text : string := "bounded retained transport failure".
Definition encoded_text : string :=
  "encoded staging allowance is retained or too small; release held exports or increase staging admission".
Definition decoded_text : string :=
  "decoded allowance retained by visible consumers; release an old page before decoding".
(** The error of one kind with the retained text. *)
(** @source src/src/preview/transport_task.rs:88-126 RetainedError::into_error *)
Definition error_of_kind (k : RetainedErrorKind) (text : list Z) : Error :=
  match k with
  | KFailure k receipt => mkError (Some (k, receipt)) None None false false false false None false text
  | KWorker status => mkError None (Some status) None false false false false None false text
  | KDecode status => mkError None None (Some status) false false false false None false text
  | KCacheQuota => mkError None None None true false false false None false (shown_in_front text (ascii_bytes quota_text))
  | KEncodedBudget => mkError None None None false true false false None false (shown_in_front text (ascii_bytes encoded_text))
  | KDecodedBudget => mkError None None None false false true false None false (shown_in_front text (ascii_bytes decoded_text))
  | KStoreResource => mkError None None None false false false true None false (shown_in_front text (ascii_bytes quota_text))
  | KIo kind => mkError None None None false false false false (Some kind) false text
  | KBusy => mkError None None None false false false false None true (shown_in_front text (ascii_bytes quota_text))
  | KOther => plain text
  end.
Definition with_encoded (e : Error) : Error :=
  mkError (e_failure e) (e_worker e) (e_decode e) (e_quota e) true (e_decoded e) (e_resource e) (e_io e) (e_busy e)
    (shown_in_front (ascii_bytes encoded_text) (e_text e)).
Definition with_busy (e : Error) : Error :=
  mkError (e_failure e) (e_worker e) (e_decode e) (e_quota e) (e_encoded e) (e_decoded e) (e_resource e) (e_io e) true
    (shown_in_front (ascii_bytes quota_text) (e_text e)).
(** @source src/src/preview/transport_task.rs:87-134 RetainedError::into_error *)
Definition into_error (r : RetainedError) : Error :=
  let e := error_of_kind (kind r) (retained_text r) in
  let e := if encoded_budget r && negb (is_encoded (kind r)) then with_encoded e else e in
  if busy r && negb (is_busy (kind r)) then with_busy e else e.

(** ** What survives retention *)

(** The cause an owner decides by first, and the two that are flags of their own,
    are those of the error that was retained. *)
Lemma retained_causes e :
  e_failure (into_error (retained_error e)) = e_failure e /\
  (e_failure e = None -> e_worker (into_error (retained_error e)) = e_worker e) /\
  (e_failure e = None -> e_worker e = None -> e_decode (into_error (retained_error e)) = e_decode e) /\
  e_encoded (into_error (retained_error e)) = e_encoded e /\ e_busy (into_error (retained_error e)) = e_busy e.
Proof.
  destruct e as [[[k receipt]|] [status|] [decode|] [] [] [] [] [io|] [] text]; simpl; split_and!; done.
Qed.
(** Retention invents no cause. *)
Lemma retained_invents e :
  let e' := into_error (retained_error e) in
  (is_Some (e_worker e') -> e_worker e' = e_worker e) /\ (is_Some (e_decode e') -> e_decode e' = e_decode e) /\
  (e_quota e' = true -> e_quota e = true) /\ (e_decoded e' = true -> e_decoded e = true) /\
  (e_resource e' = true -> e_resource e = true) /\ (is_Some (e_io e') -> e_io e' = e_io e).
Proof.
  destruct e as [[[k receipt]|] [status|] [decode|] [] [] [] [] [io|] [] text]; simpl; split_and!; try done; by intros [].
Qed.
