(* ===== verification/PreviewSelection.v ===== *)
(** What a cached preview is: the keys of previews (src/src/preview/store.rs,
    src/src/preview/service.rs), the identity of the pixels they show, the selection
    of a cached object for a managed read and its conclusion, and the costs of
    decoding one (src/src/catalog_session/native.rs).

    The manifest of the store is a database of its own: its queries and statements
    are answered by [Outside].  Identities come from the catalog of [CatalogEdits]. *)
From stdpp Require Import base tactics option list numbers gmap strings fin_maps pretty.
From Stdlib Require Import ZArith Lia.
From S2P Require Import Prelude Bytes Utf8 DecodedCache FsOps ReadErrors.
From S2P Require CatalogEdits Scheduler.

Open Scope Z_scope.
Local Open Scope prog_scope.

Abbreviation VariantKey := CatalogEdits.VariantKey.
Abbreviation EditRenderIdentity := CatalogEdits.EditRenderIdentity.
Abbreviation RenderIdentity := CatalogEdits.RenderIdentity.
Abbreviation Priority := Scheduler.Priority.

(** ** Data *)

(** @source src/src/preview/store.rs:24-29 Tier *)
Inductive Tier : Type := Thumbnail | Large.
#[export] Instance Tier_eq_dec : EqDecision Tier.
Proof. solve_decision. Defined.
#[export] Instance Codec_eq_dec : EqDecision Codec.
Proof. solve_decision. Defined.
(** @source src/src/preview/store.rs:30-37 Tier::name *)
Definition tier_name (t : Tier) : string := match t with Thumbnail => "thumbnail" | Large => "large" end.
(** @source src/src/preview/codec.rs:30-34 CodecSettings *)
Record CodecSettings : Type := mkSettings { codec : Codec; quality : Z }.
#[export] Instance CodecSettings_eq_dec : EqDecision CodecSettings.
Proof. solve_decision. Defined.
(** @source src/src/preview/service.rs:27-31 TierPolicy *)
Record TierPolicy : Type := mkTierPolicy { p_edge : Z; p_encoding : CodecSettings }.
(** @source src/src/preview/service.rs:32-36 PreviewPolicy *)
Record PreviewPolicy : Type := mkPolicy { p_thumbnail : TierPolicy; p_large : TierPolicy }.
(** @source src/src/preview/store.rs:38-54 PreviewKey *)
Record PreviewKey : Type := mkPreviewKey {
  k_asset : string; k_variant : string; k_generation : Z; k_pixel_generation : option Z;
  k_fingerprint : string; k_revision : Z; k_renderer : string; k_preparation : string;
  k_tier : Tier; k_edge : Z; k_encoding : CodecSettings }.
#[export] Instance PreviewKey_eq_dec : EqDecision PreviewKey.
Proof. solve_decision. Defined.
(** The dimensions and, as they were written, the other fields. *)
(** @source src/src/preview/store.rs:126-134 RenderRecord *)
Record RenderRecord : Type := mkRecord { rec_width : Z; rec_height : Z; rec_rest : string }.
(** @source src/src/catalog_session/preview_io.rs:238-244 Integrity *)
Inductive Integrity : Type := Intact | Missing | Corrupt.
#[export] Instance Integrity_eq_dec : EqDecision Integrity.
Proof. solve_decision. Defined.

(** A column of a row. *)
Inductive Cell : Type := CNull | CInteger (z : Z) | CReal | CText (s : string) | CBlob.
Record ObjectRow : Type := mkObjectRow {
  o_key : Cell; o_descriptor : Cell; o_bytes : Cell; o_checksum : Cell }.

(** Hashes and the generated parsers: [blake3], [serde_json]. *)
Class PreviewFormats : Type := {
  original_renderer : string;
  edited_hash : string;
  key_hash : PreviewKey -> result Error string;
  text_hash : string -> string;
  parse_key : string -> result Error PreviewKey;
  parse_record : string -> result Error RenderRecord;
  record_encodes : RenderRecord -> result Error unit;
}.

(** The polled threads: a task still runs, has ended with a result, or panicked. *)
Inductive Answer (T : Type) : Type := Running | Finished (r : result Error T) | TaskPanicked.
Arguments Running {T}. Arguments Finished {T}. Arguments TaskPanicked {T}.

(** The facts of a decoded header. *)
(** @source src/src/catalog_session/native.rs:165-175 Header *)
Record Header : Type := mkHeader {
  h_operation : Z; h_stage : string; h_digest : string; h_input_bytes : Z;
  h_codec : Codec; h_width : Z; h_height : Z }.
(** @source src/src/preview/worker/read_transport.rs:14-18 Event *)
Inductive Event : Type := EHeader (h : Header) | EPixels (p : PreparedRgb) | EDrained.
(** The threads a read starts. *)
Inductive Launch : Type := LTransfer | LLegacy | LHeader | LRearm | LFinish | LStop.

(** What the rest of the system answers during one call: the tables of the catalog,
    the statements of the manifest, the creation of threads and the tasks polled (the
    bytes of a transfer with the spare capacity of their vector). *)
Record Outside : Type := mkOutside {
  catalog : CatalogEdits.Db;
  catalog_error : CatalogEdits.EditError -> Error;
  preview_hash : string -> result Error (option Cell);
  object_row : string -> string -> string -> string -> result Error (option ObjectRow);
  record_row : string -> result Error (option Cell);
  cache_object : string -> Tier -> result Error unit;
  orphan : string -> result Error unit;
  write_touches : gmap string Z -> result Error unit;
  task_lane : result Error unit;
  spawn : Launch -> result Error unit;
  encoded_answer : Answer (Integrity * list Z * nat);
  event_answer : Answer Event;
  encoded_joined : result Error unit;
  event_joined : result Error unit;
  job_drained : result Error unit;
}.

Definition try_from_i64 (z : Z) : result Error Z :=
  if 0 <=? z then Ok z else Err (says "out of range integral type conversion attempted").
Definition resource_error (m : string) : Error :=
  mkError None None None false false false true None false (ascii_bytes m).
Definition context (c : list Z) (e : Error) : Error :=
  mkError (e_failure e) (e_worker e) (e_decode e) (e_quota e) (e_encoded e) (e_decoded e) (e_resource e)
    (e_io e) (e_busy e) (shown_in_front c (e_text e)).
Definition encoded_exceeded : Error :=
  mkError None None None false true false false None false (ascii_bytes encoded_text).
Definition text_len (s : string) : Z := Z.of_nat (String.length s).
Definition hex64 (s : string) : bool :=
  (text_len s =? 64) && forallb Scheduler.is_hexdigit (String.list_ascii_of_string s).
(** [str::ends_with]. *)
Definition ends_with (suffix s : string) : bool :=
  let n := (String.length s - String.length suffix)%nat in
  (String.length suffix <=? String.length s)%nat &&
  String.eqb (String.substring n (String.length suffix) s) suffix.

#[local] Existing Instance CatalogEdits.VariantKey_eq_dec.

Section Selection.
Context {CODEC : CatalogEdits.EditCodec} {FORMATS : PreviewFormats}.

(** ** Keys *)

(** @source src/src/preview/codec.rs:10-10 PREPARATION_VERSION *)
Definition PREPARATION_VERSION : string := "photocatalog-preview-srgb8-white-quantize-resize-1".
(** @source src/src/preview/store.rs:56-62 PreviewKey::channel *)
Definition channel (k : PreviewKey) : string :=
  if ends_with ":proxy1600" (k_renderer k) then "interactive" else "refined".
(** @source src/src/preview/store.rs:63-88 PreviewKey::validate *)
Definition validate (k : PreviewKey) : result Error unit :=
  let? _ := rensure (negb (text_len (k_asset k) =? 0) && (text_len (k_asset k) <=? 256) && (text_len (k_variant k) <=? 256))
    (says "invalid stable identity") in
  let? _ := rensure ((k_generation k <=? i64_max) && (k_revision k <=? i64_max)
      && match k_pixel_generation k with Some v => v <=? i64_max | None => true end) (says "revision overflow") in
  let? _ := rensure (hex64 (k_fingerprint k)) (says "invalid source fingerprint") in
  let? _ := rensure (negb (text_len (k_renderer k) =? 0) && (text_len (k_renderer k) <=? 128)
      && String.eqb (k_preparation k) PREPARATION_VERSION) (says "render/preparation identity mismatch") in
  let? _ := rensure ((1 <=? k_edge k) && (k_edge k <=? 8192)) (says "preview edge limit") in
  rensure ((1 <=? quality (k_encoding k)) && (quality (k_encoding k) <=? 100)) (says "quality outside 1..100").
(** @source src/src/preview/store.rs:89-94 PreviewKey::digest *)
Definition digest (k : PreviewKey) : result Error string :=
  let? _ := validate k in key_hash k.

(** @source src/src/preview/worker.rs:41-51 edited_renderer *)
Definition edited_renderer (interactive : bool) : string :=
  "photocatalog-edit-preview-1:" +:+ edited_hash +:+ ":" +:+ (if interactive then "proxy1600" else "original").
(** @source src/src/preview/service.rs:714-741 PreviewService::key *)
Definition preview_key (policy : PreviewPolicy) (i : RenderIdentity) (t : Tier) (fingerprint : string)
    : result Error PreviewKey :=
  let p := match t with Thumbnail => p_thumbnail policy | Large => p_large policy end in
  let? generation := try_from_i64 (CatalogEdits.r_generation i) in
  let k := mkPreviewKey (CatalogEdits.r_asset i) "master" generation None fingerprint 0
             original_renderer PREPARATION_VERSION t (p_edge p) (p_encoding p) in
  let? _ := validate k in Ok k.
Definition zeros : string := String.concat "" (repeat "0" 64).
(** @source src/src/preview/service.rs:742-764 PreviewService::variant_key *)
Definition variant_key (policy : PreviewPolicy) (i : EditRenderIdentity) (t : Tier) : result Error PreviewKey :=
  let source := CatalogEdits.e_source i in
  let? k := preview_key policy source t (default zeros (CatalogEdits.r_fingerprint source)) in
  let? pixels := match CatalogEdits.e_image i with
                 | Some image => let? v := try_from_i64 (CatalogEdits.i_pixel_generation image) in Ok (Some v)
                 | None => Ok None
                 end in
  let? revision := try_from_i64 (CatalogEdits.e_revision i) in
  let variant := CatalogEdits.variant_id (CatalogEdits.e_key i) in
  let edited := negb (String.eqb variant CatalogEdits.MASTER) || negb (CatalogEdits.e_revision i =? 0) in
  let k := mkPreviewKey (k_asset k) variant (k_generation k) pixels (k_fingerprint k) revision
             (if edited then edited_renderer false else k_renderer k) (k_preparation k) (k_tier k) (k_edge k)
             (k_encoding k) in
  let? _ := validate k in Ok k.
(** @source src/src/preview/prepared_cache.rs:18-18 PROXY_EDGE *)
Definition PROXY_EDGE : Z := 1600.
(** @source src/src/preview/service.rs:782-790 PreviewService::interactive_key *)
Definition interactive_key (policy : PreviewPolicy) (i : EditRenderIdentity) (t : Tier) : result Error PreviewKey :=
  let? k := variant_key policy i t in
  let? _ := rensure (k_edge k <=? PROXY_EDGE) (says "interactive preview exceeds1600 source proxy") in
  Ok (mkPreviewKey (k_asset k) (k_variant k) (k_generation k) (k_pixel_generation k) (k_fingerprint k) (k_revision k)
        (edited_renderer true) (k_preparation k) (k_tier k) (k_edge k) (k_encoding k)).
(** The key a read of this kind wants. *)
(** @source src/src/preview/managed_reads.rs:79-83 PreviewService::begin_managed_read *)
Definition wanted_key (policy : PreviewPolicy) (interactive : bool) (i : EditRenderIdentity) (t : Tier) :=
  if interactive then interactive_key policy i t else variant_key policy i t.

(** ** Identities *)

(** @source src/src/preview/service.rs:298-303 same_pixels *)
Definition same_pixels (a b : RenderIdentity) : bool :=
  String.eqb (CatalogEdits.r_asset a) (CatalogEdits.r_asset b)
  && (CatalogEdits.r_generation a =? CatalogEdits.r_generation b)
  && bool_decide (CatalogEdits.r_fingerprint a = CatalogEdits.r_fingerprint b)
  && String.eqb (CatalogEdits.r_state a) (CatalogEdits.r_state b).
(** @source src/src/preview/service.rs:304-320 same_edit *)
Definition same_edit (a b : EditRenderIdentity) : bool :=
  same_pixels (CatalogEdits.e_source a) (CatalogEdits.e_source b)
  && match CatalogEdits.e_image a, CatalogEdits.e_image b with
     | Some x, Some y =>
         String.eqb (CatalogEdits.i_image x) (CatalogEdits.i_image y)
         && bool_decide (CatalogEdits.i_key x = CatalogEdits.i_key y)
         && (CatalogEdits.i_pixel_generation x =? CatalogEdits.i_pixel_generation y)
         && (CatalogEdits.i_shared_epoch x =? CatalogEdits.i_shared_epoch y)
         && (CatalogEdits.i_physical_generation x =? CatalogEdits.i_physical_generation y)
     | None, None => true
     | _, _ => false
     end
  && bool_decide (CatalogEdits.e_key a = CatalogEdits.e_key b)
  && (CatalogEdits.e_revision a =? CatalogEdits.e_revision b)
  && String.eqb (CatalogEdits.e_digest a) (CatalogEdits.e_digest b).
(** @source src/src/preview/service.rs:323-333 legacy_pixel_eligible *)
Definition legacy_pixel_eligible (i : EditRenderIdentity) (legacy : RenderIdentity) : bool :=
  match CatalogEdits.e_image i with Some image => CatalogEdits.i_pixel_generation image =? 0 | None => false end
  && (CatalogEdits.r_generation (CatalogEdits.e_source i) =? CatalogEdits.r_generation legacy).

Definition of_catalog {A} (o : Outside) (r : result CatalogEdits.EditError A) : result Error A :=
  match r with Ok a => Ok a | Err e => Err (catalog_error o e) end.
Definition edit_identity (o : Outside) (k : VariantKey) : result Error EditRenderIdentity :=
  of_catalog o (CatalogEdits.edit_render_identity k (catalog o)).2.
(** @source src/src/catalog_metadata.rs:1338-1351 Catalog::render_identity *)
Definition render_identity (o : Outside) (asset : string) : result Error RenderIdentity :=
  of_catalog o (
    let db := catalog o in
    match CatalogEdits.assets db !! asset with
    | None => Err CatalogEdits.no_rows
    | Some a =>
        let? fingerprint := CatalogEdits.optional_text 64 (CatalogEdits.a_fingerprint a) in
        let? state := CatalogEdits.owned_text 7 (CatalogEdits.a_state a) in
        Ok (CatalogEdits.mkRender asset (CatalogEdits.a_render_generation a) fingerprint state
              (default 0 (CatalogEdits.metadata_revisions db !! asset)))
    end).

(** ** Selecting a cached object *)

(** @source src/src/preview/store_custody.rs:321-332 object_text *)
Definition object_text (c : Cell) : result Error string :=
  match c with
  | CText s =>
      let? _ := rensure (text_len s <=? 1024 * 1024) (resource_error
        "Saved cache object metadata exceeds the 1 MiB admission; no value was materialized or filesystem effect performed") in
      let? _ := rensure (utf8_valid (CatalogEdits.utf8 s)) (says "invalid utf-8 sequence") in
      Ok s
  | _ => Err (says "cache object metadata is not TEXT")
  end.
(** @source src/src/preview/store.rs:1679-1688 unsigned *)
Definition unsigned (c : Cell) : result Error Z :=
  match c with
  | CInteger z => try_from_i64 z
  | _ => Err (says "Invalid column type")
  end.
(** @source src/src/catalog_session/preview_io.rs:21-27 hex *)
Definition hex (s : string) : result Error unit := rensure (hex64 s) (says "invalid cache object digest").

(** @source src/src/preview/store.rs:135-143 RenderRecord::encoded *)
Definition record_encoded (r : RenderRecord) (k : PreviewKey) : result Error unit :=
  let? _ := rensure ((0 <? rec_width r) && (0 <? rec_height r) && (rec_width r <=? k_edge k) && (rec_height r <=? k_edge k))
    (says "render record dimensions exceed tier") in
  record_encodes r.
(** With managed files. *)
(** @source src/src/preview/store.rs:1296-1318 PreviewStore::render_record *)
Definition render_record (o : Outside) (k : PreviewKey) : result Error (option RenderRecord) :=
  let? d := digest k in
  let? row := record_row o d in
  match row with
  | None => Ok None
  | Some c =>
      let? value := object_text c in
      let? _ := rensure (text_len value <=? 64 * 1024) (says "render record size limit") in
      let? r := parse_record value in
      let? _ := record_encoded r k in
      Ok (Some r)
  end.

(** The cached preview; its bytes are read later. *)
(** @source src/src/preview/store.rs:173-184 CachedPreview, ManagedSelection *)
Record Selection : Type := mkSelection { s_key : PreviewKey; s_stale : bool; s_record : option RenderRecord }.
(** @source src/src/preview/store.rs:1481-1551 PreviewStore::select_managed_read *)
Definition select_managed_read (o : Outside) (expected : PreviewKey) (allow_stale : bool) (max_bytes : Z)
    : result Error (option Selection) :=
  let? _ := validate expected in
  let? row := object_row o (k_asset expected) (k_variant expected) (tier_name (k_tier expected)) (channel expected) in
  match row with
  | None => Ok None
  | Some row =>
      let? d := object_text (o_key row) in
      let? descriptor := object_text (o_descriptor row) in
      let? checksum := object_text (o_checksum row) in
      let? _ := hex d in
      let? _ := hex checksum in
      let? k := parse_key descriptor in
      let? len := unsigned (o_bytes row) in
      let stale := negb (bool_decide (k = expected)) in
      if stale && negb (allow_stale && bool_decide (k_tier expected = Thumbnail)) then Ok None else
      let? kd := digest k in
      let? _ := rensure (String.eqb kd d && String.eqb (k_asset k) (k_asset expected)
          && String.eqb (k_variant k) (k_variant expected) && String.eqb (channel k) (channel expected)
          && bool_decide (k_tier k = k_tier expected)) (says "manifest descriptor identity mismatch") in
      if 256 * 1024 * 1024 <? len then
        let? _ := orphan o d in Err (says "cached preview length mismatch; entry invalidated")
      else if max_bytes <? len then
        Err (context (ascii_bytes ("selected cache requires " +:+ pretty len +:+ " encoded bytes; admitted " +:+ pretty max_bytes)) encoded_exceeded)
      else
        let? r := render_record o k in
        let? _ := cache_object o d (k_tier k) in
        Ok (Some (mkSelection k stale r))
  end.

(** @source src/src/preview/managed_reads.rs:50-67 legacy_reference *)
Definition legacy_reference (o : Outside) (asset : string) : result Error (option string) :=
  let? row := preview_hash o asset in
  match row with
  | None => Err (says "legacy asset missing")
  | Some CNull => Ok None
  | Some (CText s) => let? _ := rensure (hex64 s) (says "invalid legacy preview reference") in Ok (Some s)
  | Some _ => Err (says "invalid legacy preview reference storage class")
  end.
Definition legacy_cache_key (hash : string) : string := text_hash ("legacy:" +:+ hash).

(** ** What a decode costs *)

Definition native_result {A} (r : result string A) : result Error A :=
  match r with Ok a => Ok a | Err m => Err (says m) end.
Definition some_or {A} (x : option A) (m : string) : result Error A :=
  match x with Some a => Ok a | None => Err (says m) end.
(** @source src/src/catalog_session/native.rs:114-123 plane_bytes *)
Definition plane_bytes (c : Codec) (w h : Z) : result Error Z :=
  let? rgb := native_result (rgb_bytes w h) in
  let pixels := rgb / 3 in
  some_or (match checked_mul pixels 8 with
           | Some v => checked_add v (if bool_decide (c = Avif) then 2 * rgb else rgb)
           | None => None
           end) "native plane overflow".
(** @source src/src/catalog_session/native.rs:124-129 header_cost *)
Definition header_cost (encoded scratch : Z) : result Error Z :=
  let? _ := rensure (0 <? scratch) (says "zero header scratch admission") in
  some_or (checked_add encoded scratch) "native header cost overflow".
(** @source src/src/catalog_session/native.rs:130-144 decode_cost *)
Definition decode_cost (c : Codec) (w h encoded header_scratch codec_scratch : Z) : result Error Z :=
  let? _ := rensure (0 <? codec_scratch) (says "zero codec scratch admission") in
  let? planes := plane_bytes c w h in
  let? decode := some_or (match checked_add encoded planes with
                          | Some v => checked_add v codec_scratch
                          | None => None
                          end) "native decode cost overflow" in
  let? header := header_cost encoded header_scratch in
  Ok (Z.max header decode).
End Selection.
