(* ===== verification/ManagedReads.v ===== *)
(** Cached preview reads: src/src/preview/managed_reads.rs and
    src/src/preview/read_queue.rs, over the polled transport of
    src/src/preview/worker/read_transport.rs and src/src/preview/transport_task.rs.

    A read borrows from four parts of the service: a slot and a lease of the native
    scheduler ([Scheduler]), a reservation of the staging budget ([ByteBudget]), a
    reservation and a page of the decoded cache ([DecodedCache]), and the identity
    of the pixels from the catalog ([PreviewSelection]).  The threads that move
    bytes are polled: each call takes their answers from [Outside]. *)
From stdpp Require Import base tactics option list numbers gmap strings fin_maps pretty.
From Stdlib Require Import ZArith Lia.
From S2P Require Import Prelude Bytes FsOps ReadErrors PreviewSelection.
From S2P Require CatalogEdits ByteBudget DecodedCache Scheduler.

Open Scope Z_scope.
Local Open Scope prog_scope.

Abbreviation Heap := ByteBudget.Heap.
Abbreviation PoolId := Z (only parsing).
Abbreviation TokenId := Z (only parsing).
Abbreviation ObjId := Z (only parsing).
Abbreviation DecodedCache := DecodedCache.DecodedCache.
Abbreviation PreviewScheduler := Scheduler.PreviewScheduler.
Abbreviation NativeReadRequest := Scheduler.NativeReadRequest.
Abbreviation Codec := DecodedCache.Codec.

(** ** Data *)

(** An ordinary error of a call, or a panic. *)
Inductive Fault : Type := Fails (e : Error) | Panics (m : string).

(** A [Task]: none, one whose result is not taken yet, or one that was joined. *)
(** @source src/src/preview/transport_task.rs:137-140 Task *)
Inductive Slot : Type := NoTask | Live | Consumed.

(** The limits reads look at. *)
(** @source src/src/preview/service.rs:55-77 ServiceLimits *)
Record ServiceLimits : Type := mkServiceLimits {
  requests : Z; cache_header_scratch_bytes : Z; cache_codec_scratch_bytes : Z; encoded_staging_bytes : Z }.

(** @source src/src/preview/service.rs:180-186 PreviewView *)
Record PreviewView : Type := mkView {
  v_key : option PreviewKey; v_legacy_hash : option string; v_record : option RenderRecord;
  v_pixels : ObjId; v_stale : bool }.

(** What a read reads: the fields that select its bytes. *)
(** @source src/src/preview/managed_reads.rs:10-27 ManagedRead *)
Record ReadTarget : Type := mkTarget {
  t_key : option PreviewKey; t_legacy_hash : option string; t_record : option RenderRecord;
  t_stale : bool; t_cache_key : string; t_codec : Codec }.
(** [m_task] and [m_transport] are the tasks of [encoded_task] and [transport];
    the shared [cancel] flag is only ever raised, by the owner.  The transport's
    own copy of the stage is behind its thread. *)
(** @source src/src/preview/managed_reads.rs:10-42 ManagedRead *)
Record ManagedRead : Type := mkManaged {
  m_identity : EditRenderIdentity; m_tier : Tier; m_allow_stale : bool; m_target : ReadTarget;
  m_expected : option (Z * Z); m_encoded : list Z; m_capacity : Z; m_task : Slot;
  m_guard : TokenId; m_allowance : Z; m_preempting : bool; m_cost : option Z;
  m_request : option NativeReadRequest; m_lease : option Z; m_transport : Slot;
  m_rgb : option TokenId; m_header : option Header; m_requeue : option (Z * (Z * Z));
  m_launched : bool; m_cleanup : bool; m_cancel : bool; m_failure : option RetainedError }.

(** The times of a read are not kept. *)
(** @source src/src/preview/read_queue.rs:27-38 PendingRead *)
Record PendingRead : Type := mkPending {
  p_expected : EditRenderIdentity; p_native : option NativeReadRequest; p_interactive : bool; p_tier : Tier;
  p_allow_stale : bool; p_priority : Priority }.
(** @source src/src/preview/read_queue.rs:12-20 ReadOutcome *)
Inductive ReadOutcome : Type :=
| Ready (view : PreviewView) | NotCached | Stale | FailedRead (resource_limit : bool) (message : list Z).
Abbreviation ReadTicket := Z (only parsing).
(** The tuple of [ReadQueue::active]. *)
Record Active : Type := mkActive {
  a_ticket : ReadTicket; a_pending : PendingRead; a_read : ManagedRead; a_abandoned : bool }.
(** @source src/src/preview/read_queue.rs:40-50 ReadQueue *)
Record ReadQueue : Type := mkQueue {
  next_ticket : Z; active : option Active; pending : gmap ReadTicket PendingRead;
  completed : gmap ReadTicket ReadOutcome }.
(** @source src/src/preview/managed_reads.rs:6-9 Begin *)
Inductive Begin : Type := BReady (view : option PreviewView) | BPending (read : ManagedRead).

(** The parts of the service that reads touch, and the renders asked for: the job of
    each of their consumers. *)
(** @source src/src/preview/service.rs:274-297 PreviewService *)
Record PreviewService (H : Type) : Type := mkService {
  policy : PreviewPolicy; limits : ServiceLimits; scheduler : PreviewScheduler;
  decoded : DecodedCache H; encoded : Heap; encoded_pool : PoolId; touches : gmap string Z;
  store_clock : Z; launch_pauses : Z; external_native : bool; delivery_io : bool;
  delivery_pending : bool; consumers : gmap Z string; reads : ReadQueue }.
Arguments mkService {H}.
Arguments policy {H}.
Arguments limits {H}.
Arguments scheduler {H}.
Arguments decoded {H}.
Arguments encoded {H}.
Arguments encoded_pool {H}.
Arguments touches {H}.
Arguments store_clock {H}.
Arguments launch_pauses {H}.
Arguments external_native {H}.
Arguments delivery_io {H}.
Arguments delivery_pending {H}.
Arguments consumers {H}.
Arguments reads {H}.

Definition set_target (v : ReadTarget) m := mkManaged (m_identity m) (m_tier m) (m_allow_stale m) v (m_expected m) (m_encoded m) (m_capacity m) (m_task m) (m_guard m) (m_allowance m) (m_preempting m) (m_cost m) (m_request m) (m_lease m) (m_transport m) (m_rgb m) (m_header m) (m_requeue m) (m_launched m) (m_cleanup m) (m_cancel m) (m_failure m).
Definition set_expected (v : option (Z * Z)) m := mkManaged (m_identity m) (m_tier m) (m_allow_stale m) (m_target m) v (m_encoded m) (m_capacity m) (m_task m) (m_guard m) (m_allowance m) (m_preempting m) (m_cost m) (m_request m) (m_lease m) (m_transport m) (m_rgb m) (m_header m) (m_requeue m) (m_launched m) (m_cleanup m) (m_cancel m) (m_failure m).
Definition set_encoded_bytes (v : list Z) m := mkManaged (m_identity m) (m_tier m) (m_allow_stale m) (m_target m) (m_expected m) v (m_capacity m) (m_task m) (m_guard m) (m_allowance m) (m_preempting m) (m_cost m) (m_request m) (m_lease m) (m_transport m) (m_rgb m) (m_header m) (m_requeue m) (m_launched m) (m_cleanup m) (m_cancel m) (m_failure m).
Definition set_capacity (v : Z) m := mkManaged (m_identity m) (m_tier m) (m_allow_stale m) (m_target m) (m_expected m) (m_encoded m) v (m_task m) (m_guard m) (m_allowance m) (m_preempting m) (m_cost m) (m_request m) (m_lease m) (m_transport m) (m_rgb m) (m_header m) (m_requeue m) (m_launched m) (m_cleanup m) (m_cancel m) (m_failure m).
Definition set_task (v : Slot) m := mkManaged (m_identity m) (m_tier m) (m_allow_stale m) (m_target m) (m_expected m) (m_encoded m) (m_capacity m) v (m_guard m) (m_allowance m) (m_preempting m) (m_cost m) (m_request m) (m_lease m) (m_transport m) (m_rgb m) (m_header m) (m_requeue m) (m_launched m) (m_cleanup m) (m_cancel m) (m_failure m).
Definition set_allowance (v : Z) m := mkManaged (m_identity m) (m_tier m) (m_allow_stale m) (m_target m) (m_expected m) (m_encoded m) (m_capacity m) (m_task m) (m_guard m) v (m_preempting m) (m_cost m) (m_request m) (m_lease m) (m_transport m) (m_rgb m) (m_header m) (m_requeue m) (m_launched m) (m_cleanup m) (m_cancel m) (m_failure m).
Definition set_preempting (v : bool) m := mkManaged (m_identity m) (m_tier m) (m_allow_stale m) (m_target m) (m_expected m) (m_encoded m) (m_capacity m) (m_task m) (m_guard m) (m_allowance m) v (m_cost m) (m_request m) (m_lease m) (m_transport m) (m_rgb m) (m_header m) (m_requeue m) (m_launched m) (m_cleanup m) (m_cancel m) (m_failure m).
Definition set_cost (v : option Z) m := mkManaged (m_identity m) (m_tier m) (m_allow_stale m) (m_target m) (m_expected m) (m_encoded m) (m_capacity m) (m_task m) (m_guard m) (m_allowance m) (m_preempting m) v (m_request m) (m_lease m) (m_transport m) (m_rgb m) (m_header m) (m_requeue m) (m_launched m) (m_cleanup m) (m_cancel m) (m_failure m).
Definition set_request (v : option NativeReadRequest) m := mkManaged (m_identity m) (m_tier m) (m_allow_stale m) (m_target m) (m_expected m) (m_encoded m) (m_capacity m) (m_task m) (m_guard m) (m_allowance m) (m_preempting m) (m_cost m) v (m_lease m) (m_transport m) (m_rgb m) (m_header m) (m_requeue m) (m_launched m) (m_cleanup m) (m_cancel m) (m_failure m).
Definition set_lease (v : option Z) m := mkManaged (m_identity m) (m_tier m) (m_allow_stale m) (m_target m) (m_expected m) (m_encoded m) (m_capacity m) (m_task m) (m_guard m) (m_allowance m) (m_preempting m) (m_cost m) (m_request m) v (m_transport m) (m_rgb m) (m_header m) (m_requeue m) (m_launched m) (m_cleanup m) (m_cancel m) (m_failure m).
Definition set_transport (v : Slot) m := mkManaged (m_identity m) (m_tier m) (m_allow_stale m) (m_target m) (m_expected m) (m_encoded m) (m_capacity m) (m_task m) (m_guard m) (m_allowance m) (m_preempting m) (m_cost m) (m_request m) (m_lease m) v (m_rgb m) (m_header m) (m_requeue m) (m_launched m) (m_cleanup m) (m_cancel m) (m_failure m).
Definition set_rgb (v : option TokenId) m := mkManaged (m_identity m) (m_tier m) (m_allow_stale m) (m_target m) (m_expected m) (m_encoded m) (m_capacity m) (m_task m) (m_guard m) (m_allowance m) (m_preempting m) (m_cost m) (m_request m) (m_lease m) (m_transport m) v (m_header m) (m_requeue m) (m_launched m) (m_cleanup m) (m_cancel m) (m_failure m).
Definition set_header (v : option Header) m := mkManaged (m_identity m) (m_tier m) (m_allow_stale m) (m_target m) (m_expected m) (m_encoded m) (m_capacity m) (m_task m) (m_guard m) (m_allowance m) (m_preempting m) (m_cost m) (m_request m) (m_lease m) (m_transport m) (m_rgb m) v (m_requeue m) (m_launched m) (m_cleanup m) (m_cancel m) (m_failure m).
Definition set_requeue (v : option (Z * (Z * Z))) m := mkManaged (m_identity m) (m_tier m) (m_allow_stale m) (m_target m) (m_expected m) (m_encoded m) (m_capacity m) (m_task m) (m_guard m) (m_allowance m) (m_preempting m) (m_cost m) (m_request m) (m_lease m) (m_transport m) (m_rgb m) (m_header m) v (m_launched m) (m_cleanup m) (m_cancel m) (m_failure m).
Definition set_launched (v : bool) m := mkManaged (m_identity m) (m_tier m) (m_allow_stale m) (m_target m) (m_expected m) (m_encoded m) (m_capacity m) (m_task m) (m_guard m) (m_allowance m) (m_preempting m) (m_cost m) (m_request m) (m_lease m) (m_transport m) (m_rgb m) (m_header m) (m_requeue m) v (m_cleanup m) (m_cancel m) (m_failure m).
Definition set_cleanup (v : bool) m := mkManaged (m_identity m) (m_tier m) (m_allow_stale m) (m_target m) (m_expected m) (m_encoded m) (m_capacity m) (m_task m) (m_guard m) (m_allowance m) (m_preempting m) (m_cost m) (m_request m) (m_lease m) (m_transport m) (m_rgb m) (m_header m) (m_requeue m) (m_launched m) v (m_cancel m) (m_failure m).
Definition set_cancel (v : bool) m := mkManaged (m_identity m) (m_tier m) (m_allow_stale m) (m_target m) (m_expected m) (m_encoded m) (m_capacity m) (m_task m) (m_guard m) (m_allowance m) (m_preempting m) (m_cost m) (m_request m) (m_lease m) (m_transport m) (m_rgb m) (m_header m) (m_requeue m) (m_launched m) (m_cleanup m) v (m_failure m).
Definition set_failure (v : option RetainedError) m := mkManaged (m_identity m) (m_tier m) (m_allow_stale m) (m_target m) (m_expected m) (m_encoded m) (m_capacity m) (m_task m) (m_guard m) (m_allowance m) (m_preempting m) (m_cost m) (m_request m) (m_lease m) (m_transport m) (m_rgb m) (m_header m) (m_requeue m) (m_launched m) (m_cleanup m) (m_cancel m) v.

Definition set_next (v : Z) q := mkQueue v (active q) (pending q) (completed q).
Definition set_active (v : option Active) q := mkQueue (next_ticket q) v (pending q) (completed q).
Definition set_pending (v : gmap ReadTicket PendingRead) q := mkQueue (next_ticket q) (active q) v (completed q).
Definition set_completed (v : gmap ReadTicket ReadOutcome) q := mkQueue (next_ticket q) (active q) (pending q) v.

(** [(Reverse(priority), ticket)]: foreground before background, then by age. *)
Definition first_le : relation (ReadTicket * PendingRead) := fun x y =>
  if Scheduler.is_foreground (p_priority x.2)
  then (if Scheduler.is_foreground (p_priority y.2) then x.1 <= y.1 else True)
  else (if Scheduler.is_foreground (p_priority y.2) then False else x.1 <= y.1).
#[export] Instance first_le_dec : RelDecision first_le.
Proof. intros x y. unfold first_le. destruct (Scheduler.is_foreground _), (Scheduler.is_foreground _); apply _. Defined.
#[export] Instance first_le_trans : Transitive first_le.
Proof.
  intros x y z. unfold first_le.
  destruct (Scheduler.is_foreground (p_priority x.2)), (Scheduler.is_foreground (p_priority y.2)),
    (Scheduler.is_foreground (p_priority z.2)); tauto || lia.
Qed.
#[export] Instance first_le_total : Total first_le.
Proof. intros x y. unfold first_le. destruct (Scheduler.is_foreground _), (Scheduler.is_foreground _); tauto || lia. Qed.

Section Reads.
Context {H : Type} {BP : ByteBudget.BytePool H} {CODEC : CatalogEdits.EditCodec} {FORMATS : PreviewFormats}.
Implicit Types (o : Outside).

Definition set_scheduler (v : PreviewScheduler) (s : PreviewService H) := mkService (policy s) (limits s) v (decoded s) (encoded s) (encoded_pool s) (touches s) (store_clock s) (launch_pauses s) (external_native s) (delivery_io s) (delivery_pending s) (consumers s) (reads s).
Definition set_decoded (v : DecodedCache H) (s : PreviewService H) := mkService (policy s) (limits s) (scheduler s) v (encoded s) (encoded_pool s) (touches s) (store_clock s) (launch_pauses s) (external_native s) (delivery_io s) (delivery_pending s) (consumers s) (reads s).
Definition set_encoded (v : Heap) (s : PreviewService H) := mkService (policy s) (limits s) (scheduler s) (decoded s) v (encoded_pool s) (touches s) (store_clock s) (launch_pauses s) (external_native s) (delivery_io s) (delivery_pending s) (consumers s) (reads s).
Definition set_touches (v : gmap string Z) (s : PreviewService H) := mkService (policy s) (limits s) (scheduler s) (decoded s) (encoded s) (encoded_pool s) v (store_clock s) (launch_pauses s) (external_native s) (delivery_io s) (delivery_pending s) (consumers s) (reads s).
Definition set_clock (v : Z) (s : PreviewService H) := mkService (policy s) (limits s) (scheduler s) (decoded s) (encoded s) (encoded_pool s) (touches s) v (launch_pauses s) (external_native s) (delivery_io s) (delivery_pending s) (consumers s) (reads s).
Definition set_reads (v : ReadQueue) (s : PreviewService H) := mkService (policy s) (limits s) (scheduler s) (decoded s) (encoded s) (encoded_pool s) (touches s) (store_clock s) (launch_pauses s) (external_native s) (delivery_io s) (delivery_pending s) (consumers s) v.

Definition set_consumers (v : gmap Z string) (s : PreviewService H) := mkService (policy s) (limits s) (scheduler s) (decoded s) (encoded s) (encoded_pool s) (touches s) (store_clock s) (launch_pauses s) (external_native s) (delivery_io s) (delivery_pending s) v (reads s).

(** ** The parts a step works in *)

Definition Svc (A : Type) : Type := proc Fault (PreviewService H) A.
(** A step of one read: the service and the read. *)
Definition Rd (A : Type) : Type := proc Fault (PreviewService H * ManagedRead) A.

Definition budget_text (l : ByteBudget.ByteLimit) : string :=
  "byte allowance exhausted; requested " +:+ pretty (ByteBudget.required l) +:+ " bytes, "
  +:+ pretty (ByteBudget.available l) +:+ " available".
Definition sched_fault (e : Scheduler.SchedError) : Fault :=
  match e with
  | Scheduler.Message m => Fails (says m)
  | Scheduler.ResourceLimit m => Fails (resource_error m)
  | Scheduler.Panic m => Panics m
  end.
(** [OutOfFuel] is never returned by a reachable cache: DecodedCache.v. *)
Definition cache_fault (e : DecodedCache.CacheError) : Fault :=
  match e with
  | DecodedCache.DecodedBudgetExceeded =>
      Fails (mkError None None None false false true false None false (ascii_bytes decoded_text))
  | DecodedCache.CacheMessage m => Fails (says m)
  | DecodedCache.OutOfFuel => Fails (plain [])
  end.
Definition budget_fault (e : ByteBudget.BudgetError) : Fault :=
  match e with
  | ByteBudget.Limit l => Fails (says (budget_text l))
  | ByteBudget.Message m => Fails (says m)
  | ByteBudget.Panic m => Panics m
  | ByteBudget.Dangling => Panics "dangling reservation"
  end.
Definition within {E T A} (fault : E -> Fault) (part : PreviewService H -> T)
    (change : T -> PreviewService H -> PreviewService H) (m : proc E T A) : Svc A := fun s =>
  match m (part s) with
  | (t, Ok a) => (change t s, Ok a)
  | (t, Err e) => (change t s, Err (fault e))
  end.
Definition on_scheduler {A} (m : Scheduler.SchedM A) : Svc A := within sched_fault scheduler set_scheduler m.
Definition on_decoded {A} (m : DecodedCache.CacheM (H:=H) A) : Svc A := within cache_fault decoded set_decoded m.
Definition on_encoded {A} (m : proc ByteBudget.BudgetError Heap A) : Svc A := within budget_fault encoded set_encoded m.
Definition or_fails {S A} (r : result Error A) : proc Fault S A :=
  match r with Ok a => ret a | Err e => fail (Fails e) end.
(** [unwrap]. *)
Definition unwrap {S A} (x : option A) : proc Fault S A := of_option x (Panics "unwrap of None").
(** [let _ = m]: an ordinary error is dropped. *)
Definition ignore {S A} (m : proc Fault S A) : proc Fault S unit :=
  let* r := try m in
  match r with Err (Panics x) => fail (Panics x) | _ => ret tt end.

Definition in_service {A} (m : Svc A) : Rd A := fun w =>
  match m w.1 with (s, r) => ((s, w.2), r) end.
Definition the_managed : Rd ManagedRead := gets snd.
Definition change (f : ManagedRead -> ManagedRead) : Rd unit := modify (fun w => (w.1, f w.2)).

(** ** The manifest's answer to a finished transfer *)

(** @source src/src/preview/store.rs:866-874 PreviewStore::clock *)
Definition clock : Svc Z :=
  let* s := get in
  let* next := of_option (if store_clock s + 1 <=? i64_max then Some (store_clock s + 1) else None)
                 (Fails (says "cache clock overflow")) in
  modify (set_clock next) ;;;
  ret next.
(** @source src/src/preview/store.rs:877-894 PreviewStore::flush_touches *)
Definition flush_touches (o : Outside) : Svc unit :=
  let* s := get in
  if bool_decide (touches s = ∅) then ret tt else
  or_fails (write_touches o (touches s)) ;;;
  modify (set_touches ∅).
(** @source src/src/preview/store.rs:1552-1573 PreviewStore::finish_managed_read *)
Definition finish_managed_read (o : Outside) (k : PreviewKey) (i : Integrity) : Svc bool :=
  let* d := or_fails (digest k) in
  if negb (bool_decide (i = Intact)) then
    or_fails (orphan o d) ;;;
    modify (fun s => set_touches (delete d (touches s)) s) ;;;
    ensure (bool_decide (i = Missing)) (Fails (says "cached preview checksum mismatch; entry invalidated")) ;;;
    ret false
  else
    let* now := clock in
    modify (fun s => set_touches (<[d := now]> (touches s)) s) ;;;
    let* s := get in
    (if 256 <=? map_len (touches s) then flush_touches o else ret tt) ;;;
    ret true.

(** ** The tasks of a read *)

(** What [Task] and [Read] hand to the owner of a failed thread. *)
Definition retained {T} (r : result Error T) : result Error T :=
  match r with Ok v => Ok v | Err e => Err (into_error (retained_error e)) end.
Definition panicked : Error := says "transport task panicked; operation outcome requires reconciliation".
Definition consumed : Error := says "transport task result already consumed".

(** [Read::launch], with [Task::spawn]. *)
(** @source src/src/preview/worker/read_transport.rs:56-71 Read::launch *)
Definition launch (o : Outside) (l : Launch) : Rd unit :=
  let* m := the_managed in
  ensure (match m_transport m with NoTask => true | _ => false end)
    (Fails (says "native read transport already pending")) ;;;
  or_fails (spawn o l) ;;;
  change (set_transport Live).
(** @source src/src/preview/worker/read_transport.rs:168-170 Read::pending *)
Definition transport_pending (m : ManagedRead) : bool :=
  match m_transport m with NoTask => false | _ => true end.
(** @source src/src/preview/worker/read_transport.rs:171-187 Read::poll *)
Definition transport_poll (o : Outside) : Rd (option (result Error Event)) :=
  let* m := the_managed in
  match m_transport m with
  | NoTask => ret None
  | Consumed => change (set_transport NoTask) ;;; fail (Fails consumed)
  | Live =>
      match event_answer o with
      | Running => ret None
      | Finished r => change (set_transport NoTask) ;;; ret (Some (retained r))
      | TaskPanicked => change (set_transport NoTask) ;;; fail (Fails panicked)
      end
  end.
(** [Read::shutdown], its task joined and its job drained. *)
(** @source src/src/preview/worker/read_transport.rs:193-207 Read::shutdown *)
Definition transport_shutdown (o : Outside) : Rd unit :=
  change (set_cancel true) ;;;
  let* m := the_managed in
  (match m_transport m with
   | Live => change (set_transport Consumed) ;;; or_fails (event_joined o)
   | _ => ret tt
   end) ;;;
  change (set_transport NoTask) ;;;
  or_fails (job_drained o).

(** ** The resources of a read *)

Definition drop_staging (t : TokenId) : Svc unit := on_encoded (ByteBudget.drop_reservation t).
Definition drop_pixels (t : TokenId) : Svc unit := on_decoded (DecodedCache.release_token t).
Definition drop_page (p : ObjId) : Svc unit := on_decoded (DecodedCache.consumer_drop p).
Definition drop_view (v : option PreviewView) : Svc unit :=
  match v with Some v => drop_page (v_pixels v) | None => ret tt end.
Definition drop_outcome (r : option ReadOutcome) : Svc unit :=
  match r with Some (Ready v) => drop_page (v_pixels v) | _ => ret tt end.
(** [read.rgb.take()] and [read.rgb = Some(t)]. *)
Definition take_rgb : Rd unit :=
  let* m := the_managed in
  match m_rgb m with
  | Some t => change (set_rgb None) ;;; in_service (drop_pixels t)
  | None => ret tt
  end.
Definition put_rgb (t : TokenId) : Rd unit := take_rgb ;;; change (set_rgb (Some t)).
(** The fields of a dropped [ManagedRead] that own something. *)
Definition drop_read (m : ManagedRead) : Svc unit :=
  drop_staging (m_guard m) ;;;
  match m_rgb m with Some t => drop_pixels t | None => ret tt end.

(** @source src/src/preview/managed_reads.rs:507-510 ManagedRead::signal_cancel *)
Definition signal_cancel (m : ManagedRead) : ManagedRead := set_cancel true m.
(** @source src/src/preview/managed_reads.rs:511-514 ManagedRead::preempt *)
Definition preempt (m : ManagedRead) : ManagedRead := signal_cancel (set_preempting true m).
(** @source src/src/preview/managed_reads.rs:515-532 ManagedRead::release_scheduler *)
Definition release_scheduler : Rd unit :=
  let* m := the_managed in
  if m_preempting m then
    match m_lease m with
    | Some l =>
        change (set_lease None) ;;;
        let* cost := of_option (m_cost m) (Fails (says "preempted read cost missing")) in
        in_service (on_scheduler (Scheduler.requeue_native_read l cost))
    | None => ret tt
    end
  else
    (match m_lease m with
     | Some l => change (set_lease None) ;;; in_service (on_scheduler (Scheduler.release_native_read l))
     | None =>
         match m_request m with
         | Some q => in_service (on_scheduler (Scheduler.cancel_queued_native_read (Scheduler.q_id q)))
         | None => ret tt
         end
     end) ;;;
    change (set_request None).
(** @source src/src/preview/managed_reads.rs:533-542 ManagedRead::drain *)
Definition drain (o : Outside) : Rd unit :=
  change (fun m => set_cancel true (set_preempting false m)) ;;;
  let* m := the_managed in
  (match m_task m with
   | Live => change (set_task Consumed) ;;; or_fails (encoded_joined o)
   | _ => ret tt
   end) ;;;
  change (set_task NoTask) ;;;
  transport_shutdown o.

(** ** Beginning a read *)

Definition LEGACY_BYTES : Z := 4 * 1024 * 1024.
(** An early return of a function that owns the reservation [t]. *)
Definition guarded {A} (t : TokenId) (keeps : A -> bool) (m : Svc A) : Svc A :=
  let* r := try m in
  match r with
  | Ok a => (if keeps a then ret tt else drop_staging t) ;;; ret a
  | Err e => drop_staging t ;;; fail e
  end.
Definition pends (b : Begin) : bool := match b with BPending _ => true | BReady _ => false end.
(** What a view shows is not what the catalog holds now. *)
(** @source src/src/preview/managed_reads.rs:159-159 PreviewService::begin_managed_read *)
Definition outdated (stale : bool) (identity current : EditRenderIdentity) : bool :=
  stale || negb (same_edit identity current)
  || negb (String.eqb (CatalogEdits.r_state (CatalogEdits.e_source current)) "ready").

(** The cached object: the wanted one, the one of the baseline before images had
    pixels of their own, or a stale one. *)
(** @source src/src/preview/managed_reads.rs:96-115 PreviewService::begin_managed_read *)
Definition select_cached (o : Outside) (policy : PreviewPolicy) (identity : EditRenderIdentity) (wanted : PreviewKey)
    (asset : string) (t : Tier) (allow_stale interactive : bool) (allowance : Z) : result Error (option Selection) :=
  let? cached := select_managed_read o wanted false allowance in
  let? cached := match cached with
    | Some c => Ok (Some c)
    | None =>
        let? source := render_identity o asset in
        if legacy_pixel_eligible identity source then
          let legacy := CatalogEdits.mkEditRender None source (CatalogEdits.e_key identity)
                          (CatalogEdits.e_revision identity) (CatalogEdits.e_digest identity) in
          let? k := wanted_key policy interactive legacy t in
          select_managed_read o k false allowance
        else Ok None
    end in
  match cached with
  | Some c => Ok (Some c)
  | None => select_managed_read o wanted allow_stale allowance
  end.
Definition legacy_target (hash : string) : ReadTarget :=
  mkTarget None (Some hash) None true (legacy_cache_key hash) DecodedCache.Jpeg.
(** The only reads that may show a preview that does not match. *)
Definition may_be_stale (allow_stale : bool) (t : Tier) : bool := allow_stale && bool_decide (t = Thumbnail).
(** [None]: nothing to show. *)
(** @source src/src/preview/managed_reads.rs:118-154 PreviewService::begin_managed_read *)
Definition read_target (o : Outside) (cached : option Selection) (k : VariantKey) (t : Tier) (allow_stale : bool)
    : result Error (option ReadTarget) :=
  match cached with
  | Some c =>
      let? d := digest (s_key c) in
      Ok (Some (mkTarget (Some (s_key c)) None (s_record c) (s_stale c) d (codec (k_encoding (s_key c)))))
  | None =>
      if allow_stale && String.eqb (CatalogEdits.variant_id k) CatalogEdits.MASTER && bool_decide (t = Thumbnail) then
        let? hash := legacy_reference o (CatalogEdits.asset_id k) in
        match hash with
        | None => Ok None
        | Some hash => Ok (Some (legacy_target hash))
        end
      else Ok None
  end.

(** The reads of other owners the synchronous ones give way to. *)
(** @source src/src/preview/service.rs:869-891 PreviewService::ensure_synchronous_read_available *)
Definition ensure_synchronous_read_available : Svc unit :=
  let* s := get in
  let u := Scheduler.usage (scheduler s) in
  ensure (negb (bool_decide (is_Some (active (reads s)))) && negb (delivery_io s) && negb (delivery_pending s)
      && (Scheduler.u_active u =? 0) && (Scheduler.u_queued u =? 0) && (launch_pauses s =? 0)
      && negb (external_native s))
    (Fails (mkError None None None false false false false None true (ascii_bytes
      "Native preview work is busy; release the active permit or use a queued cache read"))).

(** A decoded page serves the read at once. *)
(** @source src/src/preview/managed_reads.rs:155-170 PreviewService::begin_managed_read *)
Definition decoded_hit (o : Outside) (target : ReadTarget) (identity : EditRenderIdentity) (k : VariantKey) (t : Tier)
    (allow_stale : bool) (pixels : ObjId) : Svc Begin :=
  let* r := try (or_fails (edit_identity o k)) in
  match r with
  | Err e => drop_page pixels ;;; fail e
  | Ok current =>
      let stale := outdated (t_stale target) identity current in
      if stale && negb (may_be_stale allow_stale t) then drop_page pixels ;;; ret (BReady None)
      else ret (BReady (Some (mkView (t_key target) (t_legacy_hash target) (t_record target) pixels stale)))
  end.
Definition is_none {A} (x : option A) : bool := match x with None => true | Some _ => false end.
(** @source src/src/preview/managed_reads.rs:174-225 PreviewService::begin_managed_read *)
Definition start_transfer (o : Outside) (guard : TokenId) (target : ReadTarget) (identity : EditRenderIdentity) (t : Tier)
    (allow_stale : bool) (allowance : Z) : Svc Begin :=
  or_fails (task_lane o) ;;;
  let legacy := negb (is_none (t_legacy_hash target)) in
  let allowance := if legacy then Z.min allowance LEGACY_BYTES else allowance in
  on_encoded (ByteBudget.shrink guard allowance) ;;;
  or_fails (spawn o (if legacy then LLegacy else LTransfer)) ;;;
  ret (BPending (mkManaged identity t allow_stale target
    (option_map (fun r => (rec_width r, rec_height r)) (t_record target)) [] 0 Live guard allowance
    false None None None NoTask None None None false false false None)).

(** @source src/src/preview/managed_reads.rs:69-225 PreviewService::begin_managed_read *)
Definition begin_managed_read (o : Outside) (k : VariantKey) (t : Tier) (allow_stale interactive synchronous : bool)
    : Svc Begin :=
  let* identity := or_fails (edit_identity o k) in
  let* s := get in
  let* wanted := or_fails (wanted_key (policy s) interactive identity t) in
  let* st := on_encoded (ByteBudget.snapshot (encoded_pool s)) in
  let* allowance := of_option (checked_sub (encoded_staging_bytes (limits s)) st.2)
                      (Panics "subtraction underflow") in
  let* guard := on_encoded (ByteBudget.try_reserve (encoded_pool s) allowance) in
  let* guard := of_option guard (Fails (context (ascii_bytes
      ("managed read staging admission: requested " +:+ pretty allowance +:+ ", retained " +:+ pretty st.2
       +:+ ", limit " +:+ pretty (encoded_staging_bytes (limits s)))) encoded_exceeded)) in
  guarded guard pends (
    let* cached := or_fails (select_cached o (policy s) identity wanted (CatalogEdits.asset_id k) t allow_stale
                               interactive allowance) in
    let* target := or_fails (read_target o cached k t allow_stale) in
    match target with
    | None => ret (BReady None)
    | Some target =>
        let* found := (if is_none (t_legacy_hash target)
                       then on_decoded (DecodedCache.managed_lookup (t_cache_key target)) else ret None) in
        match found with
        | Some pixels => decoded_hit o target identity k t allow_stale pixels
        | None =>
            (if synchronous then ensure_synchronous_read_available else ret tt) ;;;
            start_transfer o guard target identity t allow_stale allowance
        end
    end).

(** ** Advancing a read *)

(** The transfer is over: its bytes, another transfer, or nothing left to read.
    [true]: the read goes on with another transfer. *)
(** @source src/src/preview/managed_reads.rs:289-325 PreviewService::advance_managed_read *)
Definition encoded_arrived (o : Outside) (i : Integrity) (bytes : list Z) (spare : nat) : Rd bool :=
  let* m := the_managed in
  let* intact := match t_key (m_target m) with
                 | Some k => in_service (finish_managed_read o k i)
                 | None => ret (bool_decide (i = Intact))
                 end in
  if intact then change (fun m => set_encoded_bytes bytes (set_capacity (zlen bytes + Z.of_nat spare) m)) ;;; ret false else
  let key := CatalogEdits.e_key (m_identity m) in
  let* hash := (if negb (is_none (t_key (m_target m))) && negb (m_cancel m) && m_allow_stale m
                   && String.eqb (CatalogEdits.variant_id key) CatalogEdits.MASTER && bool_decide (m_tier m = Thumbnail)
                then or_fails (legacy_reference o (CatalogEdits.asset_id key)) else ret None) in
  match hash with
  | Some hash =>
      change (fun m => set_target (legacy_target hash) (set_expected None
        (set_allowance (Z.min (m_allowance m) LEGACY_BYTES) m))) ;;;
      let* m := the_managed in
      in_service (on_encoded (ByteBudget.shrink (m_guard m) (m_allowance m))) ;;;
      or_fails (spawn o LLegacy) ;;;
      change (set_task Live) ;;;
      ret true
  | None => change (set_cancel true) ;;; ret false
  end.
(** A decoded page of the legacy file serves the read without native work. *)
(** @source src/src/preview/managed_reads.rs:328-341 PreviewService::advance_managed_read *)
Definition legacy_hit : Rd (option PreviewView) :=
  let* m := the_managed in
  match t_legacy_hash (m_target m) with
  | Some hash =>
      if m_cancel m then ret None else
      let* found := in_service (on_decoded (DecodedCache.managed_lookup (t_cache_key (m_target m)))) in
      match found with
      | Some pixels => ret (Some (mkView None (Some hash) None pixels true))
      | None => ret None
      end
  | None => ret None
  end.
(** What a poll says: [None], still reading; otherwise the view, if there is one. *)
Abbreviation Polled := (option (option PreviewView)).
(** [Some r]: the call returns [r]. *)
(** @source src/src/preview/managed_reads.rs:286-348 PreviewService::advance_managed_read *)
Definition encoded_stage (o : Outside) : Rd (option Polled) :=
  let* m := the_managed in
  match m_task m with
  | NoTask => ret None
  | Consumed => change (set_task NoTask) ;;; fail (Fails consumed)
  | Live =>
      match encoded_answer o with
      | Running => ret (Some None)
      | TaskPanicked => change (set_task NoTask) ;;; fail (Fails panicked)
      | Finished (Err e) => change (set_task NoTask) ;;; fail (Fails (into_error (retained_error e)))
      | Finished (Ok (i, bytes, spare)) =>
          change (set_task NoTask) ;;;
          let* again := encoded_arrived o i bytes spare in
          if again then ret (Some None) else
          let* m := the_managed in
          in_service (on_encoded (ByteBudget.shrink (m_guard m) (m_capacity m))) ;;;
          let* hit := legacy_hit in
          match hit with Some v => ret (Some (Some (Some v))) | None => ret None end
      end
  end.

(** The transport has nothing pending, or another poll is needed. *)
(** @source src/src/preview/managed_reads.rs:350-360 PreviewService::advance_managed_read *)
Definition cancelled_transport (o : Outside) : Rd bool :=
  let* m := the_managed in
  if negb (transport_pending m) then ret true else
  let* r := try (transport_poll o) in
  match r with
  | Ok None => ret false
  | Ok (Some (Ok _)) => ret true
  | Ok (Some (Err e)) => change (set_cleanup false) ;;; fail (Fails e)
  | Err e => change (set_cleanup false) ;;; fail e
  end.
(** @source src/src/preview/managed_reads.rs:349-375 PreviewService::advance_managed_read *)
Definition cancel_stage (o : Outside) : Rd Polled :=
  let* idle := cancelled_transport o in
  if negb idle then ret None else
  let* m := the_managed in
  if negb (m_cleanup m) then launch o LStop ;;; change (set_cleanup true) ;;; ret None else
  if transport_pending m then ret None else
  release_scheduler ;;;
  take_rgb ;;;
  let* m := the_managed in
  match m_failure m with
  | Some r => change (set_failure None) ;;; fail (Fails (into_error r))
  | None => ret (Some None)
  end.

(** @source src/src/preview/managed_reads.rs:376-378 PreviewService::advance_managed_read *)
Definition request_stage : Rd unit :=
  let* m := the_managed in
  match m_request m with
  | Some _ => ret tt
  | None =>
      let* q := in_service (on_scheduler (Scheduler.queue_native_read Scheduler.Foreground)) in
      change (set_request (Some q))
  end.
(** @source src/src/preview/managed_reads.rs:379-392 PreviewService::advance_managed_read *)
Definition cost_stage : Rd unit :=
  let* m := the_managed in
  match m_cost m with
  | Some _ => ret tt
  | None =>
      let* s := gets fst in
      let n := zlen (m_encoded m) in
      let header := cache_header_scratch_bytes (limits s) in
      let* cost := or_fails (match m_expected m with
        | Some (w, h) => decode_cost (t_codec (m_target m)) w h n header (cache_codec_scratch_bytes (limits s))
        | None => header_cost n header
        end) in
      change (set_cost (Some cost))
  end.
(** [false]: no lease yet. *)
(** @source src/src/preview/managed_reads.rs:393-410 PreviewService::advance_managed_read *)
Definition lease_stage (o : Outside) : Rd bool :=
  let* m := the_managed in
  match m_lease m with
  | Some _ => ret true
  | None =>
      let* s := gets fst in
      if (0 <? launch_pauses s) || external_native s then ret false else
      let* q := unwrap (m_request m) in
      let* cost := unwrap (m_cost m) in
      let* lease := in_service (on_scheduler (Scheduler.admit_native_read (Scheduler.q_id q) cost)) in
      match lease with
      | None => ret false
      | Some l =>
          change (set_lease (Some l)) ;;;
          match m_requeue m with
          | Some _ => change (set_requeue None) ;;; launch o LRearm ;;; change (set_launched true)
          | None => ret tt
          end ;;;
          ret true
      end
  end.
(** @source src/src/preview/managed_reads.rs:411-425 PreviewService::advance_managed_read *)
Definition launch_stage (o : Outside) : Rd unit :=
  let* m := the_managed in
  if m_launched m then ret tt else
  let* cost := unwrap (m_cost m) in
  change (set_encoded_bytes []) ;;;
  launch o LHeader ;;;
  change (set_launched true).

Definition exceeds_tier : Error :=
  mkError None None (Some ReadErrors.Corrupt) false false false false None false (ascii_bytes "cached image exceeds tier").
(** The header admits the whole decode, or gives its lease back to wait for room. *)
(** @source src/src/preview/managed_reads.rs:430-461 PreviewService::advance_managed_read *)
Definition on_header (o : Outside) (h : Header) : Rd unit :=
  let* m := the_managed in
  ensure (match t_key (m_target m) with
          | Some k => (h_width h <=? k_edge k) && (h_height h <=? k_edge k)
          | None => true
          end) (Fails exceeds_tier) ;;;
  let* s := gets fst in
  let* cost := or_fails (decode_cost (h_codec h) (h_width h) (h_height h) (h_input_bytes h)
      (cache_header_scratch_bytes (limits s)) (cache_codec_scratch_bytes (limits s))) in
  let* lease := unwrap (m_lease m) in
  let* upgraded := in_service (on_scheduler (Scheduler.upgrade_native_read lease cost)) in
  if negb upgraded then
    change (set_requeue (Some (cost, (h_width h, h_height h)))) ;;;
    launch o LStop
  else
    change (set_cost (Some cost)) ;;;
    let* t := in_service (on_decoded (DecodedCache.reserve_rgb (h_width h) (h_height h))) in
    put_rgb t ;;;
    change (set_header (Some h)) ;;;
    launch o LFinish.
(** @source src/src/preview/managed_reads.rs:462-474 PreviewService::advance_managed_read *)
Definition on_drained : Rd Polled :=
  let* m := the_managed in
  match m_requeue m with
  | Some (cost, dimensions) =>
      change (set_lease None) ;;;
      let* lease := unwrap (m_lease m) in
      in_service (on_scheduler (Scheduler.requeue_native_read lease cost)) ;;;
      change (fun m => set_header None (set_expected (Some dimensions) (set_cost (Some cost) m))) ;;;
      take_rgb ;;;
      ret None
  | None =>
      release_scheduler ;;;
      ret (Some None)
  end.
(** The page is dropped unless it is shown. *)
(** @source src/src/preview/managed_reads.rs:481-496 PreviewService::advance_managed_read *)
Definition decoded_view (o : Outside) (pixels : ObjId) : Rd (option PreviewView) :=
  release_scheduler ;;;
  let* m := the_managed in
  let* current := or_fails (edit_identity o (CatalogEdits.e_key (m_identity m))) in
  let stale := outdated (t_stale (m_target m)) (m_identity m) current in
  if stale && negb (may_be_stale (m_allow_stale m) (m_tier m)) then ret None
  else ret (Some (mkView (t_key (m_target m)) (t_legacy_hash (m_target m)) (t_record (m_target m)) pixels stale)).
(** @source src/src/preview/managed_reads.rs:475-496 PreviewService::advance_managed_read *)
Definition on_pixels (o : Outside) (p : DecodedCache.PreparedRgb) : Rd Polled :=
  let* m := the_managed in
  let* t := of_option (m_rgb m) (Fails (says "decoded RGB reservation missing")) in
  change (set_rgb None) ;;;
  let* pixels := in_service (on_decoded (DecodedCache.commit_rgb (t_cache_key (m_target m)) p t)) in
  let* r := try (decoded_view o pixels) in
  match r with
  | Ok (Some v) => ret (Some (Some v))
  | Ok None => in_service (drop_page pixels) ;;; ret (Some None)
  | Err e => in_service (drop_page pixels) ;;; fail e
  end.
(** @source src/src/preview/managed_reads.rs:376-497 PreviewService::advance_managed_read *)
Definition decode_stage (o : Outside) : Rd Polled :=
  request_stage ;;;
  cost_stage ;;;
  let* admitted := lease_stage o in
  if negb admitted then ret None else
  launch_stage o ;;;
  let* event := transport_poll o in
  match event with
  | None => ret None
  | Some (Err e) => fail (Fails e)
  | Some (Ok (EHeader h)) => on_header o h ;;; ret None
  | Some (Ok EDrained) => on_drained
  | Some (Ok (EPixels p)) => on_pixels o p
  end.
(** @source src/src/preview/managed_reads.rs:280-498 PreviewService::advance_managed_read *)
Definition advance_managed_read (o : Outside) : Rd Polled :=
  let* early := encoded_stage o in
  match early with
  | Some r => ret r
  | None =>
      let* m := the_managed in
      if m_cancel m then cancel_stage o else decode_stage o
  end.

Definition is_canceled (e : Error) : bool :=
  match e_failure e with Some (Canceled, _) => true | _ => false end.
Definition is_corrupt (e : Error) : bool :=
  match e_decode e with
  | Some ReadErrors.Corrupt => true
  | _ => match e_worker e with Some (Some ReadErrors.Corrupt) => true | _ => false end
  end.
(** An error starts the cleanup; the read ends with it when nothing is held any more. *)
(** @source src/src/preview/managed_reads.rs:241-277 PreviewService::poll_managed_read *)
Definition read_failed (o : Outside) (e : Error) : Rd Polled :=
  let* m := the_managed in
  if m_cancel m && is_canceled e then ret None else
  change (set_preempting false) ;;;
  if m_cleanup m && negb (transport_pending m) && is_none (m_lease m) && is_none (m_request m) then fail (Fails e) else
  (if is_corrupt e then
     match t_key (m_target m) with
     | Some k => ignore (in_service (finish_managed_read o k Corrupt))
     | None => ret tt
     end
   else ret tt) ;;;
  change (fun m => set_failure (match m_failure m with Some r => Some r | None => Some (retained_error e) end) m) ;;;
  change (set_cancel true) ;;;
  ret None.
(** @source src/src/preview/managed_reads.rs:226-279 PreviewService::poll_managed_read *)
Definition poll_managed_read (o : Outside) : Rd Polled :=
  let* w := get in
  (if match m_request w.2 with
      | Some q => Scheduler.load (scheduler w.1) (Scheduler.q_preempted q)
      | None => false
      end && negb (m_cancel w.2) then change preempt else ret tt) ;;;
  let* r := try (advance_managed_read o) in
  match r with
  | Ok v => ret v
  | Err (Fails e) => read_failed o e
  | Err (Panics x) => fail (Panics x)
  end.

(** A step of a read that is not in the queue. *)
Definition on_read {A} (step : Rd A) (m : ManagedRead) : Svc (ManagedRead * result Fault A) := fun s =>
  match step (s, m) with ((s', m'), r) => (s', Ok (m', r)) end.
(** The loop of a synchronous read: an [Outside] for each turn; [None] when they do
    not suffice.  However it ends, the read is dropped. *)
(** @source src/src/preview/service.rs:904-909 PreviewService::cached_inner *)
Fixpoint read_through (outs : list Outside) (m : ManagedRead) : Svc Polled :=
  match outs with
  | [] => ret None
  | o :: outs =>
      let* r := on_read (poll_managed_read o) m in
      match r with
      | (m, Ok None) => read_through outs m
      | (m, Ok (Some v)) => drop_read m ;;; ret (Some v)
      | (m, Err e) => drop_read m ;;; fail e
      end
  end.
(** With managed files. *)
(** @source src/src/preview/service.rs:892-911 PreviewService::cached_inner *)
Definition cached_inner (o : Outside) (outs : list Outside) (k : VariantKey) (t : Tier) (allow_stale interactive : bool)
    : Svc Polled :=
  let* b := begin_managed_read o k t allow_stale interactive true in
  match b with
  | BReady v => ret (Some v)
  | BPending m => read_through outs m
  end.

(** ** The queue *)

(** @source src/src/preview/read_queue.rs:60-62 ReadQueue::len *)
Definition queue_len (q : ReadQueue) : Z :=
  map_len (pending q) + map_len (completed q) + (if is_none (active q) then 0 else 1).
(** @source src/src/preview/service.rs:1974-1978 PreviewService::available_request_slots *)
Definition available_request_slots (s : PreviewService H) : Z :=
  saturating_sub (requests (limits s)) (map_len (consumers s) + queue_len (reads s)).
Definition on_queue (f : ReadQueue -> ReadQueue) : Svc unit := modify (fun s => set_reads (f (reads s)) s).
Definition cancel_native (q : option NativeReadRequest) : Svc unit :=
  match q with
  | Some q => ignore (on_scheduler (Scheduler.cancel_queued_native_read (Scheduler.q_id q)))
  | None => ret tt
  end.

(** A foreground read displaces the active background one. *)
(** @source src/src/preview/read_queue.rs:116-122 PreviewService::queue_read_variant *)
Definition displaced (p : Priority) (a : Active) : Active :=
  if Scheduler.is_foreground p && negb (Scheduler.is_foreground (p_priority (a_pending a))) && negb (a_abandoned a)
  then mkActive (a_ticket a) (a_pending a) (preempt (a_read a)) (a_abandoned a) else a.
(** With managed files. *)
(** @source src/src/preview/read_queue.rs:85-139 PreviewService::queue_read_variant *)
Definition queue_read_variant (o : Outside) (k : VariantKey) (t : Tier) (allow_stale : bool) (p : Priority)
    (interactive : bool) : Svc ReadTicket :=
  let* s := get in
  ensure (0 <? available_request_slots s) (Fails (says "preview request allowance exhausted")) ;;;
  let* expected := or_fails (edit_identity o k) in
  let* _ := or_fails (wanted_key (policy s) interactive expected t) in
  let* ticket := of_option (checked_add (next_ticket (reads s)) 1) (Fails (says "read ticket overflow")) in
  on_queue (set_next ticket) ;;;
  let* native := on_scheduler (Scheduler.queue_native_read p) in
  on_queue (fun q => set_active (option_map (displaced p) (active q)) q) ;;;
  on_queue (fun q => set_pending (<[ticket := mkPending expected (Some native) interactive t allow_stale p]> (pending q)) q) ;;;
  ret ticket.
(** @source src/src/preview/read_queue.rs:68-84 PreviewService::queue_read *)
Definition queue_read (o : Outside) (asset : string) (t : Tier) (allow_stale : bool) (p : Priority) : Svc ReadTicket :=
  queue_read_variant o (CatalogEdits.mkKey asset CatalogEdits.MASTER) t allow_stale p false.

Definition abandon (a : Active) : Active :=
  mkActive (a_ticket a) (a_pending a) (signal_cancel (set_preempting false (a_read a))) true.
(** @source src/src/preview/read_queue.rs:153-159 PreviewService::cancel_read *)
Definition cancel_waiting (ticket : ReadTicket) : Svc bool :=
  let* s := get in
  match pending (reads s) !! ticket with
  | Some p =>
      on_queue (fun q => set_pending (delete ticket (pending q)) q) ;;;
      cancel_native (p_native p) ;;;
      ret true
  | None =>
      on_queue (fun q => set_completed (delete ticket (completed q)) q) ;;;
      drop_outcome (completed (reads s) !! ticket) ;;;
      ret (negb (is_none (completed (reads s) !! ticket)))
  end.
(** @source src/src/preview/read_queue.rs:144-160 PreviewService::cancel_read *)
Definition cancel_read (ticket : ReadTicket) : Svc bool :=
  let* s := get in
  match active (reads s) with
  | Some a =>
      if a_ticket a =? ticket then on_queue (set_active (Some (abandon a))) ;;; ret true else
      cancel_waiting ticket
  | None => cancel_waiting ticket
  end.

(** The first read to start. *)
(** @source src/src/preview/read_queue.rs:247-252 PreviewService::tick_managed_read_queue *)
Definition next_pending (q : ReadQueue) : option (ReadTicket * PendingRead) := min_by first_le (map_to_list (pending q)).

(** The outcome a result is shown as. *)
(** @source src/src/preview/read_queue.rs:292-307 PreviewService::tick_managed_read_queue *)
Definition outcome_of (r : result Error (option PreviewView)) : ReadOutcome :=
  match r with
  | Ok (Some v) => Ready v
  | Ok None => NotCached
  | Err e => FailedRead (e_decoded e || e_encoded e || e_resource e) (message (failure_new Unknown [e_text e]))
  end.
(** The end of a read: its queued native request goes, and a result nobody wants is
    dropped. *)
(** @source src/src/preview/read_queue.rs:286-333 PreviewService::tick_managed_read_queue *)
Definition settle (ticket : ReadTicket) (native : option NativeReadRequest) (r : result Error (option PreviewView))
    (abandoned : bool) : Svc (option ReadTicket) :=
  cancel_native native ;;;
  if abandoned then drop_view (match r with Ok v => v | Err _ => None end) ;;; ret None else
  on_queue (fun q => set_completed (<[ticket := outcome_of r]> (completed q)) q) ;;;
  ret (Some ticket).
(** [read.native.take()] leaves none behind. *)
Definition with_native (n : option NativeReadRequest) (p : PendingRead) : PendingRead :=
  mkPending (p_expected p) n (p_interactive p) (p_tier p) (p_allow_stale p) (p_priority p).
(** @source src/src/preview/read_queue.rs:229-246 PreviewService::tick_managed_read_queue *)
Definition tick_active (o : Outside) (a : Active) : Svc (option ReadTicket) :=
  on_queue (set_active None) ;;;
  let* x := on_read (poll_managed_read o) (a_read a) in
  let m := x.1 in
  match x.2 with
  | Err (Panics x) => fail (Panics x)
  | Ok None =>
      on_queue (set_active (Some (mkActive (a_ticket a) (a_pending a) m (a_abandoned a)))) ;;;
      ret None
  | Ok (Some v) =>
      if m_preempting m && negb (a_abandoned a) then
        drop_read m ;;;
        drop_view v ;;;
        on_queue (fun q => set_pending (<[a_ticket a := with_native (m_request m) (a_pending a)]> (pending q)) q) ;;;
        ret None
      else
        drop_read m ;;;
        settle (a_ticket a) (p_native (a_pending a)) (Ok v) (a_abandoned a)
  | Err (Fails e) =>
      drop_read m ;;;
      settle (a_ticket a) (p_native (a_pending a)) (Err e) (a_abandoned a)
  end.
(** A waiting read begins if its pixels are still those it was asked for. *)
(** @source src/src/preview/read_queue.rs:256-269 PreviewService::tick_managed_read_queue *)
Definition begin_waiting (o : Outside) (p : PendingRead) : Svc Begin :=
  let key := CatalogEdits.e_key (p_expected p) in
  let* current := or_fails (edit_identity o key) in
  if negb (same_edit current (p_expected p)) then ret (BReady None) else
  begin_managed_read o key (p_tier p) (p_allow_stale p) (p_interactive p) false.
(** @source src/src/preview/read_queue.rs:247-285 PreviewService::tick_managed_read_queue *)
Definition tick_start (o : Outside) (ticket : ReadTicket) (p : PendingRead) : Svc (option ReadTicket) :=
  on_queue (fun q => set_pending (delete ticket (pending q)) q) ;;;
  let* r := try (begin_waiting o p) in
  match r with
  | Ok (BPending m) =>
      on_queue (set_active (Some (mkActive ticket (with_native None p) (set_request (p_native p) m) false))) ;;;
      ret None
  | Ok (BReady v) => settle ticket (p_native p) (Ok v) false
  | Err (Fails e) => settle ticket (p_native p) (Err e) false
  | Err (Panics x) => fail (Panics x)
  end.
(** @source src/src/preview/read_queue.rs:227-334 PreviewService::tick_managed_read_queue *)
Definition tick_managed_read_queue (o : Outside) : Svc (option ReadTicket) :=
  let* s := get in
  match active (reads s) with
  | Some a => tick_active o a
  | None =>
      match next_pending (reads s) with
      | Some (ticket, p) => tick_start o ticket p
      | None => ret None
      end
  end.
(** With managed files. *)
(** @source src/src/preview/read_queue.rs:164-175 PreviewService::tick_read *)
Definition tick_read (o : Outside) : Svc (option ReadTicket) :=
  let* s := get in
  if delivery_io s || (delivery_pending s && is_none (active (reads s))) then ret None else
  tick_managed_read_queue o.

(** [for (_, pending) in pending.drain()]. *)
Fixpoint cancel_natives (l : list (ReadTicket * PendingRead)) : Svc unit :=
  match l with
  | [] => ret tt
  | e :: l => cancel_native (p_native e.2) ;;; cancel_natives l
  end.
(** @source src/src/preview/read_queue.rs:350-361 PreviewService::signal_read_shutdown *)
Definition signal_read_shutdown : Svc unit :=
  let* s := get in
  on_queue (set_pending ∅) ;;;
  cancel_natives (map_to_list (pending (reads s))) ;;;
  on_queue (fun q => set_active (option_map abandon (active q)) q).
(** A step of the active read, if there is one. *)
Definition on_active (step : Rd unit) : Svc unit :=
  let* s := get in
  match active (reads s) with
  | None => ret tt
  | Some a =>
      let* x := on_read step (a_read a) in
      on_queue (set_active (Some (mkActive (a_ticket a) (a_pending a) x.1 (a_abandoned a)))) ;;;
      match x.2 with Ok _ => ret tt | Err e => fail e end
  end.
(** [drain] returns [true] or an error: the loop runs once. *)
(** @source src/src/preview/read_queue.rs:335-342 PreviewService::try_read_shutdown *)
Definition try_read_shutdown (o : Outside) : Svc unit := on_active (drain o).
(** @source src/src/preview/read_queue.rs:343-349 PreviewService::finish_read_shutdown *)
Definition finish_read_shutdown : Svc unit :=
  on_active release_scheduler ;;;
  let* s := get in
  on_queue (set_active None) ;;;
  match active (reads s) with Some a => drop_read (a_read a) | None => ret tt end.
(** The reads' part of a shutdown; [workers]: the first error of stopping the render
    workers.  Their leases are finished afterwards. *)
(** @source src/src/preview/service.rs:2074-2109 PreviewService::try_shutdown *)
Definition try_shutdown (o : Outside) (workers : option Error) : Svc unit :=
  signal_read_shutdown ;;;
  let* r := try (try_read_shutdown o) in
  let* s := get in
  match workers, r with
  | Some e, _ => fail (Fails e)
  | None, Err f => fail f
  | None, Ok _ =>
      ensure (negb (external_native s)) (Fails (says "external native worker ownership has not drained")) ;;;
      ensure (negb (delivery_io s)) (Fails (says "encoded delivery remains owned")) ;;;
      finish_read_shutdown
  end.
(** @source src/src/preview/read_queue.rs:362-364 PreviewService::take_read *)
Definition take_read (ticket : ReadTicket) : Svc (option ReadOutcome) :=
  let* s := get in
  on_queue (fun q => set_completed (delete ticket (completed q)) q) ;;;
  ret (completed (reads s) !! ticket).
(** @source src/src/preview/read_queue.rs:365-370 PreviewService::read_queue_usage *)
Definition read_queue_usage (s : PreviewService H) : Z * Z :=
  (map_len (pending (reads s)) + (if is_none (active (reads s)) then 0 else 1), map_len (completed (reads s))).

(** ** Renders *)

(** A render is asked for within the room that reads and renders leave.  The saved job
    is not modelled: [valid] is what its checks say, [persisted] what the catalog and the
    store say to saving it under its number, [cost] what it is said to cost. *)
(** @source src/src/preview/service.rs:1272-1345 PreviewService::submit *)
Definition submit (valid persisted : result Error unit) (id : string) (cost : result Error Z) (p : Priority) : Svc Z :=
  or_fails valid ;;;
  let* s := get in
  ensure (0 <? available_request_slots s) (Fails (says "preview consumer limit")) ;;;
  or_fails persisted ;;;
  let* cost := or_fails cost in
  let* consumer := on_scheduler (Scheduler.request id cost p) in
  modify (fun s => set_consumers (<[consumer := id]> (consumers s)) s) ;;;
  ret consumer.
(** [finished]: the end of the saved job, if this was its last consumer. *)
(** @source src/src/preview/service.rs:1346-1357 PreviewService::cancel *)
Definition cancel (consumer : Z) (finished : result Error unit) : Svc unit :=
  on_scheduler (Scheduler.cancel consumer) ;;;
  modify (fun s => set_consumers (delete consumer (consumers s)) s) ;;;
  or_fails finished.
(** [completed]: whether the render has ended. *)
(** @source src/src/preview/service.rs:1916-1922 PreviewService::take_completion *)
Definition take_completion (consumer : Z) (completed : bool) : Svc unit :=
  if completed then modify (fun s => set_consumers (delete consumer (consumers s)) s) else ret tt.
End Reads.
