(* ===== verification/ReadOwnership.v ===== *)
(** What a managed read holds while it is polled (src/src/preview/managed_reads.rs):
    its native request with at most one lease of the scheduler, and its reservation
    of the staging budget.  No step panics, and when a poll ends the read it has
    given the request and the lease back, or keeps the request to wait again. *)
From stdpp Require Import base tactics option list numbers gmap strings fin_maps.
From Stdlib Require Import ZArith Lia.
From S2P Require Import Prelude Bytes FsOps ReadErrors PreviewSelection ManagedReads.
From S2P Require CatalogEdits ByteBudget DecodedCache Scheduler SchedulerReads.

Open Scope Z_scope.
Local Open Scope prog_scope.

Abbreviation external := Scheduler.external.
Abbreviation q_id := Scheduler.q_id.

(** The scheduler's entries [E] are those of the others, [K], and the one of this read. *)
Definition held_by (m : ManagedRead) (K E : gmap Z Scheduler.NativeRead) : Prop :=
  match m_request m with
  | Some q => K !! q_id q = None /\ exists r, E = <[q_id q := r]> K /\
      Scheduler.r_preempted r = Scheduler.q_preempted q /\ Scheduler.r_lease r = m_lease m /\
      (is_Some (m_lease m) -> m_cost m = Some (Scheduler.r_cost r) /\ 0 < Scheduler.r_cost r)
  | None => m_lease m = None /\ E = K
  end.
(** The staging budget keeps its accounts and its size. *)
Definition staged (p : PoolId) (size : Z) (h : Heap) : Prop :=
  ByteBudget.accounted h /\ exists b, ByteBudget.pools h !! p = Some b /\ ByteBudget.limit b = size.
Definition reserved_in (p : PoolId) (t : TokenId) (h : Heap) : Prop :=
  exists r, ByteBudget.tokens h !! t = Some r /\ ByteBudget.budget r = p.

(** What a read may only be; [free]: when the catalog keeps no legacy previews. *)
Record sound (working : Z) (free abandoned : Prop) (m : ManagedRead) : Prop := {
  so_requeue : forall c d, m_requeue m = Some (c, d) -> 0 < c <= working;
  so_preempting : m_preempting m = true -> m_cancel m = true;
  so_legacy : is_Some (t_legacy_hash (m_target m)) ->
    t_stale (m_target m) = true /\ may_be_stale (m_allow_stale m) (m_tier m) = true;
  so_task : m_task m <> NoTask -> m_lease m = None;
  so_bytes : 0 <= m_capacity m /\ 0 <= m_allowance m;
  so_free : free -> t_legacy_hash (m_target m) = None;
  so_abandoned : abandoned -> m_cancel m = true /\ m_preempting m = false;
}.

Section Owned.
Context {H : Type} {BP : ByteBudget.BytePool H} {CODEC : CatalogEdits.EditCodec} {FORMATS : PreviewFormats}.

(** What no step of a read changes. *)
Record frame (s0 s : PreviewService H) : Prop := {
  fr_limits : limits s = limits s0;
  fr_policy : policy s = policy s0;
  fr_pool : encoded_pool s = encoded_pool s0;
  fr_reads : reads s = reads s0;
  fr_consumers : consumers s = consumers s0;
  fr_sched : Scheduler.limits (scheduler s) = Scheduler.limits (scheduler s0);
}.
(** The service apart from its reads' scheduler and staging. *)
Record aside_of (s0 s : PreviewService H) : Prop := {
  as_frame : frame s0 s;
  as_sched : scheduler s = scheduler s0;
  as_encoded : encoded s = encoded s0;
}.
Definition ordinary (f : Fault) : Prop := exists e, f = Fails e.

(** *** Steps that leave the scheduler and the staging alone *)

Definition aside {A} (m : Svc A) : Prop := forall s0,
  triple (aside_of s0) m (fun _ => aside_of s0) (fun f s => aside_of s0 s /\ ordinary f).
Lemma aside_ret {A} (a : A) : aside (ret a).
Proof. intros s0 s Hs. exact Hs. Qed.
Lemma aside_fail {A} e : aside (fail (A:=A) (Fails e)).
Proof. intros s0 s Hs. split; [exact Hs|by eexists]. Qed.
Lemma aside_get : aside get.
Proof. intros s0 s Hs. exact Hs. Qed.
Lemma aside_or_fails {A} (r : result Error A) : aside (or_fails r).
Proof. destruct r; [apply aside_ret|apply aside_fail]. Qed.
Lemma aside_of_option {A} (x : option A) e : aside (of_option x (Fails e)).
Proof. destruct x; [apply aside_ret|apply aside_fail]. Qed.
Lemma aside_ensure b e : aside (ensure b (Fails e)).
Proof. destruct b; [apply aside_ret|apply aside_fail]. Qed.
Lemma aside_bind {A B} (m : Svc A) (k : A -> Svc B) : aside m -> (forall a, aside (k a)) -> aside (bind m k).
Proof. intros Hm Hk s0. eapply triple_bind; [apply Hm|intros a; apply Hk]. Qed.
Lemma aside_try {A} (m : Svc A) : aside m -> forall s0,
  triple (aside_of s0) (try m) (fun r s => aside_of s0 s /\ match r with Ok _ => True | Err f => ordinary f end)
    (fun _ _ => False).
Proof.
  intros Hm s0. apply triple_try. eapply triple_conseq; [apply Hm|done| |]; simpl; intros; tauto.
Qed.
Lemma aside_modify (f : PreviewService H -> PreviewService H) : (forall s, aside_of s (f s)) -> aside (modify f).
Proof.
  intros Hf s0 s Hs. destruct (Hf s) as [[] ? ?], Hs as [[] ? ?]. constructor; [constructor|..]; simpl; congruence.
Qed.
Lemma aside_decoded {A} (m : DecodedCache.CacheM A) : aside (on_decoded m).
Proof.
  intros s0 s Hs. unfold on_decoded, within. destruct (m (decoded s)) as [c [a|e]].
  - destruct Hs as [[] ? ?]. by repeat constructor.
  - split; [destruct Hs as [[] ? ?]; by repeat constructor|]. destruct e; by eexists.
Qed.
Lemma aside_if {A} (b : bool) (m m' : Svc A) : aside m -> aside m' -> aside (if b then m else m').
Proof. by destruct b. Qed.
Lemma aside_touches f : aside (modify (fun s : PreviewService H => set_touches (f s) s)).
Proof. apply aside_modify. intros s. by repeat constructor. Qed.
Lemma aside_clock : aside clock.
Proof.
  apply aside_bind; [apply aside_get|]. intros s. apply aside_bind; [apply aside_of_option|]. intros n.
  apply aside_bind; [apply aside_modify; intros; by repeat constructor|]. intros _. apply aside_ret.
Qed.
Lemma aside_flush o : aside (flush_touches o).
Proof.
  apply aside_bind; [apply aside_get|]. intros s. apply aside_if; [apply aside_ret|].
  apply aside_bind; [apply aside_or_fails|]. intros _. apply aside_modify. intros. by repeat constructor.
Qed.
Lemma aside_finish o k i : aside (finish_managed_read o k i).
Proof.
  apply aside_bind; [apply aside_or_fails|]. intros d. apply aside_if.
  - apply aside_bind; [apply aside_or_fails|]. intros _. apply aside_bind; [apply aside_touches|]. intros _.
    apply aside_bind; [apply aside_ensure|]. intros _. apply aside_ret.
  - apply aside_bind; [apply aside_clock|]. intros n. apply aside_bind; [apply aside_touches|]. intros _.
    apply aside_bind; [apply aside_get|]. intros s. apply aside_bind; [apply aside_if; [apply aside_flush|apply aside_ret]|].
    intros _. apply aside_ret.
Qed.
Lemma aside_ignore {A} (m : Svc A) : aside m -> aside (ignore m).
Proof.
  intros Hm s0 s Hs. unfold ignore, bind, try. specialize (Hm s0 s Hs). destruct (m s) as [s' [a|f]]; simpl; [exact Hm|].
  destruct Hm as [Hs' [e ->]]. exact Hs'.
Qed.

(** *** The state of a read being polled *)

Section Polled.
Context (free abandoned : Prop) (s0 : PreviewService H) (K : gmap Z Scheduler.NativeRead).

Abbreviation room := (Scheduler.working_bytes (Scheduler.limits (scheduler s0))).

Record steady (w : PreviewService H * ManagedRead) : Prop := {
  sd_frame : frame s0 w.1;
  sd_wf : Scheduler.wf (scheduler w.1);
  sd_held : held_by w.2 K (external (scheduler w.1));
  sd_sound : sound (Scheduler.working_bytes (Scheduler.limits (scheduler s0))) free abandoned w.2;
  sd_staged : staged (encoded_pool s0) (encoded_staging_bytes (limits s0)) (encoded w.1);
  sd_guard : reserved_in (encoded_pool s0) (m_guard w.2) (encoded w.1);
}.
(** From a read with [P], the step ends in one with [Q]; it may fail, but never panics. *)
Definition spec {A} (P : ManagedRead -> Prop) (m : Rd A) (Q : A -> ManagedRead -> Prop) : Prop :=
  triple (fun w => steady w /\ P w.2) m (fun a w => steady w /\ Q a w.2) (fun f w => steady w /\ ordinary f).

Lemma spec_ret {A} (a : A) P Q : (forall m, P m -> Q a m) -> spec P (ret a) Q.
Proof. intros HQ w [Hw HP]. split; [done|by apply HQ]. Qed.
Lemma spec_fail {A} e P Q : spec P (fail (A:=A) (Fails e)) Q.
Proof. intros w [Hw _]. split; [done|by eexists]. Qed.
Lemma spec_or_fails {A} (r : result Error A) P : spec P (or_fails r) (fun _ => P).
Proof. destruct r; [by apply spec_ret|apply spec_fail]. Qed.
Lemma spec_of_option {A} (x : option A) e P : spec P (of_option x (Fails e)) (fun _ => P).
Proof. destruct x; [by apply spec_ret|apply spec_fail]. Qed.
Lemma spec_ensure b e (P : ManagedRead -> Prop) : spec P (ensure b (Fails e)) (fun _ => P).
Proof. destruct b; [by apply spec_ret|apply spec_fail]. Qed.
Lemma spec_bind {A B} (m : Rd A) (k : A -> Rd B) P R Q :
  spec P m R -> (forall a, spec (R a) (k a) Q) -> spec P (bind m k) Q.
Proof. intros Hm Hk. eapply triple_bind; [exact Hm|exact Hk]. Qed.
Lemma spec_pre {A} (P P' : ManagedRead -> Prop) (m : Rd A) Q : (forall x, P x -> P' x) -> spec P' m Q -> spec P m Q.
Proof. intros HP Hm. eapply triple_conseq; [exact Hm|intros w [? ?]; split; auto|done|done]. Qed.
Lemma spec_post {A} P (m : Rd A) (Q Q' : A -> ManagedRead -> Prop) :
  (forall a x, Q' a x -> Q a x) -> spec P m Q' -> spec P m Q.
Proof. intros HQ Hm. eapply triple_conseq; [exact Hm|done|intros a w [? ?]; split; auto|done]. Qed.
Lemma spec_read {B} (k : ManagedRead -> Rd B) P Q :
  (forall x, P x -> spec (fun m => m = x) (k x) Q) -> spec P (bind the_managed k) Q.
Proof. intros Hk w [Hw HP]. unfold bind, the_managed, gets. exact (Hk w.2 HP w (conj Hw eq_refl)). Qed.
Lemma spec_service {B} (k : PreviewService H -> Rd B) P Q :
  (forall s, frame s0 s -> spec P (k s) Q) -> spec P (bind (gets fst) k) Q.
Proof. intros Hk w [Hw HP]. unfold bind, gets. exact (Hk w.1 (sd_frame _ Hw) w (conj Hw HP)). Qed.
Lemma spec_if {A} (b : bool) (m m' : Rd A) P Q :
  (b = true -> spec P m Q) -> (b = false -> spec P m' Q) -> spec P (if b then m else m') Q.
Proof. destruct b; auto. Qed.
(** A change of the read's own fields. *)
Lemma spec_change f P (Q : unit -> ManagedRead -> Prop) :
  (forall w, steady w -> P w.2 -> steady (w.1, f w.2) /\ Q tt (f w.2)) -> spec P (change f) Q.
Proof. intros Hf w [Hw HP]. exact (Hf w Hw HP). Qed.
Lemma spec_aside {A} (m : Svc A) P : aside m -> spec P (in_service m) (fun _ => P).
Proof.
  intros Hm [s x] [Hw HP]. unfold in_service. simpl in *. specialize (Hm s s). destruct Hw as [Hf ? ? ? ? ?]. simpl in *.
  assert (aside_of s s) as Hs by (by repeat constructor). specialize (Hm Hs).
  assert (forall s', aside_of s s' -> steady (s', x)) as Hkeep.
  { intros s' [[] Hsch Henc]. destruct Hf. constructor; simpl; rewrite ?Hsch, ?Henc; try done. constructor; congruence. }
  destruct (m s) as [s' [a|f]]; simpl; [split; auto|]. destruct Hm as [? ?]. split; auto.
Qed.
Lemma spec_try {A} (m : Rd A) P Q :
  spec P m Q -> triple (fun w => steady w /\ P w.2) (try m)
    (fun r w => steady w /\ match r with Ok a => Q a w.2 | Err f => ordinary f end) (fun _ _ => False).
Proof. intros Hm. apply triple_try. eapply triple_conseq; [exact Hm|done|done|done]. Qed.
Lemma spec_try_bind {A B} (m : Rd A) (k : result Fault A -> Rd B) P R Q :
  spec P m R -> (forall a, spec (R a) (k (Ok a)) Q) -> (forall e, spec (fun _ => True) (k (Err (Fails e))) Q) ->
  spec P (bind (try m) k) Q.
Proof.
  intros Hm Hok Herr w Hw. unfold bind. pose proof (spec_try m P R Hm w Hw) as Ht. unfold try in *.
  destruct (m w) as [w' [a|f]]; [exact (Hok a w' Ht)|]. destruct Ht as [Hs [e ->]]. by apply (Herr e w').
Qed.

Lemma steady_change f s m :
  m_request (f m) = m_request m -> m_lease (f m) = m_lease m -> m_guard (f m) = m_guard m ->
  (m_cost (f m) = m_cost m \/ m_lease m = None) ->
  (sound room free abandoned m -> sound room free abandoned (f m)) -> steady (s, m) -> steady (s, f m).
Proof.
  intros Hq Hl Hg Hc Hs [? ? Hh ? ? ?]. simpl in *. constructor; simpl; [done|done| |auto|done|by rewrite Hg].
  unfold held_by in *. rewrite Hq, Hl. destruct (m_request m) as [q|]; [|done].
  destruct Hh as (HK & r & HE & Hp & Hr & Hcost). split; [done|]. exists r. split_and!; try done.
  intros [l Hl']. destruct Hc as [->|Hc]; [apply Hcost; by eexists|congruence].
Qed.
(** The same, for a read that is known. *)
Lemma spec_set f x (Q : unit -> ManagedRead -> Prop) :
  m_request (f x) = m_request x -> m_lease (f x) = m_lease x -> m_guard (f x) = m_guard x ->
  (m_cost (f x) = m_cost x \/ m_lease x = None) ->
  (sound room free abandoned x -> sound room free abandoned (f x)) -> Q tt (f x) -> spec (fun m => m = x) (change f) Q.
Proof. intros Hq Hl Hg Hc Hs HQ. apply spec_change. intros [s m] Hw Hx. simpl in *. subst m. split; [by apply steady_change|done]. Qed.
Lemma spec_set_bind {B} f x (k : unit -> Rd B) Q :
  m_request (f x) = m_request x -> m_lease (f x) = m_lease x -> m_guard (f x) = m_guard x ->
  (m_cost (f x) = m_cost x \/ m_lease x = None) ->
  (sound room free abandoned x -> sound room free abandoned (f x)) -> spec (fun m => m = f x) (k tt) Q -> spec (fun m => m = x) (bind (change f) k) Q.
Proof.
  intros Hq Hl Hg Hc Hs Hk. eapply spec_bind; [by apply (spec_set f x (fun _ m => m = f x))|]. by intros [].
Qed.

(** *** The staging budget *)

Lemma shrink_ok t n h p size : staged p size h -> reserved_in p t h -> 0 <= n ->
  exists h' r, ByteBudget.shrink t n h = (h', r) /\ staged p size h' /\ reserved_in p t h' /\
    match r with Err e => exists m, e = ByteBudget.Message m | Ok _ => True end.
Proof.
  intros [Ha (b & Hb & Hsize)] (r & Ht & Hr) Hn. unfold ByteBudget.shrink.
  rewrite (bind_ok _ _ _ _ _ (ByteBudget.the_token_ok _ _ _ Ht)). rewrite bind_ensure.
  destruct (Z.leb_spec n (ByteBudget.bytes r)); simpl.
  2: { eexists _, _. split; [done|]. split; [by split; [|exists b]|]. split; [by exists r|by eexists]. }
  rewrite Hr. rewrite (bind_ok _ _ _ _ _ (ByteBudget.the_pool_ok _ _ _ Hb)). eexists _, _. split; [done|].
  subst p. destruct (ByteBudget.token_within _ _ _ _ Ha Ht Hb). split; [split|split; [|done]].
  - apply (ByteBudget.accounted_resize h t r b); try done; lia.
  - eexists. simpl. by rewrite lookup_insert_eq.
  - eexists. simpl. by rewrite lookup_insert_eq.
Qed.
Lemma staging_drop_ok t h p size : staged p size h -> reserved_in p t h ->
  exists h', ByteBudget.drop_reservation t h = (h', Ok tt) /\ staged p size h' /\
    ByteBudget.tokens h' = delete t (ByteBudget.tokens h).
Proof.
  intros [Ha (b & Hb & Hsize)] (r & Ht & Hr). unfold ByteBudget.drop_reservation.
  rewrite (bind_ok _ _ _ _ _ (ByteBudget.the_token_ok _ _ _ Ht)). rewrite Hr.
  rewrite (bind_ok _ _ _ _ _ (ByteBudget.the_pool_ok _ _ _ Hb)). eexists. split; [done|]. subst p.
  split; [|done]. split; [by apply ByteBudget.accounted_forget|]. eexists. simpl. by rewrite lookup_insert_eq.
Qed.
Lemma spec_shrink n x : (sound room free abandoned x -> 0 <= n) -> spec (fun m => m = x) (in_service (on_encoded (ByteBudget.shrink (m_guard x) n))) (fun _ m => m = x).
Proof.
  intros Hn [s m] [[Hf ? ? Hsound Hst Hg] Hx]. simpl in *. subst m. specialize (Hn Hsound). unfold in_service, on_encoded, within. simpl.
  rewrite <- (fr_pool _ _ Hf), <- (fr_limits _ _ Hf) in Hst. rewrite <- (fr_pool _ _ Hf) in Hg.
  destruct (shrink_ok _ n _ _ _ Hst Hg Hn) as (h' & r & -> & Hst' & Hg' & Hr).
  assert (steady (set_encoded h' s, x)) as Hw.
  { destruct Hf. constructor; simpl; [by constructor|done..|congruence|congruence]. }
  destruct r as [[]|e]; simpl; [done|]. destruct Hr as [msg ->]. split; [done|by eexists].
Qed.

(** *** The scheduler *)

Lemma steady_scheduler c s m m' :
  steady (s, m) -> Scheduler.wf c -> Scheduler.limits c = Scheduler.limits (scheduler s) ->
  held_by m' K (external c) -> m_guard m' = m_guard m ->
  (sound room free abandoned m -> sound room free abandoned m') -> steady (set_scheduler c s, m').
Proof.
  intros [[] ? ? ? ? ?] Hc Hl Hh Hg Hs. simpl in *. constructor; simpl; try done; [constructor; simpl; congruence|auto|by rewrite Hg].
Qed.
(** The entry of a read in the scheduler. *)
Lemma held_entry s m q : steady (s, m) -> m_request m = Some q ->
  exists r, external (scheduler s) !! q_id q = Some r /\ external (scheduler s) = <[q_id q := r]> K /\
    K !! q_id q = None /\ Scheduler.r_preempted r = Scheduler.q_preempted q /\ Scheduler.r_lease r = m_lease m /\
    (is_Some (m_lease m) -> m_cost m = Some (Scheduler.r_cost r) /\
       0 < Scheduler.r_cost r <= Scheduler.working_bytes (Scheduler.limits (scheduler s))).
Proof.
  intros [? Hwf Hh ? ? ?] Hq. unfold held_by in Hh. simpl in *. rewrite Hq in Hh. destruct Hh as (HK & r & HE & Hp & Hl & Hc).
  assert (external (scheduler s) !! q_id q = Some r) as Hr by (by rewrite HE, lookup_insert_eq).
  exists r. split_and!; try done. intros Hs. destruct (Hc Hs). split; [done|].
  pose proof (Scheduler.ro_cost _ _ _ (Scheduler.w_read _ Hwf _ _ Hr)). lia.
Qed.
Lemma lease_request s m l : steady (s, m) -> m_lease m = Some l -> exists q, m_request m = Some q.
Proof. intros [? ? Hh ? ? ?] Hl. unfold held_by in Hh. simpl in *. destruct (m_request m); [by eexists|]. destruct Hh. congruence. Qed.

Lemma release_spec x (Q : unit -> ManagedRead -> Prop) :
  (forall m, m_lease m = None -> (m_preempting x = false -> m_request m = None) -> m_preempting m = m_preempting x ->
     m = set_lease None x \/ m = set_request None (set_lease None x) -> Q tt m) ->
  spec (fun m => m = x) release_scheduler Q.
Proof.
  intros HQ [s m] [Hw Hx]. simpl in Hx. subst m. pose proof (sd_wf _ Hw) as Hwf. simpl in Hwf. unfold release_scheduler, the_managed. rewrite (bind_ok _ _ (s, x) (s, x) x) by done.
  destruct (m_preempting x) eqn:Hpre.
  - destruct (m_lease x) as [l|] eqn:Hl.
    2: { split; [done|]. apply HQ; try done. left. destruct x. simpl in *. by subst. }
    destruct (lease_request _ _ _ Hw Hl) as [q Hq]. destruct (held_entry _ _ _ Hw Hq) as (r & Hr & HE & HK & Hp & Hrl & Hc).
    rewrite Hl in Hrl. destruct (Hc ltac:(by eexists)) as [Hcost Hb]. unfold change. rewrite bind_modify, Hcost, bind_of_option.
    destruct (SchedulerReads.requeue_read_run _ _ _ _ _ Hwf Hr Hrl Hb) as (c & Hrun & Hext).
    unfold in_service, on_scheduler, within. cbn [fst snd]. rewrite Hrun. split.
    + eapply steady_scheduler; [exact Hw| | | |done|].
      * eapply SchedulerReads.safe_wf; [apply Scheduler.requeue_safe, Hwf|exact Hrun].
      * by eapply SchedulerReads.requeue_limits.
      * unfold held_by. simpl. rewrite Hq. split; [done|]. eexists. rewrite Hext, HE, insert_insert_eq. split_and!; [done..|by intros [? ?]].
      * intros []. by constructor.
    + apply HQ; try done. by left.
  - destruct (m_lease x) as [l|] eqn:Hl.
    + destruct (lease_request _ _ _ Hw Hl) as [q Hq]. destruct (held_entry _ _ _ Hw Hq) as (r & Hr & HE & HK & Hp & Hrl & _).
      rewrite Hl in Hrl. destruct (SchedulerReads.release_read_run _ _ _ _ Hwf Hr Hrl) as (c & Hrun & Hext).
      unfold change. rewrite bind_bind, bind_modify. unfold bind, in_service, on_scheduler, within. cbn [fst snd]. rewrite Hrun. split.
      * eapply steady_scheduler; [exact Hw| | | |done|].
        { eapply SchedulerReads.safe_wf; [apply Scheduler.release_safe, Hwf|exact Hrun]. }
        { by eapply SchedulerReads.release_limits. }
        { split; [done|]. rewrite Hext, HE. by rewrite delete_insert_id. }
        { intros []. by constructor. }
      * apply HQ; try done. by right.
    + assert (set_request None x = set_request None (set_lease None x)) as Hx by (destruct x; simpl in *; by subst).
      destruct (m_request x) as [q|] eqn:Hq.
      2: { split; [|apply HQ; try done; by right]. simpl. rewrite Hx. apply (steady_change (fun m => set_request None (set_lease None m))); try done; [by right|].
        intros []. by constructor. }
      destruct (held_entry _ _ _ Hw Hq) as (r & Hr & HE & HK & Hp & Hrl & _). rewrite Hl in Hrl.
      destruct (SchedulerReads.cancel_read_run _ _ _ Hr Hrl) as (c & Hrun & Hext & _ & Hlim).
      unfold bind, in_service, on_scheduler, within, change, modify. cbn [fst snd]. rewrite Hrun. split.
      * eapply steady_scheduler; [exact Hw| |done| |done|].
        { eapply SchedulerReads.safe_wf; [apply Scheduler.cancel_queued_safe, Hwf|exact Hrun]. }
        { split; [done|]. rewrite Hext, HE. by rewrite delete_insert_id. }
        { intros []. by constructor. }
      * apply HQ; try done. by right.
Qed.
(** *** The steps *)

(** A read whose other fields changed is still sound. *)
Ltac quiet_side := first [done | by left | intros []; constructor; simpl in *; naive_solver lia].
Ltac quiet := apply spec_set_bind; [quiet_side|quiet_side|quiet_side|quiet_side|quiet_side|].
Ltac quiet_end := apply spec_set; [quiet_side|quiet_side|quiet_side|quiet_side|quiet_side|].

Lemma spec_known {A} P (m : Rd A) Q : (forall x, P x -> spec (fun m => m = x) m Q) -> spec P m Q.
Proof. intros Hm w [Hw HP]. exact (Hm w.2 HP w (conj Hw eq_refl)). Qed.
Lemma spec_at {A} (m : Rd A) Q s x : steady (s, x) -> spec (fun m => m = x) m Q ->
  match m (s, x) with (w, Ok a) => steady w /\ Q a w.2 | (w, Err f) => steady w /\ ordinary f end.
Proof. intros Hw Hm. exact (Hm (s, x) (conj Hw eq_refl)). Qed.
Lemma launch_spec o l x (Q : unit -> ManagedRead -> Prop) : Q tt (set_transport Live x) -> spec (fun m => m = x) (launch o l) Q.
Proof.
  intros HQ. apply spec_read. intros y ->. eapply spec_bind; [apply spec_ensure|]. intros ?.
  eapply spec_bind; [apply spec_or_fails|]. intros ?. by quiet_end.
Qed.
Lemma transport_poll_spec o x (Q : option (result Error Event) -> ManagedRead -> Prop) :
  (forall r, Q r x) -> (forall r, Q r (set_transport NoTask x)) -> spec (fun m => m = x) (transport_poll o) Q.
Proof.
  intros H1 H2. apply spec_read. intros y ->. destruct (m_transport x).
  - apply spec_ret. by intros ? ->.
  - destruct (event_answer o).
    + apply spec_ret. by intros ? ->.
    + quiet. apply spec_ret. by intros ? ->.
    + quiet. apply spec_fail.
  - quiet. apply spec_fail.
Qed.
Lemma take_rgb_spec x (Q : unit -> ManagedRead -> Prop) : Q tt (set_rgb None x) -> spec (fun m => m = x) take_rgb Q.
Proof.
  intros HQ. apply spec_read. intros y ->. destruct (m_rgb x) as [t|] eqn:Hr.
  - quiet. eapply spec_post; [|apply (spec_aside (drop_pixels t) (fun m => m = set_rgb None x)), aside_decoded].
    by intros [] ? ->.
  - apply spec_ret. intros m ->. assert (set_rgb None x = x) as Hx by (destruct x; simpl in *; by subst). by rewrite Hx in HQ.
Qed.
Lemma put_rgb_spec t x (Q : unit -> ManagedRead -> Prop) : Q tt (set_rgb (Some t) x) -> spec (fun m => m = x) (put_rgb t) Q.
Proof.
  intros HQ. eapply spec_bind; [by apply (take_rgb_spec x (fun _ m => m = set_rgb None x))|]. intros ?. by quiet_end.
Qed.

(** A poll that ends a read leaves it without a lease, and without its request unless
    it waits again, or was served by a decoded legacy page. *)
Definition settled (v : option PreviewView) (m : ManagedRead) : Prop :=
  m_lease m = None /\
  (m_preempting m = true \/ m_request m = None \/
   (m_cancel m = false /\ is_Some (t_legacy_hash (m_target m)) /\ exists view, v = Some view /\ is_Some (v_legacy_hash view))).
Definition stage_done (r : option (option (option PreviewView))) (m : ManagedRead) : Prop :=
  match r with
  | None => m_task m = NoTask
  | Some None => True
  | Some (Some v) => settled v m
  end.
(** The catalog keeps no legacy previews. *)
Definition legacy_free (o : Outside) : Prop := forall a s, preview_hash o a <> Ok (Some (CText s)).
Lemma legacy_free_none o a hash : legacy_free o -> legacy_reference o a <> Ok (Some hash).
Proof.
  intros Ho. unfold legacy_reference. specialize (Ho a). destruct (preview_hash o a) as [[[]|]|]; simpl; try done.
  by destruct (Ho s).
Qed.
Lemma spec_legacy {B} o (b : bool) a (k : option string -> Rd B) P Q :
  (free -> legacy_free o) ->
  (forall hash, b = true -> ~ free -> spec P (k (Some hash)) Q) -> spec P (k None) Q ->
  spec P (bind (if b then or_fails (legacy_reference o a) else ret None) k) Q.
Proof.
  intros Hfree Hsome Hnone w Hw. destruct b; [|exact (Hnone w Hw)].
  destruct (legacy_reference o a) as [[hash|]|e] eqn:Hl.
  - apply (Hsome hash eq_refl); [|done]. intros Hf. by apply (legacy_free_none o a hash (Hfree Hf)).
  - exact (Hnone w Hw).
  - split; [apply Hw|by eexists].
Qed.

Lemma encoded_arrived_spec o i bytes spare x : (free -> legacy_free o) -> m_lease x = None -> m_task x = NoTask ->
  spec (fun m => m = x) (encoded_arrived o i bytes spare) (fun again m => again = false -> m_task m = NoTask /\ m_lease m = None).
Proof.
  intros Hfree Hl Ht. apply spec_read. intros y ->. eapply spec_bind.
  { destruct (t_key (m_target x)) as [k|].
    - apply (spec_aside (finish_managed_read o k i) (fun m => m = x)), aside_finish.
    - apply (spec_ret _ _ (fun _ m => m = x)). done. }
  intros intact. apply spec_if; intros _.
  { apply spec_set_bind; [done..|by left| |].
    - intros []. constructor; simpl in *; try done. unfold zlen. naive_solver lia.
    - apply spec_ret. by intros m ->. }
  apply (spec_legacy o _ _ _ _ _ Hfree).
  - intros hash Hb Hnf. apply spec_set_bind; [done..|by left| |].
    { intros []. rewrite !andb_true_iff in Hb. destruct Hb as [[[[_ _] Ha] _] Htier].
      constructor; simpl; try done; [|unfold LEGACY_BYTES; lia]. intros ?. split; [done|]. unfold may_be_stale. by rewrite Ha, Htier. }
    apply spec_read. intros y ->. eapply spec_bind; [apply spec_shrink; intros Hn; apply (so_bytes _ _ _ _ Hn)|].
    intros ?. eapply spec_bind; [apply spec_or_fails|]. intros ?. quiet. by apply spec_ret.
  - quiet. apply spec_ret. by intros m ->.
Qed.
Lemma legacy_hit_spec x : m_task x = NoTask -> m_lease x = None ->
  spec (fun m => m = x) legacy_hit (fun hit m => match hit with Some v => settled (Some v) m | None => m_task m = NoTask end).
Proof.
  intros Ht Hl. apply spec_read. intros y ->. destruct (t_legacy_hash (m_target x)) as [hash|] eqn:Hh.
  2: { apply spec_ret. by intros m ->. }
  apply spec_if; intros Hcancel; [apply spec_ret; by intros m ->|].
  eapply spec_bind; [apply spec_aside, aside_decoded|]. intros [p|]; apply spec_ret; intros m ->; [|done].
  split; [done|]. right; right. split; [done|]. rewrite Hh. split; [by eexists|]. eexists. split; [done|by eexists].
Qed.
Lemma task_lease s m : steady (s, m) -> m_task m <> NoTask -> m_lease m = None.
Proof. intros Hw. apply (so_task _ _ _ _ (sd_sound _ Hw)). Qed.
Lemma encoded_stage_spec o : (free -> legacy_free o) -> spec (fun _ => True) (encoded_stage o) stage_done.
Proof.
  intros Hfree. apply spec_read. intros x _. destruct (m_task x) eqn:Ht.
  - apply spec_ret. by intros m ->.
  - intros [s m] [Hw Hx]. simpl in Hx. subst m. assert (m_lease x = None) as Hl by (eapply task_lease; [exact Hw|congruence]).
    revert Hw. generalize s. clear s. intros s Hw. apply (spec_known (fun m => m = x)); [|done]. intros y ->.
    destruct (encoded_answer o) as [|[[[i bytes] spare]|e]|].
    + by apply spec_ret.
    + quiet. eapply spec_bind; [by apply encoded_arrived_spec|]. intros again. apply spec_if; intros Hagain.
      { apply spec_ret. done. }
      apply spec_read. intros y Hy. destruct (Hy Hagain) as [Hyt Hyl]. eapply spec_bind.
      { apply spec_shrink. intros Hn. apply (so_bytes _ _ _ _ Hn). }
      intros ?. eapply spec_bind; [by apply legacy_hit_spec|]. intros [v|]; by apply spec_ret.
    + quiet. apply spec_fail.
    + quiet. apply spec_fail.
  - quiet. apply spec_fail.
Qed.

Lemma cancel_stage_spec o : spec (fun _ => True) (cancel_stage o) (fun r m => match r with Some v => settled v m | None => True end).
Proof.
  apply (spec_bind _ _ _ (fun _ _ => True)).
  { apply spec_known. intros x _. apply spec_read. intros y ->. apply spec_if; intros _; [by apply spec_ret|].
    apply (spec_try_bind _ _ _ (fun _ _ => True)); [by apply transport_poll_spec| |].
    - intros [[ev|e]|]; [by apply spec_ret| |by apply spec_ret]. apply spec_known. intros z _. quiet. apply spec_fail.
    - intros e. apply spec_known. intros z _. quiet. apply spec_fail. }
  intros idle. apply spec_if; intros _; [by apply spec_ret|].
  apply spec_read. intros x _. apply spec_if; intros _.
  { eapply spec_bind; [apply (launch_spec _ _ _ (fun _ _ => True)); done|]. intros ?.
    apply spec_known. intros z _. quiet. by apply spec_ret. }
  apply spec_if; intros _; [by apply spec_ret|].
  eapply (spec_bind _ _ _ (fun _ m => settled None m)).
  { apply release_spec. intros m Hl Hq Hp _. split; [done|]. rewrite Hp. destruct (m_preempting x); [by left|]. right. left. by apply Hq. }
  intros ?. eapply (spec_bind _ _ _ (fun _ m => settled None m)).
  { apply spec_known. intros y Hy. by apply take_rgb_spec. }
  intros ?. apply spec_read. intros y Hy. destruct (m_failure y).
  - quiet. apply spec_fail.
  - apply spec_ret. by intros m ->.
Qed.

(** A read that decodes: its transfer is over and it is not cancelled. *)
Definition decoding (m : ManagedRead) : Prop := m_task m = NoTask /\ m_preempting m = false.
Lemma sched_ordinary e : SchedulerReads.ordinary e -> ordinary (sched_fault e).
Proof. destruct e; [by eexists..|done]. Qed.
Lemma request_stage_spec : spec decoding request_stage (fun _ m => decoding m /\ is_Some (m_request m)).
Proof.
  apply spec_read. intros x Hx. destruct (m_request x) as [q|] eqn:Hq.
  { apply spec_ret. intros m ->. split; [done|by eexists]. }
  intros [s m] [Hw Hm]. simpl in Hm. subst m. unfold bind, in_service, on_scheduler, within. cbn [fst snd].
  pose proof (sd_wf _ Hw) as Hwf. pose proof (sd_held _ Hw) as Hh. unfold held_by in Hh. simpl in Hwf, Hh. rewrite Hq in Hh.
  destruct Hh as [Hl HE].
  destruct (Scheduler.queue_native_read Scheduler.Foreground (scheduler s)) as [c [q|e]] eqn:Hrun.
  - destruct (SchedulerReads.queue_read_ok _ _ _ _ Hrun) as [Hid Hext]. unfold change, modify. cbn [fst snd].
    split; [|by split; [|eexists]]. eapply steady_scheduler; [exact Hw| | | |done|].
    + eapply SchedulerReads.safe_wf; [apply Scheduler.queue_native_read_safe, Hwf|exact Hrun].
    + by eapply SchedulerReads.queue_limits.
    + unfold held_by. simpl. rewrite Hl. split.
      { rewrite <- HE, Hid. by apply Scheduler.fresh_read. }
      eexists. rewrite Hext, HE. split_and!; [done..|by intros [? ?]].
    + intros []. by constructor.
  - destruct (SchedulerReads.queue_read_err _ _ _ _ Hwf Hrun) as (He & Hwf' & Hext). split; [|by apply sched_ordinary].
    eapply steady_scheduler; [exact Hw|done|by eapply SchedulerReads.queue_limits| |done|done].
    unfold held_by. rewrite Hq, Hext. done.
Qed.
Lemma leased_cost s m : steady (s, m) -> m_cost m = None -> m_lease m = None.
Proof.
  intros Hw Hc. destruct (m_lease m) as [l|] eqn:Hl; [|done]. destruct (lease_request _ _ _ Hw Hl) as [q Hq].
  destruct (held_entry _ _ _ Hw Hq) as (r & _ & _ & _ & _ & _ & H'). rewrite Hl, Hc in H'. destruct H'; [by eexists|done].
Qed.
Definition costed (m : ManagedRead) : Prop := decoding m /\ is_Some (m_request m) /\ is_Some (m_cost m).
Lemma cost_stage_spec : spec (fun m => decoding m /\ is_Some (m_request m)) cost_stage (fun _ => costed).
Proof.
  apply spec_read. intros x [Hd Hq]. destruct (m_cost x) as [c|] eqn:Hc.
  { apply spec_ret. intros m ->. split; [done|]. split; [done|by eexists]. }
  apply spec_service. intros s _. eapply spec_bind; [apply spec_or_fails|]. intros c.
  apply spec_change. intros [s' m] Hw Hm. simpl in Hm. subst m. split; [|split; [done|split; [done|by eexists]]].
  apply (steady_change (set_cost (Some c))); try done; [right; by eapply leased_cost|]. intros []. by constructor.
Qed.
Definition leased (m : ManagedRead) : Prop := costed m /\ is_Some (m_lease m).
Lemma lease_stage_spec o : spec costed (lease_stage o) (fun b m => costed m /\ (b = true -> is_Some (m_lease m))).
Proof.
  apply spec_read. intros x Hx. destruct (m_lease x) as [l|] eqn:Hl.
  { apply spec_ret. intros m ->. split; [done|by eexists]. }
  apply spec_service. intros s _. apply spec_if; intros _; [by apply spec_ret; intros m ->|]. clear s.
  pose proof Hx as (Hd & [q Hq] & [cost Hc]). rewrite Hq, Hc.
  intros [s m] [Hw Hm]. simpl in Hm. subst m. unfold unwrap. rewrite !bind_of_option. unfold bind at 1, in_service, on_scheduler, within.
  cbn [fst snd]. destruct (held_entry _ _ _ Hw Hq) as (r & Hr & HE & HK & Hp & Hrl & _). rewrite Hl in Hrl.
  pose proof (sd_wf _ Hw) as Hwf. simpl in Hwf.
  destruct (SchedulerReads.admit_read_run _ _ _ cost Hwf Hr Hrl) as (c & a & c' & o' & -> & Hwf' & Hlim & Hext & Ha).
  assert (forall x', m_request x' = Some q -> m_guard x' = m_guard x -> m_lease x' = o' -> (is_Some o' -> m_cost x' = Some c' /\ 0 < c') ->
    (sound room free abandoned x -> sound room free abandoned x') -> steady (set_scheduler c s, x')) as Hnew.
  { intros x' Hq' Hg Hl' Hcost Hs. eapply steady_scheduler; [exact Hw|done|done| |done|done]. unfold held_by. rewrite Hq'. split; [done|].
    eexists. rewrite Hext, HE, insert_insert_eq. split_and!; [done|done|done|]. rewrite Hl'. exact Hcost. }
  destruct a as [[l|]|e].
  - destruct Ha as (-> & -> & Hpos). assert (steady (set_scheduler c s, set_lease (Some l) x)) as Hw1.
    { apply Hnew; try done. intros []. constructor; simpl; try done. intros Ht. by destruct Hd. }
    revert Hw1. generalize (set_scheduler c s). intros s1 Hw1. unfold change at 1. rewrite bind_modify. cbn [fst snd].
    apply (spec_at _ (fun b m => costed m /\ (b = true -> is_Some (m_lease m)))); [done|].
    assert (costed (set_lease (Some l) x)) as Hy by done.
    eapply (spec_bind _ _ _ (fun _ m => leased m)).
    { destruct (m_requeue x).
      - quiet. eapply spec_bind; [by apply (launch_spec _ _ _ (fun _ => leased)); split; [|by eexists]|].
        intros ?. apply spec_known. intros z Hz. by quiet_end.
      - apply spec_ret. intros m ->. split; [done|by eexists]. }
    intros ?. apply spec_ret. intros m [? ?]. done.
  - subst o'. split; [|done]. by apply Hnew; try done; intros [? ?].
  - destruct Ha as [-> He]. split; [|by apply sched_ordinary]. by apply Hnew; try done; intros [? ?].
Qed.
Lemma launch_stage_spec o : spec leased (launch_stage o) (fun _ => leased).
Proof.
  apply spec_read. intros x Hx. apply spec_if; intros _; [by apply spec_ret; intros m ->|].
  destruct Hx as [(Hd & Hq & [c Hc]) Hl]. rewrite Hc. unfold unwrap.
  eapply (spec_bind _ _ _ (fun _ m => m = x)); [by apply spec_ret|]. intros ?. quiet.
  eapply spec_bind.
  { apply (launch_spec _ _ _ (fun _ => leased)). split; [|done]. split; [done|]. split; [done|]. by exists c. }
  intros ?. apply spec_known. intros y Hy. by quiet_end.
Qed.
Lemma on_header_spec o h : spec leased (on_header o h) (fun _ _ => True).
Proof.
  apply spec_read. intros x [Hc [l Hl]]. eapply spec_bind; [apply spec_ensure|]. intros ?.
  apply spec_service. intros sv _. eapply spec_bind; [apply spec_or_fails|]. intros cost.
  rewrite Hl. intros [s m] [Hw Hm]. simpl in Hm. subst m. unfold unwrap. rewrite bind_of_option.
  unfold bind at 1, in_service, on_scheduler, within. cbn [fst snd].
  destruct (lease_request _ _ _ Hw Hl) as [q Hq]. destruct (held_entry _ _ _ Hw Hq) as (r & Hr & HE & HK & Hp & Hrl & Hrc).
  rewrite Hl in Hrl, Hrc. destruct (Hrc ltac:(by eexists)) as [Hcost Hb]. pose proof (sd_wf _ Hw) as Hwf. simpl in Hwf.
  destruct (SchedulerReads.upgrade_read_run _ _ _ _ cost Hwf Hr Hrl ltac:(lia)) as (c & up & c' & -> & Hwf' & Hlim & Hext & Hpos & Ha).
  assert (forall x', m_request x' = Some q -> m_guard x' = m_guard x -> m_lease x' = Some l -> m_cost x' = Some c' ->
    (sound room free abandoned x -> sound room free abandoned x') -> steady (set_scheduler c s, x')) as Hnew.
  { intros x' Hq' Hg Hl' Hcost' Hs. eapply steady_scheduler; [exact Hw|done|done| |done|done]. unfold held_by. rewrite Hq'. split; [done|].
    eexists. rewrite Hext, HE, insert_insert_eq. split_and!; [done..|]. by intros _. }
  destruct up as [[|]|e]; cbn [negb].
  - subst c'. assert (steady (set_scheduler c s, set_cost (Some cost) x)) as Hw1.
    { apply Hnew; try done. intros []. by constructor. }
    unfold change at 1. rewrite bind_modify. cbn [fst snd].
    apply (spec_at _ (fun _ _ => True)); [done|].
    eapply spec_bind; [apply spec_aside, aside_decoded|]. intros t.
    eapply spec_bind; [by apply (put_rgb_spec _ _ (fun _ m => m = set_rgb (Some t) (set_cost (Some cost) x)))|].
    intros ?. quiet. by apply launch_spec.
  - destruct Ha as [-> Hcl]. assert (steady (set_scheduler c s, x)) as Hw1 by (by apply Hnew).
    unfold change at 1. rewrite bind_modify. cbn [fst snd].
    assert (steady (set_scheduler c s, set_requeue (Some (cost, (h_width h, h_height h))) x)) as Hw2.
    { apply Hnew; try done. intros []. constructor; simpl; try done. intros ? ? [= <- _].
      pose proof (fr_sched _ _ (sd_frame _ Hw)) as Hroom. simpl in Hroom. rewrite <- Hroom. exact Hcl. }
    apply (spec_at _ (fun _ _ => True)); [done|]. by apply launch_spec.
  - destruct Ha as [-> He]. split; [by apply Hnew|by apply sched_ordinary].
Qed.
Definition ended (r : option (option PreviewView)) (m : ManagedRead) : Prop :=
  match r with Some v => settled v m | None => True end.
Lemma release_settled x v : m_preempting x = false -> spec (fun m => m = x) release_scheduler (fun _ => settled v).
Proof. intros Hp. apply release_spec. intros m Hl Hq _ _. split; [done|]. right; left. by apply Hq. Qed.
Lemma on_drained_spec : spec leased on_drained ended.
Proof.
  apply spec_read. intros x [(Hd & Hq & _) [l Hl]]. destruct (m_requeue x) as [[cost d]|] eqn:Hrq.
  2: { eapply spec_bind; [apply (release_settled _ None), Hd|]. intros ?. by apply spec_ret. }
  rewrite Hl. destruct Hq as [q Hq]. intros [s m] [Hw Hm]. simpl in Hm. subst m.
  unfold change at 1, unwrap. rewrite bind_modify, bind_of_option. unfold bind at 1, in_service at 1, on_scheduler, within. cbn [fst snd].
  destruct (held_entry _ _ _ Hw Hq) as (r & Hr & HE & HK & Hp & Hrl & _). rewrite Hl in Hrl.
  pose proof (sd_wf _ Hw) as Hwf. simpl in Hwf. pose proof (so_requeue _ _ _ _ (sd_sound _ Hw) _ _ Hrq) as Hb.
  pose proof (fr_sched _ _ (sd_frame _ Hw)) as Hroom. simpl in Hroom. rewrite <- Hroom in Hb.
  destruct (SchedulerReads.requeue_read_run _ _ _ _ _ Hwf Hr Hrl Hb) as (c & Hrun & Hext). rewrite Hrun.
  apply (spec_at _ ended).
  - eapply steady_scheduler; [exact Hw| | | |done|].
    + eapply SchedulerReads.safe_wf; [apply Scheduler.requeue_safe, Hwf|exact Hrun].
    + by eapply SchedulerReads.requeue_limits.
    + unfold held_by. simpl. rewrite Hq. split; [done|]. eexists. rewrite Hext, HE, insert_insert_eq. split_and!; [done..|by intros [? ?]].
    + intros []. by constructor.
  - apply spec_set_bind; [done|done|done|by right|intros []; by constructor|].
    eapply spec_bind; [by apply (take_rgb_spec _ (fun _ _ => True))|]. intros ?. by apply spec_ret.
Qed.
Lemma decoded_view_spec o p : spec leased (decoded_view o p) settled.
Proof.
  apply spec_known. intros x [(Hd & _) _].
  eapply (spec_bind _ _ _ (fun _ m => forall v, settled v m)).
  { apply release_spec. intros m Hl Hq _ _ v. split; [done|]. right; left. apply Hq, Hd. }
  intros ?. apply spec_read. intros y Hy. eapply spec_bind; [apply spec_or_fails|]. intros current.
  apply spec_if; intros _; apply spec_ret; by intros m ->.
Qed.
Lemma on_pixels_spec o p : spec leased (on_pixels o p) ended.
Proof.
  apply spec_read. intros x Hx. eapply spec_bind; [apply spec_of_option|]. intros t. quiet.
  eapply spec_bind; [apply spec_aside, aside_decoded|]. intros pixels.
  apply (spec_try_bind _ _ _ settled).
  - eapply spec_pre; [|apply decoded_view_spec]. by intros y ->.
  - intros [v|]; [by apply spec_ret|]. eapply spec_bind; [apply spec_aside, aside_decoded|]. intros ?. by apply spec_ret.
  - intros e. eapply spec_bind; [apply spec_aside, aside_decoded|]. intros ?. apply spec_fail.
Qed.
Lemma decode_stage_spec o : spec decoding (decode_stage o) ended.
Proof.
  eapply spec_bind; [apply request_stage_spec|]. intros ?. eapply spec_bind; [apply cost_stage_spec|]. intros ?.
  eapply spec_bind; [apply lease_stage_spec|]. intros admitted. apply spec_if; intros Had; [by apply spec_ret|].
  eapply (spec_bind _ _ _ (fun _ => leased)).
  { eapply spec_pre; [|apply launch_stage_spec]. intros x [Hc Hl]. split; [done|]. apply Hl. by destruct admitted. }
  intros ?. eapply (spec_bind _ _ _ (fun _ => leased)).
  { apply spec_known. intros x Hx. by apply transport_poll_spec. }
  intros [[[h|p|]|e]|].
  - eapply spec_bind; [apply on_header_spec|]. intros ?. by apply spec_ret.
  - apply on_pixels_spec.
  - apply on_drained_spec.
  - apply spec_fail.
  - by apply spec_ret.
Qed.
Lemma advance_spec o : (free -> legacy_free o) -> spec (fun _ => True) (advance_managed_read o) ended.
Proof.
  intros Hfree. eapply spec_bind; [by apply encoded_stage_spec|]. intros [r|].
  { apply spec_ret. by destruct r. }
  apply spec_read. intros x Hx. apply spec_if; intros Hc.
  - eapply spec_pre; [|apply cancel_stage_spec]. done.
  - intros [s m] [Hw Hm]. simpl in Hm. subst m. apply decode_stage_spec. split; [done|]. split; [done|]. simpl.
    destruct (m_preempting x) eqn:Hp; [|done]. pose proof (so_preempting _ _ _ _ (sd_sound _ Hw) Hp) as Hc'. simpl in Hc'. congruence.
Qed.

(** An ignored step that leaves the read's resources alone. *)
Lemma ignored {A} (m : Svc A) s x : aside m -> steady (s, x) ->
  exists s', ignore (in_service m) (s, x) = ((s', x), Ok tt) /\ steady (s', x).
Proof.
  intros Hm Hw. pose proof (spec_aside m (fun y => y = x) Hm (s, x) (conj Hw eq_refl)) as Hs.
  unfold ignore, bind, try. unfold in_service in *. cbn [fst snd] in *.
  destruct (m s) as [s' [a|f]]; simpl in Hs; [exists s'; split; [done|apply Hs]|].
  destruct Hs as [Hs [e ->]]. by exists s'.
Qed.
(** The poll, on each outcome: an error ends the read as well, with nothing held. *)
Definition poll_spec {A} (m : Rd A) (Q : A -> ManagedRead -> Prop) : Prop :=
  triple steady m (fun a w => steady w /\ Q a w.2)
    (fun f w => steady w /\ ordinary f /\ m_lease w.2 = None /\ m_request w.2 = None).
Lemma read_failed_spec o e : poll_spec (read_failed o e) ended.
Proof.
  intros [s x] Hw. unfold read_failed, the_managed. rewrite (bind_ok _ _ (s, x) (s, x) x) by done.
  destruct (m_cancel x && is_canceled e); [done|].
  assert (steady (s, set_preempting false x)) as Hw1.
  { apply (steady_change (set_preempting false)); try done; [by left|]. intros []. constructor; simpl; naive_solver. }
  unfold change at 1. rewrite bind_modify. cbn [fst snd].
  destruct (m_cleanup x && negb (transport_pending x) && is_none (m_lease x) && is_none (m_request x)) eqn:Hend.
  - rewrite !andb_true_iff in Hend. destruct Hend as [[_ Hl] Hq]. split; [done|]. split; [by eexists|]. simpl.
    by destruct (m_lease x), (m_request x).
  - set (y := set_preempting false x) in *.
    assert (exists s', (if is_corrupt e then match t_key (m_target y) with
        | Some k => ignore (in_service (finish_managed_read o k Corrupt)) | None => ret tt end else ret tt) (s, y) = ((s', y), Ok tt) /\
      steady (s', y)) as (s' & Hrun & Hw2).
    { destruct (is_corrupt e); [|by exists s]. destruct (t_key (m_target y)) as [k|]; [|by exists s]. apply ignored; [apply aside_finish|done]. }
    change (m_target x) with (m_target y). rewrite (bind_ok _ _ _ _ _ Hrun).
    unfold change. rewrite !bind_modify. cbn [fst snd ret ended]. split; [|done].
    apply (steady_change (fun m => set_cancel true (set_failure _ m))); try done; [by left|]. intros []. by constructor.
Qed.
Lemma poll_managed_read_spec o : (free -> legacy_free o) -> poll_spec (poll_managed_read o) ended.
Proof.
  intros Hfree [s x] Hw. unfold poll_managed_read. rewrite bind_get. cbn [fst snd].
  assert (exists y, (if match m_request x with Some q => Scheduler.load (scheduler s) (Scheduler.q_preempted q) | None => false end
      && negb (m_cancel x) then change (H:=H) preempt else ret tt) (s, x) = ((s, y), Ok tt) /\ steady (s, y)) as (y & Hrun & Hy).
  { destruct (_ && _) eqn:Hb; [|by exists x]. exists (preempt x). split; [done|]. apply andb_true_iff in Hb as [_ Hb%negb_true_iff].
    apply (steady_change preempt); try done; [by left|]. intros []. constructor; simpl; try done. intros Ha.
    destruct (so_abandoned0 Ha). congruence. }
  rewrite (bind_ok _ _ _ _ _ Hrun). unfold bind, try. pose proof (advance_spec o Hfree (s, y) (conj Hy I)) as Ha.
  destruct (advance_managed_read o (s, y)) as [w [v|f]]; [exact Ha|]. destruct Ha as [Hw' [e ->]]. by apply read_failed_spec.
Qed.

(** Draining a read for shutdown. *)
Lemma drain_spec o : spec (fun _ => True) (drain o) (fun _ m => m_preempting m = false).
Proof.
  apply spec_known. intros x _. apply spec_set_bind; [done|done|done|by left|intros []; by constructor|].
  apply spec_read. intros y ->. eapply (spec_bind _ _ _ (fun _ m => m_preempting m = false)).
  { destruct (m_task _) eqn:Ht; [by apply spec_ret; intros m ->| |by apply spec_ret; intros m ->].
    apply spec_set_bind; [done|done|done|by left| |].
    - intros []. constructor; simpl in *; try done. intros _. apply so_task0. congruence.
    - eapply spec_post; [|apply spec_or_fails]. by intros ? m ->. }
  intros ?. apply spec_known. intros y Hy. quiet.
  apply spec_set_bind; [done|done|done|by left|intros []; by constructor|].
  apply spec_read. intros z ->. eapply (spec_bind _ _ _ (fun _ m => m_preempting m = false)).
  { destruct (m_transport _); [by apply spec_ret; intros m ->| |by apply spec_ret; intros m ->].
    quiet. eapply spec_post; [|apply spec_or_fails]. by intros ? m ->. }
  intros ?. apply spec_known. intros z Hz. quiet. eapply spec_post; [|apply spec_or_fails]. by intros ? m ->.
Qed.
End Polled.
End Owned.
