(* ===== verification/ReadLedger.v ===== *)
(** The queue of cached preview reads (src/src/preview/read_queue.rs) as a client of
    the native scheduler: which read owns which entry of the scheduler, and where a
    ticket can go. *)
From stdpp Require Import base tactics option list numbers gmap strings fin_maps.
From Stdlib Require Import ZArith Lia.
From S2P Require Import Prelude Bytes FsOps ReadErrors PreviewSelection ManagedReads ReadOwnership.
From S2P Require CatalogEdits ByteBudget DecodedCache Scheduler SchedulerReads.

Open Scope Z_scope.
Local Open Scope prog_scope.

Section Ledger.
Context {H : Type} {BP : ByteBudget.BytePool H} {CODEC : CatalogEdits.EditCodec} {FORMATS : PreviewFormats}.
Context (free : Prop).
Implicit Types (s : PreviewService H) (o : Outside) (Q : gmap ReadTicket PendingRead) (K E : gmap Z Scheduler.NativeRead).

(** ** Beginning a read *)

(** Only the staging budget and the parts no read shares may change. *)
Record base s0 s : Prop := {
  ba_frame : frame s0 s;
  ba_sched : scheduler s = scheduler s0;
  ba_staged : staged (encoded_pool s0) (encoded_staging_bytes (limits s0)) (encoded s);
}.
Lemma base_aside s0 s s' : base s0 s -> aside_of s s' -> base s0 s'.
Proof. intros [[] ? ?] [[] ? ?]. constructor; [constructor|..]; congruence. Qed.
Lemma aside_refl s : aside_of s s.
Proof. by repeat constructor. Qed.

Definition kept (g : TokenId) s0 s : Prop := base s0 s /\ reserved_in (encoded_pool s0) g (encoded s).
Lemma kept_aside {A} (m : Svc A) g s0 : aside m ->
  triple (kept g s0) m (fun _ => kept g s0) (fun f s => kept g s0 s /\ ordinary f).
Proof.
  intros Hm s [Hb Hg]. specialize (Hm s s (aside_refl s)).
  assert (forall s', aside_of s s' -> kept g s0 s') as Hk.
  { intros s' Hs. split; [by eapply base_aside|]. by rewrite (as_encoded _ _ Hs). }
  destruct (m s) as [s' [a|f]]; [auto|]. destruct Hm. auto.
Qed.
(** What a read is when it begins. *)
Record begun (room : Z) (g : TokenId) (m : ManagedRead) : Prop := {
  bg_request : m_request m = None;
  bg_lease : m_lease m = None;
  bg_guard : m_guard m = g;
  bg_sound : sound room free False m;
}.
Lemma target_legacy o cached k t a tgt : (free -> legacy_free o) -> read_target o cached k t a = Ok (Some tgt) ->
  (is_Some (t_legacy_hash tgt) -> t_stale tgt = true /\ may_be_stale a t = true) /\ (free -> t_legacy_hash tgt = None).
Proof.
  intros Hfree. unfold read_target. destruct cached as [c|].
  { intros (d & _ & [= <-])%rbind_Ok. simpl. split; [by intros [? ?]|done]. }
  destruct (a && _ && _) eqn:Hb; [|done]. rewrite !andb_true_iff in Hb. destruct Hb as [[Ha _] Ht].
  intros (hash & Hl & Hh)%rbind_Ok. destruct hash as [hash|]; [|done]. injection Hh as <-. simpl. unfold may_be_stale. rewrite Ha, Ht.
  split; [done|]. intros Hf. by destruct (legacy_free_none o _ _ (Hfree Hf) Hl).
Qed.
Lemma start_transfer_ok o g s0 tgt i t a n : 0 <= n ->
  (is_Some (t_legacy_hash tgt) -> t_stale tgt = true /\ may_be_stale a t = true) -> (free -> t_legacy_hash tgt = None) ->
  triple (kept g s0) (start_transfer o g tgt i t a n)
    (fun b s => kept g s0 s /\ match b with BPending m => forall room, begun room g m | BReady _ => True end)
    (fun f s => kept g s0 s /\ ordinary f).
Proof.
  intros Hn Hl Hf. eapply triple_bind; [apply kept_aside, aside_or_fails|]. intros ?. cbv zeta.
  set (n' := if negb (is_none (t_legacy_hash tgt)) then Z.min n LEGACY_BYTES else n).
  assert (0 <= n') as Hn' by (unfold n', LEGACY_BYTES; case_match; lia).
  eapply (triple_bind _ _ _ (fun _ => kept g s0)).
  { intros s [Hb Hg]. unfold on_encoded, within. destruct (shrink_ok g n' _ _ _ (ba_staged _ _ Hb) Hg Hn') as (h' & r & -> & Hst & Hg' & Hr).
    assert (kept g s0 (set_encoded h' s)) as Hk by (destruct Hb as [[] ? ?]; split; [constructor; [constructor|..]|]; done).
    destruct r as [[]|e]; [done|]. destruct Hr as [msg ->]. split; [done|by eexists]. }
  intros ?. eapply triple_bind; [apply kept_aside, aside_or_fails|]. intros ?.
  apply triple_ret. intros s Hs. split; [done|]. intros room. by constructor.
Qed.
Lemma decoded_hit_ok o tgt i k t a p g s0 :
  triple (kept g s0) (decoded_hit o tgt i k t a p)
    (fun b s => kept g s0 s /\ match b with BPending m => forall room, begun room g m | BReady _ => True end)
    (fun f s => kept g s0 s /\ ordinary f).
Proof.
  assert (forall x : result Fault Begin, match x with Ok (BPending _) => False | Ok _ => True | Err f => ordinary f end ->
    triple (kept g s0) (drop_page p ;;; (fun s => (s, x))) (fun b s => kept g s0 s /\
      match b with BPending m => forall room, begun room g m | BReady _ => True end) (fun f s => kept g s0 s /\ ordinary f)) as Hd.
  { intros x Hx. eapply triple_bind; [apply kept_aside, aside_decoded|]. intros ? s Hs. by destruct x as [[v|m]|f]. }
  unfold decoded_hit. intros s Hs. unfold bind at 1, try, or_fails. destruct (edit_identity o k) as [current|e]; simpl.
  - destruct (_ && negb (may_be_stale a t)); [by apply (Hd (Ok (BReady None)))|done].
  - apply (Hd (Err (Fails e))); [by eexists|done].
Qed.
Lemma bind_or_fails {S A B} (r : result Error A) (k : A -> proc Fault S B) (s : S) :
  bind (or_fails r) k s = match r with Ok a => k a s | Err e => (s, Err (Fails e)) end.
Proof. by destruct r. Qed.
(** A reservation that is dropped unless the read goes on. *)
Lemma guarded_spec g s0 (m : Svc Begin) :
  triple (kept g s0) m (fun b s => kept g s0 s /\ match b with BPending m => forall room, begun room g m | BReady _ => True end)
    (fun f s => kept g s0 s /\ ordinary f) ->
  triple (kept g s0) (guarded g pends m)
    (fun b s => base s0 s /\ match b with
      | BPending m => reserved_in (encoded_pool s0) (m_guard m) (encoded s) /\ forall room, begun room (m_guard m) m
      | BReady _ => True end) (fun f s => base s0 s /\ ordinary f).
Proof.
  intros Hm s Hs. unfold guarded, bind at 1, try. specialize (Hm s Hs).
  assert (forall s', kept g s0 s' -> exists s'', drop_staging g s' = (s'', Ok tt) /\ base s0 s'') as Hdrop.
  { intros s' [Hb Hg]. unfold drop_staging, on_encoded, within. destruct (staging_drop_ok _ _ _ _ (ba_staged _ _ Hb) Hg) as (h' & -> & Hst & _).
    eexists. split; [done|]. destruct Hb as [[] ? ?]. constructor; [by constructor|done..]. }
  destruct (m s) as [s' [[v|r]|f]].
  - destruct Hm as [Hk _]. destruct (Hdrop _ Hk) as (s'' & Hd & Hb). cbn [pends]. by rewrite (bind_ok _ _ _ _ _ Hd).
  - destruct Hm as [[Hb Hg] Hr]. cbn [pends]. split; [done|]. rewrite (bg_guard _ _ _ (Hr 0)). done.
  - destruct Hm as [Hk Hf]. destruct (Hdrop _ Hk) as (s'' & Hd & Hb). by rewrite (bind_ok _ _ _ _ _ Hd).
Qed.
Lemma begin_spec o k t a i sync s0 s : (free -> legacy_free o) -> base s0 s ->
  match begin_managed_read o k t a i sync s with
  | (s', Ok b) => base s0 s' /\ match b with
      | BPending m => reserved_in (encoded_pool s0) (m_guard m) (encoded s') /\ forall room, begun room (m_guard m) m
      | BReady _ => True end
  | (s', Err f) => base s0 s' /\ ordinary f
  end.
Proof.
  intros Hfree. revert s. change (triple (base s0) (begin_managed_read o k t a i sync)
    (fun b s => base s0 s /\ match b with
      | BPending m => reserved_in (encoded_pool s0) (m_guard m) (encoded s) /\ forall room, begun room (m_guard m) m
      | BReady _ => True end) (fun f s => base s0 s /\ ordinary f)).
  assert (forall A (m : Svc A), aside m -> triple (base s0) m (fun _ => base s0) (fun f s => base s0 s /\ ordinary f)) as Haside.
  { intros A m Hm s Hs. specialize (Hm s s (aside_refl s)). destruct (m s) as [s' [x|f]]; [by eapply base_aside|].
    destruct Hm. split; [by eapply base_aside|done]. }
  eapply triple_bind; [apply Haside, aside_or_fails|]. intros identity s Hs. rewrite bind_get, bind_or_fails.
  destruct (wanted_key _ _ _ _) as [wanted|e]; [|split; [done|by eexists]].
  destruct (ba_staged _ _ Hs) as [Hacc (b & Hb & Hsize)].
  assert (exists st, on_encoded (ByteBudget.snapshot (encoded_pool s)) s = (s, Ok (st, ByteBudget.used b))) as [st Hsnap].
  { rewrite (fr_pool _ _ (ba_frame _ _ Hs)). unfold on_encoded, within, ByteBudget.snapshot.
    rewrite (bind_ok _ _ _ _ _ (ByteBudget.the_pool_ok _ _ _ Hb)). eexists. by destruct s. }
  rewrite (bind_ok _ _ _ _ _ Hsnap), bind_of_option. cbn [snd].
  destruct (ByteBudget.ac_pool _ Hacc _ _ Hb) as (_ & Hmax & _ & Hused).
  assert (0 <= ByteBudget.used b) as Hpos.
  { destruct (ByteBudget.ac_pool _ Hacc _ _ Hb) as (_ & _ & -> & _). apply map_sum_nonneg. intros. by eapply ByteBudget.charge_nonneg. }
  rewrite (fr_limits _ _ (ba_frame _ _ Hs)), <- Hsize. unfold checked_sub. rewrite (proj2 (Z.leb_le _ _)) by lia.
  set (n := ByteBudget.limit b - ByteBudget.used b).
  assert (exists s1 g, on_encoded (ByteBudget.try_reserve (encoded_pool s) n) s = (s1, Ok (Some g)) /\ kept g s0 s1) as (s1 & g & Hres & Hk).
  { rewrite (fr_pool _ _ (ba_frame _ _ Hs)). unfold on_encoded, within, ByteBudget.try_reserve, bind, try.
    rewrite (ByteBudget.reserve_exact_run _ _ _ _ Hb). rewrite (proj2 (Z.ltb_ge _ _)) by (unfold n; lia). simpl.
    eexists _, _. split; [done|]. destruct Hs as [[] ? ?]. split; [constructor; [by constructor|done|]|].
    - simpl. split; [|eexists; simpl; rewrite lookup_insert_eq; split; [done|simpl; done]].
      apply (ByteBudget.accounted_new (encoded s) _ b n _ Hacc Hb); unfold n; lia.
    - eexists. simpl. rewrite lookup_insert_eq. done. }
  rewrite (bind_ok _ _ _ _ _ Hres), bind_of_option. clear Hsnap Hres. revert s1 Hk.
  match goal with |- forall s1, _ -> match ?body s1 with _ => _ end => change (triple (kept g s0) body
    (fun b s => base s0 s /\ match b with
      | BPending m => reserved_in (encoded_pool s0) (m_guard m) (encoded s) /\ forall room, begun room (m_guard m) m
      | BReady _ => True end) (fun f s => base s0 s /\ ordinary f)) end.
  apply guarded_spec. eapply triple_bind; [apply kept_aside, aside_or_fails|]. intros cached.
  destruct (read_target o cached k t a) as [[tgt|]|e] eqn:Ht.
  2: { intros s' Hs'. rewrite bind_or_fails. done. }
  2: { intros s' Hs'. rewrite bind_or_fails. split; [done|by eexists]. }
  destruct (target_legacy _ _ _ _ _ _ Hfree Ht) as [Hl Hf]. intros s' Hs'. rewrite bind_or_fails. revert s' Hs'.
  eapply triple_bind.
  { apply (kept_aside (if is_none (t_legacy_hash tgt) then on_decoded (DecodedCache.managed_lookup (t_cache_key tgt)) else ret None)).
    apply aside_if; [apply aside_decoded|apply aside_ret]. }
  intros [pixels|].
  - apply decoded_hit_ok.
  - eapply (triple_bind _ _ _ (fun _ => kept g s0)).
    { apply kept_aside, aside_if; [|apply aside_ret]. apply aside_bind; [apply aside_get|]. intros sv. apply aside_ensure. }
    intros ?. apply start_transfer_ok; try done. unfold n. lia.
Qed.

(** ** Who owns which entry *)

(** [K]: the entries of the reads that wait in [Q], and the lost ones, [G]. *)
Record waits Q K (G : gset Z) : Prop := {
  wt_native : forall t p q, Q !! t = Some p -> p_native p = Some q -> q_id q ∉ G /\
    exists r, K !! q_id q = Some r /\ Scheduler.r_preempted r = Scheduler.q_preempted q;
  wt_inj : forall t t' p p' q q', Q !! t = Some p -> Q !! t' = Some p' -> p_native p = Some q -> p_native p' = Some q' ->
    q_id q = q_id q' -> t = t';
  wt_all : forall id r, K !! id = Some r -> Scheduler.r_lease r = None /\
    (id ∈ G \/ exists t p q, Q !! t = Some p /\ p_native p = Some q /\ q_id q = id);
  wt_lost : forall id, id ∈ G -> is_Some (K !! id);
}.
Lemma waits_empty : waits ∅ ∅ ∅.
Proof. by constructor; intros *; rewrite ?lookup_empty; set_solver. Qed.
Lemma waits_insert Q K G t p q r :
  waits Q K G -> Q !! t = None -> K !! q_id q = None -> p_native p = Some q -> Scheduler.r_lease r = None ->
  Scheduler.r_preempted r = Scheduler.q_preempted q -> waits (<[t := p]> Q) (<[q_id q := r]> K) G.
Proof.
  intros [] Ht HK Hp Hl Hf. assert (q_id q ∉ G) as Hn by (intros [? ?]%wt_lost0; congruence).
  assert (forall t' p' q', Q !! t' = Some p' -> p_native p' = Some q' -> q_id q' <> q_id q) as Hne.
  { intros t' p' q' Ht' Hp' He. destruct (wt_native0 _ _ _ Ht' Hp') as (_ & r' & Hr' & _). congruence. }
  constructor.
  - intros t' p' q' [[<- <-]|[? Ht']]%lookup_insert_Some Hp'.
    + rewrite Hp in Hp'. injection Hp' as <-. split; [done|]. exists r. by rewrite lookup_insert_eq.
    + rewrite lookup_insert_ne by (symmetry; by eapply Hne). eauto.
  - intros t1 t2 p1 p2 q1 q2 [[<- <-]|[? H1]]%lookup_insert_Some [[<- <-]|[? H2]]%lookup_insert_Some Hp1 Hp2 He; try done.
    + rewrite Hp in Hp1. injection Hp1 as <-. by destruct (Hne _ _ _ H2 Hp2).
    + rewrite Hp in Hp2. injection Hp2 as <-. by destruct (Hne _ _ _ H1 Hp1).
    + eauto.
  - intros id r' [[<- <-]|[? Hr]]%lookup_insert_Some.
    + split; [done|]. right. exists t, p, q. by rewrite lookup_insert_eq.
    + destruct (wt_all0 _ _ Hr) as [? [?|(t' & p' & q' & Ht' & ? & ?)]]; (split; [done|]); [by left|right].
      exists t', p', q'. rewrite lookup_insert_ne by congruence. done.
  - intros id Hid. rewrite lookup_insert_ne by congruence. auto.
Qed.
Lemma waits_insert_none Q K G t p : waits Q K G -> Q !! t = None -> p_native p = None -> waits (<[t := p]> Q) K G.
Proof.
  intros [] Ht Hp. constructor; [| | |done].
  - intros t' p' q' [[<- <-]|[? Ht']]%lookup_insert_Some Hp'; [congruence|eauto].
  - intros t1 t2 p1 p2 q1 q2 [[<- <-]|[? H1]]%lookup_insert_Some [[<- <-]|[? H2]]%lookup_insert_Some; try congruence. eauto.
  - intros id r Hr. destruct (wt_all0 _ _ Hr) as [? [?|(t' & p' & q' & Ht' & ? & ?)]]; (split; [done|]); [by left|right].
    exists t', p', q'. rewrite lookup_insert_ne by congruence. done.
Qed.
Lemma waits_delete Q K G t p : waits Q K G -> Q !! t = Some p ->
  waits (delete t Q) (match p_native p with Some q => delete (q_id q) K | None => K end) G.
Proof.
  intros [] Ht. constructor.
  - intros t' p' q' [Hne Ht']%lookup_delete_Some Hp'. destruct (p_native p) as [q|] eqn:Hp; [|eauto].
    rewrite lookup_delete_ne; [eauto|]. intros He. apply Hne. eauto.
  - intros t1 t2 p1 p2 q1 q2 [_ H1]%lookup_delete_Some [_ H2]%lookup_delete_Some. eauto.
  - assert (forall id r, K !! id = Some r -> (forall q, p_native p = Some q -> q_id q <> id) ->
      Scheduler.r_lease r = None /\ (id ∈ G \/ exists t0 p0 q, delete t Q !! t0 = Some p0 /\ p_native p0 = Some q /\ q_id q = id)) as Hall.
    { intros id r Hr Hne. destruct (wt_all0 _ _ Hr) as [? [?|(t' & p' & q' & Ht' & ? & ?)]]; (split; [done|]); [by left|right].
      exists t', p', q'. rewrite lookup_delete_ne; [done|]. intros <-. assert (p' = p) as -> by congruence. by destruct (Hne q'). }
    intros id r. destruct (p_native p) as [q|] eqn:Hp; [intros [? Hr]%lookup_delete_Some|intros Hr]; (apply Hall; [done|]); by intros ? [= <-].
  - intros id Hid. destruct (p_native p) as [q|] eqn:Hp; [|auto]. rewrite lookup_delete_ne; [auto|].
    intros <-. by destruct (wt_native0 _ _ _ Ht Hp).
Qed.
Lemma waits_lose Q K G id r : waits Q K G -> K !! id = None -> Scheduler.r_lease r = None ->
  waits Q (<[id := r]> K) (G ∪ {[id]}).
Proof.
  intros [] HK Hl. constructor.
  - intros t p q Ht Hp. destruct (wt_native0 _ _ _ Ht Hp) as (Hn & r' & Hr' & Hf). assert (q_id q <> id) as Hne by congruence.
    split; [set_solver|]. exists r'. by rewrite lookup_insert_ne.
  - done.
  - intros id' r' [[<- <-]|[? Hr]]%lookup_insert_Some; [split; [done|left; set_solver]|].
    destruct (wt_all0 _ _ Hr) as [? [?|?]]; (split; [done|]); [left; set_solver|by right].
  - intros id' [Hid| ->%elem_of_singleton]%elem_of_union; [|by rewrite lookup_insert_eq].
    destruct (wt_lost0 _ Hid) as [r' Hr']. rewrite lookup_insert_ne by congruence. by eexists.
Qed.

(** ** Tickets *)

Inductive Place : Type := Waiting | Reading | Abandoned | Done | Gone.
(** Where a ticket is. *)
Definition place (q : ReadQueue) (t : ReadTicket) : Place :=
  if decide (is_Some (pending q !! t)) then Waiting
  else if decide (is_Some (completed q !! t)) then Done
  else match active q with
       | Some a => if a_ticket a =? t then (if a_abandoned a then Abandoned else Reading) else Gone
       | None => Gone
       end.
(** Where a canceled ticket goes, and whether there was one. *)
Definition canceled_place (p : Place) : Place :=
  match p with Reading | Abandoned => Abandoned | _ => Gone end.
Definition held_place (p : Place) : bool := match p with Gone => false | _ => true end.
(** A read that ended does not come back; one that was cancelled only goes. *)
Definition may_move (a b : Place) : bool :=
  match a, b with
  | Waiting, _ | Reading, _ => true
  | Abandoned, (Abandoned | Gone) => true
  | Done, (Done | Gone) => true
  | Gone, Gone => true
  | _, _ => false
  end.
Record moves (q q' : ReadQueue) : Prop := {
  mv_next : next_ticket q <= next_ticket q';
  mv_place : forall t, t <= next_ticket q -> may_move (place q t) (place q' t) = true;
}.
Record tickets (q : ReadQueue) : Prop := {
  tk_next : 0 <= next_ticket q;
  tk_pending : forall t, is_Some (pending q !! t) -> t <= next_ticket q /\ completed q !! t = None;
  tk_completed : forall t, is_Some (completed q !! t) -> t <= next_ticket q;
  tk_active : forall a, active q = Some a ->
    a_ticket a <= next_ticket q /\ pending q !! a_ticket a = None /\ completed q !! a_ticket a = None;
}.

(** ** The ledger *)

Abbreviation room s := (Scheduler.working_bytes (Scheduler.limits (scheduler s))).
(** The active read holds one entry besides those of the waiting ones. *)
Definition reading s K (a : Active) : Prop :=
  held_by (a_read a) K (external (scheduler s)) /\ sound (room s) free (a_abandoned a = true) (a_read a) /\
  reserved_in (encoded_pool s) (m_guard (a_read a)) (encoded s) /\ p_native (a_pending a) = None.
Record ledger (G : gset Z) s : Prop := {
  lg_wf : Scheduler.wf (scheduler s);
  lg_staged : staged (encoded_pool s) (encoded_staging_bytes (limits s)) (encoded s);
  lg_held : exists K, waits (pending (reads s)) K G /\
    match active (reads s) with None => external (scheduler s) = K | Some a => reading s K a end;
  lg_tickets : tickets (reads s);
  lg_room : map_len (consumers s) + queue_len (reads s) <= requests (limits s);
}.

(** *** Where tickets go *)

Lemma may_move_refl a : may_move a a = true.
Proof. by destruct a. Qed.
Lemma may_move_trans a b c : may_move a b = true -> may_move b c = true -> may_move a c = true.
Proof. by destruct a, b, c. Qed.
Lemma moves_trans q1 q2 q3 : moves q1 q2 -> moves q2 q3 -> moves q1 q3.
Proof.
  intros [Hn Hp] [Hn' Hp']. constructor; [lia|]. intros t Ht. eapply may_move_trans; [by apply Hp|apply Hp'; lia].
Qed.
Lemma moves_at q q' k : next_ticket q <= next_ticket q' -> (forall t, t <> k -> place q' t = place q t) ->
  (k <= next_ticket q -> may_move (place q k) (place q' k) = true) -> moves q q'.
Proof.
  intros Hn Hsame Hk. constructor; [done|]. intros t Ht. destruct (decide (t = k)) as [->|Hne]; [auto|].
  rewrite (Hsame _ Hne). apply may_move_refl.
Qed.
Lemma place_pending q t p : pending q !! t = Some p -> place q t = Waiting.
Proof. intros Hp. unfold place. by rewrite Hp, decide_True by (by eexists). Qed.
Lemma place_active q a : tickets q -> active q = Some a -> place q (a_ticket a) = if a_abandoned a then Abandoned else Reading.
Proof.
  intros Hq Ha. destruct (tk_active _ Hq _ Ha) as (_ & Hp & Hc). unfold place.
  rewrite Hp, Hc, !decide_False by (by intros [? ?]). by rewrite Ha, Z.eqb_refl.
Qed.
Ltac places := unfold place; simpl; rewrite ?lookup_insert_eq, ?lookup_delete_eq, ?lookup_insert_ne, ?lookup_delete_ne by done; simpl.
Lemma decide_some {A B} (x : A) (a b : B) : (if decide (is_Some (Some x)) then a else b) = a.
Proof. by rewrite decide_True by (by eexists). Qed.
Lemma decide_none {A B} (a b : B) : (if decide (is_Some (@None A)) then a else b) = b.
Proof. by rewrite decide_False by (by intros [? ?]). Qed.

(** The ways a ticket moves. *)
Section Moves.
Context (q : ReadQueue) (Hq : tickets q) (k : ReadTicket).
Lemma moves_start p a : pending q !! k = Some p -> active q = None -> a_ticket a = k ->
  moves q (set_active (Some a) (set_pending (delete k (pending q)) q)).
Proof.
  intros Hp Ha Hk. apply (moves_at _ _ k); [done| |].
  - intros t Ht. places. rewrite Ha, Hk. by rewrite (proj2 (Z.eqb_neq k t)) by congruence.
  - intros _. by rewrite (place_pending _ _ _ Hp).
Qed.
Lemma moves_leave p : pending q !! k = Some p -> moves q (set_pending (delete k (pending q)) q).
Proof.
  intros Hp. apply (moves_at _ _ k); [done|intros t Ht; by places|]. intros _. by rewrite (place_pending _ _ _ Hp).
Qed.
Lemma moves_done p x : pending q !! k = Some p ->
  moves q (set_completed (<[k := x]> (completed q)) (set_pending (delete k (pending q)) q)).
Proof.
  intros Hp. apply (moves_at _ _ k); [done|intros t Ht; by places|]. intros _. by rewrite (place_pending _ _ _ Hp).
Qed.
Lemma moves_taken : moves q (set_completed (delete k (completed q)) q).
Proof.
  apply (moves_at _ _ k); [done|intros t Ht; by places|].
  intros _. places. rewrite ?decide_none. destruct (decide (is_Some (pending q !! k))); [done|].
  destruct (decide (is_Some (completed q !! k))) as [[x Hx]|]; [|apply may_move_refl].
  destruct (active q) as [a|] eqn:Ha; [|done]. destruct (Z.eqb_spec (a_ticket a) k) as [<-|]; [|done].
  destruct (tk_active _ Hq _ Ha) as (_ & _ & ?). congruence.
Qed.
Lemma moves_new p : pending q !! k = None -> k = next_ticket q + 1 ->
  moves q (set_pending (<[k := p]> (pending q)) (set_next k q)).
Proof.
  intros Hp Hk. apply (moves_at _ _ k); [simpl; lia|intros t Ht; by places|]. intros Hle. lia.
Qed.
Lemma moves_steps a : active q = Some a -> a_ticket a = k -> forall a', a_ticket a' = k -> (a_abandoned a = true -> a_abandoned a' = true) ->
  moves q (set_active (Some a') q).
Proof.
  intros Ha Hk a' Hk' Hab. apply (moves_at _ _ k); [done| |].
  - intros t Ht. places. rewrite Ha, Hk, Hk'. by rewrite (proj2 (Z.eqb_neq k t)) by congruence.
  - intros _. rewrite <- Hk at 1. rewrite (place_active _ _ Hq Ha). subst k. destruct (tk_active _ Hq _ Ha) as (_ & Hp & Hc).
    unfold place. simpl. rewrite Hp, Hc, ?decide_none, Hk', Z.eqb_refl.
    destruct (a_abandoned a); [by rewrite Hab|]. by destruct (a_abandoned a').
Qed.
Lemma moves_ends a : active q = Some a -> a_ticket a = k -> moves q (set_active None q).
Proof.
  intros Ha Hk. apply (moves_at _ _ k); [done| |].
  - intros t Ht. places. rewrite Ha, Hk. by rewrite (proj2 (Z.eqb_neq k t)) by congruence.
  - intros _. rewrite <- Hk at 1. rewrite (place_active _ _ Hq Ha). subst k. destruct (tk_active _ Hq _ Ha) as (_ & Hp & Hc).
    unfold place. simpl. rewrite Hp, Hc, ?decide_none. by destruct (a_abandoned a).
Qed.
Lemma moves_waits a p : active q = Some a -> a_ticket a = k -> a_abandoned a = false ->
  moves q (set_pending (<[k := p]> (pending q)) (set_active None q)).
Proof.
  intros Ha Hk Hab. apply (moves_at _ _ k); [done| |].
  - intros t Ht. places. rewrite Ha, Hk. by rewrite (proj2 (Z.eqb_neq k t)) by congruence.
  - intros _. rewrite <- Hk at 1. rewrite (place_active _ _ Hq Ha), Hab. done.
Qed.
Lemma moves_completes a x : active q = Some a -> a_ticket a = k -> a_abandoned a = false ->
  moves q (set_completed (<[k := x]> (completed q)) (set_active None q)).
Proof.
  intros Ha Hk Hab. apply (moves_at _ _ k); [done| |].
  - intros t Ht. places. rewrite Ha, Hk. by rewrite (proj2 (Z.eqb_neq k t)) by congruence.
  - intros _. rewrite <- Hk at 1. rewrite (place_active _ _ Hq Ha), Hab. done.
Qed.

(** They stay in order, and none is counted twice. *)
Record orderly (q' : ReadQueue) (more : Z) : Prop := {
  or_tickets : tickets q';
  or_len : queue_len q' = queue_len q + more;
}.
Lemma orderly_start p a : pending q !! k = Some p -> active q = None -> a_ticket a = k ->
  orderly (set_active (Some a) (set_pending (delete k (pending q)) q)) 0.
Proof.
  intros Hp Ha Hk. destruct (tk_pending _ Hq k) as [Hle Hc]; [by eexists|]. destruct Hq. constructor; [constructor; simpl|].
  - done.
  - intros t [x [_ Hx]%lookup_delete_Some]. apply tk_pending0. by eexists.
  - done.
  - intros ? [= <-]. rewrite Hk, lookup_delete_eq. done.
  - unfold queue_len. simpl. rewrite Ha. simpl. rewrite (map_len_delete _ k) by (by eexists). lia.
Qed.
Lemma orderly_leave p : pending q !! k = Some p -> orderly (set_pending (delete k (pending q)) q) (-1).
Proof.
  intros Hp. destruct Hq. constructor; [constructor; simpl|].
  - done.
  - intros t [x [_ Hx]%lookup_delete_Some]. apply tk_pending0. by eexists.
  - done.
  - intros a Ha. destruct (tk_active0 _ Ha) as (? & Hn & ?). split_and!; try done. by apply lookup_delete_None; right.
  - unfold queue_len. simpl. rewrite (map_len_delete _ k) by (by eexists). lia.
Qed.
Lemma orderly_completes q1 x : tickets q1 -> pending q1 !! k = None -> completed q1 !! k = None -> k <= next_ticket q1 ->
  (forall a, active q1 = Some a -> a_ticket a <> k) ->
  tickets (set_completed (<[k := x]> (completed q1)) q1) /\
  queue_len (set_completed (<[k := x]> (completed q1)) q1) = queue_len q1 + 1.
Proof.
  intros Hq1 Hp Hc Hle Ha. destruct Hq1. split; [constructor; simpl|].
  - done.
  - intros t Ht. destruct (tk_pending0 t Ht). split; [done|]. rewrite lookup_insert_ne; [done|]. intros <-. destruct Ht. congruence.
  - intros t Ht%lookup_insert_is_Some'. destruct Ht as [<-|Ht]; auto.
  - intros a Ha'. destruct (tk_active0 _ Ha') as (? & ? & ?). split_and!; try done. rewrite lookup_insert_ne; [done|]. by apply not_eq_sym, Ha.
  - unfold queue_len in *. simpl. rewrite map_len_insert by done. lia.
Qed.
Lemma orderly_taken : exists more, more <= 0 /\ orderly (set_completed (delete k (completed q)) q) more.
Proof.
  exists (map_len (delete k (completed q)) - map_len (completed q)). split.
  { destruct (completed q !! k) as [x|] eqn:Hk; [rewrite (map_len_delete _ k) by (by eexists); lia|].
    rewrite delete_id by done. lia. }
  destruct Hq. constructor; [constructor; simpl|].
  - done.
  - intros t Ht. destruct (tk_pending0 t Ht). split; [done|]. by apply lookup_delete_None; right.
  - intros t [x [_ Hx]%lookup_delete_Some]. apply tk_completed0. by eexists.
  - intros a Ha. destruct (tk_active0 _ Ha) as (? & ? & ?). split_and!; try done. by apply lookup_delete_None; right.
  - unfold queue_len. simpl. lia.
Qed.
Lemma orderly_new p : k = next_ticket q + 1 -> pending q !! k = None /\ orderly (set_pending (<[k := p]> (pending q)) (set_next k q)) 1.
Proof.
  intros Hk. destruct Hq. assert (forall t, is_Some (pending q !! t) -> t <> k) as Hn by (intros t Ht; destruct (tk_pending0 t Ht); lia).
  assert (pending q !! k = None) as Hnone by (apply eq_None_not_Some; intros Hs; by apply (Hn k)). split; [done|].
  constructor; [constructor; simpl|].
  - lia.
  - intros t Ht%lookup_insert_is_Some'. destruct Ht as [<-|Ht]; [|destruct (tk_pending0 t Ht); split; [lia|done]].
    split; [done|]. apply eq_None_not_Some. intros Hs. specialize (tk_completed0 _ Hs). lia.
  - intros t Ht. specialize (tk_completed0 _ Ht). lia.
  - intros a Ha. destruct (tk_active0 _ Ha) as (? & ? & ?). split_and!; [lia| |done]. rewrite lookup_insert_ne by lia. done.
  - unfold queue_len. simpl. rewrite map_len_insert by done. lia.
Qed.
Lemma orderly_steps a a' : active q = Some a -> a_ticket a' = a_ticket a -> orderly (set_active (Some a') q) 0.
Proof.
  intros Ha Hk. destruct Hq. constructor; [constructor; simpl; try done|].
  - intros ? [= <-]. rewrite Hk. auto.
  - unfold queue_len. simpl. rewrite Ha. simpl. lia.
Qed.
Lemma orderly_ends a : active q = Some a -> orderly (set_active None q) (-1).
Proof. intros Ha. destruct Hq. constructor; [constructor; simpl; done|]. unfold queue_len. simpl. rewrite Ha. simpl. lia. Qed.
Lemma orderly_waits a p : active q = Some a -> a_ticket a = k -> orderly (set_pending (<[k := p]> (pending q)) (set_active None q)) 0.
Proof.
  intros Ha Hk. destruct (tk_active _ Hq _ Ha) as (Hle & Hp & Hc). rewrite Hk in *. destruct Hq. constructor; [constructor; simpl; try done|].
  - intros t Ht%lookup_insert_is_Some'. destruct Ht as [<-|Ht]; auto.
  - unfold queue_len. simpl. rewrite Ha, map_len_insert by done. simpl. lia.
Qed.
End Moves.
Lemma moves_refl q : moves q q.
Proof. constructor; [done|]. intros t _. apply may_move_refl. Qed.
(** ** The operations of the queue *)

Definition near s0 s : Prop := frame (set_reads (reads s) s0) s.
Definition good {A} G s (x : PreviewService H * result Fault A) : Prop :=
  moves (reads s) (reads x.1) /\ ledger G x.1 /\ forall m, x.2 <> Err (Panics m).
Definition custody s K : Prop :=
  match active (reads s) with None => external (scheduler s) = K | Some a => reading s K a end.
Definition roomy s : Prop := map_len (consumers s) + queue_len (reads s) <= requests (limits s).
Lemma ledger_build G s0 s K : roomy s0 -> near s0 s -> Scheduler.wf (scheduler s) ->
  staged (encoded_pool s0) (encoded_staging_bytes (limits s0)) (encoded s) -> tickets (reads s) ->
  map_len (consumers s0) + queue_len (reads s) <= requests (limits s0) -> waits (pending (reads s)) K G -> custody s K -> ledger G s.
Proof.
  intros _ [] Hwf Hst Htk Hlen Hw Hc. simpl in *. constructor; try done.
  - congruence.
  - by exists K.
  - congruence.
Qed.
Lemma ledger_aside G s s' : ledger G s -> aside_of s s' -> ledger G s'.
Proof.
  intros Hl [[Hlim ? Hpool Hr Hcons ?] Hsch He]. destruct Hl as [Hwf Hst (K & Hw & Hc) Htk ?].
  constructor; rewrite ?Hlim, ?Hpool, ?Hr, ?Hcons, ?Hsch, ?He; try done. exists K. split; [done|].
  destruct (active (reads s)); [|done]. unfold reading. by rewrite Hsch, He, Hpool.
Qed.
Lemma aside_good {A} (m : Svc A) G s : aside m -> ledger G s -> good G s (m s).
Proof.
  intros Hm Hl. specialize (Hm s s (aside_refl s)). unfold good. destruct (m s) as [s' [a|f]]; simpl.
  - split; [|split; [by eapply ledger_aside|done]]. rewrite (fr_reads _ _ (as_frame _ _ Hm)). apply moves_refl.
  - destruct Hm as [Hm [e ->]]. split; [|split; [by eapply ledger_aside|done]].
    rewrite (fr_reads _ _ (as_frame _ _ Hm)). apply moves_refl.
Qed.

Lemma held_delete m K E id : held_by m K E -> is_Some (K !! id) -> held_by m (delete id K) (delete id E) /\ E !! id = K !! id.
Proof.
  unfold held_by. destruct (m_request m) as [q|].
  - intros (HK & r & -> & Hr) [x Hid]. assert (id <> q_id q) by congruence. split.
    + split; [by rewrite lookup_delete_ne|]. exists r. split; [by rewrite delete_insert_ne|done].
    + by rewrite lookup_insert_ne.
  - intros [Hl ->] _. done.
Qed.
Lemma held_insert m K E id r : held_by m K E -> E !! id = None -> held_by m (<[id := r]> K) (<[id := r]> E) /\ K !! id = None.
Proof.
  unfold held_by. destruct (m_request m) as [q|].
  - intros (HK & r' & -> & Hr) Hid. apply lookup_insert_None in Hid as [Hid Hne]. split; [|done]. split.
    + by rewrite lookup_insert_ne.
    + exists r'. split; [by apply insert_insert_ne|done].
  - intros [Hl ->] Hid. done.
Qed.
Lemma custody_entry s K id : custody s K -> is_Some (K !! id) -> external (scheduler s) !! id = K !! id.
Proof.
  unfold custody. destruct (active (reads s)) as [a|]; [|by intros ->]. intros [Hh _] Hid. by apply (held_delete _ _ _ _ Hh).
Qed.
(** The custody when an entry of another read goes or comes. *)
Lemma custody_delete s s' K id : custody s K -> is_Some (K !! id) -> near s s' -> active (reads s') = active (reads s) ->
  encoded s' = encoded s -> external (scheduler s') = delete id (external (scheduler s)) -> custody s' (delete id K).
Proof.
  intros Hc Hid [? ? Hp _ _ Hr] Ha He Hext. unfold custody in *. rewrite Ha. destruct (active (reads s)) as [a|].
  - destruct Hc as (Hh & Hs & Hg & Hn). unfold reading. simpl in *. rewrite Hext, He, Hp, Hr. split_and!; try done. by apply held_delete.
  - by rewrite Hext, Hc.
Qed.

Lemma cancel_native_run n s : Scheduler.wf (scheduler s) ->
  (forall q, n = Some q -> exists r, external (scheduler s) !! q_id q = Some r /\ Scheduler.r_lease r = None) ->
  exists c, cancel_native n s = (set_scheduler c s, Ok tt) /\ Scheduler.wf c /\ Scheduler.limits c = Scheduler.limits (scheduler s) /\
    external c = match n with Some q => delete (q_id q) (external (scheduler s)) | None => external (scheduler s) end.
Proof.
  intros Hwf Hn. destruct n as [q|]; simpl.
  - destruct (Hn q eq_refl) as (r & Hr & Hl). destruct (SchedulerReads.cancel_read_run _ _ _ Hr Hl) as (c & Hrun & Hext & _ & Hlim).
    exists c. unfold ignore, bind, try, on_scheduler, within. rewrite Hrun. split; [done|]. split; [|done].
    eapply SchedulerReads.safe_wf; [apply Scheduler.cancel_queued_safe, Hwf|exact Hrun].
  - exists (scheduler s). split; [by destruct s|done].
Qed.
Lemma page_run p s : exists s', drop_page p s = (s', Ok tt) /\ aside_of s s'.
Proof. eexists. split; [reflexivity|]. by repeat constructor. Qed.
Lemma view_run v s : exists s', drop_view v s = (s', Ok tt) /\ aside_of s s'.
Proof. destruct v; [apply page_run|]. exists s. split; [done|apply aside_refl]. Qed.
Lemma read_run m s : staged (encoded_pool s) (encoded_staging_bytes (limits s)) (encoded s) ->
  reserved_in (encoded_pool s) (m_guard m) (encoded s) -> exists s', drop_read m s = (s', Ok tt) /\ base s s'.
Proof.
  intros Hst Hg. destruct (staging_drop_ok _ _ _ _ Hst Hg) as (h & Hh & Hst' & _).
  assert (drop_staging (m_guard m) s = (set_encoded h s, Ok tt)) as Hd by (unfold drop_staging, on_encoded, within; by rewrite Hh).
  unfold drop_read. rewrite (bind_ok _ _ _ _ _ Hd). destruct (m_rgb m) as [t|].
  - eexists. split; [reflexivity|]. constructor; [by constructor|done|done].
  - eexists. split; [reflexivity|]. constructor; [by constructor|done|done].
Qed.

(** The queue while a step works on it: no read is active. *)
Record working G K s0 s : Prop := {
  wk_near : near s0 s;
  wk_wf : Scheduler.wf (scheduler s);
  wk_staged : staged (encoded_pool s0) (encoded_staging_bytes (limits s0)) (encoded s);
  wk_active : active (reads s) = None;
  wk_waits : waits (pending (reads s)) K G;
}.
Lemma near_trans s0 s1 s2 : near s0 s1 -> near s1 s2 -> near s0 s2.
Proof. intros [] []. constructor; simpl in *; congruence. Qed.
Lemma near_base s0 s : base s0 s -> near s0 s.
Proof. intros [[] ? ?]. by constructor. Qed.
Lemma near_aside s0 s : aside_of s0 s -> near s0 s.
Proof. intros [[] ? ?]. by constructor. Qed.
Lemma working_aside G K s0 s s' : working G K s0 s -> aside_of s s' -> working G K s0 s'.
Proof.
  intros [Hn Hwf Hst Ha Hw] Hs. pose proof (near_aside _ _ Hs) as Hn'. destruct Hs as [[_ _ _ Hr _ _] Hsch He].
  constructor; [by eapply near_trans| | | |]; by rewrite ?Hsch, ?He, ?Hr.
Qed.
Lemma working_queue G K s0 s q : working G K s0 s -> active q = None -> waits (pending q) K G -> working G K s0 (set_reads q s).
Proof. intros [[] ? ? ? ?] Ha Hw. by constructor. Qed.
Lemma working_ledger G K s0 s : roomy s0 -> working G K s0 s -> external (scheduler s) = K -> tickets (reads s) ->
  queue_len (reads s) <= queue_len (reads s0) -> ledger G s.
Proof.
  intros Hl [Hn Hwf Hst Ha Hw] HE Htk Hlen. eapply ledger_build; try done.
  - unfold roomy in Hl. lia.
  - unfold custody. by rewrite Ha.
Qed.
Lemma native_entry Q G s K t p q : waits Q K G -> custody s K -> Q !! t = Some p ->
  p_native p = Some q -> is_Some (K !! q_id q) /\
  exists r, external (scheduler s) !! q_id q = Some r /\ Scheduler.r_lease r = None /\ Scheduler.r_preempted r = Scheduler.q_preempted q.
Proof.
  intros Hw Hc Hp Hq. destruct (wt_native _ _ _ Hw _ _ _ Hp Hq) as (_ & r & Hr & Hf).
  split; [by eexists|]. exists r. rewrite (custody_entry _ _ _ Hc) by (by eexists). split; [done|]. by destruct (wt_all _ _ _ Hw _ _ Hr).
Qed.
Lemma custody_same s s' K : custody s K -> near s s' -> active (reads s') = active (reads s) -> encoded s' = encoded s ->
  external (scheduler s') = external (scheduler s) -> custody s' K.
Proof.
  intros Hc [? ? Hp _ _ Hr] Ha He Hext. unfold custody in *. rewrite Ha. destruct (active (reads s)) as [a|]; [|congruence].
  unfold reading in *. simpl in *. by rewrite Hext, He, Hp, Hr.
Qed.
Lemma take_good G s t : ledger G s -> good G s (take_read t s).
Proof.
  intros Hl. pose proof Hl as [Hwf Hst (K & Hw & Hc) Htk Hroom]. unfold good, take_read. simpl.
  split; [by apply moves_taken|]. split; [|done]. destruct (orderly_taken _ Htk t) as (n & Hn & [Htk' Hlen]).
  eapply (ledger_build G s _ K); try done. simpl. lia.
Qed.
Lemma cancel_waiting_good G s t : ledger G s -> good G s (cancel_waiting t s).
Proof.
  intros Hl. pose proof Hl as [Hwf Hst (K & Hw & Hc) Htk Hroom]. unfold cancel_waiting. rewrite bind_get.
  destruct (pending (reads s) !! t) as [p|] eqn:Hp.
  - unfold on_queue. rewrite bind_modify. set (s1 := set_reads _ s).
    assert (near s s1) as Hn by (by constructor).
    destruct (cancel_native_run (p_native p) s1) as (c & Hrun & Hwf' & Hlim & Hext); [done| |].
    { intros q Hq. destruct (native_entry _ _ _ _ _ _ _ Hw Hc Hp Hq) as (_ & r & Hr & Hlr & _). by exists r. }
    rewrite (bind_ok _ _ _ _ _ Hrun). destruct (orderly_leave _ Htk t p Hp) as [Htk' Hlen].
    split; [by eapply moves_leave|]. split; [|done].
    eapply (ledger_build G s); [done| |done|done|done| |by apply waits_delete|].
    { by constructor. }
    { simpl in *. lia. }
    destruct (p_native p) as [q|] eqn:Hq.
    + destruct (native_entry _ _ _ _ _ _ _ Hw Hc Hp Hq) as [Hid _]. by eapply custody_delete.
    + by eapply custody_same.
  - unfold on_queue. rewrite bind_modify. set (s1 := set_reads _ s).
    destruct (take_good G s t Hl) as (Hm & Hl1 & _). change (take_read t s).1 with s1 in Hm, Hl1.
    assert (exists s2, drop_outcome (completed (reads s) !! t) s1 = (s2, Ok tt) /\ aside_of s1 s2) as (s2 & Hrun & Ha).
    { destruct (completed (reads s) !! t) as [[v| | |]|]; [apply page_run|..]; (exists s1; split; [done|apply aside_refl]). }
    rewrite (bind_ok _ _ _ _ _ Hrun). split; [|split; [by eapply ledger_aside|done]].
    simpl. rewrite (fr_reads _ _ (as_frame _ _ Ha)). exact Hm.
Qed.
Lemma cancel_good G s t : ledger G s -> good G s (cancel_read t s).
Proof.
  intros Hl. unfold cancel_read. rewrite bind_get. destruct (active (reads s)) as [a|] eqn:Ha; [|by apply cancel_waiting_good].
  destruct (Z.eqb_spec (a_ticket a) t) as [<-|]; [|by apply cancel_waiting_good].
  pose proof Hl as [Hwf Hst (K & Hw & Hc) Htk Hroom]. unfold on_queue. rewrite bind_modify. unfold good. simpl.
  split; [by eapply moves_steps|]. split; [|done]. destruct (orderly_steps _ Htk a (abandon a) Ha eq_refl) as [Htk' Hlen].
  eapply (ledger_build G s _ K); try done; [simpl; lia|]. unfold custody in *. simpl. rewrite Ha in Hc.
  destruct Hc as (Hh & Hs & Hg & Hn). split; [done|]. split; [|done]. destruct Hs. by constructor.
Qed.
(** What a cancel and a take do to the queue. *)
Lemma cancel_waiting_run G s t : ledger G s ->
  exists s1, cancel_waiting t s = (s1, Ok (if pending (reads s) !! t then true else negb (is_none (completed (reads s) !! t)))) /\
    reads s1 = (if pending (reads s) !! t then set_pending (delete t (pending (reads s))) (reads s)
                else set_completed (delete t (completed (reads s))) (reads s)).
Proof.
  intros Hl. pose proof Hl as [Hwf Hst (K & Hw & Hc) Htk Hroom]. unfold cancel_waiting. rewrite bind_get.
  destruct (pending (reads s) !! t) as [p|] eqn:Hp; unfold on_queue; rewrite bind_modify; set (s1 := set_reads _ s).
  - destruct (cancel_native_run (p_native p) s1) as (c & Hrun & _); [done| |].
    { intros q Hq. destruct (native_entry _ _ _ _ _ _ _ Hw Hc Hp Hq) as (_ & r & Hr & Hlr & _). by exists r. }
    rewrite (bind_ok _ _ _ _ _ Hrun). by eexists.
  - assert (exists s2, drop_outcome (completed (reads s) !! t) s1 = (s2, Ok tt) /\ aside_of s1 s2) as (s2 & Hrun & Ha).
    { destruct (completed (reads s) !! t) as [[v| | |]|]; [apply page_run|..]; (exists s1; split; [done|apply aside_refl]). }
    rewrite (bind_ok _ _ _ _ _ Hrun). eexists. split; [done|]. by rewrite (fr_reads _ _ (as_frame _ _ Ha)).
Qed.
Lemma place_elsewhere q q' t : pending q !! t = pending q' !! t -> completed q !! t = completed q' !! t ->
  (forall a, active q = Some a -> a_ticket a = t -> active q' = Some a) ->
  (forall a, active q' = Some a -> a_ticket a = t -> active q = Some a) -> place q t = place q' t.
Proof.
  intros Hp Hc H1 H2. unfold place. rewrite Hp, Hc. destruct (decide (is_Some (pending q' !! t))); [done|]. destruct (decide (is_Some (completed q' !! t))); [done|].
  destruct (active q) as [a|], (active q') as [b|]; try done.
  - destruct (Z.eqb_spec (a_ticket a) t) as [Ht|Ht], (Z.eqb_spec (a_ticket b) t) as [Ht'|Ht']; try done.
    + by specialize (H1 a eq_refl Ht) as [= ->].
    + by specialize (H1 a eq_refl Ht) as [= ->].
    + by specialize (H2 b eq_refl Ht') as [= ->].
  - destruct (Z.eqb_spec (a_ticket a) t) as [Ht|Ht]; [by specialize (H1 a eq_refl Ht)|done].
  - destruct (Z.eqb_spec (a_ticket b) t) as [Ht|Ht]; [by specialize (H2 b eq_refl Ht)|done].
Qed.
Lemma cancel_ends G s t : ledger G s ->
  exists s1, cancel_read t s = (s1, Ok (held_place (place (reads s) t))) /\
    place (reads s1) t = canceled_place (place (reads s) t) /\ (forall u, u <> t -> place (reads s1) u = place (reads s) u).
Proof.
  intros Hl. pose proof (lg_tickets _ _ Hl) as Htk. unfold cancel_read. rewrite bind_get.
  assert ((forall a, active (reads s) = Some a -> a_ticket a <> t) -> exists s1, cancel_waiting t s = (s1, Ok (held_place (place (reads s) t))) /\
    place (reads s1) t = canceled_place (place (reads s) t) /\ (forall u, u <> t -> place (reads s1) u = place (reads s) u)) as Hwait.
  { intros Ha. destruct (cancel_waiting_run G s t Hl) as (s1 & -> & Hq1). exists s1. rewrite Hq1.
    assert (match active (reads s) with Some a => if a_ticket a =? t then if a_abandoned a then Abandoned else Reading else Gone | None => Gone end = Gone) as Hno.
    { destruct (active (reads s)) as [a|]; [|done]. by rewrite (proj2 (Z.eqb_neq _ _) (Ha a eq_refl)). }
    destruct (pending (reads s) !! t) as [p|] eqn:Hp.
    - destruct (tk_pending _ Htk t) as [_ Hc]; [by eexists|]. rewrite (place_pending _ _ p Hp). split; [done|]. split.
      + places. rewrite ?Hc, ?decide_none. apply Hno.
      + intros u Hu. apply place_elsewhere; simpl; rewrite ?lookup_delete_ne by done; done.
    - assert (place (reads s) t = if completed (reads s) !! t then Done else Gone) as ->.
      { unfold place. rewrite Hp, decide_none. destruct (completed (reads s) !! t); [by rewrite decide_some|rewrite decide_none; apply Hno]. }
      split; [by destruct (completed (reads s) !! t)|]. split.
      + places. rewrite ?Hp, ?decide_none, ?Hno. by destruct (completed (reads s) !! t).
      + intros u Hu. apply place_elsewhere; simpl; rewrite ?lookup_delete_ne by done; done. }
  destruct (active (reads s)) as [a|] eqn:Ha; [|by apply Hwait].
  destruct (Z.eqb_spec (a_ticket a) t) as [<-|Hne]; [|by apply Hwait; intros b [= <-]].
  unfold on_queue. rewrite bind_modify. eexists. rewrite (place_active _ _ Htk Ha). split; [by destruct (a_abandoned a)|]. cbn [fst].
  destruct (tk_active _ Htk _ Ha) as (_ & Hp & Hc). split.
  - places. rewrite ?Hp, ?Hc, ?decide_none, ?Z.eqb_refl. by destruct (a_abandoned a).
  - intros u Hu. apply place_elsewhere; simpl; try done; [intros b [= <-]; simpl; congruence|]. rewrite Ha. intros b [= <-]. congruence.
Qed.
Lemma take_ends G s t : ledger G s -> exists s1, take_read t s = (s1, Ok (completed (reads s) !! t)) /\
  completed (reads s1) !! t = None /\ (forall u, place (reads s1) u = if completed (reads s) !! t then (if u =? t then Gone else place (reads s) u) else place (reads s) u).
Proof.
  intros Hl. pose proof (lg_tickets _ _ Hl) as Htk. unfold take_read. rewrite bind_get. eexists. split; [done|]. simpl.
  split; [apply lookup_delete_eq|]. intros u. destruct (completed (reads s) !! t) as [r|] eqn:Hr.
  - destruct (Z.eqb_spec u t) as [->|Hu]; [|apply place_elsewhere; simpl; rewrite ?lookup_delete_ne by done; done].
    places. destruct (pending (reads s) !! t) as [p|] eqn:Hp; [destruct (tk_pending _ Htk t) as [_ Hc]; [by eexists|congruence]|].
    rewrite ?Hp, ?decide_none. destruct (active (reads s)) as [a|] eqn:Ha; [|done]. destruct (tk_active _ Htk _ Ha) as (_ & _ & Hc).
    destruct (Z.eqb_spec (a_ticket a) t) as [<-|]; [congruence|done].
  - apply place_elsewhere; simpl; try done. destruct (decide (u = t)) as [->|Hu]; [by rewrite lookup_delete_eq|by rewrite lookup_delete_ne].
Qed.
Lemma queue_good G s o k t st p i : ledger G s -> good G s (queue_read_variant o k t st p i s).
Proof.
  intros Hl. pose proof Hl as [Hwf Hst (K & Hw & Hc) Htk Hroom]. unfold queue_read_variant. rewrite bind_get, bind_ensure.
  assert (good (A:=ReadTicket) G s (s, Err (Fails (says "")))) as Hsame by (split; [apply moves_refl|by split]).
  destruct (Z.ltb_spec 0 (available_request_slots s)) as [Hslots|]; [|by destruct Hsame as (? & ? & _)].
  assert (map_len (consumers s) + queue_len (reads s) < requests (limits s)) as Hlt by (unfold available_request_slots, saturating_sub in Hslots; lia).
  rewrite bind_or_fails. destruct (edit_identity o k) as [identity|]; [|by destruct Hsame as (? & ? & _)].
  rewrite bind_or_fails. destruct (wanted_key _ _ _ _) as [wanted|]; [|by destruct Hsame as (? & ? & _)].
  rewrite bind_of_option. destruct (checked_add (next_ticket (reads s)) 1) as [n|] eqn:Hn; [|by destruct Hsame as (? & ? & _)].
  apply checked_add_Some in Hn as [-> _]. unfold on_queue. rewrite bind_modify. set (s1 := set_reads _ s).
  assert (near s s1) as Hnear by (by constructor).
  assert (tickets (reads s1)) as Htk1.
  { destruct Htk. constructor; simpl; [lia|..]; intros x Hx; [destruct (tk_pending0 _ Hx)|specialize (tk_completed0 _ Hx)|
      destruct (tk_active0 _ Hx) as (? & ? & ?)]; split_and?; try done; lia. }
  assert (moves (reads s) (reads s1)) as Hm1.
  { constructor; [simpl; lia|]. intros x _. apply may_move_refl. }
  unfold bind at 1, on_scheduler, within. destruct (Scheduler.queue_native_read p (scheduler s1)) as [c [q|e]] eqn:Hq.
  2: { destruct (SchedulerReads.queue_read_err _ _ _ _ Hwf Hq) as (He & Hwf' & Hext). split; [exact Hm1|]. split; [|by destruct e].
       eapply (ledger_build G s _ K); try done; [constructor; try done; by eapply SchedulerReads.queue_limits|].
       eapply custody_same; try done. constructor; try done. by eapply SchedulerReads.queue_limits. }
  destruct (SchedulerReads.queue_read_ok _ _ _ _ Hq) as [Hid Hext]. rewrite !bind_modify. unfold good. cbn [fst snd ret].
  pose proof (SchedulerReads.safe_wf _ _ _ _ (Scheduler.queue_native_read_safe p _ Hwf) Hq) as Hwf'.
  pose proof (SchedulerReads.queue_limits _ _ _ _ Hq) as Hlim.
  assert (external (scheduler s) !! q_id q = None) as Hfresh by (rewrite Hid; by apply Scheduler.fresh_read).
  set (q1 := set_active (option_map (displaced p) (active (reads s))) (reads s)).
  assert (tickets q1 /\ queue_len q1 = queue_len (reads s)) as [Htk2 Hlen2].
  { unfold q1. destruct (active (reads s)) as [a|] eqn:Ha; simpl.
    - destruct (orderly_steps _ Htk a (displaced p a) Ha) as [? ?]; [unfold displaced; by case_match|]. split; [done|lia].
    - split; [destruct Htk; by constructor|]. unfold queue_len. simpl. by rewrite Ha. }
  destruct (orderly_new q1 Htk2 (next_ticket (reads s) + 1) (mkPending identity (Some q) i t st p) eq_refl) as [Hnone [Htk3 Hlen3]].
  split; [|split; [|done]].
  - apply (moves_at _ _ (next_ticket (reads s) + 1)); [simpl; lia| |intros Hle; lia]. intros x Hx. places.
    destruct (active (reads s)) as [a|]; [|done]. simpl. unfold displaced. by destruct (_ && _).
  - eapply (ledger_build G s); [done|by constructor|done|done|exact Htk3| | |].
    + change (queue_len _) with (queue_len (set_pending (<[next_ticket (reads s) + 1 := mkPending identity (Some q) i t st p]> (pending q1))
        (set_next (next_ticket (reads s) + 1) q1))). lia.
    + simpl. eapply (waits_insert _ K _ _ _ q (Scheduler.mkRead p 0 None (Scheduler.q_preempted q))); try done.
      destruct (K !! q_id q) as [r|] eqn:Hr; [|done]. pose proof (custody_entry _ _ _ Hc (ex_intro _ r Hr)). congruence.
    + unfold custody in *. simpl. destruct (active (reads s)) as [a|]; simpl; [|rewrite Hext; simpl; by rewrite Hc].
      destruct Hc as (Hh & Hs & Hg & Hn'). destruct (held_insert _ _ _ (q_id q) (Scheduler.mkRead p 0 None (Scheduler.q_preempted q)) Hh Hfresh) as [Hh' _].
      unfold reading. simpl. simpl in Hlim. rewrite Hext, Hlim. unfold displaced. destruct (_ && _) eqn:Hd; [|done]. simpl.
      split; [exact Hh'|]. split; [|done]. apply andb_true_iff in Hd as [_ Hab%negb_true_iff].
      destruct Hs. constructor; simpl; try done. intros ?. congruence.
Qed.
(** What a waiting read's request adds to the entries of the others. *)
Definition after (n : option NativeReadRequest) K E : Prop :=
  match n with
  | Some q => K !! q_id q = None /\ exists r, E = <[q_id q := r]> K /\ Scheduler.r_lease r = None /\
      Scheduler.r_preempted r = Scheduler.q_preempted q
  | None => E = K
  end.
Lemma settle_good G K s0 s t n r ab : roomy s0 -> working G K s0 s -> after n K (external (scheduler s)) ->
  tickets (reads s) -> pending (reads s) !! t = None -> completed (reads s) !! t = None -> t <= next_ticket (reads s) ->
  queue_len (reads s) + 1 <= queue_len (reads s0) ->
  exists s', settle t n r ab s = (s', Ok (if ab then None else Some t)) /\ ledger G s' /\
    reads s' = if ab then reads s else set_completed (<[t := outcome_of r]> (completed (reads s))) (reads s).
Proof.
  intros Hl Hk Hn Htk Hp Hc Hle Hlen. destruct (cancel_native_run n s (wk_wf _ _ _ _ Hk)) as (c & Hrun & Hwf & Hlim & Hext).
  { intros q ->. destruct Hn as (_ & x & HE & Hx & _). exists x. by rewrite HE, lookup_insert_eq. }
  unfold settle. rewrite (bind_ok _ _ _ _ _ Hrun). set (s1 := set_scheduler c s) in *.
  assert (working G K s0 s1 /\ external (scheduler s1) = K) as [Hk1 HK].
  { split.
    - destruct Hk as [[] ? ? ? ?]. constructor; try done. constructor; try done. simpl in *. congruence.
    - simpl. rewrite Hext. destruct n as [q|]; [|done]. destruct Hn as (HK & x & HE & _). rewrite HE. by rewrite delete_insert_id. }
  destruct ab.
  - destruct (view_run (match r with Ok v => v | Err _ => None end) s1) as (s2 & Hv & Ha). rewrite (bind_ok _ _ _ _ _ Hv).
    exists s2. split; [done|]. rewrite (fr_reads _ _ (as_frame _ _ Ha)). split; [|done].
    eapply ledger_aside; [|exact Ha]. eapply working_ledger; [done|done|done|done|]. simpl. lia.
  - unfold on_queue. rewrite bind_modify. eexists. split; [reflexivity|]. split; [|done].
    destruct (orderly_completes t (reads s1) (outcome_of r)) as [Htk' Hlen']; try done.
    { intros a Ha. by rewrite (wk_active _ _ _ _ Hk1) in Ha. }
    eapply (working_ledger G K s0); [done| |done|exact Htk'|].
    + apply working_queue; [done|apply Hk1|apply Hk1].
    + simpl in *. lia.
Qed.
Lemma begin_waiting_spec o p s0 s : (free -> legacy_free o) -> base s0 s ->
  match begin_waiting o p s with
  | (s', r) => base s0 s' /\ match r with
      | Ok (BPending m) => reserved_in (encoded_pool s0) (m_guard m) (encoded s') /\ forall room, begun room (m_guard m) m
      | Ok (BReady _) => True
      | Err f => ordinary f end
  end.
Proof.
  intros Hf Hs. unfold begin_waiting. rewrite bind_or_fails. destruct (edit_identity o _) as [current|e]; [|split; [done|by eexists]].
  destruct (negb _); [done|].
  pose proof (begin_spec o (CatalogEdits.e_key (p_expected p)) (p_tier p) (p_allow_stale p) (p_interactive p) false s0 s Hf Hs) as H'.
  by destruct (begin_managed_read _ _ _ _ _ _ s) as [s' [[v|m]|f]].
Qed.
Lemma begun_reading K s t p m : Scheduler.wf (scheduler s) -> after (p_native p) K (external (scheduler s)) ->
  reserved_in (encoded_pool s) (m_guard m) (encoded s) -> begun (room s) (m_guard m) m ->
  reading s K (mkActive t (with_native None p) (set_request (p_native p) m) false).
Proof.
  intros Hwf Ha Hg [Hq Hl _ Hs]. split; [|split; [|done]].
  - unfold held_by. simpl. rewrite Hl. unfold after in Ha. destruct (p_native p) as [q|]; [|done].
    destruct Ha as (HK & r & HE & Hr & Hf). split; [done|]. exists r. split_and!; [done..|by intros [? ?]].
  - destruct Hs. by constructor.
Qed.
Lemma tick_start_good G s o t p : (free -> legacy_free o) -> ledger G s -> active (reads s) = None ->
  pending (reads s) !! t = Some p -> good G s (tick_start o t p s).
Proof.
  intros Hf Hl Ha Hp. pose proof Hl as [Hwf Hst (K & Hw & Hc) Htk Hroom]. rewrite Ha in Hc. unfold tick_start, on_queue.
  rewrite bind_modify. set (s1 := set_reads _ s). pose proof (waits_delete _ _ _ _ _ Hw Hp) as Hw'.
  set (K' := match p_native p with Some q => delete (q_id q) K | None => K end) in *.
  assert (after (p_native p) K' (external (scheduler s))) as Hafter.
  { unfold after, K'. destruct (p_native p) as [q|] eqn:Hq; [|done]. destruct (wt_native _ _ _ Hw _ _ _ Hp Hq) as (_ & r & Hr & Hrf).
    split; [by rewrite lookup_delete_eq|]. exists r. rewrite insert_delete_eq, insert_id by done. split; [done|]. split; [|done].
    by destruct (wt_all _ _ _ Hw _ _ Hr). }
  assert (base s1 s1) as Hb by (constructor; [by constructor|done|done]).
  destruct (orderly_leave _ Htk t p Hp) as [Htk1 Hlen1].
  unfold bind at 1, try. pose proof (begin_waiting_spec o p s1 s1 Hf Hb) as Hstart.
  destruct (begin_waiting o p s1) as [s2 r]. destruct Hstart as [Hb2 Hr]. pose proof (ba_sched _ _ Hb2) as Hsch. simpl in Hsch.
  pose proof (fr_reads _ _ (ba_frame _ _ Hb2)) as Hreads.
  assert (working G K' s s2) as Hk.
  { constructor; [apply (near_trans s s1); [by constructor|by apply near_base]|by rewrite Hsch|by destruct Hb2|by rewrite Hreads|by rewrite Hreads]. }
  assert (forall r', exists s', settle t (p_native p) r' false s2 = (s', Ok (Some t)) /\ ledger G s' /\
      moves (reads s) (reads s')) as Hsettle.
  { intros r'. destruct (settle_good G K' s s2 t (p_native p) r' false) as (s' & Hrun & Hl' & Hr').
    all: rewrite ?Hreads, ?Hsch; simpl; try done.
    - by rewrite lookup_delete_eq.
    - by destruct (tk_pending _ Htk t) as [_ ?]; [by eexists|].
    - by destruct (tk_pending _ Htk t) as [? _]; [by eexists|].
    - simpl in Hlen1. lia.
    - exists s'. split; [done|]. split; [done|]. rewrite Hr', Hreads. exact (moves_done _ t p (outcome_of r') Hp). }
  destruct r as [[v|m]|f].
  - destruct (Hsettle (Ok v)) as (s' & -> & Hl' & Hm). by split.
  - destruct Hr as [Hg Hbeg]. rewrite bind_modify. unfold good. cbn [fst snd ret]. rewrite Hreads.
    split; [by eapply moves_start|]. split; [|done].
    destruct (orderly_start _ Htk t p (mkActive t (with_native None p) (set_request (p_native p) m) false) Hp Ha eq_refl) as [Htk2 Hlen2].
    destruct Hk as [Hn Hwf2 Hst2 _ Hwt]. eapply (ledger_build G s _ K').
    + done.
    + destruct Hn. by constructor.
    + done.
    + done.
    + exact Htk2.
    + change (queue_len _) with (queue_len (set_active (Some (mkActive t (with_native None p) (set_request (p_native p) m) false))
        (set_pending (delete t (pending (reads s))) (reads s)))). lia.
    + exact Hw'.
    + unfold custody. simpl. apply (begun_reading K' (set_reads _ s2)); simpl; rewrite ?Hsch; try done.
      * pose proof (fr_pool _ _ (ba_frame _ _ Hb2)) as Hpool. simpl in Hpool. by rewrite Hpool.
  - destruct Hr as [e ->]. destruct (Hsettle (Err e)) as (s' & -> & Hl' & Hm). by split.
Qed.
(** A tick may lose the entry of the active read: when a decoded page of a legacy
    preview serves it. *)
Definition loses (G G' : gset Z) s s' : Prop :=
  ~ free /\ exists a v (id : Z), active (reads s) = Some a /\ G' = G ∪ {[id]} /\
    completed (reads s') !! a_ticket a = Some (Ready v) /\ is_Some (v_legacy_hash v).
Lemma polled_after m K E v : held_by m K E -> settled v m -> after (m_request m) K E.
Proof.
  intros Hh [Hl _]. unfold held_by, after in *. destruct (m_request m) as [q|]; [|by destruct Hh].
  destruct Hh as (HK & r & HE & Hf & Hr & _). rewrite Hl in Hr. split; [done|]. by exists r.
Qed.
(** The end of the active read. *)
Lemma settle_active G K s s' a r : roomy s -> tickets (reads s) -> active (reads s) = Some a -> p_native (a_pending a) = None ->
  working G K s s' -> reads s' = set_active None (reads s) -> external (scheduler s') = K ->
  exists s'', settle (a_ticket a) (p_native (a_pending a)) r (a_abandoned a) s' =
      (s'', Ok (if a_abandoned a then None else Some (a_ticket a))) /\ ledger G s'' /\ moves (reads s) (reads s'') /\
      (a_abandoned a = false -> completed (reads s'') !! a_ticket a = Some (outcome_of r)).
Proof.
  intros Hroom Htk Ha Hn Hk Hr HK. destruct (tk_active _ Htk _ Ha) as (Hle & Hp & Hc). destruct (orderly_ends _ Htk a Ha) as [Htk1 Hlen1].
  destruct (settle_good G K s s' (a_ticket a) (p_native (a_pending a)) r (a_abandoned a)) as (s'' & Hrun & Hl & Hr').
  all: rewrite ?Hr; simpl; try done.
  { by rewrite Hn. }
  { lia. }
  exists s''. split; [done|]. split; [done|]. rewrite Hr', Hr. destruct (a_abandoned a) eqn:Hab.
  - split; [by eapply moves_ends|done].
  - split; [exact (moves_completes _ Htk _ a (outcome_of r) Ha eq_refl Hab)|]. intros _. simpl. apply lookup_insert_eq.
Qed.
(** The read [m] of [a] was polled, which left the service as [s2]. *)
Record turned G K s (a : Active) s2 m : Prop := {
  tn_steady : steady free (a_abandoned a = true) (set_reads (set_active None (reads s)) s) K (s2, m);
  tn_active : active (reads s) = Some a;
  tn_waits : waits (pending (reads s)) K G;
  tn_tickets : tickets (reads s);
  tn_room : roomy s;
  tn_native : p_native (a_pending a) = None;
}.
(** What the rest of the tick shows. *)
Definition ticks G s (x : PreviewService H * result Fault (option ReadTicket)) : Prop :=
  exists G', (G' = G \/ loses G G' s x.1) /\ good G' s x.
Lemma ticks_settled G s s' r : ledger G s' -> moves (reads s) (reads s') -> ticks G s (s', Ok r).
Proof. intros Hl Hm. exists G. split; [by left|by split]. Qed.
Lemma turned_near G K s a s2 m : turned G K s a s2 m -> near s s2 /\ reads s2 = set_active None (reads s).
Proof. intros []. destruct tn_steady0 as [[] _ _ _ _ _]. split; [by constructor|done]. Qed.
Lemma turned_drop G K s a s2 m : turned G K s a s2 m ->
  exists s3, drop_read m s2 = (s3, Ok tt) /\ scheduler s3 = scheduler s2 /\ reads s3 = set_active None (reads s) /\
    forall G' K', waits (pending (reads s)) K' G' -> working G' K' s s3.
Proof.
  intros Hturn. destruct (turned_near _ _ _ _ _ _ Hturn) as [Hnear Hr2]. destruct Hturn as [[Hfr Hwf _ _ Hst Hg] _ _ _ _ _]. simpl in Hwf, Hst, Hg.
  pose proof (fr_pool _ _ Hfr) as Hpool. pose proof (fr_limits _ _ Hfr) as Hlim. simpl in Hpool, Hlim.
  destruct (read_run m s2) as (s3 & Hdrop & Hb); [by rewrite Hpool, Hlim|by rewrite Hpool|]. exists s3.
  pose proof (ba_sched _ _ Hb) as Hs3. assert (reads s3 = set_active None (reads s)) as Hr3 by (by rewrite (fr_reads _ _ (ba_frame _ _ Hb)), Hr2).
  split_and!; try done. intros G' K' Hw. constructor; [eapply near_trans; [done|by apply near_base]| | |by rewrite Hr3|by rewrite Hr3].
  - by rewrite Hs3.
  - pose proof (ba_staged _ _ Hb) as Hst3. by rewrite Hpool, Hlim in Hst3.
Qed.
Lemma turned_after G K s a s2 m v : turned G K s a s2 m -> settled v m -> after (m_request m) K (external (scheduler s2)).
Proof. intros [[_ _ Hh _ _ _] _ _ _ _ _] Hset. by eapply polled_after. Qed.
(** A preempted read waits again with its request. *)
Lemma tick_requeues G K s a s2 m v : turned G K s a s2 m -> settled v m -> a_abandoned a = false ->
  ticks G s ((drop_read m ;;; drop_view v ;;;
    on_queue (fun q => set_pending (<[a_ticket a := with_native (m_request m) (a_pending a)]> (pending q)) q) ;;; ret None) s2).
Proof.
  intros Hturn Hset Hab. pose proof (turned_after _ _ _ _ _ _ _ Hturn Hset) as Haft.
  destruct (turned_drop _ _ _ _ _ _ Hturn) as (s3 & Hdrop & Hs3 & Hr3 & Hwork). pose proof Hturn as [_ Ha Hw Htk Hroom _].
  destruct (tk_active _ Htk _ Ha) as (Hle & Hpn & Hcn). rewrite (bind_ok _ _ _ _ _ Hdrop).
  destruct (view_run v s3) as (s4 & Hv & Ha4). rewrite (bind_ok _ _ _ _ _ Hv). unfold on_queue. rewrite bind_modify. cbn [fst snd ret].
  pose proof (fr_reads _ _ (as_frame _ _ Ha4)) as Hr4. rewrite Hr3 in Hr4. rewrite Hr4.
  set (p' := with_native (m_request m) (a_pending a)). destruct (orderly_waits _ Htk (a_ticket a) a p' Ha eq_refl) as [Htk' Hlen'].
  assert (waits (<[a_ticket a := p']> (pending (reads s))) (external (scheduler s2)) G) as Hw'.
  { unfold after in Haft. destruct (m_request m) as [q|] eqn:Hq.
    - destruct Haft as (HK & r & HE & Hlr & Hfl). rewrite HE. by apply (waits_insert _ _ _ _ _ q).
    - rewrite Haft. by apply waits_insert_none. }
  apply ticks_settled; [|exact (moves_waits _ Htk _ a p' Ha eq_refl Hab)].
  assert (working G (external (scheduler s2)) s (set_reads (set_pending (<[a_ticket a := p']> (pending (reads s))) (set_active None (reads s))) s4)) as Hk.
  { pose proof (working_aside _ _ _ _ _ (Hwork G K Hw) Ha4) as [[] Hwf4 Hst4 _ _]. constructor; [by constructor|done|done|done|exact Hw']. }
  apply (working_ledger _ _ _ _ Hroom Hk); [|exact Htk'|].
  - simpl. by rewrite (as_sched _ _ Ha4), Hs3.
  - change (reads (set_reads ?q ?x)) with q. lia.
Qed.
(** A read that ends has given its request back, unless a legacy page served it. *)
Lemma tick_ends G K s a s2 m v : turned G K s a s2 m -> settled v m -> m_preempting m && negb (a_abandoned a) = false ->
  ticks G s ((drop_read m ;;; settle (a_ticket a) (p_native (a_pending a)) (Ok v) (a_abandoned a)) s2).
Proof.
  intros Hturn Hset Hpre. pose proof (turned_after _ _ _ _ _ _ _ Hturn Hset) as Haft.
  destruct (turned_drop _ _ _ _ _ _ Hturn) as (s3 & Hdrop & Hs3 & Hr3 & Hwork). rewrite (bind_ok _ _ _ _ _ Hdrop).
  pose proof Hturn as [[_ _ _ Hs2 _ _] Ha Hw Htk Hroom Hn]. simpl in Hs2.
  assert (a_abandoned a = true -> m_cancel m = true /\ m_preempting m = false) as Hcancelled by apply (so_abandoned _ _ _ _ Hs2).
  destruct Hset as [Hl2 [Hp|[Hnone|(Hcan & Hleg & view & -> & Hview)]]].
  - destruct (a_abandoned a); [by destruct Hcancelled as [_ ?]; congruence|by rewrite Hp in Hpre].
  - rewrite Hnone in Haft.
    destruct (settle_active G K s s3 a (Ok v) Hroom Htk Ha Hn (Hwork _ _ Hw) Hr3) as (s4 & -> & Hl4 & Hm & _); [by rewrite Hs3|].
    by apply ticks_settled.
  - assert (a_abandoned a = false) as Hab by (destruct (a_abandoned a); [destruct Hcancelled; congruence|done]).
    assert (~ free) as Hnf by (intros Hfree; rewrite (so_free _ _ _ _ Hs2 Hfree) in Hleg; by destruct Hleg).
    unfold after in Haft. destruct (m_request m) as [q|] eqn:Hq.
    + destruct Haft as (HK & r & HE & Hlr & _).
      destruct (settle_active (G ∪ {[q_id q]}) (external (scheduler s2)) s s3 a (Ok (Some view)) Hroom Htk Ha Hn) as (s4 & -> & Hl4 & Hm & Hc4).
      { apply Hwork. rewrite HE. by apply waits_lose. }
      { done. }
      { by rewrite Hs3. }
      exists (G ∪ {[q_id q]}). split; [|by split]. right. split; [done|]. exists a, view, (q_id q). cbn [fst]. by rewrite (Hc4 Hab).
    + destruct (settle_active G K s s3 a (Ok (Some view)) Hroom Htk Ha Hn (Hwork _ _ Hw) Hr3) as (s4 & -> & Hl4 & Hm & _); [by rewrite Hs3|].
      by apply ticks_settled.
Qed.
Lemma tick_continues G K s a s2 m : turned G K s a s2 m ->
  ticks G s ((on_queue (set_active (Some (mkActive (a_ticket a) (a_pending a) m (a_abandoned a)))) ;;; ret None) s2).
Proof.
  intros Hturn. destruct (turned_near _ _ _ _ _ _ Hturn) as [Hnear Hr2]. pose proof Hturn as [[Hfr Hwf Hh Hs2 Hst Hg] Ha Hw Htk Hroom Hn].
  simpl in Hh, Hs2, Hst, Hg. set (a' := mkActive (a_ticket a) (a_pending a) m (a_abandoned a)).
  unfold on_queue. rewrite bind_modify. cbn [fst snd ret]. rewrite Hr2. change (set_active (Some a') (set_active None (reads s))) with (set_active (Some a') (reads s)).
  destruct (orderly_steps _ Htk a a' Ha eq_refl) as [Htk' Hlen'].
  apply ticks_settled; [|exact (moves_steps _ Htk _ a Ha eq_refl a' eq_refl (fun x => x))].
  apply (ledger_build G s _ K); try done.
  - destruct Hnear. by constructor.
  - change (reads (set_reads ?q ?x)) with q. unfold roomy in Hroom. lia.
  - pose proof (fr_sched _ _ Hfr) as Hsame. pose proof (fr_pool _ _ Hfr) as Hpool. simpl in Hsame, Hpool.
    unfold custody, reading. simpl. rewrite Hpool, Hsame. by split_and!.
Qed.
Lemma tick_fails G K s a s2 m e : turned G K s a s2 m -> m_request m = None ->
  ticks G s ((drop_read m ;;; settle (a_ticket a) (p_native (a_pending a)) (Err e) (a_abandoned a)) s2).
Proof.
  intros Hturn Hq. destruct (turned_drop _ _ _ _ _ _ Hturn) as (s3 & Hdrop & Hs3 & Hr3 & Hwork). rewrite (bind_ok _ _ _ _ _ Hdrop).
  pose proof Hturn as [[_ _ Hh _ _ _] Ha Hw Htk Hroom Hn]. unfold held_by in Hh. simpl in Hh. rewrite Hq in Hh. destruct Hh as [_ HE].
  destruct (settle_active G K s s3 a (Err e) Hroom Htk Ha Hn (Hwork _ _ Hw) Hr3) as (s4 & -> & Hl4 & Hm & _); [by rewrite Hs3|].
  by apply ticks_settled.
Qed.
Lemma tick_active_good G s o a : (free -> legacy_free o) -> ledger G s -> active (reads s) = Some a -> ticks G s (tick_active o a s).
Proof.
  intros Hf Hl Ha. pose proof Hl as [Hwf Hst (K & Hw & Hc) Htk Hroom]. rewrite Ha in Hc. destruct Hc as (Hh & Hs & Hg & Hn).
  unfold tick_active, on_queue at 1. rewrite bind_modify. set (s1 := set_reads _ s).
  assert (steady free (a_abandoned a = true) s1 K (s1, a_read a)) as Hsteady by (constructor; simpl; try done; by constructor).
  pose proof (poll_managed_read_spec free (a_abandoned a = true) s1 K o Hf (s1, a_read a) Hsteady) as Hpoll.
  unfold bind at 1, on_read. destruct (poll_managed_read o (s1, a_read a)) as [[s2 m] r]. cbn [fst snd].
  assert (turned G K s a s2 m) as Hturn by (constructor; try done; destruct r as [v|f]; apply Hpoll).
  destruct r as [[v|]|[e|x]].
  - destruct Hpoll as [_ Hset]. simpl in Hset. destruct (m_preempting m && negb (a_abandoned a)) eqn:Hpre; [|by eapply tick_ends].
    apply andb_true_iff in Hpre as [_ Hab%negb_true_iff]. by eapply tick_requeues.
  - by eapply tick_continues.
  - destruct Hpoll as (_ & _ & _ & Hq2). by eapply tick_fails.
  - by destruct Hpoll as (_ & [? ?] & _).
Qed.
Lemma next_pending_Some q t p : next_pending q = Some (t, p) -> pending q !! t = Some p.
Proof. intros Hn. destruct (min_by_Some _ _ _ Hn) as [Hin _]. by apply elem_of_map_to_list in Hin. Qed.
Lemma tick_good G s o : (free -> legacy_free o) -> ledger G s ->
  exists G', (G' = G \/ loses G G' s (tick_read o s).1) /\ good G' s (tick_read o s).
Proof.
  intros Hf Hl. assert (good (A:=option ReadTicket) G s (s, Ok None)) as Hsame by (split; [apply moves_refl|by split]).
  unfold tick_read. rewrite !bind_get. destruct (delivery_io s || _); [exists G; split; [by left|done]|].
  unfold tick_managed_read_queue. rewrite !bind_get. destruct (active (reads s)) as [a|] eqn:Ha.
  - by apply tick_active_good.
  - destruct (next_pending (reads s)) as [[t p]|] eqn:Hn; [|exists G; split; [by left|done]].
    exists G. split; [by left|]. apply tick_start_good; try done. by apply next_pending_Some.
Qed.

(** *** Shutdown *)

Lemma cancel_natives_run G l : NoDup l.*1 -> forall s K, waits (list_to_map l) K G -> custody s K -> Scheduler.wf (scheduler s) ->
  exists s' K', cancel_natives l s = (s', Ok tt) /\ near s s' /\ reads s' = reads s /\ encoded s' = encoded s /\
    Scheduler.wf (scheduler s') /\ waits ∅ K' G /\ custody s' K'.
Proof.
  induction l as [|[t p] l IH]; intros Hnd s K Hw Hc Hwf.
  { exists s, K. split; [done|]. split; [by constructor|]. done. }
  apply NoDup_cons in Hnd as [Hnin Hnd]. simpl in Hw. assert (list_to_map l !! t = (None : option PendingRead)) as Hnone by (by apply not_elem_of_list_to_map).
  assert (<[t := p]> (list_to_map l : gmap ReadTicket PendingRead) !! t = Some p) as Hp by apply lookup_insert_eq.
  pose proof (waits_delete _ _ _ _ _ Hw Hp) as Hw'. rewrite delete_insert_id in Hw' by done.
  cbn [cancel_natives]. destruct (cancel_native_run (p_native p) s Hwf) as (c & Hrun & Hwf' & Hlim & Hext).
  { intros q Hq. destruct (native_entry _ _ _ _ _ _ _ Hw Hc Hp Hq) as (_ & r & Hr & Hl & _). by exists r. }
  simpl. rewrite (bind_ok _ _ _ _ _ Hrun).
  assert (near s (set_scheduler c s)) as Hn by (by constructor).
  assert (custody (set_scheduler c s) (match p_native p with Some q => delete (q_id q) K | None => K end)) as Hc'.
  { destruct (p_native p) as [q|] eqn:Hq; [|by eapply custody_same].
    destruct (native_entry _ _ _ _ _ _ _ Hw Hc Hp Hq) as [Hid _]. by eapply custody_delete. }
  destruct (IH Hnd _ _ Hw' Hc' Hwf') as (s' & K' & Hrun' & Hn' & Hr & He & Hwf'' & Hw'' & Hc'').
  exists s', K'. split; [done|]. split; [by eapply near_trans|]. done.
Qed.
Lemma moves_shutdown q : tickets q -> moves q (set_active (option_map abandon (active q)) (set_pending ∅ q)).
Proof.
  intros Hq. constructor; [done|]. intros t _. unfold place. simpl. rewrite lookup_empty, decide_none.
  destruct (decide (is_Some (pending q !! t))) as [Hp|].
  - done.
  - destruct (decide (is_Some (completed q !! t))); [done|]. destruct (active q) as [a|]; [|done]. simpl.
    destruct (a_ticket a =? t); [|done]. by destruct (a_abandoned a).
Qed.
Lemma signal_run G s : ledger G s -> exists s', signal_read_shutdown s = (s', Ok tt) /\ ledger G s' /\ moves (reads s) (reads s') /\
  forall a, active (reads s') = Some a -> m_preempting (a_read a) = false.
Proof.
  intros Hl. pose proof Hl as [Hwf Hst (K & Hw & Hc) Htk Hroom]. unfold signal_read_shutdown, on_queue. rewrite bind_get, bind_modify.
  set (s1 := set_reads _ s).
  destruct (cancel_natives_run G (map_to_list (pending (reads s))) (NoDup_fst_map_to_list _) s1 K) as
    (s2 & K' & Hrun & Hn & Hr & He & Hwf2 & Hw2 & Hc2); [by rewrite list_to_map_to_list|exact Hc|done|].
  rewrite (bind_ok _ _ _ _ _ Hrun). eexists. split; [reflexivity|]. rewrite Hr. simpl.
  set (q := set_active (option_map abandon (active (reads s))) (set_pending ∅ (reads s))).
  assert (tickets q /\ queue_len q <= queue_len (reads s)) as [Htk' Hlen'].
  { split; [destruct Htk; constructor; simpl; try done|].
    - intros t Ht. rewrite lookup_empty in Ht. by destruct Ht.
    - intros a' Ha'. destruct (active (reads s)) as [a|]; [|done]. injection Ha' as <-. rewrite lookup_empty. destruct (tk_active0 a eq_refl) as (? & ? & ?). done.
    - unfold queue_len. simpl. rewrite map_len_empty. pose proof (map_len_nonneg (pending (reads s))). destruct (active (reads s)); simpl; lia. }
  assert (near s s2) as Hn2 by (eapply near_trans; [|exact Hn]; by constructor).
  split; [|split].
  - eapply (ledger_build G s _ K'); [done| |done| |exact Htk'| |exact Hw2|].
    + destruct Hn2. by constructor.
    + simpl. by rewrite He.
    + change (reads (set_reads ?x ?y)) with x. fold q. unfold roomy in Hroom. lia.
    + unfold custody in *. rewrite Hr in Hc2. simpl in Hc2. simpl. destruct (active (reads s)) as [a|]; simpl; [|done].
      destruct Hc2 as (Hh & Hs & Hg & Hnat). split; [done|]. split; [|done]. destruct Hs. by constructor.
  - exact (moves_shutdown _ Htk).
  - intros a Ha. destruct (active (reads s)); [|done]. by injection Ha as <-.
Qed.
Lemma on_active_run G s (step : Rd unit) (Q : unit -> ManagedRead -> Prop) : ledger G s ->
  (forall ab K a, active (reads s) = Some a -> spec free ab s K (fun m => m = a_read a) step Q) ->
  match on_active step s with
  | (s', r) => ledger G s' /\ moves (reads s) (reads s') /\ match r with
      | Ok _ => forall a, active (reads s') = Some a -> Q tt (a_read a)
      | Err f => ordinary f end
  end.
Proof.
  intros Hl Hstep. pose proof Hl as [Hwf Hst (K & Hw & Hc) Htk Hroom]. unfold on_active, on_queue. rewrite bind_get.
  destruct (active (reads s)) as [a|] eqn:Ha; [|split; [done|split; [apply moves_refl|congruence]]].
  destruct Hc as (Hh & Hs & Hg & Hn).
  assert (steady free (a_abandoned a = true) s K (s, a_read a)) as Hsteady by (constructor; simpl; try done; by constructor).
  assert (spec free (a_abandoned a = true) s K (fun m => m = a_read a) step Q) as Hspec.
  { by apply Hstep. }
  specialize (Hspec (s, a_read a) (conj Hsteady eq_refl)). unfold bind at 1, on_read. destruct (step (s, a_read a)) as [[s2 m] r]. cbn [fst snd].
  assert (steady free (a_abandoned a = true) s K (s2, m)) as Hw2 by (destruct r; apply Hspec).
  pose proof Hw2 as [Hfr2 Hwf2 Hh2 Hs2 Hst2 Hg2]. simpl in Hfr2, Hwf2, Hh2, Hs2, Hst2, Hg2. pose proof (fr_reads _ _ Hfr2) as Hr2.
  rewrite bind_modify, Hr2. set (a' := mkActive (a_ticket a) (a_pending a) m (a_abandoned a)).
  destruct (orderly_steps _ Htk a a' Ha eq_refl) as [Htk' Hlen'].
  assert (ledger G (set_reads (set_active (Some a') (reads s)) s2)) as Hl'.
  { eapply (ledger_build G s _ K); [done| |done|done|exact Htk'| |exact Hw|].
    - destruct Hfr2. by constructor.
    - change (reads (set_reads ?x ?y)) with x. unfold roomy in Hroom. lia.
    - unfold custody, reading. simpl. pose proof (fr_pool _ _ Hfr2) as Hp. pose proof (fr_sched _ _ Hfr2) as Hsc. by rewrite Hp, Hsc. }
  assert (moves (reads s) (set_active (Some a') (reads s))) as Hm by (exact (moves_steps _ Htk _ a Ha eq_refl a' eq_refl (fun x => x))).
  destruct r as [[]|f]; (split; [done|]; split; [done|]).
  - intros b [= <-]. apply Hspec.
  - apply Hspec.
Qed.
Lemma finish_good G s : ledger G s -> (forall a, active (reads s) = Some a -> m_preempting (a_read a) = false) ->
  good G s (finish_read_shutdown s).
Proof.
  intros Hl Hpre. unfold finish_read_shutdown. unfold bind at 1.
  pose proof (on_active_run G s release_scheduler (fun _ m => m_lease m = None /\ m_request m = None) Hl) as Hrun.
  destruct (on_active release_scheduler s) as [s1 r]. destruct Hrun as (Hl1 & Hm1 & Hr).
  { intros ab K a Ha. apply release_spec. intros m Hlm Hq _ _. split; [done|]. by apply Hq, Hpre. }
  destruct r as [[]|f].
  2: { split; [done|]. split; [done|]. destruct Hr as [e ->]. done. }
  pose proof Hl1 as [Hwf Hst (K & Hw & Hc) Htk Hroom]. unfold on_queue. rewrite bind_get, bind_modify.
  destruct (active (reads s1)) as [a|] eqn:Ha.
  2: { unfold good. simpl. assert (set_active None (reads s1) = reads s1) as Hsame by (destruct (reads s1); simpl in *; by subst).
       rewrite Hsame. split; [done|]. split; [|done]. by destruct s1. }
  destruct Hc as (Hh & Hs & Hg & Hn). destruct (Hr a eq_refl) as [_ Hq]. unfold held_by in Hh. rewrite Hq in Hh. destruct Hh as [_ HE].
  destruct (orderly_ends _ Htk a Ha) as [Htk2 Hlen2].
  destruct (read_run (a_read a) (set_reads (set_active None (reads s1)) s1)) as (s2 & -> & Hb); [done|done|].
  unfold good. cbn [fst snd]. pose proof (fr_reads _ _ (ba_frame _ _ Hb)) as Hr2. simpl in Hr2. rewrite Hr2.
  split; [eapply moves_trans; [exact Hm1|by eapply moves_ends]|]. split; [|done].
  eapply (ledger_build G s1 _ K); [done| | | | | | |].
  - eapply near_trans; [|by apply near_base]. by constructor.
  - by rewrite (ba_sched _ _ Hb).
  - pose proof (ba_staged _ _ Hb) as Hst2. exact Hst2.
  - by rewrite Hr2.
  - rewrite Hr2. unfold roomy in Hroom. lia.
  - by rewrite Hr2.
  - unfold custody. rewrite Hr2. simpl. by rewrite (ba_sched _ _ Hb).
Qed.
Lemma good_trans {A B} G s s1 r (k : PreviewService H * result Fault B) : good (A:=A) G s (s1, r) -> good G s1 k -> good G s k.
Proof. intros (Hm & _ & _) (Hm' & Hl & Hp). split; [by eapply moves_trans|done]. Qed.
Lemma shutdown_good G s o e : ledger G s -> good G s (try_shutdown o e s).
Proof.
  intros Hl. unfold try_shutdown. destruct (signal_run G s Hl) as (s1 & Hrun & Hl1 & Hm1 & Hpre). rewrite (bind_ok _ _ _ _ _ Hrun).
  assert (good (A:=unit) G s (s1, Ok tt)) as Hg1 by (split; [done|by split]). apply (good_trans _ _ _ _ _ Hg1).
  unfold bind at 1, try, try_read_shutdown.
  pose proof (on_active_run G s1 (drain o) (fun _ m => m_preempting m = false) Hl1) as Hd.
  destruct (on_active (drain o) s1) as [s2 r]. destruct Hd as (Hl2 & Hm2 & Hr).
  { intros ab K a _. eapply spec_pre; [|apply drain_spec]. done. }
  assert (forall e', good (A:=unit) G s1 (s2, Err (Fails e'))) as Hfail by (intros e'; split; [done|by split]).
  rewrite bind_get. destruct e as [e|]; [apply Hfail|]. destruct r as [u|f]; [|destruct Hr as [e ->]; apply Hfail].
  rewrite bind_ensure. destruct (negb (external_native s2)); [|apply Hfail]. rewrite bind_ensure. destruct (negb (delivery_io s2)); [|apply Hfail].
  assert (good (A:=unit) G s1 (s2, Ok tt)) as Hg2 by (split; [done|by split]). apply (good_trans _ _ _ _ _ Hg2).
  apply finish_good; [done|]. intros a Ha. exact (Hr a Ha).
Qed.
End Ledger.
