(* ===== verification/ReadRuns.v ===== *)
(** Runs of the cached preview reads: any sequence of their calls with any answers of
    the rest of the system, other owners working in between.  Who owns the entries
    of the native scheduler, where tickets go, and that no call panics. *)
From stdpp Require Import base tactics option list numbers gmap strings fin_maps relations.
From Stdlib Require Import ZArith Lia.
From S2P Require Import Prelude Bytes FsOps ReadErrors PreviewSelection ManagedReads ReadOwnership ReadLedger.
From S2P Require CatalogEdits ByteBudget DecodedCache Scheduler SchedulerReads.

Open Scope Z_scope.
Local Open Scope prog_scope.

Section Runs.
Context {H : Type} {BP : ByteBudget.BytePool H} {CODEC : CatalogEdits.EditCodec} {FORMATS : PreviewFormats}.
Implicit Types (s : PreviewService H) (o : Outside).

(** ** Runs *)

(** Other owners work on what reads do not hold. *)
Record others s s' : Prop := {
  ot_frame : frame s s';
  ot_sched : scheduler s' = scheduler s;
  ot_staged : staged (encoded_pool s) (encoded_staging_bytes (limits s)) (encoded s');
  ot_guard : forall a, active (reads s) = Some a -> reserved_in (encoded_pool s) (m_guard (a_read a)) (encoded s');
}.
(** Between the calls of reads, renders are asked for, canceled, run and taken. *)
Inductive step (P : Outside -> Prop) : PreviewService H -> PreviewService H -> Prop :=
| st_queue s o k t st p i : P o -> step P s (queue_read_variant o k t st p i s).1
| st_cancel s t : step P s (cancel_read t s).1
| st_tick s o : P o -> step P s (tick_read o s).1
| st_take s t : step P s (take_read t s).1
| st_shutdown s o e : P o -> step P s (try_shutdown o e s).1
| st_submit s valid persisted id cost p : step P s (submit valid persisted id cost p s).1
| st_cancel_render s c finished : step P s (cancel c finished s).1
| st_take_completion s c completed : step P s (take_completion c completed s).1
| st_next_ready s : step P s (on_scheduler Scheduler.next_ready s).1
| st_finished s l out : step P s (on_scheduler (Scheduler.finished l out) s).1
| st_other s s' : others s s' -> step P s s'.
(** A new service. *)
Record initial s : Prop := {
  in_sched : exists l, Scheduler.scheduler_new l = Ok (scheduler s) /\ Scheduler.working_bytes l <= u64_max;
  in_staged : staged (encoded_pool s) (encoded_staging_bytes (limits s)) (encoded s);
  in_reads : reads s = mkQueue 0 None ∅ ∅;
  in_consumers : consumers s = ∅ /\ 0 <= requests (limits s);
}.
Definition reachable (P : Outside -> Prop) s : Prop := exists s0, initial s0 /\ rtc (step P) s0 s.

(** What a call of renders changes: their entries of the scheduler, and the consumers
    within the room that the reads leave. *)
Definition renders s s' : Prop := exists c n, s' = set_consumers n (set_scheduler c s) /\
  (c = scheduler s \/ SchedulerReads.render (scheduler s) c) /\ (roomy s -> map_len n + queue_len (reads s) <= requests (limits s)).
Lemma renders_refl s : renders s s.
Proof. exists (scheduler s), (consumers s). split; [by destruct s|]. auto. Qed.
Lemma on_scheduler_state {A} (m : Scheduler.SchedM A) s : (on_scheduler m s).1 = set_scheduler (m (scheduler s)).1 s.
Proof. unfold on_scheduler, within. by destruct (m (scheduler s)) as [c [a|e]]. Qed.
Lemma renders_scheduler {A} (m : Scheduler.SchedM A) s : SchedulerReads.render (scheduler s) (m (scheduler s)).1 ->
  renders s (on_scheduler m s).1.
Proof. intros Hm. rewrite on_scheduler_state. exists (m (scheduler s)).1, (consumers s). split; [by destruct s|auto]. Qed.
Lemma renders_delete s s' k : renders s s' -> renders s (set_consumers (delete k (consumers s')) s').
Proof.
  intros (c & n & -> & Hc & Hn). exists c, (delete k n). split; [done|]. split; [done|]. intros Hs. specialize (Hn Hs).
  pose proof (map_len_remove n k). lia.
Qed.
Lemma submit_renders s valid persisted id cost p : renders s (submit valid persisted id cost p s).1.
Proof.
  unfold submit. rewrite bind_or_fails. destruct valid; [|apply renders_refl]. rewrite bind_get, bind_ensure.
  destruct (Z.ltb_spec 0 (available_request_slots s)) as [Hslots|]; [|apply renders_refl].
  rewrite bind_or_fails. destruct persisted; [|apply renders_refl]. rewrite bind_or_fails. destruct cost as [cost|]; [|apply renders_refl].
  pose proof (renders_scheduler (Scheduler.request id cost p) s ltac:(constructor)) as Hr.
  pose proof (on_scheduler_state (Scheduler.request id cost p) s) as Hs1.
  unfold bind at 1. destruct (on_scheduler _ s) as [s1 [consumer|]]; [|exact Hr]. simpl in Hs1. subst s1.
  rewrite bind_modify. cbn [fst snd ret]. exists (Scheduler.request id cost p (scheduler s)).1, (<[consumer := id]> (consumers s)).
  split; [done|]. split; [right; constructor|]. intros _. pose proof (map_len_add (consumers s) consumer id).
  unfold available_request_slots, saturating_sub in Hslots. lia.
Qed.
Lemma cancel_renders s c finished : renders s (cancel c finished s).1.
Proof.
  pose proof (renders_scheduler (Scheduler.cancel c) s ltac:(constructor)) as Hr. unfold cancel, bind at 1.
  destruct (on_scheduler _ s) as [s1 [u|]]; [|exact Hr]. rewrite bind_modify. apply (renders_delete _ _ c) in Hr. by destruct finished.
Qed.
Lemma take_completion_renders s c completed : renders s (take_completion c completed s).1.
Proof. destruct completed; [apply renders_delete, renders_refl|apply renders_refl]. Qed.
Section Kept.
Context (free : Prop).
Lemma initial_ledger s : initial s -> ledger free ∅ s.
Proof.
  intros [(l & Hnew & Hmax) Hst Hr [Hc Hreq]]. constructor; rewrite ?Hr; try done.
  - by eapply Scheduler.sched_initial_wf.
  - exists ∅. simpl. split; [apply waits_empty|]. unfold Scheduler.scheduler_new in Hnew. destruct (_ && _); [|done]. by injection Hnew as <-.
  - constructor; simpl; intros *; rewrite ?lookup_empty; try done; by intros [? ?].
  - rewrite Hc. exact Hreq.
Qed.
Lemma renders_ledger G s s' : renders s s' -> ledger free G s -> moves (reads s) (reads s') /\ ledger free G s'.
Proof.
  intros (c & n & -> & Hr & Hn) Hl. split; [apply moves_refl|]. pose proof Hl as [_ _ _ _ Hroom]. specialize (Hn Hroom).
  destruct Hl as [Hwf Hst (K & Hw & Hc) Htk _].
  assert (Scheduler.wf c /\ external c = external (scheduler s) /\ Scheduler.limits c = Scheduler.limits (scheduler s)) as (Hwf' & He & Hlim).
  { destruct Hr as [->|Hr]; [done|]. split; [|exact (SchedulerReads.render_reads _ _ Hr)].
    eapply Scheduler.step_wf; [by apply SchedulerReads.render_step|done]. }
  constructor; try done. exists K. split; [done|]. simpl. unfold reading. simpl.
  destruct (active (reads s)) as [a|]; [by rewrite He, Hlim|by rewrite He].
Qed.
Lemma step_ledger P G s s' : (forall o, P o -> free -> legacy_free o) -> step P s s' -> ledger free G s ->
  exists G', (G' = G \/ loses free G G' s s') /\ moves (reads s) (reads s') /\ ledger free G' s'.
Proof.
  intros HP Hstep Hl. destruct Hstep as [s o k t st p i Ho|s t|s o Ho|s t|s o e Ho|s valid persisted id cost p|s c finished|s c completed|s|s l out|s s' Hs].
  - destruct (queue_good free G s o k t st p i Hl) as (? & ? & _). exists G. auto.
  - destruct (cancel_good free G s t Hl) as (? & ? & _). exists G. auto.
  - destruct (tick_good free G s o (HP o Ho) Hl) as (G' & ? & ? & ? & _). eauto.
  - destruct (take_good free G s t Hl) as (? & ? & _). exists G. auto.
  - destruct (shutdown_good free G s o e Hl) as (? & ? & _). exists G. auto.
  - exists G. split; [by left|]. destruct (renders_ledger G s _ (submit_renders s valid persisted id cost p) Hl). auto.
  - exists G. split; [by left|]. destruct (renders_ledger G s _ (cancel_renders s c finished) Hl). auto.
  - exists G. split; [by left|]. destruct (renders_ledger G s _ (take_completion_renders s c completed) Hl). auto.
  - exists G. split; [by left|]. destruct (renders_ledger G s _ (renders_scheduler Scheduler.next_ready s ltac:(constructor)) Hl). auto.
  - exists G. split; [by left|]. destruct (renders_ledger G s _ (renders_scheduler (Scheduler.finished l out) s ltac:(constructor)) Hl). auto.
  - exists G. destruct Hs as [Hf Hsch Hst' Hg]. pose proof Hf as [Hlim _ Hpool Hr Hc _]. split; [by left|]. rewrite Hr. split; [apply moves_refl|].
    destruct Hl as [Hwf Hst (K & Hw & Hcu) Htk Hroom]. constructor; rewrite ?Hr, ?Hsch, ?Hpool, ?Hlim, ?Hc; try done.
    exists K. split; [done|]. destruct (active (reads s)) as [a|] eqn:Ha; [|done]. unfold reading in *. rewrite Hsch, Hpool.
    destruct Hcu as (? & ? & _ & ?). split_and!; try done. by apply Hg.
Qed.
Lemma reachable_ledger P s : (forall o, P o -> free -> legacy_free o) -> reachable P s ->
  exists G, ledger free G s /\ (free -> G = ∅).
Proof.
  intros HP (s0 & Hi & Hr). apply initial_ledger in Hi. assert (exists G, ledger free G s0 /\ (free -> G = ∅)) as Hg by eauto.
  clear Hi. induction Hr as [s|s0 s1 s Hstep _ IH]; [done|]. apply IH. destruct Hg as (G & Hl & Hf).
  destruct (step_ledger P G s0 s1 HP Hstep Hl) as (G' & HG & _ & Hl'). exists G'. split; [done|]. intros Hfree.
  destruct HG as [->|[Hno _]]; [auto|by destruct Hno].
Qed.

Lemma run_ledger P G s s' : (forall o, P o -> free -> legacy_free o) -> rtc (step P) s s' -> ledger free G s ->
  moves (reads s) (reads s') /\ exists G', ledger free G' s'.
Proof.
  intros HP Hrun. revert G. induction Hrun as [s|s0 s1 s2 Hstep _ IH]; intros G Hl; [by split; [apply moves_refl|eauto]|].
  destruct (step_ledger P G s0 s1 HP Hstep Hl) as (G' & _ & Hm & Hl'). destruct (IH G' Hl') as [Hm' Hg].
  split; [by eapply moves_trans|done].
Qed.

(** *** The end of a ticket *)

Lemma unborn_place q t : tickets q -> next_ticket q < t -> place q t = Gone.
Proof.
  intros Htk Ht. unfold place. pose proof (tk_pending _ Htk t) as H0. pose proof (tk_completed _ Htk t) as H1. pose proof (tk_active _ Htk) as H2.
  destruct (decide _) as [Hp|_]; [destruct (H0 Hp); lia|]. destruct (decide _) as [Hc|_]; [specialize (H1 Hc); lia|].
  destruct (active q) as [a|]; [|done]. destruct (H2 a eq_refl) as [Hle _]. destruct (Z.eqb_spec (a_ticket a) t); [lia|done].
Qed.
Lemma place_done q t : tickets q -> is_Some (completed q !! t) <-> place q t = Done.
Proof.
  intros Htk. unfold place. pose proof (tk_pending _ Htk t) as H0. destruct (decide (is_Some (pending q !! t))) as [Hp|_].
  - destruct (H0 Hp) as [_ ->]. by split; [intros [? ?]|].
  - destruct (decide (is_Some (completed q !! t))); [done|]. split; [done|]. destruct (active q) as [a|]; [|done]. by repeat case_match.
Qed.
Lemma settle_completes t n r ab s s' t' : settle t n r ab s = (s', Ok (Some t')) ->
  t' = t /\ ab = false /\ is_Some (completed (reads s') !! t).
Proof.
  unfold settle. intros (s1 & u & _ & Hs)%bind_Ok_inv. destruct ab.
  - apply bind_Ok_inv in Hs as (s2 & u2 & _ & [=]).
  - unfold on_queue in Hs. rewrite bind_modify in Hs. injection Hs as <- <-. split; [done|]. split; [done|]. simpl.
    rewrite lookup_insert_eq. by eexists.
Qed.
Lemma tick_completes o s t s' : tickets (reads s) -> tick_read o s = (s', Ok (Some t)) ->
  (place (reads s) t = Waiting \/ place (reads s) t = Reading) /\ is_Some (completed (reads s') !! t).
Proof.
  intros Htk. unfold tick_read, tick_managed_read_queue. rewrite bind_get. destruct (_ || _); [done|]. rewrite bind_get.
  destruct (active (reads s)) as [a|] eqn:Ha.
  - unfold tick_active, on_queue. rewrite bind_modify. intros (s1 & [m r] & _ & Hs)%bind_Ok_inv. cbn [fst snd] in Hs.
    assert (forall r', (drop_read m ;;; settle (a_ticket a) (p_native (a_pending a)) r' (a_abandoned a)) s1 = (s', Ok (Some t)) ->
      (place (reads s) t = Waiting \/ place (reads s) t = Reading) /\ is_Some (completed (reads s') !! t)) as Hsettle.
    { intros r' (s2 & u & _ & Hs2)%bind_Ok_inv. apply settle_completes in Hs2 as (-> & Hab & Hc).
      split; [|done]. right. rewrite (place_active _ _ Htk Ha). by rewrite Hab. }
    destruct r as [[v|]|[e|x]]; [destruct (m_preempting m && _)| | |]; [|by eapply Hsettle| |by eapply Hsettle|done].
    + apply bind_Ok_inv in Hs as (s2 & u & _ & Hs). apply bind_Ok_inv in Hs as (s3 & u3 & _ & Hs). by rewrite bind_modify in Hs.
    + by rewrite bind_modify in Hs.
  - destruct (next_pending (reads s)) as [[k p]|] eqn:Hn; [|done]. apply next_pending_Some in Hn.
    unfold tick_start, on_queue. rewrite bind_modify. intros (s1 & r & _ & Hs)%bind_Ok_inv.
    assert (forall r', settle k (p_native p) r' false s1 = (s', Ok (Some t)) ->
      (place (reads s) t = Waiting \/ place (reads s) t = Reading) /\ is_Some (completed (reads s') !! t)) as Hsettle.
    { intros r' (-> & _ & Hc)%settle_completes. split; [|done]. left. by eapply place_pending. }
    destruct r as [[v|m]|[e|x]]; [by eapply Hsettle| |by eapply Hsettle|done]. by rewrite bind_modify in Hs.
Qed.

(** ** Who owns an entry *)

(** The ticket [t] waits or reads with the native request [id]. *)
Definition owns (q : ReadQueue) (t : ReadTicket) (id : Z) : Prop :=
  (exists p n, pending q !! t = Some p /\ p_native p = Some n /\ Scheduler.q_id n = id) \/
  (exists a n, active q = Some a /\ a_ticket a = t /\ m_request (a_read a) = Some n /\ Scheduler.q_id n = id).
Definition owned q id : Prop := exists t, owns q t id.

Lemma ledger_owned G s t id : ledger free G s -> owns (reads s) t id -> is_Some (external (scheduler s) !! id) /\ id ∉ G.
Proof.
  intros Hl Ho. destruct Hl as [_ _ (K & Hw & Hc) _ _]. destruct Ho as [(p & n & Hp & Hn & <-)|(a & n & Ha & _ & Hn & <-)].
  - destruct (wt_native _ _ _ Hw _ _ _ Hp Hn) as (Hno & r & Hr & _). split; [|done].
    rewrite (custody_entry free s K); [by eexists|exact Hc|by eexists].
  - rewrite Ha in Hc. destruct Hc as (Hh & _). unfold held_by in Hh. rewrite Hn in Hh. destruct Hh as (HK & r & HE & _).
    rewrite HE, lookup_insert_eq. split; [by eexists|]. intros Hin. destruct (wt_lost _ _ _ Hw _ Hin) as [? Hl]. by rewrite HK in Hl.
Qed.
Lemma ledger_unique G s t t' id : ledger free G s -> owns (reads s) t id -> owns (reads s) t' id -> t = t'.
Proof.
  intros Hl Ho Ho'. destruct Hl as [_ _ (K & Hw & Hc) _ _].
  assert (forall t p n a m, pending (reads s) !! t = Some p -> p_native p = Some n -> active (reads s) = Some a ->
    m_request (a_read a) = Some m -> Scheduler.q_id n <> Scheduler.q_id m) as Hapart.
  { intros k p n a m Hp Hn Ha Hm Heq. rewrite Ha in Hc. destruct Hc as (Hh & _). unfold held_by in Hh. rewrite Hm in Hh.
    destruct Hh as (HK & _). destruct (wt_native _ _ _ Hw _ _ _ Hp Hn) as (_ & r & Hr & _). by rewrite Heq, HK in Hr. }
  destruct Ho as [(p & n & Hp & Hn & <-)|(a & n & Ha & <- & Hn & <-)], Ho' as [(p' & n' & Hp' & Hn' & He)|(a' & n' & Ha' & <- & Hn' & He)].
  - exact (wt_inj _ _ _ Hw _ _ _ _ _ _ Hp Hp' Hn Hn' (eq_sym He)).
  - by destruct (Hapart t p n a' n').
  - by destruct (Hapart t' p' n' a n).
  - congruence.
Qed.
Lemma ledger_entry G s id r : ledger free G s -> external (scheduler s) !! id = Some r -> id ∈ G \/ owned (reads s) id.
Proof.
  intros Hl Hr. destruct Hl as [_ _ (K & Hw & Hc) _ _]. unfold owned, owns.
  assert (K !! id = Some r -> id ∈ G \/ exists t p q, pending (reads s) !! t = Some p /\ p_native p = Some q /\ Scheduler.q_id q = id) as HK.
  { intros Hk. apply (wt_all _ _ _ Hw id r Hk). }
  destruct (active (reads s)) as [a|] eqn:Ha; [|rewrite Hc in Hr; naive_solver].
  destruct Hc as (Hh & _). unfold held_by in Hh. destruct (m_request (a_read a)) as [n|] eqn:Hn.
  - destruct Hh as (_ & r' & HE & _). rewrite HE, lookup_insert_Some in Hr. destruct Hr as [[<- _]|[_ Hr]]; [|naive_solver].
    right. exists (a_ticket a). right. by exists a, n.
  - destruct Hh as [_ HE]. rewrite HE in Hr. naive_solver.
Qed.
Lemma ledger_leased G s id r l : ledger free G s -> external (scheduler s) !! id = Some r -> Scheduler.r_lease r = Some l ->
  exists a, active (reads s) = Some a /\ owns (reads s) (a_ticket a) id /\ m_lease (a_read a) = Some l /\ m_cost (a_read a) = Some (Scheduler.r_cost r).
Proof.
  intros Hl Hr Hlease. destruct Hl as [_ _ (K & Hw & Hc) _ _].
  assert (K !! id = Some r -> False) as HK by (intros Hk; destruct (wt_all _ _ _ Hw id r Hk); congruence).
  destruct (active (reads s)) as [a|] eqn:Ha; [|rewrite Hc in Hr; naive_solver].
  destruct Hc as (Hh & _). unfold held_by in Hh. destruct (m_request (a_read a)) as [n|] eqn:Hn.
  - destruct Hh as (_ & r' & HE & _ & Hle & Hcost). rewrite HE, lookup_insert_Some in Hr. destruct Hr as [[<- ->]|[_ Hr]]; [|naive_solver].
    exists a. split; [done|]. split; [right; by exists a, n|]. split; [congruence|]. apply Hcost. rewrite <- Hle, Hlease. by eexists.
  - destruct Hh as [_ HE]. rewrite HE in Hr. naive_solver.
Qed.
End Kept.

(** ** The theorems *)

Lemma any_ledger P s : reachable P s -> exists G, ledger False G s.
Proof. intros Hr. destruct (reachable_ledger False P s) as (G & Hl & _); [done|done|eauto]. Qed.

(** C7. Each native request of a read is kept by the scheduler under one ticket, only the
    active read has a lease, and a step leaves behind an entry nobody owns only if it
    was there before or the active read was served by a decoded legacy preview. *)
Theorem native_reads_owned P s s' : reachable P s -> step P s s' ->
  (forall t id, owns (reads s') t id -> is_Some (external (scheduler s') !! id)) /\
  (forall t t' id, owns (reads s') t id -> owns (reads s') t' id -> t = t') /\
  (forall id r l, external (scheduler s') !! id = Some r -> Scheduler.r_lease r = Some l ->
    exists a, active (reads s') = Some a /\ owns (reads s') (a_ticket a) id /\ m_lease (a_read a) = Some l /\
      m_cost (a_read a) = Some (Scheduler.r_cost r)) /\
  (forall id, is_Some (external (scheduler s') !! id) -> ~ owned (reads s') id ->
    (is_Some (external (scheduler s) !! id) /\ ~ owned (reads s) id) \/
    exists a v, active (reads s) = Some a /\ completed (reads s') !! a_ticket a = Some (Ready v) /\ is_Some (v_legacy_hash v)).
Proof.
  intros Hr Hstep. destruct (any_ledger P s Hr) as (G & Hl).
  destruct (step_ledger False P G s s' ltac:(done) Hstep Hl) as (G' & HG & _ & Hl'). split_and!.
  - intros t id Ho. by apply (ledger_owned False G' s' t id).
  - intros t t' id. by apply (ledger_unique False G' s').
  - intros id r l. by apply (ledger_leased False G' s').
  - intros id [r He] Hno. destruct (ledger_entry False G' s' id r Hl' He) as [Hin|]; [|done].
    destruct HG as [->|(_ & a & v & lost & Ha & -> & Hv & Hlegacy)]; [|right; eauto].
    left. split.
    + destruct Hl as [_ _ (K & Hw & Hc) _ _]. destruct (wt_lost _ _ _ Hw _ Hin) as [r' Hk].
      rewrite (custody_entry False s K); [by eexists|exact Hc|by eexists].
    + intros [t Ho]. by apply (ledger_owned False G s t id Hl Ho).
Qed.
(** Without legacy previews the scheduler keeps exactly what the tickets own. *)
Theorem idle_reads_hold_nothing P s : (forall o, P o -> legacy_free o) -> reachable P s ->
  (forall id, is_Some (external (scheduler s) !! id) <-> owned (reads s) id) /\
  (active (reads s) = None -> pending (reads s) = ∅ -> external (scheduler s) = ∅).
Proof.
  intros HP Hr. destruct (reachable_ledger True P s) as (G & Hl & HG); [auto|done|]. specialize (HG I) as ->.
  assert (forall id, is_Some (external (scheduler s) !! id) <-> owned (reads s) id) as Hown.
  { intros id. split; [intros [r He]; destruct (ledger_entry True ∅ s id r Hl He); set_solver|intros [t Ho]; by apply (ledger_owned True ∅ s t id)]. }
  split; [exact Hown|]. intros Ha Hp. apply map_empty. intros id. destruct (external (scheduler s) !! id) as [r|] eqn:He; [|done].
  destruct (Hown id) as [Hid _]. destruct Hid as [t [(p & n & Hq & _)|(a & n & Hq & _)]]; [by eexists| |congruence].
  by rewrite Hp, lookup_empty in Hq.
Qed.
Definition never_panics {A} (x : PreviewService H * result Fault A) : Prop := forall m, x.2 <> Err (Panics m).
(** C10. No call panics, whatever it is asked and whatever the rest of the system answers. *)
Theorem reads_never_panic P s : reachable P s ->
  (forall o k t stale p i, never_panics (queue_read_variant o k t stale p i s)) /\
  (forall t, never_panics (cancel_read t s)) /\
  (forall o, never_panics (tick_read o s)) /\
  (forall t, never_panics (take_read t s)) /\
  (forall o e, never_panics (try_shutdown o e s)).
Proof.
  intros Hr. destruct (any_ledger P s Hr) as (G & Hl). split_and!; intros.
  - exact (proj2 (proj2 (queue_good False G s o k t stale p i Hl))).
  - exact (proj2 (proj2 (cancel_good False G s t Hl))).
  - destruct (tick_good False G s o) as (G' & _ & _ & _ & Hp); done.
  - exact (proj2 (proj2 (take_good False G s t Hl))).
  - exact (proj2 (proj2 (shutdown_good False G s o e Hl))).
Qed.
(** C9. Tickets are not reused, and a read that ended or was cancelled does not come back;
    reads and renders together never exceed the requests allowed.  Canceling ends a read:
    a waiting or completed one is gone, one in progress is abandoned, and the call says
    whether there was one.  Taking a completed read hands out its outcome and it is gone;
    no other ticket is touched.  A tick that names a ticket has completed it. *)
Theorem tickets_end_once P s s' : reachable P s -> rtc (step P) s s' ->
  next_ticket (reads s) <= next_ticket (reads s') /\
  (forall t, t <= next_ticket (reads s) -> may_move (place (reads s) t) (place (reads s') t) = true) /\
  (forall t, next_ticket (reads s') < t -> place (reads s') t = Gone) /\
  map_len (consumers s') + queue_len (reads s') <= requests (limits s') /\
  (forall t, exists s1, cancel_read t s' = (s1, Ok (held_place (place (reads s') t))) /\
    place (reads s1) t = canceled_place (place (reads s') t) /\ (forall u, u <> t -> place (reads s1) u = place (reads s') u)) /\
  (forall t, exists s1, take_read t s' = (s1, Ok (completed (reads s') !! t)) /\
    (is_Some (completed (reads s') !! t) <-> place (reads s') t = Done) /\ place (reads s1) t <> Done /\
    (place (reads s') t = Done -> place (reads s1) t = Gone) /\
    (forall u, u <> t \/ place (reads s') t <> Done -> place (reads s1) u = place (reads s') u)) /\
  (forall o t s1, P o -> tick_read o s' = (s1, Ok (Some t)) ->
    (place (reads s') t = Waiting \/ place (reads s') t = Reading) /\ place (reads s1) t = Done).
Proof.
  intros Hr Hrun. destruct (any_ledger P s Hr) as (G & Hl).
  destruct (run_ledger False P G s s' ltac:(done) Hrun Hl) as [[Hnext Hplace] (G' & Hl')].
  pose proof (lg_tickets _ _ _ Hl') as Htk. split_and!; try done.
  - intros t Ht. by apply unborn_place.
  - by destruct Hl'.
  - intros t. exact (cancel_ends False G' s' t Hl').
  - intros t. destruct (take_ends False G' s' t Hl') as (s1 & Hrun1 & Hnone & Hall). exists s1. split; [done|].
    pose proof (place_done _ t Htk) as Hdone. split; [exact Hdone|]. specialize (Hall t) as Ht. rewrite Z.eqb_refl in Ht.
    destruct (completed (reads s') !! t) as [r|].
    + rewrite Ht. split; [done|]. split; [done|]. intros u [Hu|Hu]; [rewrite (Hall u); by rewrite (proj2 (Z.eqb_neq _ _) Hu)|].
      destruct Hu. apply Hdone. by eexists.
    + assert (place (reads s') t <> Done) as Hno by (intros Hd; by apply Hdone in Hd as [? ?]). rewrite Ht. done.
  - intros o t s1 Ho Ht. destruct (tick_completes o s' t s1 Htk Ht) as [Hp Hc]. split; [exact Hp|].
    destruct (step_ledger False P G' s' s1 ltac:(done)) as (G1 & _ & _ & Hl1); [|done|].
    + replace s1 with (tick_read o s').1 by (by rewrite Ht). by constructor.
    + apply place_done; [by destruct Hl1|done].
Qed.
End Runs.
