(* ===== verification/ReadCurrent.v ===== *)
(** What a cached preview read shows: a view that is not marked stale carries the key
    of the pixels the catalog holds when the read ends, and a stale one is shown only
    to a reader of thumbnails that allows it. *)
From stdpp Require Import base tactics option list numbers gmap strings fin_maps relations.
From Stdlib Require Import ZArith Lia.
From S2P Require Import Prelude Bytes FsOps ReadErrors PreviewSelection ManagedReads ReadOwnership ReadLedger ReadRuns.
From S2P Require CatalogEdits EditLineage ByteBudget DecodedCache Scheduler.

Open Scope Z_scope.
Local Open Scope prog_scope.
#[local] Existing Instance CatalogEdits.VariantKey_eq_dec.

(** ** Keys *)

Section Keys.
Context {CODEC : CatalogEdits.EditCodec} {FORMATS : PreviewFormats}.
Implicit Types (i j : EditRenderIdentity).

(** The identity of the time before images had pixels of their own: the same source,
    edit and digest, and no image. *)
Definition baseline i : EditRenderIdentity :=
  CatalogEdits.mkEditRender None (CatalogEdits.e_source i) (CatalogEdits.e_key i) (CatalogEdits.e_revision i) (CatalogEdits.e_digest i).
(** The image has the pixels it was registered with. *)
Definition first_pixels i : Prop :=
  match CatalogEdits.e_image i with Some image => CatalogEdits.i_pixel_generation image = 0 | None => False end.
(** The preview of [k] shows the pixels of [i]: its key, or while its image has its first
    pixels the key it had without an image. *)
Definition shows (policy : PreviewPolicy) (interactive : bool) (t : Tier) i (k : PreviewKey) : Prop :=
  wanted_key policy interactive i t = Ok k \/
  (first_pixels i /\ wanted_key policy interactive (baseline i) t = Ok k).

(** [same_edit] compares everything but the revision of the metadata. *)
Definition without_metadata i : EditRenderIdentity :=
  CatalogEdits.mkEditRender
    (option_map (fun x => CatalogEdits.mkImageIdentity (CatalogEdits.i_image x) (CatalogEdits.i_key x) 0
       (CatalogEdits.i_pixel_generation x) (CatalogEdits.i_shared_epoch x) (CatalogEdits.i_physical_generation x))
     (CatalogEdits.e_image i))
    (let r := CatalogEdits.e_source i in
     CatalogEdits.mkRender (CatalogEdits.r_asset r) (CatalogEdits.r_generation r) (CatalogEdits.r_fingerprint r)
       (CatalogEdits.r_state r) 0)
    (CatalogEdits.e_key i) (CatalogEdits.e_revision i) (CatalogEdits.e_digest i).
Lemma same_edit_iff i j : same_edit i j = true <-> without_metadata i = without_metadata j.
Proof.
  destruct i as [[[]|] [] k r d], j as [[[]|] [] k' r' d']; unfold same_edit, same_pixels, without_metadata; simpl;
    rewrite ?andb_true_iff, ?bool_decide_eq_true, ?Z.eqb_eq, ?String.eqb_eq; naive_solver.
Qed.
Lemma same_edit_sym i j : same_edit i j = true -> same_edit j i = true.
Proof. rewrite !same_edit_iff. congruence. Qed.
Lemma same_edit_trans i j k : same_edit i j = true -> same_edit j k = true -> same_edit i k = true.
Proof. rewrite !same_edit_iff. congruence. Qed.
Lemma same_edit_key i j : same_edit i j = true -> CatalogEdits.e_key i = CatalogEdits.e_key j.
Proof. rewrite same_edit_iff. by intros [=]. Qed.
Lemma wanted_key_without policy b i t : wanted_key policy b (without_metadata i) t = wanted_key policy b i t.
Proof. by destruct b, i as [[[]|] [] k r d]. Qed.
Lemma shows_same policy b t i j k : same_edit i j = true -> shows policy b t i k -> shows policy b t j k.
Proof.
  intros Hs [Hk|[He Hk]].
  - left. rewrite <- wanted_key_without in *. apply same_edit_iff in Hs. by rewrite <- Hs.
  - right. apply same_edit_iff in Hs. split.
    + unfold first_pixels in *. destruct i as [[[]|] [] ? ? ?], j as [[[]|] [] ? ? ?]; naive_solver.
    + rewrite <- wanted_key_without in *. assert (without_metadata (baseline i) = without_metadata (baseline j)) as <-; [|done].
      destruct i as [? [] ? ? ?], j as [? [] ? ? ?]. unfold without_metadata, baseline in *. simpl in *. congruence.
Qed.

(** The source of an identity is the row of its asset, and so is what [render_identity]
    answers: a baseline of the same generation has the same source. *)
Lemma edit_identity_source o k i : edit_identity o k = Ok i -> CatalogEdits.r_asset (CatalogEdits.e_source i) = CatalogEdits.asset_id k /\
  exists a, CatalogEdits.assets (catalog o) !! CatalogEdits.asset_id k = Some a /\
    CatalogEdits.optional_text 64 (CatalogEdits.a_fingerprint a) = Ok (CatalogEdits.r_fingerprint (CatalogEdits.e_source i)).
Proof.
  unfold edit_identity, of_catalog. destruct (CatalogEdits.edit_render_identity k (catalog o)) as [db [j|]] eqn:He; [|done].
  simpl. intros [= ->]. unfold CatalogEdits.edit_render_identity, CatalogEdits.transaction in He.
  match type of He with match ?m with _ => _ end = _ => destruct m as [s' r] eqn:Hm end. destruct r as [a|]; [|done].
  injection He as <- ->. apply bind_Ok_inv in Hm as (? & v & Hv & Hm). pose proof (EditLineage.reads_run _ _ _ _ (EditLineage.view_reads k) Hv) as ->.
  apply bind_Ok_inv in Hm as (? & im & Hid & Hm). pose proof (EditLineage.reads_run _ _ _ _ (EditLineage.id_reads k) Hid) as ->.
  apply bind_Ok_inv in Hm as (? & image & Him & Hm). pose proof (EditLineage.reads_run _ _ _ _ (EditLineage.identity_reads im) Him) as ->.
  apply bind_Ok_inv in Hm as (? & ? & [= <- <-] & Hm).
  destruct (CatalogEdits.assets (catalog o) !! CatalogEdits.asset_id k) as [row|] eqn:Hrow; [|done].
  apply bind_Ok_inv in Hm as (? & f & [Hf ->]%lift_Ok_inv & Hm). apply bind_Ok_inv in Hm as (? & st & _ & Hm).
  injection Hm as _ <-. simpl. split; [done|]. by exists row.
Qed.
Lemma baseline_key o policy b k i source t : edit_identity o k = Ok i -> render_identity o (CatalogEdits.asset_id k) = Ok source ->
  legacy_pixel_eligible i source = true ->
  first_pixels i /\
  wanted_key policy b (CatalogEdits.mkEditRender None source (CatalogEdits.e_key i) (CatalogEdits.e_revision i) (CatalogEdits.e_digest i)) t =
    wanted_key policy b (baseline i) t.
Proof.
  intros Hi Hs [Hp Hg%Z.eqb_eq]%andb_true_iff. split.
  { unfold first_pixels. destruct (CatalogEdits.e_image i); [by apply Z.eqb_eq|done]. }
  apply edit_identity_source in Hi as (Hasset & a & Ha & Hf). unfold render_identity, of_catalog in Hs. rewrite Ha, Hf in Hs. simpl in Hs.
  destruct (CatalogEdits.owned_text 7 _); [|done]. injection Hs as <-. simpl in Hg. unfold baseline. destruct i as [im [] ek er ed].
  simpl in *. subst. by destruct b.
Qed.

(** ** Selecting *)

Lemma select_key o k allow max c : select_managed_read o k allow max = Ok (Some c) ->
  (s_stale c = false -> s_key c = k) /\ (s_stale c = true -> may_be_stale allow (k_tier k) = true).
Proof.
  unfold select_managed_read. intros H.
  repeat (apply rbind_Ok in H as (? & ? & H) || (destruct (object_row _ _ _ _ _) as [[?|]|]; [|done|done]; simpl in H)
    || case_match; try done).
  injection H as <-. simpl. unfold may_be_stale. destruct (bool_decide (_ = k)) eqn:Hk; simpl in *; [by apply bool_decide_eq_true in Hk|].
  split; [done|]. intros _. by destruct (allow && bool_decide _).
Qed.
Lemma preview_key_tier policy r t f k : preview_key policy r t f = Ok k -> k_tier k = t.
Proof. unfold preview_key. intros (? & _ & (? & _ & [= <-])%rbind_Ok)%rbind_Ok. done. Qed.
Lemma wanted_key_tier policy b i t k : wanted_key policy b i t = Ok k -> k_tier k = t.
Proof.
  assert (forall k, variant_key policy i t = Ok k -> k_tier k = t) as Hv.
  { unfold variant_key. intros k' (? & H%preview_key_tier & (? & _ & (? & _ & (? & _ & [= <-])%rbind_Ok)%rbind_Ok)%rbind_Ok)%rbind_Ok. done. }
  destruct b; simpl; [|apply Hv]. unfold interactive_key. intros (? & H%Hv & (? & _ & [= <-])%rbind_Ok)%rbind_Ok. done.
Qed.
(** What is selected for a read: the pixels wanted, unless it may be stale. *)
Definition fits (policy : PreviewPolicy) (b : bool) (t : Tier) (allow : bool) i (stale : bool) (k : option PreviewKey) : Prop :=
  (stale = false -> exists k', k = Some k' /\ shows policy b t i k') /\ (stale = true -> may_be_stale allow t = true).
Lemma select_cached_fits o policy i w key t allow b max c : edit_identity o key = Ok i -> wanted_key policy b i t = Ok w ->
  select_cached o policy i w (CatalogEdits.asset_id key) t allow b max = Ok (Some c) -> fits policy b t allow i (s_stale c) (Some (s_key c)).
Proof.
  intros Hi Hw. pose proof (wanted_key_tier _ _ _ _ _ Hw) as Ht.
  assert (forall c k, select_managed_read o k false max = Ok (Some c) -> shows policy b t i k -> fits policy b t allow i (s_stale c) (Some (s_key c))) as Hexact.
  { intros c' k Hc Hk. destruct (select_key _ _ _ _ _ Hc) as [H1 H2]. split; intros Hs; [|by specialize (H2 Hs)]. rewrite (H1 Hs). eauto. }
  unfold select_cached. intros (found & Hf & H)%rbind_Ok. assert (shows policy b t i w) as Hsw by (by left).
  destruct found as [f|]; simpl in H; [injection H as <-; by eapply Hexact|].
  apply rbind_Ok in H as (r & Hr & H). destruct r as [r|].
  - injection H as <-. apply rbind_Ok in Hr as (source & Hsource & Hr). destruct (legacy_pixel_eligible i source) eqn:He; [|done].
    apply rbind_Ok in Hr as (k & Hk & Hr). destruct (baseline_key o policy b key i source t Hi Hsource He) as [Hpx Hbase].
    eapply Hexact; [exact Hr|]. right. split; [done|]. by rewrite <- Hbase.
  - destruct (select_key _ _ _ _ _ H) as [H1 H2]. split; intros Hs; [rewrite (H1 Hs); eauto|]. by rewrite <- Ht, (H2 Hs).
Qed.
Lemma read_target_fits o policy b i cached k t allow tgt :
  (forall c, cached = Some c -> fits policy b t allow i (s_stale c) (Some (s_key c))) ->
  read_target o cached k t allow = Ok (Some tgt) -> fits policy b t allow i (t_stale tgt) (t_key tgt) /\
    (is_Some (t_legacy_hash tgt) -> may_be_stale allow t = true).
Proof.
  intros Hc. unfold read_target. destruct cached as [c|].
  - intros (d & _ & [= <-])%rbind_Ok. split; [by apply Hc|by intros []].
  - destruct (allow && _ && _) eqn:Ha; [|done]. intros (h & _ & H)%rbind_Ok. destruct h as [h|]; [|done]. injection H as <-.
    assert (may_be_stale allow t = true) as Hm by (unfold may_be_stale; by destruct allow, (bool_decide (t = Thumbnail)), (String.eqb _ _)).
    by repeat split.
Qed.
Lemma edit_identity_key o k i : edit_identity o k = Ok i -> CatalogEdits.e_key i = k.
Proof.
  unfold edit_identity, of_catalog. destruct (CatalogEdits.edit_render_identity k (catalog o)) as [db [j|]] eqn:He; [|done].
  simpl. intros [= ->]. unfold CatalogEdits.edit_render_identity, CatalogEdits.transaction in He.
  match type of He with match ?m with _ => _ end = _ => destruct m as [s' r] eqn:Hm end. destruct r as [a|]; [|done].
  injection He as <- ->. repeat (apply bind_Ok_inv in Hm as (? & ? & _ & Hm)). case_match; [|done].
  repeat (apply bind_Ok_inv in Hm as (? & ? & _ & Hm)). by injection Hm as <- <-.
Qed.
End Keys.

(** ** What a step keeps and returns *)

Section Held.
Context {E S : Type} (I : S -> Prop).
(** [m] keeps [I], and what it returns satisfies [Q]. *)
Definition held {A} (m : proc E S A) (Q : A -> Prop) : Prop := triple I m (fun a s => I s /\ Q a) (fun _ => I).
Lemma held_ret {A} (a : A) (Q : A -> Prop) : Q a -> held (ret a) Q.
Proof. by intros Ha s Hs. Qed.
Lemma held_fail {A} e (Q : A -> Prop) : held (fail e) Q.
Proof. by intros s Hs. Qed.
Lemma held_bind {A B} (m : proc E S A) (k : A -> proc E S B) R Q : held m R -> (forall a, R a -> held (k a) Q) -> held (bind m k) Q.
Proof.
  intros Hm Hk s Hs. unfold bind. specialize (Hm s Hs). destruct (m s) as [s' [a|e]]; [|exact Hm]. destruct Hm as [Hs' Ha].
  exact (Hk a Ha s' Hs').
Qed.
Lemma held_then {A B} (m : proc E S A) (k : A -> proc E S B) Q : preserves I m -> (forall a, held (k a) Q) -> held (bind m k) Q.
Proof.
  intros Hm Hk s Hs. unfold bind. specialize (Hm s Hs). destruct (m s) as [s' [a|e]]; [|exact Hm]. exact (Hk a s' Hm).
Qed.
Lemma held_look {A B} (f : S -> A) (k : A -> proc E S B) Q : (forall s, I s -> held (k (f s)) Q) -> held (bind (gets f) k) Q.
Proof. intros Hk s Hs. exact (Hk s Hs s Hs). Qed.
Lemma held_get {B} (k : S -> proc E S B) Q : (forall s, I s -> held (k s) Q) -> held (bind get k) Q.
Proof. intros Hk s Hs. exact (Hk s Hs s Hs). Qed.
Lemma held_try {A} (m : proc E S A) Q : held m Q -> held (try m) (fun r => match r with Ok a => Q a | Err _ => True end).
Proof. intros Hm s Hs. unfold try. specialize (Hm s Hs). by destruct (m s) as [s' [a|e]]. Qed.
Lemma held_preserves {A} (m : proc E S A) Q : held m Q -> preserves I m.
Proof. intros Hm s Hs. specialize (Hm s Hs). destruct (m s) as [s' [a|e]]; [by destruct Hm|done]. Qed.
Lemma held_any {A} (m : proc E S A) : preserves I m -> held m (fun _ => True).
Proof. intros Hm s Hs. specialize (Hm s Hs). by destruct (m s) as [s' [a|e]]. Qed.
Lemma held_weaken {A} (m : proc E S A) (Q Q' : A -> Prop) : held m Q -> (forall a, Q a -> Q' a) -> held m Q'.
Proof. intros Hm HQ s Hs. specialize (Hm s Hs). destruct (m s) as [s' [a|e]]; [|done]. destruct Hm. auto. Qed.
End Held.
Lemma held_or_fails {S A B} (I : S -> Prop) (r : result Error A) (k : A -> proc Fault S B) Q :
  (forall a, r = Ok a -> held I (k a) Q) -> held I (bind (or_fails r) k) Q.
Proof. intros Hk s Hs. destruct r as [a|e]; [exact (Hk a eq_refl s Hs)|exact Hs]. Qed.

Section Reading.
Context {H : Type} {BP : ByteBudget.BytePool H} {CODEC : CatalogEdits.EditCodec} {FORMATS : PreviewFormats}.
Context (pol : PreviewPolicy) (I : PreviewService H -> Prop).
(** [I] does not look at the parts reads work in; the policy is never changed. *)
Record unaware : Prop := {
  un_scheduler : forall c s, I s -> I (set_scheduler c s);
  un_decoded : forall c s, I s -> I (set_decoded c s);
  un_encoded : forall h s, I s -> I (set_encoded h s);
  un_touches : forall t s, I s -> I (set_touches t s);
  un_clock : forall n s, I s -> I (set_clock n s);
  un_policy : forall s, I s -> policy s = pol;
}.
Context (HI : unaware).
Implicit Types (s : PreviewService H) (o : Outside) (p : PendingRead) (m : ManagedRead).

(** *** Steps outside the queue *)

Lemma kept_within {E T A} fault (part : PreviewService H -> T) put (m : proc E T A) :
  (forall t s, I s -> I (put t s)) -> preserves I (within fault part put m).
Proof. intros Hput s Hs. unfold within. destruct (m (part s)) as [t [a|e]]; by apply Hput. Qed.
Lemma kept_scheduler {A} (m : Scheduler.SchedM A) : preserves I (on_scheduler m).
Proof. apply kept_within. intros t s. by apply HI. Qed.
Lemma kept_decoded {A} (m : DecodedCache.CacheM (H:=H) A) : preserves I (on_decoded m).
Proof. apply kept_within. intros t s. by apply HI. Qed.
Lemma kept_encoded {A} (m : proc ByteBudget.BudgetError Heap A) : preserves I (on_encoded m).
Proof. apply kept_within. intros t s. by apply HI. Qed.
Lemma kept_or_fails {S A} (J : S -> Prop) (r : result Error A) : preserves J (or_fails r).
Proof. destruct r; [apply preserves_ret|apply preserves_fail]. Qed.
Lemma kept_unwrap {S A} (J : S -> Prop) (x : option A) : preserves (S:=S) J (unwrap x).
Proof. apply preserves_of_option. Qed.
Lemma kept_ignore {S A} (J : S -> Prop) (m : proc Fault S A) : preserves J m -> preserves J (ignore m).
Proof. intros Hm. unfold ignore. apply preserves_bind; [by apply preserves_try|]. intros [a|[]]; [apply preserves_ret|apply preserves_ret|apply preserves_fail]. Qed.
Hint Resolve kept_scheduler kept_decoded kept_encoded kept_or_fails kept_unwrap kept_ignore : prog.
Hint Extern 1 (preserves I (modify _)) => apply preserves_modify; intros ? ?; apply HI; assumption : prog.
Lemma kept_finish o k i : preserves I (finish_managed_read o k i).
Proof. unfold finish_managed_read, clock, flush_touches. preserve. Qed.
Lemma kept_drop_page i : preserves I (drop_page i). Proof. apply kept_decoded. Qed.
Lemma kept_drop_staging t : preserves I (drop_staging t). Proof. apply kept_encoded. Qed.
Lemma kept_drop_view v : preserves I (drop_view v). Proof. unfold drop_view, drop_page. preserve. Qed.
Lemma kept_drop_read m : preserves I (drop_read m). Proof. unfold drop_read, drop_staging, drop_pixels. preserve. Qed.
Hint Resolve kept_finish kept_drop_page kept_drop_staging kept_drop_view kept_drop_read : prog.

(** *** Beginning a read *)

Implicit Types (b allow : bool) (t : Tier) (i : EditRenderIdentity) (v : PreviewView).
Definition ready i : Prop := CatalogEdits.r_state (CatalogEdits.e_source i) = "ready".
(** [v] may be shown when the catalog holds [i]. *)
Definition viewed b t allow i v : Prop :=
  (v_stale v = false -> ready i /\ exists k, v_key v = Some k /\ shows pol b t i k) /\
  (v_stale v = true -> may_be_stale allow t = true).
Lemma outdated_false stale i j : outdated stale i j = false -> stale = false /\ same_edit i j = true /\ ready j.
Proof. unfold outdated. rewrite !orb_false_iff, !negb_false_iff, String.eqb_eq. tauto. Qed.
(** A view of the target when the catalog holds [j]. *)
Lemma fits_viewed b t allow i j tgt pixels :
  fits pol b t allow i (t_stale tgt) (t_key tgt) -> outdated (t_stale tgt) i j && negb (may_be_stale allow t) = false ->
  viewed b t allow j (mkView (t_key tgt) (t_legacy_hash tgt) (t_record tgt) pixels (outdated (t_stale tgt) i j)).
Proof.
  intros [Hf _] Ho. split; simpl; intros Hs; rewrite Hs in Ho.
  - apply outdated_false in Hs as (Hs & Hij & Hr). split; [done|]. destruct (Hf Hs) as (k & -> & Hk). exists k. split; [done|]. by eapply shows_same.
  - by apply negb_false_iff in Ho.
Qed.
Lemma held_guarded g keeps (m : Svc Begin) Q : held I m Q -> held I (guarded g keeps m) Q.
Proof.
  intros Hm. unfold guarded. eapply held_bind; [apply held_try, Hm|]. intros [r|e] Hr; simpl in Hr.
  - apply held_then; [preserve|]. intros _. by apply held_ret.
  - apply held_then; [preserve|]. intros _. apply held_fail.
Qed.
Definition begins b t allow i (r : Begin) : Prop :=
  match r with
  | BReady v => forall w, v = Some w -> viewed b t allow i w
  | BPending m => m_identity m = i /\ m_tier m = t /\ m_allow_stale m = allow /\
                    fits pol b t allow i (t_stale (m_target m)) (t_key (m_target m)) /\
                    (is_Some (t_legacy_hash (m_target m)) -> may_be_stale allow t = true)
  end.
Lemma begin_held o k t allow b sync :
  held I (begin_managed_read o k t allow b sync) (fun r => exists i, edit_identity o k = Ok i /\ begins b t allow i r).
Proof.
  unfold begin_managed_read. apply held_or_fails. intros i Hi. apply held_get. intros s Hs. apply held_or_fails. intros w Hw.
  rewrite (un_policy HI s Hs) in *. apply held_then; [preserve|]. intros st. apply held_then; [preserve|]. intros allowance.
  apply held_then; [preserve|]. intros g. apply held_then; [preserve|]. intros guard. apply held_guarded.
  eapply (held_weaken _ _ (begins b t allow i)); [|eauto]. apply held_or_fails. intros cached Hc. apply held_or_fails. intros tgt Ht.
  destruct tgt as [tgt|]; [|by apply held_ret]. assert (fits pol b t allow i (t_stale tgt) (t_key tgt) /\ (is_Some (t_legacy_hash tgt) -> may_be_stale allow t = true)) as [Hfits Hleg].
  { eapply read_target_fits; [|exact Ht]. intros c ->. eapply select_cached_fits; [exact Hi|exact Hw|exact Hc]. }
  apply held_then; [preserve|]. intros [pixels|].
  - unfold decoded_hit. eapply held_bind; [apply (held_try _ _ (fun j => edit_identity o k = Ok j))|].
    { intros s' Hs'. by destruct (edit_identity o k). }
    intros [j|e] Hj; [|apply held_then; [preserve|intros _; apply held_fail]].
    assert (j = i) as -> by congruence. destruct (outdated _ _ _ && _) eqn:Ho; [apply held_then; [preserve|intros _; by apply held_ret]|].
    apply held_ret. intros v [= <-]. by apply fits_viewed.
  - unfold ensure_synchronous_read_available, start_transfer.
    repeat (apply held_then; [preserve|intros ?]). apply held_ret. by repeat split; try apply Hfits.
Qed.

(** *** Polling a read *)

(** [m] reads what was asked for with [p]. *)
Definition faithful p m : Prop :=
  m_tier m = p_tier p /\ m_allow_stale m = p_allow_stale p /\ same_edit (m_identity m) (p_expected p) = true /\
  fits pol (p_interactive p) (p_tier p) (p_allow_stale p) (m_identity m) (t_stale (m_target m)) (t_key (m_target m)) /\
  (is_Some (t_legacy_hash (m_target m)) -> may_be_stale (p_allow_stale p) (p_tier p) = true).
(** A view for [p]: of what the catalog answers now, or stale as [p] allows. *)
Definition shown o p v : Prop :=
  (v_stale v = false -> exists i k, edit_identity o (CatalogEdits.e_key (p_expected p)) = Ok i /\
    same_edit i (p_expected p) = true /\ ready i /\ v_key v = Some k /\ shows pol (p_interactive p) (p_tier p) i k) /\
  (v_stale v = true -> may_be_stale (p_allow_stale p) (p_tier p) = true).
Lemma viewed_shown o p i v : edit_identity o (CatalogEdits.e_key (p_expected p)) = Ok i -> same_edit i (p_expected p) = true ->
  viewed (p_interactive p) (p_tier p) (p_allow_stale p) i v -> shown o p v.
Proof. intros Hi Hs [Hf Ht]. split; [|done]. intros Hv. destruct (Hf Hv) as (Hr & k & Hk & Hsh). by exists i, k. Qed.

Section Polling.
Context (p : PendingRead).
Definition polled (w : PreviewService H * ManagedRead) : Prop := I w.1 /\ faithful p w.2.
Lemma kept_in_service {A} (m : Svc A) : preserves I m -> preserves polled (in_service m).
Proof. intros Hm [s x] [Hs Hx]. unfold in_service. simpl. specialize (Hm s Hs). destruct (m s) as [s' [a|e]]; by split. Qed.
Lemma kept_change f : (forall m, faithful p m -> faithful p (f m)) -> preserves polled (change f).
Proof. intros Hf. apply preserves_modify. intros [s x] [Hs Hx]. split; [exact Hs|by apply Hf]. Qed.
Lemma kept_the_managed : preserves polled the_managed.
Proof. apply preserves_gets. Qed.
Hint Resolve kept_in_service kept_the_managed : prog.
Hint Extern 1 (preserves polled (change _)) => apply kept_change; intros ? ?; assumption : prog.
Lemma kept_launch o l : preserves polled (launch o l).
Proof. unfold launch. preserve. Qed.
Lemma kept_poll o : preserves polled (transport_poll o).
Proof. unfold transport_poll. preserve. Qed.
Lemma kept_released : preserves polled release_scheduler.
Proof. unfold release_scheduler. preserve. Qed.
Lemma kept_take_rgb : preserves polled take_rgb.
Proof. unfold take_rgb, drop_pixels. preserve. Qed.
Hint Resolve kept_launch kept_poll kept_released kept_take_rgb : prog.
Lemma kept_put_rgb g : preserves polled (put_rgb g).
Proof. unfold put_rgb. preserve. Qed.
Hint Resolve kept_put_rgb : prog.
Lemma kept_request_stage : preserves polled request_stage.
Proof. unfold request_stage. preserve. Qed.
Lemma kept_cost_stage : preserves polled cost_stage.
Proof. unfold cost_stage. preserve. Qed.
Lemma kept_lease_stage o : preserves polled (lease_stage o).
Proof. unfold lease_stage. preserve. Qed.
Lemma kept_launch_stage o : preserves polled (launch_stage o).
Proof. unfold launch_stage. preserve. Qed.
Lemma kept_on_header o h : preserves polled (on_header o h).
Proof. unfold on_header. preserve. Qed.
Lemma kept_drain o : preserves polled (drain o).
Proof. unfold drain, transport_shutdown. preserve. Qed.
Hint Resolve kept_request_stage kept_cost_stage kept_lease_stage kept_launch_stage kept_on_header : prog.

Definition serves o (r : option (option PreviewView)) : Prop := forall v, r = Some (Some v) -> shown o p v.
Lemma held_managed {B} (k : ManagedRead -> Rd B) Q : (forall m, faithful p m -> held polled (k m) Q) -> held polled (bind the_managed k) Q.
Proof. intros Hk. apply held_look. intros w [_ Hw]. by apply Hk. Qed.
Lemma kept_arrived o x bytes spare : preserves polled (encoded_arrived o x bytes spare).
Proof.
  unfold encoded_arrived. apply (held_preserves _ _ (fun _ => True)). apply held_managed. intros m (Ht & Ha & _).
  apply held_then; [preserve|]. intros []; [apply held_any; preserve|].
  eapply (held_bind _ _ _ (fun h => is_Some h -> may_be_stale (p_allow_stale p) (p_tier p) = true)).
  { rewrite <- Ht, <- Ha. unfold may_be_stale. destruct (_ && _ && _ && _ && _) eqn:Hmay; [|by apply held_ret; intros []].
    eapply held_weaken; [apply held_any, kept_or_fails|]. intros h _ _.
    by destruct (m_allow_stale m), (bool_decide (m_tier m = Thumbnail)); rewrite ?andb_false_r in Hmay. }
  intros [hash|] Hmay; [|apply held_any; preserve]. apply held_any, preserves_bind; [|intros; preserve].
  apply kept_change. intros m' (Ht' & Ha' & Hs' & _). repeat split; try done; intros _; by apply Hmay.
Qed.
Hint Resolve kept_arrived : prog.
Lemma legacy_hit_held o : held polled legacy_hit (fun r => forall v, r = Some v -> shown o p v).
Proof.
  apply held_managed. intros m (_ & _ & _ & _ & Hleg). destruct (t_legacy_hash (m_target m)) as [hash|]; [|by apply held_ret].
  destruct (m_cancel m); [by apply held_ret|]. apply held_then; [preserve|]. intros [pixels|]; [|by apply held_ret].
  apply held_ret. intros v [= <-]. split; [done|]. intros _. apply Hleg. by eexists.
Qed.
Lemma encoded_stage_held o : held polled (encoded_stage o) (fun r => forall x, r = Some x -> serves o x).
Proof.
  apply held_managed. intros m _. destruct (m_task m); [by apply held_ret| |apply held_then; [preserve|intros _; apply held_fail]].
  destruct (encoded_answer o) as [|[[[x bytes] spare]|e]|]; [by apply held_ret; intros v [= <-]| | |];
    (apply held_then; [preserve|]; intros _); [|apply held_fail|apply held_fail].
  apply held_then; [preserve|]. intros []; [by apply held_ret; intros v [= <-]|]. apply held_managed. intros m' _.
  apply held_then; [preserve|]. intros _. eapply held_bind; [apply (legacy_hit_held o)|]. intros [v|] Hv; apply held_ret; [|done].
  intros r [= <-] w [= <-]. by apply Hv.
Qed.
Lemma decoded_view_held o pixels : held polled (decoded_view o pixels) (fun r => forall v, r = Some v -> shown o p v).
Proof.
  apply held_then; [preserve|]. intros _. apply held_managed. intros m (Ht & Ha & Hs & Hf & _). apply held_or_fails. intros i Hi.
  cbv zeta. rewrite Ht, Ha. destruct (outdated _ _ _ && _) eqn:Ho; apply held_ret; [done|]. intros v [= <-].
  destruct (fits_viewed (p_interactive p) (p_tier p) (p_allow_stale p) (m_identity m) i (m_target m) pixels Hf Ho) as [Hv Hst]. split; [|exact Hst]. intros Hstale.
  destruct (Hv Hstale) as (Hr & k & Hk & Hsh). exists i, k. rewrite <- (same_edit_key _ _ Hs). split; [done|].
  simpl in Hstale. apply outdated_false in Hstale as (_ & Hsame & _). split; [|done].
  eapply same_edit_trans; [by apply same_edit_sym|done].
Qed.
Lemma on_pixels_held o px : held polled (on_pixels o px) (serves o).
Proof.
  apply held_managed. intros m _. apply held_then; [preserve|]. intros t. apply held_then; [preserve|]. intros _.
  apply held_then; [preserve|]. intros pixels. eapply held_bind; [apply held_try, (decoded_view_held o)|]. intros [[v|]|e] Hv.
  - apply held_ret. intros w [= <-]. by apply Hv.
  - apply held_then; [preserve|]. intros _. by apply held_ret.
  - apply held_then; [preserve|]. intros _. apply held_fail.
Qed.
Lemma on_drained_held o : held polled on_drained (serves o).
Proof.
  apply held_managed. intros m _. destruct (m_requeue m) as [[]|]; repeat (apply held_then; [preserve|intros ?]); by apply held_ret.
Qed.
Lemma cancel_stage_held o : held polled (cancel_stage o) (serves o).
Proof.
  unfold cancel_stage, cancelled_transport. apply held_then; [preserve|]. intros []; [|by apply held_ret]. apply held_managed. intros m _.
  destruct (negb _); [repeat (apply held_then; [preserve|intros ?]); by apply held_ret|]. destruct (transport_pending m); [by apply held_ret|].
  apply held_then; [preserve|]. intros _. apply held_then; [preserve|]. intros _. apply held_managed. intros m' _.
  destruct (m_failure m'); [apply held_then; [preserve|intros _; apply held_fail]|by apply held_ret].
Qed.
Lemma advance_held o : held polled (advance_managed_read o) (serves o).
Proof.
  eapply held_bind; [apply (encoded_stage_held o)|]. intros [r|] Hr; [apply held_ret; by apply Hr|]. apply held_managed. intros m _.
  destruct (m_cancel m); [apply cancel_stage_held|]. unfold decode_stage. do 2 (apply held_then; [preserve|intros ?]).
  apply held_then; [preserve|]. intros []; [|by apply held_ret]. do 2 (apply held_then; [preserve|intros ?]).
  match goal with |- held _ (match ?e with _ => _ end) _ => destruct e as [[[h|px|]|e]|] end.
  - apply held_then; [preserve|intros _; by apply held_ret].
  - apply on_pixels_held.
  - apply on_drained_held.
  - apply held_fail.
  - by apply held_ret.
Qed.
Lemma poll_held o : held polled (poll_managed_read o) (serves o).
Proof.
  apply held_get. intros w Hw. apply held_then; [preserve|]. intros _. eapply held_bind; [apply held_try, (advance_held o)|].
  intros [r|[e|x]] Hr; [by apply held_ret| |apply held_fail]. apply held_managed. intros m _.
  destruct (m_cancel m && _); [by apply held_ret|]. apply held_then; [preserve|]. intros _. destruct (m_cleanup m && _ && _ && _); [apply held_fail|].
  repeat (apply held_then; [preserve|intros ?]). by apply held_ret.
Qed.
End Polling.
End Reading.

(** ** The queue *)

Section Queue.
Context {H : Type} {BP : ByteBudget.BytePool H} {CODEC : CatalogEdits.EditCodec} {FORMATS : PreviewFormats}.
Context (pol : PreviewPolicy).
Implicit Types (s : PreviewService H) (o : Outside) (p : PendingRead) (q : ReadQueue) (t : ReadTicket).

Definition at_rest q s : Prop := policy s = pol /\ reads s = q.
Lemma unaware_at_rest q : unaware pol (at_rest q).
Proof. by split; intros ? *; try intros [? ?]; split || done. Qed.
(** The active read is the one its ticket was given for. *)
Definition as_asked q : Prop := forall a, active q = Some a -> faithful pol (a_pending a) (a_read a).
Definition honest s : Prop := policy s = pol /\ as_asked (reads s).
Lemma unaware_honest : unaware pol honest.
Proof. by split; intros ? *; try intros [? ?]; split || done. Qed.
Lemma kept_on_queue f : (forall q, as_asked q -> as_asked (f q)) -> preserves honest (on_queue f).
Proof. intros Hf. apply preserves_modify. intros s [Hp Hq]. split; [exact Hp|by apply Hf]. Qed.
Lemma as_asked_option f q : (forall a, a_pending (f a) = a_pending a /\ (forall p, faithful pol p (a_read a) -> faithful pol p (a_read (f a)))) ->
  as_asked q -> as_asked (set_active (option_map f (active q)) q).
Proof.
  intros Hf Hq a Ha. simpl in Ha. destruct (active q) as [b|] eqn:Hb; [|done]. injection Ha as <-. destruct (Hf b) as [-> Hk].
  apply Hk. exact (Hq b Hb).
Qed.
Hint Resolve kept_scheduler kept_decoded kept_encoded kept_or_fails kept_unwrap kept_ignore unaware_honest
  kept_drop_page kept_drop_staging kept_drop_view kept_drop_read : prog.
Hint Extern 1 (preserves honest (on_queue _)) => apply kept_on_queue; intros ? ?; assumption : prog.
Lemma kept_cancel_native (J : PreviewService H -> Prop) n : unaware pol J -> preserves J (cancel_native n).
Proof. intros HJ. unfold cancel_native. destruct n; [eapply kept_ignore, kept_scheduler, HJ|apply preserves_ret]. Qed.
Hint Resolve kept_cancel_native : prog.
Lemma faithful_abandon a : a_pending (abandon a) = a_pending a /\ (forall p, faithful pol p (a_read a) -> faithful pol p (a_read (abandon a))).
Proof. done. Qed.
Lemma queue_honest o k tier stale pr i : preserves honest (queue_read_variant o k tier stale pr i).
Proof.
  unfold queue_read_variant. repeat (apply preserves_bind; [eauto with prog|intros ?]); [|eauto with prog].
  apply kept_on_queue. intros q Hq. apply as_asked_option; [|done]. intros x. unfold displaced. by destruct (_ && _ && _).
Qed.
Lemma cancel_honest t : preserves honest (cancel_read t).
Proof.
  assert (preserves honest (cancel_waiting t)) as Hw.
  { unfold cancel_waiting, drop_outcome. preserve. }
  intros s Hs. unfold cancel_read. rewrite bind_get. destruct (active (reads s)) as [a|] eqn:Ha; [|by apply Hw].
  destruct (_ =? _); [|by apply Hw]. destruct Hs as [Hp Hq]. split; [exact Hp|]. intros b [= <-]. exact (Hq a Ha).
Qed.
Lemma take_honest t : preserves honest (take_read t).
Proof. unfold take_read. preserve. Qed.

(** *** Ticks *)

(** The read [t] was asked for with [p]. *)
Definition asked q t p : Prop := pending q !! t = Some p \/ exists a, active q = Some a /\ a_ticket a = t /\ a_pending a = p.
Definition ticked q o (r : option ReadTicket) s : Prop :=
  honest s /\ forall t v, r = Some t -> completed (reads s) !! t = Some (Ready v) -> exists p, asked q t p /\ shown pol o p v.
Lemma at_rest_honest q s : at_rest q s -> active q = None -> honest s.
Proof. intros [Hp <-] Ha. split; [done|]. intros a. by rewrite Ha. Qed.
Lemma rest_then {A B} q (m : Svc A) (k : A -> Svc B) Q : active q = None -> preserves (at_rest q) m ->
  (forall a, triple (at_rest q) (k a) Q (fun _ => honest)) -> triple (at_rest q) (bind m k) Q (fun _ => honest).
Proof.
  intros Ha Hm Hk. apply (triple_bind _ _ _ (fun _ => at_rest q)); [|exact Hk].
  eapply triple_conseq; [exact Hm|done|done|]. intros e s Hs. exact (at_rest_honest q s Hs Ha).
Qed.
Lemma settle_shows q0 q o t p n r ab : asked q0 t p -> active q = None -> (forall v, r = Ok (Some v) -> shown pol o p v) ->
  triple (at_rest q) (settle t n r ab) (ticked q0 o) (fun _ => honest).
Proof.
  intros Hp Ha Hr. apply rest_then; [done|apply kept_cancel_native, unaware_at_rest|]. intros _. destruct ab.
  - apply rest_then; [done|eapply kept_drop_view, unaware_at_rest|].
    intros _. apply triple_ret. intros s Hs. split; [exact (at_rest_honest q s Hs Ha)|done].
  - intros s [Hpol Hq]. unfold on_queue. rewrite bind_modify. split.
    + split; [done|]. intros a. simpl. by rewrite Hq, Ha.
    + intros t' v [= <-]. simpl. rewrite lookup_insert_eq. intros [= Hv]. exists p. split; [done|]. apply Hr.
      destruct r as [[w|]|]; simpl in Hv; congruence.
Qed.
Lemma tick_active_shows o a s : honest s -> active (reads s) = Some a ->
  match tick_active o a s with (s', Ok r) => ticked (reads s) o r s' | (s', Err _) => honest s' end.
Proof.
  intros [Hpol Hq] Ha. set (q := set_active None (reads s)).
  assert (asked (reads s) (a_ticket a) (a_pending a)) as Hasked by (right; by exists a).
  unfold tick_active, on_queue at 1. rewrite bind_modify. fold q.
  assert (polled pol (at_rest q) (a_pending a) (set_reads q s, a_read a)) as Hpolled by (split; [by split|exact (Hq a Ha)]).
  pose proof (poll_held pol (at_rest q) (unaware_at_rest q) (a_pending a) o _ Hpolled) as Hpoll.
  unfold bind at 1, on_read. destruct (poll_managed_read o (set_reads q s, a_read a)) as [[s1 m] r]. cbn [fst snd].
  assert (at_rest q s1 /\ faithful pol (a_pending a) m) as [Hrest Hf] by (destruct r as [v|f]; apply Hpoll).
  assert (honest s1) as Hs1 by (by eapply at_rest_honest).
  assert (preserves (at_rest q) (drop_read m)) as Hdrop by (eapply kept_drop_read, unaware_at_rest).
  assert (forall r', (forall v, r' = Ok (Some v) -> shown pol o (a_pending a) v) ->
    triple (at_rest q) (drop_read m ;;; settle (a_ticket a) (p_native (a_pending a)) r' (a_abandoned a)) (ticked (reads s) o) (fun _ => honest)) as Hsettle.
  { intros r' Hr'. apply rest_then; [done|exact Hdrop|]. intros _. by apply (settle_shows _ _ _ _ (a_pending a)). }
  destruct r as [[v|]|[e|x]]; [destruct (m_preempting m && negb (a_abandoned a))| | |].
  - eapply (rest_then q (drop_read m) _ (ticked (reads s) o)); [done|exact Hdrop| |exact Hrest]. intros _.
    apply rest_then; [done|eapply kept_drop_view, unaware_at_rest|]. intros _ s2 [Hp2 Hr2]. unfold on_queue. rewrite bind_modify.
    split; [|done]. split; [exact Hp2|]. intros b. simpl. by rewrite Hr2.
  - apply (Hsettle (Ok v)); [|exact Hrest]. intros w [= ->]. by apply Hpoll.
  - unfold on_queue. rewrite bind_modify. split; [|done]. destruct Hrest as [Hp1 _]. split; [exact Hp1|]. intros b [= <-]. exact Hf.
  - by apply (Hsettle (Err e)).
  - exact Hs1.
Qed.
Lemma begin_shows q o p : triple (at_rest q) (begin_waiting o p)
  (fun b s => at_rest q s /\ match b with BReady v => forall w, v = Some w -> shown pol o p w | BPending m => faithful pol p m end)
  (fun _ => at_rest q).
Proof.
  apply (held_or_fails (at_rest q)). intros i Hi. destruct (negb (same_edit i (p_expected p))) eqn:Hs; [by apply held_ret|].
  apply negb_false_iff in Hs. eapply held_weaken; [apply (begin_held pol), unaware_at_rest|]. intros b (j & Hj & Hb).
  assert (j = i) as -> by congruence. destruct b as [v|m].
  - intros w Hw. eapply viewed_shown; [exact Hi|exact Hs|]. by apply Hb.
  - destruct Hb as (Hmi & Hmt & Hma & Hfits). unfold faithful. rewrite Hmi, Hmt, Hma. done.
Qed.
Lemma faithful_request n p m : faithful pol p m -> faithful pol (with_native None p) (set_request n m).
Proof. done. Qed.
Lemma tick_start_shows o t p s : honest s -> active (reads s) = None -> pending (reads s) !! t = Some p ->
  match tick_start o t p s with (s', Ok r) => ticked (reads s) o r s' | (s', Err _) => honest s' end.
Proof.
  intros [Hpol Hq] Ha Hp. set (q := set_pending (delete t (pending (reads s))) (reads s)). assert (active q = None) as Hqa by done.
  unfold tick_start, on_queue at 1. rewrite bind_modify. fold q. assert (at_rest q (set_reads q s)) as Hrest by (by split).
  assert (asked (reads s) t p) as Hasked by (by left).
  pose proof (begin_shows q o p _ Hrest) as Hb. unfold bind at 1, try. destruct (begin_waiting o p (set_reads q s)) as [s1 r].
  destruct r as [[v|m]|[e|x]].
  - destruct Hb as [Hs1 Hv]. apply (settle_shows (reads s) q o t p); [done|done| |exact Hs1]. intros w [= ->]. by apply Hv.
  - destruct Hb as [[Hp1 _] Hm]. unfold on_queue. rewrite bind_modify. split; [|done]. split; [exact Hp1|]. intros b [= <-].
    by apply faithful_request.
  - by apply (settle_shows (reads s) q o t p).
  - exact (at_rest_honest q s1 Hb Hqa).
Qed.
Lemma tick_shows o s : honest s ->
  match tick_read o s with (s', Ok r) => ticked (reads s) o r s' | (s', Err _) => honest s' end.
Proof.
  intros Hs. assert (ticked (reads s) o None s) as Hnone by (by split). unfold tick_read. rewrite bind_get.
  destruct (delivery_io s || _); [exact Hnone|]. unfold tick_managed_read_queue. rewrite bind_get.
  destruct (active (reads s)) as [a|] eqn:Ha; [by apply tick_active_shows|].
  destruct (next_pending (reads s)) as [[t p]|] eqn:Hn; [|exact Hnone]. apply tick_start_shows; try done. by apply next_pending_Some.
Qed.

(** *** Shutdown and runs *)

Lemma on_active_honest (step : Rd unit) : (forall p, preserves (polled pol honest p) step) -> preserves honest (on_active step).
Proof.
  intros Hstep s Hs. unfold on_active. rewrite bind_get. destruct (active (reads s)) as [a|] eqn:Ha; [|exact Hs].
  unfold bind at 1, on_read. assert (polled pol honest (a_pending a) (s, a_read a)) as Hp by (split; [exact Hs|by apply Hs]).
  specialize (Hstep _ _ Hp). destruct (step (s, a_read a)) as [[s1 m] r]. cbn [fst snd].
  assert (honest s1 /\ faithful pol (a_pending a) m) as [[Hp1 _] Hm] by (destruct r; exact Hstep).
  assert (honest (set_reads (set_active (Some (mkActive (a_ticket a) (a_pending a) m (a_abandoned a))) (reads s1)) s1)) as Hh
    by (split; [exact Hp1|by intros b [= <-]]).
  unfold on_queue. rewrite bind_modify. by destruct r.
Qed.
Lemma signal_honest : preserves honest signal_read_shutdown.
Proof.
  assert (forall l, preserves honest (cancel_natives l)) as Hc by (induction l; simpl; preserve).
  unfold signal_read_shutdown. apply preserves_bind; [apply preserves_get|]. intros s. apply preserves_bind; [eauto with prog|]. intros _.
  apply preserves_bind; [apply Hc|]. intros _. apply kept_on_queue. intros q Hq. by apply as_asked_option.
Qed.
Lemma shutdown_honest o e : preserves honest (try_shutdown o e).
Proof.
  assert (preserves honest (on_active (drain o))) as Hd by (apply on_active_honest; intros p; apply kept_drain).
  assert (preserves honest (on_active release_scheduler)) as Hr by (apply on_active_honest; intros p; apply kept_released, unaware_honest).
  assert (preserves honest (on_queue (set_active None))) as Hn by (apply kept_on_queue; intros q Hq a [=]).
  pose proof signal_honest as Hs. unfold try_shutdown, try_read_shutdown, finish_read_shutdown. preserve.
Qed.
Lemma renders_honest s s' : renders s s' -> honest s -> honest s'.
Proof. by intros (c & n & -> & _) Hs. Qed.
Lemma step_honest P s s' : step P s s' -> honest s -> honest s'.
Proof.
  intros [s0 o k t st p i _|s0 t|s0 o _|s0 t|s0 o e _|s0 valid persisted id cost p|s0 c fin|s0 c comp|s0|s0 l out|s0 s1 Ho] Hs.
  - eapply Scheduler.preserved_state; [apply queue_honest|exact Hs].
  - eapply Scheduler.preserved_state; [apply cancel_honest|exact Hs].
  - pose proof (tick_shows o s0 Hs) as Ht. destruct (tick_read o s0) as [s1 [r|f]]; [apply Ht|exact Ht].
  - eapply Scheduler.preserved_state; [apply take_honest|exact Hs].
  - eapply Scheduler.preserved_state; [apply shutdown_honest|exact Hs].
  - exact (renders_honest _ _ (submit_renders s0 valid persisted id cost p) Hs).
  - exact (renders_honest _ _ (cancel_renders s0 c fin) Hs).
  - exact (renders_honest _ _ (take_completion_renders s0 c comp) Hs).
  - exact (renders_honest _ _ (renders_scheduler Scheduler.next_ready s0 ltac:(constructor)) Hs).
  - exact (renders_honest _ _ (renders_scheduler (Scheduler.finished l out) s0 ltac:(constructor)) Hs).
  - destruct Ho as [[_ Hp _ Hr _ _] _ _ _], Hs as [Hs1 Hs2]. split; [congruence|]. by rewrite Hr.
Qed.
End Queue.

Section Current.
Context {H : Type} {BP : ByteBudget.BytePool H} {CODEC : CatalogEdits.EditCodec} {FORMATS : PreviewFormats}.
Lemma reachable_honest P (s : PreviewService H) : reachable P s -> honest (policy s) s.
Proof.
  intros (s0 & Hi & Hr). assert (honest (policy s0) s0) as H0 by (split; [done|]; intros a; by rewrite (in_reads _ Hi)).
  revert H0. generalize (policy s0) as pol. clear Hi. induction Hr as [s|s0 s1 s Hstep _ IH]; intros pol H0.
  - pose proof H0 as [Hp _]. by rewrite Hp.
  - by eapply IH, step_honest.
Qed.

(** C8. A view a read ends with is of the edit the read was asked for: unless it is marked
    stale, the catalog holds that edit now, its source is ready, and the view has the
    key that the catalog's identity gives, its own or, for an image with its first
    pixels, the one it gives without the image; a stale view is a thumbnail asked for with
    stale ones allowed. *)
Theorem shown_views_current P (s s' : PreviewService H) o t v : reachable P s ->
  tick_read o s = (s', Ok (Some t)) -> completed (reads s') !! t = Some (Ready v) ->
  exists p, asked (reads s) t p /\
    (v_stale v = false -> exists i k, edit_identity o (CatalogEdits.e_key (p_expected p)) = Ok i /\
      same_edit i (p_expected p) = true /\ CatalogEdits.r_state (CatalogEdits.e_source i) = "ready" /\
      v_key v = Some k /\ shows (policy s) (p_interactive p) (p_tier p) i k) /\
    (v_stale v = true -> p_allow_stale p = true /\ p_tier p = Thumbnail).
Proof.
  intros Hr Ht Hv. pose proof (tick_shows (policy s) o s (reachable_honest P s Hr)) as Hs. rewrite Ht in Hs.
  destruct Hs as [_ Hs]. destruct (Hs t v eq_refl Hv) as (p & Hp & Hf & Hst). exists p. split; [done|]. split; [exact Hf|].
  intros Hstale. specialize (Hst Hstale). unfold may_be_stale in Hst. by rewrite andb_true_iff, bool_decide_eq_true in Hst.
Qed.
End Current.
