(* ===== verification/ReadDemo.v ===== *)
(** Concrete runs of the cached preview reads, for the witnesses, and the entry that a
    decoded legacy hit leaves behind in the scheduler. *)
From stdpp Require Import base tactics option list numbers gmap strings fin_maps relations.
From Stdlib Require Import ZArith Lia.
From S2P Require Import Prelude Bytes FsOps ReadErrors PreviewSelection ManagedReads ReadOwnership ReadLedger ReadRuns ReadCurrent.
From S2P Require CatalogEdits EditTheorems ByteBudget DecodedCache Scheduler.

Open Scope Z_scope.
#[local] Existing Instance CatalogEdits.VariantKey_eq_dec.
#[local] Existing Instance EditTheorems.demo_edit_codec.
#[local] Existing Instance ByteBudget.heap_pool.

(** ** Playing calls *)

Section Play.
Context {H : Type} {BP : ByteBudget.BytePool H} {CODEC : CatalogEdits.EditCodec} {FORMATS : PreviewFormats}.
Inductive Call : Type :=
| CallQueue (o : Outside) (k : VariantKey) (t : Tier) (allow_stale : bool) (p : Priority)
| CallTick (o : Outside) | CallCancel (t : ReadTicket) | CallTake (t : ReadTicket).
Definition perform (s : PreviewService H) (c : Call) : PreviewService H :=
  match c with
  | CallQueue o k t a p => (queue_read_variant o k t a p false s).1
  | CallTick o => (tick_read o s).1
  | CallCancel t => (cancel_read t s).1
  | CallTake t => (take_read t s).1
  end.
Definition answers (P : Outside -> Prop) (c : Call) : Prop :=
  match c with CallQueue o _ _ _ _ | CallTick o => P o | _ => True end.
Lemma call_step P s c : answers P c -> step P s (perform s c).
Proof. destruct c; simpl; intros Hc; by constructor. Qed.
Lemma play_steps P l : forall s, Forall (answers P) l -> rtc (step P) s (foldl perform s l).
Proof.
  induction l as [|c l IH]; intros s Hl; simpl; [apply rtc_refl|]. inversion Hl; subst.
  eapply rtc_l; [by apply call_step|by apply IH].
Qed.
End Play.

(** ** A service with two ready assets *)

Definition hash64 : string := String.concat "" (repeat "a" 64).
Definition demo_policy : PreviewPolicy :=
  mkPolicy (mkTierPolicy 256 (mkSettings DecodedCache.Jpeg 80)) (mkTierPolicy 2048 (mkSettings DecodedCache.Webp 90)).
Definition demo_previewed : CatalogEdits.Db :=
  CatalogEdits.mkDb {["a" := CatalogEdits.mkAsset None 1 1 (Some hash64) "ready"]}
    {[EditTheorems.demo_key := EditTheorems.demo_image]} {["a" := 0]} ∅ ∅ 0 ∅ ∅ ∅.
(** The key of its thumbnail. *)
Definition demo_thumbnail : PreviewKey :=
  mkPreviewKey "a" CatalogEdits.MASTER 1 (Some 0) hash64 0 "original" PREPARATION_VERSION Thumbnail 256
    (mkSettings DecodedCache.Jpeg 80).
Definition demo_formats : PreviewFormats := {|
  original_renderer := "original";
  edited_hash := "edited";
  key_hash _ := Ok hash64;
  text_hash _ := hash64;
  parse_key _ := Ok demo_thumbnail;
  parse_record _ := Err (says "no record");
  record_encodes _ := Ok tt;
|}.
#[local] Existing Instance demo_formats.
Definition demo_service : PreviewService (ByteBudget.PoolView 0) :=
  mkService demo_policy (mkServiceLimits 4 10 10 100) (Scheduler.mkScheduler (Scheduler.mkLimits 4 2 1000) 1 ∅ ∅ ∅ 0 ∅ ∅ 0)
    DecodedCache.demo_cache ByteBudget.demo1 0 ∅ 0 0 false false false ∅ (mkQueue 0 None ∅ ∅).

(** The manifest has the thumbnail, or the catalog a legacy preview; the tasks answer [enc] and [ev]. *)
Definition demo_outside (legacy : bool) (enc : Answer (Integrity * list Z * nat)) (ev : Answer Event) : Outside :=
  mkOutside demo_previewed (fun _ => says "catalog")
    (fun _ => Ok (if legacy then Some (CText hash64) else Some CNull))
    (fun _ _ _ _ => Ok (if legacy then None else Some (mkObjectRow (CText hash64) (CText "key") (CInteger 4) (CText hash64))))
    (fun _ => Ok None) (fun _ _ => Ok tt) (fun _ => Ok tt) (fun _ => Ok tt) (Ok tt) (fun _ => Ok tt) enc ev (Ok tt) (Ok tt) (Ok tt).
Definition arrived : Answer (Integrity * list Z * nat) := Finished (Ok (Intact, [1; 2; 3; 4], 0%nat)).
Definition quiet (legacy : bool) : Outside := demo_outside legacy Running Running.
Definition asks (legacy : bool) : Call :=
  CallQueue (quiet legacy) EditTheorems.demo_key Thumbnail true Scheduler.Foreground.
(** Begun and transferred, its header read, decoded. *)
Definition reads_one (legacy : bool) : list Call :=
  [asks legacy; CallTick (quiet legacy); CallTick (demo_outside legacy arrived Running)].
Definition header_of (legacy : bool) : Outside :=
  demo_outside legacy Running (Finished (Ok (EHeader (mkHeader 1 "s" "d" 4 DecodedCache.Jpeg 2 3)))).
Definition pixels_of (legacy : bool) : Outside :=
  demo_outside legacy Running (Finished (Ok (EPixels DecodedCache.demo_pixels))).
Definition transferred_of (legacy : bool) : PreviewService (ByteBudget.PoolView 0) := foldl perform demo_service (reads_one legacy).
Definition decoding_of (legacy : bool) : PreviewService (ByteBudget.PoolView 0) :=
  perform (transferred_of legacy) (CallTick (header_of legacy)).

Lemma demo_service_initial : initial demo_service.
Proof.
  constructor.
  - exists (Scheduler.mkLimits 4 2 1000). split; [reflexivity|vm_compute; discriminate].
  - split; [apply ByteBudget.reachable_accounted, (rtc_l _ _ ByteBudget.demo1); [apply ByteBudget.step_new; vm_compute; split; discriminate|apply rtc_refl]|].
    eexists. split; vm_compute; reflexivity.
  - reflexivity.
  - split; [reflexivity|vm_compute; discriminate].
Qed.
Definition never_legacy (o : Outside) : Prop := preview_hash o = fun _ => Ok (Some CNull).
Lemma never_legacy_free o : never_legacy o -> legacy_free o.
Proof. intros Ho a t. by rewrite Ho. Qed.
(** The thumbnail is read, and then taken. *)
Definition demo_done : PreviewService (ByteBudget.PoolView 0) := perform (decoding_of false) (CallTick (pixels_of false)).
Definition demo_taken : PreviewService (ByteBudget.PoolView 0) := perform demo_done (CallTake 1).
(** Two reads of the same legacy preview; the second finds its decoded page. *)
Definition legacy_run : PreviewService (ByteBudget.PoolView 0) :=
  foldl perform demo_service (reads_one true ++
    [CallTick (header_of true); CallTick (pixels_of true); asks true; CallTick (quiet true); CallTick (demo_outside true arrived Running)]).

Lemma play_reachable P l : Forall (answers P) l -> reachable P (foldl perform demo_service l).
Proof. intros Hl. exists demo_service. split; [apply demo_service_initial|by apply play_steps]. Qed.
Lemma perform_reachable P s c : reachable P s -> answers P c -> reachable P (perform (H:=ByteBudget.PoolView 0) s c).
Proof. intros (s0 & Hi & Hr) Hc. exists s0. split; [exact Hi|]. eapply rtc_r; [exact Hr|by apply call_step]. Qed.
Lemma transferred_reachable : reachable never_legacy (transferred_of false).
Proof. apply play_reachable. by repeat constructor. Qed.
Lemma decoding_reachable : reachable never_legacy (decoding_of false).
Proof. refine (perform_reachable _ (transferred_of false) (CallTick (header_of false)) transferred_reachable _). reflexivity. Qed.
Lemma demo_done_reachable : reachable never_legacy demo_done.
Proof. refine (perform_reachable _ (decoding_of false) (CallTick (pixels_of false)) decoding_reachable _). reflexivity. Qed.

(** The reads are all over, and yet an entry of the scheduler is left: it takes a
    request slot and keeps the synchronous reads busy. *)
Lemma legacy_hit_keeps_request : reachable (fun _ => True) legacy_run /\
  active (reads legacy_run) = None /\ pending (reads legacy_run) = ∅ /\
  Scheduler.u_queued (Scheduler.usage (scheduler legacy_run)) = 1 /\
  (exists e, (ensure_synchronous_read_available legacy_run).2 = Err (Fails e)).
Proof.
  split.
  - unfold legacy_run. apply play_reachable. by repeat constructor.
  - split_and!; [vm_compute; reflexivity..|]. eexists. vm_compute. reflexivity.
Qed.

(** ** Witnesses *)

Lemma native_reads_owned_witness :
  exists a l, active (reads (decoding_of false)) = Some a /\ owns (reads (decoding_of false)) (a_ticket a) 1 /\
    m_lease (a_read a) = Some l.
Proof.
  assert (exists r l, external (scheduler (decoding_of false)) !! 1 = Some r /\ Scheduler.r_lease r = Some l) as (r & l & He & Hl)
    by (do 2 eexists; split; vm_compute; reflexivity).
  assert (step never_legacy (transferred_of false) (decoding_of false)) as Hstep by (refine (call_step _ (transferred_of false) (CallTick (header_of false)) _); reflexivity).
  destruct (native_reads_owned never_legacy _ _ transferred_reachable Hstep) as (_ & _ & H & _).
  destruct (H 1 r l He Hl) as (a & Ha & Ho & Hla & _). exists a, l. auto.
Defined.
Lemma idle_reads_hold_nothing_witness : external (scheduler demo_done) = ∅.
Proof.
  destruct (idle_reads_hold_nothing never_legacy demo_done never_legacy_free demo_done_reachable) as [_ H].
  apply H; vm_compute; reflexivity.
Defined.
Lemma reads_never_panic_witness : never_panics (tick_read (pixels_of false) (decoding_of false)).
Proof. apply (reads_never_panic never_legacy (decoding_of false) decoding_reachable). Defined.
Lemma tickets_end_once_witness :
  place (reads demo_done) 1 = Done /\ may_move Done (place (reads demo_taken) 1) = true /\
  map_len (consumers demo_taken) + queue_len (reads demo_taken) <= 4.
Proof.
  assert (place (reads demo_done) 1 = Done) as Hd by (vm_compute; reflexivity). split; [exact Hd|].
  assert (rtc (step never_legacy) demo_done demo_taken) as Hrun by (apply rtc_once; exact (call_step _ demo_done (CallTake 1) I)).
  destruct (tickets_end_once never_legacy demo_done demo_taken demo_done_reachable Hrun) as (_ & H & _ & Hn & _).
  split; [rewrite <- Hd; apply H; vm_compute; discriminate|exact Hn].
Defined.
Lemma shown_views_current_witness :
  exists v, completed (reads demo_done) !! 1 = Some (Ready v) /\ v_stale v = false /\ v_key v = Some demo_thumbnail.
Proof.
  assert (exists v, completed (reads demo_done) !! 1 = Some (Ready v) /\ v_stale v = false /\ v_key v = Some demo_thumbnail) as (v & Hv & Hs & Hk)
    by (eexists; split; [vm_compute; reflexivity|split; reflexivity]).
  assert (tick_read (pixels_of false) (decoding_of false) = (demo_done, Ok (Some 1))) as Ht by (vm_compute; reflexivity).
  pose proof (shown_views_current never_legacy _ _ _ _ _ decoding_reachable Ht Hv) as Hall. clear Ht.
  destruct Hall as (p & _ & Hf & _). destruct (Hf Hs) as (i & k & _). exists v. auto.
Defined.
