(* ===== verification/FsProcess.v ===== *)
(** The filesystem helper process: src/src/filesystem_worker/process.rs.

    Four threads share one [State] behind a mutex and a condition variable: the
    input thread admits operations and controls, the execution thread runs one
    operation at a time and retains its result, the output thread sends results
    and the control thread sends replies and status reports.  A critical section
    is one step; an operation of the engine runs between two of them. *)
From stdpp Require Import base tactics option list numbers strings.
From Stdlib Require Import ZArith Lia.
From S2P Require Import Prelude Bytes FsWire FsOps.

Open Scope Z_scope.
Local Open Scope prog_scope.

Section Process.
Context {ENGINE : Engine} {CODEC : HelperCodec}.

(** ** The shared state *)

(** A cancellation flag is a cell; [p_cancel] is its address. *)
(** @source src/src/filesystem_worker/process.rs:33-37 Pending *)
Record Pending : Type := mkPending { p_sequence : Z; p_operation : Operation; p_cancel : nat }.
(** @source src/src/filesystem_worker/process.rs:38-42 Retained *)
Record Retained : Type := mkRetained { info : ResultInfo; result_bytes : list Z; result_sent : bool }.

(** @source src/src/filesystem_worker/process.rs:43-64 State *)
Record State : Type := mkState {
  phase : Phase;
  active : option (Z * nat);
  queued : option Pending;
  retained : option Retained;
  admission : option AdmissionSnapshot;
  admission_reply : option (Z * ControlMessage);
  store : option StoreSnapshot;
  objects : option ObjectSnapshot;
  store_reply : option (Z * ControlMessage);
  error : option Failure;
  last_sequence : Z;
  revision : Z;
  stop_attempt : Z;
  shutdown_wire : Z;
  shutdown_reported : Z;
  stopped_attempt : Z;
  input_closed : bool;
  early_cancel : option Z;
  execution_done : bool;
  canceled_before_execution : option Z }.

Definition set_phase v (s : State) : State :=
  mkState v (active s) (queued s) (retained s) (admission s) (admission_reply s) (store s) (objects s) (store_reply s) (error s) (last_sequence s) (revision s) (stop_attempt s) (shutdown_wire s) (shutdown_reported s) (stopped_attempt s) (input_closed s) (early_cancel s) (execution_done s) (canceled_before_execution s).
Definition set_active v (s : State) : State :=
  mkState (phase s) v (queued s) (retained s) (admission s) (admission_reply s) (store s) (objects s) (store_reply s) (error s) (last_sequence s) (revision s) (stop_attempt s) (shutdown_wire s) (shutdown_reported s) (stopped_attempt s) (input_closed s) (early_cancel s) (execution_done s) (canceled_before_execution s).
Definition set_queued v (s : State) : State :=
  mkState (phase s) (active s) v (retained s) (admission s) (admission_reply s) (store s) (objects s) (store_reply s) (error s) (last_sequence s) (revision s) (stop_attempt s) (shutdown_wire s) (shutdown_reported s) (stopped_attempt s) (input_closed s) (early_cancel s) (execution_done s) (canceled_before_execution s).
Definition set_retained v (s : State) : State :=
  mkState (phase s) (active s) (queued s) v (admission s) (admission_reply s) (store s) (objects s) (store_reply s) (error s) (last_sequence s) (revision s) (stop_attempt s) (shutdown_wire s) (shutdown_reported s) (stopped_attempt s) (input_closed s) (early_cancel s) (execution_done s) (canceled_before_execution s).
Definition set_admission v (s : State) : State :=
  mkState (phase s) (active s) (queued s) (retained s) v (admission_reply s) (store s) (objects s) (store_reply s) (error s) (last_sequence s) (revision s) (stop_attempt s) (shutdown_wire s) (shutdown_reported s) (stopped_attempt s) (input_closed s) (early_cancel s) (execution_done s) (canceled_before_execution s).
Definition set_admission_reply v (s : State) : State :=
  mkState (phase s) (active s) (queued s) (retained s) (admission s) v (store s) (objects s) (store_reply s) (error s) (last_sequence s) (revision s) (stop_attempt s) (shutdown_wire s) (shutdown_reported s) (stopped_attempt s) (input_closed s) (early_cancel s) (execution_done s) (canceled_before_execution s).
Definition set_store v (s : State) : State :=
  mkState (phase s) (active s) (queued s) (retained s) (admission s) (admission_reply s) v (objects s) (store_reply s) (error s) (last_sequence s) (revision s) (stop_attempt s) (shutdown_wire s) (shutdown_reported s) (stopped_attempt s) (input_closed s) (early_cancel s) (execution_done s) (canceled_before_execution s).
Definition set_objects v (s : State) : State :=
  mkState (phase s) (active s) (queued s) (retained s) (admission s) (admission_reply s) (store s) v (store_reply s) (error s) (last_sequence s) (revision s) (stop_attempt s) (shutdown_wire s) (shutdown_reported s) (stopped_attempt s) (input_closed s) (early_cancel s) (execution_done s) (canceled_before_execution s).
Definition set_store_reply v (s : State) : State :=
  mkState (phase s) (active s) (queued s) (retained s) (admission s) (admission_reply s) (store s) (objects s) v (error s) (last_sequence s) (revision s) (stop_attempt s) (shutdown_wire s) (shutdown_reported s) (stopped_attempt s) (input_closed s) (early_cancel s) (execution_done s) (canceled_before_execution s).
Definition set_error v (s : State) : State :=
  mkState (phase s) (active s) (queued s) (retained s) (admission s) (admission_reply s) (store s) (objects s) (store_reply s) v (last_sequence s) (revision s) (stop_attempt s) (shutdown_wire s) (shutdown_reported s) (stopped_attempt s) (input_closed s) (early_cancel s) (execution_done s) (canceled_before_execution s).
Definition set_last_sequence v (s : State) : State :=
  mkState (phase s) (active s) (queued s) (retained s) (admission s) (admission_reply s) (store s) (objects s) (store_reply s) (error s) v (revision s) (stop_attempt s) (shutdown_wire s) (shutdown_reported s) (stopped_attempt s) (input_closed s) (early_cancel s) (execution_done s) (canceled_before_execution s).
Definition set_revision v (s : State) : State :=
  mkState (phase s) (active s) (queued s) (retained s) (admission s) (admission_reply s) (store s) (objects s) (store_reply s) (error s) (last_sequence s) v (stop_attempt s) (shutdown_wire s) (shutdown_reported s) (stopped_attempt s) (input_closed s) (early_cancel s) (execution_done s) (canceled_before_execution s).
Definition set_stop_attempt v (s : State) : State :=
  mkState (phase s) (active s) (queued s) (retained s) (admission s) (admission_reply s) (store s) (objects s) (store_reply s) (error s) (last_sequence s) (revision s) v (shutdown_wire s) (shutdown_reported s) (stopped_attempt s) (input_closed s) (early_cancel s) (execution_done s) (canceled_before_execution s).
Definition set_shutdown_wire v (s : State) : State :=
  mkState (phase s) (active s) (queued s) (retained s) (admission s) (admission_reply s) (store s) (objects s) (store_reply s) (error s) (last_sequence s) (revision s) (stop_attempt s) v (shutdown_reported s) (stopped_attempt s) (input_closed s) (early_cancel s) (execution_done s) (canceled_before_execution s).
Definition set_shutdown_reported v (s : State) : State :=
  mkState (phase s) (active s) (queued s) (retained s) (admission s) (admission_reply s) (store s) (objects s) (store_reply s) (error s) (last_sequence s) (revision s) (stop_attempt s) (shutdown_wire s) v (stopped_attempt s) (input_closed s) (early_cancel s) (execution_done s) (canceled_before_execution s).
Definition set_stopped_attempt v (s : State) : State :=
  mkState (phase s) (active s) (queued s) (retained s) (admission s) (admission_reply s) (store s) (objects s) (store_reply s) (error s) (last_sequence s) (revision s) (stop_attempt s) (shutdown_wire s) (shutdown_reported s) v (input_closed s) (early_cancel s) (execution_done s) (canceled_before_execution s).
Definition set_input_closed v (s : State) : State :=
  mkState (phase s) (active s) (queued s) (retained s) (admission s) (admission_reply s) (store s) (objects s) (store_reply s) (error s) (last_sequence s) (revision s) (stop_attempt s) (shutdown_wire s) (shutdown_reported s) (stopped_attempt s) v (early_cancel s) (execution_done s) (canceled_before_execution s).
Definition set_early_cancel v (s : State) : State :=
  mkState (phase s) (active s) (queued s) (retained s) (admission s) (admission_reply s) (store s) (objects s) (store_reply s) (error s) (last_sequence s) (revision s) (stop_attempt s) (shutdown_wire s) (shutdown_reported s) (stopped_attempt s) (input_closed s) v (execution_done s) (canceled_before_execution s).
Definition set_execution_done v (s : State) : State :=
  mkState (phase s) (active s) (queued s) (retained s) (admission s) (admission_reply s) (store s) (objects s) (store_reply s) (error s) (last_sequence s) (revision s) (stop_attempt s) (shutdown_wire s) (shutdown_reported s) (stopped_attempt s) (input_closed s) (early_cancel s) v (canceled_before_execution s).
Definition set_canceled_before_execution v (s : State) : State :=
  mkState (phase s) (active s) (queued s) (retained s) (admission s) (admission_reply s) (store s) (objects s) (store_reply s) (error s) (last_sequence s) (revision s) (stop_attempt s) (shutdown_wire s) (shutdown_reported s) (stopped_attempt s) (input_closed s) (early_cancel s) (execution_done s) v.

(** @source src/src/filesystem_worker/process.rs:133-161 Shared::new *)
Definition initial_state : State :=
  mkState Starting None None None None None None None None None 0 1 0 0 0 0 false None false None.

(** @source src/src/filesystem_worker/process.rs:66-82 State::status *)
Definition status (s : State) : StatusReport :=
  mkReport (phase s)
    (if bool_decide (phase s = DrainFailed) || bool_decide (phase s = Stopped)
     then shutdown_reported s else shutdown_wire s)
    (fst <$> active s) (p_sequence <$> queued s) (info <$> retained s)
    (canceled_before_execution s) (error s).

(** [wrapping_add] on [u64]. *)
(** @source src/src/filesystem_worker/process.rs:83-85 State::changed *)
Definition changed (s : State) : State := set_revision ((revision s + 1) mod 2 ^ 64) s.

(** The state, the heap of cancellation flags and the input thread's assembly. *)
Record Mem : Type := mkMem { st : State; cells : list bool; asm : option Assembly }.
Definition upd (f : State -> State) (m : Mem) : Mem := mkMem (f (st m)) (cells m) (asm m).
Definition set_asm (a : option Assembly) (m : Mem) : Mem := mkMem (st m) (cells m) a.
(** [cancel.store(true)]. *)
Definition raise (cell : nat) (m : Mem) : Mem := mkMem (st m) (<[cell := true]> (cells m)) (asm m).
Definition raised (cell : nat) (m : Mem) : bool := default false (cells m !! cell).

Definition cleanup_queued (s : State) : bool :=
  match queued s with Some p => is_cleanup (p_operation p) | None => false end.
(** The queued operation, when a stop drops it. *)
Definition droppable (s : State) : option Pending :=
  match queued s with
  | Some p => if is_cleanup (p_operation p) then None else Some p
  | None => None
  end.

(** @source src/src/filesystem_worker/process.rs:86-102 State::stop *)
Definition stop (m : Mem) : Mem :=
  let m := upd (fun s => set_phase Stopping (set_stop_attempt (saturating_add (stop_attempt s) 1) s)) m in
  let m := match active (st m) with Some (_, c) => raise c m | None => m end in
  let m := match droppable (st m) with
           | Some p => upd (fun s => set_canceled_before_execution (Some (p_sequence p)) (set_queued None s)) m
           | None => m
           end in
  upd changed m.

(** @source src/src/filesystem_worker/process.rs:162-167 Shared::fail *)
Definition shared_fail (fragments : list (list Z)) (m : Mem) : Mem :=
  stop (upd (set_error (Some (failure_new Unknown fragments))) m).

(** ** The engine's view *)

(** @source src/src/filesystem_worker/process.rs:172-177 OperationContext *)
Record OperationContext : Type := mkContext {
  ctx_cancel : option nat;                     (** [None] is a flag of its own *)
  ctx_admission : option (Z * LeaseId);
  ctx_store : option StatusQuery }.

Abbreviation PM := (proc string Mem).

(** @source src/src/filesystem_worker/process.rs:182-195 OperationContext::publish_objects *)
Definition publish_objects (ctx : OperationContext) (snapshot : ObjectSnapshot) : PM unit :=
  let* query := of_option (ctx_store ctx) "operation cannot publish cache status"%string in
  ensure (bool_decide (q_kind query = Objects)) "cache snapshot family mismatch"%string ;;;
  let* s := lift (object_status snapshot query) in
  lift (status_valid s query) ;;;
  modify (upd (set_objects (Some snapshot))).
(** @source src/src/filesystem_worker/process.rs:196-209 OperationContext::publish_store *)
Definition publish_store (epoch : LeaseId) (ctx : OperationContext) (snapshot : StoreSnapshot) : PM unit :=
  let* query := of_option (ctx_store ctx) "operation cannot publish preview status"%string in
  ensure (bool_decide (q_epoch query = epoch)) "preview snapshot helper epoch mismatch"%string ;;;
  let* s := lift (store_status snapshot query) in
  lift (status_valid s query) ;;;
  modify (upd (set_store (Some snapshot))).
(** @source src/src/filesystem_worker/process.rs:210-226 OperationContext::clear_store *)
Definition clear_store (root : RootCapability) : PM unit :=
  let* m := get in
  (match store (st m) with
   | Some snapshot => let* _ := lift (store_status snapshot (query_of Locks root 1)) in ret tt
   | None => ret tt
   end) ;;;
  modify (upd (fun s => set_objects None (set_store None s))).
(** @source src/src/filesystem_worker/process.rs:227-265 OperationContext::publish_admission *)
Definition publish_admission (epoch : LeaseId) (ctx : OperationContext) (snapshot : AdmissionSnapshot) : PM unit :=
  lift (admission_valid snapshot) ;;;
  ensure (bool_decide (ctx_admission ctx = Some (ad_operation snapshot, ad_session snapshot)))
    "operation cannot publish another admission"%string ;;;
  ensure (match ad_bootstrap snapshot with Some b => bool_decide (b_epoch b = epoch) | None => true end)
    "admission has another helper epoch"%string ;;;
  let* m := get in
  (match admission (st m) with
   | Some previous =>
       ensure ((ad_operation previous =? ad_operation snapshot) && bool_decide (ad_session previous = ad_session snapshot))
         "outstanding filesystem admission cannot be replaced"%string ;;;
       ensure (negb (directory_created previous) || directory_created snapshot) "creation fact regressed"%string ;;;
       ensure (negb (catalog_created previous) || catalog_created snapshot) "creation fact regressed"%string ;;;
       ensure (negb (manifest_created previous) || manifest_created snapshot) "creation fact regressed"%string
   | None => ret tt
   end) ;;;
  modify (upd (fun s => changed (set_admission (Some snapshot) s))).

(** @source src/src/filesystem_worker/process.rs:268-275 admission_identity *)
Definition admission_identity (o : Operation) : option (Z * LeaseId) :=
  match o with
  | PrepareCatalog operation session _ => Some (operation, session)
  | ConfirmSqlAdmission operation root _ => Some (operation, root_session root)
  | AbandonPrepare operation session => Some (operation, session)
  | _ => None
  end.
(** @source src/src/filesystem_worker/process.rs:276-287 preparing *)
Definition preparing (operation : Z) (session : LeaseId) : AdmissionSnapshot :=
  mkAdmission operation session false false false None Preparing None.

(** ** The input thread *)

Definition reject (sequence : Z) (why : string) : PM unit :=
  let* m := get in
  ensure (bool_decide (admission_reply (st m) = None)) "filesystem reserved reply capacity exceeded"%string ;;;
  modify (upd (fun s => changed (set_admission_reply
    (Some (sequence, CRejected (failure_says Rejected why))) s))).

(** Whether a catalog preparation would replace an admission that is still held. *)
Definition admission_held (o : Operation) (s : State) : bool :=
  match o, admission s with
  | PrepareCatalog _ _ _, Some previous => negb (bool_decide (ad_state previous = Abandoned))
  | _, _ => false
  end.
(** @source src/src/filesystem_worker/process.rs:438-442 input_loop *)
Definition admits (o : Operation) (s : State) : bool :=
  (bool_decide (phase s = ReadyPhase) ||
   ((bool_decide (phase s = Stopping) || bool_decide (phase s = DrainFailed)) && is_cleanup o)) &&
  bool_decide (queued s = None).

(** A complete [Execute] message, under the lock. *)
(** @source src/src/filesystem_worker/process.rs:428-487 input_loop *)
Definition execute_message (sequence : Z) (o : Operation) : PM unit :=
  let* m := get in
  if sequence <=? last_sequence (st m) then modify (upd changed) else
  modify (upd (set_last_sequence sequence)) ;;;
  let* m := get in
  if negb (admits o (st m)) then reject sequence "filesystem operation admission busy"%string
  else if admission_held o (st m) then reject sequence "previous filesystem admission is retained"%string
  else
    let canceled := bool_decide (early_cancel (st m) = Some sequence) in
    modify (upd (fun s => match early_cancel s with
                          | Some i => if i <=? sequence then set_early_cancel None s else s
                          | None => s
                          end)) ;;;
    modify (fun m => mkMem (set_queued (Some (mkPending sequence o (length (cells m)))) (st m))
                       (cells m ++ [canceled]) (asm m)) ;;;
    modify (upd changed).

Definition io_text (e : IoError) : string :=
  match e with
  | InvalidData m => m
  | Fault m => m
  | UnexpectedEof => "failed to fill whole buffer"
  | OutOfFuel => ""
  end.
Definition io {A} (r : result IoError A) : PM A :=
  lift (match r with Ok a => Ok a | Err e => Err (io_text e) end).

(** [true] when the thread notified the others. *)
(** @source src/src/filesystem_worker/process.rs:420-489 input_loop *)
Definition execute_frame (f : Frame) : PM bool :=
  let* m := get in
  let* a := match asm m with Some a => ret a | None => io (assembly_start f) end in
  modify (set_asm (Some a)) ;;;
  let* r := io (assembly_push a f) in
  modify (set_asm (Some r.1)) ;;;
  if r.2 : bool then
    modify (set_asm None) ;;;
    let* msg := io (assembly_finish r.1) in
    let* o := lift (decode_operation (m_bytes msg)) in
    lift (validate_operation o) ;;;
    execute_message (m_sequence msg) o ;;;
    ret true
  else ret false.

(** @source src/src/filesystem_worker/process.rs:502-521 input_loop *)
Definition cancel_frame (f : Frame) : PM unit :=
  ensure (bool_decide (payload f = [])) "cancel payload is not empty"%string ;;;
  modify (fun m => match active (st m) with
                   | Some (i, c) => if i =? sequence f then raise c m else m
                   | None => m
                   end) ;;;
  modify (fun m => match queued (st m) with
                   | Some p => if p_sequence p =? sequence f then raise (p_cancel p) m else m
                   | None => m
                   end) ;;;
  let* m := get in
  if last_sequence (st m) <? sequence f then
    ensure (match early_cancel (st m) with None => true | Some i => i =? sequence f end)
      "filesystem early cancel capacity exceeded"%string ;;;
    modify (upd (set_early_cancel (Some (sequence f))))
  else ret tt.
(** @source src/src/filesystem_worker/process.rs:522-533 input_loop *)
Definition ack_frame (f : Frame) : PM unit :=
  let* ack := lift (decode_ack (payload f)) in
  ensure (ack.1 =? sequence f) "ack sequence mismatch"%string ;;;
  let* m := get in
  match retained (st m) with
  | Some r =>
      ensure ((r_sequence (info r) =? ack.1) && bool_decide (r_blake3 (info r) = ack.2)) "ack result mismatch"%string ;;;
      modify (upd (set_retained None))
  | None => ret tt
  end.
(** @source src/src/filesystem_worker/process.rs:534-546 input_loop *)
Definition status_frame (f : Frame) : PM unit :=
  ensure (bool_decide (payload f = [])) "status payload is not empty"%string ;;;
  modify (upd (fun s => match retained s with
                        | Some r => if negb (sequence f =? 0) && (r_sequence (info r) =? sequence f)
                                    then set_retained (Some (mkRetained (info r) (result_bytes r) false)) s else s
                        | None => s
                        end)).
(** @source src/src/filesystem_worker/process.rs:547-573 input_loop *)
Definition store_status_frame (epoch : LeaseId) (f : Frame) : PM unit :=
  let* m := get in
  ensure (bool_decide (store_reply (st m) = None)) "preview status reply already pending"%string ;;;
  let* query := lift (decode_query (payload f)) in
  lift (query_valid query) ;;;
  ensure (bool_decide (q_epoch query = epoch)) "preview status helper epoch mismatch"%string ;;;
  let value := match q_kind query with
               | Locks => match store (st m) with
                          | Some s => store_status s query
                          | None => Err "preview ownership has no published status"%string
                          end
               | Objects => match objects (st m) with
                            | Some s => object_status s query
                            | None => Err "cache IO has no published status"%string
                            end
               end in
  modify (upd (set_store_reply (Some (sequence f,
    CStore (match value with Ok v => Ok v | Err e => Err (failure_says Rejected e) end))))).
(** @source src/src/filesystem_worker/process.rs:574-600 input_loop *)
Definition admission_status_frame (f : Frame) : PM unit :=
  let* m := get in
  ensure (bool_decide (admission_reply (st m) = None)) "admission status reply already pending"%string ;;;
  let* query := lift (decode_admission_query (payload f)) in
  let matches operation session := (operation =? query.1) && bool_decide (session = query.2) in
  let published := match admission (st m) with
                   | Some a => if matches (ad_operation a) (ad_session a) then Some a else None
                   | None => None
                   end in
  let waiting := match queued (st m) with
                 | Some (mkPending _ (PrepareCatalog operation session _) _) =>
                     if matches operation session then Some (preparing operation session) else None
                 | _ => None
                 end in
  modify (upd (set_admission_reply (Some (sequence f,
    CAdmission (match published with Some a => Some a | None => waiting end))))).
(** @source src/src/filesystem_worker/process.rs:601-608 input_loop *)
Definition stop_frame (f : Frame) : PM unit :=
  ensure (bool_decide (payload f = [])) "stop payload is not empty"%string ;;;
  ensure (0 <? sequence f) "invalid filesystem shutdown attempt"%string ;;;
  modify (fun m => if shutdown_wire (st m) <? sequence f
                   then stop (upd (set_shutdown_wire (sequence f)) m) else m).

(** @source src/src/filesystem_worker/process.rs:412-616 input_loop *)
Definition input_frame (nonce : list Z) (epoch_id : LeaseId) (f : Frame) : PM bool :=
  ensure (bool_decide (epoch f = nonce)) "filesystem frame belongs to another process"%string ;;;
  let control (body : PM unit) : PM bool :=
    ensure ((offset f =? 0) && (total f =? zlen (payload f))) "fragmented filesystem control"%string ;;;
    body ;;;
    modify (upd changed) ;;;
    ret true in
  match kind f with
  | Execute => execute_frame f
  | Cancel => control (cancel_frame f)
  | Ack => control (ack_frame f)
  | Status => control (status_frame f)
  | AdmissionStatus => control (admission_status_frame f)
  | FsWire.StoreStatus => control (store_status_frame epoch_id f)
  | Stop => control (stop_frame f)
  | _ => fail "unexpected filesystem input frame"%string
  end.

(** The end of the input thread, after the last frame or an error. *)
(** @source src/src/filesystem_worker/process.rs:388-395 serve *)
Definition close_input (m : Mem) : Mem :=
  let m := upd (set_input_closed true) m in
  if negb (bool_decide (phase (st m) = Stopped)) && negb (execution_done (st m)) then stop m else m.

(** ** The execution thread *)

(** Where it stands between two critical sections. *)
Inductive ExecPc : Type :=
| EStarting                                       (** in the engine's factory *)
| EAwake                                          (** about to take the lock *)
| EAsleep                                         (** in [wake.wait] *)
| EDraining (attempt wire_attempt : Z)            (** in [Handler::shutdown] *)
| ERetiring                                       (** dropping the handler *)
| EDispatched (p : Pending)                       (** took [p] from the queue *)
| EExecuting (p : Pending) (ctx : OperationContext) (** in [Handler::execute] *)
| EResult (p : Pending) (o : Outcome)             (** the outcome is known *)
| EReturned                                       (** the loop returned [Ok] *)
| EFailed (fragments : list (list Z))             (** it returned an error, or panicked *)
| EParked
| EExited.

(** [Failure]s and texts that name what happened. *)
Definition canceled_failure : Failure := failure_says Canceled "filesystem operation canceled before execution".
Definition checked_outcome (o : Outcome) : Outcome :=
  match o with
  | Err e => if failure_valid e then Err e
             else Err (failure_says Unknown "filesystem handler returned an oversized error; reconcile outcome")
  | Ok r => Ok r
  end.

(** @source src/src/filesystem_worker/process.rs:642-647 execution_loop *)
Definition stop_pending (s : State) : bool :=
  (stopped_attempt s <? stop_attempt s) && negb (cleanup_queued s).
(** @source src/src/filesystem_worker/process.rs:667-677 execution_loop *)
Definition drain_failed (attempt wire_attempt : Z) (e : Failure) (s : State) : State :=
  let s := set_shutdown_reported wire_attempt (set_stopped_attempt attempt s) in
  changed (set_error (Some e)
    (set_phase (if attempt <? stop_attempt s then Stopping else DrainFailed) s)).
(** @source src/src/filesystem_worker/process.rs:651-666 execution_loop *)
Definition drained (attempt wire_attempt : Z) (s : State) : State :=
  set_shutdown_reported wire_attempt (set_stopped_attempt attempt s).

(** The queued operation, when it may start, and the state that has started it. *)
(** @source src/src/filesystem_worker/process.rs:679-695 execution_loop *)
Definition dispatch (s : State) : option (Pending * State) :=
  if (bool_decide (phase s = ReadyPhase) ||
      ((bool_decide (phase s = Stopping) || bool_decide (phase s = DrainFailed)) && cleanup_queued s)) &&
     bool_decide (retained s = None)
  then match queued s with
       | Some p =>
           let s := set_queued None s in
           let s := match p_operation p with
                    | PrepareCatalog operation session _ => set_admission (Some (preparing operation session)) s
                    | _ => s
                    end in
           Some (p, changed (set_active (Some (p_sequence p, p_cancel p)) s))
       | None => None
       end
  else None.

(** The admission an operation may publish, and the status it reports. *)
(** @source src/src/filesystem_worker/process.rs:699-717 execution_loop *)
Definition context_admission (o : Operation) (s : State) : option (Z * LeaseId) :=
  match admission_identity o with
  | Some i => Some i
  | None =>
      match o, admission s with
      | ReleaseRoot root, Some v =>
          if bool_decide (ad_session v = root_session root) &&
             match ad_bootstrap v with Some b => bool_decide (bootstrap_capability b = root) | None => false end
          then Some (ad_operation v, ad_session v) else None
      | _, _ => None
      end
  end.
(** @source src/src/filesystem_worker/process.rs:718-747 execution_loop *)
Definition context_of (p : Pending) (s : State) : OperationContext :=
  mkContext (if is_cleanup (p_operation p) then None else Some (p_cancel p))
    (context_admission (p_operation p) s)
    (match p_operation p with
     | PreviewIo r => Some (query_of Objects (request_root _ r) (request_operation _ r))
     | PreviewStore r => Some (query_of Locks (request_root _ r) (request_operation _ r))
     | _ => None
     end).
(** The facts of a preparation that never ran. *)
(** @source src/src/filesystem_worker/process.rs:749-758 execution_loop *)
Definition abandon (o : Operation) (s : State) : State :=
  match o, admission s with
  | PrepareCatalog _ _ _, Some a =>
      set_admission (Some (mkAdmission (ad_operation a) (ad_session a) (directory_created a) (catalog_created a)
        (manifest_created a) (ad_bootstrap a) Abandoned
        (Some (failure_says Canceled "prepare canceled before any filesystem execution")))) s
  | _, _ => s
  end.
(** The bytes of an outcome, with the report that it could not be encoded. *)
(** @source src/src/filesystem_worker/process.rs:770-786 execution_loop *)
Definition outcome_bytes (o : Outcome) : result string (list Z) :=
  match encode_outcome (checked_outcome o) with
  | Ok b => Ok b
  | Err e => encode_outcome (Err (failure_new Unknown
      [ascii_bytes ("filesystem outcome could not be transported: " +:+ e)]))
  end.
(** @source src/src/filesystem_worker/process.rs:787-800 execution_loop *)
Definition retain (p : Pending) (b : list Z) (s : State) : State :=
  changed (set_retained (Some (mkRetained (mkInfo (p_sequence p) (zlen b) (hash_hex b)) b false)) (set_active None s)).

(** What the threads did, for the theorems: operations handed to the engine,
    results produced, results and control messages written, and whether the
    engine affirmed its retirement. *)
Record Log : Type := mkLog {
  executed : list (Z * Operation); completed : list (Z * list Z);
  results : list (Z * list Z); controls : list (Z * ControlMessage); affirmed : bool }.

(** One critical section of the execution thread, or one answer of the engine;
    the flag says whether the other threads are notified. *)
Section Steps.
Context (epoch_id : LeaseId).

Definition dispatch_or_wait (m : Mem) : Mem * ExecPc * bool :=
  match dispatch (st m) with
  | Some (p, s) => (mkMem s (cells m) (asm m), EDispatched p, true)
  | None => (m, EAsleep, false)
  end.
(** @source src/src/filesystem_worker/process.rs:641-697 execution_loop *)
Definition exec_turn (m : Mem) : Mem * ExecPc * bool :=
  if stop_pending (st m) then (m, EDraining (stop_attempt (st m)) (shutdown_wire (st m)), false)
  else dispatch_or_wait m.
(** @source src/src/filesystem_worker/process.rs:699-769 execution_loop *)
Definition exec_begin (p : Pending) (m : Mem) (l : Log) : Mem * ExecPc * Log :=
  if raised (p_cancel p) m && negb (is_cleanup (p_operation p))
  then (upd (abandon (p_operation p)) m, EResult p (Err canceled_failure), l)
  else (m, EExecuting p (context_of p (st m)),
        mkLog (executed l ++ [(p_sequence p, p_operation p)]) (completed l) (results l) (controls l) (affirmed l)).

Inductive exec_step (m : Mem) (l : Log) : ExecPc -> Mem -> Log -> ExecPc -> bool -> Prop :=
| exec_started :
    exec_step m l EStarting
      (upd (fun s => changed (if stop_attempt s =? 0 then set_phase ReadyPhase s else s)) m) l EAwake true
| exec_start_failed why : exec_step m l EStarting m l (EFailed why) false
| exec_takes_turn m' pc n : exec_turn m = (m', pc, n) -> exec_step m l EAwake m' l pc n
| exec_drained a w :
    exec_step m l (EDraining a w) (upd (drained a w) m)
      (mkLog (executed l) (completed l) (results l) (controls l) true) ERetiring false
| exec_drain_failed a w e m' pc n :
    dispatch_or_wait (upd (drain_failed a w e) m) = (m', pc, n) -> exec_step m l (EDraining a w) m' l pc true
| exec_retired : exec_step m l ERetiring (upd (fun s => changed (set_phase Stopped s)) m) l EReturned true
| exec_begins p m' pc l' : exec_begin p m l = (m', pc, l') -> exec_step m l (EDispatched p) m' l' pc false
| exec_publishes_admission p ctx a m' r :
    publish_admission epoch_id ctx a m = (m', r) -> exec_step m l (EExecuting p ctx) m' l (EExecuting p ctx) (is_ok r)
| exec_publishes_store p ctx x m' r :
    publish_store epoch_id ctx x m = (m', r) -> exec_step m l (EExecuting p ctx) m' l (EExecuting p ctx) (is_ok r)
| exec_publishes_objects p ctx x m' r :
    publish_objects ctx x m = (m', r) -> exec_step m l (EExecuting p ctx) m' l (EExecuting p ctx) (is_ok r)
| exec_clears_store p ctx root m' r :
    clear_store root m = (m', r) -> exec_step m l (EExecuting p ctx) m' l (EExecuting p ctx) false
| exec_returns p ctx o : exec_step m l (EExecuting p ctx) m l (EResult p o) false
| exec_retains p o b :
    outcome_bytes o = Ok b ->
    exec_step m l (EResult p o) (upd (retain p b) m)
      (mkLog (executed l) (completed l ++ [(p_sequence p, b)]) (results l) (controls l) (affirmed l)) EAwake true
| exec_unencodable p o e : outcome_bytes o = Err e -> exec_step m l (EResult p o) m l (EFailed [ascii_bytes e]) false
| exec_panics pc :
    match pc with EStarting | EDraining _ _ | ERetiring | EExecuting _ _ => True | _ => False end ->
    exec_step m l pc m l (EFailed [ascii_bytes "filesystem handler panicked; outcome unknown"]) false
| exec_exits : exec_step m l EReturned (upd (fun s => changed (set_execution_done true s)) m) l EExited true
| exec_parks why :
    exec_step m l (EFailed why)
      (upd (fun s => changed (set_error (Some (failure_new Unknown why))
        (set_phase UnknownPhase (set_execution_done true s)))) m) l EParked true.

(** ** The output thread *)

Inductive OutPc : Type := OAwake | OAsleep | OWriting (sequence : Z) (b : list Z) | OExited.

(** @source src/src/filesystem_worker/process.rs:806-818 output_loop *)
Definition output_turn (m : Mem) : Mem * OutPc :=
  match retained (st m) with
  | Some r =>
      if result_sent r then (m, if execution_done (st m) then OExited else OAsleep)
      else (upd (set_retained (Some (mkRetained (info r) (result_bytes r) true))) m,
            OWriting (r_sequence (info r)) (result_bytes r))
  | None => (m, if execution_done (st m) then OExited else OAsleep)
  end.

(** @source src/src/filesystem_worker/process.rs:804-822 output_loop *)
Inductive output_step (m : Mem) (l : Log) : OutPc -> Mem -> Log -> OutPc -> bool -> Prop :=
| output_takes_turn m' pc : output_turn m = (m', pc) -> output_step m l OAwake m' l pc false
| output_written q b :
    output_step m l (OWriting q b) m
      (mkLog (executed l) (completed l) (results l ++ [(q, b)]) (controls l) (affirmed l)) OAwake false
| output_broken q b why : output_step m l (OWriting q b) (shared_fail why m) l OExited true.

(** ** The control thread *)

Inductive CtlPc : Type :=
| CAwake (seen : Z) | CAsleep (seen : Z) | CWriting (sequence : Z) (v : ControlMessage) (stopped : bool) (seen : Z)
| CExited.

(** @source src/src/filesystem_worker/process.rs:826-842 control_loop *)
Definition control_turn (seen : Z) (m : Mem) : Mem * CtlPc :=
  match store_reply (st m), admission_reply (st m) with
  | Some (q, v), _ => (upd (set_store_reply None) m, CWriting q v false seen)
  | None, Some (q, v) => (upd (set_admission_reply None) m, CWriting q v false seen)
  | None, None =>
      if revision (st m) =? seen then (m, CAsleep seen)
      else (m, CWriting 0 (CStatus (status (st m))) (execution_done (st m)) (revision (st m)))
  end.

(** @source src/src/filesystem_worker/process.rs:823-853 control_loop *)
Inductive control_step (m : Mem) (l : Log) : CtlPc -> Mem -> Log -> CtlPc -> bool -> Prop :=
| control_takes_turn seen m' pc : control_turn seen m = (m', pc) -> control_step m l (CAwake seen) m' l pc false
| control_written q v stopped seen :
    is_ok (encode_control v) = true ->
    control_step m l (CWriting q v stopped seen) m
      (mkLog (executed l) (completed l) (results l) (controls l ++ [(q, v)]) (affirmed l))
      (if stopped then CExited else CAwake seen) false
| control_broken q v stopped seen why :
    control_step m l (CWriting q v stopped seen) (shared_fail why m) l CExited true.

(** ** The process *)

Inductive InputPc : Type := IReading | IClosing | IClosed.

Record World : Type := mkWorld {
  mem : Mem; log : Log; input : InputPc; exec : ExecPc; output : OutPc; control : CtlPc }.

Definition wake_exec (n : bool) (pc : ExecPc) : ExecPc :=
  match pc with EAsleep => if n then EAwake else EAsleep | _ => pc end.
Definition wake_output (n : bool) (pc : OutPc) : OutPc :=
  match pc with OAsleep => if n then OAwake else OAsleep | _ => pc end.
Definition wake_control (n : bool) (pc : CtlPc) : CtlPc :=
  match pc with CAsleep seen => if n then CAwake seen else CAsleep seen | _ => pc end.

Definition initial_world : World :=
  mkWorld (mkMem initial_state [] None) (mkLog [] [] [] [] false) IReading EStarting OAwake (CAwake 0).

(** One step of one thread.  Frames come from the client as it pleases, and a
    waiting thread may wake without being notified.  A step names the frame it
    takes from the input. *)
(** @source src/src/filesystem_worker/process.rs:315-395 serve *)
Inductive labelled_step (nonce : list Z) (w : World) : option Frame -> World -> Prop :=
| step_frame f m' n :
    input w = IReading -> input_frame nonce epoch_id f (mem w) = (m', Ok n) ->
    labelled_step nonce w (Some f) (mkWorld m' (log w) IReading (wake_exec n (exec w)) (wake_output n (output w)) (wake_control n (control w)))
| step_bad_frame f m' e :
    input w = IReading -> input_frame nonce epoch_id f (mem w) = (m', Err e) ->
    labelled_step nonce w (Some f) (mkWorld m' (log w) IClosing (exec w) (output w) (control w))
| step_end_of_input :
    input w = IReading -> labelled_step nonce w None (mkWorld (mem w) (log w) IClosing (exec w) (output w) (control w))
| step_close_input :
    input w = IClosing ->
    labelled_step nonce w None (mkWorld (close_input (mem w)) (log w) IClosed (wake_exec true (exec w)) (wake_output true (output w))
                    (wake_control true (control w)))
| step_exec m' l' pc n :
    exec_step (mem w) (log w) (exec w) m' l' pc n ->
    labelled_step nonce w None (mkWorld m' l' (input w) pc (wake_output n (output w)) (wake_control n (control w)))
| step_output m' l' pc n :
    output_step (mem w) (log w) (output w) m' l' pc n ->
    labelled_step nonce w None (mkWorld m' l' (input w) (wake_exec n (exec w)) pc (wake_control n (control w)))
| step_control m' l' pc n :
    control_step (mem w) (log w) (control w) m' l' pc n ->
    labelled_step nonce w None (mkWorld m' l' (input w) (wake_exec n (exec w)) (wake_output n (output w)) pc)
| step_spurious :
    labelled_step nonce w None (mkWorld (mem w) (log w) (input w) (wake_exec true (exec w)) (wake_output true (output w))
                    (wake_control true (control w))).
Definition step (nonce : list Z) (w w' : World) : Prop := exists e, labelled_step nonce w e w'.

Inductive steps (nonce : list Z) (w : World) : World -> Prop :=
| steps_refl : steps nonce w w
| steps_next w1 w2 : steps nonce w w1 -> step nonce w1 w2 -> steps nonce w w2.
Definition reachable (nonce : list Z) (w : World) : Prop := steps nonce initial_world w.
End Steps.
End Process.
