(* ===== verification/FsFrames.v ===== *)
(** What one frame of the client does to the state of the filesystem helper:
    the input thread of src/src/filesystem_worker/process.rs, seen through the
    five effects that matter to the other threads. *)
From stdpp Require Import base tactics option list numbers strings sorting.
From Stdlib Require Import ZArith Lia.
From S2P Require Import Prelude Bytes FsWire FsOps FsProcess.

Open Scope Z_scope.
Local Open Scope prog_scope.

Section Frames.
Context {ENGINE : Engine} {CODEC : HelperCodec} (nonce : list Z) (epoch_id : LeaseId).

(** ** What a frame does *)

(** The parts of the state that only replies and reports leave alone. *)
Record same_core (s s' : State) : Prop := {
  sc_phase : phase s' = phase s;
  sc_active : active s' = active s;
  sc_queued : queued s' = queued s;
  sc_retained : retained s' = retained s;
  sc_last : last_sequence s <= last_sequence s';
  sc_stop : stop_attempt s' = stop_attempt s;
  sc_stopped : stopped_attempt s' = stopped_attempt s;
  sc_done : execution_done s' = execution_done s;
}.
(** Flags are only ever raised. *)
Definition flags_grow (cs cs' : list bool) : Prop :=
  (length cs <= length cs')%nat /\ forall i, cs !! i = Some true -> cs' !! i = Some true.

(** The operation whose message a frame completes. *)
Definition frame_operation (f : Frame) (m : Mem) : option (Z * Operation) :=
  match match asm m with Some a => Ok a | None => assembly_start f end with
  | Ok a =>
      match assembly_push a f with
      | Ok (a', true) =>
          match assembly_finish a' with
          | Ok msg => match decode_operation (m_bytes msg) with Ok o => Some (m_sequence msg, o) | Err _ => None end
          | Err _ => None
          end
      | _ => None
      end
  | Err _ => None
  end.
Inductive received (f : Frame) (m m' : Mem) : Prop :=
| received_report : same_core (st m) (st m') -> flags_grow (cells m) (cells m') -> received f m m'
| received_operation p c :
    admits (p_operation p) (st m) = true -> last_sequence (st m) < p_sequence p ->
    p_cancel p = length (cells m) -> cells m' = cells m ++ [c] ->
    same_core (set_queued (Some p) (set_last_sequence (p_sequence p) (st m))) (st m') ->
    kind f = Execute -> frame_operation f m = Some (p_sequence p, p_operation p) -> received f m m'
| received_ack r :
    kind f = Ack -> decode_ack (payload f) = Ok (r_sequence (info r), r_blake3 (info r)) ->
    retained (st m) = Some r -> same_core (set_retained None (st m)) (st m') -> cells m' = cells m -> received f m m'
| received_query r sent :
    retained (st m) = Some r ->
    same_core (set_retained (Some (mkRetained (info r) (result_bytes r) sent)) (st m)) (st m') ->
    cells m' = cells m -> received f m m'
| received_stop m1 :
    same_core (st m) (st m1) -> cells m1 = cells m -> st m' = changed (st (stop m1)) -> cells m' = cells (stop m1) ->
    received f m m'.

Lemma same_core_refl s : same_core s s.
Proof. by split. Qed.
Lemma same_core_trans s1 s2 s3 : same_core s1 s2 -> same_core s2 s3 -> same_core s1 s3.
Proof. intros [] []. split; first [congruence|lia]. Qed.
Lemma flags_grow_refl cs : flags_grow cs cs.
Proof. by split. Qed.
Lemma flags_grow_app cs c : flags_grow cs (cs ++ [c]).
Proof. split; [rewrite length_app; lia|]. intros i Hi. by apply lookup_app_l_Some. Qed.
Lemma flags_grow_raise cs i : flags_grow cs (<[i := true]> cs).
Proof.
  split; [by rewrite length_insert|]. intros j Hj. destruct (decide (i = j)) as [->|Hne].
  - rewrite list_lookup_insert_eq; [done|by eapply lookup_lt_Some].
  - by rewrite list_lookup_insert_ne.
Qed.
Lemma flags_grow_trans a b c : flags_grow a b -> flags_grow b c -> flags_grow a c.
Proof. intros [H1 H2] [H3 H4]. split; [lia|auto]. Qed.

Ltac core := split; cbn; first [done|lia].

(** A program that leaves the core alone, on success and on failure. *)
Definition reports {A} (p : proc string Mem A) : Prop :=
  forall m, same_core (st m) (st (p m).1) /\ flags_grow (cells m) (cells (p m).1).

Lemma reports_bind {A B} (p : proc string Mem A) (k : A -> proc string Mem B) :
  reports p -> (forall a, reports (k a)) -> reports (bind p k).
Proof.
  intros Hp Hk m. destruct (Hp m) as [H1 H2]. unfold bind. destruct (p m) as [m1 [a|e]]; [|done].
  destruct (Hk a m1) as [H3 H4]. cbn in *. split; [by eapply same_core_trans|by eapply flags_grow_trans].
Qed.
Lemma reports_const {A} (r : result string A) : reports (fun m => (m, r)).
Proof. intros m. split; [apply same_core_refl|apply flags_grow_refl]. Qed.
Lemma reports_upd f : (forall s, same_core s (f s)) -> reports (modify (upd f)).
Proof. intros Hf m. split; [apply Hf|apply flags_grow_refl]. Qed.
Lemma reports_modify f :
  (forall m, same_core (st m) (st (f m)) /\ flags_grow (cells m) (cells (f m))) -> reports (modify f).
Proof. intros Hf m. apply Hf. Qed.
Lemma reports_get {A} (k : Mem -> proc string Mem A) : (forall m, reports (k m)) -> reports (bind get k).
Proof. intros Hk m. apply Hk. Qed.

Lemma changed_core s : same_core s (changed s).
Proof. core. Qed.
Lemma reports_changed : reports (modify (upd changed)).
Proof. apply reports_upd, changed_core. Qed.
Lemma reports_ret {A} (a : A) : reports (ret a).
Proof. apply reports_const. Qed.
Lemma reports_fail {A} e : reports (fail (A := A) e).
Proof. apply reports_const. Qed.
Lemma reports_lift {A} (r : result string A) : reports (lift r).
Proof. apply reports_const. Qed.
Lemma reports_io {A} (r : result IoError A) : reports (io r).
Proof. apply reports_const. Qed.
Lemma reports_ensure b e : reports (ensure b e).
Proof. destruct b; apply reports_const. Qed.
Lemma reports_of_option {A} (o : option A) e : reports (of_option o e).
Proof. destruct o; apply reports_const. Qed.

Create HintDb reports.
Hint Resolve reports_changed reports_ret reports_fail reports_lift reports_io reports_ensure reports_of_option : reports.
Ltac reports_step :=
  match goal with
  | |- reports (bind get _) => apply reports_get; intros ?
  | |- reports (bind _ _) => apply reports_bind; [|intros ?]
  | |- reports (if ?b then _ else _) => destruct b
  | |- reports (match ?x with _ => _ end) => destruct x
  | |- reports (modify _) => fail 1
  | |- reports _ => solve [auto with reports nocore]
  end.
Ltac reports := repeat reports_step; try apply reports_changed.

Lemma reject_reports q why : reports (reject q why).
Proof. unfold reject. reports. apply reports_upd. intros s. core. Qed.
Lemma raise_core c m : same_core (st m) (st (raise c m)) /\ flags_grow (cells m) (cells (raise c m)).
Proof. split; [apply same_core_refl|apply flags_grow_raise]. Qed.
Lemma none_core m : same_core (st m) (st m) /\ flags_grow (cells m) (cells m).
Proof. split; [apply same_core_refl|apply flags_grow_refl]. Qed.
Lemma cancel_reports f : reports (cancel_frame f).
Proof.
  unfold cancel_frame. apply reports_bind; [auto with reports|intros _].
  apply reports_bind; [|intros _; apply reports_bind; [|intros _]].
  - apply reports_modify. intros m. destruct (active _) as [[i c]|]; [|apply none_core].
    destruct (_ =? _); [apply raise_core|apply none_core].
  - apply reports_modify. intros m. destruct (queued _) as [p|]; [|apply none_core].
    destruct (_ =? _); [apply raise_core|apply none_core].
  - reports. apply reports_upd. intros s. core.
Qed.
Lemma store_status_reports f : reports (store_status_frame epoch_id f).
Proof. unfold store_status_frame. cbv zeta. reports; apply reports_upd; intros s; core. Qed.
Lemma admission_status_reports f : reports (admission_status_frame f).
Proof. unfold admission_status_frame. cbv zeta. reports; apply reports_upd; intros s; core. Qed.
Lemma publish_admission_reports ctx a : reports (publish_admission epoch_id ctx a).
Proof. unfold publish_admission. reports; apply reports_upd; intros s; core. Qed.
Lemma publish_store_reports ctx x : reports (publish_store epoch_id ctx x).
Proof. unfold publish_store. reports; apply reports_upd; intros s; core. Qed.
Lemma publish_objects_reports ctx x : reports (publish_objects ctx x).
Proof. unfold publish_objects. reports; apply reports_upd; intros s; core. Qed.
Lemma clear_store_reports root : reports (clear_store root).
Proof. unfold clear_store. reports; apply reports_upd; intros s; core. Qed.

Lemma reports_run {A} (p : proc string Mem A) m m' r :
  reports p -> p m = (m', r) -> same_core (st m) (st m') /\ flags_grow (cells m) (cells m').
Proof. intros Hp H. specialize (Hp m). by rewrite H in Hp. Qed.

(** *** A frame that is refused *)

(** Refused input leaves the state as it was, but for the last sequence seen. *)
Definition refuses {A} (p : proc string Mem A) : Prop :=
  forall m m' e, p m = (m', Err e) ->
    exists n, last_sequence (st m) <= n /\ st m' = set_last_sequence n (st m) /\ flags_grow (cells m) (cells m').
Definition keeps {A} (p : proc string Mem A) : Prop :=
  forall m m' r, p m = (m', r) -> st m' = st m /\ flags_grow (cells m) (cells m').
Definition answers {A} (p : proc string Mem A) : Prop := forall m, exists m' a, p m = (m', Ok a).

Lemma set_last_same s : set_last_sequence (last_sequence s) s = s.
Proof. by destruct s. Qed.
Lemma keeps_refuses {A} (p : proc string Mem A) : keeps p -> refuses p.
Proof.
  intros Hp m m' e [Hs Hf]%Hp. exists (last_sequence (st m)). split; [lia|].
  by rewrite Hs, set_last_same.
Qed.
Lemma refuses_bind {A B} (p : proc string Mem A) (k : A -> proc string Mem B) :
  keeps p -> (forall a, refuses (k a)) -> refuses (bind p k).
Proof.
  intros Hp Hk m m' e. unfold bind. destruct (p m) as [m1 [a|e1]] eqn:H1.
  - intros H. destruct (Hp _ _ _ H1) as [Hs Hf]. destruct (Hk a _ _ _ H) as (n & Hn & H2 & H3).
    rewrite Hs in *. exists n. split_and!; [done..|by eapply flags_grow_trans].
  - intros [= <- <-]. by apply (keeps_refuses p Hp) in H1.
Qed.
Lemma refuses_then {A B} (p : proc string Mem A) (k : A -> proc string Mem B) :
  refuses p -> (forall a, answers (k a)) -> refuses (bind p k).
Proof.
  intros Hp Hk m m' e. unfold bind. destruct (p m) as [m1 [a|e1]] eqn:H1.
  - intros H. destruct (Hk a m1) as (m2 & b & H2). congruence.
  - intros [= <- <-]. by apply Hp in H1.
Qed.
Lemma answers_refuses {A} (p : proc string Mem A) : answers p -> refuses p.
Proof. intros Hp m m' e H. destruct (Hp m) as (m2 & b & H2). congruence. Qed.
Lemma answers_modify f : answers (modify f).
Proof. intros m. by eexists _, _. Qed.
Lemma answers_bind {A B} (p : proc string Mem A) (k : A -> proc string Mem B) :
  answers p -> (forall a, answers (k a)) -> answers (bind p k).
Proof. intros Hp Hk m. destruct (Hp m) as (m1 & a & H1). destruct (Hk a m1) as (m2 & b & H2). exists m2, b. unfold bind. by rewrite H1. Qed.
Lemma answers_ret {A} (a : A) : answers (ret a).
Proof. intros m. by eexists _, _. Qed.
Lemma keeps_const {A} (r : result string A) : keeps (fun m => (m, r)).
Proof. intros m m' r' [= <- _]. split; [done|apply flags_grow_refl]. Qed.
Lemma keeps_ensure b e : keeps (ensure b e).
Proof. destruct b; apply keeps_const. Qed.
Lemma keeps_of_option {A} (o : option A) e : keeps (of_option o e).
Proof. destruct o; apply keeps_const. Qed.
Lemma keeps_lift {A} (r : result string A) : keeps (lift r).
Proof. apply keeps_const. Qed.
Lemma keeps_io {A} (r : result IoError A) : keeps (io r).
Proof. apply keeps_const. Qed.
Lemma keeps_get : keeps get.
Proof. intros m m' r [= <- _]. split; [done|apply flags_grow_refl]. Qed.
Lemma keeps_ret {A} (a : A) : keeps (ret a).
Proof. apply keeps_const. Qed.
Lemma keeps_fail {A} e : keeps (fail (A := A) e).
Proof. apply keeps_const. Qed.
Lemma keeps_set_asm a : keeps (modify (set_asm a)).
Proof. intros m m' r [= <- _]. split; [done|apply flags_grow_refl]. Qed.
Lemma keeps_raise (f : Mem -> Mem) : (forall m, f m = m \/ exists c, f m = raise c m) -> keeps (modify f).
Proof.
  intros Hf m m' r [= <- _]. destruct (Hf m) as [->|[c ->]]; [split; [done|apply flags_grow_refl]|].
  split; [done|apply flags_grow_raise].
Qed.

Lemma keeps_seq {A B} (p : proc string Mem A) (k : A -> proc string Mem B) :
  keeps p -> (forall a, keeps (k a)) -> keeps (bind p k).
Proof.
  intros Hp Hk m m' r. unfold bind. destruct (p m) as [m1 [a|e1]] eqn:H1; destruct (Hp _ _ _ H1) as [Hs Hf].
  - intros [Hs' Hf']%Hk. split; [congruence|by eapply flags_grow_trans].
  - by intros [= <- _].
Qed.

Create HintDb refuses.
Hint Resolve keeps_ensure keeps_of_option keeps_lift keeps_io keeps_get keeps_ret keeps_fail keeps_set_asm answers_modify answers_ret : refuses.
Ltac refuses_step :=
  match goal with
  | |- refuses (bind (modify (upd (set_last_sequence _))) _) => fail 1
  | |- refuses (bind _ _) => apply refuses_bind; [solve [auto with refuses nocore]|intros ?]
  | |- refuses (if ?b then _ else _) => destruct b
  | |- refuses (match ?x with _ => _ end) => destruct x
  | |- refuses (modify _) => apply answers_refuses, answers_modify
  | |- refuses (bind (modify _) _) => apply answers_refuses, answers_bind; [apply answers_modify|intros ?]
  | |- refuses _ => apply keeps_refuses; solve [auto with refuses nocore]
  end.
Ltac refuses := repeat refuses_step.

Lemma reject_refuses q why : refuses (reject q why).
Proof. unfold reject. refuses. Qed.
Lemma execute_message_refuses q o : refuses (execute_message q o).
Proof.
  unfold execute_message. intros m m' e H. rewrite bind_get in H.
  destruct (Z.leb_spec q (last_sequence (st m))) as [|Hq]; [done|]. rewrite bind_modify, bind_get in H.
  assert (forall why, reject q why (upd (set_last_sequence q) m) = (m', Err e) ->
    exists n, last_sequence (st m) <= n /\ st m' = set_last_sequence n (st m) /\ flags_grow (cells m) (cells m')) as Hrej.
  { intros why (n & Hn & Hs & Hf)%reject_refuses. exists n. cbn in *. split_and!; [lia|done|done]. }
  destruct (negb _) in H; [by apply Hrej in H|]. destruct (admission_held _ _) in H; [by apply Hrej in H|done].
Qed.
Lemma execute_frame_refuses f : refuses (execute_frame f).
Proof.
  unfold execute_frame. apply refuses_bind; [auto with refuses|intros m].
  apply refuses_bind; [destruct (asm m); auto with refuses|intros a]. refuses_step. refuses_step. refuses_step.
  destruct (snd _); refuses. apply refuses_then; [apply execute_message_refuses|intros; apply answers_ret].
Qed.
Lemma cancel_refuses f : refuses (cancel_frame f).
Proof.
  unfold cancel_frame. refuses_step.
  apply refuses_bind; [|intros _; apply refuses_bind; [|intros _; refuses]]; apply keeps_raise; intros m.
  - destruct (active _) as [[i c]|]; [|by left]. destruct (_ =? _); [right; by eexists|by left].
  - destruct (queued _) as [q|]; [|by left]. destruct (_ =? _); [right; by eexists|by left].
Qed.
Lemma input_frame_refuses f : refuses (input_frame nonce epoch_id f).
Proof.
  unfold input_frame. refuses_step. cbv zeta.
  assert (forall body : proc string Mem unit, refuses body -> refuses (
    ensure ((offset f =? 0) && (total f =? zlen (payload f))) "fragmented filesystem control"%string ;;;
    body ;;; modify (upd changed) ;;; ret true)) as Hc.
  { intros body Hb. refuses_step. apply refuses_then; [done|]. intros []. apply answers_bind; [apply answers_modify|].
    intros; apply answers_ret. }
  destruct (kind f); try (apply keeps_refuses, keeps_fail); try apply Hc.
  - apply execute_frame_refuses.
  - unfold status_frame. refuses.
  - unfold admission_status_frame. cbv zeta. refuses.
  - apply cancel_refuses.
  - unfold ack_frame. refuses.
  - unfold stop_frame. refuses.
  - unfold store_status_frame. cbv zeta. refuses.
Qed.

(** A publication of the engine that is refused. *)
Lemma publish_store_refuses ctx x : refuses (publish_store epoch_id ctx x).
Proof. unfold publish_store. refuses. Qed.
Lemma publish_objects_refuses ctx x : refuses (publish_objects ctx x).
Proof. unfold publish_objects. refuses. Qed.
Lemma publish_admission_refuses ctx a : refuses (publish_admission epoch_id ctx a).
Proof.
  unfold publish_admission. do 4 (refuses_step). apply refuses_bind; [|intros _; refuses].
  destruct (admission _); [repeat (apply keeps_seq; [auto with refuses nocore|intros _])|]; auto with refuses nocore.
Qed.

(** *** A frame that is accepted *)

Lemma execute_message_received f q o m0 m m' :
  kind f = Execute -> frame_operation f m0 = Some (q, o) -> st m0 = st m -> cells m0 = cells m ->
  execute_message q o m = (m', Ok tt) -> received f m0 m'.
Proof.
  intros Hk Hop Hst Hcs. unfold execute_message. rewrite bind_get.
  destruct (Z.leb_spec q (last_sequence (st m))) as [|Hq].
  { intros [= <-]. apply received_report; rewrite ?Hst, ?Hcs; [apply changed_core|apply flags_grow_refl]. }
  rewrite bind_modify, bind_get.
  assert (forall why, reject q why (upd (set_last_sequence q) m) = (m', Ok tt) -> received f m0 m') as Hrej.
  { intros why H. apply (reports_run _ _ _ _ (reject_reports q why)) in H as [H1 H2].
    apply received_report; rewrite ?Hst, ?Hcs; [|done]. eapply same_core_trans; [|exact H1]. split; cbn; first [done|lia]. }
  destruct (admits o _) eqn:Hadm; cbn [negb]; [|apply Hrej].
  destruct (admission_held _ _); [apply Hrej|]. rewrite !bind_modify. intros [= <-].
  eapply (received_operation _ _ _ (mkPending q o (length (cells m)))); cbn; rewrite ?Hst, ?Hcs; [exact Hadm|lia|done|reflexivity| |done|done].
  destruct (early_cancel (st m)) as [i|]; [destruct (i <=? q)|]; core.
Qed.

Lemma execute_frame_received f m m' n :
  kind f = Execute -> execute_frame f m = (m', Ok n) -> if n then received f m m' else st m' = st m /\ cells m' = cells m.
Proof.
  intros Hk. unfold execute_frame. rewrite bind_get. intros H.
  apply bind_Ok_inv in H as (m1 & a & H1 & H).
  assert (m1 = m /\ match asm m with Some a => Ok a | None => assembly_start f end = Ok a) as [-> Ha].
  { destruct (asm m); [by injection H1 as <- <-|]. unfold io in H1. apply lift_Ok_inv in H1 as [H1 ->].
    split; [done|]. by destruct (assembly_start f); simplify_eq. }
  rewrite bind_modify in H. apply bind_Ok_inv in H as (m1 & r & H2 & H). unfold io in H2. apply lift_Ok_inv in H2 as [H2 ->].
  assert (assembly_push a f = Ok r) as Hp by (by destruct (assembly_push a f); simplify_eq).
  rewrite bind_modify in H. destruct r as [a' [|]]; cbn [fst snd] in H; [|by injection H as <- <-]. rewrite bind_modify in H.
  apply bind_Ok_inv in H as (m1 & msg & H3 & H). unfold io in H3. apply lift_Ok_inv in H3 as [H3 ->].
  assert (assembly_finish a' = Ok msg) as Hf by (by destruct (assembly_finish a'); simplify_eq).
  apply bind_Ok_inv in H as (m1 & o & [Ho ->]%lift_Ok_inv & H).
  apply bind_Ok_inv in H as (m1 & u & [_ ->]%lift_Ok_inv & H).
  apply bind_Ok_inv in H as (m1 & [] & H4 & H). injection H as <- <-.
  eapply execute_message_received; [exact Hk| |..|exact H4]; [|done|done].
  unfold frame_operation. by rewrite Ha, Hp, Hf, Ho.
Qed.

Lemma input_frame_received f m m' n :
  input_frame nonce epoch_id f m = (m', Ok n) ->
  if n then received f m m' else st m' = st m /\ cells m' = cells m.
Proof.
  unfold input_frame. cbv zeta. intros H. take_apart H.
  assert (forall body : proc string Mem unit, (forall m1, body m = (m1, Ok tt) -> received f m (upd changed m1)) ->
    (ensure ((offset f =? 0) && (total f =? zlen (payload f))) "fragmented filesystem control"%string ;;;
     body ;;; modify (upd changed) ;;; ret true) m = (m', Ok n) -> if n then received f m m' else st m' = st m /\ cells m' = cells m) as Hc.
  { intros body Hbody Hrun. take_apart Hrun. apply bind_Ok_inv in Hrun as (m1 & [] & H1 & Hrun).
    injection Hrun as <- <-. by apply Hbody. }
  assert (forall body : proc string Mem unit, reports body -> forall m1, body m = (m1, Ok tt) -> received f m (upd changed m1)) as Hr.
  { intros body Hbody m1 H1. apply (reports_run _ _ _ _ Hbody) in H1 as [H1 H2]. apply received_report; [|done].
    eapply same_core_trans; [exact H1|apply changed_core]. }
  destruct (kind f) eqn:Hkind; try done.
  - by apply (execute_frame_received _ _ _ _ Hkind) in H.
  - revert H. apply Hc. intros m1 H1. unfold status_frame in H1. take_apart H1. injection H1 as <-.
    destruct (retained (st m)) as [r|] eqn:Hret.
    + destruct (negb (sequence f =? 0) && (r_sequence (info r) =? sequence f)) eqn:Hsel.
      * eapply received_query; [exact Hret| |done]. cbn. rewrite Hret, Hsel. core.
      * apply received_report; [|apply flags_grow_refl]. cbn. rewrite Hret, Hsel. apply changed_core.
    + apply received_report; [|apply flags_grow_refl]. cbn. rewrite Hret. apply changed_core.
  - revert H. apply Hc, Hr, admission_status_reports.
  - revert H. apply Hc, Hr, cancel_reports.
  - revert H. apply Hc. intros m1 H1. unfold ack_frame in H1. take_apart H1.
    destruct (retained (st m)) as [r|] eqn:Hret.
    + take_apart H1. injection H1 as <-. 
      eapply received_ack; [exact Hkind| |exact Hret| |done]; [|core].
      apply andb_true_iff in Hb1 as [Hq%Z.eqb_eq Hd%bool_decide_eq_true]. rewrite Hq, Hd, Hl. by destruct x1.
    + injection H1 as <-. apply received_report; [apply changed_core|apply flags_grow_refl].
  - revert H. apply Hc. intros m1 H1. unfold stop_frame in H1. take_apart H1. injection H1 as <-.
    destruct (shutdown_wire (st m) <? sequence f).
    + eapply (received_stop _ _ _ (upd (set_shutdown_wire (sequence f)) m)); [core|done|done|done].
    + apply received_report; [apply changed_core|apply flags_grow_refl].
  - revert H. apply Hc, Hr, store_status_reports.
Qed.

End Frames.
