(* ===== verification/FsHelper.v ===== *)
(** The invariant of the filesystem helper: what holds of the state, the flags and
    the execution thread of src/src/filesystem_worker/process.rs between any
    two critical sections. *)
From stdpp Require Import base tactics option list numbers strings sorting.
From Stdlib Require Import ZArith Lia.
From S2P Require Import Prelude Bytes FsWire FsOps FsProcess FsFrames.

Open Scope Z_scope.
Local Open Scope prog_scope.

Section Helper.
Context {ENGINE : Engine} {CODEC : HelperCodec} (nonce : list Z) (epoch_id : LeaseId).

(** ** The invariant *)

(** The operation the execution thread holds, and its ends. *)
Definition current (e : ExecPc) : option Pending :=
  match e with EDispatched p | EExecuting p _ | EResult p _ => Some p | _ => None end.
Definition broken (e : ExecPc) : bool := match e with EFailed _ | EParked => true | _ => false end.
Definition retiring (e : ExecPc) : bool := match e with ERetiring | EReturned | EExited => true | _ => false end.

Record helper_inv (s : State) (cs : list bool) (e : ExecPc) (l : Log) : Prop := {
  hi_order : StronglySorted Z.lt (executed l).*1;
  hi_executed : forall x, x ∈ executed l -> x.1 <= last_sequence s;
  hi_queued : forall p, queued s = Some p ->
    p_sequence p <= last_sequence s /\ (forall x, x ∈ executed l -> x.1 < p_sequence p) /\ (p_cancel p < length cs)%nat;
  hi_current : forall p, current e = Some p ->
    p_sequence p <= last_sequence s /\ (forall x, x ∈ executed l -> x.1 <= p_sequence p) /\
    (forall q, queued s = Some q -> p_sequence p < p_sequence q) /\
    active s = Some (p_sequence p, p_cancel p) /\ retained s = None /\ (p_cancel p < length cs)%nat;
  hi_dispatched : forall p, e = EDispatched p -> forall x, x ∈ executed l -> x.1 < p_sequence p;
  hi_idle : current e = None -> broken e = false -> active s = None;
  hi_ready : phase s = ReadyPhase -> stop_attempt s = 0;
  hi_attempts : 0 <= stopped_attempt s <= stop_attempt s /\ stop_attempt s <= u64_max;
  hi_draining : forall a w, e = EDraining a w -> stopped_attempt s <= a <= stop_attempt s;
  hi_dropped : 0 < stop_attempt s -> droppable s = None;
  hi_raised : forall p, e = EDispatched p -> 0 < stop_attempt s ->
    is_cleanup (p_operation p) = true \/ cs !! p_cancel p = Some true;
  hi_retained : forall r, retained s = Some r ->
    info r = mkInfo (r_sequence (info r)) (zlen (result_bytes r)) (hash_hex (result_bytes r)) /\
    exists before, completed l = before ++ [(r_sequence (info r), result_bytes r)];
  hi_affirmed : affirmed l = true -> retiring e = true \/ broken e = true;
  hi_retiring : retiring e = true -> affirmed l = true;
  hi_stopped : phase s = Stopped -> affirmed l = true;
  hi_completed : StronglySorted Z.lt (completed l).*1 /\
    (forall x, x ∈ completed l -> x.1 <= last_sequence s) /\
    (forall p, queued s = Some p \/ current e = Some p -> forall x, x ∈ completed l -> x.1 < p_sequence p);
}.

Lemma droppable_queued s s' : queued s' = queued s -> droppable s' = droppable s.
Proof. unfold droppable. by intros ->. Qed.

(** Reports, replies and raised flags. *)
Lemma inv_report s s' cs cs' e l :
  helper_inv s cs e l -> same_core s s' -> flags_grow cs cs' -> helper_inv s' cs' e l.
Proof.
  intros [A1 A2 A3 A4 A5 A6 A7 A8 A9 A10 A11 A12 A13 A14 A15 (C1 & C2 & C3)] [H1 H2 H3 H4 H5 H6 H7 H8] [F1 F2].
  split; rewrite ?H1, ?H2, ?H4, ?H6, ?H7; try done.
  - intros x Hx. specialize (A2 x Hx). lia.
  - rewrite H3. intros p Hp. destruct (A3 p Hp) as (? & ? & ?). split_and!; [lia|done|lia].
  - rewrite H3. intros p Hp. destruct (A4 p Hp) as (? & ? & ? & ? & ? & ?). split_and!; [lia|done|done|done|done|lia].
  - intros Hs. rewrite (droppable_queued s) by done. auto.
  - intros p Hp Hs. destruct (A11 p Hp Hs); auto.
  - rewrite H3. split_and!; [done| |done]. intros x Hx. specialize (C2 x Hx). lia.
Qed.

Lemma stop_phase m : phase (st (stop m)) = Stopping.
Proof. unfold stop. cbn. destruct (active _) as [[i c]|]; cbn; destruct (droppable _); done. Qed.

Record stopped (m m' : Mem) : Prop := {
  so_phase : phase (st m') = Stopping;
  so_attempt : stop_attempt (st m') = Z.min u64_max (stop_attempt (st m) + 1);
  so_active : active (st m') = active (st m);
  so_queued : queued (st m') = match droppable (st m) with Some _ => None | None => queued (st m) end;
  so_retained : retained (st m') = retained (st m);
  so_last : last_sequence (st m') = last_sequence (st m);
  so_stopped : stopped_attempt (st m') = stopped_attempt (st m);
  so_done : execution_done (st m') = execution_done (st m);
  so_flags : flags_grow (cells m) (cells m');
  so_raised : forall i c, active (st m) = Some (i, c) -> (c < length (cells m))%nat -> cells m' !! c = Some true;
}.
Lemma stop_stopped m : stopped m (stop m).
Proof.
  unfold stop. cbn. destruct (active (st m)) as [[i c]|] eqn:Ha; cbn;
    change (droppable (set_phase _ _)) with (droppable (st m)); destruct (droppable (st m)) as [p|] eqn:Hd; split; cbn;
    rewrite ?Ha, ?Hd; try done; try apply flags_grow_raise; try apply flags_grow_refl;
    intros i' c' [= <- <-] Hc; by rewrite list_lookup_insert_eq.
Qed.

Lemma droppable_none s : droppable s = None -> forall p, queued s = Some p -> is_cleanup (p_operation p) = true.
Proof. unfold droppable. intros H p Hp. rewrite Hp in H. by destruct (is_cleanup _). Qed.
Lemma droppable_intro s : (forall p, queued s = Some p -> is_cleanup (p_operation p) = true) -> droppable s = None.
Proof. unfold droppable. intros H. destruct (queued s) as [p|]; [|done]. by rewrite (H p). Qed.

Lemma inv_stop m m' e l :
  helper_inv (st m) (cells m) e l -> stopped m m' -> helper_inv (st m') (cells m') e l.
Proof.
  intros [A1 A2 A3 A4 A5 A6 A7 A8 A9 A10 A11 A12 A13 A14 A15 (C1 & C2 & C3)] [H1 H2 H3 H4 H5 H6 H7 H8 [F1 F2] H9].
  assert (forall p, queued (st m') = Some p -> queued (st m) = Some p /\ is_cleanup (p_operation p) = true) as Hq.
  { rewrite H4. intros p Hp. destruct (droppable (st m)) eqn:Hd; [done|]. split; [done|].
    by eapply droppable_none. }
  split; rewrite ?H1, ?H2, ?H3, ?H5, ?H6, ?H7; try done.
  - intros p [Hp _]%Hq. destruct (A3 p Hp) as (? & ? & ?). split_and!; [done|done|lia].
  - intros p Hp. destruct (A4 p Hp) as (? & ? & Hlt & ? & ? & ?). split_and!; [done|done| |done|done|lia].
    intros q [Hq1 _]%Hq. auto.
  - lia.
  - intros a w Ha. specialize (A9 a w Ha). lia.
  - intros _. apply droppable_intro. intros p Hp. by apply Hq.
  - intros p Hp _. destruct (A4 p) as (_ & _ & _ & Ha & _ & Hc); [by rewrite Hp|]. right. by eapply H9.
  - split_and!; [done..|]. intros p [[Hp _]%Hq|Hp]; auto.
Qed.
(** *** Frames *)

Lemma inv_operation s cs c p e l :
  helper_inv s cs e l -> admits (p_operation p) s = true -> last_sequence s < p_sequence p -> p_cancel p = length cs ->
  helper_inv (set_queued (Some p) (set_last_sequence (p_sequence p) s)) (cs ++ [c]) e l.
Proof.
  intros [A1 A2 A3 A4 A5 A6 A7 A8 A9 A10 A11 A12 A13 A14 A15 (C1 & C2 & C3)] Hadm Hlt Hc.
  assert (forall i, (i < length cs)%nat -> (i < length (cs ++ [c]))%nat) as Hlen by (intros i; rewrite length_app; lia).
  assert (forall x, x ∈ executed l -> x.1 < p_sequence p) as Hex by (intros x Hx; specialize (A2 x Hx); lia).
  unfold admits in Hadm. apply andb_true_iff in Hadm as [Hph Hq%bool_decide_eq_true].
  split; cbn; try done.
  - intros x Hx. specialize (Hex x Hx). lia.
  - intros p' [= <-]. split_and!; [lia|done|rewrite length_app; cbn; lia].
  - intros p' Hp. destruct (A4 p' Hp) as (? & ? & ? & ? & ? & ?). split_and!; [lia|done| |done|done|auto].
    intros q [= <-]. lia.
  - intros Hs. enough (is_cleanup (p_operation p) = true) as -> by done.
    apply orb_true_iff in Hph as [Hph%bool_decide_eq_true|[_ ?]%andb_true_iff]; [|done]. rewrite (A7 Hph) in Hs. lia.
  - intros p' Hp Hs. destruct (A11 p' Hp Hs) as [?|Hcs]; [by left|right]. by apply lookup_app_l_Some.
  - split_and!; [done| |].
    + intros x Hx. specialize (C2 x Hx). lia.
    + intros p' [[= <-]|Hp] x Hx; [|by apply (C3 p'); [right|]]. specialize (C2 x Hx). lia.
Qed.

Lemma inv_forget s cs e l : helper_inv s cs e l -> helper_inv (set_retained None s) cs e l.
Proof.
  intros [A1 A2 A3 A4 A5 A6 A7 A8 A9 A10 A11 A12 A13 A14 A15 A16]. split; try done.
  intros p Hp. destruct (A4 p Hp) as (? & ? & ? & ? & ? & ?). by split_and!.
Qed.
Lemma inv_sent s cs e l r sent :
  retained s = Some r -> helper_inv s cs e l ->
  helper_inv (set_retained (Some (mkRetained (info r) (result_bytes r) sent)) s) cs e l.
Proof.
  intros Hr [A1 A2 A3 A4 A5 A6 A7 A8 A9 A10 A11 A12 A13 A14 A15 A16]. split; try done.
  - intros p Hp. destruct (A4 p Hp) as (? & ? & ? & ? & ? & ?). congruence.
  - cbn. intros r' [= <-]. exact (A12 r Hr).
Qed.

Lemma inv_received f m m' e l :
  helper_inv (st m) (cells m) e l -> received f m m' -> helper_inv (st m') (cells m') e l.
Proof.
  intros Hi [Hc Hf|p c Hadm Hlt Hcell Hcs Hc|r _ _ Hr Hc Hcs|r sent Hr Hc Hcs|m1 Hc Hcs Hst Hcs'].
  - by eapply inv_report.
  - rewrite Hcs. eapply inv_report; [|exact Hc|apply flags_grow_refl]. by apply inv_operation.
  - rewrite Hcs. eapply inv_report; [|exact Hc|apply flags_grow_refl]. by apply inv_forget.
  - rewrite Hcs. eapply inv_report; [|exact Hc|apply flags_grow_refl]. by apply inv_sent.
  - rewrite Hst, Hcs'. eapply inv_report; [|apply changed_core|apply flags_grow_refl].
    eapply inv_stop; [|apply stop_stopped]. eapply inv_report; [exact Hi|exact Hc|]. rewrite Hcs. apply flags_grow_refl.
Qed.
(** *** The execution thread *)

Definition resting (e : ExecPc) : bool := match e with EStarting | EAwake | EAsleep => true | _ => false end.

(** Between two operations the thread's program counter carries no fact. *)
Lemma inv_rest s cs e e' l :
  helper_inv s cs e l -> current e = None -> broken e = false -> retiring e = false ->
  resting e' = true \/ e' = EDraining (stop_attempt s) (shutdown_wire s) -> helper_inv s cs e' l.
Proof.
  intros [A1 A2 A3 A4 A5 A6 A7 A8 A9 A10 A11 A12 A13 A14 A15 (C1 & C2 & C3)] Hcur Hbr Hret Hres.
  assert (current e' = None /\ retiring e' = false) as [Hc Hr].
  { destruct Hres as [Hres| ->]; [|done]. by destruct e'. }
  split; rewrite ?Hc, ?Hr; try done.
  - by intros p ->.
  - auto.
  - intros a w ->. destruct Hres as [|[= -> ->]]; [done|]. lia.
  - by intros p ->.
  - intros Ha. destruct (A13 Ha); congruence.
  - split_and!; [done..|]. intros p [Hp|]; [|done]. by apply C3; left.
Qed.
Lemma inv_awake s cs e' l :
  helper_inv s cs EAwake l -> resting e' = true \/ e' = EDraining (stop_attempt s) (shutdown_wire s) ->
  helper_inv s cs e' l.
Proof. intros Hi. by eapply inv_rest. Qed.

(** An operation leaves the queue. *)
Lemma dispatch_inv s cs l p s' :
  helper_inv s cs EAwake l -> dispatch s = Some (p, s') -> helper_inv s' cs (EDispatched p) l.
Proof.
  intros [A1 A2 A3 A4 A5 A6 A7 A8 A9 A10 A11 A12 A13 A14 A15 (C1 & C2 & C3)] H. unfold dispatch in H.
  destruct (_ && _) eqn:Hg; [|done]. apply andb_true_iff in Hg as [Hph Hret%bool_decide_eq_true].
  destruct (queued s) as [q|] eqn:Hq; [|done].
  assert (p = q /\ same_core (set_active (Some (p_sequence q, p_cancel q)) (set_queued None s)) s') as [-> Hs].
  { destruct (p_operation q); injection H as <- <-; split; try done; split; done. }
  clear H. destruct (A3 q eq_refl) as (B1 & B2 & B3).
  eapply inv_report; [|exact Hs|apply flags_grow_refl].
  split; cbn; try done.
  - intros p [= <-]. split_and!; [done| |done..]. intros x Hx. specialize (B2 x Hx). lia.
  - by intros p [= <-].
  - intros p [= <-] Hst. left. specialize (A10 Hst). eapply droppable_none; done.
  - split_and!; [done..|]. intros p [|[= <-]]; [done|]. by apply C3; left.
Qed.

Lemma dispatch_or_wait_inv m l m' pc n :
  helper_inv (st m) (cells m) EAwake l -> dispatch_or_wait m = (m', pc, n) -> helper_inv (st m') (cells m') pc l.
Proof.
  intros Hi. unfold dispatch_or_wait. destruct (dispatch (st m)) as [[p s]|] eqn:Hd; intros [= <- <- <-].
  - by eapply dispatch_inv.
  - eapply inv_awake; [done|by left].
Qed.

(** The engine takes an operation. *)
Lemma sorted_snoc {A} (xs : list (Z * A)) (x : Z * A) :
  StronglySorted Z.lt xs.*1 -> (forall y, y ∈ xs -> y.1 < x.1) -> StronglySorted Z.lt (xs ++ [x]).*1.
Proof.
  intros Hs Hx. rewrite fmap_app. apply StronglySorted_app_2; [|done|by repeat constructor].
  intros a b (y & -> & Hy)%list_elem_of_fmap Hb. cbn in Hb. apply list_elem_of_singleton in Hb as ->. auto.
Qed.
Lemma elem_snoc {A} (xs : list A) x y : y ∈ xs ++ [x] -> y ∈ xs \/ y = x.
Proof. rewrite elem_of_app, list_elem_of_singleton. done. Qed.

(** The thread goes on with the operation it holds. *)
Lemma inv_hold s cs e e' l p :
  helper_inv s cs e l -> current e = Some p -> current e' = Some p -> (forall q, e' <> EDispatched q) ->
  helper_inv s cs e' l.
Proof.
  intros [A1 A2 A3 A4 A5 A6 A7 A8 A9 A10 A11 A12 A13 A14 A15 (C1 & C2 & C3)] Hc Hc' Hne.
  assert (retiring e = false /\ broken e = false) as [Hr Hb] by by destruct e.
  assert (retiring e' = false) as Hr' by by destruct e'.
  split; rewrite ?Hc', ?Hr'; try done.
  - rewrite <- Hc. done.
  - intros q ->. by destruct (Hne q).
  - by intros a w ->.
  - intros q ->. by destruct (Hne q).
  - intros Ha. destruct (A13 Ha); congruence.
  - rewrite <- Hc. done.
Qed.
Lemma inv_execute s cs l p ctx :
  helper_inv s cs (EDispatched p) l ->
  helper_inv s cs (EExecuting p ctx)
    (mkLog (executed l ++ [(p_sequence p, p_operation p)]) (completed l) (results l) (controls l) (affirmed l)).
Proof.
  intros [A1 A2 A3 A4 A5 A6 A7 A8 A9 A10 A11 A12 A13 A14 A15 A16]. destruct (A4 p eq_refl) as (B1 & B2 & B3 & B4 & B5 & B6).
  split; cbn; try done.
  - apply sorted_snoc; [done|]. by apply A5.
  - intros x [Hx| ->]%elem_snoc; [auto|cbn; lia].
  - intros q Hq. destruct (A3 q Hq) as (? & ? & ?). split_and!; [done| |done].
    intros x [Hx| ->]%elem_snoc; [auto|]. cbn. auto.
  - intros q [= <-]. split_and!; [done| |done..]. intros x [Hx| ->]%elem_snoc; [auto|cbn; lia].
Qed.
Lemma inv_retain s cs l p o b :
  helper_inv s cs (EResult p o) l ->
  helper_inv (retain p b s) cs EAwake
    (mkLog (executed l) (completed l ++ [(p_sequence p, b)]) (results l) (controls l) (affirmed l)).
Proof.
  intros [A1 A2 A3 A4 A5 A6 A7 A8 A9 A10 A11 A12 A13 A14 A15 (C1 & C2 & C3)].
  destruct (A4 p eq_refl) as (B1 & B2 & B3 & B4 & B5 & B6). split; cbn; try done.
  - intros r [= <-]. split; [done|]. by eexists.
  - split_and!.
    + apply sorted_snoc; [done|]. by apply C3; right.
    + intros x [Hx| ->]%elem_snoc; [auto|cbn; lia].
    + intros q [Hq|]; [|done]. intros x [Hx| ->]%elem_snoc; [by apply C3; [left|]|cbn; auto].
Qed.

(** The thread breaks down. *)
Lemma inv_broken s cs e e' l :
  helper_inv s cs e l -> broken e' = true -> helper_inv s cs e' l.
Proof.
  intros [A1 A2 A3 A4 A5 A6 A7 A8 A9 A10 A11 A12 A13 A14 A15 (C1 & C2 & C3)] Hb.
  assert (current e' = None /\ retiring e' = false) as [Hc Hr] by by destruct e'.
  split; rewrite ?Hc, ?Hr; try done.
  - by intros p ->.
  - congruence.
  - by intros a w ->.
  - by intros p ->.
  - auto.
  - split_and!; [done..|]. intros p [Hp|]; [|done]. by apply C3; left.
Qed.
Lemma inv_phase ph s cs e l :
  helper_inv s cs e l -> (ph = ReadyPhase -> stop_attempt s = 0) -> (ph = Stopped -> affirmed l = true) ->
  helper_inv (set_phase ph s) cs e l.
Proof. intros [] ? ?. by split. Qed.
Lemma inv_done s cs e l : helper_inv s cs e l -> helper_inv (set_execution_done true s) cs e l.
Proof. intros []. by split. Qed.
(** The phase changes, and the news spreads. *)
Lemma inv_announce ph s s' cs e l :
  helper_inv s cs e l -> (ph = ReadyPhase -> stop_attempt s = 0) -> (ph = Stopped -> affirmed l = true) ->
  same_core (set_phase ph s) s' -> helper_inv s' cs e l.
Proof. intros. eapply inv_report; [by apply inv_phase| done|apply flags_grow_refl]. Qed.

Lemma inv_drained s cs l a w :
  helper_inv s cs (EDraining a w) l ->
  helper_inv (drained a w s) cs ERetiring (mkLog (executed l) (completed l) (results l) (controls l) true).
Proof.
  intros [A1 A2 A3 A4 A5 A6 A7 A8 A9 A10 A11 A12 A13 A14 A15 (C1 & C2 & C3)].
  specialize (A9 a w eq_refl). split; cbn; try done; [lia|by left].
Qed.
Lemma inv_attempted s cs l a w :
  helper_inv s cs (EDraining a w) l -> helper_inv (drained a w s) cs EAwake l.
Proof.
  intros Hi. pose proof (hi_draining _ _ _ _ Hi a w eq_refl) as Ha. assert (helper_inv s cs EAwake l) as [].
  { eapply inv_rest; [done..|by left]. }
  split; cbn; try done. lia.
Qed.
Lemma drain_failed_inv m l a w e m' pc n :
  helper_inv (st m) (cells m) (EDraining a w) l -> dispatch_or_wait (upd (drain_failed a w e) m) = (m', pc, n) ->
  helper_inv (st m') (cells m') pc l.
Proof.
  intros Hi. apply dispatch_or_wait_inv. cbn.
  eapply (inv_announce (if a <? stop_attempt (st m) then Stopping else DrainFailed)); [exact (inv_attempted _ _ _ a w Hi)|..].
  - destruct (_ <? _); discriminate.
  - destruct (_ <? _); discriminate.
  - by split.
Qed.
Lemma inv_retired s cs e e' l :
  helper_inv s cs e l -> retiring e = true -> retiring e' = true -> helper_inv s cs e' l.
Proof.
  intros [A1 A2 A3 A4 A5 A6 A7 A8 A9 A10 A11 A12 A13 A14 A15 (C1 & C2 & C3)] Hr Hr'.
  assert (current e = None /\ broken e = false) as [Hc Hb] by by destruct e.
  assert (current e' = None) as Hc' by by destruct e'.
  split; rewrite ?Hc', ?Hr'; try done.
  - by intros p ->.
  - auto.
  - by intros a w ->.
  - by intros p ->.
  - by left.
  - auto.
  - split_and!; [done..|]. intros p [Hp|]; [|done]. by apply C3; left.
Qed.

Lemma abandon_core o s : same_core s (abandon o s).
Proof. unfold abandon. destruct o; try apply same_core_refl. destruct (admission s); [by split|apply same_core_refl]. Qed.
Lemma exec_begin_inv p m l m' pc l' :
  helper_inv (st m) (cells m) (EDispatched p) l -> exec_begin p m l = (m', pc, l') ->
  helper_inv (st m') (cells m') pc l'.
Proof.
  intros Hi. unfold exec_begin. destruct (_ && _); intros [= <- <- <-].
  - eapply inv_hold; [eapply inv_report; [exact Hi|apply abandon_core|apply flags_grow_refl]|done..].
  - by apply inv_execute.
Qed.

Lemma exec_step_inv m l e m' l' e' n :
  helper_inv (st m) (cells m) e l -> exec_step epoch_id m l e m' l' e' n -> helper_inv (st m') (cells m') e' l'.
Proof.
  intros Hi Hs. destruct Hs as [|why|m' pc n H|a w|a w e m' pc n H| |p m' pc l' H|p ctx a m' r H|p ctx x m' r H
    |p ctx x m' r H|p ctx root m' r H|p ctx o|p o b H|p o e H|pc H| |why].
  - assert (helper_inv (st m) (cells m) EAwake l) as Ha by (eapply inv_rest; [done..|by left]).
    cbn. destruct (Z.eqb_spec (stop_attempt (st m)) 0) as [Hz|].
    + eapply (inv_announce ReadyPhase); [done..|by split].
    + eapply inv_report; [done|apply changed_core|apply flags_grow_refl].
  - by eapply inv_broken.
  - unfold exec_turn in H. destruct (stop_pending _).
    + injection H as <- <- <-. eapply inv_awake; [done|by right].
    + by eapply dispatch_or_wait_inv.
  - by apply inv_drained.
  - by eapply drain_failed_inv.
  - pose proof (hi_retiring _ _ _ _ Hi eq_refl) as Ha.
    eapply (inv_announce Stopped); [by eapply inv_retired|done..|by split].
  - by eapply exec_begin_inv.
  - apply reports_run in H as [? ?]; [by eapply inv_report|apply publish_admission_reports].
  - apply reports_run in H as [? ?]; [by eapply inv_report|apply publish_store_reports].
  - apply reports_run in H as [? ?]; [by eapply inv_report|apply publish_objects_reports].
  - apply reports_run in H as [? ?]; [by eapply inv_report|apply clear_store_reports].
  - by eapply inv_hold.
  - by eapply inv_retain.
  - by eapply inv_broken.
  - by eapply inv_broken.
  - eapply inv_report; [|apply changed_core|apply flags_grow_refl]. apply inv_done. by eapply inv_retired.
  - eapply (inv_announce UnknownPhase); [apply inv_done; by eapply inv_broken|done..|by split].
Qed.
End Helper.
