(* ===== verification/FsSafety.v ===== *)
(** What the filesystem helper promises, over every interleaving of its threads
    and every behaviour of its client and its engine: each operation runs at most
    once, a stop lets only cleanup start, a result is held until it is
    acknowledged, the process retires only when its engine affirmed it, and no
    thread sleeps through its work (src/src/filesystem_worker/process.rs). *)
From stdpp Require Import base tactics option list numbers strings sorting.
From Stdlib Require Import ZArith Lia.
From S2P Require Import Prelude Bytes FsWire FsOps FsProcess FsFrames FsHelper.

Open Scope Z_scope.
Local Open Scope prog_scope.

Section Safety.
Context {ENGINE : Engine} {CODEC : HelperCodec} (nonce : list Z) (epoch_id : LeaseId).

(** ** The invariant of the process *)

(** When a thread has nothing to do.  What stops may wait while the execution thread
    sleeps is said below. *)
Definition exec_rests (s : State) : Prop := dispatch s = None.
Definition output_rests (s : State) : Prop :=
  (forall r, retained s = Some r -> result_sent r = true) /\ execution_done s = false.
Definition control_rests (seen : Z) (s : State) : Prop :=
  store_reply s = None /\ admission_reply s = None /\ revision s = seen.

Record world_inv (w : World) : Prop := {
  wi_helper : helper_inv (st (mem w)) (cells (mem w)) (exec w) (log w);
  wi_writing : forall q b, output w = OWriting q b -> (q, b) ∈ completed (log w);
  wi_results : forall x, x ∈ results (log w) -> x ∈ completed (log w);
  wi_exec : exec w = EAsleep -> exec_rests (st (mem w));
  wi_output : output w = OAsleep -> output_rests (st (mem w));
  wi_control : forall seen, control w = CAsleep seen -> control_rests seen (st (mem w));
}.

Lemma wake_exec_asleep n e : wake_exec n e = EAsleep -> n = false /\ e = EAsleep.
Proof. by destruct e, n. Qed.
Lemma wake_output_asleep n o : wake_output n o = OAsleep -> n = false /\ o = OAsleep.
Proof. by destruct o, n. Qed.
Lemma wake_output_writing n o q b : wake_output n o = OWriting q b -> o = OWriting q b.
Proof. by destruct o, n. Qed.
Lemma wake_control_asleep n c seen : wake_control n c = CAsleep seen -> n = false /\ c = CAsleep seen.
Proof. by destruct c, n. Qed.
Lemma inv_wake s cs n e l : helper_inv s cs e l -> helper_inv s cs (wake_exec n e) l.
Proof. destruct e; try done. destruct n; [|done]. intros Hi. eapply inv_rest; [done..|by left]. Qed.

(** A state that the sleepers cannot tell from [s]. *)
Record unnoticed (s s' : State) : Prop := {
  un_exec : exec_rests s -> exec_rests s';
  un_output : output_rests s -> output_rests s';
  un_control : forall seen, control_rests seen s -> control_rests seen s';
}.
Lemma unnoticed_refl s : unnoticed s s.
Proof. by split. Qed.
Lemma dispatch_none s s' :
  phase s' = phase s -> queued s' = queued s -> (retained s' = None <-> retained s = None) ->
  dispatch s = None -> dispatch s' = None.
Proof.
  unfold dispatch, cleanup_queued. intros -> -> Hr. rewrite (bool_decide_ext _ _ Hr).
  by destruct (_ && _), (queued s).
Qed.
Lemma unnoticed_last n s : unnoticed s (set_last_sequence n s).
Proof. split; unfold exec_rests; try done. intros Hd. by apply (dispatch_none s). Qed.

(** *** Sleepers through the steps of the threads *)

Lemma refused_unnoticed {A} (p : proc string Mem A) m m' e :
  refuses p -> p m = (m', Err e) -> unnoticed (st m) (st m').
Proof. intros Hp (n & _ & -> & _)%Hp. apply unnoticed_last. Qed.

(** Steps of one thread that do not wake the others. *)
Lemma exec_quiet m l e m' l' e' s :
  exec_step epoch_id m l e m' l' e' false -> s = st m ->
  (output_rests s -> output_rests (st m')) /\ (forall seen, control_rests seen s -> control_rests seen (st m')).
Proof.
  intros H ->. remember false as b eqn:Hb. destruct H as [|why|m' pc n H|a w|a w e m' pc n H| |p m' pc l' H|p ctx a m' r H
    |p ctx x m' r H|p ctx x m' r H|p ctx root m' r H|p ctx o|p o b H|p o e H|pc H| |why]; try done.
  - unfold exec_turn, dispatch_or_wait in H.
    destruct (stop_pending _); [|destruct (dispatch _) as [[p s]|]]; by injection H as <- <- <-.
  - unfold exec_begin in H. destruct (_ && _); injection H as <- <- <-; [|done].
    cbn. unfold abandon. destruct (p_operation p); try done. by destruct (admission (st m)).
  - destruct r; [done|]. apply (refused_unnoticed _ _ _ _ (publish_admission_refuses epoch_id ctx a)) in H. by destruct H.
  - destruct r; [done|]. apply (refused_unnoticed _ _ _ _ (publish_store_refuses epoch_id ctx x)) in H. by destruct H.
  - destruct r; [done|]. apply (refused_unnoticed _ _ _ _ (publish_objects_refuses ctx x)) in H. by destruct H.
  - unfold clear_store in H. rewrite bind_get in H. unfold bind in H. destruct (store (st m)) as [x|].
    + destruct (store_status x _); injection H as <- _; done.
    + by injection H as <- _.
Qed.
(** The execution thread goes to sleep only with nothing to do. *)
Lemma exec_sleeps m l e m' l' n :
  exec_step epoch_id m l e m' l' EAsleep n -> exec_rests (st m').
Proof.
  intros H. inversion H as [|why|m0 pc n0 H0|a w|a w e0 m0 pc n0 H0| |p m0 pc l0 H0| | | | | | | | | |]; subst.
  - unfold exec_turn, dispatch_or_wait in H0. destruct (stop_pending (st m)) eqn:Hs; [done|].
    destruct (dispatch (st m)) as [[p s]|] eqn:Hd; [done|]. by injection H0 as <- <-.
  - unfold dispatch_or_wait in H0. destruct (dispatch _) as [[p s]|] eqn:Hd; [done|]. by injection H0 as <- <-.
  - unfold exec_begin in H0. by destruct (_ && _).
Qed.
Lemma output_quiet m l o m' l' o' n :
  output_step m l o m' l' o' n -> n = false ->
  (exec_rests (st m) -> exec_rests (st m')) /\ (forall seen, control_rests seen (st m) -> control_rests seen (st m')) /\
  (o' = OAsleep -> output_rests (st m')).
Proof.
  intros [m1 pc H|q b|q b why] Hn; try done. unfold output_turn in H.
  destruct (retained (st m)) as [r|] eqn:Hr; [destruct (result_sent r) eqn:Hs|].
  - destruct (execution_done _) eqn:Hd; injection H as <- <-; split_and!; try done. intros _. split; [|done].
    intros r'. rewrite Hr. by intros [= <-].
  - injection H as <- <-. split_and!; try done. intros Hd.
    apply (dispatch_none (st m)); [done|done| |done]. cbn. rewrite Hr. done.
  - destruct (execution_done _) eqn:Hd; injection H as <- <-; split_and!; try done. intros _. split; [|done].
    intros r'. by rewrite Hr.
Qed.
Lemma control_quiet m l c m' l' c' n :
  control_step m l c m' l' c' n -> n = false ->
  (exec_rests (st m) -> exec_rests (st m')) /\ (output_rests (st m) -> output_rests (st m')) /\
  (forall seen, c' = CAsleep seen -> control_rests seen (st m')).
Proof.
  intros [seen m1 pc H|q v d seen H|q v d seen why] Hn; try done; [|by destruct d].
  unfold control_turn in H. destruct (store_reply (st m)) as [[q v]|] eqn:Hs; [injection H as <- <-; split_and!; try done|].
  - intros Hd. by apply (dispatch_none (st m)).
  - destruct (admission_reply (st m)) as [[q v]|] eqn:Ha; [injection H as <- <-; split_and!; try done|].
    + intros Hd. by apply (dispatch_none (st m)).
    + destruct (Z.eqb_spec (revision (st m)) seen) as [He|]; injection H as <- <-; split_and!; try done.
      by intros seen' [= <-].
Qed.

(** ** Every reachable world *)

Lemma world_initial : world_inv initial_world.
Proof.
  split; cbn; try done; try by intros ? ?%elem_of_nil.
  split; cbn; try done; try (by intros ? ?%elem_of_nil); [constructor|].
  split_and!; [constructor|by intros ? ?%elem_of_nil|by intros ? _ ? ?%elem_of_nil].
Qed.
Lemma exec_step_log m l e m' l' e' n :
  exec_step epoch_id m l e m' l' e' n ->
  results l' = results l /\ controls l' = controls l /\ (exists more, completed l' = completed l ++ more).
Proof.
  intros H. destruct H as [|why|m' pc n H|a w|a w e m' pc n H| |p m' pc l' H|p ctx a m' r H|p ctx x m' r H
    |p ctx x m' r H|p ctx root m' r H|p ctx o|p o b H|p o e H|pc H| |why];
    try (split_and!; [done|done|exists []; by rewrite app_nil_r]).
  - unfold exec_begin in H. destruct (_ && _); injection H as <- <- <-;
      (split_and!; [done|done|exists []; by rewrite app_nil_r]).
  - split_and!; [done|done|by eexists].
Qed.
Lemma shared_fail_inv m why e l :
  helper_inv (st m) (cells m) e l -> helper_inv (st (shared_fail why m)) (cells (shared_fail why m)) e l.
Proof.
  intros Hi. eapply inv_stop; [|apply stop_stopped]. cbn. eapply inv_report; [exact Hi|by split|apply flags_grow_refl].
Qed.
Lemma close_input_inv m e l :
  helper_inv (st m) (cells m) e l -> helper_inv (st (close_input m)) (cells (close_input m)) e l.
Proof.
  intros Hi. assert (helper_inv (st (upd (set_input_closed true) m)) (cells m) e l) as Hc.
  { eapply inv_report; [exact Hi|by split|apply flags_grow_refl]. }
  unfold close_input. destruct (_ && _); [|exact Hc]. eapply inv_stop; [exact Hc|apply stop_stopped].
Qed.
(** A step that wakes every sleeper. *)
Lemma world_awake w w' :
  helper_inv (st (mem w')) (cells (mem w')) (exec w') (log w') ->
  (forall q b, output w' = OWriting q b -> (q, b) ∈ completed (log w')) ->
  (forall x, x ∈ results (log w') -> x ∈ completed (log w')) ->
  exec w' = wake_exec true (exec w) -> output w' = wake_output true (output w) ->
  control w' = wake_control true (control w) -> world_inv w'.
Proof.
  intros H1 H2 H3 He Ho Hc. split; try done.
  - rewrite He. by intros [? ?]%wake_exec_asleep.
  - rewrite Ho. by intros [? ?]%wake_output_asleep.
  - rewrite Hc. by intros seen [? ?]%wake_control_asleep.
Qed.

Lemma frame_inv w f m' n :
  world_inv w -> input_frame nonce epoch_id f (mem w) = (m', Ok n) ->
  world_inv (mkWorld m' (log w) IReading (wake_exec n (exec w)) (wake_output n (output w)) (wake_control n (control w))).
Proof.
  intros [W1 W2 W3 W4 W5 W6] H%input_frame_received. destruct n.
  - eapply world_awake; cbn; [|eauto using wake_output_writing..]. apply inv_wake. by eapply inv_received.
  - destruct H as [Hs Hc]. split; cbn; rewrite ?Hs, ?Hc.
    + by apply inv_wake.
    + eauto using wake_output_writing.
    + done.
    + by intros [_ ?]%wake_exec_asleep; auto.
    + intros [_ ?]%wake_output_asleep; auto.
    + intros seen [_ ?]%wake_control_asleep; auto.
Qed.
Lemma bad_frame_inv w f m' e :
  world_inv w -> input_frame nonce epoch_id f (mem w) = (m', Err e) ->
  world_inv (mkWorld m' (log w) IClosing (exec w) (output w) (control w)).
Proof.
  intros [W1 W2 W3 W4 W5 W6] H. pose proof (refused_unnoticed _ _ _ _ (input_frame_refuses nonce epoch_id f) H) as [U1 U2 U3].
  apply input_frame_refuses in H as (n & Hn & Hs & Hf). split; cbn; auto.
  eapply inv_report; [exact W1| |exact Hf]. rewrite Hs. by split.
Qed.
Lemma exec_inv w m' l' pc n :
  world_inv w -> exec_step epoch_id (mem w) (log w) (exec w) m' l' pc n ->
  world_inv (mkWorld m' l' (input w) pc (wake_output n (output w)) (wake_control n (control w))).
Proof.
  intros [W1 W2 W3 W4 W5 W6] H. pose proof (exec_step_log _ _ _ _ _ _ _ H) as (Hr & _ & [more Hm]).
  split; cbn; rewrite ?Hr, ?Hm.
  - by eapply exec_step_inv.
  - intros q b Hq%wake_output_writing. apply elem_of_app. auto.
  - intros x Hx. apply elem_of_app. auto.
  - intros ->. by eapply exec_sleeps.
  - intros [-> Ho]%wake_output_asleep. eapply exec_quiet; [exact H|done|auto].
  - intros seen [-> Hc]%wake_control_asleep. eapply exec_quiet; [exact H|done|auto].
Qed.
Lemma output_step_log m l o m' l' o' n :
  output_step m l o m' l' o' n ->
  executed l' = executed l /\ completed l' = completed l /\ affirmed l' = affirmed l /\
  (forall x, x ∈ results l' -> x ∈ results l \/ o = OWriting x.1 x.2).
Proof.
  intros [m1 pc H|q b|q b why]; split_and!; try done; try by left. cbn.
  intros x [Hx| ->]%elem_snoc; [by left|by right].
Qed.
Lemma output_step_inv m l o m' l' o' n e :
  helper_inv (st m) (cells m) e l -> output_step m l o m' l' o' n ->
  helper_inv (st m') (cells m') e l' /\ (forall q b, o' = OWriting q b -> (q, b) ∈ completed l').
Proof.
  intros Hi [m1 pc H|q b|q b why]; [|split; [by destruct Hi|done]|split; [by apply shared_fail_inv|done]].
  unfold output_turn in H. destruct (retained (st m)) as [r|] eqn:Hr.
  - destruct (result_sent r); [destruct (execution_done _); by injection H as <- <-|].
    injection H as <- <-. split; [by apply inv_sent|]. intros q b [= <- <-].
    destruct (hi_retained _ _ _ _ Hi r Hr) as [_ [before ->]]. apply elem_of_app. right. by apply list_elem_of_singleton.
  - destruct (execution_done _); by injection H as <- <-.
Qed.
Lemma output_inv w m' l' pc n :
  world_inv w -> output_step (mem w) (log w) (output w) m' l' pc n ->
  world_inv (mkWorld m' l' (input w) (wake_exec n (exec w)) pc (wake_control n (control w))).
Proof.
  intros [W1 W2 W3 W4 W5 W6] H. destruct (output_step_inv _ _ _ _ _ _ _ _ W1 H) as [Hi Hw].
  pose proof (output_step_log _ _ _ _ _ _ _ H) as (_ & Hc & _ & Hr).
  split; cbn; rewrite ?Hc.
  - by apply inv_wake.
  - rewrite <- Hc. auto.
  - intros x [Hx|Hx]%Hr; [auto|]. apply W2 in Hx. by destruct x.
  - intros [-> He]%wake_exec_asleep. eapply output_quiet; [exact H|done|auto].
  - intros ->. destruct n; [by inversion H|]. eapply output_quiet; [exact H|done|done].
  - intros seen [-> Hc']%wake_control_asleep. eapply output_quiet; [exact H|done|auto].
Qed.
Lemma control_step_inv m l c m' l' c' n e :
  helper_inv (st m) (cells m) e l -> control_step m l c m' l' c' n ->
  helper_inv (st m') (cells m') e l' /\ completed l' = completed l /\ results l' = results l /\ executed l' = executed l.
Proof.
  intros Hi [seen m1 pc H|q v d seen H|q v d seen why]; split_and!; try done; [|by destruct Hi|by apply shared_fail_inv].
  unfold control_turn in H. destruct (store_reply _) as [[q v]|]; [injection H as <- _|
    destruct (admission_reply _) as [[q v]|]; [injection H as <- _|destruct (_ =? _); by injection H as <- _]];
    (eapply inv_report; [exact Hi|by split|apply flags_grow_refl]).
Qed.
Lemma control_inv w m' l' pc n :
  world_inv w -> control_step (mem w) (log w) (control w) m' l' pc n ->
  world_inv (mkWorld m' l' (input w) (wake_exec n (exec w)) (wake_output n (output w)) pc).
Proof.
  intros [W1 W2 W3 W4 W5 W6] H. destruct (control_step_inv _ _ _ _ _ _ _ _ W1 H) as (Hi & Hc & Hr & _).
  split; cbn; rewrite ?Hc, ?Hr.
  - by apply inv_wake.
  - eauto using wake_output_writing.
  - done.
  - intros [-> He]%wake_exec_asleep. eapply control_quiet; [exact H|done|auto].
  - intros [-> He]%wake_output_asleep. eapply control_quiet; [exact H|done|auto].
  - intros seen ->. destruct n; [by inversion H|]. eapply control_quiet; [exact H|done|done].
Qed.

Lemma world_step w w' : world_inv w -> step epoch_id nonce w w' -> world_inv w'.
Proof.
  intros Hw [a [f m' n Hi H|f m' e Hi H|Hi|Hi|m' l' pc n H|m' l' pc n H|m' l' pc n H|]].
  - by eapply frame_inv.
  - by eapply bad_frame_inv.
  - by destruct Hw.
  - destruct Hw as [W1 W2 W3 _ _ _]. eapply (world_awake w); cbn; eauto using wake_output_writing.
    apply inv_wake. by apply close_input_inv.
  - by apply exec_inv.
  - by apply output_inv.
  - by apply control_inv.
  - destruct Hw as [W1 W2 W3 _ _ _]. eapply (world_awake w); cbn; eauto using wake_output_writing, inv_wake.
Qed.
Lemma world_steps w w' : world_inv w -> steps epoch_id nonce w w' -> world_inv w'.
Proof. intros Hw. induction 1; [done|by eapply world_step]. Qed.
Lemma world_reachable w : reachable epoch_id nonce w -> world_inv w.
Proof. apply world_steps, world_initial. Qed.

(** *** Stops that wait while the execution thread sleeps *)

(** A run in which the execution thread sleeps all along and no stop arrives. *)
Inductive dozes (w : World) : World -> Prop :=
| dozes_refl : exec w = EAsleep -> dozes w w
| dozes_next w1 w2 : dozes w w1 -> step epoch_id nonce w1 w2 -> exec w2 = EAsleep ->
    stop_attempt (st (mem w2)) = stop_attempt (st (mem w1)) -> dozes w w2.
(** The stop came while [Handler::shutdown] worked on attempt [a]; the attempt failed, the
    thread went to sleep, and it has slept since. *)
Definition overlooked (w : World) : Prop :=
  exists w1 w2 a wire, reachable epoch_id nonce w1 /\ exec w1 = EDraining a wire /\ a < stop_attempt (st (mem w1)) /\
    step epoch_id nonce w1 w2 /\ stop_attempt (st (mem w2)) = stop_attempt (st (mem w1)) /\ dozes w2 w.
Definition same_stop (s s' : State) : Prop := stop_pending s' = stop_pending s /\ stop_attempt s' = stop_attempt s.
Lemma output_same_stop m l o m' l' o' : output_step m l o m' l' o' false -> same_stop (st m) (st m').
Proof.
  intros H. inversion H as [m1 pc H1| |]; subst; [|done]. unfold output_turn in H1.
  destruct (retained (st m)) as [r|]; [destruct (result_sent r)|]; by (injection H1 as <- <- || (destruct (execution_done _); injection H1 as <- <-)).
Qed.
Lemma control_same_stop m l c m' l' c' : control_step m l c m' l' c' false -> same_stop (st m) (st m').
Proof.
  intros H. inversion H as [seen m1 pc H1| |]; subst; [|done]. unfold control_turn in H1.
  destruct (store_reply (st m)) as [[q v]|]; [by injection H1 as <- <-|]. destruct (admission_reply (st m)) as [[q v]|]; [by injection H1 as <- <-|].
  destruct (_ =? _); by injection H1 as <- <-.
Qed.
(** A step through which the execution thread sleeps. *)
Lemma asleep_step w w' : step epoch_id nonce w w' -> exec w' = EAsleep ->
  (exec w = EAsleep /\ same_stop (st (mem w)) (st (mem w'))) \/ (exec w = EAwake /\ stop_pending (st (mem w')) = false) \/
  exists a wire, exec w = EDraining a wire /\ stop_attempt (st (mem w')) = stop_attempt (st (mem w)) /\
    (stop_pending (st (mem w')) = true -> a < stop_attempt (st (mem w))).
Proof.
  intros [x [f m' n Hi H|f m' e Hi H|Hi|Hi|m' l' pc n H|m' l' pc n H|m' l' pc n H|]] Hs; cbn in Hs |- *.
  - apply wake_exec_asleep in Hs as [-> He]. apply input_frame_received in H as [-> _]. by left.
  - left. split; [done|]. apply input_frame_refuses in H as (k & _ & -> & _). done.
  - by left.
  - by apply wake_exec_asleep in Hs as [? ?].
  - subst pc. right. inversion H as [|why|m0 pc0 n0 H0|a wi|a wi e0 m0 pc0 n0 H0| |p m0 pc0 l0 H0| | | | | | | | | |]; subst.
    + left. split; [done|]. unfold exec_turn, dispatch_or_wait in H0. destruct (stop_pending (st (mem w))) eqn:Hp; [done|].
      destruct (dispatch _) as [[p s]|]; [done|]. by injection H0 as <- <-.
    + right. exists a, wi. split; [done|]. unfold dispatch_or_wait in H0. destruct (dispatch _) as [[p s]|]; [done|].
      injection H0 as <- <-. split; [done|]. cbn. unfold stop_pending. cbn. by intros [Hlt%Z.ltb_lt _]%andb_true_iff.
    + unfold exec_begin in H0. by destruct (_ && _).
  - apply wake_exec_asleep in Hs as [-> He]. left. split; [done|]. by eapply output_same_stop.
  - apply wake_exec_asleep in Hs as [-> He]. left. split; [done|]. by eapply control_same_stop.
  - by apply wake_exec_asleep in Hs as [? ?].
Qed.
Lemma asleep_next w w' : step epoch_id nonce w w' -> exec w = EAsleep -> exec w' = EAsleep \/ exec w' = EAwake.
Proof.
  intros [x [f m' n Hi H|f m' e Hi H|Hi|Hi|m' l' pc n H|m' l' pc n H|m' l' pc n H|]] Hs; cbn; rewrite Hs in *; cbn;
    try (by destruct n; auto); auto. by inversion H.
Qed.
Lemma asleep_overlooked w : reachable epoch_id nonce w -> exec w = EAsleep -> stop_pending (st (mem w)) = true -> overlooked w.
Proof.
  intros Hr. induction Hr as [|w1 w2 Hr IH Hstep]; [done|]. intros Hs Hp. destruct (asleep_step _ _ Hstep Hs) as [[He [Hq Ha]]|[[_ ?]|(a & wi & He & Ha & Hlt)]].
  - rewrite Hq in Hp. destruct (IH He Hp) as (v1 & v2 & a & wi & H1 & H2 & H3 & H4 & H5 & H6). exists v1, v2, a, wi. split_and!; try done.
    by eapply dozes_next.
  - congruence.
  - exists w1, w2, a, wi. split_and!; try done; [by apply Hlt|by apply dozes_refl].
Qed.

(** ** What an operation goes through *)

(** How one step moves operations: into the queue with a fresh sequence, from the
    queue to the execution thread, and from there to the engine. *)
Record moves (w w' : World) : Prop := {
  mv_last : last_sequence (st (mem w)) <= last_sequence (st (mem w'));
  mv_queued : forall p, queued (st (mem w')) = Some p ->
    queued (st (mem w)) = Some p \/ last_sequence (st (mem w)) < p_sequence p;
  mv_dispatched : forall p, exec w' = EDispatched p -> exec w = EDispatched p \/ queued (st (mem w)) = Some p;
  mv_executed : executed (log w') = executed (log w) \/
    exists p, exec w = EDispatched p /\ (raised (p_cancel p) (mem w) && negb (is_cleanup (p_operation p)) = false) /\
      executed (log w') = executed (log w) ++ [(p_sequence p, p_operation p)];
  mv_stop : 0 < stop_attempt (st (mem w)) -> 0 < stop_attempt (st (mem w'));
  mv_affirmed : affirmed (log w) = true -> affirmed (log w') = true;
}.

(** A state in which no operation is new and no stop is withdrawn. *)
Record shrinks (s s' : State) : Prop := {
  sh_last : last_sequence s <= last_sequence s';
  sh_queued : forall p, queued s' = Some p -> queued s = Some p;
  sh_stop : 0 < stop_attempt s -> 0 < stop_attempt s';
}.
Lemma shrinks_trans a b c : shrinks a b -> shrinks b c -> shrinks a c.
Proof. intros [] []. split; [lia|auto..]. Qed.
Lemma core_shrinks s s' : same_core s s' -> shrinks s s'.
Proof. intros []. split; [done|congruence|lia]. Qed.
Lemma stopped_shrinks m m' : stopped m m' -> shrinks (st m) (st m').
Proof.
  intros [_ Ha _ Hq _ Hl _ _ _ _]. split; rewrite ?Hl, ?Ha, ?Hq; [lia| |unfold u64_max; lia]. by destruct (droppable _).
Qed.
Lemma shared_fail_shrinks m why : shrinks (st m) (st (shared_fail why m)).
Proof. eapply shrinks_trans; [|apply stopped_shrinks, stop_stopped]. apply core_shrinks. by split. Qed.
Lemma close_input_shrinks m : shrinks (st m) (st (close_input m)).
Proof.
  unfold close_input. destruct (_ && _); [|apply core_shrinks; by split].
  eapply shrinks_trans; [|apply stopped_shrinks, stop_stopped]. apply core_shrinks. by split.
Qed.
Lemma output_shrinks m l o m' l' o' n : output_step m l o m' l' o' n -> shrinks (st m) (st m').
Proof.
  intros [m1 pc H|q b|q b why]; [|apply core_shrinks, same_core_refl|apply shared_fail_shrinks]. unfold output_turn in H.
  destruct (retained (st m)) as [r|]; [destruct (result_sent r)|]; [|by injection H as <- _|]; by injection H as <- _.
Qed.
Lemma control_shrinks m l c m' l' c' n : control_step m l c m' l' c' n -> shrinks (st m) (st m').
Proof.
  intros [seen m1 pc H|q v d seen H|q v d seen why]; [|apply core_shrinks, same_core_refl|apply shared_fail_shrinks].
  unfold control_turn in H. destruct (store_reply _) as [[q v]|]; [by injection H as <- _|].
  destruct (admission_reply _) as [[q v]|]; [by injection H as <- _|]. destruct (_ =? _); by injection H as <- _.
Qed.
Lemma control_step_log m l c m' l' c' n :
  control_step m l c m' l' c' n ->
  executed l' = executed l /\ completed l' = completed l /\ affirmed l' = affirmed l /\ results l' = results l.
Proof. by intros []. Qed.

Lemma moves_shrinks w w' :
  shrinks (st (mem w)) (st (mem w')) -> executed (log w') = executed (log w) -> affirmed (log w') = affirmed (log w) ->
  (forall p, exec w' = EDispatched p -> exec w = EDispatched p) -> moves w w'.
Proof. intros [] He Ha Hx. split; [done|by left; auto|by left; auto|by left|done|congruence]. Qed.
Lemma wake_exec_dispatched n e p : wake_exec n e = EDispatched p -> e = EDispatched p.
Proof. by destruct e, n. Qed.

Lemma stopped_changed m m' : st m' = changed (st (stop m)) -> cells m' = cells (stop m) -> stopped m m'.
Proof. intros Hs Hc. destruct (stop_stopped m). split; rewrite ?Hs, ?Hc; done. Qed.
Lemma received_moves f w w' :
  received f (mem w) (mem w') -> executed (log w') = executed (log w) -> affirmed (log w') = affirmed (log w) ->
  (forall p, exec w' = EDispatched p -> exec w = EDispatched p) -> moves w w'.
Proof.
  intros [Hc Hf|p c Hadm Hlt Hcell Hcs Hc|r _ _ Hr Hc Hcs|r sent Hr Hc Hcs|m1 Hc Hcs Hst Hcs'] He Ha Hx.
  - by apply moves_shrinks; [apply core_shrinks|..].
  - destruct Hc as [? ? Hq ? Hl ? ? ?]. cbn in *. split; [lia| |by left; auto|by left|congruence|congruence].
    rewrite Hq. intros p' [= <-]. by right.
  - apply moves_shrinks; [|done..]. eapply shrinks_trans; [|apply core_shrinks, Hc]. by split.
  - apply moves_shrinks; [|done..]. eapply shrinks_trans; [|apply core_shrinks, Hc]. by split.
  - apply moves_shrinks; [|done..]. eapply shrinks_trans; [apply core_shrinks, Hc|].
    by apply stopped_shrinks, stopped_changed.
Qed.
Lemma dispatch_or_wait_moves m m' pc n :
  dispatch_or_wait m = (m', pc, n) -> shrinks (st m) (st m') /\ (forall p, pc = EDispatched p -> queued (st m) = Some p).
Proof.
  unfold dispatch_or_wait, dispatch. destruct (_ && _); [|by intros [= <- <- <-]].
  destruct (queued (st m)) as [q|] eqn:Hq; [|by intros [= <- <- <-]].
  intros [= <- <- <-]. split; [|by intros p [= <-]]. split; cbn; destruct (p_operation q); done.
Qed.
Lemma exec_moves w w' n :
  exec_step epoch_id (mem w) (log w) (exec w) (mem w') (log w') (exec w') n -> moves w w'.
Proof.
  destruct w as [m l i e o c], w' as [m' l' i' e' o' c']. cbn. intros H.
  destruct H as [|why|m' pc n H|a w|a w e m' pc n H| |p m' pc l' H|p ctx a m' r H|p ctx x m' r H
    |p ctx x m' r H|p ctx root m' r H|p ctx r|p r b H|p r e H|pc H| |why];
    try (split; cbn; [done|by left|done|by left|done|done]).
  - apply moves_shrinks; [|done..]. cbn. destruct (_ =? _); by split.
  - unfold exec_turn in H. destruct (stop_pending _); [by injection H as <- <- <-; apply moves_shrinks|].
    apply dispatch_or_wait_moves in H as [[] Hd]. split; cbn; [done|by left; auto|by right; auto|by left|done|done].
  - apply dispatch_or_wait_moves in H as [[] Hd]. split; cbn; [done|by left; auto|by right; auto|by left|done|done].
  - unfold exec_begin in H. destruct (_ && _) eqn:Hc; injection H as <- <- <-.
    + apply moves_shrinks; [|done..]. apply core_shrinks, abandon_core.
    + split; cbn; [done|by left|done| |done|done]. right. by exists p.
  - apply reports_run in H as [? ?]; [by apply moves_shrinks; [apply core_shrinks|..]|apply publish_admission_reports].
  - apply reports_run in H as [? ?]; [by apply moves_shrinks; [apply core_shrinks|..]|apply publish_store_reports].
  - apply reports_run in H as [? ?]; [by apply moves_shrinks; [apply core_shrinks|..]|apply publish_objects_reports].
  - apply reports_run in H as [? ?]; [by apply moves_shrinks; [apply core_shrinks|..]|apply clear_store_reports].
Qed.
Lemma step_moves w w' : step epoch_id nonce w w' -> moves w w'.
Proof.
  intros [a [f m' n Hi H|f m' e Hi H|Hi|Hi|m' l' pc n H|m' l' pc n H|m' l' pc n H|]].
  - apply input_frame_received in H. destruct n.
    + eapply (received_moves f); [done..|]. cbn. eauto using wake_exec_dispatched.
    + destruct H as [Hs _]. apply moves_shrinks; [cbn; by rewrite Hs|done..|]. cbn. eauto using wake_exec_dispatched.
  - apply input_frame_refuses in H as (n & Hn & Hs & _).
    apply moves_shrinks; [apply core_shrinks; cbn; rewrite Hs; by split|done..].
  - by apply moves_shrinks.
  - apply moves_shrinks; cbn; [apply close_input_shrinks|done..|]. eauto using wake_exec_dispatched.
  - by eapply exec_moves.
  - destruct (output_step_log _ _ _ _ _ _ _ H) as (He & _ & Ha & _).
    apply moves_shrinks; cbn; [by eapply output_shrinks|done..|]. eauto using wake_exec_dispatched.
  - destruct (control_step_log _ _ _ _ _ _ _ H) as (He & _ & Ha & _).
    apply moves_shrinks; cbn; [by eapply control_shrinks|done..|]. eauto using wake_exec_dispatched.
  - apply moves_shrinks; cbn; [done..|]. eauto using wake_exec_dispatched.
Qed.
End Safety.
