(* ===== verification/FsPromises.v ===== *)
(** The promises of the filesystem helper (src/src/filesystem_worker/process.rs)
    as theorems about every reachable world, and a concrete run in which each of
    them is exercised. *)
From stdpp Require Import base tactics option list numbers strings sorting.
From Stdlib Require Import ZArith Lia.
From S2P Require Import Prelude Bytes FsWire FsOps FsProcess FsFrames FsHelper FsSafety.

Open Scope Z_scope.
Local Open Scope prog_scope.

Section Promises.
Context {ENGINE : Engine} {CODEC : HelperCodec} (nonce : list Z) (epoch_id : LeaseId).

(** ** Along the steps *)

(** A sequence that the helper has seen and that waits nowhere. *)
Definition settled (n : Z) (w : World) : Prop :=
  n <= last_sequence (st (mem w)) /\ (forall p, queued (st (mem w)) = Some p -> p_sequence p <> n) /\
  (forall p, exec w = EDispatched p -> p_sequence p <> n).

Lemma settled_step n w w' :
  step epoch_id nonce w w' -> settled n w ->
  settled n w' /\ (forall o, (n, o) ∈ executed (log w') -> (n, o) ∈ executed (log w)).
Proof.
  intros H%step_moves (S1 & S2 & S3). destruct H as [M1 M2 M3 M4 _ _]. split; [split_and!|].
  - lia.
  - intros p [Hp|Hp]%M2; [auto|lia].
  - intros p [Hp|Hp]%M3; auto.
  - intros o. destruct M4 as [->|(p & Hp & _ & ->)]; [done|]. intros [Ho|[= Hn _]]%elem_snoc; [done|].
    by destruct (S3 p Hp).
Qed.
Lemma settled_steps n w w' :
  steps epoch_id nonce w w' -> settled n w ->
  settled n w' /\ (forall o, (n, o) ∈ executed (log w') -> (n, o) ∈ executed (log w)).
Proof.
  intros H Hs. induction H as [|w1 w2 H1 IH H2]; [done|]. destruct IH as [IH1 IH2].
  destruct (settled_step _ _ _ H2 IH1) as [S1 S2]. split; [done|auto].
Qed.

(** Once a stop was requested. *)
Lemma stopping_step w w' :
  world_inv w -> step epoch_id nonce w w' -> 0 < stop_attempt (st (mem w)) ->
  0 < stop_attempt (st (mem w')) /\
  exists more, executed (log w') = executed (log w) ++ more /\ Forall (fun x => is_cleanup x.2 = true) more.
Proof.
  intros Hw H%step_moves Hs. destruct H as [M1 M2 M3 M4 M5 _]. split; [auto|].
  destruct M4 as [->|(p & Hp & Hc & ->)]; [exists []; by rewrite app_nil_r|]. eexists. split; [done|].
  apply Forall_singleton. cbn. destruct (hi_raised _ _ _ _ (wi_helper _ Hw) p Hp Hs) as [|Hr]; [done|].
  unfold raised in Hc. rewrite Hr in Hc. by destruct (is_cleanup _).
Qed.
Lemma stopping_steps w w' :
  world_inv w -> steps epoch_id nonce w w' -> 0 < stop_attempt (st (mem w)) ->
  0 < stop_attempt (st (mem w')) /\
  exists more, executed (log w') = executed (log w) ++ more /\ Forall (fun x => is_cleanup x.2 = true) more.
Proof.
  intros Hw H Hs. induction H as [|w1 w2 H1 IH H2]; [split; [done|exists []; by rewrite app_nil_r]|].
  destruct IH as [IH (xs & Hxs & Fx)]. assert (world_inv w1) as Hw1 by (by eapply world_steps).
  destruct (stopping_step _ _ Hw1 H2 IH) as [S1 (ys & Hys & Fy)]. split; [done|].
  exists (xs ++ ys). rewrite Hys, Hxs, (assoc_L (++)). split; [done|]. by apply Forall_app.
Qed.

(** Once the engine affirmed that it holds nothing. *)
Lemma affirmed_steps w w' :
  world_inv w -> steps epoch_id nonce w w' -> affirmed (log w) = true ->
  affirmed (log w') = true /\ executed (log w') = executed (log w).
Proof.
  intros Hw H Ha. induction H as [|w1 w2 H1 IH H2]; [done|]. destruct IH as [IH1 IH2].
  assert (world_inv w1) as Hw1 by (by eapply world_steps). apply step_moves in H2 as [_ _ _ M4 _ M6].
  split; [auto|]. destruct M4 as [->|(p & Hp & _)]; [done|].
  destruct (hi_affirmed _ _ _ _ (wi_helper _ Hw1) IH1) as [Hr|Hb]; rewrite Hp in *; done.
Qed.

(** *** A retained result *)

Definition holds (r : Retained) (s : State) : Prop :=
  exists sent, retained s = Some (mkRetained (info r) (result_bytes r) sent).
Lemma holds_kept r s s' : retained s = Some r -> retained s' = retained s -> holds r s'.
Proof. intros Hr He. exists (result_sent r). rewrite He, Hr. by destruct r. Qed.
Lemma stopped_holds r m m' : stopped m m' -> retained (st m) = Some r -> holds r (st m').
Proof. intros Hs Hr. eapply holds_kept; [exact Hr|apply Hs]. Qed.
Lemma received_holds f m m' r :
  received f m m' -> retained (st m) = Some r ->
  holds r (st m') \/ retained (st m') = None /\ kind f = Ack /\
                     decode_ack (payload f) = Ok (r_sequence (info r), r_blake3 (info r)).
Proof.
  intros [Hc Hf|p c Hadm Hlt Hcell Hcs Hc|r' Hk Hd Hr' Hc Hcs|r' sent Hr' Hc Hcs|m1 Hc Hcs Hst Hcs'] Hr.
  - left. eapply holds_kept; [exact Hr|apply Hc].
  - left. eapply holds_kept; [exact Hr|]. by rewrite (sc_retained _ _ Hc).
  - right. rewrite Hr in Hr'. injection Hr' as <-. by rewrite (sc_retained _ _ Hc).
  - left. rewrite Hr in Hr'. injection Hr' as <-. exists sent. by rewrite (sc_retained _ _ Hc).
  - left. eapply stopped_holds; [eapply stopped_changed; [exact Hst|exact Hcs']|]. by rewrite (sc_retained _ _ Hc).
Qed.
Lemma exec_holds m l e m' l' e' n r :
  helper_inv (st m) (cells m) e l -> exec_step epoch_id m l e m' l' e' n -> retained (st m) = Some r ->
  holds r (st m') /\ executed l' = executed l /\ completed l' = completed l.
Proof.
  intros Hi H Hr. assert (forall p, current e <> Some p) as Hc.
  { intros p Hp. destruct (hi_current _ _ _ _ Hi p Hp) as (_ & _ & _ & _ & Hn & _). congruence. }
  assert (forall a m1 pc k, dispatch_or_wait (upd a m) = (m1, pc, k) -> retained (a (st m)) = Some r -> st m1 = a (st m)) as Hd.
  { intros a m1 pc k. unfold dispatch_or_wait, dispatch. cbn. intros H1 H2. rewrite H2, andb_false_r in H1. by injection H1 as <-. }
  destruct H as [|why|m' pc n H|a w|a w e m' pc n H| |p m' pc l' H|p ctx a m' y H|p ctx x m' y H
    |p ctx x m' y H|p ctx root m' y H|p ctx o|p o b H|p o e H|pc H| |why]; try (by destruct (Hc p));
    try (split_and!; [by eapply holds_kept|done|done]).
  - split_and!; [|done|done]. eapply holds_kept; [exact Hr|]. cbn. by destruct (_ =? _).
  - split_and!; [|done|done]. eapply holds_kept; [exact Hr|]. unfold exec_turn in H.
    destruct (stop_pending _); [by injection H as <-|].
    assert (upd (fun s => s) m = m) as Hm by by destruct m.
    rewrite <- Hm in H. by rewrite (Hd (fun s => s) _ _ _ H Hr).
  - split_and!; [|done|done]. eapply holds_kept; [exact Hr|]. by rewrite (Hd _ _ _ _ H Hr).
Qed.
Lemma output_holds m l o m' l' o' n r :
  output_step m l o m' l' o' n -> retained (st m) = Some r -> holds r (st m').
Proof.
  intros [m1 pc H|q b|q b why] Hr; [|by eapply holds_kept|].
  - unfold output_turn in H. rewrite Hr in H. destruct (result_sent r).
    + destruct (execution_done _); injection H as <- _; by eapply holds_kept.
    + injection H as <- _. by exists true.
  - unfold shared_fail. eapply stopped_holds; [apply stop_stopped|done].
Qed.
Lemma control_holds m l c m' l' c' n r :
  control_step m l c m' l' c' n -> retained (st m) = Some r -> holds r (st m').
Proof.
  intros [seen m1 pc H|q v d seen H|q v d seen why] Hr; [|by eapply holds_kept|].
  - unfold control_turn in H. destruct (store_reply _) as [[q v]|]; [injection H as <- _; by eapply holds_kept|].
    destruct (admission_reply _) as [[q v]|]; [injection H as <- _; by eapply holds_kept|].
    destruct (_ =? _); injection H as <- _; by eapply holds_kept.
  - unfold shared_fail. eapply stopped_holds; [apply stop_stopped|done].
Qed.
Lemma close_holds m r : retained (st m) = Some r -> holds r (st (close_input m)).
Proof.
  intros Hr. unfold close_input. destruct (_ && _); [|by eapply holds_kept].
  eapply stopped_holds; [apply stop_stopped|done].
Qed.

Lemma step_holds w w' r :
  world_inv w -> step epoch_id nonce w w' -> retained (st (mem w)) = Some r ->
  executed (log w') = executed (log w) /\ completed (log w') = completed (log w) /\
  (holds r (st (mem w')) \/
   retained (st (mem w')) = None /\
   exists f, input_frame nonce epoch_id f (mem w) = (mem w', Ok true) /\ kind f = Ack /\
     decode_ack (payload f) = Ok (r_sequence (info r), r_blake3 (info r))).
Proof.
  intros Hw [a [f m' n Hi H|f m' e Hi H|Hi|Hi|m' l' pc n H|m' l' pc n H|m' l' pc n H|]] Hr; cbn.
  - split_and!; [done|done|]. pose proof H as Hf. apply input_frame_received in H. destruct n.
    + destruct (received_holds _ _ _ _ H Hr) as [|(? & ? & ?)]; [by left|right]. eauto.
    + destruct H as [Hs _]. left. eapply holds_kept; [exact Hr|by rewrite Hs].
  - split_and!; [done|done|left]. apply input_frame_refuses in H as (n & Hn & Hs & _).
    eapply holds_kept; [exact Hr|by rewrite Hs].
  - split_and!; [done|done|left]. by eapply holds_kept.
  - split_and!; [done|done|left]. by apply close_holds.
  - destruct (exec_holds _ _ _ _ _ _ _ _ (wi_helper _ Hw) H Hr) as (? & ? & ?). split_and!; [done|done|by left].
  - destruct (output_step_log _ _ _ _ _ _ _ H) as (? & ? & _). split_and!; [done|done|left]. by eapply output_holds.
  - destruct (control_step_log _ _ _ _ _ _ _ H) as (? & ? & _). split_and!; [done|done|left]. by eapply control_holds.
  - split_and!; [done|done|left]. by eapply holds_kept.
Qed.
(** ** The promises *)

(** C23. An operation runs at most once: the sequences handed to the engine only
    grow, and a sequence that the helper has seen and that waits neither in the
    queue nor for its first step (it was executed, rejected, repeated or dropped
    by a stop) is never handed to the engine again, whatever the client sends
    and however the threads interleave. *)
Theorem at_most_once w w' n :
  reachable epoch_id nonce w -> settled n w -> steps epoch_id nonce w w' ->
  StronglySorted Z.lt (executed (log w')).*1 /\
  (forall o, (n, o) ∈ executed (log w') -> (n, o) ∈ executed (log w)).
Proof.
  intros Hr%world_reachable Hs Hw. split; [|by eapply settled_steps].
  eapply hi_order, wi_helper, world_steps, Hw. done.
Qed.

(** C24. Once a stop was requested every operation that still reaches the engine
    is a cleanup, for ever after. *)
Theorem stop_blocks_work w w' :
  reachable epoch_id nonce w -> 0 < stop_attempt (st (mem w)) -> steps epoch_id nonce w w' ->
  exists more, executed (log w') = executed (log w) ++ more /\ Forall (fun x => is_cleanup x.2 = true) more.
Proof. intros Hr%world_reachable Hs Hw. by eapply stopping_steps. Qed.

(** A result is held until it is acknowledged: what the output thread wrote
    was produced, one result for a sequence; the retained result is the last one
    produced, described by its own length and digest; and while it is retained
    no step executes or completes another operation, and only an [Ack] frame
    naming its sequence and digest releases it. *)
Theorem results_held w w' r :
  reachable epoch_id nonce w -> retained (st (mem w)) = Some r -> step epoch_id nonce w w' ->
  (forall x, x ∈ results (log w) -> x ∈ completed (log w)) /\ StronglySorted Z.lt (completed (log w)).*1 /\
  (exists before, completed (log w) = before ++ [(r_sequence (info r), result_bytes r)]) /\
  info r = mkInfo (r_sequence (info r)) (zlen (result_bytes r)) (hash_hex (result_bytes r)) /\
  executed (log w') = executed (log w) /\ completed (log w') = completed (log w) /\
  (holds r (st (mem w')) \/
   retained (st (mem w')) = None /\
   exists f, input_frame nonce epoch_id f (mem w) = (mem w', Ok true) /\ kind f = Ack /\
     decode_ack (payload f) = Ok (r_sequence (info r), r_blake3 (info r))).
Proof.
  intros Hw%world_reachable Hr H. destruct (step_holds _ _ _ Hw H Hr) as (He & Hc & Hh).
  destruct (hi_retained _ _ _ _ (wi_helper _ Hw) r Hr) as [Hi Hb].
  destruct (hi_completed _ _ _ _ (wi_helper _ Hw)) as [Ho _]. split_and!; try done. apply (wi_results _ Hw).
Qed.

(** C25. The process retires only when its engine affirmed that it holds no live
    admission: that is so whenever the phase is [Stopped] or the execution
    thread has ended normally, and then no operation is executed any more. *)
Theorem checked_retirement w w' :
  reachable epoch_id nonce w -> phase (st (mem w)) = Stopped \/ exec w = EExited -> steps epoch_id nonce w w' ->
  affirmed (log w) = true /\ executed (log w') = executed (log w).
Proof.
  intros Hw%world_reachable Hs H. assert (affirmed (log w) = true) as Ha.
  { destruct Hs as [Hp|He]; [by apply (hi_stopped _ _ _ _ (wi_helper _ Hw))|].
    apply (hi_retiring _ _ _ _ (wi_helper _ Hw)). by rewrite He. }
  split; [done|]. by eapply affirmed_steps.
Qed.

(** C26. No thread sleeps through its work: while the execution thread sleeps
    nothing may be dispatched, and no stop waits but one that came while
    [Handler::shutdown] worked on an earlier attempt, which then failed and put the
    thread to sleep: it has slept ever since, and no other stop came.  So every stop
    that comes while the thread sleeps wakes it.  While the output thread sleeps no
    result is unsent and execution is not over; while the control thread sleeps no
    reply waits and the last report is current. *)
Theorem no_lost_wakeup w :
  reachable epoch_id nonce w ->
  (exec w = EAsleep ->
     dispatch (st (mem w)) = None /\ (stop_pending (st (mem w)) = true -> overlooked nonce epoch_id w)) /\
  (forall w', exec w = EAsleep -> step epoch_id nonce w w' -> stop_attempt (st (mem w')) <> stop_attempt (st (mem w)) ->
     exec w' = EAwake) /\
  (output w = OAsleep ->
     (forall r, retained (st (mem w)) = Some r -> result_sent r = true) /\ execution_done (st (mem w)) = false) /\
  (forall seen, control w = CAsleep seen ->
     store_reply (st (mem w)) = None /\ admission_reply (st (mem w)) = None /\ revision (st (mem w)) = seen).
Proof.
  intros Hr. pose proof (world_reachable _ _ _ Hr) as Hw. split_and!.
  - intros Hs. split; [by apply Hw|by apply asleep_overlooked].
  - intros w' Hs Hstep Hne. destruct (asleep_next _ _ _ _ Hstep Hs) as [Hs'|]; [|done].
    by destruct (asleep_step _ _ _ _ Hstep Hs') as [[_ [_ Ha]]|[[He _]|(a & wi & He & _)]]; [|congruence..].
  - apply Hw.
  - apply Hw.
Qed.
(** ** An executable scheduler *)

Inductive Action : Type :=
| AFrame (f : Frame) | AStart | ATurn | ABegin | AReturn (o : Outcome) | ARetain | ADrained | AFails (e : Failure)
| ARetire | AExit | AEnd | AClose | AOutput.

Definition after_exec (w : World) (r : Mem * Log * ExecPc * bool) : World :=
  let '(m, l, pc, n) := r in mkWorld m l (input w) pc (wake_output n (output w)) (wake_control n (control w)).
Definition perform (a : Action) (w : World) : option World :=
  let m := mem w in
  let l := log w in
  match a, exec w with
  | AFrame f, _ =>
      match input w, input_frame nonce epoch_id f m with
      | IReading, (m', Ok n) =>
          Some (mkWorld m' l IReading (wake_exec n (exec w)) (wake_output n (output w)) (wake_control n (control w)))
      | _, _ => None
      end
  | AStart, EStarting =>
      Some (after_exec w (upd (fun s => changed (if stop_attempt s =? 0 then set_phase ReadyPhase s else s)) m, l, EAwake, true))
  | ATurn, EAwake => let '(m', pc, n) := exec_turn m in Some (after_exec w (m', l, pc, n))
  | ABegin, EDispatched p => let '(m', pc, l') := exec_begin p m l in Some (after_exec w (m', l', pc, false))
  | AReturn o, EExecuting p ctx => Some (after_exec w (m, l, EResult p o, false))
  | ARetain, EResult p o =>
      match outcome_bytes o with
      | Ok b => Some (after_exec w (upd (retain p b) m,
          mkLog (executed l) (completed l ++ [(p_sequence p, b)]) (results l) (controls l) (affirmed l), EAwake, true))
      | Err _ => None
      end
  | ADrained, EDraining a' w' =>
      Some (after_exec w (upd (drained a' w') m,
        mkLog (executed l) (completed l) (results l) (controls l) true, ERetiring, false))
  | AFails e, EDraining a' w' =>
      let '(m', pc, n) := dispatch_or_wait (upd (drain_failed a' w' e) m) in Some (after_exec w (m', l, pc, true))
  | ARetire, ERetiring => Some (after_exec w (upd (fun s => changed (set_phase Stopped s)) m, l, EReturned, true))
  | AExit, EReturned => Some (after_exec w (upd (fun s => changed (set_execution_done true s)) m, l, EExited, true))
  | AEnd, _ => match input w with IReading => Some (mkWorld m l IClosing (exec w) (output w) (control w)) | _ => None end
  | AClose, _ =>
      match input w with
      | IClosing => Some (mkWorld (close_input m) l IClosed (wake_exec true (exec w)) (wake_output true (output w))
                            (wake_control true (control w)))
      | _ => None
      end
  | AOutput, _ =>
      match output w with
      | OAwake => let (m', pc) := output_turn m in
                  Some (mkWorld m' l (input w) (wake_exec false (exec w)) pc (wake_control false (control w)))
      | _ => None
      end
  | _, _ => None
  end.
(** The frame an action takes. *)
Definition action_label (a : Action) : option Frame := match a with AFrame f => Some f | _ => None end.
Lemma perform_labelled a w w' : perform a w = Some w' -> labelled_step epoch_id nonce w (action_label a) w'.
Proof.
  destruct w as [m l i e o c]. unfold perform. cbn. intros H.
  destruct a as [f| | | |r| | |x| | | | |]; [|destruct e as [| | |a w1| |p|p ctx|p r1| |why| |]; try done..| | |].
  - destruct i; try done. destruct (input_frame _ _ f m) as [m' [n|x]] eqn:Hf; [|done]. injection H as <-.
    by apply (step_frame epoch_id nonce (mkWorld m l IReading e o c) f).
  - injection H as <-. by apply (step_exec epoch_id nonce (mkWorld m l i EStarting o c)), exec_started.
  - destruct (exec_turn m) as [[m' pc] n] eqn:Ht. injection H as <-.
    by apply (step_exec epoch_id nonce (mkWorld m l i EAwake o c)), exec_takes_turn.
  - destruct (exec_begin p m l) as [[m' pc] l'] eqn:Ht. injection H as <-.
    by apply (step_exec epoch_id nonce (mkWorld m l i (EDispatched p) o c)), exec_begins.
  - injection H as <-. by apply (step_exec epoch_id nonce (mkWorld m l i (EExecuting p ctx) o c)), exec_returns.
  - destruct (outcome_bytes r1) as [b|x] eqn:Hb; [|done]. injection H as <-.
    by apply (step_exec epoch_id nonce (mkWorld m l i (EResult p r1) o c)), exec_retains.
  - injection H as <-. by apply (step_exec epoch_id nonce (mkWorld m l i (EDraining a w1) o c)), exec_drained.
  - destruct (dispatch_or_wait _) as [[m' pc] n] eqn:Ht. injection H as <-.
    apply (step_exec epoch_id nonce (mkWorld m l i (EDraining a w1) o c)). by eapply exec_drain_failed.
  - injection H as <-. by apply (step_exec epoch_id nonce (mkWorld m l i ERetiring o c)), exec_retired.
  - injection H as <-. by apply (step_exec epoch_id nonce (mkWorld m l i EReturned o c)), exec_exits.
  - destruct i; try done. injection H as <-. by apply (step_end_of_input epoch_id nonce (mkWorld m l IReading e o c)).
  - destruct i; try done. injection H as <-. by apply (step_close_input epoch_id nonce (mkWorld m l IClosing e o c)).
  - destruct o; try done. destruct (output_turn m) as [m' pc] eqn:Ht. injection H as <-.
    apply (step_output epoch_id nonce (mkWorld m l i e OAwake c) m' l pc false). by apply output_takes_turn.
Qed.
Lemma perform_step a w w' : perform a w = Some w' -> step epoch_id nonce w w'.
Proof. intros H. eexists. by eapply perform_labelled. Qed.
Fixpoint perform_all (schedule : list Action) (w : World) : option World :=
  match schedule with
  | [] => Some w
  | a :: rest => match perform a w with Some w' => perform_all rest w' | None => None end
  end.
Lemma steps_from w w1 w2 : step epoch_id nonce w w1 -> steps epoch_id nonce w1 w2 -> steps epoch_id nonce w w2.
Proof. intros H Hs. induction Hs as [|w2 w3 _ IH H2]; [eapply steps_next; [apply steps_refl|done]|by eapply steps_next]. Qed.
Lemma perform_all_steps schedule w w' : perform_all schedule w = Some w' -> steps epoch_id nonce w w'.
Proof.
  revert w. induction schedule as [|a rest IH]; cbn; intros w H; [injection H as <-; apply steps_refl|].
  destruct (perform a w) as [w1|] eqn:Ha; [|done]. eapply steps_from; [by eapply perform_step|by apply IH].
Qed.
End Promises.

(** ** A run *)

Module Demo.
Definition root : string := "root".
#[export] Instance paths : Paths := {|
  NativePath := string; path_eq_dec := _; validate_path := fun _ => Ok tt;
  is_catalog_of := fun _ _ => true; is_manifest := fun _ => true |}.
Definition capability : RootCapability := mkRoot "epoch" "token" "session" "root" (Unix 1 2) (Unix 1 3).
#[export] Instance engine : Engine := {|
  engine_paths := paths; Request := fun _ => unit; cleanup := fun _ _ => false;
  request_root := fun _ _ => capability; request_operation := fun _ _ => 1;
  PrepareRest := unit; RoleObservations := unit; StoreStatus := unit; StoreSnapshot := unit; ObjectSnapshot := unit;
  store_status := fun _ _ => Ok tt; object_status := fun _ _ => Ok tt; status_valid := fun _ _ => Ok tt;
  Response := unit; hash_hex := fun _ => "digest"%string |}.
(** One byte says which operation a message holds. *)
#[export] Instance codec : HelperCodec := {|
  decode_operation := fun b => match b with
                               | [0] => Ok (RequireJobsReleased capability)
                               | [1] => Ok (ReleaseRoot capability)
                               | _ => Err "operation"%string
                               end;
  validate_operation := fun _ => Ok tt;
  decode_ack := fun b => match b with [q] => Ok (q, "digest"%string) | _ => Err "ack"%string end;
  decode_query := fun _ => Err "query"%string;
  decode_admission_query := fun _ => Err "query"%string;
  encode_outcome := fun o => Ok [if o is Ok _ then 7 else 8];
  encode_control := fun _ => Ok [] |}.
Definition nonce : list Z := [1; 2; 3].
Definition frame k q b : Frame := mkFrame k nonce q 0 (zlen b) b.

(** The world after a schedule, from the start of the process. *)
Definition after (schedule : list Action) : World :=
  default initial_world (perform_all nonce "epoch" schedule initial_world).
Lemma after_reachable schedule :
  perform_all nonce "epoch" schedule initial_world = Some (after schedule) -> reachable "epoch" nonce (after schedule).
Proof. apply perform_all_steps. Qed.
Lemma after_steps a b :
  perform_all nonce "epoch" b (after a) = Some (after (a ++ b)) -> steps "epoch" nonce (after a) (after (a ++ b)).
Proof. apply perform_all_steps. Qed.

Definition success : Outcome := Ok (tt : Response).
Definition job : list Action := [AStart; AFrame (frame Execute 5 [0]); ATurn].
Definition executing : list Action := job ++ [ABegin].
Definition retaining : list Action := executing ++ [AReturn success; ARetain].
Definition stopping : list Action := job ++ [AFrame (frame Stop 1 [])].
Definition canceled : list Action :=
  [ABegin; ARetain; AFrame (frame Ack 5 [5]); AFrame (frame Execute 6 [1]); ATurn; ABegin].
Definition draining : list Action := [AStart; AFrame (frame Stop 1 []); ATurn].
End Demo.


Import Demo.

(** A finished operation that is sent again, and a new one. *)
Lemma at_most_once_witness :
  (executed (log (after executing))).*1 = [5] /\
  (forall o, (5, o) ∈ executed (log (after (retaining ++ [AFrame (frame Execute 5 [1])]))) ->
             (5, o) ∈ executed (log (after executing))).
Proof.
  split; [by vm_compute|].
  apply (at_most_once nonce "epoch" (after executing) (after (executing ++ [AReturn success; ARetain; AFrame (frame Execute 5 [1])])) 5).
  - apply after_reachable. by vm_compute.
  - split_and!; [by vm_compute|by vm_compute|by vm_compute].
  - apply after_steps. by vm_compute.
Defined.
(** A stop cancels the operation that was dispatched; a cleanup still runs. *)
Lemma stop_blocks_work_witness :
  (executed (log (after (stopping ++ canceled)))).*1 = [6] /\
  exists more, executed (log (after (stopping ++ canceled))) = executed (log (after stopping)) ++ more /\
    Forall (fun x => is_cleanup x.2 = true) more.
Proof.
  split; [by vm_compute|]. apply (stop_blocks_work nonce "epoch" (after stopping)).
  - apply after_reachable. by vm_compute.
  - by vm_compute.
  - apply after_steps. by vm_compute.
Defined.
(** An acknowledged result. *)
Lemma results_held_witness :
  results (log (after retaining)) = [] /\
  exists before, completed (log (after retaining)) = before ++ [(5, [7])].
Proof.
  split; [by vm_compute|].
  destruct (results_held nonce "epoch" (after retaining) (after (retaining ++ [AFrame (frame Ack 5 [5])]))
    (mkRetained (mkInfo 5 1 "digest") [7] false)) as (_ & _ & H & _); [..|exact H].
  - apply after_reachable. by vm_compute.
  - by vm_compute.
  - eapply (perform_step nonce "epoch" (AFrame (frame Ack 5 [5]))). by vm_compute.
Defined.
(** A clean retirement. *)
Lemma checked_retirement_witness :
  phase (st (mem (after (draining ++ [ADrained; ARetire])))) = Stopped /\
  affirmed (log (after (draining ++ [ADrained; ARetire]))) = true.
Proof.
  split; [by vm_compute|].
  apply (checked_retirement nonce "epoch" _ (after ((draining ++ [ADrained; ARetire]) ++ [AExit]))).
  - apply after_reachable. by vm_compute.
  - left. by vm_compute.
  - apply after_steps. by vm_compute.
Defined.
(** The execution thread sleeps once its result is retained. *)
Lemma no_lost_wakeup_witness :
  exec (after (retaining ++ [ATurn])) = EAsleep /\ dispatch (st (mem (after (retaining ++ [ATurn])))) = None.
Proof.
  assert (exec (after (retaining ++ [ATurn])) = EAsleep) as He by by vm_compute. split; [exact He|].
  destruct (no_lost_wakeup nonce "epoch" (after (retaining ++ [ATurn]))) as [H _]; [|by apply H].
  apply after_reachable. by vm_compute.
Defined.

(** The end of the input while [Handler::shutdown] works on a stop and fails: no
    thread serves the stop that the end of the input requested.  The execution
    thread sleeps with the attempt pending and no frame can wake it any more. *)
Lemma end_during_drain_sleeps :
  let w := after (draining ++ [AEnd; AClose; AFails (failure_says Rejected "busy")]) in
  reachable "epoch" nonce w /\ input w = IClosed /\ exec w = EAsleep /\ stop_pending (st (mem w)) = true /\
  phase (st (mem w)) = Stopping.
Proof. split; [apply after_reachable; by vm_compute|by vm_compute]. Qed.

(** A stop that arrives after the retirement takes the phase back to [Stopping] for
    good: nothing runs any more and [serve] then ends with an error. *)
Lemma stop_after_retirement :
  let w := after (draining ++ [ADrained; ARetire; AExit; AFrame (frame Stop 2 [])]) in
  reachable "epoch" nonce w /\ affirmed (log w) = true /\ exec w = EExited /\ phase (st (mem w)) = Stopping.
Proof. split; [apply after_reachable; by vm_compute|by vm_compute]. Qed.

(** An early cancellation survives the rejection of its operation, and then the
    early cancellation of the next operation closes the input. *)
Lemma rejected_early_cancel_blocks :
  let w := after [AStart; AFrame (frame Execute 5 [0]); AFrame (frame Cancel 6 []); AFrame (frame Execute 6 [0])] in
  reachable "epoch" nonce w /\ early_cancel (st (mem w)) = Some 6 /\ last_sequence (st (mem w)) = 6 /\
  (input_frame nonce "epoch" (frame Cancel 7 []) (mem w)).2 = Err "filesystem early cancel capacity exceeded"%string.
Proof. split; [apply after_reachable; by vm_compute|by vm_compute]. Qed.
