(* ===== verification/FsOrigin.v ===== *)
(** Where the operations and results of the filesystem helper come from
    (src/src/filesystem_worker/process.rs): what is executed was decoded from a
    message, and what is reported as a success was executed. *)
From stdpp Require Import base tactics option list numbers strings sorting.
From Stdlib Require Import ZArith Lia.
From S2P Require Import Prelude Bytes FsWire FsOps FsProcess FsFrames FsHelper FsSafety.

Open Scope Z_scope.
Local Open Scope prog_scope.

Section Origin.
Context {ENGINE : Engine} {CODEC : HelperCodec} (nonce : list Z) (epoch_id : LeaseId).

(** ** The assembly of the input thread *)

(** A program of the input or the execution thread that leaves the assembly alone. *)
Definition same_asm {A} (p : proc string Mem A) : Prop := forall m, asm (p m).1 = asm m.
Lemma same_asm_bind {A B} (p : proc string Mem A) (k : A -> proc string Mem B) :
  same_asm p -> (forall a, same_asm (k a)) -> same_asm (bind p k).
Proof. intros Hp Hk m. specialize (Hp m). unfold bind. destruct (p m) as [m1 [a|e]]; [|done]. cbn in Hp. rewrite <- Hp. apply Hk. Qed.
Lemma same_asm_const {A} (r : result string A) : same_asm (fun m => (m, r)).
Proof. done. Qed.
Lemma same_asm_upd f : same_asm (modify (upd f)).
Proof. done. Qed.
Lemma same_asm_modify f : (forall m, asm (f m) = asm m) -> same_asm (modify f).
Proof. done. Qed.
Lemma same_asm_get {A} (k : Mem -> proc string Mem A) : (forall m, same_asm (k m)) -> same_asm (bind get k).
Proof. intros Hk m. apply Hk. Qed.
Lemma same_asm_ret {A} (a : A) : same_asm (ret a).
Proof. done. Qed.
Lemma same_asm_lift {A} (r : result string A) : same_asm (lift r).
Proof. by destruct r. Qed.
Lemma same_asm_ensure b e : same_asm (ensure b e).
Proof. by destruct b. Qed.
Lemma same_asm_of_option {A} (o : option A) e : same_asm (of_option o e).
Proof. by destruct o. Qed.
Create HintDb same_asm.
Hint Resolve same_asm_upd same_asm_ret same_asm_lift same_asm_ensure same_asm_of_option : same_asm.
Ltac same_asm_step :=
  match goal with
  | |- same_asm (bind get _) => apply same_asm_get; intros ?
  | |- same_asm (bind _ _) => apply same_asm_bind; [|intros ?]
  | |- same_asm (if ?b then _ else _) => destruct b
  | |- same_asm (match ?x with _ => _ end) => destruct x
  | |- same_asm (modify _) => first [apply same_asm_upd | apply same_asm_modify; intros ?; cbn]
  | |- same_asm _ => solve [auto with same_asm nocore]
  end.
Ltac same_asm := repeat same_asm_step.
Ltac same_mem := repeat (case_match; cbn; try done).

Lemma stop_asm m : asm (stop m) = asm m.
Proof. unfold stop. cbn. destruct (active (st m)) as [[i c]|]; cbn; by destruct (droppable _). Qed.
Lemma close_input_asm m : asm (close_input m) = asm m.
Proof. unfold close_input. destruct (_ && _); [by rewrite stop_asm|done]. Qed.
Lemma reject_same_asm q why : same_asm (reject q why).
Proof. unfold reject. same_asm. Qed.
Lemma execute_message_same_asm q o : same_asm (execute_message q o).
Proof. unfold execute_message. same_asm; try apply reject_same_asm; done. Qed.
Lemma control_same_asm f : same_asm (cancel_frame f) /\ same_asm (ack_frame f) /\ same_asm (status_frame f) /\
  same_asm (store_status_frame epoch_id f) /\ same_asm (admission_status_frame f) /\ same_asm (stop_frame f).
Proof.
  split_and!; unfold cancel_frame, ack_frame, status_frame, store_status_frame, admission_status_frame, stop_frame; cbv zeta; same_asm; same_mem; by rewrite ?stop_asm.
Qed.
(** The assembly after a frame that was taken. *)
Definition next_asm (f : Frame) (a : option Assembly) : option Assembly :=
  match match a with Some a => Ok a | None => assembly_start f end with
  | Ok a => match assembly_push a f with Ok (a', false) => Some a' | _ => None end
  | Err _ => None
  end.
Lemma run_asm {A} (p : proc string Mem A) m m' r : same_asm p -> p m = (m', r) -> asm m' = asm m.
Proof. intros Hp H. specialize (Hp m). by rewrite H in Hp. Qed.
Lemma execute_frame_asm f m m' n : execute_frame f m = (m', Ok n) -> asm m' = next_asm f (asm m).
Proof.
  unfold execute_frame, next_asm. rewrite bind_get. intros H.
  apply bind_Ok_inv in H as (m1 & a & H1 & H).
  assert (m1 = m /\ match asm m with Some a => Ok a | None => assembly_start f end = Ok a) as [-> Ha].
  { destruct (asm m); [by injection H1 as <- <-|]. unfold io in H1. apply lift_Ok_inv in H1 as [H1 ->].
    split; [done|]. by destruct (assembly_start f); simplify_eq. }
  rewrite Ha. rewrite bind_modify in H. apply bind_Ok_inv in H as (m1 & r & H2 & H). unfold io in H2. apply lift_Ok_inv in H2 as [H2 ->].
  assert (assembly_push a f = Ok r) as -> by (by destruct (assembly_push a f); simplify_eq).
  rewrite bind_modify in H. destruct r as [a' [|]]; cbn [fst snd] in H; [|by injection H as <- <-]. rewrite bind_modify in H.
  apply bind_Ok_inv in H as (m1 & msg & H3 & H). unfold io in H3. apply lift_Ok_inv in H3 as [_ ->].
  apply bind_Ok_inv in H as (m1 & o & [_ ->]%lift_Ok_inv & H). apply bind_Ok_inv in H as (m1 & u & [_ ->]%lift_Ok_inv & H).
  apply bind_Ok_inv in H as (m1 & [] & H4 & H). injection H as <- <-.
  by rewrite (run_asm _ _ _ _ (execute_message_same_asm _ _) H4).
Qed.
Lemma input_frame_asm f m m' n :
  input_frame nonce epoch_id f m = (m', Ok n) ->
  (kind f = Execute -> asm m' = next_asm f (asm m)) /\
  (kind f <> Execute -> asm m' = asm m /\ offset f = 0 /\ total f = zlen (payload f)).
Proof.
  unfold input_frame. cbv zeta. intros H. take_apart H.
  assert (forall body : proc string Mem unit, same_asm body ->
    (ensure ((offset f =? 0) && (total f =? zlen (payload f))) "fragmented filesystem control"%string ;;;
     body ;;; modify (upd changed) ;;; ret true) m = (m', Ok n) -> asm m' = asm m /\ offset f = 0 /\ total f = zlen (payload f)) as Hc.
  { intros body Hbody Hrun. take_apart Hrun. apply bind_Ok_inv in Hrun as (m1 & [] & H1 & Hrun).
    injection Hrun as <- <-. apply andb_true_iff in Hb0 as [Ho%Z.eqb_eq Ht%Z.eqb_eq].
    split; [|done]. exact (run_asm _ _ _ _ Hbody H1). }
  destruct (control_same_asm f) as (A1 & A2 & A3 & A4 & A5 & A6).
  destruct (kind f) eqn:Hkind; try done; (split; [try done|intros Hne; try done]); try (revert H; apply Hc; done).
  intros _. by eapply execute_frame_asm.
Qed.
Lemma exec_step_asm m l e m' l' e' n : exec_step epoch_id m l e m' l' e' n -> asm m' = asm m.
Proof.
  assert (forall m m' pc n, dispatch_or_wait m = (m', pc, n) -> asm m' = asm m) as Hd.
  { intros m1 m1' pc n1 H. unfold dispatch_or_wait in H. destruct (dispatch _) as [[p s]|]; by injection H as <- _ _. }
  destruct 1 as [|why|m' pc n H| |a w e0 m' pc n H| |p m' pc l' H|p ctx a m' r H|p ctx x m' r H|p ctx x m' r H|p ctx root m' r H|p ctx o|p o b H|p o e0 H|pc H| |why]; try done.
  - unfold exec_turn in H. destruct (stop_pending _); [by injection H as <- _ _|]. by eapply Hd.
  - by apply Hd in H.
  - unfold exec_begin in H. destruct (_ && _); by injection H as <- _ _.
  - eapply run_asm; [|exact H]. unfold publish_admission. same_asm.
  - eapply run_asm; [|exact H]. unfold publish_store. same_asm.
  - eapply run_asm; [|exact H]. unfold publish_objects. same_asm.
  - eapply run_asm; [|exact H]. unfold clear_store. same_asm.
Qed.

(** ** Operations and results *)

Definition is_success (o : Outcome) : bool := match o with Ok _ => true | Err _ => false end.
(** [source n o]: the client asked for [o] with the sequence [n]. *)
Record origin (source : Z -> Operation -> Prop) (s : State) (e : ExecPc) (l : Log) : Prop := {
  og_queued : forall p, queued s = Some p -> source (p_sequence p) (p_operation p);
  og_current : forall p, current e = Some p -> source (p_sequence p) (p_operation p);
  og_executed : forall n o, (n, o) ∈ executed l -> source n o;
  og_executing : forall p ctx, e = EExecuting p ctx -> (p_sequence p, p_operation p) ∈ executed l;
  og_result : forall p o, e = EResult p o -> is_success o = true -> (p_sequence p, p_operation p) ∈ executed l;
  og_completed : forall n b, (n, b) ∈ completed l ->
    exists r, outcome_bytes r = Ok b /\ (is_success r = true -> exists o, (n, o) ∈ executed l);
}.
Lemma origin_mono (P Q : Z -> Operation -> Prop) s e l : (forall n o, P n o -> Q n o) -> origin P s e l -> origin Q s e l.
Proof. intros H []. split; eauto. Qed.

Section Keeping.
Context (source : Z -> Operation -> Prop).

(** A step that queues nothing, and after which the execution thread holds at most
    what it held. *)
Lemma origin_quiet s e l s' e' l' :
  origin source s e l -> (forall p, queued s' = Some p -> queued s = Some p) ->
  (e' = e \/ current e' = None) -> executed l' = executed l -> completed l' = completed l -> origin source s' e' l'.
Proof.
  intros [O1 O2 O3 O4 O5 O6] Hq He H1 H2. split; rewrite ?H1, ?H2; try done.
  - auto.
  - intros p Hp. destruct He as [->|He]; [auto|congruence].
  - intros p ctx ->. destruct He as [<-|He]; [by eapply O4|done].
  - intros p o -> Ho. destruct He as [<-|He]; [by eapply O5|done].
Qed.
Lemma origin_wake n s e l : origin source s e l -> origin source s (wake_exec n e) l.
Proof. intros H. eapply origin_quiet; [exact H|done| |done..]. destruct e, n; auto. Qed.
Lemma dispatch_queue s p s' : dispatch s = Some (p, s') -> queued s = Some p /\ queued s' = None.
Proof.
  unfold dispatch. destruct (_ && _); [|done]. destruct (queued s) as [q|]; [|done]. intros [= <- <-].
  cbn. destruct (p_operation q); done.
Qed.
Lemma origin_dispatch m m' e l pc n :
  origin source (st m) e l -> dispatch_or_wait m = (m', pc, n) -> origin source (st m') pc l.
Proof.
  intros Ho. unfold dispatch_or_wait. destruct (dispatch (st m)) as [[p s']|] eqn:Hd; intros [= <- <- <-].
  - apply dispatch_queue in Hd as [Hq Hq']. cbn. destruct Ho as [O1 O2 O3 O4 O5 O6].
    split; cbn; rewrite ?Hq'; try done. intros p' [= <-]. auto.
  - eapply origin_quiet; [exact Ho|done|by right|done..].
Qed.
Lemma origin_report m m' e l : same_core (st m) (st m') -> origin source (st m) e l -> origin source (st m') e l.
Proof. intros Hc Ho. eapply origin_quiet; [exact Ho| |by left|done..]. by rewrite (sc_queued _ _ Hc). Qed.
Lemma exec_step_origin m l e m' l' e' n :
  exec_step epoch_id m l e m' l' e' n -> origin source (st m) e l -> origin source (st m') e' l'.
Proof.
  intros H Ho. destruct H as [|why|m' pc n H|a w|a w e0 m' pc n H| |p m' pc l' H|p ctx a m' r H|p ctx x m' r H|p ctx x m' r H|p ctx root m' r H|p ctx o|p o b H|p o e0 H|pc H| |why];
    try (eapply origin_quiet; [exact Ho|done|by right|done..]).
  - eapply origin_quiet; [exact Ho| |by right|done..]. cbn. by destruct (_ =? _).
  - unfold exec_turn in H. destruct (stop_pending _); [injection H as <- <- <-; eapply origin_quiet; [exact Ho|done|by right|done..]|].
    by eapply origin_dispatch.
  - eapply origin_dispatch; [|exact H]. eapply origin_quiet; [exact Ho|done|by left|done..].
  - unfold exec_begin in H. destruct (_ && _); injection H as <- <- <-; destruct Ho as [O1 O2 O3 O4 O5 O6].
    + assert (queued (abandon (p_operation p) (st m)) = queued (st m)) as Hq by apply abandon_core.
      split; cbn; rewrite ?Hq; try done. by intros p' o [= <- <-].
    + assert (source (p_sequence p) (p_operation p)) as Hs by by apply O2.
      split; cbn; try done.
      * intros n o [Hx|[= -> ->]]%elem_snoc; [by apply O3|done].
      * intros p' ctx [= <- <-]. apply elem_of_app. right. by apply list_elem_of_singleton.
      * intros n b Hb. destruct (O6 n b Hb) as (r & Hr & Hx). exists r. split; [done|]. intros [o Hs']%Hx. exists o. apply elem_of_app. by left.
  - apply reports_run in H as [? ?]; [by eapply origin_report|apply publish_admission_reports].
  - apply reports_run in H as [? ?]; [by eapply origin_report|apply publish_store_reports].
  - apply reports_run in H as [? ?]; [by eapply origin_report|apply publish_objects_reports].
  - apply reports_run in H as [? ?]; [by eapply origin_report|apply clear_store_reports].
  - destruct Ho as [O1 O2 O3 O4 O5 O6]. split; cbn; try done. intros p' o' [= <- <-] _. by eapply O4.
  - destruct Ho as [O1 O2 O3 O4 O5 O6]. split; cbn; try done.
    intros n b' [Hx|[= -> ->]]%elem_snoc; [by apply O6|]. exists o. split; [done|]. intros Hs. exists (p_operation p). by eapply O5.
Qed.
(** A frame: what it queues is the operation it completes. *)
Lemma frame_origin f m m' r e l :
  input_frame nonce epoch_id f m = (m', r) ->
  (forall n o, kind f = Execute -> frame_operation f m = Some (n, o) -> source n o) ->
  origin source (st m) e l -> origin source (st m') e l.
Proof.
  intros H Hsrc Ho.
  assert ((forall p, queued (st m') = Some p -> queued (st m) = Some p) -> origin source (st m') e l) as Hsame.
  { intros Hq. eapply origin_quiet; [exact Ho|exact Hq|by left|done..]. }
  destruct r as [n|x].
  - apply input_frame_received in H. destruct n; [|destruct H as [Hs _]; apply Hsame; by rewrite Hs].
    destruct H as [Hc Hf|p c Hadm Hlt Hcell Hcs Hc Hk Hop|r _ _ Hr Hc Hcs|r sent Hr Hc Hcs|m1 Hc Hcs Hst Hcs'].
    + apply Hsame. by rewrite (sc_queued _ _ Hc).
    + destruct Ho as [O1 O2 O3 O4 O5 O6]. split; try done. rewrite (sc_queued _ _ Hc). cbn. intros p' [= <-]. by apply Hsrc.
    + apply Hsame. by rewrite (sc_queued _ _ Hc).
    + apply Hsame. by rewrite (sc_queued _ _ Hc).
    + apply Hsame. intros p Hp. rewrite Hst in Hp. cbn in Hp.
      apply (sh_queued _ _ (stopped_shrinks _ _ (stop_stopped m1))) in Hp. by rewrite (sc_queued _ _ Hc) in Hp.
  - apply input_frame_refuses in H as (n & _ & Hs & _). apply Hsame. by rewrite Hs.
Qed.
End Keeping.
End Origin.
