(* ===== verification/FsClient.v ===== *)
(** The client of the filesystem helper: src/src/filesystem_worker/client.rs.

    Callers, three pipe threads and whoever shuts the client down share one
    [State] behind a mutex and a condition variable.  Calls are serialized by a
    mutex of their own; the writer thread empties the outgoing slots in a fixed
    order; two reader threads fill in results and controls.  A critical section
    is one step.  A poisoned lock is not modelled: no code under the lock
    panics. *)
From stdpp Require Import base tactics option list numbers strings gmap.
From Stdlib Require Import ZArith Lia.
From S2P Require Import Prelude Bytes FsWire FsOps.

Open Scope Z_scope.
Local Open Scope prog_scope.

Definition is_none {A} (o : option A) : bool := match o with None => true | Some _ => false end.

(** The texts of messages, on the client's side. *)
Class ClientCodec {ENGINE : Engine} : Type := {
  encode_operation : Operation -> result string (list Z);
  decode_outcome : list Z -> result string Outcome;
  decode_control : list Z -> result string ControlMessage;
  encode_ack : Z * string -> result string (list Z);
  encode_query : StatusQuery -> result string (list Z);
  encode_admission_query : Z * LeaseId -> result string (list Z);
}.

Section Client.
Context {ENGINE : Engine} {CODEC : HelperCodec} {CLIENT : ClientCodec}.

#[global] Instance StatusQuery_eq_dec : EqDecision StatusQuery.
Proof. solve_decision. Defined.

(** ** The shared state *)

(** @source src/src/filesystem_worker/client.rs:30-40 Outbound *)
Record Outbound : Type := mkOutbound {
  o_command : option Message;
  o_command_cleanup : bool;
  o_cancel : option Z;
  o_ack : option (Z * string);
  o_admission : option (Z * (Z * LeaseId));
  o_store : option (Z * StatusQuery);
  o_status : option Z;
  o_stop : option Z;
  o_close : bool }.
Definition out_command (v : option Message) (s : Outbound) : Outbound :=
  mkOutbound v (o_command_cleanup s) (o_cancel s) (o_ack s) (o_admission s) (o_store s) (o_status s) (o_stop s) (o_close s).
Definition out_command_cleanup (v : bool) (s : Outbound) : Outbound :=
  mkOutbound (o_command s) v (o_cancel s) (o_ack s) (o_admission s) (o_store s) (o_status s) (o_stop s) (o_close s).
Definition out_cancel (v : option Z) (s : Outbound) : Outbound :=
  mkOutbound (o_command s) (o_command_cleanup s) v (o_ack s) (o_admission s) (o_store s) (o_status s) (o_stop s) (o_close s).
Definition out_ack (v : option (Z * string)) (s : Outbound) : Outbound :=
  mkOutbound (o_command s) (o_command_cleanup s) (o_cancel s) v (o_admission s) (o_store s) (o_status s) (o_stop s) (o_close s).
Definition out_admission (v : option (Z * (Z * LeaseId))) (s : Outbound) : Outbound :=
  mkOutbound (o_command s) (o_command_cleanup s) (o_cancel s) (o_ack s) v (o_store s) (o_status s) (o_stop s) (o_close s).
Definition out_store (v : option (Z * StatusQuery)) (s : Outbound) : Outbound :=
  mkOutbound (o_command s) (o_command_cleanup s) (o_cancel s) (o_ack s) (o_admission s) v (o_status s) (o_stop s) (o_close s).
Definition out_status (v : option Z) (s : Outbound) : Outbound :=
  mkOutbound (o_command s) (o_command_cleanup s) (o_cancel s) (o_ack s) (o_admission s) (o_store s) v (o_stop s) (o_close s).
Definition out_stop (v : option Z) (s : Outbound) : Outbound :=
  mkOutbound (o_command s) (o_command_cleanup s) (o_cancel s) (o_ack s) (o_admission s) (o_store s) (o_status s) v (o_close s).
Definition out_close (v : bool) (s : Outbound) : Outbound :=
  mkOutbound (o_command s) (o_command_cleanup s) (o_cancel s) (o_ack s) (o_admission s) (o_store s) (o_status s) (o_stop s) v.
(** A result slot holds the outcome with the digest of its bytes; the digest is
    empty when there is nothing to acknowledge. *)
(** @source src/src/filesystem_worker/client.rs:41-62 State *)
Record CState : Type := mkCState {
  c_status : StatusReport;
  c_outgoing : Outbound;
  c_sequence : Z;
  c_waiting : option Z;
  c_result : option (Z * Outcome * string);
  c_admission : option (Z * option AdmissionSnapshot);
  c_store : option (Z * result Failure StoreStatus);
  c_store_sequence : Z;
  c_store_waiting : option (Z * StatusQuery);
  c_failure : option Failure;
  c_reaped : bool;
  c_io_drained : bool;
  c_closing : bool;
  c_completed : option (Z * string);
  c_calls : Z;
  c_shutdown_requested : Z;
  c_startup_failed : bool }.
Definition set_status (v : StatusReport) (s : CState) : CState :=
  mkCState v (c_outgoing s) (c_sequence s) (c_waiting s) (c_result s) (c_admission s) (c_store s) (c_store_sequence s) (c_store_waiting s) (c_failure s) (c_reaped s) (c_io_drained s) (c_closing s) (c_completed s) (c_calls s) (c_shutdown_requested s) (c_startup_failed s).
Definition set_outgoing (v : Outbound) (s : CState) : CState :=
  mkCState (c_status s) v (c_sequence s) (c_waiting s) (c_result s) (c_admission s) (c_store s) (c_store_sequence s) (c_store_waiting s) (c_failure s) (c_reaped s) (c_io_drained s) (c_closing s) (c_completed s) (c_calls s) (c_shutdown_requested s) (c_startup_failed s).
Definition set_sequence (v : Z) (s : CState) : CState :=
  mkCState (c_status s) (c_outgoing s) v (c_waiting s) (c_result s) (c_admission s) (c_store s) (c_store_sequence s) (c_store_waiting s) (c_failure s) (c_reaped s) (c_io_drained s) (c_closing s) (c_completed s) (c_calls s) (c_shutdown_requested s) (c_startup_failed s).
Definition set_waiting (v : option Z) (s : CState) : CState :=
  mkCState (c_status s) (c_outgoing s) (c_sequence s) v (c_result s) (c_admission s) (c_store s) (c_store_sequence s) (c_store_waiting s) (c_failure s) (c_reaped s) (c_io_drained s) (c_closing s) (c_completed s) (c_calls s) (c_shutdown_requested s) (c_startup_failed s).
Definition set_result (v : option (Z * Outcome * string)) (s : CState) : CState :=
  mkCState (c_status s) (c_outgoing s) (c_sequence s) (c_waiting s) v (c_admission s) (c_store s) (c_store_sequence s) (c_store_waiting s) (c_failure s) (c_reaped s) (c_io_drained s) (c_closing s) (c_completed s) (c_calls s) (c_shutdown_requested s) (c_startup_failed s).
Definition set_admission (v : option (Z * option AdmissionSnapshot)) (s : CState) : CState :=
  mkCState (c_status s) (c_outgoing s) (c_sequence s) (c_waiting s) (c_result s) v (c_store s) (c_store_sequence s) (c_store_waiting s) (c_failure s) (c_reaped s) (c_io_drained s) (c_closing s) (c_completed s) (c_calls s) (c_shutdown_requested s) (c_startup_failed s).
Definition set_store (v : option (Z * result Failure StoreStatus)) (s : CState) : CState :=
  mkCState (c_status s) (c_outgoing s) (c_sequence s) (c_waiting s) (c_result s) (c_admission s) v (c_store_sequence s) (c_store_waiting s) (c_failure s) (c_reaped s) (c_io_drained s) (c_closing s) (c_completed s) (c_calls s) (c_shutdown_requested s) (c_startup_failed s).
Definition set_store_sequence (v : Z) (s : CState) : CState :=
  mkCState (c_status s) (c_outgoing s) (c_sequence s) (c_waiting s) (c_result s) (c_admission s) (c_store s) v (c_store_waiting s) (c_failure s) (c_reaped s) (c_io_drained s) (c_closing s) (c_completed s) (c_calls s) (c_shutdown_requested s) (c_startup_failed s).
Definition set_store_waiting (v : option (Z * StatusQuery)) (s : CState) : CState :=
  mkCState (c_status s) (c_outgoing s) (c_sequence s) (c_waiting s) (c_result s) (c_admission s) (c_store s) (c_store_sequence s) v (c_failure s) (c_reaped s) (c_io_drained s) (c_closing s) (c_completed s) (c_calls s) (c_shutdown_requested s) (c_startup_failed s).
Definition set_failure (v : option Failure) (s : CState) : CState :=
  mkCState (c_status s) (c_outgoing s) (c_sequence s) (c_waiting s) (c_result s) (c_admission s) (c_store s) (c_store_sequence s) (c_store_waiting s) v (c_reaped s) (c_io_drained s) (c_closing s) (c_completed s) (c_calls s) (c_shutdown_requested s) (c_startup_failed s).
Definition set_reaped (v : bool) (s : CState) : CState :=
  mkCState (c_status s) (c_outgoing s) (c_sequence s) (c_waiting s) (c_result s) (c_admission s) (c_store s) (c_store_sequence s) (c_store_waiting s) (c_failure s) v (c_io_drained s) (c_closing s) (c_completed s) (c_calls s) (c_shutdown_requested s) (c_startup_failed s).
Definition set_io_drained (v : bool) (s : CState) : CState :=
  mkCState (c_status s) (c_outgoing s) (c_sequence s) (c_waiting s) (c_result s) (c_admission s) (c_store s) (c_store_sequence s) (c_store_waiting s) (c_failure s) (c_reaped s) v (c_closing s) (c_completed s) (c_calls s) (c_shutdown_requested s) (c_startup_failed s).
Definition set_closing (v : bool) (s : CState) : CState :=
  mkCState (c_status s) (c_outgoing s) (c_sequence s) (c_waiting s) (c_result s) (c_admission s) (c_store s) (c_store_sequence s) (c_store_waiting s) (c_failure s) (c_reaped s) (c_io_drained s) v (c_completed s) (c_calls s) (c_shutdown_requested s) (c_startup_failed s).
Definition set_completed (v : option (Z * string)) (s : CState) : CState :=
  mkCState (c_status s) (c_outgoing s) (c_sequence s) (c_waiting s) (c_result s) (c_admission s) (c_store s) (c_store_sequence s) (c_store_waiting s) (c_failure s) (c_reaped s) (c_io_drained s) (c_closing s) v (c_calls s) (c_shutdown_requested s) (c_startup_failed s).
Definition set_calls (v : Z) (s : CState) : CState :=
  mkCState (c_status s) (c_outgoing s) (c_sequence s) (c_waiting s) (c_result s) (c_admission s) (c_store s) (c_store_sequence s) (c_store_waiting s) (c_failure s) (c_reaped s) (c_io_drained s) (c_closing s) (c_completed s) v (c_shutdown_requested s) (c_startup_failed s).
Definition set_shutdown_requested (v : Z) (s : CState) : CState :=
  mkCState (c_status s) (c_outgoing s) (c_sequence s) (c_waiting s) (c_result s) (c_admission s) (c_store s) (c_store_sequence s) (c_store_waiting s) (c_failure s) (c_reaped s) (c_io_drained s) (c_closing s) (c_completed s) (c_calls s) v (c_startup_failed s).
Definition set_startup_failed (v : bool) (s : CState) : CState :=
  mkCState (c_status s) (c_outgoing s) (c_sequence s) (c_waiting s) (c_result s) (c_admission s) (c_store s) (c_store_sequence s) (c_store_waiting s) (c_failure s) (c_reaped s) (c_io_drained s) (c_closing s) (c_completed s) (c_calls s) (c_shutdown_requested s) v.
Definition outgoing (f : Outbound -> Outbound) (s : CState) : CState := set_outgoing (f (c_outgoing s)) s.
Definition set_phase (p : Phase) (s : CState) : CState :=
  let r := c_status s in
  set_status (mkReport p (shutdown_attempt r) (report_active r) (report_queued r) (report_retained r)
    (report_canceled r) (report_error r)) s.
Definition set_error (e : option Failure) (s : CState) : CState :=
  let r := c_status s in
  set_status (mkReport (report_phase r) (shutdown_attempt r) (report_active r) (report_queued r) (report_retained r)
    (report_canceled r) e) s.
Definition c_phase (s : CState) : Phase := report_phase (c_status s).

(** @source src/src/filesystem_worker/client.rs:287-324 Client::connect *)
Definition initial_state : CState :=
  mkCState (mkReport Starting 0 None None None None None)
    (mkOutbound None false None None None None None None false)
    0 None None None None 0 None None false false false None 0 0 false.

(** @source src/src/filesystem_worker/client.rs:81-89 Shared::fail *)
Definition fail_with (fragments : list (list Z)) (s : CState) : CState :=
  let s := match c_failure s with
           | None => set_failure (Some (failure_new Unknown fragments)) s
           | Some _ => s
           end in
  set_error (c_failure s) (set_phase UnknownPhase s).

(** @source src/src/filesystem_worker/client.rs:408-422 Client::status *)
Definition reported_status (s : CState) : StatusReport :=
  let v := c_status s in
  let '(p, e) := match c_failure s with Some f => (UnknownPhase, Some f) | None => (report_phase v, report_error v) end in
  let p := if c_closing s && (bool_decide (p = Starting) || bool_decide (p = ReadyPhase)) then Stopping else p in
  let p := if bool_decide (p = Stopped) && negb (c_reaped s && c_io_drained s) then Stopping else p in
  mkReport p (shutdown_attempt v) (report_active v) (report_queued v) (report_retained v) (report_canceled v) e.

(** What [wait_ready] waits through, and its answer. *)
(** @source src/src/filesystem_worker/client.rs:427-443 Client::wait_ready *)
Definition ready_waits (s : CState) : bool :=
  bool_decide (c_phase s = Starting) && is_none (c_failure s) && negb (c_closing s).
Definition ready (s : CState) : bool :=
  bool_decide (c_phase s = ReadyPhase) && is_none (c_failure s) && negb (c_closing s).
(** @source src/src/filesystem_worker/client.rs:444-447 Client::refresh_status *)
Definition refresh_status (s : CState) : CState := outgoing (out_status (Some 0)) s.
(** @source src/src/filesystem_worker/client.rs:448-457 Client::cancel *)
Definition cancel (sequence : Z) (s : CState) : result string CState :=
  if bool_decide (c_waiting s = Some sequence) then Ok (outgoing (out_cancel (Some sequence)) s)
  else Err "filesystem cancellation belongs to another operation"%string.

(** ** Calls *)

Inductive CallError : Type := Failed (f : Failure) | Refused (message : string).
Definition Answer : Type := result CallError Response.

(** @source src/src/filesystem_worker/client.rs:473-475 Client::execute *)
Definition start_waits (s : CState) : bool := bool_decide (c_phase s = Starting) && is_none (c_failure s).
(** @source src/src/filesystem_worker/client.rs:479-486 Client::execute *)
Definition call_admitted (o : Operation) (s : CState) : bool :=
  (negb (c_closing s) && bool_decide (c_phase s = ReadyPhase)) ||
  ((bool_decide (c_phase s = ReadyPhase) || bool_decide (c_phase s = Stopping) || bool_decide (c_phase s = DrainFailed)) &&
   is_cleanup o).
(** The request is put into the outgoing slot; [canceled] is the caller's flag. *)
(** @source src/src/filesystem_worker/client.rs:476-510 Client::execute *)
Definition submit (o : Operation) (b : list Z) (canceled : bool) (s : CState) : result CallError (Z * CState) :=
  match c_failure s with
  | Some f => Err (Failed f)
  | None =>
      let? _ := rensure (call_admitted o s) (Refused "filesystem helper is not admitting operations") in
      let? _ := rensure (negb (canceled && negb (is_cleanup o)))
                  (Failed (failure_says Canceled "filesystem operation canceled before admission")) in
      let? _ := rensure (is_none (c_waiting s) && is_none (c_result s))
                  (Refused "filesystem result remains unresolved") in
      match checked_add (c_sequence s) 1 with
      | None => Err (Refused "filesystem sequence exhausted")
      | Some n =>
          let s := set_waiting (Some n) (set_sequence n s) in
          Ok (n, outgoing (fun q => out_command (Some (mkMessage Execute n b)) (out_command_cleanup (is_cleanup o) q)) s)
      end
  end.

(** The answer a waiting call finds, if any. *)
(** @source src/src/filesystem_worker/client.rs:514-531 Client::execute *)
Definition call_answer (n : Z) (s : CState) : option (Answer * CState) :=
  match c_result s with
  | Some (i, outcome, digest) =>
      if i =? n then
        let s := set_completed (Some (n, digest)) (set_waiting None (set_result None s)) in
        let s := if bool_decide (digest = ""%string) then s else outgoing (out_ack (Some (n, digest))) s in
        Some (match outcome with Ok r => Ok r | Err f => Err (Failed f) end, s)
      else None
  | None => None
  end.
(** @source src/src/filesystem_worker/client.rs:532-542 Client::execute *)
Definition call_stopped (n : Z) (s : CState) : option (Answer * CState) :=
  match c_failure s with
  | Some f => Some (Err (Failed f), s)
  | None =>
      if bool_decide (report_canceled (c_status s) = Some n)
      then Some (Err (Failed (failure_says Canceled "filesystem request removed before execution by Stop")), set_waiting None s)
      else None
  end.
(** What a call still does before it waits: pass on its cancellation, and ask for
    a result that is retained but has not arrived. *)
(** @source src/src/filesystem_worker/client.rs:543-562 Client::execute *)
Definition call_prompts (o : Operation) (n : Z) (canceled signaled retrieved : bool) (s : CState) : CState * bool * bool :=
  let signal := negb signaled && canceled && negb (is_cleanup o) in
  let s := if signal then outgoing (out_cancel (Some n)) s else s in
  let retrieve := negb retrieved && match report_retained (c_status s) with Some r => r_sequence r =? n | None => false end in
  let s := if retrieve then outgoing (out_status (Some n)) s else s in
  (s, signaled || signal, retrieved || retrieve).

Inductive Turn : Type :=
| Returns (r : Answer) (s : CState)
| Waits (s : CState) (signaled retrieved : bool).
(** One turn of the loop; the flag says whether the other threads are notified. *)
(** @source src/src/filesystem_worker/client.rs:513-570 Client::execute *)
Definition call_turn (o : Operation) (n : Z) (canceled signaled retrieved : bool) (s : CState) : Turn * bool :=
  match call_answer n s with
  | Some (r, s) => (Returns r s, true)
  | None =>
      match call_stopped n s with
      | Some (r, s) => (Returns r s, false)
      | None =>
          let '(s, signaled', retrieved') := call_prompts o n canceled signaled retrieved s in
          (Waits s signaled' retrieved', negb (eqb signaled signaled') || negb (eqb retrieved retrieved'))
      end
  end.

(** ** Status queries *)

(** @source src/src/filesystem_worker/client.rs:579-588 Client::admission_status *)
Definition admission_asks (operation : Z) (session : LeaseId) (s : CState) : result string CState :=
  let? _ := rensure (0 <? operation) "invalid prepare operation"%string in
  Ok (outgoing (out_admission (Some (operation, (operation, session)))) (set_admission None s)).
(** [None]: wait on. *)
(** @source src/src/filesystem_worker/client.rs:589-611 Client::admission_status *)
Definition admission_turn (operation : Z) (session : LeaseId) (s : CState)
    : option (result CallError (option AdmissionSnapshot)) * CState :=
  match c_admission s with
  | Some (i, value) =>
      if i =? operation then
        (Some (match value with
               | Some a => if (ad_operation a =? operation) && bool_decide (ad_session a = session) then Ok value
                           else Err (Refused "cached admission belongs to another owner")
               | None => Ok None
               end), set_admission None s)
      else if c_reaped s then (Some (Err (Refused "filesystem admission owner has exited")), s)
      else (match c_failure s with Some f => Some (Err (Failed f)) | None => None end, s)
  | None =>
      if c_reaped s then (Some (Err (Refused "filesystem admission owner has exited")), s)
      else (match c_failure s with Some f => Some (Err (Failed f)) | None => None end, s)
  end.

Definition StoreAnswer : Type := result CallError StoreStatus.
Definition store_outcome (v : result Failure StoreStatus) : StoreAnswer :=
  match v with Ok x => Ok x | Err f => Err (Failed f) end.
Definition terminal (s : CState) : bool := c_reaped s || o_close (c_outgoing s) || bool_decide (c_phase s = Stopped).
(** Up to the loop: an answer that is there already, or the sequence asked for. *)
(** @source src/src/filesystem_worker/client.rs:624-662 Client::store_status *)
Definition store_asks (q : StatusQuery) (s : CState) : result CallError (StoreAnswer + Z) * CState :=
  let fresh :=
    if terminal s then (Err (Refused "preview filesystem owner is terminal"), s) else
    match c_failure s with
    | Some f => (Err (Failed f), s)
    | None =>
        if negb (is_none (o_store (c_outgoing s)) && is_none (c_store s) && is_none (c_store_waiting s))
        then (Err (Refused "preview status slot busy"), s) else
        match checked_add (c_store_sequence s) 1 with
        | None => (Err (Refused "preview query sequence exhausted"), s)
        | Some n =>
            (Ok (inr n), outgoing (out_store (Some (n, q))) (set_store_waiting (Some (n, q)) (set_store_sequence n s)))
        end
    end in
  match c_store_waiting s, c_store s with
  | Some (id, active), Some (n, value) =>
      if bool_decide (active = q) then
        if id =? n then (Ok (inl (store_outcome value)), set_store_waiting None (set_store None s))
        else (Err (Refused "preview status sequence mismatch"), set_store None s)
      else fresh
  | _, _ => fresh
  end.
(** [None]: wait on. *)
(** @source src/src/filesystem_worker/client.rs:663-678 Client::store_status *)
Definition store_turn (n : Z) (s : CState) : option StoreAnswer * CState :=
  match c_store s with
  | Some (i, value) =>
      if i =? n then (Some (store_outcome value), set_store_waiting None (set_store None s))
      else (Some (Err (Refused "preview status sequence mismatch")), set_store None s)
  | None =>
      if terminal s
      then (Some (Err (Refused "preview filesystem owner is terminal")),
            outgoing (out_store None) (set_store_waiting None s))
      else (match c_failure s with Some f => Some (Err (Failed f)) | None => None end, s)
  end.
(** @source src/src/filesystem_worker/client.rs:617-621 Client::store_status *)
Definition query_checked (epoch_id : LeaseId) (q : StatusQuery) : result string unit :=
  let? _ := query_valid q in
  rensure (bool_decide (q_epoch q = epoch_id)) "preview query helper epoch mismatch"%string.

(** ** Stopping *)

(** A request that was not sent yet is answered in its place, unless it only
    releases ownership. *)
(** @source src/src/filesystem_worker/client.rs:686-697 Client::signal_stop *)
Definition withdraw (s : CState) : CState :=
  let q := c_outgoing s in
  match o_command q with
  | Some m =>
      if o_command_cleanup q then s
      else set_result (Some (m_sequence m,
             Err (failure_says Canceled "filesystem request stopped before sending"), ""%string))
             (outgoing (out_command None) s)
  | None => s
  end.
(** @source src/src/filesystem_worker/client.rs:680-712 Client::signal_stop *)
Definition signal_stop (s : CState) : CState :=
  if bool_decide (c_phase s = Stopped) then s else
  let s := withdraw (set_closing true s) in
  match checked_add (c_shutdown_requested s) 1 with
  | None => set_phase UnknownPhase (set_failure (Some (failure_says Unknown "filesystem shutdown identity exhausted")) s)
  | Some attempt =>
      set_error None (set_phase Stopping (outgoing (out_stop (Some attempt)) (set_shutdown_requested attempt s)))
  end.
(** @source src/src/filesystem_worker/client.rs:771-782 Client::terminate_after_dependents_drained *)
Definition terminate (s : CState) : CState :=
  let s := outgoing (out_close true) (set_closing true s) in
  let f := Some (failure_says Unknown "filesystem transport terminated after dependent drain; reconcile operation outcomes") in
  set_error f (set_phase UnknownPhase (set_failure f s)).
(** The child was waited for. *)
(** @source src/src/filesystem_worker/client.rs:184-198 Owner::poll *)
Definition child_exited (success : bool) (why : list (list Z)) (s : CState) : CState :=
  let s := outgoing (out_close true) (set_reaped true s) in
  if success then s else set_failure (Some (failure_new Unknown why)) s.
(** @source src/src/filesystem_worker/client.rs:201-205 Owner::poll *)
Definition drained (s : CState) : CState := set_io_drained true (set_reaped true s).
(** The checks of [try_shutdown] after a poll: complete, or not. *)
(** @source src/src/filesystem_worker/client.rs:720-728 Client::try_shutdown *)
Definition shutdown_verified (s : CState) : bool :=
  bool_decide (c_phase s = Stopped) && is_none (c_failure s).
(** @source src/src/filesystem_worker/client.rs:729-745 Client::try_shutdown *)
Definition shutdown_refused (s : CState) : bool :=
  (bool_decide (c_phase s = DrainFailed) && (shutdown_attempt (c_status s) =? c_shutdown_requested s)) ||
  (negb (is_none (c_failure s)) && negb (c_reaped s)).

(** ** The writer thread *)

Inductive Next : Type :=
| Closing
| Send (m : Message) (s : CState)
| Idle
| Broken (why : string).
Definition send_encoded (k : Kind) (n : Z) (b : result string (list Z)) (s : CState) : Next :=
  match b with Ok b => Send (mkMessage k n b) s | Err e => Broken e end.
(** The slots in the order in which they are emptied. *)
(** @source src/src/filesystem_worker/client.rs:833-895 write_loop *)
Definition next_message (s : CState) : Next :=
  let q := c_outgoing s in
  if o_close q then Closing else
  match (if o_command_cleanup q then o_command q else None) with
  | Some m => Send m (outgoing (fun q => out_command_cleanup false (out_command None q)) s)
  | None =>
  match o_stop q with
  | Some n => Send (mkMessage Stop n []) (outgoing (out_stop None) s)
  | None =>
  match o_cancel q with
  | Some n => Send (mkMessage Cancel n []) (outgoing (out_cancel None) s)
  | None =>
  match o_ack q with
  | Some a => send_encoded Ack a.1 (encode_ack a) (outgoing (out_ack None) s)
  | None =>
  match o_store q with
  | Some (n, query) => send_encoded FsWire.StoreStatus n (encode_query query) (outgoing (out_store None) s)
  | None =>
  match o_admission q with
  | Some (n, query) => send_encoded AdmissionStatus n (encode_admission_query query) (outgoing (out_admission None) s)
  | None =>
  match o_status q with
  | Some n => Send (mkMessage Status n []) (outgoing (out_status None) s)
  | None =>
  match o_command q with
  | Some m => Send m (outgoing (out_command None) s)
  | None => Idle
  end end end end end end end end.

(** ** The reader threads *)

(** @source src/src/filesystem_worker/client.rs:921-935 read_loop *)
Definition accept_status (v : StatusReport) (s : CState) : result string CState :=
  let? _ := rensure (match report_error v with Some e => failure_valid e | None => true end)
              "filesystem error byte limit"%string in
  let s := if bool_decide (report_phase v = Stopped) then outgoing (out_close true) s else s in
  let s := if bool_decide (report_phase v = UnknownPhase)
           then outgoing (out_close true)
                  (set_failure (Some (default (failure_says Unknown "filesystem execution owner failed") (report_error v))) s)
           else s in
  Ok (set_status v s).
(** @source src/src/filesystem_worker/client.rs:936-951 read_loop *)
Definition accept_store (n : Z) (v : result Failure StoreStatus) (s : CState) : result string CState :=
  match c_store_waiting s with
  | None => Err "unsolicited preview status response"%string
  | Some (i, query) =>
      let? _ := rensure (i =? n) "preview status response sequence mismatch"%string in
      let? _ := rensure (is_none (c_store s)) "preview status reply slot occupied"%string in
      let? _ := match v with
                | Ok x => status_valid x query
                | Err f => rensure (failure_valid f) "filesystem error byte limit"%string
                end in
      Ok (set_store (Some (n, v)) s)
  end.
(** @source src/src/filesystem_worker/client.rs:952-961 read_loop *)
Definition accept_admission (n : Z) (v : option AdmissionSnapshot) (s : CState) : result string CState :=
  let? _ := match v with Some a => admission_valid a | None => Ok tt end in
  let? _ := rensure (is_none (c_admission s)) "unconsumed filesystem admission reply"%string in
  Ok (set_admission (Some (n, v)) s).
(** @source src/src/filesystem_worker/client.rs:962-969 read_loop *)
Definition accept_rejection (n : Z) (f : Failure) (s : CState) : result string CState :=
  let? _ := rensure (failure_valid f) "filesystem error byte limit"%string in
  let? _ := rensure (bool_decide (c_waiting s = Some n)) "rejection sequence mismatch"%string in
  Ok (set_result (Some (n, Err f, ""%string)) s).
(** @source src/src/filesystem_worker/client.rs:918-971 read_loop *)
Definition accept_control (n : Z) (v : ControlMessage) (s : CState) : result string CState :=
  match v with
  | CStatus v => accept_status v s
  | CStore v => accept_store n v s
  | CAdmission v => accept_admission n v s
  | CRejected f => accept_rejection n f s
  end.
Definition holds_result (n : Z) (digest : string) (slot : option (Z * string)) : bool :=
  match slot with Some (i, h) => (i =? n) && bool_decide (h = digest) | None => false end.
(** A result the client has, or had, is not taken twice; the flag says whether the
    other threads are notified. *)
(** @source src/src/filesystem_worker/client.rs:973-999 read_loop *)
Definition accept_result (n : Z) (o : Outcome) (digest : string) (s : CState) : result string (CState * bool) :=
  let? _ := rensure (match o with Err f => failure_valid f | Ok _ => true end) "filesystem error byte limit"%string in
  if holds_result n digest (c_completed s) then Ok (s, false) else
  if holds_result n digest ((fun r => (r.1.1, r.2)) <$> c_result s) then Ok (s, false) else
  let? _ := rensure (bool_decide (c_waiting s = Some n) && is_none (c_result s))
              "filesystem result belongs to another operation"%string in
  Ok (set_result (Some (n, o, digest)) s, true).
Definition io_text (e : IoError) : string :=
  match e with
  | InvalidData m => m
  | Fault m => m
  | UnexpectedEof => "failed to fill whole buffer"
  | OutOfFuel => ""
  end.
Definition io {A} (r : result IoError A) : result string A := match r with Ok a => Ok a | Err e => Err (io_text e) end.
(** What a frame completes, with the assembly that stays. *)
(** @source src/src/filesystem_worker/client.rs:901-916 read_loop *)
Definition read_frame (nonce : list Z) (control : bool) (a : option Assembly) (f : Frame)
    : result string (option Assembly * option Message) :=
  let? _ := rensure (bool_decide (epoch f = nonce)) "filesystem reply epoch mismatch"%string in
  let? _ := rensure (bool_decide (kind f = if control then Control else Result)) "unexpected filesystem output channel"%string in
  let? a := match a with Some a => Ok a | None => io (assembly_start f) end in
  let? r := io (assembly_push a f) in
  if r.2 : bool then let? m := io (assembly_finish r.1) in Ok (None, Some m) else Ok (Some r.1, None).
(** @source src/src/filesystem_worker/client.rs:1001-1007 read_loop *)
Definition read_ended (control : bool) (a : option Assembly) (s : CState) : result string unit :=
  let? _ := rensure (is_none a) "filesystem output ended inside a frame"%string in
  rensure (bool_decide (c_phase s = Stopped) || (negb control && c_closing s))
    "filesystem pipe closed before retirement; outcomes unknown"%string.

(** ** The threads *)

(** A caller of [execute], between two critical sections. *)
Inductive CallPc : Type :=
| XAdmitted (o : Operation)                              (** holds a slot *)
| XQueued (o : Operation) (b : list Z)                   (** waits for the mutex of the calls *)
| XStarting (o : Operation) (b : list Z) (asleep : bool) (** waits for the helper to start *)
| XWaiting (o : Operation) (n : Z) (signaled retrieved : bool)
| XReturned.                                             (** about to give its slot back *)
(** The one caller of [admission_status] and the one of [store_status] that hold
    the mutexes of these queries. *)
Inductive AdmissionPc : Type := ANone | AWaiting (operation : Z) (session : LeaseId) (asleep : bool).
Inductive StorePc : Type := SNone | SWaiting (n : Z) (q : StatusQuery) (asleep : bool).
Inductive WriterPc : Type := WNew | WHello | WAwake | WAsleep | WWriting (m : Message) | WEnded.
Inductive ReaderPc : Type := RNew | RReading (a : option Assembly) | REnded.
Inductive Child : Type := Running | Exited (success : bool) | Reaped (success : bool).
(** Whoever connects, and later the holder of the mutex [shutdown]: in
    [try_shutdown] or in a termination. *)
Inductive ShutdownPc : Type := DConnecting (started : nat) | DNone | DPolling | DChecking | DVerifying | DInspecting | DKilling | DJoining.

(** What happened, for the theorems: requests put into the slot, messages taken
    by the writer, replies accepted, answers of calls, and whether a shutdown
    was affirmed. *)
Record ClientLog : Type := mkClientLog {
  l_submitted : list (Z * Operation * list Z);
  l_sent : list Message;
  l_results : list (Z * Outcome * string);
  l_controls : list (Z * ControlMessage);
  l_answers : list (Z * Operation * Answer);
  l_clean : bool }.
Definition log_submitted (v : list (Z * Operation * list Z)) (s : ClientLog) : ClientLog :=
  mkClientLog v (l_sent s) (l_results s) (l_controls s) (l_answers s) (l_clean s).
Definition log_sent (v : list Message) (s : ClientLog) : ClientLog :=
  mkClientLog (l_submitted s) v (l_results s) (l_controls s) (l_answers s) (l_clean s).
Definition log_results (v : list (Z * Outcome * string)) (s : ClientLog) : ClientLog :=
  mkClientLog (l_submitted s) (l_sent s) v (l_controls s) (l_answers s) (l_clean s).
Definition log_controls (v : list (Z * ControlMessage)) (s : ClientLog) : ClientLog :=
  mkClientLog (l_submitted s) (l_sent s) (l_results s) v (l_answers s) (l_clean s).
Definition log_answers (v : list (Z * Operation * Answer)) (s : ClientLog) : ClientLog :=
  mkClientLog (l_submitted s) (l_sent s) (l_results s) (l_controls s) v (l_clean s).
Definition log_clean (v : bool) (s : ClientLog) : ClientLog :=
  mkClientLog (l_submitted s) (l_sent s) (l_results s) (l_controls s) (l_answers s) v.
Record ClientWorld : Type := mkClientWorld {
  w_state : CState;
  w_calls : gmap nat CallPc;
  w_lock : option nat;
  w_admission : AdmissionPc;
  w_store : StorePc;
  w_writer : WriterPc;
  w_results : ReaderPc;
  w_controls : ReaderPc;
  w_child : Child;
  w_shutdown : ShutdownPc;
  w_log : ClientLog }.
Definition at_state (v : CState) (s : ClientWorld) : ClientWorld :=
  mkClientWorld v (w_calls s) (w_lock s) (w_admission s) (w_store s) (w_writer s) (w_results s) (w_controls s) (w_child s) (w_shutdown s) (w_log s).
Definition at_calls (v : gmap nat CallPc) (s : ClientWorld) : ClientWorld :=
  mkClientWorld (w_state s) v (w_lock s) (w_admission s) (w_store s) (w_writer s) (w_results s) (w_controls s) (w_child s) (w_shutdown s) (w_log s).
Definition at_lock (v : option nat) (s : ClientWorld) : ClientWorld :=
  mkClientWorld (w_state s) (w_calls s) v (w_admission s) (w_store s) (w_writer s) (w_results s) (w_controls s) (w_child s) (w_shutdown s) (w_log s).
Definition at_admission (v : AdmissionPc) (s : ClientWorld) : ClientWorld :=
  mkClientWorld (w_state s) (w_calls s) (w_lock s) v (w_store s) (w_writer s) (w_results s) (w_controls s) (w_child s) (w_shutdown s) (w_log s).
Definition at_store (v : StorePc) (s : ClientWorld) : ClientWorld :=
  mkClientWorld (w_state s) (w_calls s) (w_lock s) (w_admission s) v (w_writer s) (w_results s) (w_controls s) (w_child s) (w_shutdown s) (w_log s).
Definition at_writer (v : WriterPc) (s : ClientWorld) : ClientWorld :=
  mkClientWorld (w_state s) (w_calls s) (w_lock s) (w_admission s) (w_store s) v (w_results s) (w_controls s) (w_child s) (w_shutdown s) (w_log s).
Definition at_results (v : ReaderPc) (s : ClientWorld) : ClientWorld :=
  mkClientWorld (w_state s) (w_calls s) (w_lock s) (w_admission s) (w_store s) (w_writer s) v (w_controls s) (w_child s) (w_shutdown s) (w_log s).
Definition at_controls (v : ReaderPc) (s : ClientWorld) : ClientWorld :=
  mkClientWorld (w_state s) (w_calls s) (w_lock s) (w_admission s) (w_store s) (w_writer s) (w_results s) v (w_child s) (w_shutdown s) (w_log s).
Definition at_child (v : Child) (s : ClientWorld) : ClientWorld :=
  mkClientWorld (w_state s) (w_calls s) (w_lock s) (w_admission s) (w_store s) (w_writer s) (w_results s) (w_controls s) v (w_shutdown s) (w_log s).
Definition at_shutdown (v : ShutdownPc) (s : ClientWorld) : ClientWorld :=
  mkClientWorld (w_state s) (w_calls s) (w_lock s) (w_admission s) (w_store s) (w_writer s) (w_results s) (w_controls s) (w_child s) v (w_log s).
Definition at_log (v : ClientLog) (s : ClientWorld) : ClientWorld :=
  mkClientWorld (w_state s) (w_calls s) (w_lock s) (w_admission s) (w_store s) (w_writer s) (w_results s) (w_controls s) (w_child s) (w_shutdown s) v.
Definition initial_log : ClientLog := mkClientLog [] [] [] [] [] false.
Definition log (f : ClientLog -> ClientLog) (w : ClientWorld) : ClientWorld := at_log (f (w_log w)) w.

Definition wake_call (pc : CallPc) : CallPc := match pc with XStarting o b _ => XStarting o b false | _ => pc end.
Definition wake_admission (pc : AdmissionPc) : AdmissionPc :=
  match pc with AWaiting o s _ => AWaiting o s false | ANone => ANone end.
Definition wake_store (pc : StorePc) : StorePc := match pc with SWaiting n q _ => SWaiting n q false | SNone => SNone end.
Definition wake_writer (pc : WriterPc) : WriterPc := match pc with WAsleep => WAwake | _ => pc end.
(** [wake.notify_all()]. *)
Definition notify (n : bool) (w : ClientWorld) : ClientWorld :=
  if n then at_calls (wake_call <$> w_calls w) (at_admission (wake_admission (w_admission w))
         (at_store (wake_store (w_store w)) (at_writer (wake_writer (w_writer w)) w)))
  else w.
Definition initial_world : ClientWorld :=
  mkClientWorld initial_state ∅ None ANone SNone WNew RNew RNew Running (DConnecting 0) initial_log.
(** Nobody has the client before it is connected. *)
Definition connected (w : ClientWorld) : Prop := forall k, w_shutdown w <> DConnecting k.

(** A thread's error: [Shared::fail]. *)
Definition fails (why : list (list Z)) (w : ClientWorld) : ClientWorld := notify true (at_state (fail_with why (w_state w)) w).
Definition threads_ended (w : ClientWorld) : bool :=
  match w_writer w, w_results w, w_controls w with WEnded, REnded, REnded => true | _, _, _ => false end.

(** *** The start *)

Definition end_new_writer (pc : WriterPc) : WriterPc := match pc with WNew => WEnded | _ => pc end.
Definition end_new_reader (pc : ReaderPc) : ReaderPc := match pc with RNew => REnded | _ => pc end.
(** The threads start in order; when one cannot, the others are never started. *)
(** @source src/src/filesystem_worker/client.rs:329-370 Client::connect *)
Inductive connect_step (w : ClientWorld) : ClientWorld -> Prop :=
| connect_writer : w_shutdown w = DConnecting 0 -> connect_step w (at_shutdown (DConnecting 1) (at_writer WHello w))
| connect_results : w_shutdown w = DConnecting 1 -> connect_step w (at_shutdown (DConnecting 2) (at_results (RReading None) w))
| connect_controls : w_shutdown w = DConnecting 2 -> connect_step w (at_shutdown DNone (at_controls (RReading None) w))
| connect_fails k why :
    w_shutdown w = DConnecting k ->
    connect_step w (at_shutdown DNone (fails why
      (at_writer (end_new_writer (w_writer w)) (at_results (end_new_reader (w_results w))
        (at_controls (end_new_reader (w_controls w)) (at_state (outgoing (out_close true) (set_startup_failed true (w_state w))) w)))))).

(** *** One critical section of a caller *)

(** The call leaves the loop: it gives the mutex of the calls back. *)
Definition call_returns (id : nat) (w : ClientWorld) : ClientWorld := at_calls (<[id := XReturned]> (w_calls w)) (at_lock None w).
Definition take_turn (id : nat) (o : Operation) (n : Z) (canceled signaled retrieved : bool) (w : ClientWorld) : ClientWorld :=
  let '(t, k) := call_turn o n canceled signaled retrieved (w_state w) in
  notify k match t with
           | Returns r s => call_returns id (at_state s (log (fun l => log_answers (l_answers l ++ [(n, o, r)]) l) w))
           | Waits s g r => at_calls (<[id := XWaiting o n g r]> (w_calls w)) (at_state s w)
           end.
(** @source src/src/filesystem_worker/client.rs:459-570 Client::execute *)
Inductive call_step (w : ClientWorld) (id : nat) : ClientWorld -> Prop :=
| call_enters o :
    connected w -> w_calls w !! id = None -> c_calls (w_state w) < 2 ->
    call_step w id (at_calls (<[id := XAdmitted o]> (w_calls w)) (at_state (set_calls (c_calls (w_state w) + 1) (w_state w)) w))
| call_invalid o e :
    w_calls w !! id = Some (XAdmitted o) -> validate_operation o = Err e \/ encode_operation o = Err e ->
    call_step w id (at_calls (<[id := XReturned]> (w_calls w)) w)
| call_valid o b :
    w_calls w !! id = Some (XAdmitted o) -> validate_operation o = Ok tt -> encode_operation o = Ok b ->
    call_step w id (at_calls (<[id := XQueued o b]> (w_calls w)) w)
| call_locks o b :
    w_calls w !! id = Some (XQueued o b) -> w_lock w = None ->
    call_step w id (at_calls (<[id := XStarting o b false]> (w_calls w)) (at_lock (Some id) w))
| call_sleeps o b :
    w_calls w !! id = Some (XStarting o b false) -> start_waits (w_state w) = true ->
    call_step w id (at_calls (<[id := XStarting o b true]> (w_calls w)) w)
| call_refused o b canceled e :
    w_calls w !! id = Some (XStarting o b false) -> start_waits (w_state w) = false ->
    submit o b canceled (w_state w) = Err e ->
    call_step w id (call_returns id w)
| call_submits o b canceled canceled' n s :
    w_calls w !! id = Some (XStarting o b false) -> start_waits (w_state w) = false ->
    submit o b canceled (w_state w) = Ok (n, s) ->
    call_step w id (take_turn id o n canceled' false false
      (notify true (at_state s (log (fun l => log_submitted (l_submitted l ++ [(n, o, b)]) l) w))))
| call_turns o n canceled signaled retrieved :
    w_calls w !! id = Some (XWaiting o n signaled retrieved) ->
    call_step w id (take_turn id o n canceled signaled retrieved w)
| call_leaves :
    w_calls w !! id = Some XReturned ->
    call_step w id (notify true (at_calls (delete id (w_calls w)) (at_state (set_calls (c_calls (w_state w) - 1) (w_state w)) w))).

(** *** Queries *)

(** A query's answer, or its sleep. *)
Definition admission_after (operation : Z) (session : LeaseId)
    (r : option (result CallError (option AdmissionSnapshot)) * CState) (w : ClientWorld) : ClientWorld :=
  at_admission (match r.1 with Some _ => ANone | None => AWaiting operation session true end) (at_state r.2 w).
(** @source src/src/filesystem_worker/client.rs:572-612 Client::admission_status *)
Inductive admission_step (w : ClientWorld) : ClientWorld -> Prop :=
| admission_asked operation session s :
    connected w -> w_admission w = ANone -> admission_asks operation session (w_state w) = Ok s ->
    admission_step w (admission_after operation session (admission_turn operation session s) (notify true w))
| admission_turns operation session :
    w_admission w = AWaiting operation session false ->
    admission_step w (admission_after operation session (admission_turn operation session (w_state w)) w).
Definition store_after (n : Z) (q : StatusQuery) (r : option StoreAnswer * CState) (w : ClientWorld) : ClientWorld :=
  at_store (match r.1 with Some _ => SNone | None => SWaiting n q true end) (at_state r.2 w).
(** @source src/src/filesystem_worker/client.rs:613-679 Client::store_status *)
Inductive store_step (epoch_id : LeaseId) (w : ClientWorld) : ClientWorld -> Prop :=
| store_asked q n s :
    connected w -> w_store w = SNone -> query_checked epoch_id q = Ok tt -> store_asks q (w_state w) = (Ok (inr n), s) ->
    store_step epoch_id w (store_after n q (store_turn n s) (notify true w))
| store_known q v s :
    connected w -> w_store w = SNone -> query_checked epoch_id q = Ok tt -> store_asks q (w_state w) = (Ok (inl v), s) ->
    store_step epoch_id w (at_state s w)
| store_refused q e s :
    connected w -> w_store w = SNone -> query_checked epoch_id q = Ok tt -> store_asks q (w_state w) = (Err e, s) ->
    store_step epoch_id w (at_state s w)
| store_turns n q :
    w_store w = SWaiting n q false -> store_step epoch_id w (store_after n q (store_turn n (w_state w)) w).

(** *** The pipe threads *)

(** A message goes to the log when the writer takes it: it may reach the helper
    from then on.  [written] may fail at any byte. *)
(** @source src/src/filesystem_worker/client.rs:825-898 write_loop *)
Inductive writer_step (w : ClientWorld) : ClientWorld -> Prop :=
| writer_greeted : w_writer w = WHello -> writer_step w (at_writer WAwake w)
| writer_broken why m :
    w_writer w = WHello \/ w_writer w = WWriting m -> writer_step w (fails why (at_writer WEnded w))
| writer_closes : w_writer w = WAwake -> next_message (w_state w) = Closing -> writer_step w (at_writer WEnded w)
| writer_takes m s :
    w_writer w = WAwake -> next_message (w_state w) = Send m s ->
    writer_step w (at_writer (WWriting m) (at_state s (log (fun l => log_sent (l_sent l ++ [m]) l) w)))
| writer_sleeps : w_writer w = WAwake -> next_message (w_state w) = Idle -> writer_step w (at_writer WAsleep w)
| writer_unencodable e :
    w_writer w = WAwake -> next_message (w_state w) = Broken e ->
    writer_step w (fails [ascii_bytes e] (at_writer WEnded w))
| writer_written m : w_writer w = WWriting m -> writer_step w (at_writer WAwake w).

Definition reader (control : bool) (w : ClientWorld) : ReaderPc := if control then w_controls w else w_results w.
Definition at_reader (control : bool) (pc : ReaderPc) (w : ClientWorld) : ClientWorld :=
  if control then at_controls pc w else at_results pc w.
(** A complete message, decoded and accepted. *)
(** @source src/src/filesystem_worker/client.rs:917-999 read_loop *)
Definition accept (control : bool) (m : Message) (w : ClientWorld) : result string ClientWorld :=
  if control then
    let? v := decode_control (m_bytes m) in
    let? s := accept_control (m_sequence m) v (w_state w) in
    Ok (notify true (at_state s (log (fun l => log_controls (l_controls l ++ [(m_sequence m, v)]) l) w)))
  else
    let? o := decode_outcome (m_bytes m) in
    let digest := hash_hex (m_bytes m) in
    let? r := accept_result (m_sequence m) o digest (w_state w) in
    Ok (notify r.2 (at_state r.1 (log (fun l => log_results (l_results l ++ [(m_sequence m, o, digest)]) l) w))).
(** @source src/src/filesystem_worker/client.rs:899-1008 read_loop *)
Inductive reader_step (nonce : list Z) (w : ClientWorld) (control : bool) : option Frame -> ClientWorld -> Prop :=
| reader_continues a f a' :
    reader control w = RReading a -> read_frame nonce control a f = Ok (a', None) ->
    reader_step nonce w control (Some f) (at_reader control (RReading a') w)
| reader_accepts a f a' m w' :
    reader control w = RReading a -> read_frame nonce control a f = Ok (a', Some m) -> accept control m w = Ok w' ->
    reader_step nonce w control (Some f) (at_reader control (RReading a') w')
| reader_refuses a f e :
    reader control w = RReading a ->
    read_frame nonce control a f = Err e \/ (exists a' m, read_frame nonce control a f = Ok (a', Some m) /\ accept control m w = Err e) ->
    reader_step nonce w control (Some f) (fails [ascii_bytes e] (at_reader control REnded w))
| reader_broken a why :
    reader control w = RReading a -> reader_step nonce w control None (fails why (at_reader control REnded w))
| reader_ends a :
    reader control w = RReading a -> read_ended control a (w_state w) = Ok tt ->
    reader_step nonce w control None (at_reader control REnded w)
| reader_cut a e :
    reader control w = RReading a -> read_ended control a (w_state w) = Err e ->
    reader_step nonce w control None (fails [ascii_bytes e] (at_reader control REnded w)).

(** *** Shutdown *)

(** [try_wait] and [wait] may fail; then the caller returns with its error. *)
(** @source src/src/filesystem_worker/client.rs:715-803 Client::try_shutdown, Client::terminate_after_dependents_drained *)
Inductive shutdown_step (w : ClientWorld) : ClientWorld -> Prop :=
| shutdown_begins :
    w_shutdown w = DNone -> shutdown_step w (at_shutdown DPolling (notify true (at_state (signal_stop (w_state w)) w)))
| shutdown_polls : w_shutdown w = DPolling -> (forall b, w_child w <> Exited b) -> shutdown_step w (at_shutdown DChecking w)
| shutdown_reaps success why :
    w_shutdown w = DPolling -> w_child w = Exited success ->
    shutdown_step w (at_shutdown DChecking (at_child (Reaped success) (notify true (at_state (child_exited success why (w_state w)) w))))
| shutdown_wait_fails : w_shutdown w = DPolling -> shutdown_step w (at_shutdown DNone w)
| shutdown_joins b :
    w_shutdown w = DChecking -> w_child w = Reaped b -> threads_ended w = true ->
    shutdown_step w (at_shutdown DVerifying (notify true (at_state (drained (w_state w)) w)))
| shutdown_incomplete :
    w_shutdown w = DChecking -> (forall b, w_child w <> Reaped b) \/ threads_ended w = false ->
    shutdown_step w (at_shutdown DInspecting w)
| shutdown_affirmed :
    w_shutdown w = DVerifying -> shutdown_verified (w_state w) = true ->
    shutdown_step w (at_shutdown DNone (log (log_clean true) (at_state (set_phase Stopped (w_state w)) w)))
| shutdown_unverified :
    w_shutdown w = DVerifying -> shutdown_verified (w_state w) = false -> shutdown_step w (at_shutdown DNone w)
| shutdown_refuses : w_shutdown w = DInspecting -> shutdown_refused (w_state w) = true -> shutdown_step w (at_shutdown DNone w)
| shutdown_waits : w_shutdown w = DInspecting -> shutdown_refused (w_state w) = false -> shutdown_step w (at_shutdown DPolling w)
| terminate_begins :
    w_shutdown w = DNone -> shutdown_step w (at_shutdown DKilling (notify true (at_state (terminate (w_state w)) w)))
| terminate_kills b :
    w_shutdown w = DKilling -> w_child w = Running \/ w_child w = Exited b ->
    shutdown_step w (at_shutdown DJoining (at_child (Reaped b) (notify true (at_state (set_reaped true (w_state w)) w))))
| terminate_wait_fails : w_shutdown w = DKilling -> shutdown_step w (at_shutdown DNone w)
| terminate_gone b : w_shutdown w = DKilling -> w_child w = Reaped b -> shutdown_step w (at_shutdown DJoining w)
| terminate_joins :
    w_shutdown w = DJoining -> threads_ended w = true ->
    shutdown_step w (at_shutdown DNone (notify true (at_state (set_io_drained true (w_state w)) w))).

(** ** The client *)

(** One step of one thread, of the child, or of somebody who signals.
    A step names the frame of a result that it takes from its pipe. *)
Inductive labelled_step (nonce : list Z) (epoch_id : LeaseId) (w : ClientWorld) : option Frame -> ClientWorld -> Prop :=
| step_call id w' : call_step w id w' -> labelled_step nonce epoch_id w None w'
| step_admission w' : admission_step w w' -> labelled_step nonce epoch_id w None w'
| step_store w' : store_step epoch_id w w' -> labelled_step nonce epoch_id w None w'
| step_writer w' : writer_step w w' -> labelled_step nonce epoch_id w None w'
| step_reader control f w' : reader_step nonce w control f w' -> labelled_step nonce epoch_id w (if control then None else f) w'
| step_shutdown w' : shutdown_step w w' -> labelled_step nonce epoch_id w None w'
| step_connect w' : connect_step w w' -> labelled_step nonce epoch_id w None w'
| step_cancel n s : connected w -> cancel n (w_state w) = Ok s -> labelled_step nonce epoch_id w None (notify true (at_state s w))
| step_refresh : connected w -> labelled_step nonce epoch_id w None (notify true (at_state (refresh_status (w_state w)) w))
| step_stop : connected w -> labelled_step nonce epoch_id w None (notify true (at_state (signal_stop (w_state w)) w))
| step_child_exits success : w_child w = Running -> labelled_step nonce epoch_id w None (at_child (Exited success) w)
| step_spurious : labelled_step nonce epoch_id w None (notify true w).
Definition step (nonce : list Z) (epoch_id : LeaseId) (w w' : ClientWorld) : Prop := exists f, labelled_step nonce epoch_id w f w'.

Inductive steps (nonce : list Z) (epoch_id : LeaseId) (w : ClientWorld) : ClientWorld -> Prop :=
| steps_refl : steps nonce epoch_id w w
| steps_next w1 w2 : steps nonce epoch_id w w1 -> step nonce epoch_id w1 w2 -> steps nonce epoch_id w w2.
Definition reachable (nonce : list Z) (epoch_id : LeaseId) (w : ClientWorld) : Prop := steps nonce epoch_id initial_world w.
End Client.
