(* ===== verification/FsClientCalls.v ===== *)
(** The invariant of the calls of the filesystem helper's client: what holds of the
    request, result and acknowledgement slots of src/src/filesystem_worker/client.rs
    between any two critical sections, and of what was sent, received and
    answered. *)
From stdpp Require Import base tactics option list numbers strings gmap sorting.
From Stdlib Require Import ZArith Lia.
From S2P Require Import Prelude Bytes FsWire FsOps FsClient.

Open Scope Z_scope.
Local Open Scope prog_scope.

Section Calls.
Context {ENGINE : Engine} {CODEC : HelperCodec} {CLIENT : ClientCodec} (nonce : list Z) (epoch_id : LeaseId).

(** ** What answers and acknowledgements rest on *)

Definition stopped_early : Failure := failure_says Canceled "filesystem request stopped before sending".
Definition removed_by_stop : Failure := failure_says Canceled "filesystem request removed before execution by Stop".
Definition is_execute (m : Message) : Prop := m_kind m = Execute.

(** The request was not sent, and will not be. *)
Definition unsent (s : CState) (l : ClientLog) (n : Z) : Prop :=
  n <= c_sequence s /\ (forall m, m ∈ l_sent l -> is_execute m -> m_sequence m <> n) /\
  (forall m, o_command (c_outgoing s) = Some m -> m_sequence m <> n).
(** An outcome in the result slot. *)
Definition sourced (s : CState) (l : ClientLog) (n : Z) (o : Outcome) (d : string) : Prop :=
  (n, o, d) ∈ l_results l \/
  d = ""%string /\ ((exists f, o = Err f /\ (n, CRejected f) ∈ l_controls l) \/ o = Err stopped_early /\ unsent s l n).
(** What a call may answer: the outcome of a result with its sequence, a
    rejection, that a stop came before the request was sent or executed, or the
    failure of the transport. *)
Definition explained (s : CState) (l : ClientLog) (n : Z) (r : Answer) : Prop :=
  match r with
  | Ok x => exists d, (n, Ok x, d) ∈ l_results l
  | Err (Failed f) =>
      (exists d, (n, Err f, d) ∈ l_results l) \/ (n, CRejected f) ∈ l_controls l \/
      (f = stopped_early /\ unsent s l n) \/
      (f = removed_by_stop /\ exists q v, (q, CStatus v) ∈ l_controls l /\ report_canceled v = Some n) \/
      is_Some (c_failure s)
  | Err (Refused _) => False
  end.
Definition answered (l : ClientLog) (n : Z) : Prop := exists o r, (n, o, r) ∈ l_answers l.
Definition acknowledgeable (l : ClientLog) (n : Z) (d : string) : Prop :=
  (exists o, (n, o, d) ∈ l_results l) /\ answered l n.
Definition submitted (l : ClientLog) (n : Z) (o : Operation) (b : list Z) : Prop := (n, o, b) ∈ l_submitted l.
Definition executes (l : ClientLog) : list Message := filter is_execute (l_sent l).

(** [live] is the call that waits for an answer. *)
Record request_inv (s : CState) (l : ClientLog) (live : option (Operation * Z)) : Prop := {
  ri_sequence : (l_submitted l).*1.*1 = seqZ 1 (c_sequence s) /\ 0 <= c_sequence s;
  ri_live : forall o n, live = Some (o, n) ->
    c_waiting s = Some n /\ n = c_sequence s /\ (exists b, submitted l n o b) /\ ~ answered l n;
  ri_waiting : forall n, c_waiting s = Some n -> n <= c_sequence s /\ (is_Some live \/ is_Some (c_failure s));
  ri_command : forall m, o_command (c_outgoing s) = Some m -> exists o b,
    submitted l (c_sequence s) o b /\ m = mkMessage Execute (c_sequence s) b /\
    o_command_cleanup (c_outgoing s) = is_cleanup o /\ (forall m', m' ∈ executes l -> m_sequence m' < c_sequence s);
  ri_closing : c_closing s = true -> is_Some (o_command (c_outgoing s)) ->
    o_command_cleanup (c_outgoing s) = true \/ o_close (c_outgoing s) = true;
  ri_order : StronglySorted Z.lt (m_sequence <$> executes l);
  ri_sent : forall m, m ∈ executes l -> m_sequence m <= c_sequence s /\ exists o, submitted l (m_sequence m) o (m_bytes m);
  ri_result : forall n o d, c_result s = Some (n, o, d) -> n <= c_sequence s /\ sourced s l n o d;
  ri_ack : forall n d, o_ack (c_outgoing s) = Some (n, d) -> acknowledgeable l n d;
  ri_acks : forall m, m ∈ l_sent l -> m_kind m = Ack ->
    exists d, encode_ack (m_sequence m, d) = Ok (m_bytes m) /\ acknowledgeable l (m_sequence m) d;
  ri_answers : forall n o r, (n, o, r) ∈ l_answers l -> explained s l n r /\ exists b, submitted l n o b;
  ri_once : NoDup (l_answers l).*1.*1;
  ri_answered : forall n o b, submitted l n o b -> answered l n \/ live = Some (o, n);
}.

(** ** Steps that leave the requests alone *)

Definition core (s : CState) : Z * option Z * option Message * bool * option (Z * Outcome * string) * option (Z * string) :=
  (c_sequence s, c_waiting s, o_command (c_outgoing s), o_command_cleanup (c_outgoing s), c_result s, o_ack (c_outgoing s)).
Record quiet (s s' : CState) : Prop := {
  qu_core : core s' = core s;
  qu_failure : is_Some (c_failure s) -> is_Some (c_failure s');
  qu_closing : c_closing s' = true -> c_closing s = true \/ o_close (c_outgoing s') = true;
  qu_close : o_close (c_outgoing s) = true -> o_close (c_outgoing s') = true;
}.
(** A message that carries neither a request nor an acknowledgement. *)
Definition plain (m : Message) : Prop := ~ is_execute m /\ m_kind m <> Ack.
Record extends (l l' : ClientLog) : Prop := {
  ex_submitted : l_submitted l' = l_submitted l;
  ex_answers : l_answers l' = l_answers l;
  ex_sent : l_sent l' = l_sent l \/ exists m, plain m /\ l_sent l' = l_sent l ++ [m];
  ex_results : l_results l ⊆ l_results l';
  ex_controls : l_controls l ⊆ l_controls l';
}.
Lemma quiet_refl s : quiet s s.
Proof. split; auto. Qed.
Lemma quiet_trans s1 s2 s3 : quiet s1 s2 -> quiet s2 s3 -> quiet s1 s3.
Proof.
  intros [A1 A2 A3 A4] [B1 B2 B3 B4]. split; [congruence|auto| |auto]. intros [?|?]%B3; [|by right].
  destruct A3 as [?|?]; auto.
Qed.
Lemma extends_refl l : extends l l.
Proof. split; auto. Qed.
Lemma core_eq s s' : core s' = core s ->
  c_sequence s' = c_sequence s /\ c_waiting s' = c_waiting s /\ o_command (c_outgoing s') = o_command (c_outgoing s) /\
  o_command_cleanup (c_outgoing s') = o_command_cleanup (c_outgoing s) /\ c_result s' = c_result s /\
  o_ack (c_outgoing s') = o_ack (c_outgoing s).
Proof. unfold core. intros H. by injection H as -> -> -> -> -> ->. Qed.

Lemma extends_executes l l' : extends l l' -> executes l' = executes l.
Proof.
  intros H. unfold executes. destruct (ex_sent _ _ H) as [->|(m & [Hm _] & ->)]; [done|].
  rewrite filter_app, filter_cons_False, filter_nil by done. apply app_nil_r.
Qed.
Lemma elem_executes l m : m ∈ executes l <-> m ∈ l_sent l /\ is_execute m.
Proof. unfold executes. rewrite list_elem_of_filter. tauto. Qed.

(** The facts that only grow. *)
Record better (s : CState) (l : ClientLog) (s' : CState) (l' : ClientLog) : Prop := {
  be_failure : is_Some (c_failure s) -> is_Some (c_failure s');
  be_unsent : forall n, unsent s l n -> unsent s' l' n;
  be_results : l_results l ⊆ l_results l';
  be_controls : l_controls l ⊆ l_controls l';
}.
Lemma better_explained s l s' l' n r : better s l s' l' -> explained s l n r -> explained s' l' n r.
Proof.
  intros [B1 B2 B3 B4]. unfold explained. destruct r as [x|[f|m]]; [|intros [[d H]|[H|[[-> H]|[[-> (q & v & H & Hv)]|H]]]]|done].
  - intros [d H]. exists d. by apply B3.
  - left. exists d. by apply B3.
  - right; left. by apply B4.
  - right; right; left. auto.
  - do 3 right; left. split; [done|]. exists q, v. auto.
  - do 4 right. auto.
Qed.
Lemma better_sourced s l s' l' n o d : better s l s' l' -> sourced s l n o d -> sourced s' l' n o d.
Proof.
  intros [B1 B2 B3 B4] [H|(-> & [(f & -> & H)|[-> H]])]; [left; by apply B3| |].
  - right. split; [done|]. left. exists f. auto.
  - right. split; [done|]. right. auto.
Qed.
Lemma acknowledgeable_mono l l' n d :
  l_results l ⊆ l_results l' -> l_answers l ⊆ l_answers l' -> acknowledgeable l n d -> acknowledgeable l' n d.
Proof. intros H1 H2 [[o Ho] (o' & r & Hr)]. split; [exists o; auto|exists o', r; auto]. Qed.

Lemma better_quiet s l s' l' : quiet s s' -> extends l l' -> better s l s' l'.
Proof.
  intros Hq He. destruct (core_eq _ _ (qu_core _ _ Hq)) as (Hs & _ & Hc & _). split; [apply Hq| |apply He|apply He].
  intros n (H1 & H2 & H3). unfold unsent. rewrite Hs, Hc. split_and!; [done| |done].
  intros m Hm Hx. apply H2; [|done]. assert (m ∈ executes l') as H by by apply elem_executes.
  rewrite (extends_executes _ _ He) in H. by apply elem_executes in H as [? _].
Qed.
Lemma request_quiet s l s' l' live : request_inv s l live -> quiet s s' -> extends l l' -> request_inv s' l' live.
Proof.
  intros Hi Hq He. pose proof (better_quiet _ _ _ _ Hq He) as Hb. pose proof (extends_executes _ _ He) as Hx.
  destruct (core_eq _ _ (qu_core _ _ Hq)) as (Hs & Hw & Hc & Hcc & Hr & Ha). pose proof He as [E1 E2 E3 E4 E5].
  split; rewrite ?E1, ?E2, ?Hs, ?Hc, ?Hw, ?Hcc, ?Ha, ?Hr, ?Hx; try apply Hi; unfold submitted, answered in *.
  - rewrite E1, E2. apply Hi.
  - intros n [? [?|?]]%(ri_waiting _ _ _ Hi); (split; [done|]); [by left|right]. by apply Hq.
  - rewrite E1. apply Hi.
  - intros [H|H]%(qu_closing _ _ Hq) Hm; [|by right]. destruct (ri_closing _ _ _ Hi H Hm) as [?|?%(qu_close _ _ Hq)]; auto.
  - rewrite E1. apply Hi.
  - intros n o d H. destruct (ri_result _ _ _ Hi n o d H). split; [done|]. by eapply better_sourced.
  - intros n d H. eapply acknowledgeable_mono; [exact E4|by rewrite E2|]. by apply Hi.
  - intros m Hm Hk. assert (m ∈ l_sent l) as Hm'.
    { destruct E3 as [E3|(m' & [_ Hp] & E3)]; rewrite E3 in Hm; [done|]. apply elem_of_app in Hm as [?| ->%list_elem_of_singleton]; done. }
    destruct (ri_acks _ _ _ Hi m Hm' Hk) as (d & Hd & H). exists d. split; [done|].
    eapply acknowledgeable_mono; [exact E4|by rewrite E2|done].
  - rewrite E1. intros n o r (H1 & H2)%(ri_answers _ _ _ Hi). split; [by eapply better_explained|done].
  - rewrite E1, E2. apply Hi.
Qed.

(** ** Steps on the slots *)

(** A stop: the request in the slot is answered in its place. *)
Lemma request_withdraw s l live : request_inv s l live -> request_inv (withdraw (set_closing true s)) l live.
Proof.
  intros Hi. unfold withdraw. cbn [c_outgoing set_closing].
  destruct (o_command (c_outgoing s)) as [m|] eqn:Hm.
  - destruct (ri_command _ _ _ Hi m Hm) as (o & b & Hsub & -> & Hf & Hlt).
    destruct (o_command_cleanup (c_outgoing s)) eqn:Hc.
    + destruct Hi. split; cbn; rewrite ?Hm, ?Hc; try done; [|by left]. intros m [= <-]. exists o, b. by rewrite Hf.
    + assert (forall n, unsent s l n -> unsent (withdraw (set_closing true s)) l n) as Hu.
      { intros n (U1 & U2 & _). unfold withdraw. cbn. rewrite Hm, Hc. cbn. split_and!; done. }
      unfold withdraw in Hu. cbn in Hu. rewrite Hm, Hc in Hu.
      assert (better s l (set_result (Some (c_sequence s, Err stopped_early, ""%string))
        (outgoing (out_command None) (set_closing true s))) l) as Hb by by split.
      destruct Hi. split; cbn; try done.
      * intros n o' d [= <- <- <-]. split; [done|]. right. split; [done|]. right. split; [done|].
        split_and!; [cbn; lia| |done]. intros m' Hm' Hx. cbn. specialize (Hlt m' (proj2 (elem_executes l m') (conj Hm' Hx))). lia.
      * intros n o' r H. destruct (ri_answers0 n o' r H) as [H1 H2]. split; [by eapply better_explained|done].
  - destruct Hi. split; cbn; rewrite ?Hm; try done.
Qed.
(** The writer takes the request. *)
Lemma request_sent s l live m s' :
  request_inv s l live -> o_command (c_outgoing s) = Some m ->
  c_sequence s' = c_sequence s -> c_waiting s' = c_waiting s -> o_command (c_outgoing s') = None ->
  c_result s' = c_result s -> o_ack (c_outgoing s') = o_ack (c_outgoing s) -> c_failure s' = c_failure s ->
  request_inv s' (log_sent (l_sent l ++ [m]) l) live.
Proof.
  intros Hi Hm E1 E2 E3 E4 E5 E6. destruct (ri_command _ _ _ Hi m Hm) as (o & b & Hsub & Hmm & Hf & Hlt).
  assert (is_execute m) as Hx by by subst m. assert (m_sequence m = c_sequence s) as Hseq by by subst m.
  set (l' := log_sent (l_sent l ++ [m]) l).
  assert (executes l' = executes l ++ [m]) as He.
  { unfold executes, l'. cbn. rewrite filter_app, filter_cons_True, filter_nil by done. done. }
  assert (better s l s' l') as Hb.
  { split; [by rewrite E6| |done|done]. intros n (U1 & U2 & U3). split_and!; [by rewrite E1| |by rewrite E3].
    intros m' [Hm'| ->%list_elem_of_singleton]%elem_of_app Hx'; auto. }
  destruct Hi. split; rewrite ?E1, ?E2, ?E3, ?E4, ?E5, ?He; try done.
  - by rewrite E6.
  - rewrite fmap_app. apply StronglySorted_app. split; [|split; [done|repeat constructor]].
    intros x1 x2 (m1 & -> & Hm1)%list_elem_of_fmap ->%list_elem_of_singleton. rewrite Hseq. by apply Hlt.
  - intros m' [Hm'| ->%list_elem_of_singleton]%elem_of_app; [auto|]. split; [lia|]. exists o. by subst m.
  - intros n o' d H. destruct (ri_result0 n o' d H) as [H1 H2]. split; [done|]. by eapply better_sourced.
  - intros m' [Hm'| ->%list_elem_of_singleton]%elem_of_app Hk; [auto|]. unfold is_execute in Hx. congruence.
  - intros n o' r H. destruct (ri_answers0 n o' r H) as [H1 H2]. split; [by eapply better_explained|done].
Qed.
(** The writer takes an acknowledgement. *)
Lemma request_acked s l live a b :
  request_inv s l live -> o_ack (c_outgoing s) = Some a -> encode_ack a = Ok b ->
  request_inv (outgoing (out_ack None) s) (log_sent (l_sent l ++ [mkMessage Ack a.1 b]) l) live.
Proof.
  intros Hi Ha Hb. destruct a as [n d]. cbn [fst]. set (l' := log_sent _ l).
  assert (executes l' = executes l) as He.
  { unfold executes, l'. cbn. rewrite filter_app, filter_cons_False, filter_nil by done. apply app_nil_r. }
  assert (better s l (outgoing (out_ack None) s) l') as Hbe.
  { split; [done| |done|done]. intros k (U1 & U2 & U3). split_and!; [done| |done].
    intros m' [Hm'| ->%list_elem_of_singleton]%elem_of_app Hx'; [auto|done]. }
  pose proof (ri_ack _ _ _ Hi n d Ha) as Hok.
  destruct Hi. split; rewrite ?He; try done.
  - intros k o' d' H. destruct (ri_result0 k o' d' H) as [H1 H2]. split; [done|]. by eapply better_sourced.
  - intros m' [Hm'| ->%list_elem_of_singleton]%elem_of_app Hk; [auto|]. exists d. done.
  - intros k o' r H. destruct (ri_answers0 k o' r H) as [H1 H2]. split; [by eapply better_explained|done].
Qed.
(** A reader fills the result slot. *)
Lemma request_arrives s l live n o d l' :
  request_inv s l live -> c_waiting s = Some n -> extends l l' -> l_sent l' = l_sent l ->
  ((n, o, d) ∈ l_results l' \/ d = ""%string /\ exists f, o = Err f /\ (n, CRejected f) ∈ l_controls l') ->
  request_inv (set_result (Some (n, o, d)) s) l' live.
Proof.
  intros Hi Hw He Hsent Hsrc. destruct (ri_waiting _ _ _ Hi n Hw) as [Hn _].
  assert (request_inv s l' live) as Hi' by (eapply request_quiet; [exact Hi|apply quiet_refl|done]).
  clear Hi He. destruct Hi'. split; try done. cbn. intros n' o' d' [= <- <- <-]. split; [done|].
  destruct Hsrc as [H|(-> & H)]; [by left|right]. split; [done|by left].
Qed.

(** ** Calls *)

Lemma submitted_bounds s l live n o b : request_inv s l live -> submitted l n o b -> 1 <= n <= c_sequence s.
Proof.
  intros Hi H. destruct (ri_sequence _ _ _ Hi) as [Hs _]. assert (n ∈ (l_submitted l).*1.*1) as Hn.
  { apply list_elem_of_fmap. exists (n, o). split; [done|]. apply list_elem_of_fmap. by exists (n, o, b). }
  rewrite Hs in Hn. apply elem_of_seqZ in Hn. lia.
Qed.
Lemma answered_bounds s l live n : request_inv s l live -> answered l n -> 1 <= n <= c_sequence s.
Proof. intros Hi (o & r & H). destruct (ri_answers _ _ _ Hi n o r H) as [_ [b Hb]]. by eapply submitted_bounds. Qed.

Lemma request_submit s l o b canceled n s' :
  request_inv s l None -> submit o b canceled s = Ok (n, s') ->
  request_inv s' (log_submitted (l_submitted l ++ [(n, o, b)]) l) (Some (o, n)).
Proof.
  intros Hi H. unfold submit in H. destruct (c_failure s) eqn:Hfail; [done|]. apply rbind_Ok in H as ([] & Hadm & H).
  unfold rensure in Hadm. destruct (call_admitted o s) eqn:Hadmits; [clear Hadm|done].
  apply rbind_Ok in H as (_ & _ & H). apply rbind_Ok in H as ([] & Hfree & H). unfold rensure in Hfree.
  destruct (is_none (c_waiting s) && is_none (c_result s)) eqn:Hf; [clear Hfree|done].
  apply andb_true_iff in Hf as [_ Hres]. destruct (c_result s) eqn:Hres'; [done|clear Hres].
  destruct (checked_add (c_sequence s) 1) as [k|] eqn:Hk; [|done]. injection H as <- <-.
  apply checked_add_Some in Hk as [-> _]. set (n := c_sequence s + 1). set (l' := log_submitted _ l).
  destruct (ri_sequence _ _ _ Hi) as [Hseq Hnn].
  match goal with |- request_inv ?t _ _ => set (s' := t) end.
  assert (forall k o' b', submitted l k o' b' -> submitted l' k o' b') as Hsub.
  { intros k o' b' Hx. apply elem_of_app. by left. }
  assert (submitted l' n o b) as Hnew by (apply elem_of_app; right; by left).
  assert (better s l s' l') as Hb.
  { split; [by rewrite Hfail; intros []| |done|done]. intros k (U1 & U2 & U3). split_and!; cbn; [lia|done|].
    intros m [= <-]. cbn. lia. }
  split.
  - cbn. split; [|lia]. rewrite !fmap_app, Hseq. unfold n. rewrite seqZ_app by lia. cbn. by rewrite (Z.add_comm 1).
  - intros o' n' [= <- <-]. split_and!; [done|done|by exists b|]. intros Hx%(answered_bounds _ _ _ _ Hi). unfold n in Hx. lia.
  - intros k [= <-]. split; [done|]. left. by eexists.
  - intros m [= <-]. exists o, b. split_and!; [done|done|done|]. intros m' Hm'. destruct (ri_sent _ _ _ Hi m' Hm'). cbn. lia.
  - intros Hc _. cbn in Hc |- *. unfold call_admitted in Hadmits. rewrite Hc in Hadmits. left. by apply andb_true_iff in Hadmits as [_ ?].
  - apply Hi.
  - intros m Hm. destruct (ri_sent _ _ _ Hi m Hm) as (? & o' & Ho'). split; [cbn; lia|]. eauto.
  - cbn. by rewrite Hres'.
  - intros k d Ha. eapply acknowledgeable_mono; [done|done|]. by apply (ri_ack _ _ _ Hi).
  - intros m Hm Hk. destruct (ri_acks _ _ _ Hi m Hm Hk) as (d & ? & ?). eauto.
  - intros k o' r Hr. destruct (ri_answers _ _ _ Hi k o' r Hr) as [H1 [b' H2]]. split; [by eapply better_explained|eauto].
  - apply Hi.
  - intros k o' b' [Hx|[= -> -> ->]%list_elem_of_singleton]%elem_of_app; [|by right].
    destruct (ri_answered _ _ _ Hi k o' b' Hx); [by left|done].
Qed.

(** A call that waits gets an answer. *)
Lemma request_answers s l o n r s' :
  request_inv s l (Some (o, n)) -> explained s l n r -> c_sequence s' = c_sequence s ->
  (c_waiting s' = None \/ c_waiting s' = c_waiting s /\ is_Some (c_failure s)) ->
  o_command (c_outgoing s') = o_command (c_outgoing s) -> o_command_cleanup (c_outgoing s') = o_command_cleanup (c_outgoing s) ->
  o_close (c_outgoing s') = o_close (c_outgoing s) -> c_closing s' = c_closing s -> c_failure s' = c_failure s ->
  (c_result s' = None \/ c_result s' = c_result s) ->
  (forall k d, o_ack (c_outgoing s') = Some (k, d) ->
     o_ack (c_outgoing s) = Some (k, d) \/ k = n /\ exists o', (n, o', d) ∈ l_results l) ->
  request_inv s' (log_answers (l_answers l ++ [(n, o, r)]) l) None.
Proof.
  intros Hi Hr E1 E2 E3 E4 E5 E6 E7 E8 E9. set (l' := log_answers _ l).
  destruct (ri_live _ _ _ Hi o n eq_refl) as (Hw & Hn & [b Hsub] & Hna).
  assert (better s l s' l') as Hb.
  { split; [by rewrite E7| |done|done]. intros k (U1 & U2 & U3). split_and!; [by rewrite E1|done|by rewrite E3]. }
  assert (forall k, answered l k -> answered l' k) as Ha.
  { intros k (o' & r' & H). exists o', r'. apply elem_of_app. by left. }
  assert (answered l' n) as Han by (exists o, r; apply elem_of_app; right; by left).
  assert (l_answers l ⊆ l_answers l') as Hsa by (intros x Hx; apply elem_of_app; by left).
  split; rewrite ?E1, ?E3, ?E4, ?E5, ?E6; try apply Hi; try done.
  - intros k Hk. rewrite E7. destruct E2 as [E2|[E2 E2']]; [congruence|]. rewrite E2 in Hk. split; [by apply (ri_waiting _ _ _ Hi)|by right].
  - intros k o' d Hk. destruct E8 as [E8|E8]; rewrite E8 in Hk; [done|]. destruct (ri_result _ _ _ Hi k o' d Hk).
    split; [done|]. by eapply better_sourced.
  - intros k d [Hk|(-> & o' & Ho')]%E9; [|split; [by exists o'|done]].
    apply (acknowledgeable_mono l l'); [done|exact Hsa|]. by apply (ri_ack _ _ _ Hi).
  - intros m Hm Hk. destruct (ri_acks _ _ _ Hi m Hm Hk) as (d & Hd & H). exists d. split; [done|].
    apply (acknowledgeable_mono l l'); [done|exact Hsa|done].
  - intros k o' r' [Hx|[= -> -> ->]%list_elem_of_singleton]%elem_of_app.
    + destruct (ri_answers _ _ _ Hi k o' r' Hx) as [H1 H2]. split; [by eapply better_explained|done].
    + split; [by eapply better_explained|by exists b].
  - cbn. rewrite !fmap_app. apply NoDup_app. split_and!; [apply Hi| |apply NoDup_singleton].
    intros k Hk Hkn%list_elem_of_singleton. cbn in Hkn. rewrite Hkn in Hk. apply Hna. apply list_elem_of_fmap in Hk as ([n' o'] & -> & Hk).
    apply list_elem_of_fmap in Hk as ([[n1 o1] r1] & [= -> ->] & Hk). by exists o1, r1.
  - intros k o' b' Hx. left. destruct (ri_answered _ _ _ Hi k o' b' Hx) as [?|[= <- <-]]; auto.
Qed.

(** What is known of the last status report. *)
Record status_inv (s : CState) (l : ClientLog) : Prop := {
  si_canceled : forall n, report_canceled (c_status s) = Some n ->
    exists q v, (q, CStatus v) ∈ l_controls l /\ report_canceled v = Some n;
  si_stopped : c_phase s = Stopped -> o_close (c_outgoing s) = true /\
    exists q v, (q, CStatus v) ∈ l_controls l /\ report_phase v = Stopped;
}.

(** The turn of a waiting call. *)
Lemma request_turn s l o n canceled signaled retrieved t k :
  request_inv s l (Some (o, n)) -> status_inv s l -> call_turn o n canceled signaled retrieved s = (t, k) ->
  match t with
  | Returns r s' => request_inv s' (log_answers (l_answers l ++ [(n, o, r)]) l) None
  | Waits s' _ _ => request_inv s' l (Some (o, n))
  end.
Proof.
  intros Hi Hs. unfold call_turn. destruct (call_answer n s) as [[r s']|] eqn:Ha.
  - intros [= <- <-]. unfold call_answer in Ha. destruct (c_result s) as [[[i oc] d]|] eqn:Hres; [|done].
    destruct (Z.eqb_spec i n) as [->|]; [|done]. injection Ha as <- <-.
    destruct (ri_result _ _ _ Hi n oc d Hres) as [Hn Hsrc].
    assert (d <> ""%string -> (n, oc, d) ∈ l_results l) as Hd by (intros Hd; by destruct Hsrc as [|[-> _]]).
    eapply request_answers; [exact Hi|..]; try (by case_bool_decide).
    + destruct Hsrc as [H|(_ & [(f & -> & H)|[-> H]])]; [destruct oc; [by exists d|left; by exists d]|right; by left|right; right; by left].
    + left. by case_bool_decide.
    + left. by case_bool_decide.
    + intros k' d' H. case_bool_decide; cbn in H; [by left|]. injection H as <- <-. right. split; [done|]. exists oc. auto.
  - destruct (call_stopped n s) as [[r s']|] eqn:Hst.
    + intros [= <- <-]. unfold call_stopped in Hst. destruct (c_failure s) as [f|] eqn:Hf.
      * injection Hst as <- <-. eapply request_answers; [exact Hi|..]; try done; [|right; split; [done|by eexists]|by right|by left].
        do 4 right. by rewrite Hf.
      * case_bool_decide as Hc; [|done]. injection Hst as <- <-. eapply request_answers; [exact Hi|..]; try done; [|by left|by right|by left].
        do 3 right. left. split; [done|]. by apply (si_canceled _ _ Hs).
    + destruct (call_prompts o n canceled signaled retrieved s) as [[s' g] rt] eqn:Hp. intros [= <- <-].
      eapply request_quiet; [exact Hi| |apply extends_refl]. unfold call_prompts in Hp. injection Hp as <- _ _.
      repeat case_match; split; cbn; auto.
Qed.
End Calls.
