(* ===== verification/FsClientSafety.v ===== *)
(** The invariant of the filesystem helper's client over every interleaving of its
    callers and threads (src/src/filesystem_worker/client.rs): the slots and
    mutexes of the calls, the requests (FsClientCalls), the reports of the
    helper, the shutdown and the sleeping threads. *)
From stdpp Require Import base tactics option list numbers strings gmap sorting.
From Stdlib Require Import ZArith Lia.
From S2P Require Import Prelude Bytes FsWire FsOps FsClient FsClientCalls.

Open Scope Z_scope.
Local Open Scope prog_scope.

Section Safety.
Context {ENGINE : Engine} {CODEC : HelperCodec} {CLIENT : ClientCodec} (nonce : list Z) (epoch_id : LeaseId).

(** ** Notifications *)

Lemma notify_state n w : w_state (notify n w) = w_state w.
Proof. by destruct n. Qed.
Lemma notify_log n w : w_log (notify n w) = w_log w.
Proof. by destruct n. Qed.
Lemma notify_lock n w : w_lock (notify n w) = w_lock w.
Proof. by destruct n. Qed.
Lemma notify_child n w : w_child (notify n w) = w_child w.
Proof. by destruct n. Qed.
Lemma notify_shutdown n w : w_shutdown (notify n w) = w_shutdown w.
Proof. by destruct n. Qed.
Lemma notify_calls n w : w_calls (notify n w) = (if n then wake_call <$> w_calls w else w_calls w).
Proof. by destruct n. Qed.
Lemma notify_ended n w : threads_ended (notify n w) = threads_ended w.
Proof. destruct n; [|done]. unfold threads_ended. cbn. by destruct (w_writer w). Qed.
Create Rewrite HintDb client.
Hint Rewrite notify_state notify_log notify_lock notify_child notify_shutdown notify_calls notify_ended : client.

(** ** The mutex of the calls *)

Definition holding (pc : CallPc) : Prop := match pc with XStarting _ _ _ | XWaiting _ _ _ _ => True | _ => False end.
#[global] Instance holding_dec pc : Decision (holding pc).
Proof. destruct pc; apply _. Defined.
Record calls_inv (w : ClientWorld) : Prop := {
  ci_count : c_calls (w_state w) = Z.of_nat (size (w_calls w)) /\ c_calls (w_state w) <= 2;
  ci_lock : forall id pc, w_calls w !! id = Some pc -> holding pc -> w_lock w = Some id;
  ci_held : forall id, w_lock w = Some id -> exists pc, w_calls w !! id = Some pc /\ holding pc;
}.
(** The call that waits for its answer. *)
Definition live (w : ClientWorld) : option (Operation * Z) :=
  match w_lock w ≫= fun id => w_calls w !! id with Some (XWaiting o n _ _) => Some (o, n) | _ => None end.

Lemma wake_call_holding pc : holding (wake_call pc) <-> holding pc.
Proof. by destruct pc. Qed.
Lemma live_notify n w : live (notify n w) = live w.
Proof.
  unfold live. autorewrite with client. destruct n; [|done]. destruct (w_lock w) as [id|]; [|done]. cbn.
  rewrite lookup_fmap. by destruct (w_calls w !! id) as [[]|].
Qed.
Lemma calls_notify n w : calls_inv w -> calls_inv (notify n w).
Proof.
  intros [H1 H2 H3]. split; autorewrite with client; destruct n; try done.
  - by rewrite map_size_fmap.
  - intros id pc. rewrite lookup_fmap. destruct (w_calls w !! id) as [pc'|] eqn:Hpc; [|done]. intros [= <-] Hh.
    exact (H2 _ _ Hpc (proj1 (wake_call_holding pc') Hh)).
  - intros id (pc & Hpc & Hh)%H3. exists (wake_call pc). rewrite lookup_fmap, Hpc. split; [done|]. by apply wake_call_holding.
Qed.
(** A holder's entry may change, and it may give the mutex back. *)
Lemma calls_change w id pc0 pc s lock :
  calls_inv w -> w_calls w !! id = Some pc0 -> c_calls s = c_calls (w_state w) ->
  (holding pc -> lock = Some id) ->
  (if decide (holding pc0) then lock = if decide (holding pc) then Some id else None
   else if decide (holding pc) then w_lock w = None else lock = w_lock w) ->
  forall w', w_calls w' = <[id := pc]> (w_calls w) -> w_lock w' = lock -> w_state w' = s -> calls_inv w'.
Proof.
  intros [[C1 C1'] C2 C3] Hpc0 Hc Hl Hh w' E1 E2 E3. split; rewrite ?E1, ?E2, ?E3.
  - rewrite map_size_insert_Some by done. by rewrite Hc.
  - intros id' pc' Hpc' Hp. apply lookup_insert_Some in Hpc' as [[<- <-]|[Hne Hpc']]; [by apply Hl|].
    pose proof (C2 _ _ Hpc' Hp) as Hlock. case_decide as H0; [pose proof (C2 _ _ Hpc0 H0); congruence|].
    case_decide; congruence.
  - intros id' Hid. case_decide as H0; case_decide as H1; try (subst lock; try done).
    + injection Hid as <-. exists pc. rewrite lookup_insert_eq. by split.
    + rewrite (Hl H1) in Hid. injection Hid as <-. exists pc. rewrite lookup_insert_eq. by split.
    + destruct (C3 _ Hid) as (pc' & Hpc' & Hp). exists pc'. rewrite lookup_insert_ne; [done|]. intros ->. congruence.
Qed.

(** ** Steps of the others *)

(** A step that is no step of a caller of [execute]. *)
Record aside (w w' : ClientWorld) : Prop := {
  as_calls : w_calls w' = w_calls w \/ w_calls w' = wake_call <$> w_calls w;
  as_lock : w_lock w' = w_lock w;
  as_count : c_calls (w_state w') = c_calls (w_state w);
  as_requests : forall lv, request_inv (w_state w) (w_log w) lv -> request_inv (w_state w') (w_log w') lv;
  as_status : status_inv (w_state w) (w_log w) -> status_inv (w_state w') (w_log w');
  as_submitted : l_submitted (w_log w') = l_submitted (w_log w);
}.
Lemma aside_calls w w' : aside w w' -> calls_inv w -> calls_inv w' /\ live w' = live w.
Proof.
  intros [H1 H2 H3 _ _] Hi. destruct H1 as [H1|H1].
  - split; [|unfold live; by rewrite H1, H2]. destruct Hi. by split; rewrite ?H1, ?H2, ?H3.
  - apply (calls_notify true) in Hi. pose proof (live_notify true w) as Hl. split.
    + destruct Hi as [C1 C2 C3]. autorewrite with client in *. split; rewrite ?H1, ?H2, ?H3; done.
    + rewrite <- Hl. unfold live. autorewrite with client. by rewrite H1, H2.
Qed.
Lemma aside_notify n w w' : aside w w' -> (w_calls w' = w_calls w) -> aside w (notify n w').
Proof. intros [H1 H2 H3 H4 H5] Hc. split; autorewrite with client; try done. destruct n; rewrite Hc; auto. Qed.

(** What changes neither the requests nor what the last report says. *)
Record calm (s s' : CState) : Prop := {
  cm_quiet : quiet s s';
  cm_calls : c_calls s' = c_calls s;
  cm_canceled : report_canceled (c_status s') = report_canceled (c_status s);
  cm_stopped : c_phase s' = Stopped -> c_phase s = Stopped;
}.
Lemma status_calm s l s' l' : calm s s' -> l_controls l ⊆ l_controls l' -> status_inv s l -> status_inv s' l'.
Proof.
  intros [Q _ Hc Hp] Hl [S1 S2]. split.
  - intros n Hn. rewrite Hc in Hn. destruct (S1 n Hn) as (q & v & ? & ?). exists q, v. auto.
  - intros H. destruct (S2 (Hp H)) as [H1 (q & v & ? & ?)]. split; [by apply Q|]. exists q, v. auto.
Qed.
Lemma aside_calm w w' :
  calm (w_state w) (w_state w') -> extends (w_log w) (w_log w') ->
  (w_calls w' = w_calls w \/ w_calls w' = wake_call <$> w_calls w) -> w_lock w' = w_lock w -> aside w w'.
Proof.
  intros Hc He H1 H2. split; [done|done|apply Hc| | |apply He].
  - intros lv Hi. eapply request_quiet; [exact Hi|apply Hc|done].
  - intros Hs. eapply status_calm; [exact Hc|apply He|done].
Qed.
Ltac calmly := repeat case_match; simplify_eq; split; [split; cbn; auto|cbn; auto..].

Lemma calm_refl s : calm s s.
Proof. split; auto using quiet_refl. Qed.
Lemma calm_trans s1 s2 s3 : calm s1 s2 -> calm s2 s3 -> calm s1 s3.
Proof. intros [A1 A2 A3 A4] [B1 B2 B3 B4]. split; [by eapply quiet_trans|congruence|congruence|auto]. Qed.
Lemma calm_fail why s : calm s (fail_with why s).
Proof.
  unfold fail_with. destruct (c_failure s) eqn:H; (split; [split|..]); cbn; rewrite ?H; auto; done.
Qed.
Lemma calm_admission_turn o ses s : calm s (admission_turn o ses s).2.
Proof. unfold admission_turn. repeat case_match; cbn; apply calm_refl || (split; [by split; auto|done..]). Qed.
Lemma calm_store_turn n s : calm s (store_turn n s).2.
Proof. unfold store_turn. repeat case_match; cbn; apply calm_refl || (split; [by split; auto|done..]). Qed.
Lemma calm_store_asks q s r s' : store_asks q s = (r, s') -> calm s s'.
Proof. unfold store_asks. intros H. repeat case_match; simplify_eq; apply calm_refl || (split; [by split; auto|done..]). Qed.
Lemma calm_admission_asks o ses s s' : admission_asks o ses s = Ok s' -> calm s s'.
Proof. unfold admission_asks. intros H. apply rbind_Ok in H as (_ & _ & [= <-]). split; [by split; auto|done..]. Qed.
Lemma calm_cancel n s s' : cancel n s = Ok s' -> calm s s'.
Proof. unfold cancel. case_match; [|done]. intros [= <-]. split; [by split; auto|done..]. Qed.
Lemma calm_terminate s : calm s (terminate s).
Proof. split; [split|..]; cbn; try done; by right. Qed.
Lemma calm_exited b why s : calm s (child_exited b why s).
Proof. unfold child_exited. destruct b; (split; [split|..]); cbn; auto. Qed.

(** A stop. *)
Lemma signal_stop_spec s :
  signal_stop s = s \/ calm (withdraw (set_closing true s)) (signal_stop s).
Proof.
  unfold signal_stop. case_bool_decide; [by left|right]. destruct (checked_add _ _); (split; [split|..]); cbn; auto; done.
Qed.
Lemma withdraw_same s : c_calls (withdraw s) = c_calls s /\ c_status (withdraw s) = c_status s /\ c_failure (withdraw s) = c_failure s /\
  o_close (c_outgoing (withdraw s)) = o_close (c_outgoing s).
Proof. unfold withdraw. by repeat case_match. Qed.
Lemma aside_stop w : aside w (at_state (signal_stop (w_state w)) w).
Proof.
  destruct (signal_stop_spec (w_state w)) as [H|H].
  - rewrite H. apply aside_calm; [apply calm_refl|apply extends_refl|by left|done].
  - destruct (withdraw_same (set_closing true (w_state w))) as (H1 & H2 & _ & H4).
    split; cbn; [by left|done|by rewrite (cm_calls _ _ H), H1| | |done].
    + intros lv Hi. eapply request_quiet; [by apply request_withdraw|apply H|apply extends_refl].
    + intros Hs. eapply status_calm; [exact H|done|]. destruct Hs as [S1 S2]. split; unfold c_phase in *; by rewrite H2, ?H4.
Qed.

(** *** The writer *)

Lemma next_message_spec s m s' :
  next_message s = Send m s' ->
  (o_command (c_outgoing s) = Some m /\ c_outgoing s' = out_command None (c_outgoing s') /\
   s' = set_outgoing (c_outgoing s') s /\ o_ack (c_outgoing s') = o_ack (c_outgoing s) /\ o_close (c_outgoing s') = o_close (c_outgoing s)) \/
  (exists a b, o_ack (c_outgoing s) = Some a /\ encode_ack a = Ok b /\ m = mkMessage Ack a.1 b /\ s' = outgoing (out_ack None) s) \/
  (calm s s' /\ plain m).
Proof.
  unfold next_message, send_encoded. intros H.
  destruct (o_close _) eqn:Hcl; [done|].
  destruct (if o_command_cleanup _ then _ else _) as [m'|] eqn:Hc.
  { injection H as <- <-. left. destruct (o_command_cleanup _); [|done]. split_and!; done. }
  repeat case_match; simplify_eq; try (right; right; split; [split; [split; cbn; auto|done..]|done]).
  all: (left; split_and!; done) || (right; left; eexists _, _; split_and!; done).
Qed.

Lemma aside_trivial w w' :
  w_state w' = w_state w -> w_log w' = w_log w -> w_calls w' = w_calls w -> w_lock w' = w_lock w -> aside w w'.
Proof. intros H1 H2. intros ? ?. apply aside_calm; [rewrite H1; apply calm_refl|rewrite H2; apply extends_refl|by left|done]. Qed.
Lemma aside_fails w w' why :
  w_state w' = w_state w -> w_log w' = w_log w -> w_calls w' = w_calls w -> w_lock w' = w_lock w -> aside w (fails why w').
Proof.
  intros H1 H2 H3 H4. unfold fails. apply aside_notify; [|done]. apply aside_calm; cbn; [| |by left|done].
  - rewrite H1. apply calm_fail.
  - rewrite H2. apply extends_refl.
Qed.
Lemma aside_writer w w' : writer_step w w' -> aside w w'.
Proof.
  intros [Hw|why m Hw|Hw Hn|m s Hw Hn|Hw Hn|e Hw Hn|m Hw]; try (by apply aside_trivial); try (by apply aside_fails).
  destruct (next_message_spec _ _ _ Hn) as [(Hm & H1 & H2 & H3 & H4)|[(a & b & Ha & Hb & -> & ->)|[Hc Hp]]].
  - split; cbn; [by left|done|by rewrite H2| | |done].
    + intros lv Hi. eapply request_sent; [exact Hi|exact Hm|..]; rewrite H2; cbn; try done. by rewrite H1.
    + intros [S1 S2]. unfold c_phase in *. rewrite H2. split; unfold c_phase; cbn; [done|]. by rewrite H4.
  - split; cbn; [by left|done|done| | |done].
    + intros lv Hi. by apply request_acked.
    + intros [S1 S2]. by split.
  - apply aside_calm; cbn; [done| |by left|done]. split; cbn; try done. right. by exists m.
Qed.
Lemma aside_admission w w' : admission_step w w' -> aside w w'.
Proof.
  intros [o ses s Hc Ha H|o ses Ha]; unfold admission_after.
  - apply aside_calm; cbn; [|apply extends_refl|by right|done].
    eapply calm_trans; [by eapply calm_admission_asks|apply calm_admission_turn].
  - apply aside_calm; cbn; [apply calm_admission_turn|apply extends_refl|by left|done].
Qed.
Lemma aside_store w w' : store_step epoch_id w w' -> aside w w'.
Proof.
  intros [q n s Hc Hn Hq H|q v s Hc Hn Hq H|q e s Hc Hn Hq H|n q H]; unfold store_after; apply aside_calm; cbn;
    try apply extends_refl; try done; try (by left); try (by right); try (by eapply calm_store_asks); try apply calm_store_turn.
  eapply calm_trans; [by eapply calm_store_asks|apply calm_store_turn].
Qed.

(** *** The readers *)

Lemma aside_status_report w q v s :
  accept_status v (w_state w) = Ok s ->
  aside w (at_state s (log (fun l => log_controls (l_controls l ++ [(q, CStatus v)]) l) w)).
Proof.
  unfold accept_status. intros H. apply rbind_Ok in H as (_ & _ & [= <-]).
  assert (extends (w_log w) (log_controls (l_controls (w_log w) ++ [(q, CStatus v)]) (w_log w))) as He.
  { split; cbn; auto. intros x Hx. apply elem_of_app. by left. }
  assert ((q, CStatus v) ∈ l_controls (w_log w) ++ [(q, CStatus v)]) as Hq by (apply elem_of_app; right; by left).
  split; cbn; [by left|done|by repeat case_bool_decide| | |done].
  - intros lv Hi. eapply request_quiet; [exact Hi| |exact He]. repeat case_bool_decide; split; cbn; auto.
  - intros _. split; cbn.
    + intros n Hn. by exists q, v.
    + unfold c_phase. cbn. intros Hp. split; [by rewrite Hp|]. by exists q, v.
Qed.
Lemma aside_accept control m w w' : accept control m w = Ok w' -> aside w w'.
Proof.
  unfold accept. destruct control; intros H.
  - apply rbind_Ok in H as (v & _ & H). apply rbind_Ok in H as (s & H & Heq). assert (w' = notify true (at_state s (log (fun l => log_controls (l_controls l ++ [(m_sequence m, v)]) l) w))) as -> by congruence.
    clear Heq. apply aside_notify; [|done].
    set (l' := log_controls (l_controls (w_log w) ++ [(m_sequence m, v)]) (w_log w)).
    assert (extends (w_log w) l') as He.
    { split; cbn; auto. intros x Hx. apply elem_of_app. by left. }
    destruct v as [v|v|v|f]; cbn [accept_control] in H; [by apply aside_status_report| | |].
    + unfold accept_admission in H. apply rbind_Ok in H as (_ & _ & H). apply rbind_Ok in H as (_ & _ & [= <-]).
      apply aside_calm; cbn; [|exact He|by left|done]. split; [by split; auto|done..].
    + unfold accept_store in H. destruct (c_store_waiting _) as [[i query]|]; [|done].
      do 3 apply rbind_Ok in H as (_ & _ & H). injection H as <-.
      apply aside_calm; cbn; [|exact He|by left|done]. split; [by split; auto|done..].
    + unfold accept_rejection in H. apply rbind_Ok in H as (_ & _ & H). apply rbind_Ok in H as ([] & Hw & [= <-]).
      unfold rensure in Hw. case_bool_decide as Hwait; [|done]. split; cbn; [by left|done|done| | |done].
      * intros lv Hi. eapply request_arrives; [exact Hi|exact Hwait|exact He|done|]. right. split; [done|].
        exists f. split; [done|]. apply elem_of_app. right. by left.
      * intros [S1 S2]. split; cbn; [|intros [? (q & v & ? & ?)]%S2; split; [done|exists q, v; split; [by apply He|done]]].
        intros n (q & v & ? & ?)%S1. exists q, v. split; [by apply He|done].
  - apply rbind_Ok in H as (o & _ & H). apply rbind_Ok in H as ([s k] & H & [= <-]). apply aside_notify; [|done].
    set (l' := log_results (l_results (w_log w) ++ [(m_sequence m, o, hash_hex (m_bytes m))]) (w_log w)).
    assert (extends (w_log w) l') as He.
    { split; cbn; auto. intros x Hx. apply elem_of_app. by left. }
    unfold accept_result in H. apply rbind_Ok in H as (_ & _ & H).
    destruct (holds_result _ _ (c_completed _)); [|destruct (holds_result _ _ _)];
      [injection H as <- <-; apply aside_calm; cbn; [apply calm_refl|exact He|by left|done]..|].
    apply rbind_Ok in H as ([] & Hw & [= <- <-]). unfold rensure in Hw. destruct (bool_decide _ && _) eqn:Hb; [|done].
    apply andb_true_iff in Hb as [Hwait%bool_decide_eq_true _]. split; cbn; [by left|done|done| | |done].
    + intros lv Hi. eapply request_arrives; [exact Hi|exact Hwait|exact He|done|]. left. apply elem_of_app. right. by left.
    + intros [S1 S2]. by split.
Qed.
Lemma aside_reader control fr w w' : reader_step nonce w control fr w' -> aside w w'.
Proof.
  intros [a f a' Hr Hf|a f a' m w1 Hr Hf Ha|a f e Hr Hf|a why Hr|a Hr He|a e Hr He]; try (destruct control; by apply aside_trivial);
    try (destruct control; by apply aside_fails).
  apply aside_accept in Ha as [A1 A2 A3 A4 A5]. by destruct control; split.
Qed.

(** *** Start, shutdown and signals *)

Lemma aside_shutdown w w' : shutdown_step w w' -> aside w w'.
Proof.
  intros [Hd|Hd Hc|success why Hd Hc|Hd|b Hd Hc He|Hd Hi|Hd Hv|Hd Hv|Hd Hr|Hd Hr|Hd|b Hd Hc|Hd|b Hd Hc|Hd He]; try (by apply aside_trivial).
  - assert (aside w (notify true (at_state (signal_stop (w_state w)) w))) as [A1 A2 A3 A4 A5] by (apply aside_notify; [apply aside_stop|done]).
    by split.
  - apply aside_calm; cbn; [apply calm_exited|apply extends_refl|by right|done].
  - apply aside_calm; cbn; [split; [by split; auto|done..]|apply extends_refl|by right|done].
  - apply aside_calm; cbn; [|split; cbn; auto|by left|done]. split; [by split; auto|done|done|].
    unfold shutdown_verified in Hv. apply andb_true_iff in Hv as [Hv%bool_decide_eq_true _]. done.
  - apply aside_calm; cbn; [apply calm_terminate|apply extends_refl|by right|done].
  - apply aside_calm; cbn; [split; [by split; auto|done..]|apply extends_refl|by right|done].
  - apply aside_calm; cbn; [split; [by split; auto|done..]|apply extends_refl|by right|done].
Qed.
Lemma aside_connect w w' : connect_step w w' -> aside w w'.
Proof.
  intros [H|H|H|k why H]; try (by apply aside_trivial). unfold fails.
  apply aside_calm; cbn; [|apply extends_refl|by right|done].
  eapply calm_trans; [|apply calm_fail]. split; [by split; auto|done..].
Qed.
(** Every step is one of a caller, or one aside. *)
Lemma step_aside w w' : step nonce epoch_id w w' -> (exists id, call_step w id w') \/ aside w w'.
Proof.
  intros [fr [id w1 H|w1 H|w1 H|w1 H|control fr' w1 H|w1 H|w1 H|n s Hc H|Hc|Hc|success H|]]; [left; by exists id|right..].
  - by apply aside_admission.
  - by apply aside_store.
  - by apply aside_writer.
  - by eapply aside_reader.
  - by apply aside_shutdown.
  - by apply aside_connect.
  - apply aside_notify; [|done]. apply aside_calm; cbn; [by eapply calm_cancel|apply extends_refl|by left|done].
  - apply aside_notify; [|done]. apply aside_calm; cbn; [split; [by split; auto|done..]|apply extends_refl|by left|done].
  - apply aside_notify; [apply aside_stop|done].
  - by apply aside_trivial.
  - apply aside_notify; [by apply aside_trivial|done].
Qed.

(** ** Steps of the callers *)

Record client_inv (w : ClientWorld) : Prop := {
  cl_calls : calls_inv w;
  cl_requests : request_inv (w_state w) (w_log w) (live w);
  cl_status : status_inv (w_state w) (w_log w);
}.
Lemma client_notify n w : client_inv w -> client_inv (notify n w).
Proof.
  intros [H1 H2 H3]. split; [by apply calls_notify|rewrite live_notify; by autorewrite with client|by autorewrite with client].
Qed.
Lemma client_aside w w' : aside w w' -> client_inv w -> client_inv w'.
Proof.
  intros Ha [H1 H2 H3]. destruct (aside_calls _ _ Ha H1) as [Hc Hl]. split; [done|rewrite Hl; by apply Ha|by apply Ha].
Qed.
Lemma turn_status o n canceled signaled retrieved s t k :
  call_turn o n canceled signaled retrieved s = (t, k) ->
  let s' := match t with Returns _ s' => s' | Waits s' _ _ => s' end in
  c_status s' = c_status s /\ c_calls s' = c_calls s /\ o_close (c_outgoing s') = o_close (c_outgoing s) /\
  c_failure s' = c_failure s.
Proof.
  unfold call_turn, call_answer, call_stopped, call_prompts. intros H. by repeat case_match; simplify_eq.
Qed.
Lemma status_same s l s' l' :
  status_inv s l -> c_status s' = c_status s -> o_close (c_outgoing s') = o_close (c_outgoing s) ->
  l_controls l' = l_controls l -> status_inv s' l'.
Proof. intros [S1 S2] H1 H2 H3. split; unfold c_phase in *; by rewrite ?H1, ?H2, H3. Qed.

Lemma take_turn_inv w id pc0 o n canceled signaled retrieved :
  calls_inv w -> w_calls w !! id = Some pc0 -> holding pc0 -> request_inv (w_state w) (w_log w) (Some (o, n)) ->
  status_inv (w_state w) (w_log w) -> client_inv (take_turn id o n canceled signaled retrieved w).
Proof.
  intros Hc Hpc Hh Hr Hs. unfold take_turn. destruct (call_turn o n canceled signaled retrieved (w_state w)) as [t k] eqn:Ht.
  apply client_notify. pose proof (request_turn _ _ _ _ _ _ _ _ _ Hr Hs Ht) as Hr'.
  pose proof (turn_status _ _ _ _ _ _ _ _ Ht) as (H1 & H2 & H3 & _).
  destruct t as [r s|s g rt]; split; cbn [w_state w_log call_returns at_state at_calls at_lock log at_log].
  - eapply (calls_change w id pc0 XReturned s None); try done. by rewrite decide_True.
  - exact Hr'.
  - by eapply status_same.
  - eapply (calls_change w id pc0 (XWaiting o n g rt) s (Some id)); try done; [by rewrite decide_True|].
    by apply (ci_lock _ Hc id pc0).
  - unfold live. cbn. rewrite (ci_lock _ Hc id pc0 Hpc Hh). cbn. by rewrite lookup_insert_eq.
  - by eapply status_same.
Qed.
(** A change of a caller's place that does not touch the shared state. *)
Lemma place_inv w id pc0 pc lock :
  client_inv w -> w_calls w !! id = Some pc0 ->
  (holding pc -> lock = Some id) -> (forall o n g r, pc0 <> XWaiting o n g r) -> (forall o n g r, pc <> XWaiting o n g r) ->
  (if decide (holding pc0) then lock = if decide (holding pc) then Some id else None
   else if decide (holding pc) then w_lock w = None else lock = w_lock w) ->
  client_inv (at_calls (<[id := pc]> (w_calls w)) (at_lock lock w)).
Proof.
  intros [Hc Hr Hs] Hpc Hl Hn0 Hn Hh. split; cbn; [by eapply calls_change| |done].
  assert (live (at_calls (<[id := pc]> (w_calls w)) (at_lock lock w)) = live w) as ->; [|done].
  unfold live. cbn. case_decide as H0.
  - pose proof (ci_lock _ Hc _ _ Hpc H0) as ->. subst lock. cbn. rewrite Hpc. case_decide; cbn; [rewrite lookup_insert_eq|].
    + destruct pc; try (by destruct (Hn _ _ _ _ eq_refl)); destruct pc0; try (by destruct (Hn0 _ _ _ _ eq_refl)); done.
    + destruct pc0; try done; by destruct (Hn0 _ _ _ _ eq_refl).
  - case_decide as H1.
    + rewrite Hh, (Hl H1). cbn. rewrite lookup_insert_eq. destruct pc; try done; by destruct (Hn _ _ _ _ eq_refl).
    + subst lock. destruct (w_lock w) as [id'|] eqn:Hlk; [|done]. cbn. destruct (decide (id' = id)) as [->|Hne].
      * destruct (ci_held _ Hc _ Hlk) as (x & Hx1 & Hx2). congruence.
      * by rewrite lookup_insert_ne.
Qed.
Lemma place_same w id pc0 pc :
  client_inv w -> w_calls w !! id = Some pc0 -> (holding pc <-> holding pc0) ->
  (forall o n g r, pc0 <> XWaiting o n g r) -> (forall o n g r, pc <> XWaiting o n g r) ->
  client_inv (at_calls (<[id := pc]> (w_calls w)) w).
Proof.
  intros Hi Hpc Hh Hn0 Hn. assert (w = at_lock (w_lock w) w) as Hw by by destruct w.
  rewrite Hw at 2. eapply place_inv; try done.
  - intros H%Hh. by apply (ci_lock _ (cl_calls _ Hi) id pc0).
  - case_decide as H0; case_decide as H1; try tauto. by apply (ci_lock _ (cl_calls _ Hi) id pc0).
Qed.
Lemma submit_same o b canceled s n s' :
  submit o b canceled s = Ok (n, s') ->
  c_calls s' = c_calls s /\ c_status s' = c_status s /\ o_close (c_outgoing s') = o_close (c_outgoing s) /\ c_failure s' = c_failure s.
Proof.
  unfold submit. destruct (c_failure s) eqn:Hf; [done|]. intros H. do 3 apply rbind_Ok in H as (_ & _ & H).
  destruct (checked_add _ _); [|done]. by injection H as <- <-.
Qed.
Lemma client_enters w id o :
  client_inv w -> w_calls w !! id = None -> c_calls (w_state w) < 2 ->
  client_inv (at_calls (<[id := XAdmitted o]> (w_calls w)) (at_state (set_calls (c_calls (w_state w) + 1) (w_state w)) w)).
Proof.
  intros [[[C1 C1'] C2 C3] Hr Hs] Hid Hlt.
  assert (forall id', w_lock w = Some id' -> id' <> id) as Hne by (intros id' (pc & Hpc & _)%C3 ->; congruence).
  split; cbn.
  - split; cbn.
    + rewrite map_size_insert_None by done. lia.
    + intros id' pc [[<- <-]|[_ H]]%lookup_insert_Some Hh; [done|eauto].
    + intros id' H. destruct (C3 _ H) as (pc & Hpc & Hh). exists pc. by rewrite lookup_insert_ne by (symmetry; auto).
  - assert (live (at_calls (<[id := XAdmitted o]> (w_calls w)) (at_state (set_calls (c_calls (w_state w) + 1) (w_state w)) w)) = live w) as ->.
    { unfold live. cbn. destruct (w_lock w) as [id'|] eqn:Hl; [|done]. cbn. by rewrite lookup_insert_ne by (symmetry; auto). }
    eapply request_quiet; [exact Hr|by split; auto|apply extends_refl].
  - destruct Hs. by split.
Qed.
Lemma client_leaves w id :
  client_inv w -> w_calls w !! id = Some XReturned ->
  client_inv (at_calls (delete id (w_calls w)) (at_state (set_calls (c_calls (w_state w) - 1) (w_state w)) w)).
Proof.
  intros [[[C1 C1'] C2 C3] Hr Hs] Hid.
  assert (forall id', w_lock w = Some id' -> id' <> id) as Hne.
  { intros id' (pc & Hpc & Hh)%C3 ->. rewrite Hid in Hpc. by injection Hpc as <-. }
  split; cbn.
  - split; cbn.
    + rewrite map_size_delete_Some by by eexists. assert (size (w_calls w) <> 0%nat); [|lia].
      intros H0%map_size_empty_inv. by rewrite H0, lookup_empty in Hid.
    + intros id' pc [_ H]%lookup_delete_Some Hh. eauto.
    + intros id' H. destruct (C3 _ H) as (pc & Hpc & Hh). exists pc. by rewrite lookup_delete_ne by (symmetry; auto).
  - assert (live (at_calls (delete id (w_calls w)) (at_state (set_calls (c_calls (w_state w) - 1) (w_state w)) w)) = live w) as ->.
    { unfold live. cbn. destruct (w_lock w) as [id'|] eqn:Hl; [|done]. cbn. by rewrite lookup_delete_ne by (symmetry; auto). }
    eapply request_quiet; [exact Hr|by split; auto|apply extends_refl].
  - destruct Hs. by split.
Qed.
Lemma client_call w id w' : client_inv w -> call_step w id w' -> client_inv w'.
Proof.
  intros Hi [o Hc Hid Hlt|o e Hid He|o b Hid Hv He|o b Hid Hl|o b Hid Hw|o b canceled e Hid Hw He|o b canceled canceled' n s Hid Hw Hs|o n canceled g r Hid|Hid].
  - by apply client_enters.
  - by eapply place_same.
  - by eapply place_same.
  - eapply place_inv; try done.
  - by eapply place_same.
  - eapply place_inv; try done.
  - assert (live w = None) as Hlive.
    { unfold live. rewrite (ci_lock _ (cl_calls _ Hi) id _ Hid I). cbn. by rewrite Hid. }
    destruct (submit_same _ _ _ _ _ _ Hs) as (S1 & S2 & S3 & _).
    set (w1 := at_state s (log (fun l => log_submitted (l_submitted l ++ [(n, o, b)]) l) w)).
    assert (calls_inv w1) as Hc1.
    { destruct (cl_calls _ Hi) as [C1 C2 C3]. split; cbn; [by rewrite S1|done|done]. }
    eapply (take_turn_inv _ _ (XStarting o b false)); try done.
    + by apply calls_notify.
    + cbn. by rewrite lookup_fmap, Hid.
    + cbn. eapply request_submit; [|done]. rewrite <- Hlive. apply Hi.
    + cbn. eapply status_same; [apply Hi|done..].
  - eapply (take_turn_inv _ _ (XWaiting o n g r)); try done; try apply Hi.
    assert (live w = Some (o, n)) as <-; [|apply Hi]. unfold live. rewrite (ci_lock _ (cl_calls _ Hi) id _ Hid I). cbn. by rewrite Hid.
  - apply (client_notify true). by apply client_leaves.
Qed.
Lemma client_initial : client_inv initial_world.
Proof.
  split; [split; cbn; done|split; cbn; try done; try constructor|split; done].
  all: intros; exfalso; match goal with H : _ |- _ => exact (not_elem_of_nil _ H) end.
Qed.
Lemma client_reachable w : reachable nonce epoch_id w -> client_inv w.
Proof.
  intros H. induction H as [|w1 w2 _ IH H]; [apply client_initial|].
  apply step_aside in H as [[id H]|H]; [by eapply client_call|by eapply client_aside].
Qed.
End Safety.
