(* ===== verification/FsClientShutdown.v ===== *)
(** What every step of the filesystem helper's client keeps
    (src/src/filesystem_worker/client.rs), and the invariant of its shutdown:
    when the child was reaped, when the threads have ended, and when a shutdown
    is affirmed. *)
From stdpp Require Import base tactics option list numbers strings gmap sorting.
From Stdlib Require Import ZArith Lia.
From S2P Require Import Prelude Bytes FsWire FsOps FsClient FsClientCalls FsClientSafety.

Open Scope Z_scope.
Local Open Scope prog_scope.

Section Shutdown.
Context {ENGINE : Engine} {CODEC : HelperCodec} {CLIENT : ClientCodec} (nonce : list Z) (epoch_id : LeaseId).

(** ** What every step keeps *)

Record progress (w w' : ClientWorld) : Prop := {
  pr_failure : is_Some (c_failure (w_state w)) -> is_Some (c_failure (w_state w'));
  pr_closing : c_closing (w_state w) = true -> c_closing (w_state w') = true;
  pr_controls : l_controls (w_log w) ⊆ l_controls (w_log w');
  pr_child : forall b, w_child w = Reaped b -> w_child w' = Reaped b;
  pr_ended : connected w -> threads_ended w = true -> threads_ended w' = true;
  pr_clean : l_clean (w_log w) = true -> l_clean (w_log w') = true;
  pr_submitted : l_submitted (w_log w) ⊆ l_submitted (w_log w');
  pr_answers : l_answers (w_log w) ⊆ l_answers (w_log w');
  pr_sent : l_sent (w_log w') = l_sent (w_log w) \/
    exists m s, w_writer w = WAwake /\ next_message (w_state w) = Send m s /\ l_sent (w_log w') = l_sent (w_log w) ++ [m];
}.
Lemma progress_refl w : progress w w.
Proof. split; auto. Qed.
Lemma progress_notify n w w' : progress w w' -> progress w (notify n w').
Proof. intros []. split; rewrite ?notify_state, ?notify_log, ?notify_child, ?notify_ended; done. Qed.
(** A step that only changes the state, and there less than everything. *)
Lemma progress_state w w' :
  (is_Some (c_failure (w_state w)) -> is_Some (c_failure (w_state w'))) ->
  (c_closing (w_state w) = true -> c_closing (w_state w') = true) ->
  w_child w' = w_child w -> threads_ended w' = threads_ended w -> w_log w' = w_log w -> progress w w'.
Proof. intros H1 H2 H3 H4 H5. split; rewrite ?H3, ?H4, ?H5; auto. Qed.

Lemma turn_closing o n canceled g r s t k :
  call_turn o n canceled g r s = (t, k) ->
  c_closing match t with Returns _ s' => s' | Waits s' _ _ => s' end = c_closing s.
Proof. unfold call_turn, call_answer, call_stopped, call_prompts. intros H. by repeat case_match; simplify_eq. Qed.
Lemma progress_turn id o n canceled g r w w1 : progress w w1 -> progress w (take_turn id o n canceled g r w1).
Proof.
  intros H. unfold take_turn. destruct (call_turn o n canceled g r (w_state w1)) as [t k] eqn:Ht.
  apply progress_notify. pose proof (turn_closing _ _ _ _ _ _ _ _ Ht) as Hc.
  pose proof (turn_status _ _ _ _ _ _ _ _ Ht) as (_ & _ & _ & Hf). destruct H.
  destruct t; split; cbn; rewrite ?Hf, ?Hc; try done. by apply list_subseteq_app_l.
Qed.
Lemma progress_call w id w' : call_step w id w' -> progress w w'.
Proof.
  intros [o Hc Hid Hlt|o e Hid He|o b Hid Hv He|o b Hid Hl|o b Hid Hw|o b canceled e Hid Hw He|o b canceled canceled' n s Hid Hw Hs|o n canceled g r Hid|Hid];
    try (by apply progress_state).
  - apply progress_turn. change (at_state s ?x) with (notify false (at_state s x)). apply (progress_notify true).
    destruct (submit_same _ _ _ _ _ _ Hs) as (_ & _ & _ & Hf).
    assert (c_closing s = c_closing (w_state w)) as Hcl.
    { unfold submit in Hs. destruct (c_failure (w_state w)); [done|]. do 3 apply rbind_Ok in Hs as (_ & _ & Hs).
      destruct (checked_add _ _); [|done]. by injection Hs as <- <-. }
    split; cbn; rewrite ?Hf, ?Hcl; auto. by apply list_subseteq_app_l.
  - apply progress_turn, progress_refl.
  - apply (progress_notify true). by apply progress_state.
Qed.
Lemma fail_same why s : c_closing (fail_with why s) = c_closing s /\ is_Some (c_failure (fail_with why s)).
Proof. unfold fail_with. destruct (c_failure s) eqn:H; cbn; rewrite ?H; eauto. Qed.
(** A step in which a thread ends, or a report arrives. *)
Lemma progress_fails w w1 why :
  w_state w1 = w_state w -> w_child w1 = w_child w -> w_log w1 = w_log w ->
  (connected w -> threads_ended w = false \/ threads_ended w1 = true) -> progress w (fails why w1).
Proof.
  intros H1 H2 H3 H4. unfold fails. apply progress_notify. destruct (fail_same why (w_state w)) as [Hc Hf].
  split; cbn [w_state w_child w_log at_state]; rewrite ?H1, ?H2, ?H3, ?Hc; auto. intros Hw He. destruct (H4 Hw) as [H|H]; [congruence|exact H].
Qed.
Lemma admission_turn_same o ses s :
  c_failure (admission_turn o ses s).2 = c_failure s /\ c_closing (admission_turn o ses s).2 = c_closing s.
Proof. unfold admission_turn. by repeat case_match. Qed.
Lemma store_turn_same n s : c_failure (store_turn n s).2 = c_failure s /\ c_closing (store_turn n s).2 = c_closing s.
Proof. unfold store_turn. by repeat case_match. Qed.
Lemma store_asks_same q s r s' : store_asks q s = (r, s') -> c_failure s' = c_failure s /\ c_closing s' = c_closing s.
Proof. unfold store_asks. intros H. by repeat case_match; simplify_eq. Qed.
Lemma progress_admission w w' : admission_step w w' -> progress w w'.
Proof.
  intros [o ses s Hc Ha Hs|o ses Ha]; unfold admission_after.
  - apply rbind_Ok in Hs as (_ & _ & [= <-]).
    match goal with |- context [admission_turn ?a ?b ?c] => destruct (admission_turn_same a b c) as [E1 E2] end.
    apply progress_state; cbn [w_state w_child w_log at_admission at_state notify at_store at_calls at_writer]; rewrite ?E1, ?E2; try done.
    exact (notify_ended true w).
  - destruct (admission_turn_same o ses (w_state w)) as [E1 E2]. by apply progress_state; cbn; rewrite ?E1, ?E2.
Qed.
Lemma progress_store w w' : store_step epoch_id w w' -> progress w w'.
Proof.
  intros [q n s Hc Hn Hq Hs|q v s Hc Hn Hq Hs|q e s Hc Hn Hq Hs|n q Hn]; unfold store_after.
  - destruct (store_turn_same n s) as [E1 E2], (store_asks_same _ _ _ _ Hs) as [F1 F2].
    apply progress_state; cbn [w_state w_child w_log at_admission at_state notify at_store at_calls at_writer]; rewrite ?E1, ?E2, ?F1, ?F2; try done.
    exact (notify_ended true w).
  - destruct (store_asks_same _ _ _ _ Hs) as [F1 F2]. by apply progress_state; cbn; rewrite ?F1, ?F2.
  - destruct (store_asks_same _ _ _ _ Hs) as [F1 F2]. by apply progress_state; cbn; rewrite ?F1, ?F2.
  - destruct (store_turn_same n (w_state w)) as [E1 E2]. by apply progress_state; cbn; rewrite ?E1, ?E2.
Qed.
Lemma next_message_same s m s' : next_message s = Send m s' -> c_failure s' = c_failure s /\ c_closing s' = c_closing s.
Proof. unfold next_message, send_encoded. intros H. by repeat case_match; simplify_eq. Qed.
Lemma not_ended w : w_writer w <> WEnded -> threads_ended w = false.
Proof. unfold threads_ended. by destruct (w_writer w). Qed.
Lemma progress_writer w w' : writer_step w w' -> progress w w'.
Proof.
  intros H. assert (threads_ended w = false) as Hne.
  { apply not_ended. destruct H as [Hw|why m [Hw|Hw]|Hw Hn|m s Hw Hn|Hw Hn|e Hw Hn|m Hw]; by rewrite Hw. }
  assert (forall pc, progress w (at_writer pc w)) as Hpc.
  { intros pc. split; cbn; auto. intros _. by rewrite Hne. }
  destruct H as [Hw|why m Hw|Hw Hn|m s Hw Hn|Hw Hn|e Hw Hn|m Hw]; try apply Hpc.
  - apply progress_fails; try done. by left.
  - destruct (next_message_same _ _ _ Hn) as [E1 E2].
    split; cbn; rewrite ?E1, ?E2; auto; [intros _; by rewrite Hne|]. right. by exists m, s.
  - apply progress_fails; try done. by left.
Qed.
Lemma accept_control_same n v s s' :
  accept_control n v s = Ok s' -> (is_Some (c_failure s) -> is_Some (c_failure s')) /\ c_closing s' = c_closing s.
Proof.
  destruct v as [v|v|v|f]; cbn; intros H; unfold accept_status, accept_store, accept_admission, accept_rejection in H.
  - apply rbind_Ok in H as (_ & _ & [= <-]). repeat case_bool_decide; split; cbn; eauto.
  - apply rbind_Ok in H as (_ & _ & H). by apply rbind_Ok in H as (_ & _ & [= <-]).
  - destruct (c_store_waiting s) as [[i q]|]; [|done]. apply rbind_Ok in H as (_ & _ & H).
    apply rbind_Ok in H as (_ & _ & H). by apply rbind_Ok in H as (_ & _ & [= <-]).
  - apply rbind_Ok in H as (_ & _ & H). by apply rbind_Ok in H as (_ & _ & [= <-]).
Qed.
Lemma accept_result_same n o d s s' k :
  accept_result n o d s = Ok (s', k) -> c_failure s' = c_failure s /\ c_closing s' = c_closing s.
Proof.
  unfold accept_result. intros H. apply rbind_Ok in H as (_ & _ & H).
  destruct (holds_result _ _ _); [by injection H as <- _|]. destruct (holds_result _ _ _); [by injection H as <- _|].
  by apply rbind_Ok in H as (_ & _ & [= <- _]).
Qed.
Lemma progress_accept control m w w' pc pc' :
  reader control w = pc -> pc <> REnded -> accept control m w = Ok w' -> progress w (at_reader control pc' w').
Proof.
  intros Hr Hpc H.
  assert (threads_ended w = false) as Hne.
  { unfold threads_ended. destruct control; cbn in Hr; rewrite Hr; destruct (w_writer w), pc; try done; by destruct (w_results w). }
  unfold accept in H. destruct control.
  - apply rbind_Ok in H as (v & _ & H). apply rbind_Ok in H as (s & Hs & [= <-]).
    destruct (accept_control_same _ _ _ _ Hs) as [H1 H2].
    split; cbn; rewrite ?H2, ?Hne; auto; [by apply list_subseteq_app_l|done].
  - apply rbind_Ok in H as (o & _ & H). apply rbind_Ok in H as ([s k] & Hs & [= <-]).
    destruct (accept_result_same _ _ _ _ _ _ Hs) as [H1 H2].
    destruct k; split; cbn; rewrite ?H1, ?H2, ?Hne; auto; done.
Qed.
Lemma progress_reader control fr w w' : reader_step nonce w control fr w' -> progress w w'.
Proof.
  intros H. assert (threads_ended w = false) as Hne.
  { assert (exists a, reader control w = RReading a) as [a Hr] by (destruct H; eauto).
    unfold threads_ended. destruct control; cbn in Hr; rewrite Hr; by destruct (w_writer w), (w_results w). }
  assert (forall pc, progress w (at_reader control pc w)) as Hpc.
  { intros pc. destruct control; split; cbn; auto; intros _; by rewrite Hne. }
  assert (forall why, progress w (fails why (at_reader control REnded w))) as Hf.
  { intros why. apply progress_fails; [by destruct control..|by left]. }
  destruct H as [a f a' Hr Hfr|a f a' m w1 Hr Hfr Ha|a f e Hr Hfr|a why Hr|a Hr He|a e Hr He]; auto.
  by eapply progress_accept.
Qed.

Lemma signal_stop_same s :
  (is_Some (c_failure s) -> is_Some (c_failure (signal_stop s))) /\ (c_closing s = true -> c_closing (signal_stop s) = true).
Proof.
  unfold signal_stop. case_bool_decide; [by split|]. destruct (withdraw_same (set_closing true s)) as (_ & _ & Hf & _).
  assert (c_closing (withdraw (set_closing true s)) = true) as Hc by (unfold withdraw; by repeat case_match).
  destruct (checked_add _ _); cbn; rewrite ?Hf, ?Hc; eauto.
Qed.
Lemma progress_stop w : progress w (at_state (signal_stop (w_state w)) w).
Proof. destruct (signal_stop_same (w_state w)). by apply progress_state. Qed.
Lemma ended_at_shutdown pc w : threads_ended (at_shutdown pc w) = threads_ended w.
Proof. done. Qed.
Lemma progress_at_shutdown pc w w' : progress w w' -> progress w (at_shutdown pc w').
Proof. intros []. by split. Qed.
Lemma progress_shutdown w w' : shutdown_step w w' -> progress w w'.
Proof.
  intros [Hd|Hd Hc|success why Hd Hc|Hd|b Hd Hc He|Hd Hi|Hd Hv|Hd Hv|Hd Hr|Hd Hr|Hd|b Hd Hc|Hd|b Hd Hc|Hd He];
    apply progress_at_shutdown; try apply progress_refl.
  - apply progress_notify, progress_stop.
  - match goal with |- progress _ (at_child ?c (notify ?n ?x)) => change (progress w (notify n (at_child c x))) end.
    apply progress_notify. split; cbn; rewrite ?Hc; auto; [|by destruct success|done].
    unfold child_exited. destruct success; cbn; eauto.
  - apply progress_notify. by apply progress_state.
  - split; cbn; auto.
  - apply progress_notify. apply progress_state; cbn; eauto.
  - match goal with |- progress _ (at_child ?c (notify ?n ?x)) => change (progress w (notify n (at_child c x))) end.
    apply progress_notify. destruct Hc as [Hc|Hc]; split; cbn; rewrite ?Hc; auto; done.
  - apply progress_notify. by apply progress_state.
Qed.
Lemma progress_connect w w' : connect_step w w' -> progress w w'.
Proof.
  intros H. assert (~ connected w) as Hn.
  { intros Hc. destruct H as [H|H|H|k why H]; by apply (Hc _ H). }
  destruct H as [H|H|H|k why H]; try (split; cbn; auto; done).
  apply progress_at_shutdown, progress_notify. destruct (fail_same why (outgoing (out_close true) (set_startup_failed true (w_state w)))) as [Hc Hf].
  split; cbn [w_state w_child w_log at_state at_writer at_results at_controls]; rewrite ?Hc; auto; done.
Qed.
Theorem progress_step w w' : step nonce epoch_id w w' -> progress w w'.
Proof.
  intros [fr [id w1 H|w1 H|w1 H|w1 H|control fr' w1 H|w1 H|w1 H|n s Hc H|Hc|Hc|success H|]].
  - by eapply progress_call.
  - by apply progress_admission.
  - by apply progress_store.
  - by apply progress_writer.
  - by eapply progress_reader.
  - by apply progress_shutdown.
  - by apply progress_connect.
  - apply progress_notify. unfold cancel in H. case_match; [|done]. injection H as <-. by apply progress_state.
  - apply progress_notify. by apply progress_state.
  - apply progress_notify, progress_stop.
  - split; cbn; auto. intros b. by rewrite H.
  - apply progress_notify, progress_refl.
Qed.

(** ** The shutdown *)

Record shutdown_inv (w : ClientWorld) : Prop := {
  sd_connecting : l_clean (w_log w) = true -> connected w;
  sd_exit : w_child w = Reaped false -> is_Some (c_failure (w_state w));
  sd_killing : w_shutdown w = DKilling -> is_Some (c_failure (w_state w));
  sd_verifying : w_shutdown w = DVerifying -> (exists b, w_child w = Reaped b) /\ threads_ended w = true;
  sd_clean : l_clean (w_log w) = true -> w_child w = Reaped true /\ threads_ended w = true /\
    exists q v, (q, CStatus v) ∈ l_controls (w_log w) /\ report_phase v = Stopped;
}.
(** A step that is no step of the shutdown. *)
Lemma shutdown_others w w' :
  progress w w' -> (w_child w' = w_child w \/ w_child w = Running /\ exists b, w_child w' = Exited b) ->
  w_shutdown w' = w_shutdown w -> l_clean (w_log w') = l_clean (w_log w) -> shutdown_inv w -> shutdown_inv w'.
Proof.
  intros Hp Hc Hs Hl [S1 S2 S3 S4 S5].
  assert (connected w <-> connected w') as Hcon by (unfold connected; by rewrite Hs).
  split; rewrite ?Hs, ?Hl.
  - intros H%S1. by apply Hcon.
  - intros H. apply (pr_failure _ _ Hp). destruct Hc as [Hc|[_ [b Hc]]]; [by apply S2; rewrite <- Hc|by rewrite Hc in H].
  - intros H%S3. by apply (pr_failure _ _ Hp).
  - intros H. destruct (S4 H) as [[b Hb] He]. split; [exists b; by apply (pr_child _ _ Hp)|].
    apply (pr_ended _ _ Hp); [|done]. intros k. by rewrite H.
  - intros H. destruct (S5 H) as (Hb & He & q & v & Hq & Hv).
    split_and!; [by apply (pr_child _ _ Hp)|apply (pr_ended _ _ Hp); auto|].
    exists q, v. split; [by apply (pr_controls _ _ Hp)|done].
Qed.
Lemma shutdown_notify n w : shutdown_inv w -> shutdown_inv (notify n w).
Proof. by apply shutdown_others; [apply progress_notify, progress_refl|left; by rewrite notify_child|rewrite notify_shutdown|rewrite notify_log]. Qed.
(** A step of the shutdown to another place. *)
Lemma shutdown_moves w w1 pc :
  shutdown_inv w -> connected w -> progress w w1 -> l_clean (w_log w1) = l_clean (w_log w) ->
  (w_child w1 = Reaped false -> is_Some (c_failure (w_state w1))) ->
  (pc = DKilling -> is_Some (c_failure (w_state w1))) ->
  (pc = DVerifying -> (exists b, w_child w1 = Reaped b) /\ threads_ended w1 = true) ->
  (forall k, pc <> DConnecting k) -> shutdown_inv (at_shutdown pc w1).
Proof.
  intros [S1 S2 S3 S4 S5] Hcon Hp Hl H1 H2 H3 H4. split; cbn; try done. rewrite Hl. intros H.
  destruct (S5 H) as (Hb & He & q & v & Hq & Hv).
  split_and!; [by apply (pr_child _ _ Hp)|by apply (pr_ended _ _ Hp)|]. exists q, v. split; [by apply (pr_controls _ _ Hp)|done].
Qed.
Lemma shutdown_step_inv w w' :
  shutdown_inv w -> status_inv (w_state w) (w_log w) -> shutdown_step w w' -> shutdown_inv w'.
Proof.
  intros Hi Hst H. pose proof (progress_shutdown _ _ H) as Hp.
  assert (connected w) as Hcon by (intros k; destruct H; congruence).
  pose proof (sd_exit _ Hi) as Hx.
  destruct H as [Hd|Hd Hc|success why Hd Hc|Hd|b Hd Hc He|Hd Hn|Hd Hv|Hd Hv|Hd Hr|Hd Hr|Hd|b Hd Hc|Hd|b Hd Hc|Hd He];
    try (by eapply shutdown_moves; [exact Hi|exact Hcon|apply progress_refl|..]).
  - eapply shutdown_moves; try done; [apply progress_notify, progress_stop|].
    intros Hb. apply (pr_failure _ _ (progress_stop w)), Hx, Hb.
  - eapply shutdown_moves; try done; [by destruct Hp|]. cbn. intros [= ->]. by eexists.
  - eapply shutdown_moves; try done; [apply progress_notify; by apply progress_state|].
    intros _. split; [exists b; by rewrite notify_child|by rewrite notify_ended].
  - destruct (sd_verifying _ Hi Hd) as [[b Hb] He]. unfold shutdown_verified in Hv.
    apply andb_true_iff in Hv as [Hv%bool_decide_eq_true Hf]. destruct (si_stopped _ _ Hst Hv) as [_ Hrep].
    assert (w_child w = Reaped true) as Hc.
    { destruct b; [done|]. destruct (Hx Hb) as [f Hf']. by rewrite Hf' in Hf. }
    split; cbn; try done; intros; congruence.
  - eapply shutdown_moves; try done; [|by eexists..]. apply progress_notify, progress_state; cbn; eauto.
  - eapply shutdown_moves; try done; [by destruct Hp|]. intros _. cbn. by apply (sd_killing _ Hi).
  - eapply shutdown_moves; try done. by destruct Hp.
Qed.
Lemma turn_world id o n canceled g r w :
  let w' := take_turn id o n canceled g r w in
  w_child w' = w_child w /\ w_shutdown w' = w_shutdown w /\ l_clean (w_log w') = l_clean (w_log w).
Proof. unfold take_turn. destruct (call_turn o n canceled g r (w_state w)) as [[] []]; done. Qed.
(** Nobody but the shutdown reaps the child or affirms anything. *)
Lemma step_shutdown_only w w' :
  step nonce epoch_id w w' -> shutdown_step w w' \/ connect_step w w' \/
  (w_child w' = w_child w \/ w_child w = Running /\ exists b, w_child w' = Exited b) /\
  w_shutdown w' = w_shutdown w /\ l_clean (w_log w') = l_clean (w_log w).
Proof.
  intros [fr [id w1 H|w1 H|w1 H|w1 H|control fr' w1 H|w1 H|w1 H|n s Hc H|Hc|Hc|success H|]]; auto; right; right.
  - destruct H; try (split_and!; [by left|done..]).
    + match goal with |- context [take_turn ?a ?b ?c ?d ?e ?f ?g] => destruct (turn_world a b c d e f g) as (H1' & H2' & H3') end.
      rewrite H1', H2', H3'. split_and!; [by left|done..].
    + match goal with |- context [take_turn ?a ?b ?c ?d ?e ?f ?g] => destruct (turn_world a b c d e f g) as (H1' & H2' & H3') end.
      rewrite H1', H2', H3'. split_and!; [by left|done..].
  - destruct H; (split_and!; [by left|done..]).
  - destruct H; (split_and!; [by left|done..]).
  - destruct H; (split_and!; [by left|done..]).
  - assert (forall m w2, accept control m w = Ok w2 ->
      w_child w2 = w_child w /\ w_shutdown w2 = w_shutdown w /\ l_clean (w_log w2) = l_clean (w_log w)) as Hacc.
    { intros m w2 Ha. unfold accept in Ha. destruct control.
      - apply rbind_Ok in Ha as (v & _ & Ha). by apply rbind_Ok in Ha as (s & _ & [= <-]).
      - apply rbind_Ok in Ha as (v & _ & Ha). apply rbind_Ok in Ha as ([s k] & _ & [= <-]). by destruct k. }
    destruct H as [a f a' Hr Hf|a f a' m w2 Hr Hf (H1 & H2 & H3)%Hacc|a f e Hr Hf|a why Hr|a Hr He|a e Hr He];
      destruct control; cbn; rewrite ?H1, ?H2, ?H3; (split_and!; [by left|done..]).
  - split_and!; [|done..]. right. split; [done|by eexists].
Qed.
Lemma shutdown_reachable w : reachable nonce epoch_id w -> shutdown_inv w.
Proof.
  intros Hr. induction Hr as [|w1 w2 Hr IH H]; [split; cbn; done|].
  pose proof (client_reachable nonce epoch_id w1 Hr) as Hcl. pose proof (progress_step _ _ H) as Hp.
  destruct (step_shutdown_only _ _ H) as [Hs|[Hs|(H1 & H2 & H3)]].
  - eapply shutdown_step_inv; [done|apply Hcl|done].
  - assert (exists k, w_shutdown w1 = DConnecting k) as [k Hk] by (destruct Hs; eauto).
    assert (l_clean (w_log w1) = false) as Hl.
    { destruct (l_clean (w_log w1)) eqn:Hl; [|done]. by destruct (sd_connecting _ IH Hl k). }
    pose proof (sd_exit _ IH) as Hx.
    assert (w_child w2 = w_child w1 /\ l_clean (w_log w2) = l_clean (w_log w1) /\ w_shutdown w2 <> DKilling /\ w_shutdown w2 <> DVerifying)
      as (E1 & E2 & E3 & E4) by by destruct Hs.
    split; rewrite ?E1, ?E2, ?Hl; try done. intros H'%Hx. by apply (pr_failure _ _ Hp).
  - by eapply shutdown_others.
Qed.
End Shutdown.
