(* ===== verification/FsClientWakeups.v ===== *)
(** Sleeping threads of the filesystem helper's client
    (src/src/filesystem_worker/client.rs): whoever waits on the condition variable
    waits for something that is not there. *)
From stdpp Require Import base tactics option list numbers strings gmap.
From Stdlib Require Import ZArith Lia.
From S2P Require Import Prelude Bytes FsWire FsOps FsClient FsClientCalls FsClientSafety.

Open Scope Z_scope.
Local Open Scope prog_scope.

Section Wakeups.
Context {ENGINE : Engine} {CODEC : HelperCodec} {CLIENT : ClientCodec} (nonce : list Z) (epoch_id : LeaseId).

Record sleepers_inv (w : ClientWorld) : Prop := {
  sl_writer : w_writer w = WAsleep -> next_message (w_state w) = Idle;
  sl_calls : forall id o b, w_calls w !! id = Some (XStarting o b true) -> start_waits (w_state w) = true;
  sl_admission : forall o ses, w_admission w = AWaiting o ses true -> (admission_turn o ses (w_state w)).1 = None;
  sl_store : forall n q, w_store w = SWaiting n q true -> (store_turn n (w_state w)).1 = None;
}.
(** A change of the state that gives no sleeper a reason to wake. *)
Record lulls (s s' : CState) : Prop := {
  lu_writer : next_message s = Idle -> next_message s' = Idle;
  lu_calls : start_waits s = true -> start_waits s' = true;
  lu_admission : forall o ses, (admission_turn o ses s).1 = None -> (admission_turn o ses s').1 = None;
  lu_store : forall n, (store_turn n s).1 = None -> (store_turn n s').1 = None;
}.
Lemma lulls_refl s : lulls s s.
Proof. done. Qed.

(** After a notification nobody sleeps. *)
Lemma sleepers_notified w : sleepers_inv (notify true w).
Proof.
  split; cbn.
  - by destruct (w_writer w).
  - intros id o b. rewrite lookup_fmap. by destruct (w_calls w !! id) as [[]|].
  - intros o ses. by destruct (w_admission w).
  - intros n q. by destruct (w_store w).
Qed.
Lemma sleepers_notify n w : sleepers_inv w -> sleepers_inv (notify n w).
Proof. destruct n; [intros _; apply sleepers_notified|done]. Qed.
(** A step without a notification: threads may wake or change, not fall asleep. *)
Lemma sleepers_quiet w w' :
  sleepers_inv w -> lulls (w_state w) (w_state w') ->
  (w_writer w' = WAsleep -> w_writer w = WAsleep) ->
  (forall id o b, w_calls w' !! id = Some (XStarting o b true) -> w_calls w !! id = Some (XStarting o b true)) ->
  (forall o ses, w_admission w' = AWaiting o ses true -> w_admission w = AWaiting o ses true) ->
  (forall n q, w_store w' = SWaiting n q true -> w_store w = SWaiting n q true) -> sleepers_inv w'.
Proof. intros [S1 S2 S3 S4] [L1 L2 L3 L4] H1 H2 H3 H4. split; eauto. Qed.
Lemma calls_insert_awake (m : gmap nat CallPc) id pc : (forall o b, pc <> XStarting o b true) ->
  forall id' o b, <[id := pc]> m !! id' = Some (XStarting o b true) -> m !! id' = Some (XStarting o b true).
Proof. intros H id' o b [[-> ->]|[_ Hx]]%lookup_insert_Some; [by destruct (H o b)|done]. Qed.

Lemma next_idle s : next_message s = Idle <->
  let q := c_outgoing s in
  o_close q = false /\ o_command q = None /\ o_stop q = None /\ o_cancel q = None /\ o_ack q = None /\ o_store q = None /\
  o_admission q = None /\ o_status q = None.
Proof.
  unfold next_message, send_encoded. split.
  - intros H. repeat case_match; simplify_eq; done.
  - cbn. intros (-> & -> & -> & -> & -> & -> & -> & ->). by destruct (o_command_cleanup _).
Qed.
(** A change outside of what any sleeper looks at. *)
Lemma lulls_same s s' :
  c_outgoing s' = c_outgoing s -> c_status s' = c_status s -> c_failure s' = c_failure s -> c_reaped s' = c_reaped s ->
  c_admission s' = c_admission s -> c_store s' = c_store s -> lulls s s'.
Proof.
  intros H1 H2 H3 H4 H5 H6. split.
  - by rewrite !next_idle, H1.
  - unfold start_waits, c_phase. by rewrite H2, H3.
  - intros o ses. unfold admission_turn. rewrite H3, H4, H5. by repeat case_match.
  - intros n. unfold store_turn, terminal, c_phase. rewrite H1, H2, H3, H4, H6. by repeat case_match.
Qed.
Lemma lulls_admission_turn o ses s : lulls s (admission_turn o ses s).2.
Proof.
  assert (forall a, c_admission s = Some a -> a.1 = o -> lulls s (set_admission None s)) as H.
  { intros [i v] Ha <-. split; [by rewrite !next_idle|done| |intros n; unfold store_turn, terminal, c_phase; cbn; by repeat case_match].
    intros o' ses'. unfold admission_turn. rewrite Ha. cbn. destruct (i =? o'); [done|]. by repeat case_match. }
  unfold admission_turn. destruct (c_admission s) as [[i v]|] eqn:Ha; [destruct (Z.eqb_spec i o) as [->|]|];
    [by eapply (H (o, v))|by destruct (c_reaped s); apply lulls_refl..].
Qed.
(** An answer of a store query is there, or the owner is gone: nobody sleeps on it. *)
Lemma lulls_store s s' :
  c_store s <> None \/ terminal s = true ->
  c_outgoing s' = c_outgoing s \/ c_outgoing s' = out_store None (c_outgoing s) ->
  c_status s' = c_status s -> c_failure s' = c_failure s -> c_reaped s' = c_reaped s -> c_admission s' = c_admission s -> lulls s s'.
Proof.
  intros H0 H1 H2 H3 H4 H5. split.
  - rewrite !next_idle. destruct H1 as [->| ->]; cbn; tauto.
  - unfold start_waits, c_phase. by rewrite H2, H3.
  - intros o ses. unfold admission_turn. rewrite H3, H4, H5. by repeat case_match.
  - intros n Hn. exfalso. unfold store_turn in Hn. destruct (c_store s) as [[i v]|]; [by destruct (i =? n)|].
    destruct H0 as [H0|H0]; [done|]. by rewrite H0 in Hn.
Qed.
Lemma lulls_store_turn n s : lulls s (store_turn n s).2.
Proof.
  unfold store_turn. destruct (c_store s) as [[i v]|] eqn:Hc.
  - destruct (i =? n); (apply lulls_store; [left; by rewrite Hc|by left|done..]).
  - destruct (terminal s) eqn:Ht; [|apply lulls_refl]. apply lulls_store; [by right|by right|done..].
Qed.
Lemma lulls_store_asks q s r s' : store_asks q s = (r, s') -> (forall n, r <> Ok (inr n)) -> lulls s s'.
Proof.
  unfold store_asks. intros H Hr. repeat case_match; simplify_eq;
    try apply lulls_refl; try (apply lulls_store; [left; congruence|by left|done..]);
    match goal with H : context [Ok (inr ?n)] |- _ => by destruct (Hr n) end.
Qed.
Lemma lulls_turn o n canceled g r s t k :
  call_turn o n canceled g r s = (t, k) -> k = false -> lulls s match t with Returns _ s' => s' | Waits s' _ _ => s' end.
Proof.
  unfold call_turn. destruct (call_answer n s) as [[? ?]|]; [by intros [= <- <-]|].
  destruct (call_stopped n s) as [[a s1]|] eqn:Hst.
  - intros [= <- <-] _. unfold call_stopped in Hst. destruct (c_failure s); [by injection Hst as _ <-|].
    case_bool_decide; [|done]. injection Hst as _ <-. by apply lulls_same.
  - unfold call_prompts. intros [= <- <-]. destruct g, r; cbn;
      repeat match goal with |- context [if ?b then _ else _] => destruct b; cbn end; done.
Qed.
Lemma lulls_takes s m s' : next_message s = Send m s' -> lulls s s'.
Proof.
  intros H. split; [by rewrite H| | |];
    assert (c_status s' = c_status s /\ c_failure s' = c_failure s /\ c_reaped s' = c_reaped s /\ c_admission s' = c_admission s /\
      c_store s' = c_store s /\ o_close (c_outgoing s') = o_close (c_outgoing s)) as (H2 & H3 & H4 & H5 & H6 & H7)
      by (unfold next_message, send_encoded in H; repeat case_match; simplify_eq; done).
  - unfold start_waits, c_phase. by rewrite H2, H3.
  - intros o ses. unfold admission_turn. rewrite H3, H4, H5. by repeat case_match.
  - intros n. unfold store_turn, terminal, c_phase. rewrite H2, H3, H4, H6, H7. by repeat case_match.
Qed.

(** ** Steps *)

Lemma sleepers_take_turn id o n canceled g r w : sleepers_inv w -> sleepers_inv (take_turn id o n canceled g r w).
Proof.
  intros Hi. unfold take_turn. destruct (call_turn o n canceled g r (w_state w)) as [t k] eqn:Ht.
  destruct k; [apply sleepers_notified|]. pose proof (lulls_turn _ _ _ _ _ _ _ _ Ht eq_refl) as Hl.
  destruct t; (eapply sleepers_quiet; [exact Hi|exact Hl|done| |done|done]); by apply calls_insert_awake.
Qed.
Lemma sleepers_call w id w' : sleepers_inv w -> call_step w id w' -> sleepers_inv w'.
Proof.
  intros Hi [o Hc Hid Hlt|o e Hid He|o b Hid Hv He|o b Hid Hl|o b Hid Hw|o b canceled e Hid Hw He|o b canceled canceled' n s Hid Hw Hs|o n canceled g r Hid|Hid].
  - eapply sleepers_quiet; [exact Hi|by apply lulls_same|done| |done|done]. by apply calls_insert_awake.
  - eapply sleepers_quiet; [exact Hi|done|done| |done|done]. by apply calls_insert_awake.
  - eapply sleepers_quiet; [exact Hi|done|done| |done|done]. by apply calls_insert_awake.
  - eapply sleepers_quiet; [exact Hi|done|done| |done|done]. by apply calls_insert_awake.
  - by destruct Hi as [S1 S2 S3 S4].
  - eapply sleepers_quiet; [exact Hi|done|done| |done|done]. by apply calls_insert_awake.
  - apply sleepers_take_turn, sleepers_notified.
  - by apply sleepers_take_turn.
  - apply sleepers_notified.
Qed.
Lemma sleepers_admission_after o ses w :
  sleepers_inv w -> sleepers_inv (admission_after o ses (admission_turn o ses (w_state w)) w).
Proof.
  intros Hi. unfold admission_after. pose proof (lulls_admission_turn o ses (w_state w)) as Hl.
  destruct (admission_turn o ses (w_state w)) as [[r|] s] eqn:Ht; cbn in Hl.
  - by eapply sleepers_quiet.
  - destruct Hi as [S1 S2 S3 S4], Hl as [L1 L2 L3 L4]. split; cbn; eauto.
    intros o' ses' [= <- <-]. apply L3. by rewrite Ht.
Qed.
Lemma sleepers_store_after n q w : sleepers_inv w -> sleepers_inv (store_after n q (store_turn n (w_state w)) w).
Proof.
  intros Hi. unfold store_after. pose proof (lulls_store_turn n (w_state w)) as Hl.
  destruct (store_turn n (w_state w)) as [[r|] s] eqn:Ht; cbn in Hl.
  - by eapply sleepers_quiet.
  - destruct Hi as [S1 S2 S3 S4], Hl as [L1 L2 L3 L4]. split; cbn; eauto.
    intros n' q' [= <- <-]. apply L4. by rewrite Ht.
Qed.
Lemma sleepers_writer w w' : sleepers_inv w -> writer_step w w' -> sleepers_inv w'.
Proof.
  intros Hi [Hw|why m Hw|Hw Hn|m s Hw Hn|Hw Hn|e Hw Hn|m Hw]; try apply sleepers_notified; try (by eapply sleepers_quiet).
  - eapply sleepers_quiet; [exact Hi|by eapply lulls_takes|done..].
  - destruct Hi as [S1 S2 S3 S4]. by split.
Qed.
Lemma sleepers_reader control fr w w' : sleepers_inv w -> reader_step nonce w control fr w' -> sleepers_inv w'.
Proof.
  intros Hi [a f a' Hr Hf|a f a' m w2 Hr Hf Ha|a f e Hr Hf|a why Hr|a Hr He|a e Hr He]; try apply sleepers_notified;
    try (destruct control; by eapply sleepers_quiet).
  assert (sleepers_inv w2) as H2; [|destruct control; by eapply sleepers_quiet].
  unfold accept in Ha. destruct control.
  - apply rbind_Ok in Ha as (v & _ & Ha). apply rbind_Ok in Ha as (s & _ & [= <-]).
    exact (sleepers_notified (at_state s (log (fun l => log_controls (l_controls l ++ [(m_sequence m, v)]) l) w))).
  - apply rbind_Ok in Ha as (v & _ & Ha). apply rbind_Ok in Ha as ([s k] & Hs & [= <-]).
    
    set (w1 := at_state s (log (fun l => log_results (l_results l ++ [(m_sequence m, v, hash_hex (m_bytes m))]) l) w)).
    destruct k; [exact (sleepers_notified w1)|]. cbn. unfold accept_result in Hs. apply rbind_Ok in Hs as (_ & _ & Hs).
    destruct (holds_result _ _ (c_completed _)); [injection Hs as <-|destruct (holds_result _ _ _); [injection Hs as <-|]].
    + by eapply sleepers_quiet.
    + by eapply sleepers_quiet.
    + by apply rbind_Ok in Hs as (_ & _ & [= _]).
Qed.
Lemma sleepers_at_shutdown pc w : sleepers_inv w -> sleepers_inv (at_shutdown pc w).
Proof. intros []. by split. Qed.
Lemma sleepers_shutdown w w' : sleepers_inv w -> shutdown_step w w' -> sleepers_inv w'.
Proof.
  intros Hi H.
  assert (forall x w1, sleepers_inv w1 -> sleepers_inv (at_child x w1)) as Hch by (intros x w1 []; by split).
  destruct H as [Hd|Hd Hc|success why Hd Hc|Hd|b Hd Hc He|Hd Hn|Hd Hv|Hd Hv|Hd Hr|Hd Hr|Hd|b Hd Hc|Hd|b Hd Hc|Hd He];
    apply sleepers_at_shutdown; try done; try apply sleepers_notified; try apply Hch, sleepers_notified.
  unfold shutdown_verified in Hv. apply andb_true_iff in Hv as [Hp%bool_decide_eq_true _].
  eapply sleepers_quiet; [exact Hi| |done..]. cbn.
  assert (set_phase Stopped (w_state w) = w_state w) as ->; [|done].
  unfold c_phase in Hp. destruct (w_state w) as [[] ?]. cbn in *. by subst.
Qed.
Lemma sleepers_step w w' : sleepers_inv w -> step nonce epoch_id w w' -> sleepers_inv w'.
Proof.
  intros Hi [fr [id w1 H|w1 H|w1 H|w1 H|control fr' w1 H|w1 H|w1 H|n s Hc H|Hc|Hc|success H|]]; try apply sleepers_notified.
  - by eapply sleepers_call.
  - destruct H as [o ses s Hc Ha Hs|o ses Ha].
    + change (sleepers_inv (admission_after o ses (admission_turn o ses (w_state (notify true (at_state s w)))) (notify true (at_state s w)))).
      apply sleepers_admission_after, sleepers_notified.
    + by apply sleepers_admission_after.
  - destruct H as [q n s Hc Hn Hq Hs|q v s Hc Hn Hq Hs|q e s Hc Hn Hq Hs|n q Hn].
    + change (sleepers_inv (store_after n q (store_turn n (w_state (notify true (at_state s w)))) (notify true (at_state s w)))).
      apply sleepers_store_after, sleepers_notified.
    + eapply sleepers_quiet; [exact Hi|eapply lulls_store_asks; [exact Hs|done]|done..].
    + eapply sleepers_quiet; [exact Hi|eapply lulls_store_asks; [exact Hs|done]|done..].
    + by apply sleepers_store_after.
  - by eapply sleepers_writer.
  - by eapply sleepers_reader.
  - by eapply sleepers_shutdown.
  - destruct H as [H|H|H|k why H]; try (by eapply sleepers_quiet).
    apply sleepers_at_shutdown, sleepers_notified.
  - by eapply sleepers_quiet.
Qed.
Lemma sleepers_reachable w : reachable nonce epoch_id w -> sleepers_inv w.
Proof. intros H. induction H as [|w1 w2 _ IH H]; [by split|by eapply sleepers_step]. Qed.
End Wakeups.
