(* ===== verification/FsClientPromises.v ===== *)
(** The promises of the filesystem helper's client (src/src/filesystem_worker/client.rs)
    as theorems about every reachable world, and a concrete run in which they are
    exercised. *)
From stdpp Require Import base tactics option list numbers strings gmap sorting.
From Stdlib Require Import ZArith Lia.
From S2P Require Import Prelude Bytes FsWire FsOps FsPromises FsClient FsClientCalls FsClientSafety FsClientShutdown FsClientWakeups.

Open Scope Z_scope.
Local Open Scope prog_scope.

Section Promises.
Context {ENGINE : Engine} {CODEC : HelperCodec} {CLIENT : ClientCodec} (nonce : list Z) (epoch_id : LeaseId).

Lemma steps_reachable w w' : reachable nonce epoch_id w -> steps nonce epoch_id w w' -> reachable nonce epoch_id w'.
Proof. intros Hr H. induction H as [|w1 w2 _ IH H]; [done|by eapply steps_next]. Qed.
(** What a relation keeps on each step from a reachable world, it keeps. *)
Lemma steps_ind' (P : ClientWorld -> Prop) w :
  reachable nonce epoch_id w -> P w ->
  (forall w1 w2, reachable nonce epoch_id w1 -> P w1 -> step nonce epoch_id w1 w2 -> P w2) ->
  forall w', steps nonce epoch_id w w' -> P w'.
Proof. intros Hr H0 Hs w' H. induction H as [|w1 w2 H IH Hw]; [done|]. eapply Hs; [by eapply steps_reachable|done|done]. Qed.
Lemma steps_progress w w' : steps nonce epoch_id w w' ->
  (c_closing (w_state w) = true -> c_closing (w_state w') = true) /\
  l_submitted (w_log w) ⊆ l_submitted (w_log w') /\ l_answers (w_log w) ⊆ l_answers (w_log w').
Proof.
  intros H. induction H as [|w1 w2 _ (I1 & I2 & I3) H]; [done|]. apply progress_step in H as [].
  split_and!; [auto|by etrans|by etrans].
Qed.

(** C32. Calls are numbered 1, 2, 3, ... in the order in which they enter the outgoing
    slot; requests reach the writer in that order, at most once each and with the
    bytes submitted; every call is answered at most once, and all but the one that
    waits are answered. *)
Theorem calls_answered_once w :
  reachable nonce epoch_id w ->
  let s := w_state w in let l := w_log w in
  (l_submitted l).*1.*1 = seqZ 1 (c_sequence s) /\
  StronglySorted Z.lt (m_sequence <$> executes l) /\
  (forall m, m ∈ executes l -> exists o, submitted l (m_sequence m) o (m_bytes m)) /\
  NoDup (l_answers l).*1.*1 /\
  (forall n o r, (n, o, r) ∈ l_answers l -> exists b, submitted l n o b) /\
  (forall n o b, submitted l n o b -> answered l n \/ live w = Some (o, n)) /\
  Z.of_nat (size (w_calls w)) <= 2.
Proof.
  intros [[C _ _] R _]%client_reachable. cbn. split_and!.
  - apply R.
  - apply R.
  - intros m Hm. by apply (ri_sent _ _ _ R).
  - apply R.
  - intros n o r H. exact (proj2 (ri_answers _ _ _ R n o r H)).
  - intros n o b H. by eapply (ri_answered _ _ _ R).
  - destruct C. lia.
Qed.

(** Every answer of a call has its reason: a success is a result with the call's
    sequence; an error is such a result, a rejection, a stop before the request
    was sent - and then it is not sent in any later world either -, a report that
    a stop removed it before its execution, or the failure of the transport. *)
Theorem answers_explained w w' n o r :
  reachable nonce epoch_id w -> steps nonce epoch_id w w' -> (n, o, r) ∈ l_answers (w_log w) ->
  explained (w_state w') (w_log w') n r.
Proof.
  intros Hr Hs H. destruct (client_reachable nonce epoch_id w' (steps_reachable _ _ Hr Hs)) as [_ R _].
  destruct (steps_progress _ _ Hs) as (_ & _ & Ha). by apply (ri_answers _ _ _ R n o r), Ha.
Qed.

(** An acknowledgement is sent only for a result that arrived, with its sequence
    and digest, and only after the call was answered with it. *)
Theorem acks_follow_answers w m :
  reachable nonce epoch_id w -> m ∈ l_sent (w_log w) -> m_kind m = Ack ->
  exists d, encode_ack (m_sequence m, d) = Ok (m_bytes m) /\
    (exists o, (m_sequence m, o, d) ∈ l_results (w_log w)) /\ answered (w_log w) (m_sequence m).
Proof. intros [_ R _]%client_reachable Hm Hk. by apply (ri_acks _ _ _ R). Qed.

(** Once the client closes, the only requests it still sends release ownership. *)
Theorem closing_sends_cleanup_only w w' m :
  reachable nonce epoch_id w -> c_closing (w_state w) = true -> steps nonce epoch_id w w' ->
  m ∈ executes (w_log w') -> m ∈ executes (w_log w) \/
  exists o, submitted (w_log w') (m_sequence m) o (m_bytes m) /\ is_cleanup o = true.
Proof.
  intros Hr Hc Hs. revert m.
  refine (proj2 (steps_ind' (fun w1 => c_closing (w_state w1) = true /\ forall m, m ∈ executes (w_log w1) -> m ∈ executes (w_log w) \/
    exists o, submitted (w_log w1) (m_sequence m) o (m_bytes m) /\ is_cleanup o = true) w Hr _ _ w' Hs)); [by auto|].
  clear w' Hs. intros w1 w2 Hr1 [Hclosing IH] H. split; [by apply (pr_closing _ _ (progress_step nonce epoch_id _ _ H))|]. intros m Hm. destruct (client_reachable nonce epoch_id w1 Hr1) as [_ R _].
  pose proof (progress_step nonce epoch_id _ _ H) as P.
  assert (forall o, submitted (w_log w1) (m_sequence m) o (m_bytes m) -> submitted (w_log w2) (m_sequence m) o (m_bytes m)) as Hsub.
  { intros o. apply (pr_submitted _ _ P). }
  assert (m ∈ executes (w_log w1) -> m ∈ executes (w_log w) \/
    exists o, submitted (w_log w2) (m_sequence m) o (m_bytes m) /\ is_cleanup o = true) as IH'.
  { intros [?|(o & ? & ?)]%IH; eauto. }
  apply elem_executes in Hm as [Hm Hx]. destruct (pr_sent _ _ P) as [E|(m' & s' & Hw & Hn & E)]; rewrite E in Hm.
  - apply IH'. by apply elem_executes.
  - apply elem_of_app in Hm as [Hm| ->%list_elem_of_singleton]; [apply IH'; by apply elem_executes|].
    right. destruct (next_message_spec _ _ _ Hn) as [(Hm & _)|[(a & b & _ & _ & -> & _)|[_ [Hp _]]]]; [|done|done].
    destruct (ri_command _ _ _ R _ Hm) as (o & b & Hsb & -> & Hf & _). exists o. split; [by apply Hsub|].
    rewrite <- Hf. destruct (ri_closing _ _ _ R) as [?|Hcl]; [done|by eexists|done|].
    unfold next_message in Hn. by rewrite Hcl in Hn.
Qed.

(** C33. A shutdown is affirmed only after the helper reported [Stopped], its process
    was waited for and exited with success, and the three pipe threads ended; and
    from then on nothing is sent. *)
Theorem clean_shutdown_verified w w' :
  reachable nonce epoch_id w -> l_clean (w_log w) = true -> steps nonce epoch_id w w' ->
  w_child w' = Reaped true /\ threads_ended w' = true /\ l_sent (w_log w') = l_sent (w_log w) /\
  exists q v, (q, CStatus v) ∈ l_controls (w_log w') /\ report_phase v = Stopped.
Proof.
  intros Hr Hc Hs.
  assert (l_sent (w_log w') = l_sent (w_log w) /\ l_clean (w_log w') = true) as [H1 H2].
  { refine (steps_ind' (fun w1 => l_sent (w_log w1) = l_sent (w_log w) /\ l_clean (w_log w1) = true) w Hr _ _ w' Hs); [done|].
    intros w1 w2 Hr1 [E1 E2] H. destruct (sd_clean _ (shutdown_reachable nonce epoch_id w1 Hr1) E2) as (_ & He & _).
    apply progress_step in H as P. split; [|by apply P]. destruct (pr_sent _ _ P) as [E|(m & s & Hw & _)]; [congruence|].
    unfold threads_ended in He. by rewrite Hw in He. }
  destruct (sd_clean _ (shutdown_reachable nonce epoch_id w' (steps_reachable _ _ Hr Hs)) H2) as (? & ? & ?). done.
Qed.

(** Nobody misses a wakeup: the writer sleeps only while there is nothing to send, a
    call waits for the start only while the helper starts, and a query waits
    only while its answer is missing. *)
Theorem client_no_lost_wakeup w :
  reachable nonce epoch_id w ->
  (w_writer w = WAsleep -> next_message (w_state w) = Idle) /\
  (forall id o b, w_calls w !! id = Some (XStarting o b true) -> start_waits (w_state w) = true) /\
  (forall o ses, w_admission w = AWaiting o ses true -> (admission_turn o ses (w_state w)).1 = None) /\
  (forall n q, w_store w = SWaiting n q true -> (store_turn n (w_state w)).1 = None).
Proof. intros []%sleepers_reachable. done. Qed.

(** ** A call that cannot be answered *)

Record stuck (o : Operation) (n : Z) (w : ClientWorld) : Prop := {
  sk_live : live w = Some (o, n);
  sk_connected : connected w;
  sk_ended : threads_ended w = true;
  sk_result : c_result (w_state w) = None;
  sk_canceled : report_canceled (c_status (w_state w)) <> Some n;
  sk_command : o_command (c_outgoing (w_state w)) = None \/ o_command_cleanup (c_outgoing (w_state w)) = true;
}.
Lemma ended_pcs w : threads_ended w = true -> w_writer w = WEnded /\ forall control, reader control w = REnded.
Proof. unfold threads_ended. destruct (w_writer w), (w_results w) eqn:H1, (w_controls w) eqn:H2; try done. by split; [|intros []]. Qed.
Definition slots (s : CState) : option (Z * Outcome * string) * option Z * option Message * bool :=
  (c_result s, report_canceled (c_status s), o_command (c_outgoing s), o_command_cleanup (c_outgoing s)).
Lemma stuck_state o n w w' :
  stuck o n w -> live w' = live w -> connected w' -> threads_ended w' = true -> slots (w_state w') = slots (w_state w) -> stuck o n w'.
Proof. intros [] H1 H2 H3 [= H4 H5 H6 H7]. split; rewrite ?H1, ?H4, ?H5, ?H6, ?H7; done. Qed.
Lemma slots_turn o n canceled g r s t k :
  c_failure s = None -> c_result s = None -> report_canceled (c_status s) <> Some n ->
  call_turn o n canceled g r s = (t, k) -> exists s' g' r', t = Waits s' g' r' /\ slots s' = slots s.
Proof.
  intros Hf Hr Hc. unfold call_turn, call_answer, call_stopped. rewrite Hr, Hf, bool_decide_eq_false_2 by done.
  unfold call_prompts. intros [= <- _]. eexists _, _, _. split; [done|]. unfold slots. repeat case_match; done.
Qed.
Lemma slots_stop s :
  o_command (c_outgoing s) = None \/ o_command_cleanup (c_outgoing s) = true -> slots (signal_stop s) = slots s.
Proof.
  intros H. unfold signal_stop. case_bool_decide; [done|].
  assert (withdraw (set_closing true s) = set_closing true s) as ->.
  { unfold withdraw. cbn. destruct H as [->| ->]; [done|]. by destruct (o_command _). }
  by destruct (checked_add _ _).
Qed.
Lemma slots_admission_turn o ses s : slots (admission_turn o ses s).2 = slots s.
Proof. unfold admission_turn. by repeat case_match. Qed.
Lemma slots_store_turn n s : slots (store_turn n s).2 = slots s.
Proof. unfold store_turn. by repeat case_match. Qed.
Lemma slots_store_asks q s r s' : store_asks q s = (r, s') -> slots s' = slots s.
Proof. unfold store_asks. intros H. by repeat case_match; simplify_eq. Qed.

(** The steps of the other callers. *)
Lemma stuck_call o n w id w' :
  calls_inv w -> c_failure (w_state w) = None -> stuck o n w -> call_step w id w' -> stuck o n w'.
Proof.
  intros Hc Hf Hk H. pose proof (sk_live _ _ _ Hk) as Hl.
  assert (exists h g r, w_lock w = Some h /\ w_calls w !! h = Some (XWaiting o n g r)) as (h & g & r & Hh & Hpc).
  { unfold live in Hl. destruct (w_lock w) as [h|] eqn:Hh; [|done]. cbn in Hl.
    destruct (w_calls w !! h) as [[]|] eqn:Hpc; simplify_eq. by eexists _, _, _. }
  assert (forall pc, w_calls w !! id = pc -> pc <> Some (XWaiting o n g r) -> h <> id) as Hne by (intros pc <- Hx ->; done).
  assert (forall pc, w_calls w !! id = Some pc -> holding pc -> id = h) as Hlock.
  { intros pc Hx Hho. pose proof (ci_lock _ Hc _ _ Hx Hho) as E. congruence. }
  assert (forall calls s, calls !! h = Some (XWaiting o n g r) -> slots s = slots (w_state w) ->
    stuck o n (at_calls calls (at_state s w))) as Hstay.
  { intros calls s Hx Hs. eapply stuck_state; [exact Hk| |apply Hk|apply Hk|exact Hs]. rewrite Hl. unfold live. cbn. by rewrite Hh; cbn; rewrite Hx. }
  destruct H as [o' Hcn Hid Hlt|o' e Hid He|o' b Hid Hv He|o' b Hid Hlk|o' b Hid Hw|o' b canceled e Hid Hw He|o' b canceled canceled' n' s Hid Hw Hs|o' n' canceled g' r' Hid|Hid].
  - apply Hstay; [|done]. by rewrite lookup_insert_ne by (symmetry; eauto).
  - change (stuck o n (at_calls (<[id := XReturned]> (w_calls w)) (at_state (w_state w) w))).
    apply Hstay; [|done]. by rewrite lookup_insert_ne by (symmetry; eauto).
  - change (stuck o n (at_calls (<[id := XQueued o' b]> (w_calls w)) (at_state (w_state w) w))).
    apply Hstay; [|done]. by rewrite lookup_insert_ne by (symmetry; eauto).
  - congruence.
  - pose proof (Hlock _ Hid I). by simplify_eq.
  - pose proof (Hlock _ Hid I). by simplify_eq.
  - pose proof (Hlock _ Hid I). by simplify_eq.
  - pose proof (Hlock _ Hid I). subst id. rewrite Hpc in Hid. injection Hid as <- <- <- <-. unfold take_turn.
    destruct (call_turn o n canceled g r (w_state w)) as [t k] eqn:Ht.
    destruct (slots_turn _ _ _ _ _ _ _ _ Hf (sk_result _ _ _ Hk) (sk_canceled _ _ _ Hk) Ht) as (s' & g1 & r1 & -> & Hs).
    eapply stuck_state; [exact Hk| | | |by rewrite notify_state].
    + rewrite live_notify, Hl. unfold live. cbn. rewrite Hh. cbn. by rewrite lookup_insert_eq.
    + intros x. rewrite notify_shutdown. apply (sk_connected _ _ _ Hk).
    + rewrite notify_ended. apply Hk.
  - change (stuck o n (notify true (at_calls (delete id (w_calls w)) (at_state (set_calls (c_calls (w_state w) - 1) (w_state w)) w)))).
    assert (stuck o n (at_calls (delete id (w_calls w)) (at_state (set_calls (c_calls (w_state w) - 1) (w_state w)) w))) as Hs.
    { apply Hstay; [|done]. by rewrite lookup_delete_ne by (symmetry; eauto). }
    eapply stuck_state; [exact Hs|apply live_notify|apply Hs|rewrite notify_ended; apply Hs|by rewrite notify_state].
Qed.
(** The steps of everybody else. *)
Lemma stuck_others o n w w' :
  stuck o n w -> step nonce epoch_id w w' -> (exists id, call_step w id w') \/ slots (w_state w') = slots (w_state w).
Proof.
  intros Hk H. destruct (ended_pcs _ (sk_ended _ _ _ Hk)) as [Hwr Hrd].
  destruct H as [fr [id w1 H|w1 H|w1 H|w1 H|control fr' w1 H|w1 H|w1 H|n' s Hc H|Hc|Hc|success H|]]; [left; by exists id|right..]; try done.
  - destruct H as [o' ses s Hc Ha Hs|o' ses Ha]; cbn; rewrite slots_admission_turn; [|done].
    by apply rbind_Ok in Hs as (_ & _ & [= <-]).
  - destruct H as [q n' s Hc Hn Hq Hs|q v s Hc Hn Hq Hs|q e s Hc Hn Hq Hs|n' q Hn]; cbn; rewrite ?slots_store_turn; try done;
      by eapply slots_store_asks.
  - exfalso. destruct H as [Hw|why m [Hw|Hw]|Hw Hn|m s Hw Hn|Hw Hn|e Hw Hn|m Hw]; congruence.
  - exfalso. specialize (Hrd control). destruct H; congruence.
  - destruct H as [Hd|Hd Hc|success why Hd Hc|Hd|b Hd Hc He|Hd Hi|Hd Hv|Hd Hv|Hd Hr|Hd Hr|Hd|b Hd Hc|Hd|b Hd Hc|Hd He]; try done.
    + apply slots_stop, Hk.
    + cbn. by destruct success.
  - exfalso. destruct H as [H|H|H|k why H]; by apply (sk_connected _ _ _ Hk) in H.
  - unfold cancel in H. case_match; [|done]. by injection H as <-.
  - apply slots_stop, Hk.
Qed.
Lemma step_connected w w' : step nonce epoch_id w w' -> connected w -> connected w'.
Proof.
  intros H Hc. destruct (step_shutdown_only nonce epoch_id _ _ H) as [Hs|[Hs|(_ & H2 & _)]].
  - intros k. by destruct Hs.
  - exfalso. destruct Hs as [Hs|Hs|Hs|k why Hs]; by apply Hc in Hs.
  - intros k. rewrite H2. apply Hc.
Qed.
Lemma stuck_step o n w w' :
  reachable nonce epoch_id w -> c_failure (w_state w) = None -> stuck o n w -> step nonce epoch_id w w' -> stuck o n w'.
Proof.
  intros Hr Hf Hk H. destruct (client_reachable nonce epoch_id w Hr) as [Hc _ _].
  destruct (stuck_others _ _ _ _ Hk H) as [[id Hid]|Hs]; [by eapply stuck_call|].
  destruct (step_aside nonce epoch_id _ _ H) as [[id Hid]|Ha]; [by eapply stuck_call|].
  eapply stuck_state; [exact Hk|by apply (aside_calls _ _ Ha Hc)| | |exact Hs].
  - eapply step_connected; [exact H|apply Hk].
  - apply (pr_ended _ _ (progress_step nonce epoch_id _ _ H)); apply Hk.
Qed.
(** A call that waits when the threads are gone, with its result neither there nor
    reported as removed, is never answered - except by the failure that only a
    forced termination can still bring.  Until then it holds the mutex of the
    calls. *)
Theorem unanswered_after_end w w' o n :
  reachable nonce epoch_id w -> stuck o n w -> steps nonce epoch_id w w' ->
  is_Some (c_failure (w_state w')) \/ live w' = Some (o, n) /\ ~ answered (w_log w') n.
Proof.
  intros Hr Hk Hs. assert (is_Some (c_failure (w_state w')) \/ stuck o n w') as [H|H].
  { refine (steps_ind' (fun w1 => is_Some (c_failure (w_state w1)) \/ stuck o n w1) w Hr _ _ w' Hs); [by right|].
    intros w1 w2 Hr1 [Hf|Hk1] H; [left; by apply (pr_failure _ _ (progress_step nonce epoch_id _ _ H))|].
    destruct (c_failure (w_state w1)) eqn:Hf; [left; apply (pr_failure _ _ (progress_step nonce epoch_id _ _ H)); by rewrite Hf|].
    right. by eapply stuck_step. }
  - by left.
  - right. split; [apply H|]. destruct (client_reachable nonce epoch_id w' (steps_reachable _ _ Hr Hs)) as [_ R _].
    by apply (ri_live _ _ _ R o n), H.
Qed.

(** ** Schedules *)

Inductive ClientAction : Type :=
| CConnect | CEnter (id : nat) (o : Operation) | CValid (id : nat) | CLock (id : nat) | CSubmit (id : nat) | CTurn (id : nat) | CLeave (id : nat)
| CGreeted | CTake | CCloses | CSleep | CWritten | CFrame (control : bool) (f : Frame) | CEnds (control : bool)
| CBegin | CPoll | CReap | CJoin | CAffirm | CExit (success : bool).
Definition client_perform (a : ClientAction) (w : ClientWorld) : option ClientWorld :=
  let s := w_state w in
  match a with
  | CConnect =>
      match w_shutdown w with
      | DConnecting 0 => Some (at_shutdown (DConnecting 1) (at_writer WHello w))
      | DConnecting 1 => Some (at_shutdown (DConnecting 2) (at_results (RReading None) w))
      | DConnecting 2 => Some (at_shutdown DNone (at_controls (RReading None) w))
      | _ => None
      end
  | CEnter id o =>
      match w_shutdown w, w_calls w !! id with
      | DConnecting _, _ | _, Some _ => None
      | _, None => if c_calls s <? 2 then Some (at_calls (<[id := XAdmitted o]> (w_calls w)) (at_state (set_calls (c_calls s + 1) s) w)) else None
      end
  | CValid id =>
      match w_calls w !! id with
      | Some (XAdmitted o) =>
          match validate_operation o, encode_operation o with
          | Ok tt, Ok b => Some (at_calls (<[id := XQueued o b]> (w_calls w)) w)
          | _, _ => None
          end
      | _ => None
      end
  | CLock id =>
      match w_calls w !! id, w_lock w with
      | Some (XQueued o b), None => Some (at_calls (<[id := XStarting o b false]> (w_calls w)) (at_lock (Some id) w))
      | _, _ => None
      end
  | CSubmit id =>
      match w_calls w !! id with
      | Some (XStarting o b false) =>
          match start_waits s, submit o b false s with
          | false, Ok (n, s) => Some (take_turn id o n false false false
              (notify true (at_state s (log (fun l => log_submitted (l_submitted l ++ [(n, o, b)]) l) w))))
          | _, _ => None
          end
      | _ => None
      end
  | CTurn id => match w_calls w !! id with Some (XWaiting o n g r) => Some (take_turn id o n false g r w) | _ => None end
  | CLeave id =>
      match w_calls w !! id with
      | Some XReturned => Some (notify true (at_calls (delete id (w_calls w)) (at_state (set_calls (c_calls s - 1) s) w)))
      | _ => None
      end
  | CGreeted => match w_writer w with WHello => Some (at_writer WAwake w) | _ => None end
  | CTake =>
      match w_writer w, next_message s with
      | WAwake, Send m s => Some (at_writer (WWriting m) (at_state s (log (fun l => log_sent (l_sent l ++ [m]) l) w)))
      | _, _ => None
      end
  | CCloses => match w_writer w, next_message s with WAwake, Closing => Some (at_writer WEnded w) | _, _ => None end
  | CSleep => match w_writer w, next_message s with WAwake, Idle => Some (at_writer WAsleep w) | _, _ => None end
  | CWritten => match w_writer w with WWriting _ => Some (at_writer WAwake w) | _ => None end
  | CFrame control f =>
      match reader control w with
      | RReading a =>
          match read_frame nonce control a f with
          | Ok (a', None) => Some (at_reader control (RReading a') w)
          | Ok (a', Some m) => match accept control m w with Ok w' => Some (at_reader control (RReading a') w') | Err _ => None end
          | Err _ => None
          end
      | _ => None
      end
  | CEnds control =>
      match reader control w with
      | RReading a => match read_ended control a s with Ok tt => Some (at_reader control REnded w) | Err _ => None end
      | _ => None
      end
  | CBegin => match w_shutdown w with DNone => Some (at_shutdown DPolling (notify true (at_state (signal_stop s) w))) | _ => None end
  | CPoll => match w_shutdown w, w_child w with DPolling, Exited _ => None | DPolling, _ => Some (at_shutdown DChecking w) | _, _ => None end
  | CReap =>
      match w_shutdown w, w_child w with
      | DPolling, Exited b => Some (at_shutdown DChecking (at_child (Reaped b) (notify true (at_state (child_exited b [] s) w))))
      | _, _ => None
      end
  | CJoin =>
      match w_shutdown w, w_child w, threads_ended w with
      | DChecking, Reaped _, true => Some (at_shutdown DVerifying (notify true (at_state (drained s) w)))
      | _, _, _ => None
      end
  | CAffirm =>
      match w_shutdown w, shutdown_verified s with
      | DVerifying, true => Some (at_shutdown DNone (log (log_clean true) (at_state (set_phase Stopped s) w)))
      | _, _ => None
      end
  | CExit success => match w_child w with Running => Some (at_child (Exited success) w) | _ => None end
  end.
Ltac schedule := repeat match goal with H : context [match ?x with _ => _ end] |- _ => destruct x eqn:?; try done end; simplify_eq.
Lemma client_perform_call a w w' :
  client_perform a w = Some w' ->
  match a with CEnter id _ | CValid id | CLock id | CSubmit id | CTurn id | CLeave id => call_step w id w' | _ => True end.
Proof.
  destruct a as [|id o|id|id|id|id|id| | | | | |control f|control| | | | | |success]; try done; unfold client_perform; intros H.
  - destruct (w_calls w !! id) eqn:Hid; [by destruct (w_shutdown w)|].
    assert (c_calls (w_state w) <? 2 = true /\ connected w) as [Hlt%Z.ltb_lt Hc].
    { destruct (w_shutdown w) eqn:Hs; try done; (destruct (_ <? 2); [|done]); (split; [done|intros k; congruence]). }
    assert (w' = at_calls (<[id := XAdmitted o]> (w_calls w)) (at_state (set_calls (c_calls (w_state w) + 1) (w_state w)) w)) as ->.
    { destruct (w_shutdown w); try done; (destruct (_ <? 2); [congruence|done]). }
    by apply call_enters.
  - schedule. repeat match goal with u : unit |- _ => destruct u end. by eapply call_valid.
  - schedule. by eapply call_locks.
  - schedule. by eapply call_submits.
  - schedule. by eapply call_turns.
  - schedule. by eapply call_leaves.
Qed.
(** The frame of a result that an action takes. *)
Definition client_label (a : ClientAction) : option Frame := match a with CFrame false f => Some f | _ => None end.
Lemma client_perform_labelled a w w' : client_perform a w = Some w' -> labelled_step nonce epoch_id w (client_label a) w'.
Proof.
  intros H. pose proof (client_perform_call a w w' H) as Hcall.
  destruct a as [|id o|id|id|id|id|id| | | | | |control f|control| | | | | |success]; try (by eapply step_call); clear Hcall; unfold client_perform in H.
  - apply step_connect. destruct (w_shutdown w) as [[|[|[|k]]]| | | | | | |] eqn:Hs; simplify_eq; by constructor.
  - schedule. by apply step_writer, writer_greeted.
  - schedule. by apply step_writer, writer_takes.
  - schedule. by apply step_writer, writer_closes.
  - schedule. by apply step_writer, writer_sleeps.
  - schedule. by eapply step_writer, writer_written.
  - assert (client_label (CFrame control f) = if control then None else Some f) as -> by by destruct control.
    schedule; eapply step_reader; [by eapply reader_accepts|by eapply reader_continues].
  - schedule. repeat match goal with u : unit |- _ => destruct u end. by destruct control; [eapply step_reader with (control := true)|eapply step_reader with (control := false)]; eapply reader_ends.
  - schedule. by apply step_shutdown, shutdown_begins.
  - apply step_shutdown. schedule; (apply shutdown_polls; [done|intros b; congruence]).
  - schedule. by apply step_shutdown, shutdown_reaps.
  - schedule. by eapply step_shutdown, shutdown_joins.
  - schedule. by apply step_shutdown, shutdown_affirmed.
  - schedule. by apply step_child_exits.
Qed.
Lemma client_perform_step a w w' : client_perform a w = Some w' -> step nonce epoch_id w w'.
Proof. intros H. eexists. by eapply client_perform_labelled. Qed.
Fixpoint client_run (schedule : list ClientAction) (w : ClientWorld) : option ClientWorld :=
  match schedule with
  | [] => Some w
  | a :: rest => match client_perform a w with Some w' => client_run rest w' | None => None end
  end.
Lemma client_run_steps schedule w w' : client_run schedule w = Some w' -> steps nonce epoch_id w w'.
Proof.
  assert (forall w1 w2 w3, step nonce epoch_id w1 w2 -> steps nonce epoch_id w2 w3 -> steps nonce epoch_id w1 w3) as Hcons.
  { intros w1 w2 w3 H Hs. induction Hs as [|w3 w4 _ IH H2]; [eapply steps_next; [apply steps_refl|done]|by eapply steps_next]. }
  revert w. induction schedule as [|a rest IH]; cbn; intros w H; [injection H as <-; apply steps_refl|].
  destruct (client_perform a w) as [w1|] eqn:Ha; [|done]. eapply Hcons; [by eapply client_perform_step|by apply IH].
Qed.
End Promises.

(** ** A run *)

Module ClientDemo.
Import FsPromises.Demo.
Definition report (p : Phase) (canceled : option Z) : StatusReport := mkReport p 0 None None None canceled None.
#[export] Instance client_codec : ClientCodec := {|
  encode_operation := fun o => match o with
                               | RequireJobsReleased _ => Ok [0]
                               | ReleaseRoot _ => Ok [1]
                               | _ => Err "operation"%string
                               end;
  decode_outcome := fun b => match b with [7] => Ok success | _ => Err "outcome"%string end;
  decode_control := fun b => match b with
                             | [1] => Ok (CStatus (report ReadyPhase None))
                             | [2] => Ok (CStatus (report Stopped None))
                             | _ => Err "control"%string
                             end;
  encode_ack := fun a => Ok [a.1];
  encode_query := fun _ => Err "query"%string;
  encode_admission_query := fun _ => Err "query"%string |}.
Definition work : Operation := RequireJobsReleased capability.
Definition release : Operation := ReleaseRoot capability.
Definition run (schedule : list ClientAction) : ClientWorld := default initial_world (client_run nonce schedule initial_world).
Definition runs (schedule : list ClientAction) : bool := negb (is_none (client_run nonce schedule initial_world)).
Lemma run_reachable schedule : runs schedule = true -> reachable nonce "epoch" (run schedule).
Proof.
  unfold runs, run. destruct (client_run nonce schedule initial_world) as [w|] eqn:H; [|done]. intros _. by eapply client_run_steps.
Qed.
Lemma client_run_app a b w : client_run nonce (a ++ b) w = client_run nonce a w ≫= client_run nonce b.
Proof. revert w. induction a as [|x a IH]; cbn; intros w; [done|]. by destruct (client_perform nonce x w). Qed.
Lemma run_steps a b : runs (a ++ b) = true -> steps nonce "epoch" (run a) (run (a ++ b)).
Proof.
  unfold runs, run. intros H. destruct (client_run nonce (a ++ b) initial_world) as [w|] eqn:Hw; [|done]. cbn.
  rewrite client_run_app in Hw. destruct (client_run nonce a initial_world) as [w1|]; [|done]. by eapply client_run_steps.
Qed.
Definition control_frame (b : list Z) : ClientAction := CFrame true (frame Control 0 b).
Definition result_frame (n : Z) (b : list Z) : ClientAction := CFrame false (frame Result n b).
Definition starting : list ClientAction := [CConnect; CConnect; CConnect; CGreeted; control_frame [1]].
Definition calling (id : nat) (o : Operation) : list ClientAction := [CEnter id o; CValid id; CLock id; CSubmit id].
Definition sending : list ClientAction := [CTake; CWritten].
Definition answered_call : list ClientAction :=
  starting ++ calling 0 work ++ sending ++ [result_frame 1 [7]; CTurn 0; CLeave 0] ++ sending.
Definition stopping_call : list ClientAction := answered_call ++ [CBegin].
Definition cleanup_call : list ClientAction := stopping_call ++ calling 1 release ++ sending ++ [result_frame 2 [7]; CTurn 1; CLeave 1].
Definition retiring : list ClientAction := [CTake; CWritten; CTake; CWritten; control_frame [2]; CCloses; CExit true; CEnds false; CEnds true; CReap; CJoin; CAffirm].
Definition retired : list ClientAction := cleanup_call ++ retiring.
(** The report that the helper has stopped arrives while a release of ownership
    waits in its slot. *)
Definition hanging : list ClientAction :=
  stopping_call ++ sending ++ calling 1 release ++ [control_frame [2]; CCloses; CExit true; CEnds false; CEnds true; CReap; CJoin; CAffirm].
End ClientDemo.
Import FsPromises.Demo ClientDemo.

(** Two calls, the second one a cleanup after the stop. *)
Lemma calls_answered_once_witness :
  (l_submitted (w_log (run retired))).*1.*1 = [1; 2] /\ (l_answers (w_log (run retired))).*1.*1 = [1; 2].
Proof.
  split; [|by vm_compute].
  refine (eq_trans (proj1 (calls_answered_once nonce "epoch" (run retired) _)) _); [|by vm_compute].
  apply run_reachable. by vm_compute.
Defined.
Lemma answers_explained_witness : exists d, (1, Ok tt, d) ∈ l_results (w_log (run retired)).
Proof.
  apply (answers_explained nonce "epoch" (run (answered_call ++ [])) (run (answered_call ++ [CBegin] ++ calling 1 release ++ sending ++
    [result_frame 2 [7]; CTurn 1; CLeave 1] ++ retiring)) 1 work (Ok tt)).
  - apply run_reachable. by vm_compute.
  - rewrite app_nil_r. apply run_steps. by vm_compute.
  - vm_compute. by left.
Defined.
Lemma acks_follow_answers_witness : exists d, encode_ack (1, d) = Ok [1].
Proof.
  destruct (acks_follow_answers nonce "epoch" (run answered_call) (mkMessage Ack 1 [1])) as (d & Hd & _).
  - apply run_reachable. by vm_compute.
  - vm_compute. right. by left.
  - done.
  - by exists d.
Defined.
Lemma closing_sends_cleanup_only_witness :
  mkMessage Execute 2 [1] ∈ executes (w_log (run stopping_call)) \/
  exists o, submitted (w_log (run cleanup_call)) 2 o [1] /\ is_cleanup o = true.
Proof.
  apply (closing_sends_cleanup_only nonce "epoch" (run stopping_call) (run cleanup_call) (mkMessage Execute 2 [1])).
  - apply run_reachable. by vm_compute.
  - by vm_compute.
  - apply run_steps. by vm_compute.
  - vm_compute. right. by left.
Defined.
Lemma clean_shutdown_verified_witness : w_child (run retired) = Reaped true.
Proof.
  apply (clean_shutdown_verified nonce "epoch" (run retired) (run retired)).
  - apply run_reachable. by vm_compute.
  - by vm_compute.
  - apply steps_refl.
Defined.
Lemma client_no_lost_wakeup_witness : next_message (w_state (run (answered_call ++ [CSleep]))) = Idle.
Proof.
  apply (client_no_lost_wakeup nonce "epoch" (run (answered_call ++ [CSleep]))); [|by vm_compute].
  apply run_reachable. by vm_compute.
Defined.
(** A release of ownership that is submitted while the helper stops: its request
    is still in the slot when the helper reports that it has stopped.  The writer
    closes, the shutdown is affirmed, and the call waits for good. *)
Lemma unanswered_after_end_witness :
  l_clean (w_log (run hanging)) = true /\ live (run (hanging ++ [CTurn 1; CBegin; CPoll; CJoin; CAffirm; CTurn 1])) = Some (release, 2).
Proof.
  split; [by vm_compute|].
  destruct (unanswered_after_end nonce "epoch" (run hanging) (run (hanging ++ [CTurn 1; CBegin; CPoll; CJoin; CAffirm; CTurn 1])) release 2)
    as [H|H]; [| | |by (vm_compute in H; destruct H)|exact (proj1 H)].
  - apply run_reachable. by vm_compute.
  - split; try (by vm_compute). right. by vm_compute.
  - apply run_steps. by vm_compute.
Defined.
