(* ===== verification/FsCodec.v ===== *)
(** The texts of the filesystem messages: src/src/filesystem_worker/wire.rs
    (encode, decode and the four functions on operations and outcomes) and the
    binary envelope of src/src/catalog_session/preview_io.rs.

    serde writes and reads JSON, so a writer and a reader of JSON are parameters.
    What is written here is everything around them: the caps, the envelope that
    carries a chunk of bytes next to the JSON, which requests and replies have a
    chunk, and how a chunk is put back into the value that the JSON was read as. *)
From stdpp Require Import base tactics option list numbers strings.
From Stdlib Require Import ZArith Lia.
From S2P Require Import Prelude Bytes FsWire FsOps FsClient.

Open Scope Z_scope.
Local Open Scope prog_scope.

(** ** The envelope *)

(** serde's [Serialize] and [Deserialize] of a type, through serde_json. *)
Record Json (A : Type) : Type := mkJson {
  to_json : A -> result string (list Z);
  from_json : list Z -> result string A }.
Arguments mkJson {_}.
Arguments to_json {_}.
Arguments from_json {_}.

(** A failure of the writer itself and a text over the cap end alike. *)
(** @source src/src/filesystem_worker/wire.rs:2133-2163 encode *)
Definition encode {A} (J : Json A) (v : A) (cap : Z) : result string (list Z) :=
  let? j := to_json J v in
  let? _ := rensure (zlen j <=? cap) "filesystem encoded byte limit"%string in
  Ok j.
(** @source src/src/filesystem_worker/wire.rs:2164-2167 decode *)
Definition decode {A} (J : Json A) (bytes : list Z) (cap : Z) : result string A :=
  let? _ := rensure (zlen bytes <=? cap) "filesystem decoded envelope byte limit"%string in
  from_json J bytes.

Definition envelope_mark : list Z := ascii_bytes "PCIO".
Definition marked (bytes : list Z) : bool := bool_decide (take 4 bytes = envelope_mark).
(** @source src/src/catalog_session/preview_io.rs:335-398 pack *)
Definition pack {A} (J : Json A) (v : A) (binary : option (list Z)) (cap : Z) : result string (list Z) :=
  let header := if binary is Some _ then 8 else 0 in
  let payload := zlen (default [] binary) in
  let? _ := rensure (payload <=? CHUNK_BYTES) "binary cache chunk limit"%string in
  let overhead := header + payload in
  let? _ := rensure (overhead <=? cap) "Cache transport envelope admission exhausted before dispatch"%string in
  let? j := to_json J v in
  let? _ := rensure (zlen j <=? cap - overhead)
              "Cache metadata exceeds the 1 MiB aggregate transport admission; no filesystem effect occurred"%string in
  Ok (match binary with
      | Some b => envelope_mark ++ le_bytes 4 (zlen j) ++ j ++ b
      | None => j
      end).
(** @source src/src/catalog_session/preview_io.rs:399-419 unpack *)
Definition unpack {A} (J : Json A) (bytes : list Z) (cap : Z) : result string (A * list Z) :=
  let? _ := rensure (zlen bytes <=? cap) "cache envelope limit"%string in
  if marked bytes then
    let? _ := rensure (8 <=? zlen bytes) "truncated cache metadata header"%string in
    let e := 8 + le_uint (slice 4 8 bytes) in
    let? _ := rensure (e <=? zlen bytes) "truncated cache metadata"%string in
    let? _ := rensure (zlen bytes - e <=? CHUNK_BYTES) "cache binary trailer limit"%string in
    let? v := from_json J (slice 8 e bytes) in
    Ok (v, drop (Z.to_nat e) bytes)
  else
    let? v := from_json J bytes in
    Ok (v, []).

(** ** Chunks *)

(** Where a type keeps a chunk: the [bytes] field of some of its variants, which
    serde skips, and the assignment to it. *)
Record Carrier (A : Type) : Type := mkCarrier {
  chunk_of : A -> option (list Z);
  with_chunk : A -> list Z -> A }.
Arguments mkCarrier {_}.
Arguments chunk_of {_}.
Arguments with_chunk {_}.
(** What the JSON keeps of a value: a skipped field is read as its default. *)
Definition blank {A} (K : Carrier A) (r : A) : A :=
  match chunk_of K r with Some _ => with_chunk K r [] | None => r end.

Definition chunk_fits (b : list Z) : bool := zlen b <=? CHUNK_BYTES.
Definition chunk_filled (b : list Z) : bool := negb (bool_decide (b = [])) && chunk_fits b.
Definition set_binary {A} (admitted : list Z -> bool) (refusal unexpected : string) (K : Carrier A) (r : A) (b : list Z) :
    result string A :=
  match chunk_of K r with
  | Some _ => let? _ := rensure (admitted b) refusal in Ok (with_chunk K r b)
  | None => let? _ := rensure (bool_decide (b = [])) unexpected in Ok r
  end.
(** @source src/src/catalog_session/preview_io.rs:184-189 Request::binary *)
Definition binary {A} (K : Carrier A) (r : A) : option (list Z) := chunk_of K r.
(** [(!r.binary().is_empty()).then(|| r.binary())]. *)
(** @source src/src/catalog_session/preview_stage.rs:192-197 Request::binary *)
Definition filled_binary {A} (K : Carrier A) (r : A) : option (list Z) :=
  let b := default [] (chunk_of K r) in if decide (b = []) then None else Some b.

Section Codec.
Context {ENGINE : Engine}.

(** @source src/src/catalog_session/preview_io.rs:190-199 Request::set_binary *)
Definition preview_io_set_binary := set_binary (A := Request CPreviewIo) chunk_fits "cache chunk admission" "unexpected cache binary input".
(** @source src/src/catalog_session/preview_stage.rs:198-204 Request::set_binary *)
Definition preview_stage_set_binary := set_binary (A := Request CPreviewStage) (fun _ => true) "" "unexpected stage binary".
(** @source src/src/catalog_session/export_stage.rs:199-207 Request::set_binary *)
Definition export_stage_set_binary := set_binary (A := Request CExportStage) (fun _ => true) "" "unexpected export stage binary".
(** @source src/src/catalog_session/metadata_files.rs:191-197 Request::set_binary *)
Definition metadata_files_set_binary := set_binary (A := Request CMetadataFiles) (fun _ => true) "" "unexpected metadata file binary".

(** The replies that may hold a chunk. *)
Inductive ReplyForm : Type := PreviewIoReply | PreviewStageReply | ExportProfileReply | ImportReply | OtherReply.
#[export] Instance ReplyForm_eq_dec : EqDecision ReplyForm.
Proof. solve_decision. Defined.

(** The chunks of requests and replies, and what the components check of their
    requests.  [holds_fraction]: a reply with a number that JSON's reader may
    round, the times of an export's completion. *)
Class Transport : Type := {
  request_bytes : forall c, Carrier (Request c);
  reply_form : Response -> ReplyForm;
  reply_bytes : Carrier Response;
  holds_fraction : Response -> bool;
  operation_valid : Operation -> result string unit;
}.
Class Serde : Type := {
  operation_json : Json Operation;
  outcome_json : Json Outcome;
  ack_json : Json (Z * string);
  query_json : Json StatusQuery;
  admission_json : Json (Z * LeaseId);
  control_json : Json ControlMessage;
}.
Context {TRANSPORT : Transport} {SERDE : Serde}.

(** @source src/src/filesystem_worker/wire.rs:2169-2178 encode_operation *)
Definition encode_operation (value : Operation) : result string (list Z) :=
  match value with
  | PreviewIo r => pack operation_json value (binary (request_bytes _) r) MESSAGE_BYTES
  | PreviewStage r => pack operation_json value (filled_binary (request_bytes _) r) MESSAGE_BYTES
  | ExportStage r => pack operation_json value (filled_binary (request_bytes _) r) MESSAGE_BYTES
  | MetadataFiles r => pack operation_json value (filled_binary (request_bytes _) r) MESSAGE_BYTES
  | _ => encode operation_json value MESSAGE_BYTES
  end.
(** The [match] of [decode_operation]. *)
Definition restore_operation (value : Operation) (b : list Z) : result string Operation :=
  match value with
  | PreviewIo r => let? r := preview_io_set_binary (request_bytes _) r b in Ok (PreviewIo r)
  | PreviewStage r => let? r := preview_stage_set_binary (request_bytes _) r b in Ok (PreviewStage r)
  | ExportStage r => let? r := export_stage_set_binary (request_bytes _) r b in Ok (ExportStage r)
  | MetadataFiles r => let? r := metadata_files_set_binary (request_bytes _) r b in Ok (MetadataFiles r)
  | _ => let? _ := rensure (bool_decide (b = [])) "unexpected operation binary trailer"%string in Ok value
  end.
(** @source src/src/filesystem_worker/wire.rs:2179-2191 decode_operation *)
Definition decode_operation (bytes : list Z) : result string Operation :=
  let? read := unpack operation_json bytes MESSAGE_BYTES in
  let? value := restore_operation read.1 read.2 in
  let? _ := operation_valid value in
  Ok value.

(** @source src/src/catalog_session.rs:997-1009 ExportProfileReply::set_binary *)
Definition export_profile_set_binary := set_binary (A := Response) chunk_filled "export profile chunk admission" "unexpected export profile binary reply".
(** @source src/src/catalog_session/import.rs:201-213 Value::set_binary *)
Definition import_set_binary := set_binary (A := Response) chunk_filled "import chunk admission" "unexpected import binary trailer".
(** @source src/src/catalog_session/preview_io.rs:280-289 Reply::set_binary *)
Definition preview_io_reply_set_binary := set_binary (A := Response) chunk_fits "cache reply chunk admission" "unexpected cache binary reply".
(** @source src/src/catalog_session/preview_stage.rs:286-292 Reply::set_binary *)
Definition preview_stage_reply_set_binary := set_binary (A := Response) (fun _ => true) "" "unexpected stage reply binary".

(** @source src/src/filesystem_worker/wire.rs:2192-2201 encode_outcome *)
Definition encode_outcome (value : Outcome) : result string (list Z) :=
  match value with
  | Ok r =>
      match reply_form r with
      | PreviewIoReply | ExportProfileReply | ImportReply => pack outcome_json value (binary reply_bytes r) MESSAGE_BYTES
      | PreviewStageReply => pack outcome_json value (filled_binary reply_bytes r) MESSAGE_BYTES
      | OtherReply => encode outcome_json value MESSAGE_BYTES
      end
  | Err _ => encode outcome_json value MESSAGE_BYTES
  end.
Definition no_trailer (value : Outcome) (b : list Z) : result string Outcome :=
  let? _ := rensure (bool_decide (b = [])) "unexpected outcome binary trailer"%string in Ok value.
(** The [match] of [decode_outcome]. *)
Definition restore_outcome (value : Outcome) (b : list Z) : result string Outcome :=
  match value with
  | Ok r =>
      match reply_form r with
      | PreviewIoReply => let? r := preview_io_reply_set_binary reply_bytes r b in Ok (Ok r)
      | PreviewStageReply => let? r := preview_stage_reply_set_binary reply_bytes r b in Ok (Ok r)
      | ExportProfileReply => let? r := export_profile_set_binary reply_bytes r b in Ok (Ok r)
      | ImportReply => let? r := import_set_binary reply_bytes r b in Ok (Ok r)
      | OtherReply => no_trailer value b
      end
  | Err _ => no_trailer value b
  end.
(** @source src/src/filesystem_worker/wire.rs:2202-2213 decode_outcome *)
Definition decode_outcome (bytes : list Z) : result string Outcome :=
  let? read := unpack outcome_json bytes MESSAGE_BYTES in
  restore_outcome read.1 read.2.

(** The codecs of the two processes. *)
#[export] Instance wire_helper : HelperCodec := {|
  FsOps.decode_operation := decode_operation;
  FsOps.validate_operation := operation_valid;
  FsOps.decode_ack b := decode ack_json b CHUNK_BYTES;
  FsOps.decode_query b := decode query_json b CHUNK_BYTES;
  FsOps.decode_admission_query b := decode admission_json b CHUNK_BYTES;
  FsOps.encode_outcome := encode_outcome;
  FsOps.encode_control v := encode control_json v MESSAGE_BYTES |}.
#[export] Instance wire_client : ClientCodec := {|
  FsClient.encode_operation := encode_operation;
  FsClient.decode_outcome := decode_outcome;
  FsClient.decode_control b := decode control_json b MESSAGE_BYTES;
  FsClient.encode_ack v := encode ack_json v CHUNK_BYTES;
  FsClient.encode_query v := encode query_json v CHUNK_BYTES;
  FsClient.encode_admission_query v := encode admission_json v CHUNK_BYTES |}.

(** ** What the parameters promise *)

(** Assignment to a field. *)
Record carrier_laws {A} (K : Carrier A) : Prop := {
  cl_get r b : is_Some (chunk_of K r) -> chunk_of K (with_chunk K r b) = Some b;
  cl_own r b : chunk_of K r = Some b -> with_chunk K r b = r;
  cl_over r a b : with_chunk K (with_chunk K r a) b = with_chunk K r b;
}.
Definition blank_operation (o : Operation) : Operation :=
  match o with
  | PreviewIo r => PreviewIo (blank (request_bytes _) r)
  | PreviewStage r => PreviewStage (blank (request_bytes _) r)
  | ExportStage r => ExportStage (blank (request_bytes _) r)
  | MetadataFiles r => MetadataFiles (blank (request_bytes _) r)
  | o => o
  end.
Definition blank_response (r : Response) : Response := if decide (reply_form r = OtherReply) then r else blank reply_bytes r.
Class TransportLaws : Prop := {
  law_requests c : carrier_laws (request_bytes c);
  law_replies : carrier_laws reply_bytes;
  law_form r b : reply_form (with_chunk reply_bytes r b) = reply_form r;
}.
(** serde: no JSON text starts like an envelope; a text that was written is read,
    if it is read at all, as the value it was written from, without the fields
    that are skipped.  A number with a fraction may come back rounded. *)
Class SerdeLaws : Prop := {
  law_operation_start o j : to_json operation_json o = Ok j -> marked j = false;
  law_outcome_start o j : to_json outcome_json o = Ok j -> marked j = false;
  law_operation o o' j : to_json operation_json o = Ok j -> from_json operation_json j = Ok o' -> o' = blank_operation o;
  law_failure f o' j : to_json outcome_json (Err f) = Ok j -> from_json outcome_json j = Ok o' -> is_ok o' = false;
  law_response r o' j :
    to_json outcome_json (Ok r) = Ok j -> from_json outcome_json j = Ok o' ->
    exists r', o' = Ok r' /\ (holds_fraction r = false -> r' = blank_response r);
}.
Context {TRANSPORT_LAWS : TransportLaws} {SERDE_LAWS : SerdeLaws}.

(** ** What was packed is unpacked *)

Lemma rensure_passed {E} b (e : E) u : rensure b e = Ok u -> b = true.
Proof. by destruct b. Qed.
Lemma encode_text {A} (J : Json A) v cap b : encode J v cap = Ok b -> to_json J v = Ok b.
Proof. unfold encode. intros (j & Hj & H)%rbind_Ok. apply rbind_Ok in H as (_ & _ & [= ->]). done. Qed.
Lemma unpack_text {A} (J : Json A) j cap read :
  marked j = false -> unpack J j cap = Ok read -> from_json J j = Ok read.1 /\ read.2 = [].
Proof.
  unfold unpack. intros Hm H. apply rbind_Ok in H as (_ & _ & H). rewrite Hm in H. apply rbind_Ok in H as (v & Hv & [= <-]). done.
Qed.
Lemma envelope_parts j b :
  zlen j < 2 ^ 32 ->
  let e := envelope_mark ++ le_bytes 4 (zlen j) ++ j ++ b in
  marked e = true /\ le_uint (slice 4 8 e) = zlen j /\ slice 8 (8 + zlen j) e = j /\ drop (Z.to_nat (8 + zlen j)) e = b.
Proof.
  intros Hj e. pose proof (zlen_nonneg j). assert (zlen (le_bytes 4 (zlen j)) = 4) as Hl by by unfold zlen at 1; rewrite le_bytes_length.
  split_and!.
  - by apply bool_decide_eq_true.
  - unfold e. rewrite (slice_field 4 8 envelope_mark), le_uint_bytes; [done|lia|done|by rewrite Hl].
  - unfold e. rewrite (assoc_L (++)). apply slice_field; by rewrite zlen_app, Hl.
  - unfold e. rewrite !(assoc_L (++)). apply drop_app_length'. rewrite !length_app, le_bytes_length. unfold zlen. cbn. lia.
Qed.
(** With a chunk the envelope gives it back; without one there is no envelope. *)
Lemma pack_unpack {A} (J : Json A) v chunk cap b read :
  (forall j, to_json J v = Ok j -> marked j = false) -> cap <= MESSAGE_BYTES ->
  pack J v chunk cap = Ok b -> unpack J b cap = Ok read ->
  exists j, to_json J v = Ok j /\ from_json J j = Ok read.1 /\ read.2 = default [] chunk.
Proof.
  intros Hstart Hcap H Hr. unfold pack in H. apply rbind_Ok in H as (_ & _ & H). apply rbind_Ok in H as (_ & _ & H).
  apply rbind_Ok in H as (j & Hj & H). apply rbind_Ok in H as (u & Hu%rensure_passed & H). exists j. split; [done|].
  destruct chunk as [c|]; [|injection H as <-; by apply unpack_text in Hr; [|by apply Hstart]].
  assert (b = envelope_mark ++ le_bytes 4 (zlen j) ++ j ++ c) as -> by congruence.
  apply Z.leb_le in Hu. cbn [default from_option id] in Hu. pose proof (zlen_nonneg c).
  assert (zlen j < 2 ^ 32) as Hlen by (unfold MESSAGE_BYTES in Hcap; lia).
  destruct (envelope_parts j c Hlen) as (Hm & Hn & Hs & Hd).
  unfold unpack in Hr. apply rbind_Ok in Hr as (_ & _ & Hr). rewrite Hm, Hn in Hr. apply rbind_Ok in Hr as (_ & _ & Hr).
  apply rbind_Ok in Hr as (_ & _ & Hr). apply rbind_Ok in Hr as (_ & _ & Hr). apply rbind_Ok in Hr as (v' & Hv & Hr).
  rewrite Hs in Hv. rewrite Hd in Hr. by injection Hr as <-.
Qed.

(** The chunk goes back where it was. *)
Lemma set_binary_blank {A} admitted refusal unexpected (K : Carrier A) r r' :
  carrier_laws K -> set_binary admitted refusal unexpected K (blank K r) (default [] (chunk_of K r)) = Ok r' -> r' = r.
Proof.
  intros [L1 L2 L3]. unfold set_binary, blank. destruct (chunk_of K r) as [c|] eqn:Hc; cbn [default].
  - rewrite L1 by done. intros (_ & _ & [= <-])%rbind_Ok. rewrite L3. by apply L2.
  - rewrite Hc. by intros (_ & _ & [= <-])%rbind_Ok.
Qed.
Lemma filled_binary_default {A} (K : Carrier A) r : default [] (filled_binary K r) = default [] (chunk_of K r).
Proof. unfold filled_binary. destruct (decide _) as [->|]; done. Qed.

(** The operation that is decoded is the one that was encoded. *)
Lemma operation_agrees o o' b : encode_operation o = Ok b -> decode_operation b = Ok o' -> o' = o.
Proof.
  intros He Hd. unfold decode_operation in Hd. apply rbind_Ok in Hd as ([w t] & Hu & Hd).
  apply rbind_Ok in Hd as (w' & Hres & Hd). apply rbind_Ok in Hd as (_ & _ & [= ->]). cbn [fst snd] in Hres.
  assert (exists j, to_json operation_json o = Ok j /\ from_json operation_json j = Ok w /\
    match o with
    | PreviewIo r => t = default [] (chunk_of (request_bytes _) r)
    | PreviewStage r => t = default [] (chunk_of (request_bytes _) r)
    | ExportStage r => t = default [] (chunk_of (request_bytes _) r)
    | MetadataFiles r => t = default [] (chunk_of (request_bytes _) r)
    | _ => True
    end) as (j & Hj & Hw & Ht).
  { destruct o; cbn [encode_operation] in He;
      try (apply encode_text in He; destruct (unpack_text _ _ _ _ (law_operation_start _ _ He) Hu); by exists b);
      (eapply pack_unpack in He as (j & Hj & Hw & Ht); [|by apply law_operation_start|done|exact Hu];
       exists j; split_and!; [done..|]; cbn [snd] in Ht; by rewrite Ht, ?filled_binary_default). }
  rewrite (law_operation _ _ _ Hj Hw) in Hres.
  destruct o; cbn [blank_operation restore_operation] in Hres; apply rbind_Ok in Hres as (x & Hx & [= <-]); try done; subst t;
    by rewrite (set_binary_blank _ _ _ _ _ _ (law_requests _) Hx).
Qed.

Lemma blank_form r : reply_form (blank reply_bytes r) = reply_form r.
Proof. unfold blank. destruct (chunk_of _ r); [apply law_form|done]. Qed.
(** A success that is decoded was encoded from a success, the same one unless a
    number was rounded. *)
Lemma success_agrees o x b :
  encode_outcome o = Ok b -> decode_outcome b = Ok (Ok x) -> exists y, o = Ok y /\ (holds_fraction y = false -> x = y).
Proof.
  intros He Hd. unfold decode_outcome in Hd. apply rbind_Ok in Hd as ([w t] & Hu & Hres). cbn [fst snd] in Hres.
  assert (exists j, to_json outcome_json o = Ok j /\ from_json outcome_json j = Ok w /\
    match o with
    | Ok r => reply_form r <> OtherReply -> t = default [] (chunk_of reply_bytes r)
    | Err _ => True
    end) as (j & Hj & Hw & Ht).
  { destruct o as [r|f]; cbn [encode_outcome] in He; [destruct (reply_form r) eqn:Hform|];
      try (apply encode_text in He; destruct (unpack_text _ _ _ _ (law_outcome_start _ _ He) Hu); by exists b);
      (eapply pack_unpack in He as (j & Hj & Hw & Ht); [|by apply law_outcome_start|done|exact Hu];
       exists j; split_and!; [done..|]; cbn [snd] in Ht; by rewrite Ht, ?filled_binary_default). }
  destruct o as [y|f].
  - exists y. split; [done|]. intros Hfr. destruct (law_response _ _ _ Hj Hw) as (r' & -> & Hr').
    rewrite (Hr' Hfr) in Hres. unfold blank_response in Hres.
    destruct (decide (reply_form y = OtherReply)) as [Hother|Hother]; cbn [restore_outcome] in Hres.
    + rewrite Hother in Hres. unfold no_trailer in Hres. by apply rbind_Ok in Hres as (_ & _ & [= ->]).
    + rewrite blank_form, (Ht Hother) in Hres.
      destruct (reply_form y); [..|done]; apply rbind_Ok in Hres as (x' & Hx & [= <-]); by eapply set_binary_blank; [apply law_replies|exact Hx].
  - pose proof (law_failure _ _ _ Hj Hw) as Hk. destruct w as [r|g]; [done|]. cbn in Hres. unfold no_trailer in Hres.
    by apply rbind_Ok in Hres as (_ & _ & [= ?]).
Qed.
End Codec.
