(* ===== verification/FsSystem.v ===== *)
(** The client and the helper together: src/src/filesystem_worker/client.rs and
    process.rs with the two pipes between them.

    What the writer takes goes into the command pipe as frames, in order; what the
    output thread takes goes into the reply pipe.  Control replies may say
    anything.  A pipe may deliver more than was written of a message that broke
    off, and less of anything: nothing below depends on delivery. *)
From stdpp Require Import base tactics option list numbers strings gmap sorting.
From Stdlib Require Import ZArith Lia.
From S2P Require Import FsCodec.
From S2P Require Import Prelude Bytes FsWire FsOps FsProcess FsFrames FsHelper FsSafety FsOrigin FsPromises.
From S2P Require Import FsClient FsClientCalls FsClientSafety FsClientShutdown FsClientPromises.

Open Scope Z_scope.
Local Open Scope prog_scope.

Section System.
Context {ENGINE : Engine} {CODEC : HelperCodec} {CLIENT : ClientCodec} (nonce : list Z) (epoch_id : LeaseId).

(** What [Message::write] puts into a pipe: a message over its cap is refused. *)
Definition frames_of (m : Message) : list Frame :=
  if bool_decide (length nonce = 16%nat) && ((0 <=? m_sequence m) && (m_sequence m <=? u64_max)) && (zlen (m_bytes m) <=? cap (m_kind m))
  then message_frames m nonce else [].
Definition stream (ms : list Message) : list Frame := concat (map frames_of ms).

Record System : Type := mkSystem { client : ClientWorld; helper : World; commands : list Frame; replies : list Frame }.
Definition newly_sent (c c' : ClientWorld) : list Message := drop (length (l_sent (w_log c))) (l_sent (w_log c')).
Definition newly_written (h h' : World) : list Message :=
  match output h, output h' with OAwake, OWriting q b => [mkMessage Result q b] | _, _ => [] end.
Inductive system_step (s : System) : System -> Prop :=
| system_client c : FsClient.labelled_step nonce epoch_id (client s) None c ->
    system_step s (mkSystem c (helper s) (commands s ++ stream (newly_sent (client s) c)) (replies s))
| system_reply f rest c : replies s = f :: rest -> FsClient.labelled_step nonce epoch_id (client s) (Some f) c ->
    system_step s (mkSystem c (helper s) (commands s) rest)
| system_helper h : FsProcess.labelled_step epoch_id nonce (helper s) None h ->
    system_step s (mkSystem (client s) h (commands s) (replies s ++ stream (newly_written (helper s) h)))
| system_command f rest h : commands s = f :: rest -> FsProcess.labelled_step epoch_id nonce (helper s) (Some f) h ->
    system_step s (mkSystem (client s) h rest (replies s)).
Definition initial_system : System := mkSystem FsClient.initial_world FsProcess.initial_world [] [].
Inductive system_reachable : System -> Prop :=
| system_initial : system_reachable initial_system
| system_next s s' : system_reachable s -> system_step s s' -> system_reachable s'.

(** ** A pipe and the assembly at its end *)

(** The frames [q] complete the assembly [a] and then carry the messages. *)
Inductive carried : option Assembly -> list Frame -> list Message -> Prop :=
| carried_whole ms : carried None (stream ms) ms
| carried_part m off fuel ms :
    message_ok m nonce -> reaches fuel m off ->
    carried (Some (partial m nonce off)) (chunks fuel m nonce off ++ stream ms) (m :: ms).
Definition push_frame (a : option Assembly) (f : Frame) : result IoError (Assembly * bool) :=
  match match a with Some a => Ok a | None => assembly_start f end with
  | Ok a => assembly_push a f
  | Err e => Err e
  end.

Lemma stream_app a b : stream (a ++ b) = stream a ++ stream b.
Proof. unfold stream. by rewrite map_app, concat_app. Qed.
Lemma carried_app a q ms more : carried a q ms -> carried a (q ++ stream more) (ms ++ more).
Proof.
  intros [ms'|m off fuel ms' Hm Hr].
  - rewrite <- stream_app. apply carried_whole.
  - rewrite <- (assoc_L (++)), <- stream_app. by apply carried_part.
Qed.
Lemma frames_of_cons m f q : frames_of m = f :: q -> message_ok m nonce /\ frames_of m = chunks (chunk_fuel m) m nonce 0.
Proof.
  unfold frames_of. destruct (_ && _) eqn:H; [|done]. intros _. split; [|done].
  apply andb_true_iff in H as [[H1%bool_decide_eq_true [H2%Z.leb_le H3%Z.leb_le]%andb_true_iff]%andb_true_iff H4%Z.leb_le]. by split.
Qed.
(** What the next frame does. *)
Record feeds (a : option Assembly) (f : Frame) (q : list Frame) (ms : list Message) (m : Message) : Prop := {
  fd_message : m ∈ ms;
  fd_kind : kind f = m_kind m;
  fd_epoch : epoch f = nonce;
  fd_part : forall b, a = Some b -> a_kind b = m_kind m;
  fd_push : exists a' whole ms', push_frame a f = Ok (a', whole) /\ (forall x, x ∈ ms' -> x ∈ ms) /\
    (if whole then assembly_finish a' = Ok m /\ carried None q ms' else a_kind a' = m_kind m /\ carried (Some a') q (m :: ms'));
  fd_single : a = None -> offset f = 0 -> total f = zlen (payload f) -> exists ms', (forall x, x ∈ ms' -> x ∈ ms) /\ carried None q ms';
}.
Lemma chunk_feeds m off fuel q ms all a :
  message_ok m nonce -> reaches (S fuel) m off -> m ∈ all -> (forall x, x ∈ ms -> x ∈ all) ->
  a = Some (partial m nonce off) \/ a = None /\ off = 0 ->
  (chunk m nonce off :: q) = chunks (S fuel) m nonce off ++ stream ms -> feeds a (chunk m nonce off) q all m.
Proof.
  intros Hm Hr Hin Hms Ha Hq. cbn [chunks app] in Hq. injection Hq as Hq.
  set (e := Z.min (zlen (m_bytes m)) (off + CHUNK_BYTES)) in *.
  assert (push_frame a (chunk m nonce off) = Ok (partial m nonce e, e =? zlen (m_bytes m))) as Hp.
  { unfold push_frame. destruct Ha as [->|[-> ->]]; [|rewrite assembly_start_chunk by done]; by eapply assembly_push_chunk. }
  split; try done.
  - intros b ->. by destruct Ha as [[= ->]|[? _]].
  - exists (partial m nonce e), (e =? zlen (m_bytes m)), ms. split; [done|]. split; [done|].
    destruct (Z.eqb_spec e (zlen (m_bytes m))) as [He|He].
    + rewrite He. split; [apply assembly_finish_partial|]. rewrite Hq. apply carried_whole.
    + split; [done|]. rewrite Hq. apply carried_part; [done|]. by apply reaches_next.
  - intros -> _ Ht. exists ms. split; [done|]. rewrite (chunk_length (S fuel)) in Ht by done. destruct Ha as [?|[_ ->]]; [done|].
    fold e in Ht. cbn [chunk total] in Ht. rewrite Z.sub_0_r in Ht. rewrite <- Ht, Z.eqb_refl in Hq. rewrite Hq. apply carried_whole.
Qed.
Lemma carried_feeds a f q ms : carried a (f :: q) ms -> exists m, feeds a f q ms m.
Proof.
  intros H. remember (f :: q) as fq eqn:Hfq. destruct H as [ms|m off fuel ms Hm Hr].
  - assert (exists pre m post r, ms = pre ++ m :: post /\ stream pre = [] /\ frames_of m = f :: r) as (pre & m & post & r & -> & Hpre & Hf).
    { induction ms as [|m ms IH]; [done|]. cbn in Hfq. destruct (frames_of m) as [|f' r] eqn:Hm.
      - destruct (IH Hfq) as (pre & m' & post & r & -> & Hp & Hf). exists (m :: pre), m', post, r.
        split; [done|]. split; [|done]. unfold stream. cbn. by rewrite Hm.
      - injection Hfq as -> _. by exists [], m, ms, r. }
    destruct (frames_of_cons _ _ _ Hf) as [Hok Hch]. rewrite stream_app, Hpre in Hfq. cbn [app] in Hfq.
    change (stream (m :: post)) with (frames_of m ++ stream post) in Hfq. rewrite Hch in Hfq.
    exists m. destruct (chunk_fuel m) as [|fuel] eqn:Hfu; [done|].
    assert (f = chunk m nonce 0) as -> by by injection Hfq.
    apply (chunk_feeds m 0 fuel q post); try done.
    + rewrite <- Hfu. apply reaches_start.
    + apply elem_of_app. right. by left.
    + intros x Hx. apply elem_of_app. right. by right.
    + by right.
  - exists m. destruct fuel as [|fuel]; [by destruct Hr; lia|]. assert (f = chunk m nonce off) as -> by by injection Hfq.
    apply (chunk_feeds m off fuel q ms); try done; [by left|intros x Hx; by right|by left].
Qed.

(** ** Steps of the client *)

Lemma results_of_turn id o n canceled g r w :
  w_results (take_turn id o n canceled g r w) = w_results w /\
  l_results (w_log (take_turn id o n canceled g r w)) = l_results (w_log w).
Proof. unfold take_turn. destruct (call_turn o n canceled g r (w_state w)) as [[] []]; done. Qed.
(** Without a frame of its pipe the reader of results at most starts or ends. *)
Lemma client_quiet c c' :
  FsClient.labelled_step nonce epoch_id c None c' ->
  (w_results c' = w_results c \/ w_shutdown c = DConnecting 1 /\ w_results c' = RReading None /\ w_shutdown c' = DConnecting 2 \/
   w_results c' = REnded /\ (w_results c <> RNew \/ w_shutdown c' = DNone)) /\
  l_results (w_log c') = l_results (w_log c).
Proof.
  intros H. remember None as fr eqn:Hfr.
  destruct H as [id w1 H|w1 H|w1 H|w1 H|control fr' w1 H|w1 H|w1 H|n s Hc H|Hc|Hc|success H|]; try (by split; [left|]).
  - destruct H; try (by split; [left|]).
    + match goal with |- context [take_turn ?a ?b ?c ?d ?e ?f ?g] => destruct (results_of_turn a b c d e f g) as [H1' H2'] end.
      rewrite H1', H2'. by split; [left|].
    + match goal with |- context [take_turn ?a ?b ?c ?d ?e ?f ?g] => destruct (results_of_turn a b c d e f g) as [H1' H2'] end.
      rewrite H1', H2'. by split; [left|].
  - destruct H; by split; [left|].
  - destruct H; by split; [left|].
  - destruct H; by split; [left|].
  - destruct control.
    + destruct H as [a f a' Hr Hf|a f a' m w2 Hr Hf Ha|a f e Hr Hf|a why Hr|a Hr He|a e Hr He]; try (by split; [left|]).
      unfold accept in Ha. apply rbind_Ok in Ha as (v & _ & Ha). apply rbind_Ok in Ha as (s & _ & [= <-]). by split; [left|].
    + destruct H as [a f a' Hr Hf|a f a' m w2 Hr Hf Ha|a f e Hr Hf|a why Hr|a Hr He|a e Hr He]; try done; (split; [right; right; (split; [done|left; cbn in *; congruence])|done]).
  - destruct H; by split; [left|].
  - destruct H as [H|H|H|k why H]; try (by split; [left|]).
    + split; [|done]. right. by left.
    + split; [|done]. cbn. destruct (w_results c); auto 6.
Qed.
(** With a frame: it goes into the assembly, or ends the reader. *)
Lemma client_frame c f c' :
  FsClient.labelled_step nonce epoch_id c (Some f) c' ->
  exists a, w_results c = RReading a /\ l_sent (w_log c') = l_sent (w_log c) /\
    ((exists a', read_frame nonce false a f = Ok (a', None) /\ w_results c' = RReading a' /\ l_results (w_log c') = l_results (w_log c)) \/
     (exists a' m o, read_frame nonce false a f = Ok (a', Some m) /\ decode_outcome (m_bytes m) = Ok o /\ w_results c' = RReading a' /\
       l_results (w_log c') = l_results (w_log c) ++ [(m_sequence m, o, hash_hex (m_bytes m))]) \/
     (w_results c' = REnded /\ l_results (w_log c') = l_results (w_log c))).
Proof.
  intros H. inversion H as [| | | |control fr' w1 Hs Hfr| | | | | | |]; subst. destruct control; [done|]. subst.
  inversion Hs as [a f' a' Hr Hf|a f' a' m w2 Hr Hf Ha|a f' e Hr Hf|?|?|?]; subst; exists a; (split; [done|]).
  - split; [done|]. left. by exists a'.
  - unfold accept in Ha. apply rbind_Ok in Ha as (o & Ho & Ha). apply rbind_Ok in Ha as ([s k] & _ & [= <-]).
    split; [by destruct k|]. right. left. exists a', m, o. by destruct k.
  - split; [done|]. right. by right.
Qed.
Lemma client_starting c :
  FsClient.reachable nonce epoch_id c -> forall k, w_shutdown c = DConnecting k -> (k <= 1)%nat -> w_results c = RNew.
Proof.
  intros H. induction H as [|c1 c2 H1 IH H]; [done|]. intros k Hk Hle.
  destruct (step_shutdown_only nonce epoch_id _ _ H) as [Hs|[Hs|(_ & Hs & _)]].
  - by destruct Hs.
  - destruct Hs as [Hs|Hs|Hs|k' why Hs]; cbn in *; try done; [|injection Hk as <-; lia]. by eapply IH; [exact Hs|lia].
  - rewrite Hs in Hk. destruct H as [[f|] H].
    + apply client_frame in H as (a & Ha & _). by rewrite (IH _ Hk Hle) in Ha.
    + destruct (client_quiet _ _ H) as [[->|[(Hd & _ & Hd')|[_ [He|He]]]] _]; [by eapply IH|congruence|by destruct He; eapply IH|congruence].
Qed.


(** The bytes of a request are those of its operation. *)
Record encoded (c : ClientWorld) : Prop := {
  en_calls : forall id o b, (w_calls c !! id = Some (XQueued o b) \/ exists k, w_calls c !! id = Some (XStarting o b k)) -> encode_operation o = Ok b;
  en_submitted : forall n o b, submitted (w_log c) n o b -> encode_operation o = Ok b;
}.
Lemma encoded_same c c' :
  (w_calls c' = w_calls c \/ w_calls c' = wake_call <$> w_calls c) -> l_submitted (w_log c') = l_submitted (w_log c) -> encoded c -> encoded c'.
Proof.
  intros Hc Hl [E1 E2]. split; [|intros n o b; unfold submitted; rewrite Hl; apply E2].
  intros id o b H. apply (E1 id). destruct Hc as [->| ->] in H; [done|]. rewrite lookup_fmap in H.
  destruct (w_calls c !! id) as [[]|]; destruct H as [H|[k H]]; simplify_eq/=; eauto.
Qed.
Lemma encoded_place c id pc s lock l :
  (forall o b, pc = XQueued o b \/ (exists k, pc = XStarting o b k) -> encode_operation o = Ok b) ->
  (forall n o b, (n, o, b) ∈ l_submitted l -> encode_operation o = Ok b) ->
  encoded c -> encoded (at_calls (<[id := pc]> (w_calls c)) (at_state s (at_lock lock (at_log l c)))).
Proof.
  intros Hpc Hl [E1 E2]. split; [|done]. cbn. intros id' o b H.
  destruct (decide (id = id')) as [->|Hne]; [rewrite lookup_insert_eq in H|rewrite lookup_insert_ne in H by done; eauto].
  apply Hpc. destruct H as [[= ->]|[k [= ->]]]; eauto.
Qed.
Lemma encoded_notify n c : encoded c -> encoded (notify n c).
Proof. intros H. destruct n; [|done]. by eapply encoded_same; [right| |exact H]. Qed.
Lemma encoded_turn id o n canceled g r c : encoded c -> encoded (take_turn id o n canceled g r c).
Proof.
  intros Hc. unfold take_turn. destruct (call_turn o n canceled g r (w_state c)) as [[a s|s g' r'] k]; apply encoded_notify.
  - apply (encoded_place c id XReturned s None); [|apply Hc|done]. by intros o' b [?|[? ?]].
  - apply (encoded_place c id (XWaiting o n g' r') s (w_lock c) (w_log c)); [|apply Hc|done]. by intros o' b [?|[? ?]].
Qed.
Lemma encoded_call c id c' : encoded c -> call_step c id c' -> encoded c'.
Proof.
  intros Hc H. pose proof (en_calls _ Hc) as E1. pose proof (en_submitted _ Hc) as E2.
  destruct H as [o Hcn Hid Hlt|o e Hid He|o b Hid Hv He|o b Hid Hl|o b Hid Hw|o b canceled e Hid Hw He|o b canceled canceled' n s Hid Hw Hs|o n canceled g r Hid|Hid].
  - apply (encoded_place c id (XAdmitted o) _ (w_lock c) (w_log c)); [|exact E2|done]. by intros o' b [?|[? ?]].
  - apply (encoded_place c id XReturned (w_state c) (w_lock c) (w_log c)); [|exact E2|done]. by intros o' b [?|[? ?]].
  - apply (encoded_place c id (XQueued o b) (w_state c) (w_lock c) (w_log c)); [|exact E2|done].
    by intros o' b' [[= <- <-]|[? ?]].
  - apply (encoded_place c id (XStarting o b false) (w_state c) (Some id) (w_log c)); [|exact E2|done].
    intros o' b' [?|[k [= <- <- _]]]; [done|]. by eapply (E1 id); left.
  - apply (encoded_place c id (XStarting o b true) (w_state c) (w_lock c) (w_log c)); [|exact E2|done].
    intros o' b' [?|[k [= <- <- _]]]; [done|]. eapply (E1 id); right; eauto.
  - apply (encoded_place c id XReturned (w_state c) None (w_log c)); [|exact E2|done]. by intros o' b' [?|[? ?]].
  - apply encoded_turn, encoded_notify. split; [exact E1|]. intros n' o' b' [H|[= -> -> ->]%list_elem_of_singleton]%elem_of_app; [by eapply E2|].
    eapply (E1 id). right. eauto.
  - by apply encoded_turn.
  - apply encoded_notify. split; [|exact E2]. cbn. intros id' o b H. apply (E1 id').
    destruct H as [[_ H]%lookup_delete_Some|[k [_ H]%lookup_delete_Some]]; eauto.
Qed.
Lemma encoded_reachable c : FsClient.reachable nonce epoch_id c -> encoded c.
Proof.
  intros H. induction H as [|c1 c2 H1 IH H].
  { split; [intros id o b [H|[k H]]; done|intros n o b H; by apply elem_of_nil in H]. }
  assert ((exists id, call_step c1 id c2) \/
    ((w_calls c2 = w_calls c1 \/ w_calls c2 = wake_call <$> w_calls c1) /\ l_submitted (w_log c2) = l_submitted (w_log c1))) as [[id Hc]|[Hc Hl]];
    [|by eapply encoded_call|by eapply encoded_same].
  pose proof (step_aside nonce epoch_id _ _ H) as [?|[Hc _ _ _ _ Hs]]; [by left|by right].
Qed.

(** ** Steps of the helper *)

Lemma helper_quiet (source : Z -> Operation -> Prop) h h' :
  FsProcess.labelled_step epoch_id nonce h None h' -> origin source (st (mem h)) (exec h) (FsProcess.log h) ->
  origin source (st (mem h')) (exec h') (FsProcess.log h') /\ asm (mem h') = asm (mem h) /\
  (input h' = IReading -> input h = IReading) /\ completed (FsProcess.log h) ⊆ completed (FsProcess.log h').
Proof.
  intros H Ho. remember None as fr eqn:Hfr.
  destruct H as [f m' n Hi H|f m' e Hi H|Hi|Hi|m' l' pc n H|m' l' pc n H|m' l' pc n H|]; try done; cbn.
  - split_and!; [|apply close_input_asm|done|done]. apply origin_wake. eapply origin_quiet; [exact Ho| |by left|done..].
    apply (sh_queued _ _ (close_input_shrinks _)).
  - split_and!; [by eapply exec_step_origin|by eapply exec_step_asm|done|].
    destruct (exec_step_log _ _ _ _ _ _ _ _ H) as (_ & _ & [more ->]). by apply list_subseteq_app_l.
  - destruct (output_step_log _ _ _ _ _ _ _ H) as (H1 & H2 & _). rewrite H2. split_and!; [| |done|done].
    + apply origin_wake. eapply origin_quiet; [exact Ho|apply (sh_queued _ _ (output_shrinks _ _ _ _ _ _ _ H))|by left|done..].
    + destruct H as [m1 pc H|q b|q b why]; [|done|unfold shared_fail; by rewrite stop_asm].
      unfold output_turn in H. destruct (retained _) as [r|]; [destruct (result_sent r)|]; by injection H as <- _.
  - destruct (control_step_log _ _ _ _ _ _ _ H) as (H1 & H2 & _). rewrite H2. split_and!; [| |done|done].
    + apply origin_wake. eapply origin_quiet; [exact Ho|apply (sh_queued _ _ (control_shrinks _ _ _ _ _ _ _ H))|by left|done..].
    + destruct H as [seen m1 pc H|q v d seen H|q v d seen why]; [|done|unfold shared_fail; by rewrite stop_asm].
      unfold control_turn in H. destruct (store_reply _) as [[q v]|]; [by injection H as <- _|].
      destruct (admission_reply _) as [[q v]|]; [by injection H as <- _|]. destruct (_ =? _); by injection H as <- _.
  - split_and!; [by apply origin_wake|done..].
Qed.
Lemma helper_frame h f h' :
  FsProcess.labelled_step epoch_id nonce h (Some f) h' ->
  exists r, input_frame nonce epoch_id f (mem h) = (mem h', r) /\ FsProcess.log h' = FsProcess.log h /\
    (exists n, exec h' = wake_exec n (exec h)) /\ output h' = wake_output (is_ok r && (if r is Ok true then true else false)) (output h) /\
    input h = IReading /\ (input h' = IReading -> is_ok r = true).
Proof.
  intros H. inversion H as [f' m' n Hi Hf|f' m' e Hi Hf| | | | | |]; subst.
  - exists (Ok n). split_and!; try done; [by exists n|by destruct n].
  - exists (Err e). split_and!; try done; [exists false; by destruct (exec h)|by destruct (output h)].
Qed.

(** ** The invariant *)

Definition asked (c : ClientWorld) (n : Z) (o : Operation) : Prop :=
  exists b, mkMessage Execute n b ∈ l_sent (w_log c) /\ decode_operation b = Ok o.
Definition reported (h : World) (m : Message) : Prop :=
  exists q b, m = mkMessage Result q b /\ (q, b) ∈ completed (FsProcess.log h).
Record system_inv (s : System) : Prop := {
  sy_client : FsClient.reachable nonce epoch_id (client s);
  sy_helper : FsProcess.reachable epoch_id nonce (helper s);
  sy_commands : input (helper s) = IReading ->
    (forall a, asm (mem (helper s)) = Some a -> a_kind a = Execute) /\
    exists ms, (forall m, m ∈ ms -> m ∈ l_sent (w_log (client s))) /\ carried (asm (mem (helper s))) (commands s) ms;
  sy_origin : origin (asked (client s)) (st (mem (helper s))) (exec (helper s)) (FsProcess.log (helper s));
  sy_replies : forall a, w_results (client s) = RReading a \/ w_results (client s) = RNew /\ a = None ->
    exists ms, (forall m, m ∈ ms -> reported (helper s) m) /\ carried a (replies s) ms;
  sy_results : forall n o d, (n, o, d) ∈ l_results (w_log (client s)) ->
    exists b, (n, b) ∈ completed (FsProcess.log (helper s)) /\ decode_outcome b = Ok o;
}.
Lemma asked_mono c c' n o : l_sent (w_log c) ⊆ l_sent (w_log c') -> asked c n o -> asked c' n o.
Proof. intros H (b & Hb & Ho). exists b. split; [by apply H|done]. Qed.
Lemma sent_grows c c' : FsClient.step nonce epoch_id c c' -> l_sent (w_log c') = l_sent (w_log c) ++ newly_sent c c'.
Proof.
  intros H%progress_step. unfold newly_sent. destruct (pr_sent _ _ H) as [->|(m & s & _ & _ & ->)].
  - by rewrite drop_all, app_nil_r.
  - by rewrite drop_app_length.
Qed.
Lemma system_initial_inv : system_inv initial_system.
Proof.
  split; cbn.
  - apply FsClient.steps_refl.
  - apply FsProcess.steps_refl.
  - intros _. split; [done|]. exists []. split; [intros m H; by apply elem_of_nil in H|apply (carried_whole [])].
  - split; cbn; try done; intros; exfalso; by eapply not_elem_of_nil.
  - intros a [?|[_ ->]]; [done|]. exists []. split; [intros m H; by apply elem_of_nil in H|apply (carried_whole [])].
  - intros n o d H. by apply elem_of_nil in H.
Qed.


Lemma read_frame_push control a f a' r :
  read_frame nonce control a f = Ok (a', r) ->
  exists b whole, push_frame a f = Ok (b, whole) /\
    if whole then a' = None /\ exists m, r = Some m /\ assembly_finish b = Ok m else a' = Some b /\ r = None.
Proof.
  unfold read_frame, push_frame. intros H. apply rbind_Ok in H as (_ & _ & H). apply rbind_Ok in H as (_ & _ & H).
  apply rbind_Ok in H as (b & Hb & H). apply rbind_Ok in H as ([b' whole] & Hp & H).
  assert (match a with Some a => Ok a | None => assembly_start f end = Ok b) as ->.
  { destruct a; [by injection Hb as <-|]. unfold FsClient.io in Hb. by destruct (assembly_start f); simplify_eq. }
  exists b', whole. assert (assembly_push b f = Ok (b', whole)) as ->.
  { unfold FsClient.io in Hp. by destruct (assembly_push b f); simplify_eq. }
  split; [done|]. cbn in H. destruct whole; [|by injection H as <- <-].
  apply rbind_Ok in H as (m & Hm & [= <- <-]). split; [done|]. exists m. split; [done|].
  unfold FsClient.io in Hm. by destruct (assembly_finish b'); simplify_eq.
Qed.
Lemma frame_operation_push f m n o :
  frame_operation f m = Some (n, o) ->
  exists a' msg, push_frame (asm m) f = Ok (a', true) /\ assembly_finish a' = Ok msg /\ m_sequence msg = n /\ decode_operation (m_bytes msg) = Ok o.
Proof.
  unfold frame_operation, push_frame. intros H. destruct (match asm m with Some _ => _ | None => _ end) as [a|e]; [|done].
  destruct (assembly_push a f) as [[a' [|]]|e]; try done. destruct (assembly_finish a') as [msg|e] eqn:Hf; [|done].
  destruct (decode_operation (m_bytes msg)) as [o'|e] eqn:Hd; [|done]. injection H as <- <-. by exists a', msg.
Qed.
Lemma next_asm_push f a : next_asm f a = match push_frame a f with Ok (a', false) => Some a' | _ => None end.
Proof. unfold next_asm, push_frame. by destruct (match a with Some _ => _ | None => _ end). Qed.
Lemma reported_mono h h' m : completed (FsProcess.log h) ⊆ completed (FsProcess.log h') -> reported h m -> reported h' m.
Proof. intros H (q & b & -> & Hb). exists q, b. split; [done|by apply H]. Qed.

Lemma system_client_inv s c :
  system_inv s -> FsClient.labelled_step nonce epoch_id (client s) None c ->
  system_inv (mkSystem c (helper s) (commands s ++ stream (newly_sent (client s) c)) (replies s)).
Proof.
  intros [Y1 Y2 Y3 Y4 Y5 Y6] H. destruct (client_quiet _ _ H) as [Hr Hl].
  assert (FsClient.step nonce epoch_id (client s) c) as Hs by by eexists. pose proof (sent_grows _ _ Hs) as Hsent.
  assert (l_sent (w_log (client s)) ⊆ l_sent (w_log c)) as Hsub by (rewrite Hsent; by apply list_subseteq_app_l).
  split; cbn.
  - by eapply FsClient.steps_next.
  - done.
  - intros Hi. destruct (Y3 Hi) as [Hk (ms & Hms & Hc)]. split; [done|].
    exists (ms ++ newly_sent (client s) c). split; [|by apply carried_app].
    intros m [Hm|Hm]%elem_of_app; [by apply Hsub, Hms|]. rewrite Hsent. apply elem_of_app. by right.
  - eapply origin_mono; [|exact Y4]. intros n o. by apply asked_mono.
  - intros a Ha. destruct Hr as [Hr|[(Hd & Hr & _)|[Hr _]]]; rewrite Hr in Ha.
    + by apply Y5.
    + destruct Ha as [[= <-]|[? _]]; [|done]. apply Y5. right. split; [|done]. by eapply client_starting.
    + by destruct Ha as [?|[? _]].
  - by rewrite Hl.
Qed.
Lemma system_reply_inv s f rest c :
  system_inv s -> replies s = f :: rest -> FsClient.labelled_step nonce epoch_id (client s) (Some f) c ->
  system_inv (mkSystem c (helper s) (commands s) rest).
Proof.
  intros [Y1 Y2 Y3 Y4 Y5 Y6] Hq H. destruct (client_frame _ _ _ H) as (a & Ha & Hsent & Hcase).
  destruct (Y5 a (or_introl Ha)) as (ms & Hms & Hc). rewrite Hq in Hc. destruct (carried_feeds _ _ _ _ Hc) as [m Hf].
  destruct (fd_push _ _ _ _ _ Hf) as (b & whole & ms' & Hp & Hsub & Hw).
  split; cbn.
  - eapply FsClient.steps_next; [exact Y1|]. by eexists.
  - done.
  - by rewrite Hsent.
  - eapply origin_mono; [|exact Y4]. intros n o. apply asked_mono. by rewrite Hsent.
  - intros a0 Ha0. destruct Hcase as [(a' & Hrf & Hr & _)|[(a' & m' & o & Hrf & Ho & Hr & _)|[Hr _]]]; rewrite Hr in Ha0;
      (destruct Ha0 as [Ha0|[? _]]; [|done]); try done; injection Ha0 as <-;
      destruct (read_frame_push _ _ _ _ _ Hrf) as (b' & whole' & Hp' & Hx); rewrite Hp in Hp'; injection Hp' as <- <-.
    + destruct whole; [by destruct Hx as (_ & ? & ? & _)|]. destruct Hx as [-> _]. destruct Hw as [_ Hw]. exists (m :: ms'). split; [|done].
      intros x [->|Hx]%elem_of_cons; [apply Hms, Hf|by apply Hms, Hsub].
    + destruct whole; [|by destruct Hx]. destruct Hx as [-> _]. exists ms'. split; [|apply Hw]. intros x Hx. by apply Hms, Hsub.
  - destruct Hcase as [(a' & Hrf & Hr & ->)|[(a' & m' & o & Hrf & Ho & Hr & ->)|[Hr ->]]]; try done.
    intros n o' d [Hx|[= -> -> ->]]%elem_snoc; [by eapply Y6|].
    destruct (read_frame_push _ _ _ _ _ Hrf) as (b' & whole' & Hp' & Hx). rewrite Hp in Hp'. injection Hp' as <- <-.
    destruct whole; [|by destruct Hx as [_ ?]]. destruct Hx as (_ & m1 & [= <-] & Hfin). destruct Hw as [Hfin' _].
    rewrite Hfin in Hfin'. injection Hfin' as <-. destruct (Hms m' (fd_message _ _ _ _ _ Hf)) as (q & bs & -> & Hb). by exists bs.
Qed.
Lemma system_helper_inv s h :
  system_inv s -> FsProcess.labelled_step epoch_id nonce (helper s) None h ->
  system_inv (mkSystem (client s) h (commands s) (replies s ++ stream (newly_written (helper s) h))).
Proof.
  intros [Y1 Y2 Y3 Y4 Y5 Y6] H. destruct (helper_quiet _ _ _ H Y4) as (Ho & Hasm & Hi & Hc).
  assert (FsProcess.reachable epoch_id nonce h) as Hr by (eapply FsProcess.steps_next; [exact Y2|by eexists]).
  split; cbn; try done.
  - intros Hi'. rewrite Hasm. by apply Y3, Hi.
  - intros a Ha. destruct (Y5 a Ha) as (ms & Hms & Hca). exists (ms ++ newly_written (helper s) h). split; [|by apply carried_app].
    intros m [Hm|Hm]%elem_of_app; [eapply reported_mono; [exact Hc|by apply Hms]|]. unfold newly_written in Hm.
    destruct (output (helper s)); try (by apply elem_of_nil in Hm). destruct (output h) as [| |q b|] eqn:Hout; try (by apply elem_of_nil in Hm).
    apply list_elem_of_singleton in Hm as ->. exists q, b. split; [done|]. by apply (wi_writing _ (world_reachable _ _ _ Hr)).
  - intros n o d (b & Hb & Hd)%Y6. exists b. split; [by apply Hc|done].
Qed.
Lemma system_command_inv s f rest h :
  system_inv s -> commands s = f :: rest -> FsProcess.labelled_step epoch_id nonce (helper s) (Some f) h ->
  system_inv (mkSystem (client s) h rest (replies s)).
Proof.
  intros [Y1 Y2 Y3 Y4 Y5 Y6] Hq H. destruct (helper_frame _ _ _ H) as (r & Hf & Hlog & [n Hexec] & _ & Hi & Hok).
  destruct (Y3 Hi) as [Hk (ms & Hms & Hc)]. rewrite Hq in Hc. destruct (carried_feeds _ _ _ _ Hc) as [m Hfd].
  destruct (fd_push _ _ _ _ _ Hfd) as (a' & whole & ms' & Hp & Hsub & Hw). pose proof (fd_message _ _ _ _ _ Hfd) as Hm.
  pose proof (fd_kind _ _ _ _ _ Hfd) as Hkind.
  split; cbn; rewrite ?Hlog; try done.
  - eapply FsProcess.steps_next; [exact Y2|by eexists].
  - intros Hi'. specialize (Hok Hi'). destruct r as [k|x]; [|done]. destruct (input_frame_asm _ _ _ _ _ _ Hf) as [He Hne].
    destruct (decide (kind f = Execute)) as [Hx|Hx].
    + rewrite (He Hx), next_asm_push, Hp. destruct whole.
      * split; [done|]. exists ms'. split; [auto|apply Hw].
      * destruct Hw as [Hka Hw]. split; [intros a [= <-]; congruence|]. exists (m :: ms'). split; [|done].
        intros x [->|Hx']%elem_of_cons; auto.
    + destruct (Hne Hx) as (-> & Ho & Ht). split; [done|].
      assert (asm (mem (helper s)) = None) as Hnone.
      { destruct (asm (mem (helper s))) as [b|] eqn:Hb; [|done]. pose proof (fd_part _ _ _ _ _ Hfd b eq_refl). rewrite (Hk b eq_refl) in *. congruence. }
      rewrite Hnone. destruct (fd_single _ _ _ _ _ Hfd Hnone Ho Ht) as (ms1 & Hs1 & Hc1). exists ms1. split; [auto|done].
  - rewrite Hexec. apply origin_wake. eapply frame_origin; [exact Hf| |exact Y4]. intros q o Hx Hop.
    destruct (frame_operation_push _ _ _ _ Hop) as (b & msg & Hp' & Hfin & <- & Hd). rewrite Hp in Hp'. injection Hp' as <- ->.
    destruct Hw as [Hfin' _]. rewrite Hfin in Hfin'. injection Hfin' as ->. exists (m_bytes m). split; [|done].
    apply Hms in Hm. rewrite <- Hx, Hkind. by destruct m.
  - intros a Ha. destruct (Y5 a Ha) as (ms1 & Hms1 & Hc1). exists ms1. split; [|done]. intros x Hx. eapply reported_mono; [|by apply Hms1]. by rewrite Hlog.
Qed.
Lemma system_reachable_inv s : system_reachable s -> system_inv s.
Proof.
  induction 1 as [|s s' _ IH H]; [apply system_initial_inv|]. destruct H.
  - by apply system_client_inv.
  - by eapply system_reply_inv.
  - by apply system_helper_inv.
  - by eapply system_command_inv.
Qed.

(** ** Schedules *)

Inductive SystemAction : Type :=
| OfClient (a : ClientAction) | OfHelper (a : Action) | Reply | Command.
Definition system_perform (a : SystemAction) (s : System) : option System :=
  match a with
  | OfClient a =>
      match client_label a, client_perform nonce a (client s) with
      | None, Some c => Some (mkSystem c (helper s) (commands s ++ stream (newly_sent (client s) c)) (replies s))
      | _, _ => None
      end
  | OfHelper a =>
      match action_label a, perform nonce epoch_id a (helper s) with
      | None, Some h => Some (mkSystem (client s) h (commands s) (replies s ++ stream (newly_written (helper s) h)))
      | _, _ => None
      end
  | Reply =>
      match replies s with
      | f :: rest =>
          match client_perform nonce (CFrame false f) (client s) with
          | Some c => Some (mkSystem c (helper s) (commands s) rest)
          | None => None
          end
      | [] => None
      end
  | Command =>
      match commands s with
      | f :: rest =>
          match perform nonce epoch_id (AFrame f) (helper s) with
          | Some h => Some (mkSystem (client s) h rest (replies s))
          | None => None
          end
      | [] => None
      end
  end.
Lemma system_perform_step a s s' : system_perform a s = Some s' -> system_step s s'.
Proof.
  destruct a as [a|a| |]; cbn [system_perform]; intros H.
  - destruct (client_label a) eqn:Hl; [done|]. destruct (client_perform nonce a (client s)) as [c|] eqn:Hc; [|done]. injection H as <-.
    apply system_client. rewrite <- Hl. by apply client_perform_labelled.
  - destruct (action_label a) eqn:Hl; [done|]. destruct (perform nonce epoch_id a (helper s)) as [h|] eqn:Hc; [|done]. injection H as <-.
    apply system_helper. rewrite <- Hl. by apply perform_labelled.
  - destruct (replies s) as [|f rest] eqn:Hq; [done|]. destruct (client_perform nonce (CFrame false f) (client s)) as [c|] eqn:Hc; [|done].
    injection H as <-. eapply system_reply; [exact Hq|]. by apply (client_perform_labelled nonce epoch_id (CFrame false f)).
  - destruct (commands s) as [|f rest] eqn:Hq; [done|]. destruct (perform nonce epoch_id (AFrame f) (helper s)) as [h|] eqn:Hc; [|done].
    injection H as <-. eapply system_command; [exact Hq|]. by apply (perform_labelled nonce epoch_id (AFrame f)).
Qed.
Fixpoint system_run (schedule : list SystemAction) (s : System) : option System :=
  match schedule with
  | [] => Some s
  | a :: rest => match system_perform a s with Some s' => system_run rest s' | None => None end
  end.
Lemma system_run_reachable schedule s s' : system_reachable s -> system_run schedule s = Some s' -> system_reachable s'.
Proof.
  revert s. induction schedule as [|a rest IH]; cbn; intros s Hr H; [by injection H as <-|].
  destruct (system_perform a s) as [s1|] eqn:Ha; [|done]. eapply IH; [|exact H]. eapply system_next; [exact Hr|by apply (system_perform_step a)].
Qed.
End System.

(** One entry of a key. *)
Lemma filter_key_once {A} (l : list (Z * A)) n a : NoDup l.*1 -> (n, a) ∈ l -> filter (fun e => e.1 = n) l = [(n, a)].
Proof.
  induction l as [|[k v] l IH]; [by intros _ ?%elem_of_nil|]. rewrite fmap_cons. intros [Hk Hl]%NoDup_cons [[= <- <-]|H]%elem_of_cons.
  - rewrite filter_cons_True by done. f_equal. destruct (filter _ l) as [|[k' v'] r] eqn:Hf; [done|].
    assert ((k', v') ∈ filter (fun e => e.1 = n) l) as [Hn Hin]%list_elem_of_filter by (rewrite Hf; by left).
    cbn in Hn. subst k'. by apply (list_elem_of_fmap_2 fst) in Hin.
  - rewrite filter_cons_False; [by apply IH|]. cbn. intros ->. apply Hk. by apply (list_elem_of_fmap_2 fst) in H.
Qed.

(** ** The promises of the two together *)

(** Both ends use the codec of wire.rs; what is assumed is serde's JSON and the
    fields of the requests and replies that carry a chunk. *)
Section Together.
Context {ENGINE : Engine} {TRANSPORT : FsCodec.Transport} {SERDE : FsCodec.Serde}.
Context {TRANSPORT_LAWS : FsCodec.TransportLaws} {SERDE_LAWS : FsCodec.SerdeLaws}.
Context (nonce : list Z) (epoch_id : LeaseId).

Lemma asked_submitted c n o :
  FsClient.reachable nonce epoch_id c -> asked c n o ->
  exists b, submitted (w_log c) n o b /\ FsCodec.encode_operation o = Ok b /\ mkMessage Execute n b ∈ executes (w_log c).
Proof.
  intros Hr (b & Hb & Ho). assert (mkMessage Execute n b ∈ executes (w_log c)) as He by by apply elem_executes.
  destruct (client_reachable nonce epoch_id c Hr) as [_ R _]. destruct (ri_sent _ _ _ R _ He) as (_ & o' & Hsub). cbn in Hsub.
  pose proof (en_submitted _ (encoded_reachable nonce epoch_id c Hr) _ _ _ Hsub) as Henc.
  rewrite (FsCodec.operation_agrees _ _ _ Henc Ho). by exists b.
Qed.
Lemma submitted_once c n o o' b b' :
  FsClient.reachable nonce epoch_id c -> submitted (w_log c) n o b -> submitted (w_log c) n o' b' -> o = o' /\ b = b'.
Proof.
  intros Hr H H'. destruct (client_reachable nonce epoch_id c Hr) as [_ R _]. destruct (ri_sequence _ _ _ R) as [Hs _].
  apply list_elem_of_lookup in H as [i Hi], H' as [j Hj].
  assert ((l_submitted (w_log c)).*1.*1 !! i = Some n) as Hi' by by rewrite !list_lookup_fmap, Hi.
  assert ((l_submitted (w_log c)).*1.*1 !! j = Some n) as Hj' by by rewrite !list_lookup_fmap, Hj.
  assert (i = j) as ->; [|by simplify_eq].
  eapply NoDup_lookup; [|exact Hi'|exact Hj']. rewrite Hs. apply NoDup_seqZ.
Qed.
(** The report that an outcome could not be transported is not read as a success. *)
Lemma success_bytes r b x :
  outcome_bytes r = Ok b -> FsCodec.decode_outcome b = Ok (Ok x) ->
  exists y, r = Ok y /\ (FsCodec.holds_fraction y = false -> x = y).
Proof.
  unfold outcome_bytes. intros H Hd. destruct (encode_outcome (checked_outcome r)) as [b'|e] eqn:He.
  - injection H as ->. destruct (FsCodec.success_agrees _ _ _ He Hd) as (y & Hy & Hx). exists y. split; [|done].
    unfold checked_outcome in Hy. destruct r as [z|f]; [congruence|]. by destruct (failure_valid f).
  - by destruct (FsCodec.success_agrees _ _ _ H Hd) as (y & [=] & _).
Qed.
Lemma executed_once h : FsProcess.reachable epoch_id nonce h -> NoDup (executed (FsProcess.log h)).*1.
Proof.
  intros H. pose proof (hi_order _ _ _ _ (wi_helper _ (world_reachable _ _ _ H))) as Hs.
  induction Hs as [|x l Hs IH Hx]; constructor; [|done].
  intros Hin. rewrite Forall_forall in Hx. specialize (Hx _ Hin). lia.
Qed.

(** C5. The engine is only ever handed what a call submitted: an operation it executes
    with a sequence is the one that was submitted under this sequence, its bytes
    were sent, and no sequence is executed twice. *)
Theorem executions_are_requests s :
  system_reachable nonce epoch_id s ->
  NoDup (executed (FsProcess.log (helper s))).*1 /\
  forall n o, (n, o) ∈ executed (FsProcess.log (helper s)) ->
    exists b, submitted (w_log (client s)) n o b /\ FsCodec.encode_operation o = Ok b /\
      mkMessage Execute n b ∈ executes (w_log (client s)).
Proof.
  intros [Y1 Y2 _ Y4 _ _]%system_reachable_inv. split; [by apply executed_once|].
  intros n o H. apply asked_submitted; [done|]. by apply (og_executed _ _ _ _ Y4).
Qed.

(** C4. A success a caller sees happened: when a call answers [Ok x], the engine was
    handed its operation, exactly once, and nothing else under its sequence; and the
    helper produced under that sequence the bytes of a success [y], which the client
    reads as [x].  [x] is [y] itself unless JSON rounds a number of [y]. *)
Theorem answers_are_executions s n o x :
  system_reachable nonce epoch_id s -> (n, o, Ok x) ∈ l_answers (w_log (client s)) ->
  filter (fun e => e.1 = n) (executed (FsProcess.log (helper s))) = [(n, o)] /\
  exists y b, (n, b) ∈ completed (FsProcess.log (helper s)) /\
    outcome_bytes (Ok y) = Ok b /\ FsCodec.decode_outcome b = Ok (Ok x) /\
    (FsCodec.holds_fraction y = false -> x = y).
Proof.
  intros [Y1 Y2 _ Y4 _ Y6]%system_reachable_inv Ha. destruct (client_reachable nonce epoch_id _ Y1) as [_ R _].
  destruct (ri_answers _ _ _ R n o (Ok x) Ha) as [[d Hd] [b0 Hsub]]. destruct (Y6 _ _ _ Hd) as (b & Hb & Hdec).
  destruct (og_completed _ _ _ _ Y4 n b Hb) as (r & Hr & Hx). destruct (success_bytes _ _ _ Hr Hdec) as (y & -> & Hy).
  split; [|by exists y, b]. destruct (Hx eq_refl) as [o1 Ho1].
  pose proof Ho1 as Ho. apply (og_executed _ _ _ _ Y4) in Ho. destruct (asked_submitted _ _ _ Y1 Ho) as (b' & Hsub' & _).
  destruct (submitted_once _ _ _ _ _ _ Y1 Hsub' Hsub) as [-> _]. apply filter_key_once; [by apply executed_once|done].
Qed.
End Together.

(** ** A run *)

Module SystemDemo.
(** An engine whose requests and replies may hold a chunk. *)
#[export] Instance paths : Paths := {|
  NativePath := string; path_eq_dec := _; validate_path := fun _ => Ok tt;
  is_catalog_of := fun _ _ => true; is_manifest := fun _ => true |}.
Definition capability : RootCapability := mkRoot "epoch" "token" "session" "root" (Unix 1 2) (Unix 1 3).
#[export] Instance engine : Engine := {|
  engine_paths := paths; Request := fun _ => option (list Z); cleanup := fun _ _ => false;
  request_root := fun _ _ => capability; request_operation := fun _ _ => 1;
  PrepareRest := unit; RoleObservations := unit; StoreStatus := unit; StoreSnapshot := unit; ObjectSnapshot := unit;
  store_status := fun _ _ => Ok tt; object_status := fun _ _ => Ok tt; status_valid := fun _ _ => Ok tt;
  Response := option (list Z); hash_hex := fun _ => "digest"%string |}.
Definition optional_chunk : FsCodec.Carrier (option (list Z)) := FsCodec.mkCarrier id (fun r b => r ≫= fun _ => Some b).
#[export] Instance transport : FsCodec.Transport := {|
  FsCodec.request_bytes _ := optional_chunk; FsCodec.reply_form _ := FsCodec.PreviewIoReply;
  FsCodec.reply_bytes := optional_chunk; FsCodec.holds_fraction _ := false;
  FsCodec.operation_valid _ := Ok tt |}.
Definition refuse {A} (_ : A) : result string (list Z) := Err "json"%string.
(** A text of one byte says which operation or reply it is, without its chunk. *)
#[export] Instance serde : FsCodec.Serde := {|
  FsCodec.operation_json := FsCodec.mkJson
    (fun o => match o with PreviewIo None => Ok [0] | PreviewIo (Some _) => Ok [1] | _ => Err "json"%string end)
    (fun b => match b with [0] => Ok (PreviewIo None) | [1] => Ok (PreviewIo (Some [])) | _ => Err "json"%string end);
  FsCodec.outcome_json := FsCodec.mkJson
    (fun o => match o with Ok None => Ok [2] | Ok (Some _) => Ok [3] | Err _ => Err "json"%string end)
    (fun b => match b with [2] => Ok (Ok None) | [3] => Ok (Ok (Some [])) | _ => Err "json"%string end);
  FsCodec.ack_json := FsCodec.mkJson (fun a => Ok [a.1])
    (fun b => match b with [q] => Ok (q, "digest"%string) | _ => Err "json"%string end);
  FsCodec.query_json := FsCodec.mkJson refuse (fun _ => Err "json"%string);
  FsCodec.admission_json := FsCodec.mkJson refuse (fun _ => Err "json"%string);
  FsCodec.control_json := FsCodec.mkJson (fun _ => Ok [])
    (fun b => match b with [1] => Ok (CStatus (ClientDemo.report ReadyPhase None)) | _ => Err "json"%string end) |}.
Lemma optional_laws : FsCodec.carrier_laws optional_chunk.
Proof. split; [by intros [] b [c [= ]]|by intros [] b [= ->]|by intros []]. Qed.
#[export] Instance transport_laws : FsCodec.TransportLaws.
Proof. split; [intros c; apply optional_laws|apply optional_laws|done]. Qed.
#[export] Instance serde_laws : FsCodec.SerdeLaws.
Proof.
  split; cbn.
  - by intros [| | | | |[]| | | | | | | | | | | | | | | | | | | | | | | | |] j [= <-].
  - by intros [[]|] j [= <-].
  - by intros [| | | | |[]| | | | | | | | | | | | | | | | | | | | | | | | |] o' j [= <-] [= <-].
  - by intros f o' j [=].
  - intros [c|] o' j [= <-] [= <-]; eauto.
Qed.
Definition pipe_nonce : list Z := replicate 16 9.
Definition work : Operation := PreviewIo (Some [10; 11; 12]).
Definition reply : Response := Some [20; 21].
Definition ready : ClientAction := CFrame true (mkFrame Control pipe_nonce 0 0 1 [1]).
(** A call with a chunk, its execution, its answer with another and the
    acknowledgement. *)
Definition exchange : list SystemAction :=
  map OfClient [CConnect; CConnect; CConnect; CGreeted; ready; CEnter 0 work; CValid 0; CLock 0; CSubmit 0; CTake; CWritten] ++
  [OfHelper AStart; Command; OfHelper ATurn; OfHelper ABegin; OfHelper (AReturn (Ok reply)); OfHelper ARetain; OfHelper AOutput; Reply] ++
  map OfClient [CTurn 0; CTake; CWritten] ++ [Command].
Definition exchanged : System := default initial_system (system_run pipe_nonce "epoch" exchange initial_system).
Lemma exchanged_reachable : system_reachable pipe_nonce "epoch" exchanged.
Proof.
  assert (system_run pipe_nonce "epoch" exchange initial_system = Some exchanged) as H by by vm_compute.
  eapply system_run_reachable; [apply system_initial|exact H].
Qed.
End SystemDemo.
Import SystemDemo.

Lemma executions_are_requests_witness : exists b, mkMessage Execute 1 b ∈ executes (w_log (client exchanged)).
Proof.
  destruct (executions_are_requests pipe_nonce "epoch" exchanged exchanged_reachable) as [_ H].
  destruct (H 1 work) as (b & _ & _ & Hb); [vm_compute; by left|]. by exists b.
Defined.
Lemma answers_are_executions_witness :
  retained (st (mem (helper exchanged))) = None /\ filter (fun e => e.1 = 1) (executed (FsProcess.log (helper exchanged))) = [(1, work)].
Proof.
  split; [by vm_compute|].
  destruct (answers_are_executions pipe_nonce "epoch" exchanged 1 work reply exchanged_reachable) as [H _]; [vm_compute; by left|].
  exact H.
Defined.
